(* ===== verification/_CoqProject ===== *)
-Q . S2P
Prelude.v
BinTools.v
FilterBlock.v
FilterDefs.v
FilterCore.v
FilterRefine.v
FilterQuery.v
FilterLogic.v
FilterDelayed.v
FilterGrow.v
FilterCopy.v
FilterIter.v
MD5.v
Doubles.v
MemBlock.v
ByteFile.v
RSIHist.v
RSIHistFile.v
RSICMap.v
RoughCheck.v
CprsBase.v
QSort.v
RangeCoder.v
HashChain.v
CprsDict.v
NumFilters.v
TopBitDict.v
PartDict.v
NumCompressor.v
BitStream.v
ArithCoder.v
BitstreamCompressor.v
PackN.v
KeyOrder.v
IntEncoders.v
TextEncoders.v
Sorter.v
SorterCount.v
SorterLimit.v
CacheItem.v
SorterMulti.v
SorterCreate.v
DoubleSums.v
Aggregators.v
RowStorage.v
MatchTable.v
MatchHash.v
MatchSimple.v
MatchCreate.v
DistinctTable.v
GroupTable.v
GroupRep.v
GroupBy.v
GroupFindings.v
