(* ===== verification/Prelude.v ===== *)
(** * Infobright storage engine: a verification library

    Infobright is a column store built into MySQL as the engine BRIGHTHOUSE; its own code is
    under src/src/storage/brighthouse (all paths below are relative to it), the MySQL server
    under src/vendor is third-party code.  A table is cut into packs of 65536 rows.  A query

    - starts with the set of all rows of each table, a _filter_;
    - asks the _rough indexes_ of a column (histograms, character maps, the minimum and the
      maximum of each pack) which packs can be left out or taken whole, and updates the filter
      pack by pack;
    - loads and decompresses the _data packs_ that are left, evaluates the conditions on their
      rows through _filter iterators_ and updates the filter row by row;
    - sorts, groups and joins rows through binary keys, and returns them.

    The loader goes the other way: it fills data packs, compresses and saves them, and builds
    the rough indexes.

    ** Files and the code they model

    Shared
    - Prelude: arrays as lists with indices in [Z], machine words ([wrap], [swrap], [is_word]),
      intervals of integers, tactics and lemmas of general use;
    - BinTools, MD5: core/bintools.cpp (population counts, bit sizes, checked product,
      three-valued rough logic, monotone encoding of doubles; hashes);
    - Doubles: the binary64 arithmetic that the histograms use;
    - QSort: util/BHQSort.h; MemBlock, ByteFile: memory blocks and files (system/IBFile.cpp).

    Filters (core/Filter.h, core/Filter.cpp, core/Filter_Block.cpp, core/FilterIterators.cpp)
    - FilterBlock: class Filter::Block; FilterDefs: state and operations of class Filter;
    - FilterCore, FilterRefine: the invariant and the abstract view (a set of rows);
    - FilterQuery, FilterLogic, FilterDelayed, FilterGrow, FilterCopy: the groups of operations
      against that view; FilterIter: FilterOnesIterator with its ring buffer.

    Rough indexes
    - RSIHist, RSIHistFile: core/RSI_Histogram.cpp, the index and its file with two versions;
    - RSICMap: core/RSI_CMap.cpp;
    - RoughCheck: the numeric part of core/RCAttr_exeq_RS.cpp, against the interface
      [RangeIndex] of which the histograms are an instance.

    Data packs and their compression (compress/, core/RCAttrPack.*, core/RCAttr_packN.cpp)
    - CprsBase: defs.h and tools.h; RangeCoder: RangeCoder.h;
    - HashChain, CprsDict: Dictionary.h and .cpp; NumFilters: DataFilt.h, BasicDataFilt.cpp;
      TopBitDict, PartDict: the files of these names; NumCompressor: NumCompressor.h;
    - BitStream: DataStream.h and .cpp; ArithCoder, BitstreamCompressor: the files of these
      names;
    - PackN: class AttrPackN, which composes all of the above with files.

    Sorting (ColumnBinEncoder and Sorter3 of core, CacheableItem of system)
    - KeyOrder: byte strings compared as memcmp does, keys put together and cut;
    - IntEncoders, TextEncoders: the encoders of a column value into the bytes of a key;
    - Sorter, SorterCount, SorterLimit, SorterMulti: class Sorter3 and the four sorters
      (quicksort with a cyclic queue, counting sort, bounded heap, merge of blocks on disk);
      SorterCreate: the choice among them and the run of the sorter that was chosen;
    - CacheItem: the files of blocks to which the merge sort moves its data.

    Aggregation and grouping (core)
    - DoubleSums, Aggregators: Aggregator.h, AggregatorBasic and AggregatorAdvanced, the counters
      of a group with their statistics and packs;
    - RowStorage: BlockedMemTable, rows in blocks of memory;
    - MatchTable, MatchHash, MatchSimple, MatchCreate: ValueMatchingTable and
      ValueMatchingHashTable, the three tables that number the groups behind the interface
      [MatchTable] with its laws [MatchLaws], and the choice among them;
    - DistinctTable: GroupDistinctTable, the pairs of a group and a value seen so far;
    - GroupTable, GroupRep: GroupTable, the grouping table and its abstract view;
    - GroupBy: GroupByWrapper and AggregationAlgorithm, rough aggregation of packs and the scan in
      passes; GroupFindings: a scan that gives a group twice.

    ** Conventions

    A definition has the name of the function it models; an overloaded or private name has a
    suffix.  A class is a record of its fields, a pointer to an array the list of the elements,
    a null pointer [None] or an empty list.  Integers keep their width where the code can
    overflow: they wrap ([wrap], [swrap]) where the language or the machine says so, and are the
    undefined result where a signed one overflows or where sizes that the model counts in rows do not
    fit the [int] of bytes that the code keeps.  Behaviour that the language leaves undefined is a value of its own: [None],
    [Undef], [Bad], [PUndef], [SFault], according to the file; an exception is a value too ([Throw],
    [Overrun], [PThrow], [SKilled] for a query that the user stops).  So a theorem that an operation returns a result also says that it
    does not read or write outside its arrays.  The contents of fresh memory are an argument
    ([junk], [tab]) and the theorems hold for all of them.  Assertions that a release build
    drops are dropped and come back as hypotheses where they matter, or, in the files on grouping,
    kept as the undefined result.

    Loops that are not structural have fuel.  The fuel is always computed from the arguments by
    the definition itself (the number of rows left, the bits of a word, the room in a buffer),
    never given by a caller, except in the iterator; running out of it is the undefined result,
    and the theorems show that it does not happen.

    Parameters stand for what the sources do not define: floating-point estimates that only steer
    a choice of the compressor (classes [FPU] and [FPULog], without laws except [FPULaws], two
    comparisons that the code relies on), with instances on which the theorems are run.  The
    random numbers of a pivot, the state of the connection, the free memory and the order in
    which a priority queue gives equal elements are arguments too.  Three classes are interfaces:
    [BlockStore] is what the merge sort needs from the blocks on disk, and [Sorts] is what a
    sorter promises to the code that puts rows and reads them back; [MatchLaws] is what the tables of
    groups promise to the grouping table.

    Bounds: the merge sort needs a buffer below [2^31] bytes and fewer blocks than a third of its
    rows; qsort_ib elements of at most 32 bytes, [2^30] of them in less than [2^31] bytes; blocks on
    disk and reads from them end below [2^31]; the row storage needs rows shorter than [2^31] and
    minimal blocks of at most [2^30] bytes; MD5 a length that is an [int].  Beyond these bounds the
    code overflows, and the definitions say so.

    ** What is proved

    - Filters: each operation refines the operation on sets of rows, for every filter that
      satisfies the invariant; iteration visits the rows of the set, once, in order, and ends;
      delayed updates, growth, copies and the work on a copy with change tracking as well.
    - Rough indexes: no false negatives.  A pack is excluded only if no value of it satisfies
      the condition and accepted whole only if all do, for values put in any order into a
      cleared pack; the file format round trips and keeps the committed version readable.
    - Compression: range coder, arithmetic coder, dictionaries, filters, numeric and bit
      compressor round trip for every input, whatever the estimates were; sorting ends, stays
      inside the array and sorts.
    - Data packs: well-formedness is an invariant of every reachable pack; compression and
      decompression, saving and loading give back each row, null or not.
    - Sorting: the keys of the encoders compare as the values do, nulls first, in both
      directions, and decode to the value; each sorter gives back a permutation of the rows in
      the order of the keys (the bounded one the first of them), whatever the pivots and the
      memory; the choice of a sorter does not change the answer; blocks on disk are a map.
    - Aggregation: the counter of a group answers with the SQL value of the rows put, merging is
      concatenation, a sum far out of range throws, and packs are left out only if they change no
      counter; the row storage gives back its rows; the hash table numbers the groups, and the table
      of distinct values counts no pair twice; the operations of the grouping table act on the
      abstract groups.
    - Hashes: the unrolled MD5 is RFC 1321, in one piece or streamed; the RFC is specified without
      the code's functions.

    Where the code does not do what it says, a theorem shows it on an example, and the theorem
    about the operation has the hypothesis that excludes the case.

    ** What is not modelled

    Query compilation, optimization and execution, the handler and virtual columns work on
    structures of the MySQL server; loader and exporter are parsing, threads and I/O; the memory
    manager, caches, locks and logging have no result that the modelled parts depend on, beyond
    memory that is there.  Text packs with the PPM and dictionary text compressors, the decimal
    and date types, joins, HAVING and the output of groups, the encoders of collated and of hashed text and the dispatch among
    the encoders are left for later.  Within the modelled files the parts
    left out are listed at the top of each file. *)

From stdpp Require Export base list list_numbers.
From Stdlib Require Export ZArith Lia Bool.

#[global] Open Scope Z_scope.

(** ** Notation of the development *)

Declare Scope bh_scope.
Delimit Scope bh_scope with bh.

(** A C array is a list; [t.[d|i]] reads index [i] (the default [d] stands for a read the
    code must never make) and [t.[i <- x]] writes it. *)
Definition znth {A : Type} (d : A) (l : list A) (i : Z) : A :=
  if i <? 0 then d else nth (Z.to_nat i) l d.

Definition zupd {A : Type} (l : list A) (i : Z) (x : A) : list A :=
  if i <? 0 then l else <[Z.to_nat i := x]> l.

Notation "t .[ d | i ]" := (znth d t i) (at level 1, left associativity, format "t .[ d | i ]") : bh_scope.
Notation "t .[ i <- x ]" := (zupd t i x) (at level 1, left associativity, format "t .[ i  <-  x ]") : bh_scope.
#[global] Open Scope bh_scope.

Definition zlen {A : Type} (l : list A) : Z := Z.of_nat (length l).

(** The loop [for (int i = a; i <= b; i++)] runs over [range a b]. *)
Definition range (a b : Z) : list Z := seqZ a (b - a + 1).

(** ** Tactics *)

(** Turns the boolean tests of the code into propositions of linear arithmetic. *)
Ltac bool_to_prop :=
  repeat match goal with
  | H : (_ =? _)%Z = true |- _ => apply Z.eqb_eq in H
  | H : (_ =? _)%Z = false |- _ => apply Z.eqb_neq in H
  | H : (_ <? _)%Z = true |- _ => apply Z.ltb_lt in H
  | H : (_ <? _)%Z = false |- _ => apply Z.ltb_ge in H
  | H : (_ <=? _)%Z = true |- _ => apply Z.leb_le in H
  | H : (_ <=? _)%Z = false |- _ => apply Z.leb_gt in H
  | H : _ && _ = true |- _ => apply andb_true_iff in H; destruct H
  | H : _ || _ = false |- _ => apply orb_false_iff in H; destruct H
  | H : negb _ = true |- _ => apply negb_true_iff in H
  | H : negb _ = false |- _ => apply negb_false_iff in H
  end.

(** Case analysis on every integer comparison of the goal, then arithmetic. *)
Ltac case_cmp :=
  repeat match goal with
  | |- context [(?a =? ?b)%Z] => destruct (Z.eqb_spec a b)
  | |- context [(?a <? ?b)%Z] => destruct (Z.ltb_spec a b)
  | |- context [(?a <=? ?b)%Z] => destruct (Z.leb_spec a b)
  end.

Ltac cmp_solve := case_cmp; simpl; try lia; try reflexivity; try congruence.

Create HintDb bh.
Create Rewrite HintDb bh.

(** ** Z-indexed arrays *)

Section Arrays.
Context {A : Type}.
Implicit Types (l : list A) (d x : A) (i j : Z).

Lemma zlen_nonneg l : 0 <= zlen l.
Proof. unfold zlen; lia. Qed.

Lemma zlen_zupd l i x : zlen (l.[i <- x]) = zlen l.
Proof. unfold zlen, zupd. destruct (i <? 0); [done|]. by rewrite length_insert. Qed.

Lemma zlen_app l1 l2 : zlen (l1 ++ l2) = zlen l1 + zlen l2.
Proof. unfold zlen. rewrite length_app. lia. Qed.

Lemma zlen_replicate n x : 0 <= n -> zlen (replicate (Z.to_nat n) x) = n.
Proof. intros. unfold zlen. rewrite length_replicate. lia. Qed.

Lemma znth_lookup d l i : 0 <= i < zlen l -> l !! Z.to_nat i = Some (l.[d|i]).
Proof.
  intros. unfold znth. destruct (Z.ltb_spec i 0); [lia|].
  apply nth_lookup_Some with (d := d) || rewrite nth_lookup.
  unfold zlen in *. destruct (lookup_lt_is_Some_2 l (Z.to_nat i)) as [y Hy]; [lia|].
  by rewrite Hy.
Qed.

Lemma znth_lookup_Some d l (i : nat) x : l !! i = Some x -> l.[d|Z.of_nat i] = x.
Proof.
  intros H. unfold znth. destruct (Z.ltb_spec (Z.of_nat i) 0); [lia|].
  by rewrite Nat2Z.id, nth_lookup, H.
Qed.

Lemma znth_zupd_eq d l i x : 0 <= i < zlen l -> (l.[i <- x]).[d|i] = x.
Proof.
  intros. unfold znth, zupd, zlen in *. destruct (Z.ltb_spec i 0); [lia|].
  rewrite nth_lookup, list_lookup_insert_eq; [done|lia].
Qed.

Lemma znth_zupd_ne d l i j x : i <> j -> (l.[i <- x]).[d|j] = l.[d|j].
Proof.
  intros. unfold znth, zupd. destruct (Z.ltb_spec j 0); [done|].
  destruct (Z.ltb_spec i 0); [done|].
  rewrite !nth_lookup, list_lookup_insert_ne; [done|lia].
Qed.

Lemma znth_zupd d l i j x :
  0 <= i < zlen l -> (l.[i <- x]).[d|j] = if j =? i then x else l.[d|j].
Proof.
  intros. destruct (Z.eqb_spec j i) as [->|]; [by apply znth_zupd_eq|].
  by apply znth_zupd_ne.
Qed.

Lemma zupd_id d l i : 0 <= i < zlen l -> l.[i <- l.[d|i]] = l.
Proof.
  intros. unfold zupd. destruct (Z.ltb_spec i 0); [done|].
  apply list_insert_id. by apply znth_lookup.
Qed.

Lemma znth_ext d l1 l2 :
  zlen l1 = zlen l2 -> (forall i, 0 <= i < zlen l1 -> l1.[d|i] = l2.[d|i]) -> l1 = l2.
Proof.
  intros Hlen Hi. unfold zlen in *. apply (nth_ext _ _ d d); [lia|].
  intros n Hn. specialize (Hi (Z.of_nat n) ltac:(lia)). unfold znth in Hi.
  destruct (Z.ltb_spec (Z.of_nat n) 0); [lia|]. by rewrite Nat2Z.id in Hi.
Qed.

Lemma znth_app_l d l1 l2 i : i < zlen l1 -> (l1 ++ l2).[d|i] = l1.[d|i].
Proof.
  intros. unfold znth, zlen in *. destruct (Z.ltb_spec i 0); [done|].
  by rewrite app_nth1 by lia.
Qed.

Lemma znth_app_r d l1 l2 i : zlen l1 <= i -> (l1 ++ l2).[d|i] = l2.[d|i - zlen l1].
Proof.
  intros. unfold znth, zlen in *. destruct (Z.ltb_spec i 0); [lia|].
  destruct (Z.ltb_spec (i - Z.of_nat (length l1)) 0); [lia|].
  rewrite app_nth2 by lia. f_equal. lia.
Qed.

Lemma znth_replicate d n x i : 0 <= i < n -> (replicate (Z.to_nat n) x).[d|i] = x.
Proof.
  intros. unfold znth. destruct (Z.ltb_spec i 0); [lia|].
  rewrite nth_lookup, lookup_replicate_2; [done|lia].
Qed.

Lemma znth_take d l n i : i < n -> (take (Z.to_nat n) l).[d|i] = l.[d|i].
Proof.
  intros Hi. unfold znth. destruct (Z.ltb_spec i 0); [done|]. by rewrite !nth_lookup, lookup_take_lt by lia.
Qed.

Lemma znth_drop d l n i : 0 <= n -> 0 <= i -> (drop (Z.to_nat n) l).[d|i] = l.[d|n + i].
Proof.
  intros Hn Hi. unfold znth. destruct (Z.ltb_spec i 0), (Z.ltb_spec (n + i) 0); [lia..|].
  rewrite !nth_lookup, lookup_drop. do 2 f_equal. lia.
Qed.

Lemma znth_Forall (P : A -> Prop) d l i : Forall P l -> 0 <= i < zlen l -> P (l.[d|i]).
Proof.
  intros HP Hi. eapply Forall_lookup_1; [exact HP|]. by apply znth_lookup.
Qed.

Lemma zupd_Forall (P : A -> Prop) l i x : Forall P l -> P x -> Forall P (l.[i <- x]).
Proof. intros. unfold zupd. destruct (i <? 0); [done|]. by apply Forall_insert. Qed.
End Arrays.

#[export] Hint Rewrite @zlen_zupd @zlen_app : bh.
#[export] Hint Resolve zupd_Forall : bh.

(** ** Loops over ranges *)

Lemma range_nil a b : b < a -> range a b = [].
Proof. intros. unfold range. by rewrite seqZ_nil by lia. Qed.

Lemma range_cons a b : a <= b -> range a b = a :: range (a + 1) b.
Proof.
  intros. unfold range. rewrite seqZ_cons by lia.
  f_equal. f_equal; lia.
Qed.

Lemma range_app a b c : a <= b + 1 -> b <= c -> range a c = range a b ++ range (b + 1) c.
Proof.
  intros. unfold range.
  replace (c - a + 1) with ((b - a + 1) + (c - (b + 1) + 1)) by lia.
  rewrite seqZ_app by lia. f_equal. f_equal. lia.
Qed.

Lemma range_snoc a b : a <= b + 1 -> range a (b + 1) = range a b ++ [b + 1].
Proof.
  intros. rewrite (range_app a b (b + 1)) by lia. f_equal.
  rewrite range_cons by lia. rewrite range_nil by lia. done.
Qed.

Lemma range_In a b i : In i (range a b) <-> a <= i <= b.
Proof. unfold range. rewrite <- list_elem_of_In, elem_of_seqZ. lia. Qed.

(** Induction over an ascending integer interval. *)
Lemma range_ind (P : list Z -> Z -> Prop) (b : Z) :
  (forall a, b < a -> P [] a) ->
  (forall a, a <= b -> P (range (a + 1) b) (a + 1) -> P (a :: range (a + 1) b) a) ->
  forall a, P (range a b) a.
Proof.
  intros H0 H1. assert (forall n a, Z.to_nat (b - a + 1) = n -> P (range a b) a) as H.
  { induction n as [|n IH]; intros a Hn.
    - rewrite range_nil by lia. apply H0. lia.
    - rewrite range_cons by lia. apply H1; [lia|]. apply IH. lia. }
  intros a. by apply (H _ a eq_refl).
Qed.

(** The first invariant rule of a counted loop: [I i] before the iteration for [i]. *)
Lemma foldl_range {S : Type} (f : S -> Z -> S) (I : Z -> S -> Prop) (a b : Z) (s : S) :
  a <= b + 1 -> I a s ->
  (forall i s', a <= i <= b -> I i s' -> I (i + 1) (f s' i)) ->
  I (b + 1) (foldl f s (range a b)).
Proof.
  intros Hab HI Hstep.
  assert (forall n c s', b + 1 - c = Z.of_nat n -> a <= c -> I c s' ->
            I (b + 1) (foldl f s' (range c b))) as H.
  { induction n as [|n IH]; intros c s' Hn Hc HI'.
    - rewrite range_nil by lia. simpl. by replace (b + 1) with c by lia.
    - rewrite range_cons by lia. simpl. apply IH; [lia|lia|]. apply Hstep; [lia|done]. }
  apply (H (Z.to_nat (b + 1 - a))); [lia|lia|done].
Qed.

(** ** Counting the positions of an interval that satisfy a predicate *)

Definition bit1 (b : bool) : Z := if b then 1 else 0.

(** [cnt p a n]: how many of [a, a+1, .., a+n-1] satisfy [p]. *)
Fixpoint cnt_nat (p : Z -> bool) (a : Z) (n : nat) : Z :=
  match n with
  | O => 0
  | S n' => bit1 (p a) + cnt_nat p (a + 1) n'
  end.

Definition cnt (p : Z -> bool) (a b : Z) : Z := cnt_nat p a (Z.to_nat (b - a)).
#[global] Arguments cnt : simpl never.

Section Counting.
Implicit Types (p q : Z -> bool) (a b c : Z).

Lemma bit1_bounds (x : bool) : 0 <= bit1 x <= 1.
Proof. destruct x; simpl; lia. Qed.

Lemma cnt_empty p a b : b <= a -> cnt p a b = 0.
Proof. intros. unfold cnt. by replace (Z.to_nat (b - a)) with O by lia. Qed.

Lemma cnt_first p a b : a < b -> cnt p a b = bit1 (p a) + cnt p (a + 1) b.
Proof.
  intros. unfold cnt. replace (Z.to_nat (b - a)) with (S (Z.to_nat (b - (a + 1)))) by lia.
  done.
Qed.

Lemma cnt_ind (P : Z -> Prop) b :
  (forall a, b <= a -> P a) -> (forall a, a < b -> P (a + 1) -> P a) -> forall a, P a.
Proof.
  intros H0 H1. assert (forall n a, Z.to_nat (b - a) = n -> P a) as H.
  { induction n as [|n IH]; intros a Hn; [apply H0; lia|].
    apply H1; [lia|]. apply IH. lia. }
  intros a. by apply (H _ a eq_refl).
Qed.

Lemma cnt_split p a c b : a <= c <= b -> cnt p a b = cnt p a c + cnt p c b.
Proof.
  revert a. refine (cnt_ind _ c _ _).
  - intros a ? ?. assert (a = c) as -> by lia. rewrite (cnt_empty p c c) by lia. lia.
  - intros a ? IH ?. rewrite (cnt_first p a b), (cnt_first p a c) by lia.
    rewrite IH by lia. lia.
Qed.

Lemma cnt_last p a b : a <= b -> cnt p a (b + 1) = cnt p a b + bit1 (p b).
Proof.
  intros. rewrite (cnt_split p a b) by lia. rewrite (cnt_first p b) by lia.
  rewrite (cnt_empty p (b + 1)) by lia. lia.
Qed.

Lemma cnt_ext p q a b : (forall i, a <= i < b -> p i = q i) -> cnt p a b = cnt q a b.
Proof.
  revert a. refine (cnt_ind _ b _ _).
  - intros a ? _. by rewrite !cnt_empty by lia.
  - intros a ? IH Hpq. rewrite !(cnt_first _ a b) by lia.
    rewrite Hpq by lia. rewrite IH; [done|]. intros i ?. apply Hpq. lia.
Qed.

Lemma cnt_bounds p a b : 0 <= cnt p a b <= Z.max 0 (b - a).
Proof.
  revert a. refine (cnt_ind _ b _ _).
  - intros a ?. rewrite cnt_empty; lia.
  - intros a ? IH. rewrite cnt_first by lia. pose proof (bit1_bounds (p a)). lia.
Qed.

Lemma cnt_zero p a b : cnt p a b = 0 <-> (forall i, a <= i < b -> p i = false).
Proof.
  revert a. refine (cnt_ind _ b _ _).
  - intros a ?. rewrite cnt_empty by lia. split; [lia|done].
  - intros a ? IH. rewrite cnt_first by lia. pose proof (cnt_bounds p (a + 1) b).
    pose proof (bit1_bounds (p a)). split.
    + intros Hc i Hi. destruct (Z.eq_dec i a) as [->|].
      * destruct (p a); simpl in *; [lia|done].
      * apply IH; lia.
    + intros Hf. rewrite Hf by lia. simpl. apply IH. intros i ?. apply Hf. lia.
Qed.

Lemma cnt_full p a b : a <= b -> (cnt p a b = b - a <-> (forall i, a <= i < b -> p i = true)).
Proof.
  revert a. refine (cnt_ind _ b _ _).
  - intros a ? ?. rewrite cnt_empty by lia. split; [lia|lia].
  - intros a ? IH ?. rewrite cnt_first by lia. pose proof (cnt_bounds p (a + 1) b).
    pose proof (bit1_bounds (p a)). split.
    + intros Hc i Hi. destruct (Z.eq_dec i a) as [->|].
      * destruct (p a); simpl in *; [done|lia].
      * apply IH; lia.
    + intros Hf. rewrite Hf by lia. simpl. enough (cnt p (a + 1) b = b - (a + 1)) by lia.
      apply IH; [lia|]. intros i ?. apply Hf. lia.
Qed.

Lemma cnt_pos_ex p a b : 0 < cnt p a b -> exists m, a <= m < b /\ p m = true.
Proof.
  revert a. refine (cnt_ind _ b _ _).
  - intros a ? ?. rewrite cnt_empty in *; lia.
  - intros a ? IH. rewrite cnt_first by lia. destruct (p a) eqn:E; simpl; intros H'.
    + exists a. split; [lia|done].
    + destruct IH as (m & ? & ?); [lia|]. exists m. split; [lia|done].
Qed.

Lemma cnt_not_full p a b : cnt p a b < b - a -> exists m, a <= m < b /\ p m = false.
Proof.
  revert a. refine (cnt_ind _ b _ _).
  - intros a ?. rewrite cnt_empty by lia. lia.
  - intros a ? IH. rewrite cnt_first by lia. destruct (p a) eqn:E; simpl; intros H'.
    + destruct IH as (m & ? & ?); [lia|]. exists m. split; [lia|done].
    + exists a. split; [lia|done].
Qed.

(** A predicate changed at one point. *)
Lemma cnt_update p q a b k :
  a <= k < b -> (forall i, a <= i < b -> i <> k -> q i = p i) ->
  cnt q a b = cnt p a b - bit1 (p k) + bit1 (q k).
Proof.
  intros Hk Hq. rewrite (cnt_split q a k b), (cnt_split p a k b) by lia.
  rewrite (cnt_first q k b), (cnt_first p k b) by lia.
  rewrite (cnt_ext q p a k), (cnt_ext q p (k + 1) b); [lia| |].
  all: intros i ?; apply Hq; lia.
Qed.

Lemma cnt_negb p a b : a <= b -> cnt (fun i => negb (p i)) a b = (b - a) - cnt p a b.
Proof.
  revert a. refine (cnt_ind _ b _ _).
  - intros a ? ?. rewrite !cnt_empty by lia. lia.
  - intros a ? IH ?. rewrite !(cnt_first _ a b) by lia. rewrite IH by lia.
    destruct (p a); simpl; lia.
Qed.

Lemma cnt_shift p a b k : cnt (fun i => p (i + k)) a b = cnt p (a + k) (b + k).
Proof.
  revert a. refine (cnt_ind _ b _ _).
  - intros a ?. by rewrite !cnt_empty by lia.
  - intros a ? IH. rewrite (cnt_first _ a b), (cnt_first _ (a + k)) by lia.
    rewrite IH. do 2 f_equal. lia.
Qed.
End Counting.

(** ** Unsigned machine words *)

Definition wrap (w x : Z) : Z := x mod 2 ^ w.
Abbreviation wrap32 := (wrap 32).
Abbreviation wrap64 := (wrap 64).

(** C conversion of an integer to a signed type of [w] bits (two's complement). *)
Definition swrap (w x : Z) : Z :=
  let u := x mod 2 ^ w in if u <? 2 ^ (w - 1) then u else u - 2 ^ w.

Definition is_word (w x : Z) : Prop := 0 <= x < 2 ^ w.

Lemma wrap_word w x : 0 <= w -> is_word w (wrap w x).
Proof. intros. apply Z.mod_pos_bound. by apply Z.pow_pos_nonneg. Qed.

Lemma wrap_id w x : is_word w x -> wrap w x = x.
Proof. intros. by apply Z.mod_small. Qed.

Lemma wrap_testbit w x i : 0 <= i < w -> Z.testbit (wrap w x) i = Z.testbit x i.
Proof. intros. apply Z.mod_pow2_bits_low. lia. Qed.

Lemma word_testbit_high w x i : is_word w x -> 0 <= w <= i -> Z.testbit x i = false.
Proof.
  intros Hx Hi. rewrite <- (wrap_id w x Hx). by apply Z.mod_pow2_bits_high.
Qed.

Lemma word_ext w x y :
  0 <= w -> is_word w x -> is_word w y ->
  (forall i, 0 <= i < w -> Z.testbit x i = Z.testbit y i) -> x = y.
Proof.
  intros Hw Hx Hy Hi. apply Z.bits_inj'. intros i Hi0.
  destruct (Z.lt_ge_cases i w); [apply Hi; lia|].
  rewrite !(word_testbit_high w) by (auto; lia). done.
Qed.

Lemma word_of_testbit w x :
  0 <= w -> 0 <= x -> (forall i, w <= i -> Z.testbit x i = false) -> is_word w x.
Proof.
  intros Hw Hx Hi. split; [done|].
  destruct (Z.eq_dec x 0) as [->|]; [by apply Z.pow_pos_nonneg|].
  apply Z.log2_lt_pow2; [lia|].
  destruct (Z.lt_ge_cases (Z.log2 x) w); [done|].
  specialize (Hi (Z.log2 x) ltac:(lia)). rewrite Z.bit_log2 in Hi by lia. done.
Qed.

Lemma word_lor w x y : 0 <= w -> is_word w x -> is_word w y -> is_word w (Z.lor x y).
Proof.
  intros Hw Hx Hy. apply word_of_testbit; [done| |].
  - apply Z.lor_nonneg; split; [apply Hx|apply Hy].
  - intros i ?. rewrite Z.lor_spec, !(word_testbit_high w) by (auto; lia). done.
Qed.

Lemma word_land_l w x y : 0 <= w -> is_word w x -> is_word w (Z.land x y).
Proof.
  intros Hw Hx. apply word_of_testbit; [done| |].
  - apply Z.land_nonneg. left. apply Hx.
  - intros i ?. rewrite Z.land_spec, (word_testbit_high w x) by (auto; lia). done.
Qed.

Lemma word_shiftr w x k : 0 <= w -> 0 <= k -> is_word w x -> is_word w (Z.shiftr x k).
Proof.
  intros Hw Hk Hx. apply word_of_testbit; [done| |].
  - apply Z.shiftr_nonneg. apply Hx.
  - intros i ?. rewrite Z.shiftr_spec by lia. apply (word_testbit_high w); [done|lia].
Qed.

#[export] Hint Resolve wrap_word word_lor word_land_l word_shiftr : bh.

(** ** Signed machine words *)

Definition is_sword (w x : Z) : Prop := - 2 ^ (w - 1) <= x < 2 ^ (w - 1).

Lemma swrap_id w x : 0 < w -> is_sword w x -> swrap w x = x.
Proof.
  intros Hw [H1 H2]. unfold swrap. assert (2 ^ w = 2 * 2 ^ (w - 1)) as E by (rewrite <- Z.pow_succ_r by lia; f_equal; lia).
  destruct (Z.le_gt_cases 0 x).
  - rewrite Z.mod_small by lia. by rewrite (proj2 (Z.ltb_lt _ _)).
  - rewrite <- (Z.mod_unique x (2 ^ w) (-1) (x + 2 ^ w)) by lia. rewrite (proj2 (Z.ltb_ge _ _)); lia.
Qed.

Lemma swrap_sword w x : 0 < w -> is_sword w (swrap w x).
Proof.
  intros Hw. unfold swrap, is_sword. assert (2 ^ w = 2 * 2 ^ (w - 1)) as E by (rewrite <- Z.pow_succ_r by lia; f_equal; lia).
  pose proof (Z.pow_pos_nonneg 2 (w - 1)). pose proof (Z.mod_pos_bound x (2 ^ w)). cmp_solve.
Qed.

(** A signed result depends on the value modulo [2 ^ w] only. *)
Lemma swrap_eqm w x y : x mod 2 ^ w = y mod 2 ^ w -> swrap w x = swrap w y.
Proof. unfold swrap. by intros ->. Qed.

Lemma swrap_wrap w x : 0 <= w -> swrap w (wrap w x) = swrap w x.
Proof. intros. apply swrap_eqm. unfold wrap. apply Z.mod_mod. pose proof (Z.pow_pos_nonneg 2 w). lia. Qed.
