(* ===== verification/BinTools.v ===== *)
(** * Bit-level helpers of the storage engine (core/bintools.cpp)

    Population counts by table, bit and byte sizes of machine words, the overflow-checked
    product used for row counts, the three-valued logic of rough results, and the
    order-preserving encoding of doubles by their bit patterns. *)

From S2P Require Import Prelude.

(** ** Population count *)

Definition bin_sums : list Z := [
   0; 1; 1; 2; 1; 2; 2; 3; 1; 2; 2; 3; 2; 3; 3; 4; 1; 2; 2; 3; 2; 3; 3; 4; 2; 3; 3; 4; 3; 4; 4; 5;
   1; 2; 2; 3; 2; 3; 3; 4; 2; 3; 3; 4; 3; 4; 4; 5; 2; 3; 3; 4; 3; 4; 4; 5; 3; 4; 4; 5; 4; 5; 5; 6;
   1; 2; 2; 3; 2; 3; 3; 4; 2; 3; 3; 4; 3; 4; 4; 5; 2; 3; 3; 4; 3; 4; 4; 5; 3; 4; 4; 5; 4; 5; 5; 6;
   2; 3; 3; 4; 3; 4; 4; 5; 3; 4; 4; 5; 4; 5; 5; 6; 3; 4; 4; 5; 4; 5; 5; 6; 4; 5; 5; 6; 5; 6; 6; 7;
   1; 2; 2; 3; 2; 3; 3; 4; 2; 3; 3; 4; 3; 4; 4; 5; 2; 3; 3; 4; 3; 4; 4; 5; 3; 4; 4; 5; 4; 5; 5; 6;
   2; 3; 3; 4; 3; 4; 4; 5; 3; 4; 4; 5; 4; 5; 5; 6; 3; 4; 4; 5; 4; 5; 5; 6; 4; 5; 5; 6; 5; 6; 6; 7;
   2; 3; 3; 4; 3; 4; 4; 5; 3; 4; 4; 5; 4; 5; 5; 6; 3; 4; 4; 5; 4; 5; 5; 6; 4; 5; 5; 6; 5; 6; 6; 7;
   3; 4; 4; 5; 4; 5; 5; 6; 4; 5; 5; 6; 5; 6; 6; 7; 4; 5; 5; 6; 5; 6; 6; 7; 5; 6; 6; 7; 6; 7; 7; 8].

Definition CalculateBinSum (n : Z) : Z :=
  let s := bin_sums.[0|n mod 256] in
  let n := Z.shiftr n 8 in
  let s := s + bin_sums.[0|n mod 256] in
  let n := Z.shiftr n 8 in
  let s := s + bin_sums.[0|n mod 256] in
  let n := Z.shiftr n 8 in
  s + bin_sums.[0|n mod 256].

(** ** Bit and byte sizes *)

(** The two loops of [CalculateBinSize]; a 32-bit word leaves the first after at most three
    rounds and the second after at most eight. *)
Fixpoint BinSize_bytes (fuel : nat) (n s : Z) : Z * Z :=
  match fuel with
  | O => (n, s)
  | S fuel' => if 255 <? n then BinSize_bytes fuel' (Z.shiftr n 8) (s + 8) else (n, s)
  end.

Fixpoint BinSize_bits (fuel : nat) (n s : Z) : Z :=
  match fuel with
  | O => s
  | S fuel' => if 0 <? n then BinSize_bits fuel' (Z.shiftr n 1) (s + 1) else s
  end.

Definition CalculateBinSize (n : Z) : Z :=
  let '(n, s) := BinSize_bytes 4 n 0 in BinSize_bits 9 n s.

(** The overload on 64-bit words. *)
Definition CalculateBinSize64 (n : Z) : Z :=
  if wrap32 (Z.shiftr n 32) =? 0 then CalculateBinSize (wrap32 n)
  else CalculateBinSize (wrap32 (Z.shiftr n 32)) + 32.

Fixpoint ByteSize_loop (fuel : nat) (n res : Z) : Z :=
  match fuel with
  | O => res
  | S fuel' => if n =? 0 then res else ByteSize_loop fuel' (Z.shiftr n 8) (res + 1)
  end.

Definition CalculateByteSize (n : Z) : Z := ByteSize_loop 9 n 0.

(** ** Overflow-checked product *)

(** [_int64(0x8000000000000001ULL)] *)
Definition NULL_VALUE_64 : Z := - 2 ^ 63 + 1.

Definition SafeMultiplication (x y : Z) : Z :=
  if (x =? NULL_VALUE_64) || (y =? NULL_VALUE_64)
     || (((0x7FFFFFFF <? x) || (0x7FFFFFFF <? y))
         && (63 <? CalculateBinSize64 (wrap64 x) + CalculateBinSize64 (wrap64 y)))
  then NULL_VALUE_64
  else swrap 64 (x * y).

(** ** Rough values *)

Inductive RSValue := RS_NONE | RS_SOME | RS_ALL | RS_UNKNOWN.

#[export] Instance RSValue_eq_dec : EqDecision RSValue.
Proof. solve_decision. Defined.

Definition RS_is (a b : RSValue) : bool := bool_decide (a = b).

Definition RS_Or (f s : RSValue) : RSValue :=
  if RS_is f RS_ALL || RS_is s RS_ALL then RS_ALL
  else if RS_is f RS_SOME || RS_is s RS_SOME then RS_SOME
  else RS_NONE.

Definition RS_And (f s : RSValue) : RSValue :=
  if RS_is f RS_ALL && RS_is s RS_ALL then RS_ALL
  else if RS_is f RS_NONE || RS_is s RS_NONE then RS_NONE
  else RS_SOME.

(** ** Doubles as bit patterns

    A [double] stored in an [_int64] is its 64-bit pattern (here a [Z] below [2 ^ 64]): the
    sign bit, eleven bits of exponent and fifty-two of mantissa. *)

Definition sign_bit : Z := 0x8000000000000000.
Definition magnitude (d : Z) : Z := Z.land d 0x7FFFFFFFFFFFFFFF.

(** The hardware comparison [d < 0.0] of a number that is not a NaN: minus zero is not
    below zero. *)
Definition double_lt0 (d : Z) : bool := Z.testbit d 63 && negb (magnitude d =? 0).

Definition MonotonicDouble2Int64 (d : Z) : Z :=
  if double_lt0 d then wrap64 (Z.lnot d) else Z.lor d sign_bit.

Definition MonotonicInt642Double (v : Z) : Z :=
  if negb (Z.land v sign_bit =? 0) then Z.land v 0x7FFFFFFFFFFFFFFF
  else wrap64 (Z.lnot v).

(** Negation of a double flips its sign bit. *)
Definition double_neg (d : Z) : Z := Z.lxor d sign_bit.

Definition is_special (v : Z) : bool :=
  Z.land v 0x7FF0000000000000 =? 0x7FF0000000000000.

(** The branches of [DoublePlusEpsilon] and [DoubleMinusEpsilon] for a non-negative [v]; each
    function calls the other, once, on the negation of a negative argument. *)
Definition DoublePlusEpsilon_pos (v : Z) : Z :=
  if Z.land v 0x000FFFFFFFFFFFFF =? 0x000FFFFFFFFFFFFF
  then Z.lor (v + 1) 0x0008000000000000
  else v + 1.

Definition DoubleMinusEpsilon_pos (v : Z) : Z :=
  if v =? 0 then 0x8000000000000001
  else if v =? 1 then 0
  else if Z.land v 0x000FFFFFFFFFFFFF =? 1
  then Z.lor (Z.shiftl (Z.shiftr v 52 - 1) 52) 1
  else v - 1.

Definition DoublePlusEpsilon (v : Z) : Z :=
  if is_special v then v
  else if Z.testbit v 63 then double_neg (DoubleMinusEpsilon_pos (double_neg v))
  else DoublePlusEpsilon_pos v.

Definition DoubleMinusEpsilon (v : Z) : Z :=
  if is_special v then v
  else if Z.testbit v 63 then double_neg (DoublePlusEpsilon_pos (double_neg v))
  else DoubleMinusEpsilon_pos v.

(** ** Population count is the number of set bits *)

Lemma bin_sums_spec k : 0 <= k < 256 -> bin_sums.[0|k] = cnt (Z.testbit k) 0 8.
Proof.
  intros Hk.
  assert (forallb (fun k => bin_sums.[0|k] =? cnt (Z.testbit k) 0 8) (range 0 255) = true) as H
    by (vm_compute; reflexivity).
  rewrite forallb_forall in H. apply Z.eqb_eq, H, range_In. lia.
Qed.

Lemma bin_sums_byte n k :
  0 <= k -> bin_sums.[0|Z.shiftr n k mod 256] = cnt (Z.testbit n) k (k + 8).
Proof.
  intros Hk. rewrite bin_sums_spec by (apply Z.mod_pos_bound; lia).
  replace k with (0 + k) at 2 by lia. replace (k + 8) with (8 + k) by lia.
  rewrite <- cnt_shift.
  apply cnt_ext. intros i Hi. change 256 with (2 ^ 8).
  rewrite Z.mod_pow2_bits_low by lia. by rewrite Z.shiftr_spec by lia.
Qed.

Lemma CalculateBinSum_spec n : CalculateBinSum n = cnt (Z.testbit n) 0 32.
Proof.
  unfold CalculateBinSum. rewrite !Z.shiftr_shiftr by lia.
  rewrite <- (Z.shiftr_0_r n) at 1. rewrite !bin_sums_byte by lia.
  change (8 + 8 + 8 + 8) with 32. change (8 + 8 + 8) with 24. change (8 + 8) with 16.
  change (0 + 8) with 8.
  rewrite (cnt_split _ 0 8 32) by lia. rewrite (cnt_split _ 8 16 32) by lia.
  rewrite (cnt_split _ 16 24 32) by lia. lia.
Qed.

(** ** Bit size is one more than the binary logarithm *)

Definition bitlen (n : Z) : Z := if n =? 0 then 0 else Z.log2 n + 1.

Lemma bitlen_shiftr n k : 0 <= k -> 2 ^ k <= n -> bitlen n = bitlen (Z.shiftr n k) + k.
Proof.
  intros Hk Hn. pose proof (Z.pow_pos_nonneg 2 k ltac:(lia) Hk).
  unfold bitlen. rewrite Z.shiftr_div_pow2 by done.
  assert (0 < n / 2 ^ k) by (apply Z.div_str_pos; lia).
  destruct (Z.eqb_spec n 0); [lia|]. destruct (Z.eqb_spec (n / 2 ^ k) 0); [lia|].
  rewrite <- Z.shiftr_div_pow2, Z.log2_shiftr by lia.
  assert (k <= Z.log2 n) by (apply Z.log2_le_pow2; lia). lia.
Qed.

Lemma bitlen_half n : 0 < n -> bitlen n = bitlen (Z.shiftr n 1) + 1.
Proof.
  intros. destruct (Z.eq_dec n 1) as [->|]; [done|].
  apply bitlen_shiftr; change (2 ^ 1) with 2; lia.
Qed.

Lemma bitlen_bound n : 0 <= n -> n < 2 ^ bitlen n.
Proof.
  intros. unfold bitlen. destruct (Z.eqb_spec n 0) as [->|]; [done|].
  apply Z.log2_spec. lia.
Qed.

Lemma bitlen_nonneg n : 0 <= bitlen n.
Proof. unfold bitlen. destruct (n =? 0); [lia|]. pose proof (Z.log2_nonneg n). lia. Qed.

Lemma bitlen_le n k : 0 <= k -> 0 <= n < 2 ^ k -> bitlen n <= k.
Proof.
  intros Hk Hn. unfold bitlen. destruct (Z.eqb_spec n 0); [lia|].
  enough (Z.log2 n < k) by lia. apply Z.log2_lt_pow2; lia.
Qed.

Lemma BinSize_bytes_spec fuel n s :
  0 <= n < 256 ^ Z.of_nat fuel ->
  let '(n', s') := BinSize_bytes fuel n s in 0 <= n' < 256 /\ bitlen n' + s' = bitlen n + s.
Proof.
  revert n s. induction fuel as [|fuel IH]; intros n s Hn; [simpl in *; lia|].
  cbn [BinSize_bytes]. destruct (Z.ltb_spec 255 n); [|simpl; lia].
  assert (0 <= Z.shiftr n 8 < 256 ^ Z.of_nat fuel) as Hs.
  { rewrite Z.shiftr_div_pow2 by lia. change (2 ^ 8) with 256. split; [apply Z.div_pos; lia|].
    apply Z.div_lt_upper_bound; [lia|].
    rewrite Nat2Z.inj_succ, Z.pow_succ_r in Hn by lia. lia. }
  specialize (IH (Z.shiftr n 8) (s + 8) Hs). destruct (BinSize_bytes _ _ _) as [n' s'].
  rewrite (bitlen_shiftr n 8) by lia. lia.
Qed.

Lemma BinSize_bits_spec fuel n s :
  0 <= n < 2 ^ Z.of_nat fuel -> BinSize_bits fuel n s = bitlen n + s.
Proof.
  revert n s. induction fuel as [|fuel IH]; intros n s Hn.
  - simpl in *. assert (n = 0) as -> by lia. done.
  - cbn [BinSize_bits]. rewrite Nat2Z.inj_succ, Z.pow_succ_r in Hn by lia.
    destruct (Z.ltb_spec 0 n).
    + rewrite IH by (rewrite Z.shiftr_div_pow2 by lia; change (2 ^ 1) with 2; split;
                     [apply Z.div_pos; lia | apply Z.div_lt_upper_bound; lia]).
      rewrite (bitlen_half n) by lia. lia.
    + assert (n = 0) as -> by lia. done.
Qed.

Lemma CalculateBinSize_spec n : is_word 32 n -> CalculateBinSize n = bitlen n.
Proof.
  intros Hn. unfold CalculateBinSize.
  pose proof (BinSize_bytes_spec 4 n 0 ltac:(unfold is_word in Hn; simpl in *; lia)) as H.
  destruct (BinSize_bytes 4 n 0) as [n' s']. rewrite BinSize_bits_spec; simpl; lia.
Qed.

Lemma CalculateBinSize64_spec n : is_word 64 n -> CalculateBinSize64 n = bitlen n.
Proof.
  intros Hn. unfold CalculateBinSize64. unfold is_word in *.
  assert (0 <= Z.shiftr n 32 < 2 ^ 32) as Hs.
  { rewrite Z.shiftr_div_pow2 by lia. split; [apply Z.div_pos; lia|].
    apply Z.div_lt_upper_bound; lia. }
  rewrite (wrap_id 32 (Z.shiftr n 32)) by done.
  destruct (Z.eqb_spec (Z.shiftr n 32) 0) as [H0|H0].
  - rewrite Z.shiftr_div_pow2 in H0 by lia. apply Z.div_small_iff in H0; [|lia].
    rewrite wrap_id by (unfold is_word; lia). rewrite CalculateBinSize_spec; [done|].
    unfold is_word. lia.
  - rewrite CalculateBinSize_spec by done. rewrite (bitlen_shiftr n 32); [lia|lia|].
    rewrite Z.shiftr_div_pow2 in H0 by lia.
    destruct (Z.lt_ge_cases n (2 ^ 32)); [|lia]. rewrite Z.div_small in H0; lia.
Qed.

(** ** The product is exact whenever it is returned *)

Lemma bitlen_product x y :
  0 <= x -> 0 <= y -> bitlen x + bitlen y <= 63 -> x * y < 2 ^ 63.
Proof.
  intros Hx Hy H. pose proof (bitlen_bound x Hx). pose proof (bitlen_bound y Hy).
  pose proof (bitlen_nonneg x). pose proof (bitlen_nonneg y).
  assert (x * y < 2 ^ bitlen x * 2 ^ bitlen y) by nia.
  assert (2 ^ (bitlen x + bitlen y) <= 2 ^ 63) by (apply Z.pow_le_mono_r; lia).
  rewrite Z.pow_add_r in * by lia. lia.
Qed.

Lemma bitlen_lower x : 0 < x -> 2 ^ (bitlen x - 1) <= x.
Proof.
  intros. unfold bitlen. destruct (Z.eqb_spec x 0); [lia|].
  replace (Z.log2 x + 1 - 1) with (Z.log2 x) by lia. apply Z.log2_spec. done.
Qed.

Lemma bitlen_product_lower x y :
  0 < x -> 0 < y -> 64 <= bitlen x + bitlen y -> 2 ^ 62 <= x * y.
Proof.
  intros Hx Hy H. pose proof (bitlen_lower x Hx) as Lx. pose proof (bitlen_lower y Hy) as Ly.
  assert (1 <= bitlen x /\ 1 <= bitlen y) as [? ?].
  { unfold bitlen. destruct (Z.eqb_spec x 0), (Z.eqb_spec y 0); try lia.
    pose proof (Z.log2_nonneg x). pose proof (Z.log2_nonneg y). lia. }
  assert (2 ^ 62 <= 2 ^ ((bitlen x - 1) + (bitlen y - 1))) by (apply Z.pow_le_mono_r; lia).
  rewrite Z.pow_add_r in * by lia.
  pose proof (Z.pow_pos_nonneg 2 (bitlen x - 1)). pose proof (Z.pow_pos_nonneg 2 (bitlen y - 1)).
  nia.
Qed.

Lemma swrap_small x : 0 <= x < 2 ^ 63 -> swrap 64 x = x.
Proof. intros. unfold swrap. rewrite Z.mod_small by lia. cmp_solve. Qed.

(** For row counts (non-negative arguments) [SafeMultiplication] returns the exact
    product, or [NULL_VALUE_64] for a product of at least [2 ^ 62]; so a product that does
    not fit in 63 bits is always reported, and no product below [2 ^ 62] is. *)
Theorem SafeMultiplication_exact (x y : Z) (Hx : 0 <= x < 2 ^ 63) (Hy : 0 <= y < 2 ^ 63) :
  (SafeMultiplication x y = x * y /\ x * y < 2 ^ 63) \/
  (SafeMultiplication x y = NULL_VALUE_64 /\ 2 ^ 62 <= x * y).
Proof.
  unfold SafeMultiplication, NULL_VALUE_64.
  rewrite !wrap_id by (unfold is_word; lia). rewrite !CalculateBinSize64_spec by (unfold is_word; lia).
  destruct (Z.eqb_spec x (- 2 ^ 63 + 1)); [lia|]. destruct (Z.eqb_spec y (- 2 ^ 63 + 1)); [lia|].
  cbn [orb]. pose proof (bitlen_le x 63 ltac:(lia) Hx). pose proof (bitlen_le y 63 ltac:(lia) Hy).
  destruct (Z.ltb_spec 63 (bitlen x + bitlen y)) as [Hs|Hs]; rewrite ?andb_false_r, ?andb_true_r.
  - destruct (Z.ltb_spec 0x7FFFFFFF x), (Z.ltb_spec 0x7FFFFFFF y); cbn [orb].
    1-3: right; split; [done|]; apply bitlen_product_lower; [| |lia];
      apply Z.lt_nge; intros ?; [assert (x = 0) by lia|assert (y = 0) by lia]; subst;
      unfold bitlen in *; simpl in *; lia.
    left. assert (x * y < 2 ^ 63) by nia. split; [|done]. apply swrap_small. nia.
  - left. pose proof (bitlen_product x y ltac:(lia) ltac:(lia) Hs). split; [|done].
    apply swrap_small. nia.
Qed.

Lemma SafeMultiplication_exact_witness :
  (SafeMultiplication 3000000000 2000000000 = 6000000000000000000 /\ 3000000000 * 2000000000 < 2 ^ 63) \/
  (SafeMultiplication 3000000000 2000000000 = NULL_VALUE_64 /\ 2 ^ 62 <= 3000000000 * 2000000000).
Proof. apply (SafeMultiplication_exact 3000000000 2000000000); lia. Defined.

(** ** Rough values are sound *)

(** What a rough value promises about the rows of a pack. *)
Definition rs_sound {Row : Type} (r : RSValue) (p : Row -> bool) (rows : list Row) : Prop :=
  match r with
  | RS_NONE => forall x, In x rows -> p x = false
  | RS_ALL => forall x, In x rows -> p x = true
  | RS_SOME | RS_UNKNOWN => True
  end.

(** [And] of two sound rough values is sound for the conjunction, and [Or] for the
    disjunction unless one side has not been checked. *)
Theorem RS_logic_sound {Row : Type} (f s : RSValue) (p q : Row -> bool) (rows : list Row)
    (Hf : rs_sound f p rows) (Hs : rs_sound s q rows) :
  rs_sound (RS_And f s) (fun x => p x && q x) rows /\
  (f <> RS_UNKNOWN -> s <> RS_UNKNOWN -> rs_sound (RS_Or f s) (fun x => p x || q x) rows).
Proof.
  split; [|intros Hf1 Hs1]; destruct f, s; simpl in *; try done; intros x Hx;
    try rewrite Hf by done; try rewrite Hs by done; rewrite ?andb_false_r, ?orb_true_r; done.
Qed.

Lemma RS_logic_sound_witness :
  rs_sound (RS_And RS_SOME RS_NONE) (fun x => (x <? 3) && (x <? 0)) [1; 5] /\
  (RS_SOME <> RS_UNKNOWN -> RS_NONE <> RS_UNKNOWN ->
   rs_sound (RS_Or RS_SOME RS_NONE) (fun x => (x <? 3) || (x <? 0)) [1; 5]).
Proof.
  apply (RS_logic_sound RS_SOME RS_NONE (fun x => x <? 3) (fun x => x <? 0) [1; 5]).
  - exact I.
  - simpl. intros x [<-|[<-|[]]]; reflexivity.
Defined.

(** The guard of the disjunction is needed: an unchecked pack is taken for an empty one. *)
Example RS_Or_unknown : RS_Or RS_UNKNOWN RS_NONE = RS_NONE.
Proof. reflexivity. Qed.

(** The comment of the enumeration says that unchecked and all give all. *)
Example RS_And_unknown : RS_And RS_UNKNOWN RS_ALL = RS_SOME.
Proof. reflexivity. Qed.

(** ** The encoding of doubles keeps their order *)

(** The order of doubles that are not NaNs, as an integer: sign and magnitude. *)
Definition double_key (d : Z) : Z := if Z.testbit d 63 then - magnitude d else magnitude d.

Section DoubleBits.
Context (d : Z) (Hd : is_word 64 d).

Lemma testbit63 : Z.testbit d 63 = (2 ^ 63 <=? d).
Proof.
  unfold is_word in Hd. rewrite Z.testbit_eqb by lia.
  destruct (Z.leb_spec (2 ^ 63) d).
  - assert (d / 2 ^ 63 = 1) as -> by (symmetry; apply (Z.div_unique_pos _ _ _ (d - 2 ^ 63)); lia).
    done.
  - rewrite Z.div_small by lia. done.
Qed.

Lemma magnitude_mod : magnitude d = d mod 2 ^ 63.
Proof. unfold magnitude. change 0x7FFFFFFFFFFFFFFF with (Z.ones 63). apply Z.land_ones. lia. Qed.

Lemma magnitude_val : magnitude d = if 2 ^ 63 <=? d then d - 2 ^ 63 else d.
Proof.
  unfold is_word in Hd. rewrite magnitude_mod. destruct (Z.leb_spec (2 ^ 63) d).
  - symmetry. apply (Z.mod_unique_pos _ _ 1); lia.
  - apply Z.mod_small. lia.
Qed.

Lemma lnot64 : wrap64 (Z.lnot d) = 2 ^ 64 - 1 - d.
Proof.
  unfold is_word, wrap in *. unfold Z.lnot. symmetry.
  apply (Z.mod_unique_pos _ _ (-1)); lia.
Qed.

Lemma land_sign : Z.land d sign_bit = if 2 ^ 63 <=? d then 2 ^ 63 else 0.
Proof.
  unfold sign_bit. change 0x8000000000000000 with (2 ^ 63).
  apply Z.bits_inj'. intros i Hi. rewrite Z.land_spec, Z.pow2_bits_eqb by lia.
  destruct (Z.eqb_spec 63 i) as [<-|].
  - rewrite testbit63. destruct (2 ^ 63 <=? d); [|done]. rewrite Z.pow2_bits_true; lia || done.
  - rewrite andb_false_r. destruct (2 ^ 63 <=? d).
    + rewrite Z.pow2_bits_false; done.
    + by rewrite Z.testbit_0_l.
Qed.

Lemma lor_sign : Z.lor d sign_bit = if 2 ^ 63 <=? d then d else d + 2 ^ 63.
Proof.
  pose proof (Z.add_lor_land d sign_bit) as H. rewrite land_sign in H.
  change sign_bit with (2 ^ 63) in *. destruct (2 ^ 63 <=? d); lia.
Qed.

Lemma lxor_sign : double_neg d = if 2 ^ 63 <=? d then d - 2 ^ 63 else d + 2 ^ 63.
Proof.
  unfold double_neg. pose proof (Z.add_lxor_2land d sign_bit) as H. rewrite land_sign in H.
  change sign_bit with (2 ^ 63) in *. destruct (2 ^ 63 <=? d); lia.
Qed.

Lemma double_lt0_val : double_lt0 d = (2 ^ 63 <? d).
Proof.
  unfold double_lt0. rewrite testbit63, magnitude_val.
  cmp_solve.
Qed.

Lemma double_key_val : double_key d = if 2 ^ 63 <=? d then 2 ^ 63 - d else d.
Proof. unfold double_key. rewrite testbit63, magnitude_val. cmp_solve. Qed.

Lemma MonotonicDouble2Int64_val :
  MonotonicDouble2Int64 d = if 2 ^ 63 <? d then 2 ^ 64 - 1 - d else Z.max d (d + 2 ^ 63 * bit1 (d <? 2 ^ 63)).
Proof.
  unfold MonotonicDouble2Int64. rewrite double_lt0_val, lnot64, lor_sign.
  unfold bit1. cmp_solve.
Qed.
End DoubleBits.

(** The encoding of doubles is strictly monotone for the order of (non-NaN) doubles, and
    decoding recovers every pattern but minus zero, which becomes plus zero. *)
Theorem MonotonicDouble_order_roundtrip (d e : Z) (Hd : is_word 64 d) (He : is_word 64 e) :
  (double_key d < double_key e <-> MonotonicDouble2Int64 d < MonotonicDouble2Int64 e) /\
  MonotonicInt642Double (MonotonicDouble2Int64 d) = (if d =? sign_bit then 0 else d).
Proof.
  rewrite !MonotonicDouble2Int64_val, !double_key_val by done.
  unfold MonotonicInt642Double, is_word, sign_bit, bit1 in *.
  split; [cmp_solve|].
  set (v := if 2 ^ 63 <? d then _ else _).
  assert (is_word 64 v /\ (2 ^ 63 <=? v) = (d <=? 2 ^ 63)) as [Hv Hc]
    by (subst v; unfold is_word; cmp_solve).
  change 0x8000000000000000 with sign_bit. rewrite land_sign by done.
  change (Z.land v 0x7FFFFFFFFFFFFFFF) with (magnitude v).
  rewrite magnitude_val, lnot64 by done. rewrite Hc. subst v. unfold sign_bit. cmp_solve.
Qed.

Lemma MonotonicDouble_order_roundtrip_witness :
  (double_key 0xBFF0000000000000 < double_key 0x3FF0000000000000 <->
   MonotonicDouble2Int64 0xBFF0000000000000 < MonotonicDouble2Int64 0x3FF0000000000000) /\
  MonotonicInt642Double (MonotonicDouble2Int64 0xBFF0000000000000) =
    (if 0xBFF0000000000000 =? sign_bit then 0 else 0xBFF0000000000000).
Proof.
  apply (MonotonicDouble_order_roundtrip 0xBFF0000000000000 0x3FF0000000000000);
    unfold is_word; lia.
Defined.

(** The successor of the largest finite double is a NaN pattern. *)
Example DoublePlusEpsilon_max : DoublePlusEpsilon 0x7FEFFFFFFFFFFFFF = 0x7FF8000000000000.
Proof. reflexivity. Qed.

(** A maximal mantissa is followed by the middle of the next binade, not by its first value. *)
Example DoublePlusEpsilon_skips :
  DoublePlusEpsilon 0x3FEFFFFFFFFFFFFF = 0x3FF8000000000000 /\
  double_key 0x3FEFFFFFFFFFFFFF < double_key 0x3FF0000000000000 < double_key 0x3FF8000000000000.
Proof. split; [reflexivity|vm_compute; done]. Qed.
