(* ===== verification/FilterBlock.v ===== *)
(** * A block of a row filter (core/Filter_Block.cpp, class Filter::Block of core/Filter.h)

    A block holds one bit for each of the at most 65536 rows of a pack, in a table of 2048
    32-bit words taken from a memory pool, with the number of set bits kept beside it.  The
    pool, the owner pointer and the mutex around the pool carry no data of the block; the
    contents of freshly allocated memory, which the copy constructor keeps beyond the copied
    words, are the argument [junk].  A null [block_table] is the empty list. *)

From S2P Require Import Prelude BinTools.

Record Block := mkBlock {
  block_table : list Z;
  no_obj : Z;
  no_set_bits : Z;
  block_size : Z
}.

Definition lshift1 : list Z := [
   1; 2; 4; 8; 0x10; 0x20; 0x40; 0x80;
   0x100; 0x200; 0x400; 0x800; 0x1000; 0x2000; 0x4000; 0x8000;
   0x10000; 0x20000; 0x40000; 0x80000; 0x100000; 0x200000; 0x400000; 0x800000;
   0x1000000; 0x2000000; 0x4000000; 0x8000000; 0x10000000; 0x20000000; 0x40000000; 0x80000000].

(** [Filter::bitBlockSize] in words: 8192 bytes. *)
Definition bitBlockWords : Z := 2048.

(** 2048 words of unspecified contents, as the pool returns them. *)
Definition pool_malloc (junk : Z -> Z) : list Z :=
  map (fun i => wrap32 (junk i)) (range 0 (bitBlockWords - 1)).

(** ** Construction *)

Definition Clean (b : Block) (value : bool) : Block :=
  if value
  then mkBlock (replicate (Z.to_nat bitBlockWords) 0xFFFFFFFF) (no_obj b) (no_obj b) (block_size b)
  else mkBlock (replicate (Z.to_nat bitBlockWords) 0) (no_obj b) 0 (block_size b).

Definition Init (_no_obj : Z) (all_full : bool) : Block :=
  Clean (mkBlock [] _no_obj 0 ((_no_obj + 31) / 32)) all_full.

(** [memcpy] of the first [n] words. *)
Definition copy_words (n : Z) (dst src : list Z) : list Z :=
  take (Z.to_nat n) src ++ drop (Z.to_nat n) dst.

Definition CopyFrom (junk : Z -> Z) (self block : Block) : Block :=
  let t :=
    match block_table block with
    | [] => block_table self
    | _ =>
      let dst := match block_table self with [] => pool_malloc junk | t => t end in
      copy_words (block_size block) dst (block_table block)
    end in
  mkBlock t (no_obj block) (no_set_bits block) (block_size block).

(** The copy constructor: [block_table = 0; CopyFrom(block, owner)]. *)
Definition Block_copy (junk : Z -> Z) (block : Block) : Block :=
  CopyFrom junk (mkBlock [] 0 0 0) block.

(** ** Single positions *)

Definition Get (b : Block) (n : Z) : bool :=
  negb (Z.land (block_table b).[0|Z.shiftr n 5] lshift1.[0|Z.land n 31] =? 0).

Definition Set_n (b : Block) (n : Z) : Block * bool :=
  let mask := lshift1.[0|Z.land n 31] in
  let cur_p := (block_table b).[0|Z.shiftr n 5] in
  let b' :=
    if Z.land cur_p mask =? 0
    then mkBlock ((block_table b).[Z.shiftr n 5 <- Z.lor cur_p mask])
                 (no_obj b) (no_set_bits b + 1) (block_size b)
    else b in
  (b', (no_set_bits b' =? 0) || (no_set_bits b' =? no_obj b')).

Definition Reset_n (b : Block) (n : Z) : Block * bool :=
  let mask := lshift1.[0|Z.land n 31] in
  let cur_bl := (block_table b).[0|Z.shiftr n 5] in
  let b' :=
    if negb (Z.land cur_bl mask =? 0)
    then mkBlock ((block_table b).[Z.shiftr n 5 <- Z.land cur_bl (Z.lnot mask)])
                 (no_obj b) (no_set_bits b - 1) (block_size b)
    else b in
  (b', no_set_bits b' =? 0).

(** [Reset()]: give the table back. *)
Definition Reset_all (b : Block) : Block := mkBlock [] (no_obj b) 0 (block_size b).

(** ** Intervals *)

Fixpoint Set_loop (l : list Z) (b : Block) : Block * bool :=
  match l with
  | [] => (b, false)
  | i :: l' => let '(b', full) := Set_n b i in if full then (b', true) else Set_loop l' b'
  end.

Definition Set_between (b : Block) (n1 n2 : Z) : Block * bool := Set_loop (range n1 n2) b.

(** [block_table[k] &= ~lshift1[i]] *)
Definition clear_in_word (k : Z) (t : list Z) (i : Z) : list Z :=
  t.[k <- Z.land t.[0|k] (Z.lnot lshift1.[0|i])].

(** The loops over the bits of word [k] of the general branch of [Reset(n1, n2)], which stop
    as soon as the counter reaches zero, before the last bit is cleared. *)
Fixpoint Reset_bits_loop (k : Z) (l : list Z) (b : Block) : Block :=
  match l with
  | [] => b
  | i :: l' =>
    if Z.land (block_table b).[0|k] lshift1.[0|i] =? 0 then Reset_bits_loop k l' b
    else
      let nsb := no_set_bits b - 1 in
      if nsb =? 0 then mkBlock (block_table b) (no_obj b) nsb (block_size b)
      else Reset_bits_loop k l'
             (mkBlock (clear_in_word k (block_table b) i) (no_obj b) nsb (block_size b))
  end.

Fixpoint Reset_words_loop (l : list Z) (b : Block) : Block :=
  match l with
  | [] => b
  | i :: l' =>
    let nsb := no_set_bits b - CalculateBinSum (block_table b).[0|i] in
    let b' := mkBlock ((block_table b).[i <- 0]) (no_obj b) nsb (block_size b) in
    if nsb =? 0 then b' else Reset_words_loop l' b'
  end.

Definition Reset_between (b : Block) (n1 n2 : Z) : Block * bool :=
  let bl1 := n1 / 32 in
  let bl2 := n2 / 32 in
  let off1 := Z.land n1 31 in
  let off2 := Z.land n2 31 in
  let b' :=
    if no_set_bits b =? no_obj b then
      let t := block_table b in
      let t :=
        if bl1 =? bl2 then foldl (clear_in_word bl1) t (range off1 off2)
        else
          let t := foldl (clear_in_word bl1) t (range off1 31) in
          let t := foldl (fun t i => t.[i <- 0]) t (range (bl1 + 1) (bl2 - 1)) in
          foldl (clear_in_word bl2) t (range 0 off2) in
      mkBlock t (no_obj b) (no_obj b - (n2 - n1 + 1)) (block_size b)
    else if bl1 =? bl2 then foldl (fun b i => fst (Reset_n b i)) b (range n1 n2)
    else
      let b := Reset_bits_loop bl1 (range off1 31) b in
      let b := if 0 <? no_set_bits b then Reset_words_loop (range (bl1 + 1) (bl2 - 1)) b else b in
      if 0 <? no_set_bits b then Reset_bits_loop bl2 (range 0 off2) b else b in
  (b', no_set_bits b' =? 0).

(** The three loop shapes of the interval queries: bits of one word, whole words. *)
Definition word_bits_clear (t : list Z) (k a z : Z) : bool :=
  forallb (fun i => Z.land t.[0|k] lshift1.[0|i] =? 0) (range a z).

Definition word_bits_set (t : list Z) (k a z : Z) : bool :=
  forallb (fun i => negb (Z.land t.[0|k] lshift1.[0|i] =? 0)) (range a z).

Definition word_bits_sum (t : list Z) (k a z : Z) : Z :=
  foldl (fun r i => r + (if negb (Z.land t.[0|k] lshift1.[0|i] =? 0) then 1 else 0)) 0 (range a z).

Definition IsEmptyBetween (b : Block) (n1 n2 : Z) : bool :=
  let t := block_table b in
  let bl1 := n1 / 32 in
  let bl2 := n2 / 32 in
  let off1 := Z.land n1 31 in
  let off2 := Z.land n2 31 in
  if bl1 =? bl2 then
    if t.[0|bl1] =? 0 then true else word_bits_clear t bl1 off1 off2
  else
    let i_start := if off1 =? 0 then bl1 else bl1 + 1 in
    let i_stop := if off2 =? 31 then bl2 else bl2 - 1 in
    if negb (forallb (fun i => t.[0|i] =? 0) (range i_start i_stop)) then false
    else if negb (bl1 =? i_start) && negb (word_bits_clear t bl1 off1 31) then false
    else if negb (bl2 =? i_stop) && negb (word_bits_clear t bl2 0 off2) then false
    else true.

(** The head word is scanned from [off2], as the source has it. *)
Definition IsFullBetween (b : Block) (n1 n2 : Z) : bool :=
  let t := block_table b in
  let bl1 := n1 / 32 in
  let bl2 := n2 / 32 in
  let off1 := Z.land n1 31 in
  let off2 := Z.land n2 31 in
  if bl1 =? bl2 then
    if t.[0|bl1] =? 0xFFFFFFFF then true else word_bits_set t bl1 off1 off2
  else
    let i_start := if off1 =? 0 then bl1 else bl1 + 1 in
    let i_stop := if off2 =? 31 then bl2 else bl2 - 1 in
    if negb (forallb (fun i => t.[0|i] =? 0xFFFFFFFF) (range i_start i_stop)) then false
    else if negb (bl1 =? i_start) && negb (word_bits_set t bl1 off2 31) then false
    else if negb (bl2 =? i_stop) && negb (word_bits_set t bl2 0 off2) then false
    else true.

Definition NoOnesBetween (b : Block) (n1 n2 : Z) : Z :=
  let t := block_table b in
  let bl1 := n1 / 32 in
  let bl2 := n2 / 32 in
  let off1 := Z.land n1 31 in
  let off2 := Z.land n2 31 in
  if bl1 =? bl2 then
    if t.[0|bl1] =? 0 then 0 else word_bits_sum t bl1 off1 off2
  else
    let i_start := if off1 =? 0 then bl1 else bl1 + 1 in
    let i_stop := if off2 =? 31 then bl2 else bl2 - 1 in
    let result := foldl (fun r i => r + CalculateBinSum t.[0|i]) 0 (range i_start i_stop) in
    let result := result + (if bl1 =? i_start then 0 else word_bits_sum t bl1 off1 31) in
    result + (if bl2 =? i_stop then 0 else word_bits_sum t bl2 0 off2).

(** -1, or the number of ones when they are all at the beginning of the block.  Divisions are
    those of C: [no_obj / 32 - 1] is [-1] for a block of fewer than 32 rows, and the table is
    then not read. *)
Definition BlockContinuous (b : Block) : Z :=
  let t := block_table b in
  let last_int := no_obj b / 32 - 1 in
  let full_ints_to_check := no_set_bits b / 32 in
  if (full_ints_to_check + 1 <? last_int) && negb (t.[0|last_int] =? 0) then -1
  else if negb (forallb (fun i => t.[0|i] =? 0xFFFFFFFF) (range 0 (full_ints_to_check - 1))) then -1
  else if negb (forallb (Get b) (range (full_ints_to_check * 32) (no_set_bits b - 1))) then -1
  else no_set_bits b.

(** The consistency check of the integrity tests: the number of ones found, and whether the
    header agrees with it. *)
Definition IsNumberOfOnesInHeaderProper (b : Block) : Z * bool :=
  let test_bits := foldl (fun r i => if Get b i then r + 1 else r) 0 (range 0 (no_obj b - 1)) in
  (test_bits, test_bits =? no_set_bits b).

(** ** Logical operations *)

Definition IsEqual (b b2 : Block) : bool :=
  let mn := (no_obj b - 1) / 32 in
  let mask := Z.shiftr 0xffffffff (32 - ((no_obj b - 1) mod 32 + 1)) in
  forallb (fun n => (block_table b).[0|n] =? (block_table b2).[0|n]) (range 0 (mn - 1)) &&
  (Z.land (block_table b).[0|mn] mask =? Z.land (block_table b2).[0|mn] mask).

Definition And_ (b b2 : Block) : Block * bool :=
  let mn := if no_obj b2 <? no_obj b then no_obj b2 else no_obj b in
  let b' := foldl (fun b n => if Get b n && negb (Get b2 n) then fst (Reset_n b n) else b)
                  b (range 0 (mn - 1)) in
  (b', no_set_bits b' =? 0).

Definition AndNot (b b2 : Block) : Block * bool :=
  let mn := if no_obj b2 <? no_obj b then no_obj b2 else no_obj b in
  let b' := foldl (fun b n => if Get b n && Get b2 n then fst (Reset_n b n) else b)
                  b (range 0 (mn - 1)) in
  (b', no_set_bits b' =? 0).

(** The word loop carries the table and the new count. *)
Definition Or_words (t2 : list Z) (s : list Z * Z) (k : Z) : list Z * Z :=
  let '(t, c) := s in
  let w := Z.lor t.[0|k] t2.[0|k] in
  (t.[k <- w], c + CalculateBinSum w).

Definition Or_tail (b2 b : Block) (n : Z) : Block :=
  if Get b n then mkBlock (block_table b) (no_obj b) (no_set_bits b + 1) (block_size b)
  else if Get b2 n then fst (Set_n b n)
  else b.

Definition Or_ (b b2 : Block) : Block * bool :=
  let no_positions := no_obj b / 32 in
  let '(t, new_set_bits) := foldl (Or_words (block_table b2)) (block_table b, 0) (range 0 (no_positions - 1)) in
  let b' := mkBlock t (no_obj b) new_set_bits (block_size b) in
  let no_all_obj := no_obj b in
  let b' :=
    if negb (no_all_obj mod 32 =? 0)
    then foldl (Or_tail b2) b' (range (no_all_obj / 32 * 32) (no_all_obj - 1))
    else b' in
  (b', (no_set_bits b' =? 0) || (no_set_bits b' =? no_obj b')).

Definition Not_ (b : Block) : Block :=
  let new_set_bits := no_obj b - no_set_bits b in
  let no_all_obj := no_obj b in
  let b' :=
    if negb (no_all_obj mod 32 =? 0)
    then foldl (fun b n => if Get b n then fst (Reset_n b n) else fst (Set_n b n))
               b (range (no_all_obj / 32 * 32) (no_all_obj - 1))
    else b in
  let t := foldl (fun t k => t.[k <- wrap32 (Z.lnot t.[0|k])]) (block_table b') (range 0 (no_obj b / 32 - 1)) in
  mkBlock t (no_obj b) new_set_bits (block_size b).

(** ** Resizing *)

Definition InitBits (b : Block) (n1 n2 : Z) (value : bool) : Block :=
  if value then
    foldl (fun b i =>
             mkBlock ((block_table b).[i / 32 <- Z.lor (block_table b).[0|i / 32] lshift1.[0|Z.land i 31]])
                     (no_obj b) (no_set_bits b + 1) (block_size b)) b (range n1 n2)
  else
    foldl (fun b i =>
             mkBlock ((block_table b).[i / 32 <- Z.land (block_table b).[0|i / 32] (Z.lnot lshift1.[0|Z.land i 31])])
                     (no_obj b) (no_set_bits b) (block_size b)) b (range n1 n2).

(** [BHASSERT(NoObj() + grow_size <= 0x10000)] is [None]. *)
Definition GrowBlock (b : Block) (grow_size : Z) (value : bool) : option Block :=
  if no_obj b + grow_size <=? 0x10000 then
    let b' := InitBits b (no_obj b) (no_obj b + grow_size - 1) value in
    let n := no_obj b + grow_size in
    Some (mkBlock (block_table b') n (no_set_bits b') ((n + 31) / 32))
  else None.

Definition ShrinkBlock (b : Block) (new_size : Z) : Block :=
  if new_size =? no_obj b then b
  else
    let b' := fst (Reset_between b new_size (Z.min 0xFFFF (no_obj b - 1))) in
    mkBlock (block_table b') new_size (no_set_bits b') ((new_size + 31) / 32).

(** ** Tables as bit sequences *)

(** Bit [n] of a table of 32-bit words. *)
Definition tbit (t : list Z) (n : Z) : bool := Z.testbit (t.[0|n / 32]) (n mod 32).

Definition table_ok (t : list Z) : Prop := zlen t = bitBlockWords /\ Forall (is_word 32) t.

(** The invariant of a block: a full-sized table of words, a row count that fits a pack, and a
    counter that agrees with the bits. *)
Record Block_wf (b : Block) : Prop := {
  wf_table : table_ok (block_table b);
  wf_no_obj : 0 < no_obj b <= 65536;
  wf_size : block_size b = (no_obj b + 31) / 32;
  wf_count : no_set_bits b = cnt (Get b) 0 (no_obj b)
}.

Lemma lshift1_spec i : 0 <= i < 32 -> lshift1.[0|i] = 2 ^ i.
Proof.
  intros Hi.
  assert (forallb (fun i => lshift1.[0|i] =? 2 ^ i) (range 0 31) = true) as H by (vm_compute; reflexivity).
  rewrite forallb_forall in H. apply Z.eqb_eq, H, range_In. lia.
Qed.

Lemma land_pow2 w i : 0 <= i -> (Z.land w (2 ^ i) =? 0) = negb (Z.testbit w i).
Proof.
  intros Hi. destruct (Z.testbit w i) eqn:E; simpl.
  - apply Z.eqb_neq. intros H. apply (f_equal (fun x => Z.testbit x i)) in H.
    rewrite Z.land_spec, E, Z.pow2_bits_true, Z.testbit_0_l in H by lia. done.
  - apply Z.eqb_eq. apply Z.bits_inj'. intros j Hj.
    rewrite Z.land_spec, Z.pow2_bits_eqb, Z.testbit_0_l by lia.
    destruct (Z.eqb_spec i j) as [<-|]; [by rewrite E|by rewrite andb_false_r].
Qed.

Lemma land_lshift1 w i : 0 <= i < 32 -> (Z.land w lshift1.[0|i] =? 0) = negb (Z.testbit w i).
Proof. intros. rewrite lshift1_spec by lia. apply land_pow2. lia. Qed.

Lemma land_31 n : Z.land n 31 = n mod 32.
Proof. change 31 with (Z.ones 5). rewrite Z.land_ones by lia. done. Qed.

Lemma shiftr_5 n : Z.shiftr n 5 = n / 32.
Proof. by rewrite Z.shiftr_div_pow2. Qed.

Lemma mod32_bound n : 0 <= n mod 32 < 32.
Proof. apply Z.mod_pos_bound. lia. Qed.
#[export] Hint Resolve mod32_bound : bh.

Lemma Get_tbit b n : Get b n = tbit (block_table b) n.
Proof.
  unfold Get, tbit. rewrite shiftr_5, land_31, land_lshift1 by apply mod32_bound.
  apply negb_involutive.
Qed.

Lemma testbit_set_word w i j :
  0 <= i < 32 -> 0 <= j -> Z.testbit (Z.lor w lshift1.[0|i]) j = (j =? i) || Z.testbit w j.
Proof.
  intros. rewrite lshift1_spec, Z.lor_spec, Z.pow2_bits_eqb by lia.
  rewrite (Z.eqb_sym i j). apply orb_comm.
Qed.

Lemma testbit_clear_word w i j :
  0 <= i < 32 -> 0 <= j ->
  Z.testbit (Z.land w (Z.lnot lshift1.[0|i])) j = negb (j =? i) && Z.testbit w j.
Proof.
  intros. rewrite lshift1_spec, Z.land_spec, Z.lnot_spec, Z.pow2_bits_eqb by lia.
  rewrite (Z.eqb_sym i j). apply andb_comm.
Qed.

Lemma table_word t k : table_ok t -> 0 <= k < bitBlockWords -> is_word 32 (t.[0|k]).
Proof. intros [Hl Hf] Hk. apply (znth_Forall _ 0 t k Hf). lia. Qed.

Lemma table_ok_upd t k w : table_ok t -> is_word 32 w -> table_ok (t.[k <- w]).
Proof.
  intros [Hl Hf] Hw. split; [by rewrite zlen_zupd|]. by apply zupd_Forall.
Qed.

Lemma lshift1_word i : 0 <= i < 32 -> is_word 32 (lshift1.[0|i]).
Proof.
  intros. rewrite lshift1_spec by lia. split; [apply Z.pow_nonneg; lia|].
  apply Z.pow_lt_mono_r; lia.
Qed.

Lemma word_0 : is_word 32 0.
Proof. unfold is_word. lia. Qed.

Lemma word_ones32 : is_word 32 0xFFFFFFFF.
Proof. unfold is_word. lia. Qed.
#[export] Hint Resolve table_word table_ok_upd lshift1_word word_0 word_ones32 : bh.

Lemma tbit_upd t k w n :
  table_ok t -> 0 <= k < bitBlockWords ->
  tbit (t.[k <- w]) n = if n / 32 =? k then Z.testbit w (n mod 32) else tbit t n.
Proof.
  intros [Hl _] Hk. unfold tbit. rewrite znth_zupd by lia.
  by destruct (n / 32 =? k).
Qed.

Lemma pos_split n : n = 32 * (n / 32) + n mod 32.
Proof. apply Z.div_mod. lia. Qed.

Lemma pos_eqb n m : (n =? m) = (n / 32 =? m / 32) && (n mod 32 =? m mod 32).
Proof.
  pose proof (pos_split n). pose proof (pos_split m).
  destruct (Z.eqb_spec n m) as [->|]; [by rewrite !Z.eqb_refl|].
  destruct (Z.eqb_spec (n / 32) (m / 32)), (Z.eqb_spec (n mod 32) (m mod 32)); simpl; try done. lia.
Qed.

Lemma pos_word_bound n : 0 <= n < 65536 -> 0 <= n / 32 < bitBlockWords.
Proof.
  intros. unfold bitBlockWords. split; [apply Z.div_pos; lia|].
  apply Z.div_lt_upper_bound; lia.
Qed.
#[export] Hint Resolve pos_word_bound : bh.

(** Setting or clearing one position of the table. *)
Lemma tbit_set t n m :
  table_ok t -> 0 <= n < 65536 ->
  tbit (t.[n / 32 <- Z.lor t.[0|n / 32] lshift1.[0|n mod 32]]) m = (m =? n) || tbit t m.
Proof.
  intros Ht Hn. rewrite tbit_upd by auto with bh. rewrite (pos_eqb m n).
  pose proof (mod32_bound m). destruct (Z.eqb_spec (m / 32) (n / 32)) as [E|]; [|done].
  rewrite testbit_set_word by (auto with bh; lia). unfold tbit. by rewrite E.
Qed.

Lemma tbit_clear t n m :
  table_ok t -> 0 <= n < 65536 ->
  tbit (t.[n / 32 <- Z.land t.[0|n / 32] (Z.lnot lshift1.[0|n mod 32])]) m = negb (m =? n) && tbit t m.
Proof.
  intros Ht Hn. rewrite tbit_upd by auto with bh. rewrite (pos_eqb m n).
  pose proof (mod32_bound m). destruct (Z.eqb_spec (m / 32) (n / 32)) as [E|]; [|done].
  rewrite testbit_clear_word by (auto with bh; lia). unfold tbit. by rewrite E.
Qed.

Lemma table_ok_set t n :
  table_ok t -> 0 <= n < 65536 -> table_ok (t.[n / 32 <- Z.lor t.[0|n / 32] lshift1.[0|n mod 32]]).
Proof. intros. apply table_ok_upd; [done|]. apply word_lor; auto with bh; lia. Qed.

Lemma table_ok_clear t n x :
  table_ok t -> 0 <= n < 65536 -> table_ok (t.[n / 32 <- Z.land t.[0|n / 32] x]).
Proof. intros. apply table_ok_upd; [done|]. apply word_land_l; auto with bh; lia. Qed.
#[export] Hint Resolve table_ok_set table_ok_clear : bh.

(** ** Construction *)

Lemma zlen_const (x : Z) : zlen (replicate (Z.to_nat bitBlockWords) x) = bitBlockWords.
Proof. by apply zlen_replicate. Qed.

Lemma table_ok_const x : is_word 32 x -> table_ok (replicate (Z.to_nat bitBlockWords) x).
Proof. intros. split; [apply zlen_const|]. by apply Forall_replicate. Qed.

Lemma ones32_testbit i : 0 <= i < 32 -> Z.testbit 0xFFFFFFFF i = true.
Proof. intros. change 0xFFFFFFFF with (Z.ones 32). apply Z.ones_spec_low. lia. Qed.

Lemma tbit_const (v : bool) n :
  0 <= n < 65536 ->
  tbit (replicate (Z.to_nat bitBlockWords) (if v then 0xFFFFFFFF else 0)) n = v.
Proof.
  intros. unfold tbit. rewrite znth_replicate by auto with bh.
  destruct v; [apply ones32_testbit; auto with bh|apply Z.testbit_0_l].
Qed.

Lemma Get_Init n0 v n : 0 <= n < 65536 -> Get (Init n0 v) n = v.
Proof. intros. rewrite Get_tbit. destruct v; [apply (tbit_const true n)|apply (tbit_const false n)]; done. Qed.

Lemma Init_wf n0 v : 0 < n0 <= 65536 -> Block_wf (Init n0 v).
Proof.
  intros. split; [| |by destruct v|].
  - destruct v; apply table_ok_const; auto with bh.
  - by destruct v.
  - transitivity (cnt (fun _ => v) 0 n0).
    + destruct v; simpl; symmetry.
      * pose proof (cnt_full (fun _ => true) 0 n0 ltac:(lia)) as Hc.
        destruct Hc as [_ Hc]. rewrite Hc by done. lia.
      * apply cnt_zero. done.
    + replace (no_obj (Init n0 v)) with n0 by (by destruct v).
      apply cnt_ext. intros i ?. symmetry. apply Get_Init. lia.
Qed.

(** ** One position *)

(** A block that differs from a well-formed one in one bit and counts it. *)
Lemma wf_update b b' n :
  Block_wf b -> 0 <= n < no_obj b -> table_ok (block_table b') ->
  no_obj b' = no_obj b -> block_size b' = block_size b ->
  (forall m, 0 <= m < no_obj b -> m <> n -> Get b' m = Get b m) ->
  no_set_bits b' = no_set_bits b - bit1 (Get b n) + bit1 (Get b' n) ->
  Block_wf b'.
Proof.
  intros Hwf Hn Ht Ho Hs Hm Hc. split; [done| | |].
  - rewrite Ho. apply Hwf.
  - rewrite Hs, Ho. apply Hwf.
  - rewrite Hc, Ho, (wf_count b Hwf). symmetry. by apply cnt_update.
Qed.

Section OnePosition.
Context (b : Block) (n : Z) (Hwf : Block_wf b) (Hn : 0 <= n < no_obj b).

Let Hb := wf_no_obj b Hwf.
Let Ht := wf_table b Hwf.

Lemma Set_n_eq :
  Set_n b n =
  (let b' := if Get b n then b
             else mkBlock ((block_table b).[n / 32 <- Z.lor (block_table b).[0|n / 32] lshift1.[0|n mod 32]])
                          (no_obj b) (no_set_bits b + 1) (block_size b) in
   (b', (no_set_bits b' =? 0) || (no_set_bits b' =? no_obj b'))).
Proof.
  unfold Set_n. rewrite shiftr_5, land_31, land_lshift1 by auto with bh.
  rewrite Get_tbit. unfold tbit. by destruct (Z.testbit _ _).
Qed.

Lemma Reset_n_eq :
  Reset_n b n =
  (let b' := if Get b n
             then mkBlock ((block_table b).[n / 32 <- Z.land (block_table b).[0|n / 32] (Z.lnot lshift1.[0|n mod 32])])
                          (no_obj b) (no_set_bits b - 1) (block_size b)
             else b in
   (b', no_set_bits b' =? 0)).
Proof.
  unfold Reset_n. rewrite shiftr_5, land_31, land_lshift1 by auto with bh.
  rewrite Get_tbit. unfold tbit. by destruct (Z.testbit _ _).
Qed.

Lemma Get_Set_n m : 0 <= m < no_obj b -> Get (fst (Set_n b n)) m = (m =? n) || Get b m.
Proof.
  intros. rewrite Set_n_eq. simpl. destruct (Get b n) eqn:E.
  - destruct (Z.eqb_spec m n) as [->|]; [by rewrite E|done].
  - rewrite !Get_tbit. simpl. apply tbit_set; [apply Ht|lia].
Qed.

Lemma Get_Reset_n m : 0 <= m < no_obj b -> Get (fst (Reset_n b n)) m = negb (m =? n) && Get b m.
Proof.
  intros. rewrite Reset_n_eq. simpl. destruct (Get b n) eqn:E.
  - rewrite !Get_tbit. simpl. apply tbit_clear; [apply Ht|lia].
  - destruct (Z.eqb_spec m n) as [->|]; [by rewrite E|done].
Qed.

Lemma no_obj_Set_n : no_obj (fst (Set_n b n)) = no_obj b.
Proof. rewrite Set_n_eq. simpl. by destruct (Get b n). Qed.

Lemma no_obj_Reset_n : no_obj (fst (Reset_n b n)) = no_obj b.
Proof. rewrite Reset_n_eq. simpl. by destruct (Get b n). Qed.

Lemma Set_n_wf : Block_wf (fst (Set_n b n)).
Proof.
  pose proof Get_Set_n as HG. rewrite Set_n_eq in *. simpl in *.
  destruct (Get b n) eqn:E; [done|]. apply (wf_update b _ n); simpl; try done.
  - apply table_ok_set; [apply Ht|lia].
  - intros m Hm Hne. rewrite HG by lia. destruct (Z.eqb_spec m n); [lia|done].
  - rewrite (HG n Hn), E, Z.eqb_refl. simpl. lia.
Qed.

Lemma Reset_n_wf : Block_wf (fst (Reset_n b n)).
Proof.
  pose proof Get_Reset_n as HG. rewrite Reset_n_eq in *. simpl in *.
  destruct (Get b n) eqn:E; [|done]. apply (wf_update b _ n); simpl; try done.
  - apply table_ok_clear; [apply Ht|lia].
  - intros m Hm Hne. rewrite HG by lia. destruct (Z.eqb_spec m n); [lia|done].
  - rewrite (HG n Hn), E, Z.eqb_refl. simpl. lia.
Qed.
End OnePosition.

(** ** The abstraction: a block denotes a bit function on its rows *)

Definition denotes (b : Block) (N : Z) (f : Z -> bool) : Prop :=
  Block_wf b /\ no_obj b = N /\ (forall m, 0 <= m < N -> Get b m = f m).

(** Bit functions that agree on the rows. *)
Definition eq_upto (N : Z) (f g : Z -> bool) : Prop := forall m, 0 <= m < N -> f m = g m.

#[export] Instance eq_upto_equiv N : Equivalence (eq_upto N).
Proof.
  split.
  - intros f m _. done.
  - intros f g H m Hm. symmetry. by apply H.
  - intros f g h H1 H2 m Hm. rewrite H1 by done. by apply H2.
Qed.

#[export] Instance denotes_proper b N : Proper (eq_upto N ==> iff) (denotes b N).
Proof.
  intros f g H. unfold denotes.
  split; intros (Hw & Ho & Hg); (split; [done|split; [done|]]); intros m Hm;
    rewrite Hg by done; [|symmetry]; by apply H.
Qed.

#[export] Instance cnt_proper N : Proper (eq_upto N ==> eq) (fun f => cnt f 0 N).
Proof. intros f g H. apply cnt_ext. exact H. Qed.

Section Denotation.
Context (b : Block) (N : Z) (f : Z -> bool).

Lemma denotes_ext g : denotes b N f -> eq_upto N f g -> denotes b N g.
Proof. intros H E. by rewrite <- E. Qed.

Lemma denotes_count : denotes b N f -> no_set_bits b = cnt f 0 N.
Proof.
  intros (Hw & Ho & Hg). rewrite (wf_count b Hw), Ho. by apply cnt_ext.
Qed.

Lemma denotes_bound : denotes b N f -> 0 < N <= 65536.
Proof. intros (Hw & <- & _). apply Hw. Qed.

Lemma denotes_full : denotes b N f -> (no_set_bits b =? no_obj b) = (cnt f 0 N =? N).
Proof. intros H. rewrite (denotes_count H). by destruct H as (_ & -> & _). Qed.

Lemma denotes_zero : denotes b N f -> (no_set_bits b =? 0) = (cnt f 0 N =? 0).
Proof. intros H. by rewrite (denotes_count H). Qed.

Lemma denotes_Set_n n :
  denotes b N f -> 0 <= n < N -> denotes (fst (Set_n b n)) N (fun m => (m =? n) || f m).
Proof.
  intros (Hw & <- & Hg) Hn. split; [by apply Set_n_wf|].
  split; [by apply no_obj_Set_n|]. intros m Hm. rewrite Get_Set_n by done. by rewrite Hg.
Qed.

Lemma denotes_Reset_n n :
  denotes b N f -> 0 <= n < N -> denotes (fst (Reset_n b n)) N (fun m => negb (m =? n) && f m).
Proof.
  intros (Hw & <- & Hg) Hn. split; [by apply Reset_n_wf|].
  split; [by apply no_obj_Reset_n|]. intros m Hm. rewrite Get_Reset_n by done. by rewrite Hg.
Qed.

Lemma Set_n_flag n :
  denotes b N f -> 0 <= n < N ->
  snd (Set_n b n) = (no_set_bits (fst (Set_n b n)) =? N).
Proof.
  intros H Hn. pose proof (denotes_Set_n n H Hn) as H'.
  assert (0 < no_set_bits (fst (Set_n b n))) as Hpos.
  { destruct H' as (Hw & Ho & Hg). rewrite (wf_count _ Hw), Ho.
    pose proof (cnt_bounds (Get (fst (Set_n b n))) 0 N).
    destruct (Z.eq_dec (cnt (Get (fst (Set_n b n))) 0 N) 0) as [E|]; [|lia].
    exfalso. rewrite cnt_zero in E. specialize (E n Hn). rewrite Hg, Z.eqb_refl in E by done. done. }
  assert (snd (Set_n b n) = (no_set_bits (fst (Set_n b n)) =? 0)
                            || (no_set_bits (fst (Set_n b n)) =? no_obj (fst (Set_n b n)))) as -> by done.
  destruct H' as (_ & -> & _). by destruct (Z.eqb_spec (no_set_bits (fst (Set_n b n))) 0); [lia|].
Qed.

Lemma Reset_n_flag n : snd (Reset_n b n) = (no_set_bits (fst (Reset_n b n)) =? 0).
Proof. done. Qed.
End Denotation.

Definition within (n1 n2 m : Z) : bool := (n1 <=? m) && (m <=? n2).

Lemma within_spec n1 n2 m : within n1 n2 m = true <-> n1 <= m <= n2.
Proof. unfold within. rewrite andb_true_iff, !Z.leb_le. done. Qed.

Lemma denotes_Init n0 v : 0 < n0 <= 65536 -> denotes (Init n0 v) n0 (fun _ => v).
Proof.
  intros. split; [by apply Init_wf|]. split; [by destruct v|].
  intros. apply Get_Init. lia.
Qed.

(** ** Setting an interval *)

Lemma Set_loop_spec n2 : forall n1 b N f,
  denotes b N f -> 0 <= n1 -> n2 < N ->
  denotes (fst (Set_loop (range n1 n2) b)) N (fun m => within n1 n2 m || f m) /\
  (n1 <= n2 -> snd (Set_loop (range n1 n2) b) = (no_set_bits (fst (Set_loop (range n1 n2) b)) =? N)).
Proof.
  refine (range_ind (fun l n1 => forall b N f,
    denotes b N f -> 0 <= n1 -> n2 < N ->
    denotes (fst (Set_loop l b)) N (fun m => within n1 n2 m || f m) /\
    (n1 <= n2 -> snd (Set_loop l b) = (no_set_bits (fst (Set_loop l b)) =? N))) n2 _ _).
  - intros a Ha b N f Hd _ _. simpl. split; [|lia].
    refine (denotes_ext _ _ _ _ Hd _). intros m Hm. unfold within. cmp_solve.
  - intros a Ha IH b N f Hd Ha0 Hn2. cbn [Set_loop].
    pose proof (denotes_Set_n b N f a Hd ltac:(lia)) as Hd'.
    pose proof (Set_n_flag b N f a Hd ltac:(lia)) as Hfl.
    destruct (Set_n b a) as [b' full]. simpl in Hd', Hfl. subst full.
    destruct (Z.eqb_spec (no_set_bits b') N) as [Hfull|Hnf].
    + simpl. rewrite Hfull, Z.eqb_refl. split; [|done].
      refine (denotes_ext _ _ _ _ Hd' _). intros m Hm.
      pose proof (denotes_bound _ _ _ Hd').
      rewrite (denotes_count _ _ _ Hd') in Hfull.
      pose proof (proj1 (cnt_full (fun m => (m =? a) || f m) 0 N ltac:(lia)) ltac:(lia) m Hm) as Hm1.
      simpl in Hm1. rewrite Hm1. symmetry. apply orb_true_iff in Hm1 as [Hm1| ->]; [|by rewrite orb_true_r].
      bool_to_prop. unfold within. cmp_solve.
    + destruct (IH b' N _ Hd' ltac:(lia) Hn2) as [IH1 IH2]. split.
      * refine (denotes_ext _ _ _ _ IH1 _). intros m Hm. unfold within. cmp_solve.
      * intros _. destruct (Z.eq_dec a n2) as [->|]; [|apply IH2; lia].
        rewrite range_nil by lia. simpl. destruct (Z.eqb_spec (no_set_bits b') N); done.
Qed.

Lemma denotes_Set_between b N f n1 n2 :
  denotes b N f -> 0 <= n1 -> n2 < N ->
  denotes (fst (Set_between b n1 n2)) N (fun m => within n1 n2 m || f m).
Proof. intros. by apply Set_loop_spec. Qed.

Lemma Set_between_flag b N f n1 n2 :
  denotes b N f -> 0 <= n1 <= n2 -> n2 < N ->
  snd (Set_between b n1 n2) = (cnt (fun m => within n1 n2 m || f m) 0 N =? N).
Proof.
  intros H ? ?. destruct (Set_loop_spec n2 n1 b N f H ltac:(lia) ltac:(lia)) as [Hd Hf].
  unfold Set_between. rewrite Hf by lia. by rewrite (denotes_count _ _ _ Hd).
Qed.

(** ** Clearing an interval *)

Definition minus (f : Z -> bool) (n1 n2 m : Z) : bool := f m && negb (within n1 n2 m).

Lemma minus_minus N f a z y :
  a <= z + 1 -> z <= y -> eq_upto N (minus (minus f a z) (z + 1) y) (minus f a y).
Proof. intros ? ? m Hm. unfold minus, within. destruct (f m); cmp_solve. Qed.

Lemma minus_nil N f a z : z < a -> eq_upto N f (minus f a z).
Proof. intros ? m Hm. unfold minus, within. destruct (f m); cmp_solve. Qed.

Lemma minus_zero N f a z b : cnt (minus f a z) 0 N = 0 -> z <= b -> cnt (minus f a b) 0 N = 0.
Proof.
  rewrite !cnt_zero. intros H ? m Hm. specialize (H m Hm). revert H. unfold minus, within.
  destruct (f m); cmp_solve.
Qed.

Section WordLoops.
Context (k : Z) (Hk : 0 <= k < bitBlockWords).

Lemma word_pos i : 0 <= i < 32 -> (32 * k + i) / 32 = k /\ (32 * k + i) mod 32 = i.
Proof.
  intros. split.
  - symmetry. apply (Z.div_unique_pos _ _ _ i); lia.
  - symmetry. apply (Z.mod_unique_pos _ _ k); lia.
Qed.

Lemma word_pos_bound i : 0 <= i < 32 -> 0 <= 32 * k + i < 65536.
Proof. unfold bitBlockWords in Hk. lia. Qed.

Lemma clear_in_word_tbit t i m :
  table_ok t -> 0 <= i < 32 ->
  tbit (clear_in_word k t i) m = negb (m =? 32 * k + i) && tbit t m.
Proof.
  intros Ht Hi. destruct (word_pos i Hi) as [E1 E2].
  pose proof (tbit_clear t (32 * k + i) m Ht (word_pos_bound i Hi)) as H.
  rewrite E1, E2 in H. exact H.
Qed.

Lemma clear_in_word_ok t i : table_ok t -> table_ok (clear_in_word k t i).
Proof. intros. apply table_ok_upd; [done|]. apply word_land_l; auto with bh; lia. Qed.

Lemma clear_bits_loop t a z :
  table_ok t -> 0 <= a -> a <= z + 1 -> z < 32 ->
  table_ok (foldl (clear_in_word k) t (range a z)) /\
  (forall m, tbit (foldl (clear_in_word k) t (range a z)) m
             = minus (tbit t) (32 * k + a) (32 * k + z) m).
Proof.
  intros Ht Ha Haz Hz.
  assert ((fun i t' => table_ok t' /\ forall m, tbit t' m = minus (tbit t) (32 * k + a) (32 * k + i - 1) m)
            (z + 1) (foldl (clear_in_word k) t (range a z))) as [H1 H2].
  { apply foldl_range; [lia| |].
    - split; [done|]. intros m. unfold minus, within. destruct (tbit t m); cmp_solve.
    - intros i t' Hi [Ht' Hm]. split; [by apply clear_in_word_ok|].
      intros m. rewrite clear_in_word_tbit by (done || lia). rewrite Hm.
      unfold minus, within. destruct (tbit t m); cmp_solve. }
  split; [done|]. intros m. rewrite H2. f_equal. lia.
Qed.
End WordLoops.

Lemma zero_word_tbit t k m :
  table_ok t -> 0 <= k < bitBlockWords ->
  tbit (t.[k <- 0]) m = minus (tbit t) (32 * k) (32 * k + 31) m.
Proof.
  intros Ht Hk. rewrite tbit_upd by done. rewrite Z.testbit_0_l.
  pose proof (pos_split m). pose proof (mod32_bound m).
  unfold minus, within. destruct (Z.eqb_spec (m / 32) k).
  - destruct (tbit t m); cmp_solve.
  - destruct (tbit t m); cmp_solve.
Qed.

Lemma zero_words_loop t a z :
  table_ok t -> 0 <= a -> a <= z + 1 -> z < bitBlockWords ->
  table_ok (foldl (fun t i => t.[i <- 0]) t (range a z)) /\
  (forall m, tbit (foldl (fun t i => t.[i <- 0]) t (range a z)) m
             = minus (tbit t) (32 * a) (32 * z + 31) m).
Proof.
  intros Ht Ha Haz Hz.
  assert ((fun i t' => table_ok t' /\ forall m, tbit t' m = minus (tbit t) (32 * a) (32 * i - 1) m)
            (z + 1) (foldl (fun t i => t.[i <- 0]) t (range a z))) as [H1 H2].
  { apply foldl_range; [lia| |].
    - split; [done|]. intros m. unfold minus, within. destruct (tbit t m); cmp_solve.
    - intros i t' Hi [Ht' Hm]. split; [by apply table_ok_upd; auto with bh|].
      intros m. rewrite zero_word_tbit by (done || lia). unfold minus. rewrite Hm.
      unfold minus, within. destruct (tbit t m); cmp_solve. }
  split; [done|]. intros m. rewrite H2. f_equal. lia.
Qed.

(** A block rebuilt from a table: its denotation and counter. *)
Lemma denotes_build t N c f :
  table_ok t -> 0 < N <= 65536 -> eq_upto N (tbit t) f -> c = cnt f 0 N ->
  denotes (mkBlock t N c ((N + 31) / 32)) N f.
Proof.
  intros Ht HN Hf Hc. assert (eq_upto N (Get (mkBlock t N c ((N + 31) / 32))) f) as Hg.
  { intros m Hm. rewrite Get_tbit. by apply Hf. }
  split; [|split; [done|exact Hg]]. split; simpl; [done|done|done|].
  rewrite Hc. symmetry. by apply cnt_ext.
Qed.

Lemma denotes_tbit b N f : denotes b N f -> eq_upto N (tbit (block_table b)) f.
Proof. intros (_ & _ & H) m Hm. rewrite <- Get_tbit. by apply H. Qed.

Lemma denotes_size b N f : denotes b N f -> block_size b = (N + 31) / 32.
Proof. intros (Hw & <- & _). apply Hw. Qed.

Lemma cnt_within a z N : 0 <= a -> a <= z + 1 -> z < N -> cnt (within a z) 0 N = z - a + 1.
Proof.
  intros. rewrite (cnt_split _ 0 a N), (cnt_split _ a (z + 1) N) by lia.
  rewrite (proj2 (cnt_zero _ 0 a)), (proj2 (cnt_zero _ (z + 1) N)).
  - rewrite (proj2 (cnt_full _ a (z + 1) ltac:(lia))); [lia|].
    intros i Hi. unfold within. cmp_solve.
  - intros i Hi. unfold within. cmp_solve.
  - intros i Hi. unfold within. cmp_solve.
Qed.

Lemma cnt_minus_full f N a z :
  cnt f 0 N = N -> 0 <= a -> a <= z + 1 -> z < N -> cnt (minus f a z) 0 N = N - (z - a + 1).
Proof.
  intros Hf ? ? ?. rewrite <- (cnt_within a z N) by lia.
  rewrite (cnt_ext _ (fun i => negb (within a z i)) 0 N).
  - rewrite cnt_negb by lia. lia.
  - intros i Hi. unfold minus.
    rewrite (proj1 (cnt_full f 0 N ltac:(lia)) ltac:(lia) i Hi). done.
Qed.

(** The position arithmetic of an interval [n1 .. n2]. *)
Ltac split_pos n :=
  let H1 := fresh "Hsp" in let H2 := fresh "Hmb" in
  pose proof (pos_split n) as H1; pose proof (mod32_bound n) as H2.

Lemma Reset_full_table t n1 n2 :
  table_ok t -> 0 <= n1 <= n2 -> n2 < 65536 ->
  let t' :=
    if n1 / 32 =? n2 / 32 then foldl (clear_in_word (n1 / 32)) t (range (n1 mod 32) (n2 mod 32))
    else
      foldl (clear_in_word (n2 / 32))
        (foldl (fun t i => t.[i <- 0])
           (foldl (clear_in_word (n1 / 32)) t (range (n1 mod 32) 31)) (range (n1 / 32 + 1) (n2 / 32 - 1)))
        (range 0 (n2 mod 32)) in
  table_ok t' /\ (forall m, tbit t' m = minus (tbit t) n1 n2 m).
Proof.
  intros Ht Hn Hn2 t'. subst t'. split_pos n1. split_pos n2.
  pose proof (pos_word_bound n1 ltac:(lia)). pose proof (pos_word_bound n2 ltac:(lia)).
  destruct (Z.eqb_spec (n1 / 32) (n2 / 32)) as [E|E].
  - destruct (clear_bits_loop (n1 / 32) ltac:(lia) t (n1 mod 32) (n2 mod 32)) as [Hok Hm]; [done|lia..|].
    split; [done|]. intros m. rewrite Hm. f_equal; lia.
  - assert (n1 / 32 < n2 / 32) by lia.
    destruct (clear_bits_loop (n1 / 32) ltac:(lia) t (n1 mod 32) 31) as [Hok1 Hm1]; [done|lia..|].
    destruct (zero_words_loop _ (n1 / 32 + 1) (n2 / 32 - 1) Hok1) as [Hok2 Hm2]; [lia..|].
    destruct (clear_bits_loop (n2 / 32) ltac:(lia) _ 0 (n2 mod 32) Hok2) as [Hok3 Hm3]; [lia..|].
    split; [done|]. intros m. rewrite Hm3. unfold minus at 1. rewrite Hm2. unfold minus at 1.
    rewrite Hm1. unfold minus, within. destruct (tbit t m); cmp_solve.
Qed.

(** What the stopping loops leave: the right count and, unless nothing is left, the right bits. *)
Definition left_with (b : Block) (N : Z) (f : Z -> bool) : Prop :=
  no_obj b = N /\ no_set_bits b = cnt f 0 N /\ (no_set_bits b <> 0 -> denotes b N f).

Lemma denotes_left b N f : denotes b N f -> left_with b N f.
Proof. intros H. split; [apply H|]. split; [by apply denotes_count|done]. Qed.

Lemma left_ext b N f g : left_with b N f -> eq_upto N f g -> left_with b N g.
Proof.
  intros (Ho & Hc & Hd) E. split; [done|]. split; [rewrite Hc; by apply cnt_ext|].
  intros Hz. rewrite <- E. by apply Hd.
Qed.

Lemma Reset_bits_loop_spec k z : 0 <= k < bitBlockWords -> z < 32 -> forall a b N g,
  denotes b N g -> 0 <= a -> 32 * k + z < N ->
  left_with (Reset_bits_loop k (range a z) b) N (minus g (32 * k + a) (32 * k + z)).
Proof.
  intros Hk Hz. refine (range_ind (fun l a => forall b N g, denotes b N g -> 0 <= a -> 32 * k + z < N ->
    left_with (Reset_bits_loop k l b) N (minus g (32 * k + a) (32 * k + z))) z _ _).
  - intros a Ha b N g Hd _ _. simpl. apply (left_ext _ _ g); [by apply denotes_left|].
    apply minus_nil. lia.
  - intros a Ha IH b N g Hd Ha0 HN. cbn [Reset_bits_loop].
    pose proof (denotes_bound _ _ _ Hd) as HbN. destruct (word_pos k a ltac:(lia)) as [E1 E2].
    assert ((Z.land (block_table b).[0|k] lshift1.[0|a] =? 0) = negb (g (32 * k + a))) as ->.
    { rewrite land_lshift1 by lia. rewrite <- (denotes_tbit _ _ _ Hd) by lia.
      unfold tbit. by rewrite E1, E2. }
    pose proof (denotes_Reset_n b N g (32 * k + a) Hd ltac:(lia)) as Hr.
    assert (eq_upto N (minus (fun m => negb (m =? 32 * k + a) && g m) (32 * k + (a + 1)) (32 * k + z))
                      (minus g (32 * k + a) (32 * k + z))) as Hmm.
    { intros m Hm. unfold minus, within. destruct (g m); cmp_solve. }
    assert (fst (Reset_n b (32 * k + a)) =
            if g (32 * k + a)
            then mkBlock (clear_in_word k (block_table b) a) (no_obj b) (no_set_bits b - 1) (block_size b)
            else b) as Hstep.
    { rewrite Reset_n_eq. simpl. rewrite (proj2 (proj2 Hd)) by lia. by rewrite E1, E2. }
    rewrite Hstep in Hr. destruct (g (32 * k + a)) eqn:Eg; cbn [negb].
    + destruct (Z.eqb_spec (no_set_bits b - 1) 0) as [Hz0|Hnz].
      * pose proof (denotes_count _ _ _ Hr) as Hc0. simpl in Hc0. rewrite Hz0 in Hc0.
        assert (cnt (minus g (32 * k + a) (32 * k + z)) 0 N = 0) as Hc.
        { apply cnt_zero. intros m Hm. symmetry in Hc0. rewrite cnt_zero in Hc0.
          specialize (Hc0 m Hm). revert Hc0. unfold minus, within. destruct (g m); cmp_solve. }
        split; [apply Hd|]. split; simpl; [lia|lia].
      * apply (left_ext _ _ _ _ (IH _ _ _ Hr ltac:(lia) HN) Hmm).
    + apply (left_ext _ _ _ _ (IH _ _ _ Hr ltac:(lia) HN) Hmm).
Qed.

Lemma popcount_word t k :
  0 <= k < bitBlockWords -> CalculateBinSum (t.[0|k]) = cnt (tbit t) (32 * k) (32 * k + 32).
Proof.
  intros Hk. rewrite CalculateBinSum_spec.
  replace (32 * k) with (0 + 32 * k) by lia. replace (0 + 32 * k + 32) with (32 + 32 * k) by lia.
  rewrite <- cnt_shift. apply cnt_ext. intros i Hi. unfold tbit.
  destruct (word_pos k i Hi) as [E1 E2]. rewrite (Z.add_comm i). by rewrite E1, E2.
Qed.

Lemma cnt_minus_word f N a z :
  0 <= a -> a <= z + 1 -> z < N -> cnt (minus f a z) 0 N = cnt f 0 N - cnt f a (z + 1).
Proof.
  intros. rewrite (cnt_split f 0 a N), (cnt_split f a (z + 1) N) by lia.
  rewrite (cnt_split (minus f a z) 0 a N), (cnt_split _ a (z + 1) N) by lia.
  rewrite (proj2 (cnt_zero (minus f a z) a (z + 1))).
  - rewrite (cnt_ext (minus f a z) f 0 a), (cnt_ext (minus f a z) f (z + 1) N); [lia| |].
    all: intros i Hi; unfold minus, within; destruct (f i); cmp_solve.
  - intros i Hi. unfold minus, within. destruct (f i); cmp_solve.
Qed.

Lemma denotes_zero_word b N g k :
  denotes b N g -> 0 <= k -> 32 * k + 31 < N ->
  denotes (mkBlock ((block_table b).[k <- 0]) (no_obj b)
             (no_set_bits b - CalculateBinSum (block_table b).[0|k]) (block_size b))
          N (minus g (32 * k) (32 * k + 31)).
Proof.
  intros Hd Hk HN. pose proof (denotes_bound _ _ _ Hd).
  assert (0 <= k < bitBlockWords) by (unfold bitBlockWords; lia).
  rewrite (proj1 (proj2 Hd)), (denotes_size _ _ _ Hd). pose proof (wf_table _ (proj1 Hd)) as Ht.
  apply denotes_build; [apply table_ok_upd; auto with bh|lia| |].
  - intros m Hm. rewrite zero_word_tbit by done. unfold minus. by rewrite (denotes_tbit _ _ _ Hd).
  - rewrite cnt_minus_word by lia. rewrite popcount_word by done.
    rewrite (denotes_count _ _ _ Hd). replace (32 * k + 31 + 1) with (32 * k + 32) by lia.
    f_equal. apply cnt_ext. intros i Hi. apply (denotes_tbit _ _ _ Hd). lia.
Qed.

Lemma Reset_words_loop_spec z : forall a b N g,
  denotes b N g -> 0 <= a -> 32 * z + 31 < N ->
  denotes (Reset_words_loop (range a z) b) N (minus g (32 * a) (32 * z + 31)).
Proof.
  refine (range_ind (fun l a => forall b N g, denotes b N g -> 0 <= a -> 32 * z + 31 < N ->
    denotes (Reset_words_loop l b) N (minus g (32 * a) (32 * z + 31))) z _ _).
  - intros a Ha b N g Hd _ _. simpl. rewrite <- (minus_nil N g); [done|lia].
  - intros a Ha IH b N g Hd Ha0 HN. cbn [Reset_words_loop].
    pose proof (denotes_zero_word b N g a Hd Ha0 ltac:(lia)) as Hz.
    assert (eq_upto N (minus (minus g (32 * a) (32 * a + 31)) (32 * (a + 1)) (32 * z + 31))
                      (minus g (32 * a) (32 * z + 31))) as Hmm.
    { intros m Hm. unfold minus, within. destruct (g m); cmp_solve. }
    destruct (Z.eqb_spec (no_set_bits b - CalculateBinSum (block_table b).[0|a]) 0) as [E|E].
    + refine (denotes_ext _ _ _ _ Hz _). pose proof (denotes_count _ _ _ Hz) as Hc. simpl in Hc.
      rewrite E in Hc. symmetry in Hc. pose proof (minus_zero _ _ _ _ (32 * z + 31) Hc ltac:(lia)) as Hc'.
      rewrite cnt_zero in Hc, Hc'. intros m Hm. by rewrite Hc, Hc'.
    + rewrite <- Hmm. apply IH; [exact Hz|lia|lia].
Qed.

Lemma Reset_n_loop b N f n1 n2 :
  denotes b N f -> 0 <= n1 -> n1 <= n2 + 1 -> n2 < N ->
  denotes (foldl (fun b i => fst (Reset_n b i)) b (range n1 n2)) N (minus f n1 n2).
Proof.
  intros Hd ? ? ?.
  assert ((fun i b' => denotes b' N (minus f n1 (i - 1))) (n2 + 1)
            (foldl (fun b i => fst (Reset_n b i)) b (range n1 n2))) as H'.
  { apply foldl_range; [lia| |].
    - rewrite <- minus_nil; [done|lia].
    - intros i b' Hi Hb'. refine (denotes_ext _ _ _ _ (denotes_Reset_n _ _ _ i Hb' ltac:(lia)) _).
      intros m Hm. unfold minus, within. destruct (f m); cmp_solve. }
  by replace n2 with (n2 + 1 - 1) at 2 by lia.
Qed.

Lemma Reset_between_left b N f n1 n2 :
  denotes b N f -> 0 <= n1 <= n2 -> n2 < N ->
  left_with (fst (Reset_between b n1 n2)) N (minus f n1 n2).
Proof.
  intros Hd Hn HnN. unfold Reset_between. rewrite !land_31. cbn [fst].
  pose proof (denotes_bound _ _ _ Hd) as HN. split_pos n1. split_pos n2.
  pose proof (pos_word_bound n1 ltac:(lia)). pose proof (pos_word_bound n2 ltac:(lia)).
  rewrite (denotes_full _ _ _ Hd). destruct (Z.eqb_spec (cnt f 0 N) N) as [Hfull|_].
  - apply denotes_left. destruct (Reset_full_table (block_table b) n1 n2) as [Hok Hm]; [apply Hd|lia..|].
    rewrite (proj1 (proj2 Hd)), (denotes_size _ _ _ Hd).
    apply denotes_build; [done|lia| |].
    + intros m Hm0. rewrite Hm. unfold minus. by rewrite (denotes_tbit _ _ _ Hd).
    + rewrite cnt_minus_full by (done || lia). lia.
  - destruct (Z.eqb_spec (n1 / 32) (n2 / 32)) as [E|E].
    + apply denotes_left. apply Reset_n_loop; [done|lia..].
    + assert (n1 / 32 < n2 / 32) by lia.
      pose proof (Reset_bits_loop_spec (n1 / 32) 31 ltac:(lia) ltac:(lia) (n1 mod 32) b N f Hd ltac:(lia) ltac:(lia)) as H1'.
      replace (32 * (n1 / 32) + n1 mod 32) with n1 in H1' by lia.
      set (b1 := Reset_bits_loop (n1 / 32) (range (n1 mod 32) 31) b) in *.
      destruct H1' as (Ho1 & Hc1 & Hd1). pose proof (cnt_bounds (minus f n1 (32 * (n1 / 32) + 31)) 0 N).
      destruct (Z.ltb_spec 0 (no_set_bits b1)) as [Hp1|Hp1].
      2:{ destruct (Z.ltb_spec 0 (no_set_bits b1)); [lia|]. split; [done|].
          assert (cnt (minus f n1 n2) 0 N = 0) by (apply (minus_zero N f n1 (32 * (n1 / 32) + 31)); lia).
          split; lia. }
      pose proof (Reset_words_loop_spec (n2 / 32 - 1) (n1 / 32 + 1) b1 N _ (Hd1 ltac:(lia)) ltac:(lia) ltac:(lia)) as Hd2.
      set (b2 := Reset_words_loop (range (n1 / 32 + 1) (n2 / 32 - 1)) b1) in *.
      assert (denotes b2 N (minus f n1 (32 * (n2 / 32) - 1))) as Hd2'.
      { refine (denotes_ext _ _ _ _ Hd2 _). intros m Hm. unfold minus, within. destruct (f m); cmp_solve. }
      pose proof (denotes_count _ _ _ Hd2') as Hc2. pose proof (cnt_bounds (minus f n1 (32 * (n2 / 32) - 1)) 0 N).
      destruct (Z.ltb_spec 0 (no_set_bits b2)) as [Hp2|Hp2].
      2:{ assert (cnt (minus f n1 n2) 0 N = 0) by (apply (minus_zero N f n1 (32 * (n2 / 32) - 1)); lia).
          split; [apply Hd2'|]. split; lia. }
      refine (left_ext _ _ _ _ (Reset_bits_loop_spec (n2 / 32) (n2 mod 32) ltac:(lia) ltac:(lia) 0 b2 N _ Hd2' ltac:(lia) ltac:(lia)) _).
      intros m Hm. unfold minus, within. destruct (f m); cmp_solve.
Qed.

Lemma Reset_between_flag b N f n1 n2 :
  denotes b N f -> 0 <= n1 <= n2 -> n2 < N ->
  snd (Reset_between b n1 n2) = (cnt (minus f n1 n2) 0 N =? 0).
Proof.
  intros Hd ? ?. pose proof (Reset_between_left b N f n1 n2 Hd ltac:(lia) ltac:(lia)) as (_ & Hc & _).
  by rewrite <- Hc.
Qed.

Lemma denotes_Reset_between b N f n1 n2 :
  denotes b N f -> 0 <= n1 <= n2 -> n2 < N -> cnt (minus f n1 n2) 0 N <> 0 ->
  denotes (fst (Reset_between b n1 n2)) N (minus f n1 n2).
Proof.
  intros Hd ? ? Hnz. pose proof (Reset_between_left b N f n1 n2 Hd ltac:(lia) ltac:(lia)) as (_ & Hc & Hd').
  apply Hd'. by rewrite Hc.
Qed.

(** ** Queries over an interval *)

(** [all p a z]: every position from [a] to [z] satisfies [p]. *)
Definition all (p : Z -> bool) (a z : Z) : bool := forallb p (range a z).

Lemma all_spec p a z : all p a z = true <-> (forall i, a <= i <= z -> p i = true).
Proof. unfold all. rewrite forallb_forall. split; intros H i Hi; apply H; by apply range_In. Qed.

Lemma all_ext p q a z : (forall i, a <= i <= z -> p i = q i) -> all p a z = all q a z.
Proof.
  intros H. apply eq_true_iff_eq. rewrite !all_spec.
  split; intros Hp i Hi; [rewrite <- H|rewrite H]; auto.
Qed.

Lemma all_split p a m z : a <= m + 1 -> m <= z -> all p a z = all p a m && all p (m + 1) z.
Proof. intros. unfold all. rewrite (range_app a m z) by lia. apply forallb_app. Qed.

Lemma all_nil p a z : z < a -> all p a z = true.
Proof. intros. unfold all. by rewrite range_nil. Qed.

Lemma all_shift p c a z : all (fun i => p (c + i)) a z = all p (c + a) (c + z).
Proof.
  apply eq_true_iff_eq. rewrite !all_spec. split; intros H i Hi.
  - replace i with (c + (i - c)) by lia. apply H. lia.
  - apply H. lia.
Qed.

Section Queries.
Context (t : list Z) (Ht : table_ok t).

Lemma word_bits_clear_all k a z :
  0 <= k < bitBlockWords -> 0 <= a -> z < 32 ->
  word_bits_clear t k a z = all (fun m => negb (tbit t m)) (32 * k + a) (32 * k + z).
Proof.
  intros Hk Ha Hz. rewrite <- all_shift. apply all_ext. intros i Hi.
  rewrite land_lshift1 by lia. unfold tbit. destruct (word_pos k i ltac:(lia)) as [-> ->]. done.
Qed.

Lemma word_bits_set_all k a z :
  0 <= k < bitBlockWords -> 0 <= a -> z < 32 ->
  word_bits_set t k a z = all (tbit t) (32 * k + a) (32 * k + z).
Proof.
  intros Hk Ha Hz. rewrite <- all_shift. apply all_ext. intros i Hi.
  rewrite land_lshift1 by lia. rewrite negb_involutive.
  unfold tbit. destruct (word_pos k i ltac:(lia)) as [-> ->]. done.
Qed.

Lemma word_bits_sum_cnt k a z :
  0 <= k < bitBlockWords -> 0 <= a -> a <= z + 1 -> z < 32 ->
  word_bits_sum t k a z = cnt (tbit t) (32 * k + a) (32 * k + z + 1).
Proof.
  intros Hk Ha Haz Hz. unfold word_bits_sum.
  assert ((fun i r => r = cnt (tbit t) (32 * k + a) (32 * k + i)) (z + 1)
    (foldl (fun r i => r + (if negb (Z.land t.[0|k] lshift1.[0|i] =? 0) then 1 else 0)) 0 (range a z))) as H.
  { apply foldl_range; [lia| |].
    - by rewrite cnt_empty by lia.
    - intros i r Hi ->. rewrite land_lshift1, negb_involutive by lia.
      replace (32 * k + (i + 1)) with (32 * k + i + 1) by lia. rewrite cnt_last by lia. f_equal.
      unfold tbit. destruct (word_pos k i ltac:(lia)) as [-> ->]. done. }
  rewrite H. f_equal. lia.
Qed.

Lemma word_zero_all k :
  0 <= k < bitBlockWords -> (t.[0|k] =? 0) = all (fun m => negb (tbit t m)) (32 * k) (32 * k + 31).
Proof.
  intros Hk. pose proof (table_word t k Ht Hk) as Hw. apply eq_true_iff_eq. rewrite all_spec. split.
  - intros E i Hi. bool_to_prop. destruct (word_pos k (i - 32 * k) ltac:(lia)) as [E1 _].
    replace (32 * k + (i - 32 * k)) with i in E1 by lia.
    unfold tbit. by rewrite E1, E, Z.testbit_0_l.
  - intros H. apply Z.eqb_eq, (word_ext 32); auto with bh; [lia|]. intros i Hi.
    specialize (H (32 * k + i) ltac:(lia)). apply negb_true_iff in H. unfold tbit in H.
    destruct (word_pos k i ltac:(lia)) as [E1 E2]. rewrite E1, E2 in H. by rewrite H, Z.testbit_0_l.
Qed.

Lemma word_ones_all k :
  0 <= k < bitBlockWords -> (t.[0|k] =? 0xFFFFFFFF) = all (tbit t) (32 * k) (32 * k + 31).
Proof.
  intros Hk. pose proof (table_word t k Ht Hk) as Hw. apply eq_true_iff_eq. rewrite all_spec. split.
  - intros E i Hi. bool_to_prop. destruct (word_pos k (i - 32 * k) ltac:(lia)) as [E1 _].
    replace (32 * k + (i - 32 * k)) with i in E1 by lia.
    unfold tbit. rewrite E1, E. apply ones32_testbit. apply mod32_bound.
  - intros H. apply Z.eqb_eq, (word_ext 32); auto with bh; [lia|]. intros i Hi.
    specialize (H (32 * k + i) ltac:(lia)). unfold tbit in H.
    destruct (word_pos k i ltac:(lia)) as [E1 E2]. rewrite E1, E2 in H. by rewrite H, ones32_testbit.
Qed.

(** A word test lifted to an interval of words. *)
Lemma words_all (q : Z -> bool) (p : Z -> bool) a z :
  (forall k, a <= k <= z -> q k = all p (32 * k) (32 * k + 31)) ->
  forallb q (range a z) = all p (32 * a) (32 * z + 31).
Proof.
  intros Hq. apply eq_true_iff_eq. rewrite all_spec. unfold forallb. fold (forallb q).
  change (forallb q (range a z)) with (all q a z). rewrite all_spec. split.
  - intros H i Hi. pose proof (pos_split i). pose proof (mod32_bound i).
    specialize (H (i / 32) ltac:(lia)). rewrite Hq, all_spec in H by lia. apply H. lia.
  - intros H k Hk. rewrite Hq by done. apply all_spec. intros i Hi. apply H. lia.
Qed.

Lemma words_sum a z :
  0 <= a -> a <= z + 1 -> z < bitBlockWords ->
  foldl (fun r i => r + CalculateBinSum t.[0|i]) 0 (range a z) = cnt (tbit t) (32 * a) (32 * z + 32).
Proof.
  intros. assert ((fun i r => r = cnt (tbit t) (32 * a) (32 * i)) (z + 1)
    (foldl (fun r i => r + CalculateBinSum t.[0|i]) 0 (range a z))) as Hf.
  { apply foldl_range; [lia| |].
    - by rewrite cnt_empty by lia.
    - intros i r Hi ->. rewrite popcount_word by lia.
      replace (32 * (i + 1)) with (32 * i + 32) by lia.
      rewrite (cnt_split (tbit t) (32 * a) (32 * i) (32 * i + 32)) by lia. done. }
  rewrite Hf. f_equal. lia.
Qed.
End Queries.

(** An interval that spans several words, cut the way the queries cut it: whole words, then
    what is left of the first and of the last word. *)
Section Spanning.
Context (n1 n2 : Z) (Hlt : n1 / 32 < n2 / 32).
Let i_start := if n1 mod 32 =? 0 then n1 / 32 else n1 / 32 + 1.
Let i_stop := if n2 mod 32 =? 31 then n2 / 32 else n2 / 32 - 1.

Lemma all_words_split p :
  all p n1 n2 =
  all p (32 * i_start) (32 * i_stop + 31)
  && (if n1 / 32 =? i_start then true else all p n1 (32 * (n1 / 32) + 31))
  && (if n2 / 32 =? i_stop then true else all p (32 * (n2 / 32)) n2).
Proof.
  split_pos n1. split_pos n2. apply eq_true_iff_eq. rewrite !andb_true_iff, all_spec. split.
  - intros H. split; [split|]; subst i_start i_stop; case_cmp; try done;
      apply all_spec; intros i Hi; apply H; lia.
  - intros [[H1 H2] H3] i Hi. rewrite all_spec in H1. subst i_start i_stop.
    destruct (Z.lt_ge_cases i (32 * (n1 / 32) + 32)), (Z.lt_ge_cases i (32 * (n2 / 32)));
      revert H1 H2 H3; case_cmp; intros H1 H2 H3; try lia; try (apply H1; lia);
      try (rewrite all_spec in H2; apply H2; lia); rewrite all_spec in H3; apply H3; lia.
Qed.

Lemma cnt_words_split p :
  cnt p n1 (n2 + 1) =
  cnt p (32 * i_start) (32 * i_stop + 32)
  + (if n1 / 32 =? i_start then 0 else cnt p n1 (32 * (n1 / 32) + 31 + 1))
  + (if n2 / 32 =? i_stop then 0 else cnt p (32 * (n2 / 32)) (n2 + 1)).
Proof.
  split_pos n1. split_pos n2. rewrite (cnt_split p n1 (32 * i_start) (n2 + 1)) by (subst i_start; case_cmp; lia).
  rewrite (cnt_split p (32 * i_start) (32 * i_stop + 32) (n2 + 1)) by (subst i_start i_stop; case_cmp; lia).
  assert (cnt p n1 (32 * i_start) = if n1 / 32 =? i_start then 0 else cnt p n1 (32 * (n1 / 32) + 31 + 1)) as ->.
  { subst i_start. destruct (Z.eqb_spec (n1 mod 32) 0).
    - rewrite Z.eqb_refl. apply cnt_empty. lia.
    - destruct (Z.eqb_spec (n1 / 32) (n1 / 32 + 1)); [lia|]. f_equal. lia. }
  assert (cnt p (32 * i_stop + 32) (n2 + 1) = if n2 / 32 =? i_stop then 0 else cnt p (32 * (n2 / 32)) (n2 + 1)) as ->.
  { subst i_stop. destruct (Z.eqb_spec (n2 mod 32) 31).
    - rewrite Z.eqb_refl. apply cnt_empty. lia.
    - destruct (Z.eqb_spec (n2 / 32) (n2 / 32 - 1)); [lia|]. f_equal. lia. }
  lia.
Qed.
End Spanning.

Section IntervalQueries.
Context (b : Block) (N : Z) (f : Z -> bool) (n1 n2 : Z).
Context (Hd : denotes b N f) (Hn : 0 <= n1 <= n2) (HN : n2 < N).

Let Ht : table_ok (block_table b) := wf_table _ (proj1 Hd).

Lemma interval_words :
  0 <= n1 / 32 < bitBlockWords /\ 0 <= n2 / 32 < bitBlockWords /\ n1 / 32 <= n2 / 32.
Proof.
  pose proof (denotes_bound _ _ _ Hd). split; [apply pos_word_bound; lia|].
  split; [apply pos_word_bound; lia|]. apply Z.div_le_mono; lia.
Qed.

Lemma all_tbit a z : 0 <= a -> z < N -> all (tbit (block_table b)) a z = all f a z.
Proof. intros. apply all_ext. intros i Hi. apply (denotes_tbit _ _ _ Hd). lia. Qed.

Lemma all_not_tbit a z :
  0 <= a -> z < N -> all (fun m => negb (tbit (block_table b) m)) a z = all (fun m => negb (f m)) a z.
Proof. intros. apply all_ext. intros i Hi. f_equal. apply (denotes_tbit _ _ _ Hd). lia. Qed.

Lemma IsEmptyBetween_spec : IsEmptyBetween b n1 n2 = all (fun m => negb (f m)) n1 n2.
Proof.
  destruct interval_words as (Hw1 & Hw2 & Hw). split_pos n1. split_pos n2.
  rewrite <- all_not_tbit by lia. unfold IsEmptyBetween. rewrite !land_31.
  set (p := fun m => negb (tbit (block_table b) m)).
  destruct (Z.eqb_spec (n1 / 32) (n2 / 32)) as [E|E].
  - rewrite word_zero_all, word_bits_clear_all by (done || lia). fold p.
    rewrite E in *. replace (32 * (n2 / 32) + n1 mod 32) with n1 by lia.
    replace (32 * (n2 / 32) + n2 mod 32) with n2 by lia.
    destruct (all p (32 * (n2 / 32)) (32 * (n2 / 32) + 31)) eqn:Ea; [|done].
    symmetry. rewrite all_spec in *. intros i Hi. apply Ea. lia.
  - rewrite (all_words_split n1 n2 ltac:(lia) p).
    rewrite (words_all _ p) by (intros k Hk; apply word_zero_all; [done|revert Hk; case_cmp; lia]).
    rewrite !word_bits_clear_all by (done || lia). fold p.
    rewrite Z.add_0_r, <- Hsp, <- Hsp0.
    repeat match goal with |- context [if ?x =? ?y then _ else _] => destruct (x =? y) end;
      repeat match goal with |- context [?x =? ?y] => destruct (x =? y) end;
      repeat match goal with |- context [all p ?x ?y] => destruct (all p x y) end; done.
Qed.

(** The head of an interval that starts inside a word and ends in a later one is scanned
    from the offset of its end. *)
Lemma IsFullBetween_spec :
  IsFullBetween b n1 n2 =
  all f (if (n1 / 32 =? n2 / 32) || (n1 mod 32 =? 0) then n1 else 32 * (n1 / 32) + n2 mod 32) n2.
Proof.
  destruct interval_words as (Hw1 & Hw2 & Hw). split_pos n1. split_pos n2.
  rewrite <- all_tbit by (case_cmp; simpl; lia). unfold IsFullBetween. rewrite !land_31.
  set (p := tbit (block_table b)).
  destruct (Z.eqb_spec (n1 / 32) (n2 / 32)) as [E|E]; cbn [orb].
  - rewrite word_ones_all, word_bits_set_all by (done || lia). fold p.
    rewrite <- Hsp. rewrite E at 3. rewrite <- Hsp0.
    destruct (all p (32 * (n1 / 32)) (32 * (n1 / 32) + 31)) eqn:Ea; [|done].
    symmetry. rewrite all_spec in *. intros i Hi. apply Ea. lia.
  - rewrite (words_all _ p) by (intros k Hk; apply word_ones_all; [done|revert Hk; case_cmp; lia]).
    rewrite !word_bits_set_all by (done || lia). fold p.
    rewrite Z.add_0_r, <- Hsp0. destruct (Z.eqb_spec (n1 mod 32) 0) as [Ez|Ez].
    + rewrite (all_words_split n1 n2 ltac:(lia) p), Z.eqb_refl.
      destruct (Z.eqb_spec (n1 mod 32) 0); [|lia].
      rewrite Z.eqb_refl. cbn [negb andb].
      set (i_stop := if n2 mod 32 =? 31 then _ else _).
      by destruct (n2 / 32 =? i_stop), (all p _ _), (all p _ _).
    + destruct (Z.eqb_spec (n1 / 32) (n1 / 32 + 1)); [lia|]. cbn [negb andb].
      rewrite (all_split p (32 * (n1 / 32) + n2 mod 32) (32 * (n1 / 32) + 31) n2) by lia.
      replace (32 * (n1 / 32) + 31 + 1) with (32 * (n1 / 32 + 1)) by lia.
      destruct (Z.eqb_spec (n2 mod 32) 31).
      * rewrite Z.eqb_refl. cbn [negb andb]. replace (32 * (n2 / 32) + 31) with n2 by lia.
        by destruct (all p _ n2), (all p _ _).
      * destruct (Z.eqb_spec (n2 / 32) (n2 / 32 - 1)); [lia|]. cbn [negb andb].
        rewrite (all_split p (32 * (n1 / 32 + 1)) (32 * (n2 / 32 - 1) + 31) n2) by lia.
        replace (32 * (n2 / 32 - 1) + 31 + 1) with (32 * (n2 / 32)) by lia.
        by destruct (all p _ n2), (all p _ (32 * (n2 / 32 - 1) + 31)), (all p _ _).
Qed.

Lemma NoOnesBetween_spec : NoOnesBetween b n1 n2 = cnt f n1 (n2 + 1).
Proof.
  destruct interval_words as (Hw1 & Hw2 & Hw). split_pos n1. split_pos n2.
  rewrite <- (cnt_ext (tbit (block_table b)) f n1 (n2 + 1)) by (intros i Hi; apply (denotes_tbit _ _ _ Hd); lia).
  unfold NoOnesBetween. rewrite !land_31. set (p := tbit (block_table b)).
  destruct (Z.eqb_spec (n1 / 32) (n2 / 32)) as [E|E].
  - rewrite word_zero_all, word_bits_sum_cnt by (done || lia). fold p.
    rewrite <- Hsp. rewrite E at 3. rewrite <- Hsp0. destruct (all _ _ _) eqn:Ea; [|done].
    symmetry. apply cnt_zero. rewrite all_spec in Ea. intros i Hi.
    apply negb_true_iff. apply Ea. lia.
  - rewrite (cnt_words_split n1 n2 ltac:(lia) p), words_sum by (case_cmp; lia).
    rewrite !word_bits_sum_cnt by (done || lia). fold p.
    rewrite Z.add_0_r, <- Hsp, <- Hsp0. done.
Qed.
End IntervalQueries.

(** ** Continuous blocks *)

Lemma BlockContinuous_spec b N f :
  denotes b N f ->
  BlockContinuous b =
    if all (fun m => Bool.eqb (f m) (m <? cnt f 0 N)) 0 (N - 1) then cnt f 0 N else -1.
Proof.
  intros Hd. pose proof (denotes_bound _ _ _ Hd) as HN. pose proof (wf_table _ (proj1 Hd)) as Ht.
  pose proof (denotes_count _ _ _ Hd) as Hc. pose proof (cnt_bounds f 0 N) as Hb.
  unfold BlockContinuous. rewrite Hc, (proj1 (proj2 Hd)). set (c := cnt f 0 N) in *.
  pose proof (Z.div_mod c 32 ltac:(lia)) as Ec. pose proof (Z.mod_pos_bound c 32 ltac:(lia)) as Mc.
  pose proof (Z.div_mod N 32 ltac:(lia)) as EN. pose proof (Z.mod_pos_bound N 32 ltac:(lia)) as MN.
  (* the two scans together test the first c bits *)
  assert (forallb (fun i => (block_table b).[0|i] =? 0xFFFFFFFF) (range 0 (c / 32 - 1))
          && forallb (Get b) (range (c / 32 * 32) (c - 1)) = all f 0 (c - 1)) as Hscan.
  { rewrite (words_all _ (tbit (block_table b)))
      by (intros k Hk; apply word_ones_all; [done|unfold bitBlockWords; lia]).
    rewrite (all_split f 0 (32 * (c / 32 - 1) + 31) (c - 1)) by lia.
    rewrite (all_tbit b N f Hd) by lia. f_equal.
    change (forallb (Get b)) with (fun l => forallb (Get b) l).
    replace (32 * (c / 32 - 1) + 31 + 1) with (c / 32 * 32) by lia.
    apply all_ext. intros i Hi. apply Hd. lia. }
  (* which, with the count, is the prefix property *)
  assert (all f 0 (c - 1) = all (fun m => Bool.eqb (f m) (m <? c)) 0 (N - 1)) as Hpre.
  { apply eq_true_iff_eq. rewrite !all_spec. split.
    - intros H m Hm. destruct (Z.ltb_spec m c).
      + rewrite H by lia. done.
      + assert (cnt f 0 c = c) as Hcc.
        { transitivity (c - 0); [|lia]. apply cnt_full; [lia|]. intros i Hi. apply H. lia. }
        pose proof (cnt_split f 0 c N ltac:(lia)) as Hs. fold c in Hs.
        rewrite (proj1 (cnt_zero f c N) ltac:(lia) m ltac:(lia)). done.
    - intros H m Hm. specialize (H m ltac:(lia)). apply eqb_prop in H. rewrite H. cmp_solve. }
  rewrite <- Hpre.
  destruct (Z.ltb_spec (c / 32 + 1) (N / 32 - 1)) as [Hl|Hl]; cbn [andb].
  - destruct (Z.eqb_spec ((block_table b).[0|N / 32 - 1]) 0) as [Ez|Ez]; cbn [negb].
    + rewrite <- Hscan. by destruct (forallb _ _), (forallb _ _).
    + destruct (all f 0 (c - 1)) eqn:Ea; [|done]. exfalso. apply Ez.
      apply Z.eqb_eq. rewrite word_zero_all by (done || unfold bitBlockWords; lia).
      rewrite (all_not_tbit b N f Hd) by lia. apply all_spec. intros i Hi.
      symmetry in Hpre. rewrite all_spec in Hpre. specialize (Hpre i ltac:(lia)).
      apply eqb_prop in Hpre. rewrite Hpre. cmp_solve.
  - rewrite <- Hscan. by destruct (forallb _ _), (forallb _ _).
Qed.

Lemma IsNumberOfOnesInHeaderProper_spec b N f :
  denotes b N f -> IsNumberOfOnesInHeaderProper b = (cnt f 0 N, true).
Proof.
  intros Hd. pose proof (denotes_bound _ _ _ Hd) as HN. unfold IsNumberOfOnesInHeaderProper.
  rewrite (proj1 (proj2 Hd)), (denotes_count _ _ _ Hd).
  assert ((fun i r => r = cnt f 0 i) (N - 1 + 1)
            (foldl (fun r i => if Get b i then r + 1 else r) 0 (range 0 (N - 1)))) as H.
  { apply foldl_range; [lia|done|]. intros i r Hi ->. rewrite cnt_last by lia.
    rewrite (proj2 (proj2 Hd)) by lia. unfold bit1. destruct (f i); lia. }
  rewrite H. replace (N - 1 + 1) with N by lia. by rewrite Z.eqb_refl.
Qed.

(** ** Equality *)

Lemma mask_ones r : 0 <= r < 32 -> Z.shiftr 0xffffffff (32 - (r + 1)) = Z.ones (r + 1).
Proof.
  intros Hr. change 0xffffffff with (Z.ones 32). apply Z.bits_inj'. intros i Hi.
  rewrite Z.shiftr_spec by lia. destruct (Z.lt_ge_cases i (r + 1)).
  - rewrite !Z.ones_spec_low by lia. done.
  - rewrite !Z.ones_spec_high by lia. done.
Qed.

Lemma IsEqual_spec b b2 N f g :
  denotes b N f -> denotes b2 N g -> (IsEqual b b2 = true <-> eq_upto N f g).
Proof.
  intros Hd Hd2. pose proof (denotes_bound _ _ _ Hd) as HN.
  pose proof (wf_table _ (proj1 Hd)) as Ht. pose proof (wf_table _ (proj1 Hd2)) as Ht2.
  unfold IsEqual. rewrite (proj1 (proj2 Hd)). split_pos (N - 1).
  rewrite mask_ones by lia. set (mn := (N - 1) / 32) in *. set (r := (N - 1) mod 32) in *.
  assert (0 <= mn < bitBlockWords) by (apply pos_word_bound; lia).
  rewrite andb_true_iff, Z.eqb_eq. change (forallb ?q (range 0 (mn - 1))) with (all q 0 (mn - 1)).
  rewrite all_spec. split.
  - intros [H1' H2'] m Hm. rewrite <- (denotes_tbit _ _ _ Hd), <- (denotes_tbit _ _ _ Hd2) by done.
    split_pos m. unfold tbit. destruct (Z.lt_ge_cases (m / 32) mn).
    + specialize (H1' (m / 32) ltac:(lia)). apply Z.eqb_eq in H1'. by rewrite H1'.
    + assert (m / 32 = mn) as -> by lia. apply (f_equal (fun x => Z.testbit x (m mod 32))) in H2'.
      rewrite !Z.land_spec, !Z.ones_spec_low, !andb_true_r in H2' by lia. done.
  - intros H'. assert (forall m, 0 <= m < N -> tbit (block_table b) m = tbit (block_table b2) m) as Hb.
    { intros m Hm. rewrite (denotes_tbit _ _ _ Hd), (denotes_tbit _ _ _ Hd2) by done. by apply H'. }
    split.
    + intros k Hk. apply Z.eqb_eq, (word_ext 32); auto with bh; [lia| | |].
      1,2: apply table_word; [done|lia].
      intros i Hi. destruct (word_pos k i Hi) as [E1 E2]. specialize (Hb (32 * k + i) ltac:(lia)).
      unfold tbit in Hb. by rewrite E1, E2 in Hb.
    + apply Z.bits_inj'. intros i Hi. rewrite !Z.land_spec.
      destruct (Z.lt_ge_cases i (r + 1)); [|by rewrite Z.ones_spec_high, !andb_false_r by lia].
      f_equal. destruct (word_pos mn i ltac:(lia)) as [E1 E2]. specialize (Hb (32 * mn + i) ltac:(lia)).
      unfold tbit in Hb. by rewrite E1, E2 in Hb.
Qed.

(** ** Logical operations *)

(** Clearing the positions selected by a test that looks at the current bit and at [q]. *)
Lemma select_loop b N f (q : Z -> bool) z :
  denotes b N f -> 0 <= z + 1 -> z < N ->
  denotes (foldl (fun b n => if Get b n && q n then fst (Reset_n b n) else b) b (range 0 z))
          N (fun m => f m && negb ((m <=? z) && q m)).
Proof.
  intros Hd ? ?.
  assert ((fun i b' => denotes b' N (fun m => f m && negb ((m <? i) && q m))) (z + 1)
            (foldl (fun b n => if Get b n && q n then fst (Reset_n b n) else b) b (range 0 z))) as H'.
  { apply foldl_range; [lia| |].
    - refine (denotes_ext _ _ _ _ Hd _). intros m Hm. cmp_solve. by rewrite andb_true_r.
    - intros i b' Hi Hb'. rewrite (proj2 (proj2 Hb')) by lia.
      destruct (Z.ltb_spec i i); [lia|]. cbn [andb negb]. rewrite andb_true_r.
      destruct (f i && q i) eqn:E.
      + refine (denotes_ext _ _ _ _ (denotes_Reset_n _ _ _ i Hb' ltac:(lia)) _).
        apply andb_true_iff in E as [E1 E2]. intros m Hm.
        destruct (Z.eqb_spec m i) as [->|]; [rewrite E1, E2; cmp_solve|].
        destruct (f m), (q m); cmp_solve.
      + refine (denotes_ext _ _ _ _ Hb' _). intros m Hm.
        destruct (Z.eq_dec m i) as [->|]; [|destruct (f m), (q m); cmp_solve].
        destruct (f i), (q i); try done; cmp_solve. }
  refine (denotes_ext _ _ _ _ H' _). intros m Hm. destruct (f m), (q m); cmp_solve.
Qed.

Section Logic.
Context (b b2 : Block) (N N2 : Z) (f g : Z -> bool).
Context (Hd : denotes b N f) (Hd2 : denotes b2 N2 g).

Lemma min_obj : (if no_obj b2 <? no_obj b then no_obj b2 else no_obj b) = Z.min N N2.
Proof. rewrite (proj1 (proj2 Hd)), (proj1 (proj2 Hd2)). cmp_solve. Qed.

Lemma denotes_And : denotes (fst (And_ b b2)) N (fun m => f m && ((N2 <=? m) || g m)).
Proof.
  pose proof (denotes_bound _ _ _ Hd). pose proof (denotes_bound _ _ _ Hd2).
  unfold And_. cbn [fst]. rewrite min_obj.
  refine (denotes_ext _ _ _ _ (select_loop b N f (fun n => negb (Get b2 n)) (Z.min N N2 - 1) Hd ltac:(lia) ltac:(lia)) _).
  intros m Hm. destruct (Z.lt_ge_cases m N2).
  - rewrite (proj2 (proj2 Hd2)) by lia. destruct (f m), (g m); cmp_solve.
  - destruct (f m), (g m), (Get b2 m); cmp_solve.
Qed.

Lemma denotes_AndNot : denotes (fst (AndNot b b2)) N (fun m => f m && ((N2 <=? m) || negb (g m))).
Proof.
  pose proof (denotes_bound _ _ _ Hd). pose proof (denotes_bound _ _ _ Hd2).
  unfold AndNot. cbn [fst]. rewrite min_obj.
  refine (denotes_ext _ _ _ _ (select_loop b N f (Get b2) (Z.min N N2 - 1) Hd ltac:(lia) ltac:(lia)) _).
  intros m Hm. destruct (Z.lt_ge_cases m N2).
  - rewrite (proj2 (proj2 Hd2)) by lia. destruct (f m), (g m); cmp_solve.
  - destruct (f m), (g m), (Get b2 m); cmp_solve.
Qed.

Lemma And_flag : snd (And_ b b2) = (cnt (fun m => f m && ((N2 <=? m) || g m)) 0 N =? 0).
Proof. rewrite <- (denotes_zero _ _ _ denotes_And). done. Qed.

Lemma AndNot_flag : snd (AndNot b b2) = (cnt (fun m => f m && ((N2 <=? m) || negb (g m))) 0 N =? 0).
Proof. rewrite <- (denotes_zero _ _ _ denotes_AndNot). done. Qed.
End Logic.

(** The word loop of [Or]: the table so far and the ones counted in it. *)
Lemma Or_words_loop t t2 K :
  table_ok t -> table_ok t2 -> 0 <= K <= bitBlockWords ->
  let s := foldl (Or_words t2) (t, 0) (range 0 (K - 1)) in
  table_ok (fst s) /\
  (forall m, tbit (fst s) m = tbit t m || ((0 <=? m) && (m <? 32 * K) && tbit t2 m)) /\
  snd s = cnt (fun m => tbit t m || tbit t2 m) 0 (32 * K).
Proof.
  intros Ht Ht2 HK s.
  assert ((fun k (s : list Z * Z) => table_ok (fst s) /\
      (forall m, tbit (fst s) m = tbit t m || ((0 <=? m) && (m <? 32 * k) && tbit t2 m)) /\
      snd s = cnt (fun m => tbit t m || tbit t2 m) 0 (32 * k)) (K - 1 + 1) s) as H.
  { apply foldl_range; [lia| |].
    - split; [done|]. split; [|done]. intros m.
      destruct (Z.leb_spec 0 m), (Z.ltb_spec m (32 * 0)); simpl; try lia; by rewrite orb_false_r.
    - intros k [t' c] Hk (Ht' & Hb & Hc). cbn [fst snd Or_words] in *.
      assert (0 <= k < bitBlockWords) as Hkb by lia.
      set (w := Z.lor t'.[0|k] t2.[0|k]).
      assert (is_word 32 w) by (apply word_lor; [lia| |]; by apply table_word).
      assert (forall m, tbit (t'.[k <- w]) m
              = tbit t m || ((0 <=? m) && (m <? 32 * (k + 1)) && tbit t2 m)) as Hb'.
      { intros m. rewrite tbit_upd by done. split_pos m. destruct (Z.eqb_spec (m / 32) k) as [E|E].
        - unfold w. rewrite Z.lor_spec. specialize (Hb m). unfold tbit in Hb at 1. rewrite E in Hb.
          rewrite Hb. unfold tbit. rewrite E. destruct (Z.testbit t.[0|k] _), (Z.testbit t2.[0|k] _); cmp_solve.
        - rewrite Hb. destruct (tbit t m), (tbit t2 m); cmp_solve. }
      split; [by apply table_ok_upd|]. split; [exact Hb'|].
      rewrite Hc. rewrite (cnt_split _ 0 (32 * k) (32 * (k + 1))) by lia. f_equal.
      rewrite <- (znth_zupd_eq 0 t' k w) at 1 by (rewrite (proj1 Ht'); lia).
      rewrite popcount_word by done. replace (32 * (k + 1)) with (32 * k + 32) by lia.
      apply cnt_ext. intros i Hi. rewrite Hb'. destruct (tbit t i), (tbit t2 i); cmp_solve. }
  replace (K - 1 + 1) with K in H by lia. exact H.
Qed.

Section OrOp.
Context (b b2 : Block) (N : Z) (f g : Z -> bool) (Hd : denotes b N f) (Hd2 : denotes b2 N g).

Let fg m := f m || g m.

(** The state of the bit-by-bit tail before position [n]. *)
Definition or_tail_inv (n : Z) (b' : Block) : Prop :=
  table_ok (block_table b') /\ no_obj b' = N /\ block_size b' = (N + 31) / 32 /\
  no_set_bits b' = cnt fg 0 n /\
  (forall m, 0 <= m < N -> tbit (block_table b') m = if m <? n then fg m else f m).

Lemma Or_tail_step n b' : 0 <= n < N -> or_tail_inv n b' -> or_tail_inv (n + 1) (Or_tail b2 b' n).
Proof.
  pose proof (denotes_bound _ _ _ Hd) as HN.
  intros Hn (Ht & Ho & Hs & Hc & Hb). unfold Or_tail. rewrite Get_tbit, Hb by done.
  destruct (Z.ltb_spec n n); [lia|]. rewrite (proj2 (proj2 Hd2)) by lia.
  assert (cnt fg 0 (n + 1) = cnt fg 0 n + bit1 (fg n)) as Hl by (apply cnt_last; lia).
  destruct (f n) eqn:Ef; [|destruct (g n) eqn:Eg].
  - split; [done|]. split; [done|]. split; [done|]. split.
    + simpl. rewrite Hl, Hc. unfold fg at 3. by rewrite Ef.
    + intros m Hm. simpl. rewrite Hb by done. destruct (Z.eq_dec m n) as [->|]; [|cmp_solve].
      unfold fg. rewrite Ef. cmp_solve.
  - rewrite Set_n_eq. cbn [fst]. rewrite Get_tbit, Hb by done.
    destruct (Z.ltb_spec n n); [lia|]. rewrite Ef.
    split; [simpl; apply table_ok_set; [done|lia]|]. split; [done|]. split; [done|]. split.
    + simpl. rewrite Hl, Hc. unfold fg at 3. by rewrite Ef, Eg.
    + intros m Hm. simpl. rewrite tbit_set by (done || lia). rewrite Hb by done.
      destruct (Z.eqb_spec m n) as [->|]; [|cmp_solve]. unfold fg. rewrite Ef, Eg. cmp_solve.
  - split; [done|]. split; [done|]. split; [done|]. split.
    + rewrite Hl, Hc. unfold fg at 3. rewrite Ef, Eg. simpl. lia.
    + intros m Hm. rewrite Hb by done. destruct (Z.eq_dec m n) as [->|]; [|cmp_solve].
      unfold fg. rewrite Ef, Eg. cmp_solve.
Qed.

Lemma denotes_Or : denotes (fst (Or_ b b2)) N fg.
Proof.
  pose proof (denotes_bound _ _ _ Hd) as HN. split_pos N.
  pose proof (wf_table _ (proj1 Hd)) as Ht. pose proof (wf_table _ (proj1 Hd2)) as Ht2.
  assert (0 <= N / 32 <= bitBlockWords) by (unfold bitBlockWords; lia).
  destruct (Or_words_loop (block_table b) (block_table b2) (N / 32) Ht Ht2 ltac:(done)) as (Ht' & Hb' & Hc').
  unfold Or_. rewrite (proj1 (proj2 Hd)), (denotes_size _ _ _ Hd).
  destruct (foldl _ _ _) as [t' c'] eqn:E. cbn [fst snd] in *.
  assert (or_tail_inv (N / 32 * 32) (mkBlock t' N c' ((N + 31) / 32))) as H0.
  { split; [done|]. split; [done|]. split; [done|]. split.
    - simpl. rewrite Hc'. replace (N / 32 * 32) with (32 * (N / 32)) by lia. apply cnt_ext.
      intros i Hi. by rewrite (denotes_tbit _ _ _ Hd), (denotes_tbit _ _ _ Hd2) by lia.
    - intros m Hm. simpl. rewrite Hb', (denotes_tbit _ _ _ Hd), (denotes_tbit _ _ _ Hd2) by lia.
      unfold fg. destruct (f m), (g m); cmp_solve. }
  assert (forall b', or_tail_inv N b' -> denotes b' N fg) as Hfin.
  { intros [t'' N'' c'' s''] (Ha & Ho & Hs & Hc & Hb). simpl in *. subst.
    apply denotes_build; [done|lia| |done]. intros m Hm. rewrite Hb by done. cmp_solve. }
  apply Hfin. destruct (Z.eqb_spec (N mod 32) 0) as [Ez|Ez]; cbn [negb].
  - by replace (N / 32 * 32) with N in H0 by lia.
  - replace N with (N - 1 + 1) at 1 by lia. apply foldl_range; [lia|done|].
    intros n b' Hn. apply Or_tail_step. lia.
Qed.

Lemma Or_flag : (exists m, 0 <= m < N /\ f m = true) -> snd (Or_ b b2) = (cnt fg 0 N =? N).
Proof.
  intros (m & Hm & Hfm). pose proof denotes_Or as Ho.
  assert (snd (Or_ b b2) = (no_set_bits (fst (Or_ b b2)) =? 0)
                           || (no_set_bits (fst (Or_ b b2)) =? no_obj (fst (Or_ b b2)))) as ->.
  { unfold Or_. by destruct (foldl _ _ _). }
  rewrite (denotes_full _ _ _ Ho), (denotes_zero _ _ _ Ho).
  destruct (Z.eqb_spec (cnt fg 0 N) 0) as [E|]; [|done]. exfalso.
  rewrite cnt_zero in E. specialize (E m Hm). unfold fg in E. by rewrite Hfm in E.
Qed.
End OrOp.

(** The two operands of a filter operation have the same number of rows. *)
Section SameSize.
Context (b b2 : Block) (N : Z) (f g : Z -> bool) (Hd : denotes b N f) (Hd2 : denotes b2 N g).

Lemma and_same : eq_upto N (fun m => f m && ((N <=? m) || g m)) (fun m => f m && g m).
Proof. intros m Hm. destruct (f m), (g m); cmp_solve. Qed.

Lemma denotes_And_same : denotes (fst (And_ b b2)) N (fun m => f m && g m).
Proof. rewrite <- and_same. by apply denotes_And. Qed.

Lemma And_flag_same : snd (And_ b b2) = true <-> (forall m, 0 <= m < N -> f m && g m = false).
Proof. rewrite (And_flag b b2 N N f g), (cnt_proper N _ _ and_same), Z.eqb_eq by done. apply cnt_zero. Qed.

Lemma andnot_same : eq_upto N (fun m => f m && ((N <=? m) || negb (g m))) (fun m => f m && negb (g m)).
Proof. intros m Hm. destruct (f m), (g m); cmp_solve. Qed.

Lemma denotes_AndNot_same : denotes (fst (AndNot b b2)) N (fun m => f m && negb (g m)).
Proof. rewrite <- andnot_same. by apply denotes_AndNot. Qed.

Lemma AndNot_flag_same :
  snd (AndNot b b2) = true <-> (forall m, 0 <= m < N -> f m && negb (g m) = false).
Proof. rewrite (AndNot_flag b b2 N N f g), (cnt_proper N _ _ andnot_same), Z.eqb_eq by done. apply cnt_zero. Qed.

Lemma Or_flag_same :
  (exists m, 0 <= m < N /\ f m = true) ->
  (snd (Or_ b b2) = true <-> (forall m, 0 <= m < N -> f m || g m = true)).
Proof.
  intros He. pose proof (denotes_bound _ _ _ Hd). rewrite (Or_flag b b2 N f g), Z.eqb_eq by done.
  rewrite <- (cnt_full (fun m => f m || g m) 0 N) by lia. lia.
Qed.
End SameSize.

(** ** Complement *)

Lemma Not_words_loop t K :
  table_ok t -> 0 <= K <= bitBlockWords ->
  let t' := foldl (fun t k => t.[k <- wrap32 (Z.lnot t.[0|k])]) t (range 0 (K - 1)) in
  table_ok t' /\ (forall m, 0 <= m -> tbit t' m = xorb (tbit t m) (m <? 32 * K)).
Proof.
  intros Ht HK t'.
  assert ((fun k t' => table_ok t' /\ (forall m, 0 <= m -> tbit t' m = xorb (tbit t m) (m <? 32 * k)))
            (K - 1 + 1) t') as H.
  { apply foldl_range; [lia| |].
    - split; [done|]. intros m Hm. destruct (Z.ltb_spec m (32 * 0)); [lia|]. by rewrite xorb_false_r.
    - intros k s Hk [Hs Hb]. split; [apply table_ok_upd; [done|apply wrap_word; lia]|].
      intros m Hm. rewrite tbit_upd by (done || lia). split_pos m.
      destruct (Z.eqb_spec (m / 32) k) as [E|E].
      + rewrite wrap_testbit, Z.lnot_spec by lia. specialize (Hb m Hm). unfold tbit in Hb at 1.
        rewrite E in Hb. rewrite Hb. destruct (tbit t m); cmp_solve.
      + rewrite Hb by done. destruct (tbit t m); cmp_solve. }
  replace (K - 1 + 1) with K in H by lia. exact H.
Qed.

Lemma toggle_loop b N f a :
  denotes b N f -> 0 <= a <= N ->
  denotes (foldl (fun b n => if Get b n then fst (Reset_n b n) else fst (Set_n b n)) b (range a (N - 1)))
          N (fun m => xorb (f m) (a <=? m)).
Proof.
  intros Hd Ha.
  assert ((fun n b' => denotes b' N (fun m => xorb (f m) (within a (n - 1) m))) (N - 1 + 1)
    (foldl (fun b n => if Get b n then fst (Reset_n b n) else fst (Set_n b n)) b (range a (N - 1)))) as H.
  { apply foldl_range; [lia| |].
    - refine (denotes_ext _ _ _ _ Hd _). intros m Hm. unfold within. destruct (f m); cmp_solve.
    - intros n b' Hn Hb'. rewrite (proj2 (proj2 Hb')) by lia.
      assert (within a (n - 1) n = false) as -> by (unfold within; cmp_solve). rewrite xorb_false_r.
      destruct (f n) eqn:E.
      + refine (denotes_ext _ _ _ _ (denotes_Reset_n _ _ _ n Hb' ltac:(lia)) _). intros m Hm.
        destruct (Z.eqb_spec m n) as [->|]; [rewrite E|]; unfold within; [|destruct (f m)]; cmp_solve.
      + refine (denotes_ext _ _ _ _ (denotes_Set_n _ _ _ n Hb' ltac:(lia)) _). intros m Hm.
        destruct (Z.eqb_spec m n) as [->|]; [rewrite E|]; unfold within; [|destruct (f m)]; cmp_solve. }
  refine (denotes_ext _ _ _ _ H _). intros m Hm. unfold within. destruct (f m); cmp_solve.
Qed.

Lemma denotes_Not b N f : denotes b N f -> denotes (Not_ b) N (fun m => negb (f m)).
Proof.
  intros Hd. pose proof (denotes_bound _ _ _ Hd) as HN. split_pos N.
  unfold Not_. rewrite (proj1 (proj2 Hd)), (denotes_size _ _ _ Hd).
  set (b' := if negb (N mod 32 =? 0) then _ else b).
  assert (denotes b' N (fun m => xorb (f m) (N / 32 * 32 <=? m))) as Hb'.
  { subst b'. destruct (Z.eqb_spec (N mod 32) 0); cbn [negb].
    - refine (denotes_ext _ _ _ _ Hd _). intros m Hm. destruct (f m); cmp_solve.
    - apply toggle_loop; [done|lia]. }
  pose proof (wf_table _ (proj1 Hb')) as Ht'.
  destruct (Not_words_loop (block_table b') (N / 32) Ht' ltac:(unfold bitBlockWords; lia)) as [Hok Hbit].
  apply denotes_build; [done|lia| |].
  - intros m Hm. rewrite Hbit, (denotes_tbit _ _ _ Hb') by lia. destruct (f m); cmp_solve.
  - rewrite cnt_negb by lia. rewrite (denotes_count _ _ _ Hd). lia.
Qed.

(** ** Resizing *)

Lemma InitBits_true b n1 n2 :
  table_ok (block_table b) -> 0 <= n1 -> n1 <= n2 + 1 -> n2 < 65536 ->
  let b' := InitBits b n1 n2 true in
  table_ok (block_table b') /\ no_set_bits b' = no_set_bits b + (n2 - n1 + 1) /\
  (forall m, tbit (block_table b') m = within n1 n2 m || tbit (block_table b) m).
Proof.
  intros Ht ? ? ? b'.
  assert ((fun i b' => table_ok (block_table b') /\ no_set_bits b' = no_set_bits b + (i - n1) /\
     (forall m, tbit (block_table b') m = within n1 (i - 1) m || tbit (block_table b) m)) (n2 + 1) b') as H'.
  { unfold b', InitBits. apply foldl_range; [lia| |].
    - split; [done|]. split; [lia|]. intros m. unfold within. cmp_solve.
    - intros i s Hi (Hs & Hc & Hb). rewrite land_31. cbn [block_table no_set_bits]. split.
      + apply table_ok_set; [done|lia].
      + split; [lia|]. intros m. rewrite tbit_set by (done || lia). rewrite Hb.
        unfold within. destruct (tbit (block_table b) m); cmp_solve. }
  destruct H' as (Ha & Hc & Hb). split; [done|]. split; [lia|]. intros m. rewrite Hb. do 2 f_equal. lia.
Qed.

Lemma InitBits_false b n1 n2 :
  table_ok (block_table b) -> 0 <= n1 -> n1 <= n2 + 1 -> n2 < 65536 ->
  let b' := InitBits b n1 n2 false in
  table_ok (block_table b') /\ no_set_bits b' = no_set_bits b /\
  (forall m, tbit (block_table b') m = minus (tbit (block_table b)) n1 n2 m).
Proof.
  intros Ht ? ? ? b'.
  assert ((fun i b' => table_ok (block_table b') /\ no_set_bits b' = no_set_bits b /\
     (forall m, tbit (block_table b') m = minus (tbit (block_table b)) n1 (i - 1) m)) (n2 + 1) b') as H'.
  { unfold b', InitBits. apply foldl_range; [lia| |].
    - split; [done|]. split; [lia|]. intros m. unfold minus, within. destruct (tbit (block_table b) m); cmp_solve.
    - intros i s Hi (Hs & Hc & Hb). rewrite land_31. cbn [block_table no_set_bits]. split.
      + apply table_ok_clear; [done|lia].
      + split; [lia|]. intros m. rewrite tbit_clear by (done || lia). rewrite Hb.
        unfold minus, within. destruct (tbit (block_table b) m); cmp_solve. }
  destruct H' as (Ha & Hc & Hb). split; [done|]. split; [lia|]. intros m. rewrite Hb. f_equal. lia.
Qed.

Lemma denotes_GrowBlock b N f g v :
  denotes b N f -> 0 <= g -> N + g <= 65536 ->
  exists b', GrowBlock b g v = Some b' /\ denotes b' (N + g) (fun m => if m <? N then f m else v).
Proof.
  intros Hd Hg HNg. pose proof (denotes_bound _ _ _ Hd) as HN. pose proof (wf_table _ (proj1 Hd)) as Ht.
  unfold GrowBlock. rewrite (proj1 (proj2 Hd)). destruct (Z.leb_spec (N + g) 0x10000); [|lia].
  eexists. split; [reflexivity|].
  assert (cnt (fun m => if m <? N then f m else v) 0 (N + g) = cnt f 0 N + (if v then g else 0)) as Hcnt.
  { rewrite (cnt_split _ 0 N (N + g)) by lia. f_equal.
    - apply cnt_ext. intros i Hi. cmp_solve.
    - destruct v.
      + transitivity (N + g - N); [|lia]. apply cnt_full; [lia|]. intros i Hi. cmp_solve.
      + apply cnt_zero. intros i Hi. cmp_solve. }
  destruct v.
  - destruct (InitBits_true b N (N + g - 1) Ht) as (Ht' & Hc' & Hb'); [lia..|].
    apply denotes_build; [done|lia| |rewrite Hc', Hcnt, (denotes_count _ _ _ Hd); lia].
    intros m Hm. rewrite Hb'. destruct (Z.ltb_spec m N).
    + rewrite (denotes_tbit _ _ _ Hd) by lia. unfold within. cmp_solve.
    + unfold within. cmp_solve.
  - destruct (InitBits_false b N (N + g - 1) Ht) as (Ht' & Hc' & Hb'); [lia..|].
    apply denotes_build; [done|lia| |rewrite Hc', Hcnt, (denotes_count _ _ _ Hd); lia].
    intros m Hm. rewrite Hb'. unfold minus, within. destruct (Z.ltb_spec m N).
    + rewrite (denotes_tbit _ _ _ Hd) by lia. destruct (f m); cmp_solve.
    + destruct (tbit _ m); cmp_solve.
Qed.

(** After shrinking the counter is the number of ones kept; when there are some, the bits are
    the kept ones. *)
Lemma ShrinkBlock_left b N f n :
  denotes b N f -> 0 < n <= N ->
  no_obj (ShrinkBlock b n) = n /\ no_set_bits (ShrinkBlock b n) = cnt f 0 n /\
  (cnt f 0 n <> 0 -> denotes (ShrinkBlock b n) n f).
Proof.
  intros Hd Hn. pose proof (denotes_bound _ _ _ Hd) as HN. unfold ShrinkBlock.
  rewrite (proj1 (proj2 Hd)). destruct (Z.eqb_spec n N) as [->|].
  - split; [apply Hd|]. split; [by apply denotes_count|done].
  - replace (Z.min 0xFFFF (N - 1)) with (N - 1) by lia.
    destruct (Reset_between_left b N f n (N - 1) Hd) as (Ho & Hc & Hd'); [lia..|].
    assert (cnt (minus f n (N - 1)) 0 N = cnt f 0 n) as Hcn.
    { rewrite (cnt_split _ 0 n N) by lia. rewrite (proj2 (cnt_zero _ n N)).
      - rewrite Z.add_0_r. apply cnt_ext. intros i Hi. unfold minus, within. destruct (f i); cmp_solve.
      - intros i Hi. unfold minus, within. destruct (f i); cmp_solve. }
    rewrite Hcn in Hc. split; [done|]. split; [done|]. intros Hnz.
    assert (no_set_bits (fst (Reset_between b n (N - 1))) <> 0) as Hnz' by lia.
    specialize (Hd' Hnz'). cbn [no_set_bits].
    apply denotes_build; [apply Hd'|lia| |done].
    intros m Hm. rewrite (denotes_tbit _ _ _ Hd') by lia. unfold minus, within. destruct (f m); cmp_solve.
Qed.

(** ** Copies *)

Lemma pool_malloc_ok junk : table_ok (pool_malloc junk).
Proof.
  split.
  - unfold pool_malloc, zlen. rewrite length_map. reflexivity.
  - apply Forall_forall. intros x Hx. apply list_elem_of_In, in_map_iff in Hx as (i & <- & _).
    apply wrap_word. lia.
Qed.

Lemma copy_words_ok n dst src :
  table_ok dst -> table_ok src -> 0 <= n <= bitBlockWords -> table_ok (copy_words n dst src).
Proof.
  intros [Hl Hf] [Hl2 Hf2] Hn. unfold copy_words. split.
  - rewrite zlen_app. unfold zlen in *. rewrite length_take, length_drop. lia.
  - apply Forall_app. split; [by apply Forall_take|by apply Forall_drop].
Qed.

Lemma copy_words_tbit n dst src m :
  table_ok src -> 0 <= n <= bitBlockWords -> 0 <= m < 32 * n -> tbit (copy_words n dst src) m = tbit src m.
Proof.
  intros [Hl Hf] Hn Hm. unfold tbit, copy_words. f_equal. split_pos m.
  rewrite znth_app_l by (unfold zlen in *; rewrite length_take; lia).
  unfold znth. destruct (Z.ltb_spec (m / 32) 0); [done|].
  rewrite !nth_lookup, lookup_take_lt by lia. done.
Qed.

Lemma denotes_CopyFrom junk self block N f :
  denotes block N f -> (block_table self = [] \/ table_ok (block_table self)) ->
  denotes (CopyFrom junk self block) N f.
Proof.
  intros Hd Hs. pose proof (denotes_bound _ _ _ Hd) as HN. pose proof (wf_table _ (proj1 Hd)) as Ht.
  unfold CopyFrom. rewrite (proj1 (proj2 Hd)), (denotes_size _ _ _ Hd).
  destruct (block_table block) as [|w ws] eqn:Eb; [by destruct Ht|]. rewrite <- Eb in *.
  set (dst := match block_table self with [] => _ | _ => _ end).
  assert (table_ok dst) as Hdst.
  { subst dst. destruct Hs as [->|Hs]; [apply pool_malloc_ok|].
    destruct (block_table self); [apply pool_malloc_ok|done]. }
  assert (0 <= (N + 31) / 32 <= bitBlockWords /\ N <= 32 * ((N + 31) / 32)) as [HK HK2].
  { split_pos (N + 31). unfold bitBlockWords. lia. }
  apply denotes_build; [by apply copy_words_ok|lia| |by apply denotes_count].
  intros m Hm. rewrite copy_words_tbit by (done || lia). by apply (denotes_tbit _ _ _ Hd).
Qed.

Lemma denotes_copy junk block N f : denotes block N f -> denotes (Block_copy junk block) N f.
Proof. intros. apply denotes_CopyFrom; [done|by left]. Qed.

(** ** The contract of a block *)

(** [Reset(n1, n2)] reports emptiness exactly, and unless nothing is left it clears the
    interval, leaves the other rows alone and keeps the counter right. *)
Theorem Block_Reset_between (b : Block) (N : Z) (f : Z -> bool) (n1 n2 : Z)
    (Hd : denotes b N f) (Hn : 0 <= n1 <= n2) (HN : n2 < N) :
  (snd (Reset_between b n1 n2) = true <-> (forall m, 0 <= m < N -> minus f n1 n2 m = false)) /\
  (snd (Reset_between b n1 n2) = false ->
   denotes (fst (Reset_between b n1 n2)) N (minus f n1 n2)).
Proof.
  rewrite (Reset_between_flag b N f) by done. rewrite Z.eqb_eq, Z.eqb_neq. split.
  - apply cnt_zero.
  - intros H. by apply denotes_Reset_between.
Qed.

Lemma Block_Reset_between_witness :
  (snd (Reset_between (Init 100 true) 7 80) = true <->
     (forall m, 0 <= m < 100 -> minus (fun _ => true) 7 80 m = false)) /\
  (snd (Reset_between (Init 100 true) 7 80) = false ->
   denotes (fst (Reset_between (Init 100 true) 7 80)) 100 (minus (fun _ => true) 7 80)).
Proof. apply Block_Reset_between; [apply denotes_Init; lia|lia|lia]. Defined.

(** A hundred rows of which 4 .. 99 are set, as a block and as a bit function. *)
Definition block_4_99 : Block := fst (Set_between (Init 100 false) 4 99).

(** When [Reset(n1, n2)] empties a block it may leave a bit of the table set although the
    counter is zero, so the result must not be read unless the flag is tested: clearing rows
    4 .. 99 of a block that holds exactly those rows leaves row 99 readable. *)
Theorem Block_Reset_between_residue :
  let r := Reset_between block_4_99 4 99 in
  snd r = true /\ no_set_bits (fst r) = 0 /\ Get (fst r) 99 = true.
Proof. vm_compute. split; [|split]; reflexivity. Qed.

(** The interval queries agree with the rows: [IsEmptyBetween] holds exactly when no row of
    the interval is set, and [NoOnesBetween] counts the set rows. *)
Theorem Block_interval_queries (b : Block) (N : Z) (f : Z -> bool) (n1 n2 : Z)
    (Hd : denotes b N f) (Hn : 0 <= n1 <= n2) (HN : n2 < N) :
  (IsEmptyBetween b n1 n2 = true <-> (forall m, n1 <= m <= n2 -> f m = false)) /\
  NoOnesBetween b n1 n2 = cnt f n1 (n2 + 1).
Proof.
  split; [|by apply (NoOnesBetween_spec b N)].
  rewrite (IsEmptyBetween_spec b N f) by done. rewrite all_spec.
  split; intros H m Hm; apply negb_true_iff, H; done.
Qed.

Lemma Block_interval_queries_witness :
  (IsEmptyBetween (Init 100 false) 3 70 = true <-> (forall m, 3 <= m <= 70 -> false = false)) /\
  NoOnesBetween (Init 100 false) 3 70 = cnt (fun _ => false) 3 (70 + 1).
Proof. apply (Block_interval_queries _ 100 (fun _ => false)); [apply denotes_Init; lia|lia|lia]. Defined.

(** [IsFullBetween] is right for an interval inside one word and for an interval that
    starts at a word boundary; for any other interval it scans the first word from the offset
    of the interval's end, and answers for the rows from there on. *)
Theorem Block_IsFullBetween (b : Block) (N : Z) (f : Z -> bool) (n1 n2 : Z)
    (Hd : denotes b N f) (Hn : 0 <= n1 <= n2) (HN : n2 < N) :
  let from := if (n1 / 32 =? n2 / 32) || (n1 mod 32 =? 0) then n1 else 32 * (n1 / 32) + n2 mod 32 in
  IsFullBetween b n1 n2 = true <-> (forall m, from <= m <= n2 -> f m = true).
Proof. intros from. rewrite (IsFullBetween_spec b N f) by done. apply all_spec. Qed.

Lemma Block_IsFullBetween_witness :
  IsFullBetween (Init 100 true) 3 70 = true <->
  (forall m, 32 * (3 / 32) + 70 mod 32 <= m <= 70 -> true = true).
Proof.
  apply (Block_IsFullBetween (Init 100 true) 100 (fun _ => true) 3 70); [apply denotes_Init; lia|lia|lia].
Defined.

(** So the query can answer that an interval is full when its first row is not set. *)
Theorem Block_IsFullBetween_wrong :
  let b := fst (Reset_n (Init 100 true) 1) in
  IsFullBetween b 1 40 = true /\ Get b 1 = false.
Proof. vm_compute. split; reflexivity. Qed.

(** [And], [AndNot], [Or] and [Not] of blocks of the same pack are the row-wise
    operations, with the counter kept, and their flags say whether the block became empty
    ([And], [AndNot]) or full ([Or] into a block that has a row). *)
Theorem Block_logic (b b2 : Block) (N : Z) (f g : Z -> bool)
    (Hd : denotes b N f) (Hd2 : denotes b2 N g) :
  denotes (fst (And_ b b2)) N (fun m => f m && g m) /\
  (snd (And_ b b2) = true <-> (forall m, 0 <= m < N -> f m && g m = false)) /\
  denotes (fst (AndNot b b2)) N (fun m => f m && negb (g m)) /\
  (snd (AndNot b b2) = true <-> (forall m, 0 <= m < N -> f m && negb (g m) = false)) /\
  denotes (fst (Or_ b b2)) N (fun m => f m || g m) /\
  ((exists m, 0 <= m < N /\ f m = true) ->
   (snd (Or_ b b2) = true <-> (forall m, 0 <= m < N -> f m || g m = true))) /\
  denotes (Not_ b) N (fun m => negb (f m)).
Proof.
  split; [by apply denotes_And_same|]. split; [by apply And_flag_same|].
  split; [by apply denotes_AndNot_same|]. split; [by apply AndNot_flag_same|].
  split; [by apply denotes_Or|]. split; [|by apply denotes_Not].
  intros He. by apply Or_flag_same.
Qed.

Lemma Block_logic_witness :
  denotes (fst (Or_ (Init 100 true) (Init 100 false))) 100 (fun _ => true || false) /\
  denotes (Not_ (Init 100 true)) 100 (fun _ => negb true).
Proof.
  destruct (Block_logic (Init 100 true) (Init 100 false) 100 (fun _ => true) (fun _ => false)) as
    (_ & _ & _ & _ & H1 & _ & H2); [apply denotes_Init; lia|apply denotes_Init; lia|].
  split; assumption.
Defined.

(** Growing a block by new rows keeps the old rows and gives the new ones the value asked
    for, and fails only beyond the pack size; shrinking keeps the counter of the remaining
    rows, and the rows themselves while one of them is set. *)
Theorem Block_resize (b : Block) (N : Z) (f : Z -> bool) (Hd : denotes b N f) :
  (forall g v, 0 <= g -> N + g <= 65536 ->
     exists b', GrowBlock b g v = Some b' /\ denotes b' (N + g) (fun m => if m <? N then f m else v)) /\
  (forall g v, 65536 < N + g -> GrowBlock b g v = None) /\
  (forall n, 0 < n <= N ->
     no_set_bits (ShrinkBlock b n) = cnt f 0 n /\ (cnt f 0 n <> 0 -> denotes (ShrinkBlock b n) n f)).
Proof.
  split; [|split].
  - intros g v Hg HN. by apply denotes_GrowBlock.
  - intros g v HN. unfold GrowBlock. rewrite (proj1 (proj2 Hd)). cmp_solve.
  - intros n Hn. destruct (ShrinkBlock_left b N f n Hd Hn) as (_ & Hc & Hs). done.
Qed.

Lemma Block_resize_witness :
  (exists b', GrowBlock (Init 100 true) 20 false = Some b' /\
              denotes b' (100 + 20) (fun m => if m <? 100 then true else false)) /\
  no_set_bits (ShrinkBlock (Init 100 true) 50) = cnt (fun _ => true) 0 50.
Proof.
  destruct (Block_resize (Init 100 true) 100 (fun _ => true)) as (H1 & _ & H2); [apply denotes_Init; lia|].
  split; [exact (H1 20 false ltac:(lia) ltac:(lia))|exact (proj1 (H2 50 ltac:(lia)))].
Defined.

(** [BlockContinuous] returns the number of ones exactly when they are the first rows of
    the block, and -1 otherwise. *)
Theorem Block_continuous (b : Block) (N : Z) (f : Z -> bool) (Hd : denotes b N f) :
  ((forall m, 0 <= m < N -> f m = (m <? cnt f 0 N)) -> BlockContinuous b = cnt f 0 N) /\
  (~ (forall m, 0 <= m < N -> f m = (m <? cnt f 0 N)) -> BlockContinuous b = -1).
Proof.
  rewrite (BlockContinuous_spec b N f Hd).
  assert (all (fun m => Bool.eqb (f m) (m <? cnt f 0 N)) 0 (N - 1) = true <->
          (forall m, 0 <= m < N -> f m = (m <? cnt f 0 N))) as Hall.
  { rewrite all_spec. split; intros H m Hm; [apply eqb_prop|apply eqb_true_iff]; apply H; lia. }
  destruct (all _ 0 (N - 1)); split; intros H; try done.
  - exfalso. apply H. by apply Hall.
  - apply Hall in H. done.
Qed.

Lemma Block_continuous_witness :
  BlockContinuous (fst (Set_between (Init 100 false) 0 39)) = 40.
Proof.
  assert (denotes (fst (Set_between (Init 100 false) 0 39)) 100 (fun m => within 0 39 m || false)) as Hd
    by (apply (denotes_Set_between _ _ (fun _ => false)); [apply denotes_Init; lia|lia|lia]).
  apply (proj1 (Block_continuous _ _ _ Hd)). intros m Hm.
  change (cnt _ 0 100) with 40. unfold within. cmp_solve.
Defined.
