(* ===== verification/FilterDefs.v ===== *)
(** * Row filters: state and operations (core/Filter.cpp, core/Filter.h)

    A filter covers the rows of a table, pack by pack (65536 rows, fewer in the last pack).  For
    each pack it keeps a status, a position [block_last_one] used when the status is "full"
    (ones from row 0 up to that position, zeros after it) and a block of bits used when the
    status is "mixed".  Dereferencing a null block is [None]. *)

From stdpp Require Import option.
From S2P Require Import Prelude BinTools FilterBlock.

Inductive fb_status := FB_FULL | FB_EMPTY | FB_MIXED.

#[export] Instance fb_status_eq_dec : EqDecision fb_status.
Proof. solve_decision. Defined.

Definition is_st (a b : fb_status) : bool := bool_decide (a = b).

Record Filter := mkFilter {
  no_blocks : Z;
  block_status : list fb_status;
  blocks : list (option Block);
  no_of_bits_in_last_block : Z;
  was_block_changed : list bool;
  track_changes : bool;
  block_last_one : list Z;
  delayed_stats : Z;
  delayed_block : Z;
  delayed_stats_set : Z;
  delayed_block_set : Z
}.

(** Array reads. *)
Definition stat (f : Filter) (b : Z) : fb_status := (block_status f).[FB_EMPTY|b].
Definition blk (f : Filter) (b : Z) : option Block := (blocks f).[None|b].
Definition lst (f : Filter) (b : Z) : Z := (block_last_one f).[0|b].

(** Array writes. *)
Definition set_stat (f : Filter) (b : Z) (s : fb_status) : Filter :=
  mkFilter (no_blocks f) ((block_status f).[b <- s]) (blocks f) (no_of_bits_in_last_block f)
    (was_block_changed f) (track_changes f) (block_last_one f)
    (delayed_stats f) (delayed_block f) (delayed_stats_set f) (delayed_block_set f).

Definition set_blk (f : Filter) (b : Z) (k : option Block) : Filter :=
  mkFilter (no_blocks f) (block_status f) ((blocks f).[b <- k]) (no_of_bits_in_last_block f)
    (was_block_changed f) (track_changes f) (block_last_one f)
    (delayed_stats f) (delayed_block f) (delayed_stats_set f) (delayed_block_set f).

Definition set_lst (f : Filter) (b : Z) (v : Z) : Filter :=
  mkFilter (no_blocks f) (block_status f) (blocks f) (no_of_bits_in_last_block f)
    (was_block_changed f) (track_changes f) ((block_last_one f).[b <- v])
    (delayed_stats f) (delayed_block f) (delayed_stats_set f) (delayed_block_set f).

(** [if(track_changes) was_block_changed.set(b)] *)
Definition mark (f : Filter) (b : Z) : Filter :=
  if track_changes f then
    mkFilter (no_blocks f) (block_status f) (blocks f) (no_of_bits_in_last_block f)
      ((was_block_changed f).[b <- true]) (track_changes f) (block_last_one f)
      (delayed_stats f) (delayed_block f) (delayed_stats_set f) (delayed_block_set f)
  else f.

(** [if(track_changes) was_block_changed.set()] *)
Definition mark_all (f : Filter) : Filter :=
  if track_changes f then
    mkFilter (no_blocks f) (block_status f) (blocks f) (no_of_bits_in_last_block f)
      (map (fun _ => true) (was_block_changed f)) (track_changes f) (block_last_one f)
      (delayed_stats f) (delayed_block f) (delayed_stats_set f) (delayed_block_set f)
  else f.

Definition set_delayed (f : Filter) (ds db dss dbs : Z) : Filter :=
  mkFilter (no_blocks f) (block_status f) (blocks f) (no_of_bits_in_last_block f)
    (was_block_changed f) (track_changes f) (block_last_one f) ds db dss dbs.

(** Number of rows of pack [b]: [b == no_blocks - 1 ? no_of_bits_in_last_block : 65536]. *)
Definition bsize (f : Filter) (b : Z) : Z :=
  if b =? no_blocks f - 1 then no_of_bits_in_last_block f else 65536.

(** ** Construction *)

Definition MAX_ROW_NUMBER : Z := 0x00007FFFFFFFFFFF.

(** [(int)((no_obj + 0xffff) >> 16)] *)
Definition NoObj2NoPacks (no_obj : Z) : Z := swrap 32 (Z.shiftr (no_obj + 0xffff) 16).

Definition Construct (no_blocks bits_in_last : Z) (all_ones : bool) : Filter :=
  let n := Z.to_nat no_blocks in
  mkFilter no_blocks (replicate n (if all_ones then FB_FULL else FB_EMPTY)) (replicate n None)
    bits_in_last [] false
    (if 0 <? no_blocks then (replicate n 65535).[no_blocks - 1 <- wrap 16 (bits_in_last - 1)] else [])
    (-1) (-1) (-1) (-1).

(** [None]: OutOfMemoryRCException("Too many tuples."). *)
Definition Filter_new (no_obj : Z) (all_ones : bool) : option Filter :=
  if MAX_ROW_NUMBER <? no_obj then None
  else
    let bits := if Z.land no_obj 0xFFFF =? 0 then 0x10000 else Z.land no_obj 0xFFFF in
    let bits := if no_obj =? 0 then 0 else bits in
    Some (Construct (NoObj2NoPacks no_obj) bits all_ones).

(** The copy constructor; every block is copied into a new pool. *)
Definition Filter_copy (junk : Z -> Z) (f : Filter) : Filter :=
  mkFilter (no_blocks f) (block_status f)
    (map (fun k => match k with Some k => Some (Block_copy junk k) | None => None end) (blocks f))
    (no_of_bits_in_last_block f) (if track_changes f then was_block_changed f else [])
    (track_changes f) (block_last_one f) (-1) (-1) (-1) (-1).

Definition StartTrackingChanges (f : Filter) : Filter :=
  mkFilter (no_blocks f) (block_status f) (blocks f) (no_of_bits_in_last_block f)
    (replicate (Z.to_nat (no_blocks f)) false) true (block_last_one f)
    (delayed_stats f) (delayed_block f) (delayed_stats_set f) (delayed_block_set f).

Definition WasBlockChanged (f : Filter) (b : Z) : bool := (was_block_changed f).[false|b].

(** ** Whole packs *)

(** [blocks[pack]->~Block(); Dealloc; blocks[pack] = NULL]: a null block is not destroyed
    because every caller tests it. *)
Definition DeleteBlock (f : Filter) (b : Z) : Filter := set_blk f b None.

Definition SetBlock (f : Filter) (b : Z) : Filter :=
  let f := set_stat f b FB_FULL in
  let f := set_lst f b (wrap 16 (if b =? no_blocks f - 1 then no_of_bits_in_last_block f - 1 else 65535)) in
  let f := match blk f b with Some _ => DeleteBlock f b | None => f end in
  mark f b.

Definition ResetBlock (f : Filter) (b : Z) : Filter :=
  let f := set_stat f b FB_EMPTY in
  let f := match blk f b with Some _ => DeleteBlock f b | None => f end in
  mark f b.

(** [Set()] and [Reset()] of the whole filter. *)
Definition Set_all (f : Filter) : Filter :=
  if no_blocks f =? 0 then f
  else
    let f := mkFilter (no_blocks f) (map (fun _ => FB_FULL) (block_status f)) (blocks f)
               (no_of_bits_in_last_block f) (was_block_changed f) (track_changes f) (block_last_one f)
               (delayed_stats f) (delayed_block f) (delayed_stats_set f) (delayed_block_set f) in
    let f := foldl (fun f b =>
               let f := set_lst f b 65535 in
               match blk f b with Some _ => DeleteBlock f b | None => f end) f (range 0 (no_blocks f - 1)) in
    let f := set_lst f (no_blocks f - 1) (wrap 16 (no_of_bits_in_last_block f - 1)) in
    let f := set_delayed f (-1) (delayed_block f) (delayed_stats_set f) (delayed_block_set f) in
    mark_all f.

Definition Reset_all (f : Filter) : Filter :=
  let f := mkFilter (no_blocks f) (map (fun _ => FB_EMPTY) (block_status f)) (blocks f)
             (no_of_bits_in_last_block f) (was_block_changed f) (track_changes f) (block_last_one f)
             (delayed_stats f) (delayed_block f) (delayed_stats_set f) (delayed_block_set f) in
  let f := foldl (fun f b =>
             match blk f b with Some _ => DeleteBlock f b | None => f end) f (range 0 (no_blocks f - 1)) in
  let f := set_delayed f (-1) (delayed_block f) (delayed_stats_set f) (delayed_block_set f) in
  mark_all f.

(** ** Single rows *)

(** [if(blocks[b]) { if(blocks[b]->op()) finish(b); }] *)
Definition on_block (f : Filter) (b : Z) (op : Block -> Block * bool) (finish : Filter -> Z -> Filter) : Filter :=
  match blk f b with
  | Some k =>
    let '(k', flag) := op k in
    let f := set_blk f b (Some k') in
    if flag then finish f b else f
  | None => f
  end.

Definition Set_bn (f : Filter) (b n : Z) : option Filter :=
  let make_mixed := is_st (stat f b) FB_FULL && (lst f b + 1 <? n) in
  let f := if is_st (stat f b) FB_FULL && (n =? lst f b + 1)
           then set_lst f b (wrap 16 (lst f b + 1)) else f in
  f ← (if make_mixed || is_st (stat f b) FB_EMPTY then
         let f := if n =? 0 then set_lst (set_stat f b FB_FULL) b 0
                  else set_blk (set_stat f b FB_MIXED) b (Some (Init (bsize f b) false)) in
         if make_mixed then
           k ← blk f b;
           Some (set_blk f b (Some (fst (Set_between k 0 (lst f b)))))
         else Some f
       else Some f);
  Some (mark (on_block f b (fun k => Set_n k n) SetBlock) b).

(** The inline [Reset(b, n)] of Filter.h. *)
Definition Reset_bn (f : Filter) (b n : Z) : option Filter :=
  let full := is_st (stat f b) FB_FULL in
  let last := lst f b in
  let optimized_size := if full && negb (n =? last) && (n <? last) then last else -1 in
  let f :=
    if full then
      if n =? last then
        if n =? 0 then set_stat f b FB_EMPTY else set_lst f b (wrap 16 (last - 1))
      else if n <? last then set_blk (set_stat f b FB_MIXED) b (Some (Init (bsize f b) true))
      else f
    else f in
  f ← match blk f b with
      | Some _ =>
        let f := on_block f b (fun k => Reset_n k n) ResetBlock in
        if negb (optimized_size =? -1) && negb (optimized_size =? 65535)
           && ((b <? no_blocks f - 1) || negb (optimized_size =? no_of_bits_in_last_block f - 1))
        then
          k ← blk f b;
          Some (set_blk f b (Some (fst (Reset_between k (optimized_size + 1)
                 (if b <? no_blocks f - 1 then 65535 else no_of_bits_in_last_block f - 1)))))
        else Some f
      | None => Some f
      end;
  Some (mark f b).

(** A null block read by [blocks[b]->Get(n)] is [None]. *)
Definition Get_bn (f : Filter) (b n : Z) : option bool :=
  match stat f b with
  | FB_EMPTY => Some false
  | FB_FULL => Some (n <=? lst f b)
  | FB_MIXED => k ← blk f b; Some (FilterBlock.Get k n)
  end.

(** ** Intervals of rows *)

(** The branch [b1 == b2] of [SetBetween]. *)
Definition SetBetween1 (f : Filter) (b n1 n2 : Z) : Filter :=
  let f :=
    if is_st (stat f b) FB_FULL && (n1 <=? lst f b + 1)
    then set_lst f b (Z.max (lst f b) (wrap 16 n2))
    else if is_st (stat f b) FB_EMPTY || is_st (stat f b) FB_FULL then
      if n1 =? 0 then set_lst (set_stat f b FB_FULL) b (wrap 16 n2)
      else
        let k := Init (bsize f b) false in
        let k := if is_st (stat f b) FB_FULL then fst (Set_between k 0 (lst f b)) else k in
        set_stat (set_blk f b (Some k)) b FB_MIXED
    else f in
  mark (on_block f b (fun k => Set_between k n1 n2) SetBlock) b.

Definition SetBetween (f : Filter) (b1 n1 b2 n2 : Z) : Filter :=
  if b1 =? b2 then SetBetween1 f b1 n1 n2
  else
    let f := if n1 =? 0 then SetBlock f b1 else SetBetween1 f b1 n1 65535 in
    let f := foldl SetBlock f (range (b1 + 1) (b2 - 1)) in
    SetBetween1 f b2 0 n2.

(** The overload on row numbers. *)
Definition SetBetween_rows (f : Filter) (n1 n2 : Z) : option Filter :=
  if n1 =? n2 then Set_bn f (Z.shiftr n1 16) (Z.land n1 65535)
  else Some (SetBetween f (Z.shiftr n1 16) (Z.land n1 65535) (Z.shiftr n2 16) (Z.land n2 65535)).

Definition ResetBetween1 (f : Filter) (b n1 n2 : Z) : Filter :=
  let f :=
    if is_st (stat f b) FB_FULL then
      if (0 <? n1) && (lst f b <=? n2) then set_lst f b (Z.min (wrap 16 (n1 - 1)) (lst f b))
      else if (n1 =? 0) && (lst f b <=? n2) then set_stat f b FB_EMPTY
      else
        let new_block_size := bsize f b in
        let k := if lst f b =? new_block_size - 1 then Init new_block_size true
                 else fst (Set_between (Init new_block_size false) 0 (lst f b)) in
        set_blk (set_stat f b FB_MIXED) b (Some k)
    else f in
  mark (on_block f b (fun k => Reset_between k n1 n2) ResetBlock) b.

Definition ResetBetween (f : Filter) (b1 n1 b2 n2 : Z) : Filter :=
  if b1 =? b2 then ResetBetween1 f b1 n1 n2
  else
    let f := if n1 =? 0 then ResetBlock f b1 else ResetBetween1 f b1 n1 65535 in
    let f := foldl ResetBlock f (range (b1 + 1) (b2 - 1)) in
    ResetBetween1 f b2 0 n2.

Definition ResetBetween_rows (f : Filter) (n1 n2 : Z) : option Filter :=
  if n1 =? n2 then Reset_bn f (Z.shiftr n1 16) (Z.land n1 65535)
  else Some (ResetBetween f (Z.shiftr n1 16) (Z.land n1 65535) (Z.shiftr n2 16) (Z.land n2 65535)).

(** A loop whose body can fail. *)
Fixpoint foldM {S A : Type} (step : S -> A -> option S) (s : S) (l : list A) : option S :=
  match l with
  | [] => Some s
  | x :: l' => s' ← step s x; foldM step s' l'
  end.

Definition end_block (f : Filter) (b : Z) : Z :=
  if b =? no_blocks f - 1 then no_of_bits_in_last_block f - 1 else 65535.

(** ** Logical operations between filters; [junk] is the memory the copied blocks land in *)

(** [Reset(Filter &f2)] *)
Definition Reset_filter_step (junk : Z -> Z) (f2 f : Filter) (b : Z) : option Filter :=
  match stat f2 b with
  | FB_FULL => Some (ResetBetween f b 0 b (lst f2 b))
  | FB_EMPTY => Some f
  | FB_MIXED =>
    if is_st (stat f b) FB_FULL then
      k2 ← blk f2 b;
      let k := Not_ (Block_copy junk k2) in
      let new_block_size := bsize f b in
      let k := if lst f b <? new_block_size - 1
               then fst (Reset_between k (lst f b + 1) (new_block_size - 1)) else k in
      Some (set_stat (set_blk f b (Some k)) b FB_MIXED)
    else
      match blk f b with
      | Some _ => k2 ← blk f2 b; Some (on_block f b (fun k => AndNot k k2) ResetBlock)
      | None => Some f
      end
  end.

Definition Reset_filter (junk : Z -> Z) (f f2 : Filter) : option Filter :=
  foldM (Reset_filter_step junk f2) f (range 0 (Z.min (no_blocks f2) (no_blocks f) - 1)).

Definition And_step (junk : Z -> Z) (f2 f : Filter) (b : Z) : option Filter :=
  match stat f2 b with
  | FB_EMPTY => Some (ResetBlock f b)
  | FB_MIXED =>
    f ← (if is_st (stat f b) FB_FULL then
           let old_block_size := lst f b in
           k2 ← blk f2 b;
           let f := set_stat (set_blk f b (Some (Block_copy junk k2))) b FB_MIXED in
           Some (if old_block_size <? end_block f b
                 then ResetBetween f b (old_block_size + 1) b (end_block f b) else f)
         else match blk f b with
              | Some _ => k2 ← blk f2 b; Some (on_block f b (fun k => And_ k k2) ResetBlock)
              | None => Some f
              end);
    Some (mark f b)
  | FB_FULL =>
    Some (if lst f2 b <? end_block f b then ResetBetween f b (lst f2 b + 1) b (end_block f b) else f)
  end.

Definition And (junk : Z -> Z) (f f2 : Filter) : option Filter :=
  foldM (And_step junk f2) f (range 0 (Z.min (no_blocks f2) (no_blocks f) - 1)).

Definition Or_step (junk : Z -> Z) (f2 f : Filter) (b : Z) : option Filter :=
  match stat f2 b with
  | FB_FULL => Some (SetBetween f b 0 b (lst f2 b))
  | FB_EMPTY => Some f
  | FB_MIXED =>
    f ← (if is_st (stat f b) FB_EMPTY then
           k2 ← blk f2 b;
           Some (set_stat (set_blk f b (Some (Block_copy junk k2))) b FB_MIXED)
         else match blk f b with
              | Some _ => k2 ← blk f2 b; Some (on_block f b (fun k => Or_ k k2) SetBlock)
              | None =>
                if lst f b <? end_block f b then
                  let old_block_size := lst f b in
                  k2 ← blk f2 b;
                  let f := set_stat (set_blk f b (Some (Block_copy junk k2))) b FB_MIXED in
                  Some (SetBetween f b 0 b old_block_size)
                else Some f
              end);
    Some (mark f b)
  end.

(** [pack] is -1 for all packs; otherwise only that pack is joined. *)
Definition Or (junk : Z -> Z) (f f2 : Filter) (pack : Z) : option Filter :=
  let mb := Z.min (no_blocks f2) (no_blocks f) in
  if pack =? -1 then foldM (Or_step junk f2) f (range 0 (mb - 1))
  else if pack <? mb then Or_step junk f2 f pack else Some f.

Definition Not_step (f : Filter) (b : Z) : option Filter :=
  match stat f b with
  | FB_FULL =>
    if lst f b <? end_block f b then
      let old_block_size := lst f b in
      let f := set_lst f b (end_block f b) in
      Some (ResetBetween f b 0 b old_block_size)
    else Some (set_stat f b FB_EMPTY)
  | FB_EMPTY => Some (set_lst (set_stat f b FB_FULL) b (end_block f b))
  | FB_MIXED => k ← blk f b; Some (set_blk f b (Some (Not_ k)))
  end.

Definition Not (f : Filter) : option Filter :=
  f ← foldM Not_step f (range 0 (no_blocks f - 1));
  Some (mark_all f).

Definition AndNot_step (junk : Z -> Z) (f2 f : Filter) (b : Z) : option Filter :=
  match stat f2 b with
  | FB_FULL => Some (ResetBetween f b 0 b (lst f2 b))
  | FB_EMPTY => Some f
  | FB_MIXED =>
    if is_st (stat f b) FB_EMPTY then Some f
    else
      f ← (if is_st (stat f b) FB_FULL then
             let old_block_size := lst f b in
             k2 ← blk f2 b;
             let f := set_stat (set_blk f b (Some (Block_copy junk k2))) b FB_MIXED in
             let f := set_blk f b (Some (Not_ (Block_copy junk k2))) in
             Some (if old_block_size <? end_block f b
                   then ResetBetween f b (old_block_size + 1) b (end_block f b) else f)
           else match blk f b with
                | Some _ => k2 ← blk f2 b; Some (on_block f b (fun k => AndNot k k2) ResetBlock)
                | None => Some f
                end);
      Some (mark f b)
  end.

Definition AndNot_filter (junk : Z -> Z) (f f2 : Filter) : option Filter :=
  foldM (AndNot_step junk f2) f (range 0 (Z.min (no_blocks f2) (no_blocks f) - 1)).

(** ** Queries *)

Definition IsEmpty (f : Filter) : bool :=
  forallb (fun b => is_st (stat f b) FB_EMPTY) (range 0 (no_blocks f - 1)).

Definition IsEmpty_b (f : Filter) (b : Z) : bool := is_st (stat f b) FB_EMPTY.

Definition IsFull_b (f : Filter) (b : Z) : bool :=
  is_st (stat f b) FB_FULL && (lst f b =? end_block f b).

Definition IsFull (f : Filter) : bool := forallb (IsFull_b f) (range 0 (no_blocks f - 1)).

(** [Get(_int64 n)] *)
Definition Get_row (f : Filter) (n : Z) : option bool :=
  if no_blocks f =? 0 then Some false else Get_bn f (Z.shiftr n 16) (Z.land n 65535).

(** The last whole pack of an interval that ends at row [nn2] of pack [b2]. *)
Definition full_pack_stop (f : Filter) (b2 nn2 : Z) : Z :=
  if (nn2 =? 65535) || ((b2 =? no_blocks f - 1) && (nn2 =? no_of_bits_in_last_block f - 1))
  then b2 else b2 - 1.

Definition IsEmptyBetween (f : Filter) (n1 n2 : Z) : option bool :=
  if n1 =? n2 then g ← Get_row f n1; Some (negb g)
  else
    let b1 := Z.shiftr n1 16 in
    let b2 := Z.shiftr n2 16 in
    let nn1 := Z.land n1 65535 in
    let nn2 := Z.land n2 65535 in
    if b1 =? b2 then
      match stat f b1 with
      | FB_FULL => Some (lst f b1 <? nn1)
      | FB_EMPTY => Some true
      | FB_MIXED => k ← blk f b1; Some (FilterBlock.IsEmptyBetween k nn1 nn2)
      end
    else
      let start := if nn1 =? 0 then b1 else b1 + 1 in
      let stop := full_pack_stop f b2 nn2 in
      if negb (forallb (fun i => is_st (stat f i) FB_EMPTY) (range start stop)) then Some false
      else
        head ← (if b1 =? start then Some true
                else match stat f b1 with
                     | FB_FULL => Some (negb (nn1 <=? lst f b1))
                     | FB_EMPTY => Some true
                     | FB_MIXED => k ← blk f b1; Some (FilterBlock.IsEmptyBetween k nn1 65535)
                     end);
        if negb head then Some false
        else if b2 =? stop then Some true
        else match stat f b2 with
             | FB_FULL => Some false
             | FB_EMPTY => Some true
             | FB_MIXED => k ← blk f b2; Some (FilterBlock.IsEmptyBetween k 0 nn2)
             end.

Definition IsFullBetween (f : Filter) (n1 n2 : Z) : option bool :=
  if n1 =? n2 then Get_row f n1
  else
    let b1 := Z.shiftr n1 16 in
    let b2 := Z.shiftr n2 16 in
    let nn1 := Z.land n1 65535 in
    let nn2 := Z.land n2 65535 in
    if b1 =? b2 then
      match stat f b1 with
      | FB_FULL => Some (nn2 <=? lst f b1)
      | FB_EMPTY => Some false
      | FB_MIXED => k ← blk f b1; Some (FilterBlock.IsFullBetween k nn1 nn2)
      end
    else
      let start := if nn1 =? 0 then b1 else b1 + 1 in
      let stop := full_pack_stop f b2 nn2 in
      if negb (forallb (IsFull_b f) (range start stop)) then Some false
      else
        head ← (if b1 =? start then Some true
                else if is_st (stat f b1) FB_EMPTY then Some false
                else if IsFull_b f b1 then Some true
                else k ← blk f b1; Some (FilterBlock.IsFullBetween k nn1 65535));
        if negb head then Some false
        else if b2 =? stop then Some true
        else match stat f b2 with
             | FB_EMPTY => Some false
             | FB_FULL => Some (nn2 <=? lst f b2)
             | FB_MIXED => k ← blk f b2; Some (FilterBlock.IsFullBetween k 0 nn2)
             end.

(** One round of the loop of [IsEqual]: a decision, or go on with the next pack. *)
Definition IsEqual_step (f sec : Filter) (b : Z) : option (option bool) :=
  let bstart := Z.shiftr b 16 in
  let bstop := bstart + (if b <? no_blocks f - 1 then 65535 else no_of_bits_in_last_block f - 1) in
  let compare (full mixed : Filter) :=
    r ← IsFullBetween mixed bstart (bstart + lst full b);
    if negb r then Some (Some false)
    else if bstart + lst full b <? bstop then
      e ← IsEmptyBetween mixed (bstart + lst full b + 1) bstop;
      Some (Some e)
    else Some (Some true) in
  if negb (is_st (stat f b) (stat sec b)) then
    if is_st (stat f b) FB_FULL && is_st (stat sec b) FB_MIXED then compare f sec
    else if is_st (stat sec b) FB_FULL && is_st (stat f b) FB_MIXED then compare sec f
    else Some (Some false)
  else if is_st (stat f b) FB_FULL && negb (lst f b =? lst sec b) then Some (Some false)
  else match blk f b with
       | Some k => k2 ← blk sec b; if FilterBlock.IsEqual k k2 then Some None else Some (Some false)
       | None => Some None
       end.

Fixpoint IsEqual_loop (f sec : Filter) (l : list Z) : option bool :=
  match l with
  | [] => Some true
  | b :: l' =>
    r ← IsEqual_step f sec b;
    match r with Some answer => Some answer | None => IsEqual_loop f sec l' end
  end.

Definition IsEqual (f sec : Filter) : option bool :=
  if negb (no_blocks f =? no_blocks sec)
     || negb (no_of_bits_in_last_block f =? no_of_bits_in_last_block sec) then Some false
  else IsEqual_loop f sec (range 0 (no_blocks f - 1)).

(** ** Counting *)

Definition NoOnes_b (f : Filter) (b : Z) : Z :=
  if no_blocks f =? 0 then 0
  else if is_st (stat f b) FB_FULL then lst f b + 1
  else match blk f b with Some k => no_set_bits k | None => 0 end.

Definition NoOnes (f : Filter) : Z :=
  if no_blocks f =? 0 then 0
  else foldl (fun count b =>
                if is_st (stat f b) FB_FULL then count + (lst f b + 1)
                else match blk f b with Some k => count + no_set_bits k | None => count end)
             0 (range 0 (no_blocks f - 1)).

(** [NoOnes(b) + uc] as an unsigned int. *)
Definition NoOnesUncommited (f : Filter) (b : Z) : Z :=
  let uc := if (delayed_block f =? b) && is_st (stat f b) FB_FULL && (0 <=? delayed_stats f)
            then - delayed_stats f - 1 else 0 in
  let uc := if (delayed_block_set f =? b) && is_st (stat f b) FB_EMPTY && (0 <=? delayed_stats_set f)
            then delayed_stats_set f + 1 else uc in
  wrap32 (NoOnes_b f b + uc).

Definition NoOnesBetween (f : Filter) (n1 n2 : Z) : option Z :=
  if n1 =? n2 then g ← Get_row f n1; Some (if (g : bool) then 1 else 0)
  else
    let b1 := Z.shiftr n1 16 in
    let b2 := Z.shiftr n2 16 in
    let nn1 := Z.land n1 65535 in
    let nn2 := Z.land n2 65535 in
    if b1 =? b2 then
      match stat f b1 with
      | FB_FULL => Some (if lst f b1 <? nn1 then 0 else Z.min nn2 (lst f b1) - nn1 + 1)
      | FB_EMPTY => Some 0
      | FB_MIXED => k ← blk f b1; Some (FilterBlock.NoOnesBetween k nn1 nn2)
      end
    else
      let start := if nn1 =? 0 then b1 else b1 + 1 in
      let stop := full_pack_stop f b2 nn2 in
      counter ← foldM (fun counter i =>
                  match stat f i with
                  | FB_MIXED => k ← blk f i; Some (counter + no_set_bits k)
                  | FB_FULL => Some (counter + (lst f i + 1))
                  | FB_EMPTY => Some counter
                  end) 0 (range start stop);
      counter ← (if b1 =? start then Some counter
                 else match stat f b1 with
                      | FB_FULL => Some (if nn1 <=? lst f b1 then counter + (lst f b1 - nn1 + 1) else counter)
                      | FB_EMPTY => Some counter
                      | FB_MIXED => k ← blk f b1; Some (counter + FilterBlock.NoOnesBetween k nn1 65535)
                      end);
      if b2 =? stop then Some counter
      else match stat f b2 with
           | FB_FULL => Some (counter + Z.min (nn2 + 1) (lst f b2 + 1))
           | FB_EMPTY => Some counter
           | FB_MIXED => k ← blk f b2; Some (counter + FilterBlock.NoOnesBetween k 0 nn2)
           end.

Definition NoObj (f : Filter) : Z :=
  Z.shiftl (no_blocks f - (if no_of_bits_in_last_block f =? 0 then 0 else 1)) 16
  + no_of_bits_in_last_block f.

(** ** Growing; [junk] is the unspecified contents of the freshly allocated arrays *)

Definition AddNewBlocks (junk : Z -> Z) (f : Filter) (new_blocks : Z) (value : bool) (new_no_bits_last : Z) : Filter :=
  if 0 <? new_blocks then
    let fresh := range (no_blocks f) (no_blocks f + new_blocks - 1) in
    mkFilter (no_blocks f)
      (block_status f ++ map (fun _ => if value then FB_FULL else FB_EMPTY) fresh)
      (blocks f ++ map (fun _ => None) fresh)
      (no_of_bits_in_last_block f)
      (if track_changes f then was_block_changed f ++ map (fun _ => true) fresh else was_block_changed f)
      (track_changes f)
      (block_last_one f ++
       map (fun i => wrap 16 (if value
                              then if i =? no_blocks f + new_blocks - 1 then new_no_bits_last - 1 else 65535
                              else junk i)) fresh)
      (delayed_stats f) (delayed_block f) (delayed_stats_set f) (delayed_block_set f)
  else f.

(** What [Grow] does with the pack that was the last one. *)
Definition Grow_last (f : Filter) (new_blocks new_bits_in_last bits_added : Z) (value : bool) : option Filter :=
  let l := no_blocks f - 1 in
  let new_size := if new_blocks =? 0 then new_bits_in_last else 0x10000 in
  if value then
    match stat f l with
    | FB_EMPTY =>
      let f := set_stat f l FB_MIXED in
      let f := set_blk f l (Some (Init new_size false)) in
      Some (on_block f l
              (fun k => Set_between k (no_of_bits_in_last_block f) (no_of_bits_in_last_block f + bits_added - 1))
              SetBlock)
    | FB_MIXED => k ← blk f l; k' ← GrowBlock k bits_added true; Some (set_blk f l (Some k'))
    | FB_FULL =>
      if IsFull_b f l then Some (set_lst f l (wrap 16 (if new_blocks =? 0 then new_bits_in_last - 1 else 65535)))
      else
        let k := Init new_size true in
        Some (set_blk (set_stat f l FB_MIXED) l
                (Some (fst (Reset_between k (lst f l + 1) (no_of_bits_in_last_block f - 1)))))
    end
  else if is_st (stat f l) FB_MIXED then
    k ← blk f l; k' ← GrowBlock k bits_added false; Some (set_blk f l (Some k'))
  else Some f.

Definition set_geometry (f : Filter) (nb bits : Z) : Filter :=
  mkFilter nb (block_status f) (blocks f) bits (was_block_changed f) (track_changes f)
    (block_last_one f) (delayed_stats f) (delayed_block f) (delayed_stats_set f) (delayed_block_set f).

Definition Grow (junk : Z -> Z) (f : Filter) (grow_size : Z) (value : bool) : option Filter :=
  if grow_size =? 0 then Some f
  else
    let bits := no_of_bits_in_last_block f in
    let new_bits_in_last := Z.land (bits + grow_size) 0xFFFF in
    let new_bits_in_last := if new_bits_in_last =? 0 then 0x10000 else new_bits_in_last in
    let bits_added := if 0x10000 - bits <? grow_size then 0x10000 - bits else grow_size in
    let new_blocks :=
      if bits =? 0 then swrap 32 (Z.shiftr (grow_size + 0xFFFF) 16)
      else swrap 32 (Z.shiftr (grow_size - (0x10000 - bits) + 0xFFFF) 16) in
    let f := if (0 <? no_blocks f) then mark f (no_blocks f - 1) else f in
    let f := AddNewBlocks junk f new_blocks value new_bits_in_last in
    f ← (if (0 <? no_blocks f) && (0 <? bits_added)
         then Grow_last f new_blocks new_bits_in_last bits_added value else Some f);
    Some (set_geometry f (no_blocks f + new_blocks) new_bits_in_last).

(** ** Delayed operations *)

Definition Commit (f : Filter) : Filter :=
  let f :=
    if -1 <? delayed_block f then
      let f := if is_st (stat f (delayed_block f)) FB_FULL && (0 <=? delayed_stats f)
               then ResetBetween f (delayed_block f) 0 (delayed_block f) (delayed_stats f) else f in
      set_delayed f (-1) (-1) (delayed_stats_set f) (delayed_block_set f)
    else f in
  if -1 <? delayed_block_set f then
    let f := if is_st (stat f (delayed_block_set f)) FB_EMPTY && (0 <=? delayed_stats_set f)
             then SetBetween f (delayed_block_set f) 0 (delayed_block_set f) (delayed_stats_set f) else f in
    set_delayed f (delayed_stats f) (delayed_block f) (-1) (-1)
  else f.

Definition ResetDelayed (f : Filter) (b pos : Z) : option Filter :=
  match stat f b with
  | FB_MIXED => Reset_bn f b pos
  | FB_EMPTY => Some f
  | FB_FULL =>
    let f := if negb (delayed_block f =? b)
             then let f := Commit f in set_delayed f (-1) b (delayed_stats_set f) (delayed_block_set f)
             else f in
    if pos =? delayed_stats f + 1 then
      Some (set_delayed f (delayed_stats f + 1) (delayed_block f) (delayed_stats_set f) (delayed_block_set f))
    else if delayed_stats f + 1 <? pos then
      let f := if 0 <=? delayed_stats f then ResetBetween f b 0 b (delayed_stats f) else f in
      f ← Reset_bn f b pos;
      Some (set_delayed f (-2) (delayed_block f) (delayed_stats_set f) (delayed_block_set f))
    else Some f
  end.

Definition SetDelayed (f : Filter) (b pos : Z) : option Filter :=
  match stat f b with
  | FB_MIXED => Set_bn f b pos
  | FB_FULL => Some f
  | FB_EMPTY =>
    let f := if negb (delayed_block_set f =? b)
             then let f := Commit f in set_delayed f (delayed_stats f) (delayed_block f) (-1) b
             else f in
    if pos =? delayed_stats_set f + 1 then
      Some (set_delayed f (delayed_stats f) (delayed_block f) (delayed_stats_set f + 1) (delayed_block_set f))
    else if delayed_stats_set f + 1 <? pos then
      let f := if 0 <=? delayed_stats_set f then SetBetween f b 0 b (delayed_stats_set f) else f in
      f ← Set_bn f b pos;
      Some (set_delayed f (delayed_stats f) (delayed_block f) (-2) (delayed_block_set f))
    else Some f
  end.
