(* ===== verification/FilterCore.v ===== *)
(** * Row filters: the pack invariant and the row and interval updates

    [pack_denotes f b g]: pack [b] of filter [f] holds the rows [g] and is represented as the
    code requires.  Every update of one pack is shown to turn the rows of that pack into the
    rows asked for, to keep the representation and to leave the other packs alone. *)

From stdpp Require Import option.
From S2P Require Import Prelude BinTools FilterBlock FilterDefs.

(** ** Well-formed representation *)

Record shape (f : Filter) : Prop := {
  sh_nb : 0 <= no_blocks f;
  sh_stat : zlen (block_status f) = no_blocks f;
  sh_blk : zlen (blocks f) = no_blocks f;
  sh_lst : zlen (block_last_one f) = no_blocks f;
  sh_chg : track_changes f = true -> zlen (was_block_changed f) = no_blocks f;
  sh_bits : 0 <= no_of_bits_in_last_block f <= 65536;
  sh_last : 0 < no_blocks f <-> 0 < no_of_bits_in_last_block f
}.

Definition in_packs (f : Filter) (b : Z) : Prop := 0 <= b < no_blocks f.

(** Representation of one pack of [S] rows. *)
Definition pack_rep (S : Z) (s : fb_status) (k : option Block) (l : Z) (g : Z -> bool) : Prop :=
  match s with
  | FB_FULL => k = None /\ 0 <= l < S /\ eq_upto S g (fun m => m <=? l)
  | FB_EMPTY => k = None /\ eq_upto S g (fun _ => false)
  | FB_MIXED => exists k', k = Some k' /\ denotes k' S g /\ 0 < cnt g 0 S < S
  end.

Definition pack_denotes (f : Filter) (b : Z) (g : Z -> bool) : Prop :=
  pack_rep (bsize f b) (stat f b) (blk f b) (lst f b) g.

(** Everything but pack [b] (and its change flag) is the same. *)
Record frame (b : Z) (f f' : Filter) : Prop := {
  fr_shape : shape f';
  fr_nb : no_blocks f' = no_blocks f;
  fr_bits : no_of_bits_in_last_block f' = no_of_bits_in_last_block f;
  fr_track : track_changes f' = track_changes f;
  fr_stat : forall c, c <> b -> stat f' c = stat f c;
  fr_blk : forall c, c <> b -> blk f' c = blk f c;
  fr_lst : forall c, c <> b -> lst f' c = lst f c;
  fr_chg : forall c, WasBlockChanged f c = true -> WasBlockChanged f' c = true;
  fr_ds : delayed_stats f' = delayed_stats f;
  fr_db : delayed_block f' = delayed_block f;
  fr_dss : delayed_stats_set f' = delayed_stats_set f;
  fr_dbs : delayed_block_set f' = delayed_block_set f
}.

Lemma is_st_spec a b : is_st a b = true <-> a = b.
Proof. unfold is_st. apply bool_decide_eq_true. Qed.

Lemma is_st_refl a : is_st a a = true.
Proof. by apply is_st_spec. Qed.
#[export] Hint Rewrite is_st_refl : bh.

(** ** Reads after writes *)

Section Writes.
Context (f : Filter) (Hf : shape f) (b : Z) (Hb : in_packs f b).

Lemma stat_set_stat s c : stat (set_stat f b s) c = if c =? b then s else stat f c.
Proof. unfold stat, set_stat. simpl. apply znth_zupd. rewrite (sh_stat f Hf). done. Qed.

Lemma blk_set_blk k c : blk (set_blk f b k) c = if c =? b then k else blk f c.
Proof. unfold blk, set_blk. simpl. apply znth_zupd. rewrite (sh_blk f Hf). done. Qed.

Lemma lst_set_lst v c : lst (set_lst f b v) c = if c =? b then v else lst f c.
Proof. unfold lst, set_lst. simpl. apply znth_zupd. rewrite (sh_lst f Hf). done. Qed.

Lemma shape_set_stat s : shape (set_stat f b s).
Proof. destruct Hf. split; simpl; rewrite ?zlen_zupd; done. Qed.

Lemma shape_set_blk k : shape (set_blk f b k).
Proof. destruct Hf. split; simpl; rewrite ?zlen_zupd; done. Qed.

Lemma shape_set_lst v : shape (set_lst f b v).
Proof. destruct Hf. split; simpl; rewrite ?zlen_zupd; done. Qed.

Lemma shape_mark : shape (mark f b).
Proof.
  unfold mark. destruct (track_changes f) eqn:E; [|done].
  destruct Hf. split; simpl; rewrite ?zlen_zupd; auto.
Qed.

Lemma shape_set_delayed ds db dss dbs : shape (set_delayed f ds db dss dbs).
Proof. destruct Hf. split; done. Qed.

Lemma frame_refl : frame b f f.
Proof. by split. Qed.

Lemma frame_set_stat s : frame b f (set_stat f b s).
Proof.
  split; try done; [apply shape_set_stat|]. intros c Hc. rewrite stat_set_stat. cmp_solve.
Qed.

Lemma frame_set_blk k : frame b f (set_blk f b k).
Proof.
  split; try done; [apply shape_set_blk|]. intros c Hc. rewrite blk_set_blk. cmp_solve.
Qed.

Lemma frame_set_lst v : frame b f (set_lst f b v).
Proof.
  split; try done; [apply shape_set_lst|]. intros c Hc. rewrite lst_set_lst. cmp_solve.
Qed.

Lemma mark_reads c :
  stat (mark f b) c = stat f c /\ blk (mark f b) c = blk f c /\ lst (mark f b) c = lst f c /\
  bsize (mark f b) c = bsize f c.
Proof. unfold mark. by destruct (track_changes f). Qed.

Lemma frame_mark : frame b f (mark f b).
Proof.
  pose proof shape_mark as Hs. unfold mark in *. destruct (track_changes f) eqn:E; [|by split].
  split; try done. intros c Hc. unfold WasBlockChanged in *. simpl.
  rewrite znth_zupd by (rewrite (sh_chg f Hf E); done). cmp_solve.
Qed.

Lemma mark_changed : track_changes f = true -> WasBlockChanged (mark f b) b = true.
Proof.
  intros E. unfold mark, WasBlockChanged. rewrite E. simpl.
  rewrite znth_zupd_eq; [done|]. rewrite (sh_chg f Hf E). done.
Qed.
End Writes.

#[export] Hint Resolve shape_set_stat shape_set_blk shape_set_lst shape_mark shape_set_delayed : bh.

Lemma frame_trans b f1 f2 f3 : frame b f1 f2 -> frame b f2 f3 -> frame b f1 f3.
Proof.
  intros H12 H23. split.
  - apply H23.
  - by rewrite (fr_nb b f2 f3), (fr_nb b f1 f2).
  - by rewrite (fr_bits b f2 f3), (fr_bits b f1 f2).
  - by rewrite (fr_track b f2 f3), (fr_track b f1 f2).
  - intros c Hc. by rewrite (fr_stat b f2 f3), (fr_stat b f1 f2).
  - intros c Hc. by rewrite (fr_blk b f2 f3), (fr_blk b f1 f2).
  - intros c Hc. by rewrite (fr_lst b f2 f3), (fr_lst b f1 f2).
  - intros c Hc. apply (fr_chg b f2 f3 H23). by apply (fr_chg b f1 f2 H12).
  - by rewrite (fr_ds b f2 f3), (fr_ds b f1 f2).
  - by rewrite (fr_db b f2 f3), (fr_db b f1 f2).
  - by rewrite (fr_dss b f2 f3), (fr_dss b f1 f2).
  - by rewrite (fr_dbs b f2 f3), (fr_dbs b f1 f2).
Qed.

Lemma frame_in_packs b f f' c : frame b f f' -> in_packs f c -> in_packs f' c.
Proof. intros H. unfold in_packs. by rewrite (fr_nb b f f' H). Qed.

Lemma frame_bsize b f f' c : frame b f f' -> bsize f' c = bsize f c.
Proof. intros H. unfold bsize. by rewrite (fr_nb b f f' H), (fr_bits b f f' H). Qed.

Lemma frame_pack b f f' c g : frame b f f' -> c <> b -> pack_denotes f' c g <-> pack_denotes f c g.
Proof.
  intros H Hc. unfold pack_denotes.
  by rewrite (frame_bsize b f f' c H), (fr_stat b f f' H c Hc), (fr_blk b f f' H c Hc), (fr_lst b f f' H c Hc).
Qed.

Lemma bsize_bound f b : shape f -> in_packs f b -> 0 < bsize f b <= 65536.
Proof.
  intros Hf Hb. unfold bsize, in_packs in *. pose proof (sh_bits f Hf). pose proof (sh_last f Hf).
  cmp_solve.
Qed.

Lemma end_block_bsize f b : end_block f b = bsize f b - 1.
Proof. unfold end_block, bsize. cmp_solve. Qed.

#[export] Instance pack_rep_proper S s k l : Proper (eq_upto S ==> iff) (pack_rep S s k l).
Proof.
  intros g h E. destruct s; simpl.
  - by rewrite E.
  - by rewrite E.
  - pose proof (cnt_proper S g h E) as Hc. simpl in Hc. rewrite Hc.
    split; intros (k' & ? & Hd & ?); exists k'; (split; [done|split; [|done]]); first [by rewrite <- E | by rewrite E].
Qed.

#[export] Instance pack_denotes_proper f b : Proper (eq_upto (bsize f b) ==> iff) (pack_denotes f b).
Proof. intros g h E. unfold pack_denotes. by rewrite E. Qed.

Lemma wrap16_small x : 0 <= x <= 65535 -> wrap 16 x = x.
Proof. intros. apply wrap_id. unfold is_word. lia. Qed.

(** ** Reading a pack after a series of writes *)

Section Reads.
Context (f : Filter) (b c : Z).

Lemma stat_set_blk k : stat (set_blk f b k) c = stat f c. Proof. done. Qed.
Lemma stat_set_lst v : stat (set_lst f b v) c = stat f c. Proof. done. Qed.
Lemma blk_set_stat s : blk (set_stat f b s) c = blk f c. Proof. done. Qed.
Lemma blk_set_lst v : blk (set_lst f b v) c = blk f c. Proof. done. Qed.
Lemma lst_set_stat s : lst (set_stat f b s) c = lst f c. Proof. done. Qed.
Lemma lst_set_blk k : lst (set_blk f b k) c = lst f c. Proof. done. Qed.
Lemma bsize_set_stat s : bsize (set_stat f b s) c = bsize f c. Proof. done. Qed.
Lemma bsize_set_blk k : bsize (set_blk f b k) c = bsize f c. Proof. done. Qed.
Lemma bsize_set_lst v : bsize (set_lst f b v) c = bsize f c. Proof. done. Qed.
Lemma stat_mark : stat (mark f b) c = stat f c. Proof. apply mark_reads. Qed.
Lemma blk_mark : blk (mark f b) c = blk f c. Proof. apply mark_reads. Qed.
Lemma lst_mark : lst (mark f b) c = lst f c. Proof. apply mark_reads. Qed.
Lemma bsize_mark : bsize (mark f b) c = bsize f c. Proof. apply mark_reads. Qed.

Lemma in_packs_set_stat s : in_packs f c -> in_packs (set_stat f b s) c. Proof. done. Qed.
Lemma in_packs_set_blk k : in_packs f c -> in_packs (set_blk f b k) c. Proof. done. Qed.
Lemma in_packs_set_lst v : in_packs f c -> in_packs (set_lst f b v) c. Proof. done. Qed.
Lemma in_packs_mark : in_packs f c -> in_packs (mark f b) c.
Proof. unfold in_packs, mark. by destruct (track_changes f). Qed.

Context (Hf : shape f) (Hb : in_packs f b).
Lemma stat_set_stat_eq s : stat (set_stat f b s) b = s.
Proof. rewrite stat_set_stat by done. by rewrite Z.eqb_refl. Qed.
Lemma blk_set_blk_eq k : blk (set_blk f b k) b = k.
Proof. rewrite blk_set_blk by done. by rewrite Z.eqb_refl. Qed.
Lemma lst_set_lst_eq v : lst (set_lst f b v) b = v.
Proof. rewrite lst_set_lst by done. by rewrite Z.eqb_refl. Qed.
End Reads.

#[export] Hint Resolve in_packs_set_stat in_packs_set_blk in_packs_set_lst in_packs_mark : bh.

Create Rewrite HintDb frd.
#[export] Hint Rewrite stat_set_blk stat_set_lst blk_set_stat blk_set_lst lst_set_stat lst_set_blk
  bsize_set_stat bsize_set_blk bsize_set_lst stat_mark blk_mark lst_mark bsize_mark : frd.
#[export] Hint Rewrite stat_set_stat_eq blk_set_blk_eq lst_set_lst_eq using (auto 12 with bh) : frd.

Ltac frd := autorewrite with frd.

(** A write of one pack followed by another write of it. *)
Lemma frame_step b f f1 f2 : frame b f f1 -> (shape f1 -> in_packs f1 b -> frame b f1 f2) ->
  in_packs f b -> frame b f f2.
Proof.
  intros H1 H2 Hb. apply (frame_trans b f f1 f2 H1). apply H2; [apply H1|].
  by apply (frame_in_packs b f f1).
Qed.

(** Closes [frame b f (chain of writes to pack b)]. *)
Ltac frame_tac :=
  repeat match goal with
  | |- frame ?b ?f ?f => apply frame_refl; auto 12 with bh
  | |- frame ?b ?f (mark ?f' ?b) => apply (frame_step b f f'); [|intros; by apply frame_mark|auto 12 with bh]
  | |- frame ?b ?f (set_stat ?f' ?b _) => apply (frame_step b f f'); [|intros; by apply frame_set_stat|auto 12 with bh]
  | |- frame ?b ?f (set_blk ?f' ?b _) => apply (frame_step b f f'); [|intros; by apply frame_set_blk|auto 12 with bh]
  | |- frame ?b ?f (set_lst ?f' ?b _) => apply (frame_step b f f'); [|intros; by apply frame_set_lst|auto 12 with bh]
  end.

(** What an update of pack [b] to the rows [h] is. *)
Record pack_update (f f' : Filter) (b : Z) (h : Z -> bool) : Prop := {
  pu_frame : frame b f f';
  pu_pack : pack_denotes f' b h;
  pu_changed : track_changes f = true -> WasBlockChanged f' b = true
}.

Lemma pack_update_ext f f' b g h :
  pack_update f f' b g -> eq_upto (bsize f b) g h -> pack_update f f' b h.
Proof.
  intros [Hfr Hp Hc] E. split; [done| |done].
  assert (bsize f' b = bsize f b) as Es by by apply (frame_bsize b).
  rewrite <- Es in E. by rewrite <- E.
Qed.

(** An update may be preceded by other writes of the same pack. *)
Lemma pack_update_pre f f1 f2 b h :
  frame b f f1 -> pack_update f1 f2 b h -> pack_update f f2 b h.
Proof.
  intros H [Hfr Hp Hc]. split; [by apply (frame_trans b f f1 f2)|done|].
  intros Ht. apply Hc. by rewrite (fr_track b f f1 H).
Qed.

(** ... and be followed by the change flag. *)
Lemma pack_update_mark f f' b h :
  in_packs f b -> frame b f f' -> pack_denotes f' b h -> pack_update f (mark f' b) b h.
Proof.
  intros Hb Hfr Hp. assert (in_packs f' b) by by apply (frame_in_packs b f f').
  pose proof (fr_shape b f f' Hfr) as Hs. split.
  - apply (frame_trans b f f'); [done|]. by apply frame_mark.
  - unfold pack_denotes in *. frd. done.
  - intros Ht. apply mark_changed; [done|done|]. by rewrite (fr_track b f f' Hfr).
Qed.

(** ** Whole packs *)

Section WholePack.
Context (f : Filter) (Hf : shape f) (b : Z) (Hb : in_packs f b).

Lemma drop_block f0 :
  shape f0 -> in_packs f0 b ->
  let f' := match blk f0 b with Some _ => DeleteBlock f0 b | None => f0 end in
  frame b f0 f' /\ blk f' b = None /\ stat f' b = stat f0 b /\ lst f' b = lst f0 b.
Proof.
  intros Hs Hi f'. subst f'. destruct (blk f0 b) eqn:E; unfold DeleteBlock; frd.
  - split; [frame_tac|done].
  - split; [frame_tac|done].
Qed.

Lemma SetBlock_update : pack_update f (SetBlock f b) b (fun _ => true).
Proof.
  unfold SetBlock. set (f0 := set_lst _ b _).
  assert (frame b f f0) as Hfr by (subst f0; frame_tac).
  destruct (drop_block f0) as (Hd & Hk & Hst & Hl); [apply Hfr|by apply (frame_in_packs b f)|].
  apply pack_update_mark; [done|by apply (frame_trans b f f0)|].
  pose proof (bsize_bound f b Hf Hb) as Hbs.
  assert (lst f0 b = bsize f b - 1) as El.
  { subst f0. frd. change (no_blocks (set_stat f b FB_FULL)) with (no_blocks f).
    change (no_of_bits_in_last_block (set_stat f b FB_FULL)) with (no_of_bits_in_last_block f).
    unfold bsize in *. destruct (b =? no_blocks f - 1); apply wrap16_small; lia. }
  unfold pack_denotes. rewrite (frame_bsize b f0), (frame_bsize b f) by done.
  rewrite Hst, Hk, Hl, El. assert (stat f0 b = FB_FULL) as -> by (subst f0; frd; done).
  split; [done|]. split; [lia|]. intros m Hm. cmp_solve.
Qed.

Lemma ResetBlock_update : pack_update f (ResetBlock f b) b (fun _ => false).
Proof.
  unfold ResetBlock. set (f0 := set_stat _ b _).
  assert (frame b f f0) as Hfr by (subst f0; frame_tac).
  destruct (drop_block f0) as (Hd & Hk & Hst & Hl); [apply Hfr|by apply (frame_in_packs b f)|].
  apply pack_update_mark; [done|by apply (frame_trans b f f0)|].
  unfold pack_denotes. rewrite Hst, Hk. assert (stat f0 b = FB_EMPTY) as -> by (subst f0; frd; done).
  split; [done|]. by intros m Hm.
Qed.
End WholePack.

(** ** Operations on the block of a mixed pack *)

Lemma on_block_none f b op fin : blk f b = None -> on_block f b op fin = f.
Proof. intros E. unfold on_block. by rewrite E. Qed.

(** The block operation makes the rows [h], or reports that the pack is to be finished as the
    constant rows [v]. *)
Lemma on_block_mixed f b k op fin h v :
  shape f -> in_packs f b -> stat f b = FB_MIXED -> blk f b = Some k ->
  (forall f1, shape f1 -> in_packs f1 b -> pack_update f1 (fin f1 b) b (fun _ => v)) ->
  (snd (op k) = false -> denotes (fst (op k)) (bsize f b) h /\ 0 < cnt h 0 (bsize f b) < bsize f b) ->
  (snd (op k) = true -> eq_upto (bsize f b) (fun _ => v) h) ->
  frame b f (on_block f b op fin) /\ pack_denotes (on_block f b op fin) b h.
Proof.
  intros Hs Hb Est Ek Hfin Hno Hyes. unfold on_block. rewrite Ek. destruct (op k) as [k' flag].
  simpl in *. assert (frame b f (set_blk f b (Some k'))) as Hfr by frame_tac. destruct flag.
  - destruct (Hfin (set_blk f b (Some k'))) as [Hf2 Hp _]; [auto with bh|auto with bh|].
    split; [by apply (frame_trans b f _ _ Hfr)|].
    specialize (Hyes eq_refl).
    assert (bsize (fin (set_blk f b (Some k')) b) b = bsize f b) as E
      by (rewrite (frame_bsize b _ _ b Hf2); done).
    rewrite <- E in Hyes. by rewrite <- Hyes.
  - split; [done|]. unfold pack_denotes. frd. rewrite Est. exists k'. split; [done|]. by apply Hno.
Qed.

Definition SetBlock_fin b : forall f1, shape f1 -> in_packs f1 b -> pack_update f1 (SetBlock f1 b) b (fun _ => true) :=
  fun f1 Hs Hb => SetBlock_update f1 Hs b Hb.
Definition ResetBlock_fin b : forall f1, shape f1 -> in_packs f1 b -> pack_update f1 (ResetBlock f1 b) b (fun _ => false) :=
  fun f1 Hs Hb => ResetBlock_update f1 Hs b Hb.

(** The finishing rule of the setting operations: the block reports "full". *)
Lemma on_block_set f b k op h :
  shape f -> in_packs f b -> stat f b = FB_MIXED -> blk f b = Some k ->
  denotes (fst (op k)) (bsize f b) h ->
  snd (op k) = (cnt h 0 (bsize f b) =? bsize f b) ->
  (exists m, 0 <= m < bsize f b /\ h m = true) ->
  frame b f (on_block f b op SetBlock) /\ pack_denotes (on_block f b op SetBlock) b h.
Proof.
  intros Hs Hb Est Ek Hd Hfl (m & Hm & Ehm). pose proof (bsize_bound f b Hs Hb).
  apply (on_block_mixed f b k op SetBlock h true); auto using SetBlock_fin.
  - intros E. rewrite E in Hfl. symmetry in Hfl. apply Z.eqb_neq in Hfl. split; [done|].
    pose proof (cnt_bounds h 0 (bsize f b)).
    destruct (Z.eq_dec (cnt h 0 (bsize f b)) 0) as [Ez|]; [|lia].
    rewrite cnt_zero in Ez. rewrite Ez in Ehm by done. done.
  - intros E. rewrite E in Hfl. symmetry in Hfl. apply Z.eqb_eq in Hfl. intros i Hi.
    symmetry. apply (proj1 (cnt_full h 0 (bsize f b) ltac:(lia))); lia.
Qed.

(** The finishing rule of the clearing operations: the block reports "empty". *)
Lemma on_block_reset f b k op h :
  shape f -> in_packs f b -> stat f b = FB_MIXED -> blk f b = Some k ->
  (snd (op k) = true <-> cnt h 0 (bsize f b) = 0) ->
  (snd (op k) = false -> denotes (fst (op k)) (bsize f b) h) ->
  (exists m, 0 <= m < bsize f b /\ h m = false) ->
  frame b f (on_block f b op ResetBlock) /\ pack_denotes (on_block f b op ResetBlock) b h.
Proof.
  intros Hs Hb Est Ek Hfl Hd (m & Hm & Ehm). pose proof (bsize_bound f b Hs Hb).
  apply (on_block_mixed f b k op ResetBlock h false); auto using ResetBlock_fin.
  - intros E. split; [by apply Hd|]. pose proof (cnt_bounds h 0 (bsize f b)). split.
    + destruct (Z.eq_dec (cnt h 0 (bsize f b)) 0) as [Ez|]; [|lia]. apply Hfl in Ez. congruence.
    + destruct (Z.eq_dec (cnt h 0 (bsize f b)) (bsize f b)) as [Ez|]; [|lia].
      pose proof (proj1 (cnt_full h 0 (bsize f b) ltac:(lia)) ltac:(lia) m Hm). congruence.
  - intros E. apply Hfl in E. rewrite cnt_zero in E. intros i Hi. symmetry. by apply E.
Qed.

(** ** Setting one row *)

Section OneRow.
Context (f : Filter) (Hf : shape f) (b : Z) (Hb : in_packs f b) (g : Z -> bool) (n : Z).
Context (Hg : pack_denotes f b g) (Hn : 0 <= n < bsize f b).

Let S := bsize f b.

Lemma denotes_fresh v : denotes (Init S v) S (fun _ => v).
Proof. apply denotes_Init. by apply bsize_bound. Qed.

(** The part after the representation has been prepared. *)
Lemma Set_row_on_block f1 k g1 :
  frame b f f1 -> stat f1 b = FB_MIXED -> blk f1 b = Some k -> denotes k S g1 ->
  pack_update f (mark (on_block f1 b (fun k => Set_n k n) SetBlock) b) b (fun m => (m =? n) || g1 m).
Proof.
  intros Hfr Est Ek Hd. assert (bsize f1 b = S) as ES by by apply (frame_bsize b).
  assert (in_packs f1 b) by by apply (frame_in_packs b f).
  pose proof (denotes_Set_n k S g1 n Hd Hn) as Hd'.
  destruct (on_block_set f1 b k (fun k => Set_n k n) (fun m => (m =? n) || g1 m)) as [Hfr2 Hp]; try done.
  - apply Hfr.
  - by rewrite ES.
  - rewrite ES. rewrite (Set_n_flag k S g1 n Hd Hn). by rewrite (denotes_count _ _ _ Hd').
  - exists n. rewrite ES, Z.eqb_refl. done.
  - apply pack_update_mark; [done|by apply (frame_trans b f f1)|done].
Qed.

Lemma Set_bn_update :
  exists f', Set_bn f b n = Some f' /\ pack_update f f' b (fun m => (m =? n) || g m).
Proof.
  pose proof (bsize_bound f b Hf Hb) as HS. unfold Set_bn. unfold pack_denotes in Hg.
  destruct (stat f b) eqn:Est; cbn [pack_rep] in Hg.
  - (* full: ones up to the last one *)
    destruct Hg as (Ek & Hl & Eg). rewrite is_st_refl. cbn [andb].
    destruct (Z.eqb_spec n (lst f b + 1)) as [En|En].
    + destruct (Z.ltb_spec (lst f b + 1) n); [lia|]. cbn [orb].
      frd. rewrite Est. change (is_st FB_FULL FB_EMPTY) with false. cbn [mbind option_bind].
      eexists. split; [reflexivity|]. rewrite on_block_none by (frd; done).
      apply pack_update_mark; [done|frame_tac|]. unfold pack_denotes. frd. rewrite Est.
      rewrite wrap16_small by lia. split; [done|]. split; [lia|].
      intros m Hm. rewrite Eg by done. cmp_solve.
    + destruct (Z.ltb_spec (lst f b + 1) n) as [Hlt|Hge]; cbn [orb].
      * destruct (Z.eqb_spec n 0); [lia|]. frd. cbn [mbind option_bind].
        eexists. split; [reflexivity|].
        pose proof (denotes_Set_between (Init S false) S _ 0 (lst f b) (denotes_fresh false)
                      ltac:(lia) ltac:(lia)) as Hd.
        refine (pack_update_ext _ _ _ _ _ (Set_row_on_block _ _ _ _ _ _ Hd) _); [frame_tac| | |].
        -- by frd.
        -- by frd.
        -- intros m Hm. rewrite Eg by done. unfold within. cmp_solve.
      * rewrite Est. change (is_st FB_FULL FB_EMPTY) with false. cbn [mbind option_bind].
        eexists. split; [reflexivity|]. rewrite on_block_none by done.
        apply pack_update_mark; [done|frame_tac|]. unfold pack_denotes. rewrite Est.
        split; [done|]. split; [done|]. intros m Hm. rewrite Eg by done. cmp_solve.
  - (* empty *)
    destruct Hg as (Ek & Eg). change (is_st FB_EMPTY FB_FULL) with false. cbn [andb orb].
    rewrite Est, is_st_refl. destruct (Z.eqb_spec n 0) as [En|En]; cbn [mbind option_bind].
    + eexists. split; [reflexivity|]. rewrite on_block_none by (frd; done).
      apply pack_update_mark; [done|frame_tac|]. unfold pack_denotes. frd.
      split; [done|]. split; [lia|]. intros m Hm. rewrite Eg by done. cmp_solve.
    + eexists. split; [reflexivity|].
      refine (pack_update_ext _ _ _ _ _ (Set_row_on_block _ _ _ _ _ _ (denotes_fresh false)) _); [frame_tac| | |].
      * by frd.
      * by frd.
      * intros m Hm. by rewrite Eg.
  - (* mixed *)
    destruct Hg as (k & Ek & Hd & Hc). change (is_st FB_MIXED FB_FULL) with false. cbn [andb orb].
    rewrite Est. change (is_st FB_MIXED FB_EMPTY) with false. cbn [mbind option_bind].
    eexists. split; [reflexivity|]. by apply (Set_row_on_block f k g); [frame_tac|..].
Qed.

Lemma Reset_row_on_block f1 k g1 :
  frame b f f1 -> stat f1 b = FB_MIXED -> blk f1 b = Some k -> denotes k S g1 ->
  frame b f (on_block f1 b (fun k => Reset_n k n) ResetBlock) /\
  pack_denotes (on_block f1 b (fun k => Reset_n k n) ResetBlock) b (fun m => negb (m =? n) && g1 m).
Proof.
  intros Hfr Est Ek Hd. assert (bsize f1 b = S) as ES by by apply (frame_bsize b).
  assert (in_packs f1 b) by by apply (frame_in_packs b f).
  pose proof (denotes_Reset_n k S g1 n Hd Hn) as Hd'.
  destruct (on_block_reset f1 b k (fun k => Reset_n k n) (fun m => negb (m =? n) && g1 m)) as [Hfr2 Hp]; try done.
  - apply Hfr.
  - rewrite ES. rewrite Reset_n_flag, Z.eqb_eq. by rewrite (denotes_count _ _ _ Hd').
  - by rewrite ES.
  - exists n. rewrite ES, Z.eqb_refl. done.
  - split; [by apply (frame_trans b f f1)|done].
Qed.

(** A full prefix longer than the row: the block is built full, the row cleared and then the
    positions beyond the prefix. *)
Lemma Reset_bn_prefix :
  stat f b = FB_FULL -> n < lst f b < S -> blk f b = None -> eq_upto S g (fun m => m <=? lst f b) ->
  exists f', Reset_bn f b n = Some f' /\ pack_update f f' b (fun m => negb (m =? n) && g m).
Proof.
  intros Est Hl Ek Eg. pose proof (bsize_bound f b Hf Hb) as HS. unfold Reset_bn. rewrite Est, is_st_refl.
  destruct (Z.eqb_spec n (lst f b)); [lia|]. destruct (Z.ltb_spec n (lst f b)); [|lia]. cbn [andb negb].
  set (f1 := set_blk _ b _). assert (frame b f f1) as Hfr by (subst f1; frame_tac).
  assert (blk f1 b = Some (Init S true) /\ stat f1 b = FB_MIXED) as [Ek1 Est1] by (subst f1; frd; done).
  rewrite Ek1.
  pose proof (denotes_Reset_n _ S _ n (denotes_fresh true) Hn) as Hd1.
  assert (on_block f1 b (fun k => Reset_n k n) ResetBlock = set_blk f1 b (Some (fst (Reset_n (Init S true) n)))) as ->.
  { unfold on_block. rewrite Ek1. rewrite (surjective_pairing (Reset_n _ n)), Reset_n_flag.
    cbn [fst snd]. rewrite (denotes_zero _ _ _ Hd1).
    match goal with |- context [cnt ?p 0 S] => destruct (Z.eqb_spec (cnt p 0 S) 0) as [Ez|]; [|done] end.
    rewrite cnt_zero in Ez. specialize (Ez (lst f b) ltac:(lia)). simpl in Ez.
    destruct (Z.eqb_spec (lst f b) n); [lia|done]. }
  set (k1 := fst (Reset_n (Init S true) n)) in *. set (f2 := set_blk f1 b (Some k1)).
  assert (frame b f f2) as Hfr2 by (subst f2 f1; frame_tac).
  assert (in_packs f2 b) by by apply (frame_in_packs b f).
  assert (shape f1) by apply Hfr. assert (in_packs f1 b) by by apply (frame_in_packs b f).
  assert (blk f2 b = Some k1 /\ stat f2 b = FB_MIXED) as [Ek2 Est2] by (subst f2; frd; done).
  set (h := fun m => negb (m =? n) && g m).
  assert (0 < cnt h 0 S < S) as Hch.
  { pose proof (cnt_bounds h 0 S). split.
    - destruct (Z.eq_dec (cnt h 0 S) 0) as [Ez|]; [|lia]. rewrite cnt_zero in Ez.
      specialize (Ez (lst f b) ltac:(lia)). unfold h in Ez. rewrite Eg in Ez by lia. revert Ez. cmp_solve.
    - destruct (Z.eq_dec (cnt h 0 S) S) as [Ez|]; [|lia].
      pose proof (proj1 (cnt_full h 0 S ltac:(lia)) ltac:(lia) n Hn) as Hx. unfold h in Hx.
      rewrite Z.eqb_refl in Hx. done. }
  assert (forall k, denotes k S h -> pack_update f (mark (set_blk f2 b (Some k)) b) b h) as Hfinish.
  { intros k Hk. apply pack_update_mark; [done|apply (frame_trans b f f2); [done|frame_tac]|].
    - apply Hfr2.
    - unfold pack_denotes. rewrite bsize_set_blk, stat_set_blk, blk_set_blk_eq by (done || apply Hfr2).
      rewrite Est2, (frame_bsize b f f2) by done. exists k. done. }
  assert (no_blocks f2 = no_blocks f /\ no_of_bits_in_last_block f2 = no_of_bits_in_last_block f) as [Enb Ebits] by done.
  rewrite Enb, Ebits. destruct (Z.eqb_spec (lst f b) (-1)); [lia|]. cbn [negb andb].
  assert (negb (lst f b =? 65535) && ((b <? no_blocks f - 1) || negb (lst f b =? no_of_bits_in_last_block f - 1))
          = (lst f b <? S - 1)) as ->.
  { unfold S, bsize, in_packs in *. pose proof (sh_bits f Hf). revert Hl. cmp_solve. }
  assert ((if b <? no_blocks f - 1 then 65535 else no_of_bits_in_last_block f - 1) = S - 1) as ->.
  { unfold S, bsize, in_packs in *. cmp_solve. }
  destruct (Z.ltb_spec (lst f b) (S - 1)) as [Hlt|Hge].
  - rewrite Ek2. cbn [mbind option_bind]. eexists. split; [reflexivity|]. apply Hfinish.
    assert (eq_upto S (minus (fun m => negb (m =? n) && true) (lst f b + 1) (S - 1)) h) as E.
    { intros m Hm. unfold h, minus, within. rewrite Eg by done. cmp_solve. }
    rewrite <- E. apply denotes_Reset_between; [done|lia|lia|].
    pose proof (cnt_proper S _ _ E) as Hce. simpl in Hce. rewrite Hce. lia.
  - cbn [mbind option_bind]. eexists. split; [reflexivity|].
    assert (eq_upto S (fun m => negb (m =? n) && true) h) as E.
    { intros m Hm. unfold h. rewrite Eg by done. cmp_solve. }
    apply pack_update_mark; [done|done|]. unfold pack_denotes. rewrite (frame_bsize b f f2) by done.
    rewrite Est2, Ek2. exists k1. split; [done|]. split; [by rewrite <- E|done].
Qed.

Lemma Reset_bn_update :
  exists f', Reset_bn f b n = Some f' /\ pack_update f f' b (fun m => negb (m =? n) && g m).
Proof.
  pose proof (bsize_bound f b Hf Hb) as HS. pose proof Hg as Hg'. unfold pack_denotes in Hg'.
  destruct (stat f b) eqn:Est; cbn [pack_rep] in Hg'.
  - destruct Hg' as (Ek & Hl & Eg). destruct (Z.lt_trichotomy n (lst f b)) as [Hlt|[En|Hgt]].
    + apply Reset_bn_prefix; [done|lia|done|done].
    + unfold Reset_bn. rewrite Est, is_st_refl, En, Z.eqb_refl. cbn [andb negb].
      destruct (Z.eqb_spec (lst f b) 0) as [E0|E0]; frd; rewrite Ek; cbn [mbind option_bind];
        (eexists; split; [reflexivity|]); (apply pack_update_mark; [done|frame_tac|]);
        unfold pack_denotes; frd; rewrite ?Est.
      * split; [done|]. intros m Hm. rewrite Eg by done. cmp_solve.
      * rewrite wrap16_small by lia. split; [done|]. split; [lia|].
        intros m Hm. rewrite Eg by done. cmp_solve.
    + unfold Reset_bn. rewrite Est, is_st_refl. destruct (Z.eqb_spec n (lst f b)); [lia|].
      destruct (Z.ltb_spec n (lst f b)); [lia|]. cbn [andb negb]. rewrite Ek. cbn [mbind option_bind].
      eexists. split; [reflexivity|]. apply pack_update_mark; [done|frame_tac|].
      unfold pack_denotes. rewrite Est. split; [done|]. split; [done|].
      intros m Hm. rewrite Eg by done. cmp_solve.
  - destruct Hg' as (Ek & Eg). unfold Reset_bn. rewrite Est. change (is_st FB_EMPTY FB_FULL) with false.
    cbn [andb]. rewrite Ek. cbn [mbind option_bind]. eexists. split; [reflexivity|].
    apply pack_update_mark; [done|frame_tac|]. unfold pack_denotes. rewrite Est. split; [done|].
    intros m Hm. rewrite Eg by done. by rewrite andb_false_r.
  - destruct Hg' as (k & Ek & Hd & Hc). unfold Reset_bn. rewrite Est. change (is_st FB_MIXED FB_FULL) with false.
    cbn [andb]. rewrite Ek. change (-1 =? -1) with true. cbn [negb andb mbind option_bind].
    eexists. split; [reflexivity|].
    destruct (Reset_row_on_block f k g) as [Hfr Hp]; [frame_tac|done..|].
    by apply pack_update_mark.
Qed.
End OneRow.

(** ** Intervals inside one pack *)

Section OnePack.
Context (f : Filter) (Hf : shape f) (b : Z) (Hb : in_packs f b) (g : Z -> bool) (n1 n2 : Z).
Context (Hg : pack_denotes f b g) (Hn : 0 <= n1 <= n2) (Hn2 : n2 < bsize f b).

Let S := bsize f b.

Lemma fresh_block v : denotes (Init S v) S (fun _ => v).
Proof. apply denotes_Init. by apply bsize_bound. Qed.

Lemma prefix_block l : 0 <= l < S -> denotes (fst (Set_between (Init S false) 0 l)) S (fun m => m <=? l).
Proof.
  intros Hl. refine (denotes_ext _ _ _ _ (denotes_Set_between _ _ _ 0 l (fresh_block false) ltac:(lia) ltac:(lia)) _).
  intros m Hm. unfold within. cmp_solve.
Qed.

Lemma Set_interval_on_block f1 k g1 :
  frame b f f1 -> stat f1 b = FB_MIXED -> blk f1 b = Some k -> denotes k S g1 ->
  pack_update f (mark (on_block f1 b (fun k => Set_between k n1 n2) SetBlock) b) b
              (fun m => within n1 n2 m || g1 m).
Proof.
  intros Hfr Est Ek Hd. assert (bsize f1 b = S) as ES by by apply (frame_bsize b).
  assert (in_packs f1 b) by by apply (frame_in_packs b f).
  destruct (on_block_set f1 b k (fun k => Set_between k n1 n2) (fun m => within n1 n2 m || g1 m)) as [Hfr2 Hp]; try done.
  - apply Hfr.
  - rewrite ES. apply denotes_Set_between; [done|lia|done].
  - rewrite ES. apply Set_between_flag; [done|lia|done].
  - exists n1. rewrite ES. split; [unfold S; lia|]. unfold within. cmp_solve.
  - apply pack_update_mark; [done|by apply (frame_trans b f f1)|done].
Qed.

Lemma SetBetween1_update : pack_update f (SetBetween1 f b n1 n2) b (fun m => within n1 n2 m || g m).
Proof.
  pose proof (bsize_bound f b Hf Hb) as HS. unfold SetBetween1. pose proof Hg as Hg'. unfold pack_denotes in Hg'.
  destruct (stat f b) eqn:Est; cbn [pack_rep] in Hg'.
  - destruct Hg' as (Ek & Hl & Eg). rewrite is_st_refl, orb_true_r. cbn [andb].
    destruct (Z.leb_spec n1 (lst f b + 1)) as [Hle|Hgt].
    + rewrite on_block_none by (frd; done). apply pack_update_mark; [done|frame_tac|].
      unfold pack_denotes. frd. rewrite Est, wrap16_small by lia. split; [done|]. split; [lia|].
      intros m Hm. rewrite Eg by done. unfold within. cmp_solve.
    + destruct (Z.eqb_spec n1 0); [lia|].
      refine (pack_update_ext _ _ _ _ _ (Set_interval_on_block _ _ _ _ _ _ (prefix_block (lst f b) Hl)) _); [frame_tac| | |].
      * by frd.
      * by frd.
      * intros m Hm. by rewrite Eg.
  - destruct Hg' as (Ek & Eg). change (is_st FB_EMPTY FB_FULL) with false. rewrite is_st_refl. cbn [andb orb].
    destruct (Z.eqb_spec n1 0) as [E0|E0].
    + rewrite on_block_none by (frd; done). apply pack_update_mark; [done|frame_tac|].
      unfold pack_denotes. frd. rewrite wrap16_small by lia. split; [done|]. split; [lia|].
      intros m Hm. rewrite Eg by done. unfold within. cmp_solve.
    + refine (pack_update_ext _ _ _ _ _ (Set_interval_on_block _ _ _ _ _ _ (fresh_block false)) _); [frame_tac| | |].
      * by frd.
      * by frd.
      * intros m Hm. by rewrite Eg.
  - destruct Hg' as (k & Ek & Hd & Hc). change (is_st FB_MIXED FB_FULL) with false.
    change (is_st FB_MIXED FB_EMPTY) with false. cbn [andb orb].
    by apply (Set_interval_on_block f k g); [frame_tac|..].
Qed.

Lemma Reset_interval_on_block f1 k g1 :
  frame b f f1 -> stat f1 b = FB_MIXED -> blk f1 b = Some k -> denotes k S g1 ->
  pack_update f (mark (on_block f1 b (fun k => Reset_between k n1 n2) ResetBlock) b) b (minus g1 n1 n2).
Proof.
  intros Hfr Est Ek Hd. assert (bsize f1 b = S) as ES by by apply (frame_bsize b).
  assert (in_packs f1 b) by by apply (frame_in_packs b f).
  pose proof (Reset_between_flag k S g1 n1 n2 Hd ltac:(lia) ltac:(done)) as Hfl.
  destruct (on_block_reset f1 b k (fun k => Reset_between k n1 n2) (minus g1 n1 n2)) as [Hfr2 Hp]; try done.
  - apply Hfr.
  - rewrite ES, Hfl. apply Z.eqb_eq.
  - rewrite ES. intros E. rewrite E in Hfl. symmetry in Hfl. apply Z.eqb_neq in Hfl.
    by apply denotes_Reset_between.
  - exists n1. rewrite ES. split; [unfold S; lia|]. unfold minus, within. destruct (g1 n1); cmp_solve.
  - apply pack_update_mark; [done|by apply (frame_trans b f f1)|done].
Qed.

Lemma ResetBetween1_update : pack_update f (ResetBetween1 f b n1 n2) b (minus g n1 n2).
Proof.
  pose proof (bsize_bound f b Hf Hb) as HS. unfold ResetBetween1. pose proof Hg as Hg'. unfold pack_denotes in Hg'.
  destruct (stat f b) eqn:Est; cbn [pack_rep] in Hg'.
  - destruct Hg' as (Ek & Hl & Eg). rewrite is_st_refl.
    destruct (Z.leb_spec (lst f b) n2) as [Hle|Hgt]; rewrite ?andb_true_r, ?andb_false_r.
    + destruct (Z.ltb_spec 0 n1).
      * rewrite on_block_none by (frd; done). apply pack_update_mark; [done|frame_tac|].
        unfold pack_denotes. frd. rewrite Est, wrap16_small by lia. split; [done|]. split; [lia|].
        intros m Hm. unfold minus, within. rewrite Eg by done. cmp_solve.
      * destruct (Z.eqb_spec n1 0); [|lia].
        rewrite on_block_none by (frd; done). apply pack_update_mark; [done|frame_tac|].
        unfold pack_denotes. frd. split; [done|].
        intros m Hm. unfold minus, within. rewrite Eg by done. cmp_solve.
    + set (k := if lst f b =? bsize f b - 1 then _ else _).
      assert (denotes k S (fun m => m <=? lst f b)) as Hk.
      { subst k. destruct (Z.eqb_spec (lst f b) (bsize f b - 1)); [|by apply prefix_block].
        refine (denotes_ext _ _ _ _ (fresh_block true) _). intros m Hm. cmp_solve. }
      refine (pack_update_ext _ _ _ _ _ (Reset_interval_on_block _ _ _ _ _ _ Hk) _); [frame_tac| | |].
      * by frd.
      * by frd.
      * intros m Hm. unfold minus. by rewrite Eg.
  - destruct Hg' as (Ek & Eg). change (is_st FB_EMPTY FB_FULL) with false.
    rewrite on_block_none by done. apply pack_update_mark; [done|frame_tac|].
    unfold pack_denotes. rewrite Est. split; [done|]. intros m Hm. unfold minus. by rewrite Eg.
  - destruct Hg' as (k & Ek & Hd & Hc). change (is_st FB_MIXED FB_FULL) with false.
    by apply (Reset_interval_on_block f k g); [frame_tac|..].
Qed.
End OnePack.
