(* ===== verification/FilterRefine.v ===== *)
(** * Row filters: refinement of the set of rows

    [fdenotes f F]: the filter [f] is well represented and holds exactly the rows [r] with
    [F r].  Updates, queries and counters are related to that set. *)

From stdpp Require Import option.
From S2P Require Import Prelude BinTools FilterBlock FilterDefs FilterCore.

Definition fdenotes (f : Filter) (F : Z -> bool) : Prop :=
  shape f /\ (forall b, in_packs f b -> pack_denotes f b (fun m => F (65536 * b + m))).

(** ** Rows and packs *)

Lemma shiftr16 r : Z.shiftr r 16 = r / 65536.
Proof. by rewrite Z.shiftr_div_pow2. Qed.

Lemma land16 r : Z.land r 65535 = r mod 65536.
Proof. change 65535 with (Z.ones 16). by rewrite Z.land_ones. Qed.

Lemma row_split r : r = 65536 * (r / 65536) + r mod 65536 /\ 0 <= r mod 65536 < 65536.
Proof. split; [apply Z.div_mod; lia|apply Z.mod_pos_bound; lia]. Qed.

Ltac split_row r :=
  let H1 := fresh "Hrs" in let H2 := fresh "Hrm" in destruct (row_split r) as [H1 H2].

Lemma row_pos b m : 0 <= m < 65536 -> (65536 * b + m) / 65536 = b /\ (65536 * b + m) mod 65536 = m.
Proof.
  intros. split.
  - symmetry. apply (Z.div_unique_pos _ _ _ m); lia.
  - symmetry. apply (Z.mod_unique_pos _ _ b); lia.
Qed.

Section Geometry.
Context (f : Filter) (Hf : shape f).

Lemma NoObj_val :
  NoObj f = if no_blocks f =? 0 then 0 else 65536 * (no_blocks f - 1) + no_of_bits_in_last_block f.
Proof.
  unfold NoObj. rewrite Z.shiftl_mul_pow2 by lia. change (2 ^ 16) with 65536.
  pose proof (sh_last f Hf). pose proof (sh_nb f Hf). pose proof (sh_bits f Hf). cmp_solve.
Qed.

Lemma row_in_packs r : 0 <= r < NoObj f -> in_packs f (r / 65536) /\ r mod 65536 < bsize f (r / 65536).
Proof.
  rewrite NoObj_val. intros Hr. split_row r. unfold in_packs, bsize. pose proof (sh_nb f Hf).
  pose proof (sh_last f Hf). pose proof (sh_bits f Hf). revert Hr. cmp_solve.
Qed.

Lemma pack_row_in b m : in_packs f b -> 0 <= m < bsize f b -> 0 <= 65536 * b + m < NoObj f.
Proof.
  rewrite NoObj_val. unfold in_packs, bsize. pose proof (sh_bits f Hf). cmp_solve.
Qed.

Lemma bsize_mid b : 0 <= b < no_blocks f - 1 -> bsize f b = 65536.
Proof. intros. unfold bsize. cmp_solve. Qed.
End Geometry.

Lemma frame_NoObj b f f' : frame b f f' -> NoObj f' = NoObj f.
Proof. intros H. unfold NoObj. by rewrite (fr_nb b f f' H), (fr_bits b f f' H). Qed.

(** What every update of the rows keeps: the geometry, the tracking mode, the flags already
    raised, the delayed state, and, when changes are tracked, every pack not flagged. *)
Record evolves (f f' : Filter) : Prop := {
  ev_nb : no_blocks f' = no_blocks f;
  ev_bits : no_of_bits_in_last_block f' = no_of_bits_in_last_block f;
  ev_track : track_changes f' = track_changes f;
  ev_chg : forall c, WasBlockChanged f c = true -> WasBlockChanged f' c = true;
  ev_same : forall c, track_changes f = true -> WasBlockChanged f' c = false ->
            stat f' c = stat f c /\ blk f' c = blk f c /\ lst f' c = lst f c;
  ev_ds : delayed_stats f' = delayed_stats f;
  ev_db : delayed_block f' = delayed_block f;
  ev_dss : delayed_stats_set f' = delayed_stats_set f;
  ev_dbs : delayed_block_set f' = delayed_block_set f
}.

Lemma evolves_refl f : evolves f f.
Proof. by split. Qed.

Lemma evolves_trans f1 f2 f3 : evolves f1 f2 -> evolves f2 f3 -> evolves f1 f3.
Proof.
  intros [a1 a2 a3 a4 a5 a6 a7 a8 a9] [b1 b2 b3 b4 b5 b6 b7 b8 b9]. split; try congruence; [by auto|].
  intros c Ht Hc. assert (WasBlockChanged f2 c = false) as H2.
  { destruct (WasBlockChanged f2 c) eqn:E; [|done]. by rewrite b4 in Hc. }
  destruct (b5 c) as (-> & -> & ->); [congruence|done|]. by apply a5.
Qed.

Lemma evolves_update f f' b h : pack_update f f' b h -> evolves f f'.
Proof.
  intros [Hfr Hp Hc]. split; try apply Hfr. intros c Ht Hch.
  assert (c <> b) by (intros ->; rewrite Hc in Hch; done).
  by rewrite (fr_stat b f f' Hfr), (fr_blk b f f' Hfr), (fr_lst b f f' Hfr).
Qed.

Lemma evolves_NoObj f f' : evolves f f' -> NoObj f' = NoObj f.
Proof. intros H. unfold NoObj. by rewrite (ev_nb f f' H), (ev_bits f f' H). Qed.

Lemma evolves_in_packs f f' c : evolves f f' -> in_packs f c -> in_packs f' c.
Proof. intros H. unfold in_packs. by rewrite (ev_nb f f' H). Qed.

Lemma evolves_bsize f f' c : evolves f f' -> bsize f' c = bsize f c.
Proof. intros H. unfold bsize. by rewrite (ev_nb f f' H), (ev_bits f f' H). Qed.

(** Row sets that agree on the rows of the filter. *)
Lemma fdenotes_ext f F G : fdenotes f F -> (forall r, 0 <= r < NoObj f -> F r = G r) -> fdenotes f G.
Proof.
  intros [Hf Hp] E. split; [done|]. intros b Hb.
  assert (eq_upto (bsize f b) (fun m => F (65536 * b + m)) (fun m => G (65536 * b + m))) as Eb.
  { intros m Hm. apply E. by apply pack_row_in. }
  rewrite <- Eb. by apply Hp.
Qed.

(** Replacing the rows of one pack. *)
Lemma fdenotes_update f f' b F h :
  fdenotes f F -> in_packs f b -> pack_update f f' b h ->
  fdenotes f' (fun r => if r / 65536 =? b then h (r mod 65536) else F r) /\ evolves f f'.
Proof.
  intros [Hf Hp] Hb Hu. split; [|by apply (evolves_update f f' b h)]. destruct Hu as [Hfr Hpb _]. split; [apply Hfr|].
  intros c Hc. assert (in_packs f c) as Hc0 by (unfold in_packs in *; by rewrite <- (fr_nb b f f' Hfr)).
  pose proof (bsize_bound f c Hf Hc0) as Hs.
  assert (forall m, 0 <= m < bsize f' c -> (65536 * c + m) / 65536 = c /\ (65536 * c + m) mod 65536 = m) as Hrow.
  { intros m Hm. apply row_pos. rewrite (frame_bsize b f f' c Hfr) in Hm. lia. }
  destruct (Z.eq_dec c b) as [->|Hne].
  - refine (proj1 (pack_denotes_proper f' b _ _ _) Hpb). intros m Hm.
    destruct (Hrow m Hm) as [-> ->]. by rewrite Z.eqb_refl.
  - assert (pack_denotes f' c (fun m => F (65536 * c + m))) as Hpc by (apply (frame_pack b f f'); auto).
    refine (proj1 (pack_denotes_proper f' c _ _ _) Hpc). intros m Hm.
    destruct (Hrow m Hm) as [-> _]. cmp_solve.
Qed.

(** The same with the new row set given directly. *)
Lemma fdenotes_update_to f f' b F h G :
  fdenotes f F -> in_packs f b -> pack_update f f' b h ->
  (forall r, 0 <= r < NoObj f -> (if r / 65536 =? b then h (r mod 65536) else F r) = G r) ->
  fdenotes f' G /\ evolves f f'.
Proof.
  intros Hf Hb Hu E. destruct (fdenotes_update f f' b F h Hf Hb Hu) as [Hf' HN]. split; [|done].
  apply (fdenotes_ext f' _ G Hf'). by rewrite (evolves_NoObj f f' HN).
Qed.

(** ** Reading a row *)

Lemma pack_Get f b g n : pack_denotes f b g -> 0 <= n < bsize f b -> Get_bn f b n = Some (g n).
Proof.
  intros Hg Hn. unfold pack_denotes, Get_bn in *. destruct (stat f b); cbn [pack_rep] in Hg.
  - destruct Hg as (_ & _ & E). by rewrite E.
  - destruct Hg as (_ & E). by rewrite E.
  - destruct Hg as (k & -> & (_ & _ & Hd) & _). cbn. by rewrite Hd.
Qed.

Lemma fdenotes_Get f F r : fdenotes f F -> 0 <= r < NoObj f -> Get_row f r = Some (F r).
Proof.
  intros [Hf Hp] Hr. destruct (row_in_packs f Hf r Hr) as [Hb Hm]. unfold Get_row.
  destruct (Z.eqb_spec (no_blocks f) 0); [unfold in_packs in Hb; lia|].
  rewrite shiftr16, land16. split_row r. rewrite (pack_Get f _ _ _ (Hp _ Hb)) by lia.
  do 2 f_equal. lia.
Qed.

(** ** Intervals of rows *)

Section Intervals.
Context (f : Filter) (F : Z -> bool) (HF : fdenotes f F).

Lemma SetBlock_rows b :
  in_packs f b ->
  fdenotes (SetBlock f b) (fun r => within (65536 * b) (65536 * b + 65535) r || F r) /\
  evolves f (SetBlock f b).
Proof.
  intros Hb. apply (fdenotes_update_to f _ b F (fun _ => true)); [done|done|apply SetBlock_update; [apply HF|done]|].
  intros r Hr. split_row r. unfold within. cmp_solve.
Qed.

Lemma ResetBlock_rows b :
  in_packs f b ->
  fdenotes (ResetBlock f b) (minus F (65536 * b) (65536 * b + 65535)) /\ evolves f (ResetBlock f b).
Proof.
  intros Hb. apply (fdenotes_update_to f _ b F (fun _ => false)); [done|done|apply ResetBlock_update; [apply HF|done]|].
  intros r Hr. split_row r. unfold minus, within. destruct (F r); cmp_solve.
Qed.

Lemma SetBetween1_rows b n1 n2 :
  in_packs f b -> 0 <= n1 <= n2 -> n2 < bsize f b ->
  fdenotes (SetBetween1 f b n1 n2) (fun r => within (65536 * b + n1) (65536 * b + n2) r || F r) /\
  evolves f (SetBetween1 f b n1 n2).
Proof.
  intros Hb Hn Hn2. pose proof (bsize_bound f b (proj1 HF) Hb) as HS.
  apply (fdenotes_update_to f _ b F (fun m => within n1 n2 m || F (65536 * b + m))); [done|done| |].
  - apply SetBetween1_update; [apply HF|done|by apply HF|done|done].
  - intros r Hr. split_row r. destruct (Z.eqb_spec (r / 65536) b) as [E|E].
    + replace (65536 * b + r mod 65536) with r by lia. f_equal. unfold within. cmp_solve.
    + unfold within. cmp_solve.
Qed.

Lemma ResetBetween1_rows b n1 n2 :
  in_packs f b -> 0 <= n1 <= n2 -> n2 < bsize f b ->
  fdenotes (ResetBetween1 f b n1 n2) (minus F (65536 * b + n1) (65536 * b + n2)) /\
  evolves f (ResetBetween1 f b n1 n2).
Proof.
  intros Hb Hn Hn2. pose proof (bsize_bound f b (proj1 HF) Hb) as HS.
  apply (fdenotes_update_to f _ b F (minus (fun m => F (65536 * b + m)) n1 n2)); [done|done| |].
  - apply ResetBetween1_update; [apply HF|done|by apply HF|done|done].
  - intros r Hr. split_row r. unfold minus. destruct (Z.eqb_spec (r / 65536) b) as [E|E].
    + replace (65536 * b + r mod 65536) with r by lia. f_equal. unfold within. cmp_solve.
    + unfold within. destruct (F r); cmp_solve.
Qed.
End Intervals.

Lemma NoObj_packs f : shape f -> 0 < no_blocks f -> NoObj f = 65536 * (no_blocks f - 1) + bsize f (no_blocks f - 1).
Proof.
  intros Hf H. rewrite NoObj_val by done. unfold bsize. rewrite Z.eqb_refl. cmp_solve.
Qed.

(** A loop of pack updates over consecutive packs. *)
Lemma pack_loop (step : Filter -> Z -> Filter) (upd : (Z -> bool) -> Z -> Z -> bool) a z :
  (forall f F b, fdenotes f F -> in_packs f b -> fdenotes (step f b) (upd F b) /\ evolves f (step f b)) ->
  forall (Inv : Z -> Z -> bool),
  (forall i r, a <= i <= z -> upd (Inv i) i r = Inv (i + 1) r) ->
  a <= z + 1 ->
  forall f F, fdenotes f F -> (forall r, 0 <= r < NoObj f -> F r = Inv a r) -> 0 <= a -> z < no_blocks f ->
  fdenotes (foldl step f (range a z)) (Inv (z + 1)) /\ evolves f (foldl step f (range a z)).
Proof.
  intros Hstep Inv Hinv Haz f F Hf HF Ha Hz.
  refine (foldl_range step (fun i f' => fdenotes f' (Inv i) /\ evolves f f') a z f Haz _ _).
  - split; [by apply (fdenotes_ext f F)|apply evolves_refl].
  - intros i f' Hi [Hf' He]. destruct (Hstep f' (Inv i) i Hf') as [H1 H2].
    { apply (evolves_in_packs f); [done|]. unfold in_packs. lia. }
    split; [|by apply (evolves_trans f f')].
    apply (fdenotes_ext _ _ _ H1). intros r Hr. apply Hinv. lia.
Qed.

Section Spans.
Context (f : Filter) (F : Z -> bool) (HF : fdenotes f F) (b1 n1 b2 n2 : Z).
Context (Hb1 : in_packs f b1) (Hb2 : in_packs f b2) (Hn1 : 0 <= n1 < bsize f b1) (Hn2 : 0 <= n2 < bsize f b2).

Let r1 := 65536 * b1 + n1.
Let r2 := 65536 * b2 + n2.

Lemma SetBetween_span :
  r1 <= r2 ->
  fdenotes (SetBetween f b1 n1 b2 n2) (fun r => within r1 r2 r || F r) /\ evolves f (SetBetween f b1 n1 b2 n2).
Proof.
  intros Hr. unfold SetBetween. destruct (Z.eqb_spec b1 b2) as [E|E].
  - subst b2. apply SetBetween1_rows; [done|done|unfold r1, r2 in *; lia|lia].
  - pose proof (proj1 HF) as Hf. pose proof (bsize_bound f b1 Hf Hb1). pose proof (bsize_bound f b2 Hf Hb2).
    unfold in_packs in *. assert (b1 < b2) by (unfold r1, r2 in *; lia).
    assert (bsize f b1 = 65536) as Es by (apply bsize_mid; lia).
    set (fa := if n1 =? 0 then SetBlock f b1 else SetBetween1 f b1 n1 65535).
    assert (fdenotes fa (fun r => within r1 (65536 * b1 + 65535) r || F r) /\ evolves f fa) as [Ha Ea].
    { subst fa. destruct (Z.eqb_spec n1 0).
      - destruct (SetBlock_rows f F HF b1 Hb1) as [Hx Hy]. split; [|done].
        apply (fdenotes_ext _ _ _ Hx). intros r _. f_equal. unfold r1. f_equal; lia.
      - apply SetBetween1_rows; [done|done|lia|lia]. }
    destruct (pack_loop SetBlock (fun G b r => within (65536 * b) (65536 * b + 65535) r || G r) (b1 + 1) (b2 - 1))
      with (Inv := fun i r => within r1 (65536 * i - 1) r || F r) (f := fa)
           (F := fun r => within r1 (65536 * b1 + 65535) r || F r) as [Hl El]; try done; try lia.
    { intros g G b HG Hb. by apply SetBlock_rows. }
    { intros i r Hi. unfold within, r1. destruct (F r); cmp_solve. }
    { intros r _. do 2 f_equal. lia. }
    { rewrite (ev_nb f fa Ea). lia. }
    set (fb := foldl SetBlock fa (range (b1 + 1) (b2 - 1))) in *.
    assert (evolves f fb) as Eb by by apply (evolves_trans f fa).
    destruct (SetBetween1_rows fb _ Hl b2 0 n2) as [Hc Ec].
    { by apply (evolves_in_packs f). }
    { lia. }
    { rewrite (evolves_bsize f fb); [lia|done]. }
    split; [|by apply (evolves_trans f fb)].
    apply (fdenotes_ext _ _ _ Hc). intros r _. unfold within, r1, r2 in *. destruct (F r); cmp_solve.
Qed.

Lemma ResetBetween_span :
  r1 <= r2 ->
  fdenotes (ResetBetween f b1 n1 b2 n2) (minus F r1 r2) /\ evolves f (ResetBetween f b1 n1 b2 n2).
Proof.
  intros Hr. unfold ResetBetween. destruct (Z.eqb_spec b1 b2) as [E|E].
  - subst b2. apply ResetBetween1_rows; [done|done|unfold r1, r2 in *; lia|lia].
  - pose proof (proj1 HF) as Hf. pose proof (bsize_bound f b1 Hf Hb1). pose proof (bsize_bound f b2 Hf Hb2).
    unfold in_packs in *. assert (b1 < b2) by (unfold r1, r2 in *; lia).
    assert (bsize f b1 = 65536) as Es by (apply bsize_mid; lia).
    set (fa := if n1 =? 0 then ResetBlock f b1 else ResetBetween1 f b1 n1 65535).
    assert (fdenotes fa (minus F r1 (65536 * b1 + 65535)) /\ evolves f fa) as [Ha Ea].
    { subst fa. destruct (Z.eqb_spec n1 0).
      - destruct (ResetBlock_rows f F HF b1 Hb1) as [Hx Hy]. split; [|done].
        apply (fdenotes_ext _ _ _ Hx). intros r _. f_equal. unfold r1. lia.
      - apply ResetBetween1_rows; [done|done|lia|lia]. }
    destruct (pack_loop ResetBlock (fun G b => minus G (65536 * b) (65536 * b + 65535)) (b1 + 1) (b2 - 1))
      with (Inv := fun i => minus F r1 (65536 * i - 1)) (f := fa)
           (F := minus F r1 (65536 * b1 + 65535)) as [Hl El]; try done; try lia.
    { intros g G b HG Hb. by apply ResetBlock_rows. }
    { intros i r Hi. unfold minus, within, r1. destruct (F r); cmp_solve. }
    { intros r _. f_equal. lia. }
    { rewrite (ev_nb f fa Ea). lia. }
    set (fb := foldl ResetBlock fa (range (b1 + 1) (b2 - 1))) in *.
    assert (evolves f fb) as Eb by by apply (evolves_trans f fa).
    destruct (ResetBetween1_rows fb _ Hl b2 0 n2) as [Hc Ec].
    { by apply (evolves_in_packs f). }
    { lia. }
    { rewrite (evolves_bsize f fb); [lia|done]. }
    split; [|by apply (evolves_trans f fb)].
    apply (fdenotes_ext _ _ _ Hc). intros r _. unfold minus, within, r1, r2 in *. destruct (F r); cmp_solve.
Qed.
End Spans.

(** ** One row, by its number *)

Section Rows.
Context (f : Filter) (F : Z -> bool) (HF : fdenotes f F) (r : Z) (Hr : 0 <= r < NoObj f).

Lemma Set_row :
  exists f', Set_bn f (Z.shiftr r 16) (Z.land r 65535) = Some f' /\
             fdenotes f' (fun x => (x =? r) || F x) /\ evolves f f'.
Proof.
  destruct (row_in_packs f (proj1 HF) r Hr) as [Hb Hm]. split_row r. rewrite shiftr16, land16.
  destruct (Set_bn_update f (proj1 HF) _ Hb _ (r mod 65536) (proj2 HF _ Hb) ltac:(lia)) as (f' & E & Hu).
  exists f'. split; [done|]. apply (fdenotes_update_to f f' _ F _ _ HF Hb Hu).
  intros x Hx. split_row x. simpl. destruct (Z.eqb_spec (x / 65536) (r / 65536)) as [E1|E1].
  - replace (65536 * (r / 65536) + x mod 65536) with x by lia. f_equal. cmp_solve.
  - cmp_solve.
Qed.

Lemma Reset_row :
  exists f', Reset_bn f (Z.shiftr r 16) (Z.land r 65535) = Some f' /\
             fdenotes f' (fun x => negb (x =? r) && F x) /\ evolves f f'.
Proof.
  destruct (row_in_packs f (proj1 HF) r Hr) as [Hb Hm]. split_row r. rewrite shiftr16, land16.
  destruct (Reset_bn_update f (proj1 HF) _ Hb _ (r mod 65536) (proj2 HF _ Hb) ltac:(lia)) as (f' & E & Hu).
  exists f'. split; [done|]. apply (fdenotes_update_to f f' _ F _ _ HF Hb Hu).
  intros x Hx. split_row x. simpl. destruct (Z.eqb_spec (x / 65536) (r / 65536)) as [E1|E1].
  - replace (65536 * (r / 65536) + x mod 65536) with x by lia. f_equal. cmp_solve.
  - cmp_solve.
Qed.
End Rows.

Section RowIntervals.
Context (f : Filter) (F : Z -> bool) (HF : fdenotes f F) (r1 r2 : Z).
Context (Hr : 0 <= r1 <= r2) (Hr2 : r2 < NoObj f).

Lemma SetBetween_rows_spec :
  exists f', SetBetween_rows f r1 r2 = Some f' /\ fdenotes f' (fun x => within r1 r2 x || F x) /\ evolves f f'.
Proof.
  unfold SetBetween_rows. destruct (Z.eqb_spec r1 r2) as [E|E].
  - destruct (Set_row f F HF r1 ltac:(lia)) as (f' & E' & Hf' & He). exists f'. split; [done|]. split; [|done].
    apply (fdenotes_ext _ _ _ Hf'). intros x _. f_equal. unfold within. cmp_solve.
  - eexists. split; [reflexivity|]. rewrite !shiftr16, !land16.
    destruct (row_in_packs f (proj1 HF) r1 ltac:(lia)) as [Hb1 Hm1].
    destruct (row_in_packs f (proj1 HF) r2 ltac:(lia)) as [Hb2 Hm2]. split_row r1. split_row r2.
    destruct (SetBetween_span f F HF (r1 / 65536) (r1 mod 65536) (r2 / 65536) (r2 mod 65536)) as [Hx Hy];
      try done; try lia. split; [|done].
    apply (fdenotes_ext _ _ _ Hx). intros x _. by rewrite <- Hrs, <- Hrs0.
Qed.

Lemma ResetBetween_rows_spec :
  exists f', ResetBetween_rows f r1 r2 = Some f' /\ fdenotes f' (minus F r1 r2) /\ evolves f f'.
Proof.
  unfold ResetBetween_rows. destruct (Z.eqb_spec r1 r2) as [E|E].
  - destruct (Reset_row f F HF r1 ltac:(lia)) as (f' & E' & Hf' & He). exists f'. split; [done|]. split; [|done].
    apply (fdenotes_ext _ _ _ Hf'). intros x _. unfold minus, within. destruct (F x); cmp_solve.
  - eexists. split; [reflexivity|]. rewrite !shiftr16, !land16.
    destruct (row_in_packs f (proj1 HF) r1 ltac:(lia)) as [Hb1 Hm1].
    destruct (row_in_packs f (proj1 HF) r2 ltac:(lia)) as [Hb2 Hm2]. split_row r1. split_row r2.
    destruct (ResetBetween_span f F HF (r1 / 65536) (r1 mod 65536) (r2 / 65536) (r2 mod 65536)) as [Hx Hy];
      try done; try lia. split; [|done].
    apply (fdenotes_ext _ _ _ Hx). intros x _. by rewrite <- Hrs, <- Hrs0.
Qed.
End RowIntervals.

(** ** A new filter *)

Lemma fdenotes_Construct nb bits v :
  0 <= nb -> 0 <= bits <= 65536 -> (0 < nb <-> 0 < bits) -> fdenotes (Construct nb bits v) (fun _ => v).
Proof.
  intros Hnb Hbits Hpos. assert (zlen (block_last_one (Construct nb bits v)) = nb) as Hl.
  { simpl. destruct (Z.ltb_spec 0 nb); [rewrite zlen_zupd; by apply zlen_replicate|].
    assert (nb = 0) as -> by lia. done. }
  split.
  - split; simpl; rewrite ?zlen_replicate; done.
  - intros b Hb. unfold in_packs in Hb. simpl in Hb. unfold pack_denotes, bsize, stat, blk, lst. simpl.
    rewrite !znth_replicate by done. destruct (Z.ltb_spec 0 nb); [|lia].
    rewrite znth_zupd by (rewrite zlen_replicate; lia). rewrite znth_replicate by done.
    rewrite wrap16_small by lia. destruct v; [|by split].
    split; [done|]. split; [cmp_solve|]. intros m Hm. revert Hm. cmp_solve.
Qed.

Lemma shiftr_add n : Z.shiftr (n + 0xffff) 16 = (n + 65535) / 65536.
Proof. by rewrite Z.shiftr_div_pow2. Qed.

(** The number of packs is an [int]: it is right for fewer than 2^47 - 2^16 rows. *)
Lemma Filter_new_rows n v :
  0 <= n <= 2 ^ 47 - 2 ^ 16 ->
  exists f, Filter_new n v = Some f /\ fdenotes f (fun _ => v) /\ NoObj f = n.
Proof.
  intros Hn. unfold Filter_new, MAX_ROW_NUMBER. destruct (Z.ltb_spec 0x00007FFFFFFFFFFF n); [lia|].
  eexists. split; [reflexivity|]. rewrite land16. unfold NoObj2NoPacks. rewrite shiftr_add.
  split_row n. split_row (n + 65535).
  assert (swrap 32 ((n + 65535) / 65536) = (n + 65535) / 65536) as ->.
  { unfold swrap. rewrite Z.mod_small by lia. cmp_solve. }
  set (bits := if n =? 0 then 0 else _).
  assert (fdenotes (Construct ((n + 65535) / 65536) bits v) (fun _ => v)) as Hf.
  { apply fdenotes_Construct; unfold bits; case_cmp; lia. }
  split; [done|]. rewrite NoObj_val by apply Hf. simpl. unfold bits. case_cmp; lia.
Qed.
