(* ===== verification/FilterQuery.v ===== *)
(** * Row filters: queries and counters

    Emptiness, fullness and counts of a filter and of an interval of rows, related to the set of
    rows the filter holds. *)

From stdpp Require Import option.
From S2P Require Import Prelude BinTools FilterBlock FilterDefs FilterCore FilterRefine.

(** ** One pack *)

Section PackQueries.
Context (f : Filter) (Hf : shape f) (b : Z) (Hb : in_packs f b) (g : Z -> bool) (Hg : pack_denotes f b g).

Let S := bsize f b.

Lemma pack_count :
  (if is_st (stat f b) FB_FULL then lst f b + 1
   else match blk f b with Some k => no_set_bits k | None => 0 end) = cnt g 0 S.
Proof.
  pose proof (bsize_bound f b Hf Hb) as HS. unfold pack_denotes in Hg. fold S in HS, Hg.
  destruct (stat f b) eqn:Est; cbn [pack_rep] in Hg.
  - destruct Hg as (_ & Hl & E). rewrite is_st_refl.
    pose proof (cnt_proper S _ _ E) as Hc. simpl in Hc. rewrite Hc.
    rewrite (cnt_ext _ (within 0 (lst f b))) by (intros i Hi; unfold within; cmp_solve).
    rewrite cnt_within by lia. lia.
  - destruct Hg as (-> & E). change (is_st FB_EMPTY FB_FULL) with false. cbn. symmetry.
    apply cnt_zero. intros i Hi. by rewrite E.
  - destruct Hg as (k & -> & Hd & _). change (is_st FB_MIXED FB_FULL) with false. by apply denotes_count.
Qed.

Lemma pack_empty : is_st (stat f b) FB_EMPTY = true <-> (forall m, 0 <= m < S -> g m = false).
Proof.
  pose proof (bsize_bound f b Hf Hb) as HS. unfold pack_denotes in Hg. fold S in HS, Hg.
  rewrite is_st_spec. destruct (stat f b) eqn:Est; cbn [pack_rep] in Hg.
  - destruct Hg as (_ & Hl & E). split; [done|]. intros H. specialize (H 0 ltac:(lia)).
    rewrite E in H by lia. bool_to_prop. lia.
  - destruct Hg as (_ & E). split; [|done]. intros _ m Hm. by apply E.
  - destruct Hg as (k & _ & _ & Hc). split; [done|]. rewrite <- cnt_zero. lia.
Qed.

Lemma pack_full : IsFull_b f b = true <-> (forall m, 0 <= m < S -> g m = true).
Proof.
  pose proof (bsize_bound f b Hf Hb) as HS. unfold IsFull_b. rewrite end_block_bsize.
  unfold pack_denotes in Hg. fold S in HS, Hg |- *.
  rewrite andb_true_iff, is_st_spec, Z.eqb_eq. destruct (stat f b) eqn:Est; cbn [pack_rep] in Hg.
  - destruct Hg as (_ & Hl & E). split.
    + intros [_ El] m Hm. rewrite E by done. cmp_solve.
    + intros H. split; [done|]. specialize (H (S - 1) ltac:(lia)). rewrite E in H by lia. bool_to_prop. lia.
  - destruct Hg as (_ & E). split; [by intros [? _]|]. intros H. specialize (H 0 ltac:(lia)).
    rewrite E in H by lia. done.
  - destruct Hg as (k & _ & _ & Hc). split; [by intros [? _]|].
    rewrite <- cnt_full by lia. lia.
Qed.

(** An interval inside the pack. *)
Lemma pack_IsEmptyBetween n1 n2 :
  0 <= n1 <= n2 -> n2 < S ->
  match stat f b with
  | FB_FULL => Some (lst f b <? n1)
  | FB_EMPTY => Some true
  | FB_MIXED => k ← blk f b; Some (FilterBlock.IsEmptyBetween k n1 n2)
  end = Some (all (fun m => negb (g m)) n1 n2).
Proof.
  intros Hn Hn2. unfold pack_denotes in Hg. fold S in Hg. destruct (stat f b); cbn [pack_rep] in Hg.
  - destruct Hg as (_ & Hl & E). f_equal. apply eq_true_iff_eq. rewrite all_spec, Z.ltb_lt. split.
    + intros H m Hm. rewrite E by lia. cmp_solve.
    + intros H. specialize (H n1 ltac:(lia)). rewrite E in H by lia. bool_to_prop. lia.
  - destruct Hg as (_ & E). f_equal. symmetry. apply all_spec. intros m Hm. by rewrite E by lia.
  - destruct Hg as (k & -> & Hd & _). cbn. f_equal. by apply (IsEmptyBetween_spec k S).
Qed.

Lemma pack_NoOnesBetween n1 n2 :
  0 <= n1 <= n2 -> n2 < S ->
  match stat f b with
  | FB_FULL => Some (if lst f b <? n1 then 0 else Z.min n2 (lst f b) - n1 + 1)
  | FB_EMPTY => Some 0
  | FB_MIXED => k ← blk f b; Some (FilterBlock.NoOnesBetween k n1 n2)
  end = Some (cnt g n1 (n2 + 1)).
Proof.
  intros Hn Hn2. unfold pack_denotes in Hg. fold S in Hg. destruct (stat f b); cbn [pack_rep] in Hg.
  - destruct Hg as (_ & Hl & E). f_equal.
    rewrite (cnt_ext g (fun m => m <=? lst f b)) by (intros i Hi; apply E; lia).
    destruct (Z.ltb_spec (lst f b) n1).
    + symmetry. apply cnt_zero. intros i Hi. cmp_solve.
    + rewrite (cnt_split _ n1 (Z.min n2 (lst f b) + 1)) by lia.
      rewrite (proj2 (cnt_full _ n1 (Z.min n2 (lst f b) + 1) ltac:(lia))) by (intros i Hi; cmp_solve).
      rewrite (proj2 (cnt_zero _ _ (n2 + 1))) by (intros i Hi; cmp_solve). lia.
  - destruct Hg as (_ & E). f_equal. symmetry. apply cnt_zero. intros i Hi. apply E. lia.
  - destruct Hg as (k & -> & Hd & _). cbn. f_equal. by apply (NoOnesBetween_spec k S).
Qed.
End PackQueries.

Lemma pack_cnt (F : Z -> bool) b n1 n2 :
  cnt (fun m => F (65536 * b + m)) n1 n2 = cnt F (65536 * b + n1) (65536 * b + n2).
Proof.
  transitivity (cnt (fun m => F (m + 65536 * b)) n1 n2).
  - apply cnt_ext. intros i _. f_equal. lia.
  - rewrite cnt_shift. f_equal; lia.
Qed.

(** ** The whole filter *)

Section WholeFilter.
Context (f : Filter) (F : Z -> bool) (HF : fdenotes f F).

Let Hf := proj1 HF.

Lemma packs_all (q : Z -> bool) (p : Z -> bool) a z z' :
  (forall b, a <= b <= z -> (q b = true <-> (forall m, 0 <= m < bsize f b -> p (65536 * b + m) = true))) ->
  0 <= a -> z < no_blocks f ->
  z' = (if a <=? z then 65536 * z + bsize f z - 1 else 65536 * a - 1) ->
  forallb q (range a z) = all p (65536 * a) z'.
Proof.
  intros Hq Ha Hz ->. apply eq_true_iff_eq. change (forallb q (range a z)) with (all q a z).
  rewrite !all_spec. split.
  - intros H r Hr. revert Hr. destruct (Z.leb_spec a z); [|lia]. intros Hr. split_row r.
    pose proof (bsize_bound f z Hf ltac:(unfold in_packs; lia)) as HS.
    assert (a <= r / 65536 <= z) as Hb by lia. specialize (H (r / 65536) Hb). rewrite Hq in H by done.
    rewrite Hrs. apply H. destruct (Z.eq_dec (r / 65536) z) as [Ez|]; [rewrite Ez; lia|].
    rewrite bsize_mid by (done || lia). lia.
  - intros H b Hb. apply Hq; [done|]. intros m Hm. apply H. destruct (Z.leb_spec a z); [|lia].
    pose proof (bsize_bound f b Hf ltac:(unfold in_packs; lia)) as HS.
    pose proof (bsize_bound f z Hf ltac:(unfold in_packs; lia)). destruct (Z.eq_dec b z) as [->|]; lia.
Qed.

Lemma all_rows_end :
  NoObj f - 1 = (if 0 <=? no_blocks f - 1 then 65536 * (no_blocks f - 1) + bsize f (no_blocks f - 1) - 1 else 65536 * 0 - 1).
Proof.
  pose proof (sh_nb f Hf). destruct (Z.leb_spec 0 (no_blocks f - 1)).
  - rewrite NoObj_packs by (done || lia). lia.
  - rewrite NoObj_val by done. cmp_solve.
Qed.

Lemma empty_pack_rows b :
  0 <= b < no_blocks f ->
  is_st (stat f b) FB_EMPTY = true <-> (forall m, 0 <= m < bsize f b -> negb (F (65536 * b + m)) = true).
Proof.
  intros Hb. rewrite (pack_empty f Hf b Hb _ (proj2 HF b Hb)).
  split; intros H m Hm; apply negb_true_iff, H; done.
Qed.

Lemma full_pack_rows b :
  0 <= b < no_blocks f ->
  IsFull_b f b = true <-> (forall m, 0 <= m < bsize f b -> F (65536 * b + m) = true).
Proof. intros Hb. apply (pack_full f Hf b Hb _ (proj2 HF b Hb)). Qed.

Lemma IsEmpty_spec : IsEmpty f = true <-> (forall r, 0 <= r < NoObj f -> F r = false).
Proof.
  unfold IsEmpty. rewrite (packs_all _ (fun r => negb (F r)) 0 (no_blocks f - 1) (NoObj f - 1)); try lia.
  - rewrite all_spec. split; intros H r Hr; apply negb_true_iff, H; lia.
  - intros b Hb. apply empty_pack_rows. lia.
  - apply all_rows_end.
Qed.

Lemma IsFull_spec : IsFull f = true <-> (forall r, 0 <= r < NoObj f -> F r = true).
Proof.
  unfold IsFull. rewrite (packs_all _ F 0 (no_blocks f - 1) (NoObj f - 1)); try lia.
  - rewrite all_spec. split; intros H r Hr; apply H; lia.
  - intros b Hb. apply full_pack_rows. lia.
  - apply all_rows_end.
Qed.

Lemma cnt_pack b : 0 <= b < no_blocks f ->
  cnt (fun m => F (65536 * b + m)) 0 (bsize f b) = cnt F (65536 * b) (65536 * b + bsize f b).
Proof. intros _. by rewrite pack_cnt, Z.add_0_r. Qed.

(** A counting loop over whole packs. *)
Lemma count_loop (step : Z -> Z -> Z) a z c0 :
  (forall c b, a <= b <= z -> step c b = c + cnt F (65536 * b) (65536 * b + bsize f b)) ->
  0 <= a -> a <= z + 1 -> z < no_blocks f ->
  foldl step c0 (range a z) = c0 + cnt F (65536 * a) (if a <=? z then 65536 * z + bsize f z else 65536 * a).
Proof.
  intros Hstep Ha Haz Hz.
  assert ((fun i c => c = c0 + cnt F (65536 * a) (if a <? i then 65536 * (i - 1) + bsize f (i - 1) else 65536 * a))
            (z + 1) (foldl step c0 (range a z))) as H.
  { apply foldl_range; [lia| |].
    - destruct (Z.ltb_spec a a); [lia|]. rewrite cnt_empty by lia. lia.
    - intros i c Hi ->. rewrite Hstep by done. destruct (Z.ltb_spec a (i + 1)); [|lia].
      replace (i + 1 - 1) with i by lia. pose proof (bsize_bound f i Hf ltac:(unfold in_packs; lia)).
      destruct (Z.ltb_spec a i).
      + rewrite (bsize_mid f (i - 1)) by lia. rewrite (cnt_split F (65536 * a) (65536 * i) (65536 * i + _)) by lia.
        replace (65536 * (i - 1) + 65536) with (65536 * i) by lia. lia.
      + assert (i = a) as -> by lia. rewrite (cnt_empty F (65536 * a) (65536 * a)) by lia. lia. }
  rewrite H. f_equal. f_equal. replace (z + 1 - 1) with z by lia. cmp_solve.
Qed.

Lemma NoOnes_step c b : 0 <= b < no_blocks f ->
  (if is_st (stat f b) FB_FULL then c + (lst f b + 1)
   else match blk f b with Some k => c + no_set_bits k | None => c end)
  = c + cnt F (65536 * b) (65536 * b + bsize f b).
Proof.
  intros Hb. rewrite <- cnt_pack by done.
  rewrite <- (pack_count f Hf b Hb _ (proj2 HF b Hb)).
  destruct (is_st (stat f b) FB_FULL); [done|]. destruct (blk f b); lia.
Qed.

Lemma NoOnes_spec : NoOnes f = cnt F 0 (NoObj f).
Proof.
  unfold NoOnes. pose proof (sh_nb f Hf). destruct (Z.eqb_spec (no_blocks f) 0) as [E|E].
  - rewrite NoObj_val, E by done. by rewrite cnt_empty.
  - rewrite count_loop; try lia.
    + destruct (Z.leb_spec 0 (no_blocks f - 1)); [|lia]. rewrite NoObj_packs by (done || lia). done.
    + intros c b Hb. apply NoOnes_step. lia.
Qed.

Lemma NoOnes_b_spec b : in_packs f b -> NoOnes_b f b = cnt F (65536 * b) (65536 * b + bsize f b).
Proof.
  intros Hb. unfold NoOnes_b. unfold in_packs in Hb. destruct (Z.eqb_spec (no_blocks f) 0); [lia|].
  rewrite <- cnt_pack by done. by apply (pack_count f Hf b Hb), HF.
Qed.

(** ** Intervals of rows *)

Context (r1 r2 : Z) (Hr : 0 <= r1 < r2) (Hr2 : r2 < NoObj f).

Let b1 := r1 / 65536.
Let b2 := r2 / 65536.
Let start := if r1 mod 65536 =? 0 then b1 else b1 + 1.
Let stop := full_pack_stop f b2 (r2 mod 65536).

Lemma interval_packs :
  0 <= b1 <= b2 /\ b2 < no_blocks f /\ r1 mod 65536 < bsize f b1 /\ r2 mod 65536 < bsize f b2.
Proof.
  destruct (row_in_packs f Hf r1 ltac:(lia)) as [H1 H1']. destruct (row_in_packs f Hf r2 ltac:(lia)) as [H2 H2'].
  unfold in_packs in *. unfold b1, b2. split_row r1. split_row r2. lia.
Qed.

Lemma stop_val : stop = if r2 mod 65536 =? bsize f b2 - 1 then b2 else b2 - 1.
Proof.
  destruct interval_packs as (_ & ? & _ & ?). unfold stop, full_pack_stop, bsize in *. pose proof (sh_bits f Hf).
  split_row r2. revert H0. cmp_solve.
Qed.

(** The whole packs between the head and the tail. *)
Lemma middle_end : b1 < b2 ->
  (if b2 =? stop then r2 else 65536 * b2 - 1)
  = (if start <=? stop then 65536 * stop + bsize f stop - 1 else 65536 * start - 1).
Proof.
  intros Hlt. destruct interval_packs as (? & ? & ? & ?). rewrite stop_val. unfold start in *. split_row r1. split_row r2.
  destruct (Z.eqb_spec (r2 mod 65536) (bsize f b2 - 1)) as [E|E].
  - rewrite Z.eqb_refl. unfold b1, b2 in *. cmp_solve.
  - destruct (Z.eqb_spec b2 (b2 - 1)); [lia|].
    destruct (Z.leb_spec (if r1 mod 65536 =? 0 then b1 else b1 + 1) (b2 - 1)) as [Hle|Hgt].
    + assert (0 <= b2 - 1 < no_blocks f - 1) by (revert Hle; case_cmp; lia).
      rewrite (bsize_mid f (b2 - 1)) by done. lia.
    + revert Hgt. case_cmp; lia.
Qed.

Lemma all_packs_split p : b1 < b2 ->
  all p r1 r2 =
  all p (65536 * start) (if b2 =? stop then r2 else 65536 * b2 - 1)
  && (if b1 =? start then true else all p r1 (65536 * b1 + 65535))
  && (if b2 =? stop then true else all p (65536 * b2) r2).
Proof.
  intros Hlt. destruct interval_packs as (? & ? & ? & ?). rewrite stop_val. unfold start. split_row r1. split_row r2.
  fold b1 in Hrs. fold b2 in Hrs0.
  apply eq_true_iff_eq. rewrite !andb_true_iff, all_spec. split.
  - intros Hp. split; [split|]; case_cmp; try done; try lia; apply all_spec; intros i Hi; apply Hp; lia.
  - intros [[Ha Hb] Hc] i Hi. rewrite all_spec in Ha. revert Ha Hb Hc.
    destruct (Z.lt_ge_cases i (65536 * b1 + 65536)), (Z.lt_ge_cases i (65536 * b2)); case_cmp; intros Ha Hb Hc;
      try lia; try (apply Ha; lia); try (rewrite all_spec in Hb; apply Hb; lia); rewrite all_spec in Hc; apply Hc; lia.
Qed.

Lemma pack_all b n1 n2 :
  all (fun m => negb (F (65536 * b + m))) n1 n2 = all (fun r => negb (F r)) (65536 * b + n1) (65536 * b + n2).
Proof. apply (all_shift (fun r => negb (F r))). Qed.

Lemma same_pack_rows : b1 = b2 -> 65536 * b1 + r1 mod 65536 = r1 /\ 65536 * b1 + r2 mod 65536 = r2.
Proof. intros E. split_row r1. split_row r2. fold b1 in Hrs. fold b2 in Hrs0. lia. Qed.

Lemma lst_nonneg b : in_packs f b -> stat f b = FB_FULL -> 0 <= lst f b.
Proof.
  intros Hb Est. pose proof (proj2 HF b Hb) as Hp. unfold pack_denotes in Hp. rewrite Est in Hp.
  destruct Hp as (_ & ? & _). lia.
Qed.

Lemma IsEmptyBetween_spans : IsEmptyBetween f r1 r2 = Some (all (fun r => negb (F r)) r1 r2).
Proof.
  destruct interval_packs as (Hb & Hb2 & Hm1 & Hm2). unfold IsEmptyBetween. rewrite !shiftr16, !land16.
  fold b1 b2. destruct (Z.eqb_spec r1 r2); [lia|]. split_row r1. split_row r2.
  set (p := fun r => negb (F r)).
  assert (forall b n1 n2, 0 <= b < no_blocks f -> 0 <= n1 <= n2 -> n2 < bsize f b -> _) as Hpack
    by (intros b n1 n2 Hi; exact (pack_IsEmptyBetween f b _ (proj2 HF b Hi) n1 n2)).
  destruct (Z.eqb_spec b1 b2) as [E|E].
  - destruct (same_pack_rows E) as [E1 E2].
    rewrite (Hpack b1) by (rewrite ?E in *; unfold b1, b2 in *; lia).
    rewrite pack_all. by rewrite E1, E2.
  - assert (b1 < b2) as Hlt by lia. rewrite (all_packs_split p Hlt). fold start stop.
    rewrite (packs_all _ p start stop (if b2 =? stop then r2 else 65536 * b2 - 1)); cycle 1.
    { intros b Hbb. apply empty_pack_rows. rewrite stop_val in Hbb. revert Hbb. unfold start. case_cmp; lia. }
    { unfold start. cmp_solve. }
    { rewrite stop_val. cmp_solve. }
    { by apply middle_end. }
    destruct (all p (65536 * start) _); cbn [negb andb]; [|done].
    pose proof (Hpack b1 (r1 mod 65536) 65535 ltac:(lia) ltac:(lia)
                  ltac:(rewrite bsize_mid by lia; lia)) as Hhead.
    cbv beta in Hhead. fold b1 in Hrs. rewrite pack_all, <- Hrs in Hhead. fold p in Hhead.
    match type of Hhead with ?l = _ => assert (match stat f b1 with
      | FB_FULL => Some (negb (r1 mod 65536 <=? lst f b1))
      | FB_EMPTY => Some true
      | FB_MIXED => k ← blk f b1; Some (FilterBlock.IsEmptyBetween k (r1 mod 65536) 65535)
      end = l) as -> by (destruct (stat f b1); [f_equal; cmp_solve|done|done]) end.
    rewrite Hhead.
    assert ((if b1 =? start then Some true else Some (all p r1 (65536 * b1 + 65535)))
            = Some (if b1 =? start then true else all p r1 (65536 * b1 + 65535))) as -> by by destruct (b1 =? start).
    cbn [mbind option_bind]. destruct (if b1 =? start then true else _); cbn [negb andb]; [|done].
    destruct (b2 =? stop); [done|].
    pose proof (Hpack b2 0 (r2 mod 65536) ltac:(lia) ltac:(lia) ltac:(lia)) as Htail.
    cbv beta in Htail. rewrite pack_all, Z.add_0_r in Htail. fold b2 in Hrs0. rewrite <- Hrs0 in Htail. fold p in Htail. rewrite <- Htail.
    destruct (stat f b2) eqn:Est; [|done|done]. pose proof (lst_nonneg b2 ltac:(unfold in_packs; lia) Est). cmp_solve.
Qed.

Lemma cnt_packs_split : b1 < b2 ->
  cnt F r1 (r2 + 1) =
  cnt F (65536 * start) (if start <=? stop then 65536 * stop + bsize f stop else 65536 * start)
  + (if b1 =? start then 0 else cnt F r1 (65536 * b1 + 65536))
  + (if b2 =? stop then 0 else cnt F (65536 * b2) (r2 + 1)).
Proof.
  intros Hlt. destruct interval_packs as (? & ? & ? & ?). split_row r1. split_row r2. fold b1 in Hrs. fold b2 in Hrs0.
  pose proof (middle_end Hlt) as He.
  replace (if start <=? stop then 65536 * stop + bsize f stop else 65536 * start)
    with ((if b2 =? stop then r2 else 65536 * b2 - 1) + 1) by (rewrite He; case_cmp; lia).
  assert (r1 <= 65536 * start <= 65536 * b2) as Hs by (unfold start; cmp_solve).
  rewrite (cnt_split F r1 (65536 * start) (r2 + 1)) by lia.
  assert (cnt F r1 (65536 * start) = if b1 =? start then 0 else cnt F r1 (65536 * b1 + 65536)) as ->.
  { unfold start in *. destruct (Z.eqb_spec (r1 mod 65536) 0).
    - rewrite Z.eqb_refl. apply cnt_empty. lia.
    - destruct (Z.eqb_spec b1 (b1 + 1)); [lia|]. f_equal. lia. }
  destruct (b2 =? stop); [lia|]. replace (65536 * b2 - 1 + 1) with (65536 * b2) by lia.
  rewrite (cnt_split F (65536 * start) (65536 * b2) (r2 + 1)) by lia. lia.
Qed.

(** The loop of [NoOnesBetween] never meets a mixed pack without a block. *)
Lemma foldM_total {St A : Type} (step : St -> A -> option St) (step' : St -> A -> St) l :
  forall s, (forall s x, In x l -> step s x = Some (step' s x)) -> foldM step s l = Some (foldl step' s l).
Proof.
  induction l as [|x l IH]; intros s H; [done|]. cbn [foldM]. rewrite H by by left. cbn.
  apply IH. intros s' y Hy. apply H. by right.
Qed.

Lemma NoOnesBetween_loop a z c0 :
  0 <= a -> a <= z + 1 -> z < no_blocks f ->
  foldM (fun counter i =>
           match stat f i with
           | FB_MIXED => k ← blk f i; Some (counter + no_set_bits k)
           | FB_FULL => Some (counter + (lst f i + 1))
           | FB_EMPTY => Some counter
           end) c0 (range a z)
  = Some (c0 + cnt F (65536 * a) (if a <=? z then 65536 * z + bsize f z else 65536 * a)).
Proof.
  intros Ha Haz Hz. rewrite (foldM_total _ (fun c b => c + cnt F (65536 * b) (65536 * b + bsize f b))).
  - f_equal. by apply count_loop.
  - intros c b Hin%range_In. rewrite <- NoOnes_step by lia.
    assert (in_packs f b) as Hb by (unfold in_packs; lia). pose proof (proj2 HF b Hb) as Hp.
    unfold pack_denotes in Hp. destruct (stat f b); cbn [pack_rep] in Hp.
    + by rewrite is_st_refl.
    + by destruct Hp as (-> & _).
    + by destruct Hp as (k & -> & _).
Qed.

Lemma NoOnesBetween_spans : NoOnesBetween f r1 r2 = Some (cnt F r1 (r2 + 1)).
Proof.
  destruct interval_packs as (Hb & Hb2 & Hm1 & Hm2). unfold NoOnesBetween. rewrite !shiftr16, !land16.
  fold b1 b2. destruct (Z.eqb_spec r1 r2); [lia|]. split_row r1. split_row r2. fold b1 in Hrs. fold b2 in Hrs0.
  assert (forall b n1 n2, 0 <= b < no_blocks f -> 0 <= n1 <= n2 -> n2 < bsize f b -> _) as Hpack
    by (intros b n1 n2 Hi; exact (pack_NoOnesBetween f b _ (proj2 HF b Hi) n1 n2)).
  cbv beta in Hpack. destruct (Z.eqb_spec b1 b2) as [E|E].
  - rewrite (Hpack b1), pack_cnt by (rewrite ?E in *; lia). do 2 f_equal; lia.
  - assert (b1 < b2) as Hlt by lia. rewrite (cnt_packs_split Hlt). fold start stop.
    rewrite NoOnesBetween_loop; cycle 1.
    { unfold start. cmp_solve. }
    { rewrite stop_val. unfold start. case_cmp; lia. }
    { rewrite stop_val. case_cmp; lia. }
    cbn [mbind option_bind]. set (c := 0 + cnt F (65536 * start) _).
    pose proof (Hpack b1 (r1 mod 65536) 65535 ltac:(lia) ltac:(lia)
                  ltac:(rewrite bsize_mid by lia; lia)) as Hhead.
    rewrite pack_cnt, <- Hrs in Hhead.
    assert (lst f b1 <= 65535 \/ stat f b1 <> FB_FULL) as Hl1.
    { pose proof (proj2 HF b1 ltac:(unfold in_packs; lia)) as Hp. unfold pack_denotes in Hp.
      rewrite bsize_mid in Hp by lia. destruct (stat f b1); [left|by right|by right].
      destruct Hp as (_ & ? & _). lia. }
    match goal with |- context [if b1 =? start then Some c else ?h] =>
      assert ((if b1 =? start then Some c else h)
              = Some (c + if b1 =? start then 0 else cnt F r1 (65536 * b1 + 65536))) as -> end.
    { destruct (b1 =? start); [f_equal; lia|].
      replace (65536 * b1 + (65535 + 1)) with (65536 * b1 + 65536) in Hhead by lia.
      destruct (stat f b1); [|injection Hhead as <-; f_equal; lia|destruct (blk f b1); [|done]].
      - destruct Hl1; [|done]. injection Hhead as <-. f_equal. case_cmp; lia.
      - injection Hhead as <-. done. }
    cbn [mbind option_bind]. destruct (b2 =? stop); [f_equal; lia|].
    pose proof (Hpack b2 0 (r2 mod 65536) ltac:(lia) ltac:(lia) ltac:(lia)) as Htail.
    rewrite pack_cnt, Z.add_0_r, Z.add_assoc in Htail. rewrite <- Hrs0 in Htail.
    destruct (stat f b2) eqn:Est; [|injection Htail as <-; f_equal; lia|destruct (blk f b2); [|done]].
    + pose proof (lst_nonneg b2 ltac:(unfold in_packs; lia) Est). injection Htail as <-. f_equal. case_cmp; lia.
    + by injection Htail as <-.
Qed.
End WholeFilter.

Section Intervals.
Context (f : Filter) (F : Z -> bool) (HF : fdenotes f F) (r1 r2 : Z).
Context (Hr : 0 <= r1 <= r2) (Hr2 : r2 < NoObj f).

Lemma IsEmptyBetween_rows : IsEmptyBetween f r1 r2 = Some (all (fun r => negb (F r)) r1 r2).
Proof.
  destruct (Z.eq_dec r1 r2) as [->|]; [|apply IsEmptyBetween_spans; (done || lia)].
  unfold IsEmptyBetween. rewrite Z.eqb_refl, (fdenotes_Get f F) by (done || lia). cbn.
  unfold all. rewrite range_cons, range_nil by lia. cbn. by rewrite andb_true_r.
Qed.

Lemma NoOnesBetween_rows : NoOnesBetween f r1 r2 = Some (cnt F r1 (r2 + 1)).
Proof.
  destruct (Z.eq_dec r1 r2) as [->|]; [|apply NoOnesBetween_spans; (done || lia)].
  unfold NoOnesBetween. rewrite Z.eqb_refl, (fdenotes_Get f F) by (done || lia). cbn.
  rewrite cnt_first, cnt_empty by lia. rewrite Z.add_0_r. done.
Qed.
End Intervals.

(** ** The contract of a filter: rows, intervals, queries *)

(** The set operations the updates refine: add or remove one row or an interval of rows. *)
Definition with_row (F : Z -> bool) (r : Z) : Z -> bool := fun x => (x =? r) || F x.
Definition without_row (F : Z -> bool) (r : Z) : Z -> bool := fun x => negb (x =? r) && F x.
Definition with_rows (F : Z -> bool) (r1 r2 : Z) : Z -> bool := fun x => within r1 r2 x || F x.

(** Every row of the filter has the value [v]. *)
Definition every_row (f : Filter) (F : Z -> bool) (v : bool) : Prop :=
  forall r, 0 <= r < NoObj f -> F r = v.

(** The row counts whose number of packs fits an int. *)
Definition countable_rows (n : Z) : Prop := 0 <= n <= 2 ^ 47 - 2 ^ 16.

(** C27: a new filter of [n] rows (fewer than 2^47 - 2^16) holds all of them or none, and the
    single-row and interval updates set or clear exactly the rows named, keep the
    representation and, when changes are tracked, leave every pack not flagged untouched;
    [Get] reads the rows. *)
Theorem Filter_updates (f : Filter) (F : Z -> bool) (r1 r2 : Z)
    (HF : fdenotes f F) (Hr : 0 <= r1 <= r2) (Hr2 : r2 < NoObj f) :
  Get_row f r1 = Some (F r1) /\
  (exists f', Set_bn f (Z.shiftr r1 16) (Z.land r1 65535) = Some f' /\
              fdenotes f' (with_row F r1) /\ evolves f f') /\
  (exists f', Reset_bn f (Z.shiftr r1 16) (Z.land r1 65535) = Some f' /\
              fdenotes f' (without_row F r1) /\ evolves f f') /\
  (exists f', SetBetween_rows f r1 r2 = Some f' /\
              fdenotes f' (with_rows F r1 r2) /\ evolves f f') /\
  (exists f', ResetBetween_rows f r1 r2 = Some f' /\ fdenotes f' (minus F r1 r2) /\ evolves f f').
Proof.
  split; [apply fdenotes_Get; (done || lia)|]. split; [apply Set_row; (done || lia)|].
  split; [apply Reset_row; (done || lia)|]. split; [by apply SetBetween_rows_spec|by apply ResetBetween_rows_spec].
Qed.

Lemma Filter_updates_witness :
  Get_row (Construct 2 100 true) 3 = Some true /\
  exists f', ResetBetween_rows (Construct 2 100 true) 3 65540 = Some f' /\
             fdenotes f' (minus (fun _ => true) 3 65540) /\ evolves (Construct 2 100 true) f'.
Proof.
  destruct (Filter_updates (Construct 2 100 true) (fun _ => true) 3 65540) as (H1 & _ & _ & _ & H2).
  - apply fdenotes_Construct; lia.
  - lia.
  - vm_compute. done.
  - split; [exact H1|exact H2].
Defined.

(** C40: construction gives the rows asked for, within the range of row counts whose number of
    packs fits an int; more than [MAX_ROW_NUMBER] rows is an error. *)
Theorem Filter_new_contract (n : Z) (v : bool) :
  (countable_rows n ->
   exists f, Filter_new n v = Some f /\ fdenotes f (fun _ => v) /\ NoObj f = n) /\
  (MAX_ROW_NUMBER < n -> Filter_new n v = None).
Proof.
  split; [apply Filter_new_rows|]. intros H. unfold Filter_new. destruct (Z.ltb_spec MAX_ROW_NUMBER n); [done|lia].
Qed.

Lemma Filter_new_contract_witness :
  (exists f, Filter_new 70000 true = Some f /\ fdenotes f (fun _ => true) /\ NoObj f = 70000) /\
  Filter_new (2 ^ 47) true = None.
Proof.
  split; [apply (proj1 (Filter_new_contract 70000 true)); split; lia|].
  apply (proj2 (Filter_new_contract (2 ^ 47) true)). reflexivity.
Defined.

(** C34: [IsEmpty], [IsFull], [NoOnes] of the filter and of a pack, [IsEmptyBetween] and
    [NoOnesBetween] answer for the set of rows: whether no row and whether every row is set, the
    numbers of set rows of the filter, of a pack and of an interval, and whether an interval has no
    set row; none of these queries meets a missing block.  Of the other queries, [IsFullBetween] and
    [IsEqual] do not answer for the set: [Filter_IsFullBetween_null] and [Filter_IsEqual_wrong]
    below. *)
Theorem Filter_queries (f : Filter) (F : Z -> bool) (HF : fdenotes f F) :
  (IsEmpty f = true <-> every_row f F false) /\
  (IsFull f = true <-> every_row f F true) /\
  NoOnes f = cnt F 0 (NoObj f) /\
  (forall b, in_packs f b -> NoOnes_b f b = cnt F (65536 * b) (65536 * b + bsize f b)) /\
  (forall r1 r2, 0 <= r1 <= r2 -> r2 < NoObj f ->
     IsEmptyBetween f r1 r2 = Some (all (fun r => negb (F r)) r1 r2) /\
     NoOnesBetween f r1 r2 = Some (cnt F r1 (r2 + 1))).
Proof.
  split; [by apply IsEmpty_spec|]. split; [by apply IsFull_spec|]. split; [by apply NoOnes_spec|].
  split; [by apply NoOnes_b_spec|]. intros r1 r2 H1 H2.
  split; [by apply IsEmptyBetween_rows|by apply NoOnesBetween_rows].
Qed.

Lemma Filter_queries_witness :
  NoOnes (Construct 2 100 true) = cnt (fun _ => true) 0 (NoObj (Construct 2 100 true)) /\
  IsEmptyBetween (Construct 2 100 true) 7 65540 = Some (all (fun _ => negb true) 7 65540).
Proof.
  destruct (Filter_queries (Construct 2 100 true) (fun _ => true)) as (_ & _ & H1 & _ & H2).
  - apply fdenotes_Construct; lia.
  - split; [exact H1|]. refine (proj1 (H2 7 65540 _ _)); [lia|reflexivity].
Defined.

(** Ten rows of two packs, as a prefix of the first pack. *)
Definition prefix_filter : Filter := SetBetween (Construct 2 100 false) 0 0 0 9.

(** [IsFullBetween] dereferences the missing block of a pack that is a full prefix when
    the interval starts inside that pack and ends in another one. *)
Theorem Filter_IsFullBetween_null :
  stat prefix_filter 0 = FB_FULL /\ lst prefix_filter 0 = 9 /\ IsFullBetween prefix_filter 5 65540 = None.
Proof. vm_compute. done. Qed.

(** [IsEqual] can answer that two filters over the same rows are equal although they
    differ: it compares the rows of the first pack in place of those of the pack at hand. *)
Theorem Filter_IsEqual_wrong :
  let f := SetBetween (SetBetween (Construct 2 100 false) 0 0 0 4) 1 0 1 4 in
  let sec := SetBetween (SetBetween (Construct 2 100 false) 0 0 0 4) 1 50 1 60 in
  IsEqual f sec = Some true /\ Get_row f 65536 = Some true /\ Get_row sec 65536 = Some false.
Proof. vm_compute. done. Qed.
