(* ===== verification/FilterLogic.v ===== *)
(** * Row filters: conjunction, disjunction, difference and complement

    The pack-by-pack logical operations of core/Filter.cpp against the operations on sets of
    rows, for two filters over the same rows. *)

From stdpp Require Import option.
From S2P Require Import Prelude BinTools FilterBlock FilterDefs FilterCore FilterRefine FilterQuery.

(** The invariant rule of a counted loop whose body can fail. *)
Lemma foldM_range {S : Type} (step : S -> Z -> option S) (I : Z -> S -> Prop) (a b : Z) (s : S) :
  a <= b + 1 -> I a s ->
  (forall i s', a <= i <= b -> I i s' -> exists s'', step s' i = Some s'' /\ I (i + 1) s'') ->
  exists s', foldM step s (range a b) = Some s' /\ I (b + 1) s'.
Proof.
  intros Hab HI Hstep.
  assert (forall n c s', b + 1 - c = Z.of_nat n -> a <= c -> I c s' ->
            exists s'', foldM step s' (range c b) = Some s'' /\ I (b + 1) s'') as H.
  { induction n as [|n IH]; intros c s' Hn Hc HI'.
    - rewrite range_nil by lia. exists s'. replace (b + 1) with c by lia. done.
    - rewrite range_cons by lia. cbn [foldM].
      destruct (Hstep c s' ltac:(lia) HI') as (s'' & -> & HI''). cbn. apply IH; [lia|lia|done]. }
  apply (H (Z.to_nat (b + 1 - a))); [lia|lia|done].
Qed.

(** What one round of a logical operation does to pack [b]: nothing at all, or an update. *)
Definition pack_moved (f f' : Filter) (b : Z) (h : Z -> bool) : Prop :=
  (f' = f /\ pack_denotes f b h) \/ pack_update f f' b h.

Definition same_rows (f f2 : Filter) : Prop :=
  no_blocks f = no_blocks f2 /\ no_of_bits_in_last_block f = no_of_bits_in_last_block f2.

Lemma pack_moved_ext f f' b g h : pack_moved f f' b g -> eq_upto (bsize f b) g h -> pack_moved f f' b h.
Proof.
  intros [[-> Hp]|Hu] E; [left|right].
  - split; [done|]. by rewrite <- E.
  - by apply (pack_update_ext _ _ _ g).
Qed.

(** A mixed pack made of a given block, possibly narrowed or widened afterwards. *)
Lemma mixed_pack f b k g :
  shape f -> in_packs f b -> denotes k (bsize f b) g -> 0 < cnt g 0 (bsize f b) < bsize f b ->
  let f' := set_stat (set_blk f b (Some k)) b FB_MIXED in
  frame b f f' /\ pack_denotes f' b g.
Proof.
  intros Hf Hb Hd Hc f'. subst f'. split; [frame_tac|]. unfold pack_denotes. frd.
  exists k. done.
Qed.

Section Steps.
Context (junk : Z -> Z) (f f2 : Filter) (Hf : shape f) (Hs : same_rows f f2).
Context (b : Z) (Hb : in_packs f b) (g g2 : Z -> bool).
Context (Hg : pack_denotes f b g) (Hg2 : pack_denotes f2 b g2).

Let S := bsize f b.

Lemma bsize_same : bsize f2 b = S.
Proof. unfold S, bsize. by rewrite (proj1 Hs), (proj2 Hs). Qed.

Lemma moved_mark f' h : frame b f f' -> pack_denotes f' b h -> pack_moved f (mark f' b) b h.
Proof. intros. right. by apply pack_update_mark. Qed.

Lemma reset1 f1 h n1 n2 :
  frame b f f1 -> pack_denotes f1 b h -> 0 <= n1 <= n2 -> n2 < S ->
  pack_update f (ResetBetween f1 b n1 b n2) b (minus h n1 n2).
Proof.
  intros Hfr Hh Hn Hn2. apply (pack_update_pre f f1); [done|]. unfold ResetBetween. rewrite Z.eqb_refl.
  apply ResetBetween1_update; [apply Hfr|by apply (frame_in_packs b f)|done|done|].
  rewrite (frame_bsize b f f1); done.
Qed.

Lemma set1 f1 h n1 n2 :
  frame b f f1 -> pack_denotes f1 b h -> 0 <= n1 <= n2 -> n2 < S ->
  pack_update f (SetBetween f1 b n1 b n2) b (fun m => within n1 n2 m || h m).
Proof.
  intros Hfr Hh Hn Hn2. apply (pack_update_pre f f1); [done|]. unfold SetBetween. rewrite Z.eqb_refl.
  apply SetBetween1_update; [apply Hfr|by apply (frame_in_packs b f)|done|done|].
  rewrite (frame_bsize b f f1); done.
Qed.

Lemma update_mark f' h : pack_update f f' b h -> pack_moved f (mark f' b) b h.
Proof. intros [Hfr Hp _]. by apply moved_mark. Qed.

Lemma And_step_ok :
  exists f', And_step junk f2 f b = Some f' /\ pack_moved f f' b (fun m => g m && g2 m).
Proof.
  pose proof (bsize_bound f b Hf Hb) as HS. pose proof bsize_same as Eb2. fold S in HS.
  unfold And_step, pack_denotes in *. rewrite Eb2 in Hg2. fold S in Hg.
  destruct (stat f2 b); cbn [pack_rep] in Hg2.
  - destruct Hg2 as (_ & Hl2 & E2). eexists. split; [reflexivity|]. rewrite end_block_bsize. fold S.
    destruct (Z.ltb_spec (lst f2 b) (S - 1)).
    + right. refine (pack_update_ext _ _ _ _ _ (reset1 f g _ _ _ Hg _ _) _); [frame_tac|lia|lia|].
      intros m Hm. fold S in Hm. unfold minus, within. rewrite E2 by done. destruct (g m); cmp_solve.
    + left. split; [done|]. refine (proj1 (pack_rep_proper S _ _ _ _ _ _) Hg).
      intros m Hm. rewrite E2 by done. destruct (g m); cmp_solve.
  - destruct Hg2 as (_ & E2). eexists. split; [reflexivity|]. right.
    refine (pack_update_ext _ _ _ _ _ (ResetBlock_update f Hf b Hb) _).
    intros m Hm. rewrite E2 by done. by rewrite andb_false_r.
  - destruct Hg2 as (k2 & Ek2 & Hd2 & Hc2). rewrite Ek2. cbn [mbind option_bind].
    pose proof (denotes_copy junk _ _ _ Hd2) as Hdc.
    destruct (mixed_pack f b _ _ Hf Hb Hdc Hc2) as [Hfr Hp].
    destruct (stat f b) eqn:Est; cbn [pack_rep] in Hg.
    + destruct Hg as (_ & Hl & Eg). rewrite is_st_refl. cbn [mbind option_bind].
      eexists. split; [reflexivity|]. rewrite end_block_bsize.
      rewrite (frame_bsize b f _ b Hfr). fold S. destruct (Z.ltb_spec (lst f b) (S - 1)).
      * apply update_mark. refine (pack_update_ext _ _ _ _ _ (reset1 _ _ _ _ Hfr Hp _ _) _); [lia|lia|].
        intros m Hm. fold S in Hm. unfold minus, within. rewrite Eg by done. destruct (g2 m); cmp_solve.
      * refine (pack_moved_ext _ _ _ _ _ (moved_mark _ _ Hfr Hp) _).
        intros m Hm. fold S in Hm. rewrite Eg by done. cmp_solve.
    + destruct Hg as (Ek & Eg). change (is_st FB_EMPTY FB_FULL) with false. rewrite Ek. cbn [mbind option_bind].
      eexists. split; [reflexivity|]. apply moved_mark; [frame_tac|]. unfold pack_denotes. rewrite Est.
      split; [done|]. intros m Hm. by rewrite Eg.
    + destruct Hg as (k & Ek & Hd & Hc). change (is_st FB_MIXED FB_FULL) with false. rewrite Ek. cbn [mbind option_bind].
      eexists. split; [reflexivity|].
      destruct (on_block_reset f b k (fun k => And_ k k2) (fun m => g m && g2 m)) as [Hfr2 Hp2]; try done.
      * fold S. rewrite (And_flag_same k k2 S g g2 Hd Hd2), cnt_zero. done.
      * intros _. by apply denotes_And_same.
      * fold S. destruct (cnt_not_full g 0 S) as (m & Hm & E); [lia|]. exists m. by rewrite E.
      * by apply moved_mark.
Qed.

Lemma Or_step_ok :
  exists f', Or_step junk f2 f b = Some f' /\ pack_moved f f' b (fun m => g m || g2 m).
Proof.
  pose proof (bsize_bound f b Hf Hb) as HS. pose proof bsize_same as Eb2. fold S in HS.
  unfold Or_step, pack_denotes in *. rewrite Eb2 in Hg2. fold S in Hg.
  destruct (stat f2 b); cbn [pack_rep] in Hg2.
  - destruct Hg2 as (_ & Hl2 & E2). eexists. split; [reflexivity|]. right.
    refine (pack_update_ext _ _ _ _ _ (set1 f g _ _ _ Hg _ _) _); [frame_tac|lia|lia|].
    intros m Hm. fold S in Hm. unfold within. rewrite E2 by done. destruct (g m); cmp_solve.
  - destruct Hg2 as (_ & E2). eexists. split; [reflexivity|]. left. split; [done|].
    refine (proj1 (pack_rep_proper S _ _ _ _ _ _) Hg). intros m Hm. by rewrite E2, orb_false_r.
  - destruct Hg2 as (k2 & Ek2 & Hd2 & Hc2). rewrite Ek2. cbn [mbind option_bind].
    pose proof (denotes_copy junk _ _ _ Hd2) as Hdc.
    destruct (mixed_pack f b _ _ Hf Hb Hdc Hc2) as [Hfr Hp].
    destruct (stat f b) eqn:Est; cbn [pack_rep] in Hg.
    + destruct Hg as (Ek & Hl & Eg). change (is_st FB_FULL FB_EMPTY) with false. rewrite Ek, end_block_bsize. fold S.
      destruct (Z.ltb_spec (lst f b) (S - 1)); cbn [mbind option_bind]; (eexists; split; [reflexivity|]).
      * apply update_mark. refine (pack_update_ext _ _ _ _ _ (set1 _ _ _ _ Hfr Hp _ _) _); [lia|lia|].
        intros m Hm. fold S in Hm. unfold within. rewrite Eg by done. destruct (g2 m); cmp_solve.
      * apply moved_mark; [frame_tac|]. unfold pack_denotes. fold S. rewrite Est. split; [done|]. split; [lia|].
        intros m Hm. rewrite Eg by done. destruct (g2 m); cmp_solve.
    + destruct Hg as (Ek & Eg). rewrite is_st_refl. cbn [mbind option_bind]. eexists. split; [reflexivity|].
      refine (pack_moved_ext _ _ _ _ _ (moved_mark _ _ Hfr Hp) _). intros m Hm. by rewrite Eg.
    + destruct Hg as (k & Ek & Hd & Hc). change (is_st FB_MIXED FB_EMPTY) with false. rewrite Ek. cbn [mbind option_bind].
      eexists. split; [reflexivity|]. destruct (cnt_pos_ex g 0 S) as (m & Hm & E); [lia|].
      destruct (on_block_set f b k (fun k => Or_ k k2) (fun m => g m || g2 m)) as [Hfr2 Hp2]; try done.
      * by apply denotes_Or.
      * apply Or_flag; [done|done|]. by exists m.
      * exists m. by rewrite E.
      * by apply moved_mark.
Qed.

Lemma AndNot_step_ok :
  exists f', AndNot_step junk f2 f b = Some f' /\ pack_moved f f' b (fun m => g m && negb (g2 m)).
Proof.
  pose proof (bsize_bound f b Hf Hb) as HS. pose proof bsize_same as Eb2. fold S in HS.
  unfold AndNot_step, pack_denotes in *. rewrite Eb2 in Hg2. fold S in Hg.
  destruct (stat f2 b); cbn [pack_rep] in Hg2.
  - destruct Hg2 as (_ & Hl2 & E2). eexists. split; [reflexivity|]. right.
    refine (pack_update_ext _ _ _ _ _ (reset1 f g _ _ _ Hg _ _) _); [frame_tac|lia|lia|].
    intros m Hm. fold S in Hm. unfold minus, within. rewrite E2 by done. destruct (g m); cmp_solve.
  - destruct Hg2 as (_ & E2). eexists. split; [reflexivity|]. left. split; [done|].
    refine (proj1 (pack_rep_proper S _ _ _ _ _ _) Hg). intros m Hm. rewrite E2 by done. by rewrite andb_true_r.
  - destruct Hg2 as (k2 & Ek2 & Hd2 & Hc2). rewrite Ek2. cbn [mbind option_bind].
    pose proof (denotes_Not _ _ _ (denotes_copy junk _ _ _ Hd2)) as Hdc.
    assert (0 < cnt (fun m => negb (g2 m)) 0 S < S) as Hcn by (rewrite cnt_negb by lia; lia).
    destruct (stat f b) eqn:Est; cbn [pack_rep] in Hg.
    + destruct Hg as (_ & Hl & Eg). change (is_st FB_FULL FB_EMPTY) with false. rewrite is_st_refl. cbn [mbind option_bind].
      set (f1 := set_blk _ b (Some (Not_ _))).
      assert (frame b f f1) as Hfr by (subst f1; frame_tac).
      assert (pack_denotes f1 b (fun m => negb (g2 m))) as Hp.
      { subst f1. unfold pack_denotes. frd. eexists. split; [reflexivity|]. done. }
      eexists. split; [reflexivity|]. rewrite end_block_bsize, (frame_bsize b f f1 b Hfr). fold S.
      destruct (Z.ltb_spec (lst f b) (S - 1)).
      * apply update_mark. refine (pack_update_ext _ _ _ _ _ (reset1 _ _ _ _ Hfr Hp _ _) _); [lia|lia|].
        intros m Hm. fold S in Hm. unfold minus, within. rewrite Eg by done. destruct (g2 m); cmp_solve.
      * refine (pack_moved_ext _ _ _ _ _ (moved_mark _ _ Hfr Hp) _).
        intros m Hm. fold S in Hm. rewrite Eg by done. cmp_solve.
    + destruct Hg as (Ek & Eg). rewrite is_st_refl. eexists. split; [reflexivity|]. left. split; [done|].
      unfold pack_denotes. rewrite Est. split; [done|]. intros m Hm. by rewrite Eg.
    + destruct Hg as (k & Ek & Hd & Hc). change (is_st FB_MIXED FB_EMPTY) with false.
      change (is_st FB_MIXED FB_FULL) with false. rewrite Ek. cbn [mbind option_bind].
      eexists. split; [reflexivity|].
      destruct (on_block_reset f b k (fun k => AndNot k k2) (fun m => g m && negb (g2 m))) as [Hfr2 Hp2]; try done.
      * fold S. rewrite (AndNot_flag_same k k2 S g g2 Hd Hd2), cnt_zero. done.
      * intros _. by apply denotes_AndNot_same.
      * fold S. destruct (cnt_not_full g 0 S) as (m & Hm & E); [lia|]. exists m. by rewrite E.
      * by apply moved_mark.
Qed.
End Steps.

(** ** The loops over the packs *)

Lemma fdenotes_moved f f' b F G :
  fdenotes f F -> in_packs f b -> pack_moved f f' b (fun m => G (65536 * b + m)) ->
  fdenotes f' (fun r => if r / 65536 =? b then G r else F r) /\ evolves f f'.
Proof.
  intros HF Hb [[-> Hp]|Hu].
  - split; [|apply evolves_refl]. destruct HF as [Hf HF]. split; [done|]. intros c Hc.
    pose proof (bsize_bound f c Hf Hc). destruct (Z.eq_dec c b) as [->|].
    + refine (proj1 (pack_denotes_proper f b _ _ _) Hp). intros m Hm.
      destruct (row_pos b m ltac:(lia)) as [-> _]. by rewrite Z.eqb_refl.
    + refine (proj1 (pack_denotes_proper f c _ _ _) (HF c Hc)). intros m Hm.
      destruct (row_pos c m ltac:(lia)) as [-> _]. cmp_solve.
  - apply (fdenotes_update_to f f' b F _ _ HF Hb Hu). intros r Hr. split_row r.
    destruct (Z.eqb_spec (r / 65536) b) as [<-|]; [|done]. f_equal. lia.
Qed.

Section Loops.
Context (f f2 : Filter) (F F2 : Z -> bool) (HF : fdenotes f F) (HF2 : fdenotes f2 F2).
Context (Hs : same_rows f f2).

Lemma logic_loop (step : Filter -> Z -> option Filter) (op : bool -> bool -> bool) :
  (forall f' F' b, shape f' -> same_rows f' f2 -> in_packs f' b ->
     pack_denotes f' b (fun m => F' (65536 * b + m)) ->
     exists f'', step f' b = Some f'' /\
       pack_moved f' f'' b (fun m => op (F' (65536 * b + m)) (F2 (65536 * b + m)))) ->
  exists f', foldM step f (range 0 (Z.min (no_blocks f2) (no_blocks f) - 1)) = Some f' /\
             fdenotes f' (fun r => op (F r) (F2 r)) /\ evolves f f'.
Proof.
  intros Hstep. rewrite <- (proj1 Hs), Z.min_id. pose proof (sh_nb f (proj1 HF)) as Hnb.
  destruct (foldM_range step
    (fun i f' => fdenotes f' (fun r => if r / 65536 <? i then op (F r) (F2 r) else F r) /\ evolves f f')
    0 (no_blocks f - 1) f) as (f' & Ef & Hf' & He); [lia| | |].
  - split; [|apply evolves_refl]. apply (fdenotes_ext f F); [done|]. intros r Hr. split_row r. cmp_solve.
  - intros i f' Hi [Hf' He].
    assert (in_packs f' i) as Hip by (apply (evolves_in_packs f); [done|unfold in_packs; lia]).
    set (F' := fun r => if r / 65536 <? i then op (F r) (F2 r) else F r) in *.
    destruct (Hstep f' F' i) as (f'' & E & Hm); [apply Hf'| |done|by apply Hf'|].
    { destruct Hs. split; [rewrite (ev_nb f f' He)|rewrite (ev_bits f f' He)]; done. }
    destruct (fdenotes_moved f' f'' i F' (fun r => op (F' r) (F2 r)) Hf' Hip Hm) as [Hf'' He'].
    exists f''. split; [done|]. split; [|by apply (evolves_trans f f')].
    apply (fdenotes_ext _ _ _ Hf''). intros r _. unfold F'. cmp_solve.
  - exists f'. split; [done|]. split; [|done]. apply (fdenotes_ext _ _ _ Hf'). intros r Hr.
    destruct (row_in_packs f' (proj1 Hf') r Hr) as [Hin _]. unfold in_packs in Hin.
    rewrite (ev_nb f f' He) in Hin. cmp_solve.
Qed.

Lemma And_rows junk :
  exists f', And junk f f2 = Some f' /\ fdenotes f' (fun r => F r && F2 r) /\ evolves f f'.
Proof.
  apply logic_loop. intros f' F' b Hf' Hs' Hb Hp. apply And_step_ok; try done. apply HF2.
  unfold in_packs in *. by rewrite <- (proj1 Hs').
Qed.

Lemma Or_rows junk :
  exists f', Or junk f f2 (-1) = Some f' /\ fdenotes f' (fun r => F r || F2 r) /\ evolves f f'.
Proof.
  unfold Or. apply logic_loop. intros f' F' b Hf' Hs' Hb Hp. apply Or_step_ok; try done. apply HF2.
  unfold in_packs in *. by rewrite <- (proj1 Hs').
Qed.

Lemma Or_pack junk b : in_packs f b ->
  exists f', Or junk f f2 b = Some f' /\
    fdenotes f' (fun r => if r / 65536 =? b then F r || F2 r else F r) /\ evolves f f'.
Proof.
  intros Hb. unfold Or, in_packs in *. rewrite <- (proj1 Hs), Z.min_id.
  destruct (Z.eqb_spec b (-1)); [lia|]. destruct (Z.ltb_spec b (no_blocks f)); [|lia].
  destruct (Or_step_ok junk f f2 (proj1 HF) Hs b Hb _ _ (proj2 HF b Hb)
              (proj2 HF2 b ltac:(unfold in_packs; rewrite <- (proj1 Hs); done))) as (f' & E & Hm).
  exists f'. split; [done|]. by apply (fdenotes_moved f f' b F (fun r => F r || F2 r)).
Qed.

Lemma AndNot_rows junk :
  exists f', AndNot_filter junk f f2 = Some f' /\ fdenotes f' (fun r => F r && negb (F2 r)) /\ evolves f f'.
Proof.
  apply (logic_loop _ (fun x y => x && negb y)). intros f' F' b Hf' Hs' Hb Hp. apply AndNot_step_ok; try done. apply HF2.
  unfold in_packs in *. by rewrite <- (proj1 Hs').
Qed.
End Loops.

(** ** Complement *)

Section NotStep.
Context (f : Filter) (Hf : shape f) (b : Z) (Hb : in_packs f b) (g : Z -> bool) (Hg : pack_denotes f b g).

Let S := bsize f b.

Lemma Not_step_ok :
  exists f', Not_step f b = Some f' /\ frame b f f' /\ pack_denotes f' b (fun m => negb (g m)).
Proof.
  pose proof (bsize_bound f b Hf Hb) as HS. fold S in HS. unfold Not_step. rewrite end_block_bsize. fold S.
  pose proof Hg as Hg'. unfold pack_denotes in Hg'. fold S in Hg'. destruct (stat f b) eqn:Est; cbn [pack_rep] in Hg'.
  - destruct Hg' as (Ek & Hl & Eg). destruct (Z.ltb_spec (lst f b) (S - 1)).
    + eexists. split; [reflexivity|]. set (f1 := set_lst f b (S - 1)).
      assert (frame b f f1) as Hfr by (subst f1; frame_tac).
      assert (pack_denotes f1 b (fun _ => true)) as Hp1.
      { subst f1. unfold pack_denotes. frd. fold S. rewrite Est. split; [done|]. split; [lia|].
        intros m Hm. cmp_solve. }
      assert (pack_update f (ResetBetween f1 b 0 b (lst f b)) b (fun m => negb (g m))) as [H1 H2 _].
      { refine (pack_update_ext _ _ _ _ _ (reset1 f b Hb f1 _ 0 (lst f b) Hfr Hp1 _ _) _); [lia|fold S; lia|].
        intros m Hm. fold S in Hm. unfold minus, within. rewrite Eg by done. cmp_solve. }
      done.
    + eexists. split; [reflexivity|]. split; [frame_tac|]. unfold pack_denotes. frd. split; [done|].
      fold S. intros m Hm. rewrite Eg by done. cmp_solve.
  - destruct Hg' as (Ek & Eg). eexists. split; [reflexivity|]. split; [frame_tac|]. unfold pack_denotes. frd. fold S.
    split; [done|]. split; [lia|]. intros m Hm. rewrite Eg by done. cmp_solve.
  - destruct Hg' as (k & Ek & Hd & Hc). rewrite Ek. cbn. eexists. split; [reflexivity|]. split; [frame_tac|].
    unfold pack_denotes. frd. rewrite Est. fold S. exists (Not_ k). split; [done|]. split; [by apply denotes_Not|].
    rewrite cnt_negb by lia. lia.
Qed.
End NotStep.

(** What a write of the packs without their change flags keeps. *)
Record unflagged (f f' : Filter) : Prop := {
  uf_shape : shape f';
  uf_nb : no_blocks f' = no_blocks f;
  uf_bits : no_of_bits_in_last_block f' = no_of_bits_in_last_block f;
  uf_track : track_changes f' = track_changes f;
  uf_chg : forall c, WasBlockChanged f c = true -> WasBlockChanged f' c = true;
  uf_out : forall c, ~ in_packs f c -> stat f' c = stat f c /\ blk f' c = blk f c /\ lst f' c = lst f c;
  uf_ds : delayed_stats f' = delayed_stats f;
  uf_db : delayed_block f' = delayed_block f;
  uf_dss : delayed_stats_set f' = delayed_stats_set f;
  uf_dbs : delayed_block_set f' = delayed_block_set f
}.

Lemma unflagged_refl f : shape f -> unflagged f f.
Proof. by split. Qed.

Lemma unflagged_frame f f' f'' b : unflagged f f' -> in_packs f b -> frame b f' f'' -> unflagged f f''.
Proof.
  intros [a0 a1 a2 a3 a4 a5 a6 a7 a8 a9] Hb [b0 b1 b2 b3 b4 b5 b6 b7 b8 b9 b10 b11].
  split; try congruence; [by auto|].
  intros c Hc. assert (c <> b) by (intros ->; done). rewrite b4, b5, b6 by done. by apply a5.
Qed.

Lemma mark_all_rows f F : fdenotes f F -> fdenotes (mark_all f) F.
Proof.
  intros [Hf HF]. unfold mark_all. destruct (track_changes f) eqn:E; [|done].
  split; [|exact HF]. destruct Hf. split; try done. intros _. simpl. unfold zlen in *. rewrite length_map. auto.
Qed.

Lemma mark_all_evolves f f' : unflagged f f' -> evolves f (mark_all f').
Proof.
  intros [a0 a1 a2 a3 a4 a5 a6 a7 a8 a9]. unfold mark_all.
  destruct (track_changes f') eqn:E; [|split; try done; congruence].
  assert (forall c, in_packs f c -> WasBlockChanged (mkFilter (no_blocks f') (block_status f') (blocks f')
    (no_of_bits_in_last_block f') (map (fun _ => true) (was_block_changed f')) true (block_last_one f')
    (delayed_stats f') (delayed_block f') (delayed_stats_set f') (delayed_block_set f')) c = true) as Hall.
  { intros c Hc. unfold WasBlockChanged. simpl. pose proof (sh_chg f' a0 E) as Hl. unfold in_packs in Hc.
    apply (znth_Forall (fun x => x = true)).
    - apply Forall_forall. intros x Hx. apply list_elem_of_In, in_map_iff in Hx as (? & <- & _). done.
    - unfold zlen in *. rewrite length_map. lia. }
  split; try done; try (simpl; congruence).
  - intros c Hc. specialize (a4 c Hc). destruct (decide (0 <= c < no_blocks f)) as [Hin|Hout]; [by apply Hall|].
    exfalso. unfold WasBlockChanged, znth in a4. pose proof (sh_chg f' a0 E) as Hl. unfold zlen in Hl.
    destruct (Z.ltb_spec c 0); [done|]. rewrite nth_overflow in a4 by lia. done.
  - intros c Ht Hch. apply a5. intros Hin. rewrite Hall in Hch; done.
Qed.

Lemma Not_rows f F : fdenotes f F ->
  exists f', Not f = Some f' /\ fdenotes f' (fun r => negb (F r)) /\ evolves f f'.
Proof.
  intros HF. pose proof (sh_nb f (proj1 HF)) as Hnb. unfold Not.
  destruct (foldM_range Not_step
    (fun i f' => fdenotes f' (fun r => if r / 65536 <? i then negb (F r) else F r) /\ unflagged f f')
    0 (no_blocks f - 1) f) as (f' & -> & Hf' & Hu); [lia| | |].
  - split; [|apply unflagged_refl, HF]. apply (fdenotes_ext f F); [done|]. intros r Hr. split_row r. cmp_solve.
  - intros i f' Hi [Hf' Hu].
    assert (in_packs f' i) as Hip by (unfold in_packs; rewrite (uf_nb f f' Hu); lia).
    destruct (Not_step_ok f' (proj1 Hf') i Hip _ (proj2 Hf' i Hip)) as (f'' & E & Hfr & Hp).
    exists f''. split; [done|]. split; [|apply (unflagged_frame f f' f'' i); [done|unfold in_packs; lia|done]].
    split; [apply Hfr|]. intros c Hc. assert (in_packs f' c) as Hc' by (unfold in_packs in *; by rewrite <- (fr_nb i f' f'' Hfr)).
    pose proof (bsize_bound f' c (proj1 Hf') Hc') as HS. rewrite <- (frame_bsize i f' f'' c Hfr) in HS.
    destruct (Z.eq_dec c i) as [->|Hne].
    + refine (proj1 (pack_denotes_proper f'' i _ _ _) Hp). intros m Hm. destruct (row_pos i m ltac:(lia)) as [-> _]. cmp_solve.
    + refine (proj1 (pack_denotes_proper f'' c _ _ _) (proj2 (frame_pack i f' f'' c _ Hfr Hne) (proj2 Hf' c Hc'))).
      intros m Hm. destruct (row_pos c m ltac:(lia)) as [-> _]. cmp_solve.
  - cbn. eexists. split; [reflexivity|]. split; [|by apply mark_all_evolves].
    apply mark_all_rows, (fdenotes_ext _ _ _ Hf'). intros r Hr.
    destruct (row_in_packs f' (proj1 Hf') r Hr) as [Hin _]. unfold in_packs in Hin. rewrite (uf_nb f f' Hu) in Hin. cmp_solve.
Qed.

(** ** The contract of the logical operations *)

(** C28: for filters over the same rows, [And], [Or], [AndNot] and [Not] are intersection,
    union, difference and complement of the sets of rows, keep the representation and report
    the changed packs. *)
Theorem Filter_logic (junk : Z -> Z) (f f2 : Filter) (F F2 : Z -> bool)
    (HF : fdenotes f F) (HF2 : fdenotes f2 F2) (Hs : same_rows f f2) :
  (exists f', And junk f f2 = Some f' /\ fdenotes f' (fun r => F r && F2 r) /\ evolves f f') /\
  (exists f', Or junk f f2 (-1) = Some f' /\ fdenotes f' (fun r => F r || F2 r) /\ evolves f f') /\
  (forall b, in_packs f b -> exists f', Or junk f f2 b = Some f' /\
     fdenotes f' (fun r => if r / 65536 =? b then F r || F2 r else F r) /\ evolves f f') /\
  (exists f', AndNot_filter junk f f2 = Some f' /\ fdenotes f' (fun r => F r && negb (F2 r)) /\ evolves f f') /\
  (exists f', Not f = Some f' /\ fdenotes f' (fun r => negb (F r)) /\ evolves f f').
Proof.
  split; [by apply And_rows|]. split; [by apply Or_rows|]. split; [intros b Hb; by apply Or_pack|].
  split; [by apply AndNot_rows|by apply Not_rows].
Qed.

Lemma Filter_logic_witness :
  exists f', And (fun _ => 0) (Construct 2 100 true) (Construct 2 100 false) = Some f' /\
             fdenotes f' (fun _ => true && false) /\ evolves (Construct 2 100 true) f'.
Proof.
  destruct (Filter_logic (fun _ => 0) (Construct 2 100 true) (Construct 2 100 false) (fun _ => true) (fun _ => false))
    as (H & _); [apply fdenotes_Construct; lia|apply fdenotes_Construct; lia|done|exact H].
Defined.

(** [Reset(Filter &)] can leave a row it should clear: rows 0 .. 3 and 50 are taken out of a
    filter that holds rows 0 .. 3; the pack stays mixed with no ones, a row beyond reads as set,
    and no change is recorded. *)
Theorem Filter_Reset_filter_residue :
  let f := StartTrackingChanges (SetBetween (Construct 1 100 false) 0 0 0 3) in
  let f2 := ResetBetween (SetBetween (Construct 1 100 false) 0 0 0 99) 0 4 0 99 in
  let f2 := SetBetween f2 0 50 0 50 in
  exists f', Reset_filter (fun _ => 0) f f2 = Some f' /\
             NoOnes f' = 0 /\ IsEmpty f' = false /\ Get_row f' 99 = Some true /\ WasBlockChanged f' 0 = false.
Proof. eexists. split; [reflexivity|]. vm_compute. done. Qed.
