(* ===== verification/FilterDelayed.v ===== *)
(** * Row filters: delayed operations

    [ResetDelayed] and [SetDelayed] only note a growing prefix of a pack and apply it when the
    order is broken or at [Commit].  A run of delayed resets followed by [Commit] is the run of
    direct resets; a run of delayed sets is, when the rows come in ascending order. *)

From Stdlib Require Import Sorting.Sorted.
From stdpp Require Import option.
From S2P Require Import Prelude BinTools FilterBlock FilterDefs FilterCore FilterRefine FilterQuery FilterLogic.

Lemma same_rows_refl f : same_rows f f.
Proof. done. Qed.

Lemma same_rows_trans f1 f2 f3 : same_rows f1 f2 -> same_rows f2 f3 -> same_rows f1 f3.
Proof. unfold same_rows. intros [-> ->] [-> ->]. done. Qed.

Lemma same_rows_evolves f f' : evolves f f' -> same_rows f' f.
Proof. intros H. split; [apply (ev_nb _ _ H)|apply (ev_bits _ _ H)]. Qed.

Lemma same_rows_NoObj f f' : same_rows f f' -> NoObj f = NoObj f'.
Proof. intros [E1 E2]. unfold NoObj. by rewrite E1, E2. Qed.

Lemma same_rows_in_packs f f' b : same_rows f f' -> in_packs f b <-> in_packs f' b.
Proof. intros [E1 _]. unfold in_packs. by rewrite E1. Qed.

Lemma same_rows_bsize f f' b : same_rows f f' -> bsize f b = bsize f' b.
Proof. intros [E1 E2]. unfold bsize. by rewrite E1, E2. Qed.

Lemma fdenotes_set_delayed f F ds db dss dbs : fdenotes f F -> fdenotes (set_delayed f ds db dss dbs) F.
Proof. intros [Hf HF]. split; [by apply shape_set_delayed|exact HF]. Qed.

(** ** Delayed resets *)

(** The rows the filter is going to lose at the next commit. *)
Definition pending (f : Filter) (r : Z) : bool :=
  (r / 65536 =? delayed_block f) && (r mod 65536 <=? delayed_stats f).

(** The filter stands for the rows [L] once the pending resets are applied. *)
Record resetting (f : Filter) (L : Z -> bool) : Prop := {
  rs_rows : exists F, fdenotes f F /\ (forall r, 0 <= r < NoObj f -> L r = F r && negb (pending f r));
  rs_pack : 0 <= delayed_stats f ->
            in_packs f (delayed_block f) /\ stat f (delayed_block f) = FB_FULL /\
            delayed_stats f < bsize f (delayed_block f);
  rs_low : -2 <= delayed_stats f /\ -1 <= delayed_block f;
  rs_set : delayed_block_set f = -1
}.

Lemma ResetBetween_pack f F b n1 n2 :
  fdenotes f F -> in_packs f b -> 0 <= n1 <= n2 -> n2 < bsize f b ->
  fdenotes (ResetBetween f b n1 b n2) (minus F (65536 * b + n1) (65536 * b + n2)) /\
  evolves f (ResetBetween f b n1 b n2).
Proof. intros. apply ResetBetween_span; (done || lia). Qed.

Lemma Commit_resetting f L :
  resetting f L ->
  fdenotes (Commit f) L /\ same_rows (Commit f) f /\ delayed_block_set (Commit f) = -1.
Proof.
  intros [(F & HF & HL) Hp [Hlow Hlow2] Hset]. unfold Commit.
  set (f1 := if -1 <? delayed_block f then _ else f).
  assert (fdenotes f1 L /\ same_rows f1 f /\ delayed_block_set f1 = -1) as (H1 & H2 & H3).
  { subst f1. destruct (Z.ltb_spec (-1) (delayed_block f)) as [Hdb|Hdb].
    - destruct (Z.leb_spec 0 (delayed_stats f)) as [Hds|Hds].
      + destruct (Hp Hds) as (Hin & Est & Hlt). rewrite Est, is_st_refl. cbn [andb].
        destruct (ResetBetween_pack f F (delayed_block f) 0 (delayed_stats f) HF Hin) as [Hr He]; [lia|done|].
        pose proof (bsize_bound f _ (proj1 HF) Hin) as HS. split; [|split; [by apply same_rows_evolves in He|]].
        * apply fdenotes_set_delayed, (fdenotes_ext _ _ _ Hr). intros r Hr'.
          rewrite (evolves_NoObj _ _ He) in Hr'. rewrite HL by done. unfold minus, within, pending. split_row r.
          destruct (F r); cmp_solve.
        * cbn. by rewrite (ev_dbs _ _ He).
      + rewrite andb_false_r. split; [|done]. apply fdenotes_set_delayed, (fdenotes_ext _ _ _ HF).
        intros r Hr. rewrite HL by done. unfold pending. split_row r. destruct (F r); cmp_solve.
    - split; [|done]. apply (fdenotes_ext _ _ _ HF). intros r Hr. rewrite HL by done. unfold pending. split_row r.
      destruct (F r); cmp_solve. }
  rewrite H3. done.
Qed.

Lemma Commit_stat f L b : resetting f L -> b <> delayed_block f -> stat (Commit f) b = stat f b.
Proof.
  intros [(F & HF & _) Hp _ Hset] Hb. unfold Commit.
  set (f1 := if -1 <? delayed_block f then _ else f).
  assert (stat f1 b = stat f b /\ delayed_block_set f1 = -1) as [E1 ->]; [|done]. subst f1.
  destruct (Z.ltb_spec (-1) (delayed_block f)); [|done].
  destruct (Z.leb_spec 0 (delayed_stats f)) as [Hds|Hds]; [|by rewrite andb_false_r].
  destruct (Hp Hds) as (Hin & Est & Hlt). rewrite Est, is_st_refl. cbn [andb].
  unfold ResetBetween. rewrite Z.eqb_refl.
  destruct (ResetBetween1_update f (proj1 HF) (delayed_block f) Hin _ 0 (delayed_stats f) (proj2 HF _ Hin)
              ltac:(lia) Hlt) as [Hfr _ _].
  split; [exact (fr_stat _ _ _ Hfr b Hb)|]. cbn. by rewrite (fr_dbs _ _ _ Hfr).
Qed.

Lemma resetting_start f F :
  fdenotes f F -> delayed_stats f = -1 -> delayed_block f = -1 -> delayed_block_set f = -1 -> resetting f F.
Proof.
  intros HF E1 E2 E3. split; [|lia|lia|done]. exists F. split; [done|].
  intros r Hr. unfold pending. rewrite E1. split_row r. destruct (F r); cmp_solve.
Qed.

Section ResetDelayed.
Context (f : Filter) (L : Z -> bool) (HL : resetting f L) (b pos : Z).
Context (Hb : in_packs f b) (Hpos : 0 <= pos < bsize f b).

Let row := 65536 * b + pos.
Let L' := fun r => negb (r =? row) && L r.

Lemma bsize64 f0 c : shape f0 -> in_packs f0 c -> bsize f0 c <= 65536.
Proof. intros H1 H2. by destruct (bsize_bound f0 c H1 H2). Qed.

(** A full pack that is the pending one. *)
Lemma ResetDelayed_here f1 (L1 : Z -> bool) :
  resetting f1 L1 -> same_rows f1 f -> stat f1 b = FB_FULL -> delayed_block f1 = b ->
  exists f', (if pos =? delayed_stats f1 + 1 then
    Some (set_delayed f1 (delayed_stats f1 + 1) (delayed_block f1) (delayed_stats_set f1) (delayed_block_set f1))
  else if delayed_stats f1 + 1 <? pos then
    let f := if 0 <=? delayed_stats f1 then ResetBetween f1 b 0 b (delayed_stats f1) else f1 in
    f ← Reset_bn f b pos;
    Some (set_delayed f (-2) (delayed_block f) (delayed_stats_set f) (delayed_block_set f))
  else Some f1) = Some f' /\ resetting f' (fun r => negb (r =? row) && L1 r) /\ same_rows f' f.
Proof.
  intros [(F & HF & HL1) Hp [Hlow Hlow2] Hset] Hs Est Edb.
  assert (in_packs f1 b) as Hb1 by by apply (same_rows_in_packs f1 f).
  assert (bsize f1 b = bsize f b) as Ebs by by apply same_rows_bsize.
  pose proof (bsize64 f1 b (proj1 HF) Hb1) as H64.
  destruct (Z.eqb_spec pos (delayed_stats f1 + 1)) as [E|E].
  - eexists. split; [reflexivity|]. split; [|done]. split.
    + exists F. split; [by apply fdenotes_set_delayed|]. intros r Hr. rewrite HL1 by done. unfold pending. cbn.
      unfold row. split_row r. destruct (F r); cmp_solve.
    + intros _. cbn. rewrite Edb. split; [done|]. split; [done|]. change (delayed_stats f1 + 1 < bsize f1 b). lia.
    + cbn. lia.
    + done.
  - destruct (Z.ltb_spec (delayed_stats f1 + 1) pos) as [Hlt|Hge].
    + cbv zeta. set (f2 := if 0 <=? delayed_stats f1 then _ else f1).
      assert (fdenotes f2 L1 /\ evolves f1 f2) as [Hf2 He2].
      { subst f2. destruct (Z.leb_spec 0 (delayed_stats f1)) as [Hds|Hds].
        - destruct (ResetBetween_pack f1 F b 0 (delayed_stats f1) HF Hb1) as [Hr He]; [lia|lia|]. split; [|done].
          apply (fdenotes_ext _ _ _ Hr). intros r Hr'. rewrite (evolves_NoObj _ _ He) in Hr'. rewrite HL1 by done.
          unfold minus, within, pending. rewrite Edb. split_row r. destruct (F r); cmp_solve.
        - split; [|apply evolves_refl]. apply (fdenotes_ext _ _ _ HF). intros r Hr. rewrite HL1 by done.
          unfold pending. split_row r. destruct (F r); cmp_solve. }
      assert (0 <= row < NoObj f2) as Hrow.
      { rewrite (evolves_NoObj _ _ He2). apply pack_row_in; [apply HF|done|lia]. }
      destruct (Reset_row f2 L1 Hf2 row Hrow) as (f' & E' & Hf' & He').
      destruct (row_pos b pos ltac:(lia)) as [Eb Ep]. fold row in Eb, Ep. rewrite shiftr16, land16, Eb, Ep in E'.
      rewrite E'. cbn. eexists. split; [reflexivity|].
      assert (evolves f1 f') as He by by apply (evolves_trans f1 f2).
      split; [|apply (same_rows_trans _ f1); [by apply same_rows_evolves in He|done]]. split.
      * exists (fun r => negb (r =? row) && L1 r). split; [by apply fdenotes_set_delayed|].
        intros r Hr. unfold pending. cbn. split_row r. destruct (L1 r); cmp_solve.
      * cbn. lia.
      * cbn. rewrite (ev_db _ _ He). lia.
      * cbn. by rewrite (ev_dbs _ _ He).
    + eexists. split; [reflexivity|]. split; [|done]. split; [|done|lia|done]. exists F. split; [done|].
      intros r Hr. rewrite HL1 by done. unfold pending, row. split_row r. destruct (F r); cmp_solve.
Qed.

Lemma ResetDelayed_rows :
  exists f', ResetDelayed f b pos = Some f' /\ resetting f' L' /\ same_rows f' f.
Proof.
  pose proof HL as [(F & HF & HLF) Hp [Hlow Hlow2] Hset]. unfold ResetDelayed.
  pose proof (bsize64 f b (proj1 HF) Hb) as H64.
  pose proof (pack_row_in f (proj1 HF) b pos Hb Hpos) as Hrow. fold row in Hrow.
  destruct (row_pos b pos ltac:(lia)) as [Eb Ep]. fold row in Eb, Ep.
  destruct (stat f b) eqn:Est.
  - destruct (Z.eqb_spec (delayed_block f) b) as [E|E]; cbn [negb].
    + by apply ResetDelayed_here.
    + destruct (Commit_resetting f L HL) as (Hc & Hs & Hset').
      apply ResetDelayed_here.
      * split; cbn; [|lia|unfold in_packs in Hb; lia|done]. exists L. split; [by apply fdenotes_set_delayed|].
        intros r Hr. unfold pending. cbn. split_row r. destruct (L r); cmp_solve.
      * done.
      * cbn. change (stat (Commit f) b = FB_FULL). by rewrite (Commit_stat f L b).
      * done.
  - eexists. split; [reflexivity|]. split; [|done]. split; [|done|lia|done]. exists F. split; [done|].
    intros r Hr. unfold L'. rewrite HLF by done. destruct (Z.eqb_spec r row) as [->|]; [|done].
    pose proof (proj1 (pack_empty f (proj1 HF) b Hb _ (proj2 HF b Hb)) ltac:(by rewrite Est) pos Hpos) as Hz.
    cbn in Hz. fold row in Hz. by rewrite Hz.
  - destruct (Reset_row f F HF row Hrow) as (f' & E' & Hf' & He').
    rewrite shiftr16, land16, Eb, Ep in E'. rewrite E'. eexists. split; [reflexivity|].
    split; [|by apply same_rows_evolves in He']. split.
    + exists (fun r => negb (r =? row) && F r). split; [done|]. intros r Hr. rewrite (evolves_NoObj _ _ He') in Hr.
      unfold L', pending. rewrite HLF by done. unfold pending. rewrite (ev_db _ _ He'), (ev_ds _ _ He').
      by rewrite andb_assoc.
    + rewrite (ev_ds _ _ He'), (ev_db _ _ He'), (evolves_bsize _ _ _ He'). intros Hds.
      destruct (Hp Hds) as (Hin & Est' & Hlt). split; [by apply (evolves_in_packs f)|]. split; [|done].
      destruct (Reset_bn_update f (proj1 HF) b Hb _ pos (proj2 HF b Hb) Hpos) as (f'' & E'' & [Hfr _ _]).
      rewrite E' in E''. injection E'' as <-. rewrite (fr_stat _ _ _ Hfr); [done|]. intros E. congruence.
    + rewrite (ev_ds _ _ He'), (ev_db _ _ He'). lia.
    + by rewrite (ev_dbs _ _ He').
Qed.
End ResetDelayed.

(** ** Delayed sets *)

Definition pending_set (f : Filter) (r : Z) : bool :=
  (r / 65536 =? delayed_block_set f) && (r mod 65536 <=? delayed_stats_set f).

(** The filter stands for the rows [L] once the pending sets are applied; from pack [cur] on a
    pack marked full is full to its end. *)
Record setting (f : Filter) (L : Z -> bool) (cur : Z) : Prop := {
  st_rows : exists F, fdenotes f F /\ (forall r, 0 <= r < NoObj f -> L r = F r || pending_set f r);
  st_pack : 0 <= delayed_stats_set f ->
            in_packs f (delayed_block_set f) /\ stat f (delayed_block_set f) = FB_EMPTY /\
            delayed_stats_set f < bsize f (delayed_block_set f);
  st_low : -2 <= delayed_stats_set f /\ -1 <= delayed_block_set f <= cur;
  st_reset : delayed_block f = -1;
  st_live : delayed_stats_set f = -2 -> stat f (delayed_block_set f) <> FB_EMPTY;
  st_whole : forall c, cur <= c -> in_packs f c -> stat f c = FB_FULL -> lst f c = bsize f c - 1
}.

Lemma SetBetween_pack f F b n1 n2 :
  fdenotes f F -> in_packs f b -> 0 <= n1 <= n2 -> n2 < bsize f b ->
  fdenotes (SetBetween f b n1 b n2) (fun r => within (65536 * b + n1) (65536 * b + n2) r || F r) /\
  evolves f (SetBetween f b n1 b n2) /\ frame b f (SetBetween f b n1 b n2).
Proof.
  intros HF Hb Hn Hn2. destruct (SetBetween_span f F HF b n1 b n2) as [H1 H2]; try done; try lia.
  split; [done|]. split; [done|]. unfold SetBetween. rewrite Z.eqb_refl.
  apply (SetBetween1_update f (proj1 HF) b Hb _ n1 n2 (proj2 HF b Hb) Hn Hn2).
Qed.

(** After a row is set in the block of a mixed pack, the pack is full to its end or mixed. *)
Lemma on_block_whole f b op k :
  shape f -> in_packs f b -> stat f b = FB_MIXED -> blk f b = Some k ->
  let f' := mark (on_block f b op SetBlock) b in
  stat f' b = FB_FULL -> lst f' b = bsize f b - 1.
Proof.
  intros Hf Hb Est Ek f'. subst f'. frd. unfold on_block. rewrite Ek. destruct (op k) as [k' []].
  - intros _. pose proof (bsize_bound f b Hf Hb) as HS. unfold SetBlock, DeleteBlock. frd.
    change (no_blocks (set_stat (set_blk f b (Some k')) b FB_FULL)) with (no_blocks f).
    change (no_of_bits_in_last_block (set_stat (set_blk f b (Some k')) b FB_FULL)) with (no_of_bits_in_last_block f).
    unfold bsize in *. destruct (b =? no_blocks f - 1); apply wrap16_small; lia.
  - frd. by rewrite Est.
Qed.

Lemma Set_bn_whole f b g n f' :
  shape f -> in_packs f b -> pack_denotes f b g -> 0 <= n < bsize f b ->
  stat f b = FB_MIXED \/ (stat f b = FB_EMPTY /\ n <> 0) \/ (stat f b = FB_FULL /\ lst f b + 1 < n) ->
  Set_bn f b n = Some f' -> stat f' b = FB_FULL -> lst f' b = bsize f b - 1.
Proof.
  intros Hf Hb Hg Hn Hcase. unfold Set_bn.
  destruct Hcase as [Est|[[Est Hn0]|[Est Hl]]]; rewrite Est.
  - unfold pack_denotes in Hg. rewrite Est in Hg. destruct Hg as (k & Ek & _).
    change (is_st FB_MIXED FB_FULL) with false. cbn [andb orb]. rewrite Est. change (is_st FB_MIXED FB_EMPTY) with false.
    cbn [mbind option_bind]. intros [= <-]. by apply (on_block_whole f b _ k).
  - change (is_st FB_EMPTY FB_FULL) with false. cbn [andb orb]. rewrite Est, is_st_refl.
    destruct (Z.eqb_spec n 0); [done|]. cbn [mbind option_bind]. intros [= <-].
    rewrite <- (bsize_set_stat f b b FB_MIXED), <- (bsize_set_blk (set_stat f b FB_MIXED) b b (Some (Init (bsize f b) false))).
    eapply on_block_whole; [auto with bh|done|by frd|by frd].
  - assert (0 <= lst f b) by (unfold pack_denotes in Hg; rewrite Est in Hg; destruct Hg as (_ & ? & _); lia).
    rewrite is_st_refl. destruct (Z.ltb_spec (lst f b + 1) n); [|lia]. destruct (Z.eqb_spec n (lst f b + 1)); [lia|].
    cbn [andb orb]. destruct (Z.eqb_spec n 0); [lia|]. frd. cbn [mbind option_bind]. intros [= <-].
    rewrite <- (bsize_set_stat f b b FB_MIXED),
      <- (bsize_set_blk (set_stat f b FB_MIXED) b b (Some (Init (bsize f b) false))),
      <- (bsize_set_blk (set_blk (set_stat f b FB_MIXED) b (Some (Init (bsize f b) false))) b b
            (Some (fst (Set_between (Init (bsize f b) false) 0 (lst f b))))).
    eapply on_block_whole; [auto 12 with bh|done|by frd|by frd].
Qed.

Lemma Commit_setting f L cur :
  setting f L cur ->
  fdenotes (Commit f) L /\ same_rows (Commit f) f /\ delayed_block (Commit f) = -1 /\
  (forall c, c <> delayed_block_set f -> stat (Commit f) c = stat f c /\ lst (Commit f) c = lst f c).
Proof.
  intros [(F & HF & HL) Hp [Hlow Hlow2] Hset _ _]. unfold Commit. rewrite Hset. change (-1 <? -1) with false. cbv iota.
  destruct (Z.ltb_spec (-1) (delayed_block_set f)) as [Hdb|Hdb].
  - destruct (Z.leb_spec 0 (delayed_stats_set f)) as [Hds|Hds].
    + destruct (Hp Hds) as (Hin & Est & Hlt). rewrite Est, is_st_refl. cbn [andb].
      destruct (SetBetween_pack f F (delayed_block_set f) 0 (delayed_stats_set f) HF Hin) as (Hr & He & Hfr); [lia|done|].
      pose proof (bsize_bound f _ (proj1 HF) Hin) as HS.
      split; [|split; [by apply same_rows_evolves in He|split]].
      * apply fdenotes_set_delayed, (fdenotes_ext _ _ _ Hr). intros r Hr'.
        rewrite (evolves_NoObj _ _ He) in Hr'. rewrite HL by done. unfold within, pending_set. split_row r.
        destruct (F r); cmp_solve.
      * cbn. by rewrite (ev_db _ _ He).
      * intros c Hc. split; [exact (fr_stat _ _ _ Hfr c Hc)|exact (fr_lst _ _ _ Hfr c Hc)].
    + rewrite andb_false_r. split; [|done]. apply fdenotes_set_delayed, (fdenotes_ext _ _ _ HF).
      intros r Hr. rewrite HL by done. unfold pending_set. split_row r. destruct (F r); cmp_solve.
  - split; [|done]. apply (fdenotes_ext _ _ _ HF). intros r Hr. rewrite HL by done. unfold pending_set. split_row r.
    destruct (F r); cmp_solve.
Qed.

(** A pack one of whose rows is set is not marked empty. *)
Lemma row_set_live f F b pos :
  fdenotes f F -> in_packs f b -> 0 <= pos < bsize f b -> F (65536 * b + pos) = true -> stat f b <> FB_EMPTY.
Proof.
  intros HF Hb Hpos HFr Est.
  pose proof (proj1 (pack_empty f (proj1 HF) b Hb _ (proj2 HF b Hb)) ltac:(by rewrite Est) pos Hpos) as Hz.
  cbn in Hz. congruence.
Qed.

Section SetDelayed.
Context (f : Filter) (L : Z -> bool) (cur : Z) (HL : setting f L cur) (b pos : Z).
Context (Hb : in_packs f b) (Hcur : cur <= b) (Hpos : 0 <= pos < bsize f b).

Let row := 65536 * b + pos.

Lemma SetDelayed_here f1 (L1 : Z -> bool) :
  setting f1 L1 b -> same_rows f1 f -> stat f1 b = FB_EMPTY -> delayed_block_set f1 = b ->
  exists f', (if pos =? delayed_stats_set f1 + 1 then
    Some (set_delayed f1 (delayed_stats f1) (delayed_block f1) (delayed_stats_set f1 + 1) (delayed_block_set f1))
  else if delayed_stats_set f1 + 1 <? pos then
    let f := if 0 <=? delayed_stats_set f1 then SetBetween f1 b 0 b (delayed_stats_set f1) else f1 in
    f ← Set_bn f b pos;
    Some (set_delayed f (delayed_stats f) (delayed_block f) (-2) (delayed_block_set f))
  else Some f1) = Some f' /\ setting f' (fun r => (r =? row) || L1 r) b /\ same_rows f' f.
Proof.
  intros [(F & HF & HL1) Hp [Hlow Hlow2] Hset Hlive Hwh] Hs Est Edb.
  assert (delayed_stats_set f1 <> -2) as Hm2 by (intros E2; apply Hlive in E2; congruence).
  assert (in_packs f1 b) as Hb1 by by apply (same_rows_in_packs f1 f).
  assert (bsize f1 b = bsize f b) as Ebs by by apply same_rows_bsize.
  pose proof (bsize64 f1 b (proj1 HF) Hb1) as H64.
  destruct (Z.eqb_spec pos (delayed_stats_set f1 + 1)) as [E|E].
  - eexists. split; [reflexivity|]. split; [|done]. split.
    + exists F. split; [by apply fdenotes_set_delayed|]. intros r Hr. rewrite HL1 by done. unfold pending_set. cbn.
      unfold row. split_row r. destruct (F r); cmp_solve.
    + intros _. cbn. rewrite Edb. split; [done|]. split; [done|]. change (delayed_stats_set f1 + 1 < bsize f1 b). lia.
    + cbn. lia.
    + done.
    + cbn. lia.
    + exact Hwh.
  - destruct (Z.ltb_spec (delayed_stats_set f1 + 1) pos) as [Hlt|Hge].
    + cbv zeta. set (f2 := if 0 <=? delayed_stats_set f1 then _ else f1).
      assert (fdenotes f2 L1 /\ evolves f1 f2 /\ frame b f1 f2 /\
              ((stat f2 b = FB_EMPTY /\ pos <> 0) \/ (stat f2 b = FB_FULL /\ lst f2 b + 1 < pos)))
        as (Hf2 & He2 & Hfr2 & Hcase).
      { subst f2. destruct (Z.leb_spec 0 (delayed_stats_set f1)) as [Hds|Hds].
        - destruct (SetBetween_pack f1 F b 0 (delayed_stats_set f1) HF Hb1) as (Hr & He & Hfr); [lia|lia|]. split; [|split; [done|split; [done|]]].
          + apply (fdenotes_ext _ _ _ Hr). intros r Hr'. rewrite (evolves_NoObj _ _ He) in Hr'. rewrite HL1 by done.
            unfold within, pending_set. rewrite Edb. split_row r. destruct (F r); cmp_solve.
          + right. unfold SetBetween, SetBetween1. rewrite Z.eqb_refl, Est. change (is_st FB_EMPTY FB_FULL) with false.
            rewrite is_st_refl. cbn [andb orb]. change (0 =? 0) with true. cbv iota.
            pose proof (proj2 HF b Hb1) as Hpk. unfold pack_denotes in Hpk. rewrite Est in Hpk. destruct Hpk as [Ek _].
            pose proof (proj1 HF) as Hsh.
            rewrite on_block_none by (frd; done). frd. rewrite wrap16_small by lia. split; [done|lia].
        - split; [|split; [apply evolves_refl|split; [apply frame_refl, HF|]]].
          + apply (fdenotes_ext _ _ _ HF). intros r Hr. rewrite HL1 by done.
            unfold pending_set. split_row r. destruct (F r); cmp_solve.
          + left. split; [done|lia]. }
      assert (0 <= row < NoObj f2) as Hrow.
      { rewrite (evolves_NoObj _ _ He2). apply pack_row_in; [apply HF|done|lia]. }
      assert (in_packs f2 b) as Hb2 by by apply (evolves_in_packs f1).
      destruct (Set_row f2 L1 Hf2 row Hrow) as (f' & E' & Hf' & He').
      destruct (row_pos b pos ltac:(lia)) as [Eb Ep]. fold row in Eb, Ep. rewrite shiftr16, land16, Eb, Ep in E'.
      assert (bsize f2 b = bsize f b) as Ebs2 by (rewrite <- Ebs; by apply evolves_bsize).
      destruct (Set_bn_update f2 (proj1 Hf2) b Hb2 _ pos (proj2 Hf2 b Hb2) ltac:(lia)) as (f'' & E'' & [Hfr' _ _]).
      rewrite E' in E''. injection E'' as <-.
      rewrite E'. cbn. eexists. split; [reflexivity|].
      assert (evolves f1 f') as He by by apply (evolves_trans f1 f2).
      split; [|apply (same_rows_trans _ f1); [by apply same_rows_evolves in He|done]]. split.
      * exists (fun r => (r =? row) || L1 r). split; [by apply fdenotes_set_delayed|].
        intros r Hr. unfold pending_set. cbn. split_row r. destruct (L1 r); cmp_solve.
      * cbn. lia.
      * cbn. rewrite (ev_dbs _ _ He). lia.
      * cbn. by rewrite (ev_db _ _ He).
      * intros _. cbn. rewrite (ev_dbs _ _ He), Edb. apply (row_set_live f' _ b pos Hf').
        -- by apply (evolves_in_packs f1).
        -- rewrite (evolves_bsize _ _ b He). lia.
        -- fold row. by rewrite Z.eqb_refl.
      * intros c Hc Hin. change (stat f' c = FB_FULL -> lst f' c = bsize f' c - 1).
        rewrite (evolves_bsize _ _ c He). destruct (Z.eq_dec c b) as [->|Hne].
        -- intros Hst. rewrite <- (evolves_bsize _ _ b He2).
           apply (Set_bn_whole f2 b _ pos f' (proj1 Hf2) Hb2 (proj2 Hf2 b Hb2)); [lia|by right|done|done].
        -- rewrite (fr_stat _ _ _ Hfr'), (fr_lst _ _ _ Hfr'), (fr_stat _ _ _ Hfr2), (fr_lst _ _ _ Hfr2) by done.
           apply Hwh; [done|]. unfold in_packs in *. change (0 <= c < no_blocks f') in Hin. by rewrite <- (ev_nb _ _ He).
    + eexists. split; [reflexivity|]. split; [|done]. split; [|done|lia|done|done|done]. exists F. split; [done|].
      intros r Hr. rewrite HL1 by done. unfold pending_set, row. split_row r. destruct (F r); cmp_solve.
Qed.

Lemma SetDelayed_set_row :
  exists f', SetDelayed f b pos = Some f' /\ setting f' (fun r => (r =? row) || L r) b /\ same_rows f' f.
Proof.
  pose proof HL as [(F & HF & HLF) Hp [Hlow Hlow2] Hset Hlive Hwh]. unfold SetDelayed.
  pose proof (bsize64 f b (proj1 HF) Hb) as H64.
  pose proof (pack_row_in f (proj1 HF) b pos Hb Hpos) as Hrow. fold row in Hrow.
  destruct (row_pos b pos ltac:(lia)) as [Eb Ep]. fold row in Eb, Ep.
  assert (forall c, b <= c -> in_packs f c -> stat f c = FB_FULL -> lst f c = bsize f c - 1) as Hwh'
    by (intros c Hc; apply Hwh; lia).
  destruct (stat f b) eqn:Est.
  - eexists. split; [reflexivity|]. split; [|done]. split; [|done|lia|done|done|done]. exists F. split; [done|].
    intros r Hr. rewrite HLF by done. destruct (Z.eqb_spec r row) as [->|]; [|done].
    pose proof (proj1 (pack_full f (proj1 HF) b Hb _ (proj2 HF b Hb))) as Hfull. unfold IsFull_b in Hfull.
    rewrite Est, is_st_refl, end_block_bsize, Hwh, Z.eqb_refl in Hfull by (done || lia).
    specialize (Hfull eq_refl pos Hpos). cbn in Hfull. fold row in Hfull. by rewrite Hfull.
  - destruct (Z.eqb_spec (delayed_block_set f) b) as [E|E]; cbn [negb].
    + apply SetDelayed_here; try done. split; (done || lia || by exists F).
    + destruct (Commit_setting f L cur HL) as (Hc & Hs & Hset' & Hsame). apply SetDelayed_here; try done.
      * split; cbn; [|lia|unfold in_packs in Hb; lia|done|lia|].
        -- exists L. split; [by apply fdenotes_set_delayed|].
           intros r Hr. unfold pending_set. cbn. split_row r. destruct (L r); cmp_solve.
        -- intros c Hc' Hin. change (stat (Commit f) c = FB_FULL -> lst (Commit f) c = bsize (Commit f) c - 1).
           destruct (Hsame c) as [-> ->]; [lia|]. rewrite (same_rows_bsize _ _ c Hs). apply Hwh'; [done|].
           by apply (same_rows_in_packs _ _ c Hs).
      * cbn. change (stat (Commit f) b = FB_EMPTY). destruct (Hsame b) as [-> _]; [congruence|done].
  - destruct (Set_row f F HF row Hrow) as (f' & E' & Hf' & He').
    rewrite shiftr16, land16, Eb, Ep in E'. rewrite E'. eexists. split; [reflexivity|].
    split; [|by apply same_rows_evolves in He'].
    destruct (Set_bn_update f (proj1 HF) b Hb _ pos (proj2 HF b Hb) Hpos) as (f'' & E'' & [Hfr _ _]).
    rewrite E' in E''. injection E'' as <-. split.
    + exists (fun r => (r =? row) || F r). split; [done|]. intros r Hr. rewrite (evolves_NoObj _ _ He') in Hr.
      unfold pending_set. rewrite HLF by done. unfold pending_set. rewrite (ev_dbs _ _ He'), (ev_dss _ _ He').
      by rewrite orb_assoc.
    + rewrite (ev_dss _ _ He'), (ev_dbs _ _ He'), (evolves_bsize _ _ _ He'). intros Hds.
      destruct (Hp Hds) as (Hin & Est' & Hlt). split; [by apply (evolves_in_packs f)|]. split; [|done].
      rewrite (fr_stat _ _ _ Hfr); [done|]. intros E. congruence.
    + rewrite (ev_dss _ _ He'), (ev_dbs _ _ He'). lia.
    + by rewrite (ev_db _ _ He').
    + rewrite (ev_dss _ _ He'), (ev_dbs _ _ He'). intros E2. destruct (Z.eq_dec (delayed_block_set f) b) as [->|Hne].
      * apply (row_set_live f' _ b pos Hf'); [by apply (evolves_in_packs f)|by rewrite (evolves_bsize _ _ b He')|].
        fold row. by rewrite Z.eqb_refl.
      * rewrite (fr_stat _ _ _ Hfr) by done. by apply Hlive.
    + intros c Hc Hin. assert (in_packs f c) as Hin0 by (unfold in_packs in *; by rewrite <- (ev_nb _ _ He')).
      rewrite (evolves_bsize _ _ c He'). destruct (Z.eq_dec c b) as [->|Hne].
      * apply (Set_bn_whole f b _ pos f' (proj1 HF) Hb (proj2 HF b Hb)); [done|by left|done].
      * rewrite (fr_stat _ _ _ Hfr), (fr_lst _ _ _ Hfr) by done. by apply Hwh'.
Qed.
End SetDelayed.

(** ** Runs of delayed operations *)

Definition row_of (p : Z * Z) : Z := 65536 * fst p + snd p.
Definition in_rows (l : list (Z * Z)) (r : Z) : bool := existsb (fun p => r =? row_of p) l.
Definition valid_row (f : Filter) (p : Z * Z) : Prop := in_packs f (fst p) /\ 0 <= snd p < bsize f (fst p).

Lemma valid_same f f' p : same_rows f' f -> valid_row f p -> valid_row f' p.
Proof.
  intros Hs [H1 H2]. split; [by apply (same_rows_in_packs f' f)|]. by rewrite (same_rows_bsize f' f).
Qed.

Lemma ResetDelayed_run l : forall f L,
  resetting f L -> Forall (valid_row f) l ->
  exists f', foldM (fun f p => ResetDelayed f (fst p) (snd p)) f l = Some f' /\
             resetting f' (fun r => L r && negb (in_rows l r)) /\ same_rows f' f.
Proof.
  induction l as [|p l IH]; intros f L HL Hv; cbn [foldM].
  - exists f. split; [done|]. split; [|done]. destruct HL as [(F & HF & HL) Hp Hl Hs]. split; try done.
    exists F. split; [done|]. intros r Hr. cbn. by rewrite andb_true_r, HL.
  - apply Forall_cons in Hv as [[Hb Hpos] Hv].
    destruct (ResetDelayed_rows f L HL _ _ Hb Hpos) as (f1 & -> & H1 & Hs1). cbn [mbind option_bind].
    destruct (IH f1 _ H1) as (f' & -> & H' & Hs').
    { apply (Forall_impl _ _ _ Hv). intros q. by apply valid_same. }
    exists f'. split; [done|]. split; [|by apply (same_rows_trans f' f1)].
    destruct H' as [(F & HF & HL') Hp Hl Hs]. split; try done.
    exists F. split; [done|]. intros r Hr. rewrite <- HL' by done. cbn. fold (in_rows l r). unfold row_of.
    destruct (L r), (r =? _), (in_rows l r); done.
Qed.

Lemma SetDelayed_run l : forall f L cur,
  setting f L cur -> Forall (valid_row f) l -> StronglySorted Z.le (cur :: map fst l) ->
  exists f' cur', foldM (fun f p => SetDelayed f (fst p) (snd p)) f l = Some f' /\
             setting f' (fun r => L r || in_rows l r) cur' /\ same_rows f' f.
Proof.
  induction l as [|p l IH]; intros f L cur HL Hv Hsort; cbn [foldM].
  - exists f, cur. split; [done|]. split; [|done]. destruct HL as [(F & HF & HL) Hp Hl Hs Hli Hw]. split; try done.
    exists F. split; [done|]. intros r Hr. cbn. by rewrite orb_false_r, HL.
  - apply Forall_cons in Hv as [[Hb Hpos] Hv]. cbn [map] in Hsort.
    apply StronglySorted_inv in Hsort as [Hsort Hle]. apply Forall_cons in Hle as [Hle _].
    destruct (SetDelayed_set_row f L cur HL _ _ Hb Hle Hpos) as (f1 & -> & H1 & Hs1). cbn [mbind option_bind].
    destruct (IH f1 _ _ H1) as (f' & cur' & -> & H' & Hs'); [|done|].
    { apply (Forall_impl _ _ _ Hv). intros q. by apply valid_same. }
    exists f', cur'. split; [done|]. split; [|by apply (same_rows_trans f' f1)].
    destruct H' as [(F & HF & HL') Hp Hl Hs Hli Hw]. split; try done.
    exists F. split; [done|]. intros r Hr. rewrite <- HL' by done. cbn. fold (in_rows l r). unfold row_of.
    destruct (L r), (r =? _), (in_rows l r); done.
Qed.

(** ** The contract of the delayed operations *)

(** C38: any run of [ResetDelayed] on rows of a filter without pending operations, followed by
    [Commit], clears exactly those rows, in whatever order and however often they come. *)
Theorem Filter_ResetDelayed_commit (f : Filter) (F : Z -> bool) (l : list (Z * Z))
    (HF : fdenotes f F) (Hnone : delayed_stats f = -1 /\ delayed_block f = -1 /\ delayed_block_set f = -1)
    (Hl : Forall (valid_row f) l) :
  exists f', foldM (fun f p => ResetDelayed f (fst p) (snd p)) f l = Some f' /\
             fdenotes (Commit f') (fun r => F r && negb (in_rows l r)).
Proof.
  destruct Hnone as (E1 & E2 & E3).
  destruct (ResetDelayed_run l f F (resetting_start f F HF E1 E2 E3) Hl) as (f' & E & H' & _).
  exists f'. split; [done|]. by apply Commit_resetting.
Qed.

Lemma Filter_ResetDelayed_commit_witness :
  exists f', foldM (fun f p => ResetDelayed f (fst p) (snd p)) (Construct 2 100 true)
               [(0, 0); (0, 1); (1, 5); (0, 9)] = Some f' /\
             fdenotes (Commit f') (fun r => true && negb (in_rows [(0, 0); (0, 1); (1, 5); (0, 9)] r)).
Proof.
  apply (Filter_ResetDelayed_commit (Construct 2 100 true) (fun _ => true)).
  - apply fdenotes_Construct; lia.
  - done.
  - repeat (constructor; [split; [unfold in_packs|vm_compute]; simpl; split; (lia || done)|]). constructor.
Defined.

(** A run of [SetDelayed] whose packs come in ascending order, on a filter whose full packs
    are full to their end, followed by [Commit], sets exactly those rows. *)
Theorem Filter_SetDelayed_commit (f : Filter) (F : Z -> bool) (l : list (Z * Z))
    (HF : fdenotes f F) (Hnone : delayed_stats_set f = -1 /\ delayed_block_set f = -1 /\ delayed_block f = -1)
    (Hwhole : forall b, in_packs f b -> stat f b = FB_FULL -> lst f b = bsize f b - 1)
    (Hl : Forall (valid_row f) l) (Hsorted : StronglySorted Z.le (map fst l)) :
  exists f', foldM (fun f p => SetDelayed f (fst p) (snd p)) f l = Some f' /\
             fdenotes (Commit f') (fun r => F r || in_rows l r).
Proof.
  destruct Hnone as (E1 & E2 & E3).
  assert (setting f F 0) as HL.
  { split; [|lia|lia|done|lia|by auto]. exists F. split; [done|].
    intros r Hr. unfold pending_set. rewrite E1. split_row r. destruct (F r); cmp_solve. }
  destruct (SetDelayed_run l f F 0 HL Hl) as (f' & cur & E & H' & _).
  { constructor; [done|]. apply Forall_forall. intros b Hb. apply list_elem_of_In, in_map_iff in Hb as (p & <- & Hp).
    rewrite Forall_forall in Hl. apply list_elem_of_In, Hl in Hp as [Hp _]. unfold in_packs in Hp. lia. }
  exists f'. split; [done|]. by apply (Commit_setting f' _ cur).
Qed.

Lemma Filter_SetDelayed_commit_witness :
  exists f', foldM (fun f p => SetDelayed f (fst p) (snd p)) (Construct 2 100 false)
               [(0, 0); (0, 1); (0, 9); (1, 5)] = Some f' /\
             fdenotes (Commit f') (fun r => false || in_rows [(0, 0); (0, 1); (0, 9); (1, 5)] r).
Proof.
  apply (Filter_SetDelayed_commit (Construct 2 100 false) (fun _ => false)).
  - apply fdenotes_Construct; lia.
  - done.
  - intros b Hb. assert (b = 0 \/ b = 1) as [-> | ->] by (unfold in_packs in Hb; simpl in Hb; lia); done.
  - repeat (constructor; [split; [unfold in_packs|vm_compute]; simpl; split; (lia || done)|]). constructor.
  - repeat constructor; vm_compute; done.
Defined.

(** When a pack is revisited after the delayed operations have moved to another pack, a
    row can be lost: the pack is then a full prefix, which [SetDelayed] takes for a full pack. *)
Theorem Filter_SetDelayed_lost :
  exists f', foldM (fun f p => SetDelayed f (fst p) (snd p)) (Construct 2 100 false)
               [(0, 0); (1, 0); (0, 1)] = Some f' /\
             Get_row (Commit f') 0 = Some true /\ Get_row (Commit f') 65536 = Some true /\
             Get_row (Commit f') 1 = Some false.
Proof. eexists. split; [reflexivity|]. vm_compute. done. Qed.
