(* ===== verification/FilterGrow.v ===== *)
(** * Row filters: growing

    [Grow] appends rows with a given value: the last pack is extended in place, whole packs
    are added, and the rows already there keep their values. *)

From stdpp Require Import option.
From S2P Require Import Prelude BinTools FilterBlock FilterDefs FilterCore FilterRefine FilterQuery FilterLogic.

(** ** The arrays after [AddNewBlocks] *)

Section Add.
Context (junk : Z -> Z) (f : Filter) (Hf : shape f) (new_blocks : Z) (v : bool) (last : Z).
Context (Hnew : 0 <= new_blocks).

Let fA := AddNewBlocks junk f new_blocks v last.

Lemma zlen_fresh {A : Type} (h : Z -> A) a n : 0 <= n -> zlen (map h (range a (a + n - 1))) = n.
Proof. intros. unfold zlen, range. rewrite length_map, length_seqZ. lia. Qed.

Lemma znth_fresh {A : Type} (h : Z -> A) d a n i :
  0 <= i < n -> (map h (range a (a + n - 1))).[d|i] = h (a + i).
Proof.
  intros Hi. unfold znth. destruct (Z.ltb_spec i 0); [lia|]. rewrite nth_lookup, list_lookup_fmap.
  unfold range. rewrite lookup_seqZ_lt by lia. cbn. f_equal. lia.
Qed.

Lemma Add_reads c : 0 <= c < no_blocks f + new_blocks ->
  stat fA c = (if c <? no_blocks f then stat f c else if v then FB_FULL else FB_EMPTY) /\
  blk fA c = (if c <? no_blocks f then blk f c else None) /\
  lst fA c = (if c <? no_blocks f then lst f c
              else wrap 16 (if v then if c =? no_blocks f + new_blocks - 1 then last - 1 else 65535 else junk c)).
Proof.
  intros Hc. unfold fA, AddNewBlocks. destruct (Z.ltb_spec 0 new_blocks); [|destruct (Z.ltb_spec c (no_blocks f)); [done|lia]].
  unfold stat, blk, lst. cbn [block_status blocks block_last_one].
  destruct (Z.ltb_spec c (no_blocks f)).
  - rewrite !znth_app_l by (rewrite ?(sh_stat f Hf), ?(sh_blk f Hf), ?(sh_lst f Hf); lia). done.
  - rewrite !znth_app_r by (rewrite ?(sh_stat f Hf), ?(sh_blk f Hf), ?(sh_lst f Hf); lia).
    rewrite !znth_fresh by (rewrite ?(sh_stat f Hf), ?(sh_blk f Hf), ?(sh_lst f Hf); lia).
    rewrite (sh_lst f Hf). replace (no_blocks f + (c - no_blocks f)) with c by lia. done.
Qed.

Lemma Add_shape bits :
  0 <= bits <= 65536 -> (0 < no_blocks f + new_blocks <-> 0 < bits) ->
  shape (set_geometry fA (no_blocks f + new_blocks) bits).
Proof.
  intros Hb Hp. pose proof Hf as [a1 a2 a3 a4 a5 a6 a7]. unfold fA, AddNewBlocks. destruct (Z.ltb_spec 0 new_blocks).
  - split; cbn; try done; try lia; try (rewrite zlen_app, zlen_fresh; lia).
    intros Ht. rewrite Ht in *. rewrite zlen_app, zlen_fresh by lia. rewrite a5; done.
  - replace (no_blocks f + new_blocks) with (no_blocks f) in * by lia. by split.
Qed.

Lemma Add_same : no_blocks fA = no_blocks f /\ no_of_bits_in_last_block fA = no_of_bits_in_last_block f.
Proof. unfold fA, AddNewBlocks. by destruct (0 <? new_blocks). Qed.
End Add.

(** ** The pack that was the last one *)

Section Last.
Context (f : Filter) (nb bits : Z) (new_blocks new_bits added : Z) (v : bool) (g : Z -> bool).

Let l := no_blocks f - 1.
Let old := no_of_bits_in_last_block f.
Let fG := set_geometry f nb bits.
Let N := if new_blocks =? 0 then new_bits else 65536.

Context (HG : shape fG) (Hl : in_packs fG l) (Hold : 0 < old) (Hadd : 0 < added) (HN : old + added = N) (HN64 : N <= 65536).
Context (HbG : bsize fG l = N) (Hg : pack_rep old (stat f l) (blk f l) (lst f l) g).

Let h := fun m => if m <? old then g m else v.

(** A mixed pack stays mixed. *)
Lemma grown_mixed : 0 < cnt g 0 old < old -> 0 < cnt h 0 N < N.
Proof.
  intros Hc. rewrite (cnt_split h 0 old N) by lia.
  assert (cnt h 0 old = cnt g 0 old) as -> by (apply cnt_ext; intros i Hi; unfold h; cmp_solve).
  pose proof (cnt_bounds h old N). lia.
Qed.

Lemma Grow_last_ok :
  exists f1, Grow_last f new_blocks new_bits added v = Some f1 /\
             frame l fG (set_geometry f1 nb bits) /\ pack_denotes (set_geometry f1 nb bits) l h /\
             no_blocks f1 = no_blocks f.
Proof.
  unfold Grow_last. fold l old. change 65536 with 0x10000 in N. fold N.
  destruct (stat f l) eqn:Est; cbn [pack_rep] in Hg.
  - destruct Hg as (Ek & Hlast & Eg). destruct v.
    + unfold IsFull_b. rewrite Est, is_st_refl, end_block_bsize. cbn [andb].
      assert (bsize f l = old) as -> by (unfold bsize, l; rewrite Z.eqb_refl; done).
      destruct (Z.eqb_spec (lst f l) (old - 1)) as [E|E].
      * eexists. split; [reflexivity|]. change (set_geometry (set_lst f l ?x) nb bits) with (set_lst fG l x).
        split; [frame_tac|]. split; [|done]. unfold pack_denotes. frd. rewrite HbG.
        change (stat fG l) with (stat f l). change (blk fG l) with (blk f l). rewrite Est.
        assert (wrap 16 (if new_blocks =? 0 then new_bits - 1 else 65535) = N - 1) as ->.
        { unfold N in *. destruct (new_blocks =? 0); rewrite wrap16_small; lia. }
        split; [done|]. split; [lia|]. intros m Hm. unfold h. destruct (Z.ltb_spec m old); [rewrite Eg by lia|]; cmp_solve.
      * eexists. split; [reflexivity|].
        change (set_geometry (set_blk (set_stat f l FB_MIXED) l ?x) nb bits) with (set_blk (set_stat fG l FB_MIXED) l x).
        split; [frame_tac|]. split; [|done]. unfold pack_denotes. frd. rewrite HbG.
        assert (denotes (Init N true) N (fun _ => true)) as Hi by (apply denotes_Init; lia).
        assert (eq_upto N (minus (fun _ => true) (lst f l + 1) (old - 1)) h) as Eh.
        { intros m Hm. unfold minus, within, h. destruct (Z.ltb_spec m old); [rewrite Eg by lia|]; cmp_solve. }
        assert (0 < cnt h 0 N < N) as Hc.
        { pose proof (cnt_bounds h 0 N). split.
          - destruct (Z.eq_dec (cnt h 0 N) 0) as [Ez|]; [|lia]. rewrite cnt_zero in Ez.
            specialize (Ez 0 ltac:(lia)). rewrite <- Eh in Ez by lia. revert Ez. unfold minus, within. cmp_solve.
          - destruct (Z.eq_dec (cnt h 0 N) N) as [Ez|]; [|lia].
            pose proof (proj1 (cnt_full h 0 N ltac:(lia)) ltac:(lia) (old - 1) ltac:(lia)) as Hx.
            rewrite <- Eh in Hx by lia. revert Hx. unfold minus, within. cmp_solve. }
        eexists. split; [reflexivity|]. split; [|done]. rewrite <- Eh. apply denotes_Reset_between; [done|lia|lia|].
        pose proof (cnt_proper N _ _ Eh) as Hce. simpl in Hce. rewrite Hce. lia.
    + change (is_st FB_FULL FB_MIXED) with false. eexists. split; [reflexivity|]. fold fG.
      split; [frame_tac|]. split; [|done]. unfold pack_denotes. rewrite HbG.
      change (stat fG l) with (stat f l). change (blk fG l) with (blk f l). change (lst fG l) with (lst f l). rewrite Est.
      split; [done|]. split; [lia|]. intros m Hm. unfold h. destruct (Z.ltb_spec m old); [rewrite Eg by lia|]; cmp_solve.
  - destruct Hg as (Ek & Eg). destruct v.
    + pose proof (denotes_Init N false ltac:(lia)) as Hi.
      assert (eq_upto N (fun m => within old (old + added - 1) m || false) h) as Eh.
      { intros m Hm. unfold within, h. destruct (Z.ltb_spec m old); [rewrite Eg by lia|]; cmp_solve. }
      pose proof (denotes_Set_between _ N _ old (old + added - 1) Hi ltac:(lia) ltac:(lia)) as Hd.
      pose proof (Set_between_flag _ N _ old (old + added - 1) Hi ltac:(lia) ltac:(lia)) as Hfl.
      assert (0 < cnt h 0 N < N) as Hc.
      { rewrite (cnt_split h 0 old N) by lia.
        rewrite (proj2 (cnt_zero h 0 old)) by (intros i Hi'; unfold h; destruct (Z.ltb_spec i old); [apply Eg; lia|lia]).
        rewrite (proj2 (cnt_full h old N ltac:(lia))) by (intros i Hi'; unfold h; cmp_solve). lia. }
      pose proof (cnt_proper N _ _ Eh) as Hce. simpl in Hce. cbv beta in Hfl. rewrite Hce in Hfl.
      destruct (Z.eqb_spec (cnt h 0 N) N); [lia|].
      set (f0 := set_blk (set_stat f l FB_MIXED) l (Some (Init N false))).
      assert (blk f0 l = Some (Init N false)) as Ek0.
      { change (blk (set_blk (set_stat fG l FB_MIXED) l (Some (Init N false))) l = Some (Init N false)). by frd. }
      change (no_of_bits_in_last_block f0) with old.
      unfold on_block. rewrite Ek0. destruct (Set_between (Init N false) old (old + added - 1)) as [k' fl].
      cbn [fst snd] in *. subst fl. cbv iota. eexists. split; [reflexivity|].
      change (set_geometry (set_blk f0 l (Some k')) nb bits)
        with (set_blk (set_blk (set_stat fG l FB_MIXED) l (Some (Init N false))) l (Some k')).
      split; [frame_tac|]. split; [|done]. unfold pack_denotes. frd. rewrite HbG.
      exists k'. split; [done|]. split; [by rewrite <- Eh|done].
    + change (is_st FB_EMPTY FB_MIXED) with false. eexists. split; [reflexivity|]. fold fG.
      split; [frame_tac|]. split; [|done]. unfold pack_denotes. rewrite HbG.
      change (stat fG l) with (stat f l). change (blk fG l) with (blk f l). rewrite Est.
      split; [done|]. intros m Hm. unfold h. destruct (Z.ltb_spec m old); [by apply Eg; lia|done].
  - destruct Hg as (k & Ek & Hd & Hc). rewrite Ek, is_st_refl. cbn [mbind option_bind].
    destruct (denotes_GrowBlock k old g added v Hd ltac:(lia) ltac:(lia)) as (k' & Eg & Hk'). fold h in Hk'.
    rewrite HN in Hk'.
    assert ((if v then k' ← GrowBlock k added true; Some (set_blk f l (Some k'))
             else k' ← GrowBlock k added false; Some (set_blk f l (Some k'))) = Some (set_blk f l (Some k'))) as ->
      by (destruct v; by rewrite Eg).
    eexists. split; [reflexivity|]. change (set_geometry (set_blk f l ?x) nb bits) with (set_blk fG l x).
    split; [frame_tac|]. split; [|done]. unfold pack_denotes. frd. rewrite HbG.
    change (stat fG l) with (stat f l). rewrite Est. exists k'. split; [done|]. split; [done|].
    by apply grown_mixed.
Qed.
End Last.

(** ** The whole operation *)

Section Whole.
Context (junk : Z -> Z) (f : Filter) (F : Z -> bool) (HF : fdenotes f F) (n : Z) (v : bool).
Context (Hn : 0 < n) (Hmax : NoObj f + n <= 2 ^ 47 - 2 ^ 16).

Let nb := no_blocks f.
Let old := no_of_bits_in_last_block f.

(** The numbers the code computes. *)
Definition grow_packs : Z := (NoObj f + n + 65535) / 65536 - nb.
Definition grow_last_bits : Z := NoObj f + n - 65536 * ((NoObj f + n + 65535) / 65536 - 1).

Lemma grow_numbers :
  0 <= grow_packs /\ 0 < grow_last_bits <= 65536 /\ 0 < nb + grow_packs /\
  (if Z.land (old + n) 0xFFFF =? 0 then 0x10000 else Z.land (old + n) 0xFFFF) = grow_last_bits /\
  (if old =? 0 then swrap 32 (Z.shiftr (n + 0xFFFF) 16)
   else swrap 32 (Z.shiftr (n - (0x10000 - old) + 0xFFFF) 16)) = grow_packs.
Proof.
  pose proof (proj1 HF) as Hf. pose proof (NoObj_val f Hf) as EN. pose proof (sh_bits f Hf) as Hbits.
  pose proof (sh_nb f Hf) as Hnb. pose proof (sh_last f Hf) as Hlast. fold nb in Hnb, Hlast, EN. fold old in Hbits, Hlast, EN.
  rewrite !shiftr_add, land16. unfold grow_packs, grow_last_bits.
  assert (forall x, 0 <= x < 2 ^ 31 -> swrap 32 x = x) as Hsw.
  { intros x Hx. unfold swrap. rewrite Z.mod_small by lia. cmp_solve. }
  split_row (NoObj f + n + 65535). split_row (old + n). split_row (n + 65535). split_row (n - (0x10000 - old) + 65535).
  set (q := (NoObj f + n + 65535) / 65536) in *.
  assert (0 <= nb <= q) by (revert EN; case_cmp; lia).
  split; [lia|]. split; [lia|]. split; [revert EN; case_cmp; lia|]. split.
  - revert EN. case_cmp; lia.
  - revert EN. destruct (Z.eqb_spec nb 0); intros EN.
    + destruct (Z.eqb_spec old 0); [|lia]. rewrite Hsw; lia.
    + destruct (Z.eqb_spec old 0); [lia|]. rewrite Hsw; lia.
Qed.

Let fm := if 0 <? no_blocks f then mark f (no_blocks f - 1) else f.

Lemma marked_rows : fdenotes fm F /\ no_blocks fm = nb /\ no_of_bits_in_last_block fm = old.
Proof.
  subst fm. destruct (Z.ltb_spec 0 (no_blocks f)); [|done].
  destruct HF as [Hf Hp]. split; [split|].
  - by apply shape_mark.
  - intros b Hb. unfold pack_denotes. frd. apply Hp. unfold in_packs, mark in *. by destruct (track_changes f).
  - unfold mark. by destruct (track_changes f).
Qed.

Lemma grown_bsize c : 0 <= c < nb + grow_packs ->
  (if c =? nb + grow_packs - 1 then grow_last_bits else 65536) =
  (if c <? nb - 1 then 65536 else if c =? nb - 1 then (if grow_packs =? 0 then grow_last_bits else 65536)
   else if c =? nb + grow_packs - 1 then grow_last_bits else 65536).
Proof. destruct grow_numbers as (Hp & Hb & _). intros Hc. case_cmp; lia. Qed.

Let added := if 0x10000 - old <? n then 0x10000 - old else n.
Let fA := AddNewBlocks junk fm grow_packs v grow_last_bits.
Let fG := set_geometry fA (nb + grow_packs) grow_last_bits.
Let h := fun r => if r <? NoObj f then F r else v.

Lemma grow_facts :
  NoObj f = (if nb =? 0 then 0 else 65536 * (nb - 1) + old) /\ 0 <= old <= 65536 /\ 0 <= nb /\ (0 < nb <-> 0 < old).
Proof.
  pose proof (proj1 HF) as Hf. split; [apply (NoObj_val f Hf)|]. split; [apply (sh_bits f Hf)|].
  split; [apply (sh_nb f Hf)|apply (sh_last f Hf)].
Qed.

Lemma fA_same : no_blocks fA = nb /\ no_of_bits_in_last_block fA = old.
Proof.
  destruct marked_rows as (_ & <- & <-). apply Add_same.
Qed.

Lemma fG_shape : shape fG.
Proof.
  destruct marked_rows as (Hm & Enb & _). destruct grow_numbers as (Hp & Hbits & Hpos & _).
  unfold fG. rewrite <- Enb. apply Add_shape; [apply Hm|done|lia|]. rewrite Enb. lia.
Qed.

Lemma fG_bsize c : in_packs fG c ->
  bsize fG c = (if c <? nb - 1 then 65536 else if c =? nb - 1 then (if grow_packs =? 0 then grow_last_bits else 65536)
                else if c =? nb + grow_packs - 1 then grow_last_bits else 65536).
Proof. exact (grown_bsize c). Qed.

Lemma fA_reads c : in_packs fG c ->
  stat fG c = (if c <? nb then stat fm c else if v then FB_FULL else FB_EMPTY) /\
  blk fG c = (if c <? nb then blk fm c else None) /\
  lst fG c = (if c <? nb then lst fm c
              else wrap 16 (if v then if c =? nb + grow_packs - 1 then grow_last_bits - 1 else 65535 else junk c)).
Proof.
  intros Hc. destruct marked_rows as (Hm & Enb & _).
  pose proof (Add_reads junk fm (proj1 Hm) grow_packs v grow_last_bits c) as H. rewrite Enb in H. exact (H Hc).
Qed.

(** The added packs. *)
Lemma new_pack c : in_packs fG c -> nb <= c -> pack_denotes fG c (fun m => h (65536 * c + m)).
Proof.
  intros Hc Hge. destruct grow_numbers as (Hp & Hbits & _). destruct grow_facts as (EN & Hob & Hnb & _).
  destruct (fA_reads c Hc) as (E1 & E2 & E3). unfold pack_denotes. rewrite (fG_bsize c Hc), E1, E2, E3.
  destruct (Z.ltb_spec c nb); [lia|]. destruct (Z.ltb_spec c (nb - 1)); [lia|]. destruct (Z.eqb_spec c (nb - 1)); [lia|].
  assert (forall m, 0 <= m -> h (65536 * c + m) = v) as Hh.
  { intros m Hm'. unfold h. destruct (Z.ltb_spec (65536 * c + m) (NoObj f)); [|done]. exfalso.
    revert EN. destruct (Z.eqb_spec nb 0); lia. }
  destruct v.
  - split; [done|]. set (S := if c =? nb + grow_packs - 1 then grow_last_bits else 65536).
    assert (wrap 16 (if c =? nb + grow_packs - 1 then grow_last_bits - 1 else 65535) = S - 1) as ->.
    { subst S. destruct (c =? nb + grow_packs - 1); rewrite wrap16_small; lia. }
    split; [subst S; case_cmp; lia|]. intros m Hm'. rewrite Hh by lia. cmp_solve.
  - split; [done|]. intros m Hm'. apply Hh. lia.
Qed.

(** The packs that were there, but for a last one that is extended. *)
Lemma old_pack c : 0 <= c < nb -> c <> nb - 1 \/ added = 0 -> pack_denotes fG c (fun m => h (65536 * c + m)).
Proof.
  intros Hc Hne. destruct marked_rows as (Hm & Enb & Eold). destruct grow_numbers as (Hp & Hbits & _).
  destruct grow_facts as (EN & Hob & Hnb & _). destruct (Z.eqb_spec nb 0); [lia|].
  assert (in_packs fG c) as HcG by (unfold in_packs; cbn; lia). destruct (fA_reads c HcG) as (E1 & E2 & E3).
  assert (c = nb - 1 -> old = 65536) as Hold.
  { intros ->. destruct Hne as [|Hne]; [done|]. unfold added in Hne. destruct (Z.ltb_spec (0x10000 - old) n); lia. }
  assert (bsize fm c = 65536) as Ebs by (unfold bsize; rewrite Enb, Eold; case_cmp; auto).
  assert (bsize fG c = 65536) as EbG.
  { rewrite (fG_bsize c HcG). destruct (Z.ltb_spec c (nb - 1)); [done|]. destruct (Z.eqb_spec c (nb - 1)) as [E|]; [|lia].
    destruct (Z.eqb_spec grow_packs 0) as [E0|]; [|done]. exfalso. specialize (Hold E).
    unfold grow_packs in E0. split_row (NoObj f + n + 65535). lia. }
  pose proof (proj2 Hm c ltac:(unfold in_packs; lia)) as Hpk. unfold pack_denotes in *.
  rewrite Ebs in Hpk. rewrite EbG, E1, E2, E3. destruct (Z.ltb_spec c nb); [|lia].
  refine (proj1 (pack_rep_proper 65536 _ _ _ _ _ _) Hpk). intros m Hm'. unfold h.
  destruct (Z.ltb_spec (65536 * c + m) (NoObj f)); [done|]. exfalso.
  destruct (Z.eq_dec c (nb - 1)) as [E|]; [specialize (Hold E)|]; lia.
Qed.

Lemma grow_extends : 0 < nb -> 0 < added ->
  old + added = (if grow_packs =? 0 then grow_last_bits else 65536) /\
  (if grow_packs =? 0 then grow_last_bits else 65536) <= 65536.
Proof.
  intros Hnb Hap. destruct grow_numbers as (Hp & Hbits & _). destruct grow_facts as (EN & Hob & _ & _).
  destruct (Z.eqb_spec nb 0); [lia|]. split; [|case_cmp; lia].
  split_row (NoObj f + n + 65535). unfold grow_packs, grow_last_bits, added in *.
  destruct (Z.ltb_spec (0x10000 - old) n); case_cmp; lia.
Qed.

(** The packs after the last one has been extended. *)
Lemma extended :
  exists f1, (if (0 <? no_blocks fA) && (0 <? added)
              then Grow_last fA grow_packs grow_last_bits added v else Some fA) = Some f1 /\
             no_blocks f1 = nb /\ fdenotes (set_geometry f1 (nb + grow_packs) grow_last_bits) h.
Proof.
  destruct fA_same as [EA EAb]. destruct grow_numbers as (Hp & Hbits & _). destruct grow_facts as (EN & Hob & Hnb & Hlast).
  pose proof fG_shape as HGs. rewrite EA.
  assert (forall c, in_packs fG c -> c <> nb - 1 \/ added = 0 -> pack_denotes fG c (fun m => h (65536 * c + m))) as Hother.
  { intros c Hc Hne. destruct (Z.lt_ge_cases c nb); [apply old_pack; [destruct Hc; lia|done]|by apply new_pack]. }
  destruct (Z.ltb_spec 0 nb) as [Hnbp|Hnbp]; cbn [andb].
  - destruct (Z.ltb_spec 0 added) as [Hap|Hap].
    + assert (in_packs fG (nb - 1)) as HlG by (unfold in_packs; cbn; lia).
      destruct (grow_extends Hnbp Hap) as [Hx1 Hx2]. destruct marked_rows as (Hm & Enb & Eold).
      destruct (Grow_last_ok fA (nb + grow_packs) grow_last_bits grow_packs grow_last_bits added v (fun m => F (65536 * (nb - 1) + m)))
        as (f1 & E1 & Hfr & Hpk & Enb1); rewrite ?EA, ?EAb; try done; try lia.
      { fold fG. rewrite (fG_bsize _ HlG), Z.eqb_refl. destruct (Z.ltb_spec (nb - 1) (nb - 1)); [lia|done]. }
      { destruct (fA_reads (nb - 1) HlG) as (E1 & E2 & E3). destruct (Z.ltb_spec (nb - 1) nb); [|lia].
        change (stat fA) with (stat fG). change (blk fA) with (blk fG). change (lst fA) with (lst fG). rewrite E1, E2, E3.
        pose proof (proj2 Hm (nb - 1) ltac:(unfold in_packs; lia)) as Hpm. unfold pack_denotes, bsize in Hpm.
        rewrite Enb, Eold, Z.eqb_refl in Hpm. exact Hpm. }
      rewrite EA in Hfr, Hpk. rewrite EAb in Hpk. exists f1. split; [done|]. split; [congruence|]. split; [apply Hfr|].
      intros c Hc. destruct (Z.eq_dec c (nb - 1)) as [->|Hne].
      * refine (proj1 (pack_denotes_proper _ _ _ _ _) Hpk). intros m Hm'. unfold h. cbv beta.
        revert EN. destruct (Z.eqb_spec nb 0); [lia|]. intros EN. case_cmp; (done || lia).
      * apply (proj2 (frame_pack _ _ _ c _ Hfr Hne)). apply Hother; [exact Hc|by left].
    + exists fA. split; [done|]. split; [done|]. split; [exact HGs|]. intros c Hc. apply Hother; [exact Hc|].
      right. unfold added in *. revert Hap. case_cmp; lia.
  - exists fA. split; [done|]. split; [done|]. split; [exact HGs|]. intros c Hc. apply Hother; [exact Hc|].
    left. unfold in_packs in Hc. lia.
Qed.

Lemma Grow_rows :
  exists f', Grow junk f n v = Some f' /\ NoObj f' = NoObj f + n /\
             fdenotes f' (fun r => if r <? NoObj f then F r else v).
Proof.
  destruct grow_numbers as (Hp & Hbits & Hpos & Ebits & Epacks). destruct extended as (f1 & E1 & Enb & Hf1).
  unfold Grow. destruct (Z.eqb_spec n 0); [lia|]. fold old. rewrite Ebits, Epacks. fold fm fA.
  change 0x10000 with 65536 in *. fold added. rewrite E1. cbn [mbind option_bind].
  eexists. split; [reflexivity|]. rewrite Enb. split; [|done].
  rewrite (NoObj_val _ (proj1 Hf1)). cbn. destruct (Z.eqb_spec (nb + grow_packs) 0); [lia|].
  unfold grow_packs, grow_last_bits. lia.
Qed.
End Whole.

(** The rows of a filter of [n] rows followed by rows of value [v]. *)
Definition appended (F : Z -> bool) (n : Z) (v : bool) : Z -> bool :=
  fun r => if r <? n then F r else v.

(** C39: growing a filter by [n] rows of value [v] appends exactly those rows and keeps the
    old ones, whatever the state of the last pack (the total below 2^47 - 2^16 rows). *)
Theorem Filter_grow (junk : Z -> Z) (f : Filter) (F : Z -> bool) (n : Z) (v : bool)
    (HF : fdenotes f F) (Hn : 0 <= n) (Hmax : NoObj f + n <= 2 ^ 47 - 2 ^ 16) :
  exists f', Grow junk f n v = Some f' /\ NoObj f' = NoObj f + n /\
             fdenotes f' (appended F (NoObj f) v).
Proof.
  unfold appended.
  destruct (Z.eq_dec n 0) as [->|]; [|apply Grow_rows; (done || lia)].
  exists f. split; [done|]. split; [lia|]. apply (fdenotes_ext _ _ _ HF). intros r Hr. cmp_solve.
Qed.

Lemma Filter_grow_witness :
  exists f', Grow (fun _ => 7) (Construct 2 100 false) 200000 true = Some f' /\
             NoObj f' = NoObj (Construct 2 100 false) + 200000 /\
             fdenotes f' (appended (fun _ => false) (NoObj (Construct 2 100 false)) true).
Proof.
  apply (Filter_grow (fun _ => 7) (Construct 2 100 false) (fun _ => false)).
  - apply fdenotes_Construct; lia.
  - lia.
  - vm_compute. done.
Defined.
