(* ===== verification/FilterCopy.v ===== *)
(** * Row filters: copies, change tracking, swapped packs, block allocation

    A worker iterates over a copy of a filter with change tracking on; the packs it has changed
    are then copied back.  Also the exchange of one pack between two filters, the density
    measure used to order the dimensions, and the pool of block objects. *)

From stdpp Require Import option.
From S2P Require Import Prelude BinTools FilterBlock FilterDefs FilterCore FilterRefine FilterQuery FilterLogic.

(** ** Operations *)

(** [CopyBlock(f, block)]: [same_pool] tells that [f] is a shallow copy of the target, whose
    blocks are moved instead of copied.  The source is returned too. *)
Definition CopyBlock (junk : Z -> Z) (same_pool : bool) (self f : Filter) (block : Z) : Filter * Filter :=
  let self := set_stat self block (stat f block) in
  let self := set_lst self block (lst f block) in
  let '(self, f) :=
    match blk f block with
    | Some k =>
      if same_pool then (set_blk self block (Some k), set_blk f block None)
      else match blk self block with
           | Some k0 => (set_blk self block (Some (CopyFrom junk k0 k)), f)
           | None => (set_blk self block (Some (Block_copy junk k)), f)
           end
    | None =>
      if same_pool then (set_blk self block None, f)
      else match blk self block with Some _ => (DeleteBlock self block, f) | None => (self, f) end
    end in
  (mark self block, f).

Definition CopyChangedBlocks (junk : Z -> Z) (same_pool : bool) (self f : Filter) : Filter * Filter :=
  foldl (fun '(self, f) i => if WasBlockChanged f i then CopyBlock junk same_pool self f i else (self, f))
        (self, f) (range 0 (no_blocks self - 1)).

(** [SwapPack(f2, pack)]; the saved block starts as a block of 65536 zeros ([Block b(this)]).
    [None]: a mixed pack without its block. *)
Definition SwapPack (junk : Z -> Z) (self f2 : Filter) (pack : Z) : option (Filter * Filter) :=
  let b := Init 65536 false in
  let self := mark self pack in
  let f2 := mark f2 pack in
  b ← (if is_st (stat self pack) FB_MIXED then k ← blk self pack; Some (CopyFrom junk b k) else Some b);
  self ← (if is_st (stat f2 pack) FB_MIXED then
            k2 ← blk f2 pack;
            Some (set_blk self pack (Some (match blk self pack with
                                           | None => Block_copy junk k2
                                           | Some k => CopyFrom junk k k2
                                           end)))
          else Some (match blk self pack with Some _ => DeleteBlock self pack | None => self end));
  let f2 := if is_st (stat self pack) FB_MIXED then
              set_blk f2 pack (Some (match blk f2 pack with
                                     | None => Block_copy junk b
                                     | Some k2 => CopyFrom junk k2 b
                                     end))
            else match blk f2 pack with Some _ => DeleteBlock f2 pack | None => f2 end in
  let s1 := stat self pack in
  let s2 := stat f2 pack in
  let l1 := lst self pack in
  let l2 := lst f2 pack in
  Some (set_lst (set_stat self pack s2) pack l2, set_lst (set_stat f2 pack s1) pack l1).

(** [int(count / double(nonempty))]: the quotient is far from an integer when it is not one
    (count < 2^48, nonempty < 2^31), so the double division truncates to the integer one. *)
Definition DensityWeight (f : Filter) : Z :=
  let '(count, nonempty) :=
    foldl (fun '(count, nonempty) b =>
             if is_st (stat f b) FB_FULL then (count + (lst f b + 1), nonempty + 1)
             else match blk f b with Some k => (count + no_set_bits k, nonempty + 1) | None => (count, nonempty) end)
          (0, 0) (range 0 (no_blocks f - 1)) in
  if nonempty <? 2 then 65537 else count / nonempty.

(** The pool of block objects: the addresses come from the object pool, here as a stream. *)
Record BlockAllocator := mkAlloc { free_in_pool : Z; next_ndx : Z; pool : list Z; fresh : Z }.

Definition pool_size : Z := 59.
Definition pool_stride : Z := 7.

Definition BlockAllocator_new : BlockAllocator := mkAlloc 0 0 (replicate (Z.to_nat pool_size) 0) 0.

(** [addr i] is the [i]-th address the object pool hands out. *)
Definition Alloc (addr : Z -> Z) (a : BlockAllocator) : Z * BlockAllocator :=
  let a := if free_in_pool a =? 0
           then mkAlloc pool_size 0 (map (fun i => addr (fresh a + i)) (range 0 (pool_size - 1))) (fresh a + pool_size)
           else a in
  ((pool a).[0|next_ndx a],
   mkAlloc (free_in_pool a - 1) (Z.rem (next_ndx a + pool_stride) pool_size) (pool a) (fresh a)).

(** ** Copying packs *)

Lemma pack_denotes_unique f b g h :
  pack_denotes f b g -> pack_denotes f b h -> eq_upto (bsize f b) g h.
Proof.
  unfold pack_denotes. destruct (stat f b); cbn [pack_rep].
  - intros (_ & _ & Eg) (_ & _ & Eh) m Hm. by rewrite Eg, Eh.
  - intros (_ & Eg) (_ & Eh) m Hm. by rewrite Eg, Eh.
  - intros (k & Ek & Hg & _) (k' & Ek' & Hh & _) m Hm. rewrite Ek in Ek'. injection Ek' as <-.
    destruct Hg as (_ & _ & Hg), Hh as (_ & _ & Hh). by rewrite <- Hg, <- Hh.
Qed.

(** The table of a block that is there is one of the pool. *)
Definition tables_ok (f : Filter) : Prop :=
  forall b k, in_packs f b -> blk f b = Some k -> table_ok (block_table k).

Lemma fdenotes_tables f F : fdenotes f F -> tables_ok f.
Proof.
  intros HF b k Hb Ek. pose proof (proj2 HF b Hb) as Hp. unfold pack_denotes in Hp.
  destruct (stat f b); cbn [pack_rep] in Hp.
  - destruct Hp as [E _]. congruence.
  - destruct Hp as [E _]. congruence.
  - destruct Hp as (k' & E & Hd & _). rewrite Ek in E. injection E as <-. apply Hd.
Qed.

Section Copy.
Context (junk : Z -> Z) (self f : Filter) (Hself : shape self) (Hs : same_rows self f).
Context (b : Z) (Hb : in_packs self b) (g : Z -> bool) (Hg : pack_denotes f b g) (Ht : tables_ok self).

Lemma CopyBlock_update : pack_update self (fst (CopyBlock junk false self f b)) b g /\
                         snd (CopyBlock junk false self f b) = f.
Proof.
  unfold CopyBlock. cbv zeta. set (f1 := set_lst _ b _).
  assert (frame b self f1) as Hfr by (subst f1; frame_tac).
  assert (in_packs f1 b) as Hb1 by by apply (frame_in_packs b self).
  assert (shape f1) as Hs1 by apply Hfr.
  assert (stat f1 b = stat f b /\ blk f1 b = blk self b /\ lst f1 b = lst f b) as (E1 & E2 & E3) by (subst f1; frd; done).
  assert (bsize f b = bsize self b) as Ebs by (unfold bsize; by rewrite (proj1 Hs), (proj2 Hs)).
  rewrite E2. pose proof Hg as Hg'. unfold pack_denotes in Hg'. rewrite Ebs in Hg'.
  assert (forall k, pack_rep (bsize self b) (stat f b) k (lst f b) g ->
            pack_update self (mark (set_blk f1 b k) b) b g) as Hset.
  { intros k Hk. apply pack_update_mark; [done|apply (frame_trans b self f1); [done|frame_tac]|].
    unfold pack_denotes. frd. rewrite (frame_bsize b self f1), E1, E3 by done. done. }
  destruct (blk f b) as [k|] eqn:Ek.
  - assert (forall k', denotes k' (bsize self b) g ->
              pack_rep (bsize self b) (stat f b) (Some k') (lst f b) g) as Hrep.
    { intros k' Hk'. destruct (stat f b); cbn [pack_rep] in *; [by destruct Hg'|by destruct Hg'|].
      destruct Hg' as (k0 & _ & _ & Hc). by exists k'. }
    assert (denotes k (bsize self b) g) as Hdk.
    { destruct (stat f b); cbn [pack_rep] in *; [by destruct Hg'|by destruct Hg'|].
      destruct Hg' as (k0 & [= <-] & Hd & _). done. }
    destruct (blk self b) as [k0|] eqn:Ek0; cbn [fst snd]; (split; [|done]); apply Hset, Hrep.
    + apply denotes_CopyFrom; [done|]. right. by apply (Ht b k0 Hb).
    + by apply denotes_copy.
  - destruct (blk self b) as [k0|] eqn:Ek0; cbn [fst snd]; (split; [|done]).
    + apply Hset. done.
    + apply pack_update_mark; [done|done|]. unfold pack_denotes. rewrite (frame_bsize b self f1), E1, E2, E3 by done. done.
Qed.
End Copy.

(** ** Copying the changed packs back *)

Lemma fdenotes_copy junk f F : fdenotes f F -> fdenotes (Filter_copy junk f) F.
Proof.
  intros [Hf Hp]. split.
  - destruct Hf. split; cbn; try done; try (unfold zlen in *; rewrite length_map; done).
    intros Ht. rewrite Ht. auto.
  - intros b Hb. specialize (Hp b Hb). unfold pack_denotes in *. change (bsize (Filter_copy junk f) b) with (bsize f b).
    change (stat (Filter_copy junk f) b) with (stat f b). change (lst (Filter_copy junk f) b) with (lst f b).
    assert (blk (Filter_copy junk f) b = match blk f b with Some k => Some (Block_copy junk k) | None => None end) as ->.
    { unfold blk, Filter_copy. cbn. unfold znth. destruct (Z.ltb_spec b 0); [done|].
      rewrite !nth_lookup, list_lookup_fmap. by destruct (blocks f !! Z.to_nat b). }
    destruct (stat f b); cbn [pack_rep] in *.
    + destruct Hp as (-> & ?). done.
    + destruct Hp as (-> & ?). done.
    + destruct Hp as (k & -> & Hd & Hc). eexists. split; [done|]. split; [by apply denotes_copy|done].
Qed.

Lemma fdenotes_track f F : fdenotes f F -> fdenotes (StartTrackingChanges f) F.
Proof.
  intros [Hf Hp]. split; [|exact Hp]. destruct Hf. split; cbn; try done. intros _. by apply zlen_replicate.
Qed.

Section CopyBack.
Context (junk : Z -> Z) (f0 w0 w : Filter) (F0 G : Z -> bool).
Context (H0 : fdenotes f0 F0) (Hw0 : fdenotes w0 F0) (Hs : same_rows f0 w0) (Htrack : track_changes w0 = true).
Context (Hev : evolves w0 w) (Hw : fdenotes w G).

Lemma unchanged_pack b : in_packs f0 b -> WasBlockChanged w b = false ->
  pack_denotes f0 b (fun m => G (65536 * b + m)).
Proof.
  intros Hb Hun. assert (in_packs w0 b) as Hb0 by (unfold in_packs in *; by rewrite <- (proj1 Hs)).
  assert (in_packs w b) as Hbw by by apply (evolves_in_packs w0).
  destruct (ev_same w0 w Hev b Htrack Hun) as (E1 & E2 & E3).
  assert (pack_denotes w0 b (fun m => G (65536 * b + m))) as Hg.
  { pose proof (proj2 Hw b Hbw) as Hp. unfold pack_denotes in *. rewrite (evolves_bsize w0 w b Hev), E1, E2, E3 in Hp. done. }
  pose proof (pack_denotes_unique w0 b _ _ (proj2 Hw0 b Hb0) Hg) as Eq.
  assert (bsize w0 b = bsize f0 b) as Ebs by (unfold bsize; by rewrite (proj1 Hs), (proj2 Hs)).
  rewrite Ebs in Eq. refine (proj1 (pack_denotes_proper f0 b _ _ Eq) _). by apply H0.
Qed.

Lemma CopyChanged_rows :
  let r := CopyChangedBlocks junk false f0 w in
  fdenotes (fst r) G /\ snd r = w /\ same_rows (fst r) f0.
Proof.
  pose proof (sh_nb f0 (proj1 H0)) as Hnb. unfold CopyChangedBlocks.
  pose (I := fun (i : Z) (p : Filter * Filter) => snd p = w /\ shape (fst p) /\ same_rows (fst p) f0 /\ tables_ok (fst p) /\
    (forall c, in_packs f0 c -> c < i -> pack_denotes (fst p) c (fun m => G (65536 * c + m))) /\
    (forall c, in_packs f0 c -> i <= c -> forall g, pack_denotes f0 c g -> pack_denotes (fst p) c g)).
  assert (I (no_blocks f0 - 1 + 1) (foldl (fun '(self, f) i => if WasBlockChanged f i then CopyBlock junk false self f i else (self, f))
      (f0, w) (range 0 (no_blocks f0 - 1)))) as (E1 & E2 & E3 & E4 & E5 & _).
  { apply (foldl_range _ I); [lia| |].
    - split; [done|]. split; [apply H0|]. split; [done|]. split; [by apply (fdenotes_tables f0 F0)|]. split; [|by auto].
      intros c Hc Hlt. unfold in_packs in Hc. lia.
    - intros i [s w'] Hi (E & Hsh & Hsr & Ht & Hdone & Htodo). cbn [fst snd] in *. subst w'.
      assert (in_packs f0 i) as Hi0 by (unfold in_packs; lia).
      destruct (WasBlockChanged w i) eqn:Ech.
      + assert (in_packs s i) as His by (unfold in_packs; rewrite (proj1 Hsr); lia).
        assert (in_packs w i) as Hiw.
        { apply (evolves_in_packs w0 w i Hev). unfold in_packs in *. by rewrite <- (proj1 Hs). }
        assert (same_rows s w) as Hsw.
        { destruct Hs as [a1 a2], Hsr as [b1 b2]. split; [rewrite (ev_nb _ _ Hev)|rewrite (ev_bits _ _ Hev)]; congruence. }
        destruct (CopyBlock_update junk s w Hsh Hsw i His _ (proj2 Hw i Hiw) Ht) as [[Hfr Hpk _] Esnd].
        split; [done|]. split; [apply Hfr|]. split; [split; [rewrite (fr_nb _ _ _ Hfr)|rewrite (fr_bits _ _ _ Hfr)]; apply Hsr|].
        split; [|split].
        * intros c k Hc Ek. destruct (Z.eq_dec c i) as [->|Hne].
          -- unfold pack_denotes in Hpk. rewrite Ek in Hpk. destruct (stat _ i); cbn [pack_rep] in Hpk;
               [by destruct Hpk|by destruct Hpk|]. destruct Hpk as (k' & [= <-] & Hd & _). apply Hd.
          -- rewrite (fr_blk _ _ _ Hfr c Hne) in Ek. apply (Ht c k); [|done]. unfold in_packs in *. by rewrite <- (fr_nb _ _ _ Hfr).
        * intros c Hc Hlt. destruct (Z.eq_dec c i) as [->|Hne]; [done|].
          apply (frame_pack i s _ c _ Hfr Hne). apply Hdone; [done|lia].
        * intros c Hc Hle g Hg. apply (frame_pack i s _ c _ Hfr); [lia|]. apply Htodo; [done|lia|done].
      + split; [done|]. split; [done|]. split; [done|]. split; [done|]. split.
        * intros c Hc Hlt. destruct (Z.eq_dec c i) as [->|Hne]; [|apply Hdone; [done|lia]].
          apply Htodo; [done|lia|]. by apply unchanged_pack.
        * intros c Hc Hle g Hg. apply Htodo; [done|lia|done]. }
  split; [|done]. split; [done|]. intros c Hc. apply E5; unfold in_packs in *; rewrite (proj1 E3) in Hc; lia.
Qed.
End CopyBack.

(** ** Swapping a pack *)

Section Swap.
Context (junk : Z -> Z) (f f2 : Filter) (Hf : shape f) (Hf2 : shape f2) (Hs : same_rows f f2).
Context (b : Z) (Hb : in_packs f b) (g g2 : Z -> bool).
Context (Hg : pack_denotes f b g) (Hg2 : pack_denotes f2 b g2).

Let S := bsize f b.

Lemma swap_in2 : in_packs f2 b.
Proof. unfold in_packs in *. by rewrite <- (proj1 Hs). Qed.

Lemma swap_bsize : bsize f2 b = S.
Proof. unfold S, bsize. by rewrite (proj1 Hs), (proj2 Hs). Qed.

(** A copy of a block over another block, or over none. *)
Lemma copied_over (o : option Block) k N h :
  denotes k N h -> (forall k0, o = Some k0 -> table_ok (block_table k0)) ->
  denotes (match o with None => Block_copy junk k | Some k0 => CopyFrom junk k0 k end) N h.
Proof.
  intros Hd Ho. destruct o as [k0|]; [|by apply denotes_copy]. apply denotes_CopyFrom; [done|]. right. by apply Ho.
Qed.

Lemma SwapPack_packs :
  exists f' f2', SwapPack junk f f2 b = Some (f', f2') /\
    frame b f f' /\ frame b f2 f2' /\ pack_denotes f' b g2 /\ pack_denotes f2' b g /\
    (track_changes f = true -> WasBlockChanged f' b = true) /\
    (track_changes f2 = true -> WasBlockChanged f2' b = true).
Proof.
  pose proof swap_in2 as Hb2. pose proof swap_bsize as Ebs. unfold SwapPack. cbv zeta.
  assert (frame b f (mark f b)) as Hm by by apply frame_mark. assert (frame b f2 (mark f2 b)) as Hm2 by by apply frame_mark.
  assert (in_packs (mark f b) b) as Hmb by by apply in_packs_mark. assert (in_packs (mark f2 b) b) as Hmb2 by by apply in_packs_mark.
  pose proof (shape_mark f Hf b) as Hsm. pose proof (shape_mark f2 Hf2 b) as Hsm2. frd.
  pose proof Hg as Hg'. pose proof Hg2 as Hg2'. unfold pack_denotes in Hg', Hg2'. fold S in Hg'. rewrite Ebs in Hg2'.
  pose proof (bsize_bound f b Hf Hb) as HS. fold S in HS.
  assert (forall k, blk f b = Some k -> table_ok (block_table k)) as Ht.
  { intros k E. rewrite E in Hg'. destruct (stat f b); cbn [pack_rep] in Hg'; [by destruct Hg'|by destruct Hg'|].
    destruct Hg' as (k' & [= <-] & Hd & _). apply Hd. }
  assert (forall k, blk f2 b = Some k -> table_ok (block_table k)) as Ht2.
  { intros k E. rewrite E in Hg2'. destruct (stat f2 b); cbn [pack_rep] in Hg2'; [by destruct Hg2'|by destruct Hg2'|].
    destruct Hg2' as (k' & [= <-] & Hd & _). apply Hd. }
  (* the saved block *)
  assert (exists kb, (if is_st (stat f b) FB_MIXED then k ← blk f b; Some (CopyFrom junk (Init 65536 false) k)
                      else Some (Init 65536 false)) = Some kb /\
                     (stat f b = FB_MIXED -> denotes kb S g)) as (kb & -> & Hkb).
  { destruct (stat f b) eqn:Est; cbn [pack_rep] in Hg'; try (eexists; split; [reflexivity|done]).
    destruct Hg' as (k & -> & Hd & _). eexists. split; [reflexivity|]. intros _. apply denotes_CopyFrom; [done|].
    right. apply (denotes_Init 65536 false ltac:(lia)). }
  cbn [mbind option_bind].
  (* the new block of the first filter *)
  assert (exists o, (if is_st (stat f2 b) FB_MIXED then
          k2 ← blk f2 b;
          Some (set_blk (mark f b) b (Some (match blk f b with
                                         | None => Block_copy junk k2
                                         | Some k => CopyFrom junk k k2
                                         end)))
        else Some (match blk f b with Some _ => DeleteBlock (mark f b) b | None => mark f b end))
        = Some o /\ frame b f o /\ stat o b = stat f b /\ lst o b = lst f b /\
        pack_rep S (stat f2 b) (blk o b) (lst f2 b) g2 /\ (track_changes f = true -> WasBlockChanged o b = true))
    as (f1 & -> & Hfr1 & E1 & E1' & Hrep1 & Hch1).
  { pose proof (mark_changed f Hf b Hb) as Hch.
    destruct (stat f2 b) eqn:Est2; cbn [pack_rep] in Hg2'.
    - destruct (blk f b) eqn:Ek; (eexists; split; [reflexivity|]); unfold DeleteBlock; frd; rewrite ?Ek;
        (split; [apply (frame_trans b f (mark f b)); [done|frame_tac]|]); (split; [done|]); (split; [done|]); (split; [|exact Hch]); (split; [done|apply Hg2']).
    - destruct (blk f b) eqn:Ek; (eexists; split; [reflexivity|]); unfold DeleteBlock; frd; rewrite ?Ek;
        (split; [apply (frame_trans b f (mark f b)); [done|frame_tac]|]); (split; [done|]); (split; [done|]); (split; [|exact Hch]); (split; [done|apply Hg2']).
    - destruct Hg2' as (k2 & Ek2 & Hd2 & Hc2). rewrite Ek2. cbn. eexists. split; [reflexivity|]. frd.
      split; [apply (frame_trans b f (mark f b)); [done|frame_tac]|]. split; [done|]. split; [done|]. split; [|done].
      eexists. split; [reflexivity|]. split; [|done]. by apply copied_over. }
  cbn [mbind option_bind]. rewrite E1, E1'.
  (* the new block of the second filter *)
  set (f3 := if is_st (stat f b) FB_MIXED then _ else _).
  assert (frame b f2 f3 /\ stat f3 b = stat f2 b /\ lst f3 b = lst f2 b /\ pack_rep S (stat f b) (blk f3 b) (lst f b) g /\
          (track_changes f2 = true -> WasBlockChanged f3 b = true)) as (Hfr3 & E3 & E3' & Hrep3 & Hch3).
  { pose proof (mark_changed f2 Hf2 b Hb2) as Hch. subst f3.
    destruct (stat f b) eqn:Est; cbn [pack_rep] in Hg'.
    - change (is_st FB_FULL FB_MIXED) with false. destruct (blk f2 b) eqn:Ek; unfold DeleteBlock; cbv iota; frd; rewrite ?Ek;
        (split; [apply (frame_trans b f2 (mark f2 b)); [done|frame_tac]|]); (split; [done|]); (split; [done|]); (split; [|exact Hch]); (split; [done|apply Hg']).
    - change (is_st FB_EMPTY FB_MIXED) with false. destruct (blk f2 b) eqn:Ek; unfold DeleteBlock; cbv iota; frd; rewrite ?Ek;
        (split; [apply (frame_trans b f2 (mark f2 b)); [done|frame_tac]|]); (split; [done|]); (split; [done|]); (split; [|exact Hch]); (split; [done|apply Hg']).
    - destruct Hg' as (k & Ek & Hd & Hc). rewrite is_st_refl. frd.
      split; [apply (frame_trans b f2 (mark f2 b)); [done|frame_tac]|]. split; [done|]. split; [done|]. split; [|done].
      eexists. split; [reflexivity|]. split; [|done]. apply copied_over; [by apply Hkb|done]. }
  pose proof (fr_shape _ _ _ Hfr1) as Hs1. pose proof (fr_shape _ _ _ Hfr3) as Hs3.
  assert (in_packs f1 b) by by apply (frame_in_packs b f). assert (in_packs f3 b) by by apply (frame_in_packs b f2).
  eexists _, _. split; [reflexivity|]. rewrite E3, E3'.
  split; [apply (frame_trans b f f1); [done|frame_tac]|]. split; [apply (frame_trans b f2 f3); [done|frame_tac]|].
  split; [|split; [|split; [exact Hch1|exact Hch3]]].
  - unfold pack_denotes. frd. rewrite (frame_bsize b f f1) by done. exact Hrep1.
  - unfold pack_denotes. frd. rewrite (frame_bsize b f2 f3), Ebs by done. exact Hrep3.
Qed.
End Swap.

(** ** The block allocator *)

(** The state after [n] allocations. *)
Fixpoint alloc_run (addr : Z -> Z) (n : nat) : list Z * BlockAllocator :=
  match n with
  | O => ([], BlockAllocator_new)
  | S n' => let '(l, a) := alloc_run addr n' in let '(x, a) := Alloc addr a in (l ++ [x], a)
  end.

(** Which object of the stream the [n]-th allocation returns. *)
Definition alloc_index (n : Z) : Z := 59 * (n / 59) + (7 * (n mod 59)) mod 59.

Definition alloc_inv (addr : Z -> Z) (n : Z) (a : BlockAllocator) : Prop :=
  (n mod 59 = 0 -> free_in_pool a = 0 /\ fresh a = n) /\
  (n mod 59 <> 0 -> free_in_pool a = 59 - n mod 59 /\ next_ndx a = (7 * (n mod 59)) mod 59 /\
     fresh a = 59 * (n / 59 + 1) /\ pool a = map (fun i => addr (59 * (n / 59) + i)) (range 0 58)).

Lemma divmod59 n : n = 59 * (n / 59) + n mod 59 /\ 0 <= n mod 59 < 59.
Proof. split; [apply Z.div_mod; lia|apply Z.mod_pos_bound; lia]. Qed.

Lemma divmod59_next n : n mod 59 <> 58 -> (n + 1) / 59 = n / 59 /\ (n + 1) mod 59 = n mod 59 + 1.
Proof.
  intros H. destruct (divmod59 n). split; [symmetry; apply (Z.div_unique_pos _ _ _ (n mod 59 + 1)); lia|].
  symmetry. apply (Z.mod_unique_pos _ _ (n / 59)); lia.
Qed.

Lemma divmod59_wrap n : n mod 59 = 58 -> (n + 1) mod 59 = 0.
Proof. intros H. destruct (divmod59 n). symmetry. apply (Z.mod_unique_pos _ _ (n / 59 + 1)); lia. Qed.

Lemma pool_read (h : Z -> Z) j : 0 <= j < 59 -> (map h (range 0 58)).[0|j] = h j.
Proof.
  intros Hj. unfold znth. destruct (Z.ltb_spec j 0); [lia|]. rewrite nth_lookup, list_lookup_fmap. unfold range.
  rewrite lookup_seqZ_lt by lia. cbn. f_equal. lia.
Qed.

Lemma Alloc_step addr n a : 0 <= n -> alloc_inv addr n a ->
  fst (Alloc addr a) = addr (alloc_index n) /\ alloc_inv addr (n + 1) (snd (Alloc addr a)).
Proof.
  intros Hn [H0 H1]. destruct (divmod59 n) as [En Hm]. unfold Alloc.
  set (a1 := if free_in_pool a =? 0 then _ else a).
  assert (free_in_pool a1 = 59 - n mod 59 /\ next_ndx a1 = (7 * (n mod 59)) mod 59 /\ fresh a1 = 59 * (n / 59 + 1) /\
          pool a1 = map (fun i => addr (59 * (n / 59) + i)) (range 0 58)) as (E1 & E2 & E3 & E4).
  { subst a1. destruct (Z.eq_dec (n mod 59) 0) as [E|E].
    - destruct (H0 E) as [-> Ef]. rewrite E, Ef. cbn. split; [done|]. split; [done|]. unfold pool_size. split; [lia|].
      apply map_ext. intros i. f_equal. lia.
    - destruct (H1 E) as (Ef & ?). rewrite Ef. destruct (Z.eqb_spec (59 - n mod 59) 0); [lia|]. by rewrite <- Ef. }
  cbn [fst snd]. pose proof (Z.mod_pos_bound (7 * (n mod 59)) 59 ltac:(lia)) as Hx. split.
  - rewrite E2, E4, pool_read by lia. done.
  - unfold alloc_inv. cbn. rewrite E1, E2, E3, E4. unfold pool_size, pool_stride. destruct (Z.eq_dec (n mod 59) 58) as [E|E].
    + rewrite (divmod59_wrap n E). split; [lia|done].
    + destruct (divmod59_next n E) as [-> ->]. split; [lia|]. intros _. split; [lia|]. split; [|done].
      rewrite Z.rem_mod_nonneg by lia. rewrite Z.add_mod_idemp_l by lia. f_equal. lia.
Qed.

Lemma alloc_run_spec addr n :
  fst (alloc_run addr n) = map (fun i => addr (alloc_index i)) (range 0 (Z.of_nat n - 1)) /\
  alloc_inv addr (Z.of_nat n) (snd (alloc_run addr n)).
Proof.
  induction n as [|n IH]; [split; [done|split; done]|]. cbn [alloc_run].
  destruct (alloc_run addr n) as [l a]. cbn [fst snd] in IH. destruct IH as [-> Hinv].
  destruct (Alloc_step addr (Z.of_nat n) a ltac:(lia) Hinv) as [Ex Hinv'].
  destruct (Alloc addr a) as [x a']. cbn [fst snd] in *. subst x.
  replace (Z.of_nat (S n)) with (Z.of_nat n + 1) by lia. split; [|done].
  replace (Z.of_nat n + 1 - 1) with (Z.of_nat n - 1 + 1) by lia. rewrite range_snoc by lia. rewrite map_app. cbn.
  by replace (Z.of_nat n - 1 + 1) with (Z.of_nat n) by lia.
Qed.

(** The stride and the pool size have no common factor: the indices never repeat. *)
Lemma alloc_index_inj i j : 0 <= i -> 0 <= j -> alloc_index i = alloc_index j -> i = j.
Proof.
  intros Hi Hj. unfold alloc_index. destruct (divmod59 i) as [Ei Mi]. destruct (divmod59 j) as [Ej Mj].
  pose proof (divmod59 (7 * (i mod 59))) as [Ai Bi]. pose proof (divmod59 (7 * (j mod 59))) as [Aj Bj]. intros E.
  assert (i / 59 = j / 59) by lia.
  assert (7 * (i mod 59 - j mod 59) = 59 * (7 * (i mod 59) / 59 - 7 * (j mod 59) / 59)) by lia. lia.
Qed.

(** ** Contracts *)

(** A worker that starts from a copy of a filter with change tracking on and reaches, by
    updates of rows, a filter holding the rows [G], can be joined into the original:
    [CopyChangedBlocks] copies only the flagged packs and the original then holds [G]. *)
Theorem Filter_copy_back (junk : Z -> Z) (f0 w : Filter) (F0 G : Z -> bool)
    (H0 : fdenotes f0 F0) (Hev : evolves (StartTrackingChanges (Filter_copy junk f0)) w) (Hw : fdenotes w G) :
  fdenotes (fst (CopyChangedBlocks junk false f0 w)) G /\ snd (CopyChangedBlocks junk false f0 w) = w.
Proof.
  destruct (CopyChanged_rows junk f0 (StartTrackingChanges (Filter_copy junk f0)) w F0 G H0) as (H1 & H2 & _); try done.
  by apply fdenotes_track, fdenotes_copy.
Qed.

Lemma Filter_copy_back_witness :
  exists w, SetBetween_rows (StartTrackingChanges (Filter_copy (fun _ => 5) (Construct 2 100 false))) 3 9 = Some w /\
            fdenotes (fst (CopyChangedBlocks (fun _ => 5) false (Construct 2 100 false) w)) (fun x => within 3 9 x || false).
Proof.
  assert (fdenotes (Construct 2 100 false) (fun _ => false)) as H0 by (apply fdenotes_Construct; lia).
  destruct (SetBetween_rows_spec (StartTrackingChanges (Filter_copy (fun _ => 5) (Construct 2 100 false))) (fun _ => false))
    with (r1 := 3) (r2 := 9) as (w & E & Hw & He).
  - by apply fdenotes_track, fdenotes_copy.
  - lia.
  - vm_compute. done.
  - exists w. split; [exact E|]. apply (Filter_copy_back (fun _ => 5) (Construct 2 100 false) w (fun _ => false)); assumption.
Defined.

(** [SwapPack] exchanges the rows of one pack between two filters over the same rows,
    whatever the representation of the pack in each, leaves the other packs alone and flags
    the pack as changed in both. *)
Theorem Filter_swap_pack (junk : Z -> Z) (f f2 : Filter) (F F2 : Z -> bool) (b : Z)
    (HF : fdenotes f F) (HF2 : fdenotes f2 F2) (Hs : same_rows f f2) (Hb : in_packs f b) :
  exists f' f2', SwapPack junk f f2 b = Some (f', f2') /\
    fdenotes f' (fun r => if r / 65536 =? b then F2 r else F r) /\ evolves f f' /\
    fdenotes f2' (fun r => if r / 65536 =? b then F r else F2 r) /\ evolves f2 f2'.
Proof.
  assert (in_packs f2 b) as Hb2 by (unfold in_packs in *; by rewrite <- (proj1 Hs)).
  destruct (SwapPack_packs junk f f2 (proj1 HF) (proj1 HF2) Hs b Hb _ _ (proj2 HF b Hb) (proj2 HF2 b Hb2))
    as (f' & f2' & E & Hfr & Hfr2 & Hp & Hp2 & Hc & Hc2).
  exists f', f2'. split; [done|].
  destruct (fdenotes_moved f f' b F F2 HF Hb) as [H1 H2]; [by right|].
  destruct (fdenotes_moved f2 f2' b F2 F HF2 Hb2) as [H3 H4]; [by right|]. done.
Qed.

Lemma Filter_swap_pack_witness :
  exists f' f2', SwapPack (fun _ => 5) (Construct 2 100 false) (Construct 2 100 true) 1 = Some (f', f2') /\
    fdenotes f' (fun r => if r / 65536 =? 1 then true else false) /\ evolves (Construct 2 100 false) f' /\
    fdenotes f2' (fun r => if r / 65536 =? 1 then false else true) /\ evolves (Construct 2 100 true) f2'.
Proof.
  apply (Filter_swap_pack (fun _ => 5) (Construct 2 100 false) (Construct 2 100 true) (fun _ => false) (fun _ => true));
    [apply fdenotes_Construct; lia|apply fdenotes_Construct; lia|done|unfold in_packs; cbn; lia].
Defined.

(** The block allocator never hands out an object twice: if the object pool returns
    distinct addresses, so do any number of allocations, although the pool of 59 objects is
    walked with a stride of 7. *)
Theorem BlockAllocator_distinct (addr : Z -> Z) (n : nat)
    (Hinj : forall i j, 0 <= i -> 0 <= j -> addr i = addr j -> i = j) :
  NoDup (fst (alloc_run addr n)).
Proof.
  rewrite (proj1 (alloc_run_spec addr n)). apply NoDup_ListNoDup, NoDup_map_NoDup_ForallPairs.
  - intros i j Hi Hj E. apply range_In in Hi, Hj. apply Hinj in E.
    + apply alloc_index_inj in E; [done|lia|lia].
    + unfold alloc_index. pose proof (Z.mod_pos_bound (7 * (i mod 59)) 59). pose proof (Z.div_pos i 59). lia.
    + unfold alloc_index. pose proof (Z.mod_pos_bound (7 * (j mod 59)) 59). pose proof (Z.div_pos j 59). lia.
  - apply NoDup_ListNoDup. unfold range. apply NoDup_seqZ.
Qed.

Lemma BlockAllocator_distinct_witness : NoDup (fst (alloc_run (fun i => 64 * i) 100)).
Proof. apply BlockAllocator_distinct. intros i j _ _ E. lia. Defined.
