(* ===== verification/FilterIter.v ===== *)
(** * Iterating over the rows of a filter (core/FilterIterators.cpp, FilterOnesIterator of
    core/Filter.h, util/CircBuf.h)

    The iterator walks the set rows of a filter pack by pack: a full pack by counting, a mixed
    pack through a window [b] of the current word of its bit table, which it scans eight bits at
    a time with the table [posOf1].  Packs seen ahead of the current one wait in a ring buffer.
    The filter itself is shared, so it is an argument of the operations.  [None] is a read of a
    block that is not there, or a loop that has run out of the rounds given to it. *)

From stdpp Require Import option.
From S2P Require Import Prelude BinTools FilterBlock FilterDefs FilterCore FilterRefine FilterQuery.

(** ** The ring buffer of packs ahead *)

Record FixedSizeBuffer := mkBuffer { buf : list Z; iin : Z; iout : Z; elems : Z; bsz : Z }.

Definition buf_reset (c : FixedSizeBuffer) : FixedSizeBuffer := mkBuffer (buf c) (bsz c - 1) 0 0 (bsz c).
Definition buf_new (size : Z) : FixedSizeBuffer :=
  buf_reset (mkBuffer (replicate (Z.to_nat size) 0) 0 0 0 size).
Definition buf_put (c : FixedSizeBuffer) (v : Z) : FixedSizeBuffer :=
  let i := Z.rem (iin c + 1) (bsz c) in
  mkBuffer ((buf c).[i <- v]) i (iout c) (elems c + 1) (bsz c).
Definition buf_get (c : FixedSizeBuffer) : Z * FixedSizeBuffer :=
  ((buf c).[0|iout c], mkBuffer (buf c) (iin c) (Z.rem (iout c + 1) (bsz c)) (elems c - 1) (bsz c)).
Definition buf_last (c : FixedSizeBuffer) : Z := (buf c).[0|iin c].
Definition buf_nth (c : FixedSizeBuffer) (n : Z) : Z := (buf c).[0|Z.rem (iout c + n) (bsz c)].
Definition buf_empty (c : FixedSizeBuffer) : bool := elems c =? 0.

(** ** The iterator *)

Record Iter := mkIter {
  valid : bool; cur_position : Z; iterator_b : Z; prev_iterator_b : Z; iterator_n : Z;
  cur_block_full : bool; cur_block_empty : bool;
  b : Z; bln : Z; lastn : Z; bitsLeft : Z;
  ones_left_in_block : Z; prev_block : Z; inside_one_pack : bool;
  packs_to_go : Z; packs_done : Z; buffer : FixedSizeBuffer
}.

Definition max_ahead : Z := 30.

(** Writes of one or a few members. *)
Definition set_valid (it : Iter) (v : bool) : Iter :=
  mkIter v (cur_position it) (iterator_b it) (prev_iterator_b it) (iterator_n it) (cur_block_full it)
    (cur_block_empty it) (b it) (bln it) (lastn it) (bitsLeft it) (ones_left_in_block it) (prev_block it)
    (inside_one_pack it) (packs_to_go it) (packs_done it) (buffer it).
Definition set_n (it : Iter) (n : Z) : Iter :=
  mkIter (valid it) (cur_position it) (iterator_b it) (prev_iterator_b it) n (cur_block_full it)
    (cur_block_empty it) (b it) (bln it) (lastn it) (bitsLeft it) (ones_left_in_block it) (prev_block it)
    (inside_one_pack it) (packs_to_go it) (packs_done it) (buffer it).
Definition set_position (it : Iter) : Iter :=
  mkIter (valid it) (Z.shiftl (iterator_b it) 16 + iterator_n it) (iterator_b it) (prev_iterator_b it) (iterator_n it)
    (cur_block_full it) (cur_block_empty it) (b it) (bln it) (lastn it) (bitsLeft it) (ones_left_in_block it)
    (prev_block it) (inside_one_pack it) (packs_to_go it) (packs_done it) (buffer it).
Definition set_pack (it : Iter) (pb p n : Z) (fu em : bool) (done : Z) (bu : FixedSizeBuffer) : Iter :=
  mkIter (valid it) (cur_position it) p pb n fu em (b it) (bln it) (lastn it) (bitsLeft it) (ones_left_in_block it)
    (prev_block it) (inside_one_pack it) (packs_to_go it) done bu.
Definition set_window (it : Iter) (n w l ln bl ones pblock : Z) : Iter :=
  mkIter (valid it) (cur_position it) (iterator_b it) (prev_iterator_b it) n (cur_block_full it)
    (cur_block_empty it) w l ln bl ones pblock (inside_one_pack it) (packs_to_go it) (packs_done it) (buffer it).
Definition set_buffer (it : Iter) (bu : FixedSizeBuffer) : Iter :=
  mkIter (valid it) (cur_position it) (iterator_b it) (prev_iterator_b it) (iterator_n it) (cur_block_full it)
    (cur_block_empty it) (b it) (bln it) (lastn it) (bitsLeft it) (ones_left_in_block it) (prev_block it)
    (inside_one_pack it) (packs_to_go it) (packs_done it) bu.

(** [posOf1]: the position of the lowest one of a byte, 8 for the zero byte. *)
Definition posOf1 : list Z := [
  8; 0; 1; 0; 2; 0; 1; 0; 3; 0; 1; 0; 2; 0; 1; 0;
  4; 0; 1; 0; 2; 0; 1; 0; 3; 0; 1; 0; 2; 0; 1; 0;
  5; 0; 1; 0; 2; 0; 1; 0; 3; 0; 1; 0; 2; 0; 1; 0;
  4; 0; 1; 0; 2; 0; 1; 0; 3; 0; 1; 0; 2; 0; 1; 0;
  6; 0; 1; 0; 2; 0; 1; 0; 3; 0; 1; 0; 2; 0; 1; 0;
  4; 0; 1; 0; 2; 0; 1; 0; 3; 0; 1; 0; 2; 0; 1; 0;
  5; 0; 1; 0; 2; 0; 1; 0; 3; 0; 1; 0; 2; 0; 1; 0;
  4; 0; 1; 0; 2; 0; 1; 0; 3; 0; 1; 0; 2; 0; 1; 0;
  7; 0; 1; 0; 2; 0; 1; 0; 3; 0; 1; 0; 2; 0; 1; 0;
  4; 0; 1; 0; 2; 0; 1; 0; 3; 0; 1; 0; 2; 0; 1; 0;
  5; 0; 1; 0; 2; 0; 1; 0; 3; 0; 1; 0; 2; 0; 1; 0;
  4; 0; 1; 0; 2; 0; 1; 0; 3; 0; 1; 0; 2; 0; 1; 0;
  6; 0; 1; 0; 2; 0; 1; 0; 3; 0; 1; 0; 2; 0; 1; 0;
  4; 0; 1; 0; 2; 0; 1; 0; 3; 0; 1; 0; 2; 0; 1; 0;
  5; 0; 1; 0; 2; 0; 1; 0; 3; 0; 1; 0; 2; 0; 1; 0;
  4; 0; 1; 0; 2; 0; 1; 0; 3; 0; 1; 0; 2; 0; 1; 0].

(** ** Scanning a block *)

(** The variables of the scan: position, window, word number, bits left in the window. *)
Record Scan := mkScan { s_n : Z; s_b : Z; s_bln : Z; s_left : Z }.

(** [while(block_table[bln] == 0) { iterator_n += 32; if(iterator_n >= cb_no_obj) break; ++bln; }] *)
Fixpoint skip_words (fuel : nat) (t : list Z) (no_obj n bln : Z) : option (Z * Z) :=
  match fuel with
  | O => None
  | S fuel' =>
    if t.[0|bln] =? 0 then
      let n := n + 32 in
      if no_obj <=? n then Some (n, bln) else skip_words fuel' t no_obj n (bln + 1)
    else Some (n, bln)
  end.

(** The innermost loop: scan the window by bytes; the flag tells that a one was found. *)
Fixpoint scan_window (fuel : nat) (no_obj : Z) (s : Scan) : option (Scan * bool) :=
  match fuel with
  | O => None
  | S fuel' =>
    if s_n s <? no_obj then
      let skip := posOf1.[0|Z.land (s_b s) 0xff] in
      if s_left s <? skip then Some (mkScan (s_n s + s_left s) (s_b s) (s_bln s) (s_left s), false)
      else
        let n := s_n s + skip in
        if no_obj <=? n then Some (mkScan n (s_b s) (s_bln s) (s_left s), false)
        else
          let s := mkScan n (Z.shiftr (s_b s) skip) (s_bln s) (s_left s - skip) in
          if skip <? 8 then Some (s, true) else scan_window fuel' no_obj s
    else Some (s, false)
  end.

(** [while(!found && iterator_n < cb_no_obj)] *)
Fixpoint find_one (fuel : nat) (k : Block) (s : Scan) : option (Scan * bool) :=
  match fuel with
  | O => None
  | S fuel' =>
    if s_n s <? no_obj k then
      if s_b s =? 0 then
        let n := s_n s + s_left s in
        let l := s_bln s + 1 in
        if block_size k <=? l then Some (mkScan n (s_b s) l (s_left s), false)
        else
          '(n, l) ← skip_words (Z.to_nat (block_size k)) (block_table k) (no_obj k) n l;
          if no_obj k <=? n then Some (mkScan n (s_b s) l (s_left s), false)
          else
            '(s, found) ← scan_window 5 (no_obj k) (mkScan n ((block_table k).[0|l]) l 32);
            if (found : bool) then Some (s, true) else find_one fuel' k s
      else
        '(s, found) ← scan_window 5 (no_obj k) s;
        if (found : bool) then Some (s, true) else find_one fuel' k s
    else Some (s, false)
  end.

Definition FindOneInsidePack (f : Filter) (it : Iter) : option (Iter * bool) :=
  k ← blk f (iterator_b it);
  let it :=
    if iterator_b it =? prev_block it
    then set_window it (iterator_n it) (b it) (bln it) (lastn it) (bitsLeft it) (ones_left_in_block it - 1) (prev_block it)
    else set_window it (iterator_n it) 0 0 (-2) 0 (no_set_bits k) (iterator_b it) in
  if iterator_n it <? no_obj k then
    let s :=
      if lastn it + 1 =? iterator_n it
      then mkScan (iterator_n it) (Z.shiftr (b it) 1) (bln it) (if 0 <? bitsLeft it then bitsLeft it - 1 else bitsLeft it)
      else
        let l := Z.shiftr (iterator_n it) 5 in
        let bitno := Z.land (iterator_n it) 0x1f in
        mkScan (iterator_n it) (Z.shiftr ((block_table k).[0|l]) bitno) l (32 - bitno) in
    '(s, found) ← find_one (Z.to_nat (block_size k) + 2) k s;
    Some (set_window it (s_n s) (s_b s) (s_bln s) (if (found : bool) then s_n s else lastn it) (s_left s)
            (ones_left_in_block it) (prev_block it), found)
  else Some (it, false).

(** ** Moving over the packs *)

(** [while(b < no_blocks && block_status[b] == FB_EMPTY) b++], from [b]. *)
Fixpoint skip_empty (fuel : nat) (f : Filter) (p : Z) : Z :=
  match fuel with
  | O => p
  | S fuel' => if (p <? no_blocks f) && is_st (stat f p) FB_EMPTY then skip_empty fuel' f (p + 1) else p
  end.

Definition next_pack (f : Filter) (p : Z) : Z := skip_empty (Z.to_nat (no_blocks f + 1)) f (p + 1).

(** The flag is the value returned. *)
Definition IteratorBpp (f : Filter) (it : Iter) : Iter * bool :=
  if buf_empty (buffer it) then
    let p := next_pack f (iterator_b it) in
    if no_blocks f <=? p then
      (set_pack it (iterator_b it) p 0 (cur_block_full it) (cur_block_empty it) (packs_done it) (buffer it), false)
    else
      let done := if packs_to_go it =? -1 then packs_done it else packs_done it + 1 in
      (set_pack it (iterator_b it) p 0 (is_st (stat f p) FB_FULL) (is_st (stat f p) FB_EMPTY) done (buffer it),
       (packs_to_go it =? -1) || (done <? packs_to_go it))
  else
    let '(p, bu) := buf_get (buffer it) in
    let done := if packs_to_go it =? -1 then packs_done it else packs_done it + 1 in
    (set_pack it (iterator_b it) p 0 (is_st (stat f p) FB_FULL) (is_st (stat f p) FB_EMPTY) done bu,
     (packs_to_go it =? -1) || (done <? packs_to_go it)).

Definition IsEndOfBlock (f : Filter) (it : Iter) : bool :=
  (iterator_n it =? 65535)
  || ((iterator_b it =? no_blocks f - 1) && (iterator_n it =? no_of_bits_in_last_block f - 1))
  || (cur_block_full it && (lst f (iterator_b it) <=? iterator_n it)).

(** The loop of [operator++] that looks for a pack with a row. *)
Fixpoint next_loop (fuel : nat) (f : Filter) (it : Iter) : option Iter :=
  match fuel with
  | O => None
  | S fuel' =>
    if cur_block_full it then Some (set_position it)
    else if cur_block_empty it then
      let '(it, more) := IteratorBpp f it in
      if more then next_loop fuel' f it else Some (set_valid it false)
    else
      '(it, found) ← FindOneInsidePack f it;
      if (found : bool) then Some (set_position it)
      else
        let '(it, more) := IteratorBpp f it in
        if more then next_loop fuel' f it else Some (set_valid it false)
  end.

(** [operator++] *)
Definition Next (f : Filter) (it : Iter) : option Iter :=
  let fuel := Z.to_nat (no_blocks f + 2) in
  if IsEndOfBlock f it then
    let '(it, more) := IteratorBpp f it in
    if more then next_loop fuel f it else Some (set_valid it false)
  else next_loop fuel f (set_n it (iterator_n it + 1)).

(** [Reset()]: the flags of the current block and the counters of packs are kept. *)
Definition Iter_reset (it : Iter) : Iter :=
  mkIter true (-1) (-1) (-1) 65535 (cur_block_full it) (cur_block_empty it) 0 0 0 0
    (ones_left_in_block it) (-1) (inside_one_pack it) (packs_to_go it) (packs_done it) (buf_reset (buffer it)).

Definition Rewind (f : Filter) (it : Iter) : option Iter := Next f (Iter_reset it).

(** [Init(ff)]: at most one pack has rows, then the rewind. *)
Definition Iter_init (f : Filter) (it : Iter) : option Iter :=
  let one := length (List.filter (fun p => negb (is_st (stat f p) FB_EMPTY)) (range 0 (no_blocks f - 1))) in
  let it := mkIter (valid it) (cur_position it) (iterator_b it) (prev_iterator_b it) (iterator_n it) (cur_block_full it)
              (cur_block_empty it) (b it) (bln it) (lastn it) (bitsLeft it) (ones_left_in_block it) (prev_block it)
              (Nat.leb one 1) (-1) 0 (buffer it) in
  Rewind f it.

(** The constructor without a filter; [junk] for the member it leaves uninitialized. *)
Definition Iter_empty (junk : Z) : Iter :=
  mkIter false (-1) (-1) (-1) (-1) false false 0 0 0 0 junk (-1) true (-1) 0 (buf_new max_ahead).

(** The constructor on a filter: [Init] on uninitialized members other than the buffer. *)
Definition Iter_new (junk : Iter) (f : Filter) : option Iter := Iter_init f (set_buffer junk (buf_new max_ahead)).

Definition SetNoPacksToGo (it : Iter) (n : Z) : Iter :=
  mkIter (valid it) (cur_position it) (iterator_b it) (prev_iterator_b it) (iterator_n it) (cur_block_full it)
    (cur_block_empty it) (b it) (bln it) (lastn it) (bitsLeft it) (ones_left_in_block it) (prev_block it)
    (inside_one_pack it) n 0 (buffer it).

Definition NextPack (f : Filter) (it : Iter) : option Iter := Next f (set_n it 65535).

Definition RewindToRow (f : Filter) (it : Iter) (row : Z) : option Iter :=
  let pack := Z.shiftr row 16 in
  let v := negb ((no_blocks f <=? pack)
                 || ((pack =? no_blocks f - 1) && (no_of_bits_in_last_block f <=? Z.land row 0xffff))) in
  let st := stat f pack in
  let it := set_pack (set_valid it v) pack pack (Z.land row 0xffff) (is_st st FB_FULL) (is_st st FB_EMPTY)
              (packs_done it) (buf_reset (buffer it)) in
  if is_st st FB_EMPTY then Some (set_valid it false)
  else
    let it := set_pack it (prev_iterator_b it) (iterator_b it) (iterator_n it) (cur_block_full it) (cur_block_empty it)
                0 (buffer it) in
    it ← (if is_st st FB_MIXED then
            g ← Get_row f row;
            if negb g then Some (set_valid it false)
            else k ← blk f pack;
                 Some (set_window it (iterator_n it) (b it) (bln it) (lastn it) (bitsLeft it) (no_set_bits k) (prev_block it))
          else Some it);
    Some (set_position it).

(** The flag is the value returned. *)
Definition RewindToPack (f : Filter) (it : Iter) (pack : Z) : option (Iter * bool) :=
  let v := negb (no_blocks f <=? pack) in
  let done := if negb (iterator_b it =? pack) then packs_done it - 1 else packs_done it in
  let st := stat f pack in
  let it := set_pack (set_valid it v) pack pack 0 (is_st st FB_FULL) (is_st st FB_EMPTY) done (buf_reset (buffer it)) in
  let it := set_window it 0 0 0 (-2) 0 (ones_left_in_block it) pack in
  if is_st st FB_EMPTY then it ← NextPack f it; Some (it, false)
  else
    it ← (if negb (is_st st FB_FULL) then
            it ← Next f (set_n it (-1));
            k ← blk f (iterator_b it);
            Some (set_window it (iterator_n it) (b it) (bln it) (lastn it) (bitsLeft it) (no_set_bits k) (prev_block it))
          else Some it);
    Some (set_position it, true).

Definition GetPackSizeLeft (f : Filter) (it : Iter) : Z :=
  if negb (valid it) then 0
  else if cur_block_full it then lst f (iterator_b it) + 1 - iterator_n it
  else ones_left_in_block it.

(** The loop of [Lookahead]: [n] packs to find after [tmp_b]. *)
Fixpoint lookahead_loop (n : nat) (f : Filter) (it : Iter) (tmp_b : Z) : Iter * Z :=
  match n with
  | O => (it, tmp_b)
  | S n' =>
    let tmp_b := next_pack f tmp_b in
    if tmp_b <? no_blocks f then lookahead_loop n' f (set_buffer it (buf_put (buffer it) tmp_b)) tmp_b
    else (it, if buf_empty (buffer it) then iterator_b it else buf_last (buffer it))
  end.

Definition Lookahead (f : Filter) (it : Iter) (n : Z) : Iter * Z :=
  if negb (valid it) then (it, -1)
  else if n =? 0 then (it, iterator_b it)
  else if n <=? elems (buffer it) then (it, buf_nth (buffer it) (n - 1))
  else
    let tmp_b := if buf_empty (buffer it) then iterator_b it else buf_last (buffer it) in
    lookahead_loop (Z.to_nat (n - elems (buffer it))) f it tmp_b.

(** [ResetCurrentPackrow()] and [ResetDelayed()] change the filter and the flags of the pack. *)
Definition ResetCurrentPackrow (f : Filter) (it : Iter) : Filter * Iter :=
  (ResetBlock f (iterator_b it),
   set_pack it (prev_iterator_b it) (iterator_b it) (iterator_n it) false true (packs_done it) (buffer it)).

Definition Iter_ResetDelayed (f : Filter) (it : Iter) : option (Filter * Iter) :=
  f ← ResetDelayed f (iterator_b it) (iterator_n it);
  let st := stat f (iterator_b it) in
  Some (f, set_pack it (prev_iterator_b it) (iterator_b it) (iterator_n it) (is_st st FB_FULL) (is_st st FB_EMPTY)
             (packs_done it) (buffer it)).

(** The rows the loop [for(it.Rewind(); it.IsValid(); ++it)] visits, in order. *)
Fixpoint visit (fuel : nat) (f : Filter) (it : Iter) : option (list Z) :=
  match fuel with
  | O => None
  | S fuel' =>
    if valid it then it' ← Next f it; l ← visit fuel' f it'; Some (cur_position it :: l)
    else Some []
  end.

(** ** Correctness of the scan *)

Definition pos_ok (x : Z) : bool :=
  let s := posOf1.[0|x] in
  (0 <=? s) && (s <=? 8) && forallb (fun i => negb (Z.testbit x i)) (range 0 (s - 1)) && ((s =? 8) || Z.testbit x s).

Lemma posOf1_spec x : 0 <= x < 256 ->
  let s := posOf1.[0|x] in
  0 <= s <= 8 /\ (forall i, 0 <= i < s -> Z.testbit x i = false) /\ (s < 8 -> Z.testbit x s = true).
Proof.
  intros Hx. assert (forallb pos_ok (range 0 255) = true) as Hall by (vm_compute; reflexivity).
  rewrite forallb_forall in Hall. specialize (Hall x ltac:(apply range_In; lia)). unfold pos_ok in Hall.
  set (s := posOf1.[0|x]) in *. cbv zeta in Hall. apply andb_true_iff in Hall as [Hall H4].
  apply andb_true_iff in Hall as [Hall H3]. bool_to_prop. split; [lia|]. split.
  - intros i Hi. rewrite forallb_forall in H3. apply negb_true_iff, H3, range_In. lia.
  - intros Hs. apply orb_true_iff in H4 as [H4|H4]; [bool_to_prop; lia|done].
Qed.

(** [w] shows the [left] bits of the table from position [n] on, up to the end of word [l]. *)
Definition window (t : list Z) (s : Scan) : Prop :=
  0 <= s_n s /\ 0 <= s_left s <= 32 /\ s_n s + s_left s = 32 * (s_bln s + 1) /\
  (forall i, 0 <= i -> Z.testbit (s_b s) i = (i <? s_left s) && tbit t (s_n s + i)).

Definition no_ones (g : Z -> bool) (a z : Z) : Prop := forall m, a <= m < z -> g m = false.

Lemma no_ones_app g a m z : no_ones g a m -> no_ones g m z -> no_ones g a z.
Proof. intros H1 H2 i Hi. destruct (Z.lt_ge_cases i m); [apply H1|apply H2]; lia. Qed.

Lemma window_shift t s k :
  window t s -> 0 <= k <= s_left s ->
  window t (mkScan (s_n s + k) (Z.shiftr (s_b s) k) (s_bln s) (s_left s - k)).
Proof.
  intros (H0 & H1 & H2 & H3) Hk. unfold window. cbn. split; [lia|]. split; [lia|]. split; [lia|].
  intros i Hi. rewrite Z.shiftr_spec by done. rewrite H3 by lia.
  replace (s_n s + (i + k)) with (s_n s + k + i) by lia. f_equal. cmp_solve.
Qed.

Lemma window_word t l : table_ok t -> 0 <= l < bitBlockWords -> window t (mkScan (32 * l) (t.[0|l]) l 32).
Proof.
  intros [Hl Hw] Hlr. unfold window. cbn. split; [lia|]. split; [lia|]. split; [lia|].
  intros i Hi. destruct (Z.ltb_spec i 32); cbn [andb].
  - unfold tbit. replace (32 * l + i) with (i + l * 32) by lia.
    rewrite Z.div_add, Z.mod_add by lia. rewrite Z.div_small, Z.mod_small by lia. done.
  - apply (word_testbit_high 32); [|lia]. apply znth_Forall; [done|lia].
Qed.

Lemma window_zero t s : window t s -> s_b s = 0 -> no_ones (tbit t) (s_n s) (s_n s + s_left s).
Proof.
  intros (H0 & H1 & H2 & H3) E m Hm. specialize (H3 (m - s_n s) ltac:(lia)). rewrite E, Z.bits_0 in H3.
  destruct (Z.ltb_spec (m - s_n s) (s_left s)); [|lia]. replace (s_n s + (m - s_n s)) with m in H3 by lia. done.
Qed.

Definition found_at (t : list Z) (N n : Z) (s' : Scan) : Prop :=
  window t s' /\ n <= s_n s' < N /\ tbit t (s_n s') = true /\ no_ones (tbit t) n (s_n s') /\ 0 < s_left s'.

Lemma land_ff x : Z.land x 0xff = x mod 256.
Proof. change 0xff with (Z.ones 8). by rewrite Z.land_ones. Qed.

Lemma scan_window_spec t N : forall fuel s,
  window t s -> s_b s <> 0 -> s_left s <= 8 * (Z.of_nat fuel - 1) ->
  exists s' fl, scan_window fuel N s = Some (s', fl) /\ s_bln s' = s_bln s /\
    (fl = true -> found_at t N (s_n s) s') /\ (fl = false -> N <= s_n s' /\ no_ones (tbit t) (s_n s) N).
Proof.
  induction fuel as [|fuel IH]; intros s Hw Hb Hfuel.
  { pose proof Hw as (_ & H1 & _ & H3). exfalso. assert (s_left s = 0) by lia. apply Hb. apply Z.bits_inj_0.
    intros i. destruct (Z.lt_ge_cases i 0); [by apply Z.testbit_neg_r|]. rewrite H3 by lia. cmp_solve. }
  cbn [scan_window]. destruct (Z.ltb_spec (s_n s) N) as [HnN|HnN].
  2:{ exists s, false. split; [done|]. split; [done|]. split; [done|]. intros _. split; [done|]. intros m Hm. lia. }
  pose proof Hw as (H0 & H1 & H2 & H3). rewrite land_ff.
  destruct (posOf1_spec (s_b s mod 256) ltac:(apply Z.mod_pos_bound; lia)) as (Hs & Hz & Ho).
  set (skip := posOf1.[0|s_b s mod 256]) in *. cbv zeta.
  assert (forall i, 0 <= i < 8 -> Z.testbit (s_b s mod 256) i = Z.testbit (s_b s) i) as Hlow.
  { intros i Hi. change 256 with (2 ^ 8). apply Z.mod_pow2_bits_low. lia. }
  assert (skip <= s_left s) as Hskip.
  { destruct (Z.lt_ge_cases (s_left s) skip) as [Hlt|]; [|done]. exfalso. apply Hb. apply Z.bits_inj_0. intros i.
    destruct (Z.lt_ge_cases i 0); [by apply Z.testbit_neg_r|]. destruct (Z.lt_ge_cases i skip).
    - rewrite <- Hlow by lia. apply Hz. lia.
    - rewrite H3 by lia. cmp_solve. }
  destruct (Z.ltb_spec (s_left s) skip); [lia|].
  assert (no_ones (tbit t) (s_n s) (s_n s + skip)) as Hno.
  { intros m Hm. specialize (H3 (m - s_n s) ltac:(lia)). rewrite <- Hlow, Hz in H3 by lia.
    destruct (Z.ltb_spec (m - s_n s) (s_left s)); [|lia]. replace (s_n s + (m - s_n s)) with m in H3 by lia. done. }
  destruct (Z.leb_spec N (s_n s + skip)) as [HN|HN].
  { eexists _, false. split; [reflexivity|]. split; [done|]. split; [done|]. intros _. split; [done|].
    intros m Hm. apply Hno. lia. }
  pose proof (window_shift t s skip Hw ltac:(lia)) as Hw'. destruct (Z.ltb_spec skip 8) as [H8|H8].
  - eexists _, true. split; [reflexivity|]. split; [done|]. split; [|done]. intros _. split; [done|]. cbn.
    specialize (Ho H8). rewrite Hlow, H3 in Ho by lia. apply andb_true_iff in Ho as [Hlt Ho]. bool_to_prop.
    split; [lia|]. split; [done|]. split; [done|lia].
  - assert (skip = 8) as E8 by lia.
    destruct (IH (mkScan (s_n s + skip) (Z.shiftr (s_b s) skip) (s_bln s) (s_left s - skip))) as (s' & fl & E & Hl & Ht & Hf); [done| |cbn; lia|].
    { cbn. intros Ez. apply Hb. apply Z.bits_inj_0. intros i. destruct (Z.lt_ge_cases i 0); [by apply Z.testbit_neg_r|].
      destruct (Z.lt_ge_cases i 8); [rewrite <- Hlow by lia; apply Hz; lia|].
      replace i with ((i - 8) + 8) by lia. rewrite <- (Z.shiftr_spec _ 8 (i - 8)) by lia. rewrite <- E8, Ez. apply Z.bits_0. }
    exists s', fl. split; [done|]. split; [done|]. cbn in Ht, Hf. split.
    + intros Hfl. destruct (Ht Hfl) as (Ha & Hb' & Hc & Hd & He). split; [done|]. split; [lia|]. split; [done|].
      split; [|done]. by apply (no_ones_app _ _ (s_n s + skip)).
    + intros Hfl. destruct (Hf Hfl) as [Ha Hb']. split; [done|]. by apply (no_ones_app _ _ (s_n s + skip)).
Qed.

Lemma skip_words_spec t N : table_ok t -> forall fuel n l,
  n = 32 * l -> 0 <= l -> n < N -> N <= 65536 -> N <= n + 32 * Z.of_nat fuel ->
  exists n' l', skip_words fuel t N n l = Some (n', l') /\ no_ones (tbit t) n (Z.min n' N) /\
    (n' < N -> n' = 32 * l' /\ l <= l' /\ t.[0|l'] <> 0).
Proof.
  intros Ht. induction fuel as [|fuel IH]; intros n l En Hl HnN HN Hfuel; [lia|]. cbn [skip_words].
  destruct (Z.eqb_spec (t.[0|l]) 0) as [E|E].
  - assert (no_ones (tbit t) n (n + 32)) as Hz.
    { pose proof (window_word t l Ht ltac:(unfold bitBlockWords; lia)) as Hw. pose proof (window_zero t _ Hw E) as H. cbn in H.
      by rewrite En. }
    cbv zeta. destruct (Z.leb_spec N (n + 32)).
    + eexists _, _. split; [reflexivity|]. split; [intros m Hm; apply Hz; lia|lia].
    + destruct (IH (n + 32) (l + 1)) as (n' & l' & E' & Hno & Hf); try lia.
      exists n', l'. split; [done|]. split; [by apply (no_ones_app _ _ (n + 32))|]. intros Hlt. destruct (Hf Hlt) as (? & ? & ?). lia.
  - eexists _, _. split; [reflexivity|]. split; [intros m Hm; lia|]. intros _. lia.
Qed.

Section FindOne.
Context (k : Block) (N : Z) (g : Z -> bool) (Hd : denotes k N g).

Let t := block_table k.

Lemma scan_then_stop fuel s :
  window t s -> s_b s <> 0 ->
  exists s' fl,
    ('(s', found) ← scan_window 5 N s; if (found : bool) then Some (s', true) else find_one (S fuel) k s')
    = Some (s', fl) /\ (fl = true -> found_at t N (s_n s) s') /\ (fl = false -> no_ones (tbit t) (s_n s) N).
Proof.
  intros Hw Hb.
  destruct (scan_window_spec t N 5 s Hw Hb) as (s' & fl & -> & _ & Ht & Hf); [destruct Hw as (_ & ? & _); lia|].
  cbn [mbind option_bind]. destruct fl.
  - exists s', true. split; [done|]. split; [done|done].
  - destruct (Hf eq_refl) as [HN Hno]. cbn [find_one]. rewrite (proj1 (proj2 Hd)).
    destruct (Z.ltb_spec (s_n s') N); [lia|]. exists s', false. done.
Qed.

Lemma find_one_spec fuel s :
  window t s -> s_bln s < block_size k ->
  exists s' fl, find_one (S (S fuel)) k s = Some (s', fl) /\
    (fl = true -> found_at t N (s_n s) s') /\ (fl = false -> no_ones (tbit t) (s_n s) N).
Proof.
  intros Hw Hl. pose proof (denotes_bound _ _ _ Hd) as HN. pose proof (denotes_size _ _ _ Hd) as HS.
  pose proof (wf_table _ (proj1 Hd)) as Ht. fold t in Ht.
  assert (N <= 32 * block_size k /\ block_size k <= 2048) as [HS1 HS2].
  { rewrite HS. split_pos (N + 31). lia. }
  remember (S fuel) as fuel' eqn:Ef. cbn [find_one]. rewrite (proj1 (proj2 Hd)).
  destruct (Z.ltb_spec (s_n s) N) as [HnN|HnN].
  2:{ exists s, false. split; [done|]. split; [done|]. intros _ m Hm. lia. }
  destruct (Z.eqb_spec (s_b s) 0) as [Eb|Eb].
  2:{ subst fuel'. by apply scan_then_stop. }
  pose proof (window_zero t s Hw Eb) as Hz. pose proof Hw as (H0 & H1 & H2 & _). cbv zeta.
  destruct (Z.leb_spec (block_size k) (s_bln s + 1)) as [Hend|Hend].
  { eexists _, false. split; [reflexivity|]. split; [done|]. intros _ m Hm. apply Hz. lia. }
  destruct (Z.lt_ge_cases (s_n s + s_left s) N) as [Hin|Hin]; cycle 1.
  { exfalso. rewrite HS in Hend. split_pos (N + 31). lia. }
  destruct (skip_words_spec t N Ht (Z.to_nat (block_size k)) (s_n s + s_left s) (s_bln s + 1)) as (n' & l' & E' & Hno & Hlt); try lia.
  fold t. rewrite E'. cbn [mbind option_bind]. destruct (Z.leb_spec N n') as [Hge|Hge].
  - eexists _, false. split; [reflexivity|]. split; [done|]. intros _.
    rewrite Z.min_r in Hno by lia. by apply (no_ones_app _ _ (s_n s + s_left s)).
  - destruct (Hlt Hge) as (En' & Hl' & Hnz). rewrite Z.min_l in Hno by lia.
    subst fuel'. rewrite En'.
    destruct (scan_then_stop fuel (mkScan (32 * l') (t.[0|l']) l' 32)) as (s' & fl & E2 & Ht2 & Hf2).
    { apply window_word; [done|]. unfold bitBlockWords. lia. }
    { done. }
    exists s', fl. split; [exact E2|]. cbn in Ht2, Hf2. rewrite <- En' in *.
    assert (no_ones (tbit t) (s_n s) n') as Hpre by by apply (no_ones_app _ _ (s_n s + s_left s)).
    split; intros Hfl.
    + destruct (Ht2 Hfl) as (Ha & Hb & Hc & Hdd & He). split; [done|]. split; [lia|]. split; [done|].
      split; [by apply (no_ones_app _ _ n')|done].
    + by apply (no_ones_app _ _ n'), Hf2.
Qed.

Lemma no_ones_rows a z : 0 <= a -> z <= N -> no_ones (tbit t) a z -> no_ones g a z.
Proof. intros Ha Hz H m Hm. rewrite <- (denotes_tbit _ _ _ Hd) by lia. by apply H. Qed.
End FindOne.

(** What the iterator remembers of the mixed pack it stands in, at position [n]. *)
Definition cached (k : Block) (it : Iter) (n : Z) : Prop :=
  lastn it = n /\ window (block_table k) (mkScan n (b it) (bln it) (bitsLeft it)) /\ 0 < bitsLeft it /\
  bln it < block_size k.

Lemma FindOne_spec f it k N g :
  blk f (iterator_b it) = Some k -> denotes k N g -> 0 <= iterator_n it <= N ->
  (iterator_b it = prev_block it -> cached k it (iterator_n it - 1) \/ lastn it < -1) ->
  exists it' fl, FindOneInsidePack f it = Some (it', fl) /\
    it' = set_window it (iterator_n it') (b it') (bln it') (lastn it') (bitsLeft it')
            (if iterator_b it =? prev_block it then ones_left_in_block it - 1 else no_set_bits k) (iterator_b it) /\
    (fl = true -> cached k it' (iterator_n it') /\ iterator_n it <= iterator_n it' < N /\
                  g (iterator_n it') = true /\ no_ones g (iterator_n it) (iterator_n it')) /\
    (fl = false -> no_ones g (iterator_n it) N).
Proof.
  intros Ek Hd Hn Hcache. unfold FindOneInsidePack. rewrite Ek. cbn [mbind option_bind].
  set (it0 := if iterator_b it =? prev_block it then _ else _).
  assert (exists w l ln bl, it0 = set_window it (iterator_n it) w l ln bl
    (if iterator_b it =? prev_block it then ones_left_in_block it - 1 else no_set_bits k) (iterator_b it) /\
    ((cached k it0 (iterator_n it - 1)) \/ ln < -1)) as (w & l & ln & bl & E0 & Hc0).
  { subst it0. destruct (Z.eqb_spec (iterator_b it) (prev_block it)) as [Ep|Ep].
    - exists (b it), (bln it), (lastn it), (bitsLeft it). rewrite Ep. split; [done|]. destruct (Hcache Ep) as [Hc|Hc]; [left|by right].
      exact Hc.
    - exists 0, 0, (-2), 0. split; [done|]. right. lia. }
  assert (iterator_n it0 = iterator_n it) as En by by rewrite E0.
  pose proof (denotes_bound _ _ _ Hd) as HN. pose proof (denotes_size _ _ _ Hd) as HS.
  pose proof (wf_table _ (proj1 Hd)) as Ht. rewrite En, (proj1 (proj2 Hd)).
  destruct (Z.ltb_spec (iterator_n it) N) as [HnN|HnN].
  2:{ exists it0, false. split; [done|]. split; [by rewrite E0|]. split; [done|]. intros _ m Hm. lia. }
  set (s := if lastn it0 + 1 =? iterator_n it then _ else _).
  assert (window (block_table k) s /\ s_n s = iterator_n it /\ s_bln s < block_size k) as (Hw & Esn & Hsl).
  { subst s. destruct (Z.eqb_spec (lastn it0 + 1) (iterator_n it)) as [El|El].
    - destruct Hc0 as [(Hl & Hw & Hbl & Hbs)|Hc0]; [|exfalso; rewrite E0 in El; cbn in El; lia].
      destruct (Z.ltb_spec 0 (bitsLeft it0)); [|lia]. cbn. split; [|split; [done|done]].
      pose proof (window_shift _ _ 1 Hw ltac:(cbn; lia)) as Hw'. cbn in Hw'. by replace (iterator_n it - 1 + 1) with (iterator_n it) in Hw' by lia.
    - cbn. rewrite (Z.shiftr_div_pow2 (iterator_n it) 5), land_31 by lia. change (2 ^ 5) with 32. split_pos (iterator_n it).
      assert (iterator_n it / 32 < block_size k) by (rewrite HS; split_pos (N + 31); lia).
      split; [|split; [done|done]].
      assert (0 <= iterator_n it / 32 < bitBlockWords) as Hlb by (unfold bitBlockWords; lia).
      pose proof (window_shift _ _ (iterator_n it mod 32) (window_word _ _ Ht Hlb) ltac:(cbn; lia)) as Hw'. cbn in Hw'.
      by rewrite <- Hsp in Hw'. }
  replace (Z.to_nat (block_size k) + 2)%nat with (S (S (Z.to_nat (block_size k)))) by lia.
  destruct (find_one_spec k N g Hd (Z.to_nat (block_size k)) s Hw Hsl) as (s' & fl & -> & Htr & Hfa).
  cbn [mbind option_bind]. rewrite Esn in Htr, Hfa. eexists _, fl. split; [reflexivity|]. split; [by rewrite E0|]. split.
  - intros ->. destruct (Htr eq_refl) as (Ha & Hb & Hc & Hdd & He). cbn. split; [|split; [done|split]].
    + split; [done|]. split; [|split; [done|]].
      * cbn. by destruct s'.
      * cbn. destruct Ha as (_ & ? & ? & _). rewrite HS. split_pos (N + 31). lia.
    + rewrite <- (denotes_tbit _ _ _ Hd) by lia. done.
    + apply (no_ones_rows k N g Hd); [lia|lia|done].
  - intros ->. apply (no_ones_rows k N g Hd); [lia|lia|]. by apply Hfa.
Qed.

(** ** The ring buffer as a queue *)

Record buf_ok (c : FixedSizeBuffer) : Prop := {
  bo_size : 0 < bsz c;
  bo_len : zlen (buf c) = bsz c;
  bo_out : 0 <= iout c < bsz c;
  bo_elems : 0 <= elems c <= bsz c;
  bo_in : iin c = (iout c + elems c - 1) mod bsz c
}.

Definition buf_list (c : FixedSizeBuffer) : list Z :=
  map (fun i => (buf c).[0|(iout c + i) mod bsz c]) (range 0 (elems c - 1)).

Section Ring.
Context (c : FixedSizeBuffer) (Hc : buf_ok c).

Lemma buf_reset_ok : buf_ok (buf_reset c) /\ buf_list (buf_reset c) = [] /\ bsz (buf_reset c) = bsz c.
Proof.
  destruct Hc. split; [|done]. split; cbn; try done; try lia.
  apply (Z.mod_unique_pos _ _ (-1)); lia.
Qed.

Lemma buf_list_len : zlen (buf_list c) = elems c.
Proof. unfold buf_list, zlen, range. rewrite length_map, length_seqZ. pose proof (bo_elems c Hc). lia. Qed.

Lemma buf_empty_list : buf_empty c = true <-> buf_list c = [].
Proof.
  pose proof buf_list_len as Hl. unfold buf_empty. rewrite Z.eqb_eq. split.
  - intros E. rewrite E in Hl. destruct (buf_list c); [done|]. unfold zlen in Hl. cbn in Hl. lia.
  - intros E. rewrite E in Hl. unfold zlen in Hl. cbn in Hl. lia.
Qed.

Lemma buf_put_ok v : elems c < bsz c ->
  buf_ok (buf_put c v) /\ buf_list (buf_put c v) = buf_list c ++ [v] /\ bsz (buf_put c v) = bsz c.
Proof.
  intros Hroom. destruct Hc as [Hs Hl Ho He Hi]. pose proof (Z.mod_pos_bound (iout c + elems c - 1) (bsz c) Hs) as Hin.
  assert (Z.rem (iin c + 1) (bsz c) = (iout c + elems c) mod bsz c) as Ei.
  { rewrite Z.rem_mod_nonneg by lia. rewrite Hi. rewrite Z.add_mod_idemp_l by lia. f_equal. lia. }
  pose proof (Z.mod_pos_bound (iout c + elems c) (bsz c) Hs) as Hin2.
  split; [|split; [|done]].
  - split; cbn; try done; try lia; [by rewrite zlen_zupd|]. rewrite Ei. f_equal. lia.
  - unfold buf_list. cbn. replace (elems c + 1 - 1) with (elems c - 1 + 1) by lia.
    rewrite range_snoc by lia. rewrite map_app. cbn. rewrite Ei. f_equal.
    + apply map_ext_in. intros i Hi'%range_In. rewrite znth_zupd_ne; [done|]. intros E.
      assert ((iout c + elems c - (iout c + i)) mod bsz c = 0) as E0.
      { rewrite Zminus_mod, E, Z.sub_diag. done. }
      rewrite Z.mod_small in E0 by lia. lia.
    + replace (elems c - 1 + 1) with (elems c) by lia. by rewrite znth_zupd_eq by lia.
Qed.

Lemma buf_get_ok x l : buf_list c = x :: l ->
  let '(y, c') := buf_get c in y = x /\ buf_ok c' /\ buf_list c' = l /\ bsz c' = bsz c.
Proof.
  intros E. pose proof buf_list_len as Hlen. rewrite E in Hlen. unfold zlen in Hlen. cbn in Hlen.
  destruct Hc as [Hs Hl Ho He Hi]. unfold buf_get, buf_list in *. rewrite range_cons in E by lia. cbn in E.
  injection E as Ex El. rewrite Z.add_0_r, Z.mod_small in Ex by lia.
  rewrite Z.rem_mod_nonneg by lia. pose proof (Z.mod_pos_bound (iout c + 1) (bsz c) Hs) as Hin.
  split; [done|]. split; [split; cbn; try done; try lia|split; [|done]].
  - rewrite Hi. replace ((iout c + 1) mod bsz c + (elems c - 1) - 1) with ((iout c + 1) mod bsz c + (elems c - 2)) by lia.
    rewrite Z.add_mod_idemp_l by lia. f_equal. lia.
  - rewrite <- El. cbn. unfold range. replace (elems c - 1 - 1 - 0 + 1) with (elems c - 1 - (0 + 1) + 1) by lia.
    rewrite <- (Z.add_0_r (0 + 1)). rewrite <- fmap_add_seqZ, (map_map (A := Z)). apply map_ext. intros i.
    rewrite Z.add_mod_idemp_l by lia. f_equal. f_equal. lia.
Qed.

Lemma buf_nth_list n : 0 <= n < elems c -> buf_nth c n = (buf_list c).[0|n].
Proof.
  intros Hn. destruct Hc as [Hs Hl Ho He Hi]. unfold buf_nth, buf_list. rewrite Z.rem_mod_nonneg by lia.
  unfold znth at 2. destruct (Z.ltb_spec n 0); [lia|]. rewrite nth_lookup, list_lookup_fmap. unfold range.
  rewrite lookup_seqZ_lt by lia. cbn. do 2 f_equal. lia.
Qed.

Lemma buf_last_list : elems c <> 0 -> buf_last c = (buf_list c).[0|elems c - 1].
Proof.
  intros Hn. pose proof (bo_elems c Hc). rewrite <- buf_nth_list by lia. destruct Hc as [Hs Hl Ho He Hi].
  unfold buf_last, buf_nth. rewrite Z.rem_mod_nonneg by lia. rewrite Hi. do 2 f_equal. lia.
Qed.
End Ring.

Lemma buf_new_ok n : 0 < n -> buf_ok (buf_new n) /\ buf_list (buf_new n) = [] /\ bsz (buf_new n) = n.
Proof.
  intros Hn. unfold buf_new, buf_reset. cbn. split; [|done]. split; cbn; try lia.
  - by rewrite zlen_replicate by lia.
  - apply (Z.mod_unique_pos _ _ (-1)); lia.
Qed.

(** ** Moving over the packs *)

Lemma skip_empty_spec f : forall fuel p,
  no_blocks f - p <= Z.of_nat fuel ->
  let q := skip_empty fuel f p in
  p <= q <= Z.max p (no_blocks f) /\ (forall c, p <= c < q -> stat f c = FB_EMPTY) /\
  (q < no_blocks f -> stat f q <> FB_EMPTY).
Proof.
  induction fuel as [|fuel IH]; intros p Hp; cbn [skip_empty].
  - split; [lia|]. split; lia.
  - destruct (Z.ltb_spec p (no_blocks f)); cbn [andb]; [|split; [lia|]; split; lia].
    destruct (is_st (stat f p) FB_EMPTY) eqn:E.
    + apply is_st_spec in E. destruct (IH (p + 1) ltac:(lia)) as (H1 & H2 & H3). split; [lia|]. split; [|done].
      intros c Hc. destruct (Z.eq_dec c p) as [->|]; [done|]. apply H2. lia.
    + split; [lia|]. split; [lia|]. intros _ E'. rewrite E', is_st_refl in E. done.
Qed.

Lemma next_pack_spec f p : -1 <= p -> 0 <= no_blocks f ->
  let q := next_pack f p in
  p < q <= Z.max (p + 1) (no_blocks f) /\ (forall c, p < c < q -> stat f c = FB_EMPTY) /\
  (q < no_blocks f -> stat f q <> FB_EMPTY).
Proof.
  intros Hp Hnb. destruct (skip_empty_spec f (Z.to_nat (no_blocks f + 1)) (p + 1) ltac:(lia)) as (H1 & H2 & H3).
  split; [unfold next_pack; lia|]. split; [|done]. intros c Hc. apply H2. unfold next_pack in Hc. lia.
Qed.

(** The packs in the queue are the next non-empty ones after [p]. *)
Fixpoint buffered (f : Filter) (p : Z) (l : list Z) : Prop :=
  match l with
  | [] => True
  | x :: l' => x = next_pack f p /\ x < no_blocks f /\ buffered f x l'
  end.

Definition queue_ok (f : Filter) (p : Z) (c : FixedSizeBuffer) : Prop :=
  buf_ok c /\ bsz c = max_ahead /\ buffered f p (buf_list c).

Lemma IteratorBpp_spec f it :
  packs_to_go it = -1 -> queue_ok f (iterator_b it) (buffer it) ->
  let q := next_pack f (iterator_b it) in
  (q < no_blocks f ->
   exists bu, queue_ok f q bu /\
     IteratorBpp f it = (set_pack it (iterator_b it) q 0 (is_st (stat f q) FB_FULL) (is_st (stat f q) FB_EMPTY)
                           (packs_done it) bu, true)) /\
  (no_blocks f <= q -> snd (IteratorBpp f it) = false).
Proof.
  intros Hgo (Hb & Hsz & Hq). cbv zeta. unfold IteratorBpp. rewrite Hgo. change (-1 =? -1) with true. cbn [orb].
  destruct (buf_empty (buffer it)) eqn:Ee.
  - split.
    + intros Hlt. exists (buffer it). destruct (Z.leb_spec (no_blocks f) (next_pack f (iterator_b it))); [lia|].
      split; [|done]. apply buf_empty_list in Ee; [|done]. split; [done|]. split; [done|]. by rewrite Ee.
    + intros Hge. destruct (Z.leb_spec (no_blocks f) (next_pack f (iterator_b it))); [done|lia].
  - destruct (buf_list (buffer it)) as [|x l] eqn:El.
    { apply buf_empty_list in El; [congruence|done]. }
    destruct Hq as (-> & Hx & Hl). pose proof (buf_get_ok (buffer it) Hb _ _ El) as Hg.
    destruct (buf_get (buffer it)) as [y c']. destruct Hg as (-> & Hc' & El' & Hsz'). split; [|lia].
    intros _. exists c'. split; [|done]. split; [done|]. split; [congruence|]. by rewrite El'.
Qed.

(** ** Positions of the iterator *)

Section Walk.
Context (f : Filter) (F : Z -> bool) (HF : fdenotes f F).

(** The iterator stands at the set row [r]. *)
Record at_row (it : Iter) (r : Z) : Prop := {
  ar_valid : valid it = true;
  ar_go : packs_to_go it = -1;
  ar_row : 0 <= r < NoObj f /\ F r = true;
  ar_b : iterator_b it = r / 65536;
  ar_n : iterator_n it = r mod 65536;
  ar_pos : cur_position it = r;
  ar_full : cur_block_full it = is_st (stat f (r / 65536)) FB_FULL;
  ar_empty : cur_block_empty it = false;
  ar_prev : prev_block it <= iterator_b it;
  ar_queue : queue_ok f (iterator_b it) (buffer it);
  ar_mixed : forall k, stat f (r / 65536) = FB_MIXED -> blk f (r / 65536) = Some k ->
    prev_block it = iterator_b it /\ cached k it (r mod 65536) /\
    ones_left_in_block it = cnt F r (65536 * (r / 65536) + bsize f (r / 65536))
}.

(** The result of a move from row [r] (or from before the first row): the next set row. *)
Definition moved_from (r : Z) (it' : Iter) : Prop :=
  (exists r', r < r' /\ no_ones F (r + 1) r' /\ at_row it' r') \/
  (no_ones F (r + 1) (NoObj f) /\ valid it' = false).

Let Hf := proj1 HF.

Lemma empty_packs_no_ones p q :
  0 <= p -> q <= no_blocks f -> (forall c, p <= c < q -> stat f c = FB_EMPTY) ->
  no_ones F (65536 * p) (Z.min (65536 * q) (NoObj f)).
Proof.
  intros Hp Hq He m Hm. destruct (row_in_packs f Hf m ltac:(lia)) as [Hin Hlt]. split_row m.
  pose proof (proj1 (pack_empty f Hf _ Hin _ (proj2 HF _ Hin)) ltac:(rewrite is_st_spec; apply He; lia)
                (m mod 65536) ltac:(lia)) as Hz. cbn in Hz. by rewrite <- Hrs in Hz.
Qed.

Lemma shiftl16 x : Z.shiftl x 16 = 65536 * x.
Proof. rewrite Z.shiftl_mul_pow2 by lia. change (2 ^ 16) with 65536. lia. Qed.

(** Entering a pack that has rows. *)
Lemma enter_pack fuel it p :
  in_packs f p -> stat f p <> FB_EMPTY ->
  valid it = true -> packs_to_go it = -1 -> iterator_b it = p -> iterator_n it = 0 ->
  cur_block_full it = is_st (stat f p) FB_FULL -> cur_block_empty it = is_st (stat f p) FB_EMPTY ->
  prev_block it < p -> queue_ok f p (buffer it) ->
  exists it' r', next_loop (S fuel) f it = Some it' /\ 65536 * p <= r' /\ no_ones F (65536 * p) r' /\ at_row it' r'.
Proof.
  intros Hp Hne Hv Hgo Eb En Efull Eempty Hprev Hq. pose proof (bsize_bound f p Hf Hp) as HS.
  pose proof (proj2 HF p Hp) as Hpk. unfold pack_denotes in Hpk. cbn [next_loop]. rewrite Efull, Eempty.
  destruct (stat f p) eqn:Est; cbn [pack_rep] in Hpk; [|done|].
  - rewrite is_st_refl. destruct Hpk as (_ & Hl & Eg). exists (set_position it), (65536 * p). split; [done|].
    split; [lia|]. split; [intros m Hm; lia|].
    destruct (row_pos p 0 ltac:(lia)) as [E1 E2]. rewrite Z.add_0_r in E1, E2.
    split; cbn; rewrite ?E1, ?E2, ?Est; try done; try lia.
    + split; [|rewrite <- (Z.add_0_r (65536 * p)); rewrite Eg by lia; cmp_solve].
      pose proof (pack_row_in f Hf p 0 Hp ltac:(lia)). lia.
    + rewrite shiftl16, Eb, En. lia.
    + by rewrite Eb.
  - change (is_st FB_MIXED FB_FULL) with false. change (is_st FB_MIXED FB_EMPTY) with false. cbv iota.
    destruct Hpk as (k & Ek & Hd & Hc).
    destruct (FindOne_spec f it k (bsize f p) _ ltac:(by rewrite Eb) Hd ltac:(lia)) as (it' & fl & -> & Eit & Ht & Hfl); [lia|].
    cbn [mbind option_bind]. destruct fl; cycle 1.
    { exfalso. specialize (Hfl eq_refl). rewrite En in Hfl. rewrite (proj2 (cnt_zero _ _ _) Hfl) in Hc. lia. }
    destruct (Ht eq_refl) as (Hcd & Hn & Hg & Hno). rewrite En in *. cbv beta in Hg.
    destruct (row_pos p (iterator_n it') ltac:(lia)) as [E1 E2].
    exists (set_position it'), (65536 * p + iterator_n it'). split; [done|]. split; [lia|]. split.
    { intros m Hm. specialize (Hno (m - 65536 * p) ltac:(lia)). cbv beta in Hno. by replace (65536 * p + (m - 65536 * p)) with m in Hno by lia. }
    destruct (Z.eqb_spec (iterator_b it) (prev_block it)); [lia|].
    split; rewrite ?E1, ?E2, ?Est; try (rewrite Eit; cbn; congruence); try done.
    + split; [apply pack_row_in; (done || lia)|done].
    + cbn. rewrite shiftl16. rewrite Eit. cbn. rewrite Eb. done.
    + rewrite Eit. cbn. by rewrite Eempty.
    + rewrite Eit. cbn. lia.
    + intros k' _ Ek'. rewrite Ek in Ek'. injection Ek' as <-. split; [by rewrite Eit|]. split; [exact Hcd|].
      rewrite Eit. cbn. rewrite (denotes_count _ _ _ Hd). rewrite (cnt_pack f F p) by done.
      rewrite (cnt_split F (65536 * p) (65536 * p + iterator_n it')) by lia.
      rewrite (proj2 (cnt_zero F (65536 * p) _)); [lia|].
      intros m Hm. specialize (Hno (m - 65536 * p) ltac:(lia)). cbv beta in Hno. by replace (65536 * p + (m - 65536 * p)) with m in Hno by lia.
Qed.

(** Leaving a pack for the next one that has rows. *)
Lemma leave_pack fuel it :
  valid it = true -> packs_to_go it = -1 -> -1 <= iterator_b it -> prev_block it <= iterator_b it ->
  queue_ok f (iterator_b it) (buffer it) ->
  exists it', (let '(it1, more) := IteratorBpp f it in
               if (more : bool) then next_loop (S fuel) f it1 else Some (set_valid it1 false)) = Some it' /\
    ((exists r', 65536 * (iterator_b it + 1) <= r' /\ no_ones F (65536 * (iterator_b it + 1)) r' /\ at_row it' r') \/
     (no_ones F (65536 * (iterator_b it + 1)) (NoObj f) /\ valid it' = false)).
Proof.
  intros Hv Hgo Hb Hprev Hq. destruct (IteratorBpp_spec f it Hgo Hq) as [Hlt Hge].
  destruct (next_pack_spec f (iterator_b it) Hb (sh_nb f Hf)) as (Hp & Hempty & Hne).
  set (q := next_pack f (iterator_b it)) in *.
  destruct (Z.lt_ge_cases q (no_blocks f)) as [Hin|Hout].
  - destruct (Hlt Hin) as (bu & Hbu & ->).
    destruct (enter_pack fuel (set_pack it (iterator_b it) q 0 (is_st (stat f q) FB_FULL) (is_st (stat f q) FB_EMPTY)
                (packs_done it) bu) q) as (it' & r' & E & Hr & Hno & Hat); try done; try (unfold in_packs; lia).
    { by apply Hne. }
    { cbn. lia. }
    exists it'. split; [exact E|]. left. exists r'. split; [lia|]. split; [|done].
    apply (no_ones_app _ _ (65536 * q)); [|done].
    pose proof (empty_packs_no_ones (iterator_b it + 1) q ltac:(lia) ltac:(lia)) as He.
    rewrite Z.min_l in He.
    + apply He. intros c Hc. apply Hempty. lia.
    + pose proof (pack_row_in f Hf q 0 ltac:(unfold in_packs; lia)) as Hq0.
      pose proof (bsize_bound f q Hf ltac:(unfold in_packs; lia)). lia.
  - specialize (Hge Hout). destruct (IteratorBpp f it) as [it1 more]. cbn in Hge. subst more.
    eexists. split; [reflexivity|]. right. split; [|done].
    destruct (Z.le_gt_cases (no_blocks f) (iterator_b it + 1)).
    + intros m Hm. destruct (row_in_packs f Hf m ltac:(lia)) as [Hin _]. unfold in_packs in Hin. split_row m. lia.
    + assert (q = no_blocks f) as Eq by lia.
      pose proof (empty_packs_no_ones (iterator_b it + 1) q ltac:(lia) ltac:(lia)) as He.
      rewrite Z.min_r in He; [apply He; intros c Hc; apply Hempty; lia|].
      rewrite NoObj_val by done. pose proof (sh_bits f Hf). case_cmp; lia.
Qed.

Lemma end_of_block it r : at_row it r ->
  IsEndOfBlock f it = true -> no_ones F (r + 1) (Z.min (65536 * (iterator_b it + 1)) (NoObj f)).
Proof.
  intros Hat He m Hm. destruct (ar_row it r Hat) as [Hr HFr].
  destruct (row_in_packs f Hf r Hr) as [Hin Hlt]. rewrite (ar_b it r Hat) in Hm. split_row r. split_row m.
  assert (m / 65536 = r / 65536) as Em by lia.
  destruct (row_in_packs f Hf m ltac:(lia)) as [_ Hmlt]. rewrite Em in Hmlt.
  unfold IsEndOfBlock in He. rewrite (ar_b it r Hat), (ar_n it r Hat), (ar_full it r Hat) in He.
  pose proof (bsize_bound f _ Hf Hin) as HS.
  apply orb_true_iff in He as [He|He]; [apply orb_true_iff in He as [He|He]|]; bool_to_prop.
  - lia.
  - unfold bsize in Hmlt. rewrite H, Z.eqb_refl in Hmlt. lia.
  - apply is_st_spec in H. pose proof (proj2 HF _ Hin) as Hpk. unfold pack_denotes in Hpk. rewrite H in Hpk.
    destruct Hpk as (_ & Hl & Eg). specialize (Eg (m mod 65536) ltac:(lia)). cbv beta in Eg.
    rewrite <- Em, <- Hrs0 in Eg. rewrite Eg, Em. cmp_solve.
Qed.

(** Nothing more in the pack, then the first row of a later one. *)
Lemma moved_after r it' :
  no_ones F (r + 1) (Z.min (65536 * (r / 65536 + 1)) (NoObj f)) ->
  (exists r', 65536 * (r / 65536 + 1) <= r' /\ no_ones F (65536 * (r / 65536 + 1)) r' /\ at_row it' r') \/
  (no_ones F (65536 * (r / 65536 + 1)) (NoObj f) /\ valid it' = false) ->
  moved_from r it'.
Proof.
  intros Hrest Hres. split_row r. destruct Hres as [(r' & Hr' & Hno' & Hat')|[Hno' Hinv]].
  - left. exists r'. split; [lia|]. split; [|done]. destruct (ar_row it' r' Hat').
    apply (no_ones_app _ _ (65536 * (r / 65536 + 1))); [|done]. rewrite Z.min_l in Hrest by lia. done.
  - right. split; [|done]. intros m Hm.
    destruct (Z.lt_ge_cases m (65536 * (r / 65536 + 1))); [apply Hrest|apply Hno']; lia.
Qed.

Lemma not_end_room it r : at_row it r -> IsEndOfBlock f it = false ->
  r mod 65536 + 1 < bsize f (r / 65536) /\
  (stat f (r / 65536) = FB_FULL -> r mod 65536 < lst f (r / 65536)).
Proof.
  intros Hat Eend. destruct (row_in_packs f Hf r (proj1 (ar_row it r Hat))) as [Hin Hlt]. split_row r.
  unfold IsEndOfBlock in Eend. rewrite (ar_full it r Hat), (ar_b it r Hat), (ar_n it r Hat) in Eend.
  apply orb_false_iff in Eend as [Eend E3]. apply orb_false_iff in Eend as [E1 E2]. split.
  - bool_to_prop. unfold bsize, in_packs in *. revert Hlt E2. cmp_solve.
  - intros Est. rewrite Est, is_st_refl in E3. cbn in E3. bool_to_prop. lia.
Qed.

Lemma next_row_pos r : 0 <= r < NoObj f -> r mod 65536 + 1 < bsize f (r / 65536) ->
  (r + 1) / 65536 = r / 65536 /\ (r + 1) mod 65536 = r mod 65536 + 1 /\ 0 <= r + 1 < NoObj f.
Proof.
  intros Hr Hroom. destruct (row_in_packs f Hf r Hr) as [Hin _]. split_row r. pose proof (bsize_bound f _ Hf Hin).
  destruct (row_pos (r / 65536) (r mod 65536 + 1) ltac:(lia)) as [E1 E2].
  replace (65536 * (r / 65536) + (r mod 65536 + 1)) with (r + 1) in E1, E2 by lia. split; [done|]. split; [done|].
  pose proof (pack_row_in f Hf _ (r mod 65536 + 1) Hin ltac:(lia)). lia.
Qed.

Lemma Next_full fuel it r :
  at_row it r -> IsEndOfBlock f it = false -> stat f (r / 65536) = FB_FULL ->
  exists it', next_loop (S fuel) f (set_n it (iterator_n it + 1)) = Some it' /\ moved_from r it'.
Proof.
  intros Hat Eend Est. destruct (not_end_room it r Hat Eend) as [Hroom Hll]. specialize (Hll Est).
  pose proof Hat as [Hv Hgo [Hr HFr] Eb En Epos Efull Eempty Hprev Hq Hmixed].
  destruct (row_in_packs f Hf r Hr) as [Hin Hlt]. destruct (next_row_pos r Hr Hroom) as (E1 & E2 & Hr1). split_row r.
  cbn [next_loop]. change (cur_block_full (set_n it ?x)) with (cur_block_full it). rewrite Efull, Est, is_st_refl.
  eexists. split; [reflexivity|]. left. exists (r + 1). split; [lia|]. split; [intros m Hm; lia|].
  split; cbn; rewrite ?E1, ?E2, ?Est; try done; try lia.
  - split; [done|]. pose proof (proj2 HF _ Hin) as Hpk. unfold pack_denotes in Hpk. rewrite Est in Hpk.
    destruct Hpk as (_ & Hl & Eg). specialize (Eg (r mod 65536 + 1) ltac:(lia)). cbv beta in Eg.
    replace (65536 * (r / 65536) + (r mod 65536 + 1)) with (r + 1) in Eg by lia. rewrite Eg. cmp_solve.
  - rewrite shiftl16, Eb, En. lia.
  - by rewrite Efull, Est.
Qed.

Lemma Next_mixed fuel it r k :
  at_row it r -> IsEndOfBlock f it = false -> stat f (r / 65536) = FB_MIXED -> blk f (r / 65536) = Some k ->
  denotes k (bsize f (r / 65536)) (fun m => F (65536 * (r / 65536) + m)) ->
  exists it', next_loop (S (S fuel)) f (set_n it (iterator_n it + 1)) = Some it' /\ moved_from r it'.
Proof.
  intros Hat Eend Est Ek Hd. destruct (not_end_room it r Hat Eend) as [Hroom _].
  pose proof Hat as [Hv Hgo [Hr HFr] Eb En Epos Efull Eempty Hprev Hq Hmixed].
  destruct (Hmixed k Est Ek) as (Hpb & Hcd & Hones). destruct (row_in_packs f Hf r Hr) as [Hin Hlt]. split_row r.
  pose proof (bsize_bound f _ Hf Hin) as HS. remember (S fuel) as fuel' eqn:Ef. cbn [next_loop]. set (it0 := set_n it (iterator_n it + 1)).
  change (cur_block_full it0) with (cur_block_full it). change (cur_block_empty it0) with (cur_block_empty it).
  rewrite Efull, Eempty, Est. change (is_st FB_MIXED FB_FULL) with false. cbv iota.
  destruct (FindOne_spec f it0 k (bsize f (r / 65536)) (fun m => F (65536 * (r / 65536) + m)))
    as (it' & fl & -> & Eit & Ht & Hfl).
  { cbn. by rewrite Eb. }
  { exact Hd. }
  { cbn. lia. }
  { intros _. left. cbn. rewrite En. replace (r mod 65536 + 1 - 1) with (r mod 65536) by lia. exact Hcd. }
  cbn [mbind option_bind]. change (iterator_n it0) with (iterator_n it + 1) in *. rewrite En in *.
  assert (forall n, no_ones (fun m => F (65536 * (r / 65536) + m)) (r mod 65536 + 1) n ->
            no_ones F (r + 1) (65536 * (r / 65536) + n)) as Hrows.
  { intros n Hn m Hm. specialize (Hn (m - 65536 * (r / 65536)) ltac:(lia)). cbv beta in Hn.
    by replace (65536 * (r / 65536) + (m - 65536 * (r / 65536))) with m in Hn by lia. }
  change (iterator_b it0) with (iterator_b it) in *. change (prev_block it0) with (prev_block it) in *.
  rewrite Hpb, Z.eqb_refl in Eit. destruct fl.
  - destruct (Ht eq_refl) as (Hcd' & Hn' & Hg' & Hno'). eexists. split; [reflexivity|]. left.
    exists (65536 * (r / 65536) + iterator_n it'). split; [lia|]. split; [by apply Hrows|].
    destruct (row_pos (r / 65536) (iterator_n it') ltac:(lia)) as [F1 F2].
    split; rewrite ?F1, ?F2, ?Est; try (rewrite Eit; cbn; congruence); try done.
    + split; [apply pack_row_in; (done || lia)|done].
    + cbn. rewrite shiftl16. rewrite Eit. cbn. rewrite Eb. done.
    + intros k' _ Ek'. rewrite Ek in Ek'. injection Ek' as <-. split; [by rewrite Eit|]. split; [exact Hcd'|].
      rewrite Eit. cbn. rewrite Hones. rewrite (cnt_first F r) by lia. rewrite HFr.
      rewrite (cnt_split F (r + 1) (65536 * (r / 65536) + iterator_n it')) by lia.
      rewrite (proj2 (cnt_zero F (r + 1) _)) by (by apply Hrows). cbn. lia.
  - specialize (Hfl eq_refl). apply Hrows in Hfl. subst fuel'.
    destruct (leave_pack fuel it') as (it'' & E & Hres);
      try (rewrite Eit; cbn; try done; rewrite ?Eb; unfold in_packs in Hin; (done || lia)).
    exists it''. split; [exact E|].
    assert (iterator_b it' = r / 65536) as Eb' by (rewrite Eit; exact Eb). rewrite Eb' in Hres.
    apply moved_after; [|done]. intros m Hm. apply Hfl.
    destruct (row_in_packs f Hf m ltac:(lia)) as [_ Hml]. split_row m.
    assert (m / 65536 = r / 65536) as Em by lia. rewrite Em in Hml. lia.
Qed.

Lemma Next_spec it r : at_row it r -> exists it', Next f it = Some it' /\ moved_from r it'.
Proof.
  intros Hat. pose proof Hat as [Hv Hgo [Hr HFr] Eb En _ _ _ Hprev Hq _].
  destruct (row_in_packs f Hf r Hr) as [Hin Hlt]. unfold Next.
  replace (Z.to_nat (no_blocks f + 2)) with (S (S (Z.to_nat (no_blocks f)))) by (pose proof (sh_nb f Hf); lia).
  destruct (IsEndOfBlock f it) eqn:Eend.
  - destruct (leave_pack (S (Z.to_nat (no_blocks f))) it) as (it' & E & Hres); try done; try (rewrite Eb; unfold in_packs in Hin; lia).
    exists it'. split; [exact E|]. rewrite Eb in Hres. apply moved_after; [|done].
    rewrite <- Eb. by apply end_of_block.
  - pose proof (proj2 HF _ Hin) as Hpk. unfold pack_denotes in Hpk. destruct (stat f (r / 65536)) eqn:Est.
    + by apply Next_full.
    + exfalso. destruct Hpk as [_ Eg]. split_row r. specialize (Eg (r mod 65536) ltac:(lia)). cbv beta in Eg.
      rewrite <- Hrs in Eg. congruence.
    + destruct Hpk as (k & Ek & Hd & _). by apply (Next_mixed _ _ _ k).
Qed.

(** From before the first row. *)
Lemma Rewind_spec it : packs_to_go it = -1 -> buf_ok (buffer it) -> bsz (buffer it) = max_ahead ->
  exists it', Rewind f it = Some it' /\ moved_from (-1) it'.
Proof.
  intros Hgo Hb Hsz. unfold Rewind, Next, IsEndOfBlock. cbn [iterator_n Iter_reset]. change (65535 =? 65535) with true. cbn [orb].
  replace (Z.to_nat (no_blocks f + 2)) with (S (S (Z.to_nat (no_blocks f)))) by (pose proof (sh_nb f Hf); lia).
  destruct (buf_reset_ok (buffer it) Hb) as (H1 & H2 & H3).
  destruct (leave_pack (S (Z.to_nat (no_blocks f))) (Iter_reset it)) as (it' & E & Hres); try done.
  exists it'. split; [exact E|]. cbn in Hres. destruct Hres as [(r' & Hr' & Hno' & Hat')|[Hno' Hinv]].
  - left. exists r'. split; [lia|]. done.
  - right. done.
Qed.

(** ** The whole walk *)

Definition rows_from (a : Z) : list Z := List.filter F (range a (NoObj f - 1)).

Lemma filter_none a z : no_ones F a (z + 1) -> List.filter F (range a z) = [].
Proof.
  intros H. assert (forall x, In x (range a z) -> F x = false) as Hx by (intros x Hin%range_In; apply H; lia).
  clear H. induction (range a z) as [|x l IH]; [done|]. cbn. rewrite Hx by by left. apply IH. intros y Hy. apply Hx. by right.
Qed.

Lemma rows_from_at r r' : r < r' < NoObj f -> no_ones F (r + 1) r' -> F r' = true -> rows_from (r + 1) = r' :: rows_from (r' + 1).
Proof.
  intros Hr Hno HFr. unfold rows_from. rewrite (range_app (r + 1) (r' - 1) (NoObj f - 1)) by lia.
  replace (r' - 1 + 1) with r' by lia. rewrite (range_cons r') by lia. rewrite List.filter_app. cbn.
  rewrite HFr, filter_none; [done|]. by replace (r' - 1 + 1) with r' by lia.
Qed.

Lemma visit_spec : forall fuel it r,
  moved_from r it -> cnt F (r + 1) (NoObj f) < Z.of_nat fuel -> visit fuel f it = Some (rows_from (r + 1)).
Proof.
  induction fuel as [|fuel IH]; intros it r Hm Hfuel.
  { pose proof (cnt_bounds F (r + 1) (NoObj f)). lia. }
  cbn [visit]. destruct Hm as [(r' & Hr' & Hno & Hat)|[Hno Hinv]].
  - rewrite (ar_valid it r' Hat). destruct (Next_spec it r' Hat) as (it' & -> & Hm'). cbn [mbind option_bind].
    destruct (ar_row it r' Hat) as [Hr HFr].
    rewrite (IH it' r' Hm'); cycle 1.
    { rewrite (cnt_split F (r + 1) r') in Hfuel by lia. rewrite (cnt_first F r') in Hfuel by lia. rewrite HFr in Hfuel.
      pose proof (cnt_bounds F (r + 1) r'). cbn in Hfuel. lia. }
    cbn [mbind option_bind]. rewrite (ar_pos it r' Hat). by rewrite (rows_from_at r r') by (done || lia).
  - rewrite Hinv. unfold rows_from. rewrite filter_none; [done|]. by replace (NoObj f - 1 + 1) with (NoObj f) by lia.
Qed.

(** ** Looking ahead *)

(** The [n]-th pack with rows after [p], or the last one there is. *)
Fixpoint ahead (p : Z) (n : nat) : Z :=
  match n with
  | O => p
  | S n' => let q := ahead p n' in if next_pack f q <? no_blocks f then next_pack f q else q
  end.

Lemma ahead_step p n : ahead (if next_pack f p <? no_blocks f then next_pack f p else p) n = ahead p (S n).
Proof. induction n as [|n IH]; [done|]. cbn [ahead] in *. by rewrite IH. Qed.

Lemma ahead_stuck p n m : no_blocks f <= next_pack f (ahead p n) -> ahead p (n + m) = ahead p n.
Proof.
  intros Hs. induction m as [|m IH]; [by rewrite Nat.add_0_r|]. rewrite Nat.add_succ_r. cbn [ahead]. rewrite IH.
  cmp_solve.
Qed.

Lemma buffered_nth l : forall p i, buffered f p l -> 0 <= i < zlen l -> l.[0|i] = ahead p (Z.to_nat (i + 1)).
Proof.
  induction l as [|x l IH]; intros p i Hb Hi; [unfold zlen in Hi; cbn in Hi; lia|].
  destruct Hb as (Ex & Hx & Hl). assert (ahead p 1 = x) as E1 by (cbn; rewrite <- Ex; cmp_solve).
  destruct (Z.eq_dec i 0) as [->|Hne]; [change (Z.to_nat (0 + 1)) with 1%nat; by rewrite E1|].
  replace ((x :: l).[0|i]) with (l.[0|i - 1]).
  - rewrite (IH x) by (done || unfold zlen in *; cbn in Hi; lia).
    replace (Z.to_nat (i + 1)) with (S (Z.to_nat (i - 1 + 1))) by lia. rewrite <- ahead_step.
    f_equal. rewrite <- Ex. cmp_solve.
  - unfold znth. destruct (Z.ltb_spec (i - 1) 0), (Z.ltb_spec i 0); try lia.
    by replace (Z.to_nat i) with (S (Z.to_nat (i - 1))) by lia.
Qed.

Lemma buffered_snoc l : forall p,
  buffered f p l -> next_pack f (ahead p (length l)) < no_blocks f ->
  buffered f p (l ++ [next_pack f (ahead p (length l))]).
Proof.
  induction l as [|x l IH]; intros p Hb Hlt; [by split|].
  destruct Hb as (Ex & Hx & Hl). cbn [app buffered length] in *. split; [done|]. split; [done|].
  assert (ahead p (S (length l)) = ahead x (length l)) as E.
  { rewrite <- ahead_step. f_equal. rewrite <- Ex. cmp_solve. }
  rewrite E in *. by apply IH.
Qed.

Lemma at_row_buffer it r bu : at_row it r -> queue_ok f (iterator_b it) bu -> at_row (set_buffer it bu) r.
Proof. intros [a1 a2 a3 a4 a5 a6 a7 a8 a9 a10 a11] Hq. by split. Qed.

Lemma queue_tail c p : queue_ok f p c -> (if buf_empty c then p else buf_last c) = ahead p (length (buf_list c)).
Proof.
  intros (Hb & _ & Hq). pose proof (buf_list_len c Hb) as Hlen. unfold buf_empty. destruct (Z.eqb_spec (elems c) 0) as [E|E].
  - destruct (buf_list c); [done|]. unfold zlen in Hlen. cbn in Hlen. lia.
  - rewrite buf_last_list, (buffered_nth _ p) by (done || pose proof (bo_elems c Hb); lia).
    f_equal. unfold zlen in Hlen. lia.
Qed.

Lemma lookahead_loop_spec r : forall n it,
  at_row it r -> elems (buffer it) + Z.of_nat n <= max_ahead ->
  let '(it', p) := lookahead_loop n f it (ahead (iterator_b it) (length (buf_list (buffer it)))) in
  at_row it' r /\ p = ahead (r / 65536) (length (buf_list (buffer it)) + n).
Proof.
  induction n as [|n IH]; intros it Hat Hroom; cbn [lookahead_loop].
  - rewrite Nat.add_0_r, (ar_b it r Hat). done.
  - pose proof (ar_queue it r Hat) as Hq. pose proof Hq as (Hb & Hsz & Hbuf).
    set (p := ahead (iterator_b it) (length (buf_list (buffer it)))) in *.
    destruct (Z.ltb_spec (next_pack f p) (no_blocks f)) as [Hlt|Hge].
    + destruct (buf_put_ok (buffer it) Hb (next_pack f p) ltac:(lia)) as (H1 & H2 & H3).
      assert (queue_ok f (iterator_b it) (buf_put (buffer it) (next_pack f p))) as Hq'.
      { split; [done|]. split; [congruence|]. rewrite H2. by apply buffered_snoc. }
      specialize (IH (set_buffer it (buf_put (buffer it) (next_pack f p))) (at_row_buffer it r _ Hat Hq') ltac:(cbn; lia)).
      cbn [buffer set_buffer iterator_b] in IH. rewrite H2, length_app in IH. cbn [length] in IH.
      rewrite Nat.add_1_r in IH. cbn [ahead] in IH. fold p in IH.
      assert ((if next_pack f p <? no_blocks f then next_pack f p else p) = next_pack f p) as E by cmp_solve.
      rewrite E in IH. replace (length (buf_list (buffer it)) + S n)%nat with (S (length (buf_list (buffer it))) + n)%nat by lia.
      exact IH.
    + split; [done|]. rewrite (queue_tail _ _ Hq), <- (ar_b it r Hat). symmetry. by apply ahead_stuck.
Qed.

Lemma Lookahead_spec it r n : at_row it r -> 0 <= n <= max_ahead ->
  let '(it', p) := Lookahead f it n in at_row it' r /\ p = ahead (r / 65536) (Z.to_nat n).
Proof.
  intros Hat Hn. pose proof (ar_queue it r Hat) as Hq. pose proof Hq as (Hb & Hsz & Hbuf).
  pose proof (buf_list_len (buffer it) Hb) as Hlen. pose proof (bo_elems _ Hb) as He.
  unfold Lookahead. rewrite (ar_valid it r Hat). cbn [negb].
  destruct (Z.eqb_spec n 0) as [->|]; [by rewrite (ar_b it r Hat)|].
  destruct (Z.leb_spec n (elems (buffer it))) as [Hle|Hgt].
  - split; [done|]. rewrite buf_nth_list, (buffered_nth _ (iterator_b it)) by (done || lia).
    rewrite (ar_b it r Hat). f_equal. lia.
  - rewrite (queue_tail _ _ Hq).
    pose proof (lookahead_loop_spec r (Z.to_nat (n - elems (buffer it))) it Hat ltac:(lia)) as Hl.
    destruct (lookahead_loop _ f it _) as [it' p]. destruct Hl as [H1 H2]. split; [done|]. rewrite H2. f_equal.
    unfold zlen in Hlen. lia.
Qed.
End Walk.

(** ** The contract of the iterator *)

(** C3: iterating a filter from a new iterator visits exactly its rows, each once, in
    ascending order; the walk ends (one step more than there are rows suffices) and never
    reads a missing block.  [junk] is the uninitialized memory the constructor starts from. *)
Theorem Iterator_visits_rows (f : Filter) (F : Z -> bool) (junk : Iter) (HF : fdenotes f F) :
  exists it, Iter_new junk f = Some it /\
             visit (Z.to_nat (NoOnes f + 1)) f it = Some (List.filter F (range 0 (NoObj f - 1))).
Proof.
  destruct (buf_new_ok max_ahead ltac:(unfold max_ahead; lia)) as (H1 & _ & H3).
  unfold Iter_new, Iter_init. cbv zeta.
  match goal with |- context [Rewind f ?i] => destruct (Rewind_spec f F HF i) as (it & E & Hm); [done|done|done|] end.
  exists it. split; [exact E|]. rewrite (NoOnes_spec f F HF).
  pose proof (cnt_bounds F 0 (NoObj f)). apply (visit_spec f F HF _ it (-1) Hm). change (-1 + 1) with 0. lia.
Qed.

Lemma Iterator_visits_rows_witness :
  exists it, Iter_new (Iter_empty 0) (Construct 2 100 false) = Some it /\
             visit (Z.to_nat (NoOnes (Construct 2 100 false) + 1)) (Construct 2 100 false) it
             = Some (List.filter (fun _ => false) (range 0 (NoObj (Construct 2 100 false) - 1))).
Proof. apply Iterator_visits_rows. apply fdenotes_Construct; lia. Defined.

(** At a row of the filter, [GetPackSizeLeft] is the number of set rows of the pack from
    this row on; [Lookahead(n)], up to the capacity of the queue, returns the n-th following
    pack that has rows (the last such pack if there are fewer) and does not move the iterator;
    a later step still finds the next row, whatever has been looked at ahead. *)
Theorem Iterator_lookahead (f : Filter) (F : Z -> bool) (it : Iter) (r n : Z)
    (HF : fdenotes f F) (Hat : at_row f F it r) (Hn : 0 <= n <= max_ahead) :
  GetPackSizeLeft f it = cnt F r (65536 * (r / 65536) + bsize f (r / 65536)) /\
  at_row f F (fst (Lookahead f it n)) r /\
  snd (Lookahead f it n) = ahead f (r / 65536) (Z.to_nat n) /\
  exists it', Next f (fst (Lookahead f it n)) = Some it' /\ moved_from f F r it'.
Proof.
  pose proof (Lookahead_spec f F it r n Hat Hn) as Hl. destruct (Lookahead f it n) as [it1 p] eqn:El.
  destruct Hl as [Hat1 Hp]. split; [|split; [done|split; [done|by apply Next_spec]]].
  destruct (ar_row f F it r Hat) as [Hr HFr]. destruct (row_in_packs f (proj1 HF) r Hr) as [Hin Hlt]. split_row r.
  pose proof (proj2 HF _ Hin) as Hpk. unfold pack_denotes in Hpk. unfold GetPackSizeLeft.
  rewrite (ar_valid f F it r Hat), (ar_full f F it r Hat), (ar_b f F it r Hat), (ar_n f F it r Hat). cbn [negb].
  destruct (stat f (r / 65536)) eqn:Est; cbn [pack_rep] in Hpk.
  - rewrite is_st_refl. destruct Hpk as (_ & Hl & Eg).
    pose proof (pack_cnt F (r / 65536) (r mod 65536) (bsize f (r / 65536))) as Hpc. rewrite <- Hrs in Hpc. rewrite <- Hpc.
    rewrite (cnt_ext _ (fun m => m <=? lst f (r / 65536))) by (intros i Hi; apply Eg; lia).
    assert (r mod 65536 <= lst f (r / 65536)) as Hrl.
    { specialize (Eg (r mod 65536) ltac:(lia)). cbv beta in Eg. rewrite <- Hrs, HFr in Eg. symmetry in Eg. bool_to_prop. lia. }
    rewrite (cnt_split _ _ (lst f (r / 65536) + 1)) by lia.
    rewrite (proj2 (cnt_full _ (r mod 65536) (lst f (r / 65536) + 1) ltac:(lia))) by (intros i Hi; cmp_solve).
    rewrite (proj2 (cnt_zero _ (lst f (r / 65536) + 1) _)) by (intros i Hi; cmp_solve). lia.
  - exfalso. destruct Hpk as [_ Eg]. specialize (Eg (r mod 65536) ltac:(lia)). cbv beta in Eg. rewrite <- Hrs in Eg. congruence.
  - destruct Hpk as (k & Ek & _). change (is_st FB_MIXED FB_FULL) with false. cbv iota.
    apply (ar_mixed f F it r Hat k Est Ek).
Qed.

(** A rewound iterator of a filter with one row in its second pack stands at that row. *)
Definition one_row_filter : Filter := SetBetween (Construct 2 100 false) 1 7 1 7.

Lemma one_row_denotes : fdenotes one_row_filter (fun r => within 65543 65543 r || false).
Proof.
  apply (SetBetween_span (Construct 2 100 false) (fun _ => false)); try (vm_compute; done).
  apply fdenotes_Construct; lia.
Qed.

Lemma Iterator_lookahead_witness :
  exists it, Iter_new (Iter_empty 0) one_row_filter = Some it /\
    GetPackSizeLeft one_row_filter it
    = cnt (fun r => within 65543 65543 r || false) 65543 (65536 * (65543 / 65536) + bsize one_row_filter (65543 / 65536)) /\
    snd (Lookahead one_row_filter it 3) = ahead one_row_filter (65543 / 65536) (Z.to_nat 3).
Proof.
  destruct (buf_new_ok max_ahead ltac:(reflexivity)) as (H1 & _ & H3).
  destruct (Rewind_spec one_row_filter _ one_row_denotes
              (mkIter false (-1) (-1) (-1) (-1) false false 0 0 0 0 0 (-1) true (-1) 0 (buf_new max_ahead)))
    as (it & E & Hm); [done|done|done|].
  exists it. assert (Iter_new (Iter_empty 0) one_row_filter = Some it) as E' by exact E. split; [exact E'|].
  destruct Hm as [(r & Hr & Hno & Hat)|[Hno _]]; cycle 1.
  { specialize (Hno 65543). exfalso.
    assert (within 65543 65543 65543 || false = false) as Hx by (apply Hno; vm_compute; done). vm_compute in Hx. done. }
  assert (r = 65543) as ->.
  { destruct (ar_row _ _ it r Hat) as [_ HFr]. unfold within in HFr. revert HFr. cmp_solve. }
  destruct (Iterator_lookahead one_row_filter _ it 65543 3 one_row_denotes Hat ltac:(vm_compute; done)) as (Ha & _ & Hb & _).
  split; [exact Ha|exact Hb].
Defined.

(** [RewindToRow] on a row that is not set leaves the iterator valid when the row lies
    behind the ones of a full-prefix pack, and [GetPackSizeLeft] then is not positive. *)
Theorem Iterator_RewindToRow_unset :
  let f := prefix_filter in
  exists it, RewindToRow f (Iter_empty 0) 50 = Some it /\ valid it = true /\ cur_position it = 50 /\
             Get_row f 50 = Some false /\ GetPackSizeLeft f it = -40.
Proof. eexists. split; [reflexivity|]. vm_compute. done. Qed.
