(* ===== verification/MD5.v ===== *)
(** * Hashes of values (core/bintools.cpp)

    The 32-bit hash [HashValue] and the MD5 digest [HashMD5], with its context, its streaming
    [MD5Update], [MD5Final] and the unrolled [Transform].  The code copies words to and from
    bytes with [memcpy] and pointer casts; they are read as on the little-endian machines the
    engine runs on.  [HashMD5] is shown to be the digest of RFC 1321, which shares no definition with
    the code: the functions F, G, H and I bit by bit, numbers and bytes by arithmetic, the initial
    words by their bytes, the table, the index and the shift schedule of the RFC, on the padded
    message. *)

From stdpp Require Import option.
From S2P Require Import Prelude.

(** ** Bytes and words *)

(** The little-endian word at byte offset [o]. *)
Definition le32 (l : list Z) (o : Z) : Z :=
  l.[0|o] + 256 * l.[0|o + 1] + 65536 * l.[0|o + 2] + 16777216 * l.[0|o + 3].

Definition bytes_of (n : nat) (x : Z) : list Z :=
  map (fun i => Z.land (Z.shiftr x (8 * i)) 255) (seqZ 0 (Z.of_nat n)).

(** [memcpy] of 4 * n bytes into words. *)
Definition words_of (l : list Z) (n : nat) : list Z := map (fun i => le32 l (4 * i)) (seqZ 0 (Z.of_nat n)).

(** ** A simple hash *)

Definition hash_mix (val x : Z) : Z :=
  Z.lxor val (wrap32 (x + 0x9e3779b9 + wrap32 (Z.shiftl val 10) + Z.shiftr val 2)).

(** For a length of 4 to 7 the word is added first and its bytes are mixed in again, since [i]
    is not advanced in that branch. *)
Definition HashValue (data : list Z) (len : Z) : Z :=
  let len4 := len / 4 * 4 in
  let '(val, i) :=
    if len4 =? 4 then (wrap32 (le32 data 0 + 0x9e3779b9), 0)
    else (foldl (fun val j => hash_mix val (le32 data (4 * j))) 0 (range 0 (len4 / 4 - 1)), len4) in
  let val := foldl (fun val j => hash_mix val data.[0|j]) val (range i (len - 1)) in
  Z.lxor val (wrap32 (Z.shiftr val 11 + wrap32 (Z.shiftl val 21))).

(** ** MD5 *)

Record MD5_CTX_bt := mkCtx { bits_handled : Z; buf : Z * Z * Z * Z; inb : list Z }.

Definition not32 (x : Z) : Z := Z.lxor x 0xffffffff.
Definition F (x y z : Z) : Z := Z.lor (Z.land x y) (Z.land (not32 x) z).
Definition G (x y z : Z) : Z := Z.lor (Z.land x z) (Z.land y (not32 z)).
Definition H (x y z : Z) : Z := Z.lxor (Z.lxor x y) z.
Definition I (x y z : Z) : Z := Z.lxor y (Z.lor x (not32 z)).

Definition ROTATE_LEFT (x n : Z) : Z := Z.lor (wrap32 (Z.shiftl x n)) (Z.shiftr x (32 - n)).

(** The body shared by the four macros: the new value of [a]. *)
Definition round_op (f : Z -> Z -> Z -> Z) (a b c d x s ac : Z) : Z :=
  wrap32 (ROTATE_LEFT (wrap32 (a + f b c d + x + ac)) s + b).
Definition FF := round_op F.
Definition GG := round_op G.
Definition HH := round_op H.
Definition II := round_op I.

Definition S11 : Z := 7.
Definition S12 : Z := 12.
Definition S13 : Z := 17.
Definition S14 : Z := 22.
Definition S21 : Z := 5.
Definition S22 : Z := 9.
Definition S23 : Z := 14.
Definition S24 : Z := 20.
Definition S31 : Z := 4.
Definition S32 : Z := 11.
Definition S33 : Z := 16.
Definition S34 : Z := 23.
Definition S41 : Z := 6.
Definition S42 : Z := 10.
Definition S43 : Z := 15.
Definition S44 : Z := 21.

(** The variables of [Transform] and a statement [OP(r1, r2, r3, r4, in[k], s, ac)] of it, which
    assigns the new value to its first variable. *)
Inductive var := va | vb | vc | vd.

Record stmt := mkStmt {
  s_op : Z -> Z -> Z -> Z -> Z -> Z -> Z -> Z; s_r1 : var; s_r2 : var; s_r3 : var; s_r4 : var; s_k : Z; s_s : Z; s_ac : Z
}.

Definition get_var (st : Z * Z * Z * Z) (v : var) : Z :=
  let '(a, b, c, d) := st in match v with va => a | vb => b | vc => c | vd => d end.

Definition set_var (st : Z * Z * Z * Z) (v : var) (x : Z) : Z * Z * Z * Z :=
  let '(a, b, c, d) := st in
  match v with va => (x, b, c, d) | vb => (a, x, c, d) | vc => (a, b, x, d) | vd => (a, b, c, x) end.

Definition exec (inp : list Z) (st : Z * Z * Z * Z) (t : stmt) : Z * Z * Z * Z :=
  set_var st (s_r1 t)
    (s_op t (get_var st (s_r1 t)) (get_var st (s_r2 t)) (get_var st (s_r3 t)) (get_var st (s_r4 t))
       inp.[0|s_k t] (s_s t) (s_ac t)).

Definition Transform_code : list stmt := [
  mkStmt FF va vb vc vd 0 S11 3614090360;
  mkStmt FF vd va vb vc 1 S12 3905402710;
  mkStmt FF vc vd va vb 2 S13 606105819;
  mkStmt FF vb vc vd va 3 S14 3250441966;
  mkStmt FF va vb vc vd 4 S11 4118548399;
  mkStmt FF vd va vb vc 5 S12 1200080426;
  mkStmt FF vc vd va vb 6 S13 2821735955;
  mkStmt FF vb vc vd va 7 S14 4249261313;
  mkStmt FF va vb vc vd 8 S11 1770035416;
  mkStmt FF vd va vb vc 9 S12 2336552879;
  mkStmt FF vc vd va vb 10 S13 4294925233;
  mkStmt FF vb vc vd va 11 S14 2304563134;
  mkStmt FF va vb vc vd 12 S11 1804603682;
  mkStmt FF vd va vb vc 13 S12 4254626195;
  mkStmt FF vc vd va vb 14 S13 2792965006;
  mkStmt FF vb vc vd va 15 S14 1236535329;
  mkStmt GG va vb vc vd 1 S21 4129170786;
  mkStmt GG vd va vb vc 6 S22 3225465664;
  mkStmt GG vc vd va vb 11 S23 643717713;
  mkStmt GG vb vc vd va 0 S24 3921069994;
  mkStmt GG va vb vc vd 5 S21 3593408605;
  mkStmt GG vd va vb vc 10 S22 38016083;
  mkStmt GG vc vd va vb 15 S23 3634488961;
  mkStmt GG vb vc vd va 4 S24 3889429448;
  mkStmt GG va vb vc vd 9 S21 568446438;
  mkStmt GG vd va vb vc 14 S22 3275163606;
  mkStmt GG vc vd va vb 3 S23 4107603335;
  mkStmt GG vb vc vd va 8 S24 1163531501;
  mkStmt GG va vb vc vd 13 S21 2850285829;
  mkStmt GG vd va vb vc 2 S22 4243563512;
  mkStmt GG vc vd va vb 7 S23 1735328473;
  mkStmt GG vb vc vd va 12 S24 2368359562;
  mkStmt HH va vb vc vd 5 S31 4294588738;
  mkStmt HH vd va vb vc 8 S32 2272392833;
  mkStmt HH vc vd va vb 11 S33 1839030562;
  mkStmt HH vb vc vd va 14 S34 4259657740;
  mkStmt HH va vb vc vd 1 S31 2763975236;
  mkStmt HH vd va vb vc 4 S32 1272893353;
  mkStmt HH vc vd va vb 7 S33 4139469664;
  mkStmt HH vb vc vd va 10 S34 3200236656;
  mkStmt HH va vb vc vd 13 S31 681279174;
  mkStmt HH vd va vb vc 0 S32 3936430074;
  mkStmt HH vc vd va vb 3 S33 3572445317;
  mkStmt HH vb vc vd va 6 S34 76029189;
  mkStmt HH va vb vc vd 9 S31 3654602809;
  mkStmt HH vd va vb vc 12 S32 3873151461;
  mkStmt HH vc vd va vb 15 S33 530742520;
  mkStmt HH vb vc vd va 2 S34 3299628645;
  mkStmt II va vb vc vd 0 S41 4096336452;
  mkStmt II vd va vb vc 7 S42 1126891415;
  mkStmt II vc vd va vb 14 S43 2878612391;
  mkStmt II vb vc vd va 5 S44 4237533241;
  mkStmt II va vb vc vd 12 S41 1700485571;
  mkStmt II vd va vb vc 3 S42 2399980690;
  mkStmt II vc vd va vb 10 S43 4293915773;
  mkStmt II vb vc vd va 1 S44 2240044497;
  mkStmt II va vb vc vd 8 S41 1873313359;
  mkStmt II vd va vb vc 15 S42 4264355552;
  mkStmt II vc vd va vb 6 S43 2734768916;
  mkStmt II vb vc vd va 13 S44 1309151649;
  mkStmt II va vb vc vd 4 S41 4149444226;
  mkStmt II vd va vb vc 11 S42 3174756917;
  mkStmt II vc vd va vb 2 S43 718787259;
  mkStmt II vb vc vd va 9 S44 3951481745].

Definition Transform (st : Z * Z * Z * Z) (inp : list Z) : Z * Z * Z * Z :=
  let '(a0, b0, c0, d0) := st in
  let '(a, b, c, d) := foldl (exec inp) st Transform_code in
  (wrap32 (a0 + a), wrap32 (b0 + b), wrap32 (c0 + c), wrap32 (d0 + d)).

Definition PADDING : list Z := 0x80 :: replicate 63 0.

(** One round of [while(inLen--)]: the context and the position [mdi] in its buffer. *)
Definition update_byte (p : (Z * Z * Z * Z) * list Z * Z) (byte : Z) : (Z * Z * Z * Z) * list Z * Z :=
  let '(st, inb, mdi) := p in
  let inb := inb.[mdi <- byte] in
  let mdi := mdi + 1 in
  if mdi =? 0x40 then (Transform st (words_of inb 16), inb, 0) else (st, inb, mdi).

(** [inLen] is unsigned with 32 bits; [None] if it is more than the bytes of [inBuf]. *)
Definition MD5Update (ctx : MD5_CTX_bt) (inBuf : list Z) (inLen : Z) : option MD5_CTX_bt :=
  if zlen inBuf <? inLen then None
  else
    let mdi := Z.land (Z.shiftr (bits_handled ctx) 3) 0x3F in
    let bits := wrap64 (bits_handled ctx + wrap64 (Z.shiftl inLen 3)) in
    let '(st, inb, _) := foldl update_byte (buf ctx, inb ctx, mdi) (take (Z.to_nat inLen) inBuf) in
    Some (mkCtx bits st inb).

(** The digest [MD5Final] stores. *)
Definition MD5Final (ctx : MD5_CTX_bt) : option (list Z) :=
  let saved := bits_handled ctx in
  let mdi := Z.land (Z.shiftr (bits_handled ctx) 3) 0x3F in
  let padLen := if mdi <? 56 then 56 - mdi else 120 - mdi in
  ctx ← MD5Update ctx PADDING padLen;
  let inp := words_of (inb ctx) 14 ++ [Z.land saved 0xffffffff; Z.shiftr saved 32] in
  let '(a, b, c, d) := Transform (buf ctx) inp in
  Some (bytes_of 4 a ++ bytes_of 4 b ++ bytes_of 4 c ++ bytes_of 4 d).

Definition MD5_init : Z * Z * Z * Z := (0x67452301, 0xefcdab89, 0x98badcfe, 0x10325476).

(** [junk] is the uninitialized input buffer of the context on the stack; [len], an [int], becomes
    an unsigned length. *)
Definition HashMD5 (junk : Z -> Z) (data : list Z) (len : Z) : option (list Z) :=
  ctx ← MD5Update (mkCtx 0 MD5_init (map junk (range 0 63))) data (wrap32 len);
  MD5Final ctx.

(** ** The digest of RFC 1321 *)

(** A function of bits applied to the [n] low-order bits of words. *)
Fixpoint bits3 (n : nat) (g : bool -> bool -> bool -> bool) (x y z : Z) : Z :=
  match n with
  | O => 0
  | S n => Z.b2z (g (Z.odd x) (Z.odd y) (Z.odd z)) + 2 * bits3 n g (x / 2) (y / 2) (z / 2)
  end.

(** If X then Y else Z; if Z then X else Y; the parity of the three; Y xor (X or not Z). *)
Definition rfc_F : Z -> Z -> Z -> Z := bits3 32 (fun x y z => if x then y else z).
Definition rfc_G : Z -> Z -> Z -> Z := bits3 32 (fun x y z => if z then x else y).
Definition rfc_H : Z -> Z -> Z -> Z := bits3 32 (fun x y z => xorb (xorb x y) z).
Definition rfc_I : Z -> Z -> Z -> Z := bits3 32 (fun x y z => xorb y (x || negb z)).

(** A number from its bytes, low-order first, and its [n] low-order bytes. *)
Definition rfc_number (l : list Z) : Z := foldr (fun b x => b + 256 * x) 0 l.

Definition rfc_bytes (n x : Z) : list Z := map (fun i => x / 256 ^ i mod 256) (range 0 (n - 1)).

(** The words A, B, C and D, low-order bytes first. *)
Definition rfc_init : Z * Z * Z * Z :=
  (rfc_number [0x01; 0x23; 0x45; 0x67], rfc_number [0x89; 0xab; 0xcd; 0xef],
   rfc_number [0xfe; 0xdc; 0xba; 0x98], rfc_number [0x76; 0x54; 0x32; 0x10]).

(** The table T of the RFC: the integer part of 4294967296 * abs(sin(i + 1)). *)
Definition rfc_T : list Z :=
  [ 0xd76aa478; 0xe8c7b756; 0x242070db; 0xc1bdceee; 0xf57c0faf; 0x4787c62a; 0xa8304613; 0xfd469501;
    0x698098d8; 0x8b44f7af; 0xffff5bb1; 0x895cd7be; 0x6b901122; 0xfd987193; 0xa679438e; 0x49b40821;
    0xf61e2562; 0xc040b340; 0x265e5a51; 0xe9b6c7aa; 0xd62f105d; 0x02441453; 0xd8a1e681; 0xe7d3fbc8;
    0x21e1cde6; 0xc33707d6; 0xf4d50d87; 0x455a14ed; 0xa9e3e905; 0xfcefa3f8; 0x676f02d9; 0x8d2a4c8a;
    0xfffa3942; 0x8771f681; 0x6d9d6122; 0xfde5380c; 0xa4beea44; 0x4bdecfa9; 0xf6bb4b60; 0xbebfbc70;
    0x289b7ec6; 0xeaa127fa; 0xd4ef3085; 0x04881d05; 0xd9d4d039; 0xe6db99e5; 0x1fa27cf8; 0xc4ac5665;
    0xf4292244; 0x432aff97; 0xab9423a7; 0xfc93a039; 0x655b59c3; 0x8f0ccc92; 0xffeff47d; 0x85845dd1;
    0x6fa87e4f; 0xfe2ce6e0; 0xa3014314; 0x4e0811a1; 0xf7537e82; 0xbd3af235; 0x2ad7d2bb; 0xeb86d391 ].

Definition rfc_rounds : list (Z -> Z -> Z -> Z) := [rfc_F; rfc_G; rfc_H; rfc_I].
Definition rfc_f (i : Z) : Z -> Z -> Z -> Z := rfc_rounds.[rfc_F|i / 16].
Definition rfc_g (i : Z) : Z :=
  [i mod 16; (5 * i + 1) mod 16; (3 * i + 5) mod 16; (7 * i) mod 16].[0|i / 16].
Definition rfc_s (i : Z) : Z :=
  [7; 12; 17; 22; 5; 9; 14; 20; 4; 11; 16; 23; 6; 10; 15; 21].[0|4 * (i / 16) + i mod 4].

(** Circular shift of a 32-bit word, by arithmetic. *)
Definition rotl32 (x n : Z) : Z := (x * 2 ^ n) mod 2 ^ 32 + x / 2 ^ (32 - n).

Definition rfc_step (inp : list Z) (st : Z * Z * Z * Z) (i : Z) : Z * Z * Z * Z :=
  let '(a, b, c, d) := st in
  (d, (b + rotl32 ((a + rfc_f i b c d + inp.[0|rfc_g i] + rfc_T.[0|i]) mod 2 ^ 32) (rfc_s i)) mod 2 ^ 32, b, c).

Definition rfc_transform (st : Z * Z * Z * Z) (inp : list Z) : Z * Z * Z * Z :=
  let '(a0, b0, c0, d0) := st in
  let '(a, b, c, d) := foldl (rfc_step inp) st (range 0 63) in
  ((a0 + a) mod 2 ^ 32, (b0 + b) mod 2 ^ 32, (c0 + c) mod 2 ^ 32, (d0 + d) mod 2 ^ 32).

(** The message with a one bit, zeros up to 56 modulo 64 bytes, and its length in bits. *)
Definition rfc_pad (msg : list Z) : list Z :=
  msg ++ 0x80 :: replicate (Z.to_nat ((55 - zlen msg) mod 64)) 0 ++ rfc_bytes 8 (8 * zlen msg).

(** The [k]-th block of 64 bytes, and its 16 words. *)
Definition block (msg : list Z) (k : Z) : list Z := take 64 (drop (Z.to_nat (64 * k)) msg).

Definition rfc_words (b : list Z) : list Z :=
  map (fun i => rfc_number (take 4 (drop (Z.to_nat (4 * i)) b))) (range 0 15).

Definition rfc_md5 (msg : list Z) : list Z :=
  let p := rfc_pad msg in
  let '(a, b, c, d) :=
    foldl (fun st k => rfc_transform st (rfc_words (block p k))) rfc_init (range 0 (zlen p / 64 - 1)) in
  rfc_bytes 4 a ++ rfc_bytes 4 b ++ rfc_bytes 4 c ++ rfc_bytes 4 d.

(** Test vectors of RFC 1321, for the specification and for the code. *)
Definition digest_empty : list Z :=
  [0xd4; 0x1d; 0x8c; 0xd9; 0x8f; 0x00; 0xb2; 0x04; 0xe9; 0x80; 0x09; 0x98; 0xec; 0xf8; 0x42; 0x7e].
Definition digest_abc : list Z :=
  [0x90; 0x01; 0x50; 0x98; 0x3c; 0xd2; 0x4f; 0xb0; 0xd6; 0x96; 0x3f; 0x7d; 0x28; 0xe1; 0x7f; 0x72].

Example rfc_md5_vectors : rfc_md5 [] = digest_empty /\ rfc_md5 [0x61; 0x62; 0x63] = digest_abc.
Proof. split; vm_compute; reflexivity. Qed.

Example md5_vectors :
  HashMD5 (fun _ => 77) [] 0 = Some digest_empty /\ HashMD5 (fun _ => 77) [0x61; 0x62; 0x63; 5] 3 = Some digest_abc.
Proof. split; vm_compute; reflexivity. Qed.

(** ** The unrolled transform is the loop of the RFC *)

Lemma rotl_eq x n : is_word 32 x -> 0 < n < 32 -> ROTATE_LEFT x n = rotl32 x n.
Proof.
  intros Hx Hn. unfold ROTATE_LEFT, rotl32, wrap. rewrite Z.shiftl_mul_pow2, Z.shiftr_div_pow2 by lia.
  assert (Z.land ((x * 2 ^ n) mod 2 ^ 32) (x / 2 ^ (32 - n)) = 0) as E.
  { apply Z.bits_inj_0. intros i. destruct (Z.lt_ge_cases i 0); [by apply Z.testbit_neg_r|].
    rewrite Z.land_spec. destruct (Z.lt_ge_cases i n) as [Hi|Hi].
    - rewrite Z.mod_pow2_bits_low by lia. rewrite Z.mul_pow2_bits_low by lia. done.
    - rewrite <- Z.shiftr_div_pow2, Z.shiftr_spec by lia.
      rewrite (word_testbit_high 32 x) by (done || lia). by rewrite andb_false_r. }
  rewrite <- Z.add_lor_land, E. lia.
Qed.

(** A function of words that agrees with a function of bits on the low-order bits. *)
Lemma bits3_eq n g : forall w x y z,
  (forall i, 0 <= i < Z.of_nat n -> Z.testbit w i = g (Z.testbit x i) (Z.testbit y i) (Z.testbit z i)) ->
  w mod 2 ^ Z.of_nat n = bits3 n g x y z.
Proof.
  induction n as [|n IH]; intros w x y z Hg; [by rewrite Z.mod_1_r|]. cbn [bits3].
  rewrite <- (IH (w / 2)).
  - rewrite Nat2Z.inj_succ, Z.pow_succ_r by lia. rewrite Z.rem_mul_r by lia. f_equal.
    rewrite <- !Z.bit0_odd, <- Hg by lia. by rewrite Z.bit0_mod.
  - intros i Hi. rewrite <- !Z.div2_div, !Z.div2_spec, !Z.shiftr_spec by lia. apply Hg. lia.
Qed.

(** The code's function agrees with that of the RFC. *)
Definition agrees (f g : Z -> Z -> Z -> Z) : Prop := forall x y z, f x y z mod 2 ^ 32 = g x y z.

Lemma not32_bit x i : 0 <= i < 32 -> Z.testbit (not32 x) i = negb (Z.testbit x i).
Proof.
  intros Hi. unfold not32. rewrite Z.lxor_spec. change 0xffffffff with (Z.ones 32).
  by rewrite Z.ones_spec_low, xorb_true_r by lia.
Qed.

Ltac round_bits :=
  intros x y z; apply (bits3_eq 32); intros i Hi;
  rewrite ?Z.lxor_spec, ?Z.lor_spec, ?Z.land_spec, ?Z.lxor_spec, ?Z.lor_spec, ?not32_bit by lia;
  destruct (Z.testbit x i), (Z.testbit y i), (Z.testbit z i); reflexivity.

Lemma F_agrees : agrees F rfc_F.
Proof. unfold F. round_bits. Qed.

Lemma G_agrees : agrees G rfc_G.
Proof. unfold G. round_bits. Qed.

Lemma H_agrees : agrees H rfc_H.
Proof. unfold H. round_bits. Qed.

Lemma I_agrees : agrees I rfc_I.
Proof. unfold I. round_bits. Qed.

Lemma round_op_eq f g a b c d x s k : agrees f g -> 0 < s < 32 ->
  round_op f a b c d x s k = (b + rotl32 ((a + g b c d + x + k) mod 2 ^ 32) s) mod 2 ^ 32.
Proof.
  intros Hfg Hs. unfold round_op. rewrite rotl_eq; [|apply wrap_word; lia|done]. rewrite <- Hfg. unfold wrap.
  rewrite (Z.add_comm b). do 3 f_equal. rewrite <- !Z.add_assoc, !(Z.add_comm a), <- !Z.add_assoc.
  by rewrite Z.add_mod_idemp_l by lia.
Qed.

Lemma rfc_step_eq inp a b c d i f g s k :
  agrees f (rfc_f i) -> rfc_g i = g -> rfc_s i = s -> rfc_T.[0|i] = k -> 0 < s < 32 ->
  rfc_step inp (a, b, c, d) i = (d, round_op f a b c d inp.[0|g] s k, b, c).
Proof. intros Hf <- <- <- Hs. unfold rfc_step. by rewrite (round_op_eq f _ _ _ _ _ _ _ _ Hf). Qed.

Lemma foldl_step {A B : Type} (f : A -> B -> A) x l s : foldl f s (x :: l) = foldl f (f s x) l.
Proof. done. Qed.

Lemma exec_step inp st op r1 r2 r3 r4 k s ac :
  exec inp st (mkStmt op r1 r2 r3 r4 k s ac)
  = set_var st r1 (op (get_var st r1) (get_var st r2) (get_var st r3) (get_var st r4) inp.[0|k] s ac).
Proof. done. Qed.

(** One statement of the unrolled code against one round of the loop: the loop keeps the
    variables in a rotated order. *)
Ltac md5_round :=
  rewrite (foldl_step (exec _)), (foldl_step (rfc_step _));
  lazymatch goal with
  | |- context [exec ?inp ?st (mkStmt (round_op ?f) ?r1 ?r2 ?r3 ?r4 ?g ?s ?k)] =>
    lazymatch goal with
    | |- context [rfc_step inp (?a, ?b, ?c, ?d) ?i] =>
      rewrite (rfc_step_eq inp a b c d i f g s k) by (reflexivity || (split; reflexivity) || apply F_agrees || apply G_agrees || apply H_agrees || apply I_agrees);
      rewrite exec_step; cbn [get_var set_var]; generalize (round_op f a b c d inp.[0|g] s k); intro
    end
  end.

Lemma Transform_rfc st inp : Transform st inp = rfc_transform st inp.
Proof.
  destruct st as [[[a0 b0] c0] d0]. unfold rfc_transform, Transform.
  pose (fin := fun p : Z * Z * Z * Z => let '(a, b, c, d) := p in
     (wrap32 (a0 + a), wrap32 (b0 + b), wrap32 (c0 + c), wrap32 (d0 + d))).
  change (fin (foldl (exec inp) (a0, b0, c0, d0) Transform_code) = fin (foldl (rfc_step inp) (a0, b0, c0, d0) (range 0 63))).
  clearbody fin. cbv delta [Transform_code FF GG HH II S11 S12 S13 S14 S21 S22 S23 S24 S31 S32 S33 S34 S41 S42 S43 S44].
  let l := eval vm_compute in (range 0 63) in replace (range 0 63) with l by reflexivity.
  do 64 md5_round. reflexivity.
Qed.

(** ** The context as the digest of a prefix *)

Lemma words_of_ext l l' n :
  (forall i, 0 <= i < 4 * Z.of_nat n -> l.[0|i] = l'.[0|i]) -> words_of l n = words_of l' n.
Proof.
  intros Hl. unfold words_of. apply map_ext_in. intros i Hi. apply list_elem_of_In, elem_of_seqZ in Hi.
  unfold le32. rewrite !Hl by lia. done.
Qed.

Lemma block_nth msg k i : 0 <= k -> 0 <= i < 64 -> (block msg k).[0|i] = msg.[0|64 * k + i].
Proof.
  intros Hk Hi. unfold block, znth. destruct (Z.ltb_spec i 0); [lia|]. destruct (Z.ltb_spec (64 * k + i) 0); [lia|].
  rewrite !nth_lookup, lookup_take_lt, lookup_drop by lia. do 2 f_equal. lia.
Qed.

Definition hash_blocks (msg : list Z) (n : Z) : Z * Z * Z * Z :=
  foldl (fun st k => Transform st (words_of (block msg k) 16)) MD5_init (range 0 (n - 1)).

Lemma hash_blocks_snoc msg n : 0 <= n -> hash_blocks msg (n + 1) = Transform (hash_blocks msg n) (words_of (block msg n) 16).
Proof.
  intros Hn. unfold hash_blocks. replace (n + 1 - 1) with (n - 1 + 1) by lia. rewrite range_snoc, foldl_app by lia.
  cbn. by replace (n - 1 + 1) with n by lia.
Qed.

Lemma foldl_ext_in {A B : Type} (f g : A -> B -> A) l s : (forall s x, In x l -> f s x = g s x) -> foldl f s l = foldl g s l.
Proof.
  revert s. induction l as [|x l IH]; intros s H; [done|]. cbn. rewrite H by by left. apply IH. intros. apply H. by right.
Qed.

Lemma hash_blocks_app msg t n : 64 * n <= zlen msg -> hash_blocks (msg ++ t) n = hash_blocks msg n.
Proof.
  intros Hn. unfold hash_blocks. apply foldl_ext_in. intros st k Hk%range_In. f_equal. apply words_of_ext. intros i Hi.
  rewrite !block_nth by lia. by rewrite znth_app_l by lia.
Qed.

(** The state [(st, inb, mdi)] of the update loop after the message [msg]. *)
Definition loop_rep (msg : list Z) (p : (Z * Z * Z * Z) * list Z * Z) : Prop :=
  let '(st, inb, mdi) := p in
  mdi = zlen msg mod 64 /\ st = hash_blocks msg (zlen msg / 64) /\ zlen inb = 64 /\
  (forall i, 0 <= i < mdi -> inb.[0|i] = msg.[0|64 * (zlen msg / 64) + i]).

Lemma divmod64 n : n = 64 * (n / 64) + n mod 64 /\ 0 <= n mod 64 < 64.
Proof. split; [apply Z.div_mod; lia|apply Z.mod_pos_bound; lia]. Qed.

Lemma divmod64_next n : n mod 64 <> 63 -> (n + 1) / 64 = n / 64 /\ (n + 1) mod 64 = n mod 64 + 1.
Proof.
  intros H'. destruct (divmod64 n). split; [symmetry; apply (Z.div_unique_pos _ _ _ (n mod 64 + 1)); lia|].
  symmetry. apply (Z.mod_unique_pos _ _ (n / 64)); lia.
Qed.

Lemma divmod64_wrap n : n mod 64 = 63 -> (n + 1) / 64 = n / 64 + 1 /\ (n + 1) mod 64 = 0.
Proof.
  intros H'. destruct (divmod64 n). split; [symmetry; apply (Z.div_unique_pos _ _ _ 0); lia|].
  symmetry. apply (Z.mod_unique_pos _ _ (n / 64 + 1)); lia.
Qed.

Lemma update_byte_rep msg p byte : loop_rep msg p -> loop_rep (msg ++ [byte]) (update_byte p byte).
Proof.
  destruct p as [[st inb] mdi]. intros (Em & Est & Hlen & Hin). unfold update_byte, loop_rep.
  pose proof (zlen_nonneg msg). destruct (divmod64 (zlen msg)) as [En Hm].
  assert (zlen (msg ++ [byte]) = zlen msg + 1) as El by (rewrite zlen_app; done). rewrite El.
  assert (forall i, 0 <= i < mdi + 1 -> (inb.[mdi <- byte]).[0|i] = (msg ++ [byte]).[0|64 * (zlen msg / 64) + i]) as Hin'.
  { intros i Hi. rewrite znth_zupd by lia. destruct (Z.eqb_spec i mdi) as [->|].
    - rewrite znth_app_r by lia. by replace (64 * (zlen msg / 64) + mdi - zlen msg) with 0 by lia.
    - rewrite znth_app_l by lia. apply Hin. lia. }
  destruct (Z.eqb_spec (mdi + 1) 0x40) as [E|E].
  - destruct (divmod64_wrap (zlen msg) ltac:(lia)) as [-> ->]. split; [done|]. split; [|split; [by rewrite zlen_zupd|lia]].
    rewrite hash_blocks_snoc by lia. rewrite hash_blocks_app by lia. rewrite <- Est. f_equal. apply words_of_ext.
    intros i Hi. rewrite block_nth by lia. apply Hin'. lia.
  - destruct (divmod64_next (zlen msg) ltac:(lia)) as [-> ->]. split; [lia|]. split; [|split; [by rewrite zlen_zupd|done]].
    rewrite hash_blocks_app by lia. done.
Qed.

Lemma update_rep data : forall msg p, loop_rep msg p -> loop_rep (msg ++ data) (foldl update_byte p data).
Proof.
  induction data as [|x data IH]; intros msg p Hp; [by rewrite app_nil_r|]. cbn [foldl].
  replace (msg ++ x :: data) with ((msg ++ [x]) ++ data) by by rewrite <- app_assoc. apply IH. by apply update_byte_rep.
Qed.

Definition ctx_rep (msg : list Z) (ctx : MD5_CTX_bt) : Prop :=
  bits_handled ctx = wrap64 (8 * zlen msg) /\ loop_rep msg (buf ctx, inb ctx, zlen msg mod 64).

Lemma mdi_of n : 0 <= n -> Z.land (Z.shiftr (wrap64 (8 * n)) 3) 0x3F = n mod 64.
Proof.
  intros Hn. change 0x3F with (Z.ones 6). rewrite Z.land_ones by lia. rewrite Z.shiftr_div_pow2 by lia. unfold wrap.
  change (2 ^ 3) with 8. change (2 ^ 6) with 64. change (2 ^ 64) with (8 * (64 * 2 ^ 55)).
  rewrite Z.mul_mod_distr_l by lia. rewrite (Z.mul_comm 8), Z.div_mul by lia.
  rewrite Z.rem_mul_r by lia. rewrite (Z.mul_comm 64), Z.mod_add by lia. apply Z.mod_mod. lia.
Qed.

Lemma MD5Update_rep msg ctx inBuf n :
  ctx_rep msg ctx -> 0 <= n <= zlen inBuf -> n < 2 ^ 32 ->
  exists ctx', MD5Update ctx inBuf n = Some ctx' /\ ctx_rep (msg ++ take (Z.to_nat n) inBuf) ctx'.
Proof.
  intros [Hb Hl] Hn Hw. unfold MD5Update. destruct (Z.ltb_spec (zlen inBuf) n); [lia|]. rewrite Hb, mdi_of by apply zlen_nonneg.
  pose proof (update_rep (take (Z.to_nat n) inBuf) msg _ Hl) as Hu. destruct (foldl update_byte _ _) as [[st inb'] mdi].
  eexists. split; [reflexivity|]. unfold ctx_rep. cbn [bits_handled buf inb]. destruct Hu as (Em & Hu). subst mdi. split; [|split; done].
  assert (zlen (take (Z.to_nat n) inBuf) = n) as El by (unfold zlen in *; rewrite length_take; lia).
  rewrite zlen_app, El, Z.shiftl_mul_pow2 by lia. unfold wrap. rewrite <- Z.add_mod by lia. f_equal. lia.
Qed.

(** ** The last block *)

Lemma byte_at x i n : 0 <= i < Z.of_nat n -> (bytes_of n x).[0|i] = x / 2 ^ (8 * i) mod 256.
Proof.
  intros Hi. unfold bytes_of, znth. destruct (Z.ltb_spec i 0); [lia|].
  rewrite nth_lookup, list_lookup_fmap, lookup_seqZ_lt by lia. cbn.
  change 255 with (Z.ones 8). rewrite Z.land_ones, Z.shiftr_div_pow2 by lia. do 3 f_equal. lia.
Qed.

Lemma bytes_word y : y mod 256 + 256 * (y / 2 ^ 8 mod 256) + 65536 * (y / 2 ^ 16 mod 256) + 16777216 * (y / 2 ^ 24 mod 256)
  = y mod 2 ^ 32.
Proof.
  change (2 ^ 32) with (256 * (256 * (256 * 256))). rewrite !Z.rem_mul_r by lia.
  change (2 ^ 16) with (256 * 256). change (2 ^ 24) with (256 * 256 * 256). change (2 ^ 8) with 256.
  rewrite <- !Z.div_div by lia. lia.
Qed.

Lemma le32_bytes_lo x : le32 (bytes_of 8 x) 0 = x mod 2 ^ 32.
Proof.
  unfold le32. rewrite !byte_at by lia. change (2 ^ (8 * 0)) with 1. rewrite Z.div_1_r. apply bytes_word.
Qed.

Lemma le32_bytes_hi x : le32 (bytes_of 8 x) 4 = x / 2 ^ 32 mod 2 ^ 32.
Proof.
  unfold le32. rewrite !byte_at by lia. rewrite <- (bytes_word (x / 2 ^ 32)). rewrite !Z.div_div by lia. done.
Qed.

Lemma zlen_bytes n x : zlen (bytes_of n x) = Z.of_nat n.
Proof. unfold zlen, bytes_of. rewrite length_map, length_seqZ. lia. Qed.

Lemma pad_bytes n : 1 <= n <= 64 -> take (Z.to_nat n) PADDING = 0x80 :: replicate (Z.to_nat (n - 1)) 0.
Proof.
  intros Hn. unfold PADDING. replace (Z.to_nat n) with (S (Z.to_nat (n - 1))) by lia. cbn [take]. f_equal.
  rewrite take_replicate. f_equal. lia.
Qed.

Lemma zlen_pad k : 0 <= k -> zlen (0x80 :: replicate (Z.to_nat k) 0) = k + 1.
Proof. intros Hk. unfold zlen. cbn [length]. rewrite length_replicate. lia. Qed.

(** Numbers and bytes of the RFC. *)
Lemma rfc_number_le32 l o : 0 <= o -> rfc_number (take 4 (drop (Z.to_nat o) l)) = le32 l o.
Proof.
  intros Ho. unfold le32. rewrite <- (Z.add_0_r o) at 2. rewrite <- !znth_drop by lia.
  destruct (drop (Z.to_nat o) l) as [|b0 [|b1 [|b2 [|b3 r]]]]; unfold rfc_number, znth; simpl; lia.
Qed.

Lemma rfc_words_eq l : rfc_words l = words_of l 16.
Proof.
  unfold rfc_words, words_of. change (range 0 15) with (seqZ 0 (Z.of_nat 16)). apply map_ext_in. intros i Hi.
  apply list_elem_of_In, elem_of_seqZ in Hi. apply rfc_number_le32. lia.
Qed.

Lemma rfc_bytes_eq (n : nat) x : rfc_bytes (Z.of_nat n) x = bytes_of n x.
Proof.
  unfold rfc_bytes, bytes_of, range. replace (Z.of_nat n - 1 - 0 + 1) with (Z.of_nat n) by lia. apply map_ext_in. intros i Hi.
  apply list_elem_of_In, elem_of_seqZ in Hi. change 255 with (Z.ones 8). rewrite Z.land_ones, Z.shiftr_div_pow2 by lia.
  change 256 with (2 ^ 8). by rewrite <- Z.pow_mul_r by lia.
Qed.

(** The words of a block from those of its first part and its tail. *)
Lemma words_of_app l n m :
  words_of l (n + m) = words_of l n ++ map (fun i => le32 l (4 * (Z.of_nat n + i))) (seqZ 0 (Z.of_nat m)).
Proof.
  unfold words_of. rewrite Nat2Z.inj_add, seqZ_app, map_app by lia. f_equal. rewrite Z.add_0_l.
  rewrite <- (Z.add_0_r (Z.of_nat n)) at 1. rewrite <- fmap_add_seqZ, (map_map (A := Z)). done.
Qed.

(** The input of the last transform: 56 bytes from the context and the length. *)
Lemma last_words m bits q l :
  zlen m = 64 * q + 56 -> 0 <= q -> 0 <= bits < 2 ^ 64 -> (forall i, 0 <= i < 56 -> l.[0|i] = m.[0|64 * q + i]) ->
  words_of l 14 ++ [Z.land bits 0xffffffff; Z.shiftr bits 32] = words_of (block (m ++ bytes_of 8 bits) q) 16.
Proof.
  intros Hm Hq Hw Hl. change 16%nat with (14 + 2)%nat. rewrite words_of_app. f_equal.
  - apply words_of_ext. intros i Hi. rewrite block_nth by lia. rewrite znth_app_l by lia. apply Hl. lia.
  - set (p := m ++ bytes_of 8 bits).
    assert (forall i, 0 <= i < 8 -> (block p q).[0|56 + i] = (bytes_of 8 bits).[0|i]) as Hb.
    { intros i Hi. unfold p. rewrite block_nth by lia. rewrite znth_app_r by lia. f_equal. lia. }
    assert (forall o, 0 <= o <= 4 -> le32 (block p q) (56 + o) = le32 (bytes_of 8 bits) o) as Hle.
    { intros o Ho. unfold le32. rewrite <- !Z.add_assoc. rewrite !Hb by lia. done. }
    change (map _ (seqZ 0 (Z.of_nat 2))) with [le32 (block p q) (56 + 0); le32 (block p q) (56 + 4)].
    rewrite !Hle, le32_bytes_lo, le32_bytes_hi by lia. f_equal; [|f_equal].
    + change 0xffffffff with (Z.ones 32). by rewrite Z.land_ones.
    + rewrite Z.shiftr_div_pow2 by lia. rewrite (Z.mod_small (_ / _)); [done|]. split; [apply Z.div_pos; lia|].
      apply Z.div_lt_upper_bound; lia.
Qed.

(** The blocks of the RFC are those of the code. *)
Lemma rfc_blocks_eq msg n :
  foldl (fun st k => rfc_transform st (rfc_words (block msg k))) rfc_init (range 0 (n - 1)) = hash_blocks msg n.
Proof. apply foldl_ext_in. intros st k _. by rewrite Transform_rfc, rfc_words_eq. Qed.

(** The length of the padding. *)
Lemma pad_length n :
  let padLen := if n mod 64 <? 56 then 56 - n mod 64 else 120 - n mod 64 in
  padLen - 1 = (55 - n) mod 64 /\ 1 <= padLen <= 64 /\ n + padLen = 64 * ((n + padLen) / 64) + 56.
Proof.
  cbv zeta. destruct (divmod64 n) as [En Hm]. destruct (Z.ltb_spec (n mod 64) 56).
  - split; [apply (Z.mod_unique_pos _ _ (- (n / 64))); lia|]. split; [lia|]. destruct (divmod64 (n + (56 - n mod 64))). lia.
  - split; [apply (Z.mod_unique_pos _ _ (- (n / 64) - 1)); lia|]. split; [lia|]. destruct (divmod64 (n + (120 - n mod 64))). lia.
Qed.

Lemma MD5Final_rep msg ctx : ctx_rep msg ctx -> zlen msg < 2 ^ 61 -> MD5Final ctx = Some (rfc_md5 msg).
Proof.
  intros Hc Hmax. pose proof (zlen_nonneg msg) as Hn. unfold MD5Final, rfc_md5. rewrite (proj1 Hc), mdi_of by done.
  pose proof (pad_length (zlen msg)) as (Epad & Hpad & Hq). set (padLen := if zlen msg mod 64 <? 56 then _ else _) in *.
  destruct (MD5Update_rep msg ctx PADDING padLen Hc) as (ctx' & -> & _ & _ & Est & Hlen & Hin); [change (zlen PADDING) with 64; lia|lia|].
  cbn [mbind option_bind]. rewrite pad_bytes in Est, Hin by lia. rewrite Epad in Est, Hin. set (pad := 0x80 :: replicate _ 0) in *.
  pose proof (Z.mod_pos_bound (55 - zlen msg) 64 ltac:(lia)) as Hpb.
  assert (rfc_pad msg = (msg ++ pad) ++ bytes_of 8 (8 * zlen msg)) as Ep.
  { unfold rfc_pad, pad. rewrite <- (rfc_bytes_eq 8). by rewrite <- app_assoc. }
  assert (zlen (msg ++ pad) = zlen msg + padLen) as Elp.
  { rewrite zlen_app. f_equal. unfold pad. rewrite zlen_pad; lia. }
  rewrite Ep. rewrite <- Elp in Hq. set (q := zlen (msg ++ pad) / 64) in *.
  assert (zlen ((msg ++ pad) ++ bytes_of 8 (8 * zlen msg)) / 64 = q + 1) as ->.
  { rewrite zlen_app, zlen_bytes. symmetry. apply (Z.div_unique_pos _ _ _ 0); lia. }
  assert (zlen (msg ++ pad) mod 64 = 56) as Eqm by (destruct (divmod64 (zlen (msg ++ pad))); lia).
  rewrite rfc_blocks_eq. rewrite hash_blocks_snoc by lia. rewrite hash_blocks_app by lia. rewrite <- Est.
  unfold wrap. rewrite Z.mod_small by lia. rewrite <- (last_words (msg ++ pad) (8 * zlen msg) q (inb ctx')); try done; try lia.
  - destruct (Transform _ _) as [[[a b] c] d]. by rewrite !(rfc_bytes_eq 4).
  - intros i Hi. apply Hin. lia.
Qed.

Lemma ctx_rep_init junk : ctx_rep [] (mkCtx 0 MD5_init (map junk (range 0 63))).
Proof.
  split; [done|]. split; [done|]. split; [done|]. split; [done|]. intros i Hi. change (0 <= i < 0) in Hi. lia.
Qed.

(** C36: [HashMD5] computes the digest of RFC 1321 of the first [len] bytes of its buffer, for every
    [int] length that is not negative and not beyond the buffer, whatever the stack held before: the
    unrolled transform is the loop of the RFC, the streaming update keeps the digest of the bytes
    seen, and the padding is the one prescribed.  The digest of the RFC is defined on its own, with
    no function or constant of the code. *)
Theorem HashMD5_is_RFC1321 (junk : Z -> Z) (data : list Z) (len : Z) (Hlen : 0 <= len <= zlen data) (Hint : len < 2 ^ 31) :
  HashMD5 junk data len = Some (rfc_md5 (take (Z.to_nat len) data)).
Proof.
  unfold HashMD5. rewrite wrap_id by (unfold is_word; lia).
  destruct (MD5Update_rep [] _ data len (ctx_rep_init junk)) as (ctx & -> & Hc); [lia|lia|].
  apply MD5Final_rep; [done|]. unfold zlen in *. rewrite length_take. lia.
Qed.

Lemma HashMD5_is_RFC1321_witness : HashMD5 (fun i => i) [1; 2; 3; 9] 3 = Some (rfc_md5 [1; 2; 3]).
Proof. apply (HashMD5_is_RFC1321 (fun i => i) [1; 2; 3; 9] 3); unfold zlen; simpl; lia. Defined.

(** Hashing in pieces is hashing the whole: after any sequence of updates from the initial
    context, [MD5Final] gives the digest of the concatenation. *)
Definition update_piece (c : option MD5_CTX_bt) (piece : list Z) : option MD5_CTX_bt :=
  ctx ← c; MD5Update ctx piece (zlen piece).

Theorem MD5Update_streaming (junk : Z -> Z) (pieces : list (list Z))
    (Hpieces : Forall (fun p => zlen p < 2 ^ 32) pieces) (Hlen : zlen (concat pieces) < 2 ^ 61) :
  (ctx ← foldl update_piece (Some (mkCtx 0 MD5_init (map junk (range 0 63)))) pieces; MD5Final ctx)
  = Some (rfc_md5 (concat pieces)).
Proof.
  assert (forall l m ctx, Forall (fun p => zlen p < 2 ^ 32) l -> ctx_rep m ctx ->
            exists ctx', foldl update_piece (Some ctx) l = Some ctx' /\ ctx_rep (m ++ concat l) ctx') as Hfold.
  { induction l as [|x l IH]; intros m ctx Hl Hc; [exists ctx; by rewrite app_nil_r|]. apply Forall_cons in Hl as [Hx Hl].
    cbn [foldl concat update_piece mbind option_bind].
    destruct (MD5Update_rep m ctx x (zlen x) Hc) as (c1 & -> & H1); [pose proof (zlen_nonneg x); lia|done|].
    replace (take (Z.to_nat (zlen x)) x) with x in H1 by (rewrite take_ge; [done|unfold zlen; lia]).
    rewrite app_assoc. by apply IH. }
  destruct (Hfold pieces [] _ Hpieces (ctx_rep_init junk)) as (ctx & -> & Hc). by apply MD5Final_rep.
Qed.

Lemma MD5Update_streaming_witness :
  (ctx ← foldl update_piece (Some (mkCtx 0 MD5_init (map (fun i => i) (range 0 63)))) [[1; 2]; []; [3]]; MD5Final ctx)
  = Some (rfc_md5 (concat [[1; 2]; []; [3]])).
Proof. apply MD5Update_streaming; [by repeat constructor|done]. Defined.
