(* ===== verification/Doubles.v ===== *)
(** * The double arithmetic of the rough indexes

    The histograms divide the range of a pack into 1024 intervals with [double] arithmetic.
    A finite IEEE 754 binary64 number is an integer multiple of [2 ^ -1074]: here that
    multiple, [DFin k].  The operations are the exact rational results rounded to nearest,
    ties to even, to 53 significant bits (fewer below [2 ^ -1022]); a magnitude of [2 ^ 1024]
    or more is an infinity.  The sign of a zero is not kept: no code modelled here divides
    by a negative zero. *)

From S2P Require Import Prelude.

Inductive double := DFin (k : Z) | DInf (neg : bool) | DNaN.

Definition unit_exp : Z := 1074.
Definition one_units : Z := 2 ^ 1074.
Definition max_units : Z := 2 ^ 2098.

(** The integer nearest to [n / d], ties to even. *)
Definition round_half_even (n d : Z) : Z :=
  let q := n / d in
  let r := n mod d in
  if 2 * r <? d then q
  else if d <? 2 * r then q + 1
  else if Z.even q then q else q + 1.

(** [n / d] rounded to 53 significant bits. *)
Definition excess (q : Z) : Z := Z.max 0 (Z.log2 q - 52).

Definition round53 (n d : Z) : Z :=
  let k := excess (n / d) in round_half_even n (d * 2 ^ k) * 2 ^ k.

Definition round_units (n d : Z) : double :=
  let m := Z.sgn n * round53 (Z.abs n) d in
  if max_units <=? Z.abs m then DInf (n <? 0) else DFin m.

(** Conversion of an integer, subtraction, division, and the conversion to [int], which is
    undefined for a number outside the type. *)
Definition double_of_int (z : Z) : double := round_units (z * one_units) 1.

Definition dsub (a b : double) : double :=
  match a, b with
  | DFin x, DFin y => round_units (x - y) 1
  | DNaN, _ | _, DNaN => DNaN
  | DInf s, DInf t => if Bool.eqb s t then DNaN else DInf s
  | DInf s, DFin _ => DInf s
  | DFin _, DInf t => DInf (negb t)
  end.

Definition ddiv (a b : double) : double :=
  match a, b with
  | DFin x, DFin y =>
      if y =? 0 then if x =? 0 then DNaN else DInf (x <? 0)
      else round_units (Z.sgn y * x * one_units) (Z.abs y)
  | DNaN, _ | _, DNaN => DNaN
  | DInf _, DInf _ => DNaN
  | DInf s, DFin y => DInf (xorb s (y <? 0))
  | DFin _, DInf _ => DFin 0
  end.

Definition int_of_double (a : double) : option Z :=
  match a with
  | DFin k =>
      let z := Z.quot k one_units in
      if (- 2 ^ 31 <=? z) && (z <? 2 ^ 31) then Some z else None
  | _ => None
  end.

Definition dlt (a b : double) : bool :=
  match a, b with
  | DNaN, _ | _, DNaN => false
  | DFin x, DFin y => x <? y
  | DInf s, DInf t => s && negb t
  | DInf s, DFin _ => s
  | DFin _, DInf t => negb t
  end.

Definition deq (a b : double) : bool :=
  match a, b with
  | DFin x, DFin y => x =? y
  | DInf s, DInf t => Bool.eqb s t
  | _, _ => false
  end.

Definition dle (a b : double) : bool := dlt a b || deq a b.

(** The double whose bit pattern is the 64-bit integer [v], as a pointer cast reads it. *)
Definition double_of_bits (v : Z) : double :=
  let u := wrap64 v in
  let s := Z.testbit u 63 in
  let e := (u / 2 ^ 52) mod 2 ^ 11 in
  let f := u mod 2 ^ 52 in
  if e =? 2047 then if f =? 0 then DInf s else DNaN
  else
    let m := if e =? 0 then f else (2 ^ 52 + f) * 2 ^ (e - 1) in
    DFin (if s then - m else m).

(** ** Rounding to an integer *)

Lemma round_half_even_bounds n d : 0 < d -> n / d <= round_half_even n d <= n / d + 1.
Proof. intros. unfold round_half_even. cmp_solve. destruct (Z.even _); lia. Qed.

Lemma round_half_even_mult m d : 0 < d -> round_half_even (m * d) d = m.
Proof.
  intros. unfold round_half_even. rewrite Z.div_mul, Z.mod_mul by lia. cmp_solve.
Qed.

Lemma round_half_even_mono n1 n2 d :
  0 < d -> n1 <= n2 -> round_half_even n1 d <= round_half_even n2 d.
Proof.
  intros Hd Hn. pose proof (Z.div_le_mono n1 n2 d Hd Hn).
  destruct (Z.eq_dec (n1 / d) (n2 / d)) as [E|].
  - unfold round_half_even. rewrite E.
    assert (n1 mod d <= n2 mod d) by (rewrite !Z.mod_eq by lia; rewrite E; lia).
    destruct (Z.even (n2 / d)); cmp_solve.
  - pose proof (round_half_even_bounds n1 d Hd). pose proof (round_half_even_bounds n2 d Hd). lia.
Qed.

Lemma round_half_even_le n d m : 0 < d -> n <= m * d -> round_half_even n d <= m.
Proof. intros Hd Hn. rewrite <- (round_half_even_mult m d Hd). by apply round_half_even_mono. Qed.

Lemma round_half_even_ge n d m : 0 < d -> m * d <= n -> m <= round_half_even n d.
Proof. intros Hd Hn. rewrite <- (round_half_even_mult m d Hd) at 1. by apply round_half_even_mono. Qed.

(** ** Rounding to 53 bits *)

Lemma pow2_pos k : 0 <= k -> 0 < 2 ^ k.
Proof. intros. by apply Z.pow_pos_nonneg. Qed.
#[export] Hint Resolve pow2_pos : bh.

Lemma excess_nonneg q : 0 <= excess q.
Proof. unfold excess. lia. Qed.

Lemma excess_mono a b : a <= b -> excess a <= excess b.
Proof. intros. unfold excess. pose proof (Z.log2_le_mono a b). lia. Qed.

Lemma log2_lt_pow q L : 0 <= q -> Z.log2 q < L -> q < 2 ^ L.
Proof.
  intros Hq HL. destruct (Z.eq_dec q 0) as [->|].
  - apply pow2_pos. pose proof (Z.log2_nonneg 0). lia.
  - apply Z.log2_lt_pow2; lia.
Qed.

(** Between two powers of two the rounding stays between them. *)
Lemma round53_le n d L :
  0 <= n -> 0 < d -> excess (n / d) <= L -> n <= 2 ^ L * d -> round53 n d <= 2 ^ L.
Proof.
  intros Hn Hd HL Hle. unfold round53. set (k := excess (n / d)) in *.
  pose proof (excess_nonneg (n / d)). fold k in H.
  pose proof (pow2_pos k H). pose proof (pow2_pos L ltac:(lia)).
  assert (2 ^ L = 2 ^ (L - k) * 2 ^ k) as E by (rewrite <- Z.pow_add_r by lia; f_equal; lia).
  rewrite E. apply Z.mul_le_mono_nonneg_r; [lia|].
  apply round_half_even_le; [nia|]. rewrite E in Hle. nia.
Qed.

Lemma round53_ge n d L :
  0 <= n -> 0 < d -> excess (n / d) <= L -> 2 ^ L * d <= n -> 2 ^ L <= round53 n d.
Proof.
  intros Hn Hd HL Hle. unfold round53. set (k := excess (n / d)) in *.
  pose proof (excess_nonneg (n / d)). fold k in H.
  pose proof (pow2_pos k H). pose proof (pow2_pos L ltac:(lia)).
  assert (2 ^ L = 2 ^ (L - k) * 2 ^ k) as E by (rewrite <- Z.pow_add_r by lia; f_equal; lia).
  rewrite E. apply Z.mul_le_mono_nonneg_r; [lia|].
  apply round_half_even_ge; [nia|]. rewrite E in Hle. nia.
Qed.

Lemma round53_mono n1 n2 d : 0 < d -> 0 <= n1 <= n2 -> round53 n1 d <= round53 n2 d.
Proof.
  intros Hd Hn. pose proof (Z.div_le_mono n1 n2 d Hd ltac:(lia)) as Hq.
  pose proof (Z.div_pos n1 d ltac:(lia) Hd) as Hq1.
  pose proof (excess_mono _ _ Hq) as Hk.
  destruct (Z.eq_dec (excess (n1 / d)) (excess (n2 / d))) as [E|Hne].
  - unfold round53. rewrite E. pose proof (pow2_pos _ (excess_nonneg (n2 / d))).
    apply Z.mul_le_mono_nonneg_r; [lia|]. apply round_half_even_mono; [nia|lia].
  - assert (0 < excess (n2 / d)) by (pose proof (excess_nonneg (n1 / d)); lia).
    assert (0 < n2 / d).
    { destruct (Z.eq_dec (n2 / d) 0) as [E0|]; [rewrite E0 in *; unfold excess in *; simpl in *; lia|lia]. }
    remember (Z.log2 (n2 / d)) as L eqn:HL.
    assert (excess (n2 / d) = L - 52) as EL by (unfold excess in *; lia).
    assert (Z.log2 (n1 / d) < L) by (unfold excess in *; lia).
    transitivity (2 ^ L).
    + apply round53_le; [lia|lia|lia|].
      pose proof (log2_lt_pow (n1 / d) L Hq1 ltac:(lia)).
      pose proof (Z.mul_succ_div_gt n1 d Hd). nia.
    + apply round53_ge; [lia|lia|lia|].
      pose proof (Z.log2_spec (n2 / d) ltac:(lia)) as [Hl _]. rewrite <- HL in Hl.
      pose proof (Z.mul_div_le n2 d Hd). nia.
Qed.

Lemma round53_nonneg n d : 0 <= n -> 0 < d -> 0 <= round53 n d.
Proof.
  intros Hn Hd. unfold round53. pose proof (pow2_pos _ (excess_nonneg (n / d))).
  apply Z.mul_nonneg_nonneg; [|lia]. apply round_half_even_ge; nia.
Qed.

(** ** Numbers of 53 bits round to themselves *)

Definition repr53 (x : Z) : Prop := 0 <= x /\ (2 ^ excess x | x).

Lemma round53_exact x d : 0 < d -> repr53 x -> round53 (x * d) d = x.
Proof.
  intros Hd [Hx [c Hc]]. unfold round53. rewrite Z.div_mul by lia.
  pose proof (pow2_pos _ (excess_nonneg x)).
  replace (x * d) with (c * (d * 2 ^ excess x)) by (rewrite Hc at 2; ring).
  rewrite round_half_even_mult by nia. lia.
Qed.

Lemma repr53_small x : 0 <= x < 2 ^ 53 -> repr53 x.
Proof.
  intros. split; [lia|]. unfold excess.
  assert (Z.log2 x < 53).
  { destruct (Z.eq_dec x 0) as [->|]; [done|]. apply Z.log2_lt_pow2; lia. }
  replace (Z.max 0 (Z.log2 x - 52)) with 0 by lia. apply Z.divide_1_l.
Qed.

Lemma repr53_shift x k : 0 <= k -> repr53 x -> repr53 (x * 2 ^ k).
Proof.
  intros Hk [Hx Hd]. pose proof (pow2_pos k Hk). split; [nia|].
  destruct (Z.eq_dec x 0) as [->|]; [by apply Z.divide_0_r|].
  transitivity (2 ^ excess x * 2 ^ k).
  - rewrite <- Z.pow_add_r by (pose proof (excess_nonneg x); lia).
    exists (2 ^ (excess x + k - excess (x * 2 ^ k))).
    rewrite <- Z.pow_add_r; [f_equal; lia| |apply excess_nonneg].
    unfold excess. rewrite Z.log2_mul_pow2 by lia. lia.
  - by apply Z.mul_divide_mono_r.
Qed.

Lemma repr53_unshift x k : 0 <= k -> 2 ^ 52 <= x -> repr53 (x * 2 ^ k) -> repr53 x.
Proof.
  intros Hk Hx [_ Hd]. pose proof (pow2_pos k Hk). split; [lia|].
  assert (52 <= Z.log2 x) by (apply Z.log2_le_pow2; lia).
  assert (excess (x * 2 ^ k) = excess x + k) as E.
  { unfold excess. rewrite Z.log2_mul_pow2 by lia. lia. }
  rewrite E, Z.pow_add_r in Hd by (auto using excess_nonneg).
  apply Z.mul_divide_cancel_r in Hd; [done|lia].
Qed.

Lemma round53_repr n d : 0 <= n -> 0 < d -> repr53 (round53 n d).
Proof.
  intros Hn Hd. split; [by apply round53_nonneg|].
  pose proof (Z.div_pos n d Hn Hd) as Hq. unfold round53. set (k := excess (n / d)).
  pose proof (excess_nonneg (n / d)) as Hk. fold k in Hk. pose proof (pow2_pos k Hk).
  set (m := round_half_even n (d * 2 ^ k)).
  assert (0 <= m) by (apply round_half_even_ge; nia).
  assert (m <= 2 ^ 53) as Hm.
  { apply round_half_even_le; [nia|].
    assert (n / d < 2 ^ (k + 53)).
    { apply log2_lt_pow; [done|]. unfold k, excess. lia. }
    rewrite Z.pow_add_r in * by lia. pose proof (Z.mul_succ_div_gt n d Hd). nia. }
  destruct (Z.eq_dec m (2 ^ 53)) as [->|Hlt].
  - rewrite <- Z.pow_add_r by lia. unfold excess. rewrite Z.log2_pow2 by lia.
    exists (2 ^ (53 + k - Z.max 0 (53 + k - 52))). rewrite <- Z.pow_add_r by lia. f_equal. lia.
  - apply (repr53_shift m k Hk). apply repr53_small. lia.
Qed.

(** ** Division of a range into 1024 intervals *)

Lemma one_units_pos : 0 < one_units.
Proof. reflexivity. Qed.
#[global] Opaque one_units max_units.

Lemma round_units_nonneg n d :
  0 <= n -> 0 < d -> round53 n d < max_units -> round_units n d = DFin (round53 n d).
Proof.
  intros Hn Hd Hm. unfold round_units. rewrite (Z.abs_eq n) by done.
  pose proof (round53_nonneg n d Hn Hd).
  assert (Z.sgn n * round53 n d = round53 n d) as ->.
  { destruct (Z.eq_dec n 0) as [->|]; [|rewrite Z.sgn_pos by lia; lia].
    pose proof (round53_exact 0 d Hd ltac:(by apply repr53_small)) as E.
    rewrite Z.mul_0_l in E. lia. }
  rewrite Z.abs_eq by done. destruct (Z.leb_spec max_units (round53 n d)); [lia|done].
Qed.

Lemma repr53_pow2 k : 0 <= k -> repr53 (2 ^ k).
Proof.
  intros. rewrite <- (Z.mul_1_l (2 ^ k)). apply repr53_shift; [done|]. by apply repr53_small.
Qed.

Lemma round53_upper n d B :
  0 < d -> repr53 B -> 0 <= n <= B * d -> round53 n d <= B.
Proof.
  intros Hd HB Hn. rewrite <- (round53_exact B d Hd HB). apply round53_mono; [done|]. done.
Qed.

Lemma one_units_pow : one_units = 2 ^ 1074.
Proof. reflexivity. Qed.

Lemma max_units_pow : max_units = 2 ^ 1024 * one_units.
Proof. rewrite one_units_pow, <- Z.pow_add_r by lia. reflexivity. Qed.

Lemma double_of_int_spec z :
  0 <= z < 2 ^ 64 ->
  double_of_int z = DFin (round53 (z * one_units) 1)
  /\ 0 <= round53 (z * one_units) 1 <= 2 ^ 64 * one_units.
Proof.
  intros Hz. pose proof one_units_pos.
  assert (0 <= round53 (z * one_units) 1 <= 2 ^ 64 * one_units) as Hb.
  { split; [apply round53_nonneg; nia|]. apply round53_upper; [lia| |nia].
    rewrite one_units_pow, <- Z.pow_add_r by lia. by apply repr53_pow2. }
  split; [|done]. unfold double_of_int. apply round_units_nonneg; [nia|lia|].
  rewrite max_units_pow. apply Z.le_lt_trans with (2 ^ 64 * one_units); [apply Hb|].
  by apply Z.mul_lt_mono_pos_r.
Qed.

Lemma double_of_int_small z :
  0 <= z < 2 ^ 53 -> double_of_int z = DFin (z * one_units).
Proof.
  intros. destruct (double_of_int_spec z ltac:(lia)) as [-> _]. f_equal.
  rewrite <- (Z.mul_1_r (z * one_units)) at 1. apply round53_exact; [lia|].
  rewrite one_units_pow. apply repr53_shift; [lia|]. by apply repr53_small.
Qed.

(** The number of the interval, out of 1024, that [x] units fall into when the whole range
    has [w] units. *)
Definition slot (x w : Z) : Z := round53 (x * one_units) (w / 1024) / one_units.

Section Slots.
Context (w : Z) (Hrepr : repr53 w) (Hw : 2 ^ 62 <= w < max_units).

Lemma width_split : w = w / 1024 * 2 ^ 10 /\ 2 ^ 52 <= w / 1024.
Proof using Hrepr Hw.
  split; [|apply Z.div_le_lower_bound; lia].
  destruct Hrepr as [_ Hd]. change 1024 with (2 ^ 10).
  assert (62 <= Z.log2 w) by (apply Z.log2_le_pow2; lia).
  assert (2 ^ 10 | w) as [c ->]; [|by rewrite Z.div_mul by lia].
  etransitivity; [|exact Hd]. exists (2 ^ (excess w - 10)).
  rewrite <- Z.pow_add_r; [f_equal; lia| |lia]. unfold excess. lia.
Qed.

Lemma interval_len_spec : ddiv (DFin w) (double_of_int 1024) = DFin (w / 1024).
Proof using Hrepr Hw.
  pose proof one_units_pos. destruct width_split as [E Hy].
  rewrite double_of_int_small by lia. unfold ddiv.
  destruct (Z.eqb_spec (1024 * one_units) 0); [lia|].
  rewrite Z.sgn_pos, Z.abs_eq by lia.
  assert (round53 (1 * w * one_units) (1024 * one_units) = w / 1024) as Er.
  { replace (1 * w * one_units) with (w / 1024 * (1024 * one_units))
      by (rewrite E at 2; change (2 ^ 10) with 1024; ring).
    apply round53_exact; [lia|]. apply (repr53_unshift _ 10); [lia|done|]. by rewrite <- E. }
  rewrite round_units_nonneg; rewrite ?Er; [done|nia|lia|lia].
Qed.

Lemma slot_mono x y : 0 <= x <= y -> slot x w <= slot y w.
Proof using Hrepr Hw.
  intros. destruct width_split. unfold slot. pose proof one_units_pos.
  apply Z.div_le_mono; [lia|]. apply round53_mono; [lia|nia].
Qed.

Lemma quotient_bounds x :
  0 <= x <= w -> 0 <= round53 (x * one_units) (w / 1024) <= 1024 * one_units.
Proof using Hrepr Hw.
  intros Hx. destruct width_split as [E Hy]. pose proof one_units_pos.
  split; [apply round53_nonneg; nia|].
  apply round53_upper; [lia| |change (2 ^ 10) with 1024 in E; nia].
  rewrite one_units_pow. change 1024 with (2 ^ 10). rewrite <- Z.pow_add_r by lia.
  by apply repr53_pow2.
Qed.

Lemma slot_bounds x : 0 <= x <= w -> 0 <= slot x w <= 1024.
Proof using Hrepr Hw.
  intros Hx. pose proof (quotient_bounds x Hx). pose proof one_units_pos. unfold slot.
  split; [apply Z.div_pos; lia|]. apply Z.div_le_upper_bound; lia.
Qed.

Lemma slot_spec x :
  0 <= x <= w ->
  int_of_double (ddiv (DFin x) (ddiv (DFin w) (double_of_int 1024))) = Some (slot x w).
Proof using Hrepr Hw.
  intros Hx. rewrite interval_len_spec. destruct width_split as [E Hy].
  pose proof (quotient_bounds x Hx) as Hq. pose proof one_units_pos. unfold ddiv.
  destruct (Z.eqb_spec (w / 1024) 0); [lia|]. rewrite Z.sgn_pos, Z.abs_eq by lia.
  replace (1 * x * one_units) with (x * one_units) by ring.
  rewrite round_units_nonneg; [|nia|lia|].
  2:{ rewrite max_units_pow. apply Z.le_lt_trans with (1024 * one_units); [apply Hq|].
      by apply Z.mul_lt_mono_pos_r. }
  unfold int_of_double. rewrite Z.quot_div_nonneg by lia. fold (slot x w).
  pose proof (slot_bounds x Hx). change (2 ^ 31) with 2147483648. cmp_solve.
Qed.
End Slots.
