(* ===== verification/MemBlock.v ===== *)
(** * Memory blocks of the rough indexes

    Both kinds of rough index keep their bits in separately allocated arrays of 32-bit words.
    A block is the list of its words; an access outside of it is [None].  The unwritten words
    of a block that [rc_realloc] extends are the argument [junk]. *)

From S2P Require Import Prelude FilterBlock FilterDefs.

Definition MAX_PACK_ROW_SIZE : Z := 0x10000.

Definition zget {A : Type} (l : list A) (i : Z) : option A :=
  if i <? 0 then None else l !! Z.to_nat i.

Definition all_ones : Z := 0xFFFFFFFF.

(** [memcpy] or [memset] of the words [ws] at word offset [off] of a block. *)
Definition write_words (buf : list Z) (off : Z) (ws : list Z) : option (list Z) :=
  if (0 <=? off) && (off + zlen ws <=? zlen buf)
  then Some (take (Z.to_nat off) buf ++ ws ++ drop (Z.to_nat (off + zlen ws)) buf)
  else None.

Definition realloc (junk : Z -> Z) (buf : list Z) (n : Z) : list Z :=
  take (Z.to_nat n) (buf ++ map (fun i => wrap32 (junk i)) (range (zlen buf) (n - 1))).

(** ** Reads and writes of block words *)

Lemma zget_znth {A : Type} (d : A) (l : list A) i :
  0 <= i < zlen l -> zget l i = Some (l.[d|i]).
Proof. intros. unfold zget. destruct (Z.ltb_spec i 0); [lia|]. by apply znth_lookup. Qed.

Lemma write_words_spec buf off ws :
  0 <= off -> off + zlen ws <= zlen buf ->
  exists buf', write_words buf off ws = Some buf' /\ zlen buf' = zlen buf
    /\ forall k, 0 <= k < zlen buf ->
         buf'.[0|k] = if (off <=? k) && (k <? off + zlen ws) then ws.[0|k - off] else buf.[0|k].
Proof.
  intros Hoff Hlen. unfold write_words. pose proof (zlen_nonneg ws).
  destruct (Z.leb_spec 0 off); [|lia]. destruct (Z.leb_spec (off + zlen ws) (zlen buf)); [|lia].
  eexists. split; [reflexivity|].
  assert (zlen (take (Z.to_nat off) buf) = off) as Htake.
  { unfold zlen in *. rewrite length_take. lia. }
  split.
  - rewrite !zlen_app, Htake. unfold zlen in *. rewrite length_drop. lia.
  - intros k Hk. destruct (Z.leb_spec off k) as [Hge|Hlt].
    + rewrite znth_app_r by lia. rewrite Htake. destruct (Z.ltb_spec k (off + zlen ws)); simpl.
      * by rewrite znth_app_l by lia.
      * rewrite znth_app_r by lia. unfold znth, zlen in *.
        destruct (Z.ltb_spec (k - off - Z.of_nat (length ws)) 0); [lia|].
        destruct (Z.ltb_spec k 0); [lia|]. rewrite !nth_lookup, lookup_drop. do 2 f_equal. lia.
    + simpl. rewrite znth_app_l by lia. unfold znth. destruct (Z.ltb_spec k 0); [lia|].
      rewrite !nth_lookup, lookup_take_lt by lia. done.
Qed.

Lemma realloc_spec junk buf n :
  zlen buf <= n ->
  zlen (realloc junk buf n) = n
  /\ forall k, 0 <= k < zlen buf -> (realloc junk buf n).[0|k] = buf.[0|k].
Proof.
  intros Hn. unfold realloc. pose proof (zlen_nonneg buf).
  assert (zlen (map (fun i => wrap32 (junk i)) (range (zlen buf) (n - 1))) = n - zlen buf) as Hl.
  { unfold zlen in *. rewrite length_map. unfold range. rewrite length_seqZ. lia. }
  rewrite take_ge by (unfold zlen in *; rewrite length_app; lia).
  split; [rewrite zlen_app, Hl; lia|]. intros k Hk. by rewrite znth_app_l by lia.
Qed.

Lemma zlen_resize {A : Type} (n : Z) (x : A) l : 0 <= n -> zlen (resize (Z.to_nat n) x l) = n.
Proof. intros. unfold zlen. rewrite length_resize. lia. Qed.

Lemma znth_resize {A : Type} (d x : A) n l k :
  0 <= k < zlen l -> zlen l <= n -> (resize (Z.to_nat n) x l).[d|k] = l.[d|k].
Proof.
  intros Hk Hn. unfold znth, zlen in *. destruct (Z.ltb_spec k 0); [lia|].
  rewrite !nth_lookup, lookup_resize by lia. done.
Qed.

(** Filling the entries [a .. b] of an array with the same value. *)
Lemma fill_range {A : Type} (d x : A) (l : list A) a b :
  0 <= a -> b < zlen l ->
  let l' := foldl (fun bs i => bs.[i <- x]) l (range a b) in
  zlen l' = zlen l
  /\ forall k, 0 <= k < zlen l -> l'.[d|k] = if (a <=? k) && (k <=? b) then x else l.[d|k].
Proof.
  intros Ha Hb. simpl. destruct (Z.lt_ge_cases b a).
  { rewrite range_nil by lia. split; [done|]. intros k Hk. simpl. cmp_solve. }
  pose proof (foldl_range (fun bs i => bs.[i <- x])
    (fun i l' => zlen l' = zlen l /\ forall k, 0 <= k < zlen l ->
        l'.[d|k] = if (a <=? k) && (k <=? i - 1) then x else l.[d|k]) a b l) as Hf.
  destruct Hf as [Hl Hk]; [lia| | |].
  - split; [done|]. intros k Hk. cmp_solve.
  - intros i l' Hi [Hl Hk]. split; [by rewrite zlen_zupd|]. intros k Hk'.
    rewrite znth_zupd by lia. rewrite Hk by done. cmp_solve.
  - split; [done|]. intros k Hk'. rewrite Hk by done. replace (b + 1 - 1) with b by lia. done.
Qed.

(** ** Conversions to signed integers *)

Lemma swrap_int x : - 2 ^ 31 <= x < 2 ^ 31 -> swrap 32 x = x.
Proof.
  intros. unfold swrap. change (2 ^ (32 - 1)) with 2147483648. change (2 ^ 32) with 4294967296.
  change (2 ^ 31) with 2147483648 in *.
  destruct (Z.lt_ge_cases x 0).
  - replace (x mod 4294967296) with (x + 4294967296)
      by (symmetry; rewrite <- (Z.mod_small (x + 4294967296) 4294967296) by lia;
          rewrite <- (Z.mul_1_l 4294967296) at 2; by rewrite Z.mod_add by lia).
    cmp_solve.
  - rewrite Z.mod_small by lia. cmp_solve.
Qed.

Lemma swrap64_id x : - 2 ^ 63 <= x < 2 ^ 63 -> swrap 64 x = x.
Proof.
  intros. unfold swrap. change (2 ^ (64 - 1)) with (2 ^ 63).
  assert (2 ^ 64 = 2 * 2 ^ 63) as E by reflexivity. rewrite E in *.
  destruct (Z.lt_ge_cases x 0).
  - replace (x mod (2 * 2 ^ 63)) with (x + 2 * 2 ^ 63).
    + cmp_solve.
    + rewrite <- (Z.mod_small (x + 2 * 2 ^ 63) (2 * 2 ^ 63)) by lia.
      replace (x + 2 * 2 ^ 63) with (x + 1 * (2 * 2 ^ 63)) by lia. by rewrite Z.mod_add by lia.
  - rewrite Z.mod_small by lia. cmp_solve.
Qed.

Lemma NoObj2NoPacks_spec n :
  0 < n < 2 ^ 46 -> NoObj2NoPacks n = (n - 1) / 65536 + 1 /\ 1 <= NoObj2NoPacks n < 2 ^ 31 - 32.
Proof.
  intros Hn. unfold NoObj2NoPacks. rewrite Z.shiftr_div_pow2 by lia. change (2 ^ 16) with 65536.
  replace (n + 65535) with (n - 1 + 1 * 65536) by lia. rewrite Z.div_add by lia.
  assert (0 <= (n - 1) / 65536 < 2 ^ 30).
  { split; [apply Z.div_pos; lia|apply Z.div_lt_upper_bound; lia]. }
  rewrite swrap_int by lia. lia.
Qed.
