(* ===== verification/ByteFile.v ===== *)
(** * Files of bytes (system/IBFile.cpp)

    A file open for reading and writing is its bytes and the current position.  A seek past
    the end is allowed and a write there leaves zeros in the gap, as POSIX defines it; a seek
    to a negative position and a read past the end throw ([None]).  Integers are stored
    little endian. *)

From S2P Require Import Prelude.

(** ** Little-endian integers *)

Fixpoint bytes_le (n : nat) (x : Z) : list Z :=
  match n with
  | O => []
  | S n' => x mod 256 :: bytes_le n' (x / 256)
  end.

Fixpoint of_le (l : list Z) : Z :=
  match l with
  | [] => 0
  | b :: r => b + 256 * of_le r
  end.

Definition words_to_bytes (ws : list Z) : list Z := flat_map (bytes_le 4) ws.

Fixpoint bytes_to_words (l : list Z) : list Z :=
  match l with
  | a :: b :: c :: d :: r => of_le [a; b; c; d] :: bytes_to_words r
  | _ => []
  end.

(** ** Files *)

Record IBFile := mkFile { fbytes : list Z; fpos : Z }.

Definition Seek_set (f : IBFile) (p : Z) : option IBFile :=
  if p <? 0 then None else Some (mkFile (fbytes f) p).
Definition Seek_cur (f : IBFile) (d : Z) : option IBFile := Seek_set f (fpos f + d).
Definition Seek_end (f : IBFile) (d : Z) : option IBFile := Seek_set f (zlen (fbytes f) + d).

Definition slice (l : list Z) (off n : Z) : list Z := take (Z.to_nat n) (drop (Z.to_nat off) l).

Definition ReadExact (f : IBFile) (count : Z) : option (list Z * IBFile) :=
  if (0 <? count) && (zlen (fbytes f) <? fpos f + count) then None
  else Some (slice (fbytes f) (fpos f) count, mkFile (fbytes f) (fpos f + count)).

Definition overwrite (l : list Z) (pos : Z) (bs : list Z) : list Z :=
  take (Z.to_nat pos) (l ++ replicate (Z.to_nat (pos - zlen l)) 0)
  ++ bs ++ drop (Z.to_nat (pos + zlen bs)) l.

Definition WriteExact (f : IBFile) (bs : list Z) : IBFile :=
  match bs with
  | [] => f
  | _ => mkFile (overwrite (fbytes f) (fpos f) bs) (fpos f + zlen bs)
  end.

(** ** Encoding lemmas *)

Lemma length_bytes_le n x : length (bytes_le n x) = n.
Proof. revert x. induction n as [|n IH]; intros x; simpl; [done|]. by rewrite IH. Qed.

Lemma of_bytes_le n x : of_le (bytes_le n x) = x mod 2 ^ (8 * Z.of_nat n).
Proof.
  revert x. induction n as [|n IH]; intros x; cbn [bytes_le of_le].
  - by rewrite Z.mod_1_r.
  - rewrite IH. replace (8 * Z.of_nat (S n)) with (8 + 8 * Z.of_nat n) by lia.
    rewrite Z.pow_add_r by lia. change (2 ^ 8) with 256.
    rewrite Z.rem_mul_r by (try apply Z.pow_pos_nonneg; lia). lia.
Qed.

Lemma of_bytes_le_word n x : is_word (8 * Z.of_nat n) x -> of_le (bytes_le n x) = x.
Proof. intros Hx. rewrite of_bytes_le. by apply wrap_id. Qed.

Lemma zlen_words_to_bytes ws : zlen (words_to_bytes ws) = 4 * zlen ws.
Proof.
  unfold words_to_bytes, zlen. induction ws as [|w ws IH]; [done|].
  change (flat_map (bytes_le 4) (w :: ws)) with (bytes_le 4 w ++ flat_map (bytes_le 4) ws).
  rewrite length_app, length_bytes_le. cbn [length]. lia.
Qed.

Lemma words_to_bytes_app a b : words_to_bytes (a ++ b) = words_to_bytes a ++ words_to_bytes b.
Proof. apply flat_map_app. Qed.

Lemma words_bytes_roundtrip ws :
  Forall (is_word 32) ws -> bytes_to_words (words_to_bytes ws) = ws.
Proof.
  induction 1 as [|w ws Hw Hws IH]; [done|]. cbn [words_to_bytes flat_map].
  pose proof (of_bytes_le_word 4 w Hw) as E. cbn [bytes_le] in *. cbn [app bytes_to_words].
  rewrite E. f_equal. exact IH.
Qed.

(** ** Slices of a file *)

Lemma length_slice l off n :
  0 <= off -> 0 <= n -> off + n <= zlen l -> zlen (slice l off n) = n.
Proof. intros. unfold slice, zlen in *. rewrite length_take, length_drop. lia. Qed.

Lemma znth_slice l off n k :
  0 <= off -> 0 <= k < n -> (slice l off n).[0|k] = l.[0|off + k].
Proof.
  intros. unfold slice, znth. destruct (Z.ltb_spec k 0); [lia|]. destruct (Z.ltb_spec (off + k) 0); [lia|].
  rewrite !nth_lookup, lookup_take_lt, lookup_drop by lia. do 2 f_equal. lia.
Qed.

Lemma znth_overflow {A : Type} (d : A) l k : zlen l <= k -> l.[d|k] = d.
Proof.
  intros. unfold znth, zlen in *. destruct (Z.ltb_spec k 0); [lia|]. apply nth_overflow. lia.
Qed.

Lemma zlen_overwrite l pos bs :
  0 <= pos -> zlen (overwrite l pos bs) = Z.max (zlen l) (pos + zlen bs).
Proof.
  intros. unfold overwrite. rewrite !zlen_app. unfold zlen in *.
  rewrite length_take, length_app, length_replicate, length_drop. lia.
Qed.

Lemma znth_overwrite l pos bs k :
  0 <= pos -> 0 <= k ->
  (overwrite l pos bs).[0|k] = if (pos <=? k) && (k <? pos + zlen bs) then bs.[0|k - pos] else l.[0|k].
Proof.
  intros Hpos Hk. unfold overwrite. pose proof (zlen_nonneg l). pose proof (zlen_nonneg bs).
  set (pre := take (Z.to_nat pos) _).
  assert (zlen pre = pos) as Hpre.
  { unfold pre, zlen in *. rewrite length_take, length_app, length_replicate. lia. }
  destruct (Z.leb_spec pos k); simpl.
  - rewrite znth_app_r by lia. rewrite Hpre. destruct (Z.ltb_spec k (pos + zlen bs)).
    + by rewrite znth_app_l by lia.
    + rewrite znth_app_r by lia. unfold znth, zlen in *.
      destruct (Z.ltb_spec (k - pos - Z.of_nat (length bs)) 0); [lia|]. destruct (Z.ltb_spec k 0); [lia|].
      rewrite !nth_lookup, lookup_drop. do 2 f_equal. lia.
  - rewrite znth_app_l by lia. unfold pre. unfold znth at 1. destruct (Z.ltb_spec k 0); [lia|].
    rewrite nth_lookup, lookup_take_lt by lia. destruct (Z.lt_ge_cases k (zlen l)).
    + rewrite lookup_app_l by (unfold zlen in *; lia). by rewrite (znth_lookup 0) by lia.
    + rewrite znth_overflow by lia.
      rewrite lookup_app_r by (unfold zlen in *; lia). rewrite lookup_replicate_2; [done|].
      unfold zlen in *. lia.
Qed.

(** A block written is read back; a block elsewhere is as it was. *)
Lemma slice_overwrite_same l pos bs :
  0 <= pos -> slice (overwrite l pos bs) pos (zlen bs) = bs.
Proof.
  intros Hpos. pose proof (zlen_nonneg bs). apply (znth_ext 0).
  - rewrite length_slice; try lia. rewrite zlen_overwrite by done. lia.
  - rewrite length_slice by (try lia; rewrite zlen_overwrite by done; lia). intros i Hi.
    rewrite znth_slice, znth_overwrite by lia.
    destruct (Z.leb_spec pos (pos + i)), (Z.ltb_spec (pos + i) (pos + zlen bs)); try lia. simpl. f_equal. lia.
Qed.

Lemma slice_overwrite_other l pos bs off n :
  0 <= pos -> 0 <= off -> 0 <= n -> off + n <= zlen l -> off + n <= pos \/ pos + zlen bs <= off ->
  slice (overwrite l pos bs) off n = slice l off n.
Proof.
  intros Hpos Hoff Hn Hl Hd. pose proof (zlen_nonneg bs).
  assert (zlen (slice (overwrite l pos bs) off n) = n)
    by (apply length_slice; [lia|lia|rewrite zlen_overwrite by done; lia]).
  apply (znth_ext 0); [rewrite (length_slice l) by lia; done|]. intros i Hi.
  rewrite !znth_slice, znth_overwrite by lia.
  destruct (Z.leb_spec pos (off + i)), (Z.ltb_spec (off + i) (pos + zlen bs)); simpl; try done; lia.
Qed.

Lemma slice_slice l off n k m :
  0 <= off -> 0 <= k -> 0 <= m -> k + m <= n -> off + n <= zlen l ->
  slice (slice l off n) k m = slice l (off + k) m.
Proof.
  intros. assert (zlen (slice l off n) = n) by (apply length_slice; lia).
  apply (znth_ext 0); [rewrite !length_slice; lia|].
  rewrite length_slice by lia. intros i Hi. rewrite !znth_slice by lia. f_equal. lia.
Qed.

(** The bytes of a run of words of a block. *)
Lemma slice_overwrite_inside c base n off bs :
  0 <= base -> 0 <= off -> off + zlen bs <= n -> base + n <= zlen c ->
  slice (overwrite c (base + off) bs) base n = overwrite (slice c base n) off bs.
Proof.
  intros. pose proof (zlen_nonneg bs). assert (zlen (slice c base n) = n) by (apply length_slice; lia).
  assert (zlen (overwrite c (base + off) bs) = zlen c) by (rewrite zlen_overwrite; lia).
  apply (znth_ext 0); [rewrite zlen_overwrite, length_slice by lia; lia|]. rewrite length_slice by lia. intros k Hk.
  rewrite znth_slice, !znth_overwrite, znth_slice by lia. replace (base + k - (base + off)) with (k - off) by lia.
  destruct (Z.leb_spec (base + off) (base + k)), (Z.leb_spec off k), (Z.ltb_spec (base + k) (base + off + zlen bs)), (Z.ltb_spec k (off + zlen bs)); try lia; done.
Qed.

Lemma slice_words ws k m :
  0 <= k -> 0 <= m -> k + m <= zlen ws ->
  slice (words_to_bytes ws) (4 * k) (4 * m) = words_to_bytes (slice ws k m).
Proof.
  intros Hk Hm Hl. rewrite <- (take_drop (Z.to_nat k) ws) at 1. rewrite words_to_bytes_app.
  rewrite <- (take_drop (Z.to_nat m) (drop (Z.to_nat k) ws)) at 1. rewrite words_to_bytes_app.
  unfold slice.
  assert (zlen (take (Z.to_nat k) ws) = k) as E1 by (unfold zlen in *; rewrite length_take; lia).
  pose proof (zlen_words_to_bytes (take (Z.to_nat k) ws)) as L1. rewrite E1 in L1.
  assert (zlen (take (Z.to_nat m) (drop (Z.to_nat k) ws)) = m) as E2
    by (unfold zlen in *; rewrite length_take, length_drop; lia).
  pose proof (zlen_words_to_bytes (take (Z.to_nat m) (drop (Z.to_nat k) ws))) as L2. rewrite E2 in L2.
  unfold zlen in L1, L2.
  replace (Z.to_nat (4 * k)) with (length (words_to_bytes (take (Z.to_nat k) ws))) by lia.
  rewrite drop_app_length.
  replace (Z.to_nat (4 * m)) with (length (words_to_bytes (take (Z.to_nat m) (drop (Z.to_nat k) ws)))) by lia.
  by rewrite take_app_length.
Qed.
