(* ===== verification/RSIHist.v ===== *)
(** * Histograms of numeric packs (core/RSI_Histogram.cpp)

    A histogram keeps 1024 bits for each pack of 65536 rows: which values strictly between
    the minimum and the maximum of the pack occur (a narrow pack), or which of 1024 intervals
    of that range hold a value.  The bits live in blocks of at most [NO_HISTS_IN_BLOCK]
    packs, each a separately allocated array of 32-bit words.

    Assertions are compiled out, as in a release build.  A result [None] is an exception
    ([BHASSERT]) or undefined behaviour: an access outside an allocated block, a shift by a
    negative amount, a conversion to [int] of a number that does not fit.  Memory that was
    allocated and not written is the argument [junk]; [grow_buffers], [put_bit] and the
    [query_] definitions are the parts of [Alloc], [PutValue] and [IsValue]. *)

From S2P Require Import Prelude BinTools Doubles MemBlock FilterBlock FilterDefs.

Definition RSI_HIST_INT_RES : Z := 32.
Definition RSI_HIST_SIZE : Z := 128.
Definition MAX_HIST_BLOCK_SIZE : Z := 2 ^ 28.
Definition NO_HISTS_IN_BLOCK : Z := MAX_HIST_BLOCK_SIZE / RSI_HIST_SIZE.

Record Hist := mkHist {
  no_obj : Z;
  no_pack : Z;
  start_pack : Z;
  end_pack : Z;
  no_pack_declared : Z;
  hist_buffers : list (list Z);
  fixed : bool
}.

(** ** Allocation *)

Definition Hist_new : Hist := mkHist 0 0 0 0 0 [] false.

Definition Clear (h : Hist) : Hist := mkHist 0 0 0 0 0 [] false.

Definition BlockCount (n : Z) : Z := (n + (NO_HISTS_IN_BLOCK - 1)) / NO_HISTS_IN_BLOCK.

Definition NoPacksInLastBlock (n : Z) : Z :=
  if n mod NO_HISTS_IN_BLOCK =? 0 then NO_HISTS_IN_BLOCK else n mod NO_HISTS_IN_BLOCK.

(** The growth of the buffers from [old_n] to [new_n] packs in memory. *)
Definition grow_buffers (junk : Z -> Z) (bufs : list (list Z)) (old_n new_n old_bc new_bc : Z)
  : option (list (list Z)) :=
  let bufs := resize (Z.to_nat new_bc) [] bufs in
  bufs ← (if 0 <? old_bc then
            let new_last := if old_bc <? new_bc then NO_HISTS_IN_BLOCK else NoPacksInLastBlock new_n in
            let old_last := NoPacksInLastBlock old_n in
            b ← write_words (realloc junk (bufs.[[]|old_bc - 1]) (new_last * RSI_HIST_INT_RES))
                  (old_last * RSI_HIST_INT_RES)
                  (replicate (Z.to_nat ((new_last - old_last) * RSI_HIST_INT_RES)) all_ones);
            Some (bufs.[old_bc - 1 <- b])
          else Some bufs);
  let bufs := foldl (fun bs i =>
                bs.[i <- replicate (Z.to_nat (NO_HISTS_IN_BLOCK * RSI_HIST_INT_RES)) all_ones])
                bufs (range old_bc (new_bc - 2)) in
  Some (if old_bc <? new_bc
        then bufs.[new_bc - 1 <- replicate (Z.to_nat (NoPacksInLastBlock new_n * RSI_HIST_INT_RES)) all_ones]
        else bufs).

Definition Alloc (junk : Z -> Z) (h : Hist) (new_no_pack : Z) : option Hist :=
  if no_pack_declared h <? new_no_pack then
    let new_no_pack_declared := (new_no_pack / 32 + 1) * 32 in
    let old_n := no_pack_declared h - start_pack h in
    let new_n := new_no_pack_declared - start_pack h in
    let old_bc := if 0 <? no_pack_declared h then BlockCount old_n else 0 in
    bufs ← grow_buffers junk (hist_buffers h) old_n new_n old_bc (BlockCount new_n);
    Some (mkHist (no_obj h) (swrap 32 new_no_pack) (start_pack h) (end_pack h)
            (swrap 32 new_no_pack_declared) bufs (fixed h))
  else
    Some (mkHist (no_obj h) (swrap 32 new_no_pack) (start_pack h) (end_pack h)
            (no_pack_declared h) (hist_buffers h) (fixed h)).

Definition set_end (h : Hist) (start_ end_ : Z) : Hist :=
  mkHist (no_obj h) (no_pack h) start_ end_ (no_pack_declared h) (hist_buffers h) (fixed h).

Definition set_obj (h : Hist) (n : Z) : Hist :=
  mkHist n (no_pack h) (start_pack h) (end_pack h) (no_pack_declared h) (hist_buffers h) (fixed h).

Definition set_bufs (h : Hist) (bufs : list (list Z)) : Hist :=
  mkHist (no_obj h) (no_pack h) (start_pack h) (end_pack h) (no_pack_declared h) bufs (fixed h).

Definition Create (junk : Z -> Z) (h : Hist) (_no_obj : Z) (_fixed : bool) : option Hist :=
  h ← Alloc junk (mkHist _no_obj 0 0 0 0 [] _fixed) (NoObj2NoPacks _no_obj);
  Some (set_end h 0 (no_pack h - 1)).

Definition AppendKNs (junk : Z -> Z) (h : Hist) (new_no_pack : Z) : option Hist :=
  if new_no_pack <? no_pack h then None
  else h ← Alloc junk h new_no_pack; Some (set_end h (start_pack h) (no_pack h - 1)).

Definition Update (junk : Z -> Z) (h : Hist) (_new_no_obj : Z) : option Hist :=
  h ← AppendKNs junk h (NoObj2NoPacks _new_no_obj); Some (set_obj h _new_no_obj).

Definition UpToDate (h : Hist) (cur_no_obj pack : Z) : bool :=
  (cur_no_obj =? no_obj h)
  || ((pack <? no_pack h - 1) && (pack <? Z.quot cur_no_obj MAX_PACK_ROW_SIZE)).

(** ** Access to the words of a pack *)

(** [PackBuf]: the block and the word offset where the pack starts. *)
Definition PackBuf (h : Hist) (pack_no : Z) : Z * Z :=
  ((pack_no - start_pack h) / NO_HISTS_IN_BLOCK,
   (pack_no - start_pack h) mod NO_HISTS_IN_BLOCK * RSI_HIST_INT_RES).

Definition get_word (h : Hist) (pack i : Z) : option Z :=
  let '(b, off) := PackBuf h pack in
  buf ← zget (hist_buffers h) b; zget buf (off + i).

Definition read_pack (h : Hist) (pack : Z) : option (list Z) :=
  let '(b, off) := PackBuf h pack in
  buf ← zget (hist_buffers h) b;
  if (0 <=? off) && (off + RSI_HIST_INT_RES <=? zlen buf)
  then Some (take (Z.to_nat RSI_HIST_INT_RES) (drop (Z.to_nat off) buf)) else None.

Definition write_pack (h : Hist) (pack i : Z) (ws : list Z) : option Hist :=
  let '(b, off) := PackBuf h pack in
  buf ← zget (hist_buffers h) b;
  buf ← write_words buf (off + i) ws;
  Some (set_bufs h ((hist_buffers h).[b <- buf])).

Definition ClearPack (h : Hist) (pack : Z) : option Hist :=
  if negb (zlen (hist_buffers h) =? 0) && (start_pack h <=? pack) && (pack <=? end_pack h)
  then write_pack h pack 0 (replicate (Z.to_nat RSI_HIST_INT_RES) 0)
  else Some h.

Definition CopyRepresentation (junk : Z -> Z) (h : Hist) (buf : list Z) (pack : Z) : option Hist :=
  h ← (if (zlen (hist_buffers h) =? 0) || (end_pack h <? pack)
       then AppendKNs junk h (pack + 1) else Some h);
  write_pack h pack 0 buf.

(** ** Queries and updates of the bits *)

Definition bit_at (h : Hist) (pack i : Z) : option bool :=
  if i <? 0 then None
  else w ← get_word h pack (i / 32); Some (negb (Z.land (Z.shiftr w (i mod 32)) 1 =? 0)).

(** The scan [for (i = min_bit; i <= max_bit; i++)] that stops at the first set bit. *)
Fixpoint any_set (h : Hist) (pack : Z) (is_ : list Z) : option bool :=
  match is_ with
  | [] => Some false
  | i :: rest => b ← bit_at h pack i; if (b : bool) then Some true else any_set h pack rest
  end.

Definition ExactMode (pack_min pack_max : Z) : bool :=
  wrap64 (pack_max - pack_min) <=? 32 * RSI_HIST_INT_RES - 2.

Definition IntervalTooLarge (pack_min pack_max : Z) : bool :=
  (pack_min <? - 4611686018427387900) && (4611686018427387900 <? pack_max).

Definition no_intervals : double := double_of_int (32 * RSI_HIST_INT_RES).

(** The bits of the two ends of the query interval; the early answers come first. *)
Definition query_float (min_v max_v pack_min pack_max : Z) : RSValue + option (Z * Z) :=
  let dmin_v := double_of_bits min_v in
  let dmax_v := double_of_bits max_v in
  let dpack_min := double_of_bits pack_min in
  let dpack_max := double_of_bits pack_max in
  if dlt dmax_v dpack_min || dlt dpack_max dmin_v then inl RS_NONE
  else if dle dpack_max dmax_v && dle dmin_v dpack_min then inl RS_ALL
  else if dle dpack_max dmax_v || dle dmin_v dpack_min then inl RS_SOME
  else
    let interval_len := ddiv (dsub dpack_max dpack_min) no_intervals in
    inr (min_bit ← int_of_double (ddiv (dsub dmin_v dpack_min) interval_len);
         max_bit ← int_of_double (ddiv (dsub dmax_v dpack_min) interval_len);
         Some (min_bit, max_bit)).

Definition query_fixed (min_v max_v pack_min pack_max : Z) : RSValue + option (Z * Z) :=
  if (max_v <? pack_min) || (pack_max <? min_v) then inl RS_NONE
  else if (pack_max <=? max_v) && (min_v <=? pack_min) then inl RS_ALL
  else if (pack_max <=? max_v) || (min_v <=? pack_min) then inl RS_SOME
  else if ExactMode pack_min pack_max then
    inr (Some (swrap 32 (min_v - pack_min - 1), swrap 32 (max_v - pack_min - 1)))
  else
    let interval_len := ddiv (double_of_int (swrap 64 (pack_max - pack_min - 1))) no_intervals in
    inr (min_bit ← int_of_double (ddiv (double_of_int (swrap 64 (min_v - pack_min - 1))) interval_len);
         max_bit ← int_of_double (ddiv (double_of_int (swrap 64 (max_v - pack_min - 1))) interval_len);
         Some (min_bit, max_bit)).

Definition IsValue (h : Hist) (min_v max_v pack pack_min pack_max : Z) : option RSValue :=
  if (pack <? start_pack h) || (end_pack h <? pack) then Some RS_SOME
  else if IntervalTooLarge pack_min pack_max || IntervalTooLarge min_v max_v then Some RS_SOME
  else
    match (if fixed h then query_fixed else query_float) min_v max_v pack_min pack_max with
    | inl r => Some r
    | inr None => None
    | inr (Some (min_bit, max_bit)) =>
        if 32 * RSI_HIST_INT_RES <=? max_bit then Some RS_SOME
        else b ← any_set h pack (range min_bit max_bit);
             Some (if (b : bool) then RS_SOME else RS_NONE)
    end.

(** The bit of a value; [inl tt] where the value needs no bit. *)
Definition put_bit (fixed_ : bool) (v pack_min pack_max : Z) : unit + option Z :=
  if fixed_ then
    if (v =? pack_min) || (v =? pack_max) then inl tt
    else if ExactMode pack_min pack_max then inr (Some (swrap 32 (v - pack_min - 1)))
    else
      let interval_len := ddiv (double_of_int (wrap64 (pack_max - pack_min - 1))) no_intervals in
      inr (int_of_double (ddiv (double_of_int (wrap64 (v - pack_min - 1))) interval_len))
  else
    let dv := double_of_bits v in
    let dpack_min := double_of_bits pack_min in
    let dpack_max := double_of_bits pack_max in
    if deq dv dpack_min || deq dv dpack_max then inl tt
    else
      let interval_len := ddiv (dsub dpack_max dpack_min) no_intervals in
      inr (int_of_double (ddiv (dsub dv dpack_min) interval_len)).

Definition PutValue (h : Hist) (v pack pack_min pack_max : Z) : option Hist :=
  if (pack <? start_pack h) || (end_pack h <? pack) then Some h
  else if (v =? NULL_VALUE_64) || IntervalTooLarge pack_min pack_max then Some h
  else
    match put_bit (fixed h) v pack_min pack_max with
    | inl _ => Some h
    | inr None => None
    | inr (Some bit) =>
        if 32 * RSI_HIST_INT_RES <=? bit then Some h
        else if bit <? 0 then None
        else w ← get_word h pack (bit / 32);
             write_pack h pack (bit / 32) [Z.lor w (Z.shiftl 1 (bit mod 32))]
    end.

Definition NoOnes (h : Hist) (pack width : Z) : option Z :=
  if (pack <? start_pack h) || (end_pack h <? pack) then Some 0
  else
    let stop_int := if RSI_HIST_INT_RES * 32 <=? width then RSI_HIST_INT_RES else Z.quot width 32 in
    d ← foldl (fun d i => d ← d; w ← get_word h pack i; Some (d + CalculateBinSum w))
          (Some 0) (range 0 (stop_int - 1));
    let bits_left := Z.rem width 32 in
    if (stop_int <? RSI_HIST_INT_RES) && (0 <? bits_left) then
      last_t ← get_word h pack stop_int;
      let mask := wrap32 (Z.lnot (Z.shiftl 0xFFFFFFFF bits_left)) in
      Some (d + CalculateBinSum (Z.land last_t mask))
    else Some d.

(** The scan of [Intersection] over the values both packs can hold. *)
Fixpoint common_value (h : Hist) (pack pack_min pack_min2 : Z) (vs : list Z) : option bool :=
  match vs with
  | [] => Some false
  | v :: rest =>
      b1 ← bit_at h pack (swrap 32 (v - pack_min - 1));
      b2 ← (if (b1 : bool) then bit_at h pack (swrap 32 (v - pack_min2 - 1)) else Some false);
      if (b2 : bool) then Some true else common_value h pack pack_min pack_min2 rest
  end.

(** Whether a query does not answer [RS_NONE]; the disjunction stops at the first success. *)
Definition possible (r : option RSValue) : option bool := r ← r; Some (negb (RS_is r RS_NONE)).

Fixpoint any_possible (qs : list (option RSValue)) : option bool :=
  match qs with
  | [] => Some false
  | q :: rest => b ← possible q; if (b : bool) then Some true else any_possible rest
  end.

Definition Intersection (h : Hist) (pack pack_min pack_max : Z)
    (sec : Hist) (pack2 pack_min2 pack_max2 : Z) : option bool :=
  if negb (fixed h) || negb (fixed sec) then Some true
  else if IntervalTooLarge pack_min pack_max || IntervalTooLarge pack_min2 pack_max2 then Some true
  else
    b ← any_possible [IsValue sec pack_min pack_min pack2 pack_min2 pack_max2;
                      IsValue sec pack_max pack_max pack2 pack_min2 pack_max2;
                      IsValue h pack_min2 pack_min2 pack pack_min pack_max;
                      IsValue h pack_max2 pack_max2 pack pack_min pack_max];
    if (b : bool) then Some true
    else if ExactMode pack_min pack_max && ExactMode pack_min2 pack_max2 then
      let min_v := if pack_min <? pack_min2 then pack_min2 + 1 else pack_min + 1 in
      let max_v := if pack_max2 <? pack_max then pack_max2 - 1 else pack_max - 1 in
      common_value h pack pack_min pack_min2 (range min_v max_v)
    else Some true.

Definition AppendKN (junk : Z -> Z) (h : Hist) (pack : Z) (hist : Hist) (no_values_to_add : Z) : option Hist :=
  let no_objs_to_add_to_last_DP :=
    if Z.rem (no_obj h) MAX_PACK_ROW_SIZE =? 0 then 0
    else MAX_PACK_ROW_SIZE - Z.rem (no_obj h) MAX_PACK_ROW_SIZE in
  if pack <? no_pack hist then
    h ← AppendKNs junk h (no_pack h + 1);
    h ← (if pack =? no_pack h - 1 then Some h
         else ws ← read_pack hist pack; write_pack h (no_pack h - 1) 0 ws);
    Some (set_obj h (no_obj h + wrap32 (no_objs_to_add_to_last_DP + no_values_to_add)))
  else Some h.

(** ** The shape of the buffers *)

Lemma no_hists_pos : 0 < NO_HISTS_IN_BLOCK.
Proof. reflexivity. Qed.
#[export] Hint Resolve no_hists_pos : bh.
#[global] Opaque NO_HISTS_IN_BLOCK.

(** [n] packs in memory fill the blocks [0 .. BlockCount n - 1]; block [j] has this many
    packs. *)
Definition packs_in (n j : Z) : Z := Z.min NO_HISTS_IN_BLOCK (n - j * NO_HISTS_IN_BLOCK).

Definition bufs_shape (bufs : list (list Z)) (n : Z) : Prop :=
  zlen bufs = BlockCount n
  /\ (forall j, 0 <= j < BlockCount n -> zlen (bufs.[[]|j]) = packs_in n j * 32).

Definition word_of (bufs : list (list Z)) (p i : Z) : Z :=
  (bufs.[[]|p / NO_HISTS_IN_BLOCK]).[0|p mod NO_HISTS_IN_BLOCK * 32 + i].

Section BlockArithmetic.
Abbreviation NO := NO_HISTS_IN_BLOCK.
Implicit Types (n p j : Z).

Lemma block_count_spec n : 0 <= n -> n <= BlockCount n * NO < n + NO /\ 0 <= BlockCount n.
Proof.
  intros. pose proof no_hists_pos. unfold BlockCount.
  pose proof (Z.mul_div_le (n + (NO - 1)) NO ltac:(lia)).
  pose proof (Z.mul_succ_div_gt (n + (NO - 1)) NO ltac:(lia)).
  split; [lia|]. apply Z.div_pos; lia.
Qed.

Lemma last_block_spec n : 0 < n -> NoPacksInLastBlock n = packs_in n (BlockCount n - 1).
Proof.
  intros. pose proof no_hists_pos. unfold NoPacksInLastBlock, packs_in.
  destruct (block_count_spec n ltac:(lia)) as [? ?].
  pose proof (Z.div_mod n NO ltac:(lia)). pose proof (Z.mod_pos_bound n NO ltac:(lia)).
  destruct (Z.eqb_spec (n mod NO) 0).
  - assert (BlockCount n = n / NO) by nia. nia.
  - assert (BlockCount n = n / NO + 1) by nia. nia.
Qed.

Lemma pack_block n p :
  0 <= p < n -> 0 <= p / NO < BlockCount n /\ 0 <= p mod NO < packs_in n (p / NO).
Proof.
  intros Hp. pose proof no_hists_pos. destruct (block_count_spec n ltac:(lia)) as [? ?].
  pose proof (Z.div_mod p NO ltac:(lia)). pose proof (Z.mod_pos_bound p NO ltac:(lia)).
  assert (0 <= p / NO) by (apply Z.div_pos; lia).
  split; [split; [lia|]; nia|]. unfold packs_in. nia.
Qed.

Lemma block_count_mono n n' : n <= n' -> BlockCount n <= BlockCount n'.
Proof. intros. pose proof no_hists_pos. unfold BlockCount. apply Z.div_le_mono; lia. Qed.
End BlockArithmetic.


(** ** Growth keeps the old packs and fills the new ones with ones *)

(** Word [k] of block [j] belongs to the first [n] packs. *)
Definition in_first (n j k : Z) : bool := j * NO_HISTS_IN_BLOCK * 32 + k <? n * 32.

Definition grown (bufs : list (list Z)) (old_n : Z) (b : list Z) (j : Z) : Prop :=
  forall k, 0 <= k < zlen b ->
    b.[0|k] = if in_first old_n j k then (bufs.[[]|j]).[0|k] else all_ones.

Section Growth.
Abbreviation NO := NO_HISTS_IN_BLOCK.
Context (junk : Z -> Z) (bufs : list (list Z)) (old_n new_n : Z).
Context (Hn : 0 <= old_n < new_n) (Hshape : bufs_shape bufs old_n).

Let old_bc := BlockCount old_n.
Let new_bc := BlockCount new_n.

Lemma growth_facts :
  0 <= old_bc <= new_bc /\ 0 < new_bc /\ old_n <= old_bc * NO < old_n + NO
  /\ new_n <= new_bc * NO < new_n + NO.
Proof using Hn.
  pose proof no_hists_pos. destruct (block_count_spec old_n ltac:(lia)).
  destruct (block_count_spec new_n ltac:(lia)).
  pose proof (block_count_mono old_n new_n ltac:(lia)). unfold old_bc, new_bc in *. nia.
Qed.

Lemma ones_grown m j :
  0 <= m -> old_bc <= j -> grown bufs old_n (replicate (Z.to_nat m) all_ones) j.
Proof using Hn.
  intros Hm Hj k. rewrite zlen_replicate by done. intros Hk. rewrite znth_replicate by done.
  pose proof no_hists_pos. destruct growth_facts as (? & ? & ? & ?). unfold in_first.
  destruct (Z.ltb_spec (j * NO * 32 + k) (old_n * 32)); [nia|done].
Qed.

(** The last old block, extended. *)
Lemma extend_last_block new_last :
  0 < old_bc -> new_last = packs_in new_n (old_bc - 1) ->
  exists b, write_words (realloc junk (bufs.[[]|old_bc - 1]) (new_last * 32))
      (NoPacksInLastBlock old_n * 32)
      (replicate (Z.to_nat ((new_last - NoPacksInLastBlock old_n) * 32)) all_ones) = Some b
    /\ zlen b = packs_in new_n (old_bc - 1) * 32 /\ grown bufs old_n b (old_bc - 1).
Proof using Hn Hshape.
  intros Hpos ->. pose proof no_hists_pos. destruct growth_facts as (? & ? & ? & ?).
  assert (0 < old_n) by nia. rewrite last_block_spec by done. fold old_bc.
  destruct Hshape as [Hl Hb]. specialize (Hb (old_bc - 1) ltac:(unfold old_bc in *; lia)).
  assert (0 < packs_in old_n (old_bc - 1) <= packs_in new_n (old_bc - 1)) by (unfold packs_in; lia).
  destruct (realloc_spec junk (bufs.[[]|old_bc - 1]) (packs_in new_n (old_bc - 1) * 32) ltac:(lia))
    as [Hrl Hrk].
  edestruct (write_words_spec (realloc junk (bufs.[[]|old_bc - 1]) (packs_in new_n (old_bc - 1) * 32))
    (packs_in old_n (old_bc - 1) * 32)
    (replicate (Z.to_nat ((packs_in new_n (old_bc - 1) - packs_in old_n (old_bc - 1)) * 32)) all_ones))
    as (b & Ewr & Hbl & Hbk); [lia|rewrite zlen_replicate by lia; lia|].
  exists b. split; [done|]. split; [lia|]. intros k Hk. rewrite Hbk by lia.
  rewrite zlen_replicate by lia. unfold in_first.
  assert (packs_in old_n (old_bc - 1) = old_n - (old_bc - 1) * NO) as Hp by (unfold packs_in; lia).
  destruct (Z.ltb_spec ((old_bc - 1) * NO * 32 + k) (old_n * 32)).
  - destruct (Z.leb_spec (packs_in old_n (old_bc - 1) * 32) k); [nia|]. simpl. apply Hrk. lia.
  - destruct (Z.leb_spec (packs_in old_n (old_bc - 1) * 32) k); [|nia].
    destruct (Z.ltb_spec k (packs_in old_n (old_bc - 1) * 32
      + (packs_in new_n (old_bc - 1) - packs_in old_n (old_bc - 1)) * 32)); [|lia].
    simpl. apply znth_replicate. lia.
Qed.

Lemma full_block_kept j :
  0 <= j < old_bc - 1 -> zlen (bufs.[[]|j]) = packs_in new_n j * 32 /\ grown bufs old_n (bufs.[[]|j]) j.
Proof using Hn Hshape.
  intros Hj. pose proof no_hists_pos. destruct growth_facts as (? & ? & ? & ?).
  destruct Hshape as [Hl Hb]. specialize (Hb j ltac:(unfold old_bc in *; lia)).
  assert (packs_in old_n j = NO) as E by (unfold packs_in; nia).
  assert (packs_in new_n j = NO) as E' by (unfold packs_in; nia).
  split; [lia|]. intros k Hk. unfold in_first.
  destruct (Z.ltb_spec (j * NO * 32 + k) (old_n * 32)); [done|nia].
Qed.

Lemma grow_buffers_spec :
  exists bufs', grow_buffers junk bufs old_n new_n old_bc new_bc = Some bufs'
    /\ bufs_shape bufs' new_n
    /\ forall j, 0 <= j < new_bc -> grown bufs old_n (bufs'.[[]|j]) j.
Proof using Hn Hshape.
  pose proof no_hists_pos. destruct growth_facts as (? & ? & ? & ?).
  destruct Hshape as [Hl Hb]. fold old_bc in Hl. unfold grow_buffers. unfold RSI_HIST_INT_RES.
  set (bufs0 := resize (Z.to_nat new_bc) [] bufs).
  assert (zlen bufs0 = new_bc) as Hl0 by (apply zlen_resize; lia).
  assert (forall k, 0 <= k < old_bc -> bufs0.[[]|k] = bufs.[[]|k]) as Hk0.
  { intros k Hk. apply znth_resize; lia. }
  assert (exists bufs1,
    (if 0 <? old_bc
     then b ← write_words (realloc junk bufs0.[[]|old_bc - 1]
             ((if old_bc <? new_bc then NO else NoPacksInLastBlock new_n) * 32))
             (NoPacksInLastBlock old_n * 32)
             (replicate (Z.to_nat (((if old_bc <? new_bc then NO else NoPacksInLastBlock new_n)
                - NoPacksInLastBlock old_n) * 32)) all_ones);
          Some bufs0.[old_bc - 1 <- b]
     else Some bufs0) = Some bufs1
    /\ zlen bufs1 = new_bc
    /\ forall j, 0 <= j < old_bc -> zlen (bufs1.[[]|j]) = packs_in new_n j * 32
                   /\ grown bufs old_n (bufs1.[[]|j]) j) as (bufs1 & -> & Hl1 & Hk1).
  { destruct (Z.ltb_spec 0 old_bc) as [Hpos|]; [|exists bufs0; split; [done|]; split; [done|]; lia].
    rewrite Hk0 by lia.
    destruct (extend_last_block (if old_bc <? new_bc then NO else NoPacksInLastBlock new_n))
      as (b & Eb & Hbl & Hbg); [done| |].
    { destruct (Z.ltb_spec old_bc new_bc); [unfold packs_in; nia|].
      rewrite last_block_spec by lia. f_equal. unfold old_bc, new_bc in *. lia. }
    rewrite Eb. exists (bufs0.[old_bc - 1 <- b]). split; [done|].
    split; [by rewrite zlen_zupd|]. intros j Hj. rewrite znth_zupd by lia.
    destruct (Z.eqb_spec j (old_bc - 1)) as [->|]; [done|]. rewrite Hk0 by lia.
    apply full_block_kept. lia. }
  simpl. destruct (fill_range [] (replicate (Z.to_nat (NO * 32)) all_ones) bufs1 old_bc (new_bc - 2))
    as [Hl2 Hk2]; [lia|lia|]. simpl in Hl2, Hk2.
  set (bufs2 := foldl _ bufs1 _) in *.
  assert (forall j, 0 <= j < new_bc - (if old_bc <? new_bc then 1 else 0) ->
    zlen (bufs2.[[]|j]) = packs_in new_n j * 32 /\ grown bufs old_n (bufs2.[[]|j]) j) as Hk3.
  { intros j Hj. rewrite Hk2 by (destruct (old_bc <? new_bc); lia).
    destruct (Z.leb_spec old_bc j); simpl; [|apply Hk1; lia].
    destruct (Z.leb_spec j (new_bc - 2)) as [Hj2|]; [|destruct (Z.ltb_spec old_bc new_bc); lia].
    rewrite zlen_replicate by lia. split; [unfold packs_in; nia|]. apply ones_grown; lia. }
  eexists. split; [reflexivity|]. unfold bufs_shape. fold new_bc.
  destruct (Z.ltb_spec old_bc new_bc).
  - rewrite zlen_zupd. split; [split; [lia|]|]; intros j Hj; rewrite znth_zupd by lia;
      destruct (Z.eqb_spec j (new_bc - 1)) as [->|]; try (apply Hk3; lia).
    + rewrite last_block_spec by lia. fold new_bc. rewrite zlen_replicate; [done|].
      unfold packs_in. nia.
    + apply ones_grown; [|lia]. rewrite last_block_spec by lia. fold new_bc. unfold packs_in. nia.
  - split; [split; [lia|]|]; intros j Hj; apply Hk3; lia.
Qed.
End Growth.
#[global] Arguments grow_buffers : simpl never.
#[global] Arguments BlockCount : simpl never.

(** ** The contents of an index

    [Shape] describes the memory of an index, [Inv] an index in use; [word h p i] is word [i]
    of pack [p] and [hbit h p b] its bit [b]. *)

Record Shape (h : Hist) : Prop := {
  sh_start : 0 <= start_pack h;
  sh_decl : start_pack h <= no_pack_declared h < 2 ^ 31;
  sh_pack : no_pack h <= no_pack_declared h;
  sh_bufs : bufs_shape (hist_buffers h) (no_pack_declared h - start_pack h)
}.

Record Inv (h : Hist) : Prop := {
  inv_shape : Shape h;
  inv_pack : start_pack h < no_pack h;
  inv_end : end_pack h = no_pack h - 1
}.

Definition word (h : Hist) (p i : Z) : Z := word_of (hist_buffers h) (p - start_pack h) i.
Definition hbit (h : Hist) (p b : Z) : bool := Z.testbit (word h p (b / 32)) (b mod 32).

(** The packs that have memory. *)
Definition in_memory (h : Hist) (p : Z) : Prop := start_pack h <= p < no_pack_declared h.

(** Everything but the words is the same. *)
Definition same_frame (h h' : Hist) : Prop :=
  no_obj h' = no_obj h /\ no_pack h' = no_pack h /\ start_pack h' = start_pack h
  /\ end_pack h' = end_pack h /\ no_pack_declared h' = no_pack_declared h /\ fixed h' = fixed h.

Lemma same_frame_refl h : same_frame h h.
Proof. repeat split. Qed.

Lemma same_frame_trans h h' h'' : same_frame h h' -> same_frame h' h'' -> same_frame h h''.
Proof. unfold same_frame. intuition congruence. Qed.

#[export] Hint Resolve same_frame_refl same_frame_trans : bh.

Lemma in_memory_pack h p : Inv h -> start_pack h <= p <= end_pack h -> in_memory h p.
Proof. intros [[] ? E] ?. unfold in_memory. lia. Qed.

Lemma locate h p :
  Shape h -> in_memory h p ->
  0 <= (p - start_pack h) / NO_HISTS_IN_BLOCK < zlen (hist_buffers h)
  /\ 0 <= (p - start_pack h) mod NO_HISTS_IN_BLOCK * 32
  /\ (p - start_pack h) mod NO_HISTS_IN_BLOCK * 32 + 32
     <= zlen ((hist_buffers h).[[]|(p - start_pack h) / NO_HISTS_IN_BLOCK]).
Proof.
  intros [? ? ? [Hl Hb]] [? ?].
  destruct (pack_block (no_pack_declared h - start_pack h) (p - start_pack h)) as [? ?]; [lia|].
  rewrite Hb by lia. lia.
Qed.

Lemma get_word_spec h p i :
  Shape h -> in_memory h p -> 0 <= i < 32 -> get_word h p i = Some (word h p i).
Proof.
  intros Hs Hp Hi. destruct (locate h p Hs Hp) as (? & ? & ?). unfold get_word, PackBuf, RSI_HIST_INT_RES.
  rewrite (zget_znth []) by done. simpl. by rewrite (zget_znth 0) by lia.
Qed.

Lemma pack_pos_inj p q : p / NO_HISTS_IN_BLOCK = q / NO_HISTS_IN_BLOCK ->
  p mod NO_HISTS_IN_BLOCK = q mod NO_HISTS_IN_BLOCK -> p = q.
Proof.
  intros E1 E2. pose proof no_hists_pos.
  rewrite (Z.div_mod p NO_HISTS_IN_BLOCK), (Z.div_mod q NO_HISTS_IN_BLOCK) by lia. by rewrite E1, E2.
Qed.

(** Writing words of one pack changes those words only. *)
Lemma write_pack_spec h p i ws :
  Shape h -> in_memory h p -> 0 <= i -> i + zlen ws <= 32 ->
  exists h', write_pack h p i ws = Some h' /\ same_frame h h' /\ Shape h'
    /\ forall q k, in_memory h q -> 0 <= k < 32 ->
         word h' q k = if (q =? p) && (i <=? k) && (k <? i + zlen ws) then ws.[0|k - i] else word h q k.
Proof.
  intros Hs Hp Hi Hlen. destruct (locate h p Hs Hp) as (Hb & Hoff & Hfit).
  pose proof (zlen_nonneg ws). pose proof no_hists_pos.
  unfold write_pack, PackBuf, RSI_HIST_INT_RES. rewrite (zget_znth []) by done. simpl.
  set (b := (p - start_pack h) / _) in *. set (off := _ mod _ * 32) in *.
  destruct (write_words_spec ((hist_buffers h).[[]|b]) (off + i) ws ltac:(lia) ltac:(lia))
    as (buf' & Ew & Hl' & Hk'). rewrite Ew. simpl.
  eexists. split; [reflexivity|]. split; [repeat split|]. split.
  - destruct Hs as [? ? ? [Hl Hbl]]. split; simpl; try done. split; [by rewrite zlen_zupd|].
    intros j Hj. rewrite znth_zupd by done. destruct (Z.eqb_spec j b) as [->|]; [|by apply Hbl].
    rewrite Hl'. by apply Hbl.
  - intros q k Hq Hk. destruct (locate h q Hs Hq) as (Hb2 & Hoff2 & Hfit2).
    unfold word, word_of. simpl. rewrite znth_zupd by done.
    destruct (Z.eqb_spec ((q - start_pack h) / NO_HISTS_IN_BLOCK) b) as [Eb|Hne].
    + rewrite Eb in *. rewrite Hk' by lia. destruct (Z.eqb_spec q p) as [->|Hqp]; simpl.
      * fold off. destruct (Z.leb_spec (off + i) (off + k)), (Z.leb_spec i k); try lia; [|done].
        destruct (Z.ltb_spec (off + k) (off + i + zlen ws)), (Z.ltb_spec k (i + zlen ws)); try lia; [|done].
        simpl. f_equal. lia.
      * destruct (_ && _) eqn:E; [|done]. bool_to_prop. exfalso. apply Hqp.
        enough (q - start_pack h = p - start_pack h) by lia.
        apply pack_pos_inj; [done|]. unfold off in *. lia.
    + destruct (Z.eqb_spec q p) as [->|]; [done|]. done.
Qed.

Lemma bit_at_spec h p i :
  Shape h -> in_memory h p -> 0 <= i < 1024 -> bit_at h p i = Some (hbit h p i).
Proof.
  intros Hs Hp Hi. unfold bit_at. destruct (Z.ltb_spec i 0); [lia|].
  assert (0 <= i / 32 < 32) by (split; [apply Z.div_pos; lia|apply Z.div_lt_upper_bound; lia]).
  rewrite get_word_spec by done. simpl. f_equal. unfold hbit.
  pose proof (Z.mod_pos_bound i 32 ltac:(lia)).
  set (w := word h p (i / 32)). set (k := i mod 32) in *.
  rewrite <- (Z.add_0_l k) at 2. rewrite <- Z.shiftr_spec by lia.
  change 1 with (Z.ones 1). rewrite Z.land_ones by lia. change (2 ^ 1) with 2.
  rewrite Z.bit0_odd, Zmod_odd. destruct (Z.odd _); done.
Qed.

Lemma any_set_spec h p a b :
  Shape h -> in_memory h p -> 0 <= a -> b < 1024 ->
  exists r, any_set h p (range a b) = Some r
    /\ (r = false <-> forall i, a <= i <= b -> hbit h p i = false).
Proof.
  intros Hs Hp. revert a.
  refine (range_ind (fun l a => 0 <= a -> b < 1024 -> exists r, any_set h p l = Some r
    /\ (r = false <-> forall i, a <= i <= b -> hbit h p i = false)) b _ _).
  - intros a Hab ? ?. exists false. split; [done|]. split; [|done]. intros _ i ?. lia.
  - intros a Hab IH Ha Hb. simpl. rewrite bit_at_spec by (done || lia). simpl.
    destruct (hbit h p a) eqn:E.
    + exists true. split; [done|]. split; [done|]. intros Hf. rewrite Hf in E; [done|lia].
    + destruct IH as (r & Er & Hr); [lia|lia|]. exists r. split; [done|]. rewrite Hr.
      split; intros Hf i Hi; [destruct (Z.eq_dec i a) as [->|]; [done|]|]; apply Hf; lia.
Qed.

(** ** Allocation, growth and whole-pack writes *)

Lemma declared_spec n : 0 <= n -> n < (n / 32 + 1) * 32 <= n + 32.
Proof. intros. pose proof (Z.div_mod n 32). pose proof (Z.mod_pos_bound n 32). lia. Qed.

Lemma grown_words bufs bufs' old_n new_n :
  0 <= old_n <= new_n -> bufs_shape bufs' new_n ->
  (forall j, 0 <= j < BlockCount new_n -> grown bufs old_n (bufs'.[[]|j]) j) ->
  forall p i, 0 <= p < new_n -> 0 <= i < 32 ->
    word_of bufs' p i = if p <? old_n then word_of bufs p i else all_ones.
Proof.
  intros Hn [Hl Hb] Hg p i Hp Hi. destruct (pack_block new_n p Hp) as [Hj Hm].
  unfold word_of. rewrite (Hg _ Hj) by (rewrite Hb by done; lia). unfold in_first.
  pose proof no_hists_pos. pose proof (Z.div_mod p NO_HISTS_IN_BLOCK ltac:(lia)).
  destruct (Z.ltb_spec p old_n), (Z.ltb_spec (p / NO_HISTS_IN_BLOCK * NO_HISTS_IN_BLOCK * 32
    + (p mod NO_HISTS_IN_BLOCK * 32 + i)) (old_n * 32)); try done; nia.
Qed.

(** What a growing operation guarantees: the old packs as they were, the others all ones. *)
Definition grows (h h' : Hist) : Prop :=
  start_pack h' = start_pack h /\ fixed h' = fixed h
  /\ no_pack_declared h <= no_pack_declared h'
  /\ forall p i, in_memory h' p -> 0 <= i < 32 ->
       word h' p i = if p <? no_pack_declared h then word h p i else all_ones.

Lemma Alloc_spec junk h n :
  Shape h -> no_pack h <= n < 2 ^ 31 - 32 -> start_pack h < n ->
  exists h', Alloc junk h n = Some h' /\ Shape h' /\ no_pack h' = n /\ end_pack h' = end_pack h
    /\ no_obj h' = no_obj h /\ grows h h'.
Proof.
  intros Hs Hn Hst. pose proof Hs as [Hst0 Hd Hp Hb]. unfold Alloc.
  pose proof (declared_spec n ltac:(lia)).
  rewrite !swrap_int by lia.
  destruct (Z.ltb_spec (no_pack_declared h) n) as [Hlt|Hge].
  - assert ((if 0 <? no_pack_declared h then BlockCount (no_pack_declared h - start_pack h) else 0)
            = BlockCount (no_pack_declared h - start_pack h)) as ->.
    { destruct (Z.ltb_spec 0 (no_pack_declared h)); [done|].
      replace (no_pack_declared h - start_pack h) with 0 by lia. reflexivity. }
    destruct (grow_buffers_spec junk (hist_buffers h) (no_pack_declared h - start_pack h)
      ((n / 32 + 1) * 32 - start_pack h) ltac:(lia) Hb) as (bufs' & -> & Hb' & Hg).
    simpl. eexists. split; [reflexivity|]. split; [split; simpl; try done; lia|].
    repeat (split; [done || (simpl; lia)|]). intros p i [Hp1 Hp2] Hi. unfold word. simpl in *.
    rewrite (grown_words (hist_buffers h) bufs' (no_pack_declared h - start_pack h)
      ((n / 32 + 1) * 32 - start_pack h) ltac:(lia) Hb' Hg) by lia.
    destruct (Z.ltb_spec (p - start_pack h) (no_pack_declared h - start_pack h)),
      (Z.ltb_spec p (no_pack_declared h)); try lia; done.
  - eexists. split; [reflexivity|]. split; [split; simpl; try done; lia|].
    repeat (split; [done || (simpl; lia)|]). intros p i [Hp1 Hp2] Hi. simpl in *.
    destruct (Z.ltb_spec p (no_pack_declared h)); [done|lia].
Qed.

(** Allocation from scratch; the first pack in memory can be any. *)
Lemma Alloc_fresh junk obj n0 st en fx n :
  0 <= st < n -> n < 2 ^ 31 - 32 ->
  exists h', Alloc junk (mkHist obj n0 st en 0 [] fx) n = Some h' /\ Shape h' /\ no_pack h' = n
    /\ end_pack h' = en /\ no_obj h' = obj /\ start_pack h' = st /\ fixed h' = fx
    /\ forall p i, in_memory h' p -> 0 <= i < 32 -> word h' p i = all_ones.
Proof.
  intros Hst Hn. unfold Alloc.
  cbn [no_obj no_pack start_pack end_pack no_pack_declared hist_buffers fixed Z.ltb Z.compare].
  destruct (Z.ltb_spec 0 n); [|lia].
  pose proof (declared_spec n ltac:(lia)). rewrite !swrap_int by lia.
  assert (bufs_shape [] 0) as Hb0 by (split; [done|]; change (BlockCount 0) with 0; lia).
  destruct (grow_buffers_spec junk [] 0 ((n / 32 + 1) * 32 - st) ltac:(lia) Hb0)
    as (bufs' & Eg & Hb' & Hg).
  assert (grow_buffers junk [] (0 - st) ((n / 32 + 1) * 32 - st) 0
    (BlockCount ((n / 32 + 1) * 32 - st)) = Some bufs') as -> by exact Eg.
  simpl. eexists. split; [reflexivity|]. split; [split; simpl; try done; lia|].
  repeat (split; [done|]). intros p i [Hp1 Hp2] Hi. unfold word. simpl in *.
  rewrite (grown_words [] bufs' 0 ((n / 32 + 1) * 32 - st) ltac:(lia) Hb' Hg) by lia.
  by destruct (Z.ltb_spec (p - st) 0); [lia|].
Qed.

Lemma Shape_set_end h st en : start_pack h = st -> Shape h -> Shape (set_end h st en).
Proof. intros <- []. by split. Qed.

Lemma Inv_of_shape h : Shape h -> start_pack h < no_pack h -> Inv (set_end h (start_pack h) (no_pack h - 1)).
Proof. intros. split; [by apply Shape_set_end| |]; done. Qed.

Lemma AppendKNs_spec junk h n :
  Inv h -> no_pack h <= n < 2 ^ 31 - 32 ->
  exists h', AppendKNs junk h n = Some h' /\ Inv h' /\ no_pack h' = n /\ no_obj h' = no_obj h /\ grows h h'.
Proof.
  intros [Hs Hp He] Hn. unfold AppendKNs. destruct (Z.ltb_spec n (no_pack h)); [lia|].
  destruct (Alloc_spec junk h n Hs Hn ltac:(lia)) as (h' & -> & Hs' & Hp' & _ & Ho & Hg). simpl.
  eexists. split; [reflexivity|]. pose proof Hg as (Est & _).
  split; [apply Inv_of_shape; [done|lia]|]. done.
Qed.

Lemma read_pack_spec h p :
  Shape h -> in_memory h p ->
  exists ws, read_pack h p = Some ws /\ zlen ws = 32 /\ forall i, 0 <= i < 32 -> ws.[0|i] = word h p i.
Proof.
  intros Hs Hp. destruct (locate h p Hs Hp) as (? & ? & ?). unfold read_pack, PackBuf, RSI_HIST_INT_RES.
  rewrite (zget_znth []) by done. simpl.
  set (off := _ mod _ * 32) in *. set (buf := (hist_buffers h).[[]|_]) in *.
  destruct (Z.leb_spec 0 off); [|lia]. destruct (Z.leb_spec (off + 32) (zlen buf)); [|lia].
  eexists. split; [reflexivity|]. split; [unfold zlen in *; rewrite length_take, length_drop; lia|].
  intros i Hi. unfold word, word_of. fold buf off. unfold znth.
  destruct (Z.ltb_spec i 0); [lia|]. destruct (Z.ltb_spec (off + i) 0); [lia|].
  rewrite !nth_lookup, lookup_take_lt, lookup_drop by lia. do 2 f_equal. lia.
Qed.

(** One whole pack replaced. *)
Definition pack_replaced (h h' : Hist) (p : Z) (ws : Z -> Z) : Prop :=
  same_frame h h'
  /\ forall q i, in_memory h q -> 0 <= i < 32 -> word h' q i = if q =? p then ws i else word h q i.

Lemma write_whole_spec h p ws :
  Shape h -> in_memory h p -> zlen ws = 32 ->
  exists h', write_pack h p 0 ws = Some h' /\ Shape h' /\ pack_replaced h h' p (znth 0 ws).
Proof.
  intros Hs Hp Hl. destruct (write_pack_spec h p 0 ws Hs Hp) as (h' & E & Hf & Hs' & Hw); [lia|lia|].
  exists h'. split; [done|]. split; [done|]. split; [done|]. intros q i Hq Hi.
  rewrite Hw by done. destruct (q =? p); simpl; [|done]. rewrite Z.sub_0_r. cmp_solve.
Qed.

Lemma Inv_frame h h' : Inv h -> same_frame h h' -> Shape h' -> Inv h'.
Proof.
  intros [_ Hp He] (? & ? & ? & ? & ? & ?) Hs. split; [done|lia|lia].
Qed.

Lemma ClearPack_spec h p :
  Inv h -> start_pack h <= p <= end_pack h ->
  exists h', ClearPack h p = Some h' /\ Inv h' /\ pack_replaced h h' p (fun _ => 0).
Proof.
  intros Hi Hp. pose proof (in_memory_pack h p Hi Hp) as Hm. unfold ClearPack.
  pose proof (inv_shape h Hi) as Hs. destruct (locate h p Hs Hm) as (? & _ & _).
  destruct (Z.eqb_spec (zlen (hist_buffers h)) 0); [lia|].
  destruct (Z.leb_spec (start_pack h) p); [|lia]. destruct (Z.leb_spec p (end_pack h)); [|lia]. simpl.
  destruct (write_whole_spec h p (replicate (Z.to_nat RSI_HIST_INT_RES) 0) Hs Hm eq_refl)
    as (h' & E & Hs' & Hf & Hw).
  exists h'. split; [done|]. split; [by apply (Inv_frame h)|]. split; [done|].
  intros q i Hq Hk. rewrite Hw by done. destruct (q =? p); [|done].
  unfold RSI_HIST_INT_RES. by apply (znth_replicate 0 32).
Qed.

(** ** The bit of a value

    The values of a column are ordered as integers, or as doubles when the histogram is not
    [fixed].  In both cases the bit a value is recorded under grows with the value. *)

Definition vle (fx : bool) (a b : Z) : bool :=
  if fx then a <=? b else dle (double_of_bits a) (double_of_bits b).

Definition in_range (fx : bool) (pack_min pack_max v : Z) : bool :=
  vle fx pack_min v && vle fx v pack_max.

(** Strictly inside the range of the pack: a value that gets a bit. *)
Definition inside (fx : bool) (pack_min pack_max v : Z) : bool :=
  negb (vle fx v pack_min) && negb (vle fx pack_max v).

Definition units (d : double) : Z := match d with DFin k => k | _ => 0 end.

(** The ranges the arithmetic of the histogram is meant for: integers whose distance fits in
    [_int64]; doubles that are finite and equal, or at a finite distance of [2 ^ -1012] or
    more. *)
Definition range_ok (fx : bool) (pack_min pack_max : Z) : Prop :=
  if fx then - 2 ^ 63 <= pack_min <= pack_max /\ pack_max < 2 ^ 63 /\ pack_max - pack_min < 2 ^ 63
  else exists a b, double_of_bits pack_min = DFin a /\ double_of_bits pack_max = DFin b
       /\ (a = b \/ a < b /\ 2 ^ 62 <= round53 (b - a) 1 < max_units).

(** The number of the bit. *)
Definition vslot (fx : bool) (pack_min pack_max v : Z) : Z :=
  if fx then
    if ExactMode pack_min pack_max then v - pack_min - 1
    else slot (round53 ((v - pack_min - 1) * one_units) 1)
           (round53 ((pack_max - pack_min - 1) * one_units) 1)
  else
    let a := units (double_of_bits pack_min) in
    slot (round53 (units (double_of_bits v) - a) 1)
      (round53 (units (double_of_bits pack_max) - a) 1).

#[global] Arguments vslot : simpl never.
#[global] Arguments dsub : simpl never.
#[global] Arguments ddiv : simpl never.
#[global] Arguments int_of_double : simpl never.

Lemma dle_fin x y : dle (DFin x) (DFin y) = (x <=? y).
Proof. unfold dle, dlt, deq. cmp_solve. Qed.

Lemma dle_between d a b :
  dle (DFin a) d = true -> dle d (DFin b) = true -> exists x, d = DFin x /\ a <= x <= b.
Proof.
  destruct d as [x|[]|]; try done. rewrite !dle_fin. intros. exists x. bool_to_prop. done.
Qed.

Lemma between_strict d a b :
  dlt (DFin a) d = true -> dlt d (DFin b) = true -> exists x, d = DFin x /\ a < x < b.
Proof. destruct d as [x|[]|]; try done. simpl. intros. exists x. bool_to_prop. done. Qed.

(** A number in [0, w] that comes out of rounding, divided into intervals of [w]. *)
Section FixedRange.
Context (mn mx : Z) (Hok : range_ok true mn mx) (Hwide : ExactMode mn mx = false).

Lemma wide_range : 1022 < mx - mn < 2 ^ 63.
Proof using Hok Hwide.
  destruct Hok as (? & ? & ?). unfold ExactMode, RSI_HIST_INT_RES in Hwide.
  rewrite wrap_id in Hwide by (unfold is_word; lia). bool_to_prop. lia.
Qed.

Lemma fixed_width :
  double_of_int (mx - mn - 1) = DFin (round53 ((mx - mn - 1) * one_units) 1)
  /\ repr53 (round53 ((mx - mn - 1) * one_units) 1)
  /\ 2 ^ 62 <= round53 ((mx - mn - 1) * one_units) 1 < max_units.
Proof using Hok Hwide.
  pose proof wide_range as Hr. pose proof one_units_pos.
  destruct (double_of_int_spec (mx - mn - 1)) as [-> Hb]; [lia|]. split; [done|].
  split; [apply round53_repr; nia|]. split.
  - transitivity one_units; [by vm_compute|].
    rewrite <- (round53_exact one_units 1) at 1 by (lia || (rewrite one_units_pow; by apply repr53_pow2)).
    apply round53_mono; nia.
  - eapply Z.le_lt_trans; [apply Hb|]. rewrite max_units_pow. by apply Z.mul_lt_mono_pos_r.
Qed.

Lemma fixed_slot v :
  mn < v < mx ->
  int_of_double (ddiv (double_of_int (v - mn - 1)) (ddiv (double_of_int (mx - mn - 1)) no_intervals))
    = Some (vslot true mn mx v)
  /\ 0 <= vslot true mn mx v.
Proof using Hok Hwide.
  intros Hv. pose proof wide_range. destruct fixed_width as (-> & Hrep & Hw). pose proof one_units_pos.
  destruct (double_of_int_spec (v - mn - 1)) as [-> Hb]; [lia|].
  assert (0 <= round53 ((v - mn - 1) * one_units) 1 <= round53 ((mx - mn - 1) * one_units) 1).
  { split; [lia|]. apply round53_mono; nia. }
  unfold no_intervals, RSI_HIST_INT_RES. change (32 * 32) with 1024. unfold vslot. rewrite Hwide.
  split; [by apply slot_spec|]. by apply slot_bounds.
Qed.
End FixedRange.

Section FloatRange.
Context (mn mx a b : Z) (Ha : double_of_bits mn = DFin a) (Hb : double_of_bits mx = DFin b).
Context (Hw : a < b /\ 2 ^ 62 <= round53 (b - a) 1 < max_units).

Lemma float_width : dsub (DFin b) (DFin a) = DFin (round53 (b - a) 1) /\ repr53 (round53 (b - a) 1).
Proof using Hw.
  split; [|apply round53_repr; lia]. unfold dsub. apply round_units_nonneg; lia.
Qed.

Lemma float_slot v x :
  double_of_bits v = DFin x -> a <= x <= b ->
  int_of_double (ddiv (dsub (DFin x) (DFin a)) (ddiv (dsub (DFin b) (DFin a)) no_intervals))
    = Some (vslot false mn mx v)
  /\ 0 <= vslot false mn mx v.
Proof using Hw Ha Hb.
  intros Hv Hx. destruct float_width as [-> Hrep].
  assert (0 <= round53 (x - a) 1 <= round53 (b - a) 1).
  { split; [apply round53_nonneg; lia|]. apply round53_mono; lia. }
  assert (dsub (DFin x) (DFin a) = DFin (round53 (x - a) 1)) as ->
    by (unfold dsub; apply round_units_nonneg; lia).
  unfold no_intervals, RSI_HIST_INT_RES. change (32 * 32) with 1024.
  unfold vslot. rewrite Ha, Hb, Hv. cbn [units].
  split; [by apply (slot_spec _ Hrep (proj2 Hw))|]. by apply (slot_bounds _ Hrep (proj2 Hw)).
Qed.
End FloatRange.

(** The bit a recorded value gets, for every mode of the histogram. *)
Lemma put_bit_spec fx mn mx v :
  range_ok fx mn mx -> in_range fx mn mx v = true ->
  if inside fx mn mx v
  then put_bit fx v mn mx = inr (Some (vslot fx mn mx v)) /\ 0 <= vslot fx mn mx v
  else put_bit fx v mn mx = inl tt.
Proof.
  intros Hok Hin. unfold in_range, inside, vle, put_bit in *. destruct fx.
  - pose proof Hok as (H1 & H2 & H3). bool_to_prop.
    destruct (Z.leb_spec v mn), (Z.leb_spec mx v); simpl;
      destruct (Z.eqb_spec v mn), (Z.eqb_spec v mx); simpl; try lia; try done.
    destruct (ExactMode mn mx) eqn:Em.
    + unfold vslot. rewrite Em. unfold ExactMode, RSI_HIST_INT_RES in Em.
      rewrite wrap_id in Em by (unfold is_word; lia).
      bool_to_prop. rewrite swrap_int by lia. split; [done|lia].
    + pose proof (wide_range mn mx Hok Em). rewrite !wrap_id by (unfold is_word; lia).
      destruct (fixed_slot mn mx Hok Em v) as [E ?]; [lia|]. by rewrite E.
  - destruct Hok as (a & b & Ea & Eb & Hw). rewrite Ea, Eb in *.
    apply andb_true_iff in Hin as [Hin1 Hin2].
    destruct (dle_between _ _ _ Hin1 Hin2) as (x & Ex & Hx). rewrite Ex, !dle_fin in *. simpl.
    destruct (Z.leb_spec x a), (Z.leb_spec b x); simpl;
      destruct (Z.eqb_spec x a), (Z.eqb_spec x b); simpl; try lia; try done.
    destruct Hw as [->|Hw]; [lia|].
    destruct (float_slot mn mx a b Ea Eb Hw v x Ex ltac:(lia)) as [E ?]. by rewrite E.
Qed.

Lemma vslot_mono fx mn mx u v :
  range_ok fx mn mx -> inside fx mn mx u = true -> inside fx mn mx v = true ->
  in_range fx mn mx u = true -> in_range fx mn mx v = true ->
  vle fx u v = true -> vslot fx mn mx u <= vslot fx mn mx v.
Proof.
  intros Hok Hu Hv Hru Hrv Huv. unfold inside, in_range, vle, vslot in *. destruct fx; bool_to_prop.
  - destruct (ExactMode mn mx) eqn:Em; [lia|]. pose proof one_units_pos.
    destruct (fixed_width mn mx Hok Em) as (_ & Hrep & Hw).
    apply slot_mono; [done|done|]. split; [apply round53_nonneg; nia|]. apply round53_mono; nia.
  - destruct Hok as (a & b & Ea & Eb & Hw). rewrite Ea, Eb in *.
    destruct (dle_between (double_of_bits u) a b) as (x & Ex & Hx); [done|done|].
    destruct (dle_between (double_of_bits v) a b) as (y & Ey & Hy); [done|done|].
    rewrite Ex, Ey, ?dle_fin in *. bool_to_prop. simpl.
    destruct Hw as [->|Hw]; [lia|]. apply slot_mono; [apply round53_repr; lia|lia|].
    split; [apply round53_nonneg; lia|]. apply round53_mono; lia.
Qed.

(** ** The answer of a query *)

Lemma vle_trans fx a b c : vle fx a b = true -> vle fx b c = true -> vle fx a c = true.
Proof.
  unfold vle. destruct fx; [rewrite !Z.leb_le; lia|].
  destruct (double_of_bits a) as [x|[]|], (double_of_bits b) as [y|[]|],
    (double_of_bits c) as [z|[]|]; try done. rewrite !dle_fin, !Z.leb_le. lia.
Qed.

Lemma dlt_not_dle a b x y :
  dle a b = true -> dle (DFin x) (DFin y) = true -> dlt b (DFin x) = negb (dle (DFin x) b)
  /\ dlt (DFin y) a = negb (dle a (DFin y)).
Proof.
  destruct a as [u|[]|], b as [v|[]|]; try done; unfold dle, dlt, deq; intros; bool_to_prop; cmp_solve.
Qed.

(** The outcomes of the comparison of a query interval with the range of the pack. *)
Definition query_meaning (fx : bool) (lo hi mn mx : Z) (q : RSValue + option (Z * Z)) : Prop :=
  match q with
  | inl RS_NONE => vle fx mn hi = false \/ vle fx lo mx = false
  | inl RS_ALL => vle fx mx hi = true /\ vle fx lo mn = true
  | inl RS_SOME => vle fx mn hi = true /\ vle fx lo mx = true /\ (vle fx mx hi = true \/ vle fx lo mn = true)
  | inr (Some (a, b)) =>
      a = vslot fx mn mx lo /\ b = vslot fx mn mx hi /\ 0 <= a
      /\ inside fx mn mx lo = true /\ inside fx mn mx hi = true
      /\ in_range fx mn mx lo = true /\ in_range fx mn mx hi = true
  | _ => False
  end.

Lemma query_fixed_spec mn mx lo hi :
  range_ok true mn mx -> lo <= hi -> query_meaning true lo hi mn mx (query_fixed lo hi mn mx).
Proof.
  intros Hok Hlh. pose proof Hok as (H1 & H2 & H3). unfold query_fixed.
  destruct (Z.ltb_spec hi mn), (Z.ltb_spec mx lo); simpl; rewrite ?Z.leb_gt; try lia.
  destruct (Z.leb_spec mx hi), (Z.leb_spec lo mn); simpl; rewrite ?Z.leb_le; try lia.
  assert (inside true mn mx lo = true /\ inside true mn mx hi = true /\ in_range true mn mx lo = true
    /\ in_range true mn mx hi = true) as (I1 & I2 & R1 & R2)
    by (unfold inside, in_range, vle; repeat split; cmp_solve).
  pose proof (put_bit_spec true mn mx lo Hok R1) as P1. rewrite I1 in P1.
  destruct (ExactMode mn mx) eqn:Em.
  - unfold query_meaning, vslot. rewrite Em.
    unfold ExactMode, RSI_HIST_INT_RES in Em. rewrite wrap_id in Em by (unfold is_word; lia).
    bool_to_prop. rewrite !swrap_int by lia. repeat split; try done; lia.
  - pose proof (wide_range mn mx Hok Em). rewrite !swrap64_id by lia.
    destruct (fixed_slot mn mx Hok Em lo) as [-> ?]; [lia|].
    destruct (fixed_slot mn mx Hok Em hi) as [-> ?]; [lia|]. simpl. done.
Qed.

Lemma query_float_spec mn mx lo hi :
  range_ok false mn mx -> vle false lo hi = true ->
  query_meaning false lo hi mn mx (query_float lo hi mn mx).
Proof.
  intros Hok Hlh. destruct Hok as (a & b & Ea & Eb & Hw).
  assert (dle (DFin a) (DFin b) = true) as Hab by (rewrite dle_fin; apply Z.leb_le; lia).
  unfold query_float. unfold vle in Hlh. rewrite Ea, Eb.
  destruct (dlt_not_dle _ _ a b Hlh Hab) as [E1 E2].
  rewrite E1, E2. unfold query_meaning, inside, in_range, vle. rewrite Ea, Eb.
  destruct (dle (DFin a) (double_of_bits hi)) eqn:D1; simpl; [|by left].
  destruct (dle (double_of_bits lo) (DFin b)) eqn:D2; simpl; [|by right].
  destruct (dle (DFin b) (double_of_bits hi)) eqn:D3, (dle (double_of_bits lo) (DFin a)) eqn:D4;
    simpl; try tauto.
  assert (exists x, double_of_bits lo = DFin x) as [x Ex].
  { destruct (double_of_bits lo) as [x|[]|]; [by eexists|done..]. }
  assert (exists y, double_of_bits hi = DFin y) as [y Ey].
  { destruct (double_of_bits hi) as [y|[]|]; [by eexists|done..]. }
  rewrite Ex, Ey in *. rewrite dle_fin in *. bool_to_prop.
  destruct Hw as [->|Hw]; [lia|].
  destruct (float_slot mn mx a b Ea Eb Hw lo x Ex ltac:(lia)) as [-> ?].
  destruct (float_slot mn mx a b Ea Eb Hw hi y Ey ltac:(lia)) as [-> ?]. simpl.
  rewrite !dle_fin. repeat split; try done; cmp_solve.
Qed.

Lemma query_spec fx mn mx lo hi :
  range_ok fx mn mx -> vle fx lo hi = true ->
  query_meaning fx lo hi mn mx ((if fx then query_fixed else query_float) lo hi mn mx).
Proof.
  destruct fx; intros Hok Hlh; [apply query_fixed_spec; [done|by apply Z.leb_le]|].
  by apply query_float_spec.
Qed.

(** ** Recording values *)

Lemma put_word_bits h p bit h' :
  Shape h -> in_memory h p -> 0 <= bit < 1024 ->
  (forall q k, in_memory h q -> 0 <= k < 32 ->
     word h' q k = if (q =? p) && (bit / 32 <=? k) && (k <? bit / 32 + 1)
                   then [Z.lor (word h p (bit / 32)) (Z.shiftl 1 (bit mod 32))].[0|k - bit / 32]
                   else word h q k) ->
  forall q b, in_memory h q -> 0 <= b < 1024 -> hbit h' q b = hbit h q b || (q =? p) && (b =? bit).
Proof.
  intros Hs Hp Hbit Hw q b Hq Hb. unfold hbit.
  pose proof (Z.div_mod b 32 ltac:(lia)). pose proof (Z.mod_pos_bound b 32 ltac:(lia)).
  pose proof (Z.div_mod bit 32 ltac:(lia)). pose proof (Z.mod_pos_bound bit 32 ltac:(lia)).
  rewrite Hw by (done || lia). destruct (Z.eqb_spec q p) as [->|]; simpl; [|by rewrite orb_false_r].
  destruct (Z.leb_spec (bit / 32) (b / 32)), (Z.ltb_spec (b / 32) (bit / 32 + 1)); simpl;
    try (destruct (Z.eqb_spec b bit) as [->|]; [lia|]; by rewrite orb_false_r).
  assert (b / 32 = bit / 32) as E by lia. rewrite E.
  rewrite Z.sub_diag. change ([Z.lor (word h p (bit / 32)) (Z.shiftl 1 (bit mod 32))].[0|0])
    with (Z.lor (word h p (bit / 32)) (Z.shiftl 1 (bit mod 32))).
  rewrite Z.lor_spec, Z.shiftl_spec by lia.
  destruct (Z.eqb_spec b bit) as [->|].
  - rewrite Z.sub_diag. done.
  - destruct (Z.lt_ge_cases (b mod 32 - bit mod 32) 0).
    + by rewrite (Z.testbit_neg_r 1) by lia.
    + by rewrite (Z.bits_above_log2 1) by (simpl; lia).
Qed.

Lemma PutValue_spec h v p mn mx :
  Inv h -> start_pack h <= p <= end_pack h -> range_ok (fixed h) mn mx ->
  in_range (fixed h) mn mx v = true -> v <> NULL_VALUE_64 -> IntervalTooLarge mn mx = false ->
  exists h', PutValue h v p mn mx = Some h' /\ same_frame h h' /\ Inv h'
    /\ forall q b, in_memory h q -> 0 <= b < 1024 ->
         hbit h' q b = hbit h q b
           || (q =? p) && inside (fixed h) mn mx v && (b =? vslot (fixed h) mn mx v).
Proof.
  intros Hi Hp Hok Hin Hnull Hlarge. pose proof (in_memory_pack h p Hi Hp) as Hm.
  pose proof (inv_shape h Hi) as Hs. unfold PutValue.
  destruct (Z.ltb_spec p (start_pack h)); [lia|]. destruct (Z.ltb_spec (end_pack h) p); [lia|]. simpl.
  rewrite (proj2 (Z.eqb_neq v NULL_VALUE_64) Hnull), Hlarge. simpl.
  pose proof (put_bit_spec (fixed h) mn mx v Hok Hin) as Hput.
  destruct (inside (fixed h) mn mx v) eqn:Hins.
  - destruct Hput as [-> Hpos]. set (bit := vslot (fixed h) mn mx v) in *.
    unfold RSI_HIST_INT_RES. change (32 * 32) with 1024.
    destruct (Z.leb_spec 1024 bit).
    + exists h. repeat (split; [done|]). intros q b Hq Hb.
      destruct (Z.eqb_spec b bit); [lia|]. by rewrite andb_false_r, orb_false_r.
    + destruct (Z.ltb_spec bit 0); [lia|].
      assert (0 <= bit / 32 < 32) by (split; [apply Z.div_pos; lia|apply Z.div_lt_upper_bound; lia]).
      rewrite get_word_spec by done. simpl.
      destruct (write_pack_spec h p (bit / 32) [Z.lor (word h p (bit / 32)) (Z.shiftl 1 (bit mod 32))] Hs Hm)
        as (h' & E & Hf & Hs' & Hw); [lia|unfold zlen; simpl; lia|].
      exists h'. split; [done|]. split; [done|]. split; [by apply (Inv_frame h)|].
      intros q b Hq Hb. rewrite andb_true_r. by apply put_word_bits.
  - rewrite Hput. exists h. repeat (split; [done|]). intros q b Hq Hb.
    by rewrite andb_false_r, orb_false_r.
Qed.

Definition put_values (h : Hist) (p mn mx : Z) (vs : list Z) : option Hist :=
  foldl (fun h v => h ← h; PutValue h v p mn mx) (Some h) vs.

Definition storable (fx : bool) (mn mx v : Z) : Prop := in_range fx mn mx v = true /\ v <> NULL_VALUE_64.

(** The bits recorded for a list of values. *)
Definition recorded (fx : bool) (mn mx : Z) (vs : list Z) (b : Z) : bool :=
  existsb (fun v => inside fx mn mx v && (b =? vslot fx mn mx v)) vs.

Lemma put_values_spec h p mn mx vs :
  Inv h -> start_pack h <= p <= end_pack h -> range_ok (fixed h) mn mx ->
  IntervalTooLarge mn mx = false -> Forall (storable (fixed h) mn mx) vs ->
  exists h', put_values h p mn mx vs = Some h' /\ same_frame h h' /\ Inv h'
    /\ forall q b, in_memory h q -> 0 <= b < 1024 ->
         hbit h' q b = hbit h q b || (q =? p) && recorded (fixed h) mn mx vs b.
Proof.
  intros Hi Hp Hok Hl Hvs. unfold put_values. revert h Hi Hp Hok Hvs.
  induction vs as [|v vs IH]; intros h Hi Hp Hok Hvs.
  - exists h. repeat (split; [done|]). intros. simpl. by rewrite andb_false_r, orb_false_r.
  - inversion Hvs as [|? ? [Hv Hn] Hvs']; subst.
    destruct (PutValue_spec h v p mn mx Hi Hp Hok Hv Hn Hl) as (h1 & E & Hf & Hi1 & Hb1).
    simpl. rewrite E. pose proof Hf as (F1 & F2 & F3 & F4 & F5 & F6).
    destruct (IH h1 Hi1) as (h2 & E2 & Hf2 & Hi2 & Hb2); [lia|by rewrite F6|by rewrite F6|].
    exists h2. split; [done|]. split; [by apply (same_frame_trans _ h1)|]. split; [done|].
    intros q b Hq Hb. rewrite Hb2 by (unfold in_memory in *; lia || done). rewrite Hb1 by done.
    rewrite F6. simpl. destruct (hbit h q b), (q =? p); simpl; done.
Qed.

Lemma put_values_large h p mn mx vs :
  Inv h -> IntervalTooLarge mn mx = true -> put_values h p mn mx vs = Some h.
Proof.
  intros Hi Hl. unfold put_values. induction vs as [|v vs IH]; [done|]. simpl.
  assert (PutValue h v p mn mx = Some h) as ->; [|done].
  unfold PutValue. rewrite Hl, orb_true_r. by destruct (_ || _).
Qed.

(** A query interval holds the value. *)
Definition in_query (fx : bool) (lo hi v : Z) : bool := vle fx lo v && vle fx v hi.

Lemma in_query_inside fx mn mx lo hi v :
  range_ok fx mn mx -> in_query fx lo hi v = true ->
  inside fx mn mx lo = true -> inside fx mn mx hi = true ->
  in_range fx mn mx lo = true -> in_range fx mn mx hi = true -> in_range fx mn mx v = true ->
  inside fx mn mx v = true /\ vslot fx mn mx lo <= vslot fx mn mx v <= vslot fx mn mx hi.
Proof.
  intros Hok Hq I1 I2 R1 R2 R3. apply andb_true_iff in Hq as [Q1 Q2].
  assert (inside fx mn mx v = true) as I3.
  { unfold inside in *. bool_to_prop. apply andb_true_iff. split; apply negb_true_iff.
    - destruct (vle fx v mn) eqn:E; [|done]. by rewrite (vle_trans fx lo v mn) in *.
    - destruct (vle fx mx v) eqn:E; [|done]. by rewrite (vle_trans fx mx v hi) in *. }
  split; [done|]. split; by apply vslot_mono.
Qed.

(** The outcome of a query on a pack whose bits are exactly those of the values [vs]. *)
Lemma IsValue_recorded h p mn mx lo hi vs :
  Inv h -> start_pack h <= p <= end_pack h -> range_ok (fixed h) mn mx ->
  vle (fixed h) lo hi = true -> Forall (storable (fixed h) mn mx) vs ->
  (IntervalTooLarge mn mx = false ->
   forall b, 0 <= b < 1024 -> hbit h p b = recorded (fixed h) mn mx vs b) ->
  exists r, IsValue h lo hi p mn mx = Some r
    /\ (r = RS_NONE -> forall v, In v vs -> in_query (fixed h) lo hi v = false)
    /\ (r = RS_ALL -> forall v, In v vs -> in_query (fixed h) lo hi v = true)
    /\ r <> RS_UNKNOWN.
Proof.
  intros Hi Hp Hok Hlh Hvs Hbits. pose proof (in_memory_pack h p Hi Hp) as Hm.
  pose proof (inv_shape h Hi) as Hs. unfold IsValue.
  destruct (Z.ltb_spec p (start_pack h)); [lia|]. destruct (Z.ltb_spec (end_pack h) p); [lia|]. simpl.
  destruct (IntervalTooLarge mn mx) eqn:El; simpl; [by exists RS_SOME|].
  destruct (IntervalTooLarge lo hi); [by exists RS_SOME|].
  assert (forall v, In v vs -> in_range (fixed h) mn mx v = true) as Hrange.
  { intros v Hv. rewrite Forall_forall in Hvs. destruct (Hvs v) as [? _]; [|done].
    by apply list_elem_of_In. }
  pose proof (query_spec (fixed h) mn mx lo hi Hok Hlh) as Hq.
  destruct ((if fixed h then query_fixed else query_float) lo hi mn mx) as [[]|[[a b]|]];
    cbn [query_meaning] in Hq; try done.
  - exists RS_NONE. split; [done|]. split; [|done]. intros _ v Hv. specialize (Hrange v Hv).
    apply andb_true_iff in Hrange as [R1 R2]. unfold in_query.
    destruct (vle (fixed h) lo v) eqn:E1, (vle (fixed h) v hi) eqn:E2; try done.
    rewrite (vle_trans _ mn v hi), (vle_trans _ lo v mx) in Hq by done. by destruct Hq.
  - by exists RS_SOME.
  - exists RS_ALL. split; [done|]. split; [done|]. split; [|done]. intros _ v Hv.
    specialize (Hrange v Hv). apply andb_true_iff in Hrange as [R1 R2]. destruct Hq as [Q1 Q2].
    unfold in_query. by rewrite (vle_trans _ lo mn v), (vle_trans _ v mx hi) by done.
  - destruct Hq as (-> & -> & Hpos & I1 & I2 & R1 & R2).
    unfold RSI_HIST_INT_RES. change (32 * 32) with 1024.
    destruct (Z.leb_spec 1024 (vslot (fixed h) mn mx hi)); [by exists RS_SOME|].
    destruct (any_set_spec h p (vslot (fixed h) mn mx lo) (vslot (fixed h) mn mx hi) Hs Hm Hpos ltac:(lia))
      as (r & -> & Hr). simpl.
    destruct r; [by exists RS_SOME|]. exists RS_NONE. split; [done|]. split; [|done]. intros _ v Hv.
    destruct (in_query (fixed h) lo hi v) eqn:Q; [|done].
    destruct (in_query_inside (fixed h) mn mx lo hi v) as [I3 Hsl]; try done; [by apply Hrange|].
    specialize (proj1 Hr eq_refl (vslot (fixed h) mn mx v) Hsl) as Hf.
    rewrite Hbits in Hf by (done || lia). unfold recorded in Hf.
    assert (existsb (fun u => inside (fixed h) mn mx u && (vslot (fixed h) mn mx v =? vslot (fixed h) mn mx u)) vs
      = true) as Ht; [|congruence].
    apply existsb_exists. exists v. split; [done|]. by rewrite I3, Z.eqb_refl.
Qed.

Lemma Inv_set_obj h n : Inv h -> Inv (set_obj h n).
Proof. intros [[? ? ? ?] ? ?]. split; [split|..]; done. Qed.

Lemma Create_spec junk h n fx :
  0 < n < 2 ^ 46 ->
  exists h', Create junk h n fx = Some h' /\ Inv h' /\ no_obj h' = n /\ fixed h' = fx /\ start_pack h' = 0
    /\ no_pack h' = (n - 1) / 65536 + 1
    /\ forall p i, in_memory h' p -> 0 <= i < 32 -> word h' p i = all_ones.
Proof.
  intros Hn. destruct (NoObj2NoPacks_spec n Hn) as [E Hr]. unfold Create.
  destruct (Alloc_fresh junk n 0 0 0 fx (NoObj2NoPacks n)) as (h' & -> & Hs & Hp & He & Ho & Hst & Hfx & Hw);
    [lia|lia|].
  change (Some h' ≫= _) with (Some (set_end h' 0 (no_pack h' - 1))).
  replace (set_end h' 0 (no_pack h' - 1)) with (set_end h' (start_pack h') (no_pack h' - 1))
    by (by rewrite Hst).
  eexists. split; [reflexivity|].
  split; [apply Inv_of_shape; [done|lia]|]. simpl.
  repeat (split; [done || lia|]). exact Hw.
Qed.

Lemma CopyRepresentation_spec junk h ws p :
  Inv h -> start_pack h <= p < 2 ^ 31 - 33 -> zlen ws = 32 ->
  exists h', CopyRepresentation junk h ws p = Some h' /\ Inv h' /\ no_pack h' = Z.max (no_pack h) (p + 1)
    /\ start_pack h' = start_pack h /\ no_pack_declared h <= no_pack_declared h'
    /\ forall q i, in_memory h' q -> 0 <= i < 32 ->
         word h' q i = if q =? p then ws.[0|i]
                       else if q <? no_pack_declared h then word h q i else all_ones.
Proof.
  intros Hi Hp Hl. pose proof (inv_end h Hi) as He. pose proof (inv_pack h Hi).
  unfold CopyRepresentation.
  destruct (locate h (start_pack h) (inv_shape h Hi)) as (Hz & _ & _);
    [apply in_memory_pack; [done|lia]|].
  destruct (Z.eqb_spec (zlen (hist_buffers h)) 0); [lia|]. simpl.
  destruct (Z.ltb_spec (end_pack h) p).
  - destruct (AppendKNs_spec junk h (p + 1) Hi ltac:(lia)) as (h1 & -> & Hi1 & Hp1 & Ho1 & (G1 & G2 & G3 & G4)).
    simpl. pose proof (inv_end h1 Hi1).
    destruct (write_whole_spec h1 p ws (inv_shape h1 Hi1)) as (h2 & E & Hs2 & Hf & Hw);
      [apply in_memory_pack; [done|lia]|done|].
    exists h2. split; [done|]. split; [by apply (Inv_frame h1)|].
    pose proof Hf as (? & ? & ? & ? & ? & ?). repeat (split; [lia|]).
    intros q i Hq Hk. assert (in_memory h1 q) by (unfold in_memory in *; lia).
    rewrite Hw by done. destruct (q =? p); [done|]. by apply G4.
  - simpl. destruct (write_whole_spec h p ws (inv_shape h Hi)) as (h2 & E & Hs2 & Hf & Hw);
      [apply in_memory_pack; [done|lia]|done|].
    exists h2. split; [done|]. split; [by apply (Inv_frame h)|].
    pose proof Hf as (? & ? & ? & ? & ? & ?). repeat (split; [lia|]).
    intros q i Hq Hk. assert (in_memory h q) as [? ?] by (unfold in_memory in *; lia).
    rewrite Hw by (done || (split; done)). destruct (q =? p); [done|].
    destruct (Z.ltb_spec q (no_pack_declared h)); [done|lia].
Qed.

(** An index created for [n] rows has one all-ones histogram per pack; growing it
    ([Update]) keeps the histograms it had and adds all-ones ones; [ClearPack] empties one
    histogram and [CopyRepresentation] replaces one (growing the index when the pack is new),
    and neither changes another pack.  The blocks are found where [PackBuf] looks for them
    after every one of these operations, however many blocks the index has. *)
Theorem Hist_updates (junk : Z -> Z) (h : Hist) (n p : Z) (ws : list Z) (fx : bool) :
  0 < n < 2 ^ 46 -> Inv h -> start_pack h <= p <= end_pack h -> no_pack h <= (n - 1) / 65536 + 1 ->
  zlen ws = 32 ->
  (exists h', Create junk h n fx = Some h' /\ Inv h' /\ no_pack h' = (n - 1) / 65536 + 1 /\ fixed h' = fx
     /\ forall q i, in_memory h' q -> 0 <= i < 32 -> get_word h' q i = Some all_ones)
  /\ (exists h', Update junk h n = Some h' /\ Inv h' /\ no_obj h' = n /\ no_pack h' = (n - 1) / 65536 + 1
     /\ forall q i, in_memory h' q -> 0 <= i < 32 ->
          get_word h' q i = if q <? no_pack_declared h then get_word h q i else Some all_ones)
  /\ (exists h', ClearPack h p = Some h' /\ Inv h'
     /\ forall q i, in_memory h q -> 0 <= i < 32 ->
          get_word h' q i = if q =? p then Some 0 else get_word h q i)
  /\ (exists h', CopyRepresentation junk h ws p = Some h' /\ Inv h'
     /\ forall q i, in_memory h q -> 0 <= i < 32 ->
          get_word h' q i = if q =? p then Some (ws.[0|i]) else get_word h q i).
Proof.
  intros Hn Hi Hp Hnp Hl. destruct (NoObj2NoPacks_spec n Hn) as [E Hr].
  pose proof (inv_end h Hi) as He. pose proof (inv_shape h Hi) as Hs. split; [|split; [|split]].
  - destruct (Create_spec junk h n fx Hn) as (h' & -> & Hi' & _ & ? & _ & ? & Hw).
    exists h'. repeat (split; [done|]). intros q i Hq Hk.
    rewrite get_word_spec by (done || apply Hi'). by rewrite Hw.
  - unfold Update. destruct (AppendKNs_spec junk h (NoObj2NoPacks n) Hi ltac:(lia))
      as (h1 & -> & Hi1 & Hp1 & Ho1 & (G1 & G2 & G3 & G4)). simpl.
    eexists. split; [reflexivity|]. split; [by apply Inv_set_obj|].
    simpl. split; [done|]. split; [lia|]. intros q i Hq Hk.
    change (get_word h1 q i = if q <? no_pack_declared h then get_word h q i else Some all_ones).
    rewrite get_word_spec by (done || apply Hi1). rewrite G4 by done.
    destruct (Z.ltb_spec q (no_pack_declared h)); [|done].
    symmetry. apply get_word_spec; [done| |done]. unfold in_memory in *. simpl in Hq. lia.
  - destruct (ClearPack_spec h p Hi Hp) as (h' & -> & Hi' & Hf & Hw). exists h'.
    repeat (split; [done|]). intros q i Hq Hk. pose proof Hf as (? & ? & ? & ? & ? & ?).
    rewrite (get_word_spec h') by (done || apply Hi' || (unfold in_memory in *; lia)).
    rewrite Hw by done. destruct (q =? p); [done|]. by rewrite get_word_spec.
  - pose proof Hs as [? ? ? _].
    destruct (CopyRepresentation_spec junk h ws p Hi) as (h' & -> & Hi' & _ & Hst & Hd & Hw);
      [pose proof (inv_pack h Hi); lia|done|].
    exists h'. repeat (split; [done|]). intros q i Hq Hk.
    assert (in_memory h' q) by (unfold in_memory in *; lia).
    rewrite (get_word_spec h') by (done || apply Hi'). rewrite Hw by done.
    destruct (q =? p); [done|]. destruct Hq. destruct (Z.ltb_spec q (no_pack_declared h)); [|lia].
    by rewrite get_word_spec.
Qed.

Lemma Hist_updates_witness :
  exists h h' h'' h3, Create (fun _ => 7) Hist_new 100000 true = Some h
    /\ Update (fun _ => 7) h 10000000 = Some h' /\ ClearPack h 1 = Some h''
    /\ CopyRepresentation (fun _ => 7) h (replicate 32 5) 1 = Some h3
    /\ get_word h' 152 3 = Some all_ones /\ get_word h'' 1 31 = Some 0 /\ get_word h3 1 4 = Some 5.
Proof.
  destruct (Create_spec (fun _ => 7) Hist_new 100000 true ltac:(lia))
    as (h & E & Hi & _ & _ & Hst & Hp & _). change ((100000 - 1) / 65536 + 1) with 2 in Hp.
  pose proof (inv_end h Hi) as He.
  destruct (Hist_updates (fun _ => 7) h 10000000 1 (replicate 32 5) true ltac:(lia) Hi ltac:(lia)
    ltac:(rewrite Hp; vm_compute; discriminate) eq_refl)
    as (_ & (h1 & E1 & I1 & _ & P1 & W1) & (h2 & E2 & _ & W2) & (h3 & E3 & _ & W3)).
  change ((10000000 - 1) / 65536 + 1) with 153 in P1. pose proof (inv_end h1 I1).
  exists h, h1, h2, h3. repeat (split; [done|]).
  assert (no_pack_declared h <= 152).
  { vm_compute in E. injection E as <-. vm_compute. discriminate. }
  assert (start_pack h1 = 0) as Hst1.
  { clear - E E1. vm_compute in E. injection E as <-. vm_compute in E1. by injection E1 as <-. }
  split; [|split].
  - rewrite W1; [|apply in_memory_pack; [done|lia]|lia]. by destruct (Z.ltb_spec 152 (no_pack_declared h)); [lia|].
  - by rewrite W2; [|apply in_memory_pack; [done|lia]|lia].
  - by rewrite W3; [|apply in_memory_pack; [done|lia]|lia].
Defined.

Lemma hbit_zero h p b : (forall i, 0 <= i < 32 -> word h p i = 0) -> 0 <= b < 1024 -> hbit h p b = false.
Proof.
  intros Hw Hb. unfold hbit. rewrite Hw; [by rewrite Z.testbit_0_l|].
  split; [apply Z.div_pos; lia|apply Z.div_lt_upper_bound; lia].
Qed.

Lemma hbit_ext h h' p b :
  (forall i, 0 <= i < 32 -> word h' p i = word h p i) -> 0 <= b < 1024 -> hbit h' p b = hbit h p b.
Proof.
  intros Hw Hb. unfold hbit. rewrite Hw; [done|].
  split; [apply Z.div_pos; lia|apply Z.div_lt_upper_bound; lia].
Qed.

(** A pack cleared and filled again has exactly the bits of its values. *)
Lemma rebuild_spec h p mn mx vs :
  Inv h -> start_pack h <= p <= end_pack h -> range_ok (fixed h) mn mx ->
  Forall (storable (fixed h) mn mx) vs ->
  exists h1 h2, ClearPack h p = Some h1 /\ put_values h1 p mn mx vs = Some h2 /\ Inv h2 /\ same_frame h h2
    /\ (forall q b, in_memory h q -> q <> p -> 0 <= b < 1024 -> hbit h2 q b = hbit h q b)
    /\ (IntervalTooLarge mn mx = false ->
        forall b, 0 <= b < 1024 -> hbit h2 p b = recorded (fixed h) mn mx vs b).
Proof.
  intros Hi Hp Hok Hvs. pose proof (in_memory_pack h p Hi Hp) as Hm.
  destruct (ClearPack_spec h p Hi Hp) as (h1 & E1 & I1 & F1 & W1).
  pose proof F1 as (_ & _ & S1 & N1 & D1 & X1).
  assert (forall q b, in_memory h q -> q <> p -> 0 <= b < 1024 -> hbit h1 q b = hbit h q b) as Hother.
  { intros q b Hq Hne Hb. apply hbit_ext; [|done]. intros i Hk. rewrite W1 by done.
    by destruct (Z.eqb_spec q p). }
  destruct (IntervalTooLarge mn mx) eqn:El.
  - exists h1, h1. split; [done|]. split; [by apply put_values_large|]. done.
  - destruct (put_values_spec h1 p mn mx vs I1) as (h2 & E2 & F2 & I2 & B2);
      [lia|by rewrite X1|done|by rewrite X1|].
    exists h1, h2. split; [done|]. split; [done|]. split; [done|].
    split; [by apply (same_frame_trans _ h1)|].
    assert (forall q, in_memory h q -> in_memory h1 q) as Hm1 by (unfold in_memory in *; intros; lia).
    split.
    + intros q b Hq Hne Hb. rewrite B2 by (auto; done). rewrite Hother by done.
      destruct (Z.eqb_spec q p); [done|]. by rewrite orb_false_r.
    + intros _ b Hb. rewrite B2 by (auto; done). rewrite Z.eqb_refl, X1. simpl.
      rewrite (hbit_zero h1 p b); [done| |done]. intros i Hk. rewrite W1 by done. by rewrite Z.eqb_refl.
Qed.

(** C1: A histogram never hides a value.  Clear the histogram of a pack, record the values
    [vs] of the pack, and ask for the interval [lo .. hi]: the query returns, [RS_NONE] means
    that no recorded value lies in the interval, [RS_ALL] that every one does, and no other
    pack has changed.  This covers narrow integer packs (a bit per value), wide integer packs
    and packs of doubles (a bit per interval, computed in double arithmetic). *)
Theorem Hist_IsValue_sound (h : Hist) (p mn mx lo hi : Z) (vs : list Z) :
  Inv h -> start_pack h <= p <= end_pack h -> range_ok (fixed h) mn mx ->
  vle (fixed h) lo hi = true -> Forall (storable (fixed h) mn mx) vs ->
  exists h1 h2 r, ClearPack h p = Some h1 /\ put_values h1 p mn mx vs = Some h2
    /\ IsValue h2 lo hi p mn mx = Some r
    /\ (r = RS_NONE -> forall v, In v vs -> in_query (fixed h) lo hi v = false)
    /\ (r = RS_ALL -> forall v, In v vs -> in_query (fixed h) lo hi v = true)
    /\ r <> RS_UNKNOWN
    /\ forall q b, in_memory h q -> q <> p -> 0 <= b < 1024 -> hbit h2 q b = hbit h q b.
Proof.
  intros Hi Hp Hok Hlh Hvs. destruct (rebuild_spec h p mn mx vs Hi Hp Hok Hvs)
    as (h1 & h2 & E1 & E2 & I2 & F2 & Ho & Hb). pose proof F2 as (_ & _ & S2 & N2 & _ & X2).
  destruct (IsValue_recorded h2 p mn mx lo hi vs I2) as (r & Er & R1 & R2 & R3);
    [lia|by rewrite X2|by rewrite X2|by rewrite X2|by rewrite X2|].
  rewrite X2 in *. by exists h1, h2, r.
Qed.

(** A pack of doubles 1.0, 2.5 and 4.0: the query [3.0 .. 3.5] excludes it. *)
Lemma Hist_IsValue_sound_witness :
  exists h h1 h2 r, Create (fun _ => 7) Hist_new 70000 false = Some h /\ ClearPack h 1 = Some h1
    /\ put_values h1 1 0x3FF0000000000000 0x4010000000000000
         [0x3FF0000000000000; 0x4004000000000000; 0x4010000000000000] = Some h2
    /\ IsValue h2 0x4008000000000000 0x400C000000000000 1 0x3FF0000000000000 0x4010000000000000 = Some r
    /\ (r = RS_NONE -> in_query false 0x4008000000000000 0x400C000000000000 0x4004000000000000 = false).
Proof.
  destruct (Create_spec (fun _ => 7) Hist_new 70000 false ltac:(lia))
    as (h & E & Hi & _ & Hfx & Hst & Hp & _). change ((70000 - 1) / 65536 + 1) with 2 in Hp.
  pose proof (inv_end h Hi) as He.
  destruct (Hist_IsValue_sound h 1 0x3FF0000000000000 0x4010000000000000 0x4008000000000000 0x400C000000000000
    [0x3FF0000000000000; 0x4004000000000000; 0x4010000000000000]) as (h1 & h2 & r & E1 & E2 & E3 & N & _).
  - done.
  - lia.
  - rewrite Hfx. eexists _, _. split; [vm_compute; reflexivity|]. split; [vm_compute; reflexivity|].
    right. split; [reflexivity|]. split; [vm_compute; discriminate|vm_compute; reflexivity].
  - rewrite Hfx. vm_compute. reflexivity.
  - rewrite Hfx. repeat constructor; vm_compute; discriminate.
  - exists h, h1, h2, r. repeat (split; [done|]). intros Hr. rewrite Hfx in N.
    apply N; [done|]. simpl. tauto.
Defined.

Lemma exact_bit mn mx v :
  range_ok true mn mx -> ExactMode mn mx = true -> vslot true mn mx v = v - mn - 1 /\ mx - mn <= 1022.
Proof.
  intros (? & ? & ?) Em. unfold vslot. rewrite Em. unfold ExactMode, RSI_HIST_INT_RES in Em.
  rewrite wrap_id in Em by (unfold is_word; lia). bool_to_prop. lia.
Qed.

(** A pack whose bits are exactly those of [vs], in exact mode. *)
Lemma IsValue_exact h p mn mx lo hi vs :
  Inv h -> start_pack h <= p <= end_pack h -> fixed h = true -> range_ok true mn mx ->
  ExactMode mn mx = true -> IntervalTooLarge lo hi = false -> lo <= hi ->
  Forall (storable true mn mx) vs -> (lo <= mn <= hi -> In mn vs) -> (lo <= mx <= hi -> In mx vs) ->
  (forall b, 0 <= b < 1024 -> hbit h p b = recorded true mn mx vs b) ->
  exists r, IsValue h lo hi p mn mx = Some r /\ (r = RS_NONE <-> forall v, In v vs -> ~ lo <= v <= hi).
Proof.
  intros Hi Hp Hfx Hok Em Hq Hlh Hvs Hmn Hmx Hb. destruct (exact_bit mn mx 0 Hok Em) as [_ Hwid].
  pose proof Hok as (Hb1 & Hb2 & Hb3).
  assert (IntervalTooLarge mn mx = false) as El by (unfold IntervalTooLarge; cmp_solve).
  destruct (IsValue_recorded h p mn mx lo hi vs Hi Hp) as (r & Er & R1 & R2 & R3);
    rewrite ?Hfx; try done; [by apply Z.leb_le|].
  exists r. split; [done|]. rewrite Hfx in R1. split.
  - intros Hr v Hv Hin. specialize (R1 Hr v Hv). unfold in_query, vle in R1.
    rewrite !(proj2 (Z.leb_le _ _)) in R1 by lia. done.
  - intros Hnone.
    assert (~ lo <= mn <= hi) by (intros Hc; exact (Hnone mn (Hmn Hc) Hc)).
    assert (~ lo <= mx <= hi) by (intros Hc; exact (Hnone mx (Hmx Hc) Hc)).
    revert Er. unfold IsValue. destruct (Z.ltb_spec p (start_pack h)); [lia|].
    destruct (Z.ltb_spec (end_pack h) p); [lia|]. simpl. rewrite El, Hq, Hfx. simpl.
    pose proof (query_fixed_spec mn mx lo hi Hok Hlh) as Hm.
    destruct (query_fixed lo hi mn mx) as [[]|[[a b]|]]; cbn [query_meaning vle] in Hm; try done;
      rewrite ?Z.leb_le in Hm; try lia; [congruence|].
    destruct Hm as (-> & -> & Hpos & J1 & J2 & K1 & K2).
    unfold in_range, inside, vle in J1, J2, K1, K2. bool_to_prop.
    rewrite !(fun v => proj1 (exact_bit mn mx v Hok Em)) in *.
    unfold RSI_HIST_INT_RES. change (32 * 32) with 1024.
    destruct (Z.leb_spec 1024 (hi - mn - 1)); [lia|].
    destruct (any_set_spec h p (lo - mn - 1) (hi - mn - 1) (inv_shape h Hi)) as (c & -> & Hc);
      [apply in_memory_pack; [done|lia]|lia|lia|]. simpl.
    assert (c = false) as ->; [|congruence]. apply Hc. intros i Hin. rewrite Hb by lia.
    apply not_true_iff_false. intros Hrec. unfold recorded in Hrec. apply existsb_exists in Hrec as (v & Hv & Hv2).
    apply andb_true_iff in Hv2 as [_ Hv2]. rewrite (proj1 (exact_bit mn mx v Hok Em)) in Hv2.
    bool_to_prop. apply (Hnone v Hv). lia.
Qed.

(** The histogram of a narrow integer pack (at most 1022 between the extremes, both of
    which occur) is exact: the answer is [RS_NONE] if and only if no value of the pack lies in
    the interval. *)
Theorem Hist_exact (h : Hist) (p mn mx lo hi : Z) (vs : list Z) :
  Inv h -> start_pack h <= p <= end_pack h -> fixed h = true -> range_ok true mn mx ->
  ExactMode mn mx = true -> IntervalTooLarge lo hi = false -> lo <= hi ->
  Forall (storable true mn mx) vs -> In mn vs -> In mx vs ->
  exists h1 h2 r, ClearPack h p = Some h1 /\ put_values h1 p mn mx vs = Some h2
    /\ IsValue h2 lo hi p mn mx = Some r
    /\ (r = RS_NONE <-> forall v, In v vs -> ~ lo <= v <= hi).
Proof.
  intros Hi Hp Hfx Hok Em Hq Hlh Hvs Hmn Hmx. destruct (exact_bit mn mx 0 Hok Em) as [_ Hwid].
  destruct (rebuild_spec h p mn mx vs Hi Hp) as (h1 & h2 & E1 & E2 & I2 & F2 & _ & Hb);
    [by rewrite Hfx|by rewrite Hfx|]. pose proof F2 as (_ & _ & S2 & N2 & _ & X2). rewrite Hfx in *.
  destruct (IsValue_exact h2 p mn mx lo hi vs I2 ltac:(lia) X2) as (r & Er & Hr); try done.
  - apply Hb. destruct Hok as (? & ? & ?). unfold IntervalTooLarge. cmp_solve.
  - by exists h1, h2, r.
Qed.

Lemma Hist_exact_witness :
  exists h h1 h2 r, Create (fun _ => 7) Hist_new 70000 true = Some h /\ ClearPack h 0 = Some h1
    /\ put_values h1 0 (-5) 900 [900; 17; -5; 17] = Some h2
    /\ IsValue h2 16 18 0 (-5) 900 = Some r
    /\ (r = RS_NONE <-> forall v, In v [900; 17; -5; 17] -> ~ 16 <= v <= 18).
Proof.
  destruct (Create_spec (fun _ => 7) Hist_new 70000 true ltac:(lia))
    as (h & E & Hi & _ & Hfx & Hst & Hp & _). change ((70000 - 1) / 65536 + 1) with 2 in Hp.
  pose proof (inv_end h Hi) as He.
  destruct (Hist_exact h 0 (-5) 900 16 18 [900; 17; -5; 17]) as (h1 & h2 & r & E1 & E2 & E3 & N);
    try done; try lia; try (simpl; tauto).
  - repeat constructor; vm_compute; discriminate.
  - by exists h, h1, h2, r.
Defined.

(** ** Counting the bits of a pack *)

Lemma word_count h p i :
  0 <= i -> CalculateBinSum (word h p i) = cnt (hbit h p) (32 * i) (32 * (i + 1)).
Proof.
  intros Hi. rewrite CalculateBinSum_spec. replace (32 * i) with (0 + 32 * i) by lia.
  replace (32 * (i + 1)) with (32 + 32 * i) by lia. rewrite <- cnt_shift. apply cnt_ext. intros k Hk.
  unfold hbit. rewrite (Z.mul_comm 32 i), Z.div_add, Z.mod_add, Z.div_small, Z.mod_small by lia. done.
Qed.

Lemma count_words h p n :
  Shape h -> in_memory h p -> 0 <= n <= 32 ->
  foldl (fun d i => d ← d; w ← get_word h p i; Some (d + CalculateBinSum w)) (Some 0) (range 0 (n - 1))
    = Some (cnt (hbit h p) 0 (32 * n)).
Proof.
  intros Hs Hm Hn.
  pose proof (foldl_range (fun d i => d ← d; w ← get_word h p i; Some (d + CalculateBinSum w))
    (fun i d => d = Some (cnt (hbit h p) 0 (32 * i))) 0 (n - 1) (Some 0)) as Hf.
  replace (n - 1 + 1) with n in Hf by lia. apply Hf; [lia|by rewrite cnt_empty by lia|].
  intros i d Hi ->. simpl. rewrite get_word_spec by (done || lia). simpl.
  rewrite word_count by lia. by rewrite (cnt_split _ 0 (32 * i) (32 * (i + 1))) by lia.
Qed.

Lemma low_mask_testbit k i :
  0 <= k < 32 -> 0 <= i < 32 -> Z.testbit (wrap32 (Z.lnot (Z.shiftl 0xFFFFFFFF k))) i = (i <? k).
Proof.
  intros Hk Hi. rewrite wrap_testbit by done. rewrite Z.lnot_spec, Z.shiftl_spec by lia.
  destruct (Z.ltb_spec i k).
  - by rewrite Z.testbit_neg_r by lia.
  - change 0xFFFFFFFF with (Z.ones 32). by rewrite Z.ones_spec_low by lia.
Qed.

Lemma masked_count h p i k :
  0 <= i -> 0 <= k < 32 ->
  CalculateBinSum (Z.land (word h p i) (wrap32 (Z.lnot (Z.shiftl 0xFFFFFFFF k))))
    = cnt (hbit h p) (32 * i) (32 * i + k).
Proof.
  intros Hi Hk. rewrite CalculateBinSum_spec. rewrite (cnt_split _ 0 k 32) by lia.
  rewrite (proj2 (cnt_zero _ k 32)).
  2:{ intros j Hj. rewrite Z.land_spec, low_mask_testbit by lia.
      destruct (Z.ltb_spec j k); [lia|]. by rewrite andb_false_r. }
  rewrite Z.add_0_r. replace (32 * i) with (0 + 32 * i) at 1 by lia.
  replace (32 * i + k) with (k + 32 * i) by lia. rewrite <- cnt_shift. apply cnt_ext. intros j Hj.
  rewrite Z.land_spec, low_mask_testbit by lia. destruct (Z.ltb_spec j k); [|lia]. rewrite andb_true_r.
  unfold hbit. rewrite (Z.mul_comm 32 i), Z.div_add, Z.mod_add, Z.div_small, Z.mod_small by lia. done.
Qed.

(** [NoOnes] returns the number of set bits among the first [width] bits of the
    histogram of the pack (all 1024 when [width] is larger). *)
Theorem Hist_NoOnes_count (h : Hist) (p width : Z) :
  Inv h -> start_pack h <= p <= end_pack h -> 0 <= width < 2 ^ 31 ->
  NoOnes h p width = Some (cnt (hbit h p) 0 (Z.min width 1024)).
Proof.
  intros Hi Hp Hw. pose proof (in_memory_pack h p Hi Hp) as Hm. pose proof (inv_shape h Hi) as Hs.
  unfold NoOnes, RSI_HIST_INT_RES. change (32 * 32) with 1024.
  destruct (Z.ltb_spec p (start_pack h)); [lia|]. destruct (Z.ltb_spec (end_pack h) p); [lia|]. simpl.
  rewrite Z.quot_div_nonneg, Z.rem_mod_nonneg by lia.
  pose proof (Z.div_mod width 32 ltac:(lia)). pose proof (Z.mod_pos_bound width 32 ltac:(lia)).
  destruct (Z.leb_spec 1024 width).
  - rewrite count_words by (done || lia). rewrite Z.min_r by lia. done.
  - rewrite count_words by (done || lia). simpl. rewrite Z.min_l by lia.
    destruct (Z.ltb_spec (width / 32) 32); [|lia].
    destruct (Z.ltb_spec 0 (width mod 32)); simpl.
    + rewrite get_word_spec by (done || lia). simpl. rewrite masked_count by lia.
      rewrite <- cnt_split by lia. do 2 f_equal. lia.
    + do 2 f_equal. lia.
Qed.

Lemma Hist_NoOnes_count_witness :
  exists h, Create (fun _ => 7) Hist_new 70000 true = Some h
    /\ NoOnes h 1 100 = Some (cnt (hbit h 1) 0 (Z.min 100 1024)).
Proof.
  destruct (Create_spec (fun _ => 7) Hist_new 70000 true ltac:(lia))
    as (h & E & Hi & _ & Hfx & Hst & Hp & _). change ((70000 - 1) / 65536 + 1) with 2 in Hp.
  pose proof (inv_end h Hi) as He. exists h. split; [done|]. apply (Hist_NoOnes_count h 1 100); [done|lia|lia].
Defined.

(** ** Appending a histogram of another index *)

(** [AppendKN] adds one pack to the index: its histogram is the one of pack [p] of the
    other index, every earlier pack keeps its own, and the number of rows becomes the full
    earlier packs plus the rows of the new one. *)
Theorem Hist_AppendKN (junk : Z -> Z) (h hist : Hist) (p values : Z) :
  Inv h -> Inv hist -> start_pack hist <= p <= end_pack hist -> p <> no_pack h ->
  no_pack h < 2 ^ 31 - 33 -> 0 < no_obj h -> no_pack h = (no_obj h - 1) / 65536 + 1 -> 0 <= values <= 65536 ->
  exists h', AppendKN junk h p hist values = Some h' /\ Inv h' /\ no_pack h' = no_pack h + 1
    /\ no_obj h' = 65536 * no_pack h + values
    /\ (forall i, 0 <= i < 32 -> get_word h' (no_pack h) i = get_word hist p i)
    /\ forall q i, start_pack h <= q < no_pack h -> 0 <= i < 32 -> get_word h' q i = get_word h q i.
Proof.
  intros Hi Hi2 Hp Hne Hnp Hobj Hpk Hv. unfold AppendKN. unfold MAX_PACK_ROW_SIZE.
  pose proof (inv_end hist Hi2) as He2. destruct (Z.ltb_spec p (no_pack hist)); [|lia].
  destruct (AppendKNs_spec junk h (no_pack h + 1) Hi ltac:(lia))
    as (h1 & -> & I1 & P1 & O1 & (G1 & G2 & G3 & G4)). simpl.
  destruct (Z.eqb_spec p (no_pack h1 - 1)); [lia|].
  pose proof (in_memory_pack hist p Hi2 Hp) as Hm2.
  destruct (read_pack_spec hist p (inv_shape hist Hi2) Hm2) as (ws & -> & Hl & Hws). simpl.
  pose proof (inv_end h1 I1) as He1. pose proof (inv_pack h1 I1).
  destruct (write_whole_spec h1 (no_pack h1 - 1) ws (inv_shape h1 I1)) as (h2 & -> & Hs2 & Hf & Hw);
    [apply in_memory_pack; [done|lia]|done|]. simpl.
  pose proof (Inv_frame h1 h2 I1 Hf Hs2) as I2. pose proof Hf as (F1 & F2 & F3 & F4 & F5 & F6).
  pose proof (inv_pack h Hi). pose proof (inv_shape h Hi) as [? ? ? _].
  assert (forall q, start_pack h <= q <= no_pack h -> in_memory h2 q) as Hm.
  { intros q Hq. apply in_memory_pack; [done|]. pose proof (inv_end h2 I2). lia. }
  eexists. split; [reflexivity|]. split; [by apply Inv_set_obj|]. simpl. split; [lia|]. split.
  - rewrite Z.rem_mod_nonneg by lia. rewrite F1, O1.
    pose proof (Z.div_mod (no_obj h) 65536 ltac:(lia)). pose proof (Z.mod_pos_bound (no_obj h) 65536 ltac:(lia)).
    pose proof (Z.div_mod (no_obj h - 1) 65536 ltac:(lia)).
    pose proof (Z.mod_pos_bound (no_obj h - 1) 65536 ltac:(lia)).
    destruct (Z.eqb_spec (no_obj h mod 65536) 0); rewrite wrap_id by (unfold is_word; lia); nia.
  - split; intros.
    + change (get_word h2 (no_pack h) i = get_word hist p i).
      rewrite !get_word_spec by (done || apply Hi2 || apply Hm; lia). f_equal.
      rewrite Hw by (done || (unfold in_memory in *; specialize (Hm (no_pack h)); lia)).
      destruct (Z.eqb_spec (no_pack h) (no_pack h1 - 1)); [|lia]. by apply Hws.
    + change (get_word h2 q i = get_word h q i).
      assert (in_memory h q) by (unfold in_memory; lia).
      rewrite !get_word_spec by (done || apply Hi || apply Hm; lia). f_equal.
      assert (in_memory h1 q) by (unfold in_memory in *; lia).
      rewrite Hw by done. destruct (Z.eqb_spec q (no_pack h1 - 1)); [lia|]. rewrite G4 by done.
      destruct (Z.ltb_spec q (no_pack_declared h)); [done|lia].
Qed.

Lemma Hist_AppendKN_witness :
  exists h hist h', Create (fun _ => 7) Hist_new 70000 true = Some h
    /\ Create (fun _ => 7) Hist_new 10 true = Some hist
    /\ AppendKN (fun _ => 7) h 0 hist 10 = Some h' /\ no_obj h' = 65536 * no_pack h + 10.
Proof.
  destruct (Create_spec (fun _ => 7) Hist_new 70000 true ltac:(lia)) as (h & E & Hi & Ho & _ & Hst & Hp & _).
  destruct (Create_spec (fun _ => 7) Hist_new 10 true ltac:(lia)) as (g & Eg & Hig & _ & _ & Hstg & Hpg & _).
  change ((70000 - 1) / 65536 + 1) with 2 in Hp. change ((10 - 1) / 65536 + 1) with 1 in Hpg.
  pose proof (inv_end g Hig) as He.
  destruct (Hist_AppendKN (fun _ => 7) h g 0 10 Hi Hig ltac:(lia) ltac:(lia) ltac:(lia) ltac:(lia)
    ltac:(by rewrite Ho, Hp) ltac:(lia)) as (h' & E' & _ & _ & O' & _).
  by exists h, g, h'.
Defined.

(** ** Where the code goes wrong *)

(** Two packs that share the value 10: [Intersection] reads the bits of its own pack twice
    and answers that they have no common value. *)
Example Hist_Intersection_wrong :
  (h ← Create (fun _ => 7) Hist_new 10 true; h ← ClearPack h 0;
   h ← put_values h 0 0 20 [0; 10; 20];
   sec ← Create (fun _ => 7) Hist_new 10 true; sec ← ClearPack sec 0;
   sec ← put_values sec 0 1 19 [1; 10; 19];
   Intersection h 0 0 20 sec 0 1 19) = Some false.
Proof. vm_compute. reflexivity. Qed.

(** A pack from [-2^63 + 2] to [2^62 - 4] passes the test of extreme values, but the width
    overflows [_int64] in [IsValue]: the bit of a query is negative and the histogram is read
    before its start. *)
Example Hist_IsValue_wide_undefined :
  (h ← Create (fun _ => 7) Hist_new 10 true;
   IsValue h (- 2 ^ 62) (- 2 ^ 62) 0 (- 2 ^ 63 + 2) 4611686018427387900) = None
  /\ IntervalTooLarge (- 2 ^ 63 + 2) 4611686018427387900 = false.
Proof. vm_compute. split; reflexivity. Qed.

(** A pack of doubles from [-DBL_MAX] to [DBL_MAX]: the width is infinite and the bit of a
    value is a conversion of a NaN. *)
Example Hist_PutValue_infinite_width :
  (h ← Create (fun _ => 7) Hist_new 10 false;
   PutValue h 0x7FE1CCF385EBC8A0 0 (0xFFEFFFFFFFFFFFFF - 2 ^ 64) 0x7FEFFFFFFFFFFFFF) = None.
Proof. vm_compute. reflexivity. Qed.
