(* ===== verification/RSIHistFile.v ===== *)
(** * The file of a histogram (core/RSI_Histogram.cpp: Save, Load, LoadLastOnly)

    A file keeps two versions of an index, at locations 0 and 1: each has its own header and
    its own copy of the last pack, and both share the table of the other packs.  A
    transaction loads only the last pack of the committed version, extends the index and
    saves it at the other location; until the commit the old version must stay readable. *)

From S2P Require Import Prelude BinTools MemBlock FilterBlock FilterDefs ByteFile RSIHist.

Definition header_bytes (h : Hist) : list Z :=
  [1] ++ bytes_le 8 (no_obj h) ++ bytes_le 4 (no_pack h)
  ++ [RSI_HIST_INT_RES; if fixed h then 1 else 0].

(** The loops over the blocks of the table. *)
Fixpoint write_blocks (f : IBFile) (bufs : list (list Z)) (to_write : Z) : option IBFile :=
  if to_write <=? 0 then Some f
  else match bufs with
  | [] => None
  | b :: rest =>
      if MAX_HIST_BLOCK_SIZE <? to_write then
        if 4 * zlen b <? MAX_HIST_BLOCK_SIZE then None
        else write_blocks (WriteExact f (slice (words_to_bytes b) 0 MAX_HIST_BLOCK_SIZE)) rest
               (to_write - MAX_HIST_BLOCK_SIZE)
      else if 4 * zlen b <? to_write then None
      else Some (WriteExact f (slice (words_to_bytes b) 0 to_write))
  end.

Fixpoint read_blocks (f : IBFile) (bufs : list (list Z)) (to_read : Z) : option (list (list Z)) :=
  if to_read <=? 0 then Some bufs
  else match bufs with
  | [] => None
  | b :: rest =>
      if MAX_HIST_BLOCK_SIZE <? to_read then
        '(bs, f) ← ReadExact f MAX_HIST_BLOCK_SIZE;
        b ← write_words b 0 (bytes_to_words bs);
        rest ← read_blocks f rest (to_read - MAX_HIST_BLOCK_SIZE);
        Some (b :: rest)
      else
        '(bs, _) ← ReadExact f to_read;
        b ← write_words b 0 (bytes_to_words bs);
        Some (b :: rest)
  end.

Definition Save (h : Hist) (f : IBFile) (current_save_loc : Z) : option IBFile :=
  let zero := current_save_loc =? 0 in
  f ← Seek_set f (if zero then 0 else 15);
  let f := WriteExact f (header_bytes h) in
  f ← (if zero then Seek_cur f 15 else Seek_cur f RSI_HIST_SIZE);
  if zlen (hist_buffers h) =? 0 then Some f
  else
    ws ← read_pack h (no_pack h - 1);
    let f := WriteExact f (words_to_bytes ws) in
    f ← (if zero then Seek_cur f RSI_HIST_SIZE else Some f);
    f ← Seek_cur f (start_pack h * RSI_HIST_SIZE);
    write_blocks f (hist_buffers h) ((no_pack h - start_pack h - 1) * RSI_HIST_SIZE).

(** The header: rows, packs, and whether the column is not floating point. *)
Definition parse_header (bs : list Z) : Z * Z * bool :=
  (swrap 64 (of_le (slice bs 1 8)), swrap 32 (of_le (slice bs 9 4)), 0 <? bs.[0|14]).

(** A negative number of packs makes the allocation fail. *)
Definition Load (junk : Z -> Z) (h : Hist) (f : IBFile) (current_read_loc : Z) : option Hist :=
  f ← Seek_set f 8;
  '(_, f) ← ReadExact f 4;
  f ← Seek_end f 0;
  let zero := current_read_loc =? 0 in
  f ← Seek_set f (if zero then 0 else 15);
  '(header, f) ← ReadExact f 15;
  let '(obj, np, fx) := parse_header header in
  f ← (if zero then Seek_cur f 15 else Seek_cur f RSI_HIST_SIZE);
  let h := mkHist obj np 0 (np - 1) 0 [] fx in
  if np =? 0 then Some h
  else if np <? 0 then None
  else
    h ← Alloc junk h np;
    '(bs, f) ← ReadExact f RSI_HIST_SIZE;
    h ← write_pack h (np - 1) 0 (bytes_to_words bs);
    f ← (if zero then Seek_cur f RSI_HIST_SIZE else Some f);
    bufs ← read_blocks f (hist_buffers h) ((np - 1) * RSI_HIST_SIZE);
    Some (set_bufs h bufs).

Definition LoadLastOnly (junk : Z -> Z) (h : Hist) (f : IBFile) (current_read_loc : Z) : option Hist :=
  f ← Seek_set f 8;
  '(_, f) ← ReadExact f 4;
  f ← Seek_end f 0;
  let zero := current_read_loc =? 0 in
  f ← Seek_set f (if zero then 0 else 15);
  '(header, f) ← ReadExact f 15;
  let '(obj, np, fx) := parse_header header in
  if 0 <? np then
    f ← (if zero then Seek_cur f 15 else Seek_cur f RSI_HIST_SIZE);
    h ← Alloc junk (mkHist obj np (np - 1) (np - 1) 0 [] fx) np;
    '(bs, _) ← ReadExact f RSI_HIST_SIZE;
    write_pack h (start_pack h) 0 (bytes_to_words bs)
  else Some (mkHist obj np 0 0 0 [] fx).

(** ** Packs of a list of blocks *)

Abbreviation NO := NO_HISTS_IN_BLOCK.

Lemma max_block_packs : MAX_HIST_BLOCK_SIZE = NO * 128.
Proof. vm_compute. reflexivity. Qed.

(** The words of the [k]-th pack in memory. *)
Definition pack_words (bufs : list (list Z)) (k : Z) : list Z :=
  slice (bufs.[[]|k / NO]) (k mod NO * 32) 32.

Lemma znth_cons {A : Type} (d x : A) l k :
  0 <= k -> (x :: l).[d|k] = if k =? 0 then x else l.[d|k - 1].
Proof.
  intros. change (x :: l) with ([x] ++ l). destruct (Z.eqb_spec k 0) as [->|].
  - done.
  - by rewrite znth_app_r by (unfold zlen; simpl; lia).
Qed.

Lemma zlen_cons {A : Type} (x : A) l : zlen (x :: l) = 1 + zlen l.
Proof. unfold zlen. cbn [length]. lia. Qed.

(** The first block has at most [NO] packs; the other blocks hold the packs after them. *)
Lemma bufs_shape_cons b rest n :
  0 <= n -> bufs_shape (b :: rest) n <->
  0 < n /\ zlen b = Z.min NO n * 32 /\ bufs_shape rest (Z.max 0 (n - NO)).
Proof.
  intros Hn. pose proof no_hists_pos. unfold bufs_shape. rewrite zlen_cons.
  destruct (block_count_spec n Hn) as [? ?].
  destruct (block_count_spec (Z.max 0 (n - NO)) ltac:(lia)) as [? ?].
  pose proof (zlen_nonneg rest).
  assert (0 < n -> BlockCount n = 1 + BlockCount (Z.max 0 (n - NO))) as Hbc.
  { intros. destruct (Z.max_spec 0 (n - NO)) as [[? E]|[? E]]; rewrite E in *.
    - assert (- NO < (BlockCount n - 1 - BlockCount (n - NO)) * NO < NO) by lia. nia.
    - assert (BlockCount 0 = 0) as -> by (unfold BlockCount; apply Z.div_small; lia). nia. }
  assert (forall j, 0 <= j < BlockCount (Z.max 0 (n - NO)) ->
    packs_in n (j + 1) = packs_in (Z.max 0 (n - NO)) j) as Hpi by (intros; unfold packs_in; nia).
  split.
  - intros [Hl Hb]. assert (0 < n) by nia. split; [done|]. split.
    + specialize (Hb 0 ltac:(lia)). rewrite znth_cons in Hb by lia. simpl in Hb. rewrite Hb.
      unfold packs_in. lia.
    + split; [lia|]. intros j Hj. specialize (Hb (j + 1) ltac:(lia)).
      rewrite znth_cons in Hb by lia. destruct (Z.eqb_spec (j + 1) 0); [lia|].
      replace (j + 1 - 1) with j in Hb by lia. by rewrite Hb, Hpi.
  - intros (Hp & Hb & Hl & Hr). split; [lia|]. intros j Hj. rewrite znth_cons by lia.
    destruct (Z.eqb_spec j 0) as [->|]; [rewrite Hb; unfold packs_in; lia|].
    rewrite Hr by lia. rewrite <- Hpi by lia. do 2 f_equal. lia.
Qed.

Lemma pack_words_cons b rest k :
  0 <= k -> pack_words (b :: rest) k = if k <? NO then slice b (k * 32) 32 else pack_words rest (k - NO).
Proof.
  intros Hk. pose proof no_hists_pos. unfold pack_words.
  destruct (Z.ltb_spec k NO).
  - by rewrite Z.div_small, Z.mod_small by lia.
  - replace k with (k - NO + 1 * NO) at 1 2 by lia. rewrite Z.div_add, Z.mod_add by lia.
    rewrite znth_cons by (apply Z.add_nonneg_nonneg; [apply Z.div_pos; lia|lia]).
    pose proof (Z.div_pos (k - NO) NO ltac:(lia) ltac:(lia)).
    destruct (Z.eqb_spec ((k - NO) / NO + 1) 0); [lia|].
    do 2 f_equal. lia.
Qed.

Lemma bufs_shape_nil n : 0 <= n -> bufs_shape [] n -> n = 0.
Proof.
  intros Hn [Hl _]. pose proof no_hists_pos. destruct (block_count_spec n Hn) as [? ?].
  change (zlen (@nil (list Z))) with 0 in Hl. nia.
Qed.

(** ** Writing the table *)

(** [f'] is [f] with the bytes of [P .. P + n - 1] changed and nothing else. *)
Definition changed_only (f f' : list Z) (P n : Z) : Prop :=
  zlen f' = Z.max (zlen f) (P + n)
  /\ forall off c, 0 <= off -> 0 <= c -> off + c <= zlen f -> off + c <= P \/ P + n <= off ->
       slice f' off c = slice f off c.

Lemma WriteExact_spec f bs :
  0 <= fpos f -> 0 < zlen bs ->
  fpos (WriteExact f bs) = fpos f + zlen bs
  /\ slice (fbytes (WriteExact f bs)) (fpos f) (zlen bs) = bs
  /\ changed_only (fbytes f) (fbytes (WriteExact f bs)) (fpos f) (zlen bs).
Proof.
  intros Hp Hl. unfold WriteExact. destruct bs as [|b bs]; [unfold zlen in Hl; simpl in Hl; lia|].
  split; [done|]. split; [by apply slice_overwrite_same|].
  split; [by apply zlen_overwrite|]. intros. by apply slice_overwrite_other.
Qed.

Lemma write_run_spec f b c :
  0 <= fpos f -> 0 < c -> 32 * c <= zlen b ->
  let f' := WriteExact f (slice (words_to_bytes b) 0 (128 * c)) in
  fpos f' = fpos f + 128 * c
  /\ (forall k, 0 <= k < c -> slice (fbytes f') (fpos f + 128 * k) 128 = words_to_bytes (slice b (k * 32) 32))
  /\ changed_only (fbytes f) (fbytes f') (fpos f) (128 * c).
Proof.
  intros Hp Hc Hb f'. pose proof (zlen_words_to_bytes b) as Hwb.
  assert (zlen (slice (words_to_bytes b) 0 (128 * c)) = 128 * c) as Hl by (apply length_slice; lia).
  destruct (WriteExact_spec f (slice (words_to_bytes b) 0 (128 * c)) Hp ltac:(lia)) as (E1 & E2 & E3).
  rewrite Hl in E1, E2, E3. fold f' in E1, E2, E3. split; [done|]. split; [|done].
  intros k Hk. destruct E3 as [E3 _].
  rewrite <- (slice_slice (fbytes f') (fpos f) (128 * c) (128 * k) 128) by lia. rewrite E2.
  rewrite slice_slice by lia. rewrite Z.add_0_l.
  replace (128 * k) with (4 * (k * 32)) by lia. change 128 with (4 * 32). apply slice_words; lia.
Qed.

Lemma changed_only_trans f f1 f2 P n m :
  0 <= P -> 0 <= n -> 0 <= m -> changed_only f f1 P n -> changed_only f1 f2 (P + n) m ->
  changed_only f f2 P (n + m).
Proof.
  intros HP Hn Hm [L1 C1] [L2 C2]. split; [lia|]. intros off c Ho Hc Hl Hd.
  rewrite C2 by lia. apply C1; lia.
Qed.

Lemma write_blocks_spec bufs : forall n m f,
  0 <= m <= n -> 0 <= fpos f -> bufs_shape bufs n ->
  exists f', write_blocks f bufs (m * 128) = Some f'
    /\ (forall k, 0 <= k < m -> slice (fbytes f') (fpos f + 128 * k) 128 = words_to_bytes (pack_words bufs k))
    /\ (0 < m -> changed_only (fbytes f) (fbytes f') (fpos f) (128 * m))
    /\ (m = 0 -> f' = f).
Proof.
  pose proof no_hists_pos. induction bufs as [|b rest IH]; intros n m f Hm Hp Hs.
  { apply bufs_shape_nil in Hs; [|lia]. assert (m = 0) as -> by lia. exists f. simpl.
    split; [done|]. split; [lia|]. split; [lia|done]. }
  cbn [write_blocks]. destruct (Z.leb_spec (m * 128) 0).
  { exists f. split; [done|]. split; [lia|]. split; [lia|done]. }
  apply bufs_shape_cons in Hs as (Hn & Hb & Hr); [|lia]. rewrite max_block_packs.
  destruct (Z.ltb_spec (NO * 128) (m * 128)).
  - destruct (Z.ltb_spec (4 * zlen b) (NO * 128)); [lia|].
    rewrite (Z.mul_comm NO 128).
    destruct (write_run_spec f b NO Hp ltac:(lia) ltac:(lia)) as (E1 & E2 & E3).
    set (f1 := WriteExact f _) in *.
    destruct (IH (Z.max 0 (n - NO)) (m - NO) f1 ltac:(lia) ltac:(lia) Hr) as (f' & Ew & Hk & Hc & _).
    specialize (Hc ltac:(lia)).
    replace (m * 128 - 128 * NO) with ((m - NO) * 128) by lia. exists f'. split; [done|]. split.
    + intros k Hk'. rewrite pack_words_cons by lia. destruct (Z.ltb_spec k NO).
      * rewrite <- E2 by lia. apply Hc; destruct E3; lia.
      * rewrite <- Hk by lia. f_equal. lia.
    + split; [|lia]. intros _. replace (128 * m) with (128 * NO + 128 * (m - NO)) by lia.
      apply (changed_only_trans _ (fbytes f1)); try lia; [done|]. by rewrite <- E1.
  - destruct (Z.ltb_spec (4 * zlen b) (m * 128)); [lia|]. rewrite (Z.mul_comm m 128).
    destruct (write_run_spec f b m Hp ltac:(lia) ltac:(lia)) as (E1 & E2 & E3).
    eexists. split; [reflexivity|]. split; [|split; [done|lia]].
    intros k Hk. rewrite pack_words_cons by lia. destruct (Z.ltb_spec k NO); [|lia]. by apply E2.
Qed.

(** ** Reading the table *)

Lemma slice_app l off a b :
  0 <= off -> 0 <= a -> 0 <= b -> slice l off (a + b) = slice l off a ++ slice l (off + a) b.
Proof.
  intros. unfold slice. replace (Z.to_nat (a + b)) with (Z.to_nat a + Z.to_nat b)%nat by lia.
  rewrite <- take_take_drop. f_equal. rewrite drop_drop. do 2 f_equal. lia.
Qed.

(** The words of the packs [0 .. c - 1], one after the other. *)
Definition run (ws : Z -> list Z) (c : Z) : list Z := flat_map ws (range 0 (c - 1)).

Lemma run_succ ws c : 0 <= c -> run ws (c + 1) = run ws c ++ ws c.
Proof.
  intros. unfold run. replace (c + 1 - 1) with (c - 1 + 1) by lia. rewrite range_snoc by lia.
  rewrite flat_map_app. simpl. rewrite app_nil_r. do 2 f_equal. lia.
Qed.

(** A pack as the file stores it. *)
Definition pack_ok (ws : list Z) : Prop := zlen ws = 32 /\ Forall (is_word 32) ws.

Section Runs.
Context (ws : Z -> list Z) (c : Z) (Hws : forall k, 0 <= k < c -> pack_ok (ws k)).

Lemma run_ind (P : Z -> Prop) : P 0 -> (forall d, 0 <= d < c -> P d -> P (d + 1)) -> 0 <= c -> P c.
Proof using.
  intros H0 Hs Hc. assert (forall n : nat, Z.of_nat n <= c -> P (Z.of_nat n)) as H.
  { induction n as [|n IH]; intros Hn; [done|]. rewrite Nat2Z.inj_succ. apply Hs; [lia|]. apply IH. lia. }
  rewrite <- (Z2Nat.id c) by done. apply H. lia.
Qed.

Lemma run_props :
  0 <= c -> zlen (run ws c) = 32 * c /\ Forall (is_word 32) (run ws c)
  /\ forall k, 0 <= k < c -> slice (run ws c) (k * 32) 32 = ws k.
Proof using Hws.
  intros Hc. refine (run_ind (fun c => zlen (run ws c) = 32 * c /\ Forall (is_word 32) (run ws c)
    /\ forall k, 0 <= k < c -> slice (run ws c) (k * 32) 32 = ws k) _ _ Hc).
  - split; [done|]. split; [constructor|lia].
  - intros d Hd (L & F & S). destruct (Hws d Hd) as [Ld Fd]. rewrite run_succ by lia.
    split; [rewrite zlen_app; lia|]. split; [by apply Forall_app|]. intros k Hk.
    destruct (Z.eq_dec k d) as [->|].
    + unfold slice, zlen in *. rewrite drop_app_ge by lia.
      replace (Z.to_nat (d * 32) - length (run ws d))%nat with O by lia. rewrite drop_0. apply take_ge. lia.
    + rewrite <- (S k) by lia. unfold slice, zlen in *. rewrite drop_app_le by lia.
      rewrite take_app_le; [done|]. rewrite length_drop. lia.
Qed.

Lemma slice_run l P :
  0 <= P -> P + 128 * c <= zlen l -> 0 <= c ->
  (forall k, 0 <= k < c -> slice l (P + 128 * k) 128 = words_to_bytes (ws k)) ->
  bytes_to_words (slice l P (128 * c)) = run ws c.
Proof using Hws.
  intros HP Hl Hc Hk. rewrite <- (words_bytes_roundtrip (run ws c)) by (by apply run_props). f_equal.
  refine (run_ind (fun d => slice l P (128 * d) = words_to_bytes (run ws d)) _ _ Hc); [done|].
  intros d Hd IH. replace (128 * (d + 1)) with (128 * d + 128) by lia.
  rewrite slice_app, IH, Hk, run_succ, words_to_bytes_app by lia. done.
Qed.
End Runs.

Lemma write_words_prefix b ws :
  zlen ws <= zlen b ->
  exists b', write_words b 0 ws = Some b' /\ zlen b' = zlen b
    /\ forall off c, 0 <= off -> 0 <= c -> off + c <= zlen b ->
         (off + c <= zlen ws -> slice b' off c = slice ws off c)
         /\ (zlen ws <= off -> slice b' off c = slice b off c).
Proof.
  intros Hl. destruct (write_words_spec b 0 ws ltac:(lia) ltac:(lia)) as (b' & E & Hl' & Hk).
  exists b'. split; [done|]. split; [done|]. intros off c Ho Hc Hoc.
  assert (zlen (slice b' off c) = c) by (apply length_slice; lia).
  split; intros Hd; (apply (znth_ext 0); [rewrite !length_slice; lia|]); intros i Hi;
    rewrite !znth_slice, Hk by lia; destruct (Z.ltb_spec (off + i) (0 + zlen ws)); try lia;
    destruct (Z.leb_spec 0 (off + i)); try lia; simpl; [f_equal; lia|done].
Qed.

Lemma read_run_spec f b ws c :
  0 <= fpos f -> 0 < c -> 32 * c <= zlen b -> fpos f + 128 * c <= zlen (fbytes f) ->
  (forall k, 0 <= k < c -> pack_ok (ws k)) ->
  (forall k, 0 <= k < c -> slice (fbytes f) (fpos f + 128 * k) 128 = words_to_bytes (ws k)) ->
  exists bs b', ReadExact f (128 * c) = Some (bs, mkFile (fbytes f) (fpos f + 128 * c))
    /\ write_words b 0 (bytes_to_words bs) = Some b' /\ zlen b' = zlen b
    /\ forall k, 0 <= k -> 32 * k + 32 <= zlen b ->
         slice b' (k * 32) 32 = if k <? c then ws k else slice b (k * 32) 32.
Proof.
  intros Hp Hc Hb Hf Hws Hk. unfold ReadExact.
  destruct (Z.ltb_spec (zlen (fbytes f)) (fpos f + 128 * c)); [lia|]. rewrite andb_false_r.
  pose proof (slice_run ws c Hws (fbytes f) (fpos f) Hp Hf ltac:(lia) Hk) as Er.
  destruct (run_props ws c Hws ltac:(lia)) as (L & _ & S).
  destruct (write_words_prefix b (run ws c) ltac:(lia)) as (b' & E & Hl & Hsl).
  eexists _, b'. split; [reflexivity|]. rewrite Er. split; [done|]. split; [done|]. intros k Hk0 Hk1.
  destruct (Hsl (k * 32) 32 ltac:(lia) ltac:(lia) ltac:(lia)) as [S1 S2].
  destruct (Z.ltb_spec k c); [rewrite S1 by lia; by apply S|apply S2; lia].
Qed.

Lemma read_blocks_spec bufs : forall n m f ws,
  0 <= m <= n -> 0 <= fpos f -> bufs_shape bufs n -> fpos f + 128 * m <= zlen (fbytes f) ->
  (forall k, 0 <= k < m -> pack_ok (ws k)) ->
  (forall k, 0 <= k < m -> slice (fbytes f) (fpos f + 128 * k) 128 = words_to_bytes (ws k)) ->
  exists bufs', read_blocks f bufs (m * 128) = Some bufs' /\ bufs_shape bufs' n
    /\ forall k, 0 <= k < n -> pack_words bufs' k = if k <? m then ws k else pack_words bufs k.
Proof.
  pose proof no_hists_pos. induction bufs as [|b rest IH]; intros n m f ws Hm Hp Hs Hf Hws Hk.
  { pose proof Hs as Hs'. apply bufs_shape_nil in Hs; [|lia]. assert (m = 0) as -> by lia. exists [].
    split; [done|]. split; [done|lia]. }
  cbn [read_blocks]. destruct (Z.leb_spec (m * 128) 0).
  { exists (b :: rest). split; [done|]. split; [done|]. intros k Hk'. destruct (Z.ltb_spec k m); [lia|done]. }
  pose proof Hs as Hs'. apply bufs_shape_cons in Hs as (Hn & Hb & Hr); [|lia]. rewrite max_block_packs.
  destruct (Z.ltb_spec (NO * 128) (m * 128)).
  - rewrite (Z.mul_comm NO 128).
    destruct (read_run_spec f b ws NO) as (bs & b' & -> & E & Hl & Hsl); try lia;
      [intros; apply Hws; lia|intros; apply Hk; lia|].
    cbn [mbind option_bind]. rewrite E. cbn [mbind option_bind].
    replace (m * 128 - 128 * NO) with ((m - NO) * 128) by lia.
    destruct (IH (Z.max 0 (n - NO)) (m - NO) (mkFile (fbytes f) (fpos f + 128 * NO)) (fun k => ws (k + NO)))
      as (rest' & -> & Hr' & Hw'); simpl; try lia; [done|intros; apply Hws; lia| |].
    { intros k Hk'. rewrite <- Hk by lia. f_equal. lia. }
    eexists. split; [reflexivity|]. split; [apply bufs_shape_cons; [lia|]; split; [lia|]; split; [lia|done]|].
    intros k Hk'. rewrite !pack_words_cons by lia. destruct (Z.ltb_spec k NO).
    + rewrite Hsl by lia. destruct (Z.ltb_spec k NO); [|lia]. destruct (Z.ltb_spec k m); [done|lia].
    + rewrite Hw' by lia. destruct (Z.ltb_spec (k - NO) (m - NO)), (Z.ltb_spec k m); try lia; [|done].
      f_equal. lia.
  - rewrite (Z.mul_comm m 128).
    destruct (read_run_spec f b ws m) as (bs & b' & -> & E & Hl & Hsl); try lia; try done.
    cbn [mbind option_bind]. rewrite E. cbn [mbind option_bind].
    eexists. split; [reflexivity|]. split; [apply bufs_shape_cons; [lia|]; split; [lia|]; split; [lia|done]|].
    intros k Hk'. rewrite !pack_words_cons by lia. destruct (Z.ltb_spec k NO).
    + apply Hsl; lia.
    + destruct (Z.ltb_spec k m); [lia|done].
Qed.

(** ** Versions of an index in a file *)

Record version := mkVersion { v_obj : Z; v_np : Z; v_fixed : bool; v_pack : Z -> list Z }.

Definition version_ok (v : version) : Prop :=
  - 2 ^ 63 <= v_obj v < 2 ^ 63 /\ 0 < v_np v < 2 ^ 31 - 32
  /\ forall p, 0 <= p < v_np v -> pack_ok (v_pack v p).

Definition header_of (obj np : Z) (fx : bool) : list Z :=
  [1] ++ bytes_le 8 obj ++ bytes_le 4 np ++ [RSI_HIST_INT_RES; if fx then 1 else 0].

(** The version stored at location [loc] of the file. *)
Definition holds (l : list Z) (loc : Z) (v : version) : Prop :=
  slice l (15 * loc) 15 = header_of (v_obj v) (v_np v) (v_fixed v)
  /\ slice l (30 + 128 * loc) 128 = words_to_bytes (v_pack v (v_np v - 1))
  /\ forall p, 0 <= p < v_np v - 1 -> slice l (286 + 128 * p) 128 = words_to_bytes (v_pack v p).

(** The index in memory is the version. *)
Definition represents (h : Hist) (v : version) : Prop :=
  no_obj h = v_obj v /\ no_pack h = v_np v /\ fixed h = v_fixed v
  /\ forall p, start_pack h <= p < v_np v -> read_pack h p = Some (v_pack v p).

Lemma zlen_header obj np fx : zlen (header_of obj np fx) = 15.
Proof. unfold header_of. rewrite !zlen_app. unfold zlen. rewrite !length_bytes_le. done. Qed.

Lemma bytes_le_swrap n w x :
  8 * Z.of_nat n = w -> 0 < w -> swrap w (of_le (bytes_le n x)) = swrap w x.
Proof.
  intros E Hw. rewrite of_bytes_le, E. unfold swrap. rewrite Z.mod_mod; [done|].
  pose proof (Z.pow_pos_nonneg 2 w). lia.
Qed.

Lemma parse_header_of obj np fx :
  - 2 ^ 63 <= obj < 2 ^ 63 -> - 2 ^ 31 <= np < 2 ^ 31 -> parse_header (header_of obj np fx) = (obj, np, fx).
Proof.
  intros Ho Hn. unfold parse_header, header_of.
  assert (slice ([1] ++ bytes_le 8 obj ++ bytes_le 4 np ++ [RSI_HIST_INT_RES; if fx then 1 else 0]) 1 8
    = bytes_le 8 obj) as -> by (unfold slice; cbn [bytes_le]; reflexivity).
  assert (slice ([1] ++ bytes_le 8 obj ++ bytes_le 4 np ++ [RSI_HIST_INT_RES; if fx then 1 else 0]) 9 4
    = bytes_le 4 np) as -> by (unfold slice; cbn [bytes_le]; reflexivity).
  rewrite (bytes_le_swrap 8 64), (bytes_le_swrap 4 32) by lia.
  rewrite swrap64_id, swrap_int by done. by destruct fx.
Qed.

Lemma slice_fits l off n bs : 0 <= off -> slice l off n = bs -> zlen bs = n -> 0 < n -> off + n <= zlen l.
Proof. intros Ho <- Hl Hn. unfold slice, zlen in *. rewrite length_take, length_drop in Hl. lia. Qed.

Lemma pack_bytes_len ws : pack_ok ws -> zlen (words_to_bytes ws) = 128.
Proof. intros [Hl _]. rewrite zlen_words_to_bytes. lia. Qed.

Lemma read_pack_words h p :
  Shape h -> in_memory h p -> read_pack h p = Some (pack_words (hist_buffers h) (p - start_pack h)).
Proof.
  intros Hs Hp. destruct (locate h p Hs Hp) as (? & ? & ?).
  unfold read_pack, PackBuf, RSI_HIST_INT_RES, pack_words.
  rewrite (zget_znth []) by done. cbn [mbind option_bind].
  destruct (Z.leb_spec 0 ((p - start_pack h) mod NO * 32)); [|lia].
  destruct (Z.leb_spec ((p - start_pack h) mod NO * 32 + 32)
    (zlen ((hist_buffers h).[[]|(p - start_pack h) / NO]))); [|lia]. done.
Qed.

Lemma ReadExact_slice f n :
  0 <= fpos f -> fpos f + n <= zlen (fbytes f) ->
  ReadExact f n = Some (slice (fbytes f) (fpos f) n, mkFile (fbytes f) (fpos f + n)).
Proof.
  intros Hp Hn. unfold ReadExact. destruct (Z.ltb_spec (zlen (fbytes f)) (fpos f + n)); [lia|].
  by rewrite andb_false_r.
Qed.

Lemma Seek_set_ok f p : 0 <= p -> Seek_set f p = Some (mkFile (fbytes f) p).
Proof. intros. unfold Seek_set. by destruct (Z.ltb_spec p 0); [lia|]. Qed.

Lemma write_pack_read h p ws :
  Shape h -> in_memory h p -> zlen ws = 32 ->
  exists h', write_pack h p 0 ws = Some h' /\ Shape h' /\ same_frame h h'
    /\ forall q, in_memory h q -> read_pack h' q = if q =? p then Some ws else read_pack h q.
Proof.
  intros Hs Hp Hl. destruct (write_whole_spec h p ws Hs Hp Hl) as (h' & E & Hs' & Hf & Hw).
  exists h'. split; [done|]. split; [done|]. split; [done|]. intros q Hq.
  pose proof Hf as (_ & _ & F3 & _ & F5 & _).
  assert (in_memory h' q) as Hq' by (unfold in_memory in *; lia).
  destruct (read_pack_spec h' q Hs' Hq') as (w1 & -> & L1 & W1).
  destruct (read_pack_spec h q Hs Hq) as (w2 & -> & L2 & W2).
  destruct (Z.eqb_spec q p) as [->|]; f_equal; (apply (znth_ext 0); [lia|]); intros i Hi;
    rewrite W1, Hw by (done || lia); [by rewrite Z.eqb_refl|].
  destruct (Z.eqb_spec q p); [done|]. by rewrite W2 by lia.
Qed.

(** ** Loading what a file holds *)

Lemma Load_table h f m ws :
  Shape h -> start_pack h = 0 -> 0 <= m <= no_pack_declared h -> 0 <= fpos f ->
  (0 < m -> fpos f + 128 * m <= zlen (fbytes f)) ->
  (forall k, 0 <= k < m -> pack_ok (ws k)) ->
  (forall k, 0 <= k < m -> slice (fbytes f) (fpos f + 128 * k) 128 = words_to_bytes (ws k)) ->
  exists bufs, read_blocks f (hist_buffers h) (m * 128) = Some bufs /\ Shape (set_bufs h bufs)
    /\ forall k, in_memory h k -> read_pack (set_bufs h bufs) k = if k <? m then Some (ws k) else read_pack h k.
Proof.
  intros Hs Hst Hm Hp Hf Hws Hk. pose proof Hs as [S1 S2 S3 S4]. rewrite Hst, Z.sub_0_r in S4.
  assert (exists bufs', read_blocks f (hist_buffers h) (m * 128) = Some bufs'
    /\ bufs_shape bufs' (no_pack_declared h)
    /\ forall k, 0 <= k < no_pack_declared h -> pack_words bufs' k = if k <? m then ws k
                                     else pack_words (hist_buffers h) k) as (bufs & E & Hb & Hw).
  { destruct (Z.eq_dec m 0) as [->|].
    - exists (hist_buffers h). split; [by destruct (hist_buffers h)|]. split; [done|].
      intros k Hk'. destruct (Z.ltb_spec k 0); [lia|done].
    - apply read_blocks_spec; try done. apply Hf. lia. }
  assert (Shape (set_bufs h bufs)) as Hs'.
  { split; simpl; try done. by rewrite Hst, Z.sub_0_r. }
  exists bufs. split; [done|]. split; [done|]. intros k Hk'.
  rewrite !read_pack_words by done. simpl. rewrite Hst, Z.sub_0_r. destruct Hk' as [K1 K2].
  rewrite Hw by lia. by destruct (k <? m).
Qed.

Lemma Load_spec junk h f loc v :
  loc = 0 \/ loc = 1 -> version_ok v -> holds (fbytes f) loc v ->
  exists h', Load junk h f loc = Some h' /\ Inv h' /\ start_pack h' = 0 /\ represents h' v.
Proof.
  intros Hloc (Ho & Hn & Hpk) (Hh & Hlast & Htab).
  assert (15 * loc + 15 <= zlen (fbytes f)) as F1 by (eapply slice_fits; [lia|exact Hh|apply zlen_header|lia]).
  assert (30 + 128 * loc + 128 <= zlen (fbytes f)) as F2
    by (eapply slice_fits; [lia|exact Hlast|apply pack_bytes_len, Hpk; lia|lia]).
  assert (0 < v_np v - 1 -> 286 + 128 * (v_np v - 1) <= zlen (fbytes f)) as F3.
  { intros. pose proof (Htab (v_np v - 2) ltac:(lia)) as Hl2.
    apply slice_fits in Hl2; [lia|lia|apply pack_bytes_len, Hpk; lia|lia]. }
  unfold Load. rewrite Seek_set_ok by lia. cbn [mbind option_bind].
  rewrite ReadExact_slice by (simpl; lia). cbn [mbind option_bind fbytes].
  unfold Seek_end. rewrite Seek_set_ok by (pose proof (zlen_nonneg (fbytes f)); simpl; lia).
  cbn [mbind option_bind fbytes].
  replace (if loc =? 0 then 0 else 15) with (15 * loc) by (destruct Hloc as [->| ->]; done).
  rewrite Seek_set_ok by lia. cbn [mbind option_bind fbytes].
  rewrite ReadExact_slice by (simpl; lia). cbn [mbind option_bind fbytes fpos].
  rewrite Hh, parse_header_of by lia.
  replace (if loc =? 0 then Seek_cur (mkFile (fbytes f) (15 * loc + 15)) 15
           else Seek_cur (mkFile (fbytes f) (15 * loc + 15)) RSI_HIST_SIZE)
    with (Some (mkFile (fbytes f) (30 + 128 * loc))) by (destruct Hloc as [->| ->]; done).
  cbn [mbind option_bind].
  destruct (Z.eqb_spec (v_np v) 0); [lia|]. destruct (Z.ltb_spec (v_np v) 0); [lia|].
  destruct (Alloc_fresh junk (v_obj v) (v_np v) 0 (v_np v - 1) (v_fixed v) (v_np v))
    as (h1 & -> & Hs1 & P1 & E1 & O1 & S1 & X1 & _); [lia|lia|]. cbn [mbind option_bind].
  rewrite ReadExact_slice by (unfold RSI_HIST_SIZE; simpl; lia). cbn [mbind option_bind fbytes fpos].
  unfold RSI_HIST_SIZE. rewrite Hlast. destruct (Hpk (v_np v - 1) ltac:(lia)) as [Lp Fp].
  rewrite words_bytes_roundtrip by done.
  pose proof Hs1 as [D1 D2 D3 _].
  destruct (write_pack_read h1 (v_np v - 1) (v_pack v (v_np v - 1)) Hs1) as (h2 & -> & Hs2 & Hf2 & W2);
    [split; lia|done|]. cbn [mbind option_bind].
  replace (if loc =? 0 then Seek_cur (mkFile (fbytes f) (30 + 128 * loc + 128)) 128
           else Some (mkFile (fbytes f) (30 + 128 * loc + 128)))
    with (Some (mkFile (fbytes f) 286)) by (destruct Hloc as [->| ->]; done).
  cbn [mbind option_bind]. pose proof Hf2 as (G1 & G2 & G3 & G4 & G5 & G6).
  destruct (Load_table h2 (mkFile (fbytes f) 286) (v_np v - 1) (v_pack v) Hs2)
    as (bufs & -> & Hs3 & W3); simpl; try done; try lia; [intros; apply Hpk; lia|].
  eexists. split; [reflexivity|]. split; [split; [done|simpl; lia|simpl; lia]|].
  split; [simpl; lia|]. split; [simpl; lia|]. split; [simpl; lia|]. split; [simpl; congruence|].
  intros p Hp. simpl in Hp. assert (in_memory h2 p) by (split; lia). rewrite W3 by done.
  destruct (Z.ltb_spec p (v_np v - 1)); [done|]. assert (p = v_np v - 1) as -> by lia.
  rewrite W2 by (split; lia). by rewrite Z.eqb_refl.
Qed.

Lemma LoadLastOnly_spec junk h f loc v :
  loc = 0 \/ loc = 1 -> version_ok v -> holds (fbytes f) loc v ->
  exists h', LoadLastOnly junk h f loc = Some h' /\ Inv h' /\ start_pack h' = v_np v - 1 /\ represents h' v.
Proof.
  intros Hloc (Ho & Hn & Hpk) (Hh & Hlast & _).
  assert (15 * loc + 15 <= zlen (fbytes f)) as F1 by (eapply slice_fits; [lia|exact Hh|apply zlen_header|lia]).
  assert (30 + 128 * loc + 128 <= zlen (fbytes f)) as F2
    by (eapply slice_fits; [lia|exact Hlast|apply pack_bytes_len, Hpk; lia|lia]).
  unfold LoadLastOnly. rewrite Seek_set_ok by lia. cbn [mbind option_bind].
  rewrite ReadExact_slice by (simpl; lia). cbn [mbind option_bind fbytes].
  unfold Seek_end. rewrite Seek_set_ok by (pose proof (zlen_nonneg (fbytes f)); simpl; lia).
  cbn [mbind option_bind fbytes].
  replace (if loc =? 0 then 0 else 15) with (15 * loc) by (destruct Hloc as [->| ->]; done).
  rewrite Seek_set_ok by lia. cbn [mbind option_bind fbytes].
  rewrite ReadExact_slice by (simpl; lia). cbn [mbind option_bind fbytes fpos].
  rewrite Hh, parse_header_of by lia. destruct (Z.ltb_spec 0 (v_np v)); [|lia].
  replace (if loc =? 0 then Seek_cur (mkFile (fbytes f) (15 * loc + 15)) 15
           else Seek_cur (mkFile (fbytes f) (15 * loc + 15)) RSI_HIST_SIZE)
    with (Some (mkFile (fbytes f) (30 + 128 * loc))) by (destruct Hloc as [->| ->]; done).
  cbn [mbind option_bind].
  destruct (Alloc_fresh junk (v_obj v) (v_np v) (v_np v - 1) (v_np v - 1) (v_fixed v) (v_np v))
    as (h1 & -> & Hs1 & P1 & E1 & O1 & S1 & X1 & _); [lia|lia|]. cbn [mbind option_bind].
  rewrite ReadExact_slice by (unfold RSI_HIST_SIZE; simpl; lia). cbn [mbind option_bind fbytes fpos].
  unfold RSI_HIST_SIZE. rewrite Hlast. destruct (Hpk (v_np v - 1) ltac:(lia)) as [Lp Fp].
  rewrite words_bytes_roundtrip by done. pose proof Hs1 as [D1 D2 D3 _].
  destruct (write_pack_read h1 (start_pack h1) (v_pack v (v_np v - 1)) Hs1) as (h2 & -> & Hs2 & Hf2 & W2);
    [split; lia|done|]. pose proof Hf2 as (G1 & G2 & G3 & G4 & G5 & G6).
  eexists. split; [reflexivity|]. split; [split; [done|lia|lia]|].
  split; [lia|]. split; [lia|]. split; [lia|]. split; [congruence|].
  intros p Hp. assert (p = start_pack h1) as -> by lia. rewrite W2 by (split; lia).
  rewrite Z.eqb_refl. do 2 f_equal. lia.
Qed.

(** ** Saving *)

(** The version an index in memory stands for; the packs before [start_pack] come from
    [below]. *)
Definition version_of (h : Hist) (below : Z -> list Z) : version :=
  mkVersion (no_obj h) (no_pack h) (fixed h)
    (fun p => if p <? start_pack h then below p else pack_words (hist_buffers h) (p - start_pack h)).

(** The parts of the file that saving at [loc] may change. *)
Definition untouched (h : Hist) (loc off c : Z) : Prop :=
  0 <= off /\ 0 <= c
  /\ (off + c <= 15 * loc \/ 15 * loc + 15 <= off)
  /\ (off + c <= 30 + 128 * loc \/ 30 + 128 * loc + 128 <= off)
  /\ (off + c <= 286 + 128 * start_pack h \/ 286 + 128 * (no_pack h - 1) <= off).

Lemma changed_slice f f' P n off c bs :
  changed_only f f' P n -> 0 <= off -> 0 < c -> zlen bs = c -> slice f off c = bs ->
  off + c <= P \/ P + n <= off -> slice f' off c = bs.
Proof.
  intros [_ Hc] Ho Hcp Hl Hs Hd. rewrite Hc; [done|lia|lia| |done]. by apply (slice_fits f off c bs).
Qed.

Lemma Save_spec h f loc :
  loc = 0 \/ loc = 1 -> Inv h ->
  (forall p, start_pack h <= p < no_pack h -> pack_ok (pack_words (hist_buffers h) (p - start_pack h))) ->
  exists f', Save h f loc = Some f'
    /\ slice (fbytes f') (15 * loc) 15 = header_of (no_obj h) (no_pack h) (fixed h)
    /\ slice (fbytes f') (30 + 128 * loc) 128
       = words_to_bytes (pack_words (hist_buffers h) (no_pack h - 1 - start_pack h))
    /\ (forall p, start_pack h <= p < no_pack h - 1 ->
         slice (fbytes f') (286 + 128 * p) 128 = words_to_bytes (pack_words (hist_buffers h) (p - start_pack h)))
    /\ (forall off c bs, untouched h loc off c -> 0 < c -> zlen bs = c ->
         slice (fbytes f) off c = bs -> slice (fbytes f') off c = bs).
Proof.
  intros Hloc Hi Hpk. pose proof (inv_shape h Hi) as Hs. pose proof (inv_pack h Hi) as Hnp.
  pose proof (inv_end h Hi) as He. pose proof Hs as [S1 S2 S3 S4].
  unfold Save. replace (if loc =? 0 then 0 else 15) with (15 * loc) by (destruct Hloc as [->| ->]; done).
  rewrite Seek_set_ok by lia. cbn [mbind option_bind].
  change (header_bytes h) with (header_of (no_obj h) (no_pack h) (fixed h)).
  pose proof (zlen_header (no_obj h) (no_pack h) (fixed h)) as Lh.
  destruct (WriteExact_spec (mkFile (fbytes f) (15 * loc)) (header_of (no_obj h) (no_pack h) (fixed h)))
    as (P1 & W1 & C1); [simpl; lia|lia|]. rewrite Lh in *. cbn [fpos fbytes] in *.
  set (f1 := WriteExact _ _) in *. clearbody f1.
  replace (if loc =? 0 then Seek_cur f1 15 else Seek_cur f1 RSI_HIST_SIZE)
    with (Some (mkFile (fbytes f1) (30 + 128 * loc)))
    by (unfold Seek_cur; rewrite P1; destruct Hloc as [->| ->]; done).
  cbn [mbind option_bind].
  destruct (locate h (start_pack h) Hs) as (Hz & _ & _); [split; lia|].
  destruct (Z.eqb_spec (zlen (hist_buffers h)) 0); [lia|].
  rewrite read_pack_words by (done || split; lia). cbn [mbind option_bind].
  set (last := pack_words _ (no_pack h - 1 - start_pack h)).
  assert (zlen (words_to_bytes last) = 128) as Ll by (apply pack_bytes_len, Hpk; lia).
  destruct (WriteExact_spec (mkFile (fbytes f1) (30 + 128 * loc)) (words_to_bytes last))
    as (P2 & W2 & C2); [simpl; lia|lia|]. rewrite Ll in *. cbn [fpos fbytes] in *.
  set (f2 := WriteExact _ _) in *. clearbody f2.
  replace (if loc =? 0 then Seek_cur f2 RSI_HIST_SIZE else Some f2)
    with (Some (mkFile (fbytes f2) 286)).
  2:{ unfold Seek_cur. destruct Hloc as [->| ->]; simpl; [by rewrite P2|]. destruct f2. simpl in *. by rewrite P2. }
  cbn [mbind option_bind]. unfold Seek_cur. cbn [fpos fbytes]. unfold RSI_HIST_SIZE.
  rewrite Seek_set_ok by lia. cbn [mbind option_bind fbytes fpos].
  destruct (write_blocks_spec (hist_buffers h) (no_pack_declared h - start_pack h)
    (no_pack h - start_pack h - 1) (mkFile (fbytes f2) (286 + start_pack h * 128)))
    as (f' & -> & Wk & C3 & C3'); [lia|simpl; lia|done|]. cbn [fpos fbytes] in *.
  assert (forall off c bs, 0 <= off -> 0 < c -> zlen bs = c -> slice (fbytes f2) off c = bs ->
    off + c <= 286 + 128 * start_pack h \/ 286 + 128 * (no_pack h - 1) <= off ->
    slice (fbytes f') off c = bs) as C4.
  { intros off c bs Ho Hc Hl Hsl Hd. destruct (Z.eq_dec (no_pack h - start_pack h - 1) 0) as [E0|].
    - by rewrite C3'.
    - apply (changed_slice (fbytes f2) _ (286 + start_pack h * 128) (128 * (no_pack h - start_pack h - 1)));
        try done; [apply C3|]; lia. }
  exists f'. split; [done|]. split; [|split; [|split]].
  - apply C4; try lia. apply (changed_slice (fbytes f1) _ (30 + 128 * loc) 128); try done; lia.
  - apply C4; try lia; done.
  - intros p Hp. rewrite <- Wk by lia. f_equal. lia.
  - intros off c bs (U1 & U2 & U3 & U4 & U5) Hc Hl Hsl. apply C4; try done; try lia.
    apply (changed_slice (fbytes f1) _ (30 + 128 * loc) 128); try done; try lia.
    apply (changed_slice (fbytes f) _ (15 * loc) 15); try done; lia.
Qed.

(** C35: A whole index (its first pack in memory is pack 0) saved at either location of any
    file and loaded from that location is the same index: rows, packs, kind of column and the
    histogram of every pack, over any number of blocks. *)
Theorem Hist_file_roundtrip (junk : Z -> Z) (h h0 : Hist) (f : IBFile) (loc : Z) :
  loc = 0 \/ loc = 1 -> Inv h -> start_pack h = 0 -> version_ok (version_of h (fun _ => [])) ->
  exists f' h', Save h f loc = Some f' /\ Load junk h0 f' loc = Some h' /\ Inv h'
    /\ no_obj h' = no_obj h /\ no_pack h' = no_pack h /\ fixed h' = fixed h /\ start_pack h' = 0
    /\ forall p, 0 <= p < no_pack h -> read_pack h' p = read_pack h p.
Proof.
  intros Hloc Hi Hst Hok. pose proof Hok as (Ho & Hn & Hpk). simpl in Ho, Hn, Hpk.
  destruct (Save_spec h f loc Hloc Hi) as (f' & Es & W1 & W2 & W3 & _).
  { intros p Hp. specialize (Hpk p ltac:(lia)). by destruct (Z.ltb_spec p (start_pack h)); [lia|]. }
  destruct (Load_spec junk h0 f' loc (version_of h (fun _ => [])) Hloc Hok) as (h' & El & I' & S' & O' & P' & X' & R').
  { split; [done|]. simpl. split.
    - rewrite W2. destruct (Z.ltb_spec (no_pack h - 1) (start_pack h)); [lia|done].
    - intros p Hp. rewrite W3 by lia. by destruct (Z.ltb_spec p (start_pack h)); [lia|]. }
  exists f', h'. repeat (split; [done|]). intros p Hp. simpl in R'. rewrite R' by lia.
  pose proof (inv_end h Hi).
  rewrite read_pack_words by (apply Hi || (apply in_memory_pack; [done|lia])).
  by destruct (Z.ltb_spec p (start_pack h)); [lia|].
Qed.

(** C4: Saving a new version does not disturb the committed one.  Let the file hold version
    [v] at [loc]; the update reads its last pack only, and the extended index [h] (which
    starts at that last pack) is saved at the other location.  Then loading from [loc] still
    gives [v], and loading from the other location gives the new version: the earlier packs
    of [v] followed by the packs of [h]. *)
Theorem Hist_file_versions (junk : Z -> Z) (h h0 : Hist) (f : IBFile) (loc : Z) (v : version) :
  loc = 0 \/ loc = 1 -> version_ok v -> holds (fbytes f) loc v ->
  Inv h -> start_pack h = v_np v - 1 -> version_ok (version_of h (v_pack v)) ->
  (exists h1, LoadLastOnly junk h0 f loc = Some h1 /\ Inv h1 /\ start_pack h1 = v_np v - 1 /\ represents h1 v)
  /\ exists f', Save h f (1 - loc) = Some f'
    /\ (exists h1, Load junk h0 f' loc = Some h1 /\ start_pack h1 = 0 /\ represents h1 v)
    /\ exists h2, Load junk h0 f' (1 - loc) = Some h2 /\ start_pack h2 = 0
         /\ represents h2 (version_of h (v_pack v)).
Proof.
  intros Hloc Hv Hh Hi Hst Hok. split; [by apply LoadLastOnly_spec|].
  pose proof Hok as (Ho & Hn & Hpk). simpl in Ho, Hn, Hpk. pose proof Hv as (_ & Vn & Vpk).
  pose proof (inv_pack h Hi). assert (1 - loc = 0 \/ 1 - loc = 1) as Hloc' by lia.
  destruct (Save_spec h f (1 - loc) Hloc' Hi) as (f' & Es & W1 & W2 & W3 & W4).
  { intros p Hp. specialize (Hpk p ltac:(lia)). by destruct (Z.ltb_spec p (start_pack h)); [lia|]. }
  destruct Hh as (H1 & H2 & H3).
  assert (forall p, 0 <= p < v_np v - 1 ->
    slice (fbytes f') (286 + 128 * p) 128 = words_to_bytes (v_pack v p)) as Htab.
  { intros p Hp. apply W4; [unfold untouched; lia|lia|apply pack_bytes_len, Vpk; lia|by apply H3]. }
  exists f'. split; [done|]. split.
  - destruct (Load_spec junk h0 f' loc v Hloc Hv) as (h1 & ? & _ & ? & ?); [|by exists h1].
    split; [|split; [|done]].
    + apply W4; [unfold untouched; lia|lia|apply zlen_header|done].
    + apply W4; [unfold untouched; lia|lia|apply pack_bytes_len, Vpk; lia|done].
  - destruct (Load_spec junk h0 f' (1 - loc) (version_of h (v_pack v)) Hloc' Hok) as (h2 & ? & _ & ? & ?);
      [|by exists h2].
    split; [done|]. simpl. split.
    + rewrite W2. destruct (Z.ltb_spec (no_pack h - 1) (start_pack h)); [lia|done].
    + intros p Hp. destruct (Z.ltb_spec p (start_pack h)); [apply Htab; lia|apply W3; lia].
Qed.

(** ** Concrete files *)

Lemma pack_words_ok h p :
  Shape h -> in_memory h p -> (forall i, 0 <= i < 32 -> is_word 32 (word h p i)) ->
  pack_ok (pack_words (hist_buffers h) (p - start_pack h)).
Proof.
  intros Hs Hm Hw. destruct (read_pack_spec h p Hs Hm) as (ws & E & L & W).
  rewrite read_pack_words in E by done. injection E as E. rewrite E. split; [done|].
  apply Forall_forall. intros x Hx. apply list_elem_of_lookup in Hx as [i Hi].
  pose proof (lookup_lt_Some _ _ _ Hi). unfold zlen in L.
  assert (ws.[0|Z.of_nat i] = x) as <-.
  { unfold znth. destruct (Z.ltb_spec (Z.of_nat i) 0); [lia|]. rewrite Nat2Z.id, nth_lookup, Hi. done. }
  rewrite W by lia. apply Hw. lia.
Qed.

Lemma created_version_ok junk h0 h n fx below :
  0 < n < 2 ^ 46 -> Create junk h0 n fx = Some h ->
  Inv h /\ start_pack h = 0 /\ version_ok (version_of h below).
Proof.
  intros Hn E. destruct (Create_spec junk h0 n fx Hn) as (h' & E' & Hi & Ho & _ & Hst & Hp & Hw).
  assert (h' = h) as -> by congruence. split; [done|]. split; [done|].
  assert (0 <= (n - 1) / 65536 < 2 ^ 30) by (split; [apply Z.div_pos; lia|apply Z.div_lt_upper_bound; lia]).
  unfold version_ok. simpl. split; [lia|]. split; [lia|]. intros p Hp'.
  destruct (Z.ltb_spec p (start_pack h)); [lia|]. pose proof (inv_end h Hi).
  assert (in_memory h p) as Hm by (apply in_memory_pack; [done|lia]).
  apply pack_words_ok; [apply Hi|done|]. intros i Hk. rewrite Hw by done. vm_compute. by split.
Qed.

Lemma reloaded_version_ok h v :
  version_ok v -> Inv h -> represents h v -> version_ok (version_of h (v_pack v)).
Proof.
  intros (Ho & Hn & Hpk) Hi (Eo & En & Ef & Hr). pose proof (inv_end h Hi). unfold version_ok. simpl.
  split; [lia|]. split; [lia|]. intros p Hp.
  destruct (Z.ltb_spec p (start_pack h)); [apply Hpk; lia|].
  specialize (Hr p ltac:(lia)). rewrite read_pack_words in Hr by (apply Hi || (apply in_memory_pack; [done|lia])).
  injection Hr as ->. apply Hpk. lia.
Qed.

Lemma Hist_file_roundtrip_witness :
  exists h f' h', Create (fun _ => 7) Hist_new 200000 true = Some h
    /\ Save h (mkFile [1; 2; 3] 2) 1 = Some f' /\ Load (fun _ => 9) Hist_new f' 1 = Some h'
    /\ no_pack h' = no_pack h /\ read_pack h' 3 = read_pack h 3.
Proof.
  destruct (Create_spec (fun _ => 7) Hist_new 200000 true ltac:(lia)) as (h & E & _ & _ & _ & _ & Hp & _).
  change ((200000 - 1) / 65536 + 1) with 4 in Hp.
  destruct (created_version_ok (fun _ => 7) Hist_new h 200000 true (fun _ => []) ltac:(lia) E) as (Hi & Hst & Hok).
  destruct (Hist_file_roundtrip (fun _ => 9) h Hist_new (mkFile [1; 2; 3] 2) 1 ltac:(lia) Hi Hst Hok)
    as (f' & h' & Es & El & _ & _ & Np & _ & _ & Hr).
  exists h, f', h'. repeat (split; [done|]). apply Hr. lia.
Defined.

Lemma Hist_file_versions_witness :
  exists h f h1 f' h2, Create (fun _ => 7) Hist_new 200000 true = Some h
    /\ Save h (mkFile [] 0) 0 = Some f /\ LoadLastOnly (fun _ => 9) Hist_new f 0 = Some h1
    /\ Save h1 f 1 = Some f' /\ Load (fun _ => 9) Hist_new f' 1 = Some h2 /\ no_pack h2 = 4.
Proof.
  destruct (Create_spec (fun _ => 7) Hist_new 200000 true ltac:(lia)) as (h & E & _ & _ & _ & _ & Hp & _).
  change ((200000 - 1) / 65536 + 1) with 4 in Hp.
  destruct (created_version_ok (fun _ => 7) Hist_new h 200000 true (fun _ => []) ltac:(lia) E) as (Hi & Hst & Hok).
  destruct (Save_spec h (mkFile [] 0) 0 ltac:(lia) Hi) as (f & Es & W1 & W2 & W3 & _).
  { intros p Hpp. destruct Hok as (_ & _ & Hok). specialize (Hok p). simpl in Hok.
    destruct (Z.ltb_spec p (start_pack h)); [lia|]. apply Hok. lia. }
  assert (holds (fbytes f) 0 (version_of h (fun _ => []))) as Hh.
  { split; [done|]. simpl. split.
    - rewrite W2. by destruct (Z.ltb_spec (no_pack h - 1) (start_pack h)); [lia|].
    - intros p Hpp. rewrite W3 by lia. by destruct (Z.ltb_spec p (start_pack h)); [lia|]. }
  destruct (LoadLastOnly_spec (fun _ => 9) Hist_new f 0 (version_of h (fun _ => [])) ltac:(lia) Hok Hh)
    as (h1 & E1 & I1 & S1 & R1).
  destruct (Hist_file_versions (fun _ => 9) h1 Hist_new f 0 (version_of h (fun _ => [])) ltac:(lia) Hok Hh I1 S1
    (reloaded_version_ok h1 _ Hok I1 R1)) as (_ & f' & Es' & _ & h2 & E2 & _ & R2).
  exists h, f, h1, f', h2. repeat (split; [done|]). destruct R2 as (_ & -> & _). simpl.
  destruct R1 as (_ & -> & _). exact Hp.
Defined.
