(* ===== verification/RSICMap.v ===== *)
(** * Character maps of text packs (core/RSI_CMap.cpp)

    A character map keeps, for each pack and each of the first [no_positions] positions of a
    string, a set of 256 bits: the bytes that occur at that position in some value of the
    pack.  The bits are the words of blocks of at most [MAX_CMAP_BLOCK_SIZE] bytes.

    A string is a list of bytes, [None] for the null string.  As for the histograms, an
    assertion is compiled out, [None] is an exception or an access outside a block, and
    [junk] is memory that was not written. *)

From S2P Require Import Prelude BinTools MemBlock FilterBlock FilterDefs.

Definition MAX_CMAP_BLOCK_SIZE : Z := 2 ^ 28.

Record CMap := mkCMap {
  no_obj : Z;
  no_pack : Z;
  start_pack : Z;
  end_pack : Z;
  no_pack_declared : Z;
  no_positions : Z;
  total_size : Z;
  cmap_buffers : list (list Z)
}.

Definition RCBString := option (list Z).
Definition bytes (v : RCBString) : list Z := match v with Some l => l | None => [] end.
Definition IsNullOrEmpty (v : RCBString) : bool := zlen (bytes v) =? 0.

#[export] Instance list_Z_eq_dec : EqDecision (list Z) := _.

(** [operator==] of two strings: false when one is null. *)
Definition RCBString_eq (a b : RCBString) : bool :=
  match a, b with Some x, Some y => bool_decide (x = y) | _, _ => false end.

(** ** Allocation *)

Definition CMap_new (no_pos : Z) : CMap := mkCMap 0 0 0 0 0 no_pos 0 [].

Definition Deallocate (c : CMap) : CMap :=
  mkCMap (no_obj c) (no_pack c) (start_pack c) (end_pack c) (no_pack_declared c) (no_positions c)
    (total_size c) [].

Definition Clear (c : CMap) : CMap := mkCMap 0 0 0 0 0 64 (total_size c) [].

Definition block_count (size block_size : Z) : Z :=
  swrap 32 (Z.quot size block_size + (if Z.rem size block_size =? 0 then 0 else 1)).

Definition ones (n_bytes : Z) : list Z := replicate (Z.to_nat (n_bytes / 4)) all_ones.

Definition Alloc (junk : Z -> Z) (c : CMap) (new_no_pack_declared : Z) : option CMap :=
  let size := (new_no_pack_declared - start_pack c) * no_positions c * 32 in
  if total_size c <? size then
    let old_bc := block_count (total_size c) MAX_CMAP_BLOCK_SIZE in
    let bc := block_count size MAX_CMAP_BLOCK_SIZE in
    let used := Z.rem (total_size c) MAX_CMAP_BLOCK_SIZE in
    bufs ← (if old_bc <? bc then
              let bufs := resize (Z.to_nat bc) [] (cmap_buffers c) in
              bufs ← (if (0 <? old_bc) && negb (used =? 0) then
                        b ← write_words (realloc junk (bufs.[[]|old_bc - 1]) (MAX_CMAP_BLOCK_SIZE / 4))
                              (used / 4) (ones (MAX_CMAP_BLOCK_SIZE - used));
                        Some (bufs.[old_bc - 1 <- b])
                      else Some bufs);
              let bufs := foldl (fun bs i => bs.[i <- ones MAX_CMAP_BLOCK_SIZE]) bufs (range old_bc (bc - 2)) in
              let n := if Z.rem size MAX_CMAP_BLOCK_SIZE =? 0 then MAX_CMAP_BLOCK_SIZE
                       else Z.rem size MAX_CMAP_BLOCK_SIZE in
              Some (bufs.[bc - 1 <- ones n])
            else
              b ← zget (cmap_buffers c) (bc - 1);
              b ← write_words (realloc junk b (Z.rem size MAX_CMAP_BLOCK_SIZE / 4))
                    (used / 4) (ones (size - total_size c));
              Some ((cmap_buffers c).[bc - 1 <- b]));
    Some (mkCMap (no_obj c) (no_pack c) (start_pack c) (end_pack c) (no_pack_declared c)
            (no_positions c) size bufs)
  else Some c.

Definition Create (junk : Z -> Z) (c : CMap) (_no_obj no_pos : Z) : option CMap :=
  let np := NoObj2NoPacks _no_obj in
  let nd := (np / 32 + 1) * 32 in
  c ← Alloc junk (mkCMap _no_obj np (start_pack c) (end_pack c) nd no_pos (total_size c) []) nd;
  Some (mkCMap (no_obj c) (no_pack c) 0 (no_pack c - 1) (no_pack_declared c) (no_positions c)
          (total_size c) (cmap_buffers c)).

Definition AppendKNs (junk : Z -> Z) (c : CMap) (new_no_pack : Z) : option CMap :=
  if new_no_pack <? no_pack c then None
  else
    let nd := (Z.quot new_no_pack 32 + 1) * 32 in
    c ← Alloc junk c nd;
    Some (mkCMap (no_obj c) new_no_pack (start_pack c) (new_no_pack - 1) nd (no_positions c)
            (total_size c) (cmap_buffers c)).

Definition set_obj (c : CMap) (n : Z) : CMap :=
  mkCMap n (no_pack c) (start_pack c) (end_pack c) (no_pack_declared c) (no_positions c)
    (total_size c) (cmap_buffers c).

Definition set_bufs (c : CMap) (bufs : list (list Z)) : CMap :=
  mkCMap (no_obj c) (no_pack c) (start_pack c) (end_pack c) (no_pack_declared c) (no_positions c)
    (total_size c) bufs.

Definition Update (junk : Z -> Z) (c : CMap) (_new_no_obj : Z) : option CMap :=
  c ← AppendKNs junk c (NoObj2NoPacks _new_no_obj); Some (set_obj c _new_no_obj).

Definition UpToDate (c : CMap) (cur_no_obj pack : Z) : bool :=
  (cur_no_obj =? no_obj c)
  || ((pack <? no_pack c - 1) && (pack <? Z.quot cur_no_obj MAX_PACK_ROW_SIZE)).

(** ** Access to the words of a pack *)

Definition PackBuf (c : CMap) (pack : Z) : Z * Z :=
  let offset := (pack - start_pack c) * no_positions c * 32 in
  (Z.quot offset MAX_CMAP_BLOCK_SIZE, Z.rem offset MAX_CMAP_BLOCK_SIZE / 4).

Definition get_word (c : CMap) (pack i : Z) : option Z :=
  let '(b, off) := PackBuf c pack in
  buf ← zget (cmap_buffers c) b; zget buf (off + i).

Definition write_pack (c : CMap) (pack i : Z) (ws : list Z) : option CMap :=
  let '(b, off) := PackBuf c pack in
  buf ← zget (cmap_buffers c) b;
  buf ← write_words buf (off + i) ws;
  Some (set_bufs c ((cmap_buffers c).[b <- buf])).

Definition read_pack (c : CMap) (pack n : Z) : option (list Z) :=
  let '(b, off) := PackBuf c pack in
  buf ← zget (cmap_buffers c) b;
  if (0 <=? off) && (off + n <=? zlen buf)
  then Some (take (Z.to_nat n) (drop (Z.to_nat off) buf)) else None.

Definition CopyRepresentation (junk : Z -> Z) (c : CMap) (buf : list Z) (pack : Z) : option CMap :=
  c ← (if (zlen (cmap_buffers c) =? 0) || (no_pack c <? pack)
       then AppendKNs junk c (pack + 1) else Some c);
  write_pack c pack 0 buf.

Definition ClearPack (c : CMap) (pack : Z) : option CMap :=
  if negb (zlen (cmap_buffers c) =? 0) && (start_pack c <=? pack) && (pack <=? end_pack c)
  then write_pack c pack 0 (replicate (Z.to_nat (no_positions c * 8)) 0)
  else Some c.

(** ** Characters *)

Definition IsSet (c : CMap) (pack ch pos : Z) : option bool :=
  w ← get_word c pack (pos * 32 / 4 + ch / 32);
  Some (Z.shiftr w (ch mod 32) mod 2 =? 1).

Definition Set_ (c : CMap) (pack ch pos : Z) : option CMap :=
  w ← get_word c pack (pos * 32 / 4 + ch / 32);
  write_pack c pack (pos * 32 / 4 + ch / 32) [Z.lor w (Z.shiftl 1 (ch mod 32))].

Fixpoint any_set (c : CMap) (pack : Z) (chs : list Z) (pos : Z) : option bool :=
  match chs with
  | [] => Some false
  | ch :: rest =>
      b ← IsSet c pack ch pos; if (b : bool) then Some true else any_set c pack rest pos
  end.

Definition IsAnySet (c : CMap) (pack first last pos : Z) : option bool :=
  any_set c pack (range first last) pos.

Definition NoOnes (c : CMap) (pack pos : Z) : option Z :=
  foldl (fun d i => d ← d; w ← get_word c pack (pos * 32 / 4 + i); Some (d + CalculateBinSum w))
    (Some 0) (range 0 (32 / 4 - 1)).

(** ** Values *)

Definition PutValue (c : CMap) (v : RCBString) (pack : Z) : option CMap :=
  if IsNullOrEmpty v then Some c
  else
    let size := if zlen (bytes v) <? no_positions c then zlen (bytes v) else no_positions c in
    foldl (fun c i => c ← c; Set_ c pack (bytes v).[0|i] i) (Some c) (range 0 (size - 1)).

(** The scan of [IsValue] for one string: whether every byte is possible. *)
Fixpoint all_possible (c : CMap) (pack : Z) (v : list Z) (poss : list Z) : option bool :=
  match poss with
  | [] => Some true
  | pos :: rest =>
      b ← IsSet c pack v.[0|pos] pos;
      if (b : bool) then all_possible c pack v rest else Some false
  end.

Definition IsValue (c : CMap) (min_v max_v : RCBString) (pack : Z) : option RSValue :=
  if RCBString_eq min_v max_v then
    let size := if zlen (bytes min_v) <? no_positions c then zlen (bytes min_v) else no_positions c in
    b ← all_possible c pack (bytes min_v) (range 0 (size - 1));
    Some (if (b : bool) then RS_SOME else RS_NONE)
  else
    let f := if 0 <? zlen (bytes min_v) then (bytes min_v).[0|0] else 0 in
    let l := if 0 <? zlen (bytes max_v) then (bytes max_v).[0|0] else 255 in
    if l <? f then Some RS_NONE
    else b ← IsAnySet c pack f l 0; Some (if (b : bool) then RS_SOME else RS_NONE).

Definition percent : Z := 37.
Definition underscore : Z := 95.

Fixpoint like_scan (c : CMap) (pack esc : Z) (p : list Z) (poss : list Z) : option RSValue :=
  match poss with
  | [] => Some RS_SOME
  | pos :: rest =>
      if (p.[0|pos] =? percent) || (p.[0|pos] =? esc) then Some RS_SOME
      else if p.[0|pos] =? underscore then like_scan c pack esc p rest
      else b ← IsSet c pack p.[0|pos] pos;
           if (b : bool) then like_scan c pack esc p rest else Some RS_NONE
  end.

(** The loop runs while [pos] is below the length and [no_positions]. *)
Definition IsLike (c : CMap) (pattern : RCBString) (pack escape_character : Z) : option RSValue :=
  like_scan c pack escape_character (bytes pattern)
    (range 0 (Z.min (zlen (bytes pattern)) (no_positions c) - 1)).

Definition AppendKN (junk : Z -> Z) (c : CMap) (pack : Z) (cmap : CMap) (no_values_to_add : Z) : option CMap :=
  let no_objs_to_add_to_last_DP :=
    if Z.rem (no_obj c) MAX_PACK_ROW_SIZE =? 0 then 0
    else MAX_PACK_ROW_SIZE - Z.rem (no_obj c) MAX_PACK_ROW_SIZE in
  if pack <? no_pack cmap then
    c ← AppendKNs junk c (no_pack c + 1);
    ws ← read_pack cmap pack (no_positions c * 8);
    c ← write_pack c (no_pack c - 1) 0 ws;
    Some (set_obj c (no_obj c + wrap32 (no_objs_to_add_to_last_DP + no_values_to_add)))
  else Some c.

(** ** The shape of an index in one block

    An index of less than [MAX_CMAP_BLOCK_SIZE] bytes is one block. *)

Record Shape (c : CMap) : Prop := {
  sh_start : 0 <= start_pack c <= no_pack_declared c;
  sh_pack : no_pack c <= no_pack_declared c < 2 ^ 31;
  sh_pos : 0 < no_positions c <= 255;
  sh_size : total_size c = (no_pack_declared c - start_pack c) * no_positions c * 32;
  sh_max : total_size c < MAX_CMAP_BLOCK_SIZE;
  sh_empty : start_pack c = no_pack_declared c -> cmap_buffers c = [];
  sh_block : start_pack c < no_pack_declared c ->
    exists b, cmap_buffers c = [b] /\ zlen b = (no_pack_declared c - start_pack c) * no_positions c * 8
}.

Record Inv (c : CMap) : Prop := {
  inv_shape : Shape c;
  inv_pack : start_pack c < no_pack c;
  inv_end : end_pack c = no_pack c - 1;
  inv_decl : no_pack_declared c = (no_pack c / 32 + 1) * 32
}.

Definition word (c : CMap) (p i : Z) : Z :=
  ((cmap_buffers c).[[]|0]).[0|(p - start_pack c) * no_positions c * 8 + i].

(** Byte [ch] is marked at position [pos] of pack [p]. *)
Definition cell (c : CMap) (p ch pos : Z) : bool :=
  Z.testbit (word c p (pos * 8 + ch / 32)) (ch mod 32).

Definition in_memory (c : CMap) (p : Z) : Prop := start_pack c <= p < no_pack_declared c.
Definition in_map (c : CMap) (ch pos : Z) : Prop := 0 <= ch < 256 /\ 0 <= pos < no_positions c.

Definition same_frame (c c' : CMap) : Prop :=
  no_obj c' = no_obj c /\ no_pack c' = no_pack c /\ start_pack c' = start_pack c
  /\ end_pack c' = end_pack c /\ no_pack_declared c' = no_pack_declared c
  /\ no_positions c' = no_positions c /\ total_size c' = total_size c.

Lemma cmap_same_frame_refl c : same_frame c c.
Proof. repeat split. Qed.

Lemma cmap_same_frame_trans c c' c'' : same_frame c c' -> same_frame c' c'' -> same_frame c c''.
Proof. unfold same_frame. intuition congruence. Qed.

Lemma cmap_in_memory_pack c p : Inv c -> start_pack c <= p <= end_pack c -> in_memory c p.
Proof. intros [[] ? E _] ?. unfold in_memory. lia. Qed.

Lemma PackBuf_spec c p :
  Shape c -> in_memory c p -> PackBuf c p = (0, (p - start_pack c) * no_positions c * 8).
Proof.
  intros [? ? ? Hsz Hmax _ _] [? ?]. unfold PackBuf.
  assert (0 <= (p - start_pack c) * no_positions c * 32 < MAX_CMAP_BLOCK_SIZE) by nia.
  rewrite Z.quot_small, Z.rem_small by lia. f_equal.
  replace ((p - start_pack c) * no_positions c * 32) with ((p - start_pack c) * no_positions c * 8 * 4) by ring.
  by rewrite Z.div_mul by lia.
Qed.

Lemma block_of c p :
  Shape c -> in_memory c p ->
  exists b, cmap_buffers c = [b] /\ 0 <= (p - start_pack c) * no_positions c * 8
    /\ (p - start_pack c) * no_positions c * 8 + no_positions c * 8 <= zlen b.
Proof.
  intros [? ? ? Hsz Hmax _ Hb] [? ?]. destruct Hb as (b & E & L); [lia|]. exists b. split; [done|].
  rewrite L. nia.
Qed.

Lemma cmap_get_word_spec c p i :
  Shape c -> in_memory c p -> 0 <= i < no_positions c * 8 -> get_word c p i = Some (word c p i).
Proof.
  intros Hs Hp Hi. destruct (block_of c p Hs Hp) as (b & E & ? & ?). unfold get_word, word.
  rewrite PackBuf_spec, E by done. change ([b].[[]|0]) with b. change (zget [b] 0) with (Some b).
  cbn [mbind option_bind]. by rewrite (zget_znth 0) by lia.
Qed.

Lemma cmap_write_pack_spec c p i ws :
  Shape c -> in_memory c p -> 0 <= i -> i + zlen ws <= no_positions c * 8 ->
  exists c', write_pack c p i ws = Some c' /\ same_frame c c' /\ Shape c'
    /\ forall q k, in_memory c q -> 0 <= k < no_positions c * 8 ->
         word c' q k = if (q =? p) && (i <=? k) && (k <? i + zlen ws) then ws.[0|k - i] else word c q k.
Proof.
  intros Hs Hp Hi Hlen. destruct (block_of c p Hs Hp) as (b & E & H1 & H2). pose proof (zlen_nonneg ws).
  unfold write_pack. rewrite PackBuf_spec, E by done. change (zget [b] 0) with (Some b).
  cbn [mbind option_bind].
  destruct (write_words_spec b ((p - start_pack c) * no_positions c * 8 + i) ws ltac:(lia) ltac:(lia))
    as (b' & -> & L & W). cbn [mbind option_bind]. change ([b].[0 <- b']) with [b'].
  eexists. split; [reflexivity|]. split; [repeat split|]. split.
  - destruct Hs as [S1 S2 S3 S4 S5 S6 S7]. split; simpl; try done.
    + intros Es. specialize (S6 Es). congruence.
    + intros Hlt. destruct (S7 Hlt) as (b0 & E0 & L0). exists b'. split; [done|].
      rewrite L. rewrite E in E0. by injection E0 as <-.
  - intros q k Hq Hk. destruct (block_of c q Hs Hq) as (b0 & E0 & H3 & H4).
    assert (b0 = b) as -> by congruence. unfold word. simpl. rewrite E.
    change ([b'].[[]|0]) with b'. change ([b].[[]|0]) with b. rewrite W by lia.
    pose proof (sh_pos c Hs). destruct (Z.eqb_spec q p) as [->|Hne]; simpl.
    + set (o := (p - start_pack c) * no_positions c * 8) in *.
      destruct (Z.leb_spec (o + i) (o + k)), (Z.leb_spec i k); try lia; [|done].
      destruct (Z.ltb_spec (o + k) (o + i + zlen ws)), (Z.ltb_spec k (i + zlen ws)); try lia; [|done].
      simpl. f_equal. lia.
    + destruct (_ && _) eqn:Ec; [|done]. bool_to_prop. exfalso. apply Hne.
      set (x := q - start_pack c) in *. set (y := p - start_pack c) in *.
      assert (x = y) by nia. lia.
Qed.

Lemma cmap_Inv_frame c c' : Inv c -> same_frame c c' -> Shape c' -> Inv c'.
Proof.
  intros [_ Hp He Hd] (? & E & ? & ? & ? & ? & ?) Hs. split; [done|lia|lia|]. rewrite E. lia.
Qed.

(** ** Growth *)

Lemma ones_len n : 0 <= n -> zlen (ones (4 * n)) = n.
Proof. intros. unfold ones. rewrite Z.mul_comm, Z.div_mul, zlen_replicate by lia. done. Qed.

Lemma ones_nth n k : 0 <= k < n -> (ones (4 * n)).[0|k] = all_ones.
Proof. intros. unfold ones. rewrite Z.mul_comm, Z.div_mul by lia. by apply znth_replicate. Qed.

(** The old packs as they were, the others with every byte possible. *)
Definition grows (c c' : CMap) : Prop :=
  start_pack c' = start_pack c /\ no_positions c' = no_positions c
  /\ no_pack_declared c <= no_pack_declared c'
  /\ forall p i, in_memory c' p -> 0 <= i < no_positions c * 8 ->
       word c' p i = if p <? no_pack_declared c then word c p i else all_ones.

Lemma one_block_count s : 0 < s < MAX_CMAP_BLOCK_SIZE -> block_count s MAX_CMAP_BLOCK_SIZE = 1.
Proof.
  intros. unfold block_count. rewrite Z.quot_small, Z.rem_small by lia.
  destruct (Z.eqb_spec s 0); [lia|]. reflexivity.
Qed.

(** The memory after [Alloc], as one block; [n] packs had memory before. *)
Lemma Alloc_block junk obj np st en d pos bufs n nd :
  0 <= n <= nd - st -> st < nd -> 0 < pos -> (nd - st) * pos * 32 < MAX_CMAP_BLOCK_SIZE ->
  (n = 0 -> bufs = []) -> (0 < n -> exists b, bufs = [b] /\ zlen b = n * pos * 8) ->
  exists b, Alloc junk (mkCMap obj np st en d pos (n * pos * 32) bufs) nd
      = Some (mkCMap obj np st en d pos ((nd - st) * pos * 32) [b])
    /\ zlen b = (nd - st) * pos * 8
    /\ forall k, 0 <= k < zlen b -> b.[0|k] = if k <? n * pos * 8 then (bufs.[[]|0]).[0|k] else all_ones.
Proof.
  intros Hn Hst Hpos Hmax He Hb. unfold Alloc.
  cbn [no_obj no_pack start_pack end_pack no_pack_declared no_positions total_size cmap_buffers].
  set (m := nd - st) in *. assert (0 <= n * pos <= m * pos) by nia.
  destruct (Z.ltb_spec (n * pos * 32) (m * pos * 32)).
  - rewrite (one_block_count (m * pos * 32)) by lia. destruct (Z.eq_dec n 0) as [E0|Hn0].
    + rewrite E0, (He E0), Z.mul_0_l. change (block_count 0 MAX_CMAP_BLOCK_SIZE) with 0.
      change (Z.rem 0 MAX_CMAP_BLOCK_SIZE) with 0.
      cbn [Z.ltb Z.compare andb negb Z.eqb]. rewrite (range_nil 0 (1 - 2)) by lia.
      rewrite Z.rem_small by lia. destruct (Z.eqb_spec (m * pos * 32) 0); [lia|].
      exists (ones (4 * (m * pos * 8))). split.
      { replace (4 * (m * pos * 8)) with (m * pos * 32) by ring. reflexivity. }
      rewrite ones_len by nia. split; [done|]. intros k Hk. rewrite ones_nth by done.
      destruct (Z.ltb_spec k (0 * pos * 8)); [lia|done].
    + destruct (Hb ltac:(lia)) as (b0 & -> & L0). assert (0 < n * pos) by nia.
      rewrite (one_block_count (n * pos * 32)), !Z.rem_small by lia.
      cbn [Z.ltb Z.compare Z.sub Z.add Z.opp]. change (zget [b0] (1 - 1)) with (Some b0).
      cbn [mbind option_bind].
      replace (m * pos * 32 / 4) with (m * pos * 8)
        by (rewrite <- (Z.div_mul (m * pos * 8) 4) by lia; f_equal; ring).
      replace (n * pos * 32 / 4) with (n * pos * 8)
        by (rewrite <- (Z.div_mul (n * pos * 8) 4) by lia; f_equal; ring).
      replace (m * pos * 32 - n * pos * 32) with (4 * (m * pos * 8 - n * pos * 8)) by ring.
      destruct (realloc_spec junk b0 (m * pos * 8) ltac:(lia)) as [Lr Kr].
      destruct (write_words_spec (realloc junk b0 (m * pos * 8)) (n * pos * 8)
        (ones (4 * (m * pos * 8 - n * pos * 8)))) as (b & -> & Lb & Kb);
        [lia|rewrite ones_len by lia; lia|]. cbn [mbind option_bind].
      exists b. split; [done|]. split; [lia|]. intros k Hk. rewrite Kb by lia. rewrite ones_len by lia.
      destruct (Z.ltb_spec k (n * pos * 8)), (Z.leb_spec (n * pos * 8) k); try lia; simpl; [apply Kr; lia|].
      destruct (Z.ltb_spec k (n * pos * 8 + (m * pos * 8 - n * pos * 8))); [|lia]. apply ones_nth. lia.
  - assert (n = m) as E by nia. destruct (Hb ltac:(lia)) as (b & -> & L). exists b. rewrite <- E.
    split; [done|]. split; [done|]. intros k Hk. change ([b].[[]|0]) with b.
    destruct (Z.ltb_spec k (n * pos * 8)); [done|lia].
Qed.

(** The index of [n] packs fits in one block. *)
Definition fits (c : CMap) (n : Z) : Prop :=
  ((n / 32 + 1) * 32 - start_pack c) * no_positions c * 32 < MAX_CMAP_BLOCK_SIZE.

Lemma cmap_declared_spec n : 0 <= n -> n < (n / 32 + 1) * 32 <= n + 32.
Proof. intros. pose proof (Z.div_mod n 32). pose proof (Z.mod_pos_bound n 32). lia. Qed.

Lemma block_word c b st pos_ nd old :
  0 < pos_ -> 0 <= st ->
  zlen b = (nd - st) * pos_ * 8 ->
  (forall k, 0 <= k < zlen b ->
     b.[0|k] = if k <? (old - st) * pos_ * 8 then ((cmap_buffers c).[[]|0]).[0|k] else all_ones) ->
  forall p i, st <= p < nd -> 0 <= i < pos_ * 8 ->
    b.[0|(p - st) * pos_ * 8 + i]
    = if p <? old then ((cmap_buffers c).[[]|0]).[0|(p - st) * pos_ * 8 + i] else all_ones.
Proof.
  intros Hpos Hst L K p i Hp Hi.
  assert (0 <= (p - st) * pos_ * 8 + i < zlen b) by (rewrite L; nia).
  rewrite K by done.
  destruct (Z.ltb_spec p old), (Z.ltb_spec ((p - st) * pos_ * 8 + i) ((old - st) * pos_ * 8)); try done; nia.
Qed.

Lemma cmap_AppendKNs_spec junk c n :
  Inv c -> no_pack c <= n < 2 ^ 31 - 32 -> fits c n ->
  exists c', AppendKNs junk c n = Some c' /\ Inv c' /\ no_pack c' = n /\ no_obj c' = no_obj c /\ grows c c'.
Proof.
  intros [Hs Hp He Hd] Hn Hf. pose proof Hs as [S1 S2 S3 S4 S5 S6 S7]. unfold AppendKNs.
  destruct (Z.ltb_spec n (no_pack c)); [lia|]. rewrite Z.quot_div_nonneg by lia.
  pose proof (cmap_declared_spec n ltac:(lia)).
  assert (no_pack c / 32 <= n / 32) by (apply Z.div_le_mono; lia).
  destruct (Alloc_block junk (no_obj c) (no_pack c) (start_pack c) (end_pack c) (no_pack_declared c)
    (no_positions c) (cmap_buffers c) (no_pack_declared c - start_pack c) ((n / 32 + 1) * 32))
    as (b & Ea & L & K); [lia|lia|lia|done|intros; apply S6; lia|intros; apply S7; lia|].
  replace (mkCMap _ _ _ _ _ _ _ (cmap_buffers c)) with c in Ea by (rewrite <- S4; by destruct c).
  rewrite Ea.
  cbn [mbind option_bind]. eexists. split; [reflexivity|]. split.
  { split; simpl; try lia. split; simpl; try done; try lia. intros _. by exists b. }
  simpl. split; [done|]. split; [done|]. split; [done|]. split; [done|]. split; [simpl; lia|].
  intros p i [P1 P2] Hi. unfold word. simpl in *. change ([b].[[]|0]) with b.
  apply (block_word c b _ _ ((n / 32 + 1) * 32)); try done; lia.
Qed.

Lemma cmap_Create_spec junk no_pos0 n no_pos :
  0 < n < 2 ^ 46 -> 0 < no_pos <= 64 -> n <= 2 ^ 32 ->
  exists c, Create junk (CMap_new no_pos0) n no_pos = Some c /\ Inv c /\ no_obj c = n /\ start_pack c = 0
    /\ no_positions c = no_pos /\ no_pack c = (n - 1) / 65536 + 1
    /\ forall p i, in_memory c p -> 0 <= i < no_pos * 8 -> word c p i = all_ones.
Proof.
  intros Hn Hpos Hsmall. destruct (NoObj2NoPacks_spec n Hn) as [E Hr]. unfold Create.
  cbn [CMap_new start_pack end_pack total_size].
  set (np := NoObj2NoPacks n) in *. pose proof (cmap_declared_spec np ltac:(lia)).
  assert (np <= 65536).
  { rewrite E. assert ((n - 1) / 65536 < 65536) by (apply Z.div_lt_upper_bound; lia). lia. }
  destruct (Alloc_block junk n np 0 0 ((np / 32 + 1) * 32) no_pos [] 0 ((np / 32 + 1) * 32))
    as (b & Ea & L & K); [lia|lia|lia|unfold MAX_CMAP_BLOCK_SIZE; nia|done|lia|].
  rewrite Z.mul_0_l in Ea. change (0 * 32) with 0 in Ea. rewrite Ea.
  cbn [mbind option_bind]. eexists. split; [reflexivity|]. rewrite Z.sub_0_r in *.
  split.
  { split; simpl; try lia. split; simpl; try done; try lia.
    - unfold MAX_CMAP_BLOCK_SIZE. nia.
    - intros _. exists b. rewrite Z.sub_0_r. done. }
  simpl. repeat (split; [done || lia|]). intros p i [P1 P2] Hi. unfold word. simpl in *.
  change ([b].[[]|0]) with b. rewrite Z.sub_0_r. rewrite K by (rewrite L; nia).
  destruct (Z.ltb_spec (p * no_pos * 8 + i) (0 * no_pos * 8)); [nia|done].
Qed.

Lemma cmap_Inv_set_obj c n : Inv c -> Inv (set_obj c n).
Proof. intros [[? ? ? ? ? ? ?] ? ? ?]. split; [split|..]; done. Qed.

Lemma cmap_ClearPack_spec c p :
  Inv c -> start_pack c <= p <= end_pack c ->
  exists c', ClearPack c p = Some c' /\ Inv c' /\ same_frame c c'
    /\ forall q i, in_memory c q -> 0 <= i < no_positions c * 8 ->
         word c' q i = if q =? p then 0 else word c q i.
Proof.
  intros Hi Hp. pose proof (cmap_in_memory_pack c p Hi Hp) as Hm. pose proof (inv_shape c Hi) as Hs.
  pose proof (sh_pos c Hs). unfold ClearPack. destruct (block_of c p Hs Hm) as (b & E & _ & _). rewrite E.
  destruct (Z.leb_spec (start_pack c) p); [|lia]. destruct (Z.leb_spec p (end_pack c)); [|lia].
  change (negb (zlen [b] =? 0) && true && true) with true.
  destruct (cmap_write_pack_spec c p 0 (replicate (Z.to_nat (no_positions c * 8)) 0) Hs Hm)
    as (c' & Ew & Hf & Hs' & Hw); [lia|rewrite zlen_replicate by lia; lia|].
  exists c'. split; [done|]. split; [by apply (cmap_Inv_frame c)|]. split; [done|]. intros q i Hq Hk.
  rewrite Hw by done. rewrite zlen_replicate by lia. destruct (q =? p); simpl; [|done].
  destruct (Z.leb_spec 0 i); [|lia]. destruct (Z.ltb_spec i (0 + no_positions c * 8)); [|lia]. simpl.
  apply znth_replicate. lia.
Qed.

(** ** Marking bytes *)

Lemma cell_index ch pos np : 0 <= ch < 256 -> 0 <= pos < np -> 0 <= pos * 8 + ch / 32 < np * 8.
Proof.
  intros. assert (0 <= ch / 32 < 8) by (split; [apply Z.div_pos; lia|apply Z.div_lt_upper_bound; lia]). nia.
Qed.

Lemma pos_words pos : pos * 32 / 4 = pos * 8.
Proof. replace (pos * 32) with (pos * 8 * 4) by ring. by rewrite Z.div_mul by lia. Qed.

Lemma IsSet_spec c p ch pos :
  Shape c -> in_memory c p -> in_map c ch pos -> IsSet c p ch pos = Some (cell c p ch pos).
Proof.
  intros Hs Hm [Hc Hpos]. unfold IsSet. rewrite pos_words. pose proof (cell_index ch pos _ Hc Hpos).
  rewrite cmap_get_word_spec by done. cbn [mbind option_bind]. f_equal. unfold cell.
  set (w := word c p _). pose proof (Z.mod_pos_bound ch 32 ltac:(lia)).
  rewrite <- (Z.add_0_l (ch mod 32)) at 2. rewrite <- Z.shiftr_spec by lia.
  rewrite Z.bit0_odd, Zmod_odd. by destruct (Z.odd _).
Qed.

Lemma Set_spec c p ch pos :
  Inv c -> in_memory c p -> in_map c ch pos ->
  exists c', Set_ c p ch pos = Some c' /\ Inv c' /\ same_frame c c'
    /\ forall q ch' pos', in_memory c q -> in_map c ch' pos' ->
         cell c' q ch' pos' = cell c q ch' pos' || (q =? p) && (ch' =? ch) && (pos' =? pos).
Proof.
  intros Hi Hm [Hc Hpos]. pose proof (inv_shape c Hi) as Hs. unfold Set_. rewrite pos_words.
  pose proof (cell_index ch pos _ Hc Hpos). rewrite cmap_get_word_spec by done. cbn [mbind option_bind].
  set (w := word c p (pos * 8 + ch / 32)).
  destruct (cmap_write_pack_spec c p (pos * 8 + ch / 32) [Z.lor w (Z.shiftl 1 (ch mod 32))] Hs Hm)
    as (c' & E & Hf & Hs' & Hw); [lia|unfold zlen; simpl; lia|].
  exists c'. split; [done|]. split; [by apply (cmap_Inv_frame c)|]. split; [done|].
  intros q ch' pos' Hq [Hc' Hpos']. unfold cell. pose proof (cell_index ch' pos' _ Hc' Hpos').
  rewrite Hw by done. change (zlen [Z.lor w (Z.shiftl 1 (ch mod 32))]) with 1.
  destruct (Z.eqb_spec q p) as [->|]; simpl; [|by rewrite orb_false_r].
  assert (0 <= ch / 32 < 8) by (split; [apply Z.div_pos; lia|apply Z.div_lt_upper_bound; lia]).
  assert (0 <= ch' / 32 < 8) by (split; [apply Z.div_pos; lia|apply Z.div_lt_upper_bound; lia]).
  pose proof (Z.div_mod ch 32 ltac:(lia)). pose proof (Z.mod_pos_bound ch 32 ltac:(lia)).
  pose proof (Z.div_mod ch' 32 ltac:(lia)). pose proof (Z.mod_pos_bound ch' 32 ltac:(lia)).
  destruct (Z.leb_spec (pos * 8 + ch / 32) (pos' * 8 + ch' / 32)),
    (Z.ltb_spec (pos' * 8 + ch' / 32) (pos * 8 + ch / 32 + 1)); simpl;
    try (destruct (Z.eqb_spec ch' ch), (Z.eqb_spec pos' pos); subst; try lia; simpl; by rewrite orb_false_r).
  assert (pos' = pos) as -> by lia. assert (ch' / 32 = ch / 32) as -> by lia. rewrite Z.eqb_refl, andb_true_r.
  rewrite Z.sub_diag. change ([Z.lor w (Z.shiftl 1 (ch mod 32))].[0|0]) with (Z.lor w (Z.shiftl 1 (ch mod 32))).
  rewrite Z.lor_spec, Z.shiftl_spec by lia. fold w. f_equal.
  destruct (Z.eqb_spec ch' ch) as [->|]; [by rewrite Z.sub_diag|].
  destruct (Z.lt_ge_cases (ch' mod 32 - ch mod 32) 0).
  - by rewrite (Z.testbit_neg_r 1) by lia.
  - by rewrite (Z.bits_above_log2 1) by (simpl; lia).
Qed.

(** ** Recording strings *)

(** Bytes a string marks: byte [ch] at position [pos], within the positions kept. *)
Definition marks (np : Z) (v : list Z) (ch pos : Z) : bool :=
  (pos <? Z.min (zlen v) np) && (v.[0|pos] =? ch).

Definition is_string (v : list Z) : Prop := Forall (fun b => 0 <= b < 256) v.

Lemma string_byte v i : is_string v -> 0 <= i < zlen v -> 0 <= v.[0|i] < 256.
Proof. intros Hv Hi. exact (znth_Forall _ 0 v i Hv Hi). Qed.

Lemma cmap_PutValue_spec c v p :
  Inv c -> in_memory c p -> is_string v ->
  exists c', PutValue c (Some v) p = Some c' /\ Inv c' /\ same_frame c c'
    /\ forall q ch pos, in_memory c q -> in_map c ch pos ->
         cell c' q ch pos = cell c q ch pos || (q =? p) && marks (no_positions c) v ch pos.
Proof.
  intros Hi Hm Hv. pose proof (sh_pos c (inv_shape c Hi)) as Hpos. unfold PutValue, IsNullOrEmpty. cbn [bytes].
  pose proof (zlen_nonneg v). destruct (Z.eqb_spec (zlen v) 0) as [E0|Hne0].
  { exists c. split; [done|]. split; [done|]. split; [apply cmap_same_frame_refl|]. intros q ch pos Hq [_ Hp].
    unfold marks. destruct (Z.ltb_spec pos (Z.min (zlen v) (no_positions c))); [lia|].
    by rewrite andb_false_r, orb_false_r. }
  replace (if zlen v <? no_positions c then zlen v else no_positions c) with (Z.min (zlen v) (no_positions c))
    by (destruct (Z.ltb_spec (zlen v) (no_positions c)); lia).
  set (n := Z.min (zlen v) (no_positions c)).
  pose proof (foldl_range (fun c0 i => c0 ← c0; Set_ c0 p (v.[0|i]) i)
    (fun i c0 => exists c', c0 = Some c' /\ Inv c' /\ same_frame c c'
       /\ forall q ch pos, in_memory c q -> in_map c ch pos ->
            cell c' q ch pos = cell c q ch pos || (q =? p) && ((pos <? i) && (v.[0|pos] =? ch)))
    0 (n - 1) (Some c)) as Hf.
  replace (n - 1 + 1) with n in Hf by lia. apply Hf; [lia| |].
  - exists c. split; [done|]. split; [done|]. split; [apply cmap_same_frame_refl|]. intros q ch pos Hq [_ Hp].
    destruct (Z.ltb_spec pos 0); [lia|]. by rewrite andb_false_r, orb_false_r.
  - intros i c0 Hin (c1 & -> & I1 & F1 & K1). cbn [mbind option_bind].
    pose proof F1 as (_ & _ & F13 & _ & F15 & F16 & _).
    assert (forall q, in_memory c q -> in_memory c1 q) as Hm1 by (unfold in_memory; intros; lia).
    assert (forall ch pos, in_map c ch pos -> in_map c1 ch pos) as Hc1 by (unfold in_map; intros; lia).
    destruct (Set_spec c1 p (v.[0|i]) i I1) as (c2 & -> & I2 & F2 & K2);
      [by apply Hm1|apply Hc1; split; [apply string_byte; [done|lia]|lia]|].
    exists c2. split; [done|]. split; [done|]. split; [by apply (cmap_same_frame_trans _ c1)|].
    intros q ch pos Hq Hp. rewrite K2 by auto. rewrite K1 by done.
    destruct (cell c q ch pos), (Z.eqb_spec q p); simpl; try done.
    destruct (Z.ltb_spec pos i), (Z.ltb_spec pos (i + 1)), (Z.eqb_spec pos i) as [->|]; try lia; simpl; try done.
Qed.

Definition put_values (c : CMap) (p : Z) (vs : list (list Z)) : option CMap :=
  foldl (fun c v => c ← c; PutValue c (Some v) p) (Some c) vs.

Lemma cmap_put_values_spec c p vs :
  Inv c -> in_memory c p -> Forall is_string vs ->
  exists c', put_values c p vs = Some c' /\ Inv c' /\ same_frame c c'
    /\ forall q ch pos, in_memory c q -> in_map c ch pos ->
         cell c' q ch pos = cell c q ch pos || (q =? p) && existsb (fun v => marks (no_positions c) v ch pos) vs.
Proof.
  intros Hi Hm Hvs. unfold put_values. revert c Hi Hm.
  induction Hvs as [|v vs Hv Hvs IH]; intros c Hi Hm.
  - exists c. split; [done|]. split; [done|]. split; [apply cmap_same_frame_refl|]. intros. simpl.
    by rewrite andb_false_r, orb_false_r.
  - destruct (cmap_PutValue_spec c v p Hi Hm Hv) as (c1 & E1 & I1 & F1 & K1). cbn [foldl mbind option_bind].
    rewrite E1. pose proof F1 as (_ & _ & F13 & _ & F15 & F16 & _).
    destruct (IH c1 I1) as (c2 & -> & I2 & F2 & K2); [unfold in_memory in *; lia|].
    exists c2. split; [done|]. split; [done|]. split; [by apply (cmap_same_frame_trans _ c1)|].
    intros q ch pos Hq Hp. rewrite K2 by (unfold in_memory, in_map in *; lia). rewrite K1, F16 by done. simpl.
    destruct (cell c q ch pos), (q =? p); simpl; done.
Qed.

(** A pack cleared and filled again has exactly the bytes of its values. *)
Lemma cmap_rebuild_spec c p vs :
  Inv c -> start_pack c <= p <= end_pack c -> Forall is_string vs ->
  exists c1 c2, ClearPack c p = Some c1 /\ put_values c1 p vs = Some c2 /\ Inv c2 /\ same_frame c c2
    /\ forall q ch pos, in_memory c q -> in_map c ch pos ->
         cell c2 q ch pos = if q =? p then existsb (fun v => marks (no_positions c) v ch pos) vs
                            else cell c q ch pos.
Proof.
  intros Hi Hp Hvs. pose proof (cmap_in_memory_pack c p Hi Hp) as Hm.
  destruct (cmap_ClearPack_spec c p Hi Hp) as (c1 & E1 & I1 & F1 & W1).
  pose proof F1 as (_ & _ & F13 & _ & F15 & F16 & _).
  destruct (cmap_put_values_spec c1 p vs I1) as (c2 & E2 & I2 & F2 & K2); [unfold in_memory in *; lia|done|].
  exists c1, c2. split; [done|]. split; [done|]. split; [done|]. split; [by apply (cmap_same_frame_trans _ c1)|].
  intros q ch pos Hq [Hc Hpos]. rewrite K2 by (unfold in_memory, in_map in *; lia). rewrite F16.
  pose proof (cell_index ch pos _ Hc Hpos).
  unfold cell at 1. rewrite W1 by done. destruct (q =? p); simpl; [by rewrite Z.testbit_0_l|].
  by rewrite orb_false_r.
Qed.

(** ** Queries *)

Lemma cmap_any_set_spec c p pos a b :
  Shape c -> in_memory c p -> 0 <= pos < no_positions c -> 0 <= a -> b < 256 ->
  exists r, IsAnySet c p a b pos = Some r /\ (r = false -> forall ch, a <= ch <= b -> cell c p ch pos = false).
Proof.
  intros Hs Hm Hpos. unfold IsAnySet. revert a.
  refine (range_ind (fun l a => 0 <= a -> b < 256 -> exists r, any_set c p l pos = Some r
    /\ (r = false -> forall ch, a <= ch <= b -> cell c p ch pos = false)) b _ _).
  - intros a Hab _ _. exists false. split; [done|]. intros _ ch Hc. lia.
  - intros a Hab IH Ha Hb. cbn [any_set]. rewrite IsSet_spec by (done || (unfold in_map; lia)).
    cbn [mbind option_bind]. destruct (cell c p a pos) eqn:E; [by exists true|].
    destruct IH as (r & -> & Hr); [lia|lia|]. exists r. split; [done|]. intros -> ch Hc.
    destruct (Z.eq_dec ch a) as [->|]; [done|]. apply Hr; [done|lia].
Qed.

Lemma all_possible_spec c p v n :
  Shape c -> in_memory c p -> is_string v -> n <= zlen v -> n <= no_positions c ->
  exists r, all_possible c p v (range 0 (n - 1)) = Some r
    /\ (r = false -> exists i, 0 <= i < n /\ cell c p (v.[0|i]) i = false).
Proof.
  intros Hs Hm Hv Hl Hn.
  assert (forall a, 0 <= a -> exists r, all_possible c p v (range a (n - 1)) = Some r
    /\ (r = false -> exists i, 0 <= i < n /\ cell c p (v.[0|i]) i = false)) as H; [|by apply H].
  refine (range_ind (fun l a => 0 <= a -> exists r, all_possible c p v l = Some r
    /\ (r = false -> exists i, 0 <= i < n /\ cell c p (v.[0|i]) i = false)) (n - 1) _ _).
  - intros a Ha _. by exists true.
  - intros a Ha IH Ha0. cbn [all_possible].
    rewrite IsSet_spec by (done || (split; [apply string_byte; [done|lia]|lia])).
    cbn [mbind option_bind]. destruct (cell c p (v.[0|a]) a) eqn:E; [apply IH; lia|].
    exists false. split; [done|]. intros _. exists a. split; [lia|done].
Qed.

(** Strings compared byte by byte. *)
Fixpoint str_le (a b : list Z) : bool :=
  match a, b with
  | [], _ => true
  | _ :: _, [] => false
  | x :: a', y :: b' => (x <? y) || (x =? y) && str_le a' b'
  end.

(** The interval of a query: a null bound is infinite. *)
Definition in_interval (lo hi : RCBString) (v : list Z) : Prop :=
  (forall l, lo = Some l -> str_le l v = true) /\ (forall h, hi = Some h -> str_le v h = true).

Lemma str_le_head a b : str_le a b = true -> 0 < zlen a -> 0 < zlen b /\ a.[0|0] <= b.[0|0].
Proof.
  destruct a as [|x a], b as [|y b]; simpl; try (unfold zlen; simpl; lia).
  intros Hle _. change ((x :: a).[0|0]) with x. change ((y :: b).[0|0]) with y.
  unfold zlen. simpl. split; [lia|].
  destruct (Z.ltb_spec x y); [lia|]. destruct (Z.eqb_spec x y); [lia|done].
Qed.

Lemma str_le_antisym a b : str_le a b = true -> str_le b a = true -> a = b.
Proof.
  revert b. induction a as [|x a IH]; intros [|y b]; simpl; try done. intros H1 H2.
  destruct (Z.ltb_spec x y), (Z.ltb_spec y x), (Z.eqb_spec x y), (Z.eqb_spec y x); simpl in *; try done; try lia.
  subst. f_equal. by apply IH.
Qed.

Lemma RCBString_eq_spec a b : RCBString_eq a b = true -> exists s, a = Some s /\ b = Some s.
Proof.
  destruct a as [x|], b as [y|]; simpl; try done. intros H. apply bool_decide_eq_true in H as ->. by exists y.
Qed.

Lemma marked np vs v ch pos :
  In v vs -> 0 <= pos < Z.min (zlen v) np -> v.[0|pos] = ch -> existsb (fun v => marks np v ch pos) vs = true.
Proof.
  intros Hv Hp <-. apply existsb_exists. exists v. split; [done|]. unfold marks.
  rewrite Z.eqb_refl, andb_true_r. apply Z.ltb_lt. lia.
Qed.

(** C32: A character map never hides a text value.  Clear the map of a pack, record its values,
    and ask for one string or for an interval of strings (a null bound is infinite): the query
    returns, and [RS_NONE] means that no non-empty value of the pack is in the interval; [RS_ALL]
    is never answered. *)
Theorem CMap_IsValue_sound (c : CMap) (p : Z) (vs : list (list Z)) (lo hi : RCBString) :
  Inv c -> start_pack c <= p <= end_pack c -> Forall is_string vs ->
  is_string (bytes lo) -> is_string (bytes hi) ->
  exists c1 c2 r, ClearPack c p = Some c1 /\ put_values c1 p vs = Some c2 /\ IsValue c2 lo hi p = Some r
    /\ (r = RS_NONE -> forall v, In v vs -> v <> [] -> ~ in_interval lo hi v)
    /\ (r = RS_NONE \/ r = RS_SOME).
Proof.
  intros Hi Hp Hvs Hlo Hhi. destruct (cmap_rebuild_spec c p vs Hi Hp Hvs) as (c1 & c2 & E1 & E2 & I2 & F2 & K).
  pose proof F2 as (_ & _ & F3 & _ & F5 & F6 & _). pose proof (cmap_in_memory_pack c p Hi Hp) as Hm.
  assert (in_memory c2 p) as Hm2 by (unfold in_memory in *; lia).
  pose proof (inv_shape c2 I2) as Hs2. pose proof (sh_pos c2 Hs2) as Hpos.
  assert (forall ch pos, in_map c ch pos ->
    cell c2 p ch pos = existsb (fun v => marks (no_positions c) v ch pos) vs) as K'.
  { intros ch pos Hc. rewrite K by done. by rewrite Z.eqb_refl. }
  enough (exists r, IsValue c2 lo hi p = Some r
    /\ (r = RS_NONE -> forall v, In v vs -> v <> [] -> ~ in_interval lo hi v)
    /\ (r = RS_NONE \/ r = RS_SOME)) as (r & ? & ?) by (by exists c1, c2, r).
  unfold IsValue. destruct (RCBString_eq lo hi) eqn:Eq.
  - apply RCBString_eq_spec in Eq as (s & -> & ->). cbn [bytes] in *. pose proof (zlen_nonneg s).
    replace (if zlen s <? no_positions c2 then zlen s else no_positions c2) with (Z.min (zlen s) (no_positions c2))
      by (destruct (Z.ltb_spec (zlen s) (no_positions c2)); lia).
    destruct (all_possible_spec c2 p s (Z.min (zlen s) (no_positions c2)) Hs2 Hm2 Hlo) as (r & Er & Hr);
      [lia|lia|]. rewrite Er. eexists. split; [reflexivity|].
    destruct r; [split; [done|by right]|]. split; [|by left]. intros _ v Hv _ [Hin1 Hin2].
    assert (s = v) as -> by (apply str_le_antisym; [by apply Hin1|by apply Hin2]).
    destruct (Hr eq_refl) as (i & Hi1 & Hi2).
    rewrite K' in Hi2 by (split; [apply string_byte; [done|lia]|lia]).
    rewrite (marked _ vs v (v.[0|i]) i) in Hi2; [done|done|lia|done].
  - set (f := if 0 <? zlen (bytes lo) then (bytes lo).[0|0] else 0).
    set (l := if 0 <? zlen (bytes hi) then (bytes hi).[0|0] else 255).
    assert (0 <= f < 256 /\ 0 <= l < 256) as [Hf Hl].
    { unfold f, l. split; [destruct (Z.ltb_spec 0 (zlen (bytes lo)))|destruct (Z.ltb_spec 0 (zlen (bytes hi)))];
        try lia; apply string_byte; done || lia. }
    assert (forall v, In v vs -> v <> [] -> in_interval lo hi v -> 0 < zlen v /\ f <= v.[0|0] <= l) as Hfirst.
    { intros v Hv Hne [H1 H2]. assert (0 < zlen v) by (destruct v; [done|unfold zlen; simpl; lia]).
      assert (0 <= v.[0|0] < 256).
      { apply string_byte; [|lia]. rewrite Forall_forall in Hvs. apply Hvs. by apply list_elem_of_In. }
      split; [done|]. unfold f, l. split.
      - destruct lo as [a|]; cbn [bytes]; [|simpl; lia]. destruct (Z.ltb_spec 0 (zlen a)); [|lia].
        by apply str_le_head; [apply H1|].
      - destruct hi as [b|]; cbn [bytes]; [|simpl; lia]. destruct (Z.ltb_spec 0 (zlen b)); [|lia].
        by apply str_le_head; [apply H2|]. }
    destruct (Z.ltb_spec l f).
    + exists RS_NONE. split; [done|]. split; [|by left].
      intros _ v Hv Hne Hin. destruct (Hfirst v Hv Hne Hin). lia.
    + destruct (cmap_any_set_spec c2 p 0 f l Hs2 Hm2) as (r & Er & Hr); [lia|lia|lia|].
      rewrite Er. eexists. split; [reflexivity|].
      destruct r; [split; [done|by right]|]. split; [|by left]. intros _ v Hv Hne Hin.
      destruct (Hfirst v Hv Hne Hin) as [Hz Hb]. specialize (Hr eq_refl (v.[0|0]) Hb).
      rewrite K' in Hr by (split; lia). rewrite (marked _ vs v (v.[0|0]) 0) in Hr; [done|done|lia|done].
Qed.

Lemma CMap_IsValue_sound_witness :
  exists c c1 c2 r, Create (fun _ => 7) (CMap_new 64) 100000 10 = Some c /\ ClearPack c 1 = Some c1
    /\ put_values c1 1 [[97; 98]; [120]] = Some c2 /\ IsValue c2 (Some [97]) (Some [98]) 1 = Some r
    /\ (r = RS_NONE -> ~ in_interval (Some [97]) (Some [98]) [97; 98]).
Proof.
  destruct (cmap_Create_spec (fun _ => 7) 64 100000 10 ltac:(lia) ltac:(lia) ltac:(lia)) as (c & E & Hi & _ & Hst & _ & Hp & _).
  change ((100000 - 1) / 65536 + 1) with 2 in Hp. pose proof (inv_end c Hi) as He.
  destruct (CMap_IsValue_sound c 1 [[97; 98]; [120]] (Some [97]) (Some [98])) as (c1 & c2 & r & E1 & E2 & E3 & N & _);
    [done|lia|repeat (apply Forall_cons; split; [repeat (constructor || lia)|]); constructor
     |repeat (constructor || lia)|repeat (constructor || lia)|].
  exists c, c1, c2, r. repeat (split; [done|]). intros Hr. apply N; [done|simpl; tauto|done].
Defined.

(** ** LIKE patterns *)

(** What a pattern matches: "%" any bytes, "_" one byte, the escape character makes the next
    byte literal. *)
Inductive like (esc : Z) : list Z -> list Z -> Prop :=
  | like_nil : like esc [] []
  | like_percent_nil p v : like esc p v -> like esc (percent :: p) v
  | like_percent_cons p b v : like esc (percent :: p) v -> like esc (percent :: p) (b :: v)
  | like_any p b v : like esc p v -> like esc (underscore :: p) (b :: v)
  | like_escape p b v : like esc p v -> like esc (esc :: b :: p) (b :: v)
  | like_byte p b v : b <> percent -> b <> underscore -> b <> esc ->
      like esc p v -> like esc (b :: p) (b :: v).

(** Up to its first "%" or escape a pattern fixes the bytes of the string, "_" apart. *)
Definition fixed_upto (esc : Z) (p : list Z) (k : Z) : Prop :=
  forall i, 0 <= i <= k -> p.[0|i] <> percent /\ p.[0|i] <> esc.

Lemma znth_cons_succ (x : Z) l i : 0 <= i -> (x :: l).[0|i + 1] = l.[0|i].
Proof.
  intros. change (x :: l) with ([x] ++ l). rewrite znth_app_r by (unfold zlen; simpl; lia).
  f_equal. unfold zlen. simpl. lia.
Qed.

Lemma like_prefix esc p v k :
  like esc p v -> 0 <= k < zlen p -> fixed_upto esc p k ->
  k < zlen v /\ (p.[0|k] = underscore \/ v.[0|k] = p.[0|k]).
Proof.
  intros Hl. revert k. induction Hl as [|p v Hl IH|p b v Hl IH|p b v Hl IH|p b v Hl IH|p b v N1 N2 N3 Hl IH];
    intros k Hk Hf.
  - unfold zlen in Hk. simpl in Hk. lia.
  - destruct (Hf 0 ltac:(lia)) as [Hc _]. by contradict Hc.
  - destruct (Hf 0 ltac:(lia)) as [Hc _]. by contradict Hc.
  - destruct (Z.eq_dec k 0) as [->|]; [unfold zlen; simpl; split; [lia|by left]|].
    destruct (IH (k - 1)) as [I1 I2].
    { unfold zlen in *. simpl in Hk. lia. }
    { intros i Hi. specialize (Hf (i + 1) ltac:(lia)). by rewrite znth_cons_succ in Hf by lia. }
    replace k with (k - 1 + 1) by lia. rewrite !znth_cons_succ by lia.
    split; [unfold zlen in *; simpl; lia|done].
  - destruct (Hf 0 ltac:(lia)) as [_ Hc]. by contradict Hc.
  - destruct (Z.eq_dec k 0) as [->|]; [unfold zlen; simpl; split; [lia|by right]|].
    destruct (IH (k - 1)) as [I1 I2].
    { unfold zlen in *. simpl in Hk. lia. }
    { intros i Hi. specialize (Hf (i + 1) ltac:(lia)). by rewrite znth_cons_succ in Hf by lia. }
    replace k with (k - 1 + 1) by lia. rewrite !znth_cons_succ by lia.
    split; [unfold zlen in *; simpl; lia|done].
Qed.

Lemma like_scan_spec c p esc pat n :
  Shape c -> in_memory c p -> is_string pat -> n <= zlen pat -> n <= no_positions c ->
  exists r, like_scan c p esc pat (range 0 (n - 1)) = Some r /\ (r = RS_NONE \/ r = RS_SOME)
    /\ (r = RS_NONE -> exists k, 0 <= k < n /\ fixed_upto esc pat k /\ pat.[0|k] <> underscore
                         /\ cell c p (pat.[0|k]) k = false).
Proof.
  intros Hs Hm Hv Hl Hn.
  assert (forall a, 0 <= a -> fixed_upto esc pat (a - 1) ->
    exists r, like_scan c p esc pat (range a (n - 1)) = Some r /\ (r = RS_NONE \/ r = RS_SOME)
    /\ (r = RS_NONE -> exists k, 0 <= k < n /\ fixed_upto esc pat k /\ pat.[0|k] <> underscore
                         /\ cell c p (pat.[0|k]) k = false)) as H.
  { refine (range_ind (fun l a => 0 <= a -> fixed_upto esc pat (a - 1) ->
      exists r, like_scan c p esc pat l = Some r /\ (r = RS_NONE \/ r = RS_SOME)
      /\ (r = RS_NONE -> exists k, 0 <= k < n /\ fixed_upto esc pat k /\ pat.[0|k] <> underscore
                           /\ cell c p (pat.[0|k]) k = false)) (n - 1) _ _).
    - intros a Ha _ _. exists RS_SOME. split; [done|]. split; [by right|done].
    - intros a Ha IH Ha0 Hfix. cbn [like_scan].
      destruct (Z.eqb_spec (pat.[0|a]) percent) as [|N1];
        [exists RS_SOME; split; [done|]; split; [by right|done]|].
      destruct (Z.eqb_spec (pat.[0|a]) esc) as [|N2];
        [exists RS_SOME; split; [done|]; split; [by right|done]|]. cbn [orb].
      assert (fixed_upto esc pat a) as Hfa.
      { intros i Hi. destruct (Z.eq_dec i a) as [->|]; [done|]. apply Hfix. lia. }
      assert (fixed_upto esc pat (a + 1 - 1)) as Hfa' by (by replace (a + 1 - 1) with a by lia).
      destruct (Z.eqb_spec (pat.[0|a]) underscore) as [|N3]; [apply IH; [lia|done]|].
      rewrite IsSet_spec by (done || (split; [apply string_byte; [done|lia]|lia])).
      cbn [mbind option_bind]. destruct (cell c p (pat.[0|a]) a) eqn:E; [apply IH; [lia|done]|].
      exists RS_NONE. split; [done|]. split; [by left|]. intros _. exists a.
      split; [lia|]. split; [done|]. split; done. }
  apply H; [lia|]. intros i Hi. lia.
Qed.

(** C33: A LIKE query never hides a text value: on a pack cleared and filled with its values,
    [IsLike] returns, and [RS_NONE] means that no value of the pack matches the pattern. *)
Theorem CMap_IsLike_sound (c : CMap) (p esc : Z) (vs : list (list Z)) (pat : list Z) :
  Inv c -> start_pack c <= p <= end_pack c -> Forall is_string vs -> is_string pat ->
  exists c1 c2 r, ClearPack c p = Some c1 /\ put_values c1 p vs = Some c2 /\ IsLike c2 (Some pat) p esc = Some r
    /\ (r = RS_NONE -> forall v, In v vs -> ~ like esc pat v) /\ (r = RS_NONE \/ r = RS_SOME).
Proof.
  intros Hi Hp Hvs Hpat. destruct (cmap_rebuild_spec c p vs Hi Hp Hvs) as (c1 & c2 & E1 & E2 & I2 & F2 & K).
  pose proof F2 as (_ & _ & F3 & _ & F5 & F6 & _). pose proof (cmap_in_memory_pack c p Hi Hp) as Hm.
  unfold IsLike. cbn [bytes].
  destruct (like_scan_spec c2 p esc pat (Z.min (zlen pat) (no_positions c2)) (inv_shape c2 I2))
    as (r & Er & Hr & Hn); [unfold in_memory in *; lia|done|lia|lia|].
  exists c1, c2, r. split; [done|]. split; [done|]. split; [done|]. split; [|done].
  intros -> v Hv Hlike. destruct (Hn eq_refl) as (k & Hk & Hf & Hne & Hc).
  destruct (like_prefix esc pat v k Hlike ltac:(lia) Hf) as [Hlen [Hu|Hb]]; [done|].
  rewrite K, Z.eqb_refl in Hc by (done || (split; [apply string_byte; [done|lia]|lia])).
  rewrite (marked _ vs v (pat.[0|k]) k) in Hc; [done|done|lia|done].
Qed.

Lemma CMap_IsLike_sound_witness :
  exists c c1 c2 r, Create (fun _ => 7) (CMap_new 64) 100000 10 = Some c /\ ClearPack c 0 = Some c1
    /\ put_values c1 0 [[97; 98]; [120]] = Some c2 /\ IsLike c2 (Some [97; 95; 37]) 0 92 = Some r
    /\ (r = RS_NONE -> ~ like 92 [97; 95; 37] [97; 98]).
Proof.
  destruct (cmap_Create_spec (fun _ => 7) 64 100000 10 ltac:(lia) ltac:(lia) ltac:(lia)) as (c & E & Hi & _ & Hst & _ & Hp & _).
  change ((100000 - 1) / 65536 + 1) with 2 in Hp. pose proof (inv_end c Hi) as He.
  destruct (CMap_IsLike_sound c 0 92 [[97; 98]; [120]] [97; 95; 37]) as (c1 & c2 & r & E1 & E2 & E3 & N & _);
    [done|lia|repeat (apply Forall_cons; split; [repeat (constructor || lia)|]); constructor
     |repeat (constructor || lia)|].
  exists c, c1, c2, r. repeat (split; [done|]). intros Hr. apply N; [done|simpl; tauto].
Defined.

(** ** Creation and growth *)

(** A character map created for [n] rows (up to [2 ^ 32]) marks every byte at every position
    of every pack; growing it keeps the maps it had and adds all-ones ones, as long as it stays
    below one block; [ClearPack] empties one map; [NoOnes] counts the bytes marked at a
    position. *)
Theorem CMap_updates (junk : Z -> Z) (c : CMap) (n no_pos p pos : Z) :
  0 < n <= 2 ^ 32 -> 0 < no_pos <= 64 -> Inv c -> start_pack c <= p <= end_pack c ->
  no_pack c <= (n - 1) / 65536 + 1 -> fits c ((n - 1) / 65536 + 1) -> 0 <= pos < no_positions c ->
  (exists c', Create junk (CMap_new 64) n no_pos = Some c' /\ Inv c' /\ no_pack c' = (n - 1) / 65536 + 1
     /\ forall q i, in_memory c' q -> 0 <= i < no_pos * 8 -> get_word c' q i = Some all_ones)
  /\ (exists c', Update junk c n = Some c' /\ Inv c' /\ no_obj c' = n /\ no_pack c' = (n - 1) / 65536 + 1
     /\ forall q i, in_memory c' q -> 0 <= i < no_positions c * 8 ->
          get_word c' q i = if q <? no_pack_declared c then get_word c q i else Some all_ones)
  /\ (exists c', ClearPack c p = Some c' /\ Inv c'
     /\ forall q i, in_memory c q -> 0 <= i < no_positions c * 8 ->
          get_word c' q i = if q =? p then Some 0 else get_word c q i)
  /\ NoOnes c p pos = Some (cnt (fun ch => cell c p ch pos) 0 256).
Proof.
  intros Hn Hnp Hi Hp Hgr Hfit Hpos. destruct (NoObj2NoPacks_spec n ltac:(lia)) as [E Hr].
  pose proof (inv_shape c Hi) as Hs. pose proof (cmap_in_memory_pack c p Hi Hp) as Hm.
  split; [|split; [|split]].
  - destruct (cmap_Create_spec junk 64 n no_pos ltac:(lia) Hnp ltac:(lia)) as (c' & -> & I' & _ & _ & P' & ? & W).
    exists c'. repeat (split; [done|]). intros q i Hq Hk. rewrite cmap_get_word_spec; [by rewrite W|apply I'|done|lia].
  - unfold Update. destruct (cmap_AppendKNs_spec junk c (NoObj2NoPacks n) Hi ltac:(lia) ltac:(by rewrite E))
      as (c1 & -> & I1 & P1 & _ & (G1 & G2 & G3 & G4)). cbn [mbind option_bind].
    eexists. split; [reflexivity|]. split; [by apply cmap_Inv_set_obj|]. split; [done|]. split; [simpl; lia|].
    intros q i Hq Hk.
    change (get_word c1 q i = if q <? no_pack_declared c then get_word c q i else Some all_ones).
    rewrite cmap_get_word_spec by (apply I1 || done || lia). rewrite G4 by done.
    destruct (Z.ltb_spec q (no_pack_declared c)); [|done].
    symmetry. apply cmap_get_word_spec; [done| |done]. unfold in_memory in *. simpl in Hq. lia.
  - destruct (cmap_ClearPack_spec c p Hi Hp) as (c' & -> & I' & F & W). exists c'. repeat (split; [done|]).
    intros q i Hq Hk. pose proof F as (_ & _ & F3 & _ & F5 & F6 & _).
    rewrite (cmap_get_word_spec c') by (apply I' || (unfold in_memory in *; lia) || lia). rewrite W by done.
    destruct (q =? p); [done|]. by rewrite cmap_get_word_spec.
  - unfold NoOnes. rewrite pos_words. change (32 / 4 - 1) with 7.
    pose proof (foldl_range (fun d i => d ← d; w ← get_word c p (pos * 8 + i); Some (d + CalculateBinSum w))
      (fun i d => d = Some (cnt (fun ch => cell c p ch pos) 0 (32 * i))) 0 7 (Some 0)) as Hf.
    apply Hf; [lia|by rewrite cnt_empty by lia|]. intros i d Hin ->. cbn [mbind option_bind].
    rewrite cmap_get_word_spec by (done || lia). cbn [mbind option_bind]. rewrite CalculateBinSum_spec.
    rewrite (cnt_split _ 0 (32 * i) (32 * (i + 1))) by lia. do 2 f_equal.
    replace (32 * i) with (0 + 32 * i) by lia. replace (32 * (i + 1)) with (32 + 32 * i) by lia.
    rewrite <- cnt_shift. apply cnt_ext. intros k Hk. unfold cell.
    rewrite (Z.mul_comm 32 i), Z.div_add, Z.mod_add, Z.div_small, Z.mod_small by lia. done.
Qed.

Lemma CMap_updates_witness :
  exists c c' c'', Create (fun _ => 7) (CMap_new 64) 100000 10 = Some c
    /\ Update (fun _ => 7) c 300000 = Some c' /\ ClearPack c 1 = Some c'' /\ no_pack c' = 5
    /\ get_word c'' 1 79 = Some 0 /\ NoOnes c 1 9 = Some (cnt (fun ch => cell c 1 ch 9) 0 256).
Proof.
  destruct (cmap_Create_spec (fun _ => 7) 64 100000 10 ltac:(lia) ltac:(lia) ltac:(lia))
    as (c & E & Hi & _ & Hst & Hnp & Hp & _).
  change ((100000 - 1) / 65536 + 1) with 2 in Hp. pose proof (inv_end c Hi) as He.
  destruct (CMap_updates (fun _ => 7) c 300000 10 1 9 ltac:(lia) ltac:(lia) Hi ltac:(lia)
    ltac:(change ((300000 - 1) / 65536 + 1) with 5; lia)
    ltac:(unfold fits; rewrite Hst, Hnp; vm_compute; reflexivity) ltac:(lia))
    as (_ & (c' & E' & _ & _ & P' & _) & (c'' & E'' & _ & W) & N).
  change ((300000 - 1) / 65536 + 1) with 5 in P'.
  exists c, c', c''. repeat (split; [done|]). split; [|done].
  by rewrite W; [|apply cmap_in_memory_pack; [done|lia]|lia].
Defined.

(** ** Where the code goes wrong *)

(** [Deallocate] keeps [total_size]: an index created again believes that it has the memory,
    and the first access finds no block. *)
Example CMap_create_twice :
  (c ← Create (fun _ => 7) (CMap_new 64) 100000 10; c ← Create (fun _ => 7) c 100000 10;
   NoOnes c 0 0) = None.
Proof. vm_compute. reflexivity. Qed.

(** Growth that fills a block exactly reallocates the block to no bytes at all and then writes
    into it. *)
Theorem CMap_Alloc_full_block (junk : Z -> Z) (c : CMap) (nd : Z) :
  0 < total_size c < MAX_CMAP_BLOCK_SIZE ->
  (nd - start_pack c) * no_positions c * 32 = MAX_CMAP_BLOCK_SIZE ->
  Z.rem (total_size c) 4 = 0 -> Alloc junk c nd = None.
Proof.
  intros Ht Hs H4. unfold Alloc. rewrite Hs. destruct (Z.ltb_spec (total_size c) MAX_CMAP_BLOCK_SIZE); [|lia].
  rewrite (one_block_count (total_size c) Ht).
  change (block_count MAX_CMAP_BLOCK_SIZE MAX_CMAP_BLOCK_SIZE) with 1.
  change (Z.rem MAX_CMAP_BLOCK_SIZE MAX_CMAP_BLOCK_SIZE) with 0. cbn [Z.ltb Z.compare].
  change (1 <? 1) with false. cbn [mbind option_bind].
  destruct (zget (cmap_buffers c) (1 - 1)) as [b|]; [|done]. cbn [mbind option_bind].
  assert (realloc junk b (0 / 4) = []) as -> by done.
  unfold write_words. assert (0 < zlen (ones (MAX_CMAP_BLOCK_SIZE - total_size c))) as Hl.
  { unfold ones. rewrite zlen_replicate; [|apply Z.div_pos; lia].
    rewrite Z.rem_mod_nonneg in H4 by lia.
    assert (4 <= MAX_CMAP_BLOCK_SIZE - total_size c).
    { unfold MAX_CMAP_BLOCK_SIZE in *. pose proof (Z.div_mod (total_size c) 4). lia. }
    apply Z.div_str_pos. lia. }
  rewrite Z.rem_small by lia. pose proof (Z.div_pos (total_size c) 4 ltac:(lia) ltac:(lia)).
  change (zlen (@nil Z)) with 0.
  destruct (Z.leb_spec (total_size c / 4 + zlen (ones (MAX_CMAP_BLOCK_SIZE - total_size c))) 0); [lia|].
  by rewrite andb_false_r.
Qed.

(** An empty string is not recorded, so a pack that holds only empty strings is excluded by
    the interval from the empty string to "b", which contains them. *)
Example CMap_IsValue_empty_string :
  (c ← Create (fun _ => 7) (CMap_new 64) 10 10; c ← ClearPack c 0; c ← PutValue c (Some []) 0;
   IsValue c (Some []) (Some [98]) 0) = Some RS_NONE
  /\ in_interval (Some []) (Some [98]) [].
Proof. split; [vm_compute; reflexivity|]. split; intros ? [= <-]; reflexivity. Qed.

(** The map of the pack just after the last one is copied in without the index growing. *)
Example CMap_CopyRepresentation_next :
  (c ← Create (fun _ => 7) (CMap_new 64) 10 10; c ← CopyRepresentation (fun _ => 7) c (replicate 80 0) 1;
   Some (no_pack c, end_pack c)) = Some (1, 0).
Proof. vm_compute. reflexivity. Qed.
