(* ===== verification/RoughCheck.v ===== *)
(** * Rough answers on packs of a numeric column (core/RCAttr_exeq_RS.cpp)

    Before a pack is decompressed the engine asks what its statistics (DPN: minimum, maximum,
    number of nulls) and its histogram say about a condition.  The column uses the histogram
    through the interface [RangeIndex]: what an index promises about the values it was built
    from.  The histograms of [RSIHist] are an instance; the theorems about the column need
    the interface only. *)

From S2P Require Import Prelude BinTools Doubles MemBlock FilterBlock FilterDefs FilterCore FilterQuery RSIHist.

(** ** The interface of a range index *)

(** [ix_describes ix fx p mn mx vs]: pack [p] of the index was built from the values [vs] of
    a pack with minimum [mn] and maximum [mx]; [fx] is false for a floating-point column. *)
Class RangeIndex (Ix : Type) := {
  ix_UpToDate : Ix -> Z -> Z -> bool;
  ix_IsValue : Ix -> Z -> Z -> Z -> Z -> Z -> option RSValue;
  ix_ExactMode : Ix -> Z -> Z -> bool;
  ix_describes : Ix -> bool -> Z -> Z -> Z -> list Z -> Prop;
  ix_sound : forall ix fx p mn mx vs lo hi,
    ix_describes ix fx p mn mx vs -> vle fx lo hi = true ->
    exists r, ix_IsValue ix lo hi p mn mx = Some r
      /\ (r = RS_NONE -> forall v, In v vs -> in_query fx lo hi v = false)
      /\ (r = RS_ALL -> forall v, In v vs -> in_query fx lo hi v = true)
      /\ r <> RS_UNKNOWN;
  ix_exact : forall ix p mn mx vs v,
    ix_describes ix true p mn mx vs -> ix_ExactMode ix mn mx = true -> mn < v < mx ->
    exists r, ix_IsValue ix v v p mn mx = Some r /\ (r = RS_NONE <-> ~ In v vs)
}.

(** ** A column *)

Record DPN := mkDPN {
  local_min : Z;
  local_max : Z;
  no_nulls : Z;
  no_objs : Z;
  nulls_only_file : bool      (* pack_file == PF_NULLS_ONLY *)
}.

Record RCAttr (Ix : Type) := mkAttr {
  dpns : list DPN;
  attr_no_obj : Z;
  attr_no_nulls : Z;
  is_float : bool;            (* a real type *)
  is_packN : bool;            (* PackType() == PackN *)
  utf_lookup : bool;          (* a lookup column whose collation needs conversions *)
  rsi_hist : option Ix        (* what LoadRSI_Hist returns *)
}.
Arguments mkAttr {Ix}.
Arguments dpns {Ix}.
Arguments attr_no_obj {Ix}.
Arguments attr_no_nulls {Ix}.
Arguments is_float {Ix}.
Arguments is_packN {Ix}.
Arguments utf_lookup {Ix}.
Arguments rsi_hist {Ix}.

Definition PLUS_INF_64 : Z := 0x7FFFFFFFFFFFFFFF.
Definition MINUS_INF_64 : Z := - 0x8000000000000000.
(** The bit patterns of [DBL_MAX] and [-DBL_MAX] as 64-bit integers. *)
Definition PLUS_INF_DBL : Z := 0x7FEFFFFFFFFFFFFF.
Definition MINUS_INF_DBL : Z := 0xFFEFFFFFFFFFFFFF - 2 ^ 64.

Definition default_dpn : DPN := mkDPN 0 0 0 0 false.
Definition dpn_of {Ix} (a : RCAttr Ix) (p : Z) : DPN := (dpns a).[default_dpn|p].
Definition NoPack {Ix} (a : RCAttr Ix) : Z := zlen (dpns a).

Definition bits_lt (x y : Z) : bool := dlt (double_of_bits x) (double_of_bits y).
Definition bits_le (x y : Z) : bool := dle (double_of_bits x) (double_of_bits y).

Section Column.
Context {Ix : Type} `{RangeIndex Ix}.

Definition RoughCheckBetween (a : RCAttr Ix) (pack v1 v2 : Z) : option RSValue :=
  let dpn := dpn_of a pack in
  let fl := is_float a in
  res ← (if negb fl && ((v1 =? PLUS_INF_64) || (v2 =? MINUS_INF_64)) then Some RS_NONE
         else if fl && ((v1 =? PLUS_INF_DBL) || (v2 =? MINUS_INF_DBL)) then Some RS_NONE
         else if negb fl && ((local_max dpn <? v1) || (v2 <? local_min dpn)) then Some RS_NONE
         else if fl && (bits_lt (local_max dpn) v1 || bits_lt v2 (local_min dpn)) then Some RS_NONE
         else if negb fl && ((v1 <=? local_min dpn) && (local_max dpn <=? v2)) then Some RS_ALL
         else if fl && (bits_le v1 (local_min dpn) && bits_le (local_max dpn) v2) then Some RS_ALL
         else if (negb fl && (v2 <? v1)) || (fl && bits_lt v2 v1) then Some RS_NONE
         else match rsi_hist a with
              | Some ix =>
                  if ix_UpToDate ix (attr_no_obj a) pack
                  then ix_IsValue ix v1 v2 pack (local_min dpn) (local_max dpn)
                  else Some RS_SOME
              | None => Some RS_SOME
              end);
  Some (if negb (no_nulls dpn =? 0) && RS_is res RS_ALL then RS_SOME else res).

(** A pack takes part in a scan: the filter (all rows when there is none) has rows in it and
    it is not excluded. *)
Definition pack_used (f : option Filter) (rf : option (list RSValue)) (p : Z) : bool :=
  match f with Some f => negb (IsEmpty_b f p) | None => true end
  && match rf with Some rf => negb (RS_is rf.[RS_UNKNOWN|p] RS_NONE) | None => true end.

Definition no_rows (f : option Filter) (rf : option (list RSValue)) : bool :=
  match f, rf with Some f, None => IsEmpty f | _, _ => false end.

Definition RoughMin (a : RCAttr Ix) (f : option Filter) (rf : option (list RSValue)) : Z :=
  if negb (is_packN a) then MINUS_INF_64
  else if no_rows f rf then 0
  else if is_float a then
    let d := foldl (fun d p => if pack_used f rf p && bits_lt (local_min (dpn_of a p)) d
                               then local_min (dpn_of a p) else d)
               PLUS_INF_DBL (range 0 (NoPack a - 1)) in
    if deq (double_of_bits d) (double_of_bits PLUS_INF_DBL) then MINUS_INF_DBL else d
  else
    let res := foldl (fun res p => if pack_used f rf p && (local_min (dpn_of a p) <? res)
                                   then local_min (dpn_of a p) else res)
                 PLUS_INF_64 (range 0 (NoPack a - 1)) in
    if res =? PLUS_INF_64 then MINUS_INF_64 else res.

Definition RoughMax (a : RCAttr Ix) (f : option Filter) (rf : option (list RSValue)) : Z :=
  if negb (is_packN a) then PLUS_INF_64
  else if no_rows f rf then 0
  else if is_float a then
    let d := foldl (fun d p => if pack_used f rf p && bits_lt d (local_max (dpn_of a p))
                               then local_max (dpn_of a p) else d)
               MINUS_INF_DBL (range 0 (NoPack a - 1)) in
    if deq (double_of_bits d) (double_of_bits MINUS_INF_DBL) then PLUS_INF_DBL else d
  else
    let res := foldl (fun res p => if pack_used f rf p && (res <? local_max (dpn_of a p))
                                   then local_max (dpn_of a p) else res)
                 MINUS_INF_64 (range 0 (NoPack a - 1)) in
    if res =? MINUS_INF_64 then PLUS_INF_64 else res.

(** [GetPackOntologicalStatus(pack) == NULLS_ONLY] *)
Definition nulls_only (a : RCAttr Ix) (pack : Z) : bool :=
  (pack <? 0) || nulls_only_file (dpn_of a pack) || (no_nulls (dpn_of a pack) - 1 =? no_objs (dpn_of a pack)).

Definition null_if (b : bool) : list Z := if b then [NULL_VALUE_64] else [].

Definition GetListOfDistinctValuesInPack (a : RCAttr Ix) (pack : Z) : option (list Z) :=
  let dpn := dpn_of a pack in
  let mn := local_min dpn in
  let mx := local_max dpn in
  if negb (is_packN a) || (pack =? -1) || utf_lookup a then Some []
  else if mn =? mx then Some (mn :: null_if (0 <? attr_no_nulls a))
  else if nulls_only a pack then Some [NULL_VALUE_64]
  else if is_float a then Some []
  else if (0 <? swrap 64 (mx - mn)) && (swrap 64 (mx - mn) <? 1024) then
    match rsi_hist a with
    | None => Some []
    | Some ix =>
        if negb (ix_UpToDate ix (attr_no_obj a) pack) || negb (ix_ExactMode ix mn mx) then Some []
        else
          l ← foldl (fun l v => l ← l; r ← ix_IsValue ix v v pack mn mx;
                        Some (if RS_is r RS_NONE then l else l ++ [v]))
                (Some [mn; mx]) (range (mn + 1) (mx - 1));
          Some (l ++ null_if (0 <? attr_no_nulls a))
    end
  else Some [].

(** ** What a pack holds *)

(** The statistics of pack [p] are those of its non-null values [vs] and [nulls] nulls, and
    the index, where it is up to date, was built from them. *)
Definition pack_holds (a : RCAttr Ix) (p : Z) (vs : list Z) (nulls : Z) : Prop :=
  let dpn := dpn_of a p in
  let fx := negb (is_float a) in
  no_nulls dpn = nulls
  /\ (forall v, In v vs -> in_range fx (local_min dpn) (local_max dpn) v = true)
  /\ (forall ix, rsi_hist a = Some ix -> ix_UpToDate ix (attr_no_obj a) p = true ->
        ix_describes ix fx p (local_min dpn) (local_max dpn) vs).

(** Values of a column are inside the bounds that stand for infinity. *)
Definition proper_value (fl : bool) (v : Z) : Prop :=
  if fl then bits_lt v PLUS_INF_DBL = true /\ bits_lt MINUS_INF_DBL v = true
  else MINUS_INF_64 < v < PLUS_INF_64.

(** A bound of a query that the comparison of the column can order. *)
Definition ordered (fl : bool) (v : Z) : Prop := fl = true -> double_of_bits v <> DNaN.

End Column.

(** ** Histograms are range indexes *)

Definition Hist_describes (h : Hist) (fx : bool) (p mn mx : Z) (vs : list Z) : Prop :=
  Inv h /\ start_pack h <= p <= end_pack h /\ fixed h = fx /\ range_ok fx mn mx
  /\ Forall (storable fx mn mx) vs
  /\ (IntervalTooLarge mn mx = false -> forall b, 0 <= b < 1024 -> hbit h p b = recorded fx mn mx vs b).

Lemma Hist_ix_sound h fx p mn mx vs lo hi :
  Hist_describes h fx p mn mx vs -> vle fx lo hi = true ->
  exists r, IsValue h lo hi p mn mx = Some r
    /\ (r = RS_NONE -> forall v, In v vs -> in_query fx lo hi v = false)
    /\ (r = RS_ALL -> forall v, In v vs -> in_query fx lo hi v = true) /\ r <> RS_UNKNOWN.
Proof. intros (Hi & Hp & <- & Hok & Hvs & Hb) Hlh. by apply IsValue_recorded. Qed.

Lemma Hist_ix_exact h p mn mx vs v :
  Hist_describes h true p mn mx vs -> ExactMode mn mx = true -> mn < v < mx ->
  exists r, IsValue h v v p mn mx = Some r /\ (r = RS_NONE <-> ~ In v vs).
Proof.
  intros (Hi & Hp & Hfx & Hok & Hvs & Hb) Em Hv. destruct (exact_bit mn mx 0 Hok Em) as [_ Hw].
  pose proof Hok as (? & ? & ?).
  destruct (IsValue_exact h p mn mx v v vs Hi Hp Hfx Hok Em) as (r & Er & Hr); try done; try lia.
  - unfold IntervalTooLarge. cmp_solve.
  - apply Hb. unfold IntervalTooLarge. cmp_solve.
  - exists r. split; [done|]. rewrite Hr. split; [intros Hn Hin; exact (Hn v Hin ltac:(lia))|].
    intros Hn u Hu Hin. apply Hn. by replace v with u by lia.
Qed.

#[export] Instance Hist_RangeIndex : RangeIndex Hist := {
  ix_UpToDate := UpToDate;
  ix_IsValue := IsValue;
  ix_ExactMode := fun _ => ExactMode;
  ix_describes := Hist_describes;
  ix_sound := Hist_ix_sound;
  ix_exact := Hist_ix_exact
}.

(** ** Order of doubles *)

Lemma bits_lt_not_le x y : bits_lt x y = true -> bits_le y x = false.
Proof.
  unfold bits_lt, bits_le. destruct (double_of_bits x) as [a|[]|], (double_of_bits y) as [b|[]|]; try done.
  rewrite dle_fin. simpl. intros. bool_to_prop. apply Z.leb_gt. lia.
Qed.

Lemma bits_le_total x y :
  double_of_bits x <> DNaN -> double_of_bits y <> DNaN -> bits_lt x y = false -> bits_le y x = true.
Proof.
  unfold bits_lt, bits_le. destruct (double_of_bits x) as [a|[]|], (double_of_bits y) as [b|[]|]; try done.
  rewrite dle_fin. simpl. intros. bool_to_prop. apply Z.leb_le. lia.
Qed.

Lemma bits_lt_le x y : bits_lt x y = true -> bits_le x y = true.
Proof. unfold bits_lt, bits_le, dle. by intros ->. Qed.

Lemma bits_le_trans x y z : bits_le x y = true -> bits_le y z = true -> bits_le x z = true.
Proof. exact (vle_trans false x y z). Qed.

Lemma bits_le_number x y : bits_le x y = true -> double_of_bits x <> DNaN /\ double_of_bits y <> DNaN.
Proof.
  unfold bits_le. destruct (double_of_bits x) as [a|[]|], (double_of_bits y) as [b|[]|]; done.
Qed.

Lemma in_query_range fx lo hi mn mx v :
  in_query fx lo hi v = true -> in_range fx mn mx v = true ->
  vle fx mn hi = true /\ vle fx lo mx = true /\ vle fx lo hi = true.
Proof.
  unfold in_query, in_range. intros Hq Hr. bool_to_prop.
  repeat split; [apply (vle_trans fx mn v hi)|apply (vle_trans fx lo v mx)|apply (vle_trans fx lo v hi)]; done.
Qed.

Section ColumnProofs.
Context {Ix : Type} `{RangeIndex Ix}.
Implicit Types (a : RCAttr Ix) (p : Z) (vs : list Z).

(** The answer before nulls are considered. *)
Lemma RoughCheckBetween_int a p v1 v2 vs nulls :
  is_float a = false -> pack_holds a p vs nulls -> Forall (proper_value false) vs ->
  exists r0, RoughCheckBetween a p v1 v2
      = Some (if negb (nulls =? 0) && RS_is r0 RS_ALL then RS_SOME else r0)
    /\ (r0 = RS_NONE -> forall v, In v vs -> in_query true v1 v2 v = false)
    /\ (r0 = RS_ALL -> forall v, In v vs -> in_query true v1 v2 v = true)
    /\ r0 <> RS_UNKNOWN.
Proof.
  intros Hfl (Hn & Hr & Hix) Hpv. unfold RoughCheckBetween. rewrite Hfl in *. rewrite Hn. cbn [negb andb orb].
  assert (forall v, In v vs -> local_min (dpn_of a p) <= v <= local_max (dpn_of a p) /\ MINUS_INF_64 < v < PLUS_INF_64) as Hv.
  { intros v Hin. specialize (Hr v Hin). unfold in_range, vle in Hr. simpl in Hr. bool_to_prop. split; [done|].
    rewrite Forall_forall in Hpv. apply Hpv. by apply list_elem_of_In. }
  assert (forall v, in_query true v1 v2 v = true <-> v1 <= v <= v2) as Hq.
  { intros v. unfold in_query, vle. rewrite andb_true_iff, !Z.leb_le. done. }
  assert (forall v, in_query true v1 v2 v = false <-> ~ v1 <= v <= v2) as Hq'.
  { intros v. rewrite <- not_true_iff_false, Hq. done. }
  destruct (Z.eqb_spec v1 PLUS_INF_64), (Z.eqb_spec v2 MINUS_INF_64); cbn [orb];
    try (exists RS_NONE; split; [done|]; split; [|done]; intros _ v Hin; apply Hq'; specialize (Hv v Hin); lia).
  destruct (Z.ltb_spec (local_max (dpn_of a p)) v1), (Z.ltb_spec v2 (local_min (dpn_of a p))); cbn [orb];
    try (exists RS_NONE; split; [done|]; split; [|done]; intros _ v Hin; apply Hq'; specialize (Hv v Hin); lia).
  destruct (_ && _) eqn:Eall.
  { exists RS_ALL. split; [done|]. split; [done|]. split; [|done]. bool_to_prop. intros _ v Hin. apply Hq.
    specialize (Hv v Hin). lia. }
  destruct (Z.ltb_spec v2 v1); cbn [orb];
    [exists RS_NONE; split; [done|]; split; [|done]; intros _ v Hin; apply Hq'; lia|].
  destruct (rsi_hist a) as [ix|] eqn:Eix; [|by exists RS_SOME].
  destruct (ix_UpToDate ix (attr_no_obj a) p) eqn:Eup; [|by exists RS_SOME].
  destruct (ix_sound ix true p (local_min (dpn_of a p)) (local_max (dpn_of a p)) vs v1 v2) as (r & -> & Hr').
  - by apply Hix.
  - by apply Z.leb_le.
  - by exists r.
Qed.

Lemma RoughCheckBetween_float a p v1 v2 vs nulls :
  is_float a = true -> pack_holds a p vs nulls -> Forall (proper_value true) vs ->
  double_of_bits v1 <> DNaN -> double_of_bits v2 <> DNaN ->
  exists r0, RoughCheckBetween a p v1 v2
      = Some (if negb (nulls =? 0) && RS_is r0 RS_ALL then RS_SOME else r0)
    /\ (r0 = RS_NONE -> forall v, In v vs -> in_query false v1 v2 v = false)
    /\ (r0 = RS_ALL -> forall v, In v vs -> in_query false v1 v2 v = true)
    /\ r0 <> RS_UNKNOWN.
Proof.
  intros Hfl (Hn & Hr & Hix) Hpv N1 N2. unfold RoughCheckBetween. rewrite Hfl in *. rewrite Hn.
  cbn [negb andb orb] in *.
  set (mn := local_min (dpn_of a p)) in *. set (mx := local_max (dpn_of a p)) in *.
  assert (forall v, In v vs -> in_query false v1 v2 v = true ->
    bits_le mn v2 = true /\ bits_le v1 mx = true /\ bits_le v1 v2 = true
    /\ bits_le v1 v = true /\ bits_le v v2 = true /\ proper_value true v) as Hv.
  { intros v Hin Hq. destruct (in_query_range false v1 v2 mn mx v Hq (Hr v Hin)) as (A & B & C).
    unfold in_query in Hq. bool_to_prop. repeat (split; [done|]).
    rewrite Forall_forall in Hpv. apply Hpv. by apply list_elem_of_In. }
  assert (forall b : bool, b = true -> (forall v, In v vs -> in_query false v1 v2 v = true -> b = false) ->
    exists r0, Some RS_NONE ≫= (fun res => Some (if negb (nulls =? 0) && RS_is res RS_ALL then RS_SOME else res))
      = Some (if negb (nulls =? 0) && RS_is r0 RS_ALL then RS_SOME else r0)
    /\ (r0 = RS_NONE -> forall v, In v vs -> in_query false v1 v2 v = false)
    /\ (r0 = RS_ALL -> forall v, In v vs -> in_query false v1 v2 v = true)
    /\ r0 <> RS_UNKNOWN) as Hnone.
  { intros b -> Hc. exists RS_NONE. split; [done|]. split; [|done]. intros _ v Hin.
    destruct (in_query false v1 v2 v) eqn:Eq; [|done]. specialize (Hc v Hin Eq). done. }
  destruct ((v1 =? PLUS_INF_DBL) || (v2 =? MINUS_INF_DBL)) eqn:E1.
  { apply (Hnone true eq_refl). intros v Hin Hq. destruct (Hv v Hin Hq) as (_ & _ & _ & L1 & L2 & P1 & P2).
    apply orb_true_iff in E1 as [E1|E1]; apply Z.eqb_eq in E1; subst.
    - by rewrite (bits_lt_not_le _ _ P1) in L1.
    - by rewrite (bits_lt_not_le _ _ P2) in L2. }
  destruct (bits_lt mx v1 || bits_lt v2 mn) eqn:E2.
  { apply (Hnone true eq_refl). intros v Hin Hq. destruct (Hv v Hin Hq) as (L1 & L2 & _).
    apply orb_true_iff in E2 as [E2|E2]; rewrite (bits_lt_not_le _ _ E2) in *; done. }
  destruct (bits_le v1 mn && bits_le mx v2) eqn:E3.
  { exists RS_ALL. split; [done|]. split; [done|]. split; [|done]. intros _ v Hin. bool_to_prop.
    specialize (Hr v Hin). unfold in_range in Hr. bool_to_prop. apply andb_true_iff.
    split; [apply (vle_trans false v1 mn v)|apply (vle_trans false v mx v2)]; done. }
  destruct (bits_lt v2 v1) eqn:E4.
  { apply (Hnone true eq_refl). intros v Hin Hq. destruct (Hv v Hin Hq) as (_ & _ & L & _).
    by rewrite (bits_lt_not_le _ _ E4) in L. }
  destruct (rsi_hist a) as [ix|] eqn:Eix; [|by exists RS_SOME].
  destruct (ix_UpToDate ix (attr_no_obj a) p) eqn:Eup; [|by exists RS_SOME].
  destruct (ix_sound ix false p mn mx vs v1 v2) as (r & -> & Hr').
  - by apply Hix.
  - by apply bits_le_total.
  - by exists r.
Qed.
End ColumnProofs.

(** C2: The rough answer to BETWEEN is sound for any index that keeps the promises of
    [RangeIndex]: [RS_NONE] only if no non-null value of the pack is between the bounds,
    [RS_ALL] only if every row is, which includes that the pack has no nulls.  The bounds of a
    floating-point column must not be NaN. *)
Theorem RoughCheckBetween_sound {Ix : Type} `{RangeIndex Ix} (a : RCAttr Ix) (p v1 v2 : Z)
    (vs : list Z) (nulls : Z) :
  pack_holds a p vs nulls -> Forall (proper_value (is_float a)) vs ->
  ordered (is_float a) v1 -> ordered (is_float a) v2 ->
  exists r, RoughCheckBetween a p v1 v2 = Some r
    /\ (r = RS_NONE -> forall v, In v vs -> in_query (negb (is_float a)) v1 v2 v = false)
    /\ (r = RS_ALL -> nulls = 0 /\ forall v, In v vs -> in_query (negb (is_float a)) v1 v2 v = true)
    /\ r <> RS_UNKNOWN.
Proof.
  intros Hp Hpv O1 O2.
  assert (exists r0, RoughCheckBetween a p v1 v2
      = Some (if negb (nulls =? 0) && RS_is r0 RS_ALL then RS_SOME else r0)
    /\ (r0 = RS_NONE -> forall v, In v vs -> in_query (negb (is_float a)) v1 v2 v = false)
    /\ (r0 = RS_ALL -> forall v, In v vs -> in_query (negb (is_float a)) v1 v2 v = true)
    /\ r0 <> RS_UNKNOWN) as (r0 & -> & R1 & R2 & R3).
  { destruct (is_float a) eqn:Efl; [apply RoughCheckBetween_float; auto|by apply RoughCheckBetween_int]. }
  eexists. split; [reflexivity|].
  destruct (Z.eqb_spec nulls 0); simpl; [by repeat split; try apply R2|].
  destruct r0; simpl; try done; split; auto; done.
Qed.

(** ** Bounds of a column *)

Section Bounds.
Context {Ix : Type} (a : RCAttr Ix) (f : option Filter) (rf : option (list RSValue)).

Lemma no_rows_unused p :
  (forall g, f = Some g -> NoPack a <= no_blocks g) -> 0 <= p < NoPack a ->
  no_rows f rf = true -> pack_used f rf p = false.
Proof.
  intros Hf Hp. unfold no_rows, pack_used. destruct f as [g|]; [|done]. destruct rf; [done|].
  unfold IsEmpty. intros He. rewrite forallb_forall in He. specialize (Hf g eq_refl).
  unfold IsEmpty_b. rewrite He; [done|]. apply range_In. lia.
Qed.

(** The loop over the packs keeps the least of the minima: [lt] is the comparison of the code
    and [le] the order it decides on the minima that count. *)
Lemma least_loop (lt le : Z -> Z -> bool) (ok : Z -> Prop) (g : Z -> Z) (z n : Z) :
  0 <= n -> ok z ->
  (forall x y, lt x y = true -> ok x /\ le x y = true) ->
  (forall x y, ok x -> ok y -> lt y x = false -> le x y = true) ->
  (forall x y w, le x y = true -> le y w = true -> le x w = true) ->
  (forall x, ok x -> le x x = true) ->
  let m := foldl (fun m p => if pack_used f rf p && lt (g p) m then g p else m) z (range 0 (n - 1)) in
  ok m /\ le m z = true
  /\ forall p, 0 <= p < n -> pack_used f rf p = true -> ok (g p) -> le m (g p) = true.
Proof.
  intros Hn Hz Hlt Htot Htr Hrefl.
  pose proof (foldl_range (fun m p => if pack_used f rf p && lt (g p) m then g p else m)
    (fun i m => ok m /\ le m z = true
       /\ forall p, 0 <= p < i -> pack_used f rf p = true -> ok (g p) -> le m (g p) = true) 0 (n - 1) z) as Hf.
  replace (n - 1 + 1) with n in Hf by lia. apply Hf; [lia| |].
  - split; [done|]. split; [by apply Hrefl|]. intros p Hp. lia.
  - intros i m Hi (O1 & L1 & A1). destruct (pack_used f rf i) eqn:Eu; simpl.
    + destruct (lt (g i) m) eqn:El.
      * destruct (Hlt _ _ El) as [O2 L2]. split; [done|]. split; [by apply (Htr _ m)|].
        intros p Hp Hu Ho. destruct (Z.eq_dec p i) as [->|]; [by apply Hrefl|].
        apply (Htr _ m); [done|]. apply A1; [lia|done|done].
      * split; [done|]. split; [done|]. intros p Hp Hu Ho.
        destruct (Z.eq_dec p i) as [->|]; [by apply Htot|]. apply A1; [lia|done|done].
    + split; [done|]. split; [done|]. intros p Hp Hu Ho.
      destruct (Z.eq_dec p i) as [->|]; [congruence|]. apply A1; [lia|done|done].
Qed.

Lemma bits_le_refl x : double_of_bits x <> DNaN -> bits_le x x = true.
Proof.
  unfold bits_le. destruct (double_of_bits x) as [k|[]|]; try done. rewrite dle_fin, Z.leb_refl. done.
Qed.
End Bounds.

(** A row of the pack the caller may still want. *)
Definition live_value {Ix : Type} (a : RCAttr Ix) (f : option Filter) (rf : option (list RSValue)) (p v : Z) : Prop :=
  0 <= p < NoPack a /\ pack_used f rf p = true /\ proper_value (is_float a) v
  /\ in_range (negb (is_float a)) (local_min (dpn_of a p)) (local_max (dpn_of a p)) v = true.

(** C37: [RoughMin] and [RoughMax] bound every value of every pack that has rows in the filter
    and is not excluded, for integer and floating-point columns. *)
Theorem Rough_bounds {Ix : Type} (a : RCAttr Ix) (f : option Filter) (rf : option (list RSValue)) (p v : Z) :
  is_packN a = true -> (forall g, f = Some g -> NoPack a <= no_blocks g) -> live_value a f rf p v ->
  vle (negb (is_float a)) (RoughMin a f rf) v = true /\ vle (negb (is_float a)) v (RoughMax a f rf) = true.
Proof.
  intros HN Hf (Hp & Hu & Hv & Hr). unfold RoughMin, RoughMax. rewrite HN. cbn [negb].
  destruct (no_rows f rf) eqn:En; [by rewrite (no_rows_unused a f rf p Hf Hp En) in Hu|].
  pose proof (zlen_nonneg (dpns a)) as Hz. fold (NoPack a) in Hz. unfold in_range in Hr.
  apply andb_true_iff in Hr as [R1 R2]. destruct (is_float a); cbn [negb proper_value vle] in *.
  - destruct Hv as [V1 V2]. destruct (bits_le_number _ _ R1) as [M1 _]. destruct (bits_le_number _ _ R2) as [_ M2].
    split.
    + destruct (least_loop f rf bits_lt bits_le (fun x => double_of_bits x <> DNaN)
        (fun p => local_min (dpn_of a p)) PLUS_INF_DBL (NoPack a)) as (_ & _ & L); [lia|done| | | | |].
      * intros x y E. split; [by apply (bits_le_number x y), bits_lt_le|by apply bits_lt_le].
      * intros. by apply bits_le_total.
      * apply bits_le_trans.
      * apply bits_le_refl.
      * destruct (deq _ _); [by apply bits_lt_le|]. apply (bits_le_trans _ (local_min (dpn_of a p))); [|done].
        by apply (L p).
    + destruct (least_loop f rf (fun x y => bits_lt y x) (fun x y => bits_le y x)
        (fun x => double_of_bits x <> DNaN) (fun p => local_max (dpn_of a p)) MINUS_INF_DBL (NoPack a))
        as (_ & _ & L); [lia|done| | | | |].
      * intros x y E. split; [by apply (bits_le_number y x), bits_lt_le|by apply bits_lt_le].
      * intros. by apply bits_le_total.
      * intros x y w X Y. by apply (bits_le_trans w y x).
      * apply bits_le_refl.
      * destruct (deq _ _); [by apply bits_lt_le|]. apply (bits_le_trans _ (local_max (dpn_of a p))); [done|].
        by apply (L p).
  - bool_to_prop. split; apply Z.leb_le.
    + destruct (least_loop f rf Z.ltb Z.leb (fun _ => True) (fun p => local_min (dpn_of a p)) PLUS_INF_64 (NoPack a))
        as (_ & _ & L); [lia|done|intros; bool_to_prop; split; [done|apply Z.leb_le; lia]
          |intros; bool_to_prop; apply Z.leb_le; lia|intros; bool_to_prop; apply Z.leb_le; lia|intros; apply Z.leb_refl|].
      specialize (L p Hp Hu I). bool_to_prop. destruct (_ =? _); lia.
    + destruct (least_loop f rf (fun x y => y <? x) (fun x y => y <=? x) (fun _ => True)
        (fun p => local_max (dpn_of a p)) MINUS_INF_64 (NoPack a))
        as (_ & _ & L); [lia|done|intros; bool_to_prop; split; [done|apply Z.leb_le; lia]
          |intros; bool_to_prop; apply Z.leb_le; lia|intros; bool_to_prop; apply Z.leb_le; lia|intros; apply Z.leb_refl|].
      specialize (L p Hp Hu I). bool_to_prop. destruct (_ =? _); lia.
Qed.

(** ** Distinct values of a pack *)

Section Distinct.
Context {Ix : Type} `{RangeIndex Ix} (ix : Ix) (p mn mx : Z) (vs : list Z).
Context (Hd : ix_describes ix true p mn mx vs) (He : ix_ExactMode ix mn mx = true).

Lemma distinct_loop (l0 : list Z) :
  mn < mx ->
  exists l, foldl (fun l v => l ← l; r ← ix_IsValue ix v v p mn mx;
                       Some (if RS_is r RS_NONE then l else l ++ [v])) (Some l0) (range (mn + 1) (mx - 1)) = Some l
    /\ forall v, In v l <-> In v l0 \/ (mn < v < mx /\ In v vs).
Proof using Hd He.
  intros Hlt.
  pose proof (foldl_range (fun l v => l ← l; r ← ix_IsValue ix v v p mn mx;
                       Some (if RS_is r RS_NONE then l else l ++ [v]))
    (fun i s => exists l, s = Some l /\ forall v, In v l <-> In v l0 \/ (mn < v < i /\ In v vs))
    (mn + 1) (mx - 1) (Some l0)) as Hf.
  replace (mx - 1 + 1) with mx in Hf by lia. apply Hf; [lia| |].
  - exists l0. split; [done|]. intros v. split; [by left|]. intros [?|[? ?]]; [done|lia].
  - intros i s Hi (l & -> & Hl). cbn [mbind option_bind].
    destruct (ix_exact ix p mn mx vs i Hd He ltac:(lia)) as (r & -> & Hr). cbn [mbind option_bind].
    eexists. split; [reflexivity|]. intros v. unfold RS_is.
    destruct (bool_decide_reflect (r = RS_NONE)) as [Er|Er].
    + apply Hr in Er. rewrite Hl. split; (intros [?|[? ?]]; [by left|right; split; [|done]]); [lia|].
      destruct (Z.eq_dec v i) as [->|]; [done|lia].
    + rewrite in_app_iff, Hl. simpl. split.
      * intros [[?|[? ?]]|[->|[]]]; [by left|right; split; [lia|done]|].
        right. split; [lia|]. destruct (in_dec Z.eq_dec v vs) as [|Hn]; [done|]. by apply Hr in Hn.
      * intros [?|[? ?]]; [by left; left|]. destruct (Z.eq_dec v i) as [->|]; [by right; left|].
        left. right. split; [lia|done].
Qed.
End Distinct.

(** A pack of nulls has different extremes; any other attains both of its extremes. *)
Definition extremes_attained {Ix : Type} (a : RCAttr Ix) (p : Z) (vs : list Z) : Prop :=
  let mn := local_min (dpn_of a p) in
  let mx := local_max (dpn_of a p) in
  if nulls_only a p then vs = [] /\ mn <> mx
  else In mn vs /\ In mx vs /\ mx - mn < 2 ^ 63.

(** The list of distinct values of a pack, when the column gives one, is complete and
    exact: its elements other than the null value are the values of the pack. *)
Theorem DistinctValues_exact {Ix : Type} `{RangeIndex Ix} (a : RCAttr Ix) (p : Z) (vs : list Z) (nulls : Z) :
  pack_holds a p vs nulls -> extremes_attained a p vs -> is_float a = false ->
  exists l, GetListOfDistinctValuesInPack a p = Some l
    /\ (l <> [] -> forall v, v <> NULL_VALUE_64 -> In v l <-> In v vs).
Proof.
  intros (Hn & Hr & Hix) Hext Hfl. unfold GetListOfDistinctValuesInPack, extremes_attained in *.
  set (mn := local_min (dpn_of a p)) in *. set (mx := local_max (dpn_of a p)) in *.
  rewrite Hfl in *. cbn [negb] in *. destruct (_ || utf_lookup a); [by exists []|].
  assert (forall v, In v vs -> mn <= v <= mx) as Hrange.
  { intros v Hin. specialize (Hr v Hin). unfold in_range, vle in Hr. by bool_to_prop. }
  assert (forall v, v <> NULL_VALUE_64 -> ~ In v (null_if (0 <? attr_no_nulls a))) as Hnull.
  { intros v Hv. unfold null_if. destruct (_ <? _); simpl; [|tauto]. intros [?|[]]. congruence. }
  destruct (nulls_only a p) eqn:Enull.
  { destruct Hext as [-> Hne]. destruct (Z.eqb_spec mn mx); [done|].
    eexists. split; [reflexivity|]. intros _ v Hv. simpl. intuition congruence. }
  destruct Hext as (Hmn & Hmx & Hw). destruct (Z.eqb_spec mn mx) as [E|Hne].
  { eexists. split; [reflexivity|]. intros _ v Hv. simpl. split.
    - intros [<-|Hc]; [done|]. by apply Hnull in Hc.
    - intros Hin. left. specialize (Hrange v Hin). lia. }
  pose proof (Hrange mx Hmx). rewrite swrap64_id by lia. destruct (Z.ltb_spec 0 (mx - mn)); [|lia].
  destruct (Z.ltb_spec (mx - mn) 1024); [|by exists []]. cbn [andb].
  destruct (rsi_hist a) as [ix|] eqn:Eix; [|by exists []].
  destruct (ix_UpToDate ix (attr_no_obj a) p) eqn:Eup; [|by exists []].
  destruct (ix_ExactMode ix mn mx) eqn:Eex; [|by exists []]. cbn [negb orb].
  destruct (distinct_loop ix p mn mx vs (Hix ix eq_refl Eup) Eex [mn; mx] ltac:(lia)) as (l & -> & Hl).
  cbn [mbind option_bind]. eexists. split; [reflexivity|]. intros _ v Hv.
  rewrite in_app_iff, Hl. split.
  - intros [[Hin|[_ Hin]]|Hin]; [|done|by apply Hnull in Hin].
    destruct Hin as [<-|[<-|[]]]; done.
  - intros Hin. left. specialize (Hrange v Hin). simpl.
    destruct (Z.eq_dec v mn); [by left; left|]. destruct (Z.eq_dec v mx); [by left; right; left|].
    right. split; [lia|done].
Qed.

(** ** A column with one pack *)

Definition one_pack (h : Hist) : RCAttr Hist :=
  mkAttr [mkDPN (-5) 900 0 3 false] 70000 0 false true false (Some h).

(** The histogram of pack 0 with the values 900, 17, -5, 17. *)
Lemma built_hist :
  exists h h1 h2, Create (fun _ => 7) Hist_new 70000 true = Some h /\ ClearPack h 0 = Some h1
    /\ put_values h1 0 (-5) 900 [900; 17; -5; 17] = Some h2
    /\ pack_holds (one_pack h2) 0 [900; 17; -5; 17] 0.
Proof.
  destruct (Create_spec (fun _ => 7) Hist_new 70000 true ltac:(lia))
    as (h & E & Hi & _ & Hfx & Hst & Hp & _). change ((70000 - 1) / 65536 + 1) with 2 in Hp.
  pose proof (inv_end h Hi) as He.
  assert (range_ok true (-5) 900) as Hok by (unfold range_ok; lia).
  assert (Forall (storable true (-5) 900) [900; 17; -5; 17]) as Hvs
    by (repeat constructor; vm_compute; discriminate).
  destruct (rebuild_spec h 0 (-5) 900 [900; 17; -5; 17] Hi) as (h1 & h2 & E1 & E2 & I2 & F2 & _ & Hb);
    [lia|by rewrite Hfx|by rewrite Hfx|]. pose proof F2 as (_ & _ & S2 & N2 & _ & X2).
  exists h, h1, h2. do 3 (split; [done|]). unfold pack_holds. split; [done|]. split.
  - simpl. intros v Hv. repeat (destruct Hv as [<-|Hv]; [done|]). done.
  - intros ix [= <-] _. split; [done|]. split; [lia|]. split; [by rewrite X2|].
    rewrite Hfx in Hb. exact (conj Hok (conj Hvs Hb)).
Qed.

Lemma RoughCheckBetween_sound_witness :
  exists h r, pack_holds (one_pack h) 0 [900; 17; -5; 17] 0
    /\ RoughCheckBetween (one_pack h) 0 18 20 = Some r
    /\ (r = RS_NONE -> in_query true 18 20 17 = false).
Proof.
  destruct built_hist as (h & h1 & h2 & _ & _ & _ & Hh).
  destruct (RoughCheckBetween_sound (one_pack h2) 0 18 20 [900; 17; -5; 17] 0 Hh) as (r & E & N & _).
  - repeat constructor.
  - done.
  - done.
  - exists h2, r. split; [done|]. split; [done|]. intros Hr. apply (N Hr). simpl. tauto.
Defined.

Lemma Rough_bounds_witness :
  vle true (RoughMin (one_pack Hist_new) None None) 17 = true
  /\ vle true 17 (RoughMax (one_pack Hist_new) None None) = true.
Proof.
  apply (Rough_bounds (one_pack Hist_new) None None 0 17); [done|done|].
  split; [vm_compute; split; [discriminate|reflexivity]|]. split; [done|].
  split; [vm_compute; by split|done].
Defined.

Lemma DistinctValues_exact_witness :
  exists h l, pack_holds (one_pack h) 0 [900; 17; -5; 17] 0
    /\ GetListOfDistinctValuesInPack (one_pack h) 0 = Some l
    /\ (l <> [] -> In 18 l <-> In 18 [900; 17; -5; 17]).
Proof.
  destruct built_hist as (h & h1 & h2 & _ & _ & _ & Hh).
  destruct (DistinctValues_exact (one_pack h2) 0 [900; 17; -5; 17] 0 Hh) as (l & E & N).
  - change (extremes_attained (one_pack h2) 0 [900; 17; -5; 17])
      with (In (-5) [900; 17; -5; 17] /\ In 900 [900; 17; -5; 17] /\ 900 - (-5) < 2 ^ 63).
    split; [simpl; tauto|]. split; [simpl; tauto|lia].
  - done.
  - exists h2, l. split; [done|]. split; [done|]. intros Hl. by apply N.
Defined.
