(* ===== verification/CprsBase.v ===== *)
(** * Errors and helpers of the compression routines (compress/defs.h, compress/tools.h)

    A routine that can throw a [CprsErr] returns a [res]; [Undef] stands for behaviour the
    language leaves undefined (a division by zero, an access outside an array) and for a failed
    [BHASSERT], whose exception these routines do not handle.  Bit lengths,
    the greatest common divisor and the checked shifts are those of the two headers. *)

From S2P Require Import Prelude.

Inductive CprsErr : Type :=
| CPRS_SUCCESS | CPRS_ERR_BUF | CPRS_ERR_PAR | CPRS_ERR_SUM | CPRS_ERR_VER | CPRS_ERR_COR
| CPRS_ERR_MEM | CPRS_ERR_OTH.

#[export] Instance CprsErr_eq_dec : EqDecision CprsErr.
Proof. solve_decision. Defined.

Definition CPRS_MAXREC : Z := 65536.

(** ** Results *)

Inductive res (A : Type) : Type :=
| Ok (a : A)
| Throw (e : CprsErr)
| Undef.
Arguments Ok {A} a.
Arguments Throw {A} e.
Arguments Undef {A}.

#[export] Instance res_ret : MRet res := @Ok.
#[export] Instance res_bind : MBind res := fun A B f m =>
  match m with Ok a => f a | Throw e => Throw e | Undef => Undef end.

Lemma res_bind_Ok {A B : Type} (f : A -> res B) (m : res A) (b : B) :
  (m ≫= f) = Ok b <-> exists a, m = Ok a /\ f a = Ok b.
Proof.
  destruct m as [a|e|]; simpl.
  - split; [by exists a|]. by intros (? & [= <-] & ?).
  - split; [done|]. by intros (? & ? & _).
  - split; [done|]. by intros (? & ? & _).
Qed.

(** ** Bit lengths *)

Definition GetBitLen (x : Z) : Z := if x =? 0 then 0 else Z.log2 x + 1.

(** Shifts that give zero when the distance reaches the width [w] of the type. *)
Definition shr (w a k : Z) : Z := if w <=? k then 0 else Z.shiftr a k.
Definition shl (w a k : Z) : Z := if w <=? k then 0 else wrap w (Z.shiftl a k).

Definition GetShift (x limit : Z) : Z :=
  if x <=? limit then 0
  else let shift := GetBitLen x - GetBitLen limit in
       if limit <? shr 32 x shift then shift + 1 else shift.

Lemma GetBitLen_bounds x : 0 <= x -> x < 2 ^ GetBitLen x /\ 0 <= GetBitLen x.
Proof.
  intros Hx. unfold GetBitLen. destruct (Z.eqb_spec x 0) as [->|]; [done|].
  pose proof (Z.log2_spec x ltac:(lia)). pose proof (Z.log2_nonneg x).
  replace (Z.log2 x + 1) with (Z.succ (Z.log2 x)) by lia. lia.
Qed.

Lemma GetBitLen_le x n : 0 <= x < 2 ^ n -> 0 <= n -> GetBitLen x <= n.
Proof.
  intros Hx Hn. unfold GetBitLen. destruct (Z.eqb_spec x 0); [lia|].
  pose proof (proj1 (Z.log2_lt_pow2 x n ltac:(lia))). lia.
Qed.

Lemma GetBitLen_half x : 0 < x -> 2 ^ (GetBitLen x - 1) <= x.
Proof.
  intros Hx. unfold GetBitLen. destruct (Z.eqb_spec x 0); [lia|].
  replace (Z.log2 x + 1 - 1) with (Z.log2 x) by lia. by apply Z.log2_spec.
Qed.

(** [1 << GetBitLen (n - 1)] is a power of two that is not below [n]. *)
Lemma pow2_above n : 0 < n -> n <= 2 ^ GetBitLen (n - 1).
Proof. intros. pose proof (GetBitLen_bounds (n - 1)). lia. Qed.

Lemma GetBitLen_ones s : 0 <= s -> GetBitLen (2 ^ s - 1) = s.
Proof.
  intros Hs. unfold GetBitLen. destruct (Z.eqb_spec (2 ^ s - 1) 0) as [E|E].
  - destruct (Z.eq_dec s 0) as [->|Hz]; [done|].
    pose proof (Z.pow_le_mono_r 2 1 s ltac:(lia) ltac:(lia)). lia.
  - rewrite Z.sub_1_r, Z.log2_pred_pow2; [lia|]. destruct (Z.eq_dec s 0) as [Hz|]; [|lia]. rewrite Hz in E. done.
Qed.

Lemma shl_1 w s : 0 <= s < w -> shl w 1 s = 2 ^ s.
Proof.
  intros Hs. unfold shl. destruct (Z.leb_spec w s); [lia|]. rewrite Z.shiftl_1_l. apply wrap_id. unfold is_word.
  pose proof (Z.pow_lt_mono_r 2 s w ltac:(lia) ltac:(lia) ltac:(lia)).
  pose proof (Z.pow_pos_nonneg 2 s ltac:(lia) ltac:(lia)). lia.
Qed.

(** ** Joining bit fields *)

Lemma lor_mul_pow2 a b n : 0 <= n -> 0 <= b < 2 ^ n -> Z.lor (a * 2 ^ n) b = a * 2 ^ n + b.
Proof.
  intros Hn Hb. symmetry. apply Z.add_nocarry_lor. rewrite <- Z.shiftl_mul_pow2 by done.
  apply Z.bits_inj'. intros i Hi. rewrite Z.land_spec, Z.bits_0, Z.shiftl_spec by done.
  destruct (Z.lt_ge_cases i n).
  - by rewrite Z.testbit_neg_r by lia.
  - rewrite (word_testbit_high n b) by (unfold is_word; lia). apply andb_false_r.
Qed.

Lemma word_lxor w x y : 0 <= w -> is_word w x -> is_word w y -> is_word w (Z.lxor x y).
Proof.
  intros Hw Hx Hy. apply word_of_testbit; [done| |].
  - unfold is_word in *. apply Z.lxor_nonneg. lia.
  - intros i Hi. rewrite Z.lxor_spec, (word_testbit_high w x), (word_testbit_high w y) by (done || lia). done.
Qed.

Lemma lor_pow2_mul a b n : 0 <= n -> 0 <= b < 2 ^ n -> Z.lor b (a * 2 ^ n) = b + a * 2 ^ n.
Proof. intros. rewrite Z.lor_comm, lor_mul_pow2 by done. lia. Qed.

(** ** Greatest common divisor *)

(** The loop [while(a != 0)]: the remainder decreases, so [a + 1] rounds are enough. *)
Fixpoint gcd_loop (fuel : nat) (a b : Z) : Z :=
  match fuel with
  | O => b
  | S n => if a =? 0 then b else gcd_loop n (b mod a) a
  end.

Definition GCD (a b : Z) : Z :=
  let '(a, b) := if b <? a then (b, a) else (a, b) in
  gcd_loop (Z.to_nat (a + 1)) a b.

Lemma gcd_loop_gcd fuel a b :
  0 <= a < Z.of_nat fuel -> 0 <= b -> gcd_loop fuel a b = Z.gcd a b.
Proof.
  revert a b. induction fuel as [|n IH]; intros a b Ha Hb; [lia|]. simpl.
  destruct (Z.eqb_spec a 0) as [->|].
  - rewrite Z.gcd_0_l. lia.
  - pose proof (Z.mod_pos_bound b a ltac:(lia)).
    rewrite IH by lia. by apply Z.gcd_mod.
Qed.

(** Euclid's loop computes the greatest common divisor of two unsigned numbers. *)
Lemma GCD_spec a b : 0 <= a -> 0 <= b -> GCD a b = Z.gcd a b.
Proof.
  intros. unfold GCD. destruct (Z.ltb_spec b a).
  - rewrite gcd_loop_gcd by lia. apply Z.gcd_comm.
  - apply gcd_loop_gcd; lia.
Qed.
