(* ===== verification/QSort.v ===== *)
(** * Sorting an array in place (util/BHQSort.h)

    The array is a list, an element of [s] bytes is a list element, and the comparison function
    returns an integer as in C.  Indices and byte positions are [int]s in the code: a call for an
    interval in which a sum or a product of them does not fit, a read outside the array (the
    pivot, a scan, a bubble pass), and elements of more than [PIVOT_SIZE] bytes, whose pivot is allocated, are [None].
    The two callers sort arrays of pointers. *)

From stdpp Require Import relations.
From S2P Require Import Prelude.

Section Sort.
Context {A : Type} (d : A) (s : Z) (cmpsrt : A -> A -> Z).

Definition fits_int (x : Z) : bool := (- 2 ^ 31 <=? x) && (x <? 2 ^ 31).

Definition in_array (a : list A) (i : Z) : bool := (0 <=? i) && (i <? zlen a).

(** Element [i] is in the array and its byte position is an [int]. *)
Definition readable (a : list A) (i : Z) : bool := in_array a i && fits_int (i * s).

Definition ib_swap (a : list A) (i j : Z) : list A := a.[i <- a.[d|j]].[j <- a.[d|i]].

(** ** Bubble sort in both directions *)

Definition bubble_up (a : list A) (lo hi : Z) : list A * bool :=
  foldl (fun '(a, swapped) i =>
           if 0 <? cmpsrt a.[d|i] a.[d|i + 1] then (ib_swap a i (i + 1), true) else (a, swapped))
    (a, false) (range lo (hi - 1)).

Definition bubble_down (a : list A) (lo hi : Z) : list A * bool :=
  foldl (fun '(a, swapped) i =>
           if cmpsrt a.[d|i] a.[d|i - 1] <? 0 then (ib_swap a i (i - 1), true) else (a, swapped))
    (a, false) (rev (range (lo + 1) hi)).

(** The interval shrinks by two in each round, so [hi - lo + 1] rounds are enough. *)
Fixpoint bubble_loop (fuel : nat) (a : list A) (lo hi : Z) : option (list A) :=
  match fuel with
  | O => None
  | S n =>
      let '(a, swapped) := bubble_up a lo hi in
      if negb swapped then Some a
      else
        let hi := hi - 1 in
        let '(a, swapped) := bubble_down a lo hi in
        let lo := lo + 1 in
        if swapped then bubble_loop n a lo hi else Some a
  end.

(** The passes read exactly the elements [lo] to [hi], none when the interval has one or none. *)
Definition bubble_sort (a : list A) (lo hi : Z) : option (list A) :=
  if (lo <? hi) && negb (readable a lo && readable a hi) then None
  else bubble_loop (Z.to_nat (hi - lo + 1) + 1) a lo hi.

(** ** Quick sort *)

(** [while (cmpsrt(b + ii, pivot) < 0) i++] and the scan from above. *)
Fixpoint scan_up (fuel : nat) (a : list A) (pivot : A) (i : Z) : option Z :=
  match fuel with
  | O => None
  | S n =>
      if negb (in_array a i) then None
      else if cmpsrt a.[d|i] pivot <? 0 then scan_up n a pivot (i + 1) else Some i
  end.

Fixpoint scan_down (fuel : nat) (a : list A) (pivot : A) (j : Z) : option Z :=
  match fuel with
  | O => None
  | S n =>
      if negb (in_array a j) then None
      else if 0 <? cmpsrt a.[d|j] pivot then scan_down n a pivot (j - 1) else Some j
  end.

Fixpoint partition (fuel : nat) (a : list A) (pivot : A) (i j : Z) : option (list A * Z * Z) :=
  match fuel with
  | O => None
  | S n =>
      if j <? i then Some (a, i, j)
      else
        i ← scan_up (length a + 1) a pivot i;
        j ← scan_down (length a + 1) a pivot j;
        if i <=? j then partition n (ib_swap a i j) pivot (i + 1) (j - 1)
        else partition n a pivot i j
  end.

Definition PIVOT_SIZE : Z := 32.

(** The [int]s of one call: the sum for the pivot, and the byte positions [ii] and [jj], which
    go from one element before the interval to one behind it. *)
Definition ints_fit (lo hi : Z) : bool :=
  fits_int (lo + hi) && fits_int ((lo - 1) * s) && fits_int ((hi + 1) * s).

(** [(lo + hi) / 2] truncates towards zero.  The interval shrinks with each call. *)
Fixpoint quicksort (fuel : nat) (a : list A) (lo hi call_seq : Z) : option (list A) :=
  match fuel with
  | O => None
  | S n =>
      if 8192 <? call_seq then bubble_sort a lo hi
      else
        let pv := Z.quot (lo + hi) 2 in
        if negb (ints_fit lo hi) || (PIVOT_SIZE <? s) || negb (readable a pv) then None
        else
        let pivot := a.[d|pv] in
        '(a, i, j) ← partition (Z.to_nat (hi - lo + 2) + 1) a pivot lo hi;
        a ← (if lo <? j then quicksort n a lo j (call_seq + 1) else Some a);
        if i <? hi then quicksort n a i hi (call_seq + 1) else Some a
  end.

Definition qsort_ib (a : list A) (l : Z) : option (list A) :=
  quicksort (Z.to_nat l + 1) a 0 (l - 1) 0.

Definition bubblesort_ib (a : list A) (l : Z) : option (list A) := bubble_sort a 0 (l - 1).
End Sort.

(** ** What a comparison function promises *)

Class Comparator {A : Type} (cmp : A -> A -> Z) : Prop := {
  cmp_anti : forall x y, cmp x y < 0 <-> 0 < cmp y x;
  cmp_trans : forall x y z, cmp x y <= 0 -> cmp y z <= 0 -> cmp x z <= 0
}.

Section SortProofs.
Context {A : Type} (d : A) (s : Z) (cmp : A -> A -> Z) `{!Comparator cmp}.
Implicit Types (a : list A) (lo hi i j : Z).

Lemma cmp_refl x : cmp x x <= 0.
Proof. pose proof (cmp_anti x x). lia. Qed.

Lemma cmp_flip x y : ~ 0 < cmp x y -> cmp x y <= 0.
Proof. lia. Qed.

Lemma cmp_not_lt x y : ~ cmp x y < 0 -> cmp y x <= 0.
Proof. pose proof (cmp_anti x y). lia. Qed.

(** The elements of an interval are in order. *)
Definition sorted_on a lo hi : Prop :=
  forall i j, lo <= i <= j -> j <= hi -> cmp a.[d|i] a.[d|j] <= 0.

(** One exchange inside an interval, and any number of them. *)
Definition swap1 lo hi a a' : Prop :=
  exists i j, lo <= i <= hi /\ lo <= j <= hi /\ 0 <= lo /\ hi < zlen a /\ a' = ib_swap d a i j.

Definition swaps lo hi : list A -> list A -> Prop := rtc (swap1 lo hi).

Lemma zlen_ib_swap a i j : zlen (ib_swap d a i j) = zlen a.
Proof. unfold ib_swap. by rewrite !zlen_zupd. Qed.

Lemma znth_ib_swap a i j k :
  0 <= i < zlen a -> 0 <= j < zlen a ->
  (ib_swap d a i j).[d|k] = if k =? j then a.[d|i] else if k =? i then a.[d|j] else a.[d|k].
Proof.
  intros Hi Hj. unfold ib_swap. rewrite !znth_zupd by (rewrite ?zlen_zupd; lia). done.
Qed.

Lemma swap1_facts lo hi a a' :
  swap1 lo hi a a' ->
  zlen a' = zlen a /\ a' ≡ₚ a /\
  (forall k, ~ lo <= k <= hi -> a'.[d|k] = a.[d|k]) /\
  (forall (P : A -> Prop), (forall k, lo <= k <= hi -> P a.[d|k]) -> forall k, lo <= k <= hi -> P a'.[d|k]).
Proof.
  intros (i & j & Hi & Hj & Hlo & Hhi & ->). rewrite zlen_ib_swap. split; [done|]. split; [|split].
  - unfold ib_swap, zupd. destruct (Z.ltb_spec i 0); [lia|]. destruct (Z.ltb_spec j 0); [lia|].
    apply Permutation_insert_swap; apply znth_lookup; lia.
  - intros k Hk. rewrite znth_ib_swap by lia. by cmp_solve.
  - intros P HP k Hk. rewrite znth_ib_swap by lia. case_cmp; apply HP; lia.
Qed.

Lemma swaps_facts lo hi a a' :
  swaps lo hi a a' ->
  zlen a' = zlen a /\ a' ≡ₚ a /\
  (forall k, ~ lo <= k <= hi -> a'.[d|k] = a.[d|k]) /\
  (forall (P : A -> Prop), (forall k, lo <= k <= hi -> P a.[d|k]) -> forall k, lo <= k <= hi -> P a'.[d|k]).
Proof.
  induction 1 as [a|a b c Hab Hbc (L1 & P1 & O1 & A1)]; [done|].
  destruct (swap1_facts lo hi a b Hab) as (L2 & P2 & O2 & A2).
  split; [congruence|]. split; [by rewrite P1|]. split.
  - intros k Hk. rewrite O1, O2; done.
  - intros P HP. apply A1, A2, HP.
Qed.

(** Exchanges inside a part are exchanges inside the whole. *)
Lemma swaps_widen lo hi lo' hi' a a' :
  swaps lo hi a a' -> lo' <= lo -> hi <= hi' -> 0 <= lo' -> hi' < zlen a -> swaps lo' hi' a a'.
Proof.
  intros H ? ? ?. induction H as [a|a b c Hab Hbc IH]; intros Hlen; [apply rtc_refl|].
  destruct (swap1_facts lo hi a b Hab) as (L2 & _).
  apply (rtc_l _ _ b); [|apply IH; lia]. destruct Hab as (i & j & ? & ? & ? & ? & ->).
  exists i, j. repeat split; lia.
Qed.

Lemma swaps_trans lo hi a1 a2 a3 : swaps lo hi a1 a2 -> swaps lo hi a2 a3 -> swaps lo hi a1 a3.
Proof. unfold swaps. intros. by trans a2. Qed.

Lemma swaps_len lo hi a a' : swaps lo hi a a' -> zlen a' = zlen a.
Proof. apply swaps_facts. Qed.

(** ** Bubble sort *)

(** After the upward pass over [lo, hi] the largest element is at [hi]; without an exchange
    the interval is sorted. *)
Lemma bubble_up_spec a lo hi :
  0 <= lo -> hi < zlen a -> lo <= hi ->
  let '(a', sw) := bubble_up d cmp a lo hi in
  swaps lo hi a a' /\ (forall k, lo <= k <= hi -> cmp a'.[d|k] a'.[d|hi] <= 0) /\
  (sw = false -> a' = a /\ forall k, lo <= k < hi -> cmp a.[d|k] a.[d|k + 1] <= 0).
Proof.
  intros Hlo Hhi Hle. unfold bubble_up.
  pose proof (foldl_range (fun '(a, swapped) i =>
      if 0 <? cmp a.[d|i] a.[d|i + 1] then (ib_swap d a i (i + 1), true) else (a, swapped))
    (fun i st => let '(a', sw) := (st : list A * bool) in
       swaps lo hi a a' /\ (forall k, lo <= k <= i -> cmp a'.[d|k] a'.[d|i] <= 0) /\
       (sw = false -> a' = a /\ forall k, lo <= k < i -> cmp a.[d|k] a.[d|k + 1] <= 0))
    lo (hi - 1) (a, false)) as H.
  replace (hi - 1 + 1) with hi in H by lia. apply H; clear H; [lia| |].
  - split; [apply rtc_refl|]. split.
    + intros k Hk. assert (k = lo) as -> by lia. apply cmp_refl.
    + intros _. split; [done|]. lia.
  - intros i [a' sw] Hi (Hs & Hmax & Hsw). pose proof (swaps_len _ _ _ _ Hs) as Hlen.
    destruct (Z.ltb_spec 0 (cmp a'.[d|i] a'.[d|i + 1])) as [Hgt|Hle'].
    + split; [|split].
      * apply (rtc_r _ a'); [done|]. exists i, (i + 1). repeat split; lia.
      * intros k Hk. rewrite !znth_ib_swap by lia. case_cmp; try lia; try apply cmp_refl.
        -- pose proof (cmp_anti a'.[d|i + 1] a'.[d|i]). lia.
        -- apply Hmax. lia.
      * done.
    + split; [done|]. split.
      * intros k Hk. destruct (Z.eq_dec k (i + 1)) as [->|]; [apply cmp_refl|].
        apply (cmp_trans _ a'.[d|i]); [apply Hmax; lia|lia].
      * intros E. destruct (Hsw E) as [-> Ho]. split; [done|]. intros k Hk.
        destruct (Z.eq_dec k i) as [->|]; [lia|]. apply Ho. lia.
Qed.

(** A loop over a descending interval. *)
Lemma foldl_rev_range {S : Type} (f : S -> Z -> S) (I : Z -> S -> Prop) (lo hi : Z) (st : S) :
  lo <= hi + 1 -> I hi st -> (forall i s', lo <= i <= hi -> I i s' -> I (i - 1) (f s' i)) ->
  I (lo - 1) (foldl f st (rev (range lo hi))).
Proof.
  intros Hle H0 Hstep. assert (forall n hi st, hi = lo - 1 + Z.of_nat n -> I hi st ->
    (forall i s', lo <= i <= hi -> I i s' -> I (i - 1) (f s' i)) ->
    I (lo - 1) (foldl f st (rev (range lo hi)))) as Hn.
  { induction n as [|n IH]; intros hi' s' Hn HI HS.
    - rewrite range_nil by lia. simpl. by replace (lo - 1) with hi' by lia.
    - replace hi' with (hi' - 1 + 1) by lia. rewrite range_snoc, rev_app_distr by lia. simpl.
      replace (hi' - 1 + 1) with hi' by lia. apply IH; [lia|apply HS; [lia|done]|].
      intros i s2 Hi. apply HS. lia. }
  apply (Hn (Z.to_nat (hi - lo + 1)) hi); [lia|done|done].
Qed.

Lemma bubble_down_spec a lo hi :
  0 <= lo -> hi < zlen a -> lo <= hi ->
  let '(a', sw) := bubble_down d cmp a lo hi in
  swaps lo hi a a' /\ (forall k, lo <= k <= hi -> cmp a'.[d|lo] a'.[d|k] <= 0) /\
  (sw = false -> a' = a /\ forall k, lo <= k < hi -> cmp a.[d|k] a.[d|k + 1] <= 0).
Proof.
  intros Hlo Hhi Hle. unfold bubble_down.
  pose proof (foldl_rev_range (fun '(a, swapped) i =>
      if cmp a.[d|i] a.[d|i - 1] <? 0 then (ib_swap d a i (i - 1), true) else (a, swapped))
    (fun i st => let '(a', sw) := (st : list A * bool) in
       swaps lo hi a a' /\ (forall k, i <= k <= hi -> cmp a'.[d|i] a'.[d|k] <= 0) /\
       (sw = false -> a' = a /\ forall k, i <= k < hi -> cmp a.[d|k] a.[d|k + 1] <= 0))
    (lo + 1) hi (a, false)) as H.
  replace (lo + 1 - 1) with lo in H by lia. apply H; clear H; [lia| |].
  - split; [apply rtc_refl|]. split.
    + intros k Hk. assert (k = hi) as -> by lia. apply cmp_refl.
    + intros _. split; [done|]. lia.
  - intros i [a' sw] Hi (Hs & Hmin & Hsw). pose proof (swaps_len _ _ _ _ Hs) as Hlen.
    destruct (Z.ltb_spec (cmp a'.[d|i] a'.[d|i - 1]) 0) as [Hlt|Hge].
    + split; [|split].
      * apply (rtc_r _ a'); [done|]. exists i, (i - 1). repeat split; lia.
      * intros k Hk. rewrite !znth_ib_swap by lia. case_cmp; try lia; try apply cmp_refl.
        apply Hmin. lia.
      * done.
    + assert (cmp a'.[d|i - 1] a'.[d|i] <= 0) as Hle' by (apply cmp_not_lt; lia). split; [done|]. split.
      * intros k Hk. destruct (Z.eq_dec k (i - 1)) as [->|]; [apply cmp_refl|].
        apply (cmp_trans _ a'.[d|i]); [done|apply Hmin; lia].
      * intros E. destruct (Hsw E) as [-> Ho]. split; [done|]. intros k Hk.
        destruct (Z.eq_dec k (i - 1)) as [->|]; [by replace (i - 1 + 1) with i by lia|]. apply Ho. lia.
Qed.

Lemma adjacent_sorted a lo hi :
  (forall k, lo <= k < hi -> cmp a.[d|k] a.[d|k + 1] <= 0) -> sorted_on a lo hi.
Proof.
  intros H i j Hi Hj. remember (Z.to_nat (j - i)) as n eqn:Hn. revert j Hi Hj Hn.
  induction n as [|n IH]; intros j Hi Hj Hn; [assert (j = i) as -> by lia; apply cmp_refl|].
  apply (cmp_trans _ a.[d|j - 1]); [apply IH; lia|].
  replace j with (j - 1 + 1) at 2 by lia. apply H. lia.
Qed.

Lemma sorted_on_short a lo hi : hi <= lo -> sorted_on a lo hi.
Proof. intros H i j Hi Hj. assert (i = j) as -> by lia. apply cmp_refl. Qed.

Lemma sorted_extend a lo hi :
  sorted_on a (lo + 1) (hi - 1) -> (forall k, lo <= k <= hi -> cmp a.[d|lo] a.[d|k] <= 0) ->
  (forall k, lo <= k <= hi -> cmp a.[d|k] a.[d|hi] <= 0) -> sorted_on a lo hi.
Proof.
  intros Hs Hmin Hmax i j Hi Hj. destruct (Z.eq_dec i lo) as [->|]; [apply Hmin; lia|].
  destruct (Z.eq_dec j hi) as [->|]; [apply Hmax; lia|]. apply Hs; lia.
Qed.

Lemma bubble_loop_spec fuel : forall a lo hi,
  0 <= lo -> hi < zlen a -> (Z.to_nat (hi - lo + 1) < fuel)%nat ->
  exists a', bubble_loop d cmp fuel a lo hi = Some a' /\ swaps lo hi a a' /\ sorted_on a' lo hi.
Proof.
  induction fuel as [|n IH]; intros a lo hi Hlo Hhi Hf; [lia|]. simpl.
  destruct (Z.lt_ge_cases lo hi) as [Hlt|Hge].
  2: { unfold bubble_up. rewrite range_nil by lia. simpl. exists a. split; [done|].
       split; [apply rtc_refl|by apply sorted_on_short]. }
  pose proof (bubble_up_spec a lo hi Hlo Hhi ltac:(lia)) as Hup.
  destruct (bubble_up d cmp a lo hi) as [a1 sw]. destruct Hup as (Hs1 & Hmax1 & Hno1).
  destruct sw; simpl; [|destruct (Hno1 eq_refl) as [-> Ho]; exists a; split; [done|];
                        split; [apply rtc_refl|by apply adjacent_sorted]].
  pose proof (swaps_len _ _ _ _ Hs1) as Hl1.
  pose proof (bubble_down_spec a1 lo (hi - 1) Hlo ltac:(lia) ltac:(lia)) as Hdn.
  destruct (bubble_down d cmp a1 lo (hi - 1)) as [a2 sw2]. destruct Hdn as (Hs2 & Hmin2 & Hno2).
  destruct (swaps_facts _ _ _ _ Hs2) as (Hl2 & _ & Hout2 & Hall2).
  assert (forall k, lo <= k <= hi -> cmp a2.[d|k] a2.[d|hi] <= 0) as Hmax2.
  { intros k Hk. rewrite (Hout2 hi) by lia. destruct (Z.eq_dec k hi) as [->|].
    - rewrite (Hout2 hi) by lia. apply cmp_refl.
    - apply (Hall2 (fun x => cmp x a1.[d|hi] <= 0)); [intros; apply Hmax1; lia|lia]. }
  assert (swaps lo hi a a2) as Hs12.
  { apply (swaps_trans _ _ _ a1); [done|]. apply (swaps_widen lo (hi - 1)); [done|lia..]. }
  destruct sw2.
  - destruct (IH a2 (lo + 1) (hi - 1)) as (a3 & -> & Hs3 & Hso3); [lia|lia|lia|].
    destruct (swaps_facts _ _ _ _ Hs3) as (Hl3 & _ & Hout3 & Hall3). exists a3. split; [done|]. split.
    + apply (swaps_trans _ _ _ a2); [done|]. apply (swaps_widen (lo + 1) (hi - 1)); [done|lia..].
    + apply sorted_extend; [done| |]; intros k Hk.
      * rewrite (Hout3 lo) by lia. destruct (Z.eq_dec k lo) as [->|]; [rewrite Hout3 by lia; apply cmp_refl|].
        destruct (Z.eq_dec k hi) as [->|]; [rewrite Hout3 by lia; apply Hmax2; lia|].
        apply (Hall3 (fun x => cmp a2.[d|lo] x <= 0)); [intros; apply Hmin2; lia|lia].
      * rewrite (Hout3 hi) by lia. destruct (Z.eq_dec k hi) as [->|]; [rewrite Hout3 by lia; apply cmp_refl|].
        destruct (Z.eq_dec k lo) as [->|]; [rewrite Hout3 by lia; apply Hmax2; lia|].
        apply (Hall3 (fun x => cmp x a2.[d|hi] <= 0)); [intros; apply Hmax2; lia|lia].
  - destruct (Hno2 eq_refl) as [-> Ho]. exists a1. split; [done|]. split; [done|].
    intros i j Hi Hj. destruct (Z.eq_dec j hi) as [->|]; [apply Hmax1; lia|].
    apply (adjacent_sorted a1 lo (hi - 1) Ho); lia.
Qed.

(** The elements below [L] have byte positions that are [int]s. *)
Definition sizes_fit (l : Z) : Prop := 0 < s <= PIVOT_SIZE /\ l * s < 2 ^ 31 /\ 2 * l <= 2 ^ 31.

Context (L : Z) (HL : sizes_fit L).

Lemma in_array_true a i : 0 <= i < zlen a -> in_array a i = true.
Proof. intros. unfold in_array. cmp_solve. Qed.

Lemma readable_true a i : 0 <= i < Z.min (zlen a) L -> readable s a i = true.
Proof.
  destruct HL as (Hs & Hl & _). intros. unfold readable, in_array, fits_int.
  assert (0 <= i * s <= L * s) by nia. cmp_solve.
Qed.

Lemma ints_fit_true lo hi : 0 <= lo <= hi + 1 -> hi < L -> ints_fit s lo hi = true.
Proof.
  destruct HL as (Hs & Hl & H2). intros. unfold ints_fit, fits_int, PIVOT_SIZE in *.
  assert ((hi + 1) * s <= L * s) by nia. assert (0 <= (hi + 1) * s) by nia.
  assert (- 32 <= (lo - 1) * s <= L * s) by nia. cmp_solve.
Qed.

Lemma bubble_sort_spec a lo hi :
  0 <= lo -> hi < Z.min (zlen a) L ->
  exists a', bubble_sort d s cmp a lo hi = Some a' /\ swaps lo hi a a' /\ sorted_on a' lo hi.
Proof.
  intros. unfold bubble_sort. destruct (Z.ltb_spec lo hi); simpl;
    [rewrite !readable_true by lia; simpl|]; apply bubble_loop_spec; lia.
Qed.

(** ** Partition *)

(** A scan stops at the latest at an element not below (not above) the pivot. *)
Lemma scan_up_spec fuel a p k : forall i,
  0 <= i <= k -> k < zlen a -> ~ cmp a.[d|k] p < 0 -> (Z.to_nat (k - i) < fuel)%nat ->
  exists i', scan_up d cmp fuel a p i = Some i' /\ i <= i' <= k /\ cmp p a.[d|i'] <= 0 /\
             forall m, i <= m < i' -> cmp a.[d|m] p <= 0.
Proof.
  induction fuel as [|n IH]; intros i Hi Hk Hp Hf; [lia|]. simpl.
  rewrite in_array_true by lia. simpl. destruct (Z.ltb_spec (cmp a.[d|i] p) 0) as [Hlt|Hge].
  - assert (i <> k) by (intros ->; lia).
    destruct (IH (i + 1)) as (i' & -> & Hi' & Hge' & Hm); [lia|lia|lia|lia|].
    exists i'. split; [done|]. split; [lia|]. split; [done|]. intros m Hm'.
    destruct (Z.eq_dec m i) as [->|]; [lia|]. apply Hm. lia.
  - exists i. split; [done|]. split; [lia|]. split; [apply cmp_not_lt; lia|]. lia.
Qed.

Lemma scan_down_spec fuel a p k : forall j,
  0 <= k <= j -> j < zlen a -> cmp a.[d|k] p <= 0 -> (Z.to_nat (j - k) < fuel)%nat ->
  exists j', scan_down d cmp fuel a p j = Some j' /\ k <= j' <= j /\ cmp a.[d|j'] p <= 0 /\
             forall m, j' < m <= j -> cmp p a.[d|m] <= 0.
Proof.
  induction fuel as [|n IH]; intros j Hk Hj Hp Hf; [lia|]. simpl.
  rewrite in_array_true by lia. simpl. destruct (Z.ltb_spec 0 (cmp a.[d|j] p)) as [Hgt|Hle].
  - assert (j <> k) by (intros ->; lia).
    destruct (IH (j - 1)) as (j' & -> & Hj' & Hle' & Hm); [lia|lia|lia|lia|].
    exists j'. split; [done|]. split; [lia|]. split; [done|]. intros m Hm'.
    destruct (Z.eq_dec m j) as [->|]; [pose proof (cmp_anti p a.[d|j]); lia|]. apply Hm. lia.
  - exists j. split; [done|]. split; [lia|]. split; [done|]. lia.
Qed.

(** Everything before [i] is at most the pivot, everything after [j] at least. *)
Definition split_at (a : list A) (p : A) (lo hi i j : Z) : Prop :=
  (forall k, lo <= k < i -> cmp a.[d|k] p <= 0) /\ (forall k, j < k <= hi -> cmp p a.[d|k] <= 0).

(** The scans cannot leave the interval. *)
Definition sentinels (a : list A) (p : A) (lo hi i j : Z) : Prop :=
  (exists k, i <= k <= hi /\ ~ cmp a.[d|k] p < 0) /\ (exists k, lo <= k <= j /\ cmp a.[d|k] p <= 0).

Lemma partition_step a p lo hi i j :
  0 <= lo -> hi < zlen a -> lo <= i <= j -> j <= hi -> split_at a p lo hi i j -> sentinels a p lo hi i j ->
  exists i' j', scan_up d cmp (length a + 1) a p i = Some i' /\ scan_down d cmp (length a + 1) a p j = Some j' /\
    i <= i' <= hi /\ lo <= j' <= j /\ split_at a p lo hi i' j' /\
    (forall k, i <= k <= j -> ~ cmp a.[d|k] p < 0 -> cmp a.[d|k] p <= 0 -> i' <= k <= j') /\
    (i' <= j' -> let a' := ib_swap d a i' j' in
       swap1 lo hi a a' /\ split_at a' p lo hi (i' + 1) (j' - 1) /\
       (i' + 1 <= j' - 1 -> sentinels a' p lo hi (i' + 1) (j' - 1))).
Proof.
  intros Hlo Hhi Hi Hj (Hle & Hge) ((ku & Hku & Hpu) & (kd & Hkd & Hpd)).
  destruct (scan_up_spec (length a + 1) a p ku i) as (i' & Hu & Hi' & Hui & Hum);
    [lia|lia|done|unfold zlen in Hhi; lia|].
  destruct (scan_down_spec (length a + 1) a p kd j) as (j' & Hd & Hj' & Hdj & Hdm);
    [lia|lia|done|unfold zlen in Hhi; lia|].
  exists i', j'. split; [done|]. split; [done|]. split; [lia|]. split; [lia|].
  assert (split_at a p lo hi i' j') as (Hl' & Hr').
  { split; intros k Hk.
    - destruct (Z.lt_ge_cases k i); [apply Hle; lia|apply Hum; lia].
    - destruct (Z.lt_ge_cases j k); [apply Hge; lia|apply Hdm; lia]. }
  split; [done|]. split.
  - intros k Hk Hn Hp. destruct (scan_up_spec (length a + 1) a p k i) as (i2 & Hu2 & Hi2 & _);
      [lia|lia|done|unfold zlen in Hhi; lia|].
    destruct (scan_down_spec (length a + 1) a p k j) as (j2 & Hd2 & Hj2 & _);
      [lia|lia|done|unfold zlen in Hhi; lia|]. rewrite Hu in Hu2. rewrite Hd in Hd2. simplify_eq. lia.
  - intros Hij a'. split; [exists i', j'; repeat split; lia|].
    assert (forall k, a'.[d|k] = if k =? j' then a.[d|i'] else if k =? i' then a.[d|j'] else a.[d|k]) as Ha'
      by (intros k; apply znth_ib_swap; lia). split.
    + split; intros k Hk; rewrite Ha'; case_cmp; try subst k; try done; try (apply Hl'; lia); try (apply Hr'; lia).
      all: try (replace i' with j' in * by lia; done); lia.
    + intros Hlt. split; [exists j'|exists i']; (split; [lia|]); rewrite Ha'; rewrite ?Z.eqb_refl.
      * pose proof (cmp_anti a.[d|i'] p). lia.
      * case_cmp; [subst j'; done|done].
Qed.

Lemma partition_spec fuel : forall a p lo hi i j,
  0 <= lo -> hi < zlen a -> lo <= i <= hi + 1 -> lo - 1 <= j <= hi -> split_at a p lo hi i j ->
  (i <= j -> sentinels a p lo hi i j) -> (Z.to_nat (j - i + 1) < fuel)%nat ->
  exists a' i' j', partition d cmp fuel a p i j = Some (a', i', j') /\ swaps lo hi a a' /\
    split_at a' p lo hi i' j' /\ j' < i' /\ i <= i' <= hi + 1 /\ lo - 1 <= j' <= j.
Proof.
  induction fuel as [|n IH]; intros a p lo hi i j Hlo Hhi Hi Hj Hsp Hsent Hf; [lia|]. simpl.
  destruct (Z.ltb_spec j i) as [Hlt|Hge].
  { exists a, i, j. split; [done|]. split; [apply rtc_refl|]. split; [done|]. lia. }
  destruct (partition_step a p lo hi i j) as (i1 & j1 & -> & -> & Hi1 & Hj1 & Hsp1 & _ & Hswap);
    [done|done|lia|lia|done|by apply Hsent|]. simpl.
  destruct (Z.leb_spec i1 j1) as [Hle|Hgt].
  - destruct (Hswap Hle) as (Hs1 & Hsp2 & Hsent2). destruct (swap1_facts _ _ _ _ Hs1) as (Hl1 & _).
    destruct (IH (ib_swap d a i1 j1) p lo hi (i1 + 1) (j1 - 1)) as (a' & i' & j' & -> & Hs & Hsp' & ? & ? & ?);
      [done|lia|lia|lia|done|done|lia|].
    exists a', i', j'. split; [done|]. split; [by eapply rtc_l|]. split; [done|]. lia.
  - destruct n as [|n]; [lia|]. simpl. destruct (Z.ltb_spec j1 i1); [|lia].
    exists a, i1, j1. split; [done|]. split; [apply rtc_refl|]. split; [done|]. lia.
Qed.

(** The first round exchanges around the pivot, so both parts are shorter than the whole. *)
Lemma partition_at a lo hi m n :
  0 <= lo -> lo <= m <= hi -> hi < zlen a -> (Z.to_nat (hi - lo + 1) < n)%nat ->
  let p := a.[d|m] in
  exists a' i' j', partition d cmp (S n) a p lo hi = Some (a', i', j') /\
    swaps lo hi a a' /\ split_at a' p lo hi i' j' /\ j' < i' /\ lo < i' <= hi + 1 /\ lo - 1 <= j' < hi.
Proof.
  intros Hlo Hm Hhi Hn p.
  assert (~ cmp a.[d|m] p < 0 /\ cmp a.[d|m] p <= 0) as [Hp1 Hp2]
    by (change a.[d|m] with p; pose proof (cmp_anti p p); lia).
  simpl. destruct (Z.ltb_spec hi lo); [lia|].
  destruct (partition_step a p lo hi lo hi) as (i1 & j1 & -> & -> & Hi1 & Hj1 & _ & Hmid & Hswap);
    [lia|lia|lia|lia|split; intros; lia|split; exists m; (split; [lia|done])|]. simpl.
  destruct (Hmid m ltac:(lia) Hp1 Hp2) as [Hi1m Hj1m].
  destruct (Z.leb_spec i1 j1); [|lia]. destruct (Hswap ltac:(lia)) as (Hs1 & Hsp2 & Hsent2).
  destruct (swap1_facts _ _ _ _ Hs1) as (Hl1 & _).
  destruct (partition_spec n (ib_swap d a i1 j1) p lo hi (i1 + 1) (j1 - 1))
    as (a' & i' & j' & -> & Hs & Hsp' & ? & ? & ?); [lia|lia|lia|lia|done|done|lia|].
  exists a', i', j'. split; [done|]. split; [by eapply rtc_l|]. split; [done|]. lia.
Qed.

Lemma pivot_between lo hi : 0 <= lo <= hi -> lo <= Z.quot (lo + hi) 2 <= hi.
Proof.
  intros. rewrite Z.quot_div_nonneg by lia.
  split; [apply Z.div_le_lower_bound|apply Z.div_le_upper_bound]; lia.
Qed.

Lemma partition_whole a lo hi :
  0 <= lo <= hi -> hi < zlen a ->
  let p := a.[d|Z.quot (lo + hi) 2] in
  exists a' i' j', partition d cmp (Z.to_nat (hi - lo + 2) + 1) a p lo hi = Some (a', i', j') /\
    swaps lo hi a a' /\ split_at a' p lo hi i' j' /\ j' < i' /\ lo < i' <= hi + 1 /\ lo - 1 <= j' < hi.
Proof.
  intros Hlo Hhi. rewrite Nat.add_1_r. apply partition_at; [lia| |lia|lia]. by apply pivot_between.
Qed.

(** ** Quick sort *)

Lemma pivot_guard a lo hi :
  0 <= lo <= hi + 1 -> hi < L -> 0 <= Z.quot (lo + hi) 2 < Z.min (zlen a) L ->
  negb (ints_fit s lo hi) || (PIVOT_SIZE <? s) || negb (readable s a (Z.quot (lo + hi) 2)) = false.
Proof.
  intros ? ? ?. rewrite ints_fit_true, readable_true by lia. destruct HL as ([_ ?] & _). by cmp_solve.
Qed.

(** Two sorted parts around the pivot make a sorted whole. *)
Lemma split_sorted a p lo hi i j :
  split_at a p lo hi i j -> j < i -> sorted_on a lo j -> sorted_on a i hi -> sorted_on a lo hi.
Proof.
  intros (Hl & Hr) Hij Hs1 Hs2 x y Hx Hy. destruct (Z.le_gt_cases y j); [apply Hs1; lia|].
  destruct (Z.le_gt_cases i x); [apply Hs2; lia|].
  apply (cmp_trans _ p); [apply Hl; lia|apply Hr; lia].
Qed.

(** Exchanges inside one part keep the split. *)
Lemma split_kept a a' p lo hi i j lo' hi' :
  split_at a p lo hi i j -> swaps lo' hi' a a' -> lo <= lo' -> hi' <= hi -> hi' <= j \/ i <= lo' -> j < i -> split_at a' p lo hi i j.
Proof.
  intros (Hl & Hr) Hs Hlo Hhi Hcase Hji. destruct (swaps_facts _ _ _ _ Hs) as (_ & _ & Hout & Hall).
  split; intros k Hk.
  - destruct (Z.le_gt_cases lo' k), (Z.le_gt_cases k hi'); try (rewrite Hout by lia; apply Hl; lia).
    apply (Hall (fun x => cmp x p <= 0)); [|lia]. intros; apply Hl; lia.
  - destruct (Z.le_gt_cases lo' k), (Z.le_gt_cases k hi'); try (rewrite Hout by lia; apply Hr; lia).
    apply (Hall (fun x => cmp p x <= 0)); [|lia]. intros; apply Hr; lia.
Qed.

Lemma sorted_kept a a' lo hi lo' hi' :
  swaps lo' hi' a a' -> hi < lo' \/ hi' < lo -> sorted_on a lo hi -> sorted_on a' lo hi.
Proof.
  intros Hs Hd H i j Hi Hj. destruct (swaps_facts _ _ _ _ Hs) as (_ & _ & Hout & _).
  rewrite !Hout by lia. by apply H.
Qed.

Lemma quicksort_spec fuel : forall a lo hi seq,
  0 <= lo <= hi -> hi < Z.min (zlen a) L -> (Z.to_nat (hi - lo) < fuel)%nat ->
  exists a', quicksort d s cmp fuel a lo hi seq = Some a' /\ swaps lo hi a a' /\ sorted_on a' lo hi.
Proof.
  induction fuel as [|n IH]; intros a lo hi seq Hlo Hhi Hf; [lia|]. cbn [quicksort].
  destruct (8192 <? seq); [apply bubble_sort_spec; lia|].
  pose proof (pivot_between lo hi Hlo). rewrite pivot_guard by lia.
  destruct (partition_whole a lo hi Hlo ltac:(lia)) as (a1 & i & j & -> & Hs1 & Hsp1 & Hji & Hi & Hj).
  set (p := a.[d|_]) in *. simpl. pose proof (swaps_len _ _ _ _ Hs1) as Hl1.
  assert (exists a2, (if lo <? j then quicksort d s cmp n a1 lo j (seq + 1) else Some a1) = Some a2 /\
            swaps lo j a1 a2 /\ sorted_on a2 lo j) as (a2 & -> & Hs2 & Hso2).
  { destruct (Z.ltb_spec lo j); [apply IH; lia|]. exists a1. split; [done|].
    split; [apply rtc_refl|apply sorted_on_short; lia]. }
  simpl. pose proof (swaps_len _ _ _ _ Hs2) as Hl2.
  assert (exists a3, (if i <? hi then quicksort d s cmp n a2 i hi (seq + 1) else Some a2) = Some a3 /\
            swaps i hi a2 a3 /\ sorted_on a3 i hi) as (a3 & -> & Hs3 & Hso3).
  { destruct (Z.ltb_spec i hi); [apply IH; lia|]. exists a2. split; [done|].
    split; [apply rtc_refl|apply sorted_on_short; lia]. }
  exists a3. split; [done|]. split.
  - apply (swaps_trans _ _ _ a1); [done|]. apply (swaps_trans _ _ _ a2).
    + apply (swaps_widen lo j); [done|lia..].
    + apply (swaps_widen i hi); [done|lia..].
  - apply (split_sorted a3 p lo hi i j); [|done| |done].
    + apply (split_kept a2 a3 p lo hi i j i hi); [|done|lia..].
      apply (split_kept a1 a2 p lo hi i j lo j); [done|done|lia..].
    + apply (sorted_kept a2 a3 lo j i hi); [done|lia|done].
Qed.

Lemma qsort_ib_spec a :
  0 <= L <= zlen a -> 0 < zlen a ->
  exists a', qsort_ib d s cmp a L = Some a' /\ zlen a' = zlen a /\ a' ≡ₚ a /\ sorted_on a' 0 (L - 1) /\
             forall k, ~ 0 <= k < L -> a'.[d|k] = a.[d|k].
Proof.
  intros Hl Ha. assert (exists a', qsort_ib d s cmp a L = Some a' /\ swaps 0 (L - 1) a a' /\ sorted_on a' 0 (L - 1))
    as (a' & Hq & Hs & Hso).
  { unfold qsort_ib. destruct (Z.eq_dec L 0) as [E|]; [|apply quicksort_spec; lia].
    exists a. rewrite E. split; [|split; [apply rtc_refl|apply sorted_on_short; lia]].
    change (Z.to_nat 0 + 1)%nat with 1%nat. cbn [quicksort]. change (8192 <? 0) with false. cbv iota zeta.
    change (Z.quot (0 + (0 - 1)) 2) with 0. rewrite ints_fit_true by lia.
    assert (readable s a 0 = true) as -> by (unfold readable, in_array, fits_int; cmp_solve).
    destruct HL as ([_ ?] & _). destruct (Z.ltb_spec PIVOT_SIZE s); [lia|done]. }
  exists a'. destruct (swaps_facts _ _ _ _ Hs) as (? & ? & Hout & _). split; [done|].
  split; [done|]. split; [done|]. split; [done|]. intros k Hk. apply Hout. lia.
Qed.
End SortProofs.

(** C31: [qsort_ib] ends on every non-empty array and every consistent comparison function:
    for elements of at most [PIVOT_SIZE] = 32 bytes whose [l] elements take less than [2^31]
    bytes (and [2 * l] at most [2^31], so that the sum of two indices is an [int]) it never reads
    outside the array and no [int] overflows, and it returns a permutation of the array that is
    in order on the first [l] elements and unchanged behind them; so does the bubble sort it
    falls back to when the recursion gets too deep. *)
Theorem qsort_ib_sorts {A : Type} (d : A) (s : Z) (cmp : A -> A -> Z) (a : list A) (l : Z)
    (Hcmp : Comparator cmp) (Hs : 0 < s <= PIVOT_SIZE) (Hl : 0 <= l <= zlen a) (Ha : 0 < zlen a)
    (Hbytes : l * s < 2 ^ 31) (Hidx : 2 * l <= 2 ^ 31) :
  (exists a', qsort_ib d s cmp a l = Some a' /\ a' ≡ₚ a /\ sorted_on d cmp a' 0 (l - 1) /\
              forall k, ~ 0 <= k < l -> a'.[d|k] = a.[d|k]) /\
  (exists a', bubblesort_ib d s cmp a l = Some a' /\ a' ≡ₚ a /\ sorted_on d cmp a' 0 (l - 1) /\
              forall k, ~ 0 <= k < l -> a'.[d|k] = a.[d|k]).
Proof.
  assert (sizes_fit s l) as HL by (unfold sizes_fit; tauto). split.
  - destruct (qsort_ib_spec d s cmp l HL a Hl Ha) as (a' & ? & _ & ? & ? & ?). by exists a'.
  - destruct (bubble_sort_spec d s cmp l HL a 0 (l - 1)) as (a' & Hb & Hsw & Hso); [lia|lia|].
    destruct (swaps_facts d _ _ _ _ Hsw) as (_ & ? & Hout & _). exists a'.
    split; [done|]. split; [done|]. split; [done|]. intros k Hk. apply Hout. lia.
Qed.

Lemma qsort_ib_sorts_witness :
  (exists a', qsort_ib 0 8 Z.sub [3; 1; 2; 9; 0] 4 = Some a' /\ a' ≡ₚ [3; 1; 2; 9; 0] /\
              sorted_on 0 Z.sub a' 0 (4 - 1) /\
              forall k, ~ 0 <= k < 4 -> a'.[0|k] = [3; 1; 2; 9; 0].[0|k]) /\
  qsort_ib 0 8 Z.sub [3; 1; 2; 9; 0] 4 = Some [1; 2; 3; 9; 0].
Proof.
  split; [|reflexivity].
  refine (proj1 (qsort_ib_sorts 0 8 Z.sub [3; 1; 2; 9; 0] 4 _ _ _ _ _ _));
    [split; intros; lia|unfold PIVOT_SIZE; lia|unfold zlen; simpl; lia|done|lia..].
Defined.

(** Of no elements the pivot is read all the same: an empty array is read outside. *)
Example qsort_ib_empty : qsort_ib 0 8 Z.sub [] 0 = None.
Proof. reflexivity. Qed.
