(* ===== verification/RangeCoder.v ===== *)
(** * The range coder (compress/RangeCoder.h)

    One object serves both directions.  Its buffer is a list of bytes, [pos] and [stop] are
    offsets into it, [low], [code] and [rng] (the field [range]) are 32-bit words.  Reading or
    writing at [stop] throws [CPRS_ERR_BUF].

    The contract clients use is [codes]: whatever was encoded is decoded again, with the
    decoder at the same place of the stream. *)

From S2P Require Import Prelude CprsBase.

Record RC := mkRC { low : Z; code : Z; rng : Z; buf : list Z; pos : Z; stop : Z }.

Definition TOP : Z := 2 ^ 24.
Definition BOT : Z := 2 ^ 16.
Definition MAX_TOTAL : Z := BOT.
Definition uni_nbit : Z := 16.
Definition uni_mask : Z := 2 ^ 16 - 1.

(** Computations on a coder. *)
Definition coder (A : Type) : Type := RC -> res (A * RC).

#[export] Instance coder_ret : MRet coder := fun A a s => Ok (a, s).
#[export] Instance coder_bind : MBind coder := fun A B f m s =>
  match m s with Ok (a, s') => f a s' | Throw e => Throw e | Undef => Undef end.

Definition throw {A : Type} (e : CprsErr) : coder A := fun _ => Throw e.
Definition undef {A : Type} : coder A := fun _ => Undef.

(** ** Bytes *)

Definition InByte : coder Z := fun s =>
  if stop s <=? pos s then Throw CPRS_ERR_BUF
  else Ok ((buf s).[0|pos s], mkRC (low s) (code s) (rng s) (buf s) (pos s + 1) (stop s)).

Definition OutByte (c : Z) : coder unit := fun s =>
  if stop s <=? pos s then Throw CPRS_ERR_BUF
  else Ok (tt, mkRC (low s) (code s) (rng s) ((buf s).[pos s <- c]) (pos s + 1) (stop s)).

Definition set_low (s : RC) (l : Z) : RC := mkRC l (code s) (rng s) (buf s) (pos s) (stop s).
Definition set_code (s : RC) (c : Z) : RC := mkRC (low s) c (rng s) (buf s) (pos s) (stop s).
Definition set_rng (s : RC) (r : Z) : RC := mkRC (low s) (code s) r (buf s) (pos s) (stop s).

(** ** Start and end *)

Definition InitCompress (b : list Z) (len p : Z) : RC := mkRC 0 0 (2 ^ 32 - 1) b p len.

(** [for(int i = 0; i < n; i++) m] *)
Fixpoint times (n : nat) (m : coder unit) : coder unit :=
  match n with
  | O => mret tt
  | S n' => m ≫= fun _ => times n' m
  end.

(** [OutByte(low >> 24), low <<= 8] *)
Definition put_low : coder unit := fun s =>
  '(_, s) ← OutByte (Z.shiftr (low s) 24) s;
  Ok (tt, set_low s (wrap32 (Z.shiftl (low s) 8))).

Definition EndCompress : coder unit := times 4 put_low.

(** [code = code << 8 | InByte()] *)
Definition next_code : coder unit := fun s =>
  '(b, s) ← InByte s;
  Ok (tt, set_code s (Z.lor (wrap32 (Z.shiftl (code s) 8)) b)).

Definition InitDecompress (b : list Z) (len p : Z) : res RC :=
  '(_, s) ← times 4 next_code (mkRC 0 0 (2 ^ 32 - 1) b p len); Ok s.

(** ** Normalization *)

(** The condition of the loop with its side effect on [range]: [None] when the loop ends. *)
Definition norm_cond (s : RC) : option Z :=
  if Z.lxor (low s) (wrap32 (low s + rng s)) <? TOP then Some (rng s)
  else if rng s <? BOT then Some (Z.land (wrap32 (- low s)) (BOT - 1))
  else None.

(** [low <<= 8, range <<= 8] *)
Definition shift_state (s : RC) : RC :=
  mkRC (wrap32 (Z.shiftl (low s) 8)) (code s) (wrap32 (Z.shiftl (rng s) 8)) (buf s) (pos s) (stop s).

(** Each round moves a byte, so the loop ends at the latest at the end of the buffer. *)
Fixpoint enc_loop (fuel : nat) (s : RC) : res (unit * RC) :=
  match fuel with
  | O => Undef
  | S n =>
      match norm_cond s with
      | None => Ok (tt, s)
      | Some r => '(_, s) ← OutByte (Z.shiftr (low s) 24) (set_rng s r); enc_loop n (shift_state s)
      end
  end.

Fixpoint dec_loop (fuel : nat) (s : RC) : res (unit * RC) :=
  match fuel with
  | O => Undef
  | S n =>
      match norm_cond s with
      | None => Ok (tt, s)
      | Some r => '(_, s) ← next_code (set_rng s r); dec_loop n (shift_state s)
      end
  end.

Definition loop_fuel (s : RC) : nat := Z.to_nat (Z.max 0 (stop s - pos s)) + 1.

(** The interval of a symbol whose unit has length [rng] already. *)
Definition narrow (cumFreq freq : Z) (s : RC) : RC :=
  set_rng (set_low s (wrap32 (low s + wrap32 (rng s * cumFreq)))) (wrap32 (rng s * freq)).

(** ** Symbols *)

Definition Encode (cumFreq freq total : Z) : coder unit := fun s =>
  if total =? 0 then Undef
  else let s := narrow cumFreq freq (set_rng s (rng s / total)) in enc_loop (loop_fuel s) s.

(** [tmp >= total] throws; the unit of the interval can be zero only for corrupted data. *)
Definition GetCount (total : Z) : coder Z := fun s =>
  if total =? 0 then Undef
  else
    let s := set_rng s (rng s / total) in
    if rng s =? 0 then Undef
    else
      let tmp := wrap32 (code s - low s) / rng s in
      if total <=? tmp then Throw CPRS_ERR_COR else Ok (tmp, s).

Definition Decode (cumFreq freq total : Z) : coder unit := fun s =>
  let s := narrow cumFreq freq s in dec_loop (loop_fuel s) s.

Definition EncodeShift (cumFreq freq shift : Z) : coder unit := fun s =>
  let s := narrow cumFreq freq (set_rng s (shr 32 (rng s) shift)) in enc_loop (loop_fuel s) s.

(** [1u << shift] is undefined from a distance of 32 on. *)
Definition GetCountShift (shift : Z) : coder Z := fun s =>
  let s := set_rng s (shr 32 (rng s) shift) in
  if rng s =? 0 then Undef
  else if 32 <=? shift then Undef
  else
    let tmp := wrap32 (code s - low s) / rng s in
    if Z.shiftl 1 shift <=? tmp then Throw CPRS_ERR_COR else Ok (tmp, s).

Definition DecodeShift (cumFreq freq shift : Z) : coder unit := fun s =>
  let s := narrow cumFreq freq s in dec_loop (loop_fuel s) s.

(** ** Uniform values of a type of [w] bits *)

(** Groups of 16 bits from the least significant one; [bitmax] rounds are enough. *)
Fixpoint EncodeUniform_loop (fuel : nat) (val maxval bitmax : Z) : coder unit :=
  match fuel with
  | O => undef
  | S n =>
      if uni_nbit <? bitmax then
        _ ← EncodeShift (Z.land val uni_mask) 1 uni_nbit;
        EncodeUniform_loop n (Z.shiftr val uni_nbit) (Z.shiftr maxval uni_nbit) (bitmax - uni_nbit)
      else Encode (wrap32 val) 1 (wrap32 (wrap32 maxval + 1))
  end.

Definition EncodeUniform_bit (val maxval bitmax : Z) : coder unit :=
  if maxval =? 0 then mret tt
  else EncodeUniform_loop (Z.to_nat bitmax + 1) val maxval bitmax.

Definition EncodeUniform (val maxval : Z) : coder unit :=
  EncodeUniform_bit val maxval (GetBitLen maxval).

(** [val |= v << shift] in a type of [w] bits. *)
Definition or_shift (w val v shift : Z) : Z := wrap w (Z.lor val (Z.shiftl v shift)).

Fixpoint DecodeUniform_loop (fuel : nat) (w val maxval bitmax shift : Z) : coder Z :=
  match fuel with
  | O => undef
  | S n =>
      if shift + uni_nbit <? bitmax then
        v ← GetCountShift uni_nbit;
        _ ← DecodeShift v 1 uni_nbit;
        DecodeUniform_loop n w (or_shift w val v shift) maxval bitmax (shift + uni_nbit)
      else
        let total := wrap32 (wrap32 (Z.shiftr maxval shift) + 1) in
        v ← GetCount total;
        _ ← Decode v 1 total;
        mret (or_shift w val v shift)
  end.

Definition DecodeUniform_bit (w maxval bitmax : Z) : coder Z :=
  if maxval =? 0 then mret 0
  else DecodeUniform_loop (Z.to_nat bitmax + 1) w 0 maxval bitmax 0.

Definition DecodeUniform (w maxval : Z) : coder Z :=
  DecodeUniform_bit w maxval (GetBitLen maxval).

(** Uniform compression by shifting; the versions for 8 and 16 bits have one group. *)
Fixpoint EncodeUniShift_loop (fuel : nat) (x shift : Z) : coder unit :=
  match fuel with
  | O => undef
  | S n =>
      if shift <=? uni_nbit then EncodeShift (wrap32 x) 1 shift
      else
        _ ← EncodeShift (Z.land (wrap32 x) uni_mask) 1 uni_nbit;
        EncodeUniShift_loop n (Z.shiftr x uni_nbit) (shift - uni_nbit)
  end.

Definition EncodeUniShift (w x shift : Z) : coder unit :=
  if w <=? 16 then EncodeShift x 1 shift
  else EncodeUniShift_loop (Z.to_nat shift + 1) x shift.

Fixpoint DecodeUniShift_loop (fuel : nat) (w shift : Z) : coder Z :=
  match fuel with
  | O => undef
  | S n =>
      if shift <=? uni_nbit then
        v ← GetCountShift shift;
        let x := wrap w v in
        _ ← DecodeShift (wrap32 x) 1 shift;
        mret x
      else
        tmp ← GetCountShift uni_nbit;
        _ ← DecodeShift tmp 1 uni_nbit;
        x ← DecodeUniShift_loop n w (shift - uni_nbit);
        mret (wrap w (Z.lor (Z.shiftl x uni_nbit) (wrap w tmp)))
  end.

Definition DecodeUniShift (w shift : Z) : coder Z := DecodeUniShift_loop (Z.to_nat shift + 1) w shift.

(** ** The stream seen by the decoder *)

(** The compressed bytes: those from [sstart] to [slen] were written by the coder. *)
Record stream := mkStream { sbytes : list Z; slen : Z; sstart : Z }.

Definition is_byte (b : Z) : Prop := 0 <= b < 256.

Definition stream_ok (F : stream) : Prop :=
  Forall is_byte (sbytes F) /\ 0 <= sstart F /\ slen F <= zlen (sbytes F).

(** The next four bytes as a big-endian number. *)
Definition window (F : stream) (p : Z) : Z :=
  let b i := (sbytes F).[0|p + i] in b 0 * 2 ^ 24 + b 1 * 2 ^ 16 + b 2 * 2 ^ 8 + b 3.

(** The interval lies inside 32 bits; it may end exactly at [2 ^ 32] only when it starts
    above [TOP], which keeps the test of the loop exact. *)
Definition interval_ok (s : RC) : Prop :=
  0 <= low s /\ 1 <= rng s /\ low s + rng s <= 2 ^ 32 /\ (low s + rng s = 2 ^ 32 -> TOP <= low s).

Definition buffer_ok (s : RC) : Prop :=
  0 <= pos s /\ stop s <= zlen (buf s) /\ Forall is_byte (buf s).

(** A coder between two symbols. *)
Definition normal (s : RC) : Prop := interval_ok s /\ BOT <= rng s /\ buffer_ok s.

(** The stream continues what the encoder has written so that the decoder will stay inside
    the current interval. *)
Definition tracks (F : stream) (e : RC) : Prop :=
  sstart F <= pos e /\ pos e + 4 <= slen F /\
  (forall i, sstart F <= i < pos e -> (sbytes F).[0|i] = (buf e).[0|i]) /\
  low e <= window F (pos e) < low e + rng e.

(** The decoder of the stream [F] at the place of the encoder [e]. *)
Definition paired (F : stream) (e d : RC) : Prop :=
  low d = low e /\ rng d = rng e /\ code d = window F (pos e) /\ buf d = sbytes F /\
  pos d = pos e + 4 /\ stop d = slen F.

(** The encoder only appends. *)
Definition extends (e e' : RC) : Prop :=
  pos e <= pos e' /\ stop e' = stop e /\ zlen (buf e') = zlen (buf e) /\
  forall i, i < pos e -> (buf e').[0|i] = (buf e).[0|i].

Lemma extends_refl e : extends e e.
Proof. unfold extends. intuition lia. Qed.

Lemma extends_trans e1 e2 e3 : extends e1 e2 -> extends e2 e3 -> extends e1 e3.
Proof.
  intros (P1 & S1 & L1 & B1) (P2 & S2 & L2 & B2).
  split; [lia|]. split; [congruence|]. split; [congruence|]. intros i Hi. rewrite B2, B1 by lia. done.
Qed.

#[export] Hint Resolve extends_refl extends_trans : bh.

(** [E] returns nothing but [b], and where it succeeds [D] reads back [a] and follows it. *)
Definition codes {A B : Type} (E : coder B) (D : coder A) (b : B) (a : A) : Prop :=
  forall e b' e', normal e -> E e = Ok (b', e') ->
    b' = b /\ normal e' /\ extends e e' /\
    forall F, stream_ok F -> sstart F <= pos e -> tracks F e' ->
      tracks F e /\ forall d, paired F e d -> exists d', D d = Ok (a, d') /\ paired F e' d'.

Lemma codes_ret {A B : Type} (b : B) (a : A) : codes (mret b) (mret a) b a.
Proof.
  intros e b' e' He [= <- <-]. split; [done|]. split; [done|]. split; [apply extends_refl|].
  intros F HF Hs Ht. split; [done|]. intros d Hd. by exists d.
Qed.

(** Sequences of codings. *)
Lemma codes_bind {A1 B1 A2 B2 : Type} (E1 : coder B1) (D1 : coder A1) b1 a1
    (E2 : B1 -> coder B2) (D2 : A1 -> coder A2) b2 a2 :
  codes E1 D1 b1 a1 -> codes (E2 b1) (D2 a1) b2 a2 -> codes (E1 ≫= E2) (D1 ≫= D2) b2 a2.
Proof.
  intros H1 H2 e b e' He HE. unfold mbind, coder_bind in HE.
  destruct (E1 e) as [[b1' e1]| |] eqn:HE1; try done.
  destruct (H1 e b1' e1 He HE1) as (-> & He1 & Hp1 & HF1).
  destruct (H2 e1 b e' He1 HE) as (-> & He2 & Hp2 & HF2).
  split; [done|]. split; [done|]. split; [by apply (extends_trans e e1)|]. intros F HF Hs Ht.
  destruct (HF2 F HF ltac:(destruct Hp1; lia) Ht) as (Ht1 & Hd2). destruct (HF1 F HF Hs Ht1) as (Ht0 & Hd1).
  split; [done|]. intros d Hd. destruct (Hd1 d Hd) as (d1 & HD1 & Hd1').
  destruct (Hd2 d1 Hd1') as (d2 & HD2 & Hd2'). exists d2. split; [|done].
  unfold mbind, coder_bind. by rewrite HD1.
Qed.

(** A decoder with its result taken by a continuation that reads no more. *)
Lemma codes_eq {A B : Type} (E E' : coder B) (D D' : coder A) b a :
  codes E D b a -> (forall s, E' s = E s) -> (forall s, D' s = D s) -> codes E' D' b a.
Proof.
  intros H HE HD e b' e' He Hr. rewrite HE in Hr. destruct (H e b' e' He Hr) as (? & ? & ? & HF).
  split; [done|]. split; [done|]. split; [done|]. intros F HF0 Hs Ht.
  destruct (HF F HF0 Hs Ht) as (Ht0 & Hd). split; [done|]. intros d Hp.
  rewrite HD. by apply Hd.
Qed.

(** ** The normalization loop *)

Lemma lxor_lt_pow2 a b n : 0 <= a -> 0 <= b -> 0 <= n ->
  Z.lxor a b < 2 ^ n <-> a / 2 ^ n = b / 2 ^ n.
Proof.
  intros Ha Hb Hn. rewrite <- !Z.shiftr_div_pow2 by lia.
  assert (0 <= Z.lxor a b) by (apply Z.lxor_nonneg; lia).
  rewrite <- Z.lxor_eq_0_iff, <- Z.shiftr_lxor, Z.shiftr_div_pow2 by lia.
  rewrite Z.div_small_iff by (apply Z.pow_nonzero; lia). lia.
Qed.

(** One round: the byte that leaves is the top byte of the whole interval [low, low + r),
    where [r] is the length that is kept. *)
Lemma norm_cond_Some s r :
  interval_ok s -> norm_cond s = Some r ->
  1 <= r <= rng s /\ low s mod TOP + r <= TOP /\ (low s mod TOP + r = TOP -> r < BOT).
Proof.
  intros (Hl & Hr & Hsum & Htop) Hc. unfold norm_cond in Hc.
  assert (TOP = 16777216) as HT by done. assert (BOT = 65536) as HB by done.
  pose proof (Z.div_mod (low s) TOP ltac:(lia)) as Hdm.
  pose proof (Z.mod_pos_bound (low s) TOP ltac:(lia)) as Hm.
  destruct (Z.ltb_spec (Z.lxor (low s) (wrap32 (low s + rng s))) TOP) as [Hx|Hx].
  - injection Hc as <-. split; [lia|].
    pose proof (wrap_word 32 (low s + rng s) ltac:(lia)) as Hw. destruct Hw as [Hw _].
    apply (lxor_lt_pow2 _ _ 24) in Hx; [|lia|done|lia]. fold TOP in Hx.
    destruct (Z.eq_dec (low s + rng s) (2 ^ 32)) as [E|E].
    + rewrite E in Hx. change (wrap32 (2 ^ 32)) with 0 in Hx. rewrite Z.div_0_l in Hx by lia.
      specialize (Htop E). nia.
    + rewrite wrap_id in Hx by (unfold is_word; lia).
      pose proof (Z.div_mod (low s + rng s) TOP ltac:(lia)) as Hdm2.
      pose proof (Z.mod_pos_bound (low s + rng s) TOP ltac:(lia)). rewrite <- Hx in Hdm2. lia.
  - destruct (Z.ltb_spec (rng s) BOT) as [Hb|]; [|done]. injection Hc as <-.
    set (q := low s / TOP + 1).
    assert (q * TOP <= low s + rng s) as Hq.
    { destruct (Z.eq_dec (low s + rng s) (2 ^ 32)) as [E|E].
      - unfold q. assert (low s / TOP < 256) by (apply Z.div_lt_upper_bound; lia). nia.
      - rewrite wrap_id in Hx by (unfold is_word; lia).
        pose proof (lxor_lt_pow2 (low s) (low s + rng s) 24 ltac:(lia) ltac:(lia) ltac:(lia)) as Hiff.
        fold TOP in Hiff.
        assert (low s / TOP <> (low s + rng s) / TOP) as Hne by (intros Heq; apply Hiff in Heq; lia).
        pose proof (Z.div_le_mono (low s) (low s + rng s) TOP ltac:(lia) ltac:(lia)).
        pose proof (Z.mul_div_le (low s + rng s) TOP ltac:(lia)). unfold q. nia. }
    enough (Z.land (wrap32 (- low s)) (BOT - 1) = q * TOP - low s) as -> by (unfold q; lia).
    change (BOT - 1) with (Z.ones 16). rewrite Z.land_ones by lia. unfold wrap32, wrap.
    rewrite Z.mod_mod_divide by (exists (2 ^ 16); lia).
    symmetry. apply (Z.mod_unique _ _ (- (q * 256))); [left; lia|]. lia.
Qed.

Lemma wrap_shift8 x : 0 <= x < 2 ^ 32 -> wrap32 (Z.shiftl x 8) = 256 * (x mod TOP).
Proof.
  intros. unfold wrap32, wrap. rewrite Z.shiftl_mul_pow2 by lia.
  change (2 ^ 32) with (TOP * 2 ^ 8). rewrite Z.mul_mod_distr_r by done. lia.
Qed.

(** The state after a round of the loop. *)
Lemma round_interval s r :
  interval_ok s -> 1 <= r <= rng s -> low s mod TOP + r <= TOP ->
  (low s mod TOP + r = TOP -> r < BOT) ->
  low (shift_state (set_rng s r)) = 256 * (low s mod TOP) /\
  rng (shift_state (set_rng s r)) = 256 * r /\
  interval_ok (shift_state (set_rng s r)).
Proof.
  intros (Hl & Hr & Hsum & Htop) Hr1 Hr2 Hr3.
  assert (TOP = 16777216) as HT by done. assert (BOT = 65536) as HB by done.
  pose proof (Z.mod_pos_bound (low s) TOP ltac:(lia)) as Hm.
  unfold shift_state, interval_ok. simpl.
  rewrite !wrap_shift8 by lia. rewrite (Z.mod_small r TOP) by lia.
  split; [done|]. split; [done|]. lia.
Qed.

Lemma stream_window_shift F p :
  stream_ok F -> 0 <= p -> p + 5 <= slen F ->
  let b := (sbytes F).[0|p] in
  0 <= b < 256 /\ 0 <= window F (p + 1) < 2 ^ 32 /\
  window F p = b * TOP + window F (p + 1) / 256 /\
  window F (p + 1) = Z.lor (wrap32 (Z.shiftl (window F p) 8)) (sbytes F).[0|p + 4].
Proof.
  intros (Hb & Hs & Hl) Hp H5 b.
  assert (forall i, 0 <= i < 5 -> 0 <= (sbytes F).[0|p + i] < 256) as Hbyte.
  { intros i Hi. apply (znth_Forall is_byte 0); [done|lia]. }
  pose proof (Hbyte 0 ltac:(lia)) as H0. pose proof (Hbyte 1 ltac:(lia)) as H1.
  pose proof (Hbyte 2 ltac:(lia)) as H2. pose proof (Hbyte 3 ltac:(lia)) as H3.
  pose proof (Hbyte 4 ltac:(lia)) as H4. rewrite Z.add_0_r in H0.
  assert (window F (p + 1) = 256 * ((sbytes F).[0|p + 1] * 2 ^ 16 + (sbytes F).[0|p + 2] * 2 ^ 8
            + (sbytes F).[0|p + 3]) + (sbytes F).[0|p + 4]) as Hw1.
  { unfold window. replace (p + 1 + 0) with (p + 1) by lia. replace (p + 1 + 1) with (p + 2) by lia.
    replace (p + 1 + 2) with (p + 3) by lia. replace (p + 1 + 3) with (p + 4) by lia. lia. }
  assert (window F p = b * TOP + ((sbytes F).[0|p + 1] * 2 ^ 16 + (sbytes F).[0|p + 2] * 2 ^ 8
            + (sbytes F).[0|p + 3])) as Hw0.
  { unfold window, b, TOP. rewrite Z.add_0_r. lia. }
  set (m := (sbytes F).[0|p + 1] * 2 ^ 16 + (sbytes F).[0|p + 2] * 2 ^ 8 + (sbytes F).[0|p + 3]) in *.
  assert (0 <= m < TOP) as Hm by (unfold m, TOP; lia).
  split; [done|]. split; [unfold TOP in *; lia|]. rewrite Hw0, Hw1. split.
  - rewrite (Z.mul_comm 256), Z.div_add_l, (Z.div_small (sbytes F).[0|p + 4]) by lia. lia.
  - rewrite wrap_shift8 by (unfold TOP, b in *; lia).
    rewrite (Z.add_comm (b * TOP)), Z.mod_add, (Z.mod_small m) by (unfold TOP in *; lia).
    symmetry. rewrite (Z.mul_comm 256). change 256 with (2 ^ 8). by apply lor_mul_pow2.
Qed.

(** The coder after a round of the encoder's loop. *)
Definition enc_round (s : RC) (r : Z) : RC :=
  shift_state (mkRC (low s) (code s) r ((buf s).[pos s <- Z.shiftr (low s) 24]) (pos s + 1) (stop s)).

Lemma enc_round_ok s r :
  interval_ok s -> buffer_ok s -> norm_cond s = Some r -> pos s < stop s ->
  interval_ok (enc_round s r) /\ buffer_ok (enc_round s r).
Proof.
  intros Hi (Hpos & Hstop & Hbytes) Hc Hp.
  destruct (norm_cond_Some s r Hi Hc) as (Hr & Hsum & Hcut).
  destruct (round_interval s r Hi Hr Hsum Hcut) as (_ & _ & Hi'). split; [done|].
  split; [simpl; lia|]. simpl. rewrite zlen_zupd. split; [done|]. apply zupd_Forall; [done|].
  destruct Hi as (Hl0 & Hr0 & Hs32 & _). unfold is_byte. rewrite Z.shiftr_div_pow2 by lia.
  split; [apply Z.div_pos; lia|apply Z.div_lt_upper_bound; lia].
Qed.

Lemma enc_round_extends s r : extends s (enc_round s r).
Proof.
  unfold extends. simpl. rewrite zlen_zupd. split; [lia|]. split; [done|]. split; [done|].
  intros i Hi. apply znth_zupd_ne. lia.
Qed.

(** Backwards over a round. *)
Lemma round_tracks F s r :
  stream_ok F -> interval_ok s -> buffer_ok s -> norm_cond s = Some r -> pos s < stop s ->
  sstart F <= pos s -> tracks F (enc_round s r) -> tracks F s.
Proof.
  intros HF0 Hi (Hpos & Hstop & Hbytes) Hc Hp Hst (Hs2 & H4 & Hagree & Hwin).
  destruct (norm_cond_Some s r Hi Hc) as (Hr & Hsum & Hcut).
  destruct (round_interval s r Hi Hr Hsum Hcut) as (Hlow & Hrng & _). simpl in Hs2, H4, Hagree.
  change (low (enc_round s r)) with (low (shift_state (set_rng s r))) in Hwin.
  change (rng (enc_round s r)) with (rng (shift_state (set_rng s r))) in Hwin.
  simpl (pos _) in Hwin. rewrite Hlow, Hrng in Hwin. destruct Hi as (Hl0 & _).
  destruct (stream_window_shift F (pos s) HF0) as (_ & _ & Hw0 & _); [lia|lia|].
  rewrite Hagree, znth_zupd_eq in Hw0 by lia.
  assert (low s = Z.shiftr (low s) 24 * TOP + low s mod TOP) as Hsplit.
  { rewrite Z.shiftr_div_pow2 by lia. fold TOP. pose proof (Z.div_mod (low s) TOP). unfold TOP in *. lia. }
  split; [lia|]. split; [lia|]. split.
  - intros i Hi2. rewrite Hagree by lia. apply znth_zupd_ne. lia.
  - rewrite Hw0. pose proof (Z.div_mod (window F (pos s + 1)) 256).
    pose proof (Z.mod_pos_bound (window F (pos s + 1)) 256). lia.
Qed.

(** Forwards over a round: the decoder reads the byte four places ahead. *)
Lemma round_paired F s r d :
  stream_ok F -> 0 <= pos s -> tracks F (enc_round s r) -> paired F s d -> norm_cond s = Some r ->
  norm_cond d = Some r /\ pos d < stop d /\
  exists d', next_code (set_rng d r) = Ok (tt, d') /\ paired F (enc_round s r) (shift_state d') /\
             stop d' = stop d /\ pos d' = pos d + 1.
Proof.
  intros HF0 Hpos (_ & H4 & _) (Hd1 & Hd2 & Hd3 & Hd4 & Hd5 & Hd6) Hc. simpl in H4.
  destruct (stream_window_shift F (pos s) HF0) as (_ & _ & _ & Hnext); [lia|lia|].
  split; [rewrite <- Hc; unfold norm_cond; by rewrite Hd1, Hd2|]. split; [lia|].
  unfold next_code, InByte. simpl. destruct (Z.leb_spec (stop d) (pos d)); [lia|].
  eexists. split; [done|]. split; [|done].
  unfold paired, enc_round, shift_state. simpl. rewrite Hd1, Hd3, Hd4, Hd5.
  repeat split; try done; lia.
Qed.

(** The loops of the two sides make the same rounds: backwards from the end of the encoder,
    the stream stays in the interval; forwards, the decoder follows. *)
Lemma enc_loop_codes fuel : forall s b e',
  interval_ok s -> buffer_ok s -> enc_loop fuel s = Ok (b, e') ->
  normal e' /\ extends s e' /\
  forall F, stream_ok F -> sstart F <= pos s -> tracks F e' ->
    tracks F s /\
    forall d fuel', paired F s d -> (Z.to_nat (stop d - pos d) < fuel')%nat ->
      exists d', dec_loop fuel' d = Ok (tt, d') /\ paired F e' d'.
Proof.
  induction fuel as [|n IH]; intros s b e' Hi Hbuf; [done|]. simpl.
  destruct (norm_cond s) as [r|] eqn:Hc.
  - unfold OutByte. simpl. destruct (Z.leb_spec (stop s) (pos s)) as [|Hp]; [done|]. simpl.
    fold (enc_round s r). intros He. destruct (enc_round_ok s r Hi Hbuf Hc Hp) as (Hi' & Hbuf').
    destruct (IH _ b e' Hi' Hbuf' He) as (He' & Hpos' & HF).
    split; [done|]. split; [by apply (extends_trans s (enc_round s r)); [apply enc_round_extends|]|].
    intros F HF0 Hst Ht. destruct (HF F HF0) as (Ht2 & Hdec); [simpl; lia|done|].
    split; [by apply (round_tracks F s r)|]. intros d fuel' Hd Hfuel.
    destruct (round_paired F s r d) as (Hc' & Hlt & d1 & Hd1 & Hp1 & Hs1 & Hpos1); try done; [apply Hbuf|].
    destruct fuel' as [|k]; [lia|]. simpl. rewrite Hc', Hd1. simpl.
    apply Hdec; [done|]. simpl. rewrite Hs1, Hpos1. lia.
  - intros [= _ <-]. assert (BOT <= rng s) as Hb.
    { unfold norm_cond in Hc. destruct (_ <? TOP); [done|]. destruct (Z.ltb_spec (rng s) BOT); [done|lia]. }
    split; [done|]. split; [apply extends_refl|]. intros F HF0 Hst Ht. split; [done|].
    intros d fuel' Hd Hfuel. destruct fuel' as [|k]; [lia|]. simpl.
    assert (norm_cond d = None) as ->; [|by exists d].
    rewrite <- Hc. unfold norm_cond. destruct Hd as (-> & -> & _). done.
Qed.

(** ** Symbols *)

(** The interval of a symbol: [r] is the length of a unit of the count. *)
Section Symbol.
Context (cum freq total r : Z) (e : RC).
Hypothesis Hc : 0 <= cum.
Hypothesis Hf : 1 <= freq.
Hypothesis Ht : cum + freq <= total.
Hypothesis Hr : 1 <= r.
Hypothesis Hrt : r * total <= rng e.
Hypothesis He : normal e.

Let s := narrow cum freq (set_rng e r).

Lemma narrow_val : low s = low e + r * cum /\ rng s = r * freq /\ low s + rng s <= low e + rng e.
Proof.
  destruct He as ((Hl & Hrng & Hsum & Htop) & _). unfold TOP in Htop. unfold s, narrow. simpl.
  assert (r * cum + r * freq <= rng e) by nia.
  assert (0 <= r * cum) by nia. assert (1 <= r * freq) by nia.
  rewrite (wrap_id 32 (r * cum)) by (unfold is_word; lia).
  rewrite (wrap_id 32 (r * freq)) by (unfold is_word; lia).
  rewrite wrap_id by (unfold is_word; lia). lia.
Qed.

Lemma narrow_ok : interval_ok s /\ buffer_ok s.
Proof.
  destruct narrow_val as (Hlow & Hrng & Hsum). destruct He as ((Hl & Hrng0 & Hsum0 & Htop) & _ & Hb).
  split; [|exact Hb]. unfold interval_ok.
  assert (0 <= r * cum) by nia. assert (1 <= r * freq) by nia. split; [lia|]. split; [lia|]. split; [lia|].
  intros E. specialize (Htop ltac:(lia)). lia.
Qed.

(** The count the decoder computes is one of the symbol's. *)
Lemma narrow_tracks F :
  stream_ok F -> tracks F s ->
  tracks F e /\
  cum <= wrap32 (window F (pos e) - low e) / r < cum + freq.
Proof.
  intros HF (H1 & H2 & H3 & H4). destruct narrow_val as (Hlow & Hrng & Hsum).
  destruct He as ((Hl & Hrng0 & Hsum0 & Htop) & _). change (pos s) with (pos e) in *.
  assert (0 <= r * cum) by nia. split; [split; [done|]; split; [done|]; split; [done|lia]|].
  rewrite wrap_id by (unfold is_word; lia). split.
  - apply Z.div_le_lower_bound; lia.
  - apply Z.div_lt_upper_bound; lia.
Qed.

Lemma narrow_paired F d : paired F e d -> paired F s (narrow cum freq (set_rng d r)).
Proof.
  intros (H1 & H2 & H3 & H4 & H5 & H6). unfold paired, s, narrow. simpl. by rewrite H1.
Qed.
End Symbol.

(** A symbol written with its range, read with its count and followed by the rest. *)
Lemma codes_symbol {A B : Type} (cum freq total : Z) (unit_of : Z -> Z) (E : coder unit)
    (E2 : unit -> coder B) (D D2 : coder A) (b : B) (a : A) :
  0 <= cum -> 1 <= freq -> cum + freq <= total ->
  (forall x, BOT <= x < 2 ^ 32 -> 1 <= unit_of x /\ unit_of x * total <= x) ->
  (forall s, E s = let s' := narrow cum freq (set_rng s (unit_of (rng s))) in enc_loop (loop_fuel s') s') ->
  (forall d, 0 < unit_of (rng d) -> cum <= wrap32 (code d - low d) / unit_of (rng d) < cum + freq ->
     D d = (Decode cum freq total ≫= fun _ => D2) (set_rng d (unit_of (rng d)))) ->
  codes (E2 tt) D2 b a -> codes (E ≫= E2) D b a.
Proof.
  intros Hc Hf Ht Hu HE HD H2 e b' e' He. unfold mbind at 1, coder_bind at 1. rewrite HE. cbv zeta.
  assert (BOT <= rng e < 2 ^ 32) as Hrng by (destruct He as ((? & ? & ? & ?) & ? & _); unfold TOP in *; lia).
  destruct (Hu _ Hrng) as [Hu1 Hu2]. set (s := narrow _ _ _).
  destruct (enc_loop _ s) as [[[] e1]| |] eqn:Hr; try done. intros HE2.
  destruct (narrow_ok cum freq total (unit_of (rng e)) e) as (Hi & Hb); try done.
  destruct (enc_loop_codes _ s tt e1 Hi Hb Hr) as (He1 & Hpos & HF). change (extends e e1) in Hpos.
  destruct (H2 e1 b' e' He1 HE2) as (-> & He' & Hpos2 & HF2).
  split; [done|]. split; [done|]. split; [by apply (extends_trans e e1)|]. intros F HF0 Hst Htr.
  destruct (HF2 F HF0 ltac:(destruct Hpos; lia) Htr) as (Ht1 & Hdec2). destruct (HF F HF0 Hst Ht1) as (Hts & Hdec).
  destruct (narrow_tracks cum freq total (unit_of (rng e)) e) with (F := F) as (Hte & Hcount); try done.
  split; [done|]. intros d Hd. pose proof Hd as (Hd1 & Hd2 & Hd3 & _).
  rewrite HD by (rewrite ?Hd1, ?Hd2, ?Hd3; (done || lia)). rewrite Hd2. unfold mbind, coder_bind, Decode. cbv zeta.
  destruct (Hdec (narrow cum freq (set_rng d (unit_of (rng e)))) (loop_fuel (narrow cum freq (set_rng d (unit_of (rng e))))))
    as (d' & -> & Hd'); [by apply narrow_paired|unfold loop_fuel; simpl; lia|].
  by apply Hdec2.
Qed.

Lemma codes_Encode {A B : Type} (cum freq total : Z) (E2 : unit -> coder B) (K : Z -> coder A) (D2 : coder A) b a :
  0 <= cum -> 1 <= freq -> cum + freq <= total -> total <= MAX_TOTAL ->
  (forall v s, cum <= v < cum + freq -> K v s = (Decode cum freq total ≫= fun _ => D2) s) ->
  codes (E2 tt) D2 b a ->
  codes (Encode cum freq total ≫= E2) (GetCount total ≫= K) b a.
Proof.
  intros Hc Hf Ht Hm HK. apply (codes_symbol cum freq total (fun x => x / total)); try done.
  - intros x Hx. unfold MAX_TOTAL in Hm. split; [apply Z.div_le_lower_bound; lia|].
    pose proof (Z.mul_div_le x total). lia.
  - intros s. unfold Encode. by destruct (Z.eqb_spec total 0); [lia|].
  - intros d Hu Hv. unfold mbind at 1, coder_bind at 1, GetCount.
    destruct (Z.eqb_spec total 0); [lia|]. simpl. destruct (Z.eqb_spec (rng d / total) 0); [lia|].
    destruct (Z.leb_spec total (wrap32 (code d - low d) / (rng d / total))); [lia|]. by apply HK.
Qed.

(** A last symbol, with nothing after it. *)
Lemma codes_last {A B : Type} (E : coder B) (D : coder A) b a :
  codes (E ≫= mret) D b a -> codes E D b a.
Proof.
  intros H. apply (codes_eq _ _ _ _ _ _ H); [|done]. intros s.
  unfold mbind, coder_bind. by destruct (E s) as [[? ?]| |].
Qed.

Lemma shr_div x k : 0 <= x < 2 ^ 32 -> 0 <= k -> shr 32 x k = x / 2 ^ k.
Proof.
  intros Hx Hk. unfold shr. destruct (Z.leb_spec 32 k).
  - rewrite Z.div_small; [done|]. split; [lia|]. pose proof (Z.pow_le_mono_r 2 32 k). lia.
  - by rewrite Z.shiftr_div_pow2.
Qed.

Lemma codes_EncodeShift {A B : Type} (cum freq shift : Z) (E2 : unit -> coder B) (K : Z -> coder A) (D2 : coder A) b a :
  0 <= cum -> 1 <= freq -> 0 <= shift <= 16 -> cum + freq <= 2 ^ shift ->
  (forall v s, cum <= v < cum + freq -> K v s = (DecodeShift cum freq shift ≫= fun _ => D2) s) ->
  codes (E2 tt) D2 b a ->
  codes (EncodeShift cum freq shift ≫= E2) (GetCountShift shift ≫= K) b a.
Proof.
  intros Hc Hf Hs Ht HK. apply (codes_symbol cum freq (2 ^ shift) (fun x => shr 32 x shift)); try done.
  - intros x Hx. rewrite shr_div by (unfold BOT in Hx; lia).
    pose proof (Z.pow_le_mono_r 2 shift 16 ltac:(lia) ltac:(lia)). pose proof (Z.pow_pos_nonneg 2 shift).
    split; [apply Z.div_le_lower_bound; unfold BOT in *; lia|].
    pose proof (Z.mul_div_le x (2 ^ shift)). lia.
  - intros d Hu Hv. unfold mbind at 1, coder_bind at 1, GetCountShift. simpl.
    destruct (Z.eqb_spec (shr 32 (rng d) shift) 0); [lia|]. destruct (Z.leb_spec 32 shift); [lia|].
    rewrite Z.shiftl_1_l. destruct (Z.leb_spec (2 ^ shift) (wrap32 (code d - low d) / shr 32 (rng d) shift)); [lia|].
    by apply HK.
Qed.

(** ** Uniform values *)

Lemma mod_pow2_step g x k : 0 <= k -> 0 <= g ->
  x mod 2 ^ (k + g) = x mod 2 ^ k + (x / 2 ^ k) mod 2 ^ g * 2 ^ k.
Proof.
  intros. rewrite Z.pow_add_r by lia. rewrite Z.rem_mul_r; [lia| |by apply Z.pow_pos_nonneg; lia].
  apply Z.pow_nonzero; lia.
Qed.

Lemma or_shift_add g w acc v shift x :
  0 <= shift -> 0 <= g -> 0 <= w -> acc = x mod 2 ^ shift -> acc + v * 2 ^ shift = x mod 2 ^ (shift + g) ->
  0 <= x < 2 ^ w -> or_shift w acc v shift = x mod 2 ^ (shift + g).
Proof.
  intros Hs Hg Hw Ha Hv Hx. unfold or_shift. rewrite Z.shiftl_mul_pow2, lor_pow2_mul, Hv; [|done| |done].
  - apply wrap_id. split; [apply Z.mod_pos_bound, Z.pow_pos_nonneg; lia|].
    pose proof (Z.mod_le x (2 ^ (shift + g))). pose proof (Z.pow_pos_nonneg 2 (shift + g)). lia.
  - rewrite Ha. apply Z.mod_pos_bound, Z.pow_pos_nonneg; lia.
Qed.

Lemma codes_Uniform_loop fuel : forall fuel' w val maxval bitmax shift,
  0 <= val <= maxval -> maxval < 2 ^ w -> maxval < 2 ^ bitmax -> 0 <= shift -> 0 <= w ->
  (Z.to_nat (bitmax - shift) < fuel)%nat -> (Z.to_nat (bitmax - shift) < fuel')%nat ->
  codes (EncodeUniform_loop fuel (Z.shiftr val shift) (Z.shiftr maxval shift) (bitmax - shift))
        (DecodeUniform_loop fuel' w (val mod 2 ^ shift) maxval bitmax shift) tt val.
Proof.
  induction fuel as [|n IH]; intros fuel' w val maxval bitmax shift Hv Hw Hb Hs Hw0 Hf Hf'; [lia|].
  destruct fuel' as [|k]; [lia|]. cbn [EncodeUniform_loop DecodeUniform_loop].
  assert (uni_nbit = 16) as Hu by done. rewrite Hu.
  pose proof (Z.pow_pos_nonneg 2 shift ltac:(lia) Hs) as Hp.
  destruct (Z.ltb_spec 16 (bitmax - shift)) as [Hlt|Hge];
    (destruct (Z.ltb_spec (shift + 16) bitmax); [|lia]) || (destruct (Z.ltb_spec (shift + 16) bitmax); [lia|]).
  - change uni_mask with (Z.ones 16). rewrite Z.land_ones, !Z.shiftr_shiftr by lia.
    rewrite (Z.shiftr_div_pow2 val shift) by lia. replace (bitmax - shift - 16) with (bitmax - (shift + 16)) by lia.
    set (v := (val / 2 ^ shift) mod 2 ^ 16).
    pose proof (Z.mod_pos_bound (val / 2 ^ shift) (2 ^ 16) ltac:(lia)) as Hv16. fold v in Hv16.
    eapply codes_EncodeShift; [lia|lia|lia|lia| |].
    + intros v' s Hv'. assert (v' = v) as -> by lia. reflexivity.
    + rewrite (or_shift_add 16 w _ v shift val); [|done|done|done|done| |lia].
      * apply IH; (done || lia).
      * unfold v. rewrite (mod_pow2_step 16) by lia. done.
  - set (v := Z.shiftr val shift).
    assert (maxval / 2 ^ shift < 2 ^ 16) as Hm.
    { apply Z.div_lt_upper_bound; [lia|]. rewrite <- Z.pow_add_r by lia.
      apply Z.lt_le_trans with (2 ^ bitmax); [done|]. apply Z.pow_le_mono_r; lia. }
    assert (0 <= v <= maxval / 2 ^ shift) as Hvm.
    { unfold v. rewrite Z.shiftr_div_pow2 by lia. split; [apply Z.div_pos; lia|apply Z.div_le_mono; lia]. }
    rewrite (Z.shiftr_div_pow2 maxval) by lia.
    rewrite (wrap_id 32 v), !(wrap_id 32 (maxval / 2 ^ shift)) by (unfold is_word; lia).
    rewrite (wrap_id 32 (_ + 1)) by (unfold is_word; lia).
    apply codes_last. apply (codes_Encode _ _ _ _ _ (mret val)); [lia|lia|lia|unfold MAX_TOTAL, BOT; lia| |apply codes_ret].
    intros v' s Hv'. assert (v' = v) as -> by lia. enough (or_shift w (val mod 2 ^ shift) v shift = val) as -> by done.
    assert (val mod 2 ^ (shift + 16) = val) as Hval.
    { apply Z.mod_small. split; [lia|]. rewrite Z.pow_add_r by lia.
      pose proof (Z.div_mod val (2 ^ shift)). pose proof (Z.mod_pos_bound val (2 ^ shift)).
      unfold v in Hvm. rewrite Z.shiftr_div_pow2 in Hvm by lia. nia. }
    rewrite <- Hval at 2. apply (or_shift_add 16); try done; [|lia].
    rewrite Hval. unfold v. rewrite Z.shiftr_div_pow2 by lia. pose proof (Z.div_mod val (2 ^ shift)). lia.
Qed.

(** A value not above [maxval] is read back exactly. *)
Lemma codes_EncodeUniform_bit w val maxval bitmax :
  0 <= val <= maxval -> maxval < 2 ^ w -> maxval < 2 ^ bitmax -> 0 <= w -> 
  codes (EncodeUniform_bit val maxval bitmax) (DecodeUniform_bit w maxval bitmax) tt val.
Proof.
  intros Hv Hw Hb Hw0. unfold EncodeUniform_bit, DecodeUniform_bit.
  destruct (Z.eqb_spec maxval 0); [assert (val = 0) as -> by lia; apply codes_ret|].
  pose proof (codes_Uniform_loop (Z.to_nat bitmax + 1) (Z.to_nat bitmax + 1) w val maxval bitmax 0) as H.
  rewrite !Z.shiftr_0_r, Z.sub_0_r, Z.mod_1_r in H. apply H; (done || lia).
Qed.

Lemma codes_EncodeUniform w val maxval :
  0 <= val <= maxval -> maxval < 2 ^ w -> 0 <= w ->
  codes (EncodeUniform val maxval) (DecodeUniform w maxval) tt val.
Proof.
  intros. apply codes_EncodeUniform_bit; try done. apply GetBitLen_bounds. lia.
Qed.

Lemma codes_map {A A' B : Type} (E : coder B) (D : coder A) (f : A -> coder A') b a a' :
  codes E D b a -> f a = mret a' -> codes E (D ≫= f) b a'.
Proof.
  intros H Hf. apply codes_last. apply (codes_bind _ _ b a); [done|]. rewrite Hf. apply codes_ret.
Qed.

(** A step of the encoder that writes nothing. *)
Lemma codes_skip {A B1 B2 : Type} (E1 : coder B1) b1 (E2 : B1 -> coder B2) (D : coder A) b2 a :
  codes E1 (mret tt) b1 tt -> codes (E2 b1) D b2 a -> codes (E1 ≫= E2) D b2 a.
Proof. intros H1 H2. exact (codes_bind E1 (mret tt) b1 tt E2 (fun _ => D) b2 a H1 H2). Qed.

Lemma codes_UniShift_loop fuel : forall fuel' w x shift,
  0 <= x < 2 ^ shift -> x < 2 ^ w -> 0 <= w -> 0 <= shift ->
  (Z.to_nat shift < fuel)%nat -> (Z.to_nat shift < fuel')%nat ->
  codes (EncodeUniShift_loop fuel x shift) (DecodeUniShift_loop fuel' w shift) tt x.
Proof.
  induction fuel as [|n IH]; intros fuel' w x shift Hx Hw Hw0 Hs Hf Hf'; [lia|].
  destruct fuel' as [|k]; [lia|]. cbn [EncodeUniShift_loop DecodeUniShift_loop].
  assert (uni_nbit = 16) as Hu by done. rewrite Hu.
  destruct (Z.leb_spec shift 16) as [Hle|Hgt].
  - pose proof (Z.pow_le_mono_r 2 shift 16 ltac:(lia) ltac:(lia)).
    apply codes_last. rewrite (wrap_id 32) by (unfold is_word; lia).
    apply (codes_EncodeShift _ _ _ _ _ (mret x)); [lia|lia|lia|lia| |apply codes_ret].
    intros v s Hv. assert (v = x) as -> by lia. rewrite !(wrap_id w) by (unfold is_word; lia).
    rewrite (wrap_id 32) by (unfold is_word; lia). done.
  - change uni_mask with (Z.ones 16). rewrite Z.land_ones by lia.
    unfold wrap at 1. rewrite Z.mod_mod_divide by (exists (2 ^ 16); lia).
    pose proof (Z.mod_pos_bound x (2 ^ 16) ltac:(lia)) as Hm.
    pose proof (Z.div_mod x (2 ^ 16) ltac:(lia)) as Hdm.
    assert (0 <= x / 2 ^ 16 <= x) as Hq by (split; [apply Z.div_pos|apply Z.div_le_upper_bound]; lia).
    eapply codes_EncodeShift; [lia|lia|lia|lia| |].
    + intros v s Hv. assert (v = x mod 2 ^ 16) as -> by lia. reflexivity.
    + rewrite Z.shiftr_div_pow2 by lia. eapply codes_map.
      * apply (IH k w (x / 2 ^ 16) (shift - 16)); try lia. split; [lia|].
        apply Z.div_lt_upper_bound; [lia|]. rewrite <- Z.pow_add_r by lia.
        replace (16 + (shift - 16)) with shift by lia. lia.
      * rewrite Z.shiftl_mul_pow2, (wrap_id w (x mod 2 ^ 16)), lor_mul_pow2 by (unfold is_word; lia).
        rewrite wrap_id by (unfold is_word; lia). f_equal. lia.
Qed.

Lemma codes_EncodeUniShift w x shift :
  0 <= x < 2 ^ shift -> x < 2 ^ w -> 0 <= w -> 0 <= shift -> (w <= 16 -> shift <= 16) ->
  codes (EncodeUniShift w x shift) (DecodeUniShift w shift) tt x.
Proof.
  intros Hx Hw Hw0 Hs Hws. unfold EncodeUniShift, DecodeUniShift.
  destruct (Z.leb_spec w 16) as [Hle|]; [|by apply codes_UniShift_loop; lia].
  specialize (Hws Hle).
  pose proof (codes_UniShift_loop (Z.to_nat shift + 1) (Z.to_nat shift + 1) w x shift) as H.
  pose proof (Z.pow_le_mono_r 2 shift 16 ltac:(lia) ltac:(lia)).
  replace (Z.to_nat shift + 1)%nat with (S (Z.to_nat shift)) in * by lia.
  cbn [EncodeUniShift_loop] in H. destruct (Z.leb_spec shift uni_nbit) as [|Hn]; [|unfold uni_nbit in Hn; lia].
  rewrite (wrap_id 32) in H by (unfold is_word; lia). apply H; lia.
Qed.

(** ** Encoding is defined *)

Lemma loop_total fuel s :
  (Z.to_nat (stop s - pos s) < fuel)%nat ->
  (enc_loop fuel s = Throw CPRS_ERR_BUF \/ exists s', enc_loop fuel s = Ok (tt, s') /\ BOT <= rng s' /\ norm_cond s' = None) /\
  (dec_loop fuel s = Throw CPRS_ERR_BUF \/ exists s', dec_loop fuel s = Ok (tt, s') /\ BOT <= rng s' /\ norm_cond s' = None).
Proof.
  revert s. induction fuel as [|n IH]; intros s Hf; [lia|]. simpl.
  destruct (norm_cond s) as [r|] eqn:Hc.
  - unfold OutByte, next_code, InByte. simpl. destruct (Z.leb_spec (stop s) (pos s)); simpl.
    + split; by left.
    + split; apply IH; simpl; lia.
  - assert (BOT <= rng s).
    { unfold norm_cond in Hc. destruct (_ <? TOP); [done|]. destruct (Z.ltb_spec (rng s) BOT); [done|lia]. }
    split; right; by exists s.
Qed.

(** The computation returns a value or throws, from every state. *)
Definition defined {A : Type} (E : coder A) : Prop := forall s, E s <> Undef.

Lemma defined_ret {A : Type} (a : A) : defined (mret a).
Proof. done. Qed.

Lemma defined_throw {A : Type} (e : CprsErr) : defined (throw e : coder A).
Proof. done. Qed.

Lemma defined_bind {A B : Type} (E : coder A) (f : A -> coder B) :
  defined E -> (forall a, defined (f a)) -> defined (E ≫= f).
Proof.
  intros HE Hf s. unfold mbind, coder_bind. specialize (HE s). destruct (E s) as [[a s']| |]; [apply Hf|done|done].
Qed.

Lemma defined_enc_loop s : enc_loop (loop_fuel s) s <> Undef.
Proof.
  destruct (loop_total (loop_fuel s) s) as [[->|(s' & -> & _)] _]; [unfold loop_fuel; lia|done|done].
Qed.

Lemma defined_Encode cum freq total : total <> 0 -> defined (Encode cum freq total).
Proof. intros Ht s. unfold Encode. destruct (Z.eqb_spec total 0); [done|apply defined_enc_loop]. Qed.

Lemma defined_EncodeShift cum freq shift : defined (EncodeShift cum freq shift).
Proof. intros s. apply defined_enc_loop. Qed.

Lemma defined_EncodeUniform_bit val maxval bitmax :
  0 <= maxval < 2 ^ bitmax -> defined (EncodeUniform_bit val maxval bitmax).
Proof.
  intros Hm. unfold EncodeUniform_bit. destruct (maxval =? 0); [apply defined_ret|].
  assert (Z.to_nat bitmax < Z.to_nat bitmax + 1)%nat as Hf by lia. revert Hf.
  generalize (Z.to_nat bitmax + 1)%nat as fuel. intros fuel. revert val maxval bitmax Hm.
  induction fuel as [|n IH]; intros val maxval bitmax Hm Hf; [lia|]. cbn [EncodeUniform_loop]. unfold uni_nbit in *.
  destruct (Z.ltb_spec 16 bitmax).
  - apply defined_bind; [apply defined_EncodeShift|]. intros _. apply IH; [|lia].
    rewrite Z.shiftr_div_pow2 by lia. split; [apply Z.div_pos; lia|]. apply Z.div_lt_upper_bound; [lia|].
    rewrite <- Z.pow_add_r by lia. replace (16 + (bitmax - 16)) with bitmax by lia. lia.
  - apply defined_Encode. destruct (Z.lt_ge_cases bitmax 0); [rewrite Z.pow_neg_r in Hm by lia; lia|].
    pose proof (Z.pow_le_mono_r 2 bitmax 16 ltac:(lia) ltac:(lia)).
    rewrite (wrap_id 32 maxval), (wrap_id 32 (maxval + 1)) by (unfold is_word; lia). lia.
Qed.

Lemma defined_EncodeUniform val maxval : 0 <= maxval -> defined (EncodeUniform val maxval).
Proof. intros Hm. apply defined_EncodeUniform_bit. pose proof (GetBitLen_bounds maxval Hm). lia. Qed.

Lemma defined_EncodeUniShift w x shift : defined (EncodeUniShift w x shift).
Proof.
  unfold EncodeUniShift. destruct (w <=? 16); [apply defined_EncodeShift|].
  assert (Z.to_nat shift < Z.to_nat shift + 1)%nat as Hf by lia. revert Hf.
  generalize (Z.to_nat shift + 1)%nat as fuel. intros fuel. revert x shift.
  induction fuel as [|n IH]; intros x shift Hf; [lia|]. cbn [EncodeUniShift_loop]. unfold uni_nbit in *.
  destruct (Z.leb_spec shift 16); [apply defined_EncodeShift|].
  apply defined_bind; [apply defined_EncodeShift|]. intros _. apply IH. lia.
Qed.

Lemma defined_EndCompress : defined EndCompress.
Proof.
  unfold EndCompress. generalize 4%nat. intros n. induction n as [|n IH]; [apply defined_ret|]. simpl. apply defined_bind; [|done].
  intros s. unfold put_low, OutByte. by destruct (_ <=? _).
Qed.

#[export] Hint Resolve defined_ret defined_throw defined_EncodeShift defined_EncodeUniShift defined_EndCompress : bh.

(** ** Whole streams *)

Lemma InitCompress_normal b len p :
  0 <= p -> len <= zlen b -> Forall is_byte b -> normal (InitCompress b len p).
Proof.
  intros. split; [|split; [done|]].
  - unfold interval_ok, TOP. simpl. lia.
  - split; [done|]. split; done.
Qed.

Lemma put_low_Ok s u s' :
  0 <= low s < 2 ^ 32 -> put_low s = Ok (u, s') ->
  pos s < stop s /\
  exists m, low s = low s / TOP * TOP + m /\ 0 <= m < TOP /\ 0 <= low s / TOP < 256 /\
  s' = mkRC (256 * m) (code s) (rng s) ((buf s).[pos s <- low s / TOP]) (pos s + 1) (stop s).
Proof.
  intros Hl. unfold put_low, OutByte. destruct (Z.leb_spec (stop s) (pos s)); [done|]. simpl.
  rewrite wrap_shift8, Z.shiftr_div_pow2 by lia. fold TOP. intros [= <- <-]. split; [lia|].
  assert (TOP = 16777216) by done. pose proof (Z.div_mod (low s) TOP). pose proof (Z.mod_pos_bound (low s) TOP).
  exists (low s mod TOP). split; [lia|]. split; [lia|]. split; [|done].
  split; [apply Z.div_pos; lia|apply Z.div_lt_upper_bound; lia].
Qed.

(** The bytes of [low] end the stream, so the decoder starts and stays inside every interval. *)
Lemma EndCompress_tracks e e' p0 :
  normal e -> 0 <= p0 <= pos e -> EndCompress e = Ok (tt, e') ->
  extends e e' /\ pos e' = pos e + 4 /\ pos e' <= stop e /\ Forall is_byte (buf e') /\
  forall b, Forall is_byte b -> pos e' <= zlen b ->
    (forall i, p0 <= i < pos e' -> b.[0|i] = (buf e').[0|i]) ->
    stream_ok (mkStream b (pos e') p0) /\ tracks (mkStream b (pos e') p0) e.
Proof.
  intros ((Hl & Hr & Hsum & _) & Hbot & Hpos & Hstop & Hby) Hp0 HE.
  unfold EndCompress in HE. cbn [times] in HE. unfold mbind, coder_bind in HE.
  destruct (put_low e) as [[u1 e1]| |] eqn:E1; try done.
  destruct (put_low e1) as [[u2 e2]| |] eqn:E2; try done.
  destruct (put_low e2) as [[u3 e3]| |] eqn:E3; try done.
  destruct (put_low e3) as [[u4 e4]| |] eqn:E4; try done.
  injection HE as <-.
  apply put_low_Ok in E1 as (Hp1 & m1 & Hl1 & Hm1 & Hb1 & ->); [|unfold TOP in *; lia].
  apply put_low_Ok in E2 as (Hp2 & m2 & Hl2 & Hm2 & Hb2 & ->); [|simpl; unfold TOP in *; lia]. simpl in Hp2, Hl2, Hb2.
  apply put_low_Ok in E3 as (Hp3 & m3 & Hl3 & Hm3 & Hb3 & ->); [|simpl; unfold TOP in *; lia]. simpl in Hp3, Hl3, Hb3.
  apply put_low_Ok in E4 as (Hp4 & m4 & Hl4 & Hm4 & Hb4 & ->); [|simpl; unfold TOP in *; lia]. simpl in Hp4, Hl4, Hb4.
  simpl. split; [|split; [lia|]; split; [lia|]].
  { unfold extends. simpl. rewrite !zlen_zupd. split; [lia|]. split; [done|]. split; [done|].
    intros i Hi. by rewrite !znth_zupd_ne by lia. }
  split; [repeat apply zupd_Forall; done|]. intros b Hb Hlen Hag.
  split; [split; [done|]; simpl; lia|]. split; [simpl; lia|]. split; [simpl; lia|]. split.
  - simpl. intros i Hi. rewrite Hag by lia. by rewrite !znth_zupd_ne by lia.
  - unfold window. simpl. rewrite !Hag by lia. rewrite Z.add_0_r.
    rewrite (znth_zupd_ne _ _ _ (pos e)) by lia. rewrite (znth_zupd_ne _ _ _ (pos e)) by lia.
    rewrite (znth_zupd_ne _ _ _ (pos e)) by lia. rewrite znth_zupd_eq by lia.
    rewrite (znth_zupd_ne _ _ _ (pos e + 1)) by lia. rewrite (znth_zupd_ne _ _ _ (pos e + 1)) by lia.
    rewrite znth_zupd_eq by (rewrite zlen_zupd; lia).
    rewrite (znth_zupd_ne _ _ _ (pos e + 2)) by lia.
    replace (pos e + 1 + 1) with (pos e + 2) by lia. replace (pos e + 2 + 1) with (pos e + 3) by lia.
    rewrite !znth_zupd_eq by (rewrite ?zlen_zupd; lia). unfold TOP, BOT in *. lia.
Qed.

Lemma InitDecompress_paired F p b len :
  stream_ok F -> 0 <= p -> tracks F (InitCompress b len p) ->
  exists d, InitDecompress (sbytes F) (slen F) p = Ok d /\ paired F (InitCompress b len p) d.
Proof.
  intros (Hby & Hs0 & Hlen) Hp (Hst & H4 & _). simpl in Hst, H4.
  assert (forall i, 0 <= i < 4 -> 0 <= (sbytes F).[0|p + i] < 256) as Hb.
  { intros i Hi. apply (znth_Forall is_byte 0); [done|lia]. }
  assert (forall c q, q < slen F -> 0 <= c < TOP -> 0 <= (sbytes F).[0|q] < 256 ->
            next_code (mkRC 0 c (2 ^ 32 - 1) (sbytes F) q (slen F))
            = Ok (tt, mkRC 0 (c * 2 ^ 8 + (sbytes F).[0|q]) (2 ^ 32 - 1) (sbytes F) (q + 1) (slen F))) as Hnext.
  { intros c q Hq Hc Hcb. unfold next_code, InByte. simpl. destruct (Z.leb_spec (slen F) q); [lia|]. simpl.
    unfold set_code. simpl. rewrite wrap_shift8, Z.mod_small by (unfold TOP in *; lia).
    rewrite (Z.mul_comm 256). change 256 with (2 ^ 8). rewrite lor_mul_pow2 by lia. done. }
  pose proof (Hb 0 ltac:(lia)) as B0. pose proof (Hb 1 ltac:(lia)) as B1.
  pose proof (Hb 2 ltac:(lia)) as B2. pose proof (Hb 3 ltac:(lia)) as B3. rewrite Z.add_0_r in B0.
  unfold InitDecompress. cbn [times]. unfold mbind, coder_bind, TOP in *.
  rewrite Hnext by lia. rewrite Hnext by lia. replace (p + 1 + 1) with (p + 2) by lia.
  rewrite Hnext by lia. replace (p + 2 + 1) with (p + 3) by lia. rewrite Hnext by lia.
  simpl. eexists. split; [reflexivity|]. unfold paired, window. simpl. rewrite Z.add_0_r.
  repeat split; lia.
Qed.

(** Everything written between [InitCompress] and [EndCompress] is read back, from any buffer
    that starts with the bytes written (those before [p] are free). *)
Lemma codes_stream {A B : Type} (E : coder B) (D : coder A) b a (dst : list Z) len p e1 e2 :
  codes E D b a -> Forall is_byte dst -> 0 <= p -> len <= zlen dst ->
  E (InitCompress dst len p) = Ok (b, e1) -> EndCompress e1 = Ok (tt, e2) ->
  p + 4 <= pos e2 <= len /\ extends (InitCompress dst len p) e2 /\ Forall is_byte (buf e2) /\
  forall src, Forall is_byte src -> pos e2 <= zlen src ->
    (forall i, p <= i < pos e2 -> src.[0|i] = (buf e2).[0|i]) ->
    exists d d', InitDecompress src (pos e2) p = Ok d /\ D d = Ok (a, d').
Proof.
  intros HC Hby Hp Hlen HE Hend.
  pose proof (InitCompress_normal dst len p Hp Hlen Hby) as He0.
  destruct (HC _ _ _ He0 HE) as (_ & He1 & Hx1 & HF). pose proof Hx1 as (Hpos1 & Hstop1 & _). simpl in Hpos1, Hstop1.
  destruct (EndCompress_tracks e1 e2 p He1 ltac:(lia) Hend) as (Hx2 & Hpos2 & Hle & Hby2 & Hsrc).
  split; [lia|]. split; [by apply (extends_trans _ e1)|]. split; [done|]. intros src Hb Hl Hag.
  destruct (Hsrc src Hb Hl Hag) as (Hok & Ht). destruct (HF _ Hok ltac:(simpl; lia) Ht) as (Ht0 & Hdec).
  destruct (InitDecompress_paired _ p dst len Hok Hp Ht0) as (d & Hd & Hpd). exists d.
  destruct (Hdec d Hpd) as (d' & Hd' & _). by exists d'.
Qed.

(** ** Sequences of symbols *)

(** A symbol and the model it is coded with: its range of counts and the total. *)
Record symbol := mkSym { sy_cum : Z; sy_freq : Z; sy_total : Z }.

Definition valid_symbol (y : symbol) : Prop :=
  0 <= sy_cum y /\ 1 <= sy_freq y /\ sy_cum y + sy_freq y <= sy_total y /\ sy_total y <= MAX_TOTAL.

Fixpoint encode_symbols (ys : list symbol) : coder unit :=
  match ys with
  | [] => mret tt
  | y :: r => Encode (sy_cum y) (sy_freq y) (sy_total y) ≫= fun _ => encode_symbols r
  end.

(** The decoder knows the total and how counts map to symbols. *)
Fixpoint decode_symbols (models : list (Z * (Z -> symbol))) : coder (list symbol) :=
  match models with
  | [] => mret []
  | (total, find) :: r =>
      c ← GetCount total;
      let y := find c in
      _ ← Decode (sy_cum y) (sy_freq y) total;
      ys ← decode_symbols r;
      mret (y :: ys)
  end.

Definition models_symbol (md : Z * (Z -> symbol)) (y : symbol) : Prop :=
  fst md = sy_total y /\ forall c, sy_cum y <= c < sy_cum y + sy_freq y -> snd md c = y.

Lemma codes_symbols models ys :
  Forall valid_symbol ys -> Forall2 models_symbol models ys ->
  codes (encode_symbols ys) (decode_symbols models) tt ys.
Proof.
  intros Hv Hm. induction Hm as [|[total find] y models ys [Ht Hf] Hm IH]; [apply codes_ret|].
  inversion Hv as [|? ? (H1 & H2 & H3 & H4) Hvs]; subst. simpl in Ht, Hf. simpl. rewrite Ht.
  eapply (codes_Encode _ _ _ _ _ (decode_symbols models ≫= fun ys => mret (y :: ys))); try done.
  - intros c s Hc. rewrite (Hf c Hc). done.
  - apply (codes_map _ _ _ _ ys); [by apply IH|done].
Qed.

(** C30: symbols encoded by the range coder into a buffer are decoded again from the bytes
    written, whatever follows them in memory: the carry-less renormalization, which may cut
    the range, is undone by the decoder, and the decoder reads no byte past the end. *)
Theorem RangeCoder_roundtrip (ys : list symbol) (models : list (Z * (Z -> symbol)))
    (dst : list Z) (len p : Z) (e1 e2 : RC)
    (Hv : Forall valid_symbol ys) (Hm : Forall2 models_symbol models ys)
    (Hb : Forall is_byte dst) (Hp : 0 <= p) (Hlen : len <= zlen dst)
    (HE : encode_symbols ys (InitCompress dst len p) = Ok (tt, e1))
    (Hend : EndCompress e1 = Ok (tt, e2)) :
  p + 4 <= pos e2 <= len /\
  exists d d', InitDecompress (buf e2) (pos e2) p = Ok d /\ decode_symbols models d = Ok (ys, d').
Proof.
  destruct (codes_stream _ _ tt ys dst len p e1 e2 (codes_symbols models ys Hv Hm) Hb Hp Hlen HE Hend)
    as (Hpos & (_ & _ & Hl & _) & Hb2 & Hd).
  split; [done|]. apply Hd; [done| |done]. simpl in Hl. lia.
Qed.

Lemma RangeCoder_roundtrip_witness :
  0 + 4 <= 5 <= 10 /\
  exists d d', InitDecompress [1; 88; 16; 95; 0; 0; 0; 0; 0; 0] 5 0 = Ok d /\
    decode_symbols [(4, fun c => if c <? 3 then mkSym 0 3 4 else mkSym 3 1 4);
                    (1000, fun c => mkSym c 1 1000)] d = Ok ([mkSym 0 3 4; mkSym 7 1 1000], d').
Proof.
  apply (RangeCoder_roundtrip
    [mkSym 0 3 4; mkSym 7 1 1000]
    [(4, fun c => if c <? 3 then mkSym 0 3 4 else mkSym 3 1 4); (1000, fun c => mkSym c 1 1000)]
    (replicate 10 0) 10 0
    (mkRC 1477467904 0 824633600 [1; 0; 0; 0; 0; 0; 0; 0; 0; 0] 1 10)
    (mkRC 0 0 824633600 [1; 88; 16; 95; 0; 0; 0; 0; 0; 0] 5 10)).
  - repeat constructor; vm_compute; discriminate.
  - constructor; [|constructor; [|constructor]].
    + split; [reflexivity|]. simpl. intros c Hc. destruct (Z.ltb_spec c 3); [reflexivity|lia].
    + split; [reflexivity|]. simpl. intros c Hc. f_equal. lia.
  - repeat constructor; vm_compute; discriminate.
  - lia.
  - reflexivity.
  - vm_compute. reflexivity.
  - vm_compute. reflexivity.
Defined.

(** Encoding and decoding a symbol always ends, from any state of the coder and any
    counts: either at the end of the buffer with [CPRS_ERR_BUF], or with a normalized range
    of at least [BOT]; only a total of zero is undefined. *)
Theorem RangeCoder_terminates (cum freq total : Z) (s : RC) (Ht : total <> 0) :
  (Encode cum freq total s = Throw CPRS_ERR_BUF \/
   exists s', Encode cum freq total s = Ok (tt, s') /\ BOT <= rng s' /\ norm_cond s' = None) /\
  (Decode cum freq total s = Throw CPRS_ERR_BUF \/
   exists s', Decode cum freq total s = Ok (tt, s') /\ BOT <= rng s' /\ norm_cond s' = None).
Proof.
  unfold Encode, Decode. destruct (Z.eqb_spec total 0); [done|].
  split; apply loop_total; unfold loop_fuel; lia.
Qed.

Lemma RangeCoder_terminates_witness :
  Encode 0 0 1 (mkRC 5 0 0 [1; 1] 0 2) = Throw CPRS_ERR_BUF \/
  exists s', Encode 0 0 1 (mkRC 5 0 0 [1; 1] 0 2) = Ok (tt, s') /\ BOT <= rng s' /\ norm_cond s' = None.
Proof. refine (proj1 (RangeCoder_terminates 0 0 1 (mkRC 5 0 0 [1; 1] 0 2) _)). lia. Defined.
