(* ===== verification/HashChain.v ===== *)
(** * Counting keys in a hash table with chains

    [Dictionary] (compress/Dictionary.h) and the [HashTab] of [PartDict] (compress/PartDict.h)
    count the values of a pack in the same way: an array of keys with their counts, bucket heads
    and a link from each key to an older one of its bucket.  Here is what the two share, for any
    hash function [h].  [keys] and [next] hold the live elements of the arrays, the bucket
    heads are a map whose missing entries are -1, a pointer to a key is its index. *)

From stdpp Require Import gmap.
From S2P Require Import Prelude.

Record KeyRange := mkKR { kkey : Z; kcount : Z; klow : Z }.
Definition kr0 : KeyRange := mkKR 0 0 0.

Record HashTab := mkTab { keys : list KeyRange; buckets : gmap Z Z; next : list Z }.

Definition nkeys (t : HashTab) : Z := zlen (keys t).

(** All buckets are empty; the arrays keep their contents, of which none is live any more. *)
Definition no_keys : HashTab := mkTab [] ∅ [].

Definition set_keys (t : HashTab) (ks : list KeyRange) : HashTab := mkTab ks (buckets t) (next t).

Definition bucket (t : HashTab) (b : Z) : Z := default (-1) (buckets t !! b).

(** [while((k >= 0) && (keys[k].key != key)) k = next[k]]: the links descend. *)
Fixpoint walk (fuel : nat) (t : HashTab) (key k : Z) : option Z :=
  match fuel with
  | O => None
  | S n =>
      if (0 <=? k) && negb (kkey (keys t).[kr0|k] =? key) then walk n t key (next t).[-1|k]
      else Some k
  end.

Section Hash.
Context (h : Z -> Z).

Definition find_key (t : HashTab) (key : Z) : option Z :=
  walk (Z.to_nat (nkeys t) + 1) t key (bucket t (h key)).

(** A new key becomes the head of its bucket. *)
Definition add_key (t : HashTab) (kr : KeyRange) : HashTab :=
  mkTab (keys t ++ [kr]) (<[h (kkey kr) := nkeys t]> (buckets t)) (next t ++ [bucket t (h (kkey kr))]).

(** [count] more occurrences of key [k]. *)
Definition count_key (t : HashTab) (k count : Z) : HashTab :=
  let kr := (keys t).[kr0|k] in
  set_keys t (keys t).[k <- mkKR (kkey kr) (wrap32 (kcount kr + count)) (klow kr)].
End Hash.

(** ** The hash chains *)

Section Chains.
Context (h : Z -> Z).
Implicit Types (t : HashTab) (ks : list KeyRange).

(** The largest index below [n] whose key is in bucket [b], or -1. *)
Fixpoint last_in ks (b : Z) (n : nat) : Z :=
  match n with
  | O => -1
  | S m => if h (kkey ks.[kr0|Z.of_nat m]) =? b then Z.of_nat m else last_in ks b m
  end.

Definition hash_ok t : Prop :=
  zlen (next t) = nkeys t /\
  (forall b, bucket t b = last_in (keys t) b (length (keys t))) /\
  (forall k, 0 <= k < nkeys t ->
     (next t).[-1|k] = last_in (keys t) (h (kkey (keys t).[kr0|k])) (Z.to_nat k)).

Lemma last_in_ext ks ks' b n :
  (forall k, 0 <= k < Z.of_nat n -> kkey ks'.[kr0|k] = kkey ks.[kr0|k]) -> last_in ks' b n = last_in ks b n.
Proof.
  induction n as [|m IH]; intros H; simpl; [done|]. rewrite (H (Z.of_nat m)) by lia.
  rewrite IH; [done|]. intros k Hk. apply H. lia.
Qed.

(** The walk finds the key if it is there. *)
Lemma walk_last t key n : forall fuel,
  hash_ok t -> (n <= length (keys t))%nat -> (n < fuel)%nat ->
  exists k, walk fuel t key (last_in (keys t) (h key) n) = Some k /\
    ((k = -1 /\ forall i, 0 <= i < Z.of_nat n -> kkey (keys t).[kr0|i] <> key) \/
     (0 <= k < Z.of_nat n /\ kkey (keys t).[kr0|k] = key)).
Proof.
  induction n as [|m IH]; intros fuel Hok Hn Hf.
  - destruct fuel as [|f]; [lia|]. exists (-1). split; [done|]. left. split; [done|]. lia.
  - simpl. destruct (Z.eqb_spec (h (kkey (keys t).[kr0|Z.of_nat m])) (h key)) as [Hh|Hh].
    + destruct fuel as [|f]; [lia|]. cbn [walk]. destruct (Z.leb_spec 0 (Z.of_nat m)); [|lia].
      destruct (Z.eqb_spec (kkey (keys t).[kr0|Z.of_nat m]) key) as [Hk|Hk]; simpl.
      * exists (Z.of_nat m). split; [done|]. right. split; [lia|done].
      * pose proof Hok as (_ & _ & Hnext).
        rewrite Hnext, Hh, Nat2Z.id by (unfold nkeys, zlen; lia).
        destruct (IH f Hok ltac:(lia) ltac:(lia)) as (k & -> & Hk'). exists k. split; [done|].
        destruct Hk' as [[-> Hno]|[Hr He]]; [left|right; split; [lia|done]].
        split; [done|]. intros i Hi. destruct (Z.eq_dec i (Z.of_nat m)) as [->|]; [done|]. apply Hno. lia.
    + destruct (IH fuel Hok ltac:(lia) ltac:(lia)) as (k & -> & Hk'). exists k. split; [done|].
      destruct Hk' as [[-> Hno]|[Hr He]]; [left|right; split; [lia|done]].
      split; [done|]. intros i Hi. destruct (Z.eq_dec i (Z.of_nat m)) as [->|]; [congruence|]. apply Hno. lia.
Qed.

Lemma find_key_spec t key :
  hash_ok t ->
  exists k, find_key h t key = Some k /\
    ((k = -1 /\ forall i, 0 <= i < nkeys t -> kkey (keys t).[kr0|i] <> key) \/
     (0 <= k < nkeys t /\ kkey (keys t).[kr0|k] = key)).
Proof.
  intros Hok. pose proof Hok as (_ & Hb & _). unfold find_key. rewrite Hb.
  apply walk_last; [done|lia|unfold nkeys, zlen; lia].
Qed.

Lemma no_keys_ok : hash_ok no_keys.
Proof.
  split; [done|]. split.
  - intros b. unfold bucket. simpl. by rewrite lookup_empty.
  - unfold nkeys, zlen. simpl. lia.
Qed.

(** A counted key keeps the chains. *)
Lemma hash_ok_recount t ks' :
  hash_ok t -> zlen ks' = nkeys t ->
  (forall k, 0 <= k < nkeys t -> kkey ks'.[kr0|k] = kkey (keys t).[kr0|k]) -> hash_ok (set_keys t ks').
Proof.
  intros (Hl & Hb & Hn) Hlen Hk. unfold hash_ok, nkeys, bucket in *. simpl. rewrite Hlen.
  assert (length ks' = length (keys t)) as Hlen' by (unfold zlen in Hlen; lia).
  split; [done|]. split.
  - intros b. rewrite Hlen'. rewrite (last_in_ext (keys t)); [apply Hb|]. intros k Hk'. apply Hk. unfold zlen. lia.
  - intros k Hk'. rewrite Hk by lia. rewrite (last_in_ext (keys t)); [by apply Hn|].
    intros i Hi. apply Hk. lia.
Qed.

(** A new key becomes the head of its bucket. *)
Lemma hash_ok_append t kr : hash_ok t -> hash_ok (add_key h t kr).
Proof.
  intros (Hl & Hb & Hn). unfold add_key, hash_ok, nkeys in *. simpl. rewrite !zlen_app. change (zlen [_]) with 1.
  change (zlen [kr]) with 1.
  assert (forall k, 0 <= k < zlen (keys t) -> (keys t ++ [kr]).[kr0|k] = (keys t).[kr0|k]) as Hold
    by (intros k Hk; apply znth_app_l; lia).
  assert ((keys t ++ [kr]).[kr0|zlen (keys t)] = kr) as Hnew
    by (rewrite znth_app_r, Z.sub_diag by lia; done).
  assert (forall b n, Z.of_nat n <= zlen (keys t) ->
            last_in (keys t ++ [kr]) b n = last_in (keys t) b n) as Hlast
    by (intros b n Hn'; apply last_in_ext; intros k Hk; rewrite Hold by lia; done).
  split; [lia|]. split.
  - intros b. rewrite length_app. simpl (length [_]). rewrite Nat.add_1_r. cbn [last_in].
    rewrite Hlast by (unfold zlen; lia). unfold zlen in Hnew. rewrite Hnew. simpl. rewrite <- Hb.
    unfold bucket. simpl. destruct (Z.eqb_spec (h (kkey kr)) b) as [->|Hne].
    + by rewrite lookup_insert_eq.
    + by rewrite lookup_insert_ne.
  - intros k Hk. rewrite Hlast by lia. destruct (Z.eq_dec k (zlen (keys t))) as [->|].
    + rewrite Hnew, znth_app_r by lia. rewrite Hl, Z.sub_diag. simpl. rewrite Hb. unfold zlen. by rewrite Nat2Z.id.
    + rewrite Hold, znth_app_l by lia. apply Hn. lia.
Qed.
End Chains.

(** ** Counting the values of a pack *)

Definition sumz (l : list Z) : Z := foldr Z.add 0 l.
Definition counts (ks : list KeyRange) : Z := sumz (map kcount ks).

Lemma sumz_app l1 l2 : sumz (l1 ++ l2) = sumz l1 + sumz l2.
Proof. induction l1 as [|x l1 IH]; simpl; [done|]. unfold sumz in *. simpl. lia. Qed.

Lemma sumz_perm l1 l2 : l1 ≡ₚ l2 -> sumz l1 = sumz l2.
Proof. induction 1; unfold sumz in *; simpl; lia. Qed.

Lemma sumz_nonneg l : Forall (fun x => 0 <= x) l -> 0 <= sumz l.
Proof. induction 1; unfold sumz in *; simpl; lia. Qed.

Lemma counts_upd ks k kr :
  0 <= k < zlen ks -> counts ks.[k <- kr] = counts ks - kcount ks.[kr0|k] + kcount kr.
Proof.
  intros Hk. unfold counts. pose proof (znth_lookup kr0 ks k Hk) as Hx.
  remember (ks.[kr0|k]) as x eqn:Heq. clear Heq. unfold zupd. destruct (Z.ltb_spec k 0); [lia|].
  apply list_elem_of_split_length in Hx as (l1 & l2 & -> & Hlen). rewrite Hlen.
  rewrite insert_app_r_alt, Nat.sub_diag by lia. simpl.
  rewrite !map_app, !sumz_app. unfold sumz. simpl. lia.
Qed.

Lemma counts_le ks k :
  Forall (fun kr => 1 <= kcount kr) ks -> 0 <= k < zlen ks -> 1 <= kcount ks.[kr0|k] <= counts ks.
Proof.
  intros H Hk. pose proof (znth_Forall _ kr0 ks k H Hk) as H1. simpl in H1. split; [done|].
  pose proof (counts_upd ks k (mkKR 0 0 0) Hk) as Hu. simpl in Hu.
  assert (0 <= counts ks.[k <- mkKR 0 0 0]); [|lia]. unfold counts. apply sumz_nonneg, Forall_map.
  apply zupd_Forall; [|simpl; lia]. eapply Forall_impl; [exact H|]. simpl. lia.
Qed.

(** The table after the values [xs] were counted. *)
Record Counted (h : Z -> Z) (t : HashTab) (xs : list Z) : Prop := {
  cnt_hash : hash_ok h t;
  cnt_found : forall x, In x xs -> exists k, 0 <= k < nkeys t /\ kkey (keys t).[kr0|k] = x;
  cnt_only : Forall (fun kr => In (kkey kr) xs /\ 1 <= kcount kr) (keys t);
  cnt_sum : counts (keys t) = zlen xs
}.

Lemma Counted_init h : Counted h no_keys [].
Proof. split; [apply no_keys_ok|done|constructor|done]. Qed.

Lemma Counted_pos h t xs : Counted h t xs -> Forall (fun kr => 1 <= kcount kr) (keys t).
Proof. intros [_ _ Ho _]. eapply Forall_impl; [exact Ho|]. simpl. tauto. Qed.

Lemma counts_length ks : Forall (fun kr => 1 <= kcount kr) ks -> zlen ks <= counts ks.
Proof. induction 1; unfold counts, sumz, zlen in *; simpl; lia. Qed.

(** There are at most as many keys as values. *)
Lemma Counted_len h t xs : Counted h t xs -> nkeys t <= zlen xs.
Proof. intros Hct. rewrite <- (cnt_sum _ _ _ Hct). apply counts_length. by eapply Counted_pos. Qed.

Lemma Counted_add h t xs x low : Counted h t xs -> Counted h (add_key h t (mkKR x 1 low)) (xs ++ [x]).
Proof.
  intros [Hh Hf Ho Hs]. split.
  - by apply hash_ok_append.
  - unfold nkeys. simpl. rewrite zlen_app. intros y Hy. apply in_app_or in Hy as [Hy|[<-|[]]].
    + destruct (Hf y Hy) as (k & Hk' & Hky). exists k. unfold nkeys in Hk'. rewrite znth_app_l by lia.
      split; [unfold zlen in *; simpl in *; lia|done].
    + exists (zlen (keys t)). rewrite znth_app_r, Z.sub_diag by lia. split; [|done].
      unfold zlen; simpl; lia.
  - simpl. apply Forall_app. split.
    + eapply Forall_impl; [exact Ho|]. simpl. intros kr [Hin Hc]. split; [apply in_or_app; by left|done].
    + constructor; [|done]. simpl. split; [apply in_or_app; right; by left|lia].
  - unfold counts in *. simpl. rewrite map_app, sumz_app, zlen_app. simpl. unfold zlen in *. simpl in *.
    unfold sumz in *. simpl. lia.
Qed.

Lemma Counted_count h t xs k :
  Counted h t xs -> 0 <= k < nkeys t -> zlen xs < 2 ^ 32 - 1 ->
  Counted h (count_key t k 1) (xs ++ [kkey (keys t).[kr0|k]]).
Proof.
  intros Hct Hk0 Hlen. pose proof (Counted_pos _ _ _ Hct) as Ho1. destruct Hct as [Hh Hf Ho Hs].
  pose proof (counts_le (keys t) k Ho1 Hk0) as Hc. unfold count_key.
  rewrite wrap_id by (unfold is_word; lia). set (kr := (keys t).[kr0|k]) in *.
  assert (forall i, kkey (keys t).[k <- mkKR (kkey kr) (kcount kr + 1) (klow kr)].[kr0|i] = kkey (keys t).[kr0|i]) as Hsame.
  { intros i. rewrite znth_zupd by done. case_cmp; [by subst i|done]. }
  split; unfold nkeys in *; simpl; rewrite ?zlen_zupd.
  - apply hash_ok_recount; [done|by rewrite zlen_zupd|]. intros i _. apply Hsame.
  - intros y Hy. apply in_app_or in Hy as [Hy|[<-|[]]].
    + destruct (Hf y Hy) as (i & Hi & Hiy). exists i. rewrite Hsame. done.
    + exists k. rewrite Hsame. done.
  - apply zupd_Forall.
    + eapply Forall_impl; [exact Ho|]. simpl. intros kr' [Hin Hc']. split; [apply in_or_app; by left|done].
    + simpl. split; [|lia]. apply in_or_app. right. by left.
  - rewrite counts_upd by done. simpl. fold kr. rewrite zlen_app. change (zlen [kkey kr]) with 1. lia.
Qed.

Lemma map_znth_range {A : Type} (d : A) (l : list A) : map (fun i => l.[d|i]) (range 0 (zlen l - 1)) = l.
Proof.
  apply (znth_ext d).
  - unfold zlen. rewrite length_map. unfold range. rewrite length_seqZ. unfold zlen. lia.
  - intros i Hi. assert (zlen l = zlen (map (fun i => l.[d|i]) (range 0 (zlen l - 1)))) as Hlen.
    { unfold zlen. rewrite length_map. unfold range. rewrite length_seqZ. unfold zlen. lia. }
    unfold znth at 1. destruct (Z.ltb_spec i 0); [lia|]. rewrite nth_lookup, list_lookup_fmap.
    unfold range. rewrite lookup_seqZ_lt by lia. simpl. f_equal. lia.
Qed.


Lemma counts_range ks : sumz (map (fun i => kcount ks.[kr0|i]) (range 0 (zlen ks - 1))) = counts ks.
Proof. unfold counts. rewrite <- (map_znth_range kr0 ks) at 2. by rewrite map_map. Qed.

(** Some of the numbers add up to no more than all of them. *)
Lemma sumz_submseteq {A : Type} (c : A -> Z) l1 l2 :
  l1 ⊆+ l2 -> Forall (fun k => 0 <= c k) l2 -> sumz (map c l1) <= sumz (map c l2).
Proof.
  intros (k & Hk)%submseteq_Permutation Hc. rewrite Hk in Hc. apply Forall_app in Hc as [_ Hc].
  rewrite (sumz_perm (map c l2) (map c (l1 ++ k))) by (by apply Permutation_map). rewrite map_app, sumz_app.
  pose proof (sumz_nonneg (map c k)) as H. rewrite Forall_map in H. specialize (H Hc). lia.
Qed.
