(* ===== verification/CprsDict.v ===== *)
(** * Dictionaries of the numeric compressor (compress/Dictionary.h, compress/Dictionary.cpp)

    A dictionary counts keys of a type of [w] bits and codes them with ranges that add up to
    a power of two.  The keys are in a chained hash table; [order] is the array of pointers to
    them that is sorted by count. *)

From S2P Require Import Prelude CprsBase QSort RangeCoder HashChain.

Record Dict := mkDict {
  dtab :> HashTab; order : list Z; cnt2val : list Z; tot_shift : Z; compress : bool; decompress : bool }.

Section OneType.
Context (w : Z).

Definition MAXTOTAL : Z := MAX_TOTAL.
Definition MAXKEYS : Z := if w =? 8 then 256 else if w =? 16 then 1024 else 4096.
Definition hash (key : Z) : Z := if w =? 8 then key else key mod 2 ^ 16.

Definition set_tab (t : Dict) (ht : HashTab) : Dict :=
  mkDict ht (order t) (cnt2val t) (tot_shift t) (compress t) (decompress t).

Definition InitInsert (t : Dict) : Dict := mkDict no_keys (order t) (cnt2val t) (tot_shift t) false false.

(** [false] when there are too many keys. *)
Definition Insert (t : Dict) (key count : Z) : option (Dict * bool) :=
  k ← find_key hash t key;
  if k <? 0 then
    if MAXKEYS <=? nkeys t then Some (t, false)
    else Some (set_tab t (add_key hash t (mkKR key count 0)), true)
  else Some (set_tab t (count_key t k count), true).

(** Descending counts. *)
Definition compare (ks : list KeyRange) (p1 p2 : Z) : Z :=
  let c1 := kcount ks.[kr0|p1] in
  let c2 := kcount ks.[kr0|p2] in
  if c1 <? c2 then 1 else if c2 <? c1 then -1 else 0.

(** One round of the loop that corrects the counts and sets the lows. *)
Definition lows_step (ord : list Z) (st : list KeyRange * Z * Z) (i : Z) : list KeyRange * Z * Z :=
  let '(ks, rest, high) := st in
  let d := rest / (i + 1) in
  let k := ord.[0|i] in
  let kr := ks.[kr0|k] in
  let c := wrap32 (kcount kr + d) in
  let high := wrap32 (high - c) in
  (ks.[k <- mkKR (kkey kr) c high], rest - d, high).

Definition SetLows (t : Dict) : res Dict :=
  let n := nkeys t in
  let sumcnt := foldl (fun s i => wrap32 (s + kcount (keys t).[kr0|i])) 0 (range 0 (n - 1)) in
  match qsort_ib 0 8 (compare (keys t)) (range 0 (n - 1)) n with
  | None => Undef
  | Some ord =>
      if MAXTOTAL <? sumcnt then Undef
      else
        let shift := GetBitLen (wrap32 (sumcnt - 1)) in
        if negb ((0 <? sumcnt) && (sumcnt <=? shl 32 1 shift)) then Undef
        else
          let high := shl 32 1 shift in
          let '(ks, _, high) := foldl (lows_step ord) (keys t, high - sumcnt, high) (rev (range 0 (n - 1))) in
          if negb (high =? 0) then Undef
          else Ok (mkDict (set_keys t ks) ord (cnt2val t) shift true (decompress t))
  end.

(** ** Coding *)

(** The loop of [Save]; [prevc] bounds the next count. *)
Fixpoint save_keys (ks : list KeyRange) (ord : list Z) (maxkey bitmax prevc : Z) : coder unit :=
  match ord with
  | [] => mret tt
  | k :: r =>
      let kr := ks.[kr0|k] in
      let c := wrap32 (kcount kr - 1) in
      _ ← EncodeUniform_bit (kkey kr) maxkey bitmax;
      _ ← EncodeUniform c prevc;
      save_keys ks r maxkey bitmax c
  end.

Definition Save (t : Dict) (maxkey : Z) : coder unit :=
  if negb (compress t) then undef
  else
    _ ← EncodeUniform (nkeys t) MAXKEYS;
    save_keys (keys t) (order t) maxkey (GetBitLen maxkey) (MAXTOTAL - 1).

(** The loop of [Load]: [cv] is the part of [cnt2val] filled so far, of length [total]. *)
Fixpoint load_keys (n : nat) (i maxkey bitmax prevc : Z) (ks : list KeyRange) (cv : list Z) :
    coder (list KeyRange * list Z) :=
  match n with
  | O => mret (ks, cv)
  | S n' =>
      key ← DecodeUniform_bit w maxkey bitmax;
      c ← DecodeUniform 32 prevc;
      let total := zlen cv in
      if MAXTOTAL <? total + (c + 1) then throw CPRS_ERR_COR
      else load_keys n' (i + 1) maxkey bitmax c
             (ks ++ [mkKR key (c + 1) total]) (cv ++ replicate (Z.to_nat (c + 1)) i)
  end.

Definition Load (t : Dict) (maxkey : Z) : coder Dict :=
  n ← DecodeUniform 16 MAXKEYS;
  '(ks, cv) ← load_keys (Z.to_nat n) 0 maxkey (GetBitLen maxkey) (MAXTOTAL - 1) [] [];
  let total := zlen cv in
  let shift := GetBitLen (wrap32 (total - 1)) in
  if negb ((total <=? MAXTOTAL) && (0 <? total) && (total <=? shl 32 1 shift)) then undef
  else mret (mkDict (set_keys t ks) (order t) cv shift false true).

(** A key outside the dictionary would be read at index -1. *)
Definition Dict_Encode (t : Dict) (key : Z) : coder unit :=
  match find_key hash t key with
  | Some k =>
      if k <? 0 then undef
      else let kr := (keys t).[kr0|k] in EncodeShift (klow kr) (kcount kr) (tot_shift t)
  | None => undef
  end.

Definition Dict_Decode (t : Dict) : coder Z :=
  count ← GetCountShift (tot_shift t);
  if negb (in_array (cnt2val t) count) then undef
  else
    let kr := (keys t).[kr0|(cnt2val t).[0|count]] in
    _ ← DecodeShift (klow kr) (kcount kr) (tot_shift t);
    mret (kkey kr).
End OneType.

(** The dictionary after the values [xs] were inserted. *)
Definition Inserted (w : Z) (t : Dict) (xs : list Z) : Prop := Counted (hash w) t xs /\ nkeys t <= MAXKEYS w.

Lemma Inserted_init w t : 0 <= w -> Inserted w (InitInsert t) [].
Proof.
  intros. split; [apply Counted_init|]. unfold nkeys, MAXKEYS. simpl. unfold zlen. simpl. case_cmp; lia.
Qed.

Lemma Insert_spec w t xs x :
  Inserted w t xs -> zlen xs < 2 ^ 32 - 1 ->
  exists t' b, Insert w t x 1 = Some (t', b) /\ (b = true -> Inserted w t' (xs ++ [x])) /\
    order t' = order t /\ cnt2val t' = cnt2val t.
Proof.
  intros [Hct Hm] Hlen. destruct (find_key_spec (hash w) t x) as (k & Hk & Hcase); [apply Hct|]. unfold Insert.
  rewrite Hk. simpl. destruct Hcase as [[-> Hno]|[Hk0 Hkey]]; simpl.
  - destruct (Z.leb_spec (MAXKEYS w) (nkeys t)); [by exists t, false|].
    eexists _, true. split; [done|]. split; [|done]. intros _. split; [by apply Counted_add|].
    unfold nkeys in *. simpl. rewrite zlen_app. unfold zlen in *. simpl in *. lia.
  - destruct (Z.ltb_spec k 0); [lia|]. eexists _, true. split; [done|]. split; [|done]. intros _.
    split; [rewrite <- Hkey; by apply Counted_count|]. unfold nkeys in *. simpl. by rewrite zlen_zupd.
Qed.

(** ** Ranges *)

(** Consecutive ranges from [l] up to [top]; counts that do not grow. *)
Fixpoint lows_from (l : Z) (es : list KeyRange) (top : Z) : Prop :=
  match es with
  | [] => l = top
  | e :: r => klow e = l /\ 1 <= kcount e /\ lows_from (l + kcount e) r top
  end.

Fixpoint desc_from (prev : Z) (es : list KeyRange) : Prop :=
  match es with
  | [] => True
  | e :: r => kcount e <= prev /\ desc_from (kcount e) r
  end.

Section Lows.
Context (ks0 : list KeyRange) (ord : list Z) (top : Z).
Let n := zlen ks0.
Let c0 (m : Z) : Z := kcount ks0.[kr0|ord.[0|m]].
Let psum (i : Z) : Z := sumz (map c0 (range 0 (i - 1))).

Hypothesis Hperm : ord ≡ₚ range 0 (n - 1).
Hypothesis Hdesc : forall i j, 0 <= i <= j -> j < n -> c0 j <= c0 i.
Hypothesis Hpos : Forall (fun kr => 1 <= kcount kr) ks0.
Hypothesis Htop : counts ks0 <= top <= 2 ^ 16.
Hypothesis Hn : 0 < n.

Lemma ord_len : zlen ord = n.
Proof.
  unfold zlen. rewrite Hperm. unfold range. rewrite length_seqZ. unfold n, zlen. lia.
Qed.

Lemma ord_in m : 0 <= m < n -> 0 <= ord.[0|m] < n.
Proof.
  intros Hm. assert (In ord.[0|m] ord) as Hin.
  { apply list_elem_of_In. apply (list_elem_of_lookup_2 _ (Z.to_nat m)). apply znth_lookup. rewrite ord_len. lia. }
  apply (Permutation_in _ Hperm), range_In in Hin. lia.
Qed.

Lemma ord_inj m m' : 0 <= m < n -> 0 <= m' < n -> ord.[0|m] = ord.[0|m'] -> m = m'.
Proof.
  intros Hm Hm' He. assert (NoDup ord) as Hnd.
  { rewrite Hperm. unfold range. apply NoDup_seqZ. }
  pose proof (znth_lookup 0 ord m ltac:(rewrite ord_len; lia)) as H1.
  pose proof (znth_lookup 0 ord m' ltac:(rewrite ord_len; lia)) as H2. rewrite He in H1.
  pose proof (NoDup_lookup _ _ _ _ Hnd H1 H2). lia.
Qed.

Lemma psum_all : psum n = counts ks0.
Proof.
  unfold psum, counts.
  transitivity (sumz (map kcount (map (fun i => ks0.[kr0|i]) (range 0 (n - 1)))));
    [|unfold n; by rewrite map_znth_range].
  transitivity (sumz (map kcount (map (fun i => ks0.[kr0|i]) (map (fun i => ord.[0|i]) (range 0 (n - 1)))))).
  - unfold c0. by rewrite !map_map.
  - rewrite <- ord_len at 1. rewrite map_znth_range. apply sumz_perm, Permutation_map, Permutation_map, Hperm.
Qed.

Lemma psum_step i : 0 <= i -> psum (i + 1) = psum i + c0 i.
Proof.
  intros Hi. unfold psum. replace (i + 1 - 1) with (i - 1 + 1) by lia.
  rewrite range_snoc, map_app, sumz_app by lia. replace (i - 1 + 1) with i by lia. unfold sumz. simpl. lia.
Qed.

Lemma c0_pos m : 0 <= m < n -> 1 <= c0 m <= counts ks0.
Proof. intros Hm. apply counts_le; [done|]. by apply ord_in. Qed.

Lemma psum_nonneg i : 0 <= i <= n -> 0 <= psum i.
Proof.
  intros Hi. unfold psum. apply sumz_nonneg, Forall_map, Forall_forall. intros m Hm.
  apply list_elem_of_In, range_In in Hm. pose proof (c0_pos m). lia.
Qed.

(** Positions above [i] have their final ranges. *)
Definition lows_inv (i : Z) (st : list KeyRange * Z * Z) : Prop :=
  let '(ks, rest, high) := st in
  let cnt m := kcount ks.[kr0|ord.[0|m]] in
  let lo m := klow ks.[kr0|ord.[0|m]] in
  zlen ks = n /\ (forall k, kkey ks.[kr0|k] = kkey ks0.[kr0|k]) /\
  (forall m, 0 <= m <= i -> ks.[kr0|ord.[0|m]] = ks0.[kr0|ord.[0|m]]) /\
  0 <= rest /\ high = psum (i + 1) + rest /\ high <= top /\ (i = -1 -> rest = 0) /\
  (forall m, i < m < n -> 1 <= cnt m /\ lo m + cnt m = if m =? n - 1 then top else lo (m + 1)) /\
  (if i =? n - 1 then high = top else lo (i + 1) = high) /\
  (forall m, i < m -> m + 1 < n -> cnt (m + 1) <= cnt m) /\
  (0 <= i < n - 1 -> cnt (i + 1) <= c0 (i + 1) + rest / (i + 1)).

Lemma lows_inv_step i st : 0 <= i <= n - 1 -> lows_inv i st -> lows_inv (i - 1) (lows_step ord st i).
Proof.
  intros Hi. destruct st as [[ks rest] high].
  intros (Hlen & Hkey & Hun & Hr0 & Hhigh & Hht & _ & Hrng & Hlo & Hds & Hq).
  pose proof (ord_in i ltac:(lia)) as Hk. pose proof (psum_step i ltac:(lia)) as Hps.
  pose proof (psum_nonneg i ltac:(lia)) as Hp0. pose proof (c0_pos i ltac:(lia)) as Hc0.
  unfold lows_step. rewrite (Hun i) by lia. fold (c0 i). set (d := rest / (i + 1)).
  assert (0 <= d /\ d * (i + 1) <= rest) as [Hd0 Hd1].
  { unfold d. split; [apply Z.div_pos; lia|]. pose proof (Z.mul_div_le rest (i + 1)). lia. }
  assert (d <= rest) as Hdr by nia.
  change (kcount ks0.[kr0|ord.[0|i]]) with (c0 i).
  rewrite (wrap_id 32 (c0 i + d)) by (unfold is_word; lia).
  rewrite (wrap_id 32 (high - (c0 i + d))) by (unfold is_word; lia).
  set (kr := mkKR _ _ _).
  assert (forall m, 0 <= m < n -> ks.[ord.[0|i] <- kr].[kr0|ord.[0|m]] = if m =? i then kr else ks.[kr0|ord.[0|m]]) as Hget.
  { intros m Hm. rewrite znth_zupd by lia. destruct (Z.eqb_spec m i) as [->|Hne]; [by rewrite Z.eqb_refl|].
    destruct (Z.eqb_spec ord.[0|m] ord.[0|i]) as [E|]; [|done]. apply ord_inj in E; lia. }
  unfold lows_inv. rewrite zlen_zupd. replace (i - 1 + 1) with i by lia.
  split; [done|]. split.
  { intros k. rewrite znth_zupd by lia. destruct (Z.eqb_spec k ord.[0|i]) as [->|]; [done|apply Hkey]. }
  split; [intros m Hm; rewrite Hget by lia; case_cmp; [lia|apply Hun; lia]|].
  split; [lia|]. split; [lia|]. split; [lia|]. split.
  { intros E. assert (i = 0) by lia. subst i. unfold d. rewrite Z.div_1_r. lia. }
  split; [|split; [|split]].
  - intros m Hm. rewrite Hget by lia. destruct (Z.eqb_spec m i) as [->|Hmi].
    + unfold kr. simpl. split; [lia|]. destruct (Z.eqb_spec i (n - 1)) as [E|E]; [lia|].
      rewrite Hget by lia. destruct (Z.eqb_spec (i + 1) i); [lia|]. lia.
    + destruct (Hrng m ltac:(lia)) as [H1 H2]. split; [done|]. rewrite H2.
      destruct (Z.eqb_spec m (n - 1)); [done|]. rewrite Hget by lia. by destruct (Z.eqb_spec (m + 1) i); [lia|].
  - destruct (Z.eqb_spec (i - 1) (n - 1)); [lia|]. rewrite Hget by lia. by rewrite Z.eqb_refl.
  - intros m Hm Hm'. rewrite !Hget by lia. destruct (Z.eqb_spec (m + 1) i); [lia|].
    destruct (Z.eqb_spec m i) as [->|]; [|apply Hds; lia].
    unfold kr. simpl. specialize (Hq ltac:(lia)). specialize (Hdesc i (i + 1) ltac:(lia) ltac:(lia)). fold d in Hq. lia.
  - intros Hi'. rewrite Hget by lia. rewrite Z.eqb_refl. unfold kr. simpl.
    enough (d <= (rest - d) / i) by lia. apply Z.div_le_lower_bound; nia.
Qed.

Lemma ranges_lows ks :
  (forall m, 0 <= m < n -> 1 <= kcount ks.[kr0|ord.[0|m]] /\
     klow ks.[kr0|ord.[0|m]] + kcount ks.[kr0|ord.[0|m]]
     = if m =? n - 1 then top else klow ks.[kr0|ord.[0|m + 1]]) ->
  (forall m, 0 <= m -> m + 1 < n -> kcount ks.[kr0|ord.[0|m + 1]] <= kcount ks.[kr0|ord.[0|m]]) ->
  lows_from (klow ks.[kr0|ord.[0|0]]) (map (fun k => ks.[kr0|k]) ord) top /\
  desc_from (kcount ks.[kr0|ord.[0|0]]) (map (fun k => ks.[kr0|k]) ord).
Proof.
  intros Hr Hd.
  assert (map (fun k => ks.[kr0|k]) ord = map (fun m => ks.[kr0|ord.[0|m]]) (range 0 (n - 1))) as ->.
  { rewrite <- ord_len, <- (map_map (fun m => ord.[0|m]) (fun k => ks.[kr0|k])). by rewrite map_znth_range. }
  assert (forall a, 0 <= a <= n ->
    lows_from (if a =? n then top else klow ks.[kr0|ord.[0|a]]) (map (fun m => ks.[kr0|ord.[0|m]]) (range a (n - 1))) top /\
    desc_from (if a =? n then 0 else kcount ks.[kr0|ord.[0|a]]) (map (fun m => ks.[kr0|ord.[0|m]]) (range a (n - 1)))) as H.
  { apply (range_ind (fun l a => 0 <= a <= n ->
      lows_from (if a =? n then top else klow ks.[kr0|ord.[0|a]]) (map (fun m => ks.[kr0|ord.[0|m]]) l) top /\
      desc_from (if a =? n then 0 else kcount ks.[kr0|ord.[0|a]]) (map (fun m => ks.[kr0|ord.[0|m]]) l)) (n - 1)).
    - intros a Ha Ha'. simpl. by destruct (Z.eqb_spec a n); [|lia].
    - intros a Ha IH Ha'. destruct (Z.eqb_spec a n); [lia|]. simpl.
      destruct (Hr a ltac:(lia)) as [Hc Hl]. destruct (IH ltac:(lia)) as [IH1 IH2]. split.
      + split; [done|]. split; [done|]. rewrite Hl.
        destruct (Z.eqb_spec (a + 1) n), (Z.eqb_spec a (n - 1)); (done || lia).
      + split; [lia|]. destruct (Z.eqb_spec (a + 1) n) as [E|].
        * rewrite range_nil by lia. exact I.
        * specialize (Hd a ltac:(lia) ltac:(lia)). rewrite range_cons in * by lia. simpl in *. split; [lia|tauto]. }
  specialize (H 0 ltac:(lia)). destruct (Z.eqb_spec 0 n); [lia|]. done.
Qed.

(** The loop gives consecutive ranges that fill [top] exactly. *)
Lemma lows_loop :
  exists ks, foldl (lows_step ord) (ks0, top - counts ks0, top) (rev (range 0 (n - 1))) = (ks, 0, 0) /\
    zlen ks = n /\ (forall k, kkey ks.[kr0|k] = kkey ks0.[kr0|k]) /\
    lows_from 0 (map (fun k => ks.[kr0|k]) ord) top /\
    desc_from (kcount ks.[kr0|ord.[0|0]]) (map (fun k => ks.[kr0|k]) ord).
Proof.
  assert (lows_inv (0 - 1) (foldl (lows_step ord) (ks0, top - counts ks0, top) (rev (range 0 (n - 1))))) as H.
  { apply foldl_rev_range; [lia| |intros i st Hi; by apply lows_inv_step].
    unfold lows_inv. rewrite Z.eqb_refl. replace (n - 1 + 1) with n by lia. rewrite psum_all.
    split; [done|]. split; [done|]. split; [done|]. split; [lia|]. split; [lia|]. split; [lia|].
    split; [lia|]. split; [lia|]. split; [done|]. split; [lia|]. lia. }
  destruct (foldl _ _ _) as [[ks rest] high].
  destruct H as (Hlen & Hkey & _ & _ & Hhigh & _ & Hrest & Hr & Hlo & Hd & _).
  specialize (Hrest eq_refl). subst rest. destruct (Z.eqb_spec (0 - 1) (n - 1)); [lia|].
  change (psum (0 - 1 + 1)) with 0 in Hhigh. change (0 - 1 + 1) with 0 in Hlo. exists ks.
  destruct (ranges_lows ks) as [H1 H2]; [intros; apply Hr; lia|intros; apply Hd; lia|].
  rewrite Hlo, Hhigh in H1. rewrite Hhigh. done.
Qed.
End Lows.

(** The dictionary ready for encoding the values [xs]: [es] lists its keys by falling counts. *)
Record Coding (w : Z) (t : Dict) (es : list KeyRange) (xs : list Z) : Prop := {
  cod_hash : hash_ok (hash w) t;
  cod_compress : compress t = true;
  cod_order : es = map (fun k => (keys t).[kr0|k]) (order t) /\ order t ≡ₚ range 0 (nkeys t - 1);
  cod_found : forall x, In x xs -> exists k, 0 <= k < nkeys t /\ kkey (keys t).[kr0|k] = x;
  cod_only : Forall (fun e => In (kkey e) xs) es;
  cod_lows : lows_from 0 es (2 ^ tot_shift t);
  cod_desc : desc_from (2 ^ tot_shift t) es;
  cod_shift : 0 <= tot_shift t <= 16;
  cod_max : 0 < nkeys t <= MAXKEYS w
}.

#[export] Instance compare_comparator ks : Comparator (compare ks).
Proof.
  split; unfold compare.
  - intros x y. case_cmp; lia.
  - intros x y z. case_cmp; lia.
Qed.

Lemma fold_counts ks :
  Forall (fun kr => 1 <= kcount kr) ks -> counts ks < 2 ^ 32 ->
  foldl (fun s i => wrap32 (s + kcount ks.[kr0|i])) 0 (range 0 (zlen ks - 1)) = counts ks.
Proof.
  intros Hpos Hs. set (f := fun i => kcount ks.[kr0|i]).
  assert (forall l, Forall (fun i => 0 <= f i) l -> forall s, 0 <= s -> s + sumz (map f l) < 2 ^ 32 ->
    foldl (fun s i => wrap32 (s + f i)) s l = s + sumz (map f l)) as H.
  { induction l as [|i l IH]; intros Hl s Hs0 Hb; simpl; [unfold sumz; simpl; lia|].
    inversion Hl as [|? ? Hi Hl']; subst. pose proof (sumz_nonneg (map f l)) as Hnn. rewrite Forall_map in Hnn.
    specialize (Hnn Hl'). unfold sumz in *. simpl in *.
    rewrite wrap_id by (unfold is_word; lia). rewrite IH; [lia|done|lia|lia]. }
  pose proof (counts_range ks : sumz (map f _) = _) as Hf.
  rewrite H, Hf; [lia| |lia|lia].
  apply Forall_forall. intros i Hi. apply list_elem_of_In, range_In in Hi.
  pose proof (counts_le ks i Hpos). unfold f. lia.
Qed.

Lemma lows_from_total l es top : lows_from l es top -> l + counts es = top /\ Forall (fun e => 1 <= kcount e) es.
Proof.
  revert l. induction es as [|e es IH]; intros l; unfold counts, sumz in *; simpl; [intros; split; [lia|done]|].
  intros (_ & Hc & Hr). apply IH in Hr as [Hr Hf]. split; [lia|by constructor].
Qed.

Lemma SetLows_spec w t xs :
  Inserted w t xs -> 0 < zlen xs <= MAXTOTAL ->
  exists t' es, SetLows t = Ok t' /\ Coding w t' es xs /\ keys t' ≡ₚ es.
Proof.
  intros [[Hh Hf Ho Hs] Hm] Hlen. unfold MAXTOTAL, MAX_TOTAL, BOT in Hlen.
  assert (Forall (fun kr => 1 <= kcount kr) (keys t)) as Hpos by (eapply Forall_impl; [exact Ho|]; tauto).
  assert (0 < nkeys t) as Hn.
  { destruct xs as [|x xs]; [unfold zlen in Hlen; simpl in Hlen; lia|].
    destruct (Hf x) as (k & Hk & _); [by left|]. lia. }
  pose proof (fold_counts (keys t) Hpos ltac:(lia)) as Hfc. fold (nkeys t) in Hfc.
  unfold SetLows. rewrite Hfc, Hs.
  assert (zlen (range 0 (nkeys t - 1)) = nkeys t) as Hrl.
  { unfold zlen, range. rewrite length_seqZ. lia. }
  assert (MAXKEYS w <= 4096) as HM by (unfold MAXKEYS; case_cmp; lia).
  destruct (qsort_ib_spec 0 8 (compare (keys t)) (nkeys t) ltac:(unfold sizes_fit, PIVOT_SIZE; lia)
    (range 0 (nkeys t - 1))) as (ord & -> & _ & Hperm & Hsort & _); [lia|lia|].
  destruct (Z.ltb_spec MAXTOTAL (zlen xs)) as [Hgt|_]; [unfold MAXTOTAL, MAX_TOTAL, BOT in Hgt; lia|].
  rewrite wrap_id by (unfold is_word; lia). set (sh := GetBitLen (zlen xs - 1)).
  assert (0 <= sh <= 16) as Hsh.
  { split; [apply GetBitLen_bounds; lia|]. apply GetBitLen_le; lia. }
  pose proof (Z.pow_le_mono_r 2 sh 16 ltac:(lia) ltac:(lia)) as Hp16.
  pose proof (pow2_above (zlen xs) ltac:(lia)) as Habove. fold sh in Habove.
  rewrite (shl_1 32 sh) by lia.
  destruct (Z.ltb_spec 0 (zlen xs)); [|lia]. destruct (Z.leb_spec (zlen xs) (2 ^ sh)); [|lia]. simpl.
  destruct (lows_loop (keys t) ord (2 ^ sh)) as (ks & Hfold & Hl & Hk & Hlows & Hdesc); try done; [|lia|].
  { intros i j Hi Hj. specialize (Hsort i j ltac:(lia) ltac:(unfold nkeys; lia)). unfold compare in Hsort.
    revert Hsort. case_cmp; lia. }
  rewrite Hs in Hfold. fold (nkeys t) in Hfold. rewrite Hfold. simpl.
  set (es := map (fun k => ks.[kr0|k]) ord) in *.
  assert (ks ≡ₚ es) as Hes.
  { unfold es. rewrite Hperm, <- (map_znth_range kr0 ks) at 1. rewrite Hl. reflexivity. }
  destruct (lows_from_total _ _ _ Hlows) as [Htot Hes1].
  eexists _, es. split; [done|]. split; [|exact Hes]. split; simpl.
  - by apply hash_ok_recount.
  - done.
  - unfold nkeys. simpl. rewrite Hl. done.
  - unfold nkeys. simpl. rewrite Hl. intros x Hx. destruct (Hf x Hx) as (k & Hk' & Hkx). exists k. rewrite Hk. done.
  - apply Forall_forall. intros e He. rewrite <- Hes in He. apply list_elem_of_lookup in He as (i & Hi).
    assert (0 <= Z.of_nat i < nkeys t) as Hi'.
    { apply lookup_lt_Some in Hi. unfold zlen in Hl. unfold nkeys, zlen. lia. }
    assert (e = ks.[kr0|Z.of_nat i]) as ->.
    { rewrite (znth_lookup_Some kr0 ks i e Hi). done. }
    rewrite Hk. pose proof (znth_Forall _ kr0 (keys t) (Z.of_nat i) Ho Hi') as [Hin _]. exact Hin.
  - done.
  - destruct es as [|e es']; [done|]. simpl in *. split; [|tauto].
    destruct Hlows as (_ & _ & Hr). destruct (lows_from_total _ _ _ Hr) as [Ht Hp].
    assert (0 <= counts es'); [|lia]. apply sumz_nonneg, Forall_map. eapply Forall_impl; [exact Hp|]. simpl. lia.
  - done.
  - unfold nkeys. simpl. rewrite Hl. done.
Qed.

(** ** The dictionary in the stream *)

(** The table from counts to keys that [Load] fills. *)
Fixpoint expand (i : Z) (es : list KeyRange) : list Z :=
  match es with
  | [] => []
  | e :: r => replicate (Z.to_nat (kcount e)) i ++ expand (i + 1) r
  end.

Definition loaded (t : Dict) (es : list KeyRange) (shift : Z) : Dict :=
  mkDict (set_keys t es) (order t) (expand 0 es) shift false true.

Lemma zlen_expand i es l top : lows_from l es top -> zlen (expand i es) = top - l.
Proof.
  revert i l. induction es as [|e es IH]; intros i l; simpl; [intros ->; unfold zlen; simpl; lia|].
  intros (_ & Hc & Hr). rewrite zlen_app, zlen_replicate, (IH (i + 1) _ Hr) by lia. lia.
Qed.

(** A count of a key's range leads back to the key. *)
Lemma expand_lookup es : forall i l top m e c,
  lows_from l es top -> es !! m = Some e -> klow e <= c < klow e + kcount e ->
  (expand i es).[0|c - l] = i + Z.of_nat m /\ l <= c < top.
Proof.
  induction es as [|e0 es IH]; intros i l top m e c; [done|]. intros Hl Hm Hc.
  pose proof (zlen_expand i _ _ _ Hl) as Hlen. destruct Hl as (Hlow & Hc1 & Hr). simpl.
  destruct (lows_from_total _ _ _ Hr) as [Ht Hp].
  assert (0 <= counts es) by (apply sumz_nonneg, Forall_map; eapply Forall_impl; [exact Hp|]; simpl; lia).
  destruct m as [|m].
  - injection Hm as <-. rewrite znth_app_l by (rewrite zlen_replicate; lia).
    rewrite znth_replicate by lia. lia.
  - simpl in Hm. destruct (IH (i + 1) (l + kcount e0) top m e c Hr Hm Hc) as [IH1 IH2].
    rewrite znth_app_r by (rewrite zlen_replicate; lia). rewrite zlen_replicate by lia.
    replace (c - l - kcount e0) with (c - (l + kcount e0)) by lia. rewrite IH1. lia.
Qed.

Section Coding.
Context (w : Z).
Hypothesis Hw : 0 <= w.

Lemma codes_save_keys ks maxkey bitmax top ord : forall i prevc acc cv,
  let es := map (fun k => ks.[kr0|k]) ord in
  lows_from (zlen cv) es top -> top <= MAXTOTAL -> desc_from (prevc + 1) es -> prevc < 2 ^ 32 ->
  Forall (fun e => 0 <= kkey e <= maxkey) es -> maxkey < 2 ^ w -> maxkey < 2 ^ bitmax ->
  codes (save_keys ks ord maxkey bitmax prevc)
        (load_keys w (length ord) i maxkey bitmax prevc acc cv) tt (acc ++ es, cv ++ expand i es).
Proof.
  induction ord as [|k ord IH]; intros i prevc acc cv es Hl Ht Hd Hp Hk Hm Hb; simpl.
  - rewrite !app_nil_r. apply codes_ret.
  - simpl in *. destruct Hl as (Hlow & Hc1 & Hr). destruct Hd as (Hle & Hd). inversion Hk as [|? ? Hk0 Hk']; subst.
    destruct (lows_from_total _ _ _ Hr) as [Htot Hpos].
    assert (0 <= counts (map (fun k => ks.[kr0|k]) ord)) as Hnn
      by (apply sumz_nonneg, Forall_map; eapply Forall_impl; [exact Hpos|]; simpl; lia).
    set (kr := ks.[kr0|k]) in *. pose proof (zlen_nonneg cv). unfold MAXTOTAL, MAX_TOTAL, BOT in Ht.
    rewrite wrap_id by (unfold is_word; lia).
    eapply codes_bind; [by apply codes_EncodeUniform_bit|].
    eapply codes_bind; [apply (codes_EncodeUniform 32); lia|].
    replace (kcount kr - 1 + 1) with (kcount kr) by lia.
    destruct (Z.ltb_spec MAXTOTAL (zlen cv + kcount kr)) as [Hgt|_]; [unfold MAXTOTAL, MAX_TOTAL, BOT in Hgt; lia|].
    assert (mkKR (kkey kr) (kcount kr) (zlen cv) = kr) as -> by (rewrite <- Hlow; by destruct kr).
    specialize (IH (i + 1) (kcount kr - 1) (acc ++ [kr]) (cv ++ replicate (Z.to_nat (kcount kr)) i)).
    rewrite <- !app_assoc in IH. apply IH; try done.
    + rewrite zlen_app, zlen_replicate by lia. done.
    + by replace (kcount kr - 1 + 1) with (kcount kr) by lia.
    + lia.
Qed.

Lemma codes_Save t0 t es xs maxkey :
  Coding w t es xs -> Forall (fun x => 0 <= x <= maxkey) xs -> maxkey < 2 ^ w ->
  codes (Save w t maxkey) (Load w t0 maxkey) tt (loaded t0 es (tot_shift t)).
Proof.
  intros [Hh Hc [Hes Hperm] Hf Ho Hl Hd Hs Hm] Hx Hmk. unfold Save, Load. rewrite Hc. simpl.
  assert (MAXKEYS w <= 4096) as HM by (unfold MAXKEYS; case_cmp; lia).
  pose proof (Z.pow_le_mono_r 2 (tot_shift t) 16 ltac:(lia) ltac:(lia)) as H16.
  pose proof (Z.pow_pos_nonneg 2 (tot_shift t) ltac:(lia) ltac:(lia)) as Hpp.
  assert (maxkey < 2 ^ GetBitLen maxkey) as Hbit.
  { destruct xs as [|x xs]; [|apply GetBitLen_bounds; inversion Hx; lia].
    destruct es as [|e es]; [simpl in Hl; lia|]. inversion Ho; subst. done. }
  assert (length (order t) = Z.to_nat (nkeys t)) as Hlen.
  { rewrite Hperm. unfold range. rewrite length_seqZ. lia. }
  assert (Forall (fun e => 0 <= kkey e <= maxkey) es) as Hkeys.
  { eapply Forall_impl; [exact Ho|]. simpl. intros e He. rewrite Forall_forall in Hx.
    apply Hx. by apply list_elem_of_In. }
  eapply codes_bind; [apply codes_EncodeUniform; lia|].
  eapply codes_map.
  - rewrite <- Hlen. pose proof (codes_save_keys (keys t) maxkey (GetBitLen maxkey) (2 ^ tot_shift t) (order t)
      0 (MAXTOTAL - 1) [] []) as H. cbv zeta in H. rewrite <- Hes in H. simpl in H. apply H; try done.
    replace (MAXTOTAL - 1 + 1) with (2 ^ 16) by done. clear - Hd H16.
    destruct es as [|e es]; [done|]. simpl in *. split; [lia|tauto].
  - cbv beta iota zeta. rewrite (zlen_expand 0 es 0 _ Hl), Z.sub_0_r. unfold MAXTOTAL, MAX_TOTAL, BOT.
    rewrite wrap_id by (unfold is_word; lia).
    rewrite GetBitLen_ones, shl_1 by lia.
    destruct (Z.leb_spec (2 ^ tot_shift t) (2 ^ 16)); [|lia]. destruct (Z.ltb_spec 0 (2 ^ tot_shift t)); [|lia].
    rewrite Z.leb_refl. done.
Qed.

(** Every counted value is coded and read back. *)
Lemma codes_Dict t0 t es xs x :
  Coding w t es xs -> In x xs ->
  codes (Dict_Encode w t x) (Dict_Decode (loaded t0 es (tot_shift t))) tt x.
Proof.
  intros [Hh Hc [Hes Hperm] Hf Ho Hl Hd Hs Hm] Hx. unfold Dict_Encode, Dict_Decode.
  destruct (find_key_spec (hash w) t x Hh) as (k & -> & Hcase).
  destruct Hcase as [[-> Hno]|[Hk Hkey]]; [destruct (Hf x Hx) as (k & Hk & Hkey); by apply Hno in Hkey|].
  destruct (Z.ltb_spec k 0); [lia|]. set (kr := (keys t).[kr0|k]) in *.
  assert (exists m, es !! m = Some kr) as (m & Hm').
  { assert (In k (order t)) as Hin by (apply (Permutation_in _ (Permutation_sym Hperm)), range_In; lia).
    apply list_elem_of_In, list_elem_of_lookup in Hin as (m & Hm'). exists m.
    rewrite Hes, list_lookup_fmap, Hm'. done. }
  pose proof (expand_lookup es 0 0 (2 ^ tot_shift t) m kr) as Hexp.
  destruct (lows_from_total _ _ _ Hl) as [_ Hpos].
  pose proof (Forall_lookup_1 _ _ _ _ Hpos Hm') as Hc1. simpl in Hc1.
  destruct (Hexp (klow kr) Hl Hm' ltac:(lia)) as [_ Hb1].
  destruct (Hexp (klow kr + kcount kr - 1) Hl Hm' ltac:(lia)) as [_ Hb2].
  apply codes_last. apply (codes_EncodeShift _ _ _ _ _ (mret x)); [lia|lia|lia|lia| |apply codes_ret].
  intros c s Hcr. simpl. destruct (Hexp c Hl Hm' Hcr) as [Hcv Hb]. rewrite Z.sub_0_r in Hcv.
  rewrite in_array_true by (rewrite (zlen_expand 0 es 0 _ Hl); lia). cbn [negb].
  rewrite Hcv, Z.add_0_l, (znth_lookup_Some kr0 es m kr Hm'), Hkey. done.
Qed.

Lemma defined_save_keys ks ord maxkey bitmax : forall prevc,
  0 <= maxkey < 2 ^ bitmax -> 0 <= prevc -> defined (save_keys ks ord maxkey bitmax prevc).
Proof.
  induction ord as [|k ord IH]; intros prevc Hm Hp; simpl; [apply defined_ret|].
  apply defined_bind; [by apply defined_EncodeUniform_bit|]. intros _.
  apply defined_bind; [by apply defined_EncodeUniform|]. intros _. apply IH; [done|]. apply (wrap_word 32). lia.
Qed.

Lemma defined_Save t es xs maxkey : Coding w t es xs -> 0 <= maxkey -> defined (Save w t maxkey).
Proof.
  intros Hc Hm. unfold Save. rewrite (cod_compress _ _ _ _ Hc). simpl.
  apply defined_bind; [apply defined_EncodeUniform; unfold MAXKEYS; case_cmp; lia|]. intros _.
  pose proof (GetBitLen_bounds maxkey Hm). apply defined_save_keys; [lia|done].
Qed.

Lemma defined_Dict_Encode t es xs x : Coding w t es xs -> In x xs -> defined (Dict_Encode w t x).
Proof.
  intros Hc Hx. unfold Dict_Encode.
  destruct (find_key_spec (hash w) t x (cod_hash _ _ _ _ Hc)) as (k & -> & Hcase).
  destruct Hcase as [[-> Hno]|[Hk Hkey]]; [destruct (cod_found _ _ _ _ Hc x Hx) as (k & Hk & Hkey); by apply Hno in Hkey|].
  destruct (Z.ltb_spec k 0); [lia|apply defined_EncodeShift].
Qed.
End Coding.
