(* ===== verification/NumFilters.v ===== *)
(** * Filters of the numeric compressor (compress/DataFilt.h, compress/BasicDataFilt.cpp)

    A filter takes a data set of [nrec] values of a type of [w] bits, writes what it extracts
    to the range coder and leaves the rest for the next filter.  [DataFilt] is the interface
    and [FiltLaws] what each filter promises: decoding and merging undo encoding.  Here are the
    minimum, the common divisor, differencing and the final uniform coding.

    Whether differencing pays off is estimated in floating point from logarithms; the
    arithmetic and the logarithms are the operations of a class [FPU] without laws, so the
    theorems hold whatever the estimates are. *)

From S2P Require Import Prelude CprsBase QSort RangeCoder HashChain CprsDict.

(** ** Floating point *)

(** The processor's and the library's operations: [lit a b] is the literal [a / 10 ^ b];
    [tab_log2] and [nlog2n] are the precomputed tables of [QuickMath]. *)
Class FPU := {
  double : Type;
  of_int : Z -> double;
  lit : Z -> Z -> double;
  fadd : double -> double -> double;
  fsub : double -> double -> double;
  fmul : double -> double -> double;
  flt : double -> double -> bool;
  fle : double -> double -> bool;
  to_uint : double -> Z;
  flog2 : double -> double;
  tab_log2 : Z -> double;
  nlog2n : Z -> double
}.

(** ** Data sets *)

Record DataSet := mkDS { ds_data : list Z; maxval : Z; nrec : Z }.

(** The values of the set: the first [nrec] of the buffer. *)
Definition vals (ds : DataSet) : list Z := take (Z.to_nat (nrec ds)) (ds_data ds).

(** [for(i < nrec) data[i] = f(data[i])] *)
Definition on_vals (f : Z -> Z) (ds : DataSet) : list Z :=
  map f (vals ds) ++ drop (Z.to_nat (nrec ds)) (ds_data ds).

Definition PredictUni `{FPU} (ds : DataSet) : Z :=
  to_uint (fmul (of_int (nrec ds)) (flog2 (fadd (of_int (maxval ds)) (lit 1 0)))).

(** ** The interface *)

Record DataFilt := mkFilt {
  fstate : Type;
  f_Encode : DataSet -> coder (bool * DataSet);
  f_Decode : DataSet -> coder (fstate * DataSet);
  f_Merge : fstate -> DataSet -> res DataSet }.

(** A data set a filter may get. *)
Definition ds_ok (w : Z) (ds : DataSet) : Prop :=
  1 <= nrec ds <= CPRS_MAXREC /\ nrec ds <= zlen (ds_data ds) /\ maxval ds < 2 ^ w /\
  Forall (fun x => 0 <= x <= maxval ds) (vals ds).

(** Two data sets with the same values, in buffers of possibly different contents. *)
Definition same_vals (d1 d2 : DataSet) : Prop := nrec d1 = nrec d2 /\ vals d1 = vals d2.

(** Merging [st] into a set with the values of [ds'] restores [ds].  [needs]: the merge uses
    [maxval]; [keeps]: it restores [maxval] as well. *)
Definition restores {A : Type} (keeps needs : bool) (M : A -> DataSet -> res DataSet) (st : A)
    (ds ds' : DataSet) (len : Z) : Prop :=
  forall dm, same_vals dm ds' -> zlen (ds_data dm) = len ->
    (needs = true -> maxval dm = maxval ds') ->
    exists dr, M st dm = Ok dr /\ same_vals dr ds /\ zlen (ds_data dr) = len /\
               (keeps = true -> maxval dm = maxval ds' -> maxval dr = maxval ds).

(** What the decoder has after its first stage: the values, when the filter wrote everything,
    or an untouched buffer for the remaining [nrec ds'] values. *)
Definition decoded {A : Type} (keeps needs : bool) (M : A -> DataSet -> res DataSet) (st : A)
    (ds ds' dd : DataSet) (buf0 : list Z) : Prop :=
  (nrec ds' = 0 /\ same_vals dd ds /\ maxval dd = maxval ds /\ zlen (ds_data dd) = zlen buf0 /\ M st dd = Ok dd) \/
  (dd = mkDS buf0 (maxval ds') (nrec ds') /\ restores keeps needs M st ds ds' (zlen buf0)).

(** What a filter leaves for the next one. *)
Definition ds_next (w : Z) (ds ds' : DataSet) : Prop := nrec ds' = 0 \/ (ds_ok w ds' /\ nrec ds' <= nrec ds).

Class FiltLaws (w : Z) (keeps needs : bool) (F : DataFilt) : Prop := {
  (** encoding is defined: it returns, or throws an error *)
  law_defined : forall ds, ds_ok w ds -> defined (f_Encode F ds);
  (** a filter that declines writes nothing *)
  law_false : forall ds e ds' e', ds_ok w ds -> f_Encode F ds e = Ok ((false, ds'), e') ->
    ds' = ds /\ codes (f_Encode F ds) (mret tt) (false, ds) tt;
  (** a filter that encodes is decoded, and merging restores its input *)
  law_true : forall ds e ds' e', ds_ok w ds -> f_Encode F ds e = Ok ((true, ds'), e') ->
    ds_next w ds ds' /\
    forall buf0, nrec ds <= zlen buf0 -> exists st dd,
      codes (f_Encode F ds) (f_Decode F (mkDS buf0 (maxval ds) (nrec ds))) (true, ds') (st, dd) /\
      decoded keeps needs (f_Merge F) st ds ds' dd buf0
}.

(** ** Subtracting the minimum *)

(** The search stops at a zero. *)
Fixpoint min_loop (xs : list Z) (minval : Z) : Z :=
  match xs with
  | [] => minval
  | x :: r => if x <? minval then (if x =? 0 then 0 else min_loop r x) else min_loop r minval
  end.

Section Types.
Context (w : Z).

Definition Min_Encode (ds : DataSet) : coder (bool * DataSet) :=
  let minval := min_loop (vals ds) (wrap w (0 - 1)) in
  if minval =? 0 then mret (false, ds)
  else if maxval ds <? minval then throw CPRS_ERR_PAR
  else
    _ ← EncodeUniform minval (maxval ds);
    mret (true, mkDS (on_vals (fun x => wrap w (x - minval)) ds) (wrap w (maxval ds - minval)) (nrec ds)).

Definition Min_Decode (ds : DataSet) : coder (Z * DataSet) :=
  minval ← DecodeUniform w (maxval ds);
  if minval =? 0 then throw CPRS_ERR_COR
  else mret (minval, mkDS (ds_data ds) (wrap w (maxval ds - minval)) (nrec ds)).

Definition Min_Merge (minval : Z) (ds : DataSet) : res DataSet :=
  if minval <=? 0 then Undef
  else Ok (mkDS (on_vals (fun x => wrap w (x + minval)) ds) (wrap w (maxval ds + minval)) (nrec ds)).

Definition DataFilt_Min : DataFilt := mkFilt Z Min_Encode Min_Decode Min_Merge.

(** ** Dividing by the common divisor *)

Fixpoint gcds_loop (xs : list Z) (gcd : Z) : Z :=
  match xs with
  | [] => gcd
  | x :: r => let g := GCD gcd x in if g =? 1 then 1 else gcds_loop r g
  end.

Definition GCD_Encode (ds : DataSet) : coder (bool * DataSet) :=
  let gcd := gcds_loop (vals ds) 0 in
  if gcd <=? 1 then mret (false, ds)
  else if maxval ds <? gcd then throw CPRS_ERR_PAR
  else
    _ ← EncodeUniform gcd (maxval ds);
    mret (true, mkDS (on_vals (fun x => x / gcd) ds) (maxval ds / gcd) (nrec ds)).

Definition GCD_Decode (ds : DataSet) : coder (Z * DataSet) :=
  gcd ← DecodeUniform w (maxval ds);
  if gcd <=? 1 then throw CPRS_ERR_COR
  else mret (gcd, mkDS (ds_data ds) (maxval ds / gcd) (nrec ds)).

Definition GCD_Merge (gcd : Z) (ds : DataSet) : res DataSet :=
  if gcd <=? 1 then Undef
  else Ok (mkDS (on_vals (fun x => wrap w (x * gcd)) ds) (wrap w (maxval ds * gcd)) (nrec ds)).

Definition DataFilt_GCD : DataFilt := mkFilt Z GCD_Encode GCD_Decode GCD_Merge.

(** ** Differencing *)

Section Estimate.
Context `{FPU}.

Definition MAXSAMP : Z := 65536 / 20.
Definition BITDICT : Z := 8.

(** The counts of the bytes of the samples; the result of the insertions is ignored. *)
Definition byte_counts (xs : list Z) : list KeyRange :=
  keys (foldl (fun t x => match Insert 8 t x 1 with Some (t', _) => t' | None => t end)
          (InitInsert (mkDict no_keys [] [] 0 false false)) xs).

Definition Entropy (data : list Z) (bitlow : Z) (top : bool) : option double :=
  let mask := wrap 8 (shl 8 1 bitlow - 1) in
  if w <=? bitlow then None
  else
    let xs := if top then map (fun x => wrap 8 (shr w x bitlow)) data
              else map (fun x => Z.land (wrap 8 x) mask) data in
    Some (foldl (fun len kr => fsub len (nlog2n (kcount kr))) (nlog2n (zlen data)) (byte_counts xs)).

(** The sample: every [step]-th value, or its difference to the one before it. *)
Definition samples (ds : DataSet) (diff : bool) : list Z :=
  let nsamp := if nrec ds - 1 <? MAXSAMP then nrec ds - 1 else MAXSAMP in
  let step := (nrec ds - 1) / nsamp in
  let maxval1 := wrap w (maxval ds + 1) in
  map (fun j =>
         let i := 1 + j * step in
         let x := (ds_data ds).[0|i] in
         if diff then
           let s := wrap w (x - (ds_data ds).[0|i - 1]) in
           if x <? s then wrap w (s + maxval1) else s
         else x)
    (range 0 (nsamp - 1)).

Definition Measure (ds : DataSet) (diff : bool) : option double :=
  let sample := samples ds diff in
  let nbit := GetBitLen (maxval ds) in
  if nbit <=? BITDICT then Entropy sample 0 true
  else
    x ← Entropy sample (nbit - BITDICT) true;
    y ← (if nbit <=? 2 * BITDICT then Entropy sample (nbit - BITDICT) false
         else Entropy sample BITDICT false);
    Some (fadd x y).

(** [data[i] = curr - last], plus [maxval1] when that is negative. *)
Fixpoint diff_loop (xs : list Z) (last maxval1 : Z) : list Z :=
  match xs with
  | [] => []
  | curr :: r =>
      let x := wrap w (curr - last) in
      (if curr <? last then wrap w (x + maxval1) else x) :: diff_loop r curr maxval1
  end.

Definition Diff_Encode (ds : DataSet) : coder (bool * DataSet) :=
  if nrec ds <? 100 then mret (false, ds)
  else
    match Measure ds false, Measure ds true with
    | Some m_orig, Some m_diff =>
        if fle (fmul (lit 99 2) m_orig) m_diff then mret (false, ds)
        else
          _ ← EncodeUniform 0 3;
          mret (true, mkDS (diff_loop (vals ds) 0 (wrap w (maxval ds + 1))
                            ++ drop (Z.to_nat (nrec ds)) (ds_data ds)) (maxval ds) (nrec ds))
    | _, _ => undef
    end.
End Estimate.

Definition Diff_Decode (ds : DataSet) : coder (unit * DataSet) :=
  ver ← DecodeUniform 8 3;
  if 0 <? ver then throw CPRS_ERR_COR else mret (tt, ds).

Fixpoint integrate (xs : list Z) (last maxval : Z) : list Z :=
  match xs with
  | [] => []
  | x :: r =>
      let curr := wrap w (last + x) in
      let curr := if (maxval <? curr) || (curr <? last) then wrap w (curr - wrap w (maxval + 1)) else curr in
      curr :: integrate r curr maxval
  end.

Definition Diff_Merge (_ : unit) (ds : DataSet) : res DataSet :=
  Ok (mkDS (integrate (vals ds) 0 (maxval ds) ++ drop (Z.to_nat (nrec ds)) (ds_data ds)) (maxval ds) (nrec ds)).

Definition DataFilt_Diff `{FPU} : DataFilt := mkFilt unit Diff_Encode Diff_Decode Diff_Merge.

(** ** Uniform coding *)

(** [maxval == ((T)1 << bitmax) - (T)1]: the narrow types are promoted to int, where the
    difference can be -1. *)
Definition all_bits (maxv bitmax : Z) : bool :=
  maxv =? (let x := shl w 1 bitmax - 1 in if w <=? 16 then x else wrap w x).

Fixpoint encode_vals (xs : list Z) (maxv bitmax : Z) : coder unit :=
  match xs with
  | [] => mret tt
  | x :: r =>
      _ ← (if all_bits maxv bitmax then EncodeUniShift w x bitmax else EncodeUniform_bit x maxv bitmax);
      encode_vals r maxv bitmax
  end.

Definition Uniform_Encode (ds : DataSet) : coder (bool * DataSet) :=
  _ ← EncodeUniform 0 3;
  _ ← (if maxval ds =? 0 then mret tt else encode_vals (vals ds) (maxval ds) (GetBitLen (maxval ds)));
  mret (true, mkDS (ds_data ds) (maxval ds) 0).

Fixpoint decode_vals (n : nat) (maxv bitmax : Z) : coder (list Z) :=
  match n with
  | O => mret []
  | S n' =>
      x ← (if all_bits maxv bitmax then DecodeUniShift w bitmax else DecodeUniform_bit w maxv bitmax);
      r ← decode_vals n' maxv bitmax;
      mret (x :: r)
  end.

Definition Uniform_Decode (ds : DataSet) : coder (unit * DataSet) :=
  ver ← DecodeUniform 8 3;
  if 0 <? ver then throw CPRS_ERR_COR
  else
    let n := Z.to_nat (nrec ds) in
    xs ← (if maxval ds =? 0 then mret (replicate n 0) else decode_vals n (maxval ds) (GetBitLen (maxval ds)));
    mret (tt, mkDS (xs ++ drop n (ds_data ds)) (maxval ds) (nrec ds)).

Definition DataFilt_Uniform : DataFilt := mkFilt unit Uniform_Encode Uniform_Decode (fun _ ds => Ok ds).
End Types.

(** ** Lemmas on data sets *)

Lemma length_vals ds : 0 <= nrec ds <= zlen (ds_data ds) -> length (vals ds) = Z.to_nat (nrec ds).
Proof. intros. unfold vals. rewrite length_take. unfold zlen in *. lia. Qed.

(** Writing the first [nrec] values of a buffer. *)
Lemma vals_write ys data m n :
  length ys = Z.to_nat n -> 0 <= n <= zlen data ->
  let ds := mkDS (ys ++ drop (Z.to_nat n) data) m n in
  vals ds = ys /\ zlen (ds_data ds) = zlen data.
Proof.
  intros Hy Hn ds. unfold vals, zlen. simpl. split.
  - rewrite <- Hy. apply take_app_length.
  - rewrite length_app, length_drop. unfold zlen in Hn. lia.
Qed.

Lemma vals_map f ds m :
  0 <= nrec ds <= zlen (ds_data ds) ->
  let ds' := mkDS (on_vals f ds) m (nrec ds) in
  vals ds' = map f (vals ds) /\ zlen (ds_data ds') = zlen (ds_data ds).
Proof.
  intros Hn. apply vals_write; [|done]. rewrite length_map. by apply length_vals.
Qed.

Lemma map_id_on (f : Z -> Z) (P : Z -> Prop) xs :
  Forall P xs -> (forall x, P x -> f x = x) -> map f xs = xs.
Proof. intros HF Hf. induction HF as [|x xs Hx HF IH]; simpl; [done|]. by rewrite Hf, IH. Qed.

(** [g] undoes [f] on the values of the set, whose images are at most [m']. *)
Definition undoes (f g : Z -> Z) (ds : DataSet) (m' : Z) : Prop :=
  forall x, 0 <= x <= maxval ds -> In x (vals ds) -> 0 <= f x <= m' /\ g (f x) = x.

Lemma undoes_Forall f g ds m' w : ds_ok w ds -> undoes f g ds m' ->
  Forall (fun x => 0 <= f x <= m' /\ g (f x) = x) (vals ds).
Proof.
  intros (_ & _ & _ & Hv) Hfg. rewrite Forall_forall in Hv |- *. intros x Hx.
  apply Hfg; [by apply Hv|by apply list_elem_of_In].
Qed.

Lemma pointwise_ok w f g ds m' :
  ds_ok w ds -> m' < 2 ^ w -> undoes f g ds m' -> ds_ok w (mkDS (on_vals f ds) m' (nrec ds)).
Proof.
  intros Hok Hm' Hfg. pose proof (undoes_Forall _ _ _ _ _ Hok Hfg) as Hall. destruct Hok as (Hn & Hl & Hm & Hv).
  destruct (vals_map f ds m') as [Hvf Hlf]; [lia|].
  split; [done|]. split; [by rewrite Hlf|]. split; [done|]. rewrite Hvf. apply Forall_map.
  eapply Forall_impl; [exact Hall|]. simpl. tauto.
Qed.

Lemma pointwise_merge w f g ds m' mr dm :
  ds_ok w ds -> undoes f g ds m' -> same_vals dm (mkDS (on_vals f ds) m' (nrec ds)) ->
  nrec ds <= zlen (ds_data dm) ->
  let dr := mkDS (on_vals g dm) mr (nrec dm) in
  same_vals dr ds /\ zlen (ds_data dr) = zlen (ds_data dm).
Proof.
  intros Hok Hfg (Hs1 & Hs3) Hld. pose proof (undoes_Forall _ _ _ _ _ Hok Hfg) as Hall.
  destruct Hok as (Hn & Hl & Hm & Hv). simpl in Hs1.
  destruct (vals_map f ds m') as [Hvf _]; [lia|].
  destruct (vals_map g dm mr) as [Hvg Hlg]; [lia|].
  split; [|done]. split; [done|]. rewrite Hvg, Hs3, Hvf, map_map. apply (map_id_on _ _ _ Hall). tauto.
Qed.

(** The law of a filter that replaces each value by an invertible function of it. *)
Lemma pointwise_law {A : Type} (E : coder (bool * DataSet)) (D : DataSet -> coder (A * DataSet))
    (M : A -> DataSet -> res DataSet) w keeps f g (mr : Z -> Z) ds m' (st : A) :
  ds_ok w ds -> m' < 2 ^ w -> undoes f g ds m' ->
  let ds' := mkDS (on_vals f ds) m' (nrec ds) in
  (forall buf0, codes E (D (mkDS buf0 (maxval ds) (nrec ds))) (true, ds') (st, mkDS buf0 m' (nrec ds))) ->
  (forall dm, M st dm = Ok (mkDS (on_vals g dm) (mr (maxval dm)) (nrec dm))) ->
  (keeps = true -> mr m' = maxval ds) ->
  ds_next w ds ds' /\
  forall buf0, nrec ds <= zlen buf0 -> exists st dd,
    codes E (D (mkDS buf0 (maxval ds) (nrec ds))) (true, ds') (st, dd) /\
    decoded keeps false M st ds ds' dd buf0.
Proof.
  intros Hok Hm' Hfg ds' HC HM Hk. split; [right; split; [by apply (pointwise_ok w f g)|done]|].
  intros buf0 Hl. exists st. eexists. split; [apply HC|]. right. split; [done|].
  intros dm Hs Hld _. destruct (pointwise_merge w f g ds m' (mr (maxval dm)) dm Hok Hfg Hs ltac:(lia)) as [H1 H2].
  eexists. split; [apply HM|]. split; [done|]. split; [congruence|]. simpl. intros E1 ->. by apply Hk.
Qed.

Lemma coder_bind_Ok {A B : Type} (m : coder A) (f : A -> coder B) s b s' :
  (m ≫= f) s = Ok (b, s') -> exists a s1, m s = Ok (a, s1) /\ f a s1 = Ok (b, s').
Proof.
  unfold mbind, coder_bind. destruct (m s) as [[a s1]| |]; try done. intros H. by exists a, s1.
Qed.

(** ** The minimum *)

Lemma min_loop_spec xs : forall m,
  0 <= m -> Forall (fun x => 0 <= x) xs ->
  0 <= min_loop xs m <= m /\ Forall (fun x => min_loop xs m <= x) xs.
Proof.
  induction xs as [|x xs IH]; intros m Hm HF; simpl; [split; [lia|done]|].
  inversion HF as [|? ? Hx HF']; subst. destruct (Z.ltb_spec x m).
  - destruct (Z.eqb_spec x 0) as [->|].
    + split; [lia|]. constructor; [lia|done].
    + destruct (IH x Hx HF') as [H1 H2]. split; [lia|]. constructor; [lia|done].
  - destruct (IH m Hm HF') as [H1 H2]. split; [lia|]. constructor; [lia|done].
Qed.

Lemma min_vals w ds :
  0 <= w -> ds_ok w ds -> let m := min_loop (vals ds) (wrap w (0 - 1)) in
  0 <= m /\ Forall (fun x => m <= x) (vals ds).
Proof.
  intros Hw (_ & _ & _ & Hv) m.
  destruct (min_loop_spec (vals ds) (wrap w (0 - 1))) as [H1 H2]; [by apply wrap_word| |].
  - eapply Forall_impl; [exact Hv|]. simpl. lia.
  - split; [apply H1|done].
Qed.

Lemma ds_ok_max w ds : ds_ok w ds -> 0 <= maxval ds.
Proof.
  intros (Hn & Hl & _ & Hv). pose proof (length_vals ds ltac:(lia)) as Hlv.
  destruct (vals ds); [simpl in Hlv; lia|inversion Hv; lia].
Qed.

Lemma Min_defined w ds : ds_ok w ds -> defined (Min_Encode w ds).
Proof.
  intros Hok%ds_ok_max. unfold Min_Encode. cbv zeta. destruct (_ =? 0); [done|]. destruct (_ <? _); [done|].
  apply defined_bind; [by apply defined_EncodeUniform|done].
Qed.

#[export] Instance Min_laws w : 0 <= w -> FiltLaws w true false (DataFilt_Min w).
Proof.
  intros Hw. split; [exact (Min_defined w)| |]; simpl; intros ds e ds' e' Hok; unfold Min_Encode;
    pose proof (min_vals w ds Hw Hok) as [Hm0 Hmin]; set (m := min_loop _ _) in *; cbv zeta;
    (destruct (Z.eqb_spec m 0); [|destruct (Z.ltb_spec (maxval ds) m); [done|]]); intros HE.
  - injection HE as <- <-. split; [done|apply codes_ret].
  - apply coder_bind_Ok in HE as (? & ? & _ & [=]).
  - done.
  - apply coder_bind_Ok in HE as (u & s1 & _ & [= <- _]).
    assert (maxval ds < 2 ^ w) as Hmw by apply Hok.
    rewrite (wrap_id w (maxval ds - m)) by (unfold is_word; lia).
    apply (pointwise_law _ (Min_Decode w) (Min_Merge w) w true _ (fun x => wrap w (x + m))
             (fun x => wrap w (x + m)) ds (maxval ds - m) m); [done|lia| | | |].
    + intros x Hx Hin. rewrite Forall_forall in Hmin. apply list_elem_of_In in Hin. specialize (Hmin x Hin). simpl in Hmin.
      rewrite (wrap_id w (x - m)) by (unfold is_word; lia). split; [lia|].
      replace (x - m + m) with x by lia. apply wrap_id. unfold is_word; lia.
    + intros buf0. unfold Min_Decode. cbn [maxval nrec ds_data]. eapply codes_bind; [apply (codes_EncodeUniform w); [lia|done|done]|].
      simpl. destruct (Z.eqb_spec m 0); [done|].
      rewrite (wrap_id w (maxval ds - m)) by (unfold is_word; lia). apply codes_ret.
    + intros dm. unfold Min_Merge. by destruct (Z.leb_spec m 0); [lia|].
    + intros _. replace (maxval ds - m + m) with (maxval ds) by lia. apply wrap_id. unfold is_word; lia.
Qed.

(** ** The common divisor *)

Lemma gcds_loop_spec xs : forall g,
  0 <= g -> Forall (fun x => 0 <= x) xs ->
  0 <= gcds_loop xs g /\ (gcds_loop xs g | g) /\ Forall (fun x => (gcds_loop xs g | x)) xs.
Proof.
  induction xs as [|x xs IH]; intros g Hg HF; simpl; [split; [done|]; split; [apply Z.divide_refl|done]|].
  inversion HF as [|? ? Hx HF']; subst. rewrite GCD_spec by done.
  pose proof (Z.gcd_nonneg g x) as Hnn.
  destruct (Z.eqb_spec (Z.gcd g x) 1) as [E|E].
  - split; [lia|]. split; [apply Z.divide_1_l|]. constructor; [apply Z.divide_1_l|].
    eapply Forall_impl; [exact HF'|]. intros; apply Z.divide_1_l.
  - destruct (IH (Z.gcd g x) Hnn HF') as (H0 & H1 & H2). split; [done|].
    split; [apply (Z.divide_trans _ _ _ H1), Z.gcd_divide_l|].
    constructor; [apply (Z.divide_trans _ _ _ H1), Z.gcd_divide_r|done].
Qed.

Lemma gcd_vals w ds :
  ds_ok w ds -> let g := gcds_loop (vals ds) 0 in Forall (fun x => (g | x)) (vals ds).
Proof.
  intros (_ & _ & _ & Hv) g. apply gcds_loop_spec; [done|]. eapply Forall_impl; [exact Hv|]. simpl. lia.
Qed.

Lemma GCD_defined w ds : ds_ok w ds -> defined (GCD_Encode ds).
Proof.
  intros Hok%ds_ok_max. unfold GCD_Encode. cbv zeta. destruct (_ <=? 1); [done|]. destruct (_ <? _); [done|].
  apply defined_bind; [by apply defined_EncodeUniform|done].
Qed.

#[export] Instance GCD_laws w : 0 <= w -> FiltLaws w false false (DataFilt_GCD w).
Proof.
  intros Hw. split; [exact (GCD_defined w)| |]; simpl; intros ds e ds' e' Hok; unfold GCD_Encode;
    pose proof (gcd_vals w ds Hok) as Hdiv; set (g := gcds_loop _ _) in *; cbv zeta;
    (destruct (Z.leb_spec g 1); [|destruct (Z.ltb_spec (maxval ds) g); [done|]]); intros HE.
  - injection HE as <- <-. split; [done|apply codes_ret].
  - apply coder_bind_Ok in HE as (? & ? & _ & [=]).
  - done.
  - apply coder_bind_Ok in HE as (u & s1 & _ & [= <- _]).
    assert (maxval ds < 2 ^ w) as Hmw by apply Hok.
    assert (0 <= maxval ds / g <= maxval ds) as Hq.
    { split; [apply Z.div_pos; lia|apply Z.div_le_upper_bound; nia]. }
    apply (pointwise_law _ (GCD_Decode w) (GCD_Merge w) w false _ (fun x => wrap w (x * g))
             (fun x => wrap w (x * g)) ds (maxval ds / g) g); [done|lia| | | |done].
    + intros x Hx Hin. rewrite Forall_forall in Hdiv. apply list_elem_of_In in Hin.
      destruct (Hdiv x Hin) as [q ->]. rewrite Z.div_mul by lia. split.
      * split; [nia|]. apply Z.div_le_lower_bound; lia.
      * apply wrap_id. unfold is_word; lia.
    + intros buf0. unfold GCD_Decode. cbn [maxval nrec ds_data]. eapply codes_bind; [apply (codes_EncodeUniform w); [lia|done|done]|].
      simpl. destruct (Z.leb_spec g 1); [lia|]. apply codes_ret.
    + intros dm. unfold GCD_Merge. by destruct (Z.leb_spec g 1); [lia|].
Qed.

(** ** Differencing *)

Lemma integrate_diff w m xs : forall last,
  0 <= w -> m < 2 ^ w -> 0 <= last <= m -> Forall (fun x => 0 <= x <= m) xs ->
  Forall (fun x => 0 <= x <= m) (diff_loop w xs last (wrap w (m + 1))) /\
  integrate w (diff_loop w xs last (wrap w (m + 1))) last m = xs.
Proof.
  induction xs as [|x xs IH]; intros last Hw Hm Hl HF; simpl; [done|].
  inversion HF as [|? ? Hx HF']; subst. destruct (IH x Hw Hm Hx HF') as [IH1 IH2].
  assert (0 < 2 ^ w) as H2 by lia.
  assert (forall k y, 0 <= y < 2 ^ w -> (y + k * 2 ^ w) mod 2 ^ w = y) as Hmod.
  { intros k y Hy. rewrite Z.mod_add by lia. by apply Z.mod_small. }
  set (d := if x <? last then wrap w (wrap w (x - last) + wrap w (m + 1)) else wrap w (x - last)).
  assert (d = if x <? last then x - last + m + 1 else x - last) as Hd.
  { unfold d, wrap. destruct (Z.ltb_spec x last).
    - rewrite <- Z.add_mod by lia. rewrite Z.mod_small; lia.
    - apply Z.mod_small. lia. }
  assert (0 <= d <= m) as Hdm by (rewrite Hd; destruct (Z.ltb_spec x last); lia).
  split; [constructor; done|].
  enough ((if (m <? wrap w (last + d)) || (wrap w (last + d) <? last)
           then wrap w (wrap w (last + d) - wrap w (m + 1)) else wrap w (last + d)) = x) as -> by (by rewrite IH2).
  rewrite Hd. destruct (Z.ltb_spec x last) as [Hlt|Hge].
  - replace (last + (x - last + m + 1)) with (x + m + 1) by lia.
    assert (wrap w (wrap w (x + m + 1) - wrap w (m + 1)) = x) as Hx'.
    { unfold wrap. rewrite <- Zminus_mod. rewrite Z.mod_small; lia. }
    destruct (Z.lt_ge_cases (x + m + 1) (2 ^ w)).
    + rewrite (wrap_id w (x + m + 1)) in * by (unfold is_word; lia).
      destruct (Z.ltb_spec m (x + m + 1)); [|lia]. done.
    + assert (wrap w (x + m + 1) = x + m + 1 - 2 ^ w) as Hwr.
      { unfold wrap. symmetry. apply (Z.mod_unique _ _ 1); lia. }
      destruct (Z.ltb_spec (wrap w (x + m + 1)) last) as [|Hc]; [by rewrite orb_true_r|]. lia.
  - replace (last + (x - last)) with x by lia. rewrite wrap_id by (unfold is_word; lia).
    destruct (Z.ltb_spec m x); [lia|]. destruct (Z.ltb_spec x last); [lia|]. done.
Qed.

Lemma length_diff_loop w xs last m1 : length (diff_loop w xs last m1) = length xs.
Proof. revert last. induction xs as [|x xs IH]; intros last; simpl; [done|]. by rewrite IH. Qed.

Lemma length_integrate w xs last m : length (integrate w xs last m) = length xs.
Proof. revert last. induction xs as [|x xs IH]; intros last; simpl; [done|]. by rewrite IH. Qed.

(** The bits of the samples always lie inside the type. *)
Lemma Measure_total `{FPU} w ds diff : 0 < w -> ds_ok w ds -> exists m, Measure w ds diff = Some m.
Proof.
  intros Hw Hok. pose proof (ds_ok_max w ds Hok) as Hm. destruct Hok as (_ & _ & Hmw & _).
  pose proof (GetBitLen_le (maxval ds) w ltac:(lia) ltac:(lia)). unfold Measure, Entropy, BITDICT. cbv zeta.
  destruct (Z.leb_spec (GetBitLen (maxval ds)) 8).
  - destruct (Z.leb_spec w 0); [lia|]. by eexists.
  - destruct (Z.leb_spec w (GetBitLen (maxval ds) - 8)); [lia|]. simpl.
    destruct (Z.leb_spec (GetBitLen (maxval ds)) (2 * 8)); [by eexists|].
    destruct (Z.leb_spec w 8); [lia|]. by eexists.
Qed.

Lemma Diff_defined `{FPU} w ds : 0 < w -> ds_ok w ds -> defined (Diff_Encode w ds).
Proof.
  intros Hw Hok. unfold Diff_Encode. destruct (_ <? 100); [done|].
  destruct (Measure_total w ds false Hw Hok) as [m ->]. destruct (Measure_total w ds true Hw Hok) as [m' ->].
  destruct (fle _ _); [done|]. apply defined_bind; [by apply defined_EncodeUniform|done].
Qed.

#[export] Instance Diff_laws `{FPU} w : 0 < w -> FiltLaws w true true (DataFilt_Diff w).
Proof.
  intros Hw0. assert (0 <= w) as Hw by lia.
  split; [exact (fun ds => Diff_defined w ds Hw0)| |]; simpl; intros ds e ds' e' Hok; unfold Diff_Encode;
    (destruct (nrec ds <? 100); [intros HE; first [by injection HE as <- <-; split; [done|apply codes_ret]|done]|]);
    (destruct (Measure w ds false) as [m_orig|]; [|done]); (destruct (Measure w ds true) as [m_diff|]; [|done]);
    (destruct (fle _ _); intros HE; [first [by injection HE as <- <-; split; [done|apply codes_ret]|done]|]);
    apply coder_bind_Ok in HE as (u & s1 & _ & HE); [done|].
  injection HE as <- _. pose proof Hok as (Hn & Hl & Hm & Hv).
  assert (0 <= maxval ds) as Hm0.
  { destruct (vals ds) as [|x xs] eqn:E; [|inversion Hv; lia].
    pose proof (length_vals ds ltac:(lia)) as Hlen. rewrite E in Hlen. simpl in Hlen. lia. }
  destruct (integrate_diff w (maxval ds) (vals ds) 0 Hw Hm ltac:(lia) Hv) as [Hd1 Hd2].
  set (ys := diff_loop w (vals ds) 0 (wrap w (maxval ds + 1))) in *.
  assert (length ys = Z.to_nat (nrec ds)) as Hly by (unfold ys; rewrite length_diff_loop; apply length_vals; lia).
  destruct (vals_write ys (ds_data ds) (maxval ds) (nrec ds) Hly ltac:(lia)) as [Hvy Hzy].
  split.
  - right. split; [|done]. split; [done|]. split; [by rewrite Hzy|]. split; [done|]. by rewrite Hvy.
  - intros buf0 Hb. exists tt. eexists. split.
    + unfold Diff_Decode. eapply codes_bind; [apply (codes_EncodeUniform 8); lia|]. simpl. apply codes_ret.
    + right. split; [done|]. intros dm [Hs1 Hs2] Hld Hmx. specialize (Hmx eq_refl). simpl in Hs1, Hmx.
      rewrite Hvy in Hs2. unfold Diff_Merge. rewrite Hs2, Hmx, Hd2, Hs1. eexists. split; [done|].
      destruct (vals_write (vals ds) (ds_data dm) (maxval ds) (nrec ds)) as [Hvr Hzr];
        [apply length_vals; lia|lia|]. split; [split; [done|exact Hvr]|]. split; [rewrite Hzr; lia|]. done.
Qed.

(** ** Uniform coding *)

Lemma all_bits_true w maxv bitmax :
  0 <= w -> 0 <= bitmax <= w -> all_bits w maxv bitmax = true -> 0 <= maxv -> maxv = 2 ^ bitmax - 1.
Proof.
  intros Hw Hb. unfold all_bits, shl. intros H%Z.eqb_eq. revert H. cbv zeta.
  pose proof (Z.pow_pos_nonneg 2 w ltac:(lia) Hw). pose proof (Z.pow_pos_nonneg 2 bitmax ltac:(lia) ltac:(lia)).
  destruct (Z.leb_spec w bitmax) as [Hge|Hlt].
  - assert (bitmax = w) as -> by lia. destruct (w <=? 16); [lia|]. intros -> _. unfold wrap.
    symmetry. apply (Z.mod_unique _ _ (-1)); lia.
  - rewrite Z.shiftl_1_l. pose proof (Z.pow_lt_mono_r 2 bitmax w ltac:(lia) ltac:(lia) ltac:(lia)).
    rewrite (wrap_id w (2 ^ bitmax)) by (unfold is_word; lia).
    destruct (w <=? 16); [done|]. by rewrite wrap_id by (unfold is_word; lia).
Qed.

Lemma codes_vals w m bitmax xs :
  0 <= w -> 0 <= m < 2 ^ w -> m < 2 ^ bitmax -> 0 <= bitmax <= w -> Forall (fun x => 0 <= x <= m) xs ->
  codes (encode_vals w xs m bitmax) (decode_vals w (length xs) m bitmax) tt xs.
Proof.
  intros Hw Hm Hb Hbw. induction 1 as [|x xs Hx HF IH]; simpl; [apply codes_ret|].
  eapply codes_bind with (a1 := x) (b1 := tt).
  - destruct (all_bits w m bitmax) eqn:E.
    + apply all_bits_true in E; [|lia..]. apply codes_EncodeUniShift; lia.
    + apply codes_EncodeUniform_bit; lia.
  - eapply codes_map; [exact IH|done].
Qed.

Lemma Uniform_defined w ds : ds_ok w ds -> defined (Uniform_Encode w ds).
Proof.
  intros Hok%ds_ok_max. unfold Uniform_Encode. apply defined_bind; [by apply defined_EncodeUniform|]. intros _.
  apply defined_bind; [|done]. destruct (_ =? 0); [done|]. induction (vals ds) as [|x xs IH]; simpl; [done|].
  apply defined_bind; [|done]. pose proof (GetBitLen_bounds (maxval ds) Hok).
  destruct (all_bits _ _ _); [apply defined_EncodeUniShift|apply defined_EncodeUniform_bit; lia].
Qed.

#[export] Instance Uniform_laws w : 0 <= w -> FiltLaws w true false (DataFilt_Uniform w).
Proof.
  intros Hw. split; [exact (Uniform_defined w)| |]; simpl; intros ds e ds' e' Hok HE; unfold Uniform_Encode in HE;
    apply coder_bind_Ok in HE as (? & ? & _ & HE); apply coder_bind_Ok in HE as (? & ? & _ & HE); [done|].
  injection HE as <- _. pose proof Hok as (Hn & Hl & Hm & Hv). split; [by left|].
  intros buf0 Hb. exists tt. eexists (mkDS (vals ds ++ drop (Z.to_nat (nrec ds)) buf0) (maxval ds) (nrec ds)).
  pose proof (length_vals ds ltac:(lia)) as Hlv.
  destruct (vals_write (vals ds) buf0 (maxval ds) (nrec ds) Hlv ltac:(lia)) as [Hvr Hzr]. split.
  - unfold Uniform_Encode, Uniform_Decode. cbn [maxval nrec ds_data].
    eapply codes_bind; [apply (codes_EncodeUniform 8); lia|]. simpl.
    eapply codes_bind with (a1 := vals ds) (b1 := tt); [|apply codes_ret].
    destruct (Z.eqb_spec (maxval ds) 0) as [E|E].
    + assert (replicate (Z.to_nat (nrec ds)) 0 = vals ds) as ->; [|apply codes_ret].
      rewrite <- Hlv. apply replicate_as_elem_of. split; [done|].
      intros y Hy. rewrite Forall_forall in Hv. specialize (Hv y Hy). simpl in Hv. lia.
    + assert (0 <= maxval ds) as Hm0.
      { destruct (vals ds) as [|y ys] eqn:E'; [|inversion Hv; lia]. simpl in Hlv. lia. }
      rewrite <- Hlv. pose proof (GetBitLen_bounds (maxval ds) Hm0).
      pose proof (GetBitLen_le (maxval ds) w ltac:(lia) Hw). apply codes_vals; (done || lia).
  - left. split; [done|]. split; [split; [done|exact Hvr]|]. done.
Qed.

(** The comment of [DataFilt] says that [Merge] reconstructs [maxval]; the one of the common
    divisor rounds it down to a multiple: with the values 7 and 14 and the bound 20 the merged
    set has the bound 14. *)
Theorem GCD_Merge_maxval :
  exists ds', GCD_Merge 32 7 (mkDS [1; 2] (20 / 7) 2) = Ok ds' /\ vals ds' = [7; 14] /\ maxval ds' = 14.
Proof. eexists. split; [reflexivity|]. done. Qed.
