(* ===== verification/TopBitDict.v ===== *)
(** * Dictionary of the highest or lowest bits (compress/TopBitDict.h, compress/TopBitDict.cpp)

    The values are split into a part coded with a dictionary and a rest left for the next
    filter.  How many bits go to the dictionary is decided by comparing estimates of the
    compressed size; the estimates are those of the class [FPU], and what is proved holds for
    any of them that satisfies [FPULaws]. *)

From S2P Require Import Prelude CprsBase QSort RangeCoder HashChain CprsDict NumFilters.

(** What the filters rely on in the arithmetic: a conversion to uint gives a uint, and 0.98
    times a uint is not above [UINT_MAX]. *)
Class FPULaws (H : FPU) : Prop := {
  fpu_uint : forall x, 0 <= to_uint x < 2 ^ 32;
  fpu_098 : forall u, 0 <= u < 2 ^ 32 -> fle (fmul (lit 98 2) (of_int u)) (of_int (2 ^ 32 - 1)) = true
}.

Inductive TopBottom := tbTop | tbBottom.

Section TopBit.
Context `{FPU} (w : Z) (topbottom : TopBottom).

Definition BITSTART : Z := 7.
Definition BITSTEP : Z := 2.
Definition KEYOCCUR : Z := 8.
Definition INF : Z := 2 ^ 32 - 1.

(** [(T)1 << bit], minus one in the type. *)
Definition low_mask (bit : Z) : Z := wrap w (shl w 1 bit - 1).

(** The part of a value that goes to a dictionary of [bit] of its [nbit] bits. *)
Definition dict_key (nbit bit x : Z) : Z :=
  match topbottom with
  | tbTop => Z.shiftr x (nbit - bit)
  | tbBottom => Z.land x (low_mask bit)
  end.

(** Insertion stops when there are too many keys. *)
Fixpoint insert_keys (t : Dict) (xs : list Z) : option (Dict * bool) :=
  match xs with
  | [] => Some (t, true)
  | x :: r =>
      '(t, ok) ← Insert w t x 1;
      if (ok : bool) then insert_keys t r else Some (t, false)
  end.

(** Every [skiprec]-th of the [nrec] values. *)
Definition skipping (ds : DataSet) (skiprec : Z) : list Z :=
  map (fun j => (ds_data ds).[0|j * skiprec]) (range 0 ((nrec ds - 1) / skiprec)).

Definition TB_Insert (t : Dict) (ds : DataSet) (nbit bit skiprec : Z) : option (Dict * bool) :=
  insert_keys (InitInsert t) (map (dict_key nbit bit) (skipping ds skiprec)).

(** The predicted size with this dictionary, in bits. *)
Definition TB_predict (ds : DataSet) (nbit bit skiprec : Z) (t : Dict) : double :=
  let uplen := foldl (fun u kr => fsub u (nlog2n (kcount kr))) (lit 0 0) (keys t) in
  let uplen := if 1 <? skiprec
               then fsub (fmul (of_int skiprec) uplen) (fmul (of_int (nrec ds)) (tab_log2 skiprec))
               else uplen in
  let uplen := fadd uplen (nlog2n (nrec ds)) in
  let cntlen := fsub (tab_log2 MAXTOTAL) (tab_log2 (nkeys t)) in
  fadd (fadd (of_int ((nbit - bit) * nrec ds)) uplen)
       (fmul (fadd (of_int bit) cntlen) (of_int (nkeys t))).

(** The best choice so far: number of bits (0 for none), its prediction and its step. *)
Record Best := mkBest { opt_bit : Z; opt_pred : double; opt_skip : Z; opt_dict : Dict }.

(** The loop over the number of bits; [dict] is the spare dictionary.  [bit] grows by two. *)
Fixpoint FindOptimum_loop (fuel : nat) (ds : DataSet) (nbit : Z) (max_pred : double)
    (bit maxkey : Z) (dict : Dict) (o : Best) : option Best :=
  match fuel with
  | O => None
  | S n =>
      if nbit <? bit then Some o
      else
        let skiprec := nrec ds / (maxkey * KEYOCCUR) in
        let skiprec := if skiprec =? 0 then 1 else skiprec in
        '(dict, ok) ← TB_Insert dict ds nbit bit skiprec;
        if negb ok then Some o
        else
          let pred := TB_predict ds nbit bit skiprec dict in
          let nkey := nkeys dict in
          if flt max_pred pred || flt (fmul (lit 103 2) (opt_pred o)) pred then Some o
          else
            let '(dict, o) :=
              if flt pred (opt_pred o) then
                if skiprec =? 1 then (opt_dict o, mkBest bit pred skiprec dict)
                else (dict, mkBest bit pred skiprec (opt_dict o))
              else (dict, o) in
            FindOptimum_loop n ds nbit max_pred (bit + BITSTEP) (Z.shiftl nkey BITSTEP) dict o
  end.

(** The predicted size, the number of bits and the dictionary of all values. *)
Definition FindOptimum (c0 c1 : Dict) (ds : DataSet) (nbit : Z) : option (Z * Z * Dict) :=
  if nbit <=? 2 then Some (INF, 0, c0)
  else
    let uni_pred := fmul (of_int (nrec ds)) (flog2 (fadd (of_int (maxval ds)) (lit 1 0))) in
    let min_pred := fmul (lit 97 2) uni_pred in
    let max_pred := fmul (lit 99 2) uni_pred in
    let bitstart := if nbit / 2 <? BITSTART then nbit / 2 else BITSTART in
    o ← FindOptimum_loop (Z.to_nat nbit + 1) ds nbit max_pred bitstart (shl 32 1 bitstart) c1
          (mkBest 0 uni_pred 0 c0);
    if (opt_bit o =? 0) || fle min_pred (opt_pred o) then Some (INF, opt_bit o, opt_dict o)
    else
      let r := wrap32 (to_uint (opt_pred o) + 1) in
      if 1 <? opt_skip o then
        '(t, ok) ← TB_Insert (opt_dict o) ds nbit (opt_bit o) 1;
        Some (if (ok : bool) then r else INF, opt_bit o, t)
      else Some (r, opt_bit o, opt_dict o).

(** ** Encoding *)

(** [x >> k] of a type of [w] bits, promoted to at least 32; undefined beyond that. *)
Definition shr_T (x k : Z) : option Z := if Z.max w 32 <=? k then None else Some (Z.shiftr x k).

Fixpoint encode_keys (t : Dict) (xs : list Z) : coder unit :=
  match xs with
  | [] => mret tt
  | x :: r => _ ← Dict_Encode w t x; encode_keys t r
  end.

Definition TopBit_Encode (c0 c1 : Dict) (ds : DataSet) : coder (bool * DataSet) :=
  if maxval ds =? 0 then mret (false, ds)
  else
    let nbit := GetBitLen (maxval ds) in
    match FindOptimum c0 c1 ds nbit with
    | None => undef
    | Some (opt, bitdict, dict) =>
        if fle (fmul (lit 98 2) (of_int (PredictUni ds))) (of_int opt) then mret (false, ds)
        else
          match SetLows dict with
          | Ok dict =>
              let bitlow := match topbottom with tbTop => nbit - bitdict | tbBottom => bitdict end in
              _ ← EncodeUniform 0 7;
              _ ← EncodeUniform bitlow 64;
              match shr_T (maxval ds) bitlow with
              | None => undef
              | Some maxhigh =>
                  let maxlow := low_mask bitlow in
                  let dictmax := match topbottom with tbTop => maxhigh | tbBottom => maxlow end in
                  let key x := match topbottom with tbTop => Z.shiftr x bitlow | tbBottom => Z.land x maxlow end in
                  let rest x := match topbottom with tbTop => Z.land x maxlow | tbBottom => Z.shiftr x bitlow end in
                  _ ← Save w dict dictmax;
                  _ ← encode_keys dict (map key (vals ds));
                  mret (true, mkDS (on_vals rest ds)
                                (match topbottom with tbTop => maxlow | tbBottom => maxhigh end) (nrec ds))
              end
          | Throw e => throw e
          | Undef => undef
          end
    end.

(** ** Decoding *)

Fixpoint decode_keys (t : Dict) (n : nat) : coder (list Z) :=
  match n with
  | O => mret []
  | S n' => x ← Dict_Decode t; r ← decode_keys t n'; mret (x :: r)
  end.

Record TopBitState := mkTB { tb_decoded : list Z; tb_bitlow : Z; maxval_merge : Z }.

Definition TopBit_Decode (c0 : Dict) (ds : DataSet) : coder (TopBitState * DataSet) :=
  ver ← DecodeUniform 8 7;
  if 0 <? ver then throw CPRS_ERR_COR
  else
    bitlow ← DecodeUniform w 64;
    match shr_T (maxval ds) bitlow with
    | None => undef
    | Some maxhigh =>
        let maxlow := low_mask bitlow in
        dict ← Load w c0 (match topbottom with tbTop => maxhigh | tbBottom => maxlow end);
        decoded ← decode_keys dict (Z.to_nat (nrec ds));
        mret (mkTB decoded bitlow (maxval ds),
              mkDS (ds_data ds) (match topbottom with tbTop => maxlow | tbBottom => maxhigh end) (nrec ds))
    end.

(** The decoded bits and the rest of one value. *)
Definition join_bits (bitlow x high : Z) : Z :=
  match topbottom with
  | tbTop => wrap w (Z.lor x (Z.shiftl high bitlow))
  | tbBottom => wrap w (Z.lor (wrap w (Z.shiftl x bitlow)) high)
  end.

Definition TopBit_Merge (st : TopBitState) (ds : DataSet) : res DataSet :=
  Ok (mkDS (zip_with (join_bits (tb_bitlow st)) (vals ds) (tb_decoded st)
            ++ drop (Z.to_nat (nrec ds)) (ds_data ds)) (maxval_merge st) (nrec ds)).

(** [c0] and [c1] are what earlier use left in the two dictionaries of a filter that encodes,
    [d0] in the first one of a filter that decodes. *)
Definition DataFilt_TopBit (c0 c1 d0 : Dict) : DataFilt :=
  mkFilt TopBitState (TopBit_Encode c0 c1) (TopBit_Decode d0) TopBit_Merge.
End TopBit.

(** ** The chosen dictionary *)

Section Optimum.
Context `{FPU} (w : Z) (tb : TopBottom).
Hypothesis Hw : 0 <= w.

Lemma insert_keys_spec xs : forall t pre,
  Inserted w t pre -> zlen pre + zlen xs < 2 ^ 32 - 1 ->
  exists t' ok, insert_keys w t xs = Some (t', ok) /\ (ok = true -> Inserted w t' (pre ++ xs)).
Proof.
  induction xs as [|x xs IH]; intros t pre Hi Hl; simpl.
  - exists t, true. split; [done|]. by rewrite app_nil_r.
  - change (zlen (x :: xs)) with (Z.of_nat (S (length xs))) in Hl.
    destruct (Insert_spec w t pre x Hi) as (t1 & ok & -> & Hok & _); [lia|]. simpl.
    destruct ok; [|by exists t1, false].
    destruct (IH t1 (pre ++ [x])) as (t' & ok' & -> & Hok'); [by apply Hok| |].
    + rewrite zlen_app. unfold zlen in *. simpl. lia.
    + exists t', ok'. split; [done|]. by rewrite <- app_assoc in Hok'.
Qed.

Lemma length_skipping ds skip : 1 <= nrec ds -> 1 <= skip -> zlen (skipping ds skip) <= nrec ds.
Proof.
  intros Hn Hs. unfold skipping, zlen, range. rewrite length_map, length_seqZ.
  assert (0 <= (nrec ds - 1) / skip <= nrec ds - 1); [|lia].
  split; [apply Z.div_pos; lia|apply Z.div_le_upper_bound; nia].
Qed.

Lemma skipping_all ds : 1 <= nrec ds <= zlen (ds_data ds) -> skipping ds 1 = vals ds.
Proof.
  intros Hn. unfold skipping. rewrite Z.div_1_r. apply (znth_ext 0).
  - unfold zlen. rewrite length_map, length_vals by lia. unfold range. rewrite length_seqZ. lia.
  - intros i Hi. unfold zlen, range in Hi. rewrite length_map, length_seqZ in Hi.
    unfold vals, znth. destruct (Z.ltb_spec i 0); [lia|]. rewrite !nth_lookup.
    unfold range. rewrite list_lookup_fmap, lookup_seqZ_lt, lookup_take_lt by lia. simpl.
    destruct (Z.ltb_spec ((0 + Z.of_nat (Z.to_nat i)) * 1) 0); [lia|]. rewrite nth_lookup.
    by replace (Z.to_nat ((0 + Z.of_nat (Z.to_nat i)) * 1)) with (Z.to_nat i) by lia.
Qed.

Lemma TB_Insert_spec t ds nbit bit skip :
  1 <= nrec ds <= CPRS_MAXREC -> nrec ds <= zlen (ds_data ds) -> 1 <= skip ->
  exists t' ok, TB_Insert w tb t ds nbit bit skip = Some (t', ok) /\
    (ok = true -> Inserted w t' (map (dict_key w tb nbit bit) (skipping ds skip))).
Proof.
  intros Hn Hl Hs. unfold TB_Insert.
  destruct (insert_keys_spec (map (dict_key w tb nbit bit) (skipping ds skip)) (InitInsert t) [])
    as (t' & ok & -> & Hok); [by apply Inserted_init| |by exists t', ok].
  pose proof (length_skipping ds skip ltac:(lia) Hs). unfold zlen, CPRS_MAXREC in *. rewrite length_map. simpl. lia.
Qed.

(** The numbers of bits the loop tries: of one parity, and odd for wide values. *)
Definition good_bit (nbit bit : Z) : Prop := 1 <= bit <= nbit /\ (14 <= nbit -> Z.odd bit = true).

(** The best choice, with the dictionary of all values when nothing was skipped. *)
Definition best_ok (ds : DataSet) (nbit : Z) (o : Best) : Prop :=
  opt_bit o = 0 \/
  (good_bit nbit (opt_bit o) /\ 1 <= opt_skip o /\
   (opt_skip o = 1 -> Inserted w (opt_dict o) (map (dict_key w tb nbit (opt_bit o)) (vals ds)))).

Lemma FindOptimum_loop_spec ds nbit max_pred fuel : forall bit maxkey dict o,
  1 <= nrec ds <= CPRS_MAXREC -> nrec ds <= zlen (ds_data ds) ->
  1 <= bit -> (14 <= nbit -> Z.odd bit = true) -> 0 <= maxkey -> best_ok ds nbit o ->
  (Z.to_nat (nbit - bit + 1) < fuel)%nat ->
  exists o', FindOptimum_loop w tb fuel ds nbit max_pred bit maxkey dict o = Some o' /\ best_ok ds nbit o'.
Proof.
  induction fuel as [|n IH]; intros bit maxkey dict o Hn Hl Hb Hodd Hmk Ho Hf; [lia|]. cbn [FindOptimum_loop].
  destruct (Z.ltb_spec nbit bit); [by exists o|].
  set (sk := if _ =? 0 then 1 else _).
  assert (1 <= sk) as Hsk.
  { unfold sk. assert (0 <= nrec ds / (maxkey * KEYOCCUR)).
    - destruct (Z.eq_dec maxkey 0) as [->|]; [by rewrite Z.mul_0_l, Z.div_0_r|].
      apply Z.div_pos; [lia|]. unfold KEYOCCUR. lia.
    - case_cmp; lia. }
  destruct (TB_Insert_spec dict ds nbit bit sk Hn Hl Hsk) as (t & ok & -> & Hok). simpl.
  destruct ok; simpl; [|by exists o]. specialize (Hok eq_refl).
  destruct (_ || _); [by exists o|].
  assert (14 <= nbit -> Z.odd (bit + BITSTEP) = true) as Hodd'.
  { intros Hnb. unfold BITSTEP. rewrite Z.odd_add, Hodd by done. done. }
  assert (0 <= Z.shiftl (nkeys t) BITSTEP) as Hmk' by (apply Z.shiftl_nonneg, zlen_nonneg).
  destruct (flt _ _); [|apply IH; try done; unfold BITSTEP; lia].
  assert (good_bit nbit bit) as Hg by (split; [lia|done]).
  destruct (Z.eqb_spec sk 1) as [E|E]; apply IH; try done; try (unfold BITSTEP; lia); right; simpl.
  - split; [done|]. split; [lia|]. intros _. rewrite E, skipping_all in Hok by lia. done.
  - split; [done|]. split; [lia|]. done.
Qed.

(** The dictionary returned for a size below [INF] holds all values. *)
Lemma FindOptimum_spec c0 c1 ds nbit :
  1 <= nrec ds <= CPRS_MAXREC -> nrec ds <= zlen (ds_data ds) ->
  exists r bit t, FindOptimum w tb c0 c1 ds nbit = Some (r, bit, t) /\
    (r = INF \/ (good_bit nbit bit /\ Inserted w t (map (dict_key w tb nbit bit) (vals ds)))).
Proof.
  intros Hn Hl. unfold FindOptimum. destruct (Z.leb_spec nbit 2); [by exists INF, 0, c0; split; [|left]|].
  cbv zeta. set (bs := if nbit / 2 <? BITSTART then nbit / 2 else BITSTART).
  assert (1 <= bs /\ (14 <= nbit -> bs = 7)) as [Hbs1 Hbs2].
  { unfold bs, BITSTART. pose proof (Z.div_le_lower_bound nbit 2 1). split; [case_cmp; lia|].
    intros Hnb. pose proof (Z.div_le_lower_bound nbit 2 7). case_cmp; lia. }
  destruct (FindOptimum_loop_spec ds nbit
    (fmul (lit 99 2) (fmul (of_int (nrec ds)) (flog2 (fadd (of_int (maxval ds)) (lit 1 0)))))
    (Z.to_nat nbit + 1) bs (shl 32 1 bs) c1
    (mkBest 0 (fmul (of_int (nrec ds)) (flog2 (fadd (of_int (maxval ds)) (lit 1 0)))) 0 c0))
    as (o & -> & Ho); try done; try lia.
  - intros Hnb. by rewrite Hbs2.
  - unfold shl. destruct (32 <=? bs); [lia|]. apply (wrap_word 32). lia.
  - by left.
  - simpl. destruct (Z.eqb_spec (opt_bit o) 0) as [E|E]; simpl; [eexists _, _, _; split; [done|by left]|].
    destruct (fle _ _); [eexists _, _, _; split; [done|by left]|].
    destruct Ho as [Ho|(Hg & Hs1 & Hins)]; [done|].
    destruct (Z.ltb_spec 1 (opt_skip o)).
    + destruct (TB_Insert_spec (opt_dict o) ds nbit (opt_bit o) 1 Hn Hl ltac:(lia)) as (t & ok & -> & Hok). simpl.
      eexists _, _, _. split; [done|]. destruct ok; [right|by left]. split; [done|].
      rewrite <- skipping_all by lia. by apply Hok.
    + eexists _, _, _. split; [done|]. right. split; [done|]. apply Hins. lia.
Qed.
End Optimum.

(** ** The laws *)

(** The element types of the compressor. *)
Definition elem_type (w : Z) : Prop := w = 8 \/ w = 16 \/ w = 32 \/ w = 64.

Section Laws.
Context (w : Z) (tb : TopBottom).
Hypothesis Hw : elem_type w.

Lemma low_mask_val k : 0 <= k <= w -> low_mask w k = 2 ^ k - 1.
Proof.
  intros Hk. unfold low_mask, shl.
  pose proof (Z.pow_pos_nonneg 2 w ltac:(lia) ltac:(lia)). pose proof (Z.pow_pos_nonneg 2 k ltac:(lia) ltac:(lia)).
  destruct (Z.leb_spec w k) as [Hge|Hlt].
  - assert (k = w) as -> by lia. unfold wrap. symmetry. apply (Z.mod_unique _ _ (-1)); lia.
  - rewrite Z.shiftl_1_l. pose proof (Z.pow_lt_mono_r 2 k w ltac:(lia) ltac:(lia) ltac:(lia)).
    rewrite (wrap_id w (2 ^ k)) by (unfold is_word; lia). apply wrap_id. unfold is_word; lia.
Qed.

Lemma land_low_mask x k : 0 <= k <= w -> Z.land x (low_mask w k) = x mod 2 ^ k.
Proof. intros Hk. rewrite low_mask_val, Z.sub_1_r, <- Z.ones_equiv by done. apply Z.land_ones. lia. Qed.

(** The two parts of a value and their bounds. *)
Definition part_key (k x : Z) : Z := match tb with tbTop => Z.shiftr x k | tbBottom => Z.land x (low_mask w k) end.
Definition part_rest (k x : Z) : Z := match tb with tbTop => Z.land x (low_mask w k) | tbBottom => Z.shiftr x k end.
Definition key_max (k m : Z) : Z := match tb with tbTop => Z.shiftr m k | tbBottom => low_mask w k end.
Definition rest_max (k m : Z) : Z := match tb with tbTop => low_mask w k | tbBottom => Z.shiftr m k end.

Lemma parts_bound k m x :
  0 <= k <= w -> 0 <= x <= m -> m < 2 ^ w ->
  0 <= part_key k x <= key_max k m /\ 0 <= part_rest k x <= rest_max k m /\
  key_max k m < 2 ^ w /\ rest_max k m < 2 ^ w.
Proof.
  intros Hk Hx Hm. unfold part_key, part_rest, key_max, rest_max.
  rewrite land_low_mask, low_mask_val, !Z.shiftr_div_pow2 by lia.
  pose proof (Z.pow_pos_nonneg 2 k ltac:(lia) ltac:(lia)) as Hp.
  pose proof (Z.mod_pos_bound x (2 ^ k) Hp) as Hmod.
  pose proof (Z.pow_le_mono_r 2 k w ltac:(lia) ltac:(lia)).
  assert (0 <= x / 2 ^ k <= m / 2 ^ k) by (split; [apply Z.div_pos; lia|apply Z.div_le_mono; lia]).
  assert (m / 2 ^ k <= m) by (apply Z.div_le_upper_bound; nia).
  destruct tb; repeat split; lia.
Qed.

Lemma join_parts k m x :
  0 <= k <= w -> 0 <= x <= m -> m < 2 ^ w -> join_bits w tb k (part_rest k x) (part_key k x) = x.
Proof.
  intros Hk Hx Hm. unfold join_bits, part_rest, part_key.
  pose proof (Z.pow_pos_nonneg 2 k ltac:(lia) ltac:(lia)) as Hp.
  pose proof (Z.mod_pos_bound x (2 ^ k) Hp) as Hmod. pose proof (Z.div_mod x (2 ^ k) ltac:(lia)) as Hdm.
  assert (0 <= x / 2 ^ k) by (apply Z.div_pos; lia).
  destruct tb; rewrite land_low_mask, !Z.shiftr_div_pow2, Z.shiftl_mul_pow2 by lia.
  - rewrite lor_pow2_mul by lia. rewrite wrap_id by (unfold is_word; lia). lia.
  - rewrite (wrap_id w (x / 2 ^ k * 2 ^ k)) by (unfold is_word; nia).
    rewrite lor_mul_pow2 by lia. rewrite wrap_id by (unfold is_word; lia). lia.
Qed.

Lemma codes_keys t0 t es all xs :
  0 <= w -> Coding w t es all -> Forall (fun x => In x all) xs ->
  codes (encode_keys w t xs) (decode_keys (loaded t0 es (tot_shift t)) (length xs)) tt xs.
Proof.
  intros Hw0 Hc. induction 1 as [|x xs Hx HF IH]; simpl; [apply codes_ret|].
  eapply codes_bind; [by apply (codes_Dict w t0 t es all)|]. eapply codes_map; [exact IH|done].
Qed.

Lemma zip_join k xs :
  Forall (fun x => join_bits w tb k (part_rest k x) (part_key k x) = x) xs ->
  zip_with (join_bits w tb k) (map (part_rest k) xs) (map (part_key k) xs) = xs.
Proof. induction 1 as [|x xs Hx HF IH]; simpl; [done|]. by rewrite Hx, IH. Qed.

(** The low part of a good choice never reaches the width in which the shift is computed. *)
Lemma good_bitlow nbit bit :
  nbit <= w -> good_bit nbit bit ->
  let k := match tb with tbTop => nbit - bit | tbBottom => bit end in 0 <= k <= w /\ k < Z.max w 32.
Proof.
  intros Hn ((H1 & H2) & Hodd) k. unfold k. destruct tb; [lia|]. split; [lia|].
  destruct (Z.eq_dec bit w) as [->|]; [|lia].
  destruct Hw as [->|[->|[->| ->]]]; try lia; specialize (Hodd ltac:(lia)); done.
Qed.
End Laws.

(** The filter declines, or codes the dictionary and one part of every value. *)
Lemma TopBit_Encode_cases `{!FPU} `{!FPULaws _} w tb c0 c1 ds :
  elem_type w -> ds_ok w ds ->
  TopBit_Encode w tb c0 c1 ds = mret (false, ds) \/
  exists k t es,
    0 <= k <= w /\ k < Z.max w 32 /\ Coding w t es (map (part_key w tb k) (vals ds)) /\
    TopBit_Encode w tb c0 c1 ds
    = (_ ← EncodeUniform 0 7; _ ← EncodeUniform k 64; _ ← Save w t (key_max w tb k (maxval ds));
       _ ← encode_keys w t (map (part_key w tb k) (vals ds));
       mret (true, mkDS (on_vals (part_rest w tb k) ds) (rest_max w tb k (maxval ds)) (nrec ds))).
Proof.
  intros Hw Hok. pose proof (ds_ok_max w ds Hok) as Hm0. pose proof Hok as (Hn & Hl & Hm & Hv).
  assert (0 <= w) as Hw0 by (unfold elem_type in Hw; lia).
  unfold TopBit_Encode. destruct (Z.eqb_spec (maxval ds) 0); [by left|].
  destruct (FindOptimum_spec w tb Hw0 c0 c1 ds (GetBitLen (maxval ds)) Hn Hl) as (r & bit & t & -> & Hr).
  destruct (fle _ (of_int r)) eqn:Hfle; [by left|right].
  destruct Hr as [->|(Hg & Hins)].
  { unfold INF in Hfle. rewrite fpu_098 in Hfle; [done|]. apply fpu_uint. }
  pose proof (GetBitLen_le (maxval ds) w ltac:(lia) Hw0) as Hnb.
  set (nbit := GetBitLen (maxval ds)) in *.
  destruct (SetLows_spec w t _ Hins) as (t' & es & -> & Hcod & _).
  { unfold zlen. rewrite length_map, length_vals by lia. unfold MAXTOTAL, MAX_TOTAL, BOT, CPRS_MAXREC in *. lia. }
  destruct (good_bitlow w tb Hw nbit bit Hnb Hg) as [Hk1 Hk2]. set (k := match tb with tbTop => nbit - bit | tbBottom => bit end) in *.
  cbv zeta. exists k, t', es. split; [done|]. split; [done|].
  assert (map (dict_key w tb nbit bit) (vals ds) = map (part_key w tb k) (vals ds)) as Hkeys by (unfold k; by destruct tb).
  rewrite Hkeys in Hcod. split; [done|].
  unfold shr_T. destruct (Z.leb_spec (Z.max w 32) k); [lia|]. by destruct tb.
Qed.

Lemma TopBit_defined `{!FPU} `{!FPULaws _} w tb c0 c1 ds :
  elem_type w -> ds_ok w ds -> defined (TopBit_Encode w tb c0 c1 ds).
Proof.
  intros Hw Hok. pose proof (ds_ok_max w ds Hok) as Hm0. assert (0 <= w) as Hw0 by (unfold elem_type in Hw; lia).
  destruct (TopBit_Encode_cases w tb c0 c1 ds Hw Hok) as [->|(k & t & es & Hk & _ & Hc & ->)]; [done|].
  apply defined_bind; [by apply defined_EncodeUniform|]. intros _.
  apply defined_bind; [by apply defined_EncodeUniform|]. intros _.
  apply defined_bind; [apply (defined_Save w t es _ _ Hc)|intros _].
  - destruct (parts_bound w tb k (maxval ds) (maxval ds) Hk ltac:(lia) ltac:(apply Hok)). lia.
  - apply defined_bind; [|done].
    assert (Forall (fun x => In x (map (part_key w tb k) (vals ds))) (map (part_key w tb k) (vals ds))) as Hin
      by (apply Forall_forall; intros x Hx; by apply list_elem_of_In).
    revert Hin. generalize (map (part_key w tb k) (vals ds)) at 2 3 as xs. intros xs Hin.
    induction Hin as [|x xs Hx Hin IH]; simpl; [done|].
    apply defined_bind; [by apply (defined_Dict_Encode w t es _ x Hc)|done].
Qed.

#[export] Instance TopBit_laws `{!FPU} `{!FPULaws _} w tb c0 c1 d0 :
  elem_type w -> FiltLaws w true false (DataFilt_TopBit w tb c0 c1 d0).
Proof.
  intros Hw. assert (0 <= w) as Hw0 by (unfold elem_type in Hw; lia).
  split; [exact (fun ds => TopBit_defined w tb c0 c1 ds Hw)| |]; simpl; intros ds e ds' e' Hok HE;
    destruct (TopBit_Encode_cases w tb c0 c1 ds Hw Hok) as [HEq|(k & t & es & Hk & Hk2 & Hcod & HEq)];
    rewrite HEq in HE |- *.
  - injection HE as <- _. split; [done|apply codes_ret].
  - repeat (apply coder_bind_Ok in HE as (? & ? & _ & HE)). done.
  - done.
  - repeat (let u := fresh "u" in let s := fresh "s" in apply coder_bind_Ok in HE as (u & s & _ & HE)). injection HE as <- _.
    pose proof Hok as (Hn & Hl & Hm & Hv).
    assert (forall x, In x (vals ds) -> 0 <= x <= maxval ds) as Hvx.
    { intros x Hx. rewrite Forall_forall in Hv. apply Hv. by apply list_elem_of_In. }
    destruct (vals_map (part_rest w tb k) ds (rest_max w tb k (maxval ds))) as [Hvr Hzr]; [lia|].
    pose proof (length_vals ds ltac:(lia)) as Hlv.
    assert (exists x0, In x0 (vals ds)) as (x0 & Hx0).
    { destruct (vals ds) as [|y ys]; [simpl in Hlv; lia|]. exists y. by left. }
    destruct (parts_bound w tb k (maxval ds) x0 Hk (Hvx _ Hx0) Hm) as (_ & _ & Hkm & Hrm).
    split.
    + right. split; [|done]. split; [done|]. split; [by rewrite Hzr|]. split; [done|]. rewrite Hvr. apply Forall_map.
      apply Forall_forall. intros x Hx%list_elem_of_In. apply (parts_bound w tb k (maxval ds) x); [done|by apply Hvx|done].
    + intros buf0 Hb. exists (mkTB (map (part_key w tb k) (vals ds)) k (maxval ds)). eexists. split.
      * unfold TopBit_Decode. cbn [maxval nrec ds_data].
        eapply codes_bind; [apply (codes_EncodeUniform 8); lia|]. simpl.
        eapply codes_bind; [apply (codes_EncodeUniform w); unfold elem_type in Hw; [lia| |lia]|].
        { apply Z.lt_le_trans with (2 ^ 8); [done|apply Z.pow_le_mono_r; lia]. }
        unfold shr_T. destruct (Z.leb_spec (Z.max w 32) k); [lia|].
        eapply codes_bind.
        { fold (key_max w tb k (maxval ds)). apply (codes_Save w Hw0 d0 t es _ _ Hcod); [|done].
          apply Forall_map, Forall_forall. intros x Hx%list_elem_of_In.
          apply (parts_bound w tb k (maxval ds) x); [done|by apply Hvx|done]. }
        eapply codes_bind.
        { rewrite <- Hlv, <- (length_map (part_key w tb k)). apply (codes_keys w d0 t es _ _ Hw0 Hcod).
          apply Forall_forall. intros x Hx. by apply list_elem_of_In. }
        apply codes_ret.
      * right. split; [done|]. intros dm [Hs1 Hs2] Hld _. simpl in Hs1. unfold TopBit_Merge. simpl.
        eexists. split; [done|]. rewrite Hs2, Hvr, Hs1.
        rewrite zip_join.
        -- destruct (vals_write (vals ds) (ds_data dm) (maxval ds) (nrec ds) Hlv) as [Hv1 Hz1]; [lia|].
           split; [split; [done|exact Hv1]|]. split; [rewrite Hz1; lia|done].
        -- apply Forall_forall. intros x Hx%list_elem_of_In. apply (join_parts w tb k (maxval ds)); [done|by apply Hvx|done].
Qed.
