(* ===== verification/PartDict.v ===== *)
(** * Partial dictionary of the frequent values (compress/PartDict.h, compress/PartDict.cpp)

    The values that occur at least four times get a range each, all others share the range
    of an escape symbol and are left for the next filter.  [pd_hash] is the table that counts the
    values, [freqkey] the first [nfreq] pointers to its keys by falling count.  The number of
    used buckets, kept for statistics, is left out. *)

From S2P Require Import Prelude CprsBase QSort RangeCoder HashChain CprsDict NumFilters TopBitDict.

Definition MAXLEN : Z := 65536.
Definition MINOCCUR : Z := 4.
Definition MAXFREQ : Z := (MAXTOTAL + 20) / MINOCCUR.

(** [(uint)-1], the low of a key outside the dictionary. *)
Definition NO_LOW : Z := 2 ^ 32 - 1.

Record PartDict := mkPD {
  pd_hash : HashTab; freqkey : list Z;
  esc_count : Z; esc_usecnt : Z; esc_low : Z; esc_high : Z }.

Definition nfreq (p : PartDict) : Z := zlen (freqkey p).

(** What [Load] reads: the frequent values, the table from counts to them and the escape. *)
Record PartVals := mkPV { freqval : list KeyRange; pv_cnt2val : list Z; pv_esc_low : Z; pv_esc_high : Z }.

Section PartDict.
Context `{FPU} (w : Z).

Definition topbit : Z := 15.
Definition nbuck : Z := if 32 <=? w then 2 ^ 17 else 2 ^ w.
Definition mask : Z := nbuck - 1.

(** The hash function of each type; the 64-bit one folds the two halves. *)
Definition hash_fun (key : Z) : Z :=
  if w =? 64 then
    let x := Z.lxor (wrap32 key) (Z.shiftr key 32) in Z.lxor (Z.land x mask) (Z.shiftr x topbit)
  else if w =? 32 then Z.lxor (Z.land key mask) (Z.shiftr key topbit)
  else key.

Definition insert (t : HashTab) (key : Z) : option HashTab :=
  k ← find_key hash_fun t key;
  if k <? 0 then
    if MAXLEN <=? nkeys t then None
    else Some (add_key hash_fun t (mkKR key 1 NO_LOW))
  else Some (count_key t k 1).

Fixpoint insert_all (t : HashTab) (xs : list Z) : option HashTab :=
  match xs with
  | [] => Some t
  | x :: r => t ← insert t x; insert_all t r
  end.

(** One round of the loops that set the lows: [low] and [sumcnt] add up the same counts. *)
Definition lay_step (scale : Z -> Z) (st : list KeyRange * Z) (k : Z) : list KeyRange * Z :=
  let '(ks, low) := st in
  let kr := ks.[kr0|k] in
  let c := scale (kcount kr) in
  (ks.[k <- mkKR (kkey kr) c low], wrap32 (low + c)).

(** The shifted count of a key when there are more values than [MAXTOTAL]. *)
Definition short_count (shift c : Z) : Z := if shr 32 c shift =? 0 then 1 else shr 32 c shift.

(** The ranges of the frequent keys and the escape: the keys, [esc_count], [esc_low] and [esc_high]. *)
Definition lay (ks : list KeyRange) (fk : list Z) (len : Z) : option (list KeyRange * Z * Z * Z) :=
  if MAXTOTAL <? len then
    let shift := GetShift len (MAXTOTAL - zlen fk - 1) in
    let '(ks, low) := foldl (lay_step (short_count shift)) (ks, 0) fk in
    if len <? low then None
    else
      let ec := len - low in
      let sc := shr 32 ec shift in
      let sc := if ((0 <? ec) && (sc =? 0)) || (low =? 0) then 1 else sc in
      if MAXTOTAL <? wrap32 (low + sc) then None else Some (ks, ec, low, wrap32 (low + sc))
  else
    let '(ks, sumcnt) := foldl (lay_step (fun c => c)) (ks, 0) fk in
    if len <? sumcnt then None else Some (ks, len - sumcnt, sumcnt, len).

Definition Create (ds : DataSet) : option PartDict :=
  let len := nrec ds in
  if MAXLEN <? len then None
  else
    t ← insert_all no_keys (vals ds);
    let fk := List.filter (fun k => MINOCCUR <=? kcount (keys t).[kr0|k]) (range 0 (nkeys t - 1)) in
    fk ← (if 0 <? zlen fk then qsort_ib 0 8 (compare (keys t)) fk (zlen fk) else Some fk);
    let nf := if MAXTOTAL / 2 <? zlen fk then MAXTOTAL / 2 else zlen fk in
    if MAXFREQ <? nf then None
    else
      let fk := take (Z.to_nat nf) fk in
      '(ks, ec, el, eh) ← lay (keys t) fk len;
      let eh := shl 32 1 (GetBitLen (wrap32 (eh - 1))) in
      if MAXTOTAL <? eh then None
      else Some (mkPD (set_keys t ks) fk ec (wrap32 (eh - el)) el eh).

(** The predicted size, in bits. *)
Definition Predict (p : PartDict) (ds : DataSet) : option Z :=
  let logmax := flog2 (fadd (of_int (maxval ds)) (lit 1 0)) in
  let x := fadd (lit 0 0)
             (fadd (fadd (of_int 16)
                (fmul (of_int (nfreq p)) (fsub (fadd logmax (tab_log2 MAXTOTAL)) (tab_log2 (nfreq p)))))
                (of_int 16)) in
  let data := fmul (of_int (nrec ds)) (tab_log2 (esc_high p)) in
  let data := if 0 <? esc_count p
              then fsub data (fmul (of_int (esc_count p)) (fsub (tab_log2 (esc_usecnt p)) logmax))
              else data in
  if MAXTOTAL <? nrec ds then None
  else
    let data := foldl (fun d k => fsub d (nlog2n (kcount (keys (pd_hash p)).[kr0|k]))) data (freqkey p) in
    Some (wrap32 (to_uint (fadd x data) + 20)).

(** ** Coding *)

(** The loop over the frequent values is that of [Dictionary::Save]. *)
Definition PD_Save (p : PartDict) (maxv : Z) : coder unit :=
  _ ← EncodeUniform (nfreq p) MAXFREQ;
  _ ← save_keys (keys (pd_hash p)) (freqkey p) maxv (GetBitLen maxv) (MAXTOTAL - 1);
  EncodeUniform (esc_high p) MAXTOTAL.

Definition PD_Load (maxv : Z) : coder PartVals :=
  n ← DecodeUniform 32 MAXFREQ;
  '(ks, cv) ← load_keys w (Z.to_nat n) 0 maxv (GetBitLen maxv) (MAXTOTAL - 1) [] [];
  eh ← DecodeUniform 32 MAXTOTAL;
  if eh <? zlen cv then throw CPRS_ERR_COR else mret (mkPV ks cv (zlen cv) eh).

(** The range of a value, and whether it is the escape's. *)
Definition GetRange (p : PartDict) (val : Z) : option (bool * Z * Z) :=
  k ← find_key hash_fun (pd_hash p) val;
  if k <? 0 then None
  else
    let kr := (keys (pd_hash p)).[kr0|k] in
    if klow kr =? NO_LOW then Some (true, esc_low p, esc_usecnt p)
    else Some (false, klow kr, kcount kr).

(** The value of a count, [None] for the escape, with its range. *)
Definition GetVal (v : PartVals) (c : Z) : option (option Z * Z * Z) :=
  if pv_esc_low v <=? c then Some (None, pv_esc_low v, pv_esc_high v - pv_esc_low v)
  else if negb (in_array (pv_cnt2val v) c) then None
  else let vr := (freqval v).[kr0|(pv_cnt2val v).[0|c]] in Some (Some (kkey vr), klow vr, kcount vr).

(** The values that are escaped.  They are moved to the front of the buffer while it is read;
    a value is never moved past one that is still to be read. *)
Fixpoint encode_parts (p : PartDict) (xs : list Z) (shift : Z) : coder (list Z) :=
  match xs with
  | [] => mret []
  | x :: r =>
      match GetRange p x with
      | None => undef
      | Some (esc, low, cnt) =>
          _ ← EncodeShift low cnt shift;
          rest ← encode_parts p r shift;
          mret (if (esc : bool) then x :: rest else rest)
      end
  end.

Definition PD_Encode (ds : DataSet) : coder (bool * DataSet) :=
  match (p ← Create ds; u ← Predict p ds; Some (p, u)) with
  | None => undef
  | Some (p, u) =>
      if flt (fmul (lit 98 2) (of_int (PredictUni ds))) (of_int u) then mret (false, ds)
      else
        _ ← EncodeUniform 0 7;
        _ ← PD_Save p (maxval ds);
        rest ← encode_parts p (vals ds) (GetBitLen (wrap32 (esc_high p - 1)));
        mret (true, mkDS (rest ++ drop (length rest) (ds_data ds)) (maxval ds) (zlen rest))
  end.

(** [decoded] and [isesc] as one list, in which an escape is [None]. *)
Fixpoint decode_parts (v : PartVals) (n : nat) (shift : Z) : coder (list (option Z)) :=
  match n with
  | O => mret []
  | S n' =>
      c ← GetCountShift shift;
      match GetVal v c with
      | None => undef
      | Some (o, low, count) =>
          _ ← DecodeShift low count shift;
          r ← decode_parts v n' shift;
          mret (o :: r)
      end
  end.

Definition escapes (l : list (option Z)) : Z := zlen (List.filter (fun o => bool_decide (o = None)) l).

Definition PD_Decode (ds : DataSet) : coder (list (option Z) * DataSet) :=
  ver ← DecodeUniform 8 7;
  if 0 <? ver then throw CPRS_ERR_COR
  else
    v ← PD_Load (maxval ds);
    parts ← decode_parts v (Z.to_nat (nrec ds)) (GetBitLen (wrap32 (pv_esc_high v - 1)));
    mret (parts, mkDS (ds_data ds) (maxval ds) (escapes parts)).

(** [while(i-- > 0)]: the escaped values move from the front of the buffer to their places. *)
Fixpoint merge_loop (n : nat) (parts : list (option Z)) (lenrest : Z) (data : list Z) : option (Z * list Z) :=
  match n with
  | O => Some (lenrest, data)
  | S i =>
      if negb (in_array data (Z.of_nat i)) then None
      else
        match parts.[None|Z.of_nat i] with
        | Some x => merge_loop i parts lenrest data.[Z.of_nat i <- x]
        | None =>
            let l := wrap32 (lenrest - 1) in
            if in_array data l then merge_loop i parts l data.[Z.of_nat i <- data.[0|l]] else None
        end
  end.

Definition PD_Merge (parts : list (option Z)) (ds : DataSet) : res DataSet :=
  if negb (nrec ds =? escapes parts) then Undef
  else
    match merge_loop (length parts) parts (escapes parts) (ds_data ds) with
    | Some (lenrest, data) => if lenrest =? 0 then Ok (mkDS data (maxval ds) (zlen parts)) else Undef
    | None => Undef
    end.

Definition DataFilt_PartDict : DataFilt := mkFilt (list (option Z)) PD_Encode PD_Decode PD_Merge.
End PartDict.

(** ** Building the dictionary *)

(** The hash function stays inside the array of buckets. *)
Lemma hash_fun_bound w key : elem_type w -> 0 <= key < 2 ^ w -> 0 <= hash_fun w key < nbuck w.
Proof.
  intros Hw Hk. assert (forall x, is_word 32 x -> is_word 17 (Z.lxor (Z.land x (2 ^ 17 - 1)) (Z.shiftr x 15))) as Hx.
  { intros x Hx. change (2 ^ 17 - 1) with (Z.ones 17). rewrite Z.land_ones, Z.shiftr_div_pow2 by lia.
    apply word_lxor; [lia|apply (wrap_word 17); lia|]. unfold is_word in *.
    split; [apply Z.div_pos; lia|apply Z.div_lt_upper_bound; lia]. }
  unfold hash_fun, mask, nbuck, topbit. destruct Hw as [->|[->|[->| ->]]]; simpl (_ =? _); simpl (32 <=? _); cbn iota.
  - done.
  - done.
  - by apply Hx.
  - apply Hx, word_lxor; [lia|by apply (wrap_word 32)|]. rewrite Z.shiftr_div_pow2 by lia.
    split; [apply Z.div_pos; lia|apply Z.div_lt_upper_bound; lia].
Qed.

(** All lows are still unset. *)
Definition unset (t : HashTab) : Prop := Forall (fun kr => klow kr = NO_LOW) (keys t).

Lemma insert_spec w t xs x :
  Counted (hash_fun w) t xs -> unset t -> zlen xs < MAXLEN ->
  exists t', insert w t x = Some t' /\ Counted (hash_fun w) t' (xs ++ [x]) /\ unset t'.
Proof.
  intros Hct Hu Hlen. unfold MAXLEN in Hlen.
  destruct (find_key_spec (hash_fun w) t x) as (k & Hk & Hcase); [apply Hct|].
  pose proof (Counted_len _ _ _ Hct) as Hn. unfold insert. rewrite Hk. simpl.
  destruct Hcase as [[-> Hno]|[Hk0 Hkey]]; simpl.
  - destruct (Z.leb_spec MAXLEN (nkeys t)) as [Hge|_]; [unfold MAXLEN in Hge; lia|].
    eexists. split; [done|]. split; [by apply Counted_add|]. apply Forall_app. by split; [|constructor].
  - destruct (Z.ltb_spec k 0); [lia|]. eexists. split; [done|].
    split; [rewrite <- Hkey; apply Counted_count; (done || lia)|]. apply zupd_Forall; [done|]. simpl.
    exact (znth_Forall _ kr0 _ _ Hu Hk0).
Qed.

Lemma insert_all_spec w xs : forall t done_xs,
  Counted (hash_fun w) t done_xs -> unset t -> zlen done_xs + zlen xs <= MAXLEN ->
  exists t', insert_all w t xs = Some t' /\ Counted (hash_fun w) t' (done_xs ++ xs) /\ unset t'.
Proof.
  induction xs as [|x xs IH]; intros t ys Hct Hu Hlen; simpl.
  - exists t. by rewrite app_nil_r.
  - unfold zlen in Hlen. simpl in Hlen.
    destruct (insert_spec w t ys x Hct Hu) as (t1 & -> & Hct1 & Hu1); [unfold zlen; lia|]. simpl.
    destruct (IH t1 (ys ++ [x]) Hct1 Hu1) as (t2 & -> & Hct2 & Hu2).
    { rewrite zlen_app. unfold zlen. simpl. lia. }
    exists t2. by rewrite <- app_assoc in Hct2.
Qed.

(** The loop over the frequent keys gives them consecutive ranges and touches no other key. *)
Lemma lay_spec fk : forall ks low,
  NoDup fk -> Forall (fun k => 0 <= k < zlen ks /\ 1 <= kcount ks.[kr0|k]) fk -> 0 <= low ->
  low + sumz (map (fun k => kcount ks.[kr0|k]) fk) < 2 ^ 32 ->
  exists ks' top, foldl (lay_step (fun c => c)) (ks, low) fk = (ks', top) /\
    top = low + sumz (map (fun k => kcount ks.[kr0|k]) fk) /\ zlen ks' = zlen ks /\
    (forall k, kkey ks'.[kr0|k] = kkey ks.[kr0|k] /\ kcount ks'.[kr0|k] = kcount ks.[kr0|k]) /\
    (forall k, k ∉ fk -> ks'.[kr0|k] = ks.[kr0|k]) /\
    lows_from low (map (fun k => ks'.[kr0|k]) fk) top.
Proof.
  induction fk as [|k fk IH]; intros ks low Hnd Hin Hlow Hsum; simpl.
  - exists ks, low. unfold sumz. simpl. split; [done|]. split; [lia|]. done.
  - inversion Hnd as [|? ? Hk Hnd']; subst. inversion Hin as [|? ? [Hk0 Hc] Hin']; subst.
    set (kr := ks.[kr0|k]) in *. set (ks1 := ks.[k <- mkKR (kkey kr) (kcount kr) low]).
    assert (forall i, i <> k -> ks1.[kr0|i] = ks.[kr0|i]) as Hne by (intros i Hi; by apply znth_zupd_ne).
    assert (ks1.[kr0|k] = mkKR (kkey kr) (kcount kr) low) as Heq by (by apply znth_zupd_eq).
    assert (map (fun i => kcount ks1.[kr0|i]) fk = map (fun i => kcount ks.[kr0|i]) fk) as Hmap.
    { apply map_ext_in. intros i Hi. rewrite Hne; [done|]. intros ->. apply Hk. by apply list_elem_of_In. }
    assert (0 <= sumz (map (fun i => kcount ks.[kr0|i]) fk)) as Hs0.
    { apply sumz_nonneg, Forall_map. eapply Forall_impl; [exact Hin'|]. simpl. lia. }
    unfold sumz in Hsum |- *. simpl in Hsum |- *.
    fold (sumz (map (fun i => kcount ks.[kr0|i]) fk)) in Hsum |- *. fold kr in Hsum |- *.
    rewrite wrap_id by (unfold is_word; lia).
    destruct (IH ks1 (low + kcount kr) Hnd') as (ks' & top & -> & Htop & Hlen & Hsame & Hout & Hlows).
    + rewrite Forall_forall in Hin' |- *. intros i Hi. destruct (Hin' i Hi) as [Hi0 Hci].
      unfold ks1 at 1. rewrite zlen_zupd, Hne; [done|]. by intros ->.
    + lia.
    + rewrite Hmap. lia.
    + exists ks', top. rewrite Hmap in Htop. split; [done|]. split; [lia|].
      split; [rewrite Hlen; apply zlen_zupd|]. split; [|split].
      * intros i. destruct (Hsame i) as [-> ->]. destruct (Z.eq_dec i k) as [->|]; [by rewrite Heq|by rewrite Hne].
      * intros i Hi. rewrite not_elem_of_cons in Hi. destruct Hi as [Hik Hi]. by rewrite Hout, Hne.
      * rewrite Hout, Heq by done. simpl. done.
Qed.

(** The dictionary ready for encoding the values [xs]. *)
Record PartOk (w : Z) (p : PartDict) (es : list KeyRange) (xs : list Z) : Prop := {
  po_hash : hash_ok (hash_fun w) (pd_hash p);
  po_found : forall x, In x xs -> exists k, 0 <= k < nkeys (pd_hash p) /\ kkey (keys (pd_hash p)).[kr0|k] = x;
  po_es : es = map (fun k => (keys (pd_hash p)).[kr0|k]) (freqkey p);
  po_only : Forall (fun e => In (kkey e) xs) es;
  po_lows : lows_from 0 es (esc_low p);
  po_desc : desc_from MAXTOTAL es;
  po_low : forall k, 0 <= k < nkeys (pd_hash p) ->
    k ∈ freqkey p \/ (klow (keys (pd_hash p)).[kr0|k] = NO_LOW /\ esc_low p < esc_high p);
  po_esc : 0 <= esc_low p <= esc_high p /\ esc_usecnt p = esc_high p - esc_low p;
  po_high : exists s, 0 <= s <= 16 /\ esc_high p = 2 ^ s;
  po_max : nfreq p <= MAXFREQ
}.

Section Frequent.
Context (ks : list KeyRange) (fk : list Z).
Let c (k : Z) : Z := kcount ks.[kr0|k].
Let n := zlen ks.

Hypothesis Hnd : NoDup fk.
Hypothesis Hin : Forall (fun k => 0 <= k < n) fk.
Hypothesis Hpos : Forall (fun kr => 1 <= kcount kr) ks.

Lemma c_pos k : 0 <= k < n -> 1 <= c k.
Proof. intros Hk. exact (znth_Forall _ kr0 ks k Hpos Hk). Qed.

Lemma freq_sum : sumz (map c fk) <= counts ks.
Proof.
  rewrite <- counts_range. apply (sumz_submseteq c).
  - apply NoDup_submseteq; [done|]. intros k Hk. rewrite Forall_forall in Hin. specialize (Hin k Hk).
    simpl in Hin. apply list_elem_of_In, range_In. unfold n in Hin. lia.
  - apply Forall_forall. intros k Hk%list_elem_of_In%range_In. pose proof (c_pos k). unfold n in *. lia.
Qed.

(** A key outside the dictionary leaves room for the escape. *)
Lemma rare_sum k : 0 <= k < n -> k ∉ fk -> sumz (map c fk) < counts ks.
Proof.
  intros Hk Hkf. rewrite <- counts_range. pose proof (c_pos k Hk) as Hc.
  assert (sumz (map c (k :: fk)) <= sumz (map c (range 0 (zlen ks - 1)))) as Hs.
  { apply sumz_submseteq.
    - apply NoDup_submseteq; [by constructor|]. intros i Hi. apply list_elem_of_In, range_In.
      apply list_elem_of_In in Hi as [<-|Hi%list_elem_of_In]; [unfold n in Hk; lia|].
      rewrite Forall_forall in Hin. specialize (Hin i Hi). simpl in Hin. unfold n in Hin. lia.
    - apply Forall_forall. intros i Hi%list_elem_of_In%range_In. pose proof (c_pos i). unfold n in *. lia. }
  unfold sumz in *. simpl in *. fold c. lia.
Qed.

Lemma freq_len m : Forall (fun k => m <= c k) fk -> m * zlen fk <= sumz (map c fk).
Proof. clear. induction 1; unfold zlen, sumz in *; simpl; lia. Qed.

Lemma desc_from_sorted top l :
  Forall (fun k => c k <= top) l -> (forall i j, 0 <= i <= j -> j < zlen l -> c l.[0|j] <= c l.[0|i]) ->
  desc_from top (map (fun k => ks.[kr0|k]) l).
Proof.
  clear. revert top. induction l as [|k l IH]; intros top Hf Hs; simpl; [done|]. inversion Hf as [|? ? Hk Hf']; subst.
  split; [done|]. apply IH.
  - apply Forall_forall. intros x Hx. apply list_elem_of_lookup in Hx as (i & Hi).
    specialize (Hs 0 (Z.of_nat (S i)) ltac:(lia)). apply lookup_lt_Some in Hi as Hlt.
    rewrite (znth_lookup_Some 0 (k :: l) (S i) x Hi) in Hs. apply Hs. unfold zlen. simpl. lia.
  - intros i j Hij Hj. specialize (Hs (i + 1) (j + 1) ltac:(lia)).
    assert (forall m, 0 <= m -> (k :: l).[0|m + 1] = l.[0|m]) as Hcons.
    { intros m Hm. change (k :: l) with ([k] ++ l). rewrite znth_app_r by (unfold zlen; simpl; lia).
      change (zlen [k]) with 1. f_equal. lia. }
    rewrite !Hcons in Hs by lia. apply Hs. unfold zlen in *. simpl. lia.
Qed.
End Frequent.

Lemma freq_sorted ks f :
  zlen f <= MAXLEN ->
  exists fk, (if 0 <? zlen f then qsort_ib 0 8 (compare ks) f (zlen f) else Some f) = Some fk /\ fk ≡ₚ f /\
    forall i j, 0 <= i <= j -> j < zlen fk -> kcount ks.[kr0|fk.[0|j]] <= kcount ks.[kr0|fk.[0|i]].
Proof.
  intros Hmax. unfold MAXLEN in Hmax. pose proof (zlen_nonneg f) as Hn. destruct (Z.ltb_spec 0 (zlen f)).
  - destruct (qsort_ib_spec 0 8 (compare ks) (zlen f) ltac:(unfold sizes_fit, PIVOT_SIZE; lia) f)
      as (fk & -> & Hl & Hp & Hs & _); [lia|lia|].
    exists fk. split; [done|]. split; [done|]. intros i j Hi Hj.
    specialize (Hs i j ltac:(lia) ltac:(lia)). unfold compare in Hs. revert Hs. case_cmp; lia.
  - exists f. split; [done|]. split; [done|]. lia.
Qed.

Lemma PartDict_Create_spec w ds :
  1 <= nrec ds <= MAXLEN -> nrec ds <= zlen (ds_data ds) ->
  exists p es, Create w ds = Some p /\ PartOk w p es (vals ds).
Proof.
  intros Hn Hl. unfold MAXLEN in Hn. unfold Create.
  destruct (Z.ltb_spec MAXLEN (nrec ds)) as [Hgt|_]; [unfold MAXLEN in Hgt; lia|].
  pose proof (length_vals ds ltac:(lia)) as Hlv.
  assert (zlen (vals ds) = nrec ds) as Hzl by (unfold zlen; lia).
  destruct (insert_all_spec w (vals ds) no_keys []) as (t & -> & Hct & Hu);
    [apply Counted_init|constructor|unfold MAXLEN; rewrite Hzl; unfold zlen; simpl; lia|]. simpl in Hct |- *.
  pose proof (Counted_pos _ _ _ Hct) as Hpos. pose proof (cnt_sum _ _ _ Hct) as Hsum. rewrite Hzl in Hsum.
  set (f := List.filter _ _). destruct (freq_sorted (keys t) f) as (fk & -> & Hp & Hsort).
  { pose proof (counts_length (keys t) Hpos) as Hc. unfold MAXLEN.
    assert (length f <= length (range 0 (nkeys t - 1)))%nat as Hf by apply List.filter_length_le.
    assert (length (range 0 (nkeys t - 1)) = Z.to_nat (nkeys t)) as Hr by (unfold range; rewrite length_seqZ; lia).
    unfold nkeys, zlen in *.
    lia. }
  simpl.
  assert (Forall (fun k => 0 <= k < zlen (keys t) /\ MINOCCUR <= kcount (keys t).[kr0|k]) fk) as Hfk.
  { rewrite Hp. apply Forall_forall. intros k Hk%list_elem_of_In. apply filter_In in Hk as [Hk%range_In Hc].
    apply Z.leb_le in Hc. unfold nkeys in Hk. lia. }
  assert (NoDup fk) as Hnd by (rewrite Hp; apply NoDup_ListNoDup, List.NoDup_filter, NoDup_ListNoDup, NoDup_seqZ).
  assert (Forall (fun k => 0 <= k < zlen (keys t)) fk) as Hin by (eapply Forall_impl; [exact Hfk|]; simpl; tauto).
  pose proof (freq_sum (keys t) fk Hnd Hin Hpos) as Hfs.
  pose proof (freq_len (keys t) fk MINOCCUR ltac:(eapply Forall_impl; [exact Hfk|]; simpl; tauto)) as Hfl.
  unfold MINOCCUR in Hfl.
  destruct (Z.ltb_spec (MAXTOTAL / 2) (zlen fk)) as [Hgt|_]; [change (MAXTOTAL / 2) with 32768 in Hgt; lia|].
  destruct (Z.ltb_spec MAXFREQ (zlen fk)) as [Hgt|Hmf]; [change MAXFREQ with 16389 in Hgt; lia|].
  rewrite take_ge by (unfold zlen; lia). unfold lay.
  destruct (Z.ltb_spec MAXTOTAL (nrec ds)) as [Hgt|_]; [unfold MAXTOTAL, MAX_TOTAL, BOT in Hgt; lia|].
  destruct (lay_spec fk (keys t) 0 Hnd) as (ks' & top & -> & Htop & Hlen & Hsame & Hout & Hlows);
    [eapply Forall_impl; [exact Hfk|]; unfold MINOCCUR; simpl; lia|lia|lia|].
  rewrite Z.add_0_l in Htop. destruct (Z.ltb_spec (nrec ds) top); [lia|]. simpl.
  rewrite (wrap_id 32 (nrec ds - 1)) by (unfold is_word; lia). set (s := GetBitLen (nrec ds - 1)).
  assert (0 <= s <= 16) as Hs by (split; [apply GetBitLen_bounds; lia|apply GetBitLen_le; lia]).
  pose proof (pow2_above (nrec ds) ltac:(lia)) as Hab. fold s in Hab.
  pose proof (Z.pow_le_mono_r 2 s 16 ltac:(lia) ltac:(lia)) as H16. rewrite shl_1 by lia.
  destruct (Z.ltb_spec MAXTOTAL (2 ^ s)) as [Hgt|_]; [unfold MAXTOTAL, MAX_TOTAL, BOT in Hgt; lia|].
  assert (0 <= top) as Htop0 by (pose proof (lows_from_total _ _ _ Hlows) as [Ht Hp1]; rewrite <- Ht;
    apply (sumz_nonneg (map kcount _)), Forall_map; eapply Forall_impl; [exact Hp1|]; simpl; lia).
  eexists _, _. split; [reflexivity|]. split; cbn [pd_hash freqkey esc_low esc_high esc_usecnt];
    unfold nkeys, set_keys; cbn [keys]; rewrite ?Hlen.
  - apply hash_ok_recount; [apply Hct|done|]. intros k _. apply Hsame.
  - intros x Hx. destruct (cnt_found _ _ _ Hct x Hx) as (k & Hk & Hkx). exists k. split; [done|].
    destruct (Hsame k) as [-> _]. done.
  - done.
  - apply Forall_map. eapply Forall_impl; [exact Hin|]. simpl. intros k Hk. destruct (Hsame k) as [-> _].
    by apply (znth_Forall _ kr0 (keys t) k (cnt_only _ _ _ Hct) Hk).
  - done.
  - apply (desc_from_sorted ks' MAXTOTAL).
    + eapply Forall_impl; [exact Hin|]. simpl. intros k Hk. destruct (Hsame k) as [_ ->].
      pose proof (counts_le (keys t) k Hpos Hk). unfold MAXTOTAL, MAX_TOTAL, BOT. lia.
    + intros i j Hi Hj. destruct (Hsame fk.[0|i]) as [_ ->]. destruct (Hsame fk.[0|j]) as [_ ->]. by apply Hsort.
  - intros k Hk. destruct (decide (k ∈ fk)) as [Hkf|Hkf]; [by left|right]. rewrite Hout by done.
    split; [exact (znth_Forall _ kr0 _ _ Hu Hk)|].
    pose proof (rare_sum (keys t) fk Hnd Hin Hpos k Hk Hkf). lia.
  - rewrite wrap_id by (unfold is_word; lia). lia.
  - by exists s.
  - done.
Qed.

(** ** The dictionary in the stream *)

Definition part_vals (p : PartDict) (es : list KeyRange) : PartVals :=
  mkPV es (expand 0 es) (esc_low p) (esc_high p).

Lemma codes_PD_Save w p es xs maxv :
  0 <= w -> PartOk w p es xs -> Forall (fun x => 0 <= x <= maxv) xs -> 0 <= maxv < 2 ^ w ->
  codes (PD_Save p maxv) (PD_Load w maxv) tt (part_vals p es).
Proof.
  intros Hw0 Hok Hx Hm. destruct (po_high _ _ _ _ Hok) as (s & Hs & Hhigh).
  pose proof (Z.pow_le_mono_r 2 s 16 ltac:(lia) ltac:(lia)) as H16. destruct (po_esc _ _ _ _ Hok) as [He _].
  unfold PD_Save, PD_Load. pose proof (po_max _ _ _ _ Hok) as Hmax.
  assert (0 <= nfreq p) by apply zlen_nonneg.
  eapply codes_bind; [apply (codes_EncodeUniform 32); [lia|done|lia]|].
  eapply codes_bind.
  - assert (Z.to_nat (nfreq p) = length (freqkey p)) as -> by (unfold nfreq, zlen; lia).
    apply (codes_save_keys w Hw0 (keys (pd_hash p)) maxv (GetBitLen maxv) (esc_low p) (freqkey p) 0 (MAXTOTAL - 1) [] []);
      try done; rewrite <- ?(po_es _ _ _ _ Hok).
    + apply (po_lows _ _ _ _ Hok).
    + unfold MAXTOTAL, MAX_TOTAL, BOT. lia.
    + replace (MAXTOTAL - 1 + 1) with MAXTOTAL by lia. apply (po_desc _ _ _ _ Hok).
    + eapply Forall_impl; [apply (po_only _ _ _ _ Hok)|]. simpl. intros e He'. rewrite Forall_forall in Hx.
      by apply Hx, list_elem_of_In.
    + lia.
    + apply GetBitLen_bounds. lia.
  - eapply codes_map; [apply (codes_EncodeUniform 32); unfold MAXTOTAL, MAX_TOTAL, BOT; lia|].
    simpl. rewrite <- (po_es _ _ _ _ Hok), (zlen_expand 0 es 0 _ (po_lows _ _ _ _ Hok)), Z.sub_0_r.
    destruct (Z.ltb_spec (esc_high p) (esc_low p)); [lia|done].
Qed.

(** A value of the pack has its own range or the escape's. *)
Lemma GetRange_spec w p es xs x :
  PartOk w p es xs -> In x xs ->
  (exists m kr, es !! m = Some kr /\ kkey kr = x /\ GetRange w p x = Some (false, klow kr, kcount kr)) \/
  (GetRange w p x = Some (true, esc_low p, esc_usecnt p) /\ esc_low p < esc_high p).
Proof.
  intros Hok Hx. unfold GetRange.
  destruct (find_key_spec (hash_fun w) (pd_hash p) x (po_hash _ _ _ _ Hok)) as (k & -> & Hcase). simpl.
  destruct Hcase as [[-> Hno]|[Hk Hkey]].
  { destruct (po_found _ _ _ _ Hok x Hx) as (k & Hk & Hkey). by apply Hno in Hkey. }
  destruct (Z.ltb_spec k 0); [lia|]. set (kr := (keys (pd_hash p)).[kr0|k]) in *.
  destruct (po_low _ _ _ _ Hok k Hk) as [Hkf|[Hlow Hesc]].
  - left. apply list_elem_of_lookup in Hkf as (m & Hm). exists m, kr.
    assert (es !! m = Some kr) as Hes by (rewrite (po_es _ _ _ _ Hok), list_lookup_fmap, Hm; done).
    split; [done|]. split; [done|]. pose proof (po_lows _ _ _ _ Hok) as Hlows.
    destruct (lows_from_total _ _ _ Hlows) as [_ Hpos].
    pose proof (Forall_lookup_1 _ _ _ _ Hpos Hes) as Hc1. simpl in Hc1.
    destruct (expand_lookup es 0 0 _ m kr (klow kr) Hlows Hes ltac:(lia)) as [_ Hb].
    destruct (po_high _ _ _ _ Hok) as (s & Hs & Hhigh). destruct (po_esc _ _ _ _ Hok) as [He _].
    pose proof (Z.pow_le_mono_r 2 s 16 ltac:(lia) ltac:(lia)).
    destruct (Z.eqb_spec (klow kr) NO_LOW) as [E|]; [unfold NO_LOW in E; lia|done].
  - right. fold kr in Hlow. by rewrite Hlow, Z.eqb_refl.
Qed.

(** What is decoded for a value: itself, or [None] for the escape. *)
Definition part_of (w : Z) (p : PartDict) (x : Z) : option Z :=
  match GetRange w p x with Some (false, _, _) => Some x | _ => None end.

Definition rare (w : Z) (p : PartDict) (xs : list Z) : list Z :=
  List.filter (fun x => bool_decide (part_of w p x = None)) xs.

Lemma rare_cons w p x xs :
  rare w p (x :: xs) = match part_of w p x with None => x :: rare w p xs | Some _ => rare w p xs end.
Proof. unfold rare. simpl. by destruct (part_of w p x). Qed.

Lemma codes_parts w p es all xs :
  PartOk w p es all -> Forall (fun x => In x all) xs ->
  let shift := GetBitLen (wrap32 (esc_high p - 1)) in
  codes (encode_parts w p xs shift) (decode_parts (part_vals p es) (length xs) shift)
        (rare w p xs) (map (part_of w p) xs).
Proof.
  intros Hok Hin. destruct (po_high _ _ _ _ Hok) as (s & Hs & Hhigh). rewrite Hhigh.
  pose proof (Z.pow_le_mono_r 2 s 16 ltac:(lia) ltac:(lia)) as H16.
  pose proof (Z.pow_pos_nonneg 2 s ltac:(lia) ltac:(lia)) as Hp0.
  rewrite wrap_id, GetBitLen_ones by (unfold is_word; lia). cbv zeta.
  destruct (po_esc _ _ _ _ Hok) as [He Hu]. pose proof (po_lows _ _ _ _ Hok) as Hlows.
  destruct (lows_from_total _ _ _ Hlows) as [_ Hpos].
  induction Hin as [|x xs Hx Hin IH]; [apply codes_ret|]. rewrite rare_cons. cbn [encode_parts length decode_parts map].
  destruct (GetRange_spec w p es all x Hok Hx) as [(m & kr & Hes & Hkey & HG)|[HG Hesc]];
    unfold part_of; rewrite HG; fold (part_of w p).
  - pose proof (Forall_lookup_1 _ _ _ _ Hpos Hes) as Hc1. simpl in Hc1.
    pose proof (fun c Hc => expand_lookup es 0 0 _ m kr c Hlows Hes Hc) as Hexp.
    destruct (Hexp (klow kr) ltac:(lia)) as [_ Hb1]. destruct (Hexp (klow kr + kcount kr - 1) ltac:(lia)) as [_ Hb2].
    apply (codes_EncodeShift _ _ _ _ _ (r ← decode_parts (part_vals p es) (length xs) s; mret (Some x :: r)));
      [lia|lia|lia|lia| |].
    + intros c st Hc. destruct (Hexp c Hc) as [Hcv Hb]. rewrite Z.sub_0_r in Hcv. unfold GetVal, part_vals. simpl.
      destruct (Z.leb_spec (esc_low p) c); [lia|].
      rewrite in_array_true by (rewrite (zlen_expand 0 es 0 _ Hlows); lia). cbn [negb].
      rewrite Hcv, Z.add_0_l, (znth_lookup_Some kr0 es m kr Hes), Hkey. done.
    + eapply codes_bind; [exact IH|apply codes_ret].
  - apply (codes_EncodeShift _ _ _ _ _ (r ← decode_parts (part_vals p es) (length xs) s; mret (None :: r)));
      [lia|lia|lia|lia| |].
    + intros c st Hc. unfold GetVal, part_vals. simpl. destruct (Z.leb_spec (esc_low p) c); [|lia].
      by rewrite Hu.
    + eapply codes_bind; [exact IH|apply codes_ret].
Qed.

(** ** Merging *)

Section Merge.
Context (f : Z -> option Z).
Hypothesis Hf : forall x, f x = None \/ f x = Some x.
Let esc (xs : list Z) : list Z := List.filter (fun x => bool_decide (f x = None)) xs.

Lemma esc_length xs : (length (esc xs) <= length xs)%nat.
Proof. apply List.filter_length_le. Qed.

Lemma esc_snoc xs x : esc (xs ++ [x]) = esc xs ++ (if bool_decide (f x = None) then [x] else []).
Proof. unfold esc. by rewrite List.filter_app. Qed.

(** Walking down, the escaped values still to be placed are in front. *)
Lemma merge_loop_spec xs n : forall data,
  (n <= length xs)%nat -> (n <= length data)%nat -> zlen xs < 2 ^ 32 ->
  take (length (esc (take n xs))) data = esc (take n xs) ->
  merge_loop n (map f xs) (zlen (esc (take n xs))) data = Some (0, take n xs ++ drop n data).
Proof.
  induction n as [|i IH]; intros data Hn Hd Hl Hpre; [done|].
  destruct (lookup_lt_is_Some_2 xs i Hn) as [x Hx]. cbn [merge_loop].
  rewrite in_array_true by (unfold zlen; lia). cbn [negb].
  assert ((map f xs).[None|Z.of_nat i] = f x) as ->.
  { apply znth_lookup_Some. by rewrite list_lookup_fmap, Hx. }
  rewrite (take_S_r xs i x Hx), esc_snoc in *.
  pose proof (esc_length (take i xs)) as Hle. rewrite length_take in Hle.
  assert (forall y, drop i data.[Z.of_nat i <- y] = y :: drop (S i) data) as Hdrop.
  { intros y. unfold zupd. destruct (Z.ltb_spec (Z.of_nat i) 0); [lia|]. rewrite Nat2Z.id.
    erewrite drop_S by (apply list_lookup_insert_eq; lia). by rewrite drop_insert_lt by lia. }
  assert (forall y m, (m <= i)%nat -> take m data.[Z.of_nat i <- y] = take m data) as Htake.
  { intros y m Hm. unfold zupd. destruct (Z.ltb_spec (Z.of_nat i) 0); [lia|]. rewrite Nat2Z.id.
    by rewrite take_insert_ge by lia. }
  assert (forall y, length data.[Z.of_nat i <- y] = length data) as Hlen.
  { intros y. unfold zupd. destruct (Z.of_nat i <? 0); [done|apply length_insert]. }
  destruct (Hf x) as [E|E]; rewrite E in *; cbn in Hpre |- *.
  - rewrite zlen_app. change (zlen [x]) with 1. rewrite Z.add_simpl_r.
    rewrite wrap_id by (unfold is_word, zlen in *; lia).
    rewrite length_app, Nat.add_1_r in Hpre.
    assert (data !! length (esc (take i xs)) = Some x) as Hlast.
    { rewrite <- (lookup_take_lt data (S (length (esc (take i xs))))) by lia. rewrite Hpre.
      apply list_lookup_middle. done. }
    rewrite in_array_true by (unfold zlen; lia). unfold zlen at 2. rewrite (znth_lookup_Some 0 data _ x Hlast).
    rewrite IH, Hdrop, <- app_assoc; [done|lia|rewrite Hlen; lia|done|].
    rewrite Htake by lia. apply (f_equal (take (length (esc (take i xs))))) in Hpre.
    rewrite take_take, take_app_length in Hpre. by rewrite Nat.min_l in Hpre by lia.
  - rewrite app_nil_r in *. rewrite IH, Hdrop, <- app_assoc; [done|lia|rewrite Hlen; lia|done|].
    rewrite Htake by lia. done.
Qed.

Lemma escapes_map xs : escapes (map f xs) = zlen (esc xs).
Proof.
  unfold escapes, esc, zlen. f_equal. induction xs as [|x xs IH]; simpl; [done|].
  destruct (Hf x) as [->| ->]; simpl; lia.
Qed.

(** Merging the escaped values into the decoded ones gives back the values. *)
Lemma PD_Merge_spec ds xs :
  zlen xs <= zlen (ds_data ds) -> zlen xs < 2 ^ 32 -> nrec ds = zlen (esc xs) -> vals ds = esc xs ->
  PD_Merge (map f xs) ds
  = Ok (mkDS (xs ++ drop (length xs) (ds_data ds)) (maxval ds) (zlen xs)).
Proof.
  intros Hl Hb Hn Hv. unfold PD_Merge. rewrite escapes_map, Hn, Z.eqb_refl, length_map. cbn [negb].
  pose proof (merge_loop_spec xs (length xs) (ds_data ds)) as Hm. rewrite firstn_all in Hm.
  unfold zlen in Hl. rewrite Hm; [| lia | lia | done |].
  - simpl. unfold zlen. by rewrite length_map.
  - rewrite <- Hv at 2. unfold vals. rewrite Hn. unfold zlen. by rewrite Nat2Z.id.
Qed.
End Merge.

(** ** The laws *)

Lemma part_of_cases w p x : part_of w p x = None \/ part_of w p x = Some x.
Proof. unfold part_of. destruct (GetRange w p x) as [[[[|] ?] ?]|]; auto. Qed.

Lemma encode_parts_rare w p xs shift : forall e r e',
  encode_parts w p xs shift e = Ok (r, e') -> r = rare w p xs.
Proof.
  induction xs as [|x xs IH]; intros e r e' HE; [by injection HE as <- _|]. rewrite rare_cons. cbn [encode_parts] in HE.
  unfold part_of. destruct (GetRange w p x) as [[[b ?] ?]|]; [|done].
  apply coder_bind_Ok in HE as (? & ? & _ & HE). apply coder_bind_Ok in HE as (r' & ? & HE & HR).
  apply IH in HE. injection HR as <- _. subst r'. by destruct b.
Qed.

(** The filter declines, or codes the dictionary and a symbol for every value. *)
Lemma PD_Encode_cases `{!FPU} w ds :
  ds_ok w ds ->
  PD_Encode w ds = mret (false, ds) \/
  exists p es, PartOk w p es (vals ds) /\
    PD_Encode w ds
    = (_ ← EncodeUniform 0 7; _ ← PD_Save p (maxval ds);
       rest ← encode_parts w p (vals ds) (GetBitLen (wrap32 (esc_high p - 1)));
       mret (true, mkDS (rest ++ drop (length rest) (ds_data ds)) (maxval ds) (zlen rest))).
Proof.
  intros (Hn & Hl & Hm & Hv). destruct (PartDict_Create_spec w ds) as (p & es & HC & Hok); [done|done|].
  unfold PD_Encode. rewrite HC. simpl. unfold Predict. cbv zeta.
  destruct (Z.ltb_spec MAXTOTAL (nrec ds)) as [Hgt|_]; [unfold MAXTOTAL, MAX_TOTAL, BOT, CPRS_MAXREC in *; lia|]. simpl.
  destruct (flt _ _); [by left|right]. by exists p, es.
Qed.

Lemma PD_defined `{!FPU} w ds : ds_ok w ds -> defined (PD_Encode w ds).
Proof.
  intros Hok. pose proof (ds_ok_max w ds Hok) as Hm0.
  destruct (PD_Encode_cases w ds Hok) as [->|(p & es & Hp & ->)]; [done|].
  apply defined_bind; [by apply defined_EncodeUniform|]. intros _. apply defined_bind; [|intros _].
  - pose proof (GetBitLen_bounds (maxval ds) Hm0).
    apply defined_bind; [by apply defined_EncodeUniform|]. intros _.
    apply defined_bind; [apply defined_save_keys; [lia|done]|]. intros _. by apply defined_EncodeUniform.
  - apply defined_bind; [|done]. generalize (GetBitLen (wrap32 (esc_high p - 1))) as shift. intros shift.
    assert (Forall (fun x => In x (vals ds)) (vals ds)) as Hin
      by (apply Forall_forall; intros x Hx; by apply list_elem_of_In).
    revert Hin. generalize (vals ds) at 2 3 as xs. intros xs Hin.
    induction Hin as [|x xs Hx Hin IH]; simpl; [done|].
    destruct (GetRange_spec w p es (vals ds) x Hp Hx) as [(m & kr & _ & _ & ->)|[-> _]];
      (apply defined_bind; [apply defined_EncodeShift|]; intros _; by apply defined_bind).
Qed.

#[export] Instance PartDict_laws `{!FPU} w : 0 <= w -> FiltLaws w true false (DataFilt_PartDict w).
Proof.
  intros Hw0. split; [exact (PD_defined w)| |]; simpl; intros ds e ds' e' Hok HE;
    destruct (PD_Encode_cases w ds Hok) as [HEq|(p & es & Hp & HEq)]; rewrite HEq in HE.
  - rewrite HEq. injection HE as <- _. split; [done|apply codes_ret].
  - repeat (apply coder_bind_Ok in HE as (? & ? & _ & HE)). done.
  - done.
  - pose proof Hok as (Hn & Hl & Hm & Hv). pose proof (length_vals ds ltac:(lia)) as Hlv.
    pose proof (ds_ok_max w ds Hok) as Hm0.
    set (dr := mkDS (rare w p (vals ds) ++ drop (length (rare w p (vals ds))) (ds_data ds)) (maxval ds)
                 (zlen (rare w p (vals ds)))).
    assert (forall buf0, codes (PD_Encode w ds) (PD_Decode w (mkDS buf0 (maxval ds) (nrec ds))) (true, dr)
      (map (part_of w p) (vals ds), mkDS buf0 (maxval ds) (nrec dr))) as Hcodes.
    { intros buf0. rewrite HEq. unfold PD_Decode. cbn [maxval nrec ds_data].
      eapply codes_bind; [apply (codes_EncodeUniform 8); lia|]. simpl.
      eapply codes_bind; [apply (codes_PD_Save w p es (vals ds)); (done || lia)|].
      eapply codes_bind.
      { rewrite <- Hlv. apply (codes_parts w p es (vals ds) (vals ds) Hp).
        apply Forall_forall. intros x Hx. by apply list_elem_of_In. }
      rewrite (escapes_map (part_of w p) (part_of_cases w p)). apply codes_ret. }
    assert (ds' = dr) as ->.
    { apply coder_bind_Ok in HE as (? & ? & _ & HE). apply coder_bind_Ok in HE as (? & ? & _ & HE).
      apply coder_bind_Ok in HE as (r & ? & HR & HE). apply encode_parts_rare in HR as ->. by injection HE as <- _. }
    assert (length (rare w p (vals ds)) <= length (vals ds))%nat as Hrl by apply List.filter_length_le.
    destruct (vals_write (rare w p (vals ds)) (ds_data ds) (maxval ds) (nrec dr)) as [Hvr Hzr];
      [unfold dr, zlen; simpl; lia|unfold dr, zlen in *; simpl; lia|].
    unfold dr, zlen in Hvr, Hzr. simpl in Hvr, Hzr. rewrite Nat2Z.id in Hvr, Hzr.
    split.
    + destruct (Z.eq_dec (nrec dr) 0) as [|Hne]; [by left|right].
      split; [|unfold dr, zlen in *; simpl; lia]. split; [unfold dr, zlen in *; simpl in *; lia|]. split; [unfold dr, zlen in *; simpl in *; lia|]. split; [done|].
      unfold dr, zlen. rewrite Hvr. apply Forall_forall. intros x Hx%list_elem_of_In. apply filter_In in Hx as [Hx _].
      rewrite Forall_forall in Hv. by apply Hv, list_elem_of_In.
    + intros buf0 Hb. eexists _, _. split; [apply Hcodes|]. right. split; [done|].
      intros dm [Hs1 Hs2] Hld _. unfold dr, zlen in Hs2. rewrite Hvr in Hs2.
      assert (zlen (vals ds) = nrec ds) as Hzv by (unfold zlen; lia).
      eexists. split; [apply (PD_Merge_spec (part_of w p) (part_of_cases w p)); unfold CPRS_MAXREC in Hn; (done || lia)|].
      destruct (vals_write (vals ds) (ds_data dm) (maxval dm) (nrec ds) Hlv) as [Hv1 Hz1]; [lia|].
      rewrite Hzv, Hlv. split; [split; [done|exact Hv1]|]. split; [by rewrite Hz1|done].
Qed.
