(* ===== verification/NumCompressor.v ===== *)
(** * The numeric compressor (compress/NumCompressor.h)

    [CompressT] runs the values of a pack through a list of filters and stores in the header
    which of them did something; when an exception is thrown or the result is not shorter than
    the data, it stores a copy.  [DecompressT] decodes with the same filters and merges in
    reverse order.  The main theorem is the round trip, against the interface [FiltLaws].

    [dest] and [src] are not null and [len] does not exceed the space at [dest].  The result of
    compression is the error code with the first [len] bytes of the output; the result of
    decompression is the error code with the values written. *)

From S2P Require Import Prelude ByteFile CprsBase QSort RangeCoder HashChain CprsDict NumFilters TopBitDict PartDict.

(** ** The filters in a row *)

(** The loop of compression from filter number [f] on. *)
Fixpoint encode_filters (fs : list DataFilt) (f : Z) (ds : DataSet) (ID : Z) : coder (DataSet * Z) :=
  match fs with
  | [] => mret (ds, ID)
  | F :: r =>
      if nrec ds =? 0 then mret (ds, ID)
      else
        '(b, ds) ← f_Encode F ds;
        encode_filters r (f + 1) ds (if (b : bool) then wrap 16 (Z.lor ID (Z.shiftl 1 f)) else ID)
  end.

(** The first stage of decompression.  What each filter keeps for its merge is in a closure. *)
Fixpoint decode_filters (fs : list DataFilt) (f : Z) (ID : Z) (ds : DataSet) :
    coder (list (DataSet -> res DataSet) * DataSet) :=
  match fs with
  | [] => mret ([], ds)
  | F :: r =>
      if nrec ds =? 0 then mret ([], ds)
      else if Z.testbit ID f then
        '(st, ds) ← f_Decode F ds;
        '(ms, ds) ← decode_filters r (f + 1) ID ds;
        mret (f_Merge F st :: ms, ds)
      else decode_filters r (f + 1) ID ds
  end.

(** The second stage: the last filter merges first. *)
Fixpoint merge_filters (ms : list (DataSet -> res DataSet)) (ds : DataSet) : res DataSet :=
  match ms with
  | [] => Ok ds
  | M :: r => merge_filters r ds ≫= M
  end.

Section OneType.
Context `{FPU} (w : Z).

(** The filters of an object; the arguments are what earlier use left in the dictionaries. *)
Definition filters (c0 c1 d0 c2 c3 d1 : Dict) : list DataFilt :=
  [DataFilt_Min w; DataFilt_GCD w; DataFilt_Diff w; DataFilt_PartDict w;
   DataFilt_TopBit w tbTop c0 c1 d0; DataFilt_TopBit w tbBottom c2 c3 d1; DataFilt_Uniform w].

Definition sizeof_T : Z := w / 8.

(** ** Copying *)

Definition to_bytes (xs : list Z) : list Z := flat_map (bytes_le (Z.to_nat sizeof_T)) xs.
Definition from_bytes (bs : list Z) (n : Z) : list Z :=
  map (fun i => of_le (slice bs (sizeof_T * i) sizeof_T)) (range 0 (n - 1)).

Definition CopyCompress (len : Z) (src : list Z) (nrec : Z) : CprsErr * list Z :=
  let datalen := wrap32 (nrec * sizeof_T) in
  if len <? wrap32 (1 + datalen) then (CPRS_ERR_BUF, [])
  else (CPRS_SUCCESS, 0 :: take (Z.to_nat datalen) (to_bytes src)).

Definition CopyDecompress (src : list Z) (len nrec : Z) : res (CprsErr * list Z) :=
  let datalen := wrap32 (nrec * sizeof_T) in
  if len <? wrap32 (1 + datalen) then Throw CPRS_ERR_BUF
  else Ok (CPRS_SUCCESS, from_bytes (drop 1 src) nrec).

(** ** Compression *)

(** The buffer for the values has [CPRS_MAXREC] elements; [data0] is what it holds before. *)
Definition CompressT (copy_only : bool) (fs : list DataFilt) (data0 dest : list Z) (len : Z)
    (src : list Z) (nrec maxval : Z) : res (CprsErr * list Z) :=
  if len <? 3 then Ok (CPRS_ERR_BUF, [])
  else if (nrec =? 0) || (maxval =? 0) then Ok (CPRS_ERR_PAR, [])
  else if copy_only then Ok (CopyCompress len src nrec)
  else if CPRS_MAXREC <? nrec then Undef
  else
    let data := take (Z.to_nat nrec) src ++ drop (Z.to_nat nrec) data0 in
    match
      ('(_, ID) ← encode_filters fs 0 (mkDS data maxval nrec) 0; _ ← EndCompress; mret ID)
        (InitCompress dest.[0 <- 1] len 3)
    with
    | Undef => Undef
    | Throw _ => Ok (CopyCompress len src nrec)
    | Ok (ID, c) =>
        if fle (fmul (fmul (lit 98 2) (of_int nrec)) (of_int sizeof_T)) (of_int (pos c))
        then Ok (CopyCompress len src nrec)
        else Ok (CPRS_SUCCESS, take (Z.to_nat (pos c)) ((buf c).[1 <- ID mod 256].[2 <- ID / 256]))
    end.

(** [dest] is the destination before; of the version byte only zero is told apart. *)
Definition DecompressT (fs : list DataFilt) (dest src : list Z) (len nrec maxval : Z) : res (CprsErr * list Z) :=
  if len <? 1 then Ok (CPRS_ERR_BUF, [])
  else if (nrec =? 0) || (maxval =? 0) then Ok (CPRS_ERR_PAR, [])
  else if src.[0|0] =? 0 then CopyDecompress src len nrec
  else if len <? 3 then Ok (CPRS_ERR_BUF, [])
  else
    let ID := src.[0|1] + 256 * src.[0|2] in
    match
      s ← InitDecompress src len 3;
      '((ms, ds), _) ← decode_filters fs 0 ID (mkDS dest maxval nrec) s;
      merge_filters ms ds
    with
    | Undef => Undef
    | Throw e => Ok (e, [])
    | Ok ds => Ok (CPRS_SUCCESS, vals ds)
    end.
End OneType.

(** ** Chains of filters *)

(** Filters that satisfy their laws, one that needs [maxval] only before filters that restore
    it; the flag says that all of them do. *)
Inductive Chain (w : Z) : bool -> list DataFilt -> Prop :=
| Chain_nil : Chain w true []
| Chain_cons F keeps needs b fs :
    FiltLaws w keeps needs F -> Chain w b fs -> (needs = true -> b = true) ->
    Chain w (keeps && b) (F :: fs).

Lemma encode_filters_defined w b fs : Chain w b fs -> forall f ds ID,
  ds_next w ds ds -> defined (encode_filters fs f ds ID).
Proof.
  induction 1 as [|F keeps needs b fs HF HC IH Hn]; intros f ds ID Hds; simpl; [done|].
  destruct (Z.eqb_spec (nrec ds) 0) as [|Hne]; [done|]. destruct Hds as [|[Hds _]]; [done|].
  intros s. unfold mbind, coder_bind. pose proof (law_defined ds Hds s) as Hdef.
  destruct (f_Encode F ds s) as [[[[|] ds'] s']| |] eqn:E; [| |done|done].
  - apply IH. destruct (law_true ds s ds' s' Hds E) as [[|[Hok Hle]] _]; [by left|by right].
  - apply IH. destruct (law_false ds s ds' s' Hds E) as [-> _]. by right.
Qed.

(** Filters whose bit is not set are skipped. *)
Lemma decode_filters_skip fs : forall f ID ds,
  (forall i, f <= i -> Z.testbit ID i = false) -> decode_filters fs f ID ds = mret ([], ds).
Proof.
  induction fs as [|F fs IH]; intros f ID ds Hb; simpl; [done|]. destruct (_ =? 0); [done|].
  rewrite Hb by lia. apply IH. intros i Hi. apply Hb. lia.
Qed.

Lemma testbit_set ID f i : 0 <= f < 16 -> 0 <= i < 16 ->
  Z.testbit (wrap 16 (Z.lor ID (Z.shiftl 1 f))) i = Z.testbit ID i || (i =? f).
Proof.
  intros Hf Hi. rewrite wrap_testbit, Z.lor_spec by done. f_equal.
  rewrite Z.shiftl_1_l, Z.pow2_bits_eqb by lia. by rewrite Z.eqb_sym.
Qed.

(** The bits of the filters before [f] are kept, those behind the last one stay clear. *)
Lemma encode_filters_ID fs : forall f ds ID e ds' ID' e',
  0 <= f -> f + zlen fs <= 16 -> is_word 16 ID -> (forall i, f <= i -> Z.testbit ID i = false) ->
  encode_filters fs f ds ID e = Ok ((ds', ID'), e') ->
  is_word 16 ID' /\ (forall i, 0 <= i < f -> Z.testbit ID' i = Z.testbit ID i) /\
  (forall i, f + zlen fs <= i -> Z.testbit ID' i = false).
Proof.
  induction fs as [|F fs IH]; intros f ds ID e ds' ID' e' Hf Hl Hw Hb HE; cbn [encode_filters] in HE.
  - injection HE as <- <- _. split; [done|]. split; [done|]. intros i Hi. apply Hb. unfold zlen in Hi. simpl in Hi. lia.
  - assert (zlen (F :: fs) = zlen fs + 1) as Hz by (unfold zlen; simpl; lia). pose proof (zlen_nonneg fs).
    destruct (nrec ds =? 0).
    { injection HE as <- <- _. split; [done|]. split; [done|]. intros i Hi. apply Hb. lia. }
    apply coder_bind_Ok in HE as ([b d] & s & _ & HE). apply IH in HE as (H1 & H2 & H3); [|lia|lia| |].
    + split; [done|]. split; [|intros i Hi; apply H3; lia]. intros i Hi. rewrite H2 by lia.
      destruct b; [|done]. rewrite testbit_set by lia. destruct (Z.eqb_spec i f); [lia|apply orb_false_r].
    + destruct b; [by apply (wrap_word 16)|done].
    + intros i Hi. destruct b; [|apply Hb; lia]. destruct (Z.lt_ge_cases i 16).
      * rewrite testbit_set, Hb by lia. by destruct (Z.eqb_spec i f); [lia|].
      * apply (word_testbit_high 16); [by apply (wrap_word 16)|lia].
Qed.

(** What decoding has to achieve: the merges restore the data set. *)
Definition merged (b : bool) (ms : list (DataSet -> res DataSet)) (dd ds : DataSet) (len : Z) : Prop :=
  exists dr, merge_filters ms dd = Ok dr /\ same_vals dr ds /\ zlen (ds_data dr) = len /\
             (b = true -> maxval dr = maxval ds).

Lemma same_vals_empty d1 d2 : nrec d1 = 0 -> nrec d2 = 0 -> same_vals d1 d2.
Proof. intros E1 E2. unfold same_vals, vals. rewrite E1, E2. done. Qed.

(** All that the filters wrote is decoded and merged. *)
Lemma codes_filters w b fs : Chain w b fs -> forall f ds ID e ds' ID' e',
  0 <= f -> f + zlen fs <= 16 -> is_word 16 ID -> (forall i, f <= i -> Z.testbit ID i = false) ->
  ds_next w ds ds -> encode_filters fs f ds ID e = Ok ((ds', ID'), e') -> nrec ds' = 0 ->
  forall buf0, nrec ds <= zlen buf0 -> exists ms dd,
    codes (encode_filters fs f ds ID) (decode_filters fs f ID' (mkDS buf0 (maxval ds) (nrec ds))) (ds', ID') (ms, dd) /\
    merged b ms dd ds (zlen buf0).
Proof.
  induction 1 as [|F keeps needs b fs HF HC IH Hn]; intros f ds ID e ds' ID' e' Hf Hl Hw Hb Hds HE H0 buf0 Hbuf.
  { injection HE as <- <- _. exists []. eexists. split; [apply codes_ret|]. eexists. split; [done|].
    split; [by apply same_vals_empty|done]. }
  assert (zlen (F :: fs) = zlen fs + 1) as Hz by (unfold zlen; simpl; lia). pose proof (zlen_nonneg fs) as Hz0.
  pose proof (encode_filters_ID _ _ _ _ _ _ _ _ Hf Hl Hw Hb HE) as (Hw' & Hlo & Hhi).
  cbn [encode_filters decode_filters nrec] in *. destruct (Z.eqb_spec (nrec ds) 0) as [E0|E0].
  { injection HE as <- <- _. exists []. eexists. split; [apply codes_ret|]. eexists. split; [done|].
    split; [by apply same_vals_empty|done]. }
  destruct Hds as [|[Hds _]]; [done|]. apply coder_bind_Ok in HE as ([bit ds1] & s1 & HE1 & HE2).
  pose proof Hw as HwID.
  set (ID1 := if bit then wrap 16 (Z.lor ID (Z.shiftl 1 f)) else ID) in *.
  assert (is_word 16 ID1) as Hw1 by (unfold ID1; destruct bit; [by apply (wrap_word 16)|done]).
  assert (forall i, f + 1 <= i -> Z.testbit ID1 i = false) as Hb1.
  { intros i Hi. unfold ID1. destruct bit; [|apply Hb; lia]. destruct (Z.lt_ge_cases i 16).
    - rewrite testbit_set, Hb by lia. by destruct (Z.eqb_spec i f); [lia|].
    - apply (word_testbit_high 16); [by apply (wrap_word 16)|lia]. }
  pose proof (encode_filters_ID fs (f + 1) _ _ _ _ _ _ ltac:(lia) ltac:(lia) Hw1 Hb1 HE2) as (_ & Hlo1 & _).
  assert (Z.testbit ID' f = bit) as Hbit.
  { rewrite Hlo1 by lia. unfold ID1. destruct bit; [|by apply Hb]. rewrite testbit_set by lia.
    by rewrite Z.eqb_refl, orb_true_r. }
  rewrite Hbit. destruct bit.
  - destruct (law_true ds e ds1 s1 Hds HE1) as [Hnext Hdec].
    destruct (Hdec buf0 Hbuf) as (st & dd1 & Hcod & Hcase).
    destruct Hcase as [(Hz1 & Hsame & Hmax & Hlen & HM)|[-> Hrest]].
    + assert (encode_filters fs (f + 1) ds1 ID1 = mret (ds1, ID1)) as Hstop.
      { destruct fs; [done|]. cbn [encode_filters]. by rewrite Hz1. }
      rewrite Hstop in HE2. injection HE2 as <- <- _.
      exists [f_Merge F st], dd1. split.
      * eapply codes_bind; [exact Hcod|]. cbv beta iota. fold ID1. rewrite Hstop, decode_filters_skip by done.
        apply codes_ret.
      * exists dd1. split; [done|]. split; [done|]. split; [done|]. by intros _.
    + assert (nrec ds1 <= zlen buf0 /\ ds_next w ds1 ds1) as [Hbuf1 Hnx].
      { destruct Hnext as [E|[Hok Hle]]; [|split; [lia|by right]]. split; [pose proof (zlen_nonneg buf0); lia|by left]. }
      destruct (IH (f + 1) ds1 ID1 s1 ds' ID' e' ltac:(lia) ltac:(lia) Hw1 Hb1 Hnx HE2 H0 buf0 Hbuf1)
        as (ms & dd & Hcod2 & dr & Hmr & Hsv & Hlr & Hmx).
      exists (f_Merge F st :: ms), dd. split.
      * eapply codes_bind; [exact Hcod|]. cbv beta iota. fold ID1. eapply codes_map; [exact Hcod2|done].
      * destruct (Hrest dr Hsv Hlr) as (d3 & HM & Hs3 & Hl3 & Hm3).
        { intros Hneeds. by apply Hmx, Hn. }
        exists d3. simpl. rewrite Hmr. split; [done|]. split; [done|]. split; [done|].
        intros [Hk Hbb]%andb_true_iff. apply Hm3; [done|]. by apply Hmx.
  - destruct (law_false ds e ds1 s1 Hds HE1) as [-> Hcod].
    destruct (IH (f + 1) ds ID1 s1 ds' ID' e' ltac:(lia) ltac:(lia) Hw1 Hb1 ltac:(by right) HE2 H0 buf0 Hbuf)
      as (ms & dd & Hcod2 & dr & Hmr & Hsv & Hlr & Hmx).
    exists ms, dd. split.
    + eapply codes_skip; [exact Hcod|exact Hcod2].
    + exists dr. split; [done|]. split; [done|]. split; [done|]. intros [_ Hbb]%andb_true_iff. by apply Hmx.
Qed.

(** The last filter takes everything. *)
Lemma encode_filters_end w fs : forall f ds ID e ds' ID' e',
  encode_filters (fs ++ [DataFilt_Uniform w]) f ds ID e = Ok ((ds', ID'), e') -> nrec ds' = 0.
Proof.
  induction fs as [|F fs IH]; intros f ds ID e ds' ID' e' HE; cbn [encode_filters app] in HE;
    (destruct (Z.eqb_spec (nrec ds) 0); [by injection HE as <- _ _|]);
    apply coder_bind_Ok in HE as ([b d] & s & HE1 & HE2); [|by apply IH in HE2].
  injection HE2 as <- _ _. apply coder_bind_Ok in HE1 as (? & ? & _ & HE1).
  apply coder_bind_Ok in HE1 as (? & ? & _ & HE1). by injection HE1 as _ <- _.
Qed.

Lemma filters_chain `{FPU} `{!FPULaws _} w c0 c1 d0 c2 c3 d1 :
  elem_type w -> Chain w false (filters w c0 c1 d0 c2 c3 d1).
Proof.
  intros Hw. assert (0 < w) by (unfold elem_type in Hw; lia). assert (0 <= w) by lia.
  apply (Chain_cons w _ true false false); [by apply Min_laws| |done].
  apply (Chain_cons w _ false false true); [by apply GCD_laws| |done].
  apply (Chain_cons w _ true true true); [by apply Diff_laws| |done].
  apply (Chain_cons w _ true false true); [by apply PartDict_laws| |done].
  apply (Chain_cons w _ true false true); [by apply TopBit_laws| |done].
  apply (Chain_cons w _ true false true); [by apply TopBit_laws| |done].
  apply (Chain_cons w _ true false true); [by apply Uniform_laws| |done]. apply Chain_nil.
Qed.

Lemma filters_end `{FPU} w c0 c1 d0 c2 c3 d1 f ds ID e ds' ID' e' :
  encode_filters (filters w c0 c1 d0 c2 c3 d1) f ds ID e = Ok ((ds', ID'), e') -> nrec ds' = 0.
Proof.
  exact (encode_filters_end w [DataFilt_Min w; DataFilt_GCD w; DataFilt_Diff w; DataFilt_PartDict w;
    DataFilt_TopBit w tbTop c0 c1 d0; DataFilt_TopBit w tbBottom c2 c3 d1] f ds ID e ds' ID' e').
Qed.

(** ** Copies *)

Section Copy.
Context (w : Z).
Hypothesis Hw : elem_type w.

Lemma sizeof_pos : 1 <= sizeof_T w <= 8 /\ 8 * sizeof_T w = w.
Proof. unfold sizeof_T. destruct Hw as [->|[->|[->| ->]]];
  [change (8 / 8) with 1|change (16 / 8) with 2|change (32 / 8) with 4|change (64 / 8) with 8]; lia. Qed.

Lemma zlen_to_bytes xs : zlen (to_bytes w xs) = zlen xs * sizeof_T w.
Proof.
  pose proof sizeof_pos. unfold to_bytes, zlen. induction xs as [|x xs IH]; simpl; [done|].
  rewrite length_app, length_bytes_le. lia.
Qed.

Lemma slice_to_bytes xs junk i :
  0 <= i < zlen xs -> slice (to_bytes w xs ++ junk) (sizeof_T w * i) (sizeof_T w)
                      = bytes_le (Z.to_nat (sizeof_T w)) xs.[0|i].
Proof.
  pose proof sizeof_pos as [Hs _]. set (n := sizeof_T w) in *. revert i. induction xs as [|x xs IH]; intros i Hi.
  - unfold zlen in Hi. simpl in Hi. lia.
  - unfold to_bytes. cbn [flat_map]. fold n. fold (to_bytes w xs). rewrite <- app_assoc. unfold slice.
    pose proof (length_bytes_le (Z.to_nat n) x) as Hlb. destruct (Z.eq_dec i 0) as [->|Hi0].
    + rewrite Z.mul_0_r. change (Z.to_nat 0) with 0%nat. rewrite drop_0. by rewrite take_app_length' by done.
    + replace (Z.to_nat (n * i)) with (length (bytes_le (Z.to_nat n) x) + Z.to_nat (n * (i - 1)))%nat by nia.
      rewrite drop_app_add. change (x :: xs) with ([x] ++ xs). rewrite znth_app_r by (unfold zlen; simpl; lia).
      change (zlen [x]) with 1. apply (IH (i - 1)). unfold zlen in *. simpl in Hi. lia.
Qed.

Lemma bytes_to_bytes xs : Forall is_byte (to_bytes w xs).
Proof.
  unfold to_bytes. induction xs as [|x xs IH]; simpl; [constructor|]. apply Forall_app. split; [|done].
  generalize (Z.to_nat (sizeof_T w)) as n. intros n. revert x. induction n as [|n IHn]; intros x; simpl; [constructor|].
  constructor; [apply Z.mod_pos_bound; lia|apply IHn].
Qed.

(** The elements are read back from their bytes. *)
Lemma from_to_bytes xs junk :
  Forall (is_word w) xs -> from_bytes w (to_bytes w xs ++ junk) (zlen xs) = xs.
Proof.
  intros Hx. unfold from_bytes. rewrite <- (map_znth_range 0 xs) at 2. apply map_ext_in.
  intros i Hi%range_In. rewrite slice_to_bytes by lia. apply of_bytes_le_word.
  pose proof sizeof_pos. replace (8 * Z.of_nat (Z.to_nat (sizeof_T w))) with w by lia.
  apply (znth_Forall (is_word w)); [done|lia].
Qed.

(** A copy is decompressed, and fails only for lack of space. *)
Lemma CopyCompress_spec fs src len nrec maxval dest junk :
  1 <= nrec <= CPRS_MAXREC -> zlen src = nrec -> Forall (is_word w) src -> maxval <> 0 ->
  (CopyCompress w len src nrec = (CPRS_ERR_BUF, []) /\ len < 1 + nrec * sizeof_T w) \/
  exists bytes, CopyCompress w len src nrec = (CPRS_SUCCESS, bytes) /\ zlen bytes <= len /\ Forall is_byte bytes /\
    DecompressT w fs dest (bytes ++ junk) (zlen bytes) nrec maxval = Ok (CPRS_SUCCESS, src).
Proof.
  intros Hn Hl Hx Hm. pose proof sizeof_pos as [Hs _]. unfold CPRS_MAXREC in Hn. unfold CopyCompress.
  assert (wrap32 (nrec * sizeof_T w) = nrec * sizeof_T w) as Hd by (apply wrap_id; unfold is_word; nia).
  rewrite Hd, (wrap_id 32 (1 + _)) by (unfold is_word; nia).
  destruct (Z.ltb_spec len (1 + nrec * sizeof_T w)); [by left|right].
  pose proof (zlen_to_bytes src) as Hb. rewrite Hl in Hb. rewrite take_ge by (unfold zlen in Hb; lia).
  assert (zlen (0 :: to_bytes w src) = 1 + nrec * sizeof_T w) as Hz by (unfold zlen in *; simpl; lia).
  eexists. split; [done|]. split; [lia|]. split; [constructor; [unfold is_byte; lia|apply bytes_to_bytes]|].
  unfold DecompressT. rewrite Hz. destruct (Z.ltb_spec (1 + nrec * sizeof_T w) 1); [nia|]. destruct (Z.eqb_spec nrec 0); [lia|].
  destruct (Z.eqb_spec maxval 0); [lia|]. cbn [orb app].
  change ((0 :: to_bytes w src ++ junk).[0|0] =? 0) with true. cbv iota. unfold CopyDecompress.
  rewrite Hd, (wrap_id 32 (1 + _)) by (unfold is_word; nia). rewrite Z.ltb_irrefl.
  change (drop 1 (0 :: to_bytes w src ++ junk)) with (to_bytes w src ++ junk). rewrite <- Hl at 1. by rewrite from_to_bytes.
Qed.
End Copy.

(** ** The round trip *)

Lemma vals_front xs data maxv n :
  zlen xs = n -> n <= zlen data -> vals (mkDS (xs ++ drop (Z.to_nat n) data) maxv n) = xs.
Proof.
  intros Hx Hn. apply (vals_write xs data maxv n); [|pose proof (zlen_nonneg xs); lia].
  unfold zlen in Hx. lia.
Qed.

(** The header is read back. *)
Lemma header_ID b ID n :
  3 <= n <= zlen b -> is_word 16 ID -> forall junk,
  let bytes := take (Z.to_nat n) b.[1 <- ID mod 256].[2 <- ID / 256] in
  zlen bytes = n /\
  (bytes ++ junk).[0|0] = b.[0|0] /\ (bytes ++ junk).[0|1] + 256 * (bytes ++ junk).[0|2] = ID /\
  (forall i, 3 <= i < n -> (bytes ++ junk).[0|i] = b.[0|i]).
Proof.
  intros Hn HID junk bytes.
  assert (zlen bytes = n) as Hz.
  { unfold bytes, zlen. rewrite length_take. assert (zlen b.[1 <- ID mod 256].[2 <- ID / 256] = zlen b) as H1
      by (by rewrite !zlen_zupd). unfold zlen in *. lia. }
  assert (forall i, 0 <= i < n -> (bytes ++ junk).[0|i] = b.[1 <- ID mod 256].[2 <- ID / 256].[0|i]) as Hget.
  { intros i Hi. rewrite znth_app_l by lia. unfold bytes, znth. destruct (Z.ltb_spec i 0); [lia|].
    by rewrite !nth_lookup, lookup_take_lt by lia. }
  split; [done|]. rewrite !Hget by lia. split; [by rewrite !znth_zupd_ne by lia|]. split.
  - rewrite (znth_zupd_ne _ _ 2 1), !znth_zupd_eq by (rewrite ?zlen_zupd; lia).
    pose proof (Z.div_mod ID 256). lia.
  - intros i Hi. rewrite Hget by lia. by rewrite !znth_zupd_ne by lia.
Qed.

(** What the filters wrote behind the header is decompressed. *)
Lemma DecompressT_filters w b fs ds dest dest' junk len ds' ID e1 e2 :
  Chain w b fs -> zlen fs <= 16 -> ds_ok w ds -> maxval ds <> 0 ->
  Forall is_byte dest -> 3 <= len <= zlen dest -> nrec ds <= zlen dest' -> Forall is_byte junk ->
  encode_filters fs 0 ds 0 (InitCompress dest.[0 <- 1] len 3) = Ok ((ds', ID), e1) -> nrec ds' = 0 ->
  EndCompress e1 = Ok (tt, e2) ->
  let bytes := take (Z.to_nat (pos e2)) (buf e2).[1 <- ID mod 256].[2 <- ID / 256] in
  zlen bytes <= len /\ Forall is_byte bytes /\
  DecompressT w fs dest' (bytes ++ junk) (zlen bytes) (nrec ds) (maxval ds) = Ok (CPRS_SUCCESS, vals ds).
Proof.
  intros HC Hfs Hok Hm Hd Hlen Hd' Hj HE H0 HEnd bytes.
  destruct (codes_filters w b fs HC 0 ds 0 (InitCompress dest.[0 <- 1] len 3) ds' ID e1) with (buf0 := dest')
    as (ms & dd & Hcod & dr & Hmr & Hsv & _ & _); try done; [intros i _; apply Z.bits_0|by right|].
  destruct (encode_filters_ID fs 0 ds 0 (InitCompress dest.[0 <- 1] len 3) ds' ID e1) as (HID & _); try done.
  { intros i _. apply Z.bits_0. }
  destruct (codes_stream _ _ _ _ dest.[0 <- 1] len 3 e1 e2 Hcod) as (Hpos & Hext & Hby & Hdec); try done.
  { apply zupd_Forall; [done|]. unfold is_byte. lia. }
  { rewrite zlen_zupd. lia. }
  destruct Hext as (_ & _ & Hlb & Hkeep). simpl in Hlb, Hkeep. rewrite zlen_zupd in Hlb.
  destruct (header_ID (buf e2) ID (pos e2) ltac:(lia) HID junk) as (Hz & Hg0 & HgID & Hgi).
  fold bytes in Hz, Hg0, HgID, Hgi. split; [lia|].
  assert (Forall is_byte bytes) as Hbytes.
  { apply Forall_take. unfold is_word in HID.
    repeat apply zupd_Forall; [done| |]; unfold is_byte;
      [apply Z.mod_pos_bound; lia|split; [apply Z.div_pos; lia|apply Z.div_lt_upper_bound; lia]]. }
  split; [done|]. unfold DecompressT. rewrite Hz.
  destruct (Z.ltb_spec (pos e2) 1); [lia|]. pose proof Hok as (Hn & _).
  destruct (Z.eqb_spec (nrec ds) 0); [lia|]. destruct (Z.eqb_spec (maxval ds) 0); [done|].
  cbn [orb]. rewrite Hg0, Hkeep, znth_zupd_eq by lia. change (1 =? 0) with false. cbv iota.
  destruct (Z.ltb_spec (pos e2) 3); [lia|]. rewrite HgID.
  destruct (Hdec (bytes ++ junk)) as (d & d' & -> & HD).
  - by apply Forall_app.
  - rewrite zlen_app. pose proof (zlen_nonneg junk). lia.
  - exact Hgi.
  - simpl in HD |- *. rewrite HD. simpl. rewrite Hmr. by destruct Hsv as [_ ->].
Qed.

Lemma CompressT_roundtrip `{FPU} `{!FPULaws _} (w : Z) (copy_only : bool)
    (c0 c1 d0 c2 c3 d1 : Dict) (data0 dest dest' src junk : list Z) (len nrec maxval : Z)
    (Hw : elem_type w) (Hn : 1 <= nrec <= CPRS_MAXREC) (Hsrc : zlen src = nrec)
    (Hm : 0 < maxval < 2 ^ w) (Hv : Forall (fun x => 0 <= x <= maxval) src)
    (Hd0 : zlen data0 = CPRS_MAXREC) (Hd : Forall is_byte dest) (Hlen : len <= zlen dest)
    (Hd' : nrec <= zlen dest') (Hj : Forall is_byte junk) :
  let fs := filters w c0 c1 d0 c2 c3 d1 in
  (CompressT w copy_only fs data0 dest len src nrec maxval = Ok (CPRS_ERR_BUF, []) /\
   len < Z.max 3 (1 + nrec * sizeof_T w)) \/
  exists bytes, CompressT w copy_only fs data0 dest len src nrec maxval = Ok (CPRS_SUCCESS, bytes) /\
    zlen bytes <= len /\ Forall is_byte bytes /\
    DecompressT w fs dest' (bytes ++ junk) (zlen bytes) nrec maxval = Ok (CPRS_SUCCESS, src).
Proof.
  intros fs. unfold CompressT. destruct (Z.ltb_spec len 3); [left; split; [done|lia]|].
  destruct (Z.eqb_spec nrec 0); [lia|]. destruct (Z.eqb_spec maxval 0); [lia|]. cbn [orb].
  assert (Forall (is_word w) src) as Hws by (eapply Forall_impl; [exact Hv|]; unfold is_word; simpl; lia).
  assert ((Ok (CopyCompress w len src nrec) = Ok (CPRS_ERR_BUF, []) /\ len < Z.max 3 (1 + nrec * sizeof_T w)) \/
    exists bytes, Ok (CopyCompress w len src nrec) = Ok (CPRS_SUCCESS, bytes) /\ zlen bytes <= len /\ Forall is_byte bytes /\
    DecompressT w fs dest' (bytes ++ junk) (zlen bytes) nrec maxval = Ok (CPRS_SUCCESS, src)) as Hcopy.
  { destruct (CopyCompress_spec w Hw fs src len nrec maxval dest' junk) as [[-> ?]|(bytes & -> & ? & ? & ?)]; try done.
    - left. split; [done|lia].
    - right. by exists bytes. }
  destruct copy_only; [exact Hcopy|]. destruct (Z.ltb_spec CPRS_MAXREC nrec); [lia|].
  set (ds := mkDS _ maxval nrec). set (c := InitCompress _ len 3).
  assert (vals ds = src) as Hvals.
  { unfold ds. rewrite take_ge by (unfold zlen in Hsrc; lia). apply vals_front; [done|lia]. }
  assert (ds_ok w ds) as Hok.
  { split; [done|]. split; [|split; [apply Hm|by rewrite Hvals]]. unfold ds, zlen in *. simpl.
    rewrite length_app, length_take, length_drop. lia. }
  pose proof (filters_chain w c0 c1 d0 c2 c3 d1 Hw) as HC. fold fs in HC.
  pose proof (encode_filters_defined w false fs HC 0 ds 0 ltac:(by right) c) as Hdef.
  unfold mbind, coder_bind. destruct (encode_filters fs 0 ds 0 c) as [[[ds' ID] e1]| |] eqn:HE; [|exact Hcopy|done].
  pose proof (defined_EndCompress e1) as Hdef2. cbv beta iota.
  destruct (EndCompress e1) as [[[] e2]| |] eqn:HEnd; [|exact Hcopy|done]. cbv beta iota zeta.
  change (@mret coder coder_ret Z ID e2) with (@Ok (Z * RC) (ID, e2)). cbv iota.
  destruct (fle _ _); [exact Hcopy|]. right.
  destruct (DecompressT_filters w false fs ds dest dest' junk len ds' ID e1 e2) as (Hbl & Hbb & Hdec); try done.
  - by apply filters_end in HE.
  - eexists. split; [done|]. split; [done|]. split; [done|]. rewrite Hvals in Hdec. exact Hdec.
Qed.

(** C29: compressing a pack of numbers always returns, whatever the estimates of the filters are
    and whatever earlier packs left in the compressor.  It succeeds, within the given length,
    unless there is less room than for a copy; and then decompressing the output, whatever
    follows it in memory, gives back exactly the values. *)
Theorem NumCompressor_roundtrip `{FPU} `{!FPULaws _} (w : Z) (copy_only : bool)
    (c0 c1 d0 c2 c3 d1 : Dict) (data0 dest dest' src junk : list Z) (len nrec maxval : Z)
    (Hw : elem_type w) (Hn : 1 <= nrec <= CPRS_MAXREC) (Hsrc : zlen src = nrec)
    (Hm : 0 < maxval < 2 ^ w) (Hv : Forall (fun x => 0 <= x <= maxval) src)
    (Hd0 : zlen data0 = CPRS_MAXREC) (Hd : Forall is_byte dest) (Hlen : len <= zlen dest)
    (Hd' : nrec <= zlen dest') (Hj : Forall is_byte junk) :
  let fs := filters w c0 c1 d0 c2 c3 d1 in
  (CompressT w copy_only fs data0 dest len src nrec maxval = Ok (CPRS_ERR_BUF, []) /\
   len < Z.max 3 (1 + nrec * sizeof_T w)) \/
  exists bytes, CompressT w copy_only fs data0 dest len src nrec maxval = Ok (CPRS_SUCCESS, bytes) /\
    zlen bytes <= len /\ Forall is_byte bytes /\
    DecompressT w fs dest' (bytes ++ junk) (zlen bytes) nrec maxval = Ok (CPRS_SUCCESS, src).
Proof. by apply CompressT_roundtrip. Qed.

(** ** Fixed point

    An instance of the arithmetic in hundredths, with whole logarithms. *)
Module FixedPoint.
#[export] Instance fixed : FPU := {|
  double := Z;
  of_int n := 100 * n;
  lit a b := 100 * a / 10 ^ b;
  fadd := Z.add;
  fsub := Z.sub;
  fmul a b := a * b / 100;
  flt := Z.ltb;
  fle := Z.leb;
  to_uint x := wrap32 (x / 100);
  flog2 x := 100 * Z.log2 (x / 100);
  tab_log2 n := 100 * Z.log2 n;
  nlog2n n := 100 * n * Z.log2 n
|}.

#[export] Instance fixed_laws : FPULaws fixed.
Proof.
  split; simpl.
  - intros x. apply (wrap_word 32). lia.
  - intros u Hu. change (100 * 98 / 10 ^ 2) with 98. apply Z.leb_le. apply Z.div_le_upper_bound; lia.
Qed.

Definition no_dict : Dict := mkDict no_keys [] [] 0 false false.
Definition no_filters (w : Z) : list DataFilt := filters w no_dict no_dict no_dict no_dict no_dict no_dict.

(** Powers of three modulo a prime, scaled: the filters for the minimum, the common divisor, the
    differences, the lowest bits and the rest are used, and the values are read back. *)
Definition sample : list Z := map (fun i => 1000 + 10 * (3 ^ i mod 17)) (range 0 399).

Lemma compress_sample :
  exists bytes,
    CompressT 32 false (no_filters 32) (replicate (Z.to_nat CPRS_MAXREC) 0) (replicate (Z.to_nat 2000) 0) 2000
      sample 400 1160 = Ok (CPRS_SUCCESS, bytes) /\ zlen bytes = 212 /\ take 3 bytes = [1; 103; 0] /\
    DecompressT 32 (no_filters 32) (replicate (Z.to_nat 400) 0) bytes 212 400 1160 = Ok (CPRS_SUCCESS, sample).
Proof. eexists. split; [vm_compute; reflexivity|]. vm_compute. split; [|split]; reflexivity. Qed.
End FixedPoint.
Import FixedPoint.

Lemma NumCompressor_roundtrip_witness :
  let fs := no_filters 32 in
  let data0 := replicate (Z.to_nat CPRS_MAXREC) 0 in
  let dest := replicate (Z.to_nat 2000) 0 in
  (CompressT 32 false fs data0 dest 2000 sample 400 1160 = Ok (CPRS_ERR_BUF, []) /\
   2000 < Z.max 3 (1 + 400 * sizeof_T 32)) \/
  exists bytes, CompressT 32 false fs data0 dest 2000 sample 400 1160 = Ok (CPRS_SUCCESS, bytes) /\
    zlen bytes <= 2000 /\ Forall is_byte bytes /\
    DecompressT 32 fs (replicate (Z.to_nat 400) 0) (bytes ++ [1; 2]) (zlen bytes) 400 1160
    = Ok (CPRS_SUCCESS, sample).
Proof.
  apply (NumCompressor_roundtrip 32 false no_dict no_dict no_dict
    no_dict no_dict no_dict).
  - right. right. left. reflexivity.
  - unfold CPRS_MAXREC. lia.
  - vm_compute. reflexivity.
  - lia.
  - apply Forall_forall. intros x Hx%list_elem_of_In. unfold sample in Hx.
    apply in_map_iff in Hx as (i & <- & _). pose proof (Z.mod_pos_bound (3 ^ i) 17). lia.
  - apply zlen_replicate. unfold CPRS_MAXREC. lia.
  - apply Forall_replicate. unfold is_byte. lia.
  - rewrite zlen_replicate; lia.
  - rewrite zlen_replicate; lia.
  - repeat constructor; vm_compute; discriminate.
Defined.
