(* ===== verification/BitStream.v ===== *)
(** * Bit streams (compress/DataStream.h, compress/DataStream.cpp)

    A stream of bits over a buffer of bytes, the bits of a byte counted from the least
    significant one.  Writing ors bits into place, so the bits ahead of the position are cleared
    in advance, up to [clrlen].  [Overrun] is the exception [ErrBufOverrun]; [Bad] is an access
    outside the buffer. *)

From S2P Require Import Prelude CprsBase QSort.

Record BS := mkBS { bbuf : list Z; blen : Z; bpos : Z; clrlen : Z }.

Inductive sres (A : Type) : Type :=
| Done (a : A)
| Overrun
| Bad.
Arguments Done {A} a.
Arguments Overrun {A}.
Arguments Bad {A}.

#[export] Instance sres_ret : MRet sres := @Done.
#[export] Instance sres_bind : MBind sres := fun A B f m =>
  match m with Done a => f a | Overrun => Overrun | Bad => Bad end.

(** A stream with [len] bits, read or written from bit [pos] on. *)
Definition BS_Reset (b : list Z) (len pos : Z) : BS := mkBS b len pos 0.

Definition CanRead (s : BS) : bool := bpos s <? blen s.
Definition CanWrite (s : BS) : bool := bpos s <? blen s.
Definition SetPos (s : BS) (p : Z) : BS := mkBS (bbuf s) (blen s) p (clrlen s).

(** ** Clearing *)

(** [memset(buf + from, 0, n)] *)
Definition memset0 (b : list Z) (from n : Z) : list Z := foldl (fun b k => b.[k <- 0]) b (range from (from + n - 1)).

Definition ZeroBits (b : list Z) (beg end_ : Z) : list Z :=
  let byte1 := Z.shiftr beg 3 in
  let bit1 := 8 - Z.land beg 7 in
  let byte2 := Z.shiftr end_ 3 in
  let bit2 := Z.land end_ 7 in
  if byte1 <? byte2 then
    let b := b.[byte1 <- shr 8 (shl 8 b.[0|byte1] bit1) bit1] in
    let b := if bit2 =? 0 then b else b.[byte2 <- wrap 8 (Z.shiftl (Z.shiftr b.[0|byte2] bit2) bit2)] in
    memset0 b (byte1 + 1) (byte2 - byte1 - 1)
  else if beg <? end_ then
    let bit1 := 8 - bit1 in
    let bit2 := 8 - bit2 in
    let t := shr 8 b.[0|byte1] bit1 in
    let t := shl 8 t (bit1 + bit2) in
    let t := Z.shiftr t bit2 in
    b.[byte1 <- wrap 8 (b.[0|byte1] - t)]
  else b.

Definition ClearBits (s : BS) : sres BS :=
  let c := wrap32 (2 * bpos s + 64) in
  let c := c / 8 * 8 in
  let c := if (c <=? bpos s) || (blen s <? c) then blen s else c in
  if c <=? bpos s then Overrun
  else Done (mkBS (ZeroBits (bbuf s) (bpos s) c) (blen s) (bpos s) c).

(** ** Writing *)

(** [buf[k] |= x], as a byte. *)
Definition or_byte (b : list Z) (k x : Z) : sres (list Z) :=
  if in_array b k then Done b.[k <- wrap 8 (Z.lor b.[0|k] x)] else Bad.

Definition cleared (s : BS) (need : Z) : sres BS := if clrlen s <=? wrap32 (bpos s + need) then ClearBits s else Done s.

Definition advance (s : BS) (b : list Z) (n : Z) : BS := mkBS b (blen s) (wrap32 (bpos s + n)) (clrlen s).

Definition PutBit (v : Z) (s : BS) : sres BS :=
  s ← cleared s 0;
  b ← or_byte (bbuf s) (Z.shiftr (bpos s) 3) (Z.shiftl (Z.land v 1) (Z.land (bpos s) 7));
  Done (advance s b 1).

Definition PutBit0 (s : BS) : sres BS :=
  s ← cleared s 0;
  Done (advance s (bbuf s) 1).

Definition PutBit1 (s : BS) : sres BS :=
  s ← cleared s 0;
  b ← or_byte (bbuf s) (Z.shiftr (bpos s) 3) (Z.shiftl 1 (Z.land (bpos s) 7));
  Done (advance s b 1).

(** The test asks for one cleared byte, but [ClearBits] is content with one bit. *)
Definition PutByte (v : Z) (s : BS) : sres BS :=
  s ← cleared s 7;
  let k := Z.shiftr (bpos s) 3 in
  let o := Z.land (bpos s) 7 in
  if negb (o =? 0) then
    b ← or_byte (bbuf s) k (Z.shiftl v o);
    b ← or_byte b (k + 1) (shr 8 v (8 - o));
    Done (advance s b 8)
  else if in_array (bbuf s) k then Done (advance s (bbuf s).[k <- v] 8) else Bad.

(** [for(i in l) s.f(i)] *)
Fixpoint each {A : Type} (f : A -> BS -> sres BS) (l : list A) (s : BS) : sres BS :=
  match l with
  | [] => Done s
  | x :: r => s ← f x s; each f r s
  end.

(** Whole bytes first, then the bits that are left. *)
Definition PutUInt (n no_bits : Z) (s : BS) : sres BS :=
  s ← each (fun j => PutByte (wrap 8 (Z.shiftr n (8 * j)))) (range 0 (no_bits / 8 - 1)) s;
  each (fun i => PutBit (wrap 8 (Z.shiftr n i))) (range (no_bits / 8 * 8) (no_bits - 1)) s.

(** ** Reading *)

Definition NextBit (s : BS) : sres Z :=
  if blen s <=? bpos s then Overrun
  else if in_array (bbuf s) (Z.shiftr (bpos s) 3)
  then Done (Z.land (Z.shiftr (bbuf s).[0|Z.shiftr (bpos s) 3] (Z.land (bpos s) 7)) 1)
  else Bad.

Definition SkipBit (skip : Z) (s : BS) : sres BS :=
  let p := wrap32 (bpos s + skip) in
  if p <? bpos s then Overrun
  else if blen s <? p then Overrun else Done (SetPos s p).

Definition GetBit (s : BS) : sres (Z * BS) :=
  if blen s <=? bpos s then Overrun
  else if in_array (bbuf s) (Z.shiftr (bpos s) 3)
  then Done (Z.land (Z.shiftr (bbuf s).[0|Z.shiftr (bpos s) 3] (Z.land (bpos s) 7)) 1, advance s (bbuf s) 1)
  else Bad.

Definition GetByte (s : BS) : sres (Z * BS) :=
  if blen s <=? wrap32 (bpos s + 7) then Overrun
  else
    let k := Z.shiftr (bpos s) 3 in
    let o := Z.land (bpos s) 7 in
    if negb (o =? 0) then
      if in_array (bbuf s) k && in_array (bbuf s) (k + 1) then
        Done (wrap 8 (Z.lor (Z.shiftr (bbuf s).[0|k] o) (shl 8 (bbuf s).[0|k + 1] (8 - o))), advance s (bbuf s) 8)
      else Bad
    else if in_array (bbuf s) k then Done ((bbuf s).[0|k], advance s (bbuf s) 8) else Bad.

(** Reads a value for each position of [l] and ors it in place. *)
Fixpoint gather (get : BS -> sres (Z * BS)) (w : Z) (l : list Z) (r : Z) (s : BS) : sres (Z * BS) :=
  match l with
  | [] => Done (r, s)
  | i :: l' => '(v, s) ← get s; gather get w l' (Z.lor r (wrap w (Z.shiftl v i))) s
  end.

(** [GetUInt] for [w = 32] and [GetUInt64] for [w = 64]. *)
Definition GetUInt (w no_bits : Z) (s : BS) : sres (Z * BS) :=
  '(r, s) ← gather GetByte w (map (Z.mul 8) (range 0 (no_bits / 8 - 1))) 0 s;
  gather GetBit w (range (no_bits / 8 * 8) (no_bits - 1)) r s.

(** ** Blocks of bytes *)

Definition FastPutBlock (data : list Z) (n : Z) (s : BS) : sres BS :=
  let p := wrap32 (bpos s + 7) / 8 * 8 in
  let p1 := wrap32 (p + 8 * n) in
  if (p1 <? p) || (blen s <? p1) then Overrun
  else Done (mkBS (foldl (fun b j => b.[p / 8 + j <- data.[0|j]]) (bbuf s) (range 0 (n - 1))) (blen s) p1 (clrlen s)).

Definition FastGetBlock (n : Z) (s : BS) : sres (list Z * BS) :=
  let p := wrap32 (bpos s + 7) / 8 * 8 in
  let p1 := wrap32 (p + 8 * n) in
  if (p1 <? p) || (blen s <? p1) then Overrun
  else Done (map (fun j => (bbuf s).[0|p / 8 + j]) (range 0 (n - 1)), mkBS (bbuf s) (blen s) p1 (clrlen s)).

(** ** Bits of a buffer *)

Definition bbit (b : list Z) (i : Z) : bool := Z.testbit b.[0|i / 8] (i mod 8).

Definition byte_list (b : list Z) : Prop := Forall (is_word 8) b.

Lemma shiftr_3 i : Z.shiftr i 3 = i / 8.
Proof. by rewrite Z.shiftr_div_pow2 by lia. Qed.

Lemma land_7 i : Z.land i 7 = i mod 8.
Proof. change 7 with (Z.ones 3). by rewrite Z.land_ones by lia. Qed.

Lemma bbit_upd b k x i :
  0 <= k < zlen b -> bbit b.[k <- x] i = if i / 8 =? k then Z.testbit x (i mod 8) else bbit b i.
Proof.
  intros Hk. unfold bbit. destruct (Z.eqb_spec (i / 8) k) as [->|Hne].
  - by rewrite znth_zupd_eq.
  - by rewrite znth_zupd_ne by congruence.
Qed.

Lemma stream_byte_at b k : byte_list b -> 0 <= k < zlen b -> is_word 8 b.[0|k].
Proof. intros Hb Hk. by apply (znth_Forall (is_word 8)). Qed.

(** The two halves of clearing an interval that crosses bytes. *)
Lemma keep_low_bits x k j :
  is_word 8 x -> 0 <= k <= 8 -> 0 <= j < 8 ->
  Z.testbit (shr 8 (shl 8 x k) k) j = (j <? 8 - k) && Z.testbit x j.
Proof.
  intros Hx Hk Hj. unfold shr, shl. destruct (Z.leb_spec 8 k).
  - destruct (Z.ltb_spec j (8 - k)); [lia|]. apply Z.bits_0.
  - rewrite Z.shiftr_spec by lia. destruct (Z.ltb_spec j (8 - k)); simpl.
    + rewrite wrap_testbit, Z.shiftl_spec by lia. f_equal. lia.
    + apply (word_testbit_high 8); [apply (wrap_word 8); lia|lia].
Qed.

Lemma keep_high_bits x k j :
  0 <= k -> 0 <= j < 8 ->
  Z.testbit (wrap 8 (Z.shiftl (Z.shiftr x k) k)) j = (k <=? j) && Z.testbit x j.
Proof.
  intros Hk Hj. rewrite wrap_testbit, Z.shiftl_spec by lia. destruct (Z.leb_spec k j); simpl.
  - rewrite Z.shiftr_spec by lia. f_equal. lia.
  - apply Z.testbit_neg_r. lia.
Qed.

(** Isolating the bits from [b] to [e] of a byte and subtracting them. *)
Lemma drop_mid_bits x b e j :
  is_word 8 x -> 0 <= b < e -> e <= 8 -> 0 <= j < 8 ->
  Z.testbit (wrap 8 (x - Z.shiftr (shl 8 (shr 8 x b) (b + (8 - e))) (8 - e))) j
  = negb ((b <=? j) && (j <? e)) && Z.testbit x j.
Proof.
  intros Hx Hb He Hj. set (t := Z.shiftr _ (8 - e)).
  assert (forall i, 0 <= i -> Z.testbit t i = (b <=? i) && (i <? e) && Z.testbit x i) as Ht.
  { intros i Hi. unfold t, shr, shl. destruct (Z.leb_spec 8 b); [lia|]. destruct (Z.leb_spec 8 (b + (8 - e))); [lia|].
    rewrite Z.shiftr_spec by lia. destruct (Z.ltb_spec i e).
    - rewrite wrap_testbit, Z.shiftl_spec by lia. destruct (Z.leb_spec b i); simpl.
      + rewrite Z.shiftr_spec by lia. f_equal. lia.
      + apply Z.testbit_neg_r. lia.
    - rewrite andb_false_r. apply (word_testbit_high 8); [apply (wrap_word 8); lia|lia]. }
  assert (Z.ldiff t x = 0) as Hd.
  { apply Z.bits_inj'. intros i Hi. rewrite Z.ldiff_spec, Ht, Z.bits_0 by done. by destruct (Z.testbit x i); rewrite ?andb_false_r. }
  rewrite Z.sub_nocarry_ldiff by done. rewrite wrap_testbit, Z.ldiff_spec, Ht by lia.
  by destruct (b <=? j), (j <? e), (Z.testbit x j).
Qed.

Lemma memset0_spec b from n :
  0 <= from -> from + n <= zlen b ->
  zlen (memset0 b from n) = zlen b /\
  forall k, (memset0 b from n).[0|k] = if (from <=? k) && (k <? from + n) then 0 else b.[0|k].
Proof.
  intros Hf Hn. unfold memset0. set (c := foldl _ _ _).
  destruct (Z.le_gt_cases n 0) as [Hn0|Hn0].
  { unfold c. rewrite range_nil by lia. split; [done|]. intros k. by destruct (Z.leb_spec from k), (Z.ltb_spec k (from + n)); [lia|..]. }
  assert (zlen c = zlen b /\ forall k, c.[0|k] = if (from <=? k) && (k <? from + n - 1 + 1) then 0 else b.[0|k]) as H.
  { unfold c. apply (foldl_range (fun b k => b.[k <- 0]) (fun m d => zlen d = zlen b /\
      forall k, d.[0|k] = if (from <=? k) && (k <? m) then 0 else b.[0|k])).
    - lia.
    - split; [done|]. intros k. by destruct (Z.leb_spec from k), (Z.ltb_spec k from); [lia|..].
    - intros i d Hi (Hl & Hd). rewrite zlen_zupd. split; [done|]. intros k. rewrite znth_zupd, Hd by lia.
      case_cmp; simpl; try done; lia. }
  replace (from + n - 1 + 1) with (from + n) in H by lia. exact H.
Qed.

(** [ZeroBits] clears exactly the bits of the interval. *)
Lemma ZeroBits_spec b beg end_ :
  byte_list b -> 0 <= beg <= end_ -> end_ <= 8 * zlen b ->
  zlen (ZeroBits b beg end_) = zlen b /\ byte_list (ZeroBits b beg end_) /\
  forall i, 0 <= i -> bbit (ZeroBits b beg end_) i = negb ((beg <=? i) && (i <? end_)) && bbit b i.
Proof.
  intros Hb Hbe He. unfold ZeroBits. rewrite !shiftr_3, !land_7.
  pose proof (Z.div_mod beg 8 ltac:(lia)) as Hd1. pose proof (Z.mod_pos_bound beg 8 ltac:(lia)) as Hm1.
  pose proof (Z.div_mod end_ 8 ltac:(lia)) as Hd2. pose proof (Z.mod_pos_bound end_ 8 ltac:(lia)) as Hm2.
  set (b1 := beg / 8) in *. set (m1 := beg mod 8) in *. set (b2 := end_ / 8) in *. set (m2 := end_ mod 8) in *.
  destruct (Z.ltb_spec b1 b2) as [Hlt|Hge].
  - set (x1 := shr 8 _ _). set (c := if m2 =? 0 then _ else _).
    assert (is_word 8 x1) as Hx1.
    { unfold x1, shr, shl. destruct (8 <=? 8 - m1); [unfold is_word; lia|]. apply word_shiftr; [lia|lia|]. apply (wrap_word 8). lia. }
    assert (byte_list b.[b1 <- x1]) as Hb1 by (by apply zupd_Forall).
    assert (zlen c = zlen b /\ byte_list c) as [Hlc Hbc].
    { unfold c. destruct (m2 =? 0); rewrite ?zlen_zupd; [done|]. split; [done|].
      apply zupd_Forall; [done|]. apply (wrap_word 8). lia. }
    destruct (memset0_spec c (b1 + 1) (b2 - b1 - 1)) as [Hl Hk]; [lia|lia|].
    split; [lia|]. split.
    { apply Forall_forall. intros y (n & Hn)%list_elem_of_lookup. pose proof (lookup_lt_Some _ _ _ Hn).
      rewrite <- (znth_lookup_Some 0 _ n y Hn), Hk. destruct (_ && _); [unfold is_word; lia|].
      apply stream_byte_at; [done|]. unfold zlen in *. lia. }
    intros i Hi. unfold bbit at 1. rewrite Hk.
    pose proof (Z.div_mod i 8 ltac:(lia)) as Hdi. pose proof (Z.mod_pos_bound i 8 ltac:(lia)) as Hmi.
    destruct (Z.leb_spec (b1 + 1) (i / 8)), (Z.ltb_spec (i / 8) (b1 + 1 + (b2 - b1 - 1))); cbn [andb].
    + rewrite Z.bits_0. by destruct (Z.leb_spec beg i), (Z.ltb_spec i end_); [|lia..].
    + change (Z.testbit c.[0|i / 8] (i mod 8)) with (bbit c i). unfold c. destruct (Z.eqb_spec m2 0).
      * rewrite bbit_upd by lia. destruct (Z.eqb_spec (i / 8) b1); [lia|].
        by destruct (Z.leb_spec beg i), (Z.ltb_spec i end_); [lia|..].
      * rewrite bbit_upd by (rewrite zlen_zupd; lia). destruct (Z.eqb_spec (i / 8) b2).
        -- rewrite keep_high_bits, znth_zupd_ne by lia. unfold bbit.
           destruct (Z.leb_spec m2 (i mod 8)), (Z.leb_spec beg i), (Z.ltb_spec i end_); try lia; simpl; congruence.
        -- rewrite bbit_upd by lia. destruct (Z.eqb_spec (i / 8) b1); [lia|].
           by destruct (Z.leb_spec beg i), (Z.ltb_spec i end_); [lia|..].
    + change (Z.testbit c.[0|i / 8] (i mod 8)) with (bbit c i).
      assert (bbit c i = bbit b.[b1 <- x1] i) as ->.
      { unfold c. destruct (Z.eqb_spec m2 0); [done|]. rewrite bbit_upd by (rewrite zlen_zupd; lia). by destruct (Z.eqb_spec (i / 8) b2); [lia|]. }
      rewrite bbit_upd by lia. destruct (Z.eqb_spec (i / 8) b1) as [E|].
      * unfold x1. rewrite keep_low_bits by (try apply stream_byte_at; (done || lia)). unfold bbit. rewrite E.
        destruct (Z.ltb_spec (i mod 8) (8 - (8 - m1))), (Z.leb_spec beg i), (Z.ltb_spec i end_); try lia; done.
      * by destruct (Z.leb_spec beg i), (Z.ltb_spec i end_); [lia|..].
    + lia.
  - destruct (Z.ltb_spec beg end_) as [Hlt|Hge2].
    + replace (8 - (8 - m1)) with m1 by lia. set (x := wrap 8 _).
      split; [apply zlen_zupd|]. split; [apply zupd_Forall; [done|]; apply (wrap_word 8); lia|].
      intros i Hi. rewrite bbit_upd by lia. unfold x.
      pose proof (Z.div_mod i 8 ltac:(lia)) as Hdi. pose proof (Z.mod_pos_bound i 8 ltac:(lia)) as Hmi.
      destruct (Z.eqb_spec (i / 8) b1) as [E|].
      * rewrite drop_mid_bits by (try apply stream_byte_at; (done || lia)). unfold bbit. rewrite E.
        by destruct (Z.leb_spec m1 (i mod 8)), (Z.ltb_spec (i mod 8) m2), (Z.leb_spec beg i), (Z.ltb_spec i end_); try lia.
      * by destruct (Z.leb_spec beg i), (Z.ltb_spec i end_); try lia.
    + split; [done|]. split; [done|]. intros i Hi. by destruct (Z.leb_spec beg i), (Z.ltb_spec i end_); try lia.
Qed.

(** ** The contract of a writer *)

(** The bits ahead that count as cleared are clear. *)
Record ready (s : BS) : Prop := {
  rd_pos : 0 <= bpos s <= blen s;
  rd_len : blen s <= 8 * zlen (bbuf s) /\ blen s < 2 ^ 31;
  rd_bytes : byte_list (bbuf s);
  rd_clr : clrlen s <= blen s;
  rd_zero : forall i, bpos s <= i < clrlen s -> bbit (bbuf s) i = false
}.

(** [s'] is [s] after the bits [vs] were written. *)
Record appended (s s' : BS) (vs : list bool) : Prop := {
  ap_ready : ready s';
  ap_len : blen s' = blen s;
  ap_size : zlen (bbuf s') = zlen (bbuf s);
  ap_pos : bpos s' = bpos s + zlen vs;
  ap_old : forall i, 0 <= i < bpos s -> bbit (bbuf s') i = bbit (bbuf s) i;
  ap_new : forall k, 0 <= k < zlen vs -> bbit (bbuf s') (bpos s + k) = vs.[false|k];
  ap_behind : forall i, blen s <= i -> bbit (bbuf s') i = bbit (bbuf s) i
}.

Lemma appended_nil s : ready s -> appended s s [].
Proof.
  intros. split; try done.
  - change (zlen []) with 0. lia.
  - intros k. change (zlen []) with 0. lia.
Qed.

Lemma appended_app s1 s2 s3 vs ws : 0 <= bpos s1 -> appended s1 s2 vs -> appended s2 s3 ws -> appended s1 s3 (vs ++ ws).
Proof.
  intros H0 [R2 L2 Z2 P2 O2 N2 B2] [R3 L3 Z3 P3 O3 N3 B3]. pose proof (zlen_nonneg vs).
  split; [done|congruence|congruence| | | |intros i Hi; rewrite B3, B2 by lia; done].
  - rewrite zlen_app. lia.
  - intros i Hi. rewrite O3, O2 by lia. done.
  - intros k Hk. rewrite zlen_app in Hk. destruct (Z.lt_ge_cases k (zlen vs)).
    + rewrite O3, N2, znth_app_l by lia. done.
    + rewrite znth_app_r by lia. rewrite <- N3 by lia. f_equal. lia.
Qed.

Lemma ClearBits_spec s :
  ready s ->
  (blen s = bpos s /\ ClearBits s = Overrun) \/
  (bpos s < blen s /\ exists s', ClearBits s = Done s' /\ appended s s' [] /\ bpos s < clrlen s' /\
     (forall n, n <= 8 -> bpos s + n <= blen s -> bpos s + n <= clrlen s')).
Proof.
  intros [Hp [Hl Hl2] Hb Hc Hz]. unfold ClearBits.
  set (c := wrap32 (2 * bpos s + 64) / 8 * 8). set (c' := if _ || _ then _ else _).
  assert (c' <= blen s /\ (c' <= bpos s -> blen s <= bpos s) /\
          (forall n, n <= 8 -> bpos s + n <= blen s -> bpos s + n <= c')) as (Hcl & Hcp & Hc8).
  { unfold c'. destruct (Z.leb_spec c (bpos s)); simpl; [intuition lia|].
    destruct (Z.ltb_spec (blen s) c); [intuition lia|]. split; [lia|]. split; [lia|]. intros n Hn _. unfold c in *.
    destruct (Z.lt_ge_cases (2 * bpos s + 64) (2 ^ 32)).
    - rewrite wrap_id in * by (unfold is_word; lia). pose proof (Z.div_mod (2 * bpos s + 64) 8 ltac:(lia)).
      pose proof (Z.mod_pos_bound (2 * bpos s + 64) 8 ltac:(lia)). lia.
    - assert (wrap32 (2 * bpos s + 64) = 2 * bpos s + 64 - 2 ^ 32) as E
        by (unfold wrap; symmetry; apply (Z.mod_unique _ _ 1); lia). rewrite E in *.
      pose proof (Z.mul_div_le (2 * bpos s + 64 - 2 ^ 32) 8 ltac:(lia)). lia. }
  destruct (Z.leb_spec c' (bpos s)) as [Hle|Hgt]; [left; split; [lia|done]|right]. split; [lia|].
  destruct (ZeroBits_spec (bbuf s) (bpos s) c' Hb ltac:(lia) ltac:(lia)) as (Hzl & Hzb & Hzi).
  eexists. split; [done|]. split; [|simpl; split; [lia|done]]. split; simpl.
  - split; simpl; [lia|rewrite Hzl; lia|done|lia|]. intros i Hi. rewrite Hzi by lia.
    by destruct (Z.leb_spec (bpos s) i), (Z.ltb_spec i c'); try lia.
  - done.
  - done.
  - change (zlen []) with 0. lia.
  - intros i Hi. rewrite Hzi by lia. by destruct (Z.leb_spec (bpos s) i); [lia|].
  - intros k. change (zlen []) with 0. lia.
  - intros i Hi. rewrite Hzi by lia. destruct (Z.ltb_spec i c'); [lia|]. by rewrite andb_false_r.
Qed.

Lemma cleared_spec s need :
  ready s -> 0 <= need <= 7 ->
  (bpos s = blen s /\ cleared s need = Overrun) \/
  (bpos s < blen s /\ exists s', cleared s need = Done s' /\ appended s s' [] /\ bpos s' = bpos s /\
     bpos s < clrlen s' /\ (bpos s + need < blen s -> bpos s + need < clrlen s')).
Proof.
  intros Hr Hn. pose proof Hr as [Hp [Hl Hl2] Hb Hc Hz]. unfold cleared.
  rewrite wrap_id by (unfold is_word; lia). destruct (Z.leb_spec (clrlen s) (bpos s + need)) as [Hle|Hgt].
  - destruct (ClearBits_spec s Hr) as [[H1 H2]|(H1 & s' & H2 & H3 & H4 & H5)]; [by left|right].
    split; [done|]. exists s'. split; [done|]. split; [done|].
    pose proof (ap_pos _ _ _ H3) as Hpos. change (zlen []) with 0 in Hpos. split; [lia|]. split; [done|].
    intros Hne. specialize (H5 (need + 1)). lia.
  - right. split; [lia|]. exists s. split; [done|]. split; [by apply appended_nil|]. split; [done|]. split; [lia|]. lia.
Qed.

Lemma or_byte_spec b k x :
  byte_list b -> 0 <= k < zlen b ->
  exists b', or_byte b k x = Done b' /\ zlen b' = zlen b /\ byte_list b' /\
    forall i, bbit b' i = bbit b i || ((i / 8 =? k) && Z.testbit x (i mod 8)).
Proof.
  intros Hb Hk. unfold or_byte. rewrite in_array_true by done. eexists. split; [done|].
  split; [apply zlen_zupd|]. split; [apply zupd_Forall; [done|]; apply (wrap_word 8); lia|].
  intros i. rewrite bbit_upd by done. pose proof (Z.mod_pos_bound i 8 ltac:(lia)). unfold bbit.
  destruct (Z.eqb_spec (i / 8) k) as [<-|]; [|by rewrite orb_false_r].
  by rewrite wrap_testbit, Z.lor_spec by lia.
Qed.

(** Moving on over [n] bits whose values are now [vs]. *)
Lemma appended_advance s b n vs :
  ready s -> zlen vs = n -> bpos s + n <= clrlen s -> byte_list b -> zlen b = zlen (bbuf s) ->
  (forall i, 0 <= i < bpos s \/ bpos s + n <= i -> bbit b i = bbit (bbuf s) i) ->
  (forall k, 0 <= k < n -> bbit b (bpos s + k) = vs.[false|k]) ->
  appended s (advance s b n) vs.
Proof.
  intros [Hp [Hl Hl2] Hb Hc Hz] Hn Hcl Hby Hlb Hsame Hnew. pose proof (zlen_nonneg vs). unfold advance.
  rewrite wrap_id by (unfold is_word; lia). split; simpl.
  - split; simpl; [lia|rewrite Hlb; lia|done|done|]. intros i Hi. rewrite Hsame by lia. apply Hz. lia.
  - done.
  - done.
  - lia.
  - intros i Hi. apply Hsame. lia.
  - intros k Hk. apply Hnew. lia.
  - intros i Hi. apply Hsame. lia.
Qed.

Lemma appended_cleared s s1 s2 vs : 0 <= bpos s -> appended s s1 [] -> appended s1 s2 vs -> appended s s2 vs.
Proof. intros H0 H1 H2. exact (appended_app s s1 s2 [] vs H0 H1 H2). Qed.

Lemma div_mod_pos p : 0 <= p -> p = 8 * (p / 8) + p mod 8 /\ 0 <= p mod 8 < 8 /\ 0 <= p / 8.
Proof.
  intros. pose proof (Z.div_mod p 8). pose proof (Z.mod_pos_bound p 8). pose proof (Z.div_pos p 8). lia.
Qed.

(** A bit is appended, unless the stream is full. *)
Lemma store_bit_spec s x v :
  ready s -> (forall j, 0 <= j < 8 -> Z.testbit x j = (j =? bpos s mod 8) && v) ->
  let put := (s ← cleared s 0; b ← or_byte (bbuf s) (Z.shiftr (bpos s) 3) x; Done (advance s b 1)) in
  (bpos s = blen s /\ put = Overrun) \/
  (bpos s < blen s /\ exists s', put = Done s' /\ appended s s' [v]).
Proof.
  intros Hr Hx put. unfold put.
  destruct (cleared_spec s 0 Hr ltac:(lia)) as [[H1 ->]|(H1 & s1 & -> & H2 & H3 & H4 & _)]; [by left|right].
  split; [done|]. simpl. pose proof (ap_ready _ _ _ H2) as Hr1. pose proof Hr1 as [Hp [Hl Hl2] Hb Hc Hz].
  rewrite shiftr_3. destruct (div_mod_pos (bpos s1) ltac:(lia)) as (Hd & Hm & Hq).
  destruct (or_byte_spec (bbuf s1) (bpos s1 / 8) x Hb) as (b & -> & Hbl & Hbb & Hbi); [lia|]. simpl.
  eexists. split; [done|]. apply (appended_cleared _ s1); [lia|done|].
  apply appended_advance; try done; [lia| |].
  - intros i Hi. rewrite Hbi, Hx by (apply Z.mod_pos_bound; lia). rewrite <- H3.
    destruct (Z.eqb_spec (i / 8) (bpos s1 / 8)) as [E|], (Z.eqb_spec (i mod 8) (bpos s1 mod 8)) as [E'|];
      rewrite ?orb_false_r; try done. exfalso. destruct (div_mod_pos i ltac:(lia)). lia.
  - intros k Hk. assert (k = 0) as -> by lia. rewrite Z.add_0_r, Hbi, Hx, <- H3 by (apply Z.mod_pos_bound; lia).
    rewrite !Z.eqb_refl. rewrite Hz by lia. done.
Qed.

Lemma PutBit_spec s v :
  ready s -> (bpos s = blen s /\ PutBit v s = Overrun) \/
             (bpos s < blen s /\ exists s', PutBit v s = Done s' /\ appended s s' [Z.testbit v 0]).
Proof.
  intros Hr. unfold PutBit.
  destruct (cleared_spec s 0 Hr ltac:(lia)) as [[H1 H2]|(H1 & s1 & H2 & H3 & H4 & _)].
  - left. by rewrite H2.
  - destruct (store_bit_spec s (Z.shiftl (Z.land v 1) (Z.land (bpos s) 7)) (Z.testbit v 0) Hr) as [H|H].
    + intros j Hj. rewrite land_7. pose proof (Z.mod_pos_bound (bpos s) 8 ltac:(lia)). rewrite Z.shiftl_spec by lia.
      destruct (Z.eqb_spec j (bpos s mod 8)) as [->|].
      * rewrite Z.sub_diag, Z.land_spec. simpl. by rewrite andb_true_r.
      * simpl. destruct (Z.lt_ge_cases j (bpos s mod 8)); [by apply Z.testbit_neg_r; lia|].
        rewrite Z.land_spec. change 1 with (2 ^ 0). rewrite Z.pow2_bits_false by lia. apply andb_false_r.
    + rewrite H2 in *. simpl in *. rewrite H4 in *. by left.
    + right. rewrite H2 in *. simpl in *. by rewrite H4 in *.
Qed.

Lemma PutBit1_spec s :
  ready s -> (bpos s = blen s /\ PutBit1 s = Overrun) \/
             (bpos s < blen s /\ exists s', PutBit1 s = Done s' /\ appended s s' [true]).
Proof.
  intros Hr. destruct (PutBit_spec s 1 Hr) as [H|H]; [left|right]; exact H.
Qed.

(** Writing a zero leaves the cleared bit. *)
Lemma PutBit0_PutBit s : ready s -> PutBit0 s = PutBit 0 s.
Proof.
  intros Hr. unfold PutBit0, PutBit.
  destruct (cleared_spec s 0 Hr ltac:(lia)) as [[_ ->]|(_ & s1 & -> & H2 & H3 & H4 & _)]; [done|]. simpl.
  pose proof (ap_ready _ _ _ H2) as [? [? ?] Hb ? _]. unfold or_byte. rewrite shiftr_3.
  destruct (div_mod_pos (bpos s1) ltac:(lia)) as (Hd & Hm & Hq). rewrite in_array_true by lia.
  rewrite Z.shiftl_0_l, Z.lor_0_r. rewrite wrap_id by (apply stream_byte_at; (done || lia)). by rewrite zupd_id by lia.
Qed.

Lemma PutBit0_spec s :
  ready s -> (bpos s = blen s /\ PutBit0 s = Overrun) \/
             (bpos s < blen s /\ exists s', PutBit0 s = Done s' /\ appended s s' [false]).
Proof. intros Hr. rewrite PutBit0_PutBit by done. apply (PutBit_spec s 0 Hr). Qed.

Definition bits_of (n v : Z) : list bool := map (Z.testbit v) (range 0 (n - 1)).

Lemma zlen_bits_of n v : 0 <= n -> zlen (bits_of n v) = n.
Proof. intros. unfold bits_of, zlen. rewrite length_map. unfold range. rewrite length_seqZ. lia. Qed.

Lemma znth_bits_of n v k : 0 <= k < n -> (bits_of n v).[false|k] = Z.testbit v k.
Proof.
  intros Hk. rewrite <- (Z2Nat.id k) at 1 by lia. apply znth_lookup_Some. unfold bits_of, range.
  rewrite list_lookup_fmap, lookup_seqZ_lt by lia. simpl. do 2 f_equal. lia.
Qed.

(** The eight cleared bits at the position become those of a byte. *)
Lemma put_byte_bits s v :
  ready s -> is_word 8 v -> bpos s + 8 <= clrlen s ->
  let k := bpos s / 8 in let o := bpos s mod 8 in
  exists b,
    (if negb (o =? 0) then
       b ← or_byte (bbuf s) k (Z.shiftl v o); b ← or_byte b (k + 1) (shr 8 v (8 - o)); Done (advance s b 8)
     else if in_array (bbuf s) k then Done (advance s (bbuf s).[k <- v] 8) else Bad) = Done (advance s b 8) /\
    byte_list b /\ zlen b = zlen (bbuf s) /\
    forall i, 0 <= i ->
      bbit b i = if (bpos s <=? i) && (i <? bpos s + 8) then Z.testbit v (i - bpos s) else bbit (bbuf s) i.
Proof.
  intros [Hp [Hl Hl2] Hb Hc Hz] Hv Hroom k o. destruct (div_mod_pos (bpos s) ltac:(lia)) as (Hd & Hm & Hq).
  fold k o in Hd, Hm, Hq. destruct (Z.eqb_spec o 0) as [Ho|Ho]; simpl.
  - rewrite in_array_true by lia. eexists. split; [done|]. split; [by apply zupd_Forall|]. split; [apply zlen_zupd|].
    intros i Hi. destruct (div_mod_pos i Hi) as (E1 & E2 & _). rewrite bbit_upd by lia.
    destruct (Z.eqb_spec (i / 8) k), (Z.leb_spec (bpos s) i), (Z.ltb_spec i (bpos s + 8)); try lia; try done.
    simpl. f_equal. lia.
  - destruct (or_byte_spec (bbuf s) k (Z.shiftl v o) Hb) as (b1 & -> & Hl1 & Hb1 & Hi1); [lia|]. simpl.
    destruct (or_byte_spec b1 (k + 1) (shr 8 v (8 - o)) Hb1) as (b2 & -> & Hlb2 & Hb2 & Hi2); [lia|]. simpl.
    eexists. split; [done|]. split; [done|]. split; [lia|]. intros i Hi. rewrite Hi2, Hi1.
    destruct (div_mod_pos i Hi) as (E1 & E2 & _). unfold shr. destruct (Z.leb_spec 8 (8 - o)); [lia|].
    rewrite Z.shiftl_spec, Z.shiftr_spec by lia.
    destruct (Z.leb_spec (bpos s) i) as [Hge|Hlt], (Z.ltb_spec i (bpos s + 8)) as [Hlt2|Hge2]; simpl; try lia;
      [rewrite Hz by lia| |]; destruct (Z.eqb_spec (i / 8) k), (Z.eqb_spec (i / 8) (k + 1)); try lia; simpl;
      rewrite ?orb_false_r; try done; try (f_equal; lia).
    + rewrite (word_testbit_high 8 v) by (done || lia). apply orb_false_r.
    + rewrite Z.testbit_neg_r by lia. apply orb_false_r.
Qed.

(** A byte is appended where there is room for eight bits. *)
Lemma PutByte_spec s v :
  ready s -> is_word 8 v -> bpos s + 8 <= blen s ->
  exists s', PutByte v s = Done s' /\ appended s s' (bits_of 8 v).
Proof.
  intros Hr Hv Hroom. unfold PutByte.
  destruct (cleared_spec s 7 Hr ltac:(lia)) as [[H1 _]|(H1 & s1 & -> & H2 & H3 & _ & H4)]; [lia|]. simpl.
  specialize (H4 ltac:(lia)). pose proof (ap_ready _ _ _ H2) as Hr1. rewrite shiftr_3, land_7.
  destruct (put_byte_bits s1 v Hr1 Hv ltac:(lia)) as (b & -> & Hbb & Hbl & Hbi).
  pose proof (rd_pos _ Hr1) as Hp. eexists. split; [done|]. apply (appended_cleared _ s1); [apply Hr|done|].
  apply appended_advance; try done; [lia| |].
  - intros i Hi. rewrite Hbi by lia. by destruct (Z.leb_spec (bpos s1) i), (Z.ltb_spec i (bpos s1 + 8)); try lia.
  - intros j Hj. rewrite Hbi, znth_bits_of by lia.
    destruct (Z.leb_spec (bpos s1) (bpos s1 + j)), (Z.ltb_spec (bpos s1 + j) (bpos s1 + 8)); try lia. simpl. f_equal. lia.
Qed.

Lemma bits_of_app a b v : 0 <= a -> 0 <= b -> bits_of (a + b) v = bits_of a v ++ bits_of b (Z.shiftr v a).
Proof.
  intros Ha Hb. apply (znth_ext false); [rewrite zlen_app, !zlen_bits_of; lia|]. intros i Hi.
  rewrite zlen_bits_of in Hi by lia. rewrite znth_bits_of by lia. destruct (Z.lt_ge_cases i a).
  - by rewrite znth_app_l, znth_bits_of by (rewrite ?zlen_bits_of; lia).
  - rewrite znth_app_r by (rewrite zlen_bits_of; lia). rewrite zlen_bits_of, znth_bits_of, Z.shiftr_spec by lia. f_equal. lia.
Qed.

(** A loop of writes appends the bits of all of them. *)
Lemma each_spec {A : Type} (f : A -> BS -> sres BS) (g : A -> list bool) l : forall s,
  ready s -> bpos s + zlen (concat (map g l)) <= blen s ->
  (forall x s, In x l -> ready s -> bpos s + zlen (g x) <= blen s -> exists s', f x s = Done s' /\ appended s s' (g x)) ->
  exists s', each f l s = Done s' /\ appended s s' (concat (map g l)).
Proof.
  induction l as [|x l IH]; intros s Hr Hroom Hf; simpl in *; [exists s; split; [done|by apply appended_nil]|].
  rewrite zlen_app in Hroom. pose proof (zlen_nonneg (concat (map g l))) as Hnn.
  destruct (Hf x s (or_introl eq_refl) Hr ltac:(lia)) as (s1 & -> & H1). simpl.
  destruct (IH s1 (ap_ready _ _ _ H1)) as (s2 & -> & H2).
  - rewrite (ap_pos _ _ _ H1), (ap_len _ _ _ H1). lia.
  - intros y s' Hy. apply Hf. by right.
  - exists s2. split; [done|]. apply (appended_app s s1); [apply Hr|done|done].
Qed.

(** Whole groups of [c] bits. *)
Lemma concat_groups c n (m : nat) : 0 <= c -> forall a, 0 <= a ->
  concat (map (fun j => bits_of c (Z.shiftr n (c * j))) (seqZ a (Z.of_nat m))) = bits_of (c * Z.of_nat m) (Z.shiftr n (c * a)).
Proof.
  intros Hc. induction m as [|m IH]; intros a Ha; [by rewrite Z.mul_0_r|].
  rewrite seqZ_cons by lia. simpl. replace (Z.pred (Z.of_nat (S m))) with (Z.of_nat m) by lia.
  rewrite IH by lia. replace (c * Z.of_nat (S m)) with (c + c * Z.of_nat m) by lia.
  rewrite bits_of_app by nia. rewrite Z.shiftr_shiftr by nia. do 3 f_equal. lia.
Qed.

Lemma bits_of_wrap w n v : n <= w -> bits_of n (wrap w v) = bits_of n v.
Proof.
  intros Hn. unfold bits_of. apply map_ext_in. intros i Hi%range_In. apply wrap_testbit. lia.
Qed.

(** The bits of a number are appended, the least significant first. *)
Lemma PutUInt_spec n no_bits s :
  ready s -> 0 <= no_bits -> bpos s + no_bits <= blen s ->
  exists s', PutUInt n no_bits s = Done s' /\ appended s s' (bits_of no_bits n).
Proof.
  intros Hr Hn Hroom. unfold PutUInt. pose proof (Z.div_pos no_bits 8 Hn ltac:(lia)) as Hq.
  pose proof (Z.mul_div_le no_bits 8 ltac:(lia)) as Hqle. set (q := no_bits / 8) in *.
  assert (concat (map (fun j => bits_of 8 (Z.shiftr n (8 * j))) (range 0 (q - 1))) = bits_of (8 * q) n) as E1.
  { unfold range. replace (q - 1 - 0 + 1) with (Z.of_nat (Z.to_nat q)) by lia. rewrite concat_groups by lia.
    rewrite Z.mul_0_r, Z.shiftr_0_r. f_equal. lia. }
  assert (concat (map (fun i => bits_of 1 (Z.shiftr n (1 * i))) (range (q * 8) (no_bits - 1)))
          = bits_of (no_bits - q * 8) (Z.shiftr n (q * 8))) as E2.
  { unfold range. replace (no_bits - 1 - q * 8 + 1) with (Z.of_nat (Z.to_nat (no_bits - q * 8))) by lia.
    rewrite concat_groups by lia. rewrite !Z.mul_1_l. f_equal. lia. }
  destruct (each_spec (fun j => PutByte (wrap 8 (Z.shiftr n (8 * j)))) (fun j => bits_of 8 (Z.shiftr n (8 * j)))
    (range 0 (q - 1)) s Hr) as (s1 & -> & H1).
  { rewrite E1, zlen_bits_of by lia. lia. }
  { intros j s' _ Hr' Hr8. rewrite zlen_bits_of in Hr8 by lia. rewrite <- (bits_of_wrap 8) by lia.
    apply PutByte_spec; [done|apply (wrap_word 8); lia|done]. }
  rewrite E1 in H1. pose proof (ap_pos _ _ _ H1) as Hp1. rewrite zlen_bits_of in Hp1 by lia. simpl.
  destruct (each_spec (fun i => PutBit (wrap 8 (Z.shiftr n i))) (fun i => bits_of 1 (Z.shiftr n (1 * i)))
    (range (q * 8) (no_bits - 1)) s1 (ap_ready _ _ _ H1)) as (s2 & -> & H2).
  { rewrite E2, zlen_bits_of, (ap_len _ _ _ H1) by lia. lia. }
  { intros i s' _ Hr' Hr1. rewrite zlen_bits_of in Hr1 by lia. rewrite Z.mul_1_l.
    destruct (PutBit_spec s' (wrap 8 (Z.shiftr n i)) Hr') as [[? _]|(_ & s2 & ? & Hs2)]; [lia|].
    exists s2. split; [done|]. rewrite wrap_testbit in Hs2 by lia. exact Hs2. }
  rewrite E2 in H2. exists s2. split; [done|].
  replace no_bits with (8 * q + (no_bits - q * 8)) at 1 by lia. rewrite bits_of_app by lia.
  rewrite (Z.mul_comm 8 q) at 2. apply (appended_app s s1); [apply Hr|done|done].
Qed.

(** ** Writing past the end *)

(** The position is behind the end. *)
Definition past (s : BS) : Prop := 0 <= blen s < bpos s /\ bpos s < 2 ^ 31 + 8 /\ clrlen s <= blen s.

Lemma ClearBits_full s : blen s <= bpos s -> ClearBits s = Overrun.
Proof.
  intros Hp. unfold ClearBits. set (c := wrap32 (2 * bpos s + 64) / 8 * 8).
  set (c' := if _ || _ then _ else _). destruct (Z.leb_spec c' (bpos s)) as [|Hc]; [done|exfalso]. revert Hc. unfold c'.
  destruct (Z.leb_spec c (bpos s)); simpl; [lia|]. destruct (Z.ltb_spec (blen s) c); lia.
Qed.

Lemma cleared_past s need : past s -> 0 <= need <= 7 -> cleared s need = Overrun.
Proof.
  intros (Hp & H31 & Hc) Hn. unfold cleared. rewrite wrap_id by (unfold is_word; lia).
  destruct (Z.leb_spec (clrlen s) (bpos s + need)); [apply ClearBits_full; lia|lia].
Qed.

Lemma PutBit_past v s : past s -> PutBit v s = Overrun.
Proof. intros. unfold PutBit. by rewrite cleared_past by (done || lia). Qed.

Lemma PutByte_past v s : past s -> PutByte v s = Overrun.
Proof. intros. unfold PutByte. by rewrite cleared_past by (done || lia). Qed.

(** The output ends with a whole byte and the array has one more. *)
Definition spare (s : BS) : Prop := exists len, blen s = 8 * len /\ len < zlen (bbuf s).

(** A byte that begins before the end and does not fit is written into the spare one. *)
Lemma PutByte_over v s :
  ready s -> spare s -> blen s < bpos s + 8 ->
  PutByte v s = Overrun \/ exists s', PutByte v s = Done s' /\ past s'.
Proof.
  intros Hr (len & Hl & Hz) Hover. unfold PutByte.
  destruct (cleared_spec s 7 Hr ltac:(lia)) as [[_ ->]|(H1 & s1 & -> & H2 & H3 & _ & _)]; [by left|right]. simpl.
  pose proof (ap_ready _ _ _ H2) as [Hp [Hl1 Hl31] Hb Hc _]. pose proof (ap_len _ _ _ H2) as El. pose proof (ap_size _ _ _ H2) as Es.
  rewrite shiftr_3, land_7. destruct (div_mod_pos (bpos s1) ltac:(lia)) as (Hd & Hm & Hq).
  destruct (Z.eqb_spec (bpos s1 mod 8) 0); simpl; [lia|].
  destruct (or_byte_spec (bbuf s1) (bpos s1 / 8) (Z.shiftl v (bpos s1 mod 8)) Hb) as (b1 & -> & E1 & Hb1 & _); [lia|]. simpl.
  destruct (or_byte_spec b1 (bpos s1 / 8 + 1) (shr 8 v (8 - bpos s1 mod 8)) Hb1) as (b2 & -> & _ & _ & _); [lia|]. simpl.
  eexists. split; [done|]. unfold past. simpl. rewrite wrap_id by (unfold is_word; lia). lia.
Qed.

(** Bytes that do not all fit. *)
Lemma each_PutByte_over n (m : nat) : forall a s,
  ready s -> spare s -> blen s < bpos s + 8 * Z.of_nat m ->
  let r := each (fun j => PutByte (wrap 8 (Z.shiftr n (8 * j)))) (seqZ a (Z.of_nat m)) s in
  r = Overrun \/ exists s', r = Done s' /\ past s'.
Proof.
  induction m as [|m IH]; intros a s Hr Hs Hover; [destruct Hr as [? _ _ _ _]; lia|].
  rewrite seqZ_cons by lia. cbn [each]. replace (Z.pred (Z.of_nat (S m))) with (Z.of_nat m) by lia.
  destruct (Z.lt_ge_cases (blen s) (bpos s + 8)) as [Hlt|Hge].
  - destruct (PutByte_over (wrap 8 (Z.shiftr n (8 * a))) s Hr Hs Hlt) as [->|(s1 & -> & Hp)]; [by left|].
    simpl. destruct m; [right; by exists s1|left]. rewrite seqZ_cons by lia. cbn [each]. by rewrite PutByte_past.
  - destruct (PutByte_spec s (wrap 8 (Z.shiftr n (8 * a))) Hr) as (s1 & -> & Ha); [apply (wrap_word 8); lia|lia|].
    simpl. pose proof (ap_pos _ _ _ Ha) as Hp. rewrite zlen_bits_of in Hp by lia.
    apply IH; [apply Ha| |rewrite (ap_len _ _ _ Ha); lia].
    destruct Hs as (len & ? & ?). exists len. by rewrite (ap_len _ _ _ Ha), (ap_size _ _ _ Ha).
Qed.

Lemma PutUInt_over n (m : nat) s :
  ready s -> spare s -> blen s < bpos s + 8 * Z.of_nat m ->
  PutUInt n (8 * Z.of_nat m) s = Overrun \/ exists s', PutUInt n (8 * Z.of_nat m) s = Done s' /\ past s'.
Proof.
  intros Hr Hs Hover. unfold PutUInt. rewrite (Z.mul_comm 8), Z.div_mul by lia. rewrite (range_nil (Z.of_nat m * 8)) by lia.
  unfold range. replace (Z.of_nat m - 1 - 0 + 1) with (Z.of_nat m) by lia.
  destruct (each_PutByte_over n m 0 s Hr Hs Hover) as [->|(s' & -> & Hp)]; [by left|right; by exists s'].
Qed.

(** ** The contract of a reader *)

Record readable (s : BS) : Prop := {
  re_pos : 0 <= bpos s <= blen s;
  re_len : blen s <= 8 * zlen (bbuf s) /\ blen s < 2 ^ 31;
  re_bytes : byte_list (bbuf s)
}.

(** [s'] is [s] with the position [n] bits further. *)
Definition moved (s s' : BS) (n : Z) : Prop := bbuf s' = bbuf s /\ blen s' = blen s /\ bpos s' = bpos s + n.

Lemma readable_moved s s' n : readable s -> moved s s' n -> 0 <= n -> bpos s + n <= blen s -> readable s'.
Proof. intros [Hp Hl Hb] (E1 & E2 & E3) Hn Hr. split; [lia| |]; rewrite ?E1, ?E2; done. Qed.

Lemma GetBit_spec s :
  readable s ->
  (bpos s = blen s /\ GetBit s = Overrun) \/
  (bpos s < blen s /\ exists s', GetBit s = Done (bit1 (bbit (bbuf s) (bpos s)), s') /\ moved s s' 1).
Proof.
  intros [Hp [Hl Hl2] Hb]. unfold GetBit. destruct (Z.leb_spec (blen s) (bpos s)); [left; split; [lia|done]|right].
  split; [done|]. rewrite shiftr_3, land_7. destruct (div_mod_pos (bpos s) ltac:(lia)) as (Hd & Hm & Hq).
  rewrite in_array_true by lia. eexists. split.
  - do 2 f_equal. unfold bbit. change 1 with (Z.ones 1). rewrite Z.land_ones by lia.
    rewrite <- Z.bit0_mod, Z.shiftr_spec by lia. rewrite Z.add_0_l. by destruct (Z.testbit _ _).
  - split; [done|]. split; [done|]. simpl. apply wrap_id. unfold is_word. lia.
Qed.

Lemma GetByte_spec s :
  readable s -> bpos s + 8 <= blen s ->
  exists v s', GetByte s = Done (v, s') /\ moved s s' 8 /\ is_word 8 v /\
    forall j, 0 <= j < 8 -> Z.testbit v j = bbit (bbuf s) (bpos s + j).
Proof.
  intros [Hp [Hl Hl2] Hb] Hroom. unfold GetByte. rewrite wrap_id by (unfold is_word; lia).
  destruct (Z.leb_spec (blen s) (bpos s + 7)); [lia|]. rewrite shiftr_3, land_7.
  destruct (div_mod_pos (bpos s) ltac:(lia)) as (Hd & Hm & Hq). set (k := bpos s / 8) in *. set (o := bpos s mod 8) in *.
  assert (moved s (advance s (bbuf s) 8) 8) as Hmv
    by (split; [done|]; split; [done|]; simpl; apply wrap_id; unfold is_word; lia).
  assert (forall j, 0 <= j < 8 -> (bpos s + j) / 8 = (if o + j <? 8 then k else k + 1) /\
                                  (bpos s + j) mod 8 = (if o + j <? 8 then o + j else o + j - 8)) as Hpos.
  { intros j Hj. destruct (Z.ltb_spec (o + j) 8).
    - split; [symmetry; apply (Z.div_unique _ _ _ (o + j))|symmetry; apply (Z.mod_unique _ _ k)]; lia.
    - split; [symmetry; apply (Z.div_unique _ _ _ (o + j - 8))|symmetry; apply (Z.mod_unique _ _ (k + 1))]; lia. }
  destruct (Z.eqb_spec o 0) as [Ho|Ho]; simpl.
  - rewrite in_array_true by lia. eexists _, _. split; [done|]. split; [done|]. split; [apply stream_byte_at; (done || lia)|].
    intros j Hj. unfold bbit. destruct (Hpos j Hj) as [-> ->]. destruct (Z.ltb_spec (o + j) 8); [|lia]. f_equal. lia.
  - rewrite !in_array_true by lia. simpl. eexists _, _. split; [done|]. split; [done|].
    split; [apply (wrap_word 8); lia|]. intros j Hj. rewrite wrap_testbit, Z.lor_spec, Z.shiftr_spec by lia.
    unfold shl. destruct (Z.leb_spec 8 (8 - o)); [lia|]. rewrite wrap_testbit, Z.shiftl_spec by lia.
    unfold bbit. destruct (Hpos j Hj) as [-> ->]. destruct (Z.ltb_spec (o + j) 8).
    + rewrite (Z.testbit_neg_r _ (j - (8 - o))), orb_false_r by lia. f_equal. lia.
    + rewrite (word_testbit_high 8 _ (j + o)) by (try apply stream_byte_at; (done || lia)). simpl. f_equal. lia.
Qed.

(** The low bits of [r] are those of the stream from [p] on. *)
Definition holds (b : list Z) (p n r : Z) : Prop :=
  is_word n r /\ forall i, 0 <= i < n -> Z.testbit r i = bbit b (p + i).

Lemma holds_or b p n c r v w :
  0 <= n -> 0 <= c -> n + c <= w -> holds b p n r -> holds b (p + n) c v ->
  holds b p (n + c) (Z.lor r (wrap w (Z.shiftl v n))).
Proof.
  intros Hn Hc Hw [Hr Hri] [Hv Hvi].
  assert (is_word (n + c) (Z.shiftl v n)) as Hs.
  { unfold is_word in *. rewrite Z.shiftl_mul_pow2, Z.pow_add_r by lia. pose proof (Z.pow_pos_nonneg 2 n). nia. }
  assert (is_word (n + c) r) as Hr'.
  { unfold is_word in *. pose proof (Z.pow_le_mono_r 2 n (n + c)). lia. }
  rewrite (wrap_id w) by (unfold is_word in *; pose proof (Z.pow_le_mono_r 2 (n + c) w); lia).
  split; [by apply word_lor; [lia|..]|]. intros i Hi. rewrite Z.lor_spec, Z.shiftl_spec by lia.
  destruct (Z.lt_ge_cases i n).
  - rewrite (Z.testbit_neg_r v), orb_false_r by lia. apply Hri. lia.
  - rewrite (word_testbit_high n r) by (done || lia). simpl. rewrite Hvi by lia. f_equal. lia.
Qed.

Lemma gather_spec get c w b p (m : nat) : forall a r s,
  0 <= c -> 0 <= a -> c * (a + Z.of_nat m) <= w -> readable s -> bbuf s = b -> bpos s = p + c * a ->
  bpos s + c * Z.of_nat m <= blen s -> holds b p (c * a) r ->
  (forall s, readable s -> bpos s + c <= blen s ->
     exists v s', get s = Done (v, s') /\ moved s s' c /\ holds (bbuf s) (bpos s) c v) ->
  exists r' s', gather get w (map (Z.mul c) (seqZ a (Z.of_nat m))) r s = Done (r', s') /\
    moved s s' (c * Z.of_nat m) /\ readable s' /\ holds b p (c * (a + Z.of_nat m)) r'.
Proof.
  induction m as [|m IH]; intros a r s Hc Ha Hw Hre Hb Hp Hroom Hr Hget.
  - exists r, s. split; [done|]. rewrite Z.mul_0_r, Z.add_0_r. split; [|done]. unfold moved. rewrite Z.add_0_r. done.
  - rewrite seqZ_cons by lia. simpl. replace (Z.pred (Z.of_nat (S m))) with (Z.of_nat m) by lia.
    destruct (Hget s Hre ltac:(nia)) as (v & s1 & -> & Hmv & Hv). simpl.
    pose proof Hmv as (E1 & E2 & E3).
    destruct (IH (Z.succ a) (Z.lor r (wrap w (Z.shiftl v (c * a)))) s1) as (r' & s' & -> & Hmv' & Hre' & Hr'); try done; try lia.
    + by apply (readable_moved s s1 c); try nia.
    + congruence.
    + replace (c * Z.succ a) with (c * a + c) by lia. apply holds_or; try nia; [done|]. rewrite <- Hp, <- Hb. done.
    + exists r', s'. split; [done|]. destruct Hmv' as (F1 & F2 & F3). split; [|split; [done|]].
      * split; [congruence|]. split; [congruence|]. lia.
      * by replace (a + Z.of_nat (S m)) with (Z.succ a + Z.of_nat m) by lia.
Qed.

Lemma GetUInt_spec w no_bits s :
  readable s -> 0 <= no_bits <= w -> bpos s + no_bits <= blen s ->
  exists r s', GetUInt w no_bits s = Done (r, s') /\ moved s s' no_bits /\ holds (bbuf s) (bpos s) no_bits r.
Proof.
  intros Hre Hn Hroom. unfold GetUInt. pose proof (Z.div_pos no_bits 8 ltac:(lia) ltac:(lia)) as Hq.
  pose proof (Z.mul_div_le no_bits 8 ltac:(lia)) as Hqle. set (q := no_bits / 8) in *. unfold range.
  replace (q - 1 - 0 + 1) with (Z.of_nat (Z.to_nat q)) by lia.
  destruct (gather_spec GetByte 8 w (bbuf s) (bpos s) (Z.to_nat q) 0 0 s) as (r & s1 & -> & Hm1 & Hre1 & Hr1);
    try done; try lia.
  { split; [unfold is_word; lia|]. lia. }
  { intros s' Hs' Hroom'. destruct (GetByte_spec s' Hs' Hroom') as (v & s2 & ? & ? & ? & ?). exists v, s2. done. }
  simpl. pose proof Hm1 as (E1 & E2 & E3).
  replace (seqZ (q * 8) (no_bits - 1 - q * 8 + 1)) with (map (Z.mul 1) (seqZ (q * 8) (Z.of_nat (Z.to_nat (no_bits - q * 8))))).
  2:{ rewrite <- (map_id (seqZ (q * 8) (no_bits - 1 - q * 8 + 1))).
      replace (no_bits - 1 - q * 8 + 1) with (Z.of_nat (Z.to_nat (no_bits - q * 8))) by lia.
      apply map_ext. intros; lia. }
  destruct (gather_spec GetBit 1 w (bbuf s) (bpos s) (Z.to_nat (no_bits - q * 8)) (q * 8) r s1)
    as (r' & s2 & -> & Hm2 & Hre2 & Hr2); try done; try lia.
  { by replace (1 * (q * 8)) with (8 * (0 + Z.of_nat (Z.to_nat q))) by lia. }
  { intros s' Hs' Hroom'. destruct (GetBit_spec s' Hs') as [[? _]|(_ & s2 & ? & ?)]; [lia|].
    eexists _, s2. split; [done|]. split; [done|]. split.
    - unfold is_word. pose proof (bit1_bounds (bbit (bbuf s') (bpos s'))). lia.
    - intros i Hi. assert (i = 0) as -> by lia. rewrite Z.add_0_r. by destruct (bbit _ _). }
  exists r', s2. destruct Hm2 as (F1 & F2 & F3). split; [done|]. split.
  - split; [congruence|]. split; [congruence|]. lia.
  - by replace no_bits with (1 * (q * 8 + Z.of_nat (Z.to_nat (no_bits - q * 8)))) at 1 by lia.
Qed.

(** A number written with [PutUInt] is read back by [GetUInt] from the place where it was
    written, whatever is written after it; the stream only needs room for its bits. *)
Theorem BitStream_roundtrip (n w no_bits : Z) (s : BS) (ws : list bool)
    (Hr : ready s) (Hn : 0 <= n < 2 ^ no_bits) (Hb : 0 <= no_bits <= w)
    (Hroom : bpos s + no_bits <= blen s) :
  exists s1, PutUInt n no_bits s = Done s1 /\ bpos s1 = bpos s + no_bits /\
    forall s2, appended s1 s2 ws ->
      exists r, GetUInt w no_bits (BS_Reset (bbuf s2) (bpos s2) (bpos s)) = Done (n, r) /\ bpos r = bpos s1.
Proof.
  destruct (PutUInt_spec n no_bits s Hr ltac:(lia) Hroom) as (s1 & -> & H1). exists s1. split; [done|].
  pose proof (ap_pos _ _ _ H1) as Hp1. rewrite zlen_bits_of in Hp1 by lia. split; [done|]. intros s2 H2.
  pose proof (ap_pos _ _ _ H2) as Hp2. pose proof (zlen_nonneg ws). pose proof (rd_pos _ Hr).
  pose proof (ap_ready _ _ _ H2) as [Hq2 [Hl2 Hl2'] Hb2 _ _].
  destruct (GetUInt_spec w no_bits (BS_Reset (bbuf s2) (bpos s2) (bpos s))) as (r & s' & -> & (_ & _ & Hm) & Hw & Hbits);
    [split; simpl; [lia|lia|done]|done|simpl; lia|].
  simpl in Hm, Hbits. exists s'. split; [|lia]. do 2 f_equal. apply (word_ext no_bits); [lia|done|unfold is_word; lia|].
  intros i Hi. rewrite Hbits by lia. rewrite (ap_old _ _ _ H2), (ap_new _ _ _ H1), znth_bits_of by (rewrite ?zlen_bits_of; lia). done.
Qed.

Lemma BitStream_roundtrip_witness :
  exists s1, PutUInt 1234 11 (BS_Reset [255; 255; 255; 255] 32 5) = Done s1 /\ bpos s1 = 5 + 11 /\
    forall s2, appended s1 s2 [true; false] ->
      exists r, GetUInt 32 11 (BS_Reset (bbuf s2) (bpos s2) 5) = Done (1234, r) /\ bpos r = bpos s1.
Proof.
  apply (BitStream_roundtrip 1234 32 11 (BS_Reset [255; 255; 255; 255] 32 5) [true; false]).
  - split; simpl; [lia|split; [vm_compute; discriminate|lia]| |lia|lia].
    repeat constructor; vm_compute; discriminate.
  - lia.
  - lia.
  - simpl. lia.
Defined.

(** [PutByte] checks for room for one bit only: at the last bit of a buffer it writes to the
    byte after it. *)
Theorem PutByte_outside : PutByte 255 (BS_Reset [0; 0] 16 15) = Bad.
Proof. reflexivity. Qed.
