(* ===== verification/ArithCoder.v ===== *)
(** * The arithmetic coder of bit strings (compress/ArithCoder.h, compress/ArithCoder.cpp)

    The interval from [alow] to [ahigh] is kept in 16 bits; when it straddles the middle and
    cannot be told from it, the coder counts underflow bits, whose value is the complement of
    the next bit it will write.  The decoder reads past the end of its source as zeros, at most 16
    of them ([added]).

    Proved is that the decoder follows the encoder: [follows] is the relation between the final
    bits and the state of the encoder, [dec_at] that of the decoder at the same place. *)

From S2P Require Import Prelude CprsBase QSort RangeCoder BitStream.

Record AC := mkAC { alow : Z; ahigh : Z; acode : Z; arange : Z; underflow_bits : Z; added : Z }.

Definition AC_MAX_TOTAL : Z := 65535 / 4.

(** ** Encoding *)

Definition AC_InitCompress (a : AC) : AC := mkAC 0 65535 (acode a) (arange a) 0 (added a).

(** [while(underflow_bits > 0) dest->PutBit(v)] *)
Fixpoint put_times (n : nat) (v : Z) (s : BS) : sres BS :=
  match n with
  | O => Done s
  | S n' => s ← PutBit v s; put_times n' v s
  end.

(** [low <<= 1; high <<= 1; high |= 1] *)
Definition shift_interval (a : AC) : AC :=
  mkAC (wrap 16 (Z.shiftl (alow a) 1)) (Z.lor (wrap 16 (Z.shiftl (ahigh a) 1)) 1)
       (acode a) (arange a) (underflow_bits a) (added a).

Definition same_top (a : AC) : bool := Z.land (ahigh a) 0x8000 =? Z.land (alow a) 0x8000.
Definition straddles (a : AC) : bool := negb (Z.land (alow a) 0x4000 =? 0) && (Z.land (ahigh a) 0x4000 =? 0).

(** [low &= 0x3fff; high |= 0x4000] *)
Definition unstraddle (a : AC) (code u : Z) : AC :=
  mkAC (Z.land (alow a) 0x3fff) (Z.lor (ahigh a) 0x4000) code (arange a) u (added a).

(** The loop [for(;;)]: every round doubles the interval, so there are at most 16. *)
Fixpoint scale_loop (fuel : nat) (a : AC) (s : BS) : sres (AC * BS) :=
  match fuel with
  | O => Bad
  | S n =>
      if same_top a then
        s ← PutBit (Z.shiftr (ahigh a) 15) s;
        s ← put_times (Z.to_nat (underflow_bits a)) (Z.shiftr (Z.land (Z.lnot (ahigh a)) 0x8000) 15) s;
        scale_loop n (shift_interval (mkAC (alow a) (ahigh a) (acode a) (arange a)
                                        (Z.min (underflow_bits a) 0) (added a))) s
      else if straddles a then
        scale_loop n (shift_interval (unstraddle a (acode a) (underflow_bits a + 1))) s
      else Done (a, s)
  end.

(** The interval of a symbol. *)
Definition narrow_to (a : AC) (s_low s_high total : Z) : AC :=
  mkAC (wrap 16 (alow a + wrap 16 (wrap 64 (arange a * s_low) / total)))
       (wrap 16 (alow a + wrap 16 (wrap 64 (arange a * s_high) / total - 1)))
       (acode a) (arange a) (underflow_bits a) (added a).

Definition set_range (a : AC) : AC :=
  mkAC (alow a) (ahigh a) (acode a) (wrap 64 (wrap 64 (ahigh a - alow a) + 1)) (underflow_bits a) (added a).

Definition ScaleRange (s_low s_high total : Z) (a : AC) (s : BS) : sres (CprsErr * AC * BS) :=
  if total =? 0 then Bad
  else
    let a := narrow_to (set_range a) s_low s_high total in
    if ahigh a <? alow a then Done (CPRS_ERR_SUM, a, s)
    else '(a, s) ← scale_loop 17 a s; Done (CPRS_SUCCESS, a, s).

Definition AC_EndCompress (a : AC) (s : BS) : sres BS :=
  s ← PutBit (bit1 (0 <? Z.land (alow a) 0x4000)) s;
  put_times (Z.to_nat (underflow_bits a + 1)) (bit1 (0 <? Z.land (Z.lnot (alow a)) 0x4000)) s.

(** [while(src->CanRead())]: the fuel is the number of bits left. *)
Fixpoint compress_loop (fuel : nat) (sum : list Z) (total : Z) (a : AC) (src dest : BS) :
    sres (CprsErr * AC * BS) :=
  match fuel with
  | O => if CanRead src then Bad else Done (CPRS_SUCCESS, a, dest)
  | S n =>
      if CanRead src then
        '(c, src) ← GetBit src;
        '(err, a, dest) ← ScaleRange sum.[0|c] sum.[0|c + 1] total a dest;
        if decide (err = CPRS_SUCCESS) then compress_loop n sum total a src dest
        else Done (err, a, dest)
      else Done (CPRS_SUCCESS, a, dest)
  end.

Definition CompressBits (dest src : BS) (sum : list Z) (total : Z) (a : AC) : sres (CprsErr * BS) :=
  if total <=? 0 then Done (CPRS_ERR_PAR, dest)
  else
    '(err, a, dest) ← compress_loop (Z.to_nat (blen src - bpos src)) sum total (AC_InitCompress a) src dest;
    if decide (err = CPRS_SUCCESS) then
      dest ← AC_EndCompress a dest; Done (CPRS_SUCCESS, dest)
    else Done (err, dest).

(** ** Decoding *)

(** [code <<= 1] and the next bit of the source, or a zero past its end. *)
Definition next_bit (a : AC) (src : BS) : sres (AC * BS) :=
  let c := wrap 16 (Z.shiftl (acode a) 1) in
  if CanRead src then
    '(b, src) ← GetBit src;
    Done (mkAC (alow a) (ahigh a) (Z.lor c b) (arange a) (underflow_bits a) (added a), src)
  else Done (mkAC (alow a) (ahigh a) c (arange a) (underflow_bits a) (added a + 1), src).

Fixpoint next_bits (n : nat) (a : AC) (src : BS) : sres (AC * BS) :=
  match n with
  | O => Done (a, src)
  | S n' => '(a, src) ← next_bit a src; next_bits n' a src
  end.

Definition AC_InitDecompress (a : AC) (src : BS) : sres (AC * BS) :=
  next_bits 16 (mkAC 0 65535 0 (arange a) (underflow_bits a) 0) src.

Definition AC_GetCount (total : Z) (a : AC) : sres (Z * AC) :=
  let a := set_range a in
  if arange a =? 0 then Bad
  else Done (wrap 16 (wrap 64 (wrap 64 (wrap 64 (acode a - alow a) + 1) * total - 1) / arange a), a).

Fixpoint remove_loop (fuel : nat) (a : AC) (src : BS) : sres (CprsErr * AC * BS) :=
  match fuel with
  | O => Bad
  | S n =>
      if same_top a || straddles a then
        let a := if same_top a then a else unstraddle a (Z.lxor (acode a) 0x4000) (underflow_bits a) in
        '(a, src) ← next_bit (shift_interval a) src;
        if 16 <? added a then Done (CPRS_ERR_BUF, a, src) else remove_loop n a src
      else Done (CPRS_SUCCESS, a, src)
  end.

Definition RemoveSymbol (s_low s_high total : Z) (a : AC) (src : BS) : sres (CprsErr * AC * BS) :=
  if total =? 0 then Bad else remove_loop 17 (narrow_to a s_low s_high total) src.

(** [while(dest->CanWrite())] *)
Fixpoint decompress_loop (fuel : nat) (sum0 sum1 total : Z) (a : AC) (src dest : BS) : sres (CprsErr * BS) :=
  match fuel with
  | O => if CanWrite dest then Bad else Done (CPRS_SUCCESS, dest)
  | S n =>
      if CanWrite dest then
        '(count, a) ← AC_GetCount total a;
        '(dest, (err, a, src)) ←
          (if sum1 <=? count
           then dest ← PutBit1 dest; r ← RemoveSymbol sum1 total total a src; Done (dest, r)
           else dest ← PutBit0 dest; r ← RemoveSymbol sum0 sum1 total a src; Done (dest, r));
        if decide (err = CPRS_SUCCESS) then decompress_loop n sum0 sum1 total a src dest
        else Done (err, dest)
      else Done (CPRS_SUCCESS, dest)
  end.

Definition DecompressBits (dest src : BS) (sum : list Z) (total : Z) (a : AC) : sres (CprsErr * BS) :=
  '(a, src) ← AC_InitDecompress a src;
  decompress_loop (Z.to_nat (blen dest - bpos dest)) sum.[0|0] sum.[0|1] total a src dest.

(** ** The interval in numbers *)

(** An interval of 16-bit numbers. *)
Definition ac_ok (a : AC) : Prop := 0 <= alow a <= ahigh a /\ ahigh a < 2 ^ 16 /\ 0 <= underflow_bits a.

(** What the loops leave: an interval longer than a quarter of the range. *)
Definition ac_normal (a : AC) : Prop :=
  ac_ok a /\ alow a < 2 ^ 15 <= ahigh a /\ (alow a < 2 ^ 14 \/ 2 ^ 15 + 2 ^ 14 <= ahigh a).

Lemma land_bit x k : 0 <= k -> Z.land x (2 ^ k) = if Z.testbit x k then 2 ^ k else 0.
Proof.
  intros Hk. apply Z.bits_inj'. intros i Hi. rewrite Z.land_spec, Z.pow2_bits_eqb by done.
  destruct (Z.eqb_spec k i) as [->|Hne].
  - destruct (Z.testbit x i); [by rewrite Z.pow2_bits_true|by rewrite Z.bits_0].
  - rewrite andb_false_r. destruct (Z.testbit x k); [by rewrite Z.pow2_bits_false|by rewrite Z.bits_0].
Qed.

Lemma testbit_top x k : 0 <= k -> 0 <= x < 2 ^ (k + 1) -> Z.testbit x k = (2 ^ k <=? x).
Proof.
  intros Hk Hx. rewrite Z.testbit_eqb by done. rewrite Z.pow_add_r in Hx by lia.
  pose proof (Z.pow_pos_nonneg 2 k ltac:(lia) Hk) as Hp. destruct (Z.leb_spec (2 ^ k) x).
  - rewrite <- (Z.div_unique x (2 ^ k) 1 (x - 2 ^ k)) by lia. done.
  - rewrite Z.div_small by lia. done.
Qed.

Lemma bit15 x : 0 <= x < 2 ^ 16 -> Z.land x 0x8000 = if 2 ^ 15 <=? x then 2 ^ 15 else 0.
Proof. intros Hx. change 0x8000 with (2 ^ 15). by rewrite land_bit, testbit_top by lia. Qed.

Lemma bit14 x : 0 <= x < 2 ^ 16 -> Z.land x 0x4000 = if 2 ^ 14 <=? x mod 2 ^ 15 then 2 ^ 14 else 0.
Proof.
  intros Hx. change 0x4000 with (2 ^ 14). rewrite land_bit by lia. rewrite <- (Z.mod_pow2_bits_low x 15) by lia.
  pose proof (Z.mod_pos_bound x (2 ^ 15) ltac:(lia)). by rewrite testbit_top by lia.
Qed.

Lemma mod15 x : 0 <= x < 2 ^ 16 -> x mod 2 ^ 15 = if 2 ^ 15 <=? x then x - 2 ^ 15 else x.
Proof.
  intros Hx. destruct (Z.leb_spec (2 ^ 15) x); [|apply Z.mod_small; lia].
  symmetry. apply (Z.mod_unique _ _ 1); lia.
Qed.

Lemma shl1_16 x : 0 <= x < 2 ^ 16 -> wrap 16 (Z.shiftl x 1) = if 2 ^ 15 <=? x then 2 * x - 2 ^ 16 else 2 * x.
Proof.
  intros Hx. rewrite Z.shiftl_mul_pow2 by lia. destruct (Z.leb_spec (2 ^ 15) x).
  - unfold wrap. symmetry. apply (Z.mod_unique _ _ 1); lia.
  - rewrite wrap_id by (unfold is_word; lia). lia.
Qed.

Lemma lor_1 x b : 0 <= b <= 1 -> Z.lor (2 * x) b = 2 * x + b.
Proof. intros Hb. rewrite (Z.mul_comm 2). change 2 with (2 ^ 1). apply lor_mul_pow2; lia. Qed.

Lemma shl1_or x b : 0 <= x < 2 ^ 16 -> 0 <= b <= 1 ->
  Z.lor (wrap 16 (Z.shiftl x 1)) b = (if 2 ^ 15 <=? x then 2 * x - 2 ^ 16 else 2 * x) + b.
Proof.
  intros Hx Hb. rewrite shl1_16 by done. destruct (2 ^ 15 <=? x); [|by apply lor_1].
  replace (2 * x - 2 ^ 16) with (2 * (x - 2 ^ 15)) by lia. by apply lor_1.
Qed.

Lemma land_3fff x : Z.land x 0x3fff = x mod 2 ^ 14.
Proof. change 0x3fff with (Z.ones 14). by rewrite Z.land_ones by lia. Qed.

(** A bit that is clear is set by adding it, one that is set is flipped by subtracting it. *)
Lemma lor_4000 x : Z.testbit x 14 = false -> Z.lor x 0x4000 = x + 2 ^ 14.
Proof.
  intros Hx. change 0x4000 with (2 ^ 14). symmetry. apply Z.add_nocarry_lor. rewrite land_bit by lia. by rewrite Hx.
Qed.

Lemma lxor_4000 x : Z.lxor x 0x4000 = if Z.testbit x 14 then x - 2 ^ 14 else x + 2 ^ 14.
Proof.
  change 0x4000 with (2 ^ 14). pose proof (Z.add_lxor_2land x (2 ^ 14)) as H. rewrite land_bit in H by lia.
  destruct (Z.testbit x 14); lia.
Qed.

(** The tests of the loops. *)
Lemma same_top_spec a : ac_ok a -> same_top a = Bool.eqb (2 ^ 15 <=? ahigh a) (2 ^ 15 <=? alow a).
Proof.
  intros (Hl & Hh & _). unfold same_top. rewrite !bit15 by lia.
  by destruct (2 ^ 15 <=? ahigh a), (2 ^ 15 <=? alow a).
Qed.

Lemma straddles_spec a :
  ac_ok a -> alow a < 2 ^ 15 <= ahigh a -> straddles a = (2 ^ 14 <=? alow a) && (ahigh a <? 2 ^ 15 + 2 ^ 14).
Proof.
  intros (Hl & Hh & _) Hm. unfold straddles. rewrite !bit14, !mod15 by lia.
  destruct (Z.leb_spec (2 ^ 15) (alow a)), (Z.leb_spec (2 ^ 15) (ahigh a)); try lia.
  destruct (Z.leb_spec (2 ^ 14) (alow a)), (Z.leb_spec (2 ^ 14) (ahigh a - 2 ^ 15)), (Z.ltb_spec (ahigh a) (2 ^ 15 + 2 ^ 14));
    (done || lia).
Qed.

Lemma testbit14 x : 0 <= x < 2 ^ 16 -> Z.testbit x 14 = (2 ^ 14 <=? x mod 2 ^ 15).
Proof.
  intros Hx. rewrite <- (Z.mod_pow2_bits_low x 15) by lia.
  pose proof (Z.mod_pos_bound x (2 ^ 15) ltac:(lia)). by rewrite testbit_top by lia.
Qed.

(** One round on equal top bits. *)
Lemma shift_same a :
  ac_ok a -> same_top a = true ->
  exists c : bool, (2 ^ 15 <=? ahigh a) = c /\
    alow (shift_interval a) = 2 * alow a - bit1 c * 2 ^ 16 /\
    ahigh (shift_interval a) = 2 * ahigh a + 1 - bit1 c * 2 ^ 16 /\ 0 <= alow (shift_interval a) <= ahigh (shift_interval a) /\
    ahigh (shift_interval a) < 2 ^ 16.
Proof.
  intros Hok Ht. rewrite same_top_spec in Ht by done. apply Bool.eqb_prop in Ht. destruct Hok as (Hl & Hh & _).
  exists (2 ^ 15 <=? ahigh a). split; [done|]. simpl. rewrite shl1_16, shl1_or by lia. rewrite <- Ht.
  destruct (Z.leb_spec (2 ^ 15) (ahigh a)), (Z.leb_spec (2 ^ 15) (alow a)); try done; unfold bit1; lia.
Qed.

(** One round on an interval around the middle. *)
Lemma shift_straddle a code u :
  ac_ok a -> same_top a = false -> straddles a = true ->
  alow (shift_interval (unstraddle a code u)) = 2 * alow a - 2 ^ 15 /\
  ahigh (shift_interval (unstraddle a code u)) = 2 * ahigh a + 1 - 2 ^ 15 /\
  2 ^ 14 <= alow a < 2 ^ 15 /\ 2 ^ 15 <= ahigh a < 2 ^ 15 + 2 ^ 14.
Proof.
  intros Hok Ht Hs. rewrite same_top_spec in Ht by done. pose proof Hok as (Hl & Hh & _).
  assert (alow a < 2 ^ 15 <= ahigh a) as Hm.
  { destruct (Z.leb_spec (2 ^ 15) (ahigh a)), (Z.leb_spec (2 ^ 15) (alow a)); try done; lia. }
  rewrite straddles_spec in Hs by done. apply andb_true_iff in Hs as [Hs1%Z.leb_le Hs2%Z.ltb_lt].
  unfold unstraddle. simpl. rewrite land_3fff.
  assert (alow a mod 2 ^ 14 = alow a - 2 ^ 14) as -> by (symmetry; apply (Z.mod_unique _ _ 1); lia).
  rewrite lor_4000.
  - rewrite shl1_16, shl1_or by lia.
    destruct (Z.leb_spec (2 ^ 15) (alow a - 2 ^ 14)), (Z.leb_spec (2 ^ 15) (ahigh a + 2 ^ 14)); lia.
  - rewrite testbit14, mod15 by lia. destruct (Z.leb_spec (2 ^ 15) (ahigh a)); [|lia].
    destruct (Z.leb_spec (2 ^ 14) (ahigh a - 2 ^ 15)); [lia|done].
Qed.

Lemma loop_exit a : ac_ok a -> same_top a = false -> straddles a = false -> ac_normal a.
Proof.
  intros Hok Ht Hs. rewrite same_top_spec in Ht by done. pose proof Hok as (Hl & Hh & _).
  assert (alow a < 2 ^ 15 <= ahigh a) as Hm.
  { destruct (Z.leb_spec (2 ^ 15) (ahigh a)), (Z.leb_spec (2 ^ 15) (alow a)); try done; lia. }
  rewrite straddles_spec in Hs by done. split; [done|]. split; [done|].
  destruct (Z.leb_spec (2 ^ 14) (alow a)), (Z.ltb_spec (ahigh a) (2 ^ 15 + 2 ^ 14)); try done; lia.
Qed.

(** ** The bits seen by the decoder *)

(** The final bits and their number; behind them the decoder reads zeros. *)
Record bitstr := mkBits { fbit : Z -> bool; flen : Z }.

(** [n] bits from [q] on, the most significant first. *)
Fixpoint bits_val (F : bitstr) (q : Z) (n : nat) : Z :=
  match n with
  | O => 0
  | S m => 2 * bits_val F q m + bit1 (fbit F (q + Z.of_nat m))
  end.

Lemma bits_val_last F q n : bits_val F q (S n) = 2 * bits_val F q n + bit1 (fbit F (q + Z.of_nat n)).
Proof. done. Qed.

Lemma bits_val_bounds F q n : 0 <= bits_val F q n < 2 ^ Z.of_nat n.
Proof.
  induction n as [|n IH]; [done|]. cbn [bits_val]. pose proof (bit1_bounds (fbit F (q + Z.of_nat n))).
  replace (Z.of_nat (S n)) with (Z.of_nat n + 1) by lia. rewrite Z.pow_add_r by lia. lia.
Qed.

Lemma bits_val_head F q n : bits_val F q (S n) = bit1 (fbit F q) * 2 ^ Z.of_nat n + bits_val F (q + 1) n.
Proof.
  revert q. induction n as [|n IH]; intros q.
  - cbn [bits_val]. change (2 ^ Z.of_nat 0) with 1. rewrite Z.add_0_r. lia.
  - change (bits_val F q (S (S n))) with (2 * bits_val F q (S n) + bit1 (fbit F (q + Z.of_nat (S n)))).
    rewrite IH. cbn [bits_val]. replace (Z.of_nat (S n)) with (Z.of_nat n + 1) by lia. rewrite Z.pow_add_r by lia.
    replace (q + 1 + Z.of_nat n) with (q + (Z.of_nat n + 1)) by lia. lia.
Qed.

(** What the decoder has in [code] when the encoder is at bit [p] with [u] underflow bits: the
    next bit and, behind the bits that complement it, fifteen more. *)
Definition window16 (F : bitstr) (p u : Z) : Z := bit1 (fbit F p) * 2 ^ 15 + bits_val F (p + 1 + u) 15.

Lemma window16_0 F q : window16 F q 0 = 2 * bits_val F q 15 + bit1 (fbit F (q + 15)).
Proof.
  assert (Z.of_nat 15 = 15) as E by reflexivity. unfold window16. rewrite Z.add_0_r.
  pose proof (bits_val_head F q 15) as H. rewrite bits_val_last, E in H. symmetry. exact H.
Qed.

(** The bits continue what the encoder has written so that they stay inside its interval. *)
Definition follows (F : bitstr) (a : AC) (s : BS) : Prop :=
  bpos s + underflow_bits a + 2 <= flen F /\
  (forall i, 0 <= i < bpos s -> fbit F i = bbit (bbuf s) i) /\
  (forall i, 1 <= i <= underflow_bits a -> fbit F (bpos s + i) = negb (fbit F (bpos s))) /\
  alow a <= window16 F (bpos s) (underflow_bits a) <= ahigh a.

(** The source of the decoder. *)
Definition source_ok (F : bitstr) (src : BS) : Prop :=
  readable src /\ blen src = flen F /\ (forall i, 0 <= i < flen F -> bbit (bbuf src) i = fbit F i) /\
  (forall i, flen F <= i -> fbit F i = false).

(** The next bit the decoder reads is number [q]; [added] zeros were read past the end. *)
Definition reads_at (src : BS) (d : AC) (q : Z) : Prop :=
  bpos src + added d = q /\ 0 <= added d /\ (0 < added d -> bpos src = blen src).

(** The decoder at the place of the encoder. *)
Definition dec_at (F : bitstr) (a : AC) (s : BS) (d : AC) (src : BS) : Prop :=
  alow d = alow a /\ ahigh d = ahigh a /\ acode d = window16 F (bpos s) (underflow_bits a) /\
  source_ok F src /\ reads_at src d (bpos s + underflow_bits a + 16).

(** The shift of the decoder reads bit [q]. *)
Lemma next_bit_spec F d src q :
  source_ok F src -> reads_at src d q -> 0 <= acode d < 2 ^ 16 ->
  exists d' src', next_bit d src = Done (d', src') /\ source_ok F src' /\ reads_at src' d' (q + 1) /\
    alow d' = alow d /\ ahigh d' = ahigh d /\ arange d' = arange d /\
    acode d' = (if 2 ^ 15 <=? acode d then 2 * acode d - 2 ^ 16 else 2 * acode d) + bit1 (fbit F q).
Proof.
  intros (Hre & Hlen & Hbits & Hz) (Hq & Ha & Had) Hc. unfold next_bit, CanRead. pose proof (re_pos _ Hre) as Hp.
  destruct (Z.ltb_spec (bpos src) (blen src)) as [Hlt|Hge].
  - destruct (GetBit_spec src Hre) as [[? _]|(_ & src' & -> & Hmv)]; [lia|]. simpl. pose proof Hmv as (E1 & E2 & E3).
    assert (added d = 0) as Ha0 by lia. eexists _, _. split; [done|]. split.
    { split; [by apply (readable_moved src src' 1); [..|lia|lia]|]. rewrite E1, E2. done. }
    split; [unfold reads_at; simpl; lia|]. simpl. split; [done|]. split; [done|]. split; [done|].
    rewrite shl1_or by (try apply bit1_bounds; lia). rewrite Hbits by lia. do 3 f_equal. lia.
  - eexists _, _. split; [done|]. split; [done|]. split; [unfold reads_at; simpl; lia|]. simpl.
    split; [done|]. split; [done|]. split; [done|]. rewrite shl1_16 by done. rewrite Hz by lia. unfold bit1. lia.
Qed.

(** ** Following the loop *)

Lemma put_times_spec n v s :
  ready s -> put_times n v s = Overrun \/
             exists s', put_times n v s = Done s' /\ appended s s' (replicate n (Z.testbit v 0)).
Proof.
  revert s. induction n as [|n IH]; intros s Hr; simpl; [right; exists s; split; [done|by apply appended_nil]|].
  destruct (PutBit_spec s v Hr) as [[_ ->]|(_ & s1 & -> & H1)]; [by left|]. simpl.
  destruct (IH s1 (ap_ready _ _ _ H1)) as [->|(s2 & -> & H2)]; [by left|right]. exists s2. split; [done|].
  apply (appended_app s s1 s2 [_]); [apply Hr|done|done].
Qed.

(** The bits that are equal at both ends are written, with the pending complements behind the first. *)
Lemma follow_same F a s s2 a1 c :
  ac_ok a -> 0 <= bpos s -> (2 ^ 15 <=? ahigh a) = c -> appended s s2 (c :: replicate (Z.to_nat (underflow_bits a)) (negb c)) ->
  underflow_bits a1 = 0 -> alow a1 = 2 * alow a - bit1 c * 2 ^ 16 -> ahigh a1 = 2 * ahigh a + 1 - bit1 c * 2 ^ 16 ->
  follows F a1 s2 ->
  follows F a s /\ window16 F (bpos s2) 0
    = 2 * window16 F (bpos s) (underflow_bits a) - bit1 c * 2 ^ 16 + bit1 (fbit F (bpos s + underflow_bits a + 16)) /\
  bpos s2 = bpos s + underflow_bits a + 1 /\ fbit F (bpos s) = c.
Proof.
  intros (Hl & Hh & Hu) Hp Hc Happ Hu1 Hlo Hhi (Hlen & Hold & _ & Hwin). rewrite Hu1 in *.
  set (u := underflow_bits a) in *. set (p := bpos s) in *.
  assert (zlen (c :: replicate (Z.to_nat u) (negb c)) = u + 1) as Hz.
  { unfold zlen. simpl. rewrite length_replicate. lia. }
  pose proof (ap_pos _ _ _ Happ) as Hp2. rewrite Hz in Hp2. fold p in Hp2.
  assert (forall k, 0 <= k < u + 1 -> fbit F (p + k) = (c :: replicate (Z.to_nat u) (negb c)).[false|k]) as Hnew.
  { intros k Hk. rewrite Hold by lia. apply (ap_new _ _ _ Happ). lia. }
  assert (fbit F p = c) as Hb by (rewrite <- (Z.add_0_r p), Hnew by lia; done).
  assert (forall i, 1 <= i <= u -> fbit F (p + i) = negb c) as Hcomp.
  { intros i Hi. rewrite Hnew by lia. change (c :: replicate (Z.to_nat u) (negb c)) with ([c] ++ replicate (Z.to_nat u) (negb c)).
    rewrite znth_app_r by (unfold zlen; simpl; lia). change (zlen [c]) with 1. apply znth_replicate. lia. }
  set (B := bits_val F (p + 1 + u) 15).
  assert (window16 F (bpos s2) 0 = 2 * B + bit1 (fbit F (p + u + 16))) as HW'.
  { unfold B. rewrite window16_0, Hp2. replace (p + (u + 1)) with (p + 1 + u) by lia.
    replace (p + 1 + u + 15) with (p + u + 16) by lia. done. }
  assert (window16 F p u = bit1 c * 2 ^ 15 + B) as HW by (unfold window16; by rewrite Hb).
  pose proof (bit1_bounds (fbit F (p + u + 16))). rewrite HW' in Hwin.
  split; [|split; [rewrite HW, HW'; lia|split; [lia|done]]].
  split; [fold u p; lia|]. split.
  - intros i Hi. rewrite Hold by (fold p in Hi; lia). by apply (ap_old _ _ _ Happ).
  - split; [intros i Hi; fold p; by rewrite Hb, Hcomp|]. fold p u. rewrite HW. lia.
Qed.

(** Around the middle a bit becomes pending: the complement of the next one. *)
Lemma follow_straddle F a s a1 :
  ac_ok a -> underflow_bits a1 = underflow_bits a + 1 ->
  alow a1 = 2 * alow a - 2 ^ 15 -> ahigh a1 = 2 * ahigh a + 1 - 2 ^ 15 ->
  2 ^ 14 <= alow a < 2 ^ 15 -> 2 ^ 15 <= ahigh a < 2 ^ 15 + 2 ^ 14 ->
  follows F a1 s ->
  let W := window16 F (bpos s) (underflow_bits a) in
  follows F a s /\ 0 <= W < 2 ^ 16 /\
  window16 F (bpos s) (underflow_bits a + 1)
    = (if 2 ^ 15 <=? Z.lxor W 0x4000 then 2 * Z.lxor W 0x4000 - 2 ^ 16 else 2 * Z.lxor W 0x4000)
      + bit1 (fbit F (bpos s + underflow_bits a + 16)) /\ 0 <= Z.lxor W 0x4000 < 2 ^ 16.
Proof.
  intros (Hl & Hh & Hu) Hu1 Hlo Hhi Hla Hha (Hlen & Hold & Hcomp & Hwin) W. rewrite Hu1 in *.
  set (u := underflow_bits a) in *. set (p := bpos s) in *. set (b := fbit F p) in *.
  assert (fbit F (p + 1 + u) = negb b) as Hnb by (rewrite <- (Hcomp (u + 1)) by lia; f_equal; lia).
  set (C := bits_val F (p + 1 + (u + 1)) 14). pose proof (bits_val_bounds F (p + 1 + (u + 1)) 14) as HC. fold C in HC.
  change (2 ^ Z.of_nat 14) with (2 ^ 14) in HC.
  assert (W = bit1 b * 2 ^ 15 + bit1 (negb b) * 2 ^ 14 + C) as HW.
  { unfold W, window16. fold b. rewrite (bits_val_head F (p + 1 + u) 14), Hnb. unfold C.
    replace (p + 1 + u + 1) with (p + 1 + (u + 1)) by lia. change (2 ^ Z.of_nat 14) with (2 ^ 14). lia. }
  assert (window16 F p (u + 1) = bit1 b * 2 ^ 15 + 2 * C + bit1 (fbit F (p + u + 16))) as HW'.
  { unfold window16. fold b. rewrite bits_val_last. fold C.
    replace (p + 1 + (u + 1) + Z.of_nat 14) with (p + u + 16) by lia. lia. }
  pose proof (bit1_bounds (fbit F (p + u + 16))) as Hx. rewrite HW' in Hwin |- *.
  assert (0 <= W < 2 ^ 16) as HWb by (destruct b; unfold bit1 in HW; simpl in HW; lia).
  assert (Z.lxor W 0x4000 = bit1 b * 2 ^ 15 + bit1 b * 2 ^ 14 + C) as Hxor.
  { rewrite lxor_4000, testbit14, mod15 by done.
    destruct b; unfold bit1 in *; simpl in HW; destruct (Z.leb_spec (2 ^ 15) W); try lia;
      [destruct (Z.leb_spec (2 ^ 14) (W - 2 ^ 15))|destruct (Z.leb_spec (2 ^ 14) W)]; lia. }
  split; [|split; [done|]].
  - split; [fold u p; lia|]. split; [done|]. split; [intros i Hi; apply Hcomp; fold u in Hi; lia|].
    fold p u W. destruct b; unfold bit1 in *; simpl in HW; lia.
  - rewrite Hxor. destruct b; unfold bit1; [destruct (Z.leb_spec (2 ^ 15) (1 * 2 ^ 15 + 1 * 2 ^ 14 + C))|
      destruct (Z.leb_spec (2 ^ 15) (0 * 2 ^ 15 + 0 * 2 ^ 14 + C))]; lia.
Qed.

Lemma top_bit_put x : 0 <= x < 2 ^ 16 ->
  Z.testbit (Z.shiftr x 15) 0 = (2 ^ 15 <=? x) /\
  Z.testbit (Z.shiftr (Z.land (Z.lnot x) 0x8000) 15) 0 = negb (2 ^ 15 <=? x).
Proof.
  intros Hx. rewrite !Z.shiftr_spec by lia. rewrite Z.add_0_l, Z.land_spec, Z.lnot_spec, (testbit_top x 15) by lia.
  split; [done|]. change 0x8000 with (2 ^ 15). by rewrite Z.pow2_bits_true, andb_true_r by lia.
Qed.

Lemma tests_only_interval a d : alow d = alow a -> ahigh d = ahigh a ->
  same_top d = same_top a /\ straddles d = straddles a.
Proof. intros E1 E2. unfold same_top, straddles. by rewrite E1, E2. Qed.

(** One round of the decoder. *)
Lemma remove_round n F d src q :
  same_top d || straddles d = true ->
  let d0 := if same_top d then d else unstraddle d (Z.lxor (acode d) 0x4000) (underflow_bits d) in
  source_ok F src -> reads_at src d q -> 0 <= acode d0 < 2 ^ 16 -> q + 1 <= flen F + 16 ->
  exists d' src', remove_loop (S n) d src = remove_loop n d' src' /\ source_ok F src' /\ reads_at src' d' (q + 1) /\
    alow d' = alow (shift_interval d0) /\ ahigh d' = ahigh (shift_interval d0) /\
    acode d' = (if 2 ^ 15 <=? acode d0 then 2 * acode d0 - 2 ^ 16 else 2 * acode d0) + bit1 (fbit F q).
Proof.
  intros Ht d0 Hs Hr Hc Hq. cbn [remove_loop]. rewrite Ht. fold d0.
  assert (reads_at src (shift_interval d0) q) as Hr0 by (unfold d0; by destruct (same_top d)).
  destruct (next_bit_spec F (shift_interval d0) src q Hs Hr0 Hc) as (d' & src' & -> & Hs' & Hr' & E1 & E2 & _ & E3). simpl.
  assert (added d' <= 16) as Ha.
  { destruct Hr' as (Hr1 & Hr2 & Hr3). destruct (Z.eq_dec (added d') 0); [lia|].
    destruct Hs' as (_ & Hlen & _). specialize (Hr3 ltac:(lia)). lia. }
  destruct (Z.ltb_spec 16 (added d')); [lia|]. exists d', src'. done.
Qed.

(** The decoder follows the loop of the encoder. *)
Lemma scale_follow fuel : forall a s a' s',
  ac_ok a -> ready s -> scale_loop fuel a s = Done (a', s') ->
  ac_normal a' /\ (exists vs, appended s s' vs) /\
  forall F, follows F a' s' -> follows F a s /\
    forall d src, dec_at F a s d src ->
      exists d' src', remove_loop fuel d src = Done (CPRS_SUCCESS, d', src') /\ dec_at F a' s' d' src'.
Proof.
  induction fuel as [|n IH]; intros a s a' s' Hok Hr HE; [done|]. cbn [scale_loop] in HE.
  pose proof Hok as (Hl & Hh & Hu). pose proof (rd_pos _ Hr) as Hp.
  destruct (same_top a) eqn:Ht; [|destruct (straddles a) eqn:Hst].
  - destruct (top_bit_put (ahigh a) ltac:(lia)) as [Hb1 Hb2].
    destruct (PutBit_spec s (Z.shiftr (ahigh a) 15) Hr) as [[_ E]|(_ & s1 & E & Ha1)]; rewrite E in HE; [done|]. simpl in HE.
    destruct (put_times_spec (Z.to_nat (underflow_bits a)) (Z.shiftr (Z.land (Z.lnot (ahigh a)) 0x8000) 15) s1
      (ap_ready _ _ _ Ha1)) as [E1|(s2 & E1 & Ha2)]; rewrite E1 in HE; [done|]. simpl in HE.
    rewrite Hb1 in Ha1. rewrite Hb2 in Ha2.
    pose proof (appended_app s s1 s2 _ _ ltac:(lia) Ha1 Ha2) as Happ. cbn [app] in Happ.
    set (a0 := mkAC (alow a) (ahigh a) (acode a) (arange a) (Z.min (underflow_bits a) 0) (added a)) in *.
    assert (underflow_bits (shift_interval a0) = 0) as Hu0 by (simpl; lia).
    destruct (shift_same a0) as (c & Hc & Hlo & Hhi & Hb & Hb'); [split; simpl; lia|done|].
    simpl in Hc. rewrite Hc in Happ.
    assert (ac_ok (shift_interval a0)) as Hok1 by (split; [done|]; split; [done|]; lia).
    destruct (IH _ _ _ _ Hok1 (ap_ready _ _ _ Ha2) HE) as (Hn & (vs & Hvs) & HF).
    split; [done|]. split; [eexists; apply (appended_app s s2); [lia|done|done]|].
    intros F HF'. destruct (HF F HF') as [Hf1 Hdec].
    destruct (follow_same F a s s2 _ c Hok ltac:(lia) Hc Happ Hu0 Hlo Hhi Hf1) as (Hf & HW & Hp2 & _).
    split; [done|]. intros d src (D1 & D2 & D3 & D4 & D5).
    destruct (tests_only_interval a d D1 D2) as [Hst1 Hst2].
    pose proof Hf as (Hlen & _ & _ & Hwin).
    destruct (remove_round n F d src _ ltac:(by rewrite Hst1, Ht) D4 D5) as (d' & src' & -> & G1 & G2 & G3 & G4 & G5).
    { rewrite Hst1, Ht, D3. lia. }
    { lia. }
    rewrite Hst1, Ht in G3, G4, G5. apply Hdec. split; [|split; [|split; [|split; [done|]]]].
    + rewrite G3. simpl. by rewrite D1.
    + rewrite G4. simpl. by rewrite D2.
    + rewrite Hu0, HW, G5, D3. rewrite same_top_spec in Ht by done. apply Bool.eqb_prop in Ht. rewrite Hc in Ht.
      destruct (Z.leb_spec (2 ^ 15) (window16 F (bpos s) (underflow_bits a))), c; unfold bit1 at 2; lia.
    + rewrite Hu0. replace (bpos s2 + 0 + 16) with (bpos s + underflow_bits a + 16 + 1) by lia. done.
  - destruct (shift_straddle a (acode a) (underflow_bits a + 1) Hok Ht Hst) as (Hlo & Hhi & Hla & Hha).
    set (a1 := shift_interval (unstraddle a (acode a) (underflow_bits a + 1))) in *.
    destruct (IH a1 s a' s' ltac:(split; [lia|]; split; [lia|]; simpl; lia) Hr HE) as (Hn & Hvs & HF).
    split; [done|]. split; [done|]. intros F HF'. destruct (HF F HF') as [Hf1 Hdec].
    destruct (follow_straddle F a s a1 Hok eq_refl Hlo Hhi Hla Hha Hf1) as (Hf & HWb & HW & Hxb).
    split; [done|]. intros d src (D1 & D2 & D3 & D4 & D5).
    destruct (tests_only_interval a d D1 D2) as [Hst1 Hst2]. pose proof Hf1 as (Hlen & _).
    destruct (remove_round n F d src _ ltac:(by rewrite Hst1, Hst2, Ht, Hst) D4 D5) as (d' & src' & -> & G1 & G2 & G3 & G4 & G5).
    { rewrite Hst1, Ht. simpl. rewrite D3. done. }
    { simpl in Hlen. lia. }
    rewrite Hst1, Ht in G3, G4, G5. apply Hdec. split; [|split; [|split; [|split; [done|]]]].
    + rewrite G3. simpl. by rewrite D1.
    + rewrite G4. simpl. by rewrite D2.
    + rewrite G5. simpl. rewrite D3. symmetry. exact HW.
    + simpl. replace (bpos s + (underflow_bits a + 1) + 16) with (bpos s + underflow_bits a + 16 + 1) by lia. done.
  - injection HE as <- <-. split; [by apply loop_exit|]. split; [exists []; by apply appended_nil|].
    intros F HF. split; [done|]. intros d src Hd. exists d, src. split; [|done].
    destruct Hd as (D1 & D2 & _). destruct (tests_only_interval a d D1 D2) as [Hst1 Hst2].
    cbn [remove_loop]. by rewrite Hst1, Hst2, Ht, Hst.
Qed.

(** The loop ends: the interval doubles in every round. *)
Lemma scale_loop_ends fuel : forall a s,
  ac_ok a -> ready s -> 2 ^ 16 < (ahigh a - alow a + 1) * 2 ^ Z.of_nat fuel -> scale_loop fuel a s <> Bad.
Proof.
  induction fuel as [|n IH]; intros a s Hok Hr Hf; [destruct Hok as (? & ? & _); simpl in Hf; lia|]. cbn [scale_loop].
  replace (Z.of_nat (S n)) with (1 + Z.of_nat n) in Hf by lia. rewrite Z.pow_add_r in Hf by lia.
  pose proof Hok as (Hl & Hh & Hu). destruct (same_top a) eqn:Ht; [|destruct (straddles a) eqn:Hst; [|done]].
  - destruct (PutBit_spec s (Z.shiftr (ahigh a) 15) Hr) as [[_ ->]|(_ & s1 & -> & Ha1)]; [done|]. simpl.
    destruct (put_times_spec (Z.to_nat (underflow_bits a)) (Z.shiftr (Z.land (Z.lnot (ahigh a)) 0x8000) 15) s1
      (ap_ready _ _ _ Ha1)) as [->|(s2 & -> & Ha2)]; [done|]. simpl.
    set (a0 := mkAC (alow a) (ahigh a) (acode a) (arange a) (Z.min (underflow_bits a) 0) (added a)).
    destruct (shift_same a0) as (c & _ & Hlo & Hhi & Hb & Hb'); [split; simpl; lia|done|]. simpl in Hlo, Hhi.
    apply IH; [split; [done|]; split; [done|]; simpl; lia|apply Ha2|]. simpl. rewrite Hlo, Hhi. lia.
  - destruct (shift_straddle a (acode a) (underflow_bits a + 1) Hok Ht Hst) as (Hlo & Hhi & Hla & Hha).
    apply IH; [split; [lia|]; split; [lia|]; simpl; lia|done|]. rewrite Hlo, Hhi. lia.
Qed.

(** The interval of a symbol, without wrapping. *)
Lemma narrow_spec a s_low s_high total :
  ac_normal a -> 0 <= s_low < s_high -> s_high <= total -> total <= AC_MAX_TOTAL ->
  let r := ahigh a - alow a + 1 in let a1 := narrow_to (set_range a) s_low s_high total in
  arange (set_range a) = r /\ 2 ^ 14 < r <= 2 ^ 16 /\
  alow a1 = alow a + r * s_low / total /\ ahigh a1 = alow a + r * s_high / total - 1 /\ ac_ok a1 /\
  alow a <= alow a1 /\ ahigh a1 <= ahigh a.
Proof.
  intros ((Hl & Hh & Hu) & Hm & Hq) Hs Ht Hmax r a1. change AC_MAX_TOTAL with 16383 in Hmax.
  assert (2 ^ 14 < r <= 2 ^ 16) as Hr by (unfold r; lia).
  assert (wrap 64 (wrap 64 (ahigh a - alow a) + 1) = r) as Hrange.
  { rewrite (wrap_id 64 (ahigh a - alow a)) by (unfold is_word; lia). apply wrap_id. unfold is_word. lia. }
  assert (0 <= r * s_low / total) as Hq0 by (apply Z.div_pos; nia).
  assert (r * s_low / total + 1 <= r * s_high / total) as Hq1.
  { rewrite <- Z.div_add by lia. apply Z.div_le_mono; nia. }
  assert (r * s_high / total <= r) as Hq2 by (apply Z.div_le_upper_bound; nia).
  assert (alow a1 = alow a + r * s_low / total) as E1.
  { unfold a1, narrow_to, set_range. simpl. rewrite Hrange, (wrap_id 64), (wrap_id 16 (_ / _)) by (unfold is_word; nia).
    apply wrap_id. unfold is_word, r in *. lia. }
  assert (ahigh a1 = alow a + r * s_high / total - 1) as E2.
  { unfold a1, narrow_to, set_range. simpl. rewrite Hrange, (wrap_id 64), (wrap_id 16 (_ / _ - 1)) by (unfold is_word; nia).
    rewrite wrap_id; [lia|]. unfold is_word, r in *. lia. }
  split; [done|]. split; [done|]. split; [done|]. split; [done|]. unfold r in *.
  split; [split; [lia|]; split; [lia|exact Hu]|]. lia.
Qed.

(** The count of a code inside the interval of a symbol is the symbol's. *)
Lemma count_of_code r total s_low s_high x :
  0 < r -> 0 < total -> 0 <= s_low -> r * s_low / total <= x <= r * s_high / total - 1 ->
  s_low <= ((x + 1) * total - 1) / r < s_high.
Proof.
  intros Hr Ht Hs Hx.
  pose proof (Z.mul_div_le (r * s_high) total Ht) as H1.
  pose proof (Z.mul_succ_div_gt (r * s_low) total Ht) as H2.
  split; [apply Z.div_le_lower_bound; nia|apply Z.div_lt_upper_bound; nia].
Qed.

(** A symbol is encoded, unless the output is full, and the decoder finds and removes it. *)
Lemma symbol_follow s_low s_high total a s :
  ac_normal a -> ready s -> 0 <= s_low < s_high -> s_high <= total -> total <= AC_MAX_TOTAL ->
  ScaleRange s_low s_high total a s = Overrun \/
  exists a' s', ScaleRange s_low s_high total a s = Done (CPRS_SUCCESS, a', s') /\
    ac_normal a' /\ (exists vs, appended s s' vs) /\
    forall F, follows F a' s' -> follows F a s /\
      forall d src, dec_at F a s d src ->
        exists c d1 d' src', AC_GetCount total d = Done (c, d1) /\ s_low <= c < s_high /\
          RemoveSymbol s_low s_high total d1 src = Done (CPRS_SUCCESS, d', src') /\ dec_at F a' s' d' src'.
Proof.
  intros Hn Hr Hs Ht Hmax. destruct (narrow_spec a s_low s_high total Hn Hs Ht Hmax) as (Hrg & Hrb & E1 & E2 & Hok1 & Hlo & Hhi).
  unfold ScaleRange. destruct (Z.eqb_spec total 0); [lia|]. set (a1 := narrow_to (set_range a) s_low s_high total) in *.
  destruct (Z.ltb_spec (ahigh a1) (alow a1)); [destruct Hok1; lia|].
  pose proof (scale_loop_ends 17 a1 s Hok1 Hr) as Hend.
  destruct (scale_loop 17 a1 s) as [[a' s']| |] eqn:HE; simpl; [right|by left|].
  2:{ exfalso. apply Hend; [|done]. destruct Hok1. change (2 ^ Z.of_nat 17) with 131072. lia. }
  exists a', s'. split; [done|]. destruct (scale_follow 17 a1 s a' s' Hok1 Hr HE) as (Hn' & Hvs & HF).
  split; [done|]. split; [done|]. intros F HF'. destruct (HF F HF') as [(Hlen & Hold & Hcomp & Hwin) Hdec].
  change (underflow_bits a1) with (underflow_bits a) in *.
  split; [split; [done|]; split; [done|]; split; [done|]; lia|].
  intros d src (D1 & D2 & D3 & D4 & D5). unfold AC_GetCount.
  assert (arange (set_range d) = ahigh a - alow a + 1) as Hrd.
  { rewrite <- Hrg. unfold set_range. simpl. by rewrite D1, D2. }
  rewrite Hrd. destruct (Z.eqb_spec (ahigh a - alow a + 1) 0); [lia|].
  set (W := window16 F (bpos s) (underflow_bits a)) in *. set (r := ahigh a - alow a + 1) in *.
  pose proof Hn as ((Hl & Hh & _) & _). change AC_MAX_TOTAL with 16383 in Hmax.
  destruct (count_of_code r total s_low s_high (W - alow a)) as [Hc1 Hc2]; try lia.
  assert (wrap 64 (wrap 64 (wrap 64 (acode d - alow d) + 1) * total - 1) = (W - alow a + 1) * total - 1) as Hv.
  { rewrite D3, D1. rewrite (wrap_id 64 (W - alow a)) by (unfold is_word; lia).
    rewrite (wrap_id 64 (W - alow a + 1)) by (unfold is_word; lia). apply wrap_id. unfold is_word, r in *. nia. }
  simpl. rewrite Hv. rewrite (wrap_id 16) by (unfold is_word; lia).
  eexists _, _. unfold RemoveSymbol. destruct (Z.eqb_spec total 0); [lia|].
  destruct (Hdec (narrow_to (set_range d) s_low s_high total) src) as (d' & src' & Hrem & Hat).
  { assert (alow (narrow_to (set_range d) s_low s_high total) = alow a1 /\
            ahigh (narrow_to (set_range d) s_low s_high total) = ahigh a1) as [G1 G2].
    { unfold a1, narrow_to. rewrite Hrd, Hrg. simpl. by rewrite D1. }
    split; [exact G1|]. split; [exact G2|]. split; [exact D3|]. split; [exact D4|exact D5]. }
  exists d', src'. split; [done|]. split; [done|]. split; done.
Qed.

(** ** Sequences of symbols *)

(** A symbol is its interval of counts and their total. *)
Definition symbol : Type := Z * Z * Z.

Definition symbol_ok (x : symbol) : Prop :=
  let '(s_low, s_high, total) := x in 0 <= s_low < s_high /\ s_high <= total /\ total <= AC_MAX_TOTAL.

Fixpoint encode_all (l : list symbol) (a : AC) (s : BS) : sres (CprsErr * AC * BS) :=
  match l with
  | [] => Done (CPRS_SUCCESS, a, s)
  | (s_low, s_high, total) :: r =>
      '(err, a, s) ← ScaleRange s_low s_high total a s;
      if decide (err = CPRS_SUCCESS) then encode_all r a s else Done (err, a, s)
  end.

(** The decoder finds a count of each symbol in turn. *)
Inductive decodes : list symbol -> AC -> BS -> AC -> BS -> Prop :=
| decodes_nil d src : decodes [] d src d src
| decodes_cons s_low s_high total r d src c d1 d2 src2 d3 src3 :
    AC_GetCount total d = Done (c, d1) -> s_low <= c < s_high ->
    RemoveSymbol s_low s_high total d1 src = Done (CPRS_SUCCESS, d2, src2) ->
    decodes r d2 src2 d3 src3 ->
    decodes ((s_low, s_high, total) :: r) d src d3 src3.

Lemma encode_all_follow l : forall a s,
  Forall symbol_ok l -> ac_normal a -> ready s ->
  encode_all l a s = Overrun \/
  exists a' s', encode_all l a s = Done (CPRS_SUCCESS, a', s') /\ ac_normal a' /\ (exists vs, appended s s' vs) /\
    forall F, follows F a' s' -> follows F a s /\
      forall d src, dec_at F a s d src -> exists d' src', decodes l d src d' src' /\ dec_at F a' s' d' src'.
Proof.
  induction l as [|[[lo hi] total] l IH]; intros a s Hl Hn Hr; cbn [encode_all].
  - right. exists a, s. split; [done|]. split; [done|]. split; [exists []; by apply appended_nil|].
    intros F HF. split; [done|]. intros d src Hd. exists d, src. split; [constructor|done].
  - apply Forall_cons in Hl as [(H1 & H2 & H3) Hl'].
    destruct (symbol_follow lo hi total a s Hn Hr H1 H2 H3) as [->|(a1 & s1 & -> & Hn1 & (vs & Hv) & HF1)]; [by left|].
    simpl. destruct (IH a1 s1 Hl' Hn1 (ap_ready _ _ _ Hv)) as [->|(a' & s' & -> & Hn' & (ws & Hw) & HF')]; [by left|right].
    exists a', s'. split; [done|]. split; [done|]. split.
    { exists (vs ++ ws). apply (appended_app s s1); [apply Hr|done|done]. }
    intros F HF. destruct (HF' F HF) as [Hf1 Hdec']. destruct (HF1 F Hf1) as [Hf Hdec].
    split; [done|]. intros d src Hd.
    destruct (Hdec d src Hd) as (c & d1 & d2 & src2 & E1 & Hc & E2 & Hd2).
    destruct (Hdec' d2 src2 Hd2) as (d' & src' & Hds & Hd'). exists d', src'. split; [by econstructor|done].
Qed.

(** The final bits put the code in the middle of the interval, whatever comes behind them. *)
Lemma EndCompress_follow a s :
  ac_normal a -> ready s ->
  AC_EndCompress a s = Overrun \/
  exists s', AC_EndCompress a s = Done s' /\ (exists vs, appended s s' vs) /\
    forall F, bpos s' <= flen F -> (forall i, 0 <= i < bpos s' -> fbit F i = bbit (bbuf s') i) -> follows F a s.
Proof.
  intros ((Hl & Hh & Hu) & Hm & Hq) Hr. unfold AC_EndCompress.
  set (c := 2 ^ 14 <=? alow a).
  assert (Z.testbit (alow a) 14 = c) as Htb by (unfold c; apply testbit_top; lia).
  assert (bit1 (0 <? Z.land (alow a) 0x4000) = bit1 c) as ->.
  { change 0x4000 with (2 ^ 14). rewrite land_bit by lia. rewrite Htb. by destruct c. }
  assert (bit1 (0 <? Z.land (Z.lnot (alow a)) 0x4000) = bit1 (negb c)) as ->.
  { change 0x4000 with (2 ^ 14). rewrite land_bit by lia. rewrite Z.lnot_spec, Htb by lia. by destruct c. }
  destruct (PutBit_spec s (bit1 c) Hr) as [[_ ->]|(_ & s1 & -> & H1)]; [by left|]. simpl.
  destruct (put_times_spec (Z.to_nat (underflow_bits a + 1)) (bit1 (negb c)) s1 (ap_ready _ _ _ H1))
    as [->|(s' & -> & H2)]; [by left|right]. exists s'. split; [done|].
  assert (forall b, Z.testbit (bit1 b) 0 = b) as Hbit by (by intros []). rewrite Hbit in H1, H2.
  pose proof (rd_pos _ Hr) as Hp. pose proof (appended_app s s1 s' _ _ ltac:(lia) H1 H2) as H. split; [by eexists|].
  intros F HF1 HF2. pose proof (ap_pos _ _ _ H) as Hpos. rewrite zlen_app in Hpos.
  assert (zlen (replicate (Z.to_nat (underflow_bits a + 1)) (negb c)) = underflow_bits a + 1) as Hz.
  { unfold zlen. rewrite length_replicate. lia. }
  rewrite Hz in Hpos. change (zlen [c]) with 1 in Hpos. set (u := underflow_bits a) in *.
  set (p := bpos s) in Hpos, Hp |- *.
  assert (fbit F p = c) as Hb0.
  { rewrite HF2 by lia. pose proof (ap_new _ _ _ H 0) as Hn. rewrite Z.add_0_r in Hn. apply Hn.
    rewrite zlen_app. change (zlen [c]) with 1. lia. }
  assert (forall i, 1 <= i <= u + 1 -> fbit F (p + i) = negb c) as Hb1.
  { intros i Hi. rewrite HF2 by lia. rewrite (ap_new _ _ _ H) by (rewrite zlen_app; change (zlen [c]) with 1; lia).
    rewrite znth_app_r by (change (zlen [c]) with 1; lia). change (zlen [c]) with 1. apply znth_replicate. lia. }
  split; [fold u p; lia|]. split.
  { intros i Hi. rewrite HF2 by (fold p in Hi; lia). by apply (ap_old _ _ _ H). }
  split; [intros i Hi; fold u in Hi; fold p; rewrite Hb0, Hb1 by lia; done|]. fold p u. unfold window16.
  rewrite Hb0, (bits_val_head F (p + 1 + u) 14). replace (p + 1 + u) with (p + (u + 1)) by lia. rewrite Hb1 by lia.
  pose proof (bits_val_bounds F (p + (u + 1) + 1) 14) as HB. change (2 ^ Z.of_nat 14) with (2 ^ 14) in *.
  unfold c in *. destruct (Z.leb_spec (2 ^ 14) (alow a)); unfold bit1; simpl negb; lia.
Qed.

(** The decoder starts with the first sixteen bits. *)
Lemma next_bits_spec F p n : forall (k : nat) d src,
  (k + n <= 16)%nat -> source_ok F src -> reads_at src d (p + Z.of_nat k) -> acode d = bits_val F p k ->
  exists d' src', next_bits n d src = Done (d', src') /\ source_ok F src' /\ reads_at src' d' (p + Z.of_nat (k + n)) /\
    alow d' = alow d /\ ahigh d' = ahigh d /\ acode d' = bits_val F p (k + n).
Proof.
  induction n as [|n IH]; intros k d src Hk Hs Hq Hc; cbn [next_bits].
  - exists d, src. rewrite Nat.add_0_r. done.
  - pose proof (bits_val_bounds F p k) as Hb.
    assert (2 ^ Z.of_nat k <= 2 ^ 15) as Hk15 by (apply Z.pow_le_mono_r; lia).
    destruct (next_bit_spec F d src _ Hs Hq) as (d1 & src1 & -> & Hs1 & Hq1 & E1 & E2 & _ & E3); [lia|]. simpl.
    destruct (IH (S k) d1 src1) as (d' & src' & -> & Hs' & Hq' & G1 & G2 & G3); [lia|done| | |].
    + by replace (p + Z.of_nat (S k)) with (p + Z.of_nat k + 1) by lia.
    + rewrite E3, Hc, bits_val_last. destruct (Z.leb_spec (2 ^ 15) (bits_val F p k)); lia.
    + exists d', src'. replace (k + S n)%nat with (S k + n)%nat by lia. split; [done|]. split; [done|]. split; [done|].
      split; [congruence|]. split; [congruence|done].
Qed.

Lemma InitDecompress_follow F a d s src :
  source_ok F src -> bpos src = bpos s -> 
  exists d' src', AC_InitDecompress d src = Done (d', src') /\ dec_at F (AC_InitCompress a) s d' src'.
Proof.
  intros Hs Hp. unfold AC_InitDecompress.
  destruct (next_bits_spec F (bpos s) 16 0 (mkAC 0 65535 0 (arange d) (underflow_bits d) 0) src)
    as (d' & src' & -> & Hs' & Hq & E1 & E2 & E3).
  - lia.
  - done.
  - unfold reads_at. simpl. lia.
  - reflexivity.
  - exists d', src'. split; [done|]. split; [done|]. split; [done|]. split.
    + rewrite E3. change (0 + 16)%nat with (S 15). rewrite bits_val_last. simpl underflow_bits. rewrite window16_0. reflexivity.
    + split; [done|]. simpl underflow_bits. rewrite Z.add_0_r. exact Hq.
Qed.

(** ** Room for the output *)

(** A round writes a bit or makes one pending. *)
Lemma put_times_room n v s :
  ready s -> bpos s + Z.of_nat n <= blen s -> put_times n v s <> Overrun.
Proof.
  revert s. induction n as [|n IH]; intros s Hr Hroom; [done|]. cbn [put_times].
  destruct (PutBit_spec s v Hr) as [[? _]|(_ & s1 & -> & H1)]; [lia|]. simpl.
  apply IH; [apply H1|]. rewrite (ap_pos _ _ _ H1), (ap_len _ _ _ H1). change (zlen [Z.testbit v 0]) with 1. lia.
Qed.

Definition taken (a : AC) (s : BS) : Z := bpos s + underflow_bits a.

Lemma scale_loop_room fuel : forall a s,
  ac_ok a -> ready s -> taken a s + Z.of_nat fuel <= blen s ->
  scale_loop fuel a s <> Overrun /\
  forall a' s', scale_loop fuel a s = Done (a', s') -> taken a' s' <= taken a s + Z.of_nat fuel /\ blen s' = blen s.
Proof.
  unfold taken. induction fuel as [|n IH]; intros a s Hok Hr Hroom; [done|]. cbn [scale_loop].
  pose proof Hok as (Hl & Hh & Hu). destruct (same_top a) eqn:Ht; [|destruct (straddles a) eqn:Hst].
  - destruct (PutBit_spec s (Z.shiftr (ahigh a) 15) Hr) as [[? _]|(_ & s1 & -> & H1)]; [lia|]. simpl.
    pose proof (ap_pos _ _ _ H1) as Hp1. pose proof (ap_len _ _ _ H1) as Hl1. change (zlen [_]) with 1 in Hp1.
    set (v := Z.shiftr (Z.land _ _) 15).
    destruct (put_times_spec (Z.to_nat (underflow_bits a)) v s1 (ap_ready _ _ _ H1)) as [E|(s2 & E & H2)].
    { exfalso. revert E. apply put_times_room; [apply H1|lia]. }
    rewrite E. simpl. pose proof (ap_pos _ _ _ H2) as Hp2. rewrite zlen_replicate in Hp2 by done.
    pose proof (ap_len _ _ _ H2) as Hl2.
    set (a0 := mkAC (alow a) (ahigh a) (acode a) (arange a) (Z.min (underflow_bits a) 0) (added a)).
    destruct (shift_same a0) as (c & _ & _ & _ & Hb & Hb'); [split; simpl; lia|done|].
    assert (underflow_bits (shift_interval a0) = 0) as Hu0 by (simpl; lia).
    destruct (IH (shift_interval a0) s2) as [G1 G2]; [split; [done|]; split; [done|lia]|apply H2|lia|].
    split; [done|]. intros a' s' HE. destruct (G2 _ _ HE). lia.
  - destruct (shift_straddle a (acode a) (underflow_bits a + 1) Hok Ht Hst) as (Hlo & Hhi & Hla & Hha).
    destruct (IH (shift_interval (unstraddle a (acode a) (underflow_bits a + 1))) s) as [G1 G2];
      [split; [lia|]; split; [lia|simpl; lia]|done|simpl; lia|].
    split; [done|]. intros a' s' HE. destruct (G2 _ _ HE). simpl in *. lia.
  - split; [done|]. intros a' s' [= <- <-]. lia.
Qed.

Lemma encode_all_room l : forall a s,
  Forall symbol_ok l -> ac_normal a -> ready s -> taken a s + 17 * zlen l <= blen s ->
  encode_all l a s <> Overrun /\
  forall a' s', encode_all l a s = Done (CPRS_SUCCESS, a', s') -> taken a' s' <= taken a s + 17 * zlen l /\ blen s' = blen s.
Proof.
  induction l as [|[[lo hi] total] l IH]; intros a s Hl Hn Hr Hroom; cbn [encode_all].
  - split; [done|]. intros a' s' [= <- <-]. change (zlen []) with 0. lia.
  - apply Forall_cons in Hl as [(H1 & H2 & H3) Hl'].
    change (zlen ((lo, hi, total) :: l)) with (Z.of_nat (S (length l))) in *. fold (zlen l) in *.
    destruct (narrow_spec a lo hi total Hn H1 H2 H3) as (_ & _ & _ & _ & Hok1 & _ & _).
    destruct (scale_loop_room 17 (narrow_to (set_range a) lo hi total) s Hok1 Hr) as [G1 G2].
    { change (taken (narrow_to (set_range a) lo hi total) s) with (taken a s). lia. }
    change (taken (narrow_to (set_range a) lo hi total) s) with (taken a s) in G2.
    destruct (symbol_follow lo hi total a s Hn Hr H1 H2 H3) as [E|(a1 & s1 & E & Hn1 & (vs & Hv) & _)];
      rewrite E; unfold ScaleRange in E; destruct (Z.eqb_spec total 0); try lia;
      (destruct (Z.ltb_spec (ahigh (narrow_to (set_range a) lo hi total)) (alow (narrow_to (set_range a) lo hi total)));
       [destruct Hok1; lia|]); destruct (scale_loop 17 _ s) as [[a2 s2]| |]; try done.
    simpl in E. injection E as -> ->. destruct (G2 _ _ eq_refl) as [G3 G4]. simpl.
    destruct (IH a1 s1 Hl' Hn1 (ap_ready _ _ _ Hv)) as [F1 F2]; [unfold zlen; lia|].
    split; [done|]. intros a' s' HE. destruct (F2 _ _ HE). unfold zlen in *. lia.
Qed.

(** A whole run of the coder. *)
Definition run_coder (l : list symbol) (a : AC) (s : BS) : sres (CprsErr * BS) :=
  '(err, a, s) ← encode_all l (AC_InitCompress a) s;
  if decide (err = CPRS_SUCCESS) then s ← AC_EndCompress a s; Done (CPRS_SUCCESS, s) else Done (err, s).

(** Seventeen bits for each symbol and two at the end are enough. *)
Lemma run_coder_room l a s :
  Forall symbol_ok l -> ready s -> bpos s + 17 * zlen l + 2 <= blen s -> run_coder l a s <> Overrun.
Proof.
  intros Hl Hr Hroom. unfold run_coder.
  assert (ac_normal (AC_InitCompress a)) as Hn by (split; [split; simpl; lia|simpl; lia]).
  destruct (encode_all_room l _ s Hl Hn Hr) as [G1 G2]; [unfold taken; simpl; lia|].
  destruct (encode_all_follow l _ s Hl Hn Hr) as [E|(a1 & s1 & E & ((_ & _ & Hu) & _) & (vs & Hv) & _)]; [done|].
  rewrite E. simpl. destruct (G2 _ _ E) as [G3 G4]. unfold taken in G3. simpl in G3. unfold AC_EndCompress.
  destruct (PutBit_spec s1 (bit1 (0 <? Z.land (alow a1) 0x4000)) (ap_ready _ _ _ Hv)) as [[? _]|(_ & s2 & -> & H2)]; [lia|].
  simpl. pose proof (put_times_room (Z.to_nat (underflow_bits a1 + 1)) (bit1 (0 <? Z.land (Z.lnot (alow a1)) 0x4000)) s2) as Hput.
  pose proof (ap_pos _ _ _ H2) as Hp2. change (zlen [_]) with 1 in Hp2. rewrite (ap_len _ _ _ H2) in Hput.
  specialize (Hput (ap_ready _ _ _ H2) ltac:(lia)). by destruct (put_times _ _ _).
Qed.

(** ** A full output *)

(** Behind the end nothing is written, and the final bits throw. *)
Lemma scale_loop_past fuel : forall a s,
  ac_ok a -> past s -> 2 ^ 16 < (ahigh a - alow a + 1) * 2 ^ Z.of_nat fuel ->
  scale_loop fuel a s = Overrun \/ exists a', scale_loop fuel a s = Done (a', s) /\ ac_normal a'.
Proof.
  induction fuel as [|n IH]; intros a s Hok Hp Hf; [destruct Hok as (? & ? & _); simpl in Hf; lia|]. cbn [scale_loop].
  replace (Z.of_nat (S n)) with (1 + Z.of_nat n) in Hf by lia. rewrite Z.pow_add_r in Hf by lia.
  destruct (same_top a) eqn:Ht; [left; by rewrite PutBit_past|].
  pose proof Hok as (Hl & Hh & Hu). destruct (straddles a) eqn:Hst; [|right; exists a; split; [done|by apply loop_exit]].
  destruct (shift_straddle a (acode a) (underflow_bits a + 1) Hok Ht Hst) as (Hlo & Hhi & Hla & Hha).
  apply IH; [split; [lia|]; split; [lia|]; simpl; lia|done|]. rewrite Hlo, Hhi. lia.
Qed.

Lemma encode_all_past l : forall a s,
  Forall symbol_ok l -> ac_normal a -> past s ->
  encode_all l a s = Overrun \/ exists a', encode_all l a s = Done (CPRS_SUCCESS, a', s).
Proof.
  induction l as [|[[lo hi] total] l IH]; intros a s Hl Hn Hp; cbn [encode_all]; [right; by exists a|].
  apply Forall_cons in Hl as [(H1 & H2 & H3) Hl'].
  destruct (narrow_spec a lo hi total Hn H1 H2 H3) as (_ & _ & _ & _ & Hok1 & _ & _).
  unfold ScaleRange. destruct (Z.eqb_spec total 0); [lia|]. set (a1 := narrow_to (set_range a) lo hi total) in *.
  destruct (Z.ltb_spec (ahigh a1) (alow a1)); [destruct Hok1; lia|].
  destruct (scale_loop_past 17 a1 s Hok1 Hp) as [->|(a' & -> & Hn')].
  - change (2 ^ Z.of_nat 17) with 131072. destruct Hok1. lia.
  - by left.
  - simpl. by apply IH.
Qed.

Lemma run_coder_past l a s : Forall symbol_ok l -> past s -> run_coder l a s = Overrun.
Proof.
  intros Hl Hp. unfold run_coder.
  assert (ac_normal (AC_InitCompress a)) as Hn by (split; [split; simpl; lia|simpl; lia]).
  destruct (encode_all_past l _ s Hl Hn Hp) as [->|(a' & ->)]; [done|]. simpl. unfold AC_EndCompress. by rewrite PutBit_past.
Qed.

(** The stream [src] holds what was written to [s'], whatever is behind it. *)
Definition holds_output (s s' src : BS) : Prop :=
  readable src /\ bpos src = bpos s /\ bpos s' <= blen src /\
  forall i, 0 <= i < bpos s' -> bbit (bbuf src) i = bbit (bbuf s') i.

(** The symbols are written, unless there is no room, and found again. *)
Lemma run_coder_spec l a s :
  Forall symbol_ok l -> ready s ->
  (run_coder l a s = Overrun /\ blen s < bpos s + 17 * zlen l + 2) \/
  exists s' vs, run_coder l a s = Done (CPRS_SUCCESS, s') /\ appended s s' vs /\
    forall src d, holds_output s s' src ->
      exists d1 src1 d2 src2, AC_InitDecompress d src = Done (d1, src1) /\ decodes l d1 src1 d2 src2.
Proof.
  intros Hl Hr. pose proof (run_coder_room l a s Hl Hr) as Hroom. revert Hroom. unfold run_coder.
  assert (ac_normal (AC_InitCompress a)) as Hn by (split; [split; simpl; lia|simpl; lia]).
  destruct (encode_all_follow l _ s Hl Hn Hr) as [->|(a' & s1 & -> & Hn' & (vs & Hv) & HF)]; simpl; intros Hroom.
  { left. split; [done|]. apply Z.nle_gt. by intros ?%Hroom. }
  destruct (EndCompress_follow a' s1 Hn' (ap_ready _ _ _ Hv)) as [E|(s' & -> & (ws & Hw) & HE)].
  { rewrite E in *. left. split; [done|]. apply Z.nle_gt. by intros ?%Hroom. }
  right. exists s', (vs ++ ws). split; [done|]. split; [apply (appended_app s s1); [apply Hr|done|done]|].
  intros src d (Hre & Hp & Hlen & Hbits).
  set (F := mkBits (fun i => (i <? blen src) && bbit (bbuf src) i) (blen src)).
  assert (follows F a' s1) as Hf.
  { apply HE; [done|]. intros i Hi. simpl. rewrite <- Hbits by done. by destruct (Z.ltb_spec i (blen src)); [|lia]. }
  destruct (HF F Hf) as [_ Hdec].
  destruct (InitDecompress_follow F a d s src) as (d1 & src1 & E & Hat); [|done|].
  { split; [done|]. split; [done|]. split; intros i Hi; simpl in *; by destruct (Z.ltb_spec i (blen src)); try lia. }
  destruct (Hdec d1 src1 Hat) as (d2 & src2 & Hds & _). by exists d1, src1, d2, src2.
Qed.

Lemma output_extended s s' s2 vs ws :
  0 <= bpos s -> appended s s' vs -> appended s' s2 ws -> holds_output s s' (BS_Reset (bbuf s2) (bpos s2) (bpos s)).
Proof.
  intros H0 Hv Hw. pose proof (ap_pos _ _ _ Hv). pose proof (ap_pos _ _ _ Hw). pose proof (zlen_nonneg vs). pose proof (zlen_nonneg ws).
  pose proof (ap_ready _ _ _ Hw) as [? [? ?] ? _ _].
  split; [split; simpl; [lia|lia|done]|]. split; [done|]. split; [simpl; lia|]. intros i Hi. by apply (ap_old _ _ _ Hw).
Qed.

(** ** Strings of bits *)

(** The bits not yet read. *)
Definition rest (s : BS) : list bool := map (bbit (bbuf s)) (range (bpos s) (blen s - 1)).

Lemma rest_cons s : bpos s < blen s -> rest s = bbit (bbuf s) (bpos s) :: rest (SetPos s (bpos s + 1)).
Proof. intros. unfold rest. simpl. by rewrite range_cons by lia. Qed.

Lemma rest_moved s s' : moved s s' 1 -> rest s' = rest (SetPos s (bpos s + 1)).
Proof. intros (E1 & E2 & E3). unfold rest. simpl. by rewrite E1, E2, E3. Qed.

Lemma rest_nil s : blen s <= bpos s -> rest s = [].
Proof. intros. unfold rest. by rewrite range_nil by lia. Qed.

Lemma zlen_rest s : bpos s <= blen s -> zlen (rest s) = blen s - bpos s.
Proof. intros. unfold rest, zlen. rewrite length_map. unfold range. rewrite length_seqZ. lia. Qed.

Definition bit_symbol (sum : list Z) (total : Z) (b : bool) : symbol :=
  (sum.[0|bit1 b], sum.[0|bit1 b + 1], total).

Lemma compress_loop_symbols sum total fuel : forall a src dest,
  readable src -> blen src - bpos src <= Z.of_nat fuel ->
  compress_loop fuel sum total a src dest = encode_all (map (bit_symbol sum total) (rest src)) a dest.
Proof.
  induction fuel as [|n IH]; intros a src dest Hre Hf; cbn [compress_loop]; unfold CanRead.
  - rewrite rest_nil by lia. by destruct (Z.ltb_spec (bpos src) (blen src)); [lia|].
  - destruct (Z.ltb_spec (bpos src) (blen src)) as [Hlt|Hge]; [|by rewrite rest_nil by lia].
    destruct (GetBit_spec src Hre) as [[? _]|(_ & src' & -> & Hmv)]; [lia|].
    rewrite rest_cons by done. rewrite <- (rest_moved _ _ Hmv). cbn [map encode_all bit_symbol].
    cbn [mbind sres_bind]. destruct (ScaleRange _ _ _ _ _) as [[[err a'] dest']| |]; try done. cbn [mbind sres_bind].
    destruct (decide (err = CPRS_SUCCESS)); [|done]. pose proof (re_pos _ Hre). pose proof Hmv as (_ & E2 & E3).
    apply IH; [apply (readable_moved src src' 1); (done || lia)|lia].
Qed.

(** The decoder writes a bit for each symbol. *)
Lemma decompress_loop_bits sum total bits : forall fuel d src d' src' dest,
  decodes (map (bit_symbol sum total) bits) d src d' src' -> sum.[0|2] = total ->
  ready dest -> bpos dest + zlen bits = blen dest -> zlen bits <= Z.of_nat fuel ->
  exists dest', decompress_loop fuel sum.[0|0] sum.[0|1] total d src dest = Done (CPRS_SUCCESS, dest') /\
    appended dest dest' bits.
Proof.
  induction bits as [|b bits IH]; intros fuel d src d' src' dest Hd Htot Hr Hroom Hf.
  - change (zlen []) with 0 in Hroom. exists dest. split; [|by apply appended_nil].
    destruct fuel; cbn [decompress_loop]; unfold CanWrite; by destruct (Z.ltb_spec (bpos dest) (blen dest)); [lia|].
  - change (zlen (b :: bits)) with (Z.of_nat (S (length bits))) in *. pose proof (zlen_nonneg bits) as Hnn. unfold zlen in Hnn.
    destruct fuel as [|n]; [lia|]. cbn [decompress_loop]. unfold CanWrite.
    destruct (Z.ltb_spec (bpos dest) (blen dest)); [|lia].
    inversion Hd as [|lo hi tot r ? ? c d1 d2 src2 ? ? E1 Hc E2 Hds]; subst. rewrite E1. cbn [mbind sres_bind].
    assert (exists dest1, (if sum.[0|1] <=? c
              then dest ← PutBit1 dest; r ← RemoveSymbol sum.[0|1] sum.[0|2] sum.[0|2] d1 src; Done (dest, r)
              else dest ← PutBit0 dest; r ← RemoveSymbol sum.[0|0] sum.[0|1] sum.[0|2] d1 src; Done (dest, r))
              = Done (dest1, (CPRS_SUCCESS, d2, src2)) /\ appended dest dest1 [b]) as (dest1 & E3 & Ha).
    { destruct b; simpl in Hc, E2; [change (1 + 1) with 2 in Hc, E2|change (0 + 1) with 1 in Hc, E2].
      - destruct (Z.leb_spec (sum.[0|1]) c); [|lia].
        destruct (PutBit1_spec dest Hr) as [[? _]|(_ & dest1 & -> & Ha)]; [lia|].
        exists dest1. simpl. by rewrite E2.
      - destruct (Z.leb_spec (sum.[0|1]) c); [lia|].
        destruct (PutBit0_spec dest Hr) as [[? _]|(_ & dest1 & -> & Ha)]; [lia|].
        exists dest1. simpl. by rewrite E2. }
    rewrite E3. cbn [mbind sres_bind]. rewrite decide_True by done.
    pose proof (ap_pos _ _ _ Ha) as Hp. change (zlen [b]) with 1 in Hp.
    destruct (IH n d2 src2 d' src' dest1 Hds) as (dest' & E4 & Ha'); [done|apply Ha| |unfold zlen; lia|].
    + rewrite (ap_len _ _ _ Ha). unfold zlen. lia.
    + exists dest'. split; [done|]. apply (appended_app dest dest1 dest' [b]); [apply Hr|done|done].
Qed.

(** The table of counts gives every bit of the string an interval. *)
Definition counts_for (sum : list Z) (bits : list bool) : Prop :=
  sum.[0|0] = 0 /\ 0 <= sum.[0|1] <= sum.[0|2] /\ 0 < sum.[0|2] <= AC_MAX_TOTAL /\
  (In false bits -> 0 < sum.[0|1]) /\ (In true bits -> sum.[0|1] < sum.[0|2]).

Lemma bit_symbols_ok sum bits : counts_for sum bits -> Forall symbol_ok (map (bit_symbol sum sum.[0|2]) bits).
Proof.
  intros (H0 & H1 & H2 & Hf & Ht). apply Forall_forall. intros x (b & <- & Hb)%list_elem_of_In%in_map_iff.
  destruct b; unfold bit_symbol, symbol_ok; simpl bit1; [change (1 + 1) with 2|change (0 + 1) with 1].
  - specialize (Ht Hb). lia.
  - specialize (Hf Hb). lia.
Qed.

(** A string of bits is encoded, unless the output is full, and decoded from what was written. *)
Lemma CompressBits_spec sum a src s :
  readable src -> ready s -> counts_for sum (rest src) ->
  (CompressBits s src sum sum.[0|2] a = Overrun /\ blen s < bpos s + 17 * (blen src - bpos src) + 2) \/
  exists s' vs, CompressBits s src sum sum.[0|2] a = Done (CPRS_SUCCESS, s') /\ appended s s' vs /\
    forall esrc dest d, holds_output s s' esrc -> ready dest -> blen dest - bpos dest = blen src - bpos src ->
      exists dest', DecompressBits dest esrc sum sum.[0|2] d = Done (CPRS_SUCCESS, dest') /\
        appended dest dest' (rest src).
Proof.
  intros Hre Hr Hc. unfold CompressBits. pose proof (re_pos _ Hre) as Hp.
  destruct (Z.leb_spec sum.[0|2] 0); [destruct Hc as (_ & _ & ? & _); lia|].
  rewrite compress_loop_symbols by (done || lia). set (l := map (bit_symbol sum sum.[0|2]) (rest src)).
  assert (zlen l = blen src - bpos src) as Hz by (unfold l, zlen; rewrite length_map; apply zlen_rest; lia).
  destruct (run_coder_spec l a s (bit_symbols_ok _ _ Hc) Hr) as [H0|(s' & vs & E & Hv & Hdec)]; [left; by rewrite <- Hz|right].
  exists s', vs. split; [exact E|]. split; [done|]. intros esrc dest d He Hrd Hn. unfold DecompressBits.
  destruct (Hdec esrc d He) as (d1 & src1 & d2 & src2 & -> & Hds). simpl.
  apply (decompress_loop_bits _ _ _ _ _ _ _ _ _ Hds); [done|done| |]; rewrite zlen_rest by lia; lia.
Qed.

Lemma CompressBits_past sum a src s :
  readable src -> past s -> counts_for sum (rest src) -> CompressBits s src sum sum.[0|2] a = Overrun.
Proof.
  intros Hre Hp Hc. unfold CompressBits. pose proof (re_pos _ Hre).
  destruct (Z.leb_spec sum.[0|2] 0); [destruct Hc as (_ & _ & ? & _); lia|].
  rewrite compress_loop_symbols by (done || lia). exact (run_coder_past _ a s (bit_symbols_ok _ _ Hc) Hp).
Qed.

(** ** Strings of bytes *)

(** [CompressBytes]: a character indexes the table as a signed number. *)
Fixpoint compress_bytes (src : list Z) (sum : list Z) (total : Z) (a : AC) (dest : BS) : sres (CprsErr * AC * BS) :=
  match src with
  | [] => Done (CPRS_SUCCESS, a, dest)
  | c :: r =>
      if in_array sum c && in_array sum (c + 1) then
        '(err, a, dest) ← ScaleRange sum.[0|c] sum.[0|c + 1] total a dest;
        if decide (err = CPRS_SUCCESS) then compress_bytes r sum total a dest else Done (err, a, dest)
      else Bad
  end.

Definition CompressBytes (dest : BS) (src : list Z) (sum : list Z) (total : Z) (a : AC) : sres (CprsErr * BS) :=
  if (zlen src <? 1) || (total <=? 0) then Done (CPRS_ERR_PAR, dest)
  else
    '(err, a, dest) ← compress_bytes src sum total (AC_InitCompress a) dest;
    if decide (err = CPRS_SUCCESS) then
      dest ← AC_EndCompress a dest; Done (CPRS_SUCCESS, dest)
    else Done (err, dest).

(** [c = 0; while(sum[++c] <= count); --c] *)
Fixpoint find_symbol (fuel : nat) (sum : list Z) (count c : Z) : sres Z :=
  match fuel with
  | O => Bad
  | S n =>
      if in_array sum (c + 1) then
        if sum.[0|c + 1] <=? count then find_symbol n sum count (c + 1) else Done c
      else Bad
  end.

Fixpoint decompress_bytes (dlen : nat) (src : BS) (sum : list Z) (total : Z) (a : AC) (dest : list Z) :
    sres (CprsErr * list Z) :=
  match dlen with
  | O => Done (CPRS_SUCCESS, dest)
  | S n =>
      '(count, a) ← AC_GetCount total a;
      c ← find_symbol (length sum) sum count 0;
      '(err, a, src) ← RemoveSymbol sum.[0|c] sum.[0|c + 1] total a src;
      let dest := dest ++ [swrap 8 c] in
      if decide (err = CPRS_SUCCESS) then decompress_bytes n src sum total a dest else Done (err, dest)
  end.

(** The bytes written to [dest]. *)
Definition DecompressBytes (dlen : Z) (src : BS) (sum : list Z) (total : Z) (a : AC) : sres (CprsErr * list Z) :=
  if dlen <? 1 then Done (CPRS_ERR_PAR, [])
  else
    '(a, src) ← AC_InitDecompress a src;
    decompress_bytes (Z.to_nat dlen) src sum total a [].

Definition char_symbol (sum : list Z) (total c : Z) : symbol := (sum.[0|c], sum.[0|c + 1], total).

(** A table with an interval for every character of the text. *)
Definition table_for (sum : list Z) (total : Z) (text : list Z) : Prop :=
  0 < total <= AC_MAX_TOTAL /\ sum.[0|0] = 0 /\
  (forall i j, 0 <= i <= j -> j < zlen sum -> sum.[0|i] <= sum.[0|j] <= total) /\
  Forall (fun c => 0 <= c < 128 /\ c + 1 < zlen sum /\ sum.[0|c] < sum.[0|c + 1]) text.

Lemma char_symbols_ok sum total text : table_for sum total text -> Forall symbol_ok (map (char_symbol sum total) text).
Proof.
  intros (Ht & H0 & Hm & Hf). apply Forall_map. eapply Forall_impl; [done|]. intros c (Hc & Hl & Hlt).
  unfold char_symbol, symbol_ok. pose proof (Hm 0 c ltac:(lia) ltac:(lia)). pose proof (Hm (c + 1) (c + 1) ltac:(lia) ltac:(lia)). lia.
Qed.

Lemma compress_bytes_symbols sum total text : forall a dest,
  Forall (fun c => 0 <= c < 128 /\ c + 1 < zlen sum /\ sum.[0|c] < sum.[0|c + 1]) text ->
  compress_bytes text sum total a dest = encode_all (map (char_symbol sum total) text) a dest.
Proof.
  induction text as [|c text IH]; intros a dest Hf; [done|]. apply Forall_cons in Hf as [(Hc & Hl & _) Hf].
  cbn [compress_bytes map encode_all char_symbol]. rewrite !in_array_true by lia. simpl.
  destruct (ScaleRange _ _ _ _ _) as [[[err a'] dest']| |]; try done. simpl. destruct (decide _); [by apply IH|done].
Qed.

(** The search stops at the symbol of the count. *)
Lemma find_symbol_spec sum count c : forall fuel k,
  0 <= k <= c -> c + 1 < zlen sum -> (Z.to_nat (c - k) < fuel)%nat ->
  (forall i j, 0 <= i <= j -> j < zlen sum -> sum.[0|i] <= sum.[0|j]) -> sum.[0|c] <= count < sum.[0|c + 1] ->
  find_symbol fuel sum count k = Done c.
Proof.
  induction fuel as [|n IH]; intros k Hk Hc Hf Hm Hcnt; [lia|]. cbn [find_symbol]. rewrite in_array_true by lia.
  destruct (Z.eq_dec k c) as [->|Hne].
  - by destruct (Z.leb_spec sum.[0|c + 1] count); [lia|].
  - pose proof (Hm (k + 1) c ltac:(lia) ltac:(lia)). destruct (Z.leb_spec sum.[0|k + 1] count); [|lia]. apply IH; (done || lia).
Qed.

Lemma swrap8_small c : 0 <= c < 128 -> swrap 8 c = c.
Proof. intros. unfold swrap. rewrite Z.mod_small by lia. by destruct (Z.ltb_spec c (2 ^ (8 - 1))); [|lia]. Qed.

Lemma decompress_bytes_text sum total text : forall d src d' src' dest,
  table_for sum total text -> decodes (map (char_symbol sum total) text) d src d' src' ->
  decompress_bytes (length text) src sum total d dest = Done (CPRS_SUCCESS, dest ++ text).
Proof.
  induction text as [|c text IH]; intros d src d' src' dest Ht Hd; cbn [length decompress_bytes]; [by rewrite app_nil_r|].
  pose proof Ht as (Ht1 & H0 & Hm & ((Hc & Hl & Hlt) & Hf)%Forall_cons).
  inversion Hd as [|lo hi tot r ? ? cnt d1 d2 src2 ? ? E1 Hcnt E2 Hds]; subst. rewrite E1. simpl.
  rewrite (find_symbol_spec sum cnt c); [|lia|lia|unfold zlen in Hl; lia|intros i j Hi Hj; by apply Hm|done].
  simpl. rewrite E2. simpl. rewrite swrap8_small by lia.
  rewrite (IH _ _ _ _ (dest ++ [c]) ltac:(done) Hds). by rewrite <- app_assoc.
Qed.

(** C10: a text encoded with a table of counts is decoded again: [CompressBytes] either runs out
    of room or writes bits from which [DecompressBytes] gives back the text, whatever bits follow
    them; it never touches memory outside its buffers, and 17 bits of room for each character
    and two more are enough. *)
Theorem ArithCoder_bytes_roundtrip (sum text : list Z) (total : Z) (a d : AC) (s : BS)
    (Htext : text <> []) (Htab : table_for sum total text) (Hr : ready s) :
  (CompressBytes s text sum total a = Overrun /\ blen s < bpos s + 17 * zlen text + 2) \/
  exists s', CompressBytes s text sum total a = Done (CPRS_SUCCESS, s') /\
    forall s2 ws, appended s' s2 ws ->
      DecompressBytes (zlen text) (BS_Reset (bbuf s2) (bpos s2) (bpos s)) sum total d = Done (CPRS_SUCCESS, text).
Proof.
  pose proof Htab as (Ht & _ & _ & Hf). unfold CompressBytes, DecompressBytes.
  assert (1 <= zlen text) as Hlen by (destruct text; [done|unfold zlen; simpl; lia]).
  destruct (Z.ltb_spec (zlen text) 1), (Z.leb_spec total 0); try lia. simpl. rewrite compress_bytes_symbols by done.
  set (l := map (char_symbol sum total) text). assert (zlen l = zlen text) as Hz by (unfold l, zlen; by rewrite length_map).
  destruct (run_coder_spec l a s (char_symbols_ok _ _ _ Htab) Hr) as [H'|(s' & vs & E & Hv & Hdec)];
    [left; by rewrite <- Hz|right]. exists s'. split; [exact E|]. intros s2 ws Hw.
  destruct (Hdec (BS_Reset (bbuf s2) (bpos s2) (bpos s)) d) as (d1 & src1 & d2 & src2 & -> & Hds).
  - apply (output_extended s s' s2 vs ws); (done || apply Hr).
  - simpl. replace (Z.to_nat (zlen text)) with (length text) by (unfold zlen; lia).
    exact (decompress_bytes_text _ _ _ _ _ _ _ [] Htab Hds).
Qed.

Lemma ArithCoder_bytes_roundtrip_witness :
  let s := BS_Reset [7; 7; 7; 7; 7; 7] 48 3 in let a := mkAC 0 0 0 0 0 0 in
  (CompressBytes s [2; 0; 1; 2; 2] [0; 1; 2; 5] 5 a = Overrun /\ 48 < 3 + 17 * zlen [2; 0; 1; 2; 2] + 2) \/
  exists s', CompressBytes s [2; 0; 1; 2; 2] [0; 1; 2; 5] 5 a = Done (CPRS_SUCCESS, s') /\
    forall s2 ws, appended s' s2 ws ->
      DecompressBytes (zlen [2; 0; 1; 2; 2]) (BS_Reset (bbuf s2) (bpos s2) 3) [0; 1; 2; 5] 5 a
      = Done (CPRS_SUCCESS, [2; 0; 1; 2; 2]).
Proof.
  intros s a. apply (ArithCoder_bytes_roundtrip [0; 1; 2; 5] [2; 0; 1; 2; 2] 5 a a s).
  - discriminate.
  - split; [vm_compute; intuition discriminate|]. split; [done|]. split.
    + intros i j Hi Hj. change (zlen [0; 1; 2; 5]) with 4 in Hj.
      assert (i = 0 \/ i = 1 \/ i = 2 \/ i = 3) as Hi4 by lia. assert (j = 0 \/ j = 1 \/ j = 2 \/ j = 3) as Hj4 by lia.
      destruct Hi4 as [->|[->|[->| ->]]], Hj4 as [->|[->|[->| ->]]]; try lia; vm_compute; intuition discriminate.
    + repeat constructor; vm_compute; intuition discriminate.
  - split; simpl; [lia|split; [vm_compute; discriminate|lia]| |lia|lia]. repeat constructor; vm_compute; discriminate.
Defined.

(** ** Uniform values *)

Definition AC_uni_nbit : Z := 13.
Definition AC_uni_mask : Z := Z.shiftl 1 AC_uni_nbit - 1.
Definition AC_uni_total : Z := Z.shiftl 1 AC_uni_nbit.

(** Groups of [AC_uni_nbit] bits, from the least significant. *)
Fixpoint AC_EncodeUniform_loop (fuel : nat) (val maxval bitmax : Z) (a : AC) (dest : BS) : sres (CprsErr * AC * BS) :=
  match fuel with
  | O => Bad
  | S n =>
      if AC_uni_nbit <? bitmax then
        let v := wrap 16 (Z.land val AC_uni_mask) in
        '(err, a, dest) ← ScaleRange v (wrap 16 (v + 1)) AC_uni_total a dest;
        if decide (err = CPRS_SUCCESS)
        then AC_EncodeUniform_loop n (Z.shiftr val AC_uni_nbit) (Z.shiftr maxval AC_uni_nbit) (bitmax - AC_uni_nbit) a dest
        else Done (err, a, dest)
      else ScaleRange (wrap 16 val) (wrap 16 (wrap 16 val + 1)) (wrap 16 (wrap 16 maxval + 1)) a dest
  end.

Definition AC_EncodeUniform_bit (val maxval bitmax : Z) (a : AC) (dest : BS) : sres (CprsErr * AC * BS) :=
  if maxval =? 0 then Done (CPRS_SUCCESS, a, dest)
  else AC_EncodeUniform_loop (Z.to_nat bitmax + 1) val maxval bitmax a dest.

Definition AC_EncodeUniform (val maxval : Z) (a : AC) (dest : BS) : sres (CprsErr * AC * BS) :=
  AC_EncodeUniform_bit val maxval (GetBitLen maxval) a dest.

(** A number of [w] bits is read back. *)
Fixpoint AC_DecodeUniform_loop (fuel : nat) (w val maxval bitmax shift : Z) (a : AC) (src : BS) :
    sres (CprsErr * Z * AC * BS) :=
  match fuel with
  | O => Bad
  | S n =>
      if shift + AC_uni_nbit <? bitmax then
        '(v, a) ← AC_GetCount AC_uni_total a;
        '(err, a, src) ← RemoveSymbol v (wrap 16 (v + 1)) AC_uni_total a src;
        if decide (err = CPRS_SUCCESS)
        then AC_DecodeUniform_loop n w (or_shift w val v shift) maxval bitmax (shift + AC_uni_nbit) a src
        else Done (err, val, a, src)
      else
        let total := wrap 16 (wrap 16 (Z.shiftr maxval shift) + 1) in
        '(v, a) ← AC_GetCount total a;
        '(err, a, src) ← RemoveSymbol v (wrap 16 (v + 1)) total a src;
        if decide (err = CPRS_SUCCESS) then Done (CPRS_SUCCESS, or_shift w val v shift, a, src)
        else Done (err, val, a, src)
  end.

Definition AC_DecodeUniform_bit (w maxval bitmax : Z) (a : AC) (src : BS) : sres (CprsErr * Z * AC * BS) :=
  if maxval =? 0 then Done (CPRS_SUCCESS, 0, a, src)
  else AC_DecodeUniform_loop (Z.to_nat bitmax + 1) w 0 maxval bitmax 0 a src.

Definition AC_DecodeUniform (w maxval : Z) (a : AC) (src : BS) : sres (CprsErr * Z * AC * BS) :=
  AC_DecodeUniform_bit w maxval (GetBitLen maxval) a src.

(** The symbols of a value from bit [shift] on. *)
Fixpoint uni_symbols (fuel : nat) (val maxval bitmax shift : Z) : list symbol :=
  match fuel with
  | O => []
  | S n =>
      let v := Z.shiftr val shift in
      if shift + 13 <? bitmax then (v mod 2 ^ 13, v mod 2 ^ 13 + 1, 2 ^ 13) :: uni_symbols n val maxval bitmax (shift + 13)
      else [(v, v + 1, Z.shiftr maxval shift + 1)]
  end.

(** The top group of a value of [bitmax] bits. *)
Lemma top_group val maxval bitmax shift :
  0 <= val <= maxval -> maxval < 2 ^ bitmax -> 0 <= shift -> bitmax <= shift + 13 ->
  0 <= Z.shiftr val shift <= Z.shiftr maxval shift /\ Z.shiftr maxval shift < 2 ^ 13.
Proof.
  intros Hv Hm Hs Hb. rewrite !Z.shiftr_div_pow2 by done. pose proof (Z.pow_pos_nonneg 2 shift ltac:(lia) Hs).
  split; [split; [apply Z.div_pos; lia|apply Z.div_le_mono; lia]|].
  apply Z.div_lt_upper_bound; [lia|]. rewrite <- Z.pow_add_r by lia.
  apply Z.lt_le_trans with (2 ^ bitmax); [done|]. apply Z.pow_le_mono_r; lia.
Qed.

Lemma uni_symbols_ok fuel val maxval bitmax : 0 <= val <= maxval -> maxval < 2 ^ bitmax -> forall shift,
  0 <= shift -> Forall symbol_ok (uni_symbols fuel val maxval bitmax shift).
Proof.
  intros Hv Hm. induction fuel as [|n IH]; intros shift Hs; cbn [uni_symbols]; [constructor|].
  assert (AC_MAX_TOTAL = 16383) as HM by reflexivity.
  pose proof (Z.mod_pos_bound (Z.shiftr val shift) (2 ^ 13) ltac:(lia)).
  destruct (Z.ltb_spec (shift + 13) bitmax).
  - constructor; [unfold symbol_ok; lia|]. apply IH. lia.
  - destruct (top_group val maxval bitmax shift Hv Hm Hs ltac:(lia)). constructor; [unfold symbol_ok; lia|constructor].
Qed.

Lemma EncodeUniform_symbols val maxval bitmax : 0 <= val <= maxval -> maxval < 2 ^ bitmax -> forall fuel shift a s,
  0 <= shift -> (Z.to_nat (bitmax - shift) < fuel)%nat ->
  AC_EncodeUniform_loop fuel (Z.shiftr val shift) (Z.shiftr maxval shift) (bitmax - shift) a s
  = encode_all (uni_symbols fuel val maxval bitmax shift) a s.
Proof.
  intros Hv Hm. induction fuel as [|n IH]; intros shift a s Hs Hf; [lia|]. cbn [AC_EncodeUniform_loop uni_symbols].
  change AC_uni_nbit with 13. change AC_uni_mask with (Z.ones 13). change AC_uni_total with (2 ^ 13).
  rewrite Z.land_ones by lia. set (v := Z.shiftr val shift). pose proof (Z.mod_pos_bound v (2 ^ 13) ltac:(lia)).
  destruct (Z.ltb_spec 13 (bitmax - shift)), (Z.ltb_spec (shift + 13) bitmax); try lia; cbn [encode_all].
  - rewrite (wrap_id 16 (v mod 2 ^ 13)), wrap_id by (unfold is_word; lia).
    destruct (ScaleRange _ _ _ _ _) as [[[err a'] s']| |]; try done. simpl. destruct (decide _); [|done].
    unfold v. rewrite !Z.shiftr_shiftr by lia. replace (bitmax - shift - 13) with (bitmax - (shift + 13)) by lia.
    apply IH; lia.
  - destruct (top_group val maxval bitmax shift Hv Hm Hs ltac:(lia)) as [Hv1 Hm1]. fold v in Hv1.
    rewrite (wrap_id 16 v), (wrap_id 16 (Z.shiftr maxval shift)) by (unfold is_word; lia).
    rewrite !wrap_id by (unfold is_word; lia).
    destruct (ScaleRange _ _ _ _ _) as [[[err a'] s']| |]; try done. simpl. by destruct (decide (err = _)) as [->|].
Qed.

Lemma DecodeUniform_symbols w val maxval bitmax : 0 <= val <= maxval -> maxval < 2 ^ bitmax -> maxval < 2 ^ w -> 0 <= w ->
  forall fuel shift d src d' src',
  0 <= shift -> (Z.to_nat (bitmax - shift) < fuel)%nat ->
  decodes (uni_symbols fuel val maxval bitmax shift) d src d' src' ->
  AC_DecodeUniform_loop fuel w (val mod 2 ^ shift) maxval bitmax shift d src = Done (CPRS_SUCCESS, val, d', src').
Proof.
  intros Hv Hm Hw Hw0. induction fuel as [|n IH]; intros shift d src d' src' Hs Hf Hd; [lia|].
  cbn [AC_DecodeUniform_loop uni_symbols] in *. change AC_uni_nbit with 13. change AC_uni_total with (2 ^ 13).
  set (v := Z.shiftr val shift) in *. pose proof (Z.mod_pos_bound v (2 ^ 13) ltac:(lia)).
  assert (v = val / 2 ^ shift) as Ev by (unfold v; by apply Z.shiftr_div_pow2).
  destruct (Z.ltb_spec (shift + 13) bitmax).
  - inversion Hd as [|lo hi tot r ? ? c d1 d2 src2 ? ? E1 Hc E2 Hds]; subst r lo hi tot.
    assert (c = v mod 2 ^ 13) as -> by lia. rewrite E1. simpl. rewrite wrap_id by (unfold is_word; lia). rewrite E2. simpl.
    rewrite (or_shift_add 13 w _ _ shift val); [|done|done|done|done| |lia].
    + apply IH; (done || lia).
    + rewrite (mod_pow2_step 13), Ev by lia. done.
  - destruct (top_group val maxval bitmax shift Hv Hm Hs ltac:(lia)) as [Hv1 Hm1]. fold v in Hv1.
    inversion Hd as [|lo hi tot r ? ? c d1 d2 src2 ? ? E1 Hc E2 Hds]; subst r lo hi tot.
    inversion Hds; subst. assert (c = v) as -> by lia.
    rewrite (wrap_id 16 (Z.shiftr maxval shift)), wrap_id by (unfold is_word; lia). rewrite E1. simpl.
    rewrite wrap_id by (unfold is_word; lia). rewrite E2. simpl. do 4 f_equal.
    assert (val mod 2 ^ (shift + 13) = val) as Hval.
    { apply Z.mod_small. split; [lia|]. rewrite Z.pow_add_r by lia. pose proof (Z.pow_pos_nonneg 2 shift).
      pose proof (Z.div_mod val (2 ^ shift)). pose proof (Z.mod_pos_bound val (2 ^ shift)). nia. }
    rewrite <- Hval at 2. apply (or_shift_add 13); try done; [|lia].
    rewrite Hval, Ev. pose proof (Z.div_mod val (2 ^ shift)). pose proof (Z.pow_pos_nonneg 2 shift). lia.
Qed.

(** A value is written as symbols that the decoder turns back into it. *)
Lemma AC_Uniform_codes w val maxval :
  0 <= val <= maxval -> maxval < 2 ^ w -> 0 <= w ->
  exists l, Forall symbol_ok l /\ (forall a s, AC_EncodeUniform val maxval a s = encode_all l a s) /\
    forall d src d' src', decodes l d src d' src' ->
      AC_DecodeUniform w maxval d src = Done (CPRS_SUCCESS, val, d', src').
Proof.
  intros Hv Hw Hw0. destruct (GetBitLen_bounds maxval ltac:(lia)) as [Hb Hb0].
  unfold AC_EncodeUniform, AC_DecodeUniform, AC_EncodeUniform_bit, AC_DecodeUniform_bit.
  destruct (Z.eqb_spec maxval 0) as [->|Hne].
  - exists []. split; [constructor|]. split; [done|]. intros d src d' src' Hd. inversion Hd; subst. by assert (val = 0) as -> by lia.
  - set (bl := GetBitLen maxval) in *. exists (uni_symbols (Z.to_nat bl + 1) val maxval bl 0).
    split; [by apply uni_symbols_ok|]. split.
    + intros a s. rewrite <- EncodeUniform_symbols by (done || lia). by rewrite !Z.shiftr_0_r, Z.sub_0_r.
    + intros d src d' src' Hd. rewrite <- (DecodeUniform_symbols w val maxval bl Hv Hb Hw Hw0 (Z.to_nat bl + 1) 0 d src d' src' ltac:(lia) ltac:(lia) Hd).
      by rewrite Z.mod_1_r.
Qed.
