(* ===== verification/BitstreamCompressor.v ===== *)
(** * Compression of bit strings (compress/BitstreamCompressor.h, compress/BitstreamCompressor.cpp)

    The bits, or the differences of neighbours when an estimate says that they take less space,
    are written by the arithmetic coder with a static table of two counts, behind a header with
    the version, the choice and the number of ones of the differences.

    The estimate is computed in floating point, by operations of the class [FPULog] without laws:
    what is proved holds for any outcome.  [tab], the content of a fresh array, is arbitrary.
    After an exception the content of the output is not tracked: it is [None]. *)

From S2P Require Import Prelude CprsBase QSort RangeCoder BitStream ArithCoder.

Class FPULog := {
  real : Type;
  real_of : Z -> real;
  radd : real -> real -> real;
  rsub : real -> real -> real;
  rmul : real -> real -> real;
  rdiv : real -> real -> real;
  rneg : real -> real;
  rle : real -> real -> bool;
  rlog : real -> real;
  to_int : real -> Z
}.

Section Bitstream.
Context `{FPULog}.

Definition log_of_2 : real := rlog (real_of 2).

Definition Entropy (p : real) : real :=
  if rle p (real_of 0) || rle (real_of 1) p then real_of 0
  else
    let q := rsub (real_of 1) p in
    rdiv (rneg (radd (rmul p (rlog p)) (rmul q (rlog q)))) log_of_2.

(** [(int)(Entropy((double)ones/numbits) * numbits)] *)
Definition size_of (ones numbits : Z) : Z :=
  to_int (rmul (Entropy (rdiv (real_of ones) (real_of numbits))) (real_of numbits)).

Definition USHRT_MAX : Z := 65535.

(** The loop halves both counts, at most 32 times. *)
Fixpoint shrink_counts (fuel : nat) (num0 num1 maxtotal cnt0 cnt1 : Z) : option (Z * Z) :=
  if maxtotal <? wrap32 (cnt0 + cnt1) then
    match fuel with
    | O => None
    | S n =>
        let cnt0 := Z.shiftr cnt0 1 in
        let cnt1 := Z.shiftr cnt1 1 in
        let cnt0 := if (cnt0 =? 0) && (0 <? num0) then 1 else cnt0 in
        let cnt1 := if (cnt1 =? 0) && (0 <? num1) then 1 else cnt1 in
        shrink_counts n num0 num1 maxtotal cnt0 cnt1
    end
  else Some (cnt0, cnt1).

Definition GetSumTable (num0 num1 : Z) (patch : bool) : sres (list Z) :=
  match shrink_counts 32 num0 num1 (if patch then AC_MAX_TOTAL else USHRT_MAX) num0 num1 with
  | Some (cnt0, cnt1) => Done [0; wrap 16 cnt0; wrap 16 (cnt0 + cnt1)]
  | None => Bad
  end.

(** The number of ones and the two streams. *)
Fixpoint Differ_loop (fuel : nat) (num1 prev : Z) (dest src : BS) : sres (Z * BS * BS) :=
  if CanRead src then
    match fuel with
    | O => Bad
    | S n =>
        '(next, src) ← GetBit src;
        let bit := Z.lxor prev next in
        dest ← PutBit bit dest;
        Differ_loop n (if bit =? 0 then num1 else wrap32 (num1 + 1)) next dest src
    end
  else Done (num1, dest, src).

Definition Differ (dest src : BS) : sres (Z * BS * BS) :=
  Differ_loop (Z.to_nat (blen src - bpos src)) 0 0 dest src.

Fixpoint Integrt_loop (fuel : nat) (bit : Z) (dest src : BS) : sres BS :=
  if CanRead src then
    match fuel with
    | O => Bad
    | S n =>
        '(next, src) ← GetBit src;
        let bit := Z.lxor bit next in
        dest ← PutBit bit dest;
        Integrt_loop n bit dest src
    end
  else Done dest.

Definition Integrt (dest src : BS) : sres BS := Integrt_loop (Z.to_nat (blen src - bpos src)) 0 dest src.

(** The result of a call: its error and, unless an exception was caught, the output. *)
Definition outcome : Type := sres (CprsErr * option BS).

(** [try { m } catch(ErrBufOverrun&) { return CPRS_ERR_BUF; }] before [k]. *)
Definition try_buf {A : Type} (m : sres A) (k : A -> outcome) : outcome :=
  match m with
  | Done x => k x
  | Overrun => Done (CPRS_ERR_BUF, None)
  | Bad => Bad
  end.

Definition new_coder : AC := mkAC 0 0 0 0 0 0.

Definition CompressData (dest src : BS) (numbits num1 : Z) : outcome :=
  sum ← GetSumTable (wrap32 (numbits - num1)) num1 true;
  try_buf (CompressBits dest src sum sum.[0|2] new_coder) (fun '(err, dest) => Done (err, Some dest)).

(** The stream is replaced by its differences when they look shorter. *)
Definition choose_stream (dest src : BS) (numbits num1 : Z) (tab : list Z) : sres (BS * BS * Z) :=
  let pos := bpos src in
  '(dnum1, diff, src) ← Differ (BS_Reset tab numbits 0) src;
  let size_plain := size_of num1 numbits in
  let size_diff := size_of dnum1 numbits + 1 + (if dnum1 <=? USHRT_MAX then 16 else 32) in
  if size_plain <=? size_diff then
    dest ← PutBit0 dest;
    Done (dest, SetPos src pos, num1)
  else
    dest ← PutBit1 dest;
    dest ← (if dnum1 <=? USHRT_MAX
            then dest ← PutBit0 dest; PutUInt dnum1 16 dest
            else dest ← PutBit1 dest; PutUInt dnum1 32 dest);
    Done (dest, BS_Reset (bbuf diff) (blen diff) 0, dnum1).

Definition Compress (dest src : BS) (numbits num1 : Z) (tab : list Z) : outcome :=
  try_buf (dest ← PutBit1 dest; PutBit0 dest) (fun dest =>
  try_buf (choose_stream dest src numbits num1 tab) (fun '(dest, src, num1) =>
  CompressData dest src numbits num1)).

Definition DecompressData (dest src : BS) (numbits num1 : Z) (patch : bool) : outcome :=
  sum ← GetSumTable (wrap32 (numbits - num1)) num1 patch;
  try_buf (DecompressBits dest src sum sum.[0|2] new_coder) (fun '(err, dest) => Done (err, Some dest)).

(** [None]: the version is not known. *)
Definition read_version (src : BS) : sres (option bool * BS) :=
  '(v, src) ← GetBit src;
  if v =? 0 then Done (Some false, src)
  else
    '(v, src) ← GetBit src;
    Done (if v =? 0 then Some true else None, src).

Definition Decompress (dest src : BS) (numbits num1 : Z) (tab : list Z) : outcome :=
  try_buf (read_version src) (fun '(patch, src) =>
  match patch with
  | None => Done (CPRS_ERR_VER, Some dest)
  | Some patch =>
      try_buf (GetBit src) (fun '(isdiff, src) =>
      if negb (isdiff =? 0) then
        try_buf ('(islong, src) ← GetBit src; GetUInt 32 (if negb (islong =? 0) then 32 else 16) src)
          (fun '(num1, src) =>
        '(err, diff) ← DecompressData (BS_Reset tab numbits 0) src numbits num1 patch;
        match err, diff with
        | CPRS_SUCCESS, Some diff =>
            try_buf (Integrt dest (BS_Reset (bbuf diff) (blen diff) 0)) (fun dest => Done (CPRS_SUCCESS, Some dest))
        | _, _ => Done (err, Some dest)
        end)
      else DecompressData dest src numbits num1 patch)
  end).

(** The interfaces on arrays of bytes: [len] is in bytes. *)
Definition Compress_bytes (dest : list Z) (len : Z) (src : list Z) (numbits num1 : Z) (tab : list Z) :
    sres (CprsErr * option (list Z * Z)) :=
  '(err, sdest) ← Compress (BS_Reset dest (wrap32 (len * 8)) 0) (BS_Reset src numbits 0) numbits num1 tab;
  Done (err, match sdest with Some s => Some (bbuf s, wrap32 (bpos s + 7) / 8) | None => None end).

Definition Decompress_bytes (dest : list Z) (len : Z) (src : list Z) (numbits num1 : Z) (tab : list Z) :
    sres (CprsErr * option (list Z)) :=
  '(err, sdest) ← Decompress (BS_Reset dest numbits 0) (BS_Reset src (wrap32 (len * 8)) 0) numbits num1 tab;
  Done (err, match sdest with Some s => Some (bbuf s) | None => None end).

(** The interface on arrays of words, here as their bytes: the result has the words to move [out]
    by, the new [outpos] and the new [outlen]. *)
Definition Compress_words (in_ out : list Z) (outpos outlen numbits num1 : Z) (tab : list Z) :
    sres (CprsErr * option (list Z * Z * Z * Z)) :=
  '(err, dest) ← Compress (BS_Reset out outlen outpos) (BS_Reset in_ numbits 0) numbits num1 tab;
  Done (err, match dest with
             | Some s => let move := bpos s / 32 in Some (bbuf s, move, outpos - move * 32, bpos s)
             | None => None
             end).

Definition Decompress_words (in_ : list Z) (inpos inlen : Z) (out : list Z) (numbits num1 : Z) (tab : list Z) :
    sres (CprsErr * option (list Z)) :=
  '(err, dest) ← Decompress (BS_Reset out numbits 0) (BS_Reset in_ inlen inpos) numbits num1 tab;
  Done (err, match dest with Some s => Some (bbuf s) | None => None end).

End Bitstream.

(** ** The table of counts *)

(** A count after halving: it stays positive where it was. *)
Lemma halved_count num cnt :
  0 <= cnt -> (0 < num <-> 0 < cnt) ->
  let c := if (Z.shiftr cnt 1 =? 0) && (0 <? num) then 1 else Z.shiftr cnt 1 in
  0 <= c /\ (0 < num <-> 0 < c) /\ 2 * c <= cnt + 1.
Proof.
  intros Hc Hn c. unfold c. rewrite Z.shiftr_div_pow2 by lia. change (2 ^ 1) with 2.
  pose proof (Z.div_mod cnt 2 ltac:(lia)). pose proof (Z.mod_pos_bound cnt 2 ltac:(lia)).
  destruct (Z.eqb_spec (cnt / 2) 0), (Z.ltb_spec 0 num); simpl; lia.
Qed.

Lemma shrink_counts_spec fuel maxtotal num0 num1 : 2 <= maxtotal -> forall cnt0 cnt1,
  0 <= cnt0 -> 0 <= cnt1 -> cnt0 + cnt1 < 2 ^ 32 -> (0 < num0 <-> 0 < cnt0) -> (0 < num1 <-> 0 < cnt1) ->
  cnt0 + cnt1 - 2 <= (maxtotal - 2) * 2 ^ Z.of_nat fuel ->
  exists c0 c1, shrink_counts fuel num0 num1 maxtotal cnt0 cnt1 = Some (c0, c1) /\
    0 <= c0 /\ 0 <= c1 /\ c0 + c1 <= maxtotal /\ (0 < num0 <-> 0 < c0) /\ (0 < num1 <-> 0 < c1).
Proof.
  intros Hmt. induction fuel as [|n IH]; intros cnt0 cnt1 H0 H1 Hs Hn0 Hn1 Hf; cbn [shrink_counts];
    rewrite wrap_id by (unfold is_word; lia); destruct (Z.ltb_spec maxtotal (cnt0 + cnt1)) as [Hlt|Hge].
  - change (2 ^ Z.of_nat 0) with 1 in Hf. lia.
  - by exists cnt0, cnt1.
  - destruct (halved_count num0 cnt0 H0 Hn0) as (A1 & A2 & A3). destruct (halved_count num1 cnt1 H1 Hn1) as (B1 & B2 & B3).
    apply IH; try done; [lia|]. replace (Z.of_nat (S n)) with (1 + Z.of_nat n) in Hf by lia. rewrite Z.pow_add_r in Hf by lia. lia.
  - by exists cnt0, cnt1.
Qed.

(** ** Differences *)

Fixpoint ones (l : list bool) : Z := match l with [] => 0 | b :: r => bit1 b + ones r end.

Fixpoint differences (prev : bool) (l : list bool) : list bool :=
  match l with [] => [] | b :: r => xorb prev b :: differences b r end.

Fixpoint sums (acc : bool) (l : list bool) : list bool :=
  match l with [] => [] | b :: r => xorb acc b :: sums (xorb acc b) r end.

Lemma sums_differences prev l : sums prev (differences prev l) = l.
Proof.
  revert prev. induction l as [|b l IH]; intros prev; [done|]. simpl.
  assert (xorb prev (xorb prev b) = b) as -> by (by destruct prev, b). by rewrite IH.
Qed.

Lemma length_differences prev l : length (differences prev l) = length l.
Proof. revert prev. induction l; intros; simpl; [done|]. by f_equal. Qed.

Lemma ones_bounds l : 0 <= ones l <= zlen l.
Proof.
  induction l as [|b l IH]; [done|]. simpl. unfold zlen in *. simpl length. pose proof (bit1_bounds b). lia.
Qed.

Lemma ones_In l : (In true l <-> 0 < ones l) /\ (In false l <-> ones l < zlen l).
Proof.
  induction l as [|b l [IH1 IH2]]; [simpl; change (zlen []) with 0; split; split; (done || lia)|].
  pose proof (ones_bounds l) as Hb. assert (zlen (b :: l) = zlen l + 1) as -> by (unfold zlen; simpl; lia). simpl.
  rewrite IH1, IH2. destruct b; unfold bit1; (split; split); intros Hin; try lia; try (by left);
    try (destruct Hin as [?|Hin]; [done|lia]); right; lia.
Qed.

(** The table has an interval for every bit that occurs. *)
Lemma GetSumTable_spec bits num1 numbits :
  num1 = ones bits -> numbits = zlen bits -> 1 <= numbits < 2 ^ 31 ->
  exists sum, GetSumTable (wrap32 (numbits - num1)) num1 true = Done sum /\ counts_for sum bits.
Proof.
  intros -> -> Hn. pose proof (ones_bounds bits) as Hb. rewrite wrap_id by (unfold is_word; lia). unfold GetSumTable.
  assert (AC_MAX_TOTAL = 16383) as HM by reflexivity. rewrite HM.
  destruct (shrink_counts_spec 32 16383 (zlen bits - ones bits) (ones bits) ltac:(lia) (zlen bits - ones bits) (ones bits))
    as (c0 & c1 & -> & H0 & H1 & Hs & Hc0 & Hc1); try lia.
  eexists. split; [done|]. rewrite !wrap_id by (unfold is_word; lia). destruct (ones_In bits) as [Ht Hf].
  unfold counts_for. rewrite HM. cbv [znth]. simpl. rewrite Ht, Hf. lia.
Qed.

(** ** Streams of differences *)

Lemma xor_bit1 a b : Z.lxor (bit1 a) (bit1 b) = bit1 (xorb a b).
Proof. by destruct a, b. Qed.

Lemma testbit_bit1 b : Z.testbit (bit1 b) 0 = b.
Proof. by destruct b. Qed.

Lemma Differ_loop_spec fuel : forall num1 prev dest src,
  readable src -> ready dest -> blen src - bpos src <= Z.of_nat fuel ->
  bpos dest + (blen src - bpos src) <= blen dest -> 0 <= num1 -> num1 + (blen src - bpos src) < 2 ^ 32 ->
  exists dest' src', Differ_loop fuel num1 (bit1 prev) dest src
      = Done (num1 + ones (differences prev (rest src)), dest', src') /\
    appended dest dest' (differences prev (rest src)) /\ bbuf src' = bbuf src /\ blen src' = blen src.
Proof.
  induction fuel as [|n IH]; intros num1 prev dest src Hre Hr Hf Hroom Hn0 Hn; cbn [Differ_loop]; unfold CanRead;
    destruct (Z.ltb_spec (bpos src) (blen src)) as [Hlt|Hge]; try lia;
    try (rewrite rest_nil by lia; exists dest, src; simpl; rewrite Z.add_0_r; by (split; [|split; [apply appended_nil|]])).
  destruct (GetBit_spec src Hre) as [[? _]|(_ & src1 & -> & Hmv)]; [lia|]. simpl.
  rewrite rest_cons by done. rewrite <- (rest_moved _ _ Hmv). set (b := bbit _ _). rewrite xor_bit1.
  destruct (PutBit_spec dest (bit1 (xorb prev b)) Hr) as [[? _]|(_ & dest1 & -> & Ha)]; [lia|]. simpl.
  rewrite testbit_bit1 in Ha. pose proof (ap_pos _ _ _ Ha) as Hp. change (zlen [_]) with 1 in Hp.
  pose proof Hmv as (E1 & E2 & E3). pose proof (re_pos _ Hre).
  assert ((if bit1 (xorb prev b) =? 0 then num1 else wrap32 (num1 + 1)) = num1 + bit1 (xorb prev b)) as ->.
  { destruct (xorb prev b); simpl; [|lia]. apply wrap_id. unfold is_word. lia. }
  pose proof (bit1_bounds (xorb prev b)).
  destruct (IH (num1 + bit1 (xorb prev b)) b dest1 src1) as (dest' & src' & -> & Ha' & F1 & F2).
  - apply (readable_moved src src1 1); (done || lia).
  - apply Ha.
  - lia.
  - rewrite (ap_len _ _ _ Ha). lia.
  - lia.
  - lia.
  - exists dest', src'. split; [do 3 f_equal; lia|].
    split; [apply (appended_app dest dest1 dest' [_]); [apply Hr|done|done]|]. split; congruence.
Qed.

Lemma Integrt_loop_spec fuel : forall acc dest src,
  readable src -> ready dest -> blen src - bpos src <= Z.of_nat fuel ->
  bpos dest + (blen src - bpos src) <= blen dest ->
  exists dest', Integrt_loop fuel (bit1 acc) dest src = Done dest' /\ appended dest dest' (sums acc (rest src)).
Proof.
  induction fuel as [|n IH]; intros acc dest src Hre Hr Hf Hroom; cbn [Integrt_loop]; unfold CanRead;
    destruct (Z.ltb_spec (bpos src) (blen src)) as [Hlt|Hge]; try lia;
    try (rewrite rest_nil by lia; exists dest; by split; [|apply appended_nil]).
  destruct (GetBit_spec src Hre) as [[? _]|(_ & src1 & -> & Hmv)]; [lia|]. simpl.
  rewrite rest_cons by done. rewrite <- (rest_moved _ _ Hmv). set (b := bbit _ _). rewrite xor_bit1.
  destruct (PutBit_spec dest (bit1 (xorb acc b)) Hr) as [[? _]|(_ & dest1 & -> & Ha)]; [lia|]. simpl.
  rewrite testbit_bit1 in Ha. pose proof (ap_pos _ _ _ Ha) as Hp. change (zlen [_]) with 1 in Hp.
  pose proof Hmv as (E1 & E2 & E3). pose proof (re_pos _ Hre).
  destruct (IH (xorb acc b) dest1 src1) as (dest' & -> & Ha').
  - apply (readable_moved src src1 1); (done || lia).
  - apply Ha.
  - lia.
  - rewrite (ap_len _ _ _ Ha). lia.
  - exists dest'. split; [done|]. apply (appended_app dest dest1 dest' [_]); [apply Hr|done|done].
Qed.

(** The bits of an array. *)
Definition bits_from (b : list Z) (numbits : Z) : list bool := map (bbit b) (range 0 (numbits - 1)).

Lemma bbit_ext b c i : b.[0|i / 8] = c.[0|i / 8] -> bbit b i = bbit c i.
Proof. intros E. unfold bbit. by rewrite E. Qed.

Lemma zlen_bits_from b n : 0 <= n -> zlen (bits_from b n) = n.
Proof. intros. unfold bits_from, zlen. rewrite length_map. unfold range. rewrite length_seqZ. lia. Qed.

Lemma znth_bits_from b n i : 0 <= i < n -> (bits_from b n).[false|i] = bbit b i.
Proof.
  intros Hi. rewrite <- (Z2Nat.id i) at 1 by lia. apply znth_lookup_Some. unfold bits_from, range.
  rewrite list_lookup_fmap, lookup_seqZ_lt by lia. simpl. do 2 f_equal. lia.
Qed.

Lemma output_bits s s' vs n : appended s s' vs -> bpos s = 0 -> zlen vs = n -> bits_from (bbuf s') n = vs.
Proof.
  intros Ha H0 <-. pose proof (zlen_nonneg vs). apply (znth_ext false); [by rewrite zlen_bits_from|].
  intros i Hi. rewrite zlen_bits_from in Hi by done. rewrite znth_bits_from, <- (ap_new _ _ _ Ha), H0 by lia. done.
Qed.

(** A stream that was written, read from the start. *)
Lemma rest_written s s' vs :
  bpos s = 0 -> appended s s' vs -> blen s = zlen vs ->
  let r := BS_Reset (bbuf s') (blen s') 0 in readable r /\ rest r = vs /\ blen r = zlen vs.
Proof.
  intros H0 Ha Hl r. pose proof (ap_len _ _ _ Ha) as El. pose proof (ap_ready _ _ _ Ha) as [Hp Hlen Hb _ _].
  split; [split; simpl; [lia|done|done]|]. split; [|simpl; lia]. apply (output_bits s s'); [done|done|]. simpl. lia.
Qed.

(** ** Reading the header *)

Lemma holds_output_bit s s1 s' b src vs :
  0 <= bpos s -> appended s s1 [b] -> appended s1 s' vs -> holds_output s s' src ->
  exists src', GetBit src = Done (bit1 b, src') /\ holds_output s1 s' src'.
Proof.
  intros H0 Ha1 Ha' (Hre & Hp & Hl & Hb). pose proof (ap_pos _ _ _ Ha1) as Hp1. change (zlen [b]) with 1 in Hp1.
  pose proof (ap_pos _ _ _ Ha') as Hp'. pose proof (zlen_nonneg vs).
  destruct (GetBit_spec src Hre) as [[? _]|(_ & src' & -> & Hmv)]; [lia|]. exists src'. pose proof Hmv as (E1 & E2 & E3). split.
  - do 3 f_equal. rewrite Hp, Hb, (ap_old _ _ _ Ha') by lia. pose proof (ap_new _ _ _ Ha1 0) as Hn.
    rewrite Z.add_0_r in Hn. apply Hn. change (zlen [b]) with 1. lia.
  - split; [apply (readable_moved src src' 1); (done || lia)|]. split; [lia|]. rewrite E1, E2. done.
Qed.

Lemma holds_output_uint s s1 s' n k src vs :
  0 <= bpos s -> 0 <= k <= 32 -> 0 <= n < 2 ^ k -> appended s s1 (bits_of k n) -> appended s1 s' vs -> holds_output s s' src ->
  exists src', GetUInt 32 k src = Done (n, src') /\ holds_output s1 s' src'.
Proof.
  intros H0 Hk Hn Ha1 Ha' (Hre & Hp & Hl & Hb). pose proof (ap_pos _ _ _ Ha1) as Hp1. rewrite zlen_bits_of in Hp1 by lia.
  pose proof (ap_pos _ _ _ Ha') as Hp'. pose proof (zlen_nonneg vs).
  destruct (GetUInt_spec 32 k src Hre Hk ltac:(lia)) as (r & src' & -> & Hmv & Hw & Hbits). exists src'.
  pose proof Hmv as (E1 & E2 & E3). split.
  - do 2 f_equal. apply (word_ext k); [lia|done|unfold is_word; lia|]. intros i Hi.
    rewrite Hbits, Hp, Hb, (ap_old _ _ _ Ha'), (ap_new _ _ _ Ha1), znth_bits_of by (rewrite ?zlen_bits_of; lia). done.
  - split; [apply (readable_moved src src' k); (done || lia)|]. split; [lia|]. rewrite E1, E2. done.
Qed.

(** ** The round trip *)

Section Roundtrip.
Context `{FPULog}.

Lemma CompressData_spec s src numbits num1 :
  readable src -> ready s -> numbits = blen src - bpos src -> 1 <= numbits < 2 ^ 31 -> num1 = ones (rest src) ->
  (CompressData s src numbits num1 = Done (CPRS_ERR_BUF, None) /\ blen s < bpos s + 17 * numbits + 2) \/
  exists s' vs, CompressData s src numbits num1 = Done (CPRS_SUCCESS, Some s') /\ appended s s' vs /\
    forall esrc dest, holds_output s s' esrc -> ready dest -> blen dest - bpos dest = numbits ->
      exists dest', DecompressData dest esrc numbits num1 true = Done (CPRS_SUCCESS, Some dest') /\
        appended dest dest' (rest src).
Proof.
  intros Hre Hr Hn Hb Hnum. pose proof (re_pos _ Hre) as Hp. unfold CompressData, DecompressData.
  destruct (GetSumTable_spec (rest src) num1 numbits Hnum) as (sum & -> & Hc); [rewrite zlen_rest; lia|done|]. simpl.
  destruct (CompressBits_spec sum new_coder src s Hre Hr Hc) as [[-> Hroom]|(s' & vs & -> & Ha & Hdec)]; simpl.
  - left. split; [done|lia].
  - right. exists s', vs. split; [done|]. split; [done|]. intros esrc dest Ho Hd Hl.
    destruct (Hdec esrc dest new_coder Ho Hd ltac:(lia)) as (dest' & -> & Ha'). by exists dest'.
Qed.

(** The test of [Compress] for the differences. *)
Definition differs (bits : list bool) : bool :=
  let dnum1 := ones (differences false bits) in
  negb (size_of (ones bits) (zlen bits)
        <=? size_of dnum1 (zlen bits) + 1 + (if dnum1 <=? USHRT_MAX then 16 else 32)).

(** The array of the differences: [numbits] bits, whatever they are. *)
Definition tab_ok (tab : list Z) (numbits : Z) : Prop := byte_list tab /\ numbits <= 8 * zlen tab.

Lemma tab_ready tab numbits : tab_ok tab numbits -> 0 <= numbits < 2 ^ 31 -> ready (BS_Reset tab numbits 0).
Proof. intros [Hb Hl] Hn. split; simpl; (done || lia). Qed.

(** The part of the header with the choice. *)
Inductive choice (bits : list bool) (s s' : BS) : list bool -> Prop :=
| choice_plain : appended s s' [false] -> choice bits s s' bits
| choice_differ s1 s2 (islong : bool) :
    appended s s1 [true] -> appended s1 s2 [islong] ->
    ones (differences false bits) < 2 ^ (if islong then 32 else 16) ->
    appended s2 s' (bits_of (if islong then 32 else 16) (ones (differences false bits))) ->
    choice bits s s' (differences false bits).

Lemma header_spare s s' vs : spare s -> appended s s' vs -> spare s'.
Proof. intros (len & ? & ?) Ha. exists len. by rewrite (ap_len _ _ _ Ha), (ap_size _ _ _ Ha). Qed.

(** The number of ones of the differences with its length: written, or not for lack of room. *)
Lemma put_sized s v n (m : nat) :
  ready s -> (bpos s + 1 + 8 * Z.of_nat m <= blen s \/ spare s) ->
  let r := (s ← PutBit (bit1 v) s; PutUInt n (8 * Z.of_nat m) s) in
  (r = Overrun \/ exists s2, r = Done s2 /\ past s2) /\ blen s < bpos s + 1 + 8 * Z.of_nat m \/
  exists s1 s2, r = Done s2 /\ appended s s1 [v] /\ appended s1 s2 (bits_of (8 * Z.of_nat m) n).
Proof.
  intros Hr Hroom. cbv zeta. pose proof (rd_pos _ Hr).
  destruct (PutBit_spec s (bit1 v) Hr) as [[? ->]|(_ & s1 & -> & H1)]; simpl; [left; split; [by left|lia]|].
  rewrite testbit_bit1 in H1. pose proof (ap_pos _ _ _ H1) as Hp. change (zlen [v]) with 1 in Hp. pose proof (ap_len _ _ _ H1) as Hl.
  destruct (Z.le_gt_cases (bpos s + 1 + 8 * Z.of_nat m) (blen s)) as [Hyes|Hno].
  - right. destruct (PutUInt_spec n (8 * Z.of_nat m) s1 (ap_ready _ _ _ H1)) as (s2 & -> & H2); [lia|lia|]. by exists s1, s2.
  - left. split; [|lia]. destruct Hroom as [|Hs]; [lia|].
    apply PutUInt_over; [apply H1|by apply (header_spare s s1 [v])|lia].
Qed.

Lemma put_dnum1 s n :
  ready s -> (bpos s + 33 <= blen s \/ spare s) -> 0 <= n < 2 ^ 32 ->
  let r := if n <=? USHRT_MAX then s ← PutBit0 s; PutUInt n 16 s else s ← PutBit1 s; PutUInt n 32 s in
  (r = Overrun \/ exists s2, r = Done s2 /\ past s2) /\ blen s < bpos s + 33 \/
  exists islong s1 s2, r = Done s2 /\
    appended s s1 [islong] /\ appended s1 s2 (bits_of (if islong then 32 else 16) n) /\ n < 2 ^ (if islong then 32 else 16).
Proof.
  intros Hr Hroom Hn. unfold USHRT_MAX. destruct (Z.leb_spec n 65535).
  - rewrite PutBit0_PutBit by done. change 0 with (bit1 false) at 1.
    destruct (put_sized s false n 2 Hr ltac:(destruct Hroom; [left; lia|by right])) as [[Hx ?]|(s1 & s2 & Hx & H1 & H2)]; [left; split; [exact Hx|lia]|].
    right. exists false, s1, s2. split; [exact Hx|]. split; [done|]. split; [done|lia].
  - change (PutBit1 s) with (PutBit (bit1 true) s).
    destruct (put_sized s true n 4 Hr ltac:(destruct Hroom; [left; lia|by right])) as [[Hx ?]|(s1 & s2 & Hx & H1 & H2)]; [left; split; [exact Hx|lia]|].
    right. exists true, s1, s2. split; [exact Hx|]. split; [done|]. split; [done|lia].
Qed.

Lemma choose_stream_spec s src tab numbits :
  readable src -> ready s -> numbits = blen src - bpos src -> 1 <= numbits < 2 ^ 31 -> tab_ok tab numbits ->
  (differs (rest src) = true -> bpos s + 34 <= blen s \/ spare s) ->
  let r := choose_stream s src numbits (ones (rest src)) tab in
  (r = Overrun \/ exists s' src', r = Done (s', src', ones (rest src')) /\ past s' /\ readable src' /\
                                 blen src' - bpos src' = numbits) /\ blen s < bpos s + 34 \/
  exists s' src', r = Done (s', src', ones (rest src')) /\
    readable src' /\ blen src' - bpos src' = numbits /\ ready s' /\ blen s' = blen s /\ bpos s <= bpos s' <= bpos s + 34 /\
    choice (rest src) s s' (rest src').
Proof.
  intros Hre Hr Hn Hb Ht Hroom. pose proof (re_pos _ Hre) as Hp. unfold choose_stream, Differ.
  destruct (Differ_loop_spec (Z.to_nat (blen src - bpos src)) 0 false (BS_Reset tab numbits 0) src Hre)
    as (diff & src1 & E & Ha & E1 & E2); [apply tab_ready; (done || lia)|lia|simpl; lia|lia|lia|].
  change (bit1 false) with 0 in E. rewrite E, Z.add_0_l. simpl. set (bits := rest src) in *.
  assert (zlen bits = numbits) as Hz by (unfold bits; rewrite zlen_rest; lia).
  unfold differs in Hroom. rewrite Hz in Hroom. destruct (Z.leb_spec (size_of (ones bits) numbits)
    (size_of (ones (differences false bits)) numbits + 1 + (if ones (differences false bits) <=? USHRT_MAX then 16 else 32))).
  - destruct (PutBit0_spec s Hr) as [[? ->]|(_ & s1 & -> & H1)]; [left; split; [by left|lia]|right]. simpl.
    pose proof (ap_pos _ _ _ H1) as Hp1. change (zlen [false]) with 1 in Hp1.
    assert (rest (SetPos src1 (bpos src)) = bits) as Hrest by (unfold rest, bits, rest; simpl; by rewrite E1, E2).
    exists s1, (SetPos src1 (bpos src)). rewrite Hrest. split; [done|].
    split; [destruct Hre; split; simpl; rewrite ?E1, ?E2; done|]. split; [simpl; lia|].
    split; [apply H1|]. split; [apply H1|]. split; [lia|]. by constructor.
  - specialize (Hroom eq_refl).
    destruct (PutBit1_spec s Hr) as [[? ->]|(_ & s1 & -> & H1)]; [left; split; [by left|lia]|]. simpl.
    pose proof (ap_pos _ _ _ H1) as Hp1. change (zlen [true]) with 1 in Hp1. pose proof (ap_len _ _ _ H1) as Hl1.
    pose proof (ones_bounds (differences false bits)) as Ho.
    assert (zlen (differences false bits) = numbits) as Hzd by (unfold zlen in *; by rewrite length_differences).
    destruct (rest_written (BS_Reset tab numbits 0) diff (differences false bits)) as (R1 & R2 & R3); [done|done|by rewrite Hzd|].
    assert (bpos s1 + 33 <= blen s1 \/ spare s1) as Hroom1.
    { destruct Hroom as [|Hs]; [left; lia|right; by apply (header_spare s s1 [true])]. }
    destruct (put_dnum1 s1 (ones (differences false bits)) (ap_ready _ _ _ H1) Hroom1 ltac:(lia))
      as [[[->|(s2 & -> & Hpast)] Hno]|(islong & s2 & s' & -> & H2 & H3 & H4)]; simpl.
    + left. split; [by left|lia].
    + left. split; [|lia]. right. exists s2, (BS_Reset (bbuf diff) (blen diff) 0). rewrite R2.
      split; [done|]. split; [done|]. split; [done|]. simpl in *. lia.
    + right. exists s', (BS_Reset (bbuf diff) (blen diff) 0). rewrite R2. split; [done|]. split; [done|].
      split; [simpl in *; lia|]. split; [apply H3|].
      pose proof (ap_pos _ _ _ H2) as Hp2. change (zlen [islong]) with 1 in Hp2.
      pose proof (ap_pos _ _ _ H3) as Hp3. rewrite zlen_bits_of in Hp3 by (destruct islong; lia).
      split; [rewrite (ap_len _ _ _ H3), (ap_len _ _ _ H2); apply H1|]. split; [destruct islong; lia|].
      by apply (choice_differ bits s s' s1 s2 islong).
Qed.

Lemma CompressData_past s src numbits :
  readable src -> past s -> numbits = blen src - bpos src -> 1 <= numbits < 2 ^ 31 ->
  CompressData s src numbits (ones (rest src)) = Done (CPRS_ERR_BUF, None).
Proof.
  intros Hre Hp Hn Hb. pose proof (re_pos _ Hre). unfold CompressData.
  destruct (GetSumTable_spec (rest src) (ones (rest src)) numbits eq_refl) as (sum & -> & Hc); [rewrite zlen_rest; lia|done|].
  simpl. by rewrite CompressBits_past.
Qed.

Lemma choice_appended bits s s' l : 0 <= bpos s -> choice bits s s' l -> exists vs, appended s s' vs.
Proof.
  intros H0 [H1|s1 s2 islong H1 H2 H3 H4]; [by exists [false]|]. exists ([true] ++ [islong] ++ bits_of (if islong then 32 else 16) (ones (differences false bits))).
  pose proof (ap_ready _ _ _ H1) as [? _ _ _ _]. apply (appended_app s s1); [done|done|]. apply (appended_app s1 s2); [lia|done|done].
Qed.

(** What [Decompress] does behind the version, on the output of a choice. *)
Lemma Decompress_choice bits s s1 s' l src dest tab numbits vs :
  0 <= bpos s -> choice bits s s1 l -> appended s1 s' vs -> holds_output s s' src -> zlen bits = numbits ->
  0 <= numbits < 2 ^ 31 -> tab_ok tab numbits -> ready dest -> blen dest - bpos dest = numbits ->
  (forall esrc d, holds_output s1 s' esrc -> ready d -> blen d - bpos d = numbits ->
     exists d', DecompressData d esrc numbits (ones l) true = Done (CPRS_SUCCESS, Some d') /\ appended d d' l) ->
  exists dest',
    try_buf (GetBit src) (fun '(isdiff, src) =>
      if negb (isdiff =? 0) then
        try_buf ('(islong, src) ← GetBit src; GetUInt 32 (if negb (islong =? 0) then 32 else 16) src)
          (fun '(num1, src) =>
        '(err, diff) ← DecompressData (BS_Reset tab numbits 0) src numbits num1 true;
        match err, diff with
        | CPRS_SUCCESS, Some diff =>
            try_buf (Integrt dest (BS_Reset (bbuf diff) (blen diff) 0)) (fun dest => Done (CPRS_SUCCESS, Some dest))
        | _, _ => Done (err, Some dest)
        end)
      else DecompressData dest src numbits (ones bits) true) = Done (CPRS_SUCCESS, Some dest') /\ appended dest dest' bits.
Proof.
  intros H0 Hch Ha Ho Hz Hn Ht Hd Hl Hdec. destruct Hch as [H1|s2 s3 islong H1 H2 H3 H4].
  - destruct (holds_output_bit s s1 s' false src vs H0 H1 Ha Ho) as (src' & -> & Ho'). simpl.
    exact (Hdec src' dest Ho' Hd Hl).
  - set (dnum1 := ones (differences false bits)) in *. set (k := if islong then 32 else 16) in *.
    pose proof (ap_ready _ _ _ H1) as [? _ _ _ _]. pose proof (ap_ready _ _ _ H2) as [? _ _ _ _].
    pose proof (appended_app s3 s1 s' _ _ ltac:(lia) H4 Ha) as Ha3.
    pose proof (appended_app s2 s3 s' _ _ ltac:(lia) H2 Ha3) as Ha2.
    destruct (holds_output_bit s s2 s' true src _ H0 H1 Ha2 Ho) as (src1 & -> & Ho1). simpl.
    destruct (holds_output_bit s2 s3 s' islong src1 _ ltac:(lia) H2 Ha3 Ho1) as (src2 & -> & Ho2). simpl.
    assert ((if negb (bit1 islong =? 0) then 32 else 16) = k) as -> by (by destruct islong).
    pose proof (ones_bounds (differences false bits)) as Hob. fold dnum1 in Hob.
    destruct (holds_output_uint s3 s1 s' dnum1 k src2 vs ltac:(lia)) as (src3 & -> & Ho3); try done.
    { unfold k. destruct islong; lia. }
    { lia. }
    simpl. destruct (Hdec src3 (BS_Reset tab numbits 0) Ho3) as (d' & -> & Had); [by apply tab_ready|simpl; lia|].
    simpl. assert (zlen (differences false bits) = numbits) as Hzd by (unfold zlen in *; by rewrite length_differences).
    destruct (rest_written (BS_Reset tab numbits 0) d' (differences false bits)) as (R1 & R2 & R3); [done|done|by rewrite Hzd|].
    set (diff := BS_Reset (bbuf d') (blen d') 0) in *. unfold Integrt.
    destruct (Integrt_loop_spec (Z.to_nat (blen diff - bpos diff)) false dest diff R1 Hd) as (dest' & E & Had').
    + lia.
    + rewrite R3, Hzd. simpl. lia.
    + change (bit1 false) with 0 in E. rewrite E. simpl. exists dest'. split; [done|]. by rewrite R2, sums_differences in Had'.
Qed.

Lemma Compress_spec s src tab numbits :
  readable src -> ready s -> numbits = blen src - bpos src -> 1 <= numbits < 2 ^ 31 -> tab_ok tab numbits ->
  (differs (rest src) = true -> bpos s + 36 <= blen s \/ spare s) ->
  (Compress s src numbits (ones (rest src)) tab = Done (CPRS_ERR_BUF, None) /\ blen s < bpos s + 17 * numbits + 38) \/
  exists s' vs, Compress s src numbits (ones (rest src)) tab = Done (CPRS_SUCCESS, Some s') /\ appended s s' vs /\
    forall esrc dest tab', holds_output s s' esrc -> tab_ok tab' numbits -> ready dest -> blen dest - bpos dest = numbits ->
      exists dest', Decompress dest esrc numbits (ones (rest src)) tab' = Done (CPRS_SUCCESS, Some dest') /\
        appended dest dest' (rest src).
Proof.
  intros Hre Hr Hn Hb Ht Hroom. pose proof (re_pos _ Hre) as Hp. unfold Compress.
  destruct (PutBit1_spec s Hr) as [[? ->]|(_ & s1 & -> & H1)]; [left; split; [done|lia]|]. simpl.
  pose proof (ap_pos _ _ _ H1) as Hp1. change (zlen [true]) with 1 in Hp1. pose proof (ap_len _ _ _ H1) as Hl1.
  destruct (PutBit0_spec s1 (ap_ready _ _ _ H1)) as [[? ->]|(_ & s2 & -> & H2)]; [left; split; [done|lia]|]. simpl.
  pose proof (ap_pos _ _ _ H2) as Hp2. change (zlen [false]) with 1 in Hp2. pose proof (ap_len _ _ _ H2) as Hl2.
  pose proof (rd_pos _ Hr) as Hp0.
  destruct (choose_stream_spec s2 src tab numbits Hre (ap_ready _ _ _ H2) Hn Hb Ht) as
    [[[->|(s3 & src' & -> & Hpast & Hre' & Hn')] ?]|(s3 & src' & -> & Hre' & Hn' & Hr3 & Hl3 & Hp3 & Hch)]; simpl.
  { intros [|Hs]%Hroom; [left; lia|right]. apply (header_spare s1 s2 [false]); [|done]. by apply (header_spare s s1 [true]). }
  { left. split; [done|lia]. }
  { left. split; [by apply CompressData_past|lia]. }
  destruct (CompressData_spec s3 src' numbits (ones (rest src')) Hre' Hr3 ltac:(lia) Hb eq_refl) as
    [[-> ?]|(s' & vs & -> & Ha & Hdec)]; [left; split; [done|lia]|right].
  destruct (choice_appended (rest src) s2 s3 (rest src') ltac:(lia) Hch) as (ws & Hw).
  pose proof (appended_app s2 s3 s' _ _ ltac:(lia) Hw Ha) as Ha2.
  pose proof (appended_app s1 s2 s' _ _ ltac:(lia) H2 Ha2) as Ha1.
  eexists s', _. split; [done|]. split; [apply (appended_app s s1 s' _ _ ltac:(lia) H1 Ha1)|].
  intros esrc dest tab' Ho Ht' Hd Hl. unfold Decompress, read_version.
  destruct (holds_output_bit s s1 s' true esrc _ ltac:(lia) H1 Ha1 Ho) as (e1 & -> & Ho1). simpl.
  destruct (holds_output_bit s1 s2 s' false e1 _ ltac:(lia) H2 Ha2 Ho1) as (e2 & -> & Ho2). simpl.
  apply (Decompress_choice (rest src) s2 s3 s' (rest src') e2 dest tab' numbits vs); try (done || lia).
  rewrite zlen_rest; lia.
Qed.

End Roundtrip.

Section Bytes.
Context `{FPULog} (dest src dest2 tab tab2 more : list Z) (len numbits : Z).
Hypotheses (Hn : 1 <= numbits < 2 ^ 31) (Hsrc : byte_list src /\ numbits <= 8 * zlen src)
  (Hdest : byte_list dest /\ 0 <= len <= zlen dest /\ len < 2 ^ 28)
  (Hdest2 : byte_list dest2 /\ numbits <= 8 * zlen dest2) (Hmore : byte_list more)
  (Htab : tab_ok tab numbits) (Htab2 : tab_ok tab2 numbits)
  (Hlen : differs (bits_from src numbits) = true -> 5 <= len \/ len < zlen dest).
Abbreviation num1 := (ones (bits_from src numbits)).

(** The array that decompression leaves: the bits, and behind them what was there. *)
Definition restored (res : list Z) : Prop :=
  byte_list res /\ zlen res = zlen dest2 /\ bits_from res numbits = bits_from src numbits /\
  forall i, numbits <= i -> bbit res i = bbit dest2 i.

Lemma Compress_bytes_spec :
  (Compress_bytes dest len src numbits num1 tab = Done (CPRS_ERR_BUF, None) /\ 8 * len < 17 * numbits + 38) \/
  exists out olen, Compress_bytes dest len src numbits num1 tab = Done (CPRS_SUCCESS, Some (out, olen)) /\
    byte_list out /\ zlen out = zlen dest /\ 0 <= olen <= len /\
    exists res, Decompress_bytes dest2 olen (take (Z.to_nat olen) out ++ more) numbits num1 tab2
                = Done (CPRS_SUCCESS, Some res) /\ restored res.
Proof.
  unfold Compress_bytes, Decompress_bytes. destruct Hdest as (Hdb & Hdl & Hl28).
  rewrite wrap_id by (unfold is_word; lia).
  assert (readable (BS_Reset src numbits 0)) as Hre by (split; simpl; [lia|lia|apply Hsrc]).
  assert (ready (BS_Reset dest (len * 8) 0)) as Hr by (split; simpl; (done || lia)).
  destruct (Compress_spec (BS_Reset dest (len * 8) 0) (BS_Reset src numbits 0) tab numbits Hre Hr) as
    [[E ?]|(s' & vs & E & Ha & Hdec)]; try (simpl; done || lia).
  { intros [|]%Hlen; [left; simpl; lia|right]. exists len. simpl. lia. }
  { left. change (rest (BS_Reset src numbits 0)) with (bits_from src numbits) in E. rewrite E. simpl in *. split; [done|lia]. }
  right. change (rest (BS_Reset src numbits 0)) with (bits_from src numbits) in *. rewrite E. simpl.
  pose proof (ap_pos _ _ _ Ha) as Hp. pose proof (ap_len _ _ _ Ha) as Hl. pose proof (ap_size _ _ _ Ha) as Hz. simpl in Hp, Hl, Hz.
  pose proof (zlen_nonneg vs). pose proof (ap_ready _ _ _ Ha) as [Hp' Hl' Hb' _ _].
  rewrite (wrap_id 32) by (unfold is_word; lia). pose proof (Z.div_mod (bpos s' + 7) 8 ltac:(lia)) as Hdm.
  pose proof (Z.mod_pos_bound (bpos s' + 7) 8 ltac:(lia)) as Hmb. set (olen := (bpos s' + 7) / 8) in *.
  exists (bbuf s'), olen. split; [done|]. split; [done|]. split; [done|]. split; [lia|]. rewrite wrap_id by (unfold is_word; lia).
  assert (zlen (take (Z.to_nat olen) (bbuf s')) = olen) as Hzt by (unfold zlen in *; rewrite length_take; lia).
  destruct (Hdec (BS_Reset (take (Z.to_nat olen) (bbuf s') ++ more) (olen * 8) 0) (BS_Reset dest2 numbits 0) tab2) as (d' & -> & Ha').
  - split; [split; simpl; [lia|rewrite zlen_app; pose proof (zlen_nonneg more); lia|apply Forall_app; split; [by apply Forall_take|done]]|].
    split; [done|]. split; [simpl; lia|]. intros i Hi. simpl. apply bbit_ext. rewrite znth_app_l, znth_take; [done| |].
    + destruct (div_mod_pos i ltac:(lia)). lia.
    + destruct (div_mod_pos i ltac:(lia)). lia.
  - done.
  - split; simpl; (lia || apply Hdest2).
  - simpl. lia.
  - simpl. exists (bbuf d'). split; [done|]. split; [apply Ha'|]. split; [apply (ap_size _ _ _ Ha')|]. split.
    + apply (output_bits _ _ _ _ Ha'); [done|]. apply zlen_bits_from. lia.
    + apply (ap_behind _ _ _ Ha').
Qed.

(** C9: bit strings survive compression: [Compress] either finds no room, and then the output has
    less than 17 bits for each input bit and a header, or succeeds with a length of at most [len]
    bytes from which [Decompress] rebuilds every bit, whatever is behind these bytes and whatever
    was in the output or in the temporary arrays before, and nothing behind the bits is touched.
    Where the differences are chosen, five bytes of output or a spare byte behind it are asked
    for: the number of their ones is written without looking for room.  The estimates of the
    choice play no role. *)
Theorem BitstreamCompressor_roundtrip :
  (Compress_bytes dest len src numbits num1 tab = Done (CPRS_ERR_BUF, None) /\ 8 * len < 17 * numbits + 38) \/
  exists out olen, Compress_bytes dest len src numbits num1 tab = Done (CPRS_SUCCESS, Some (out, olen)) /\
    byte_list out /\ zlen out = zlen dest /\ 0 <= olen <= len /\
    exists res, Decompress_bytes dest2 olen (take (Z.to_nat olen) out ++ more) numbits num1 tab2
                = Done (CPRS_SUCCESS, Some res) /\ restored res.
Proof. exact Compress_bytes_spec. Qed.
End Bytes.

Module IntegerLog.

(** Integers in place of the reals, with the binary logarithm. *)
#[export] Instance integers : FPULog := {|
  real := Z; real_of := fun x => x; radd := Z.add; rsub := Z.sub; rmul := Z.mul; rdiv := Z.div; rneg := Z.opp;
  rle := Z.leb; rlog := Z.log2; to_int := fun x => x
|}.

End IntegerLog.

Lemma BitstreamCompressor_roundtrip_witness :
  let H := IntegerLog.integers in
  let src := [0; 1; 255] in let dest := [9; 9; 9; 9; 9; 9] in let zero := [0; 0; 0] in let num1 := ones (bits_from src 20) in
  (Compress_bytes dest 5 src 20 num1 zero = Done (CPRS_ERR_BUF, None) /\ 8 * 5 < 17 * 20 + 38) \/
  exists out olen, Compress_bytes dest 5 src 20 num1 zero = Done (CPRS_SUCCESS, Some (out, olen)) /\
    byte_list out /\ zlen out = zlen dest /\ 0 <= olen <= 5 /\
    exists res, Decompress_bytes [1; 2; 3] olen (take (Z.to_nat olen) out ++ [77]) 20 num1 zero
                = Done (CPRS_SUCCESS, Some res) /\ restored src [1; 2; 3] 20 res.
Proof.
  apply (@BitstreamCompressor_roundtrip IntegerLog.integers [9; 9; 9; 9; 9; 9] [0; 1; 255] [1; 2; 3] [0; 0; 0] [0; 0; 0] [77] 5 20).
  - lia.
  - split; [repeat constructor; vm_compute; discriminate|vm_compute; discriminate].
  - split; [repeat constructor; vm_compute; discriminate|vm_compute; intuition discriminate].
  - split; [repeat constructor; vm_compute; discriminate|vm_compute; discriminate].
  - repeat constructor; vm_compute; discriminate.
  - split; [repeat constructor; vm_compute; discriminate|vm_compute; discriminate].
  - split; [repeat constructor; vm_compute; discriminate|vm_compute; discriminate].
  - intros _. left. lia.
Defined.

(** The run of the witness succeeds, in three bytes. *)
Example Compress_sample :
  @Compress_bytes IntegerLog.integers [9; 9; 9; 9; 9; 9] 5 [0; 1; 255] 20 (ones (bits_from [0; 1; 255] 20)) [0; 0; 0]
  = Done (CPRS_SUCCESS, Some ([65; 65; 6; 0; 0; 9], 3)).
Proof. vm_compute. reflexivity. Qed.

(** The header of the class promises that after compression [outpos] is the place in the word at
    the new [out] where the output ends, below 32.  The words moved over are subtracted from the
    old [outpos] instead: here 49 bits are written and [outpos] is -32, not 17. *)
Theorem Compress_words_outpos :
  exists out, @Compress_words IntegerLog.integers [255; 128; 15; 170; 204; 1] (replicate 16 0) 0 128 44
    (ones (bits_from [255; 128; 15; 170; 204; 1] 44)) (replicate 6 0) = Done (CPRS_SUCCESS, Some (out, 1, -32, 49)).
Proof. eexists. vm_compute. reflexivity. Qed.
