(* ===== verification/PackN.v ===== *)
(** * Numeric data packs (core/RCAttrPack.h, core/RCAttrPack.cpp, core/RCAttr_packN.cpp)

    A pack keeps up to 65536 values of a column and the set of its nulls, as an array or as a
    compressed buffer or both.  The array of nulls, 2048 unsigned ints, is the list of its 8192
    bytes, the least significant byte of an int first, as the processor has it: bit [i % 32] of
    int [i / 32] is bit [i % 8] of byte [i / 8].  The array of values is the list of its elements
    of the type [value_type].  A null pointer is [None].

    [junk k] is what a fresh array has, the argument [k] telling the arrays of an operation apart;
    allocation succeeds.  [BHASSERT] throws, as in the release build, where [assert] is void.
    After a failure of the bit compressor the byte behind its output is compared with a mark; the
    content of the output is not tracked there, so the comparison is left out.  So are locks,
    statistics and messages. *)

From stdpp Require Import relations.
From S2P Require Import Prelude BinTools ByteFile CprsBase QSort RangeCoder HashChain CprsDict NumFilters.
From S2P Require Import TopBitDict PartDict NumCompressor BitStream ArithCoder BitstreamCompressor.

(** ** Results *)

Inductive RCExc := DatabaseRC | InternalRC | SystemRC | AssertRC.

(** [PUndef] is an access outside an array. *)
Inductive pres (A : Type) : Type :=
| POk (a : A)
| PThrow (e : RCExc)
| PUndef.
Arguments POk {A} a.
Arguments PThrow {A} e.
Arguments PUndef {A}.

#[export] Instance pres_ret : MRet pres := @POk.
#[export] Instance pres_bind : MBind pres := fun A B f m =>
  match m with POk a => f a | PThrow e => PThrow e | PUndef => PUndef end.

Definition BHASSERT (c : bool) : pres unit := if c then POk tt else PThrow AssertRC.

(** ** State *)

Inductive ValueType := UCHAR | USHORT | UINT | UINT64.

#[export] Instance ValueType_eq_dec : EqDecision ValueType.
Proof. solve_decision. Defined.

(** The constants of the enumeration: the size of the type in bytes. *)
Definition vsize (t : ValueType) : Z :=
  match t with UCHAR => 1 | USHORT => 2 | UINT => 4 | UINT64 => 8 end.
Definition vbits (t : ValueType) : Z := 8 * vsize t.

Record PackN := mkPackN {
  no_obj : Z;
  no_nulls : Z;
  max_val : Z;
  bit_rate : Z;
  value_type : ValueType;
  data_full : option (list Z);
  nulls : option (list Z);
  compressed_buf : option (list Z);
  comp_buf_size : Z;
  optimal_mode : Z;
  compressed_up_to_date : bool;
  saved_up_to_date : bool;
  is_empty : bool;
  is_only_compressed : bool;
  previous_size : Z;
  inserting_mode : Z;
  no_compression : bool
}.

Definition with_data_full (p : PackN) (x : option (list Z)) : PackN :=
  mkPackN (no_obj p) (no_nulls p) (max_val p) (bit_rate p) (value_type p) x (nulls p) (compressed_buf p) (comp_buf_size p) (optimal_mode p) (compressed_up_to_date p) (saved_up_to_date p) (is_empty p) (is_only_compressed p) (previous_size p) 
    (inserting_mode p) (no_compression p).
Definition with_nulls (p : PackN) (x : option (list Z)) : PackN :=
  mkPackN (no_obj p) (no_nulls p) (max_val p) (bit_rate p) (value_type p) (data_full p) x (compressed_buf p) (comp_buf_size p) (optimal_mode p) (compressed_up_to_date p) (saved_up_to_date p) (is_empty p) (is_only_compressed p) (previous_size p) 
    (inserting_mode p) (no_compression p).
Definition with_compressed_buf (p : PackN) (x : option (list Z)) : PackN :=
  mkPackN (no_obj p) (no_nulls p) (max_val p) (bit_rate p) (value_type p) (data_full p) (nulls p) x (comp_buf_size p) (optimal_mode p) (compressed_up_to_date p) (saved_up_to_date p) (is_empty p) (is_only_compressed p) (previous_size p) 
    (inserting_mode p) (no_compression p).
Definition with_comp_buf_size (p : PackN) (x : Z) : PackN :=
  mkPackN (no_obj p) (no_nulls p) (max_val p) (bit_rate p) (value_type p) (data_full p) (nulls p) (compressed_buf p) x (optimal_mode p) (compressed_up_to_date p) (saved_up_to_date p) (is_empty p) (is_only_compressed p) (previous_size p) 
    (inserting_mode p) (no_compression p).
Definition with_optimal_mode (p : PackN) (x : Z) : PackN :=
  mkPackN (no_obj p) (no_nulls p) (max_val p) (bit_rate p) (value_type p) (data_full p) (nulls p) (compressed_buf p) (comp_buf_size p) x (compressed_up_to_date p) (saved_up_to_date p) (is_empty p) (is_only_compressed p) (previous_size p) 
    (inserting_mode p) (no_compression p).
Definition with_compressed_up_to_date (p : PackN) (x : bool) : PackN :=
  mkPackN (no_obj p) (no_nulls p) (max_val p) (bit_rate p) (value_type p) (data_full p) (nulls p) (compressed_buf p) (comp_buf_size p) (optimal_mode p) x (saved_up_to_date p) (is_empty p) (is_only_compressed p) (previous_size p) 
    (inserting_mode p) (no_compression p).
Definition with_saved_up_to_date (p : PackN) (x : bool) : PackN :=
  mkPackN (no_obj p) (no_nulls p) (max_val p) (bit_rate p) (value_type p) (data_full p) (nulls p) (compressed_buf p) (comp_buf_size p) (optimal_mode p) (compressed_up_to_date p) x (is_empty p) (is_only_compressed p) (previous_size p) 
    (inserting_mode p) (no_compression p).
Definition with_is_only_compressed (p : PackN) (x : bool) : PackN :=
  mkPackN (no_obj p) (no_nulls p) (max_val p) (bit_rate p) (value_type p) (data_full p) (nulls p) (compressed_buf p) (comp_buf_size p) (optimal_mode p) (compressed_up_to_date p) (saved_up_to_date p) (is_empty p) x (previous_size p) 
    (inserting_mode p) (no_compression p).
Definition with_previous_size (p : PackN) (x : Z) : PackN :=
  mkPackN (no_obj p) (no_nulls p) (max_val p) (bit_rate p) (value_type p) (data_full p) (nulls p) (compressed_buf p) (comp_buf_size p) (optimal_mode p) (compressed_up_to_date p) (saved_up_to_date p) (is_empty p) (is_only_compressed p) x 
    (inserting_mode p) (no_compression p).

(** ** The mode *)

Definition IsModeNullsCompressed (p : PackN) : bool := negb (Z.land (optimal_mode p) 0x10 =? 0).
Definition IsModeDataCompressed (p : PackN) : bool := negb (Z.land (optimal_mode p) 0x20 =? 0).
Definition IsModeCompressionApplied (p : PackN) : bool := IsModeDataCompressed p || IsModeNullsCompressed p.
Definition IsModeNoCompression (p : PackN) : bool := negb (Z.land (optimal_mode p) 0x40 =? 0).
Definition IsModeValid (p : PackN) : bool := (Z.land (optimal_mode p) 0xCF =? 0) || IsModeNoCompression p.

Definition ResetModeNoCompression (p : PackN) : PackN := with_optimal_mode p (Z.land (optimal_mode p) 0xBF).
Definition SetModeDataCompressed (p : PackN) : PackN :=
  let p := ResetModeNoCompression p in with_optimal_mode p (wrap 8 (Z.lor (optimal_mode p) 0x20)).
Definition SetModeNullsCompressed (p : PackN) : PackN :=
  let p := ResetModeNoCompression p in with_optimal_mode p (wrap 8 (Z.lor (optimal_mode p) 0x10)).
Definition ResetModeNullsCompressed (p : PackN) : PackN := with_optimal_mode p (Z.land (optimal_mode p) 0xEF).
Definition ResetModeDataCompressed (p : PackN) : PackN := with_optimal_mode p (Z.land (optimal_mode p) 0xDF).

(** ** Rows *)

Definition IsNull (p : PackN) (i : Z) : bool :=
  if no_nulls p =? no_obj p then true
  else match nulls p with None => false | Some b => bbit b i end.

Definition GetVal64 (p : PackN) (n : Z) : Z :=
  match data_full p with None => 0 | Some d => swrap 64 d.[0|n] end.

(** The conversion to the type of the array is part of the store. *)
Definition SetVal64 (p : PackN) (n val_code : Z) : PackN :=
  let p := with_compressed_up_to_date p false in
  match data_full p with
  | None => p
  | Some d => with_data_full p (Some d.[n <- wrap (vbits (value_type p)) val_code])
  end.

(** [nulls[i >> 5] |= 1 << (i % 32)] on the bytes of the array. *)
Definition SetNull (p : PackN) (i : Z) : PackN :=
  let b := match nulls p with None => replicate (Z.to_nat 8192) 0 | Some b => b end in
  let b := b.[Z.shiftr i 3 <- Z.lor b.[0|Z.shiftr i 3] (Z.shiftl 1 (i mod 8))] in
  mkPackN (no_obj p) (no_nulls p + 1) (max_val p) (bit_rate p) (value_type p) (data_full p) (Some b)
    (compressed_buf p) (comp_buf_size p) (optimal_mode p) (compressed_up_to_date p) (saved_up_to_date p)
    (is_empty p) (is_only_compressed p) (previous_size p) (inserting_mode p) (no_compression p).

Definition UpToDate (p : PackN) : bool * PackN :=
  let p := if compressed_up_to_date p then p else with_saved_up_to_date p false in
  (saved_up_to_date p, p).

Definition ShouldNotCompress (p : PackN) : bool :=
  no_compression p || ((inserting_mode p =? 1) && (no_obj p <? 0x10000)).

(** ** Creation *)

Definition ChooseValueType (bit_rate : Z) : ValueType :=
  if bit_rate <=? 8 then UCHAR
  else if bit_rate <=? 16 then USHORT
  else if bit_rate <=? 32 then UINT
  else UINT64.

(** The constructor, with that of the base class. *)
Definition AttrPackN_new (inserting_mode : Z) : PackN :=
  mkPackN 0 0 0 0 UCHAR None None None 0 0 false false true false 0 inserting_mode false.

Definition Destroy (p : PackN) : PackN :=
  mkPackN (no_obj p) (no_nulls p) (max_val p) (bit_rate p) (value_type p) None None None (comp_buf_size p)
    (optimal_mode p) (compressed_up_to_date p) (saved_up_to_date p) true (is_only_compressed p) (previous_size p)
    (inserting_mode p) (no_compression p).

Section Memory.
Context (junk : Z -> Z -> Z).

(** A fresh array of [n] elements of [w] bits. *)
Fixpoint alloc_from (k w i : Z) (n : nat) : list Z :=
  match n with O => [] | S m => wrap w (junk k i) :: alloc_from k w (i + 1) m end.

Definition alloc (k w n : Z) : list Z := alloc_from k w 0 (Z.to_nat n).

Definition Prepare (p : PackN) (new_no_obj new_max_val : Z) : PackN :=
  let rate := GetBitLen new_max_val in
  let vt := if rate =? 0 then UCHAR else ChooseValueType rate in
  let data := if negb (rate =? 0) && negb (new_no_obj =? 0)
              then Some (alloc 0 (vbits vt) new_no_obj) else None in
  mkPackN new_no_obj 0 new_max_val rate vt data None None 0 0 false false false
    (is_only_compressed p) (previous_size p) (inserting_mode p) (no_compression p).

(** The copy constructor, with that of the base class; [memcpy] copies the values in use. *)
Definition Clone (p : PackN) : PackN :=
  let data := match data_full p with
              | Some d => if no_obj p =? 0 then None else Some (take (Z.to_nat (no_obj p)) d)
              | None => None
              end in
  let comp := match compressed_buf p with
              | Some b => Some (take (Z.to_nat (comp_buf_size p)) b)
              | None => None
              end in
  mkPackN (no_obj p) (no_nulls p) (max_val p) (bit_rate p) (value_type p) data (nulls p) comp (comp_buf_size p)
    (optimal_mode p) (compressed_up_to_date p) (saved_up_to_date p) (is_empty p) (is_only_compressed p)
    (previous_size p) (inserting_mode p) (no_compression p).

(** ** Expansion *)

(** [for(i < no_obj) if(!IsNull(i)) values[i] = f(i)] *)
Definition fill (p : PackN) (f : Z -> Z) (values : list Z) : list Z :=
  foldl (fun v i => if IsNull p i then v else v.[i <- f i]) values (range 0 (no_obj p - 1)).

Definition InitValues (p : PackN) (vt : ValueType) (value : Z) (values : list Z) : list Z :=
  fill p (fun _ => wrap (vbits vt) value) values.

(** From the array [data] to [values]; in place, each element is read before it is written. *)
Definition CopyValues (p : PackN) (new_vt : ValueType) (data : list Z) (offset : Z) (values : list Z) : list Z :=
  fill p (fun i => wrap (vbits new_vt) (data.[0|i] + offset)) values.

(** [realloc]: the first elements are kept. *)
Definition rc_realloc (k w : Z) (old : option (list Z)) (n : Z) : list Z :=
  match old with
  | None => alloc k w n
  | Some d => take (Z.to_nat n) d ++ drop (length d) (alloc k w n)
  end.

(** The array, the bit rate and the type after the expansion. *)
Definition expand_data (p : PackN) (new_no_obj new_bit_rate offset : Z) : pres (option (list Z) * Z * ValueType) :=
  let new_vt := ChooseValueType new_bit_rate in
  if (0 <? new_bit_rate)
     && ((bit_rate p <? new_bit_rate) || (no_obj p <? new_no_obj) || negb (offset =? 0)) then
    let grown := if decide (value_type p = new_vt)
                 then if vsize new_vt * new_no_obj =? 0 then None
                      else Some (rc_realloc 0 (vbits new_vt) (data_full p) new_no_obj)
                 else Some (alloc 0 (vbits new_vt) new_no_obj) in
    match grown, data_full p with
    | None, _ => POk (None, new_bit_rate, new_vt)
    | Some g, Some d =>
        POk (Some (if bit_rate p =? 0 then InitValues p new_vt offset g else CopyValues p new_vt d offset g),
             new_bit_rate, new_vt)
    | Some g, None =>
        if bit_rate p =? 0 then POk (Some (InitValues p new_vt offset g), new_bit_rate, new_vt)
        else if no_obj p =? 0 then POk (Some g, new_bit_rate, new_vt) else PUndef
    end
  else POk (data_full p, bit_rate p, value_type p).

Definition Expand (p : PackN) (new_no_obj new_max_val offset : Z) : pres PackN :=
  _ ← BHASSERT (negb (is_only_compressed p));
  _ ← BHASSERT (no_obj p <=? new_no_obj);
  let saved := if max_val p <=? new_max_val then saved_up_to_date p else false in
  let maxv := if max_val p <=? new_max_val then new_max_val else max_val p in
  '(data, rate, vt) ← expand_data p new_no_obj (GetBitLen maxv) offset;
  let more := no_obj p <? new_no_obj in
  POk (mkPackN (if more then new_no_obj else no_obj p) (no_nulls p) maxv rate vt data (nulls p) (compressed_buf p)
         (comp_buf_size p) (optimal_mode p) (if more then false else compressed_up_to_date p) saved (is_empty p)
         (is_only_compressed p) (previous_size p) (inserting_mode p) (no_compression p)).

Definition StayCompressed (p : PackN) : pres PackN :=
  let p := if compressed_up_to_date p then p else with_saved_up_to_date p false in
  _ ← BHASSERT (match compressed_buf p with Some _ => compressed_up_to_date p | None => false end);
  POk (with_is_only_compressed (with_nulls (with_data_full p None) None) true).

(** ** Compression *)

Section Codec.
Context `{FPU} `{FPULog} (c0 c1 d0 c2 c3 d1 : Dict).

(** The values that are not null, in order. *)
Definition RemoveNulls (p : PackN) (data : list Z) : list Z :=
  if 0 <? no_nulls p then
    foldl (fun tmp i => if IsNull p i then tmp else tmp ++ [data.[0|i]]) [] (range 0 (no_obj p - 1))
  else take (Z.to_nat (no_obj p)) data.

(** The compressed values; the room is that of a copy and 20 bytes. *)
Definition RemoveNullsAndCompress (p : PackN) (data : list Z) (maxv : Z) : pres (list Z) :=
  let w := vbits (value_type p) in
  let n := no_obj p - no_nulls p in
  let tmp_cb_len := n * vsize (value_type p) + 20 in
  match CompressT w (ShouldNotCompress p) (filters w c0 c1 d0 c2 c3 d1) (alloc 1 w CPRS_MAXREC) (alloc 2 8 tmp_cb_len)
          tmp_cb_len (RemoveNulls p data) n (wrap w maxv) with
  | Ok (CPRS_SUCCESS, bytes) => POk bytes
  | Ok _ | Throw _ => PThrow InternalRC
  | Undef => PUndef
  end.

(** The greatest value that is not null. *)
Definition greatest (p : PackN) : Z :=
  match data_full p with
  | None => 0
  | Some _ => foldl (fun m o => if IsNull p o then m
                                else let cv := wrap64 (GetVal64 p o) in if m <? cv then cv else m)
                0 (range 0 (no_obj p - 1))
  end.

(** The bytes of the nulls, compressed unless they are not to be or there is no gain.  The byte
    [0xBA] behind the room is the guard the code checks after the compression: the compressor
    writes at most one byte behind its room, which is the one before the guard. *)
Definition CompressNulls (p : PackN) : pres (PackN * list Z) :=
  let null_buf_size := (no_obj p + 7) / 8 in
  match nulls p with
  | None => PUndef
  | Some b =>
      let plain := (ResetModeNullsCompressed p, take (Z.to_nat null_buf_size) b) in
      if ShouldNotCompress p then POk plain
      else
        match Compress_bytes ((alloc 3 8 (null_buf_size + 2)).[null_buf_size + 1 <- 0xBA]) null_buf_size
                b (no_obj p) (no_nulls p) (alloc 4 8 null_buf_size) with
        | Done (CPRS_SUCCESS, Some (out, len)) => POk (SetModeNullsCompressed p, take (Z.to_nat len) out)
        | Done (CPRS_ERR_BUF, _) => POk plain
        | Done _ => PThrow InternalRC
        | Overrun | Bad => PUndef
        end
  end.

Definition Compress (p : PackN) : pres PackN :=
  let p := SetModeDataCompressed p in
  let maxv := greatest p in
  tmp_comp_buffer ←
    (if maxv =? 0 then POk []
     else match data_full p with Some d => RemoveNullsAndCompress p d maxv | None => PUndef end);
  '(p, null_part) ←
    (if 0 <? no_nulls p then
       '(p, comp_null_buf) ← CompressNulls p;
       if 8192 <? zlen comp_null_buf then PThrow DatabaseRC
       else POk (p, bytes_le 2 (zlen comp_null_buf) ++ comp_null_buf)
     else POk (p, []));
  let buf := null_part ++ bytes_le 4 (zlen tmp_comp_buffer) ++ bytes_le 8 maxv ++ tmp_comp_buffer in
  POk (with_compressed_up_to_date (with_comp_buf_size (with_compressed_buf p (Some buf)) (zlen buf)) true).

(** ** Decompression *)

(** The loop from the last row: [d] and [s] are indices, [i] is the row. *)
Fixpoint spread (fuel : nat) (null : Z -> bool) (i d s : Z) (data : list Z) : option (list Z) :=
  if s <? d then
    match fuel with
    | O => None
    | S n =>
        if null i then spread n null (i - 1) (d - 1) s data
        else if in_array data s && in_array data d then spread n null (i - 1) (d - 1) (s - 1) data.[d <- data.[0|s]]
        else None
    end
  else Some data.

(** [cur_buf] is the buffer behind the nulls: the length, the greatest value and the data. *)
Definition DecompressAndInsertNulls (p : PackN) (data cur_buf : list Z) : pres (list Z) :=
  let w := vbits (value_type p) in
  let n := no_obj p - no_nulls p in
  match DecompressT w (filters w c0 c1 d0 c2 c3 d1) data (drop 12 cur_buf) (of_le (slice cur_buf 0 4)) n
          (wrap w (of_le (slice cur_buf 4 8))) with
  | Ok (CPRS_SUCCESS, vs) =>
      match spread (Z.to_nat (no_obj p)) (IsNull p) (no_obj p - 1) (no_obj p - 1) (n - 1)
              (vs ++ drop (length vs) data) with
      | Some d => POk d
      | None => PUndef
      end
  | Ok _ | Throw _ => PThrow DatabaseRC
  | Undef => PUndef
  end.

(** The nulls and the rest of the buffer. *)
Definition UncompressNulls (p : PackN) (buf : list Z) : pres (PackN * list Z) :=
  let b := match nulls p with None => alloc 3 8 8192 | Some b => b end in
  let b := if no_obj p <? 65536 then replicate (Z.to_nat 8192) 0 else b in
  let null_buf_size := of_le (slice buf 0 2) in
  if 8192 <? null_buf_size then PThrow DatabaseRC
  else
    b ← (if negb (IsModeNullsCompressed p)
         then POk (slice buf 2 null_buf_size ++ drop (Z.to_nat null_buf_size) b)
         else
           match Decompress_bytes b null_buf_size (drop 2 buf) (no_obj p) (no_nulls p) (alloc 4 8 ((no_obj p + 7) / 8)) with
           | Done (CPRS_SUCCESS, Some b) => POk b
           | Done _ => PThrow DatabaseRC
           | Overrun | Bad => PUndef
           end);
    POk (with_nulls p (Some b), drop (Z.to_nat (null_buf_size + 2)) buf).

(** The values: decompressed, or zeros. *)
Definition UncompressValues (p : PackN) (cur_buf : list Z) : pres PackN :=
  if negb (IsModeValid p) then PThrow DatabaseRC
  else if IsModeDataCompressed p && (0 <? bit_rate p) && negb (of_le (slice cur_buf 4 8) =? 0) then
    match data_full p with
    | None => PUndef
    | Some d => d ← DecompressAndInsertNulls p d cur_buf; POk (with_data_full p (Some d))
    end
  else if 0 <? bit_rate p then
    POk (foldl (fun p o => if IsNull p o then p else SetVal64 p o 0) p (range 0 (no_obj p - 1)))
  else POk p.

Definition Uncompress (p : PackN) : pres PackN :=
  let p := with_is_only_compressed p false in
  if IsModeNoCompression p then POk p
  else
    match compressed_buf p with
    | None => PUndef
    | Some buf =>
        let p := match data_full p with
                 | None => if (0 <? bit_rate p) && negb (vsize (value_type p) * no_obj p =? 0)
                           then with_data_full p (Some (alloc 0 (vbits (value_type p)) (no_obj p))) else p
                 | Some _ => p
                 end in
        '(p, cur_buf) ← (if 0 <? no_nulls p then UncompressNulls p buf else POk (p, buf));
        p ← UncompressValues p cur_buf;
        POk (with_comp_buf_size (with_compressed_buf (with_compressed_up_to_date p true) None) 0)
    end.

(** ** Files *)

Definition TotalSaveSize (p : PackN) : Z :=
  17 + (if IsModeCompressionApplied p then comp_buf_size p
        else (if no_nulls p =? 0 then 0 else (no_obj p + 7) / 8 + 2)
             + match data_full p with Some _ => vsize (value_type p) * no_obj p | None => 0 end).

Definition Save (p : PackN) (f : IBFile) : pres (PackN * IBFile) :=
  let p := SetModeDataCompressed p in
  p ← (match compressed_buf p with
       | Some _ => if compressed_up_to_date p then POk p else Compress p
       | None => Compress p
       end);
  let total_size := wrap32 (TotalSaveSize p) in
  let p := with_previous_size p total_size in
  let head := bytes_le 4 total_size ++ [optimal_mode p] ++ bytes_le 2 (no_obj p - 1) ++ bytes_le 2 (no_nulls p)
              ++ bytes_le 8 (max_val p) in
  let f := WriteExact f head in
  f ← (if IsModeNoCompression p then
         f ← (if no_nulls p =? 0 then POk f
              else match nulls p with
                   | Some b => POk (WriteExact f (take (Z.to_nat ((no_obj p + 7) / 8)) b))
                   | None => PUndef
                   end);
         POk (match data_full p with
              | Some d => WriteExact f (to_bytes (vbits (value_type p)) (take (Z.to_nat (no_obj p)) d))
              | None => f
              end)
       else match compressed_buf p with
            | Some b => POk (WriteExact f (take (Z.to_nat (comp_buf_size p)) b))
            | None => PUndef
            end);
  POk (with_saved_up_to_date p true, f).

Definition of_option {A : Type} (e : RCExc) (o : option A) : pres A :=
  match o with Some x => POk x | None => PThrow e end.

Definition LoadData (p : PackN) (f : IBFile) : pres (PackN * IBFile) :=
  '(head, f) ← of_option DatabaseRC (ReadExact f 17);
  let total_size := of_le (slice head 0 4) in
  let mode := head.[0|4] in
  let no_obj := of_le (slice head 5 2) + 1 in
  let no_nulls := of_le (slice head 7 2) in
  let max_val := of_le (slice head 9 8) in
  let rate := CalculateBinSize64 max_val in
  let vt := ChooseValueType rate in
  let loaded := fun data nulls comp size current =>
    mkPackN no_obj no_nulls max_val rate vt data nulls comp size mode current true false
      (is_only_compressed p) total_size (inserting_mode p) (no_compression p) in
  if IsModeNoCompression (loaded None None None 0 false) then
    '(nulls, f) ←
      (if no_nulls =? 0 then POk (None, f)
       else
         '(bs, f) ← of_option DatabaseRC (ReadExact f ((no_obj + 7) / 8));
         let b := if no_obj <? 65536 then replicate (Z.to_nat 8192) 0 else alloc 3 8 8192 in
         POk (Some (bs ++ drop (length bs) b), f));
    '(data, f) ←
      (if (0 <? rate) && negb (vsize vt * no_obj =? 0) then
         '(bs, f) ← of_option DatabaseRC (ReadExact f (vsize vt * no_obj));
         POk (Some (from_bytes (vbits vt) bs no_obj), f)
       else POk (None, f));
    POk (loaded data nulls None 0 false, f)
  else if total_size <? 17 then PThrow DatabaseRC
  else
    '(bs, f) ← of_option DatabaseRC (ReadExact f (total_size - 17));
    POk (loaded None None (Some (bs ++ alloc 5 8 1)) (total_size - 17) true, f).

End Codec.
End Memory.

(** ** Well-formed packs *)

Definition null_row (p : PackN) (i : Z) : bool := match nulls p with None => false | Some b => bbit b i end.

(** The modes in use: flags 0x10, 0x20 and 0x40. *)
Definition mode_ok (m : Z) : Prop := In m [0x00; 0x10; 0x20; 0x30; 0x40; 0x50; 0x60; 0x70].

(** The array of nulls has [n] ones among the rows and none behind. *)
Definition nulls_ok (b : list Z) (rows n : Z) : Prop :=
  byte_list b /\ zlen b = 8192 /\ ones (bits_from b rows) = n /\ forall i, rows <= i -> bbit b i = false.

Record WF (p : PackN) : Prop := {
  wf_obj : 1 <= no_obj p <= 65536;
  wf_nulls : match nulls p with None => no_nulls p = 0 | Some b => nulls_ok b (no_obj p) (no_nulls p) end;
  wf_max : is_word 64 (max_val p);
  wf_rate : bit_rate p = GetBitLen (max_val p);
  wf_type : value_type p = ChooseValueType (bit_rate p);
  wf_data : match data_full p with
            | None => bit_rate p = 0
            | Some d => 0 < bit_rate p /\ zlen d = no_obj p /\ Forall (is_word (vbits (value_type p))) d
            end;
  wf_mode : mode_ok (optimal_mode p)
}.

Lemma vbits_elem t : elem_type (vbits t).
Proof. unfold elem_type. destruct t; vm_compute; tauto. Qed.

Lemma vbits_sizeof t : sizeof_T (vbits t) = vsize t.
Proof. by destruct t. Qed.

Lemma vbits_range t : 8 <= vbits t <= 64 /\ 1 <= vsize t <= 8 /\ vbits t = 8 * vsize t.
Proof. destruct t; vm_compute; intuition discriminate. Qed.

(** The type has room for the bit rate. *)
Lemma ChooseValueType_fits r : r <= 64 -> r <= vbits (ChooseValueType r).
Proof. intros Hr. unfold ChooseValueType. repeat case_cmp; unfold vbits, vsize; lia. Qed.

Lemma ones_app l1 l2 : ones (l1 ++ l2) = ones l1 + ones l2.
Proof. induction l1 as [|b l IH]; simpl; [done|]. lia. Qed.

Lemma nulls_count p : WF p -> 0 <= no_nulls p <= no_obj p.
Proof.
  intros [Ho Hn _ _ _ _ _]. destruct (nulls p) as [b|]; [|lia]. destruct Hn as (_ & _ & <- & _).
  pose proof (ones_bounds (bits_from b (no_obj p))). rewrite zlen_bits_from in H by lia. done.
Qed.

(** When all rows are null the array says so too. *)
Lemma IsNull_row p i : WF p -> 0 <= i < no_obj p -> IsNull p i = null_row p i.
Proof.
  intros [Ho Hn _ _ _ _ _] Hi. unfold IsNull, null_row. destruct (Z.eqb_spec (no_nulls p) (no_obj p)) as [E|]; [|done].
  destruct (nulls p) as [b|]; [|lia]. destruct Hn as (_ & _ & Hc & _).
  destruct (ones_In (bits_from b (no_obj p))) as [_ Hf]. rewrite zlen_bits_from in Hf by lia.
  destruct (bbit b i) eqn:Hb; [done|exfalso]. enough (ones (bits_from b (no_obj p)) < no_obj p) by lia. apply Hf.
  rewrite <- Hb. unfold bits_from. apply in_map, range_In. lia.
Qed.

(** ** Rows that are not null *)

Definition keep_rows (null : Z -> bool) (a b : Z) : list Z := List.filter (fun i => negb (null i)) (range a b).

(** The place of row [r] among the values. *)
Definition rank (null : Z -> bool) (r : Z) : Z := zlen (keep_rows null 0 (r - 1)).

Lemma keep_rows_app null a b c : a <= b + 1 -> b <= c -> keep_rows null a c = keep_rows null a b ++ keep_rows null (b + 1) c.
Proof. intros. unfold keep_rows. by rewrite (range_app a b c), List.filter_app by lia. Qed.

Lemma rank_step null r : 0 <= r -> rank null (r + 1) = rank null r + (if null r then 0 else 1).
Proof.
  intros Hr. unfold rank. replace (r + 1 - 1) with r by lia. rewrite (keep_rows_app null 0 (r - 1) r) by lia.
  replace (r - 1 + 1) with r by lia. rewrite zlen_app. f_equal. unfold keep_rows.
  rewrite range_cons, range_nil by lia. simpl. by destruct (null r).
Qed.

Lemma rank_0 null : rank null 0 = 0.
Proof. unfold rank, keep_rows. by rewrite range_nil by lia. Qed.

Lemma rank_bounds null (r : Z) : 0 <= r -> 0 <= rank null r <= r.
Proof.
  intros Hr. rewrite <- (Z2Nat.id r) by done. induction (Z.to_nat r) as [|n IH]; [by rewrite rank_0|].
  replace (Z.of_nat (S n)) with (Z.of_nat n + 1) by lia. rewrite rank_step by lia. destruct (null _); lia.
Qed.

Lemma rank_mono null a b : 0 <= a <= b -> rank null a <= rank null b.
Proof.
  intros Hab. replace b with (a + Z.of_nat (Z.to_nat (b - a))) by lia. induction (Z.to_nat (b - a)) as [|n IH]; [by rewrite Z.add_0_r|].
  replace (a + Z.of_nat (S n)) with (a + Z.of_nat n + 1) by lia. rewrite rank_step by lia. destruct (null _); lia.
Qed.

Lemma rank_null_count b n : 0 <= n -> rank (bbit b) n = n - ones (bits_from b n).
Proof.
  intros Hn. rewrite <- (Z2Nat.id n) by done. induction (Z.to_nat n) as [|k IH]; [by rewrite rank_0|].
  replace (Z.of_nat (S k)) with (Z.of_nat k + 1) by lia. rewrite rank_step, IH by lia.
  unfold bits_from. replace (Z.of_nat k + 1 - 1) with (Z.of_nat k - 1 + 1) by lia. rewrite range_snoc by lia.
  rewrite map_app, ones_app. simpl. replace (Z.of_nat k - 1 + 1) with (Z.of_nat k) by lia.
  destruct (bbit b (Z.of_nat k)); unfold bit1; lia.
Qed.

Lemma rank_ext f g n : (forall i, 0 <= i < n -> f i = g i) -> rank f n = rank g n.
Proof.
  intros E. unfold rank, keep_rows. f_equal. apply filter_ext_in. intros i Hi%range_In. by rewrite E by lia.
Qed.

(** The value of a row is at its rank. *)
Lemma znth_keep_rows null (g : Z -> Z) n r :
  0 <= r < n -> null r = false -> (map g (keep_rows null 0 (n - 1))).[0|rank null r] = g r.
Proof.
  intros Hr Hn. rewrite (keep_rows_app null 0 (r - 1) (n - 1)) by lia. replace (r - 1 + 1) with r by lia.
  rewrite map_app. pose proof (zlen_nonneg (keep_rows null 0 (r - 1))).
  assert (zlen (map g (keep_rows null 0 (r - 1))) = rank null r) as Hz by (unfold zlen; by rewrite length_map).
  rewrite znth_app_r by lia. rewrite Hz, Z.sub_diag. unfold keep_rows at 1. rewrite range_cons by lia. simpl. by rewrite Hn.
Qed.

Lemma foldl_keep (null : Z -> bool) (g : Z -> Z) (l acc : list Z) :
  foldl (fun (tmp : list Z) (i : Z) => if null i then tmp else tmp ++ [g i]) acc l = acc ++ map g (List.filter (fun i => negb (null i)) l).
Proof.
  revert acc. induction l as [|x l IH]; intros acc; simpl; [by rewrite app_nil_r|]. rewrite IH.
  destruct (null x); simpl; [done|]. by rewrite <- app_assoc.
Qed.

(** The rows are counted by the null flags. *)
Lemma rank_rows p : WF p -> rank (IsNull p) (no_obj p) = no_obj p - no_nulls p.
Proof.
  intros Hp. rewrite (rank_ext _ (null_row p)) by (intros; by apply IsNull_row). destruct Hp as [Ho Hn _ _ _ _ _].
  unfold null_row. destruct (nulls p) as [b|].
  - destruct Hn as (_ & _ & <- & _). apply rank_null_count. lia.
  - rewrite Hn. rewrite <- (Z2Nat.id (no_obj p)) by lia. induction (Z.to_nat (no_obj p)) as [|k IH]; [by rewrite rank_0|].
    replace (Z.of_nat (S k)) with (Z.of_nat k + 1) by lia. rewrite rank_step, IH by lia. lia.
Qed.

(** What [RemoveNulls] keeps. *)
Definition kept (p : PackN) (d : list Z) : list Z := map (fun i => d.[0|i]) (keep_rows (IsNull p) 0 (no_obj p - 1)).

Lemma RemoveNulls_kept p d : WF p -> zlen d = no_obj p -> RemoveNulls p d = kept p d.
Proof.
  intros Hp Hd. unfold RemoveNulls, kept. destruct (Z.ltb_spec 0 (no_nulls p)) as [Hlt|Hge].
  - exact (foldl_keep (IsNull p) (fun i => d.[0|i]) (range 0 (no_obj p - 1)) []).
  - pose proof (nulls_count p Hp). pose proof (rank_rows p Hp) as Hr. rewrite take_ge by (unfold zlen in Hd; lia).
    assert (keep_rows (IsNull p) 0 (no_obj p - 1) = range 0 (no_obj p - 1)) as ->.
    { unfold keep_rows. rewrite forallb_filter_id; [done|]. apply forallb_forall. intros i Hi%range_In.
      rewrite IsNull_row by (done || lia). unfold null_row. destruct Hp as [_ Hn _ _ _ _ _].
      destruct (nulls p) as [b|] eqn:Eb; [|done]. destruct Hn as (_ & _ & Hc & _).
      destruct (ones_In (bits_from b (no_obj p))) as [Ht _]. destruct (bbit b i) eqn:Hb; [exfalso|done].
      enough (0 < ones (bits_from b (no_obj p))) by lia. apply Ht. rewrite <- Hb. unfold bits_from. apply in_map, range_In. lia. }
    rewrite <- (map_znth_range 0 d) at 1. by rewrite Hd.
Qed.

Lemma zlen_kept p d : WF p -> zlen (kept p d) = no_obj p - no_nulls p.
Proof. intros Hp. rewrite <- rank_rows by done. unfold kept, rank, zlen. by rewrite length_map. Qed.

Lemma rank_diff null a b : 0 <= a <= b -> rank null b - rank null a <= b - a.
Proof.
  intros Hab. replace b with (a + Z.of_nat (Z.to_nat (b - a))) by lia. induction (Z.to_nat (b - a)) as [|n IH]; [rewrite Z.add_0_r; lia|].
  replace (a + Z.of_nat (S n)) with (a + Z.of_nat n + 1) by lia. rewrite rank_step by lia. destruct (null _); lia.
Qed.

(** The loop moves every value to its row: the values in front of [s] are still to be moved, the
    rows behind [d] have theirs. *)
Lemma spread_spec (P : Z -> Prop) null vs fuel : forall d s data,
  d + 1 <= Z.of_nat fuel -> -1 <= d < zlen data -> s + 1 = rank null (d + 1) -> Forall P data ->
  (forall k, 0 <= k <= s -> data.[0|k] = vs.[0|k]) ->
  (forall r, d < r < zlen data -> null r = false -> data.[0|r] = vs.[0|rank null r]) ->
  exists data', spread fuel null d d s data = Some data' /\ zlen data' = zlen data /\ Forall P data' /\
    forall r, 0 <= r < zlen data -> null r = false -> data'.[0|r] = vs.[0|rank null r].
Proof.
  assert (forall d s data, -1 <= d < zlen data -> s + 1 = rank null (d + 1) -> d <= s ->
    (forall k, 0 <= k <= s -> data.[0|k] = vs.[0|k]) ->
    (forall r, d < r < zlen data -> null r = false -> data.[0|r] = vs.[0|rank null r]) ->
    forall r, 0 <= r < zlen data -> null r = false -> data.[0|r] = vs.[0|rank null r]) as Hend.
  { intros d s data Hd Hs Hds Hlo Hhi r Hr Hn. destruct (Z.lt_ge_cases d r); [by apply Hhi; [lia|]|].
    pose proof (rank_bounds null r ltac:(lia)). pose proof (rank_diff null r (d + 1) ltac:(lia)).
    rewrite Hlo by lia. f_equal. lia. }
  induction fuel as [|n IH]; intros d s data Hf Hd Hs HP Hlo Hhi; cbn [spread];
    destruct (Z.ltb_spec s d) as [Hlt|Hge];
    try (exists data; split; [done|]; split; [done|]; split; [done|]; by apply (Hend d s)).
  { pose proof (rank_bounds null (d + 1) ltac:(lia)). lia. }
  pose proof (rank_bounds null (d + 1) ltac:(lia)). assert (0 <= d) by lia. rewrite rank_step in Hs by lia.
  pose proof (rank_bounds null d ltac:(lia)). destruct (null d) eqn:Hnd; rewrite ?Hnd in Hs.
  - apply IH; try done; try lia; [rewrite Z.sub_add; lia|].
    intros r Hr Hnr. destruct (Z.eq_dec r d) as [->|]; [congruence|]. apply Hhi; [lia|done].
  - rewrite !in_array_true by lia. simpl.
    destruct (IH (d - 1) (s - 1) data.[d <- data.[0|s]]) as (data' & E & Hz & HP' & Hr); rewrite ?zlen_zupd in *; try lia.
    + rewrite !Z.sub_add. lia.
    + apply zupd_Forall; [done|]. apply znth_Forall; [done|lia].
    + intros k Hk. rewrite znth_zupd_ne by lia. apply Hlo. lia.
    + intros r Hr Hnr. destruct (Z.eq_dec r d) as [->|].
      * rewrite znth_zupd_eq by lia. rewrite Hlo by lia. f_equal. lia.
      * rewrite znth_zupd_ne by lia. apply Hhi; [lia|done].
    + exists data'. done.
Qed.

(** ** The greatest value *)

Lemma GetVal64_word p d i :
  data_full p = Some d -> Forall (is_word (vbits (value_type p))) d -> 0 <= i < zlen d -> wrap64 (GetVal64 p i) = d.[0|i].
Proof.
  intros E Hd Hi. unfold GetVal64. rewrite E. pose proof (vbits_range (value_type p)) as [Hv _].
  assert (is_word (vbits (value_type p)) d.[0|i]) as Hw by (by apply (znth_Forall (is_word _))).
  assert (is_word 64 d.[0|i]) as Hw64.
  { unfold is_word in *. pose proof (Z.pow_le_mono_r 2 (vbits (value_type p)) 64). lia. }
  unfold swrap. fold (wrap 64 d.[0|i]). rewrite (wrap_id 64 d.[0|i]) by done. case_cmp; [by apply wrap_id|].
  unfold wrap. rewrite <- (Z.mod_add _ 1 (2 ^ 64)) by lia. replace (d.[0|i] - 2 ^ 64 + 1 * 2 ^ 64) with d.[0|i] by lia. by apply wrap_id.
Qed.

Lemma greatest_spec p d :
  WF p -> data_full p = Some d ->
  is_word (vbits (value_type p)) (greatest p) /\
  (forall i, 0 <= i < no_obj p -> IsNull p i = false -> d.[0|i] <= greatest p) /\
  (0 < greatest p -> no_nulls p < no_obj p).
Proof.
  intros Hp E. pose proof Hp as [Ho _ _ _ _ Hd _]. rewrite E in Hd. destruct Hd as (_ & Hz & Hw). unfold greatest. rewrite E.
  pose proof (vbits_range (value_type p)) as [Hv _].
  assert (is_word (vbits (value_type p)) 0) as H0 by (unfold is_word; pose proof (Z.pow_pos_nonneg 2 (vbits (value_type p))); lia).
  set (f := fun m o => _). set (m := foldl f 0 _).
  assert (is_word (vbits (value_type p)) m /\ (forall i, 0 <= i < no_obj p - 1 + 1 -> IsNull p i = false -> d.[0|i] <= m) /\
          (0 < m -> exists i, 0 <= i < no_obj p /\ IsNull p i = false)) as (H1 & H2 & H3).
  { unfold m. apply (foldl_range f (fun n m => is_word (vbits (value_type p)) m /\
      (forall i, 0 <= i < n -> IsNull p i = false -> d.[0|i] <= m) /\ (0 < m -> exists i, 0 <= i < no_obj p /\ IsNull p i = false))).
    - lia.
    - split; [done|]. split; [intros; lia|intros; lia].
    - intros i m' Hi (A1 & A2 & A3). unfold f. destruct (IsNull p i) eqn:Hn.
      + split; [done|]. split; [|done]. intros j Hj Hnj. apply A2; [|done]. destruct (Z.eq_dec j i); [congruence|lia].
      + rewrite (GetVal64_word p d i E Hw ltac:(lia)). destruct (Z.ltb_spec m' d.[0|i]).
        * split; [apply (znth_Forall (is_word _)); [done|lia]|]. split; [|intros _; exists i; split; [lia|done]].
          intros j Hj Hnj. destruct (Z.eq_dec j i) as [->|]; [lia|]. specialize (A2 j ltac:(lia) Hnj). lia.
        * split; [done|]. split; [|done]. intros j Hj Hnj. destruct (Z.eq_dec j i) as [->|]; [lia|]. apply A2; [lia|done]. }
  split; [done|]. split; [intros i Hi; apply H2; lia|]. intros (i & Hi & Hn)%H3.
  pose proof (rank_rows p Hp). pose proof (rank_mono (IsNull p) (i + 1) (no_obj p) ltac:(lia)).
  rewrite rank_step, Hn in H4 by lia. pose proof (rank_bounds (IsNull p) i). lia.
Qed.

Lemma alloc_spec junk k w n : 0 <= n -> 0 <= w -> zlen (alloc junk k w n) = n /\ Forall (is_word w) (alloc junk k w n).
Proof.
  intros Hn Hw. unfold alloc.
  enough (forall m i, length (alloc_from junk k w i m) = m /\ Forall (is_word w) (alloc_from junk k w i m)) as H.
  { destruct (H (Z.to_nat n) 0) as [Hl Hf]. split; [unfold zlen; lia|done]. }
  induction m as [|m IH]; intros i; simpl; [by split|]. destruct (IH (i + 1)) as [Hl Hf].
  split; [by rewrite Hl|]. constructor; [by apply (wrap_word w)|done].
Qed.

(** ** Fields of a buffer *)

Lemma slice_head (a b : list Z) n : zlen a = n -> slice (a ++ b) 0 n = a.
Proof. intros <-. unfold slice, zlen. simpl. rewrite drop_0, Nat2Z.id. apply take_app_length. Qed.

Lemma slice_skip (a b : list Z) k n : zlen a = k -> slice (a ++ b) k n = slice b 0 n.
Proof. intros <-. unfold slice, zlen. rewrite Nat2Z.id, drop_app_length. by rewrite drop_0. Qed.

Lemma zlen_bytes_le n x : zlen (bytes_le n x) = Z.of_nat n.
Proof. unfold zlen. by rewrite length_bytes_le. Qed.

Lemma bytes_le_bytes n x : byte_list (bytes_le n x).
Proof. revert x. induction n as [|n IH]; intros x; simpl; constructor; [apply Z.mod_pos_bound; lia|apply IH]. Qed.

(** The values of a buffer. *)
Definition values_part (maxv : Z) (bytes : list Z) : list Z := bytes_le 4 (zlen bytes) ++ bytes_le 8 maxv ++ bytes.

Lemma values_part_fields maxv bytes more :
  is_word 64 maxv -> zlen bytes < 2 ^ 20 ->
  let buf := values_part maxv bytes ++ more in
  of_le (slice buf 0 4) = zlen bytes /\ of_le (slice buf 4 8) = maxv /\ drop 12 buf = bytes ++ more.
Proof.
  intros Hm Hz buf. unfold buf, values_part. rewrite <- !app_assoc. pose proof (zlen_nonneg bytes).
  rewrite slice_head, slice_skip, slice_head by (by rewrite zlen_bytes_le).
  split; [apply (of_bytes_le_word 4); unfold is_word; lia|]. split; [by apply (of_bytes_le_word 8)|].
  rewrite app_assoc. by rewrite drop_app_length' by (rewrite length_app, !length_bytes_le; done).
Qed.

Section Values.
Context (junk : Z -> Z -> Z) `{FPU} `{!FPULaws _} (c0 c1 d0 c2 c3 d1 : Dict).

Lemma kept_words p d :
  WF p -> zlen d = no_obj p -> Forall (is_word (vbits (value_type p))) d ->
  Forall (is_word (vbits (value_type p))) (kept p d).
Proof.
  intros Hp Hz Hd. unfold kept. apply Forall_map, Forall_forall. intros i Hi%list_elem_of_In%List.filter_In.
  destruct Hi as [Hi%range_In _]. apply (znth_Forall (is_word _)); [done|lia].
Qed.

(** The values are compressed, and decompressed from the bytes whatever is around. *)
Lemma RemoveNullsAndCompress_spec p d :
  WF p -> data_full p = Some d -> 0 < greatest p ->
  exists bytes, RemoveNullsAndCompress junk c0 c1 d0 c2 c3 d1 p d (greatest p) = POk bytes /\
    Forall is_byte bytes /\ zlen bytes < 2 ^ 20 /\
    forall dest more, no_obj p <= zlen dest -> Forall is_byte more ->
      let w := vbits (value_type p) in
      DecompressT w (filters w c0 c1 d0 c2 c3 d1) dest (bytes ++ more) (zlen bytes) (no_obj p - no_nulls p)
        (wrap w (greatest p)) = Ok (CPRS_SUCCESS, kept p d).
Proof.
  intros Hp E Hg. pose proof Hp as [Ho _ _ _ _ Hd _]. rewrite E in Hd. destruct Hd as (_ & Hz & Hw).
  destruct (greatest_spec p d Hp E) as (Hgw & Hgm & Hnn). specialize (Hnn Hg). pose proof (nulls_count p Hp) as Hnc.
  unfold RemoveNullsAndCompress. rewrite RemoveNulls_kept by done. set (w := vbits (value_type p)) in *.
  set (n := no_obj p - no_nulls p) in *. set (len := n * vsize (value_type p) + 20).
  pose proof (vbits_range (value_type p)) as (Hv & Hs & _). fold w in Hv.
  assert (Forall (fun x => 0 <= x <= greatest p) (kept p d)) as Hk.
  { apply Forall_map, Forall_forall. intros i (Hi & Hni)%list_elem_of_In%List.filter_In. apply range_In in Hi.
    apply negb_true_iff in Hni. pose proof (znth_Forall (is_word w) 0 d i Hw ltac:(lia)) as [? _]. split; [done|]. apply Hgm; [lia|done]. }
  rewrite (wrap_id w (greatest p)) by done.
  destruct (alloc_spec junk 1 w CPRS_MAXREC ltac:(unfold CPRS_MAXREC; lia) ltac:(lia)) as [Ha1 _].
  assert (0 <= len) as Hl0 by (unfold len, n; nia).
  destruct (alloc_spec junk 2 8 len Hl0 ltac:(lia)) as [Ha2 Hb2].
  assert (forall dest more, no_obj p <= zlen dest -> Forall is_byte more ->
    exists bytes, CompressT w (ShouldNotCompress p) (filters w c0 c1 d0 c2 c3 d1) (alloc junk 1 w CPRS_MAXREC) (alloc junk 2 8 len) len
        (kept p d) n (greatest p) = Ok (CPRS_SUCCESS, bytes) /\ zlen bytes <= len /\ Forall is_byte bytes /\
      DecompressT w (filters w c0 c1 d0 c2 c3 d1) dest (bytes ++ more) (zlen bytes) n (greatest p) = Ok (CPRS_SUCCESS, kept p d)) as Hrt.
  { intros dest more Hdest Hmore.
    assert (1 <= n <= CPRS_MAXREC) as Hn by (change CPRS_MAXREC with 65536; unfold n; lia).
    assert (0 < greatest p < 2 ^ w) as Hg2 by (unfold is_word in Hgw; lia).
    assert (len <= zlen (alloc junk 2 8 len)) as Ha2' by lia.
    assert (n <= zlen dest) as Hdest' by lia.
    destruct (CompressT_roundtrip w (ShouldNotCompress p) c0 c1 d0 c2 c3 d1 _ _ dest (kept p d) more len n (greatest p)
      (vbits_elem _) Hn (zlen_kept p d Hp) Hg2 Hk Ha1 Hb2 Ha2' Hdest' Hmore) as [[_ Hno]|Hyes]; [exfalso|exact Hyes].
    unfold w in Hno. rewrite vbits_sizeof in Hno. unfold len in Hno. nia. }
  destruct (Hrt d [] ltac:(lia) ltac:(constructor)) as (bytes & E0 & Hbl & Hbb & _). rewrite E0. exists bytes.
  split; [done|]. split; [done|]. split; [unfold len, n in Hbl; nia|]. intros dest more Hdest Hmore.
  destruct (Hrt dest more Hdest Hmore) as (bytes' & E1 & _ & _ & Hdec). rewrite E0 in E1. injection E1 as <-. exact Hdec.
Qed.

(** Two packs with the same rows null. *)
Definition same_header (p q : PackN) : Prop :=
  no_obj q = no_obj p /\ no_nulls q = no_nulls p /\ max_val q = max_val p /\ bit_rate q = bit_rate p /\
  value_type q = value_type p.

Definition same_nulls (p q : PackN) : Prop := forall i, 0 <= i < no_obj p -> IsNull q i = IsNull p i.

(** Every value gets back to its row. *)
Lemma DecompressAndInsertNulls_spec p q d bytes data more :
  WF p -> data_full p = Some d -> same_header p q -> same_nulls p q ->
  zlen data = no_obj p -> Forall (is_word (vbits (value_type p))) data -> Forall is_byte more -> zlen bytes < 2 ^ 20 ->
  (let w := vbits (value_type p) in
   DecompressT w (filters w c0 c1 d0 c2 c3 d1) data (bytes ++ more) (zlen bytes) (no_obj p - no_nulls p)
     (wrap w (greatest p)) = Ok (CPRS_SUCCESS, kept p d)) ->
  exists d', DecompressAndInsertNulls c0 c1 d0 c2 c3 d1 q data (values_part (greatest p) bytes ++ more) = POk d' /\
    zlen d' = no_obj p /\ Forall (is_word (vbits (value_type p))) d' /\
    forall r, 0 <= r < no_obj p -> IsNull p r = false -> d'.[0|r] = d.[0|r].
Proof.
  intros Hp E (H1 & H2 & _ & _ & H5) Hsn Hzd Hdw Hmore Hbl Hdec. pose proof Hp as [Ho _ _ _ _ Hd _]. rewrite E in Hd.
  destruct Hd as (_ & Hz & Hw). destruct (greatest_spec p d Hp E) as (Hgw & _).
  assert (is_word 64 (greatest p)) as Hg64.
  { pose proof (vbits_range (value_type p)). unfold is_word in *. pose proof (Z.pow_le_mono_r 2 (vbits (value_type p)) 64). lia. }
  destruct (values_part_fields (greatest p) bytes more Hg64 Hbl) as (F1 & F2 & F3).
  unfold DecompressAndInsertNulls. rewrite H1, H2, H5, F1, F2, F3. cbv zeta in Hdec. rewrite Hdec.
  pose proof (zlen_kept p d Hp) as Hzk. pose proof (nulls_count p Hp) as Hnc. pose proof (rank_rows p Hp) as Hrr.
  set (data1 := kept p d ++ drop (length (kept p d)) data).
  assert (zlen data1 = no_obj p) as Hz1 by (unfold data1, zlen in *; rewrite length_app, length_drop; lia).
  destruct (spread_spec (is_word (vbits (value_type p))) (IsNull q) (kept p d) (Z.to_nat (no_obj p)) (no_obj p - 1)
    (no_obj p - no_nulls p - 1) data1) as (d' & -> & Hz' & Hw' & Hr).
  - lia.
  - lia.
  - rewrite !Z.sub_add. rewrite (rank_ext _ (IsNull p)) by exact Hsn. lia.
  - apply Forall_app. split; [by apply kept_words|by apply Forall_drop].
  - intros k Hk. unfold data1. apply znth_app_l. lia.
  - lia.
  - exists d'. split; [done|]. split; [lia|]. split; [done|]. intros r Hri Hn.
    rewrite Hr by (rewrite ?Hsn; (done || lia)).
    rewrite (rank_ext _ (IsNull p)) by (intros; apply Hsn; lia). by apply znth_keep_rows.
Qed.
End Values.

(** ** The nulls *)

Definition nulls_part (comp : list Z) : list Z := bytes_le 2 (zlen comp) ++ comp.

Lemma bits_from_inj b c n i : bits_from b n = bits_from c n -> 0 <= i < n -> bbit b i = bbit c i.
Proof. intros E Hi. rewrite <- (znth_bits_from b n), <- (znth_bits_from c n) by done. by rewrite E. Qed.

Lemma bits_from_ext b c n : (forall i, 0 <= i < n -> bbit b i = bbit c i) -> bits_from b n = bits_from c n.
Proof. intros E. unfold bits_from. apply map_ext_in. intros i Hi%range_In. apply E. lia. Qed.

(** The array that decompression starts from. *)
Definition blank (junk : Z -> Z -> Z) (q : PackN) : list Z :=
  let b := match nulls q with None => alloc junk 3 8 8192 | Some b => b end in
  if no_obj q <? 65536 then replicate (Z.to_nat 8192) 0 else b.

Definition array_ok (q : PackN) : Prop := match nulls q with None => True | Some b => byte_list b /\ zlen b = 8192 end.

Lemma bbit_beyond b i : 8 * zlen b <= i -> bbit b i = false.
Proof.
  intros Hi. unfold bbit. pose proof (zlen_nonneg b). unfold znth. destruct (Z.ltb_spec (i / 8) 0); [apply Z.bits_0|].
  rewrite nth_overflow; [apply Z.bits_0|]. destruct (div_mod_pos i ltac:(lia)). unfold zlen in *. lia.
Qed.

Lemma blank_spec junk q :
  array_ok q -> 1 <= no_obj q <= 65536 ->
  byte_list (blank junk q) /\ zlen (blank junk q) = 8192 /\ forall i, 8 * ((no_obj q + 7) / 8) <= i -> bbit (blank junk q) i = false.
Proof.
  intros Ha Ho. unfold blank. set (b := match nulls q with None => _ | Some _ => _ end).
  assert (byte_list b /\ zlen b = 8192) as [Hb Hz].
  { unfold b, array_ok in *. destruct (nulls q); [done|]. destruct (alloc_spec junk 3 8 8192) as [? ?]; [lia|lia|]. by split. }
  destruct (Z.ltb_spec (no_obj q) 65536).
  - split; [apply Forall_replicate; unfold is_word; lia|]. split; [apply zlen_replicate; lia|]. intros i Hi.
    unfold bbit. destruct (Z.lt_ge_cases (i / 8) 8192); [|by apply bbit_beyond; rewrite zlen_replicate by lia;
      pose proof (div_mod_pos i) as Hdm; pose proof (Z.div_pos (no_obj q + 7) 8); lia].
    rewrite znth_replicate; [apply Z.bits_0|]. pose proof (Z.div_pos (no_obj q + 7) 8). pose proof (Z.div_pos i 8). lia.
  - split; [done|]. split; [done|]. intros i Hi. apply bbit_beyond. rewrite Hz. replace (no_obj q) with 65536 in Hi by lia.
    change ((65536 + 7) / 8) with 8192 in Hi. lia.
Qed.

Lemma nulls_part_fields comp more :
  zlen comp <= 8192 ->
  let buf := nulls_part comp ++ more in
  of_le (slice buf 0 2) = zlen comp /\ slice buf 2 (zlen comp) = comp /\ drop 2 buf = comp ++ more /\
  drop (Z.to_nat (zlen comp + 2)) buf = more.
Proof.
  intros Hz buf. unfold buf, nulls_part. rewrite <- !app_assoc. pose proof (zlen_nonneg comp).
  rewrite slice_head, slice_skip, slice_head by (by rewrite ?zlen_bytes_le).
  split; [apply (of_bytes_le_word 2); unfold is_word; lia|]. split; [done|].
  split; [by rewrite drop_app_length' by (by rewrite length_bytes_le)|].
  rewrite app_assoc. apply drop_app_length'. rewrite length_app, length_bytes_le. unfold zlen. lia.
Qed.

(** The plain bytes of the nulls. *)
Lemma plain_nulls b n blank_b :
  byte_list b -> zlen b = 8192 -> 1 <= n <= 65536 -> (forall i, n <= i -> bbit b i = false) ->
  byte_list blank_b -> zlen blank_b = 8192 -> (forall i, 8 * ((n + 7) / 8) <= i -> bbit blank_b i = false) ->
  let size := (n + 7) / 8 in
  let b' := take (Z.to_nat size) b ++ drop (Z.to_nat size) blank_b in
  byte_list b' /\ zlen b' = 8192 /\ bits_from b' n = bits_from b n /\ forall i, n <= i -> bbit b' i = false.
Proof.
  intros Hb Hz Hn Hb0 Hk Hkz Hk0 size b'.
  pose proof (Z.div_mod (n + 7) 8 ltac:(lia)) as Hdm. pose proof (Z.mod_pos_bound (n + 7) 8 ltac:(lia)) as Hm.
  fold size in Hdm, Hk0. assert (zlen (take (Z.to_nat size) b) = size) as Hzt by (unfold zlen in *; rewrite length_take; lia).
  assert (forall i, 0 <= i -> bbit b' i = if i <? 8 * size then bbit b i else bbit blank_b i) as Hbit.
  { intros i Hi. destruct (div_mod_pos i Hi) as (E1 & E2 & E3). unfold bbit, b'. destruct (Z.ltb_spec i (8 * size)).
    - rewrite znth_app_l by lia. by rewrite znth_take by lia.
    - rewrite znth_app_r by lia. rewrite znth_drop by lia. do 2 f_equal. lia. }
  split; [apply Forall_app; split; [by apply Forall_take|by apply Forall_drop]|].
  split; [unfold b'; rewrite zlen_app; unfold zlen in *; rewrite length_drop; lia|]. split.
  - apply bits_from_ext. intros i Hi. rewrite Hbit by lia. destruct (Z.ltb_spec i (8 * size)); [done|lia].
  - intros i Hi. rewrite Hbit by lia. destruct (Z.ltb_spec i (8 * size)); [by apply Hb0|apply Hk0; lia].
Qed.

Section Nulls.
Context (junk : Z -> Z -> Z) `{FPULog}.

(** What decompression of the nulls must give. *)
Definition nulls_restored (b : list Z) (n : Z) (b' : list Z) : Prop :=
  byte_list b' /\ zlen b' = 8192 /\ bits_from b' n = bits_from b n /\ forall i, n <= i -> bbit b' i = false.

Definition restores_nulls (p : PackN) (b comp : list Z) (mode : Z) : Prop :=
  forall junk' q more, same_header p q -> optimal_mode q = mode -> array_ok q -> byte_list more ->
    exists b', UncompressNulls junk' q (nulls_part comp ++ more) = POk (with_nulls q (Some b'), more) /\
      nulls_restored b (no_obj p) b'.

Lemma restores_plain p b :
  WF p -> nulls p = Some b -> restores_nulls p b (take (Z.to_nat ((no_obj p + 7) / 8)) b) 0x20.
Proof.
  intros Hp Eb junk' q more (H1 & H2 & _) Hm Ha Hmore. pose proof Hp as [Ho Hn _ _ _ _ _]. rewrite Eb in Hn.
  destruct Hn as (Hby & Hz & _ & Hb0). set (size := (no_obj p + 7) / 8). set (comp := take _ b).
  pose proof (Z.div_mod (no_obj p + 7) 8 ltac:(lia)) as Hdm. pose proof (Z.mod_pos_bound (no_obj p + 7) 8 ltac:(lia)) as Hmb.
  fold size in Hdm. assert (zlen comp = size) as Hzc by (unfold comp, zlen in *; rewrite length_take; lia).
  destruct (nulls_part_fields comp more ltac:(lia)) as (F1 & F2 & _ & F4). unfold UncompressNulls.
  rewrite F1. destruct (Z.ltb_spec 8192 (zlen comp)); [lia|]. unfold IsModeNullsCompressed. rewrite Hm.
  change (negb (negb (Z.land 0x20 0x10 =? 0))) with true. cbv iota zeta. cbn [mbind pres_bind]. rewrite F2, F4. fold (blank junk' q).
  eexists. split; [done|]. rewrite Hzc. destruct (blank_spec junk' q Ha ltac:(lia)) as (K1 & K2 & K3). rewrite H1 in K3.
  apply (plain_nulls b (no_obj p) (blank junk' q) Hby Hz Ho Hb0 K1 K2 K3).
Qed.

Lemma restores_compressed p b out olen :
  WF p -> nulls p = Some b -> zlen out <= 8194 -> 0 <= olen <= 8192 -> olen <= zlen out -> 
  (forall dest2 tab2 more, byte_list dest2 /\ no_obj p <= 8 * zlen dest2 -> tab_ok tab2 (no_obj p) -> byte_list more ->
    exists res, Decompress_bytes dest2 olen (take (Z.to_nat olen) out ++ more) (no_obj p) (no_nulls p) tab2
                = Done (CPRS_SUCCESS, Some res) /\ restored b dest2 (no_obj p) res) ->
  restores_nulls p b (take (Z.to_nat olen) out) 0x30.
Proof.
  intros Hp Eb Ho8 Hol Holen Hdec junk' q more (H1 & H2 & _) Hm Ha Hmore. pose proof Hp as [Ho Hn _ _ _ _ _].
  set (comp := take (Z.to_nat olen) out) in *. assert (zlen comp = olen) as Hzc by (unfold comp, zlen in *; rewrite length_take; lia).
  destruct (nulls_part_fields comp more ltac:(lia)) as (F1 & _ & F3 & F4). unfold UncompressNulls.
  rewrite F1. destruct (Z.ltb_spec 8192 (zlen comp)); [lia|]. unfold IsModeNullsCompressed. rewrite Hm.
  change (negb (negb (Z.land 0x30 0x10 =? 0))) with false. cbv iota zeta. rewrite F3, F4, Hzc, H1, H2.
  destruct (blank_spec junk' q Ha ltac:(lia)) as (K1 & K2 & K3). rewrite H1 in K3.
  pose proof (Z.div_mod (no_obj p + 7) 8 ltac:(lia)) as Hdm. pose proof (Z.mod_pos_bound (no_obj p + 7) 8 ltac:(lia)) as Hmb.
  assert (blank junk' q = (let b0 := match nulls q with None => alloc junk' 3 8 8192 | Some b0 => b0 end in
    if no_obj p <? 65536 then replicate (Z.to_nat 8192) 0 else b0)) as Ebl by (unfold blank; by rewrite H1).
  cbv zeta in Ebl. rewrite <- Ebl.
  destruct (alloc_spec junk' 4 8 ((no_obj p + 7) / 8)) as [A1 A2]; [lia|lia|].
  destruct (Hdec (blank junk' q) (alloc junk' 4 8 ((no_obj p + 7) / 8)) more) as (res & -> & R1 & R2 & R3 & R4);
    [split; [done|lia]|split; [done|lia]|done|].
  simpl. exists res. split; [done|]. split; [done|]. split; [lia|]. split; [done|].
  intros i Hi. rewrite R4 by done. destruct (Z.lt_ge_cases i (8 * ((no_obj p + 7) / 8))) as [Hlt|]; [|by apply K3].
  unfold blank. rewrite H1. destruct (Z.ltb_spec (no_obj p) 65536) as [|H65].
  - destruct (div_mod_pos i ltac:(lia)) as (? & ? & ?). unfold bbit. rewrite znth_replicate by lia. apply Z.bits_0.
  - replace (no_obj p) with 65536 in Hlt by lia. change ((65536 + 7) / 8) with 8192 in Hlt. lia.
Qed.
End Nulls.

(** The modes of a compressed pack. *)
Definition packed_mode (m : Z) : Prop := m = 0x20 \/ m = 0x30.

Lemma WF_with_mode p m : WF p -> mode_ok m -> WF (with_optimal_mode p m).
Proof. intros [? ? ? ? ? ? ?] Hm. by split. Qed.

Lemma packed_mode_ok m : packed_mode m -> mode_ok m.
Proof. intros [->| ->]; vm_compute; tauto. Qed.

Lemma SetModeDataCompressed_spec p :
  mode_ok (optimal_mode p) -> exists m, SetModeDataCompressed p = with_optimal_mode p m /\ packed_mode m.
Proof.
  intros Hm. eexists. split; [reflexivity|]. simpl. unfold mode_ok in Hm. simpl in Hm.
  destruct Hm as [<-|[<-|[<-|[<-|[<-|[<-|[<-|[<-|[]]]]]]]]]; vm_compute; tauto.
Qed.

Lemma CompressNulls_spec junk `{FPULog} p b :
  WF p -> nulls p = Some b -> packed_mode (optimal_mode p) ->
  exists m comp, CompressNulls junk p = POk (with_optimal_mode p m, comp) /\ packed_mode m /\
    byte_list comp /\ zlen comp <= 8192 /\ restores_nulls p b comp m.
Proof.
  intros Hp Eb Hm. pose proof Hp as [Ho Hn _ _ _ _ _]. rewrite Eb in Hn. destruct Hn as (Hby & Hz & Hc & Hb0).
  set (size := (no_obj p + 7) / 8).
  pose proof (Z.div_mod (no_obj p + 7) 8 ltac:(lia)) as Hdm. pose proof (Z.mod_pos_bound (no_obj p + 7) 8 ltac:(lia)) as Hmb.
  fold size in Hdm.
  assert (exists m comp, POk (ResetModeNullsCompressed p, take (Z.to_nat size) b) = POk (with_optimal_mode p m, comp) /\
    packed_mode m /\ byte_list comp /\ zlen comp <= 8192 /\ restores_nulls p b comp m) as Hplain.
  { exists 0x20, (take (Z.to_nat size) b). split.
    - unfold ResetModeNullsCompressed. by destruct Hm as [->| ->].
    - split; [by left|]. split; [by apply Forall_take|]. split; [unfold zlen in *; rewrite length_take; lia|].
      by apply restores_plain. }
  unfold CompressNulls. rewrite Eb. fold size. destruct (ShouldNotCompress p); [exact Hplain|].
  set (dest := (alloc junk 3 8 (size + 2)).[size + 1 <- 0xBA]).
  destruct (alloc_spec junk 3 8 (size + 2)) as [A1 A2]; [lia|lia|].
  destruct (alloc_spec junk 4 8 size) as [B1 B2]; [lia|lia|].
  assert (zlen dest = size + 2) as Hzd by (unfold dest; by rewrite zlen_zupd).
  assert (byte_list dest) as Hbd by (apply zupd_Forall; [done|unfold is_word; lia]).
  assert (tab_ok (alloc junk 4 8 size) (no_obj p)) as Htab by (split; [done|lia]).
  assert (1 <= no_obj p < 2 ^ 31) as Hn31 by lia. assert (byte_list b /\ no_obj p <= 8 * zlen b) as Hsrc by (split; [done|lia]).
  assert (byte_list dest /\ 0 <= size <= zlen dest /\ size < 2 ^ 28) as Hdest by (split; [done|lia]).
  assert (size < zlen dest) as Hspare by lia.
  pose proof (fun dest2 tab2 more Hd2 Ht2 Hmo => Compress_bytes_spec dest b dest2 (alloc junk 4 8 size) tab2 more size
    (no_obj p) Hn31 Hsrc Hdest Hd2 Hmo Htab Ht2 (fun _ => or_intror Hspare)) as Hcomp.
  rewrite Hc in Hcomp.
  destruct (Hcomp b (alloc junk 4 8 size) [] Hsrc Htab ltac:(constructor))
    as [[-> _]|(out & olen & E0 & Hob & Hoz & Hol & _)]; [exact Hplain|]. rewrite E0.
  exists 0x30, (take (Z.to_nat olen) out). split; [unfold SetModeNullsCompressed, ResetModeNoCompression; simpl; by destruct Hm as [->| ->]|].
  split; [by right|]. split; [by apply Forall_take|]. split; [unfold zlen in *; rewrite length_take; lia|].
  apply restores_compressed; try done; try lia.
  intros dest2 tab2 more Hd2 Ht2 Hmo. destruct (Hcomp dest2 tab2 more Hd2 Ht2 Hmo) as [[E1 _]|(out' & olen' & E1 & _ & _ & _ & Hres)];
    rewrite E0 in E1; [done|]. by injection E1 as <- <-.
Qed.

(** ** The whole pack *)

(** The same rows: null or with the same value. *)
Definition same_pack (p q : PackN) : Prop :=
  same_header p q /\ same_nulls p q /\
  forall i, 0 <= i < no_obj p -> IsNull p i = false -> GetVal64 q i = GetVal64 p i.

(** Packs whose arrays are to be filled. *)
Lemma IsNull_restored p q b b' :
  WF p -> nulls p = Some b -> same_header p q -> nulls_restored b (no_obj p) b' -> same_nulls p (with_nulls q (Some b')).
Proof.
  intros Hp Eb (H1 & H2 & _) (_ & _ & Hbits & _) i Hi. unfold IsNull. simpl. rewrite H1, H2, Eb.
  by rewrite (bits_from_inj b' b (no_obj p) i).
Qed.

Lemma no_nulls_false p i : WF p -> no_nulls p = 0 -> 0 <= i < no_obj p -> IsNull p i = false.
Proof.
  intros Hp H0 Hi. pose proof (rank_rows p Hp) as Hr. pose proof (rank_diff (IsNull p) (i + 1) (no_obj p) ltac:(lia)) as H1.
  pose proof (rank_bounds (IsNull p) i ltac:(lia)). rewrite rank_step in H1 by lia. destruct (IsNull p i); [lia|done].
Qed.

(** Zeros in the rows that are not null. *)
Lemma set_zeros p d :
  data_full p = Some d -> zlen d = no_obj p -> 1 <= no_obj p -> Forall (is_word (vbits (value_type p))) d ->
  exists c d', foldl (fun p o => if IsNull p o then p else SetVal64 p o 0) p (range 0 (no_obj p - 1))
      = with_data_full (with_compressed_up_to_date p c) (Some d') /\
    zlen d' = no_obj p /\ Forall (is_word (vbits (value_type p))) d' /\
    forall i, 0 <= i < no_obj p -> IsNull p i = false -> d'.[0|i] = 0.
Proof.
  intros E Hz Ho Hw. set (f := fun p o => _). set (r := foldl f p _).
  assert (is_word (vbits (value_type p)) 0) as H0.
  { pose proof (vbits_range (value_type p)). unfold is_word. pose proof (Z.pow_pos_nonneg 2 (vbits (value_type p))). lia. }
  enough (exists c d', r = with_data_full (with_compressed_up_to_date p c) (Some d') /\
    zlen d' = no_obj p /\ Forall (is_word (vbits (value_type p))) d' /\
    forall i, 0 <= i < no_obj p - 1 + 1 -> IsNull p i = false -> d'.[0|i] = 0) as (c & d' & ? & ? & ? & Hi).
  { exists c, d'. split; [done|]. split; [done|]. split; [done|]. intros i ?. apply Hi. lia. }
  unfold r. apply (foldl_range f (fun n r => exists c d', r = with_data_full (with_compressed_up_to_date p c) (Some d') /\
    zlen d' = no_obj p /\ Forall (is_word (vbits (value_type p))) d' /\
    forall i, 0 <= i < n -> IsNull p i = false -> d'.[0|i] = 0)).
  - lia.
  - exists (compressed_up_to_date p), d. split; [by destruct p; simpl in *; subst|]. split; [done|]. split; [done|]. lia.
  - intros i r' Hi (c & d' & -> & Hz' & Hw' & Hd'). unfold f.
    change (IsNull (with_data_full (with_compressed_up_to_date p c) (Some d')) i) with (IsNull p i).
    destruct (IsNull p i) eqn:Hn.
    + exists c, d'. split; [done|]. split; [done|]. split; [done|]. intros j Hj Hnj. apply Hd'; [|done].
      destruct (Z.eq_dec j i); [congruence|lia].
    + exists false, (d'.[i <- wrap (vbits (value_type p)) 0]). split; [done|]. split; [by rewrite zlen_zupd|].
      rewrite wrap_id by done. split; [by apply zupd_Forall|]. intros j Hj Hnj. destruct (Z.eq_dec j i) as [->|].
      * apply znth_zupd_eq. lia.
      * rewrite znth_zupd_ne by lia. apply Hd'; [lia|done].
Qed.

Section Whole.
Context `{FPU} `{!FPULaws _} `{FPULog} (c0 c1 d0 c2 c3 d1 : Dict).

(** The buffer behind the nulls, as [UncompressValues] sees it. *)
Definition values_for (p : PackN) (part : list Z) : Prop :=
  match data_full p with
  | None => part = values_part 0 []
  | Some d => exists bytes, part = values_part (greatest p) bytes /\ zlen bytes < 2 ^ 20 /\ byte_list bytes /\
      (0 < greatest p -> forall dest more, no_obj p <= zlen dest -> Forall is_byte more ->
        let w := vbits (value_type p) in
        DecompressT w (filters w c0 c1 d0 c2 c3 d1) dest (bytes ++ more) (zlen bytes) (no_obj p - no_nulls p)
          (wrap w (greatest p)) = Ok (CPRS_SUCCESS, kept p d))
  end.

(** The values come back. *)
Lemma UncompressValues_spec p q part more :
  WF p -> same_header p q -> same_nulls p q -> packed_mode (optimal_mode q) -> values_for p part -> byte_list more ->
  match data_full q with
  | None => bit_rate p = 0
  | Some d => 0 < bit_rate p /\ zlen d = no_obj p /\ Forall (is_word (vbits (value_type p))) d
  end ->
  exists c od, UncompressValues c0 c1 d0 c2 c3 d1 q (part ++ more) = POk (with_data_full (with_compressed_up_to_date q c) od) /\
    match od with
    | None => bit_rate p = 0
    | Some d => 0 < bit_rate p /\ zlen d = no_obj p /\ Forall (is_word (vbits (value_type p))) d
    end /\
    forall i, 0 <= i < no_obj p -> IsNull p i = false ->
      GetVal64 (with_data_full q od) i = GetVal64 p i.
Proof.
  intros Hp Hh Hsn Hm Hv Hmore Hq. pose proof Hh as (H1 & H2 & H3 & H4 & H5). pose proof Hp as [Ho _ _ _ _ Hd _].
  assert (IsModeValid q = true /\ IsModeDataCompressed q = true) as [M1 M2].
  { unfold IsModeValid, IsModeNoCompression, IsModeDataCompressed. by destruct Hm as [->| ->]. }
  unfold UncompressValues. rewrite M1, M2, H4. cbn [negb andb]. destruct (data_full q) as [dq|] eqn:Eq.
  - destruct Hq as (Hr & Hzq & Hwq). destruct (Z.ltb_spec 0 (bit_rate p)); [|lia]. cbn [andb].
    destruct (data_full p) as [d|] eqn:E; [|lia]. destruct Hd as (_ & Hz & Hw).
    unfold values_for in Hv. rewrite E in Hv. destruct Hv as (bytes & -> & Hbl & Hbb & Hdec).
    destruct (greatest_spec p d Hp E) as (Hgw & Hgm & _).
    assert (is_word 64 (greatest p)) as Hg64.
    { pose proof (vbits_range (value_type p)). unfold is_word in *. pose proof (Z.pow_le_mono_r 2 (vbits (value_type p)) 64). lia. }
    destruct (values_part_fields (greatest p) bytes more Hg64 Hbl) as (_ & -> & _).
    destruct (Z.eqb_spec (greatest p) 0) as [G0|G0]; cbn [negb].
    + destruct (set_zeros q dq Eq) as (c & d' & -> & Hz' & Hw' & Hzero); rewrite ?H1, ?H5; try done; try lia.
      exists c, (Some d'). split; [done|]. rewrite H1, H5 in *. split; [done|]. intros i Hi Hn.
      unfold GetVal64. simpl. rewrite E, Hzero by (rewrite ?Hsn; done). f_equal. specialize (Hgm i Hi Hn).
      pose proof (znth_Forall (is_word _) 0 d i Hw ltac:(lia)) as [? _]. lia.
    + assert (0 < greatest p) as Hg by (unfold is_word in Hgw; lia).
      destruct (DecompressAndInsertNulls_spec c0 c1 d0 c2 c3 d1 p q d bytes dq more Hp E Hh Hsn Hzq Hwq Hmore Hbl) as (d' & -> & Hz' & Hw' & Hd').
      { apply Hdec; (done || lia). }
      simpl. exists (compressed_up_to_date q), (Some d'). split; [by destruct q; simpl in *; subst|]. split; [done|].
      intros i Hi Hn. unfold GetVal64. simpl. by rewrite E, Hd'.
  - rewrite Hq. cbn [andb]. exists (compressed_up_to_date q), None. split; [by destruct q; simpl in *; subst|]. split; [done|].
    intros i Hi Hn. unfold GetVal64. simpl. destruct (data_full p); [lia|done].
Qed.

Definition packed_buffer (p : PackN) (m : Z) (buf : list Z) : Prop :=
  exists npart vpart, buf = npart ++ vpart /\ values_for p vpart /\ byte_list npart /\ byte_list vpart /\
    zlen npart <= 8194 /\
    (if 0 <? no_nulls p
     then exists b comp, nulls p = Some b /\ npart = nulls_part comp /\ restores_nulls p b comp m
     else npart = []).

(** Compression never fails on a well-formed pack. *)
Lemma Compress_buffer junk p :
  WF p -> exists m buf, packed_mode m /\ packed_buffer p m buf /\
    Compress junk c0 c1 d0 c2 c3 d1 p
    = POk (with_compressed_up_to_date (with_comp_buf_size (with_compressed_buf (with_optimal_mode p m) (Some buf)) (zlen buf)) true).
Proof.
  intros Hp. unfold Compress. destruct (SetModeDataCompressed_spec p (wf_mode _ Hp)) as (m & -> & Hm).
  set (p1 := with_optimal_mode p m). assert (WF p1) as Hp1 by (apply WF_with_mode; [done|by apply packed_mode_ok]).
  assert (exists bytes, (if greatest p1 =? 0 then POk []
     else match data_full p1 with
          | Some d => RemoveNullsAndCompress junk c0 c1 d0 c2 c3 d1 p1 d (greatest p1)
          | None => PUndef
          end) = POk bytes /\ values_for p1 (values_part (greatest p1) bytes) /\ byte_list bytes) as (bytes & -> & Hv & Hbb).
  { unfold values_for. destruct (data_full p1) as [d|] eqn:E.
    - destruct (greatest_spec p1 d Hp1 E) as (Hgw & _). destruct (Z.eqb_spec (greatest p1) 0) as [G0|G0].
      + exists []. split; [done|]. split; [|constructor]. exists []. split; [done|]. split; [done|]. split; [constructor|]. lia.
      + destruct (RemoveNullsAndCompress_spec junk c0 c1 d0 c2 c3 d1 p1 d Hp1 E) as (bytes & -> & Hb & Hl & Hdec);
          [unfold is_word in Hgw; lia|]. exists bytes. split; [done|]. split; [|done]. exists bytes. done.
    - unfold greatest. rewrite E. exists []. split; [done|]. split; [done|constructor]. }
  cbn [mbind pres_bind]. assert (byte_list (values_part (greatest p1) bytes)) as Hvb.
  { unfold values_part. repeat (apply Forall_app; split); [apply bytes_le_bytes|apply bytes_le_bytes|done]. }
  destruct (Z.ltb_spec 0 (no_nulls p1)) as [Hn|Hn].
  - pose proof (wf_nulls _ Hp1) as Hwn. destruct (nulls p1) as [b|] eqn:Eb; [|lia].
    destruct (CompressNulls_spec junk p1 b Hp1 Eb Hm) as (m' & comp & -> & Hm' & Hcb & Hcl & Hres). cbn [mbind pres_bind].
    destruct (Z.ltb_spec 8192 (zlen comp)); [lia|]. cbn [mbind pres_bind].
    exists m', (nulls_part comp ++ values_part (greatest p1) bytes). split; [done|]. split; [|done].
    exists (nulls_part comp), (values_part (greatest p1) bytes). split; [done|]. split; [exact Hv|].
    split; [apply Forall_app; split; [apply bytes_le_bytes|done]|]. split; [done|].
    split; [unfold nulls_part; rewrite zlen_app, zlen_bytes_le; lia|].
    change (no_nulls p1) with (no_nulls p) in Hn. destruct (Z.ltb_spec 0 (no_nulls p)); [|lia].
    exists b, comp. split; [exact Eb|]. split; [done|]. exact Hres.
  - exists m, (values_part (greatest p1) bytes). split; [done|]. split; [|done].
    exists [], (values_part (greatest p1) bytes). split; [done|]. split; [exact Hv|]. split; [constructor|]. split; [done|].
    split; [done|]. change (no_nulls p1) with (no_nulls p) in Hn. destruct (Z.ltb_spec 0 (no_nulls p)); [lia|done].
Qed.

(** A packed buffer is unpacked into the same rows. *)
Lemma Uncompress_buffer junk p m buf q more :
  WF p -> packed_mode m -> packed_buffer p m buf -> same_header p q -> optimal_mode q = m ->
  data_full q = None -> nulls q = None -> compressed_buf q = Some (buf ++ more) -> byte_list more ->
  exists r, Uncompress junk c0 c1 d0 c2 c3 d1 q = POk r /\ same_pack p r /\ WF r /\
    compressed_buf r = None /\ is_only_compressed r = false.
Proof.
  intros Hp Hm (npart & vpart & -> & Hv & Hnb & Hvb & _ & Hcase) Hh Hmq Ed En Ec Hmore.
  pose proof Hh as (H1 & H2 & H3 & H4 & H5). pose proof Hp as [Ho Hn Hmax Hrate Htype Hd Hmode].
  unfold Uncompress. set (q0 := with_is_only_compressed q false).
  assert (IsModeNoCompression q0 = false) as -> by (unfold IsModeNoCompression; simpl; rewrite Hmq; by destruct Hm as [->| ->]).
  change (compressed_buf q0) with (compressed_buf q). rewrite Ec. change (data_full q0) with (data_full q). rewrite Ed.
  cbv zeta. set (q1 := if (0 <? bit_rate q0) && negb (vsize (value_type q0) * no_obj q0 =? 0)
                       then with_data_full q0 (Some (alloc junk 0 (vbits (value_type q0)) (no_obj q0))) else q0).
  pose proof (vbits_range (value_type p)) as (Hvb1 & Hvs & _).
  assert (exists od, q1 = with_data_full q0 od /\ match od with None => bit_rate p = 0
     | Some d => 0 < bit_rate p /\ zlen d = no_obj p /\ Forall (is_word (vbits (value_type p))) d end) as (od & Eq1 & Hod).
  { unfold q1. change (bit_rate q0) with (bit_rate q). change (value_type q0) with (value_type q). change (no_obj q0) with (no_obj q).
    rewrite H1, H4, H5. destruct (GetBitLen_bounds (max_val p)) as [_ Hr0]; [apply Hmax|].
    destruct (Z.ltb_spec 0 (bit_rate p)); cbn [andb].
    - destruct (Z.eqb_spec (vsize (value_type p) * no_obj p) 0); [nia|]. cbn [negb]. eexists. split; [done|]. split; [done|].
      apply alloc_spec; lia.
    - exists None. split; [unfold q0; destruct q; simpl in *; by subst|lia]. }
  rewrite Eq1. change (no_nulls (with_data_full q0 od)) with (no_nulls q). rewrite H2.
  assert (exists onulls, (if 0 <? no_nulls p then UncompressNulls junk (with_data_full q0 od) ((npart ++ vpart) ++ more)
     else POk (with_data_full q0 od, (npart ++ vpart) ++ more)) = POk (with_nulls (with_data_full q0 od) onulls, vpart ++ more) /\
     same_nulls p (with_nulls (with_data_full q0 od) onulls) /\
     match onulls with None => no_nulls p = 0 | Some b => nulls_ok b (no_obj p) (no_nulls p) end) as (onulls & -> & Hsn & Hno).
  { rewrite <- app_assoc. destruct (Z.ltb_spec 0 (no_nulls p)) as [Hpos|Hz].
    - destruct Hcase as (b & comp & Eb & -> & Hres).
      destruct (Hres junk (with_data_full q0 od) (vpart ++ more)) as (b' & -> & Hr'); [done|done| |by apply Forall_app|].
      { unfold array_ok. change (nulls (with_data_full q0 od)) with (nulls q). by rewrite En. }
      exists (Some b'). split; [done|]. split; [by apply (IsNull_restored p _ b)|].
      rewrite Eb in Hn. destruct Hn as (_ & _ & Hcnt & _). destruct Hr' as (R1 & R2 & R3 & R4).
      split; [done|]. split; [done|]. split; [by rewrite R3|done].
    - rewrite Hcase. pose proof (nulls_count p Hp) as Hnc. exists None. split; [unfold q0; destruct q; simpl in *; by subst|].
      split; [|lia]. intros i Hi. rewrite (no_nulls_false p i) by (done || lia). unfold IsNull. simpl. rewrite H1, H2.
      by destruct (Z.eqb_spec (no_nulls p) (no_obj p)); [lia|]. }
  cbn [mbind pres_bind].
  destruct (UncompressValues_spec p (with_nulls (with_data_full q0 od) onulls) vpart more Hp Hh Hsn) as (c & od' & -> & Hod' & Hval);
    try done; [by rewrite <- Hmq in Hm|]. cbn [mbind pres_bind].
  eexists. split; [done|]. split; [split; [exact Hh|]; split; [exact Hsn|exact Hval]|]. split; [|done].
  split; simpl; rewrite ?H1, ?H2, ?H3, ?H4, ?H5; try done.
  rewrite Hmq. by apply packed_mode_ok.
Qed.
End Whole.

(** ** Round trips *)

Lemma slice_app_r (a b : list Z) k n : zlen a <= k -> slice (a ++ b) k n = slice b (k - zlen a) n.
Proof.
  intros Hk. unfold slice. f_equal. pose proof (zlen_nonneg a).
  replace (Z.to_nat k) with (length a + Z.to_nat (k - zlen a))%nat by (unfold zlen in *; lia). apply drop_app_add.
Qed.

(** The header of the file. *)
Definition file_head (total mode rows nulls maxv : Z) : list Z :=
  bytes_le 4 total ++ [mode] ++ bytes_le 2 (rows - 1) ++ bytes_le 2 nulls ++ bytes_le 8 maxv.

Lemma file_head_fields total mode rows nulls maxv :
  is_word 32 total -> 1 <= rows <= 65536 -> 0 <= nulls < 65536 -> is_word 64 maxv ->
  let h := file_head total mode rows nulls maxv in
  zlen h = 17 /\ of_le (slice h 0 4) = total /\ h.[0|4] = mode /\ of_le (slice h 5 2) + 1 = rows /\
  of_le (slice h 7 2) = nulls /\ of_le (slice h 9 8) = maxv.
Proof.
  intros Ht Hr Hn Hm h. pose proof (fun n x => zlen_bytes_le n x) as Hz. unfold h, file_head.
  split; [rewrite !zlen_app, !Hz; reflexivity|].
  split; [rewrite slice_head by apply Hz; by apply (of_bytes_le_word 4)|].
  split; [rewrite znth_app_r by (rewrite Hz; done); by rewrite Hz|].
  rewrite !(slice_app_r (bytes_le 4 total)) by (rewrite Hz; done). rewrite !Hz.
  rewrite !(slice_app_r [mode]) by done. change (zlen [mode]) with 1.
  split; [change (5 - Z.of_nat 4 - 1) with 0; rewrite slice_head by apply Hz;
          rewrite (of_bytes_le_word 2) by (unfold is_word; lia); lia|].
  rewrite !(slice_app_r (bytes_le 2 (rows - 1))) by (rewrite Hz; done). rewrite !Hz.
  split; [change (7 - Z.of_nat 4 - 1 - Z.of_nat 2) with 0; rewrite slice_head by apply Hz;
          by rewrite (of_bytes_le_word 2) by (unfold is_word; lia)|].
  rewrite (slice_app_r (bytes_le 2 nulls)) by (rewrite Hz; done). rewrite Hz.
  change (9 - Z.of_nat 4 - 1 - Z.of_nat 2 - Z.of_nat 2) with 0. rewrite <- (app_nil_r (bytes_le 8 maxv)), slice_head by apply Hz.
  by apply (of_bytes_le_word 8).
Qed.

(** Two writes in a row are read back. *)
Lemma write_read f a b :
  0 <= fpos f -> a <> [] -> b <> [] ->
  let f' := WriteExact (WriteExact f a) b in
  fpos f' = fpos f + zlen a + zlen b /\
  ReadExact (mkFile (fbytes f') (fpos f)) (zlen a) = Some (a, mkFile (fbytes f') (fpos f + zlen a)) /\
  ReadExact (mkFile (fbytes f') (fpos f + zlen a)) (zlen b) = Some (b, mkFile (fbytes f') (fpos f + zlen a + zlen b)).
Proof.
  intros Hf Ha Hb f'. destruct f as [l p]. simpl in Hf. pose proof (zlen_nonneg a). pose proof (zlen_nonneg b).
  assert (f' = mkFile (overwrite (overwrite l p a) (p + zlen a) b) (p + zlen a + zlen b)) as -> by (by destruct a, b).
  unfold ReadExact. cbn [fpos fbytes]. rewrite !zlen_overwrite by lia.
  destruct (Z.ltb_spec (Z.max (Z.max (zlen l) (p + zlen a)) (p + zlen a + zlen b)) (p + zlen a)); [lia|].
  destruct (Z.ltb_spec (Z.max (Z.max (zlen l) (p + zlen a)) (p + zlen a + zlen b)) (p + zlen a + zlen b)); [lia|].
  rewrite !andb_false_r. split; [done|].
  rewrite slice_overwrite_other by (rewrite ?zlen_overwrite; lia). by rewrite !slice_overwrite_same by lia.
Qed.

Section Trips.
Context `{FPU} `{!FPULaws _} `{FPULog} (c0 c1 d0 c2 c3 d1 : Dict).

(** [p] holds the rows of the well-formed [p0], as arrays or in its compressed buffer. *)
Inductive holds_rows (p0 p : PackN) : Prop :=
| rows_full : p = p0 -> WF p0 -> (compressed_buf p = None \/ compressed_up_to_date p = false) -> holds_rows p0 p
| rows_packed buf more :
    WF p0 -> same_header p0 p -> compressed_buf p = Some (buf ++ more) -> comp_buf_size p = zlen buf ->
    compressed_up_to_date p = true -> packed_mode (optimal_mode p) ->
    packed_buffer c0 c1 d0 c2 c3 d1 p0 (optimal_mode p) buf -> byte_list more -> holds_rows p0 p.

Lemma zlen_packed_buffer p0 m buf :
  WF p0 -> packed_buffer c0 c1 d0 c2 c3 d1 p0 m buf -> 12 <= zlen buf < 2 ^ 21 /\ byte_list buf.
Proof.
  intros Hp (npart & vpart & -> & Hv & Hnb & Hvb & Hnl & _). split; [|by apply Forall_app].
  rewrite zlen_app. pose proof (zlen_nonneg npart).
  assert (exists maxv bytes, vpart = values_part maxv bytes /\ zlen bytes < 2 ^ 20) as (maxv & bytes & -> & Hb).
  { unfold values_for in Hv. destruct (data_full p0); [destruct Hv as (bytes & -> & ? & _); by eexists _, bytes|].
    exists 0, []. split; [exact Hv|done]. }
  unfold values_part. rewrite !zlen_app, !zlen_bytes_le. pose proof (zlen_nonneg bytes). lia.
Qed.

(** The bytes that are written, for a pack that is already compressed. *)
Lemma Save_packed junk p0 p buf more f :
  WF p0 -> same_header p0 p -> compressed_buf p = Some (buf ++ more) -> comp_buf_size p = zlen buf ->
  compressed_up_to_date p = true -> packed_mode (optimal_mode p) -> 0 <= fpos f ->
  packed_buffer c0 c1 d0 c2 c3 d1 p0 (optimal_mode p) buf ->
  let head := file_head (17 + zlen buf) (optimal_mode p) (no_obj p) (no_nulls p) (max_val p) in
  exists p', Save junk c0 c1 d0 c2 c3 d1 p f = POk (p', WriteExact (WriteExact f head) buf) /\
    same_header p0 p' /\ saved_up_to_date p' = true.
Proof.
  intros Hp Hh Ec Es Eu Hm Hf Hbuf head. destruct (zlen_packed_buffer p0 _ buf Hp Hbuf) as [Hz _].
  assert (SetModeDataCompressed p = p) as Hmode.
  { unfold SetModeDataCompressed, ResetModeNoCompression. destruct p. simpl in *. by destruct Hm as [->| ->]. }
  unfold Save. rewrite Hmode, Ec, Eu. cbn [mbind pres_bind].
  assert (TotalSaveSize p = 17 + zlen buf) as ->.
  { unfold TotalSaveSize, IsModeCompressionApplied, IsModeDataCompressed. rewrite Es. by destruct Hm as [->| ->]. }
  rewrite wrap_id by (unfold is_word; lia).
  assert (IsModeNoCompression (with_previous_size p (17 + zlen buf)) = false) as ->.
  { unfold IsModeNoCompression. simpl. by destruct Hm as [->| ->]. }
  cbn [compressed_buf with_previous_size]. rewrite Ec. cbn [mbind pres_bind comp_buf_size with_previous_size]. rewrite Es.
  assert (take (Z.to_nat (zlen buf)) (buf ++ more) = buf) as -> by (unfold zlen; rewrite Nat2Z.id; apply take_app_length).
  eexists. split; [done|]. done.
Qed.

Lemma SetMode_packed p : packed_mode (optimal_mode p) -> SetModeDataCompressed p = p.
Proof. unfold SetModeDataCompressed, ResetModeNoCompression. destruct p. simpl. by intros [->| ->]. Qed.

(** A pack that is not compressed yet is compressed first. *)
Lemma Save_compresses junk p p1 b f :
  compressed_buf p = None \/ compressed_up_to_date p = false ->
  Compress junk c0 c1 d0 c2 c3 d1 (SetModeDataCompressed p) = POk p1 ->
  packed_mode (optimal_mode p1) -> compressed_buf p1 = Some b -> compressed_up_to_date p1 = true ->
  Save junk c0 c1 d0 c2 c3 d1 p f = Save junk c0 c1 d0 c2 c3 d1 p1 f.
Proof.
  intros Hnot EC Hm Eb Eu. unfold Save. rewrite (SetMode_packed p1 Hm), Eb, Eu.
  change (compressed_buf (SetModeDataCompressed p)) with (compressed_buf p).
  change (compressed_up_to_date (SetModeDataCompressed p)) with (compressed_up_to_date p).
  assert ((match compressed_buf p with
           | Some _ => if compressed_up_to_date p then POk (SetModeDataCompressed p)
                       else Compress junk c0 c1 d0 c2 c3 d1 (SetModeDataCompressed p)
           | None => Compress junk c0 c1 d0 c2 c3 d1 (SetModeDataCompressed p)
           end) = POk p1) as ->; [|done].
  destruct Hnot as [->| ->]; [exact EC|]. by destruct (compressed_buf p).
Qed.

(** Either way there is a packed buffer to write. *)
Lemma Save_packs junk p0 p f :
  holds_rows p0 p ->
  exists p1 buf more, Save junk c0 c1 d0 c2 c3 d1 p f = Save junk c0 c1 d0 c2 c3 d1 p1 f /\ WF p0 /\ same_header p0 p1 /\
    compressed_buf p1 = Some (buf ++ more) /\ comp_buf_size p1 = zlen buf /\ compressed_up_to_date p1 = true /\
    packed_mode (optimal_mode p1) /\ packed_buffer c0 c1 d0 c2 c3 d1 p0 (optimal_mode p1) buf.
Proof.
  intros [-> Hp Hnot|buf more Hp Hh Ec Es Eu Hm Hbuf _]; [|by exists p, buf, more].
  destruct (SetModeDataCompressed_spec p0 (wf_mode _ Hp)) as (m0 & Em0 & Hm0).
  destruct (Compress_buffer c0 c1 d0 c2 c3 d1 junk (with_optimal_mode p0 m0)) as (m & buf & Hm & Hbuf & EC).
  { apply WF_with_mode; [done|by apply packed_mode_ok]. }
  rewrite <- Em0 in EC. eexists _, buf, [].
  split; [apply (Save_compresses junk p0 _ buf f Hnot EC Hm); reflexivity|]. split; [done|].
  split; [repeat split; reflexivity|]. split; [cbn; by rewrite app_nil_r|]. split; [reflexivity|]. split; [reflexivity|].
  split; [exact Hm|exact Hbuf].
Qed.

(** The pack that is loaded holds the buffer. *)
Lemma LoadData_packed junk p0 q0 f m buf :
  WF p0 -> no_nulls p0 < 65536 -> packed_mode m -> 12 <= zlen buf < 2 ^ 21 -> 0 <= fpos f ->
  let f' := WriteExact (WriteExact f (file_head (17 + zlen buf) m (no_obj p0) (no_nulls p0) (max_val p0))) buf in
  exists q, LoadData junk q0 (mkFile (fbytes f') (fpos f)) = POk (q, f') /\ same_header p0 q /\ optimal_mode q = m /\
    data_full q = None /\ nulls q = None /\ compressed_buf q = Some (buf ++ alloc junk 5 8 1).
Proof.
  intros Hp Hnn Hm Hz Hf f'. pose proof Hp as [Ho _ Hmax Hrate Htype _ _]. pose proof (nulls_count p0 Hp).
  destruct (file_head_fields (17 + zlen buf) m (no_obj p0) (no_nulls p0) (max_val p0)) as (Hz17 & F1 & F2 & F3 & F4 & F5);
    try done; [unfold is_word; lia|lia|].
  destruct (write_read f (file_head (17 + zlen buf) m (no_obj p0) (no_nulls p0) (max_val p0)) buf Hf) as (W1 & W2 & W3).
  { intros E. rewrite E in Hz17. done. }
  { intros ->. change (zlen []) with 0 in Hz. lia. }
  fold f' in W1, W2, W3. rewrite Hz17 in W1, W2, W3. unfold LoadData. rewrite W2. cbn [of_option mbind pres_bind].
  rewrite F1, F2, F3, F4, F5. cbv zeta. unfold IsModeNoCompression. cbn [optimal_mode].
  assert (negb (Z.land m 0x40 =? 0) = false) as -> by (by destruct Hm as [->| ->]).
  destruct (Z.ltb_spec (17 + zlen buf) 17); [lia|]. replace (17 + zlen buf - 17) with (zlen buf) by lia.
  rewrite W3. cbn [of_option mbind pres_bind].
  eexists. split; [do 3 f_equal; rewrite <- W1; by destruct f'|].
  assert (CalculateBinSize64 (max_val p0) = bit_rate p0) as ER by (rewrite CalculateBinSize64_spec by done; by rewrite Hrate).
  split; [|done]. unfold same_header. cbn. rewrite ER, Htype. done.
Qed.

(** A pack is saved and loaded with its rows. *)
Lemma Save_Load junk junk' junk'' p0 p q0 f :
  holds_rows p0 p -> no_nulls p0 < 65536 -> 0 <= fpos f ->
  exists p' f', Save junk c0 c1 d0 c2 c3 d1 p f = POk (p', f') /\ saved_up_to_date p' = true /\
    exists q, LoadData junk' q0 (mkFile (fbytes f') (fpos f)) = POk (q, f') /\
      exists r, Uncompress junk'' c0 c1 d0 c2 c3 d1 q = POk r /\ same_pack p0 r /\ WF r.
Proof.
  intros Hrows Hnn Hf.
  destruct (Save_packs junk p0 p f Hrows) as (p1 & buf & more & -> & Hp & Hh & Ec & Es & Eu & Hm & Hbuf).
  destruct (Save_packed junk p0 p1 buf more f Hp Hh Ec Es Eu Hm Hf Hbuf) as (p' & -> & _ & Hs).
  destruct (zlen_packed_buffer p0 _ buf Hp Hbuf) as [Hz _]. destruct Hh as (H1 & H2 & H3 & _). rewrite H1, H2, H3.
  eexists p', _. split; [done|]. split; [done|].
  destruct (LoadData_packed junk' p0 q0 f (optimal_mode p1) buf Hp Hnn Hm Hz Hf) as (q & -> & Hq & Hmq & Ed & En & Eb).
  exists q. split; [done|]. destruct (alloc_spec junk' 5 8 1) as [_ Ha]; [lia|lia|].
  destruct (Uncompress_buffer c0 c1 d0 c2 c3 d1 junk'' p0 _ buf q _ Hp Hm Hbuf Hq Hmq Ed En Eb Ha) as (r & -> & Hr & Hw & _).
  by exists r.
Qed.
End Trips.

(** ** Growing *)

(** The value of a row as it is stored. *)
Definition code_of (p : PackN) (i : Z) : Z := match data_full p with None => 0 | Some d => d.[0|i] end.

Lemma fill_spec p f values (P : Z -> Prop) :
  1 <= no_obj p <= zlen values -> Forall P values -> (forall i, 0 <= i < no_obj p -> P (f i)) ->
  zlen (fill p f values) = zlen values /\ Forall P (fill p f values) /\
  forall i, 0 <= i < no_obj p -> IsNull p i = false -> (fill p f values).[0|i] = f i.
Proof.
  intros Ho HP Hf. unfold fill. set (g := fun v i => _). set (r := foldl g values _).
  enough (zlen r = zlen values /\ Forall P r /\
    forall i, 0 <= i < no_obj p - 1 + 1 -> IsNull p i = false -> r.[0|i] = f i) as (? & ? & Hi).
  { split; [done|]. split; [done|]. intros i ?. apply Hi. lia. }
  unfold r. apply (foldl_range g (fun n r => zlen r = zlen values /\ Forall P r /\
    forall i, 0 <= i < n -> IsNull p i = false -> r.[0|i] = f i)).
  - lia.
  - split; [done|]. split; [done|]. lia.
  - intros i r' Hi (Hz & HP' & Hr). unfold g. destruct (IsNull p i) eqn:Hn.
    + split; [done|]. split; [done|]. intros j Hj Hnj. apply Hr; [|done]. destruct (Z.eq_dec j i); [congruence|lia].
    + rewrite zlen_zupd. split; [done|]. split; [apply zupd_Forall; [done|apply Hf; lia]|]. intros j Hj Hnj.
      destruct (Z.eq_dec j i) as [->|]; [apply znth_zupd_eq; lia|]. rewrite znth_zupd_ne by lia. apply Hr; [lia|done].
Qed.

Lemma nulls_ok_grow b n m c : nulls_ok b n c -> 0 <= n <= m -> nulls_ok b m c.
Proof.
  intros (Hb & Hz & Hc & H0) Hm. split; [done|]. split; [done|]. split; [|intros i Hi; apply H0; lia].
  replace m with (n + Z.of_nat (Z.to_nat (m - n))) by lia. induction (Z.to_nat (m - n)) as [|k IH]; [by rewrite Z.add_0_r|].
  rewrite <- IH. unfold bits_from. replace (n + Z.of_nat (S k) - 1) with (n + Z.of_nat k - 1 + 1) by lia.
  rewrite range_snoc by lia. rewrite map_app, ones_app. simpl. rewrite H0 by lia. unfold bit1. lia.
Qed.

Lemma rc_realloc_spec junk k w old n :
  0 <= n -> 0 <= w -> match old with None => True | Some d => zlen d <= n /\ Forall (is_word w) d end ->
  zlen (rc_realloc junk k w old n) = n /\ Forall (is_word w) (rc_realloc junk k w old n).
Proof.
  intros Hn Hw Hold. destruct (alloc_spec junk k w n Hn Hw) as [A1 A2]. destruct old as [d|]; [|done].
  destruct Hold as [Hz Hd]. unfold rc_realloc. split.
  - unfold zlen in *. rewrite length_app, length_take, length_drop. lia.
  - apply Forall_app. split; [by apply Forall_take|by apply Forall_drop].
Qed.

Lemma GetBitLen_mono x y : 0 <= x <= y -> GetBitLen x <= GetBitLen y.
Proof. intros Hxy. destruct (GetBitLen_bounds y) as [Hy Hy0]; [lia|]. apply GetBitLen_le; [lia|done]. Qed.

(** The array that [Expand] leaves. *)
Definition grown_data (p : PackN) (n maxv offset : Z) (od : option (list Z)) : Prop :=
  let vt := ChooseValueType (GetBitLen maxv) in
  match od with
  | None => GetBitLen maxv = 0
  | Some d => 0 < GetBitLen maxv /\ zlen d = n /\ Forall (is_word (vbits vt)) d
  end /\
  forall i, 0 <= i < no_obj p -> IsNull p i = false ->
    match od with None => 0 | Some d => d.[0|i] end = code_of p i + offset.

Lemma grown_fill p n maxv offset g f :
  WF p -> no_obj p <= n -> is_word 64 maxv -> 0 < GetBitLen maxv ->
  zlen g = n -> Forall (is_word (vbits (ChooseValueType (GetBitLen maxv)))) g ->
  (forall i, 0 <= i < no_obj p -> IsNull p i = false -> 0 <= code_of p i + offset <= maxv) ->
  (forall i, 0 <= i < no_obj p -> f i = wrap (vbits (ChooseValueType (GetBitLen maxv))) (code_of p i + offset)) ->
  grown_data p n maxv offset (Some (fill p f g)).
Proof.
  intros Hp Hn Hmax Hr Hz Hg Hfit Hf. pose proof (wf_obj _ Hp) as Ho.
  pose proof (vbits_range (ChooseValueType (GetBitLen maxv))) as [Hv _].
  destruct (GetBitLen_bounds maxv) as [Hb _]; [apply Hmax|].
  assert (GetBitLen maxv <= 64) as H64 by (apply GetBitLen_le; [exact Hmax|lia]).
  pose proof (ChooseValueType_fits _ H64) as Hfits. set (w := vbits (ChooseValueType (GetBitLen maxv))) in *.
  pose proof (Z.pow_le_mono_r 2 (GetBitLen maxv) w ltac:(lia) Hfits) as Hpow.
  destruct (fill_spec p f g (is_word w)) as (F1 & F2 & F3).
  - lia.
  - done.
  - intros i Hi. rewrite Hf by done. apply (wrap_word w). lia.
  - split; [split; [done|]; split; [lia|done]|]. intros i Hi Hni. rewrite F3, Hf by done. specialize (Hfit i Hi Hni).
    apply wrap_id. unfold is_word. lia.
Qed.

Lemma Expand_data junk p n maxv offset :
  WF p -> no_obj p <= n <= 65536 -> is_word 64 maxv -> max_val p <= maxv ->
  (forall i, 0 <= i < no_obj p -> IsNull p i = false -> 0 <= code_of p i + offset <= maxv) ->
  let rate := GetBitLen maxv in
  let vt := ChooseValueType rate in
  exists od, expand_data junk p n rate offset = POk (od, rate, vt) /\
    grown_data p n maxv offset od.
Proof.
  intros Hp Hn Hmax Hle Hfit rate vt. pose proof Hp as [Ho _ Hm Hrate Htype Hd _]. unfold expand_data. fold vt.
  assert (bit_rate p <= rate) as Hrl by (rewrite Hrate; apply GetBitLen_mono; destruct Hm; lia).
  destruct (GetBitLen_bounds (max_val p)) as [_ Hr0]; [apply Hm|]. rewrite <- Hrate in Hr0.
  pose proof (vbits_range vt) as (Hv & Hvs & _).
  assert (data_full p = None <-> bit_rate p = 0) as Hnone by (destruct (data_full p); split; intros; (done || lia)).
  destruct (Z.ltb_spec 0 rate) as [Hpos|Hzero]; cbn [andb].
  - destruct ((bit_rate p <? rate) || (no_obj p <? n) || negb (offset =? 0)) eqn:Hc.
    + set (grown := if decide _ then _ else _).
      assert (exists g, grown = Some g /\ zlen g = n /\ Forall (is_word (vbits vt)) g) as (g & -> & Hzg & Hwg).
      { unfold grown. destruct (decide (value_type p = vt)) as [Evt|].
        - destruct (Z.eqb_spec (vsize vt * n) 0); [nia|]. eexists. split; [done|]. apply rc_realloc_spec; [lia|lia|].
          destruct (data_full p); [|done]. destruct Hd as (_ & -> & Hw). rewrite Evt in Hw. split; [lia|done].
        - eexists. split; [done|]. apply alloc_spec; lia. }
      destruct (data_full p) as [d|] eqn:E.
      * destruct (Z.eqb_spec (bit_rate p) 0) as [E0|_]; [by apply Hnone in E0|]. eexists. split; [done|].
        apply grown_fill; try done; [lia|]. intros i Hi. unfold code_of. by rewrite E.
      * rewrite (proj1 Hnone eq_refl). eexists. split; [done|].
        apply grown_fill; try done; [lia|]. intros i Hi. unfold code_of. by rewrite E.
    + apply orb_false_iff in Hc as [[H1%Z.ltb_ge H2%Z.ltb_ge]%orb_false_iff H3%negb_false_iff%Z.eqb_eq].
      assert (bit_rate p = rate) as Er by lia. exists (data_full p). rewrite Er, Htype, Er. split; [done|].
      unfold grown_data. fold rate vt. subst offset. split.
      * destruct (data_full p); [|lia]. destruct Hd as (? & ? & Hw). rewrite Htype, Er in Hw. split; [done|]. split; [lia|done].
      * intros i Hi Hni. unfold code_of. lia.
  - destruct (GetBitLen_bounds maxv) as [Hb _]; [apply Hmax|]. fold rate in Hb.
    assert (rate = 0) as Er by lia. assert (bit_rate p = 0) as E0 by lia. rewrite Er in Hb. destruct Hmax as [Hm0 _].
    exists (data_full p). unfold vt. rewrite Er, Htype, E0. split; [done|]. rewrite (proj2 Hnone E0) in *.
    split; [exact Er|]. intros i Hi Hni. specialize (Hfit i Hi Hni). unfold code_of in *. rewrite (proj2 Hnone E0) in *. lia.
Qed.

(** ** The invariant *)

Lemma rank_mark f g i n :
  0 <= i -> f i = false -> (forall j, 0 <= j -> g j = (j =? i) || f j) -> 0 <= n ->
  rank g n = rank f n - (if i <? n then 1 else 0).
Proof.
  intros Hi Hf Hg Hn. rewrite <- (Z2Nat.id n) by done. induction (Z.to_nat n) as [|k IH].
  - rewrite !rank_0. by destruct (Z.ltb_spec i (Z.of_nat 0)); [lia|].
  - replace (Z.of_nat (S k)) with (Z.of_nat k + 1) by lia. rewrite !rank_step, IH, Hg by lia.
    destruct (Z.eqb_spec (Z.of_nat k) i) as [E|]; simpl.
    + rewrite E, Hf. destruct (Z.ltb_spec i i), (Z.ltb_spec i (i + 1)); lia.
    + destruct (f (Z.of_nat k)), (Z.ltb_spec i (Z.of_nat k)), (Z.ltb_spec i (Z.of_nat k + 1)); lia.
Qed.

Lemma SetNull_spec p i :
  WF p -> 0 <= i < no_obj p -> IsNull p i = false ->
  WF (SetNull p i) /\ forall j, 0 <= j < no_obj p -> IsNull (SetNull p i) j = (j =? i) || IsNull p j.
Proof.
  intros Hp Hi Hni. pose proof (nulls_count p Hp). pose proof Hp as [Ho Hn Hm Hr Ht Hd Hmode].
  rewrite IsNull_row in Hni by done. set (b := match nulls p with None => replicate (Z.to_nat 8192) 0 | Some b => b end).
  assert (nulls_ok b (no_obj p) (no_nulls p) /\ forall j, 0 <= j -> bbit b j = null_row p j) as [Hb Hrow].
  { unfold b, null_row. destruct (nulls p); [done|]. assert (forall j, 0 <= j -> bbit (replicate (Z.to_nat 8192) 0) j = false) as H0.
    { intros j Hj. destruct (Z.lt_ge_cases j (8 * 8192)); [|apply bbit_beyond; rewrite zlen_replicate; lia].
      unfold bbit. rewrite znth_replicate; [apply Z.bits_0|]. destruct (div_mod_pos j Hj). lia. }
    split; [|done]. split; [apply Forall_replicate; unfold is_word; lia|]. split; [apply zlen_replicate; lia|].
    split; [|intros j Hj; apply H0; lia]. pose proof (rank_null_count (replicate (Z.to_nat 8192) 0) (no_obj p) ltac:(lia)) as Hrk.
    rewrite (rank_ext _ (IsNull p)) in Hrk; [|intros j Hj; rewrite H0 by lia; symmetry; by apply no_nulls_false].
    rewrite rank_rows in Hrk by done. lia. }
  destruct Hb as (B1 & B2 & B3 & B4). destruct (div_mod_pos i ltac:(lia)) as (D1 & D2 & D3).
  set (b' := b.[Z.shiftr i 3 <- Z.lor b.[0|Z.shiftr i 3] (Z.shiftl 1 (i mod 8))]).
  assert (forall j, 0 <= j -> bbit b' j = (j =? i) || bbit b j) as Hbit.
  { intros j Hj. destruct (div_mod_pos j Hj) as (E1 & E2 & E3). unfold b'. rewrite shiftr_3, bbit_upd by lia.
    destruct (Z.eqb_spec (j / 8) (i / 8)) as [E|E]; [|by destruct (Z.eqb_spec j i); [congruence|]].
    rewrite Z.lor_spec, Z.shiftl_1_l, Z.pow2_bits_eqb by lia. unfold bbit. rewrite E.
    destruct (Z.eqb_spec (i mod 8) (j mod 8)), (Z.eqb_spec j i); try lia; by rewrite ?orb_true_r, ?orb_false_r. }
  assert (byte_list b') as Hbb.
  { apply zupd_Forall; [done|]. apply word_lor; [lia|apply stream_byte_at; [done|rewrite shiftr_3; lia]|].
    unfold is_word. rewrite Z.shiftl_1_l. split; [apply Z.pow_nonneg; lia|apply Z.pow_lt_mono_r; lia]. }
  assert (nulls_ok b' (no_obj p) (no_nulls p + 1)) as Hok.
  { split; [done|]. split; [unfold b'; by rewrite zlen_zupd|]. split.
    - pose proof (rank_null_count b' (no_obj p) ltac:(lia)). pose proof (rank_null_count b (no_obj p) ltac:(lia)).
      pose proof (rank_mark (bbit b) (bbit b') i (no_obj p) ltac:(lia) ltac:(rewrite Hrow; (done || lia)) Hbit ltac:(lia)) as Hmk.
      destruct (Z.ltb_spec i (no_obj p)); lia.
    - intros j Hj. rewrite Hbit by lia. rewrite B4 by done. by destruct (Z.eqb_spec j i); [lia|]. }
  assert (WF (SetNull p i)) as Hp' by (by split).
  split; [done|]. intros j Hj. rewrite !IsNull_row by done. rewrite <- Hrow, <- Hbit by lia. reflexivity.
Qed.

Lemma SetVal64_spec p n v :
  WF p -> 0 <= n < no_obj p ->
  WF (SetVal64 p n v) /\ (forall i, IsNull (SetVal64 p n v) i = IsNull p i) /\
  (forall i, 0 <= i < no_obj p -> i <> n -> code_of (SetVal64 p n v) i = code_of p i) /\
  (0 <= v <= max_val p -> code_of (SetVal64 p n v) n = v).
Proof.
  intros Hp Hn. pose proof Hp as [Ho Hnl Hm Hr Ht Hd Hmode]. unfold SetVal64, code_of. simpl.
  destruct (data_full p) as [d|] eqn:E; simpl.
  - destruct Hd as (Hd1 & Hd2 & Hd3). pose proof (vbits_range (value_type p)) as [Hv _].
    split; [split; simpl; try done|]. 
    { split; [done|]. split; [by rewrite zlen_zupd|]. apply zupd_Forall; [done|]. apply (wrap_word (vbits (value_type p))). lia. }
    split; [done|]. split; [intros i Hi Hne; by apply znth_zupd_ne|]. intros Hvm. rewrite znth_zupd_eq by lia.
    apply wrap_id. destruct (GetBitLen_bounds (max_val p)) as [Hb _]; [apply Hm|]. rewrite <- Hr in Hb.
    assert (bit_rate p <= 64) as H64 by (rewrite Hr; apply GetBitLen_le; [exact Hm|lia]).
    pose proof (ChooseValueType_fits _ H64) as Hfits. rewrite <- Ht in Hfits.
    pose proof (Z.pow_le_mono_r 2 (bit_rate p) (vbits (value_type p)) ltac:(lia) Hfits). unfold is_word. lia.
  - rewrite E. split; [split; simpl; try done; by rewrite E|]. split; [done|]. split; [done|]. intros Hvm.
    destruct (GetBitLen_bounds (max_val p)) as [Hb _]; [apply Hm|]. rewrite <- Hr, Hd in Hb. lia.
Qed.

Lemma Prepare_WF junk p n maxv :
  1 <= n <= 65536 -> is_word 64 maxv -> WF (Prepare junk p n maxv) /\ forall i, IsNull (Prepare junk p n maxv) i = false.
Proof.
  intros Hn Hm. destruct (GetBitLen_bounds maxv) as [_ Hr]; [apply Hm|]. split.
  - unfold Prepare. split; simpl; try done.
    + by destruct (Z.eqb_spec (GetBitLen maxv) 0) as [->|].
    + destruct (Z.eqb_spec (GetBitLen maxv) 0) as [E|E]; simpl; [exact E|].
      destruct (Z.eqb_spec n 0); [lia|]. simpl. split; [lia|].
      pose proof (vbits_range (ChooseValueType (GetBitLen maxv))) as [Hv _]. apply alloc_spec; lia.
    + vm_compute. tauto.
  - intros i. unfold IsNull, Prepare. cbn [no_nulls no_obj nulls]. by destruct (Z.eqb_spec 0 n); [lia|].
Qed.

Lemma Expand_rows junk p n m offset :
  WF p -> is_only_compressed p = false -> no_obj p <= n <= 65536 -> is_word 64 m ->
  (forall i, 0 <= i < no_obj p -> IsNull p i = false -> 0 <= code_of p i + offset <= Z.max (max_val p) m) ->
  exists r, Expand junk p n m offset = POk r /\ WF r /\ no_obj r = n /\ is_only_compressed r = false /\
    (forall i, 0 <= i < no_obj p -> IsNull r i = IsNull p i /\ (IsNull p i = false -> code_of r i = code_of p i + offset)) /\
    (forall i, no_obj p <= i < n -> IsNull r i = false).
Proof.
  intros Hp Hoc Hn Hm Hfit. unfold Expand. rewrite Hoc. cbn [negb BHASSERT mbind pres_bind].
  destruct (Z.leb_spec (no_obj p) n); [|lia]. cbn [BHASSERT mbind pres_bind].
  set (maxv := if max_val p <=? m then m else max_val p).
  assert (maxv = Z.max (max_val p) m) as Emax by (unfold maxv; case_cmp; lia). rewrite <- Emax in Hfit.
  pose proof Hp as [Ho Hnl Hmax Hr Ht Hd Hmode].
  assert (is_word 64 maxv) as Hmw by (unfold is_word in *; lia).
  destruct (Expand_data junk p n maxv offset Hp Hn Hmw ltac:(lia) Hfit) as (od & -> & Hod & Hval).
  cbn [mbind pres_bind]. eexists. split; [reflexivity|].
  match goal with |- WF ?r /\ _ => set (q := r) end.
  assert (no_obj q = n) as Hq by (unfold q; simpl; case_cmp; lia).
  assert (WF q) as HW.
  { split; simpl; try done.
    - case_cmp; lia.
    - replace (if no_obj p <? n then n else no_obj p) with n by (case_cmp; lia).
      destruct (nulls p); [|done]. apply (nulls_ok_grow _ (no_obj p)); [done|lia].
    - replace (if no_obj p <? n then n else no_obj p) with n by (case_cmp; lia). exact Hod. }
  split; [done|]. split; [done|]. split; [done|]. split.
  - intros i Hi. split; [rewrite (IsNull_row q i HW ltac:(lia)), (IsNull_row p i Hp Hi); reflexivity|]. intros Hni. exact (Hval i Hi Hni).
  - intros i Hi. rewrite (IsNull_row q i HW ltac:(lia)). unfold null_row. change (nulls q) with (nulls p).
    destruct (nulls p); [|done]. apply Hnl. lia.
Qed.

Section Life.
Context `{FPU} `{!FPULaws _} `{FPULog} (c0 c1 d0 c2 c3 d1 : Dict).

(** The life of a pack with its arrays in memory: the loader prepares and expands it and stores
    values and nulls; between that it may be compressed, dropped to the buffer and unpacked. *)
Inductive pack_step : PackN -> PackN -> Prop :=
| step_set p n v : 0 <= n < no_obj p -> pack_step p (SetVal64 p n v)
| step_null p i : 0 <= i < no_obj p -> IsNull p i = false -> pack_step p (SetNull p i)
| step_expand junk p n m offset r :
    no_obj p <= n <= 65536 -> is_word 64 m ->
    (forall i, 0 <= i < no_obj p -> IsNull p i = false -> 0 <= code_of p i + offset <= Z.max (max_val p) m) ->
    Expand junk p n m offset = POk r -> pack_step p r
| step_compress junk p r : Compress junk c0 c1 d0 c2 c3 d1 p = POk r -> pack_step p r
| step_cycle junk junk' p p1 p2 r :
    Compress junk c0 c1 d0 c2 c3 d1 p = POk p1 -> StayCompressed p1 = POk p2 ->
    Uncompress junk' c0 c1 d0 c2 c3 d1 p2 = POk r -> pack_step p r.

(** Compressing, dropping the arrays and unpacking. *)
Lemma compress_cycle junk junk' p :
  WF p -> exists p1, Compress junk c0 c1 d0 c2 c3 d1 p = POk p1 /\ same_pack p p1 /\ WF p1 /\
    exists p2, StayCompressed p1 = POk p2 /\ is_only_compressed p2 = true /\
      exists r, Uncompress junk' c0 c1 d0 c2 c3 d1 p2 = POk r /\ same_pack p r /\ WF r /\ is_only_compressed r = false.
Proof.
  intros Hp. destruct (Compress_buffer c0 c1 d0 c2 c3 d1 junk p Hp) as (m & buf & Hm & Hbuf & ->).
  eexists. split; [reflexivity|]. split; [by repeat split|].
  split; [destruct Hp; split; simpl; try done; by apply packed_mode_ok|].
  eexists. split; [reflexivity|]. split; [reflexivity|].
  match goal with |- exists r, Uncompress _ _ _ _ _ _ _ ?q = _ /\ _ => set (q2 := q) end.
  destruct (Uncompress_buffer c0 c1 d0 c2 c3 d1 junk' p m buf q2 [] Hp Hm Hbuf) as (r & E & Hr & Hw & _ & Ho); try done.
  { unfold q2. simpl. by rewrite app_nil_r. }
  { constructor. }
  exists r. done.
Qed.

Lemma step_WF p q : pack_step p q -> WF p /\ is_only_compressed p = false -> WF q /\ is_only_compressed q = false.
Proof.
  intros [p' n v Hn|p' i Hi Hni|junk p' n m o r Hn Hm Hfit E|junk p' r E|junk junk' p' p1 p2 r E1 E2 E3] [Hp Ho].
  - split; [by apply SetVal64_spec|]. unfold SetVal64. simpl. destruct (data_full p'); exact Ho.
  - split; [by apply SetNull_spec|exact Ho].
  - destruct (Expand_rows junk p' n m o Hp Ho Hn Hm Hfit) as (r' & E' & ? & _ & ? & _). rewrite E in E'. by injection E' as <-.
  - destruct (Compress_buffer c0 c1 d0 c2 c3 d1 junk p' Hp) as (m & buf & Hm & _ & E'). rewrite E in E'. injection E' as ->.
    split; [|exact Ho]. destruct Hp; split; simpl; try done; by apply packed_mode_ok.
  - destruct (compress_cycle junk junk' p' Hp) as (p1' & F1 & _ & _ & p2' & F2 & _ & r' & F3 & _ & ? & ?).
    rewrite E1 in F1. injection F1 as <-. rewrite E2 in F2. injection F2 as <-. rewrite E3 in F3. by injection F3 as <-.
Qed.

(** C5: compressing a well-formed numeric pack never fails and leaves its rows as they are; the
    arrays can then be dropped, and decompression, whatever fresh memory holds, brings back
    every row, null or with its value, in a well-formed pack. *)
Theorem PackN_compress_roundtrip (junk junk' : Z -> Z -> Z) (p : PackN) (Hp : WF p) :
  exists p1, Compress junk c0 c1 d0 c2 c3 d1 p = POk p1 /\ same_pack p p1 /\ WF p1 /\
    exists p2, StayCompressed p1 = POk p2 /\ is_only_compressed p2 = true /\
      exists r, Uncompress junk' c0 c1 d0 c2 c3 d1 p2 = POk r /\ same_pack p r /\ WF r /\ is_only_compressed r = false.
Proof. by apply compress_cycle. Qed.

(** C6: a pack written to a file at any position, from its arrays or from a compressed buffer that
    is up to date, is loaded from there with all its rows: [Save] and [LoadData] succeed, end at
    the same position, and after decompression every row is null or has the value it had.  The
    number of nulls has 16 bits in the file, so that it must be below 65536. *)
Theorem PackN_file_roundtrip (junk junk' junk'' : Z -> Z -> Z) (p0 p q0 : PackN) (f : IBFile)
    (Hp : holds_rows c0 c1 d0 c2 c3 d1 p0 p) (Hnn : no_nulls p0 < 65536) (Hf : 0 <= fpos f) :
  exists p' f', Save junk c0 c1 d0 c2 c3 d1 p f = POk (p', f') /\ saved_up_to_date p' = true /\
    exists q, LoadData junk' q0 (mkFile (fbytes f') (fpos f)) = POk (q, f') /\
      exists r, Uncompress junk'' c0 c1 d0 c2 c3 d1 q = POk r /\ same_pack p0 r /\ WF r.
Proof. by apply Save_Load. Qed.

(** C7: every pack that the loader's operations and the compression cycle produce from a prepared
    one is well formed: the counter of nulls is the number of ones of the array, the bit rate
    and the type are those of the maximum, and the array has an element of that type for each
    row. *)
Theorem PackN_reachable_WF (junk : Z -> Z -> Z) (p q : PackN) (n maxv : Z)
    (Hn : 1 <= n <= 65536) (Hm : is_word 64 maxv) (Ho : is_only_compressed p = false)
    (Hq : rtc pack_step (Prepare junk p n maxv) q) :
  WF q.
Proof.
  assert (WF (Prepare junk p n maxv) /\ is_only_compressed (Prepare junk p n maxv) = false) as Hinit.
  { split; [by apply Prepare_WF|exact Ho]. }
  enough (WF q /\ is_only_compressed q = false) by tauto. revert Hinit.
  induction Hq as [x|x y z Hxy _ IH]; [done|]. intros Hx. apply IH. by apply (step_WF x).
Qed.
End Life.

(** C8: expanding a pack keeps its nulls and adds the offset to its values, as long as the results
    are not above the new maximum; the new rows are not null, and the pack is well formed. *)
Theorem PackN_Expand (junk : Z -> Z -> Z) (p : PackN) (n m offset : Z)
    (Hp : WF p) (Ho : is_only_compressed p = false) (Hn : no_obj p <= n <= 65536) (Hm : is_word 64 m)
    (Hfit : forall i, 0 <= i < no_obj p -> IsNull p i = false -> 0 <= code_of p i + offset <= Z.max (max_val p) m) :
  exists r, Expand junk p n m offset = POk r /\ WF r /\ no_obj r = n /\ is_only_compressed r = false /\
    (forall i, 0 <= i < no_obj p -> IsNull r i = IsNull p i /\ (IsNull p i = false -> code_of r i = code_of p i + offset)) /\
    (forall i, no_obj p <= i < n -> IsNull r i = false).
Proof. by apply Expand_rows. Qed.

(** ** A pack of five rows *)

Module Sample.
Definition zeros (k i : Z) : Z := 0.

(** Values up to 1000 with a null in the middle. *)
Definition pack : PackN :=
  SetNull (SetVal64 (SetVal64 (SetVal64 (Prepare zeros (AttrPackN_new 0) 5 1000) 0 17) 1 1000) 4 300) 2.

Lemma pack_WF : WF pack.
Proof.
  assert (WF (Prepare zeros (AttrPackN_new 0) 5 1000)) as H0 by (apply Prepare_WF; [lia|unfold is_word; lia]).
  assert (forall p n v, no_obj p = 5 -> WF p -> 0 <= n < 5 -> WF (SetVal64 p n v)) as Hset.
  { intros p n v E Hp Hn. apply SetVal64_spec; [done|lia]. }
  unfold pack. apply SetNull_spec; [|vm_compute; intuition discriminate|reflexivity].
  do 3 (apply Hset; [reflexivity| |lia]). exact H0.
Qed.

End Sample.

Lemma PackN_compress_roundtrip_witness :
  let H := FixedPoint.fixed in let H0 := IntegerLog.integers in let e := FixedPoint.no_dict in
  exists p1, Compress Sample.zeros e e e e e e Sample.pack = POk p1 /\ same_pack Sample.pack p1 /\ WF p1 /\
    exists p2, StayCompressed p1 = POk p2 /\ is_only_compressed p2 = true /\
      exists r, Uncompress Sample.zeros e e e e e e p2 = POk r /\ same_pack Sample.pack r /\ WF r /\
        is_only_compressed r = false.
Proof.
  intros H H0 e. apply (@PackN_compress_roundtrip FixedPoint.fixed FixedPoint.fixed_laws IntegerLog.integers e e e e e e Sample.zeros Sample.zeros Sample.pack). exact Sample.pack_WF.
Defined.

Lemma PackN_file_roundtrip_witness :
  let H := FixedPoint.fixed in let H0 := IntegerLog.integers in let e := FixedPoint.no_dict in
  exists p' f', Save Sample.zeros e e e e e e Sample.pack (mkFile [1; 2; 3] 2) = POk (p', f') /\ saved_up_to_date p' = true /\
    exists q, LoadData Sample.zeros (AttrPackN_new 0) (mkFile (fbytes f') 2) = POk (q, f') /\
      exists r, Uncompress Sample.zeros e e e e e e q = POk r /\ same_pack Sample.pack r /\ WF r.
Proof.
  intros H H0 e. apply (@PackN_file_roundtrip FixedPoint.fixed FixedPoint.fixed_laws IntegerLog.integers e e e e e e Sample.zeros Sample.zeros Sample.zeros Sample.pack Sample.pack
    (AttrPackN_new 0) (mkFile [1; 2; 3] 2)).
  - apply rows_full; [reflexivity|exact Sample.pack_WF|left; reflexivity].
  - vm_compute. reflexivity.
  - simpl. lia.
Defined.

Lemma PackN_reachable_WF_witness : WF (SetVal64 (Prepare Sample.zeros (AttrPackN_new 0) 5 1000) 0 17).
Proof.
  apply (@PackN_reachable_WF FixedPoint.fixed FixedPoint.fixed_laws IntegerLog.integers FixedPoint.no_dict FixedPoint.no_dict FixedPoint.no_dict
    FixedPoint.no_dict FixedPoint.no_dict FixedPoint.no_dict Sample.zeros (AttrPackN_new 0) _ 5 1000).
  - lia.
  - unfold is_word. lia.
  - reflexivity.
  - apply rtc_once, step_set. simpl. lia.
Defined.

Lemma PackN_Expand_witness :
  exists r, Expand Sample.zeros Sample.pack 7 70000 5 = POk r /\ WF r /\ no_obj r = 7 /\ is_only_compressed r = false /\
    (forall i, 0 <= i < 5 -> IsNull r i = IsNull Sample.pack i /\
       (IsNull Sample.pack i = false -> code_of r i = code_of Sample.pack i + 5)) /\
    (forall i, 5 <= i < 7 -> IsNull r i = false).
Proof.
  apply (PackN_Expand Sample.zeros Sample.pack 7 70000 5).
  - exact Sample.pack_WF.
  - reflexivity.
  - simpl. lia.
  - unfold is_word. lia.
  - intros i Hi _. change (no_obj Sample.pack) with 5 in Hi.
    assert (i = 0 \/ i = 1 \/ i = 2 \/ i = 3 \/ i = 4) as Hc by lia.
    destruct Hc as [->|[->|[->|[->| ->]]]]; vm_compute; intuition discriminate.
Defined.

(** [compressed_up_to_date] means that the array was encoded in the buffer and did not change.
    [Expand] with an offset changes the values and leaves the flag, unless rows are added: a pack
    that is compressed, moved by an offset and saved is loaded with the old values. *)
Theorem Expand_stale_buffer :
  let H := FixedPoint.fixed in let H0 := IntegerLog.integers in let e := FixedPoint.no_dict in let j := Sample.zeros in
  (p1 ← Compress j e e e e e e Sample.pack;
   p2 ← Expand j p1 5 1000 (-1);
   '(p3, f) ← Save j e e e e e e p2 (mkFile [] 0);
   '(q, f) ← LoadData j (AttrPackN_new 0) (mkFile (fbytes f) 0);
   r ← Uncompress j e e e e e e q;
   POk (map (GetVal64 p2) [0; 1; 4], map (GetVal64 r) [0; 1; 4])) = POk ([16; 999; 299], [17; 1000; 300]).
Proof. vm_compute. reflexivity. Qed.
