(* ===== verification/KeyOrder.v ===== *)
(** * Comparing keys as bytes

    Sorting and joining compare rows by [memcmp] on binary keys.  Here are [memcmp], numbers
    written most significant byte first, and how the order of keys follows from that of their
    parts.  A comparison is the sign of the result, [memcmp a b n ?= 0]. *)

From S2P Require Import Prelude ByteFile QSort.

(** The first [n] bytes; an array that is shorter is continued by zeros. *)
Fixpoint memcmp (a b : list Z) (n : nat) : Z :=
  match n with
  | O => 0
  | S m => if hd 0 a =? hd 0 b then memcmp (tail a) (tail b) m else hd 0 a - hd 0 b
  end.

(** The first part decides, unless it is equal. *)
Definition lex (c1 c2 : comparison) : comparison := match c1 with Eq => c2 | _ => c1 end.

(** The [n] low bytes of a number, the most significant one first. *)
Definition bytes_be (n : nat) (x : Z) : list Z := rev (bytes_le n x).
Definition of_be (l : list Z) : Z := of_le (rev l).

(** Decides goals on comparisons of integers by cases on each of them. *)
Ltac compare_solve :=
  repeat match goal with |- context [Z.compare ?a ?b] => destruct (Z.compare_spec a b) end;
  cbn [CompOpp lex]; try reflexivity; try lia; try congruence.

(** ** Facts on [memcmp] *)

Lemma memcmp_refl a n : memcmp a a n = 0.
Proof. revert a. induction n as [|n IH]; intros a; simpl; [done|]. by rewrite Z.eqb_refl. Qed.

Lemma memcmp_sym a b n : memcmp b a n = - memcmp a b n.
Proof. revert a b. induction n as [|n IH]; intros a b; simpl; [done|]. rewrite (IH (tail a)). cmp_solve. Qed.

Lemma memcmp_anti a b n : memcmp a b n < 0 <-> 0 < memcmp b a n.
Proof. rewrite (memcmp_sym a b). lia. Qed.

Lemma memcmp_trans a b c n : memcmp a b n <= 0 -> memcmp b c n <= 0 -> memcmp a c n <= 0.
Proof.
  revert a b c. induction n as [|n IH]; intros a b c; simpl; [lia|].
  specialize (IH (tail a) (tail b) (tail c)). cmp_solve.
Qed.

#[export] Instance memcmp_Comparator n : Comparator (fun a b => memcmp a b n).
Proof. split; intros; [apply memcmp_anti|by eapply memcmp_trans]. Qed.

Lemma memcmp_eq a b n : length a = n -> length b = n -> memcmp a b n = 0 -> a = b.
Proof.
  revert a b. induction n as [|n IH]; intros [|x a] [|y b] Ha Hb; try discriminate; [done|]. simpl in *.
  case_cmp; intros H0; [|lia]. subst y. f_equal. apply IH; lia.
Qed.

Lemma memcmp_app a b c d n m :
  length a = n -> length b = n ->
  (memcmp (a ++ c) (b ++ d) (n + m) ?= 0) = lex (memcmp a b n ?= 0) (memcmp c d m ?= 0).
Proof.
  revert a b. induction n as [|n IH]; intros [|x a] [|y b] Ha Hb; try discriminate; [done|]. simpl in *.
  case_cmp; [apply IH; lia|]. unfold lex. destruct (Z.compare_spec (x - y) 0); lia || done.
Qed.

Lemma memcmp_prefix a b n : memcmp (take n a) (take n b) n = memcmp a b n.
Proof.
  revert a b. induction n as [|n IH]; intros a b; [done|].
  assert (forall l : list Z, hd 0 (take (S n) l) = hd 0 l /\ tail (take (S n) l) = take n (tail l)) as H.
  { intros [|x l]; simpl; [by rewrite take_nil|done]. }
  cbn [memcmp]. destruct (H a) as [-> ->], (H b) as [-> ->]. by rewrite IH.
Qed.

Lemma lex_assoc a b c : lex (lex a b) c = lex a (lex b c).
Proof. by destruct a. Qed.

Lemma lex_opp a b : CompOpp (lex a b) = lex (CompOpp a) (CompOpp b).
Proof. by destruct a. Qed.

(** ** Numbers *)

Lemma length_bytes_be n x : length (bytes_be n x) = n.
Proof. unfold bytes_be. by rewrite length_rev, length_bytes_le. Qed.

Lemma bytes_be_S n x : bytes_be (S n) x = bytes_be n (x / 256) ++ [x mod 256].
Proof. done. Qed.

Lemma of_be_bytes n x : 0 <= x < 256 ^ Z.of_nat n -> of_be (bytes_be n x) = x.
Proof.
  intros Hx. unfold of_be, bytes_be. rewrite rev_involutive. apply of_bytes_le_word.
  unfold is_word. by rewrite Z.pow_mul_r by lia.
Qed.

Lemma memcmp_bytes_be n x y :
  0 <= x < 256 ^ Z.of_nat n -> 0 <= y < 256 ^ Z.of_nat n -> (memcmp (bytes_be n x) (bytes_be n y) n ?= 0) = (x ?= y).
Proof.
  revert x y. induction n as [|n IH]; intros x y Hx Hy; [simpl in *; destruct (Z.compare_spec x y); done || lia|].
  rewrite !bytes_be_S. replace (S n) with (n + 1)%nat by lia.
  rewrite Nat2Z.inj_succ, Z.pow_succ_r in Hx, Hy by lia.
  rewrite memcmp_app, IH by (rewrite ?length_bytes_be || split; try done; try apply Z.div_lt_upper_bound; try apply Z.div_pos; lia).
  simpl. pose proof (Z.div_mod x 256). pose proof (Z.div_mod y 256).
  pose proof (Z.mod_pos_bound x 256). pose proof (Z.mod_pos_bound y 256).
  destruct (Z.compare_spec (x / 256) (y / 256)) as [E|E|E]; simpl.
  - destruct (Z.eqb_spec (x mod 256) (y mod 256)); destruct (Z.compare_spec x y); try done; try lia;
      destruct (Z.compare_spec (x mod 256 - y mod 256) 0); lia || done.
  - symmetry. apply Z.compare_lt_iff. nia.
  - symmetry. apply Z.compare_gt_iff. nia.
Qed.
