(* ===== verification/IntEncoders.v ===== *)
(** * Binary keys of integer columns (core/ColumnBinEncoder.h, core/ColumnBinEncoder.cpp)

    A column that is sorted, grouped or joined is written into rows of bytes that are compared by
    [memcmp].  Here are the encoders whose codes are integers: [EncoderInt] (prefix [Int_]) and
    those derived from it for decimals of two scales, dates and years.

    [Encode] is modelled by the [size] bytes that it writes; the secondary buffer is not used by
    these encoders.  A virtual column is the record of the methods that the encoders call, [Mit] is
    the type of the iterators.  64-bit arithmetic wraps around. *)

From S2P Require Import Prelude BinTools ByteFile QSort KeyOrder.

(** ** Types of columns *)

Inductive AttributeType :=
  | RC_STRING | RC_VARCHAR | RC_INT | RC_NUM | RC_DATE | RC_TIME | RC_BYTEINT | RC_SMALLINT | RC_BIN | RC_BYTE
  | RC_VARBYTE | RC_REAL | RC_DATETIME | RC_TIMESTAMP | RC_DATETIME_N | RC_TIMESTAMP_N | RC_TIME_N | RC_FLOAT
  | RC_YEAR | RC_MEDIUMINT | RC_BIGINT | RC_UNKNOWN.

#[export] Instance AttributeType_eq_dec : EqDecision AttributeType.
Proof. solve_decision. Defined.

Record ColumnType := mkType { ct_type : AttributeType; ct_scale : Z; ct_lookup : bool }.

Definition IsFixed (t : ColumnType) : bool :=
  match ct_type t with RC_INT | RC_BYTEINT | RC_SMALLINT | RC_MEDIUMINT | RC_BIGINT | RC_NUM => true | _ => false end.

Definition IsFloat (t : ColumnType) : bool := match ct_type t with RC_FLOAT | RC_REAL => true | _ => false end.

Definition IsString (t : ColumnType) : bool :=
  match ct_type t with RC_STRING | RC_VARCHAR | RC_BYTE | RC_VARBYTE | RC_BIN => true | _ => false end.

Definition IsDateTime (t : ColumnType) : bool :=
  match ct_type t with RC_DATE | RC_TIME | RC_YEAR | RC_DATETIME | RC_TIMESTAMP => true | _ => false end.

Definition is_type (t : ColumnType) (a : AttributeType) : bool := bool_decide (ct_type t = a).

Definition PLUS_INF_64 : Z := 0x7FFFFFFFFFFFFFFF.
Definition MINUS_INF_64 : Z := - 0x8000000000000000.
Definition UINT64_MAX : Z := 2 ^ 64 - 1.

(** ** Virtual columns *)

Record VirtualColumn (Mit : Type) := mkVC {
  vc_Type : ColumnType;
  vc_NullsPossible : bool;
  vc_RoughMin : Z;
  vc_RoughMax : Z;
  vc_IsNull : Mit -> bool;
  vc_GetNotNullValueInt64 : Mit -> Z;
  vc_GetValueDouble : Mit -> Z;               (* the bits of the double *)
  vc_MaxStringSize : Z;
  vc_GetNotNullValueString : Mit -> list Z
}.

Arguments vc_Type {Mit}.
Arguments vc_NullsPossible {Mit}.
Arguments vc_RoughMin {Mit}.
Arguments vc_RoughMax {Mit}.
Arguments vc_IsNull {Mit}.
Arguments vc_GetNotNullValueInt64 {Mit}.
Arguments vc_GetValueDouble {Mit}.
Arguments vc_MaxStringSize {Mit}.
Arguments vc_GetNotNullValueString {Mit}.

(** ** The encoder *)

Record EncInt := mkEI {
  descending : bool;
  null_status : Z;      (* 0 - no nulls, 1 - integer shifted (null is 0), 2 - separate byte *)
  vc_type : ColumnType;
  size : Z;
  min_val : Z;
  max_code : Z;
  min_found : Z;
  max_found : Z
}.

Definition with_stats (e : EncInt) (mn mx : Z) : EncInt :=
  mkEI (descending e) (null_status e) (vc_type e) (size e) (min_val e) (max_code e) mn mx.

(** [if(v > max_found) max_found = v; if(v < min_found) min_found = v;] *)
Definition found (e : EncInt) (v : Z) : EncInt :=
  with_stats e (if v <? min_found e then v else min_found e) (if max_found e <? v then v else max_found e).

Definition one_if (b : bool) : Z := if b then 1 else 0.

(** The codes from the minimum to the maximum, one more if 0 is null: [min_val], [max_code],
    [null_status]. *)
Definition code_range (pmin pmax : Z) (nulls_possible : bool) : Z * Z :=
  let max_code := wrap64 (pmax - pmin) in
  if nulls_possible then if max_code <? UINT64_MAX then (max_code + 1, 1) else (max_code, 2)
  else (max_code, 0).

Section Columns.
Context {Mit : Type}.
Implicit Type vc : VirtualColumn Mit.

(** ** EncoderInt *)

Definition Int_new (vc : VirtualColumn Mit) (nulls_possible desc : bool) : EncInt :=
  let pmin := vc_RoughMin vc in
  let '(max_code, ns) := code_range pmin (vc_RoughMax vc) nulls_possible in
  mkEI desc ns (vc_Type vc) (CalculateByteSize max_code + one_if (ns =? 2)) pmin max_code PLUS_INF_64 MINUS_INF_64.

Definition Int_SecondColumn (e : EncInt) (vc : VirtualColumn Mit) : bool * EncInt :=
  if negb (IsFixed (vc_Type vc)) && negb (IsDateTime (vc_type e) && IsDateTime (vc_Type vc)) then (false, e)
  else
    let is_timestamp1 := is_type (vc_type e) RC_TIMESTAMP in
    let is_timestamp2 := is_type (vc_Type vc) RC_TIMESTAMP in
    if is_timestamp1 || (is_timestamp2 && negb (is_timestamp1 && is_timestamp2)) then (false, e)
    else
      let new_min_val := vc_RoughMin vc in
      let max_val := swrap 64 (max_code e + min_val e - one_if (null_status e =? 1)) in
      let new_max_val := vc_RoughMax vc in
      let mn := if new_min_val <? min_val e then new_min_val else min_val e in
      let mx := if max_val <? new_max_val then new_max_val else max_val in
      let code := wrap64 (mx - mn) in
      let ns := if (null_status e =? 1) && (code =? UINT64_MAX) then 2 else null_status e in
      (true, mkEI (descending e) ns (vc_type e) (CalculateByteSize code + one_if (ns =? 2)) mn code
               (min_found e) (max_found e)).

Definition Int_SetNull (e : EncInt) : list Z :=
  let n := Z.to_nat (size e) in
  if descending e then
    if null_status e =? 1 then bytes_be n (max_code e)
    else (replicate n 0).[0 <- 1]
  else replicate n 0.

Definition Int_Encode (e : EncInt) (v : Z) (update_stats : bool) : EncInt * list Z :=
  if (0 <? null_status e) && (v =? NULL_VALUE_64) then (e, Int_SetNull e)
  else
    let e := if update_stats then found e v else e in
    let coded_val := wrap64 (wrap64 (v - min_val e) + one_if (null_status e =? 1)) in
    let coded_val := if descending e then wrap64 (max_code e - coded_val) else coded_val in
    (e, if null_status e =? 2
        then one_if (negb (descending e)) :: bytes_be (Z.to_nat (size e - 1)) coded_val
        else bytes_be (Z.to_nat (size e)) coded_val).

Definition Int_Encode_vc (e : EncInt) (vc : VirtualColumn Mit) (mit : Mit) (update_stats : bool) : EncInt * list Z :=
  if (0 <? null_status e) && vc_IsNull vc mit then (e, Int_SetNull e)
  else Int_Encode e (vc_GetNotNullValueInt64 vc mit) update_stats.

Definition Int_ValEncode (e : EncInt) (v : Z) (update_stats : bool) : EncInt * Z :=
  if v =? NULL_VALUE_64 then (e, if descending e then swrap 64 (max_code e) else 0)
  else
    let e := if update_stats then found e v else e in
    let coded_val := swrap 64 (v - min_val e + one_if (null_status e =? 1)) in
    (e, if descending e then swrap 64 (max_code e - coded_val) else coded_val).

Definition Int_ValEncode_vc (e : EncInt) (vc : VirtualColumn Mit) (mit : Mit) (update_stats : bool) : EncInt * Z :=
  if (0 <? null_status e) && vc_IsNull vc mit then Int_ValEncode e NULL_VALUE_64 update_stats
  else Int_ValEncode e (vc_GetNotNullValueInt64 vc mit) update_stats.

Definition Int_IsNull (e : EncInt) (buf : list Z) : bool :=
  if null_status e =? 0 then false
  else if descending e then
    if null_status e =? 1 then of_be (take (Z.to_nat (size e)) buf) =? max_code e
    else hd 0 buf =? 1
  else if null_status e =? 1 then memcmp buf (replicate 8 0) (Z.to_nat (size e)) =? 0
  else hd 0 buf =? 0.

Definition Int_GetValue64 (e : EncInt) (buf : list Z) : Z :=
  if (null_status e =? 2)
     && ((negb (descending e) && (hd 0 buf =? 0)) || (descending e && (hd 0 buf =? 1)))
  then NULL_VALUE_64
  else
    let coded_val := if null_status e =? 2 then of_be (take (Z.to_nat (size e - 1)) (tail buf))
                     else of_be (take (Z.to_nat (size e)) buf) in
    let coded_val := if descending e then wrap64 (max_code e - coded_val) else coded_val in
    swrap 64 (coded_val - one_if (null_status e =? 1) + min_val e).

Definition Int_UpdateStatistics (e : EncInt) (buf : list Z) : EncInt :=
  let v := Int_GetValue64 e buf in
  if (0 <? null_status e) && (v =? NULL_VALUE_64) then e else found e v.

Definition Int_ImpossibleValues (e : EncInt) (pack_min pack_max : Z) : bool :=
  if (pack_min =? NULL_VALUE_64) || (pack_max =? NULL_VALUE_64) || (min_found e =? PLUS_INF_64) then false
  else (max_found e <? pack_min) || (pack_max <? min_found e).

Definition Int_ClearStatistics (e : EncInt) : EncInt := with_stats e PLUS_INF_64 MINUS_INF_64.

(** ** EncoderDecimal: two columns of different scales *)

Record EncDec := mkED { d_int : EncInt; scale : Z; multiplier : Z; sec_multiplier : Z }.

(** [_int64(PowOfTen(exponent))]: the table has the powers exactly. *)
Definition PowOfTen (exponent : Z) : Z := 10 ^ exponent.

Definition Decimal_new (vc : VirtualColumn Mit) (nulls_possible desc : bool) : EncDec :=
  let pmin := vc_RoughMin vc in
  let '(max_code, ns) := code_range pmin (vc_RoughMax vc) nulls_possible in
  mkED (mkEI desc ns (vc_Type vc) (CalculateByteSize max_code) pmin max_code PLUS_INF_64 MINUS_INF_64)
    (ct_scale (vc_Type vc)) 1 1.

Definition Decimal_SecondColumn (d : EncDec) (vc : VirtualColumn Mit) : bool * EncDec :=
  let e := d_int d in
  let max_val := swrap 64 (max_code e + min_val e - one_if (null_status e =? 1)) in
  let new_scale := ct_scale (vc_Type vc) in
  let m1 := if scale d <? new_scale then PowOfTen (new_scale - scale d) else multiplier d in
  let m2 := if new_scale <? scale d then PowOfTen (scale d - new_scale) else sec_multiplier d in
  let '(mn, mx) := if scale d <? new_scale then (swrap 64 (min_val e * m1), swrap 64 (max_val * m1))
                   else (min_val e, max_val) in
  let '(new_mn, new_mx) := if new_scale <? scale d then (swrap 64 (vc_RoughMin vc * m2), swrap 64 (vc_RoughMax vc * m2))
                           else (vc_RoughMin vc, vc_RoughMax vc) in
  let mn := if new_mn <? mn then new_mn else mn in
  let mx := if mx <? new_mx then new_mx else mx in
  let code := wrap64 (mx - mn) in
  let ns := if (null_status e =? 1) && (code =? UINT64_MAX) then 2 else null_status e in
  (true, mkED (mkEI (descending e) ns (vc_type e) (CalculateByteSize code + one_if (ns =? 2)) mn code
                 (min_found e) (max_found e))
           (Z.max new_scale (scale d)) m1 m2).

Definition on_int {A : Type} (d : EncDec) (r : EncInt * A) : EncDec * A :=
  (mkED (fst r) (scale d) (multiplier d) (sec_multiplier d), snd r).

Definition Decimal_Encode_vc (d : EncDec) (vc : VirtualColumn Mit) (mit : Mit) (update_stats : bool) : EncDec * list Z :=
  if (0 <? null_status (d_int d)) && vc_IsNull vc mit then (d, Int_SetNull (d_int d))
  else
    let v := vc_GetNotNullValueInt64 vc mit in
    let s := ct_scale (vc_Type vc) in
    let v := if s <? scale d then swrap 64 (v * PowOfTen (scale d - s)) else v in
    on_int d (Int_Encode (d_int d) v update_stats).

Definition Decimal_Encode (d : EncDec) (v : Z) (sec_column update_stats : bool) : EncDec * list Z :=
  if (0 <? null_status (d_int d)) && (v =? NULL_VALUE_64) then (d, Int_SetNull (d_int d))
  else
    let v := if negb (v =? PLUS_INF_64) && negb (v =? MINUS_INF_64)
             then swrap 64 (v * (if sec_column then sec_multiplier d else multiplier d)) else v in
    on_int d (Int_Encode (d_int d) v update_stats).

Definition Decimal_ImpossibleValues (d : EncDec) (pack_min pack_max : Z) : bool :=
  let e := d_int d in
  if (pack_min =? NULL_VALUE_64) || (pack_max =? NULL_VALUE_64) || (min_found e =? PLUS_INF_64) then false
  else
    let pack_min := if pack_min =? MINUS_INF_64 then pack_min else swrap 64 (pack_min * sec_multiplier d) in
    let pack_max := if pack_max =? PLUS_INF_64 then pack_max else swrap 64 (pack_max * sec_multiplier d) in
    (max_found e <? pack_min) || (pack_max <? min_found e).

(** ** EncoderDate and EncoderYear: the low bits of a time stamp are dropped *)

Definition sort_encoding (sh v : Z) : Z :=
  if negb (v =? MINUS_INF_64) && negb (v =? PLUS_INF_64) then Z.shiftr v sh else v.

Definition sort_decoding (sh v : Z) : Z :=
  if negb (v =? MINUS_INF_64) && negb (v =? PLUS_INF_64) then swrap 64 (Z.shiftl v sh) else v.

Definition DateSortEncoding : Z -> Z := sort_encoding 28.
Definition DateSortDecoding : Z -> Z := sort_decoding 28.
Definition YearSortEncoding : Z -> Z := sort_encoding 37.
Definition YearSortDecoding : Z -> Z := sort_decoding 37.

(** The two classes differ in the conversions, here [enc] and [dec]. *)
Definition sorted_new (enc : Z -> Z) (vc : VirtualColumn Mit) (nulls_possible desc : bool) : EncInt :=
  let pmin := enc (vc_RoughMin vc) in
  let code := wrap64 (enc (vc_RoughMax vc) - pmin) in
  let ns := one_if nulls_possible in
  let code := if nulls_possible && negb (code =? UINT64_MAX) then code + 1 else code in
  mkEI desc ns (vc_Type vc) (CalculateByteSize code) pmin code PLUS_INF_64 MINUS_INF_64.

(** The new range from the old one and that of the second column. *)
Definition joined_range (enc : Z -> Z) (e : EncInt) (vc : VirtualColumn Mit) : Z * Z :=
  let new_min_val := enc (vc_RoughMin vc) in
  let max_val := swrap 64 (max_code e + min_val e - one_if (null_status e =? 1)) in
  let new_max_val := enc (vc_RoughMax vc) in
  (if new_min_val <? min_val e then new_min_val else min_val e,
   if max_val <? new_max_val then new_max_val else max_val).

Definition with_range (e : EncInt) (mn code : Z) : EncInt :=
  mkEI (descending e) (null_status e) (vc_type e) (CalculateByteSize code) mn code (min_found e) (max_found e).

Definition Date_new : VirtualColumn Mit -> bool -> bool -> EncInt := sorted_new DateSortEncoding.

Definition Date_SecondColumn (e : EncInt) (vc : VirtualColumn Mit) : bool * EncInt :=
  if negb (is_type (vc_Type vc) RC_DATE) then (false, e)
  else
    let '(mn, mx) := joined_range DateSortEncoding e vc in
    (true, with_range e mn (wrap64 (wrap64 (mx - mn) + one_if ((null_status e =? 1) && negb (max_code e =? UINT64_MAX))))).

Definition Year_new : VirtualColumn Mit -> bool -> bool -> EncInt := sorted_new YearSortEncoding.

Definition Year_SecondColumn (e : EncInt) (vc : VirtualColumn Mit) : bool * EncInt :=
  if negb (is_type (vc_Type vc) RC_YEAR) then (false, e)
  else
    let '(mn, mx) := joined_range YearSortEncoding e vc in
    let code := wrap64 (mx - mn) in
    (true, with_range e mn (if negb (code =? UINT64_MAX) && (null_status e =? 1) then code + 1 else code)).

Definition sorted_Encode (enc : Z -> Z) (e : EncInt) (v : Z) (update_stats : bool) : EncInt * list Z :=
  if (0 <? null_status e) && (v =? NULL_VALUE_64) then (e, Int_SetNull e)
  else Int_Encode e (enc v) update_stats.

Definition sorted_Encode_vc (enc : Z -> Z) (e : EncInt) (vc : VirtualColumn Mit) (mit : Mit) (update_stats : bool) :
    EncInt * list Z :=
  if (0 <? null_status e) && vc_IsNull vc mit then (e, Int_SetNull e)
  else Int_Encode e (enc (vc_GetNotNullValueInt64 vc mit)) update_stats.

Definition sorted_ValEncode (enc : Z -> Z) (e : EncInt) (v : Z) (update_stats : bool) : EncInt * Z :=
  if (0 <? null_status e) && (v =? NULL_VALUE_64) then Int_ValEncode e NULL_VALUE_64 update_stats
  else Int_ValEncode e (enc v) update_stats.

Definition sorted_GetValue64 (dec : Z -> Z) (e : EncInt) (buf : list Z) : Z :=
  if Int_IsNull e buf then NULL_VALUE_64 else dec (Int_GetValue64 e buf).

Definition sorted_ImpossibleValues (enc : Z -> Z) (e : EncInt) (pack_min pack_max : Z) : bool :=
  if (pack_min =? NULL_VALUE_64) || (pack_max =? NULL_VALUE_64) || (min_found e =? PLUS_INF_64) then false
  else (max_found e <? enc pack_min) || (enc pack_max <? min_found e).

Definition Date_Encode := sorted_Encode DateSortEncoding.
Definition Date_Encode_vc := sorted_Encode_vc DateSortEncoding.
Definition Date_ValEncode := sorted_ValEncode DateSortEncoding.
Definition Date_GetValue64 := sorted_GetValue64 DateSortDecoding.
Definition Date_ImpossibleValues := sorted_ImpossibleValues DateSortEncoding.
Definition Year_Encode := sorted_Encode YearSortEncoding.
Definition Year_Encode_vc := sorted_Encode_vc YearSortEncoding.
Definition Year_ValEncode := sorted_ValEncode YearSortEncoding.
Definition Year_GetValue64 := sorted_GetValue64 YearSortDecoding.
Definition Year_ImpossibleValues := sorted_ImpossibleValues YearSortEncoding.

(** The statistics are kept on the encoded dates: the bodies are that of [EncoderInt]. *)
Definition Date_UpdateStatistics := Int_UpdateStatistics.
Definition Year_UpdateStatistics := Int_UpdateStatistics.

End Columns.

(** ** When the codes are right *)

(** Bytes of the code; the separate byte of a null comes before them. *)
Definition code_bytes (e : EncInt) : Z := size e - one_if (null_status e =? 2).

(** The encoder serves the values from [lo] to [hi]: their codes fit the bytes, and the greatest
    code is not above [max_code] where codes are subtracted from it. *)
Record int_ok (e : EncInt) (lo hi : Z) : Prop := {
  ok_status : null_status e = 0 \/ null_status e = 1 \/ null_status e = 2;
  ok_min : - 2 ^ 63 <= min_val e <= lo;
  ok_hi : lo <= hi < 2 ^ 63;
  ok_bytes : 0 <= code_bytes e <= 8;
  ok_max : 0 <= max_code e < 256 ^ code_bytes e;
  ok_top : hi - min_val e + one_if (null_status e =? 1)
           < (if descending e then max_code e + 1 else 256 ^ code_bytes e)
}.

(** A value that the encoder meets: null if it has a code for nulls, or a number of the range. *)
Definition fits (e : EncInt) (lo hi : Z) (o : option Z) : Prop :=
  match o with
  | None => 0 < null_status e
  | Some v => lo <= v <= hi /\ (0 < null_status e -> v <> NULL_VALUE_64)
  end.

(** The number that stands for it in the calls. *)
Definition arg_of (o : option Z) : Z := match o with None => NULL_VALUE_64 | Some v => v end.

(** The order that keys are to have: nulls first, everything reversed for a descending order. *)
Definition null_first {A : Type} (cmp : A -> A -> comparison) (a b : option A) : comparison :=
  match a, b with
  | None, None => Eq
  | None, Some _ => Lt
  | Some _, None => Gt
  | Some x, Some y => cmp x y
  end.

Definition directed (desc : bool) (c : comparison) : comparison := if desc then CompOpp c else c.

(** ** Sizes *)

Lemma ByteSize_loop_spec fuel : forall m n res,
  0 <= n < 256 ^ m -> 0 <= m <= Z.of_nat fuel ->
  exists k, ByteSize_loop fuel n res = res + k /\ 0 <= k <= m /\ n < 256 ^ k.
Proof.
  induction fuel as [|f IH]; intros m n res Hn Hm; cbn [ByteSize_loop].
  { exists 0. assert (m = 0) as -> by lia. simpl in *. lia. }
  destruct (Z.eqb_spec n 0) as [->|]; [exists 0; lia|]. rewrite Z.shiftr_div_pow2 by lia. change (2 ^ 8) with 256.
  assert (0 < m) by (destruct (Z.eq_dec m 0) as [->|]; simpl in *; lia).
  assert (256 ^ m = 256 * 256 ^ (m - 1)) as Em by (rewrite <- Z.pow_succ_r by lia; f_equal; lia).
  destruct (IH (m - 1) (n / 256) (res + 1)) as (k & -> & Hk & Hb).
  { split; [apply Z.div_pos; lia|apply Z.div_lt_upper_bound; lia]. }
  { lia. }
  exists (k + 1). split; [lia|]. split; [lia|]. rewrite Z.pow_add_r by lia.
  pose proof (Z.div_mod n 256). pose proof (Z.mod_pos_bound n 256). lia.
Qed.

Lemma CalculateByteSize_fits n : is_word 64 n -> 0 <= CalculateByteSize n <= 8 /\ n < 256 ^ CalculateByteSize n.
Proof. intros Hn. destruct (ByteSize_loop_spec 9 8 n 0) as (k & E & Hk & Hb); [exact Hn|lia|]. unfold CalculateByteSize. by rewrite E. Qed.

(** ** The code of a value *)

(** What the bytes hold for a number of the range. *)
Definition code (e : EncInt) (v : Z) : Z :=
  let c := v - min_val e + one_if (null_status e =? 1) in if descending e then max_code e - c else c.

Lemma bytes_be_0 n : bytes_be n 0 = replicate n 0.
Proof. induction n as [|n IH]; [done|]. rewrite bytes_be_S, replicate_S_end. change (0 / 256) with 0. by rewrite IH. Qed.

Lemma one_if_bounds b : 0 <= one_if b <= 1.
Proof. destruct b; simpl; lia. Qed.

Section Codes.
Context (e : EncInt) (lo hi : Z) (He : int_ok e lo hi).

Lemma bytes_range : 256 ^ code_bytes e <= 2 ^ 64.
Proof. change (2 ^ 64) with (256 ^ 8). apply Z.pow_le_mono_r; [lia|]. apply He. Qed.

Lemma code_range_ok v : lo <= v <= hi -> 0 <= code e v < 256 ^ code_bytes e.
Proof.
  intros Hv. destruct He as [? ? ? ? ? Ht]. pose proof (one_if_bounds (null_status e =? 1)).
  unfold code. destruct (descending e); lia.
Qed.

Lemma Int_Encode_code v st :
  lo <= v <= hi -> (0 < null_status e -> v <> NULL_VALUE_64) ->
  snd (Int_Encode e v st)
  = (if null_status e =? 2 then [one_if (negb (descending e))] else []) ++ bytes_be (Z.to_nat (code_bytes e)) (code e v).
Proof.
  intros Hv Hn. unfold Int_Encode.
  replace ((0 <? null_status e) && (v =? NULL_VALUE_64)) with false.
  2: { symmetry. apply andb_false_iff. destruct (Z.ltb_spec 0 (null_status e)); [right; apply Z.eqb_neq; auto|by left]. }
  assert (forall st : bool, min_val (if st then found e v else e) = min_val e /\ null_status (if st then found e v else e) = null_status e
    /\ size (if st then found e v else e) = size e /\ max_code (if st then found e v else e) = max_code e
    /\ descending (if st then found e v else e) = descending e) as Hst by (by intros []).
  destruct (Hst st) as (-> & -> & -> & -> & ->). clear Hst. cbn [snd].
  pose proof (code_range_ok v Hv) as Hc. pose proof bytes_range. destruct He as [? ? ? ? ? Ht].
  pose proof (one_if_bounds (null_status e =? 1)). unfold code in *.
  assert (is_word 64 (v - min_val e)) as Hw1 by (unfold is_word; destruct (descending e); lia).
  rewrite (wrap_id 64 _ Hw1), (wrap_id 64 (v - min_val e + _)) by (unfold is_word; destruct (descending e); lia).
  replace (if descending e then wrap64 (max_code e - (v - min_val e + one_if (null_status e =? 1))) else v - min_val e + one_if (null_status e =? 1))
    with (code e v) by (unfold code; destruct (descending e); [by rewrite wrap_id by (unfold is_word; lia)|done]).
  unfold code_bytes. fold (code e v). destruct (Z.eqb_spec (null_status e) 2); cbn [one_if app]; do 2 f_equal; lia.
Qed.

Definition null_code : Z := if descending e && (null_status e =? 1) then max_code e else 0.

Definition code_of (o : option Z) : Z := match o with None => null_code | Some v => code e v end.

(** The separate byte. *)
Definition null_byte (o : option Z) : list Z :=
  if null_status e =? 2 then [one_if (xorb (descending e) (bool_decide (is_Some o)))] else [].

Lemma Int_SetNull_code :
  0 < null_status e -> Int_SetNull e = null_byte None ++ bytes_be (Z.to_nat (code_bytes e)) null_code.
Proof.
  intros Hn. destruct He as [Hs ? ? Hb ? ?]. unfold Int_SetNull, null_code, null_byte, code_bytes in *.
  pose proof bytes_be_0 as Hz.
  assert (null_status e = 1 \/ null_status e = 2) as [E|E] by lia; rewrite E in *; simpl in *.
  - rewrite Z.sub_0_r. rewrite andb_true_r. destruct (descending e); [done|]. by rewrite Hz.
  - rewrite andb_false_r, Hz. replace (Z.to_nat (size e)) with (S (Z.to_nat (size e - 1))) by lia. by destruct (descending e).
Qed.

Lemma Int_key o st :
  fits e lo hi o -> snd (Int_Encode e (arg_of o) st) = null_byte o ++ bytes_be (Z.to_nat (code_bytes e)) (code_of o).
Proof.
  destruct o as [v|]; simpl.
  - intros [Hv Hn]. rewrite Int_Encode_code by done. unfold null_byte. by destruct (null_status e =? 2), (descending e).
  - intros Hn. rewrite <- Int_SetNull_code by done. unfold Int_Encode. rewrite (proj2 (Z.ltb_lt _ _) Hn). done.
Qed.

Lemma code_of_range o : fits e lo hi o -> 0 <= code_of o < 256 ^ Z.of_nat (Z.to_nat (code_bytes e)).
Proof.
  pose proof (ok_bytes _ _ _ He). rewrite Z2Nat.id by lia. destruct o as [v|]; simpl.
  - intros [Hv _]. by apply code_range_ok.
  - intros _. pose proof (ok_max _ _ _ He). unfold null_code. destruct (_ && _); lia.
Qed.

Lemma Int_key_length o st : fits e lo hi o -> length (snd (Int_Encode e (arg_of o) st)) = Z.to_nat (size e).
Proof.
  intros Ho. rewrite Int_key, length_app, length_bytes_be by done. pose proof (ok_bytes _ _ _ He).
  unfold null_byte, code_bytes in *. destruct (null_status e =? 2); simpl in *; lia.
Qed.

Lemma Int_codes_order o1 o2 :
  fits e lo hi o1 -> fits e lo hi o2 -> null_byte o1 = null_byte o2 ->
  (code_of o1 ?= code_of o2) = directed (descending e) (null_first Z.compare o1 o2).
Proof.
  intros H1 H2 Hb. destruct He as [Hs ? ? ? ? Ht]. unfold null_byte in Hb. unfold directed.
  assert (null_status e = 2 \/ null_status e = 1 \/ null_status e = 0) as Hc by lia.
  destruct o1 as [v1|], o2 as [v2|]; cbn [fits null_first code_of] in *; unfold code, null_code in *;
    destruct Hc as [E|[E|E]]; rewrite E in *; destruct (descending e);
    cbn [one_if Z.eqb Pos.eqb andb xorb] in *; try discriminate; try lia; compare_solve.
Qed.

Lemma null_byte_order o1 o2 :
  fits e lo hi o1 -> fits e lo hi o2 -> null_byte o1 <> null_byte o2 ->
  null_status e = 2 /\ (memcmp (null_byte o1) (null_byte o2) 1 ?= 0) = directed (descending e) (null_first Z.compare o1 o2).
Proof.
  intros H1 H2 Hne. unfold null_byte in *. destruct (Z.eqb_spec (null_status e) 2) as [E|]; [|done]. split; [done|].
  destruct o1 as [v1|], o2 as [v2|], (descending e); done.
Qed.

Lemma Int_key_order o1 o2 st1 st2 :
  fits e lo hi o1 -> fits e lo hi o2 ->
  (memcmp (snd (Int_Encode e (arg_of o1) st1)) (snd (Int_Encode e (arg_of o2) st2)) (Z.to_nat (size e)) ?= 0)
  = directed (descending e) (null_first Z.compare o1 o2).
Proof.
  intros H1 H2. rewrite !Int_key by done.
  set (k := length (null_byte o1)). assert (length (null_byte o2) = k) as Hk by (unfold k, null_byte; by destruct (_ =? 2)).
  replace (Z.to_nat (size e)) with (k + Z.to_nat (code_bytes e))%nat.
  2: { pose proof (ok_bytes _ _ _ He). unfold k, null_byte, code_bytes in *. destruct (_ =? 2); simpl in *; lia. }
  rewrite memcmp_app, memcmp_bytes_be by (done || by apply code_of_range).
  destruct (decide (null_byte o1 = null_byte o2)) as [E|E].
  - rewrite E, memcmp_refl. cbn [lex Z.compare]. by apply Int_codes_order.
  - destruct (null_byte_order o1 o2 H1 H2 E) as [E2 Ho]. unfold k, null_byte in *. rewrite E2 in *. simpl in *.
    rewrite Ho. destruct o1, o2, (descending e); done.
Qed.

(** The number in the bytes of a key. *)
Definition read_code (buf : list Z) : Z :=
  if null_status e =? 2 then of_be (take (Z.to_nat (size e - 1)) (tail buf)) else of_be (take (Z.to_nat (size e)) buf).

Lemma read_code_key o : fits e lo hi o -> read_code (null_byte o ++ bytes_be (Z.to_nat (code_bytes e)) (code_of o)) = code_of o.
Proof.
  intros Ho. unfold read_code, null_byte.
  assert (take (Z.to_nat (code_bytes e)) (bytes_be (Z.to_nat (code_bytes e)) (code_of o)) = bytes_be (Z.to_nat (code_bytes e)) (code_of o)) as Hl.
  { apply take_ge. by rewrite length_bytes_be. }
  pose proof (of_be_bytes (Z.to_nat (code_bytes e)) (code_of o) (code_of_range o Ho)) as Hb.
  unfold code_bytes in *. destruct (null_status e =? 2); simpl in *; rewrite ?Z.sub_0_r in *; by rewrite Hl.
Qed.

Lemma decode_code v :
  lo <= v <= hi ->
  swrap 64 ((if descending e then wrap64 (max_code e - code e v) else code e v) - one_if (null_status e =? 1) + min_val e) = v.
Proof.
  intros Hv. pose proof (code_range_ok v Hv). pose proof bytes_range. destruct He as [? ? ? ? ? Ht].
  replace (if descending e then wrap64 (max_code e - code e v) else code e v) with (v - min_val e + one_if (null_status e =? 1)).
  - rewrite swrap_id; unfold is_sword; lia.
  - unfold code in *. pose proof (one_if_bounds (null_status e =? 1)).
    destruct (descending e); [|done]. rewrite wrap_id by (unfold is_word; lia). lia.
Qed.

Lemma null_byte_read o : null_status e = 2 -> hd 0 (null_byte o ++ bytes_be (Z.to_nat (code_bytes e)) (code_of o)) = one_if (xorb (descending e) (bool_decide (is_Some o))).
Proof. intros E. unfold null_byte. by rewrite E. Qed.

Lemma zero_key x : 0 <= x < 256 ^ Z.of_nat (Z.to_nat (code_bytes e)) ->
  (memcmp (bytes_be (Z.to_nat (code_bytes e)) x) (replicate 8 0) (Z.to_nat (code_bytes e)) =? 0) = (x =? 0).
Proof.
  intros Hx. set (n := Z.to_nat (code_bytes e)) in *. rewrite <- memcmp_prefix, take_ge by (by rewrite length_bytes_be).
  rewrite take_replicate, Nat.min_l, <- bytes_be_0 by (pose proof (ok_bytes _ _ _ He); lia).
  pose proof (memcmp_bytes_be n x 0 Hx ltac:(lia)) as E. destruct (Z.compare_spec x 0); cmp_solve; rewrite Z.compare_lt_iff in E || rewrite Z.compare_gt_iff in E || rewrite Z.compare_eq_iff in E; lia.
Qed.

Lemma Int_decode_null o st : fits e lo hi o -> Int_IsNull e (snd (Int_Encode e (arg_of o) st)) = negb (bool_decide (is_Some o)).
Proof.
  intros Ho. rewrite Int_key by done. pose proof (code_of_range o Ho) as Hc. pose proof (read_code_key o Ho) as Hr.
  pose proof (null_byte_read o) as Hn. pose proof (zero_key (code_of o) Hc) as Hz. destruct He as [Hs ? ? Hb ? Ht].
  unfold Int_IsNull. unfold read_code in Hr.
  assert (null_status e = 2 \/ null_status e = 1 \/ null_status e = 0) as [E|[E|E]] by lia; rewrite E in *; cbn [Z.eqb Pos.eqb] in *.
  - rewrite Hn by done. by destruct (descending e), (bool_decide (is_Some o)).
  - unfold null_byte, code_bytes in *. rewrite E in *. simpl in *. rewrite Z.sub_0_r in *.
    rewrite Hr, Hz. destruct o as [v|]; simpl in *; unfold code, null_code in *; rewrite E in *; simpl in *;
      destruct (descending e); simpl in *; cmp_solve.
  - destruct o; [done|]. simpl in Ho. lia.
Qed.

Lemma Int_GetValue64_eq buf :
  Int_GetValue64 e buf
  = if (null_status e =? 2) && ((negb (descending e) && (hd 0 buf =? 0)) || (descending e && (hd 0 buf =? 1)))
    then NULL_VALUE_64
    else swrap 64 ((if descending e then wrap64 (max_code e - read_code buf) else read_code buf)
                   - one_if (null_status e =? 1) + min_val e).
Proof. done. Qed.

Lemma Int_decode_value v st : fits e lo hi (Some v) -> Int_GetValue64 e (snd (Int_Encode e v st)) = v.
Proof.
  intros Ho. change v with (arg_of (Some v)) at 1. rewrite Int_key by done.
  pose proof (read_code_key _ Ho) as Hr. pose proof (null_byte_read (Some v)) as Hn.
  change (code_of (Some v)) with (code e v) in *. rewrite Int_GetValue64_eq, Hr, decode_code by apply Ho.
  destruct (Z.eqb_spec (null_status e) 2) as [E|]; [|done]. rewrite Hn by done. by destruct (descending e).
Qed.

End Codes.

(** ** Encoders made for a range *)

(** As the constructors leave them: the codes are those from [lo] to [hi]. *)
Record served (e : EncInt) (lo hi : Z) : Prop := {
  sv_lo : is_sword 64 lo;
  sv_hi : lo <= hi < 2 ^ 63;
  sv_status : null_status e = 0 \/ null_status e = 1 \/ null_status e = 2;
  sv_min : min_val e = lo;
  sv_max : max_code e = hi - lo + one_if (null_status e =? 1);
  sv_word : max_code e < 2 ^ 64;
  sv_size : size e = CalculateByteSize (max_code e) + one_if (null_status e =? 2)
}.

Lemma served_ok e lo hi : served e lo hi -> int_ok e lo hi.
Proof.
  intros [[Hl _] Hh Hs Hm Hc Hw Hz]. pose proof (one_if_bounds (null_status e =? 1)).
  destruct (CalculateByteSize_fits (max_code e)) as [Hb Hf]; [unfold is_word; lia|].
  split; unfold code_bytes; rewrite ?Hz, ?Z.add_simpl_r; try lia. destruct (descending e); lia.
Qed.

Lemma code_range_spec lo hi np :
  is_sword 64 lo -> lo <= hi < 2 ^ 63 ->
  let '(mc, ns) := code_range lo hi np in
  mc = hi - lo + one_if (ns =? 1) /\ 0 <= mc < 2 ^ 64 /\ (ns = 0 \/ ns = 1 \/ ns = 2) /\ (0 < ns <-> np = true) /\
  (ns = 2 -> mc = UINT64_MAX).
Proof.
  intros [Hl _] Hh. unfold code_range, UINT64_MAX. rewrite wrap_id by (unfold is_word; lia).
  destruct np; [|simpl; lia]. destruct (Z.ltb_spec (hi - lo) (2 ^ 64 - 1)); simpl; intuition lia.
Qed.

Lemma Int_new_served {Mit : Type} (vc : VirtualColumn Mit) np desc :
  is_sword 64 (vc_RoughMin vc) -> vc_RoughMin vc <= vc_RoughMax vc < 2 ^ 63 ->
  let e := Int_new vc np desc in
  served e (vc_RoughMin vc) (vc_RoughMax vc) /\ descending e = desc /\ (0 < null_status e <-> np = true).
Proof.
  intros Hl Hh. pose proof (code_range_spec (vc_RoughMin vc) (vc_RoughMax vc) np Hl Hh) as H. unfold Int_new.
  destruct (code_range _ _ np) as [mc ns]. destruct H as (Hm & Hw & Hs & Hn & _). simpl.
  split; [|done]. split; simpl; done || lia.
Qed.

(** An encoder made for two columns: the code for nulls is missing in the range. *)
Record united (e : EncInt) (lo hi : Z) : Prop := {
  un_lo : is_sword 64 lo;
  un_hi : lo <= hi < 2 ^ 63;
  un_status : null_status e = 0 \/ null_status e = 1 \/ null_status e = 2;
  un_min : min_val e = lo;
  un_max : max_code e = hi - lo;
  un_size : size e = CalculateByteSize (max_code e) + one_if (null_status e =? 2)
}.

(** It serves the range if a null does not need the code, or there is room for one more. *)
Definition null_fits (e : EncInt) : Prop :=
  null_status e = 1 -> descending e = false /\ max_code e + 1 < 256 ^ size e.

Lemma united_ok e lo hi : united e lo hi -> null_fits e -> int_ok e lo hi.
Proof.
  intros [[Hl _] Hh Hs Hm Hc Hz] Hf. unfold null_fits in Hf.
  destruct (CalculateByteSize_fits (max_code e)) as [Hb Hfit]; [unfold is_word; lia|].
  split; unfold code_bytes; rewrite ?Hm, ?Hz, ?Z.add_simpl_r; try lia.
  destruct (Z.eqb_spec (null_status e) 1) as [E|]; simpl; [|destruct (descending e); lia].
  destruct (Hf E) as [Hd Hf']. rewrite Hz, E in Hf'. simpl in Hf'. rewrite Hd. rewrite Z.add_0_r in Hf'. lia.
Qed.

Lemma unite_status ns code : (ns = 0 \/ ns = 1 \/ ns = 2) ->
  let ns' := if (ns =? 1) && (code =? UINT64_MAX) then 2 else ns in
  (ns' = 0 \/ ns' = 1 \/ ns' = 2) /\ (0 < ns' <-> 0 < ns).
Proof. intros H. simpl. destruct (Z.eqb_spec ns 1); simpl; [destruct (code =? UINT64_MAX)|]; lia. Qed.

Lemma unite_ranges (desc : bool) (t : ColumnType) (lo hi lo2 hi2 ns mf xf : Z) :
  is_sword 64 lo -> is_sword 64 lo2 -> lo <= hi < 2 ^ 63 -> lo2 <= hi2 < 2 ^ 63 -> (ns = 0 \/ ns = 1 \/ ns = 2) ->
  let mn := if lo2 <? lo then lo2 else lo in
  let mx := if hi <? hi2 then hi2 else hi in
  let code := wrap64 (mx - mn) in
  let ns' := if (ns =? 1) && (code =? UINT64_MAX) then 2 else ns in
  united (mkEI desc ns' t (CalculateByteSize code + one_if (ns' =? 2)) mn code mf xf) (Z.min lo lo2) (Z.max hi hi2) /\
  (0 < ns' <-> 0 < ns).
Proof.
  intros [Hl _] [Hl2 _] Hh Hh2 Hs mn mx. assert (mn = Z.min lo lo2) as -> by (unfold mn; cmp_solve).
  assert (mx = Z.max hi hi2) as -> by (unfold mx; cmp_solve). rewrite wrap_id by (unfold is_word; lia). intros c ns'.
  pose proof (unite_status ns c Hs) as [H1 H2]. split; [|done]. split; simpl; try done; unfold is_sword; lia.
Qed.

Lemma served_max e lo hi : served e lo hi -> swrap 64 (max_code e + min_val e - one_if (null_status e =? 1)) = hi.
Proof.
  intros [[Hl _] Hh Hs Hm Hc Hw Hz]. rewrite Hm, Hc.
  replace (hi - lo + one_if (null_status e =? 1) + lo - one_if (null_status e =? 1)) with hi by lia.
  apply swrap_id; unfold is_sword; lia.
Qed.

Lemma Int_SecondColumn_united {Mit : Type} (vc : VirtualColumn Mit) e e' lo hi :
  served e lo hi -> is_sword 64 (vc_RoughMin vc) -> vc_RoughMin vc <= vc_RoughMax vc < 2 ^ 63 ->
  Int_SecondColumn e vc = (true, e') ->
  united e' (Z.min lo (vc_RoughMin vc)) (Z.max hi (vc_RoughMax vc)) /\ (0 < null_status e' <-> 0 < null_status e) /\
  descending e' = descending e.
Proof.
  intros Hs Hl2 Hh2 H. unfold Int_SecondColumn in H.
  destruct (_ && _); [discriminate|]. destruct (_ || _); [discriminate|]. injection H as <-.
  rewrite (served_max _ _ _ Hs). destruct Hs as [Hl Hh Hst Hm _ _ _]. rewrite Hm.
  destruct (unite_ranges (descending e) (vc_type e) lo hi (vc_RoughMin vc) (vc_RoughMax vc) (null_status e)
              (min_found e) (max_found e) Hl Hl2 Hh Hh2 Hst) as [H1 H2]. done.
Qed.

(** ** Decimals *)

Section Decimals.
Context {Mit : Type} (vc1 vc2 : VirtualColumn Mit) (np desc : bool).

Definition s1 : Z := ct_scale (vc_Type vc1).
Definition s2 : Z := ct_scale (vc_Type vc2).
(** The factors that bring the values to the greater scale. *)
Definition up1 : Z := 10 ^ (Z.max s1 s2 - s1).
Definition up2 : Z := 10 ^ (Z.max s1 s2 - s2).

(** The scaled ranges are ranges of 64-bit numbers. *)
Record scaled_ok : Prop := {
  sc_1 : 0 <= s1 /\ 0 <= s2;
  sc_range1 : is_sword 64 (vc_RoughMin vc1) /\ vc_RoughMin vc1 <= vc_RoughMax vc1 < 2 ^ 63;
  sc_up1 : is_sword 64 (vc_RoughMin vc1 * up1) /\ is_sword 64 (vc_RoughMax vc1 * up1);
  sc_range2 : vc_RoughMin vc2 <= vc_RoughMax vc2;
  sc_up2 : is_sword 64 (vc_RoughMin vc2 * up2) /\ is_sword 64 (vc_RoughMax vc2 * up2)
}.

Lemma Decimal_joined (Hs : scaled_ok) :
  let d := snd (Decimal_SecondColumn (Decimal_new vc1 np desc) vc2) in
  scale d = Z.max s1 s2 /\ multiplier d = up1 /\ sec_multiplier d = up2 /\ descending (d_int d) = desc /\
  (0 < null_status (d_int d) <-> np = true) /\
  united (d_int d) (Z.min (vc_RoughMin vc1 * up1) (vc_RoughMin vc2 * up2))
    (Z.max (vc_RoughMax vc1 * up1) (vc_RoughMax vc2 * up2)).
Proof.
  destruct Hs as [Hsc [Hl1 Hh1] [Hu1 Hu1'] Hr2 [Hu2 Hu2']]. pose proof (code_range_spec _ _ np Hl1 Hh1) as Hc.
  unfold Decimal_new. destruct (code_range _ _ np) as [mc ns]. destruct Hc as (Hm & Hw & Hst & Hn & _).
  cbv zeta. unfold Decimal_SecondColumn. cbn [d_int scale multiplier sec_multiplier max_code min_val null_status].
  fold s1 s2. replace (mc + vc_RoughMin vc1 - one_if (ns =? 1)) with (vc_RoughMax vc1) by lia.
  rewrite (swrap_id 64 (vc_RoughMax vc1)) by (unfold is_sword in *; lia).
  assert (0 < up1 /\ 0 < up2) as [Hp1 Hp2] by (unfold up1, up2; split; apply Z.pow_pos_nonneg; lia).
  assert ((if s1 <? s2 then PowOfTen (s2 - s1) else 1) = up1) as ->
    by (unfold up1, PowOfTen; destruct (Z.ltb_spec s1 s2); [f_equal; lia|rewrite Z.max_l, Z.sub_diag by lia; done]).
  assert ((if s2 <? s1 then PowOfTen (s1 - s2) else 1) = up2) as ->
    by (unfold up2, PowOfTen; destruct (Z.ltb_spec s2 s1); [f_equal; lia|rewrite Z.max_r, Z.sub_diag by lia; done]).
  replace (if s1 <? s2 then (swrap 64 (vc_RoughMin vc1 * up1), swrap 64 (vc_RoughMax vc1 * up1)) else (vc_RoughMin vc1, vc_RoughMax vc1))
    with (vc_RoughMin vc1 * up1, vc_RoughMax vc1 * up1).
  2: { destruct (Z.ltb_spec s1 s2); [by rewrite !swrap_id by lia || done|].
       unfold up1. rewrite Z.max_l, Z.sub_diag by lia. by rewrite !Z.mul_1_r. }
  replace (if s2 <? s1 then (swrap 64 (vc_RoughMin vc2 * up2), swrap 64 (vc_RoughMax vc2 * up2)) else (vc_RoughMin vc2, vc_RoughMax vc2))
    with (vc_RoughMin vc2 * up2, vc_RoughMax vc2 * up2).
  2: { destruct (Z.ltb_spec s2 s1); [by rewrite !swrap_id by lia || done|].
       unfold up2. rewrite Z.max_r, Z.sub_diag by lia. by rewrite !Z.mul_1_r. }
  assert (vc_RoughMin vc1 * up1 <= vc_RoughMax vc1 * up1) by nia.
  assert (vc_RoughMin vc2 * up2 <= vc_RoughMax vc2 * up2) by nia.
  destruct (unite_ranges desc (vc_Type vc1) (vc_RoughMin vc1 * up1) (vc_RoughMax vc1 * up1) (vc_RoughMin vc2 * up2)
              (vc_RoughMax vc2 * up2) ns PLUS_INF_64 MINUS_INF_64) as [H1 H2]; try done; try (unfold is_sword in *; lia).
  cbn [snd d_int scale multiplier sec_multiplier descending null_status]. rewrite H2. repeat split; try done; try lia; try apply H1; try apply Hn.
Qed.
End Decimals.

(** ** Dates and years *)

(** A time stamp that the column holds: its low bits are zero, or it is an infinity. *)
Definition stamp (sh v : Z) : Prop := v = PLUS_INF_64 \/ v = MINUS_INF_64 \/ v mod 2 ^ sh = 0.

Section Stamps.
Context (sh : Z) (Hsh : 1 <= sh < 63).
Abbreviation enc := (sort_encoding sh).

Lemma sort_encoding_cases v :
  is_sword 64 v -> (v = PLUS_INF_64 /\ enc v = v) \/ (v = MINUS_INF_64 /\ enc v = v) \/
  (MINUS_INF_64 < v < PLUS_INF_64 /\ enc v = v / 2 ^ sh /\ - 2 ^ 62 <= enc v < 2 ^ 62).
Proof.
  intros Hv. unfold sort_encoding, is_sword, MINUS_INF_64, PLUS_INF_64 in *.
  destruct (Z.eqb_spec v (- 0x8000000000000000)); [by right; left|].
  destruct (Z.eqb_spec v 0x7FFFFFFFFFFFFFFF); [by left|]. right; right. simpl. rewrite Z.shiftr_div_pow2 by lia.
  split; [lia|]. split; [done|]. assert (2 <= 2 ^ sh) by (change 2 with (2 ^ 1) at 1; apply Z.pow_le_mono_r; lia).
  split; [apply Z.div_le_lower_bound; nia|apply Z.div_lt_upper_bound; nia].
Qed.

Lemma sort_encoding_mono v w : is_sword 64 v -> is_sword 64 w -> v <= w -> enc v <= enc w.
Proof.
  intros Hv Hw Hle. pose proof (sort_encoding_cases v Hv). pose proof (sort_encoding_cases w Hw).
  pose proof (Z.div_le_mono v w (2 ^ sh)). pose proof (Z.pow_pos_nonneg 2 sh). unfold PLUS_INF_64, MINUS_INF_64, is_sword in *. lia.
Qed.

Lemma sort_encoding_null v : is_sword 64 v -> enc v <> NULL_VALUE_64.
Proof. intros Hv. pose proof (sort_encoding_cases v Hv). unfold PLUS_INF_64, MINUS_INF_64, NULL_VALUE_64 in *. lia. Qed.

Lemma sort_encoding_sword v : is_sword 64 v -> is_sword 64 (enc v).
Proof. intros Hv. pose proof (sort_encoding_cases v Hv). unfold PLUS_INF_64, MINUS_INF_64, is_sword in *. lia. Qed.

(** On the stamps of a column nothing is lost. *)
Lemma sort_decoding_encoding v : is_sword 64 v -> stamp sh v -> sort_decoding sh (enc v) = v.
Proof.
  intros Hv Hs. pose proof (Z.pow_pos_nonneg 2 sh). unfold sort_decoding.
  destruct (sort_encoding_cases v Hv) as [[Ei Ee]|[[Ei Ee]|(Hr & E & Hb)]]; try (rewrite Ee, Ei; done).
  assert (v mod 2 ^ sh = 0) as Hm by (destruct Hs as [?|[?|?]]; unfold PLUS_INF_64, MINUS_INF_64 in *; lia || done).
  replace (enc v =? MINUS_INF_64) with false by (unfold MINUS_INF_64; cmp_solve).
  replace (enc v =? PLUS_INF_64) with false by (unfold PLUS_INF_64; cmp_solve).
  simpl. rewrite Z.shiftl_mul_pow2, E by lia.
  replace (v / 2 ^ sh * 2 ^ sh) with v; [by apply swrap_id|]. pose proof (Z.div_mod v (2 ^ sh)). lia.
Qed.

Lemma sort_encoding_order v w :
  is_sword 64 v -> is_sword 64 w -> stamp sh v -> stamp sh w -> (enc v ?= enc w) = (v ?= w).
Proof.
  intros Hv Hw Hs Ht. pose proof (sort_encoding_mono v w Hv Hw). pose proof (sort_encoding_mono w v Hw Hv).
  pose proof (sort_decoding_encoding v Hv Hs) as Ev. pose proof (sort_decoding_encoding w Hw Ht) as Ew.
  assert (enc v = enc w -> v = w) by congruence. compare_solve.
Qed.

Lemma sorted_new_served {Mit : Type} (vc : VirtualColumn Mit) np desc :
  is_sword 64 (vc_RoughMin vc) -> vc_RoughMin vc <= vc_RoughMax vc < 2 ^ 63 ->
  enc (vc_RoughMax vc) - enc (vc_RoughMin vc) < UINT64_MAX ->
  let e := sorted_new enc vc np desc in
  served e (enc (vc_RoughMin vc)) (enc (vc_RoughMax vc)) /\ descending e = desc /\ null_status e = one_if np.
Proof.
  intros Hl Hh Hb. assert (is_sword 64 (vc_RoughMax vc)) as Hx by (unfold is_sword in *; lia).
  pose proof (sort_encoding_mono _ _ Hl Hx (proj1 Hh)). pose proof (sort_encoding_sword _ Hl). pose proof (sort_encoding_sword _ Hx).
  unfold sorted_new. unfold UINT64_MAX in *. rewrite wrap_id by (unfold is_word; lia).
  rewrite (proj2 (Z.eqb_neq _ _)) by lia. split; [|done].
  destruct np; simpl; split; simpl; unfold is_sword in *; done || lia.
Qed.

End Stamps.

Lemma joined_range_spec {Mit : Type} (f : Z -> Z) (vc : VirtualColumn Mit) e lo hi :
  served e lo hi ->
  joined_range f e vc = (Z.min lo (f (vc_RoughMin vc)), Z.max hi (f (vc_RoughMax vc))).
Proof.
  intros Hs. unfold joined_range. rewrite (served_max _ _ _ Hs), (sv_min _ _ _ Hs). f_equal; cmp_solve.
Qed.

Lemma with_range_served e lo hi c :
  null_status e = 0 \/ null_status e = 1 -> is_sword 64 lo -> lo <= hi < 2 ^ 63 ->
  c = hi - lo + one_if (null_status e =? 1) -> c < 2 ^ 64 -> served (with_range e lo c) lo hi.
Proof.
  intros Hn Hl Hh -> Hw. assert ((null_status e =? 2) = false) as E by (apply Z.eqb_neq; lia).
  split; simpl; rewrite ?E; simpl; done || lia.
Qed.

(** ** What the encoders promise *)

(** The values of a column: within its rough bounds, null only where nulls are possible. *)
Definition column_value (lo hi : Z) (nulls_possible : bool) (o : option Z) : Prop :=
  match o with
  | None => nulls_possible = true
  | Some v => lo <= v <= hi /\ (nulls_possible = true -> v <> NULL_VALUE_64)
  end.

Definition vc_value {Mit : Type} (vc : VirtualColumn Mit) (mit : Mit) : option Z :=
  if vc_IsNull vc mit then None else Some (vc_GetNotNullValueInt64 vc mit).

(** The rough bounds of a column are 64-bit numbers in order. *)
Definition rough_ok {Mit : Type} (vc : VirtualColumn Mit) : Prop :=
  is_sword 64 (vc_RoughMin vc) /\ vc_RoughMin vc <= vc_RoughMax vc < 2 ^ 63.

Lemma column_value_fits e lo hi lo' hi' np o :
  (0 < null_status e <-> np = true) -> lo' <= lo -> hi <= hi' -> column_value lo hi np o -> fits e lo' hi' o.
Proof. intros Hn Hl Hh. destruct o as [v|]; simpl; [|tauto]. intros [Hv Hnn]. split; [lia|tauto]. Qed.

(** The code that goes with the value in the other interface. *)
Lemma Int_ValEncode_key e lo hi o st st' :
  int_ok e lo hi -> fits e lo hi o -> null_status e <= 1 -> max_code e < 2 ^ 63 -> hi - min_val e + 1 < 2 ^ 63 ->
  (null_status e = 0 -> o <> Some NULL_VALUE_64) ->
  snd (Int_Encode e (arg_of o) st) = bytes_be (Z.to_nat (size e)) (snd (Int_ValEncode e (arg_of o) st')).
Proof.
  intros He Ho Hs Hm Hh Hnn. rewrite (Int_key e lo hi He) by done. unfold null_byte, code_bytes.
  pose proof (code_of_range e lo hi He o Ho) as Hc. destruct (ok_status _ _ _ He) as [E|[E|E]]; [| |lia]; rewrite E; simpl; rewrite Z.sub_0_r; f_equal;
    unfold Int_ValEncode; destruct o as [v|]; simpl in *; try lia.
  all: destruct He as [? ? ? ? ? Ht]; unfold code, null_code in *; rewrite E in *; simpl in *.
  - destruct (Z.eqb_spec v NULL_VALUE_64) as [->|]; [by destruct Hnn|]. destruct st'; simpl; rewrite ?E; simpl;
      rewrite (swrap_id 64 (v - min_val e + 0)) by (unfold is_sword; lia); destruct (descending e); rewrite ?swrap_id; unfold is_sword; lia.
  - destruct (Z.eqb_spec v NULL_VALUE_64) as [->|]; [by destruct (proj2 Ho ltac:(lia))|]. destruct st'; simpl; rewrite ?E; simpl;
      rewrite (swrap_id 64 (v - min_val e + 1)) by (unfold is_sword; lia); destruct (descending e); rewrite ?swrap_id; unfold is_sword; lia.
  - destruct (descending e); simpl; [|done]. rewrite swrap_id; unfold is_sword; lia.
Qed.

(** C21: the keys of an integer column have the size that the encoder announces and the order of
    the values under [memcmp], nulls first, all reversed for a descending order; null keys are
    recognized and the others are decoded to their values. *)
Theorem EncoderInt_keys {Mit : Type} (vc : VirtualColumn Mit) (nulls_possible desc st1 st2 : bool) (o1 o2 : option Z)
    (Hvc : rough_ok vc)
    (H1 : column_value (vc_RoughMin vc) (vc_RoughMax vc) nulls_possible o1)
    (H2 : column_value (vc_RoughMin vc) (vc_RoughMax vc) nulls_possible o2) :
  let e := Int_new vc nulls_possible desc in
  let key1 := snd (Int_Encode e (arg_of o1) st1) in
  let key2 := snd (Int_Encode e (arg_of o2) st2) in
  length key1 = Z.to_nat (size e) /\
  (memcmp key1 key2 (Z.to_nat (size e)) ?= 0) = directed desc (null_first Z.compare o1 o2) /\
  Int_IsNull e key1 = negb (bool_decide (is_Some o1)) /\
  (forall v, o1 = Some v -> Int_GetValue64 e key1 = v).
Proof.
  intros e key1 key2. destruct Hvc as [Hl Hh]. destruct (Int_new_served vc nulls_possible desc Hl Hh) as (Hs & Hd & Hn).
  fold e in Hs, Hd, Hn. pose proof (served_ok _ _ _ Hs) as He. pose proof (column_value_fits e _ _ _ _ _ o1 Hn ltac:(reflexivity) ltac:(reflexivity) H1) as F1.
  pose proof (column_value_fits e _ _ _ _ _ o2 Hn ltac:(reflexivity) ltac:(reflexivity) H2) as F2.
  split; [by apply (Int_key_length e _ _ He)|]. split; [rewrite <- Hd; by apply (Int_key_order e _ _ He)|].
  split; [by apply (Int_decode_null e _ _ He)|]. intros v ->. by apply (Int_decode_value e _ _ He).
Qed.

(** A key of the first and a key of the second column of an encoder of two integer columns have the
    order of the values, if the encoder has room for nulls ([null_fits]); [EncoderInt_two_columns_null]
    below is an encoder without. *)
Theorem EncoderInt_two_columns {Mit : Type} (vc1 vc2 : VirtualColumn Mit) (nulls_possible desc st1 st2 : bool)
    (o1 o2 : option Z) (e : EncInt) (Hvc1 : rough_ok vc1) (Hvc2 : rough_ok vc2)
    (He : Int_SecondColumn (Int_new vc1 nulls_possible desc) vc2 = (true, e)) (Hfit : null_fits e)
    (H1 : column_value (vc_RoughMin vc1) (vc_RoughMax vc1) nulls_possible o1)
    (H2 : column_value (vc_RoughMin vc2) (vc_RoughMax vc2) nulls_possible o2) :
  let key1 := snd (Int_Encode e (arg_of o1) st1) in
  let key2 := snd (Int_Encode e (arg_of o2) st2) in
  length key1 = Z.to_nat (size e) /\ length key2 = Z.to_nat (size e) /\
  (memcmp key1 key2 (Z.to_nat (size e)) ?= 0) = directed desc (null_first Z.compare o1 o2) /\
  Int_IsNull e key1 = negb (bool_decide (is_Some o1)).
Proof.
  intros key1 key2. destruct Hvc1 as [Hl Hh], Hvc2 as [Hl2 Hh2].
  destruct (Int_new_served vc1 nulls_possible desc Hl Hh) as (Hs & Hd & Hn).
  destruct (Int_SecondColumn_united vc2 _ e _ _ Hs Hl2 Hh2 He) as (Hu & Hn' & Hd').
  pose proof (united_ok _ _ _ Hu Hfit) as Hok. rewrite Hn in Hn'. rewrite Hd in Hd'.
  assert (fits e (Z.min (vc_RoughMin vc1) (vc_RoughMin vc2)) (Z.max (vc_RoughMax vc1) (vc_RoughMax vc2)) o1) as F1
    by (apply (column_value_fits e _ _ _ _ _ o1 Hn' (Z.le_min_l _ _) (Z.le_max_l _ _) H1)).
  assert (fits e (Z.min (vc_RoughMin vc1) (vc_RoughMin vc2)) (Z.max (vc_RoughMax vc1) (vc_RoughMax vc2)) o2) as F2
    by (apply (column_value_fits e _ _ _ _ _ o2 Hn' (Z.le_min_r _ _) (Z.le_max_r _ _) H2)).
  split; [by apply (Int_key_length e _ _ Hok)|]. split; [by apply (Int_key_length e _ _ Hok)|].
  split; [rewrite <- Hd'; by apply (Int_key_order e _ _ Hok)|by apply (Int_decode_null e _ _ Hok)].
Qed.

Lemma Decimal_key {Mit : Type} (d : EncDec) (vc : VirtualColumn Mit) mit st (up : Z) :
  (forall v, vc_value vc mit = Some v -> is_sword 64 (v * up) /\ (0 < null_status (d_int d) -> v * up <> NULL_VALUE_64)) ->
  (vc_value vc mit = None -> 0 < null_status (d_int d)) ->
  up = 10 ^ (scale d - ct_scale (vc_Type vc)) -> ct_scale (vc_Type vc) <= scale d ->
  snd (Decimal_Encode_vc d vc mit st)
  = snd (Int_Encode (d_int d) (arg_of (option_map (fun v => v * up) (vc_value vc mit))) st).
Proof.
  intros Hs Hn -> Hle. unfold Decimal_Encode_vc, vc_value in *.
  destruct (vc_IsNull vc mit); simpl.
  - specialize (Hn eq_refl). rewrite (proj2 (Z.ltb_lt _ _) Hn). unfold Int_Encode. by rewrite (proj2 (Z.ltb_lt _ _) Hn).
  - rewrite andb_false_r. destruct (Hs _ eq_refl) as [Hw _].
    replace (if ct_scale (vc_Type vc) <? scale d then swrap 64 (vc_GetNotNullValueInt64 vc mit * PowOfTen (scale d - ct_scale (vc_Type vc))) else vc_GetNotNullValueInt64 vc mit)
      with (vc_GetNotNullValueInt64 vc mit * 10 ^ (scale d - ct_scale (vc_Type vc))); [done|].
    destruct (Z.ltb_spec (ct_scale (vc_Type vc)) (scale d)); [by rewrite swrap_id|].
    replace (scale d - ct_scale (vc_Type vc)) with 0 by lia. by rewrite Z.mul_1_r.
Qed.

Lemma scaled_value_fits (e : EncInt) lo hi up lo' hi' np (o : option Z) :
  (0 < null_status e <-> np = true) -> 0 < up -> lo' <= lo * up -> hi * up <= hi' -> NULL_VALUE_64 < lo * up ->
  column_value lo hi np o -> fits e lo' hi' (option_map (fun v => v * up) o).
Proof.
  intros Hn Hu Hl Hh Hnn. destruct o as [v|]; simpl; [|tauto]. intros [Hv _]. split; [nia|]. intros _. nia.
Qed.

(** Decimals [v / 10 ^ s1] and [w / 10 ^ s2] compared. *)
Definition decimal_compare (s1 s2 v w : Z) : comparison := v * 10 ^ s2 ?= w * 10 ^ s1.

Lemma scaled_compare s1 s2 v w :
  0 <= s1 -> 0 <= s2 -> (v * 10 ^ (Z.max s1 s2 - s1) ?= w * 10 ^ (Z.max s1 s2 - s2)) = decimal_compare s1 s2 v w.
Proof.
  intros H1 H2. unfold decimal_compare. pose proof (Z.pow_pos_nonneg 10 s1). pose proof (Z.pow_pos_nonneg 10 s2).
  pose proof (Z.pow_pos_nonneg 10 (Z.max s1 s2 - s1)). pose proof (Z.pow_pos_nonneg 10 (Z.max s1 s2 - s2)).
  assert (10 ^ (Z.max s1 s2 - s1) * 10 ^ s1 = 10 ^ (Z.max s1 s2 - s2) * 10 ^ s2) as E
    by (rewrite <- !Z.pow_add_r by lia; f_equal; lia).
  set (a := 10 ^ (Z.max s1 s2 - s1)) in *. set (b := 10 ^ (Z.max s1 s2 - s2)) in *.
  set (p := 10 ^ s1) in *. set (q := 10 ^ s2) in *.
  rewrite (Zmult_compare_compat_r (v * a) (w * b) (p * q)) by nia.
  rewrite (Zmult_compare_compat_r (v * q) (w * p) (b * q)) by nia. f_equal; [|ring].
  replace (v * a * (p * q)) with (v * q * (a * p)) by ring. rewrite E. ring.
Qed.

(** Rows of two decimal columns of different scales, encoded by the encoder made for both, are
    ordered as the decimal numbers, if the scaled bounds are 64-bit numbers and there is room for
    nulls. *)
Theorem EncoderDecimal_order {Mit : Type} (vc1 vc2 : VirtualColumn Mit) (nulls_possible desc st1 st2 : bool) (mit1 mit2 : Mit)
    (Hs : scaled_ok vc1 vc2) (Hmin1 : NULL_VALUE_64 < vc_RoughMin vc1 * up1 vc1 vc2)
    (Hmin2 : NULL_VALUE_64 < vc_RoughMin vc2 * up2 vc1 vc2)
    (H1 : column_value (vc_RoughMin vc1) (vc_RoughMax vc1) nulls_possible (vc_value vc1 mit1))
    (H2 : column_value (vc_RoughMin vc2) (vc_RoughMax vc2) nulls_possible (vc_value vc2 mit2))
    (Hfit : null_fits (d_int (snd (Decimal_SecondColumn (Decimal_new vc1 nulls_possible desc) vc2)))) :
  let d := snd (Decimal_SecondColumn (Decimal_new vc1 nulls_possible desc) vc2) in
  let key1 := snd (Decimal_Encode_vc d vc1 mit1 st1) in
  let key2 := snd (Decimal_Encode_vc d vc2 mit2 st2) in
  (memcmp key1 key2 (Z.to_nat (size (d_int d))) ?= 0)
  = directed desc (null_first (decimal_compare (ct_scale (vc_Type vc1)) (ct_scale (vc_Type vc2)))
                     (vc_value vc1 mit1) (vc_value vc2 mit2)).
Proof.
  intros d. destruct (Decimal_joined vc1 vc2 nulls_possible desc Hs) as (Hsc & _ & _ & Hd & Hn & Hu). fold d in Hsc, Hd, Hn, Hu, Hfit.
  pose proof (united_ok _ _ _ Hu Hfit) as Hok. destruct Hs as [[Hs1 Hs2] _ [Hu1 Hu1'] _ [Hu2 Hu2']].
  assert (0 < up1 vc1 vc2 /\ 0 < up2 vc1 vc2) as [Hp1 Hp2] by (unfold up1, up2; split; apply Z.pow_pos_nonneg; lia).
  pose proof (scaled_value_fits (d_int d) _ _ _ _ _ _ _ Hn Hp1 (Z.le_min_l _ (vc_RoughMin vc2 * up2 vc1 vc2)) (Z.le_max_l _ (vc_RoughMax vc2 * up2 vc1 vc2)) Hmin1 H1) as F1.
  pose proof (scaled_value_fits (d_int d) _ _ _ _ _ _ _ Hn Hp2 (Z.le_min_r (vc_RoughMin vc1 * up1 vc1 vc2) _) (Z.le_max_r (vc_RoughMax vc1 * up1 vc1 vc2) _) Hmin2 H2) as F2.
  intros key1 key2. unfold key1, key2. clear key1 key2.
  rewrite (Decimal_key d vc1 mit1 st1 (up1 vc1 vc2)), (Decimal_key d vc2 mit2 st2 (up2 vc1 vc2)).
  - rewrite <- Hd. rewrite (Int_key_order (d_int d) _ _ Hok) by done. f_equal. unfold s1, s2 in *.
    destruct (vc_value vc1 mit1), (vc_value vc2 mit2); simpl; try done. by apply scaled_compare.
  - intros v E. rewrite E in *. simpl in *. split; [|tauto]. unfold is_sword in *. nia.
  - intros E. rewrite E in *. tauto.
  - rewrite Hsc. done.
  - rewrite Hsc. unfold s2. lia.
  - intros v E. rewrite E in *. simpl in *. split; [|tauto]. unfold is_sword in *. nia.
  - intros E. rewrite E in *. tauto.
  - rewrite Hsc. done.
  - rewrite Hsc. unfold s1. lia.
Qed.

(** A key of a date or year column: it is a time stamp of the column, or null. *)
Definition stamp_value (sh lo hi : Z) (nulls_possible : bool) (o : option Z) : Prop :=
  column_value lo hi nulls_possible o /\ (forall v, o = Some v -> is_sword 64 v /\ stamp sh v).

Lemma sorted_key sh e (o : option Z) st :
  1 <= sh < 63 -> (o = None -> 0 < null_status e) ->
  (forall v, o = Some v -> is_sword 64 v /\ (0 < null_status e -> v <> NULL_VALUE_64)) ->
  snd (sorted_Encode (sort_encoding sh) e (arg_of o) st) = snd (Int_Encode e (arg_of (option_map (sort_encoding sh) o)) st).
Proof.
  intros Hsh Hn Hv. unfold sorted_Encode. destruct o as [v|]; simpl.
  - destruct (Hv v eq_refl) as [_ Hvn]. destruct (Z.ltb_spec 0 (null_status e)); simpl; [|done].
    destruct (Z.eqb_spec v NULL_VALUE_64); [tauto|done].
  - specialize (Hn eq_refl). unfold Int_Encode. by rewrite (proj2 (Z.ltb_lt _ _) Hn).
Qed.

Lemma sorted_value_fits sh e lo hi lo' hi' np (o : option Z) :
  1 <= sh < 63 -> is_sword 64 lo -> is_sword 64 hi -> (0 < null_status e <-> np = true) ->
  lo' <= sort_encoding sh lo -> sort_encoding sh hi <= hi' ->
  stamp_value sh lo hi np o -> fits e lo' hi' (option_map (sort_encoding sh) o).
Proof.
  intros Hsh Hlo Hhi Hn Hl Hh [Hc Hs]. destruct o as [v|]; simpl in *; [|tauto].
  destruct (Hs v eq_refl) as [Hv _]. split; [|intros _; by apply sort_encoding_null].
  pose proof (sort_encoding_mono sh Hsh lo v Hlo Hv). pose proof (sort_encoding_mono sh Hsh v hi Hv Hhi). lia.
Qed.

Lemma sorted_two_columns sh (e : EncInt) (lo1 hi1 lo2 hi2 lo' hi' : Z) (np st1 st2 : bool) (o1 o2 : option Z) :
  1 <= sh < 63 -> is_sword 64 lo1 -> is_sword 64 hi1 -> is_sword 64 lo2 -> is_sword 64 hi2 ->
  int_ok e lo' hi' -> (0 < null_status e <-> np = true) ->
  lo' <= sort_encoding sh lo1 -> sort_encoding sh hi1 <= hi' -> lo' <= sort_encoding sh lo2 -> sort_encoding sh hi2 <= hi' ->
  stamp_value sh lo1 hi1 np o1 -> stamp_value sh lo2 hi2 np o2 ->
  let key1 := snd (sorted_Encode (sort_encoding sh) e (arg_of o1) st1) in
  let key2 := snd (sorted_Encode (sort_encoding sh) e (arg_of o2) st2) in
  (memcmp key1 key2 (Z.to_nat (size e)) ?= 0) = directed (descending e) (null_first Z.compare o1 o2) /\
  sorted_GetValue64 (sort_decoding sh) e key1 = arg_of o1.
Proof.
  intros Hsh Hl1 Hh1 Hl2 Hh2 Hok Hn B1 B2 B3 B4 S1 S2.
  pose proof (sorted_value_fits sh e _ _ _ _ np o1 Hsh Hl1 Hh1 Hn B1 B2 S1) as F1.
  pose proof (sorted_value_fits sh e _ _ _ _ np o2 Hsh Hl2 Hh2 Hn B3 B4 S2) as F2. destruct S1 as [C1 S1], S2 as [C2 S2].
  assert (forall o lo hi, column_value lo hi np o -> (forall v, o = Some v -> is_sword 64 v /\ stamp sh v) ->
    (o = None -> 0 < null_status e) /\ (forall v, o = Some v -> is_sword 64 v /\ (0 < null_status e -> v <> NULL_VALUE_64))) as Hk.
  { intros o lo hi C S. split; [intros ->; simpl in C; tauto|]. intros v ->. split; [by apply S|]. destruct C. tauto. }
  destruct (Hk _ _ _ C1 S1) as [K1 K1'], (Hk _ _ _ C2 S2) as [K2 K2'].
  rewrite !sorted_key by done. split.
  - rewrite (Int_key_order e _ _ Hok) by done. f_equal. destruct o1 as [v1|], o2 as [v2|]; simpl; try done.
    destruct (S1 v1 eq_refl), (S2 v2 eq_refl). by apply sort_encoding_order.
  - unfold sorted_GetValue64. rewrite (Int_decode_null e _ _ Hok) by done. destruct o1 as [v1|]; simpl; [|done].
    rewrite (Int_decode_value e _ _ Hok) by done. destruct (S1 v1 eq_refl). by apply sort_decoding_encoding.
Qed.

(** The encoder after the second column, for dates and for years. *)
Lemma sorted_joined sh {Mit : Type} (vc1 vc2 : VirtualColumn Mit) np desc :
  1 <= sh < 63 -> rough_ok vc1 -> rough_ok vc2 ->
  let enc := sort_encoding sh in
  let lo := Z.min (enc (vc_RoughMin vc1)) (enc (vc_RoughMin vc2)) in
  let hi := Z.max (enc (vc_RoughMax vc1)) (enc (vc_RoughMax vc2)) in
  hi - lo < UINT64_MAX - 1 ->
  let e := sorted_new enc vc1 np desc in
  joined_range enc e vc2 = (lo, hi) /\ null_status e = one_if np /\ descending e = desc /\ max_code e < UINT64_MAX /\
  wrap64 (hi - lo) = hi - lo /\ wrap64 (hi - lo + one_if np) = hi - lo + one_if np /\
  served (with_range e lo (hi - lo + one_if np)) lo hi.
Proof.
  intros Hsh [Hl1 Hh1] [Hl2 Hh2] enc lo hi Hb e. subst enc.
  assert (is_sword 64 (vc_RoughMax vc1) /\ is_sword 64 (vc_RoughMax vc2)) as [Hx1 Hx2] by (unfold is_sword in *; lia).
  pose proof (sort_encoding_mono sh Hsh _ _ Hl1 Hx1 (proj1 Hh1)). pose proof (sort_encoding_mono sh Hsh _ _ Hl2 Hx2 (proj1 Hh2)).
  pose proof (sort_encoding_sword sh Hsh _ Hl1). pose proof (sort_encoding_sword sh Hsh _ Hl2).
  pose proof (sort_encoding_sword sh Hsh _ Hx1). pose proof (sort_encoding_sword sh Hsh _ Hx2).
  destruct (sorted_new_served sh Hsh vc1 np desc Hl1 Hh1) as (Hs & Hd & Hn); [lia|].
  fold e in Hs, Hd, Hn. pose proof (one_if_bounds np). split; [by apply joined_range_spec|]. split; [done|]. split; [done|].
  split; [rewrite (sv_max _ _ _ Hs), Hn; destruct np; simpl; lia|].
  split; [apply wrap_id; unfold is_word, is_sword, UINT64_MAX in *; lia|].
  split; [apply wrap_id; unfold is_word, is_sword, UINT64_MAX in *; lia|].
  apply with_range_served; unfold is_sword, UINT64_MAX in *; rewrite ?Hn; destruct np; simpl; lia.
Qed.

Lemma joined_keys sh {Mit : Type} (vc1 vc2 : VirtualColumn Mit) (np desc st1 st2 : bool) (o1 o2 : option Z) :
  1 <= sh < 63 -> rough_ok vc1 -> rough_ok vc2 ->
  let enc := sort_encoding sh in
  let lo := Z.min (enc (vc_RoughMin vc1)) (enc (vc_RoughMin vc2)) in
  let hi := Z.max (enc (vc_RoughMax vc1)) (enc (vc_RoughMax vc2)) in
  hi - lo < UINT64_MAX - 1 ->
  let e := with_range (sorted_new enc vc1 np desc) lo (hi - lo + one_if np) in
  stamp_value sh (vc_RoughMin vc1) (vc_RoughMax vc1) np o1 -> stamp_value sh (vc_RoughMin vc2) (vc_RoughMax vc2) np o2 ->
  let key1 := snd (sorted_Encode enc e (arg_of o1) st1) in
  let key2 := snd (sorted_Encode enc e (arg_of o2) st2) in
  (memcmp key1 key2 (Z.to_nat (size e)) ?= 0) = directed desc (null_first Z.compare o1 o2) /\
  sorted_GetValue64 (sort_decoding sh) e key1 = arg_of o1.
Proof.
  intros Hsh Hvc1 Hvc2 enc lo hi Hb e H1 H2. subst enc. destruct (sorted_joined sh vc1 vc2 np desc Hsh Hvc1 Hvc2 Hb) as (_ & Hn & Hd & _ & _ & _ & Hs).
  fold lo hi e in Hn, Hd, Hs. destruct Hvc1 as [Hl1 Hh1], Hvc2 as [Hl2 Hh2].
  change desc with (descending e).
  apply (sorted_two_columns sh e (vc_RoughMin vc1) (vc_RoughMax vc1) (vc_RoughMin vc2) (vc_RoughMax vc2) lo hi np);
    try done; try (unfold is_sword in *; lia); try (unfold lo, hi; lia); [by apply served_ok|].
  change (null_status e) with (one_if np). destruct np; simpl; intuition (done || lia).
Qed.

(** Keys of date columns, of one or of two that share an encoder, have the order of the dates,
    nulls first and reversed when descending, and are decoded to the dates. *)
Theorem EncoderDate_keys {Mit : Type} (vc1 vc2 : VirtualColumn Mit) (nulls_possible desc st1 st2 : bool) (o1 o2 : option Z)
    (e : EncInt) (Hvc1 : rough_ok vc1) (Hvc2 : rough_ok vc2)
    (Hb : Z.max (DateSortEncoding (vc_RoughMax vc1)) (DateSortEncoding (vc_RoughMax vc2))
          - Z.min (DateSortEncoding (vc_RoughMin vc1)) (DateSortEncoding (vc_RoughMin vc2)) < UINT64_MAX - 1)
    (He : Date_SecondColumn (Date_new vc1 nulls_possible desc) vc2 = (true, e))
    (H1 : stamp_value 28 (vc_RoughMin vc1) (vc_RoughMax vc1) nulls_possible o1)
    (H2 : stamp_value 28 (vc_RoughMin vc2) (vc_RoughMax vc2) nulls_possible o2) :
  let key1 := snd (Date_Encode e (arg_of o1) st1) in
  let key2 := snd (Date_Encode e (arg_of o2) st2) in
  (memcmp key1 key2 (Z.to_nat (size e)) ?= 0) = directed desc (null_first Z.compare o1 o2) /\
  Date_GetValue64 e key1 = arg_of o1.
Proof.
  destruct (sorted_joined 28 vc1 vc2 nulls_possible desc ltac:(lia) Hvc1 Hvc2 Hb) as (Hr & Hn & Hd & Hm & Hw & Hw' & Hs).
  unfold Date_SecondColumn, Date_new in He. destruct (negb _); [discriminate|]. unfold DateSortEncoding in *. rewrite Hr, Hw, Hn in He.
  rewrite (proj2 (Z.eqb_neq (max_code _) UINT64_MAX)) in He by lia. injection He as <-.
  replace (one_if ((one_if nulls_possible =? 1) && true)) with (one_if nulls_possible) by (by destruct nulls_possible).
  rewrite Hw'.
  by apply (joined_keys 28 vc1 vc2).
Qed.

(** The same for years. *)
Theorem EncoderYear_keys {Mit : Type} (vc1 vc2 : VirtualColumn Mit) (nulls_possible desc st1 st2 : bool) (o1 o2 : option Z)
    (e : EncInt) (Hvc1 : rough_ok vc1) (Hvc2 : rough_ok vc2)
    (Hb : Z.max (YearSortEncoding (vc_RoughMax vc1)) (YearSortEncoding (vc_RoughMax vc2))
          - Z.min (YearSortEncoding (vc_RoughMin vc1)) (YearSortEncoding (vc_RoughMin vc2)) < UINT64_MAX - 1)
    (He : Year_SecondColumn (Year_new vc1 nulls_possible desc) vc2 = (true, e))
    (H1 : stamp_value 37 (vc_RoughMin vc1) (vc_RoughMax vc1) nulls_possible o1)
    (H2 : stamp_value 37 (vc_RoughMin vc2) (vc_RoughMax vc2) nulls_possible o2) :
  let key1 := snd (Year_Encode e (arg_of o1) st1) in
  let key2 := snd (Year_Encode e (arg_of o2) st2) in
  (memcmp key1 key2 (Z.to_nat (size e)) ?= 0) = directed desc (null_first Z.compare o1 o2) /\
  Year_GetValue64 e key1 = arg_of o1.
Proof.
  destruct (sorted_joined 37 vc1 vc2 nulls_possible desc ltac:(lia) Hvc1 Hvc2 Hb) as (Hr & Hn & Hd & Hm & Hw & Hw' & Hs).
  unfold Year_SecondColumn, Year_new in He. destruct (negb _); [discriminate|]. unfold YearSortEncoding in *. rewrite Hr, Hw, Hn in He.
  rewrite (proj2 (Z.eqb_neq (_ - _) UINT64_MAX)) in He by lia. injection He as <-.
  match goal with |- context [with_range _ _ (if _ then ?c + 1 else ?c)] =>
    replace (if one_if nulls_possible =? 1 then c + 1 else c) with (c + one_if nulls_possible)
      by (destruct nulls_possible; simpl; lia) end.
  by apply (joined_keys 37 vc1 vc2).
Qed.

(** ** Statistics *)

(** A run of encodings that update the statistics. *)
Definition encode_all (e : EncInt) (l : list (option Z)) : EncInt :=
  foldl (fun e o => fst (Int_Encode e (arg_of o) true)) e l.

Lemma found_bounds e v : min_found (found e v) <= v <= max_found (found e v) /\
  min_found (found e v) <= min_found e /\ max_found e <= max_found (found e v).
Proof. unfold found. simpl. cmp_solve. Qed.

Lemma encode_step e o : 
  null_status (fst (Int_Encode e (arg_of o) true)) = null_status e /\
  min_found (fst (Int_Encode e (arg_of o) true)) <= min_found e /\ max_found e <= max_found (fst (Int_Encode e (arg_of o) true)) /\
  (forall v, o = Some v -> (0 < null_status e -> v <> NULL_VALUE_64) ->
     min_found (fst (Int_Encode e (arg_of o) true)) <= v <= max_found (fst (Int_Encode e (arg_of o) true))).
Proof.
  unfold Int_Encode. destruct (Z.ltb_spec 0 (null_status e)); simpl.
  - destruct (Z.eqb_spec (arg_of o) NULL_VALUE_64) as [E|]; simpl.
    + do 3 (split; [done|]). intros v -> Hv. simpl in E. tauto.
    + pose proof (found_bounds e (arg_of o)). split; [done|]. split; [apply H0|]. split; [apply H0|]. intros v ->. simpl in *. tauto.
  - pose proof (found_bounds e (arg_of o)). split; [done|]. split; [apply H0|]. split; [apply H0|]. intros v ->. simpl in *. tauto.
Qed.

Lemma encode_all_bounds l : forall e,
  (forall v, Some v ∈ l -> 0 < null_status e -> v <> NULL_VALUE_64) ->
  min_found (encode_all e l) <= min_found e /\ max_found e <= max_found (encode_all e l) /\
  forall v, Some v ∈ l -> min_found (encode_all e l) <= v <= max_found (encode_all e l).
Proof.
  induction l as [|o l IH]; intros e Hn; simpl; [split; [done|]; split; [done|]; intros v Hv; by apply not_elem_of_nil in Hv|].
  destruct (encode_step e o) as (Es & H1 & H2 & H3). set (e' := fst (Int_Encode e (arg_of o) true)) in *.
  destruct (IH e') as (I1 & I2 & I3); [intros v Hv; rewrite Es; apply Hn; by right|].
  split; [unfold encode_all in *; lia|]. split; [unfold encode_all in *; lia|].
  intros v [E|Hv]%elem_of_cons; [|by apply I3].
  specialize (H3 v (eq_sym E) ltac:(intros; apply Hn; [subst; by left|done])). unfold encode_all in *. lia.
Qed.

(** C25: when the encoder says that a pack with the values from [pack_min] to [pack_max] holds
    nothing that was encoded since the statistics were cleared, this is so. *)
Theorem EncoderInt_impossible_sound (e : EncInt) (l : list (option Z)) (pack_min pack_max v : Z)
    (Hn : forall w, Some w ∈ l -> 0 < null_status e -> w <> NULL_VALUE_64)
    (Him : Int_ImpossibleValues (encode_all (Int_ClearStatistics e) l) pack_min pack_max = true) (Hv : Some v ∈ l) :
  ~ pack_min <= v <= pack_max.
Proof.
  destruct (encode_all_bounds l (Int_ClearStatistics e) Hn) as (_ & _ & H). specialize (H v Hv).
  unfold Int_ImpossibleValues in Him. destruct (_ || _ || _); [discriminate|]. revert Him. cmp_solve.
Qed.

(** ** Examples and divergences *)

Module Columns.
Definition int_column (lo hi : Z) : VirtualColumn Z :=
  mkVC Z (mkType RC_INT 0 false) true lo hi (fun i => i <? lo) (fun i => i) (fun _ => 0) 0 (fun _ => []).
Definition typed_column (t : AttributeType) (sc lo hi : Z) : VirtualColumn Z :=
  mkVC Z (mkType t sc false) true lo hi (fun i => i <? lo) (fun i => i) (fun _ => 0) 0 (fun _ => []).
End Columns.
Import Columns.

(** The encoder of two columns loses the code for nulls: null and the greatest value have the same
    key, and two columns with one common value get keys of no bytes. *)
Theorem EncoderInt_two_columns_null :
  let e := snd (Int_SecondColumn (Int_new (int_column 0 255) true false) (int_column 10 20)) in
  let e0 := snd (Int_SecondColumn (Int_new (int_column 5 5) true false) (int_column 5 5)) in
  snd (Int_Encode e NULL_VALUE_64 false) = snd (Int_Encode e 255 false) /\ size e0 = 0 /\ null_status e0 = 1.
Proof. vm_compute. done. Qed.

(** Two time stamps cannot share an encoder, although the comment excludes only other types. *)
Theorem EncoderInt_timestamps :
  fst (Int_SecondColumn (Int_new (typed_column RC_TIMESTAMP 0 0 9) false false) (typed_column RC_TIMESTAMP 0 0 9)) = false.
Proof. vm_compute. done. Qed.

(** The decimal encoder of one column that uses all 64-bit numbers and nulls has no room for the
    byte of the nulls: different values have the same key. *)
Theorem EncoderDecimal_full_range :
  let d := Decimal_new (typed_column RC_NUM 2 MINUS_INF_64 PLUS_INF_64) true false in
  snd (Decimal_Encode d 0 false false) = snd (Decimal_Encode d (2 ^ 56) false false).
Proof. vm_compute. done. Qed.

(** With a shifted code a null key is decoded to the number below the minimum, and updates the
    statistics. *)
Theorem EncoderInt_null_statistics :
  let e := Int_new (int_column 10 20) true false in
  min_found (Int_UpdateStatistics e (snd (Int_Encode e NULL_VALUE_64 true))) = 9.
Proof. vm_compute. done. Qed.

Lemma EncoderInt_keys_witness :
  let e := Int_new (int_column (-5) 300) true true in
  length (snd (Int_Encode e 300 false)) = Z.to_nat (size e) /\
  (memcmp (snd (Int_Encode e 300 false)) (snd (Int_Encode e NULL_VALUE_64 false)) (Z.to_nat (size e)) ?= 0) = Lt /\
  Int_IsNull e (snd (Int_Encode e 300 false)) = false /\
  (forall v, Some 300 = Some v -> Int_GetValue64 e (snd (Int_Encode e 300 false)) = v).
Proof.
  apply (EncoderInt_keys (int_column (-5) 300) true true false false (Some 300) None).
  - split; simpl; unfold is_sword; lia.
  - simpl. unfold NULL_VALUE_64. lia.
  - reflexivity.
Defined.

Lemma EncoderInt_two_columns_witness :
  let e := snd (Int_SecondColumn (Int_new (int_column 0 200) true false) (int_column (-10) 20)) in
  length (snd (Int_Encode e 7 false)) = Z.to_nat (size e) /\ length (snd (Int_Encode e (-10) false)) = Z.to_nat (size e) /\
  (memcmp (snd (Int_Encode e 7 false)) (snd (Int_Encode e (-10) false)) (Z.to_nat (size e)) ?= 0) = Gt /\
  Int_IsNull e (snd (Int_Encode e 7 false)) = false.
Proof.
  apply (EncoderInt_two_columns (int_column 0 200) (int_column (-10) 20) true false false false (Some 7) (Some (-10))).
  - split; simpl; unfold is_sword; lia.
  - split; simpl; unfold is_sword; lia.
  - reflexivity.
  - intros _. split; reflexivity.
  - simpl. unfold NULL_VALUE_64. lia.
  - simpl. unfold NULL_VALUE_64. lia.
Defined.

Lemma EncoderDecimal_order_witness :
  let c1 := typed_column RC_NUM 2 (-100) 5000 in let c2 := typed_column RC_NUM 1 0 900 in
  let d := snd (Decimal_SecondColumn (Decimal_new c1 true false) c2) in
  (memcmp (snd (Decimal_Encode_vc d c1 123 false)) (snd (Decimal_Encode_vc d c2 13 false)) (Z.to_nat (size (d_int d))) ?= 0) = Lt.
Proof.
  apply (EncoderDecimal_order (typed_column RC_NUM 2 (-100) 5000) (typed_column RC_NUM 1 0 900) true false false false 123 13).
  - split; vm_compute; intuition discriminate.
  - vm_compute. reflexivity.
  - vm_compute. reflexivity.
  - vm_compute. intuition discriminate.
  - vm_compute. intuition discriminate.
  - intros _. split; vm_compute; reflexivity.
Defined.

Lemma EncoderDate_keys_witness :
  let c1 := typed_column RC_DATE 0 (3 * 2 ^ 28) (900 * 2 ^ 28) in let c2 := typed_column RC_DATE 0 (2 ^ 28) (70 * 2 ^ 28) in
  let e := snd (Date_SecondColumn (Date_new c1 true true) c2) in
  (memcmp (snd (Date_Encode e (900 * 2 ^ 28) true)) (snd (Date_Encode e (70 * 2 ^ 28) true)) (Z.to_nat (size e)) ?= 0) = Lt /\
  Date_GetValue64 e (snd (Date_Encode e (900 * 2 ^ 28) true)) = 900 * 2 ^ 28.
Proof.
  apply (EncoderDate_keys (typed_column RC_DATE 0 (3 * 2 ^ 28) (900 * 2 ^ 28)) (typed_column RC_DATE 0 (2 ^ 28) (70 * 2 ^ 28))
           true true true true (Some (900 * 2 ^ 28)) (Some (70 * 2 ^ 28))).
  - split; vm_compute; intuition discriminate.
  - split; vm_compute; intuition discriminate.
  - vm_compute. reflexivity.
  - reflexivity.
  - split; [vm_compute; intuition discriminate|]. intros v [= <-]. split; [vm_compute; intuition discriminate|right; right; reflexivity].
  - split; [vm_compute; intuition discriminate|]. intros v [= <-]. split; [vm_compute; intuition discriminate|right; right; reflexivity].
Defined.

Lemma EncoderInt_impossible_sound_witness : ~ 30 <= 7 <= 90.
Proof.
  apply (EncoderInt_impossible_sound (Int_new (int_column 0 200) true false) [Some 7; None; Some 20] 30 90 7).
  - intros w Hw _. apply list_elem_of_In in Hw. unfold NULL_VALUE_64.
    destruct Hw as [[= <-]|[Hw|[[= <-]|[]]]]; [lia|discriminate|lia].
  - vm_compute. reflexivity.
  - by left.
Defined.
