(* ===== verification/TextEncoders.v ===== *)
(** * Binary keys of floating-point and text columns, and of positions
    (core/ColumnBinEncoder.h, core/ColumnBinEncoder.cpp)

    [EncoderDouble] (prefix [Double_]), [EncoderText] (prefix [Text_]) and
    [MultiindexPositionEncoder] (prefix [Position_]).  As for the integer encoders, [Encode] is the
    bytes that it writes.  A text is a list of bytes; a failed [BHASSERT] is [None]. *)

From S2P Require Import Prelude BinTools ByteFile QSort KeyOrder Doubles IntEncoders.

(** ** Strings *)

(** [strcmp] of two strings of the engine (types/RCBString.cpp). *)
Definition rcb_strcmp (a b : list Z) : Z :=
  let len := Z.min (zlen a) (zlen b) in
  if len =? 0 then
    if (zlen a =? 0) && (zlen b =? 0) then 0 else if zlen a =? 0 then -1 else 1
  else if negb (zlen a =? zlen b) then
    let ret := memcmp a b (Z.to_nat len) in
    if ret =? 0 then if zlen a <? zlen b then -1 else 1 else ret
  else memcmp a b (Z.to_nat len).

(** ** EncoderDouble *)

Record EncDouble := mkEDbl {
  dbl_descending : bool;
  dbl_null_status : Z;
  dbl_size : Z;
  multiplier_vc1 : Z;
  multiplier_vc2 : Z
}.

(** The bit pattern of a number. *)
Definition bits_of_double (x : double) : Z :=
  match x with
  | DFin k =>
      let m := Z.abs k in
      let e := Z.log2 m - 52 in
      (if k <? 0 then sign_bit else 0) + (if m <? 2 ^ 52 then m else e * 2 ^ 52 + Z.shiftr m e)
  | DInf neg => (if neg then sign_bit else 0) + 2047 * 2 ^ 52
  | DNaN => 2047 * 2 ^ 52 + 1
  end.

Section Columns.
Context {Mit : Type}.

Definition fixed_multiplier (vc : VirtualColumn Mit) : Z :=
  if IsFixed (vc_Type vc) then PowOfTen (ct_scale (vc_Type vc)) else 0.

Definition Double_new (vc : VirtualColumn Mit) (nulls_possible desc : bool) : EncDouble :=
  mkEDbl desc (if nulls_possible then 2 else 0) (if nulls_possible then 9 else 8) (fixed_multiplier vc) 0.

Definition Double_SecondColumn (e : EncDouble) (vc : VirtualColumn Mit) : bool * EncDouble :=
  if negb (IsFixed (vc_Type vc)) && negb (IsFloat (vc_Type vc)) then (false, e)
  else (true, mkEDbl (dbl_descending e) (dbl_null_status e) (dbl_size e) (multiplier_vc1 e)
                (if IsFixed (vc_Type vc) then PowOfTen (ct_scale (vc_Type vc)) else multiplier_vc2 e)).

Definition Double_SetNull (e : EncDouble) : list Z :=
  if dbl_descending e then (replicate 9 0).[0 <- 1] else replicate 9 0.

(** The bytes for a bit pattern. *)
Definition Double_code (e : EncDouble) (d : Z) : list Z :=
  let coded_val := MonotonicDouble2Int64 d in
  let coded_val := if dbl_descending e then wrap64 (Z.lnot coded_val) else coded_val in
  (if dbl_null_status e =? 2 then [one_if (negb (dbl_descending e))] else []) ++ bytes_be 8 coded_val.

Definition Double_Encode_vc (e : EncDouble) (vc : VirtualColumn Mit) (mit : Mit) : list Z :=
  if (dbl_null_status e =? 2) && vc_IsNull vc mit then Double_SetNull e
  else Double_code e (vc_GetValueDouble vc mit).

(** A number that is given as 64 bits: a bit pattern, or a decimal to be divided. *)
Definition Double_Encode (e : EncDouble) (v : Z) (sec_column : bool) : list Z :=
  if (dbl_null_status e =? 2) && (v =? NULL_VALUE_64) then Double_SetNull e
  else
    let local_mult := if sec_column then multiplier_vc2 e else multiplier_vc1 e in
    Double_code e (if local_mult =? 0 then wrap64 v
                   else bits_of_double (ddiv (double_of_int v) (double_of_int local_mult))).

Definition Double_IsNull (e : EncDouble) (buf : list Z) : bool :=
  if negb (dbl_null_status e =? 2) then false
  else if dbl_descending e then hd 0 buf =? 1 else hd 0 buf =? 0.

Definition Double_GetValue64 (e : EncDouble) (buf : list Z) : Z :=
  if (dbl_null_status e =? 2)
     && ((negb (dbl_descending e) && (hd 0 buf =? 0)) || (dbl_descending e && (hd 0 buf =? 1)))
  then NULL_VALUE_64
  else
    let coded_val := of_be (take 8 (if dbl_null_status e =? 2 then tail buf else buf)) in
    let coded_val := if dbl_descending e then wrap64 (Z.lnot coded_val) else coded_val in
    swrap 64 (MonotonicInt642Double coded_val).

(** ** EncoderText *)

Record EncText := mkET {
  txt_descending : bool;
  txt_null_status : Z;
  txt_size : Z;
  mins : list Z;
  maxs : list Z;
  min_max_set : bool
}.

Definition Text_new (vc : VirtualColumn Mit) (nulls_possible desc : bool) : EncText :=
  mkET desc (one_if nulls_possible) (vc_MaxStringSize vc + 2) [] [] false.

Definition Text_SecondColumn (e : EncText) (vc : VirtualColumn Mit) : bool * EncText :=
  (true, mkET (txt_descending e) (txt_null_status e) (Z.max (txt_size e) (vc_MaxStringSize vc + 2)) (mins e) (maxs e)
           (min_max_set e)).

Definition Negate (buf : list Z) : list Z := map (fun b => 255 - b) buf.

Definition Text_SetNull (e : EncText) : list Z := replicate (Z.to_nat (txt_size e)) (if txt_descending e then 255 else 0).

Definition text_found (e : EncText) (s : list Z) : EncText :=
  if negb (min_max_set e) then mkET (txt_descending e) (txt_null_status e) (txt_size e) s s true
  else mkET (txt_descending e) (txt_null_status e) (txt_size e)
         (if rcb_strcmp s (mins e) <? 0 then s else mins e) (if 0 <? rcb_strcmp s (maxs e) then s else maxs e) true.

(** A null string is [None]; where there are no nulls, its length 0 is used. *)
Definition Text_Encode (e : EncText) (o : option (list Z)) (update_stats : bool) : option (EncText * list Z) :=
  if (0 <? txt_null_status e) && negb (bool_decide (is_Some o)) then Some (e, Text_SetNull e)
  else
    let s := default [] o in
    let e := if update_stats then text_found e s else e in
    let n := txt_size e in
    if n <? zlen s then None
    else
      let buf := s ++ drop (length s) (replicate (Z.to_nat n) 0) in
      let buf := buf.[n - 2 <- wrap 8 ((zlen s + 1) / 256)].[n - 1 <- (zlen s + 1) mod 256] in
      Some (e, if txt_descending e then Negate buf else buf).

Definition Text_Encode_vc (e : EncText) (vc : VirtualColumn Mit) (mit : Mit) (update_stats : bool) : option (EncText * list Z) :=
  if (0 <? txt_null_status e) && vc_IsNull vc mit then Some (e, Text_SetNull e)
  else Text_Encode e (Some (vc_GetNotNullValueString vc mit)) update_stats.

Definition Text_IsNull (e : EncText) (buf : list Z) : bool :=
  let n := txt_size e in
  let x := if txt_descending e then 255 else 0 in
  (buf.[0|n - 2] =? x) && (buf.[0|n - 1] =? x).

(** A descending key is negated in place: the second result is the buffer afterwards. *)
Definition Text_GetValueT (e : EncText) (buf : list Z) : option (list Z) * list Z :=
  if Text_IsNull e buf then (None, buf)
  else
    let buf := if txt_descending e then Negate buf else buf in
    let len := buf.[0|txt_size e - 2] * 256 + buf.[0|txt_size e - 1] - 1 in
    (Some (take (Z.to_nat len) buf), buf).

(** [strncmp] on the common length: it stops at a zero byte. *)
Fixpoint strncmp (a b : list Z) (n : nat) : Z :=
  match n with
  | O => 0
  | S m => if hd 0 a =? hd 0 b then if hd 0 a =? 0 then 0 else strncmp (tail a) (tail b) m else hd 0 a - hd 0 b
  end.

Definition Text_ImpossibleValues (e : EncText) (pack_min pack_max : list Z) : bool :=
  let lenmin := Z.min (zlen pack_min) (zlen (maxs e)) in
  let lenmax := Z.min (zlen pack_max) (zlen (mins e)) in
  (0 <? strncmp pack_min (maxs e) (Z.to_nat lenmin)) || (strncmp pack_max (mins e) (Z.to_nat lenmax) <? 0).

End Columns.

(** ** MultiindexPositionEncoder *)

(** The stored dimensions, their offsets and sizes. *)
Record PosEnc := mkPE { pe_offset : Z; pe_size : Z; dim_no : list Z; dim_offset : list Z; dim_size : list Z }.

Definition DimByteSize (orig_size : Z) : Z := CalculateByteSize (wrap64 (orig_size + 1)).

(** [orig] are the sizes of the dimensions, [dims] tells which ones are stored. *)
Definition Position_new (orig : list Z) (dims : Z -> bool) : PosEnc :=
  foldl (fun p i =>
           if dims i then
             let n := DimByteSize orig.[0|i] in
             mkPE 0 (pe_size p + n) (dim_no p ++ [i]) (dim_offset p ++ [0]) (dim_size p ++ [n])
           else p)
    (mkPE 0 0 [] [] []) (range 0 (zlen orig - 1)).

Fixpoint offsets (o : Z) (sizes : list Z) : list Z :=
  match sizes with [] => [] | n :: r => o :: offsets (o + n) r end.

Definition Position_SetPrimaryOffset (p : PosEnc) (o : Z) : PosEnc :=
  mkPE o (pe_size p) (dim_no p) (offsets o (dim_size p)) (dim_size p).

Definition put_bytes (buf : list Z) (o : Z) (bs : list Z) : list Z :=
  take (Z.to_nat o) buf ++ bs ++ drop (Z.to_nat o + length bs) buf.

Definition position_code (x : Z) : Z := if x =? NULL_VALUE_64 then 0 else x + 1.
Definition position_value (c : Z) : Z := if c =? 0 then NULL_VALUE_64 else c - 1.

(** [mit] is the position of the iterator in each dimension. *)
Definition Position_Encode (p : PosEnc) (buf : list Z) (mit : Z -> Z) : list Z :=
  foldl (fun buf k => put_bytes buf (dim_offset p).[0|k] (bytes_le (Z.to_nat (dim_size p).[0|k]) (position_code (mit (dim_no p).[0|k]))))
    buf (range 0 (zlen (dim_no p) - 1)).

Definition Position_GetValue (p : PosEnc) (buf : list Z) (mit : Z -> Z) : Z -> Z :=
  foldl (fun mit k =>
           let c := of_le (take (Z.to_nat (dim_size p).[0|k]) (drop (Z.to_nat (dim_offset p).[0|k]) buf)) in
           fun i => if i =? (dim_no p).[0|k] then position_value c else mit i)
    mit (range 0 (zlen (dim_no p) - 1)).

(** ** Order of strings *)

(** The order of strings, byte by byte, a prefix first. *)
Fixpoint lexcmp (a b : list Z) : comparison :=
  match a, b with
  | [], [] => Eq
  | [], _ => Lt
  | _, [] => Gt
  | x :: a, y :: b => if x =? y then lexcmp a b else x ?= y
  end.

Abbreviation is_byte := (is_word 8).

Lemma memcmp_nil (b : list Z) n : Forall is_byte b -> memcmp [] b n <= 0.
Proof.
  revert b. induction n as [|n IH]; intros b Hb; cbn [memcmp hd tail]; [done|].
  destruct Hb as [|y b Hy Hb]; cbn [hd tail]; [by apply (IH [])|]. unfold is_word in Hy.
  destruct (Z.eqb_spec 0 y); [by apply IH|lia].
Qed.

Lemma memcmp_nil_eq (b : list Z) n : Forall is_byte b -> lex (memcmp [] b n ?= 0) Lt = Lt.
Proof. intros Hb. pose proof (memcmp_nil b n Hb). compare_solve. Qed.

(** Comparing padded strings and then the lengths is comparing the strings. *)
Lemma memcmp_lexcmp a : forall b n,
  Forall is_byte a -> Forall is_byte b -> (length a <= n)%nat -> (length b <= n)%nat ->
  lex (memcmp a b n ?= 0) (zlen a ?= zlen b) = lexcmp a b.
Proof.
  induction a as [|x a IH]; intros b n Ha Hb Hla Hlb.
  - destruct b as [|y b]; [by rewrite memcmp_refl|]. change (zlen ([] : list Z) ?= zlen (y :: b)) with Lt. by apply memcmp_nil_eq.
  - destruct b as [|y b].
    + change (zlen (x :: a) ?= zlen ([] : list Z)) with Gt. rewrite memcmp_sym. pose proof (memcmp_nil _ n Ha). cbn [lexcmp]. compare_solve.
    + destruct n as [|n]; [simpl in *; lia|]. simpl in Hla, Hlb. apply Forall_cons in Ha as [_ Ha]. apply Forall_cons in Hb as [_ Hb].
      cbn [memcmp hd tail lexcmp]. destruct (Z.eqb_spec x y).
      * rewrite <- (IH b n Ha Hb ltac:(lia) ltac:(lia)). f_equal. unfold zlen. cbn [length]. compare_solve.
      * compare_solve.
Qed.

Lemma lexcmp_prefix a : forall b, lexcmp a b
  = lex (memcmp a b (Nat.min (length a) (length b)) ?= 0) (zlen a ?= zlen b).
Proof.
  induction a as [|x a IH]; intros [|y b]; try done. cbn [lexcmp length Nat.min memcmp hd tail].
  destruct (Z.eqb_spec x y); [rewrite IH; f_equal; unfold zlen; cbn [length]; compare_solve|compare_solve].
Qed.

Lemma rcb_strcmp_lexcmp a b : (rcb_strcmp a b ?= 0) = lexcmp a b.
Proof.
  rewrite lexcmp_prefix. unfold rcb_strcmp. replace (Z.to_nat (Z.min (zlen a) (zlen b))) with (Nat.min (length a) (length b)) by (unfold zlen; lia).
  destruct (Z.eqb_spec (Z.min (zlen a) (zlen b)) 0) as [E|].
  - replace (Nat.min (length a) (length b)) with 0%nat by (unfold zlen in E; lia). cbn [memcmp]. rewrite Z.compare_refl. cbn [lex].
    pose proof (zlen_nonneg a). pose proof (zlen_nonneg b). cmp_solve; compare_solve.
  - destruct (Z.eqb_spec (zlen a) (zlen b)) as [El|]; cbn [negb].
    + rewrite El, Z.compare_refl. by destruct (_ ?= 0).
    + destruct (Z.eqb_spec (memcmp a b (Nat.min (length a) (length b))) 0) as [->|]; [rewrite Z.compare_refl; cbn [lex]; cmp_solve; compare_solve|].
      compare_solve.
Qed.

(** ** Keys of texts *)

(** What a key holds before it is negated: the text, zeros, and the length plus one. *)
Definition text_key (n : Z) (o : option (list Z)) : list Z :=
  let s := default [] o in
  (s ++ replicate (Z.to_nat (n - 2) - length s) 0) ++ bytes_be 2 (match o with None => 0 | Some s => zlen s + 1 end).

(** Texts that fit the buffer and the two bytes of the length. *)
Definition text_ok (e : EncText) (o : option (list Z)) : Prop :=
  match o with
  | None => 0 < txt_null_status e
  | Some s => Forall is_byte s /\ zlen s <= txt_size e - 2 /\ zlen s < 65535
  end.

Lemma length_text_key e o : 2 <= txt_size e -> text_ok e o -> length (text_key (txt_size e) o) = Z.to_nat (txt_size e).
Proof.
  intros Hn Ho. unfold text_key. rewrite !length_app, length_replicate, length_bytes_be.
  destruct o as [s|]; simpl in *; unfold zlen in *; lia.
Qed.

Lemma update_tail {A : Type} (p : list A) x y x' y' n :
  zlen p = n - 2 -> (p ++ [x; y]).[n - 2 <- x'].[n - 1 <- y'] = p ++ [x'; y'].
Proof.
  intros Hp. unfold zupd, zlen in *. rewrite !(proj2 (Z.ltb_ge _ _)) by lia.
  replace (Z.to_nat (n - 2)) with (length p + 0)%nat by lia. replace (Z.to_nat (n - 1)) with (length p + 1)%nat by lia.
  by rewrite !insert_app_r.
Qed.

Lemma Text_Encode_key e o st :
  2 <= txt_size e -> text_ok e o ->
  exists e', Text_Encode e o st = Some (e', if txt_descending e then Negate (text_key (txt_size e) o) else text_key (txt_size e) o) /\
    txt_descending e' = txt_descending e /\ txt_size e' = txt_size e /\ txt_null_status e' = txt_null_status e.
Proof.
  intros Hn Ho. unfold Text_Encode. cbv zeta. destruct o as [s|]; cbn [text_ok] in Ho.
  - rewrite bool_decide_true, andb_false_r by done. cbn [default id from_option].
    assert (txt_size (if st then text_found e s else e) = txt_size e /\ txt_descending (if st then text_found e s else e) = txt_descending e
      /\ txt_null_status (if st then text_found e s else e) = txt_null_status e) as (E1 & E2 & E3)
      by (destruct st; [unfold text_found; by destruct (min_max_set e)|done]).
    rewrite E1, E2. destruct Ho as (Hb & Hl & Hw). rewrite (proj2 (Z.ltb_ge _ _)) by lia. eexists. split; [|done].
    do 2 f_equal. unfold text_key. cbn [default id from_option].
    replace (s ++ drop (length s) (replicate (Z.to_nat (txt_size e)) 0))
      with ((s ++ replicate (Z.to_nat (txt_size e - 2) - length s) 0) ++ [0; 0]).
    2: { rewrite <- app_assoc. f_equal. rewrite drop_replicate. change [0; 0] with (replicate 2 0). rewrite <- replicate_add. f_equal. unfold zlen in *. lia. }
    rewrite update_tail by (unfold zlen in *; rewrite length_app, length_replicate; lia).
    assert (bytes_be 2 (zlen s + 1) = [wrap 8 ((zlen s + 1) / 256); (zlen s + 1) mod 256]) as -> by done. done.
  - rewrite (proj2 (Z.ltb_lt _ _) Ho), bool_decide_false by (by intros [? ?]). cbn [andb negb]. eexists. split; [|done].
    do 2 f_equal. unfold text_key, Text_SetNull. cbn [default id from_option app length]. change (bytes_be 2 0) with (replicate 2 0). rewrite <- replicate_add, Nat.sub_0_r.
    replace (Z.to_nat (txt_size e - 2) + 2)%nat with (Z.to_nat (txt_size e)) by lia.
    destruct (txt_descending e); [|done]. unfold Negate. by rewrite (fmap_replicate (fun b => 255 - b)).
Qed.

Lemma memcmp_pad a b k m n : memcmp (a ++ replicate k 0) (b ++ replicate m 0) n = memcmp a b n.
Proof.
  assert (forall (l : list Z) k, hd 0 (l ++ replicate k 0) = hd 0 l) as Hh by (intros [|x l] [|k']; done).
  revert a b k m. induction n as [|n IH]; intros a b k m; [done|]. cbn [memcmp]. rewrite !Hh.
  assert (forall (l : list Z) k, exists k', tail (l ++ replicate k 0) = tail l ++ replicate k' 0) as Ht.
  { intros [|x l] k0; [exists (Nat.pred k0); by destruct k0|by exists k0]. }
  destruct (Ht a k) as [k' ->], (Ht b m) as [m' ->]. by rewrite IH.
Qed.

Lemma text_key_order e o1 o2 :
  2 <= txt_size e -> text_ok e o1 -> text_ok e o2 ->
  (memcmp (text_key (txt_size e) o1) (text_key (txt_size e) o2) (Z.to_nat (txt_size e)) ?= 0) = null_first lexcmp o1 o2.
Proof.
  intros Hn H1 H2. unfold text_key. set (k := Z.to_nat (txt_size e - 2)).
  assert (forall o, text_ok e o -> (length (default [] o) <= k)%nat /\ Forall is_byte (default [] o) /\
    0 <= (match o with None => 0 | Some s => zlen s + 1 end) < 256 ^ Z.of_nat 2) as Hl.
  { intros [s|] Ho; cbn [default id from_option] in *; cbn [text_ok] in Ho; unfold k, zlen in *; [|split; [simpl; lia|split; [constructor|lia]]].
    destruct Ho as (? & ? & ?). split; [lia|]. split; [done|lia]. }
  destruct (Hl _ H1) as (L1 & B1 & R1), (Hl _ H2) as (L2 & B2 & R2).
  replace (Z.to_nat (txt_size e)) with (k + 2)%nat by (unfold k; lia).
  rewrite memcmp_app by (rewrite length_app, length_replicate; lia). rewrite memcmp_pad, memcmp_bytes_be by done.
  destruct o1 as [s|], o2 as [t|]; cbn [default id from_option null_first] in *.
  - rewrite <- (memcmp_lexcmp s t k) by done. f_equal. compare_solve.
  - pose proof (zlen_nonneg s). rewrite memcmp_sym. pose proof (memcmp_nil s k B1). unfold lex. compare_solve.
  - pose proof (zlen_nonneg t). pose proof (memcmp_nil t k B2). unfold lex. compare_solve.
  - by rewrite memcmp_refl.
Qed.

Lemma memcmp_Negate a b n :
  length a = n -> length b = n -> memcmp (Negate a) (Negate b) n = - memcmp a b n.
Proof.
  revert a b. induction n as [|n IH]; intros [|x a] [|y b] Ha Hb; try discriminate; [done|]. cbn [Negate map memcmp hd tail] in *.
  injection Ha as Ha. injection Hb as Hb. change (map _ a) with (Negate a). change (map _ b) with (Negate b). rewrite IH by done. cmp_solve.
Qed.

Lemma Negate_Negate a : Negate (Negate a) = a.
Proof. unfold Negate. rewrite map_map. rewrite <- (map_id a) at 2. apply map_ext. intros x. lia. Qed.

Lemma opp_compare x : (- x ?= 0) = CompOpp (x ?= 0).
Proof. compare_solve. Qed.

Lemma length_Negate a : length (Negate a) = length a.
Proof. apply length_map. Qed.

Lemma znth_Negate a i : 0 <= i < zlen a -> (Negate a).[0|i] = 255 - a.[0|i].
Proof.
  intros Hi. unfold Negate. pose proof (znth_lookup 0 a i Hi) as E.
  pose proof (list_lookup_fmap (fun b => 255 - b) a (Z.to_nat i)) as F. rewrite E in F. simpl in F.
  apply (znth_lookup_Some 0) in F. rewrite Z2Nat.id in F by lia. exact F.
Qed.

(** The length bytes of a key. *)
Lemma text_key_length_bytes e o :
  2 <= txt_size e -> text_ok e o ->
  let c := match o with None => 0 | Some s => zlen s + 1 end in
  (text_key (txt_size e) o).[0|txt_size e - 2] = c / 256 /\ (text_key (txt_size e) o).[0|txt_size e - 1] = c mod 256 /\
  0 <= c < 65536 /\ (c = 0 <-> o = None).
Proof.
  intros Hn Ho c. unfold text_key. set (p := default [] o ++ _).
  assert (zlen p = txt_size e - 2) as Hp.
  { unfold p, zlen. rewrite length_app, length_replicate. destruct o as [s|]; cbn [default id from_option text_ok] in *; unfold zlen in *; simpl; lia. }
  assert (0 <= c < 65536 /\ (c = 0 <-> o = None)) as [Hc Hc0].
  { unfold c. destruct o as [s|]; cbn [text_ok] in Ho; [pose proof (zlen_nonneg s); split; [lia|split; [lia|discriminate]]|split; [lia|done]]. }
  fold c. assert (bytes_be 2 c = [c / 256; c mod 256]) as ->.
  { cbn [bytes_be bytes_le rev app]. rewrite (Z.mod_small (c / 256)); [done|]. split; [apply Z.div_pos; lia|apply Z.div_lt_upper_bound; lia]. }
  rewrite !znth_app_r by lia. rewrite Hp. replace (txt_size e - 1 - (txt_size e - 2)) with 1 by lia. rewrite Z.sub_diag. done.
Qed.

Lemma Text_decode e o k :
  2 <= txt_size e -> text_ok e o ->
  k = (if txt_descending e then Negate (text_key (txt_size e) o) else text_key (txt_size e) o) ->
  Text_IsNull e k = negb (bool_decide (is_Some o)) /\ fst (Text_GetValueT e k) = o.
Proof.
  intros Hn Ho ->. destruct (text_key_length_bytes e o Hn Ho) as (E1 & E2 & Hc & Hc0).
  pose proof (length_text_key e o Hn Ho) as Hl. set (t := text_key (txt_size e) o) in *.
  set (c := match o with None => 0 | Some s => zlen s + 1 end) in *.
  assert (zlen t = txt_size e) as Hz by (unfold zlen; lia).
  pose proof (Z.div_mod c 256). pose proof (Z.mod_pos_bound c 256).
  assert (Text_IsNull e (if txt_descending e then Negate t else t) = (c =? 0)) as En.
  { unfold Text_IsNull. destruct (txt_descending e); rewrite ?znth_Negate by lia; rewrite E1, E2; cmp_solve. }
  rewrite En. split.
  - destruct o as [s|]; [rewrite bool_decide_true by done; destruct (Z.eqb_spec c 0) as [E|]; [apply Hc0 in E; discriminate|done]|done].
  - unfold Text_GetValueT. rewrite En. destruct (Z.eqb_spec c 0) as [E|Hne]; [apply Hc0 in E; by subst o|].
    destruct o as [s|]; [|by destruct Hne]. cbn [fst]. f_equal.
    replace (if txt_descending e then Negate (if txt_descending e then Negate t else t) else if txt_descending e then Negate t else t) with t
      by (destruct (txt_descending e); [by rewrite Negate_Negate|done]).
    rewrite E1, E2. replace (c / 256 * 256 + c mod 256 - 1) with (zlen s) by (unfold c in *; lia).
    unfold t, text_key, zlen. cbn [default id from_option]. rewrite Nat2Z.id, <- app_assoc. apply take_app_length.
Qed.

(** C22: the keys of a text column have the announced size and the order of [strcmp] of the engine,
    nulls first, all reversed for a descending order; they are decoded to the texts.  The texts
    have at most 65534 bytes. *)
Theorem EncoderText_keys (e : EncText) (o1 o2 : option (list Z)) (st1 st2 : bool)
    (Hn : 2 <= txt_size e) (H1 : text_ok e o1) (H2 : text_ok e o2) :
  exists e1 e2 k1 k2, Text_Encode e o1 st1 = Some (e1, k1) /\ Text_Encode e o2 st2 = Some (e2, k2) /\
    length k1 = Z.to_nat (txt_size e) /\
    (memcmp k1 k2 (Z.to_nat (txt_size e)) ?= 0)
    = directed (txt_descending e) (null_first (fun s t => rcb_strcmp s t ?= 0) o1 o2) /\
    Text_IsNull e k1 = negb (bool_decide (is_Some o1)) /\ fst (Text_GetValueT e k1) = o1.
Proof.
  destruct (Text_Encode_key e o1 st1 Hn H1) as (e1 & E1 & _), (Text_Encode_key e o2 st2 Hn H2) as (e2 & E2 & _).
  pose proof (length_text_key e o1 Hn H1). pose proof (length_text_key e o2 Hn H2).
  do 4 eexists. split; [exact E1|]. split; [exact E2|]. split; [destruct (txt_descending e); by rewrite ?length_Negate|].
  split; [|by apply Text_decode].
  assert (null_first (fun s t => rcb_strcmp s t ?= 0) o1 o2 = null_first lexcmp o1 o2) as ->
    by (destruct o1, o2; simpl; try done; apply rcb_strcmp_lexcmp).
  rewrite <- (text_key_order e o1 o2) by done. unfold directed.
  destruct (txt_descending e); [|done]. by rewrite memcmp_Negate, opp_compare.
Qed.

(** ** Keys of doubles *)

Definition double_ok (e : EncDouble) (o : option Z) : Prop :=
  match o with
  | None => dbl_null_status e = 2
  | Some d => is_word 64 d
  end.

Definition double_key_of (e : EncDouble) (o : option Z) : list Z :=
  match o with None => Double_SetNull e | Some d => Double_code e d end.

Lemma Monotonic_word d : is_word 64 d -> is_word 64 (MonotonicDouble2Int64 d).
Proof. intros Hd. rewrite MonotonicDouble2Int64_val by done. unfold is_word, sign_bit, bit1 in *. cmp_solve. Qed.

Lemma Double_order d1 d2 e : is_word 64 d1 -> is_word 64 d2 ->
  (memcmp (bytes_be 8 (if dbl_descending e then wrap64 (Z.lnot (MonotonicDouble2Int64 d1)) else MonotonicDouble2Int64 d1))
          (bytes_be 8 (if dbl_descending e then wrap64 (Z.lnot (MonotonicDouble2Int64 d2)) else MonotonicDouble2Int64 d2)) 8 ?= 0)
  = directed (dbl_descending e) (double_key d1 ?= double_key d2).
Proof.
  intros H1 H2. pose proof (Monotonic_word d1 H1) as M1. pose proof (Monotonic_word d2 H2) as M2.
  destruct (MonotonicDouble_order_roundtrip d1 d2 H1 H2) as [O12 _], (MonotonicDouble_order_roundtrip d2 d1 H2 H1) as [O21 _].
  unfold directed. destruct (dbl_descending e).
  - rewrite !lnot64 by done. rewrite memcmp_bytes_be by (unfold is_word in *; change (256 ^ Z.of_nat 8) with (2 ^ 64); lia). compare_solve.
  - rewrite memcmp_bytes_be by (unfold is_word in *; change (256 ^ Z.of_nat 8) with (2 ^ 64); lia). compare_solve.
Qed.

(** A double as the 64-bit number of the interface; a null has its own number. *)
Definition double_arg (o : option Z) : Z := match o with None => NULL_VALUE_64 | Some d => swrap 64 d end.

Definition double_value (nulls_possible : bool) (o : option Z) : Prop :=
  match o with
  | None => nulls_possible = true
  | Some d => is_word 64 d /\ (nulls_possible = true -> swrap 64 d <> NULL_VALUE_64)
  end.

Lemma wrap_swrap w x : 0 < w -> wrap w (swrap w x) = wrap w x.
Proof.
  intros Hw. unfold swrap, wrap. assert (0 < 2 ^ w) by (apply Z.pow_pos_nonneg; lia).
  destruct (_ <? _); [by apply Z.mod_mod; lia|].
  rewrite <- (Z.mod_add (x mod 2 ^ w - 2 ^ w) 1) by lia. rewrite Z.mul_1_l, Z.sub_add. apply Z.mod_mod; lia.
Qed.

Section Doubles.
Context {Mit : Type} (vc : VirtualColumn Mit) (np desc : bool) (Hvc : IsFixed (vc_Type vc) = false).
Abbreviation e := (Double_new vc np desc).

Lemma Double_Encode_key o :
  double_value np o -> Double_Encode e (double_arg o) false = double_key_of e o.
Proof.
  intros Ho. unfold Double_Encode. cbn [Double_new dbl_null_status dbl_descending multiplier_vc1]. unfold fixed_multiplier. rewrite Hvc.
  destruct o as [d|]; simpl in Ho.
  - destruct Ho as [Hd Hn]. replace (((if np then 2 else 0) =? 2) && (double_arg (Some d) =? NULL_VALUE_64)) with false.
    2: { destruct np; simpl; [|done]. symmetry. apply Z.eqb_neq. by apply Hn. }
    cbn [double_arg]. rewrite wrap_swrap, wrap_id by done. done.
  - by rewrite Ho.
Qed.

Lemma length_double_key o : double_value np o -> length (double_key_of e o) = Z.to_nat (dbl_size e).
Proof.
  destruct o as [d|]; simpl; intros Ho.
  - unfold Double_code. rewrite length_app, length_bytes_be. by destruct np.
  - rewrite Ho. unfold Double_SetNull. by destruct desc.
Qed.

Lemma double_key_order o1 o2 :
  double_value np o1 -> double_value np o2 ->
  (memcmp (double_key_of e o1) (double_key_of e o2) (Z.to_nat (dbl_size e)) ?= 0)
  = directed desc (null_first (fun a b => double_key a ?= double_key b) o1 o2).
Proof.
  destruct o1 as [d1|], o2 as [d2|]; simpl; intros H1 H2.
  - destruct H1 as [H1 _], H2 as [H2 _]. unfold Double_code. cbn [Double_new dbl_null_status].
    pose proof (Double_order d1 d2 e H1 H2) as E. cbn [Double_new dbl_descending] in E. rewrite <- E.
    cbn [Double_new dbl_descending]. destruct np; [|done]. change (2 =? 2) with true. cbv iota.
    change (Z.to_nat 9) with (1 + 8)%nat. by rewrite memcmp_app, memcmp_refl.
  - rewrite H2. unfold Double_code, Double_SetNull. simpl. by destruct desc.
  - rewrite H1. unfold Double_code, Double_SetNull. simpl. by destruct desc.
  - rewrite memcmp_refl. by destruct desc.
Qed.

Lemma double_key_decode o :
  double_value np o ->
  Double_IsNull e (double_key_of e o) = negb (bool_decide (is_Some o)) /\
  (forall d, o = Some d -> Double_GetValue64 e (double_key_of e o) = swrap 64 (if d =? sign_bit then 0 else d)).
Proof.
  destruct o as [d|]; simpl; intros Ho.
  - destruct Ho as [Hd _]. pose proof (Monotonic_word d Hd) as Hm. split.
    { unfold Double_IsNull, Double_code. simpl. by destruct np, desc. }
    intros d' [= <-]. destruct (MonotonicDouble_order_roundtrip d d Hd Hd) as [_ E]. rewrite <- E.
    unfold Double_GetValue64, Double_code. cbn [Double_new dbl_null_status dbl_descending].
    set (c := if desc then wrap64 (Z.lnot (MonotonicDouble2Int64 d)) else MonotonicDouble2Int64 d).
    assert (is_word 64 c /\ (if desc then wrap64 (Z.lnot c) else c) = MonotonicDouble2Int64 d) as [Hc Ec].
    { unfold c. destruct desc; [|done]. rewrite lnot64 by done. unfold is_word in *. split; [lia|]. rewrite lnot64 by (unfold is_word; lia). lia. }
    assert (of_be (take 8 (bytes_be 8 c)) = c) as Er by (rewrite take_ge by (by rewrite length_bytes_be); by apply of_be_bytes).
    destruct np; cbn [Z.eqb Pos.eqb andb app hd tail]; [|by rewrite Er, Ec].
    replace (_ || _) with false by (by destruct desc). by rewrite Er, Ec.
  - split; [|done]. unfold Double_IsNull, Double_SetNull. rewrite Ho. simpl. by destruct desc.
Qed.

End Doubles.

(** C23: the keys of a floating-point column have the announced size and the order of the doubles,
    nulls first, all reversed for a descending order; they are decoded to the doubles, minus zero
    to zero. *)
Theorem EncoderDouble_keys {Mit : Type} (vc : VirtualColumn Mit) (nulls_possible desc : bool) (o1 o2 : option Z)
    (Hvc : IsFixed (vc_Type vc) = false) (H1 : double_value nulls_possible o1) (H2 : double_value nulls_possible o2) :
  let e := Double_new vc nulls_possible desc in
  let key1 := Double_Encode e (double_arg o1) false in
  let key2 := Double_Encode e (double_arg o2) false in
  length key1 = Z.to_nat (dbl_size e) /\
  (memcmp key1 key2 (Z.to_nat (dbl_size e)) ?= 0)
  = directed desc (null_first (fun a b => double_key a ?= double_key b) o1 o2) /\
  Double_IsNull e key1 = negb (bool_decide (is_Some o1)) /\
  (forall d, o1 = Some d -> Double_GetValue64 e key1 = swrap 64 (if d =? sign_bit then 0 else d)).
Proof.
  cbv zeta. rewrite !Double_Encode_key by done. split; [by apply length_double_key|].
  split; [by apply double_key_order|by apply double_key_decode].
Qed.

(** ** Positions *)

Lemma put_bytes_app (buf c d : list Z) o :
  0 <= o -> o + zlen c + zlen d <= zlen buf -> put_bytes (put_bytes buf o c) (o + zlen c) d = put_bytes buf o (c ++ d).
Proof.
  intros Ho Hl. unfold put_bytes, zlen in *. rewrite length_app.
  assert (length (take (Z.to_nat o) buf ++ c) = Z.to_nat (o + Z.of_nat (length c))) as Hp by (rewrite length_app, length_take; lia).
  rewrite (app_assoc (take (Z.to_nat o) buf) c). rewrite take_app_le, take_ge by lia.
  rewrite drop_app_ge by lia. rewrite drop_drop, Hp, <- !app_assoc.
  replace (Z.to_nat o + length c + _)%nat with (Z.to_nat o + (length c + length d))%nat by lia. done.
Qed.

Lemma put_bytes_read (buf c d r : list Z) o :
  0 <= o -> o + zlen (c ++ d ++ r) <= zlen buf ->
  take (length d) (drop (Z.to_nat (o + zlen c)) (put_bytes buf o (c ++ d ++ r))) = d.
Proof.
  intros Ho Hl. unfold put_bytes, zlen in *. rewrite !length_app in Hl. rewrite drop_app_ge by (rewrite length_take; lia).
  rewrite length_take. replace (Z.to_nat (o + Z.of_nat (length c)) - Z.to_nat o `min` length buf)%nat with (length c) by lia.
  rewrite <- !app_assoc, drop_app_length. apply take_app_length.
Qed.

Lemma zlen_put_bytes (buf c : list Z) o : 0 <= o -> o + zlen c <= zlen buf -> zlen (put_bytes buf o c) = zlen buf.
Proof. intros Ho Hl. unfold put_bytes, zlen in *. rewrite !length_app, length_take, length_drop. lia. Qed.

Lemma put_bytes_out (buf c : list Z) o k :
  0 <= o -> o + zlen c <= zlen buf -> 0 <= k < zlen buf -> k < o \/ o + zlen c <= k -> (put_bytes buf o c).[0|k] = buf.[0|k].
Proof.
  intros Ho Hl Hk Hout. unfold put_bytes. assert (zlen (take (Z.to_nat o) buf) = o) as Ht by (unfold zlen in *; rewrite length_take; lia).
  pose proof (zlen_nonneg c). destruct Hout.
  - rewrite znth_app_l by lia. by apply znth_take.
  - rewrite znth_app_r, znth_app_r, Ht by lia. replace (Z.to_nat o + length c)%nat with (Z.to_nat (o + zlen c)) by (unfold zlen; lia).
    rewrite znth_drop by lia. f_equal. lia.
Qed.

(** A loop on the indices of three parallel vectors is a loop on their triples. *)
Lemma triples_at (l1 l2 l3 : list Z) :
  length l2 = length l1 -> length l3 = length l1 ->
  map (fun k => (l1.[0|k], l2.[0|k], l3.[0|k])) (range 0 (zlen l1 - 1)) = zip (zip l1 l2) l3.
Proof.
  intros H2 H3. apply list_eq. intros k. unfold range. rewrite Z.sub_0_r, Z.sub_add.
  destruct (decide (k < length l1)%nat) as [Hk|Hk].
  - change (map ?f ?l) with (f <$> l). rewrite list_lookup_fmap, lookup_seqZ_lt by (unfold zlen; lia). cbn [fmap option_fmap option_map].
    symmetry. rewrite !lookup_zip_with.
    destruct (lookup_lt_is_Some_2 l1 k ltac:(lia)) as [x Hx], (lookup_lt_is_Some_2 l2 k ltac:(lia)) as [y Hy], (lookup_lt_is_Some_2 l3 k ltac:(lia)) as [z Hz].
    rewrite Hx, Hy, Hz. rewrite Z.add_0_l. cbn. by rewrite (znth_lookup_Some 0 _ _ _ Hx), (znth_lookup_Some 0 _ _ _ Hy), (znth_lookup_Some 0 _ _ _ Hz).
  - rewrite !lookup_ge_None_2; [done| |]; [rewrite !length_zip_with; lia|]. rewrite length_map, length_seqZ. unfold zlen. lia.
Qed.

Lemma foldl_triples {S : Type} (f : S -> Z -> Z -> Z -> S) (l1 l2 l3 : list Z) s :
  length l2 = length l1 -> length l3 = length l1 ->
  foldl (fun s k => f s l1.[0|k] l2.[0|k] l3.[0|k]) s (range 0 (zlen l1 - 1))
  = foldl (fun s t => f s t.1.1 t.1.2 t.2) s (zip (zip l1 l2) l3).
Proof.
  intros H2 H3. rewrite <- triples_at by done. generalize (range 0 (zlen l1 - 1)) as r. intros r. revert s.
  induction r as [|k r IH]; intros s; [done|]. apply IH.
Qed.

Lemma length_offsets sizes : forall o, length (offsets o sizes) = length sizes.
Proof. induction sizes as [|n r IH]; intros o; simpl; [done|]. by rewrite IH. Qed.

Section Positions.
Context (orig : list Z) (dims : Z -> bool).

Definition stored : list Z := List.filter dims (range 0 (zlen orig - 1)).
Definition byte_size (i : Z) : Z := DimByteSize orig.[0|i].

Lemma Position_new_fold l p :
  let q := foldl (fun p i => if dims i then mkPE 0 (pe_size p + byte_size i) (dim_no p ++ [i]) (dim_offset p ++ [0]) (dim_size p ++ [byte_size i]) else p) p l in
  dim_no q = dim_no p ++ List.filter dims l /\ dim_size q = dim_size p ++ map byte_size (List.filter dims l) /\
  pe_size q = pe_size p + foldr Z.add 0 (map byte_size (List.filter dims l)).
Proof.
  revert p. induction l as [|i l IH]; intros p; simpl; [rewrite !app_nil_r; repeat split; lia|].
  destruct (dims i); simpl; [|by apply IH].
  destruct (IH (mkPE 0 (pe_size p + byte_size i) (dim_no p ++ [i]) (dim_offset p ++ [0]) (dim_size p ++ [byte_size i]))) as (-> & -> & ->).
  simpl. rewrite <- !app_assoc. repeat split. lia.
Qed.

Lemma if_in_stored {A : Type} (x y : A) i :
  (if bool_decide (i ∈ stored) then x else y) = if (0 <=? i) && (i <? zlen orig) && dims i then x else y.
Proof.
  replace ((0 <=? i) && (i <? zlen orig) && dims i) with (bool_decide (i ∈ stored)); [done|].
  apply eq_true_iff_eq. rewrite bool_decide_eq_true. unfold stored. rewrite list_elem_of_In, filter_In, range_In, !andb_true_iff, Z.leb_le, Z.ltb_lt.
  intuition lia.
Qed.

Lemma Position_new_fields :
  let p := Position_new orig dims in
  dim_no p = stored /\ dim_size p = map byte_size stored /\ pe_size p = foldr Z.add 0 (map byte_size stored).
Proof. apply (Position_new_fold (range 0 (zlen orig - 1)) (mkPE 0 0 [] [] [])). Qed.

Context (mit : Z -> Z).

(** The bytes of one dimension. *)
Definition slot (i : Z) : list Z := bytes_le (Z.to_nat (byte_size i)) (position_code (mit i)).

Definition position_ok (i : Z) : Prop :=
  0 <= orig.[0|i] < 2 ^ 63 - 1 /\ (mit i = NULL_VALUE_64 \/ 0 <= mit i < orig.[0|i]).

Lemma position_slot_spec i : position_ok i -> zlen (slot i) = byte_size i /\ position_value (of_le (slot i)) = mit i.
Proof.
  intros [Ho Hm]. unfold slot, byte_size, DimByteSize. assert (is_word 64 (orig.[0|i] + 1)) as Hw by (unfold is_word; lia).
  rewrite wrap_id by done. destruct (CalculateByteSize_fits _ Hw) as [Hb Hf]. set (n := CalculateByteSize _) in *. split.
  - unfold zlen. rewrite length_bytes_le. lia.
  - rewrite of_bytes_le_word.
    + unfold position_value, position_code. destruct Hm as [->|Hm]; [done|].
      assert (mit i <> NULL_VALUE_64) by (unfold NULL_VALUE_64; lia). rewrite (proj2 (Z.eqb_neq (mit i) NULL_VALUE_64)) by done. cmp_solve.
    + unfold is_word. rewrite Z2Nat.id by lia. rewrite Z.pow_mul_r by lia. change (2 ^ 8) with 256. unfold position_code. cmp_solve.
Qed.

Lemma zlen_slots ns : Forall position_ok ns -> zlen (concat (map slot ns)) = foldr Z.add 0 (map byte_size ns).
Proof.
  induction 1 as [|i ns Hi _ IH]; [done|]. cbn [map concat foldr]. rewrite zlen_app, IH. by destruct (position_slot_spec i Hi) as [-> _].
Qed.

(** Writing the slots one by one is writing their concatenation. *)
Lemma encode_slots ns : forall buf o,
  Forall position_ok ns -> 0 <= o -> o + zlen (concat (map slot ns)) <= zlen buf ->
  foldl (fun buf t => put_bytes buf t.1.2 (bytes_le (Z.to_nat t.2) (position_code (mit t.1.1)))) buf
    (zip (zip ns (offsets o (map byte_size ns))) (map byte_size ns))
  = put_bytes buf o (concat (map slot ns)).
Proof.
  induction ns as [|i ns IH]; intros buf o Hok Ho Hl.
  - unfold put_bytes. simpl. by rewrite Nat.add_0_r, take_drop.
  - apply Forall_cons in Hok as [Hi Hok]. cbn [map concat offsets zip zip_with foldl fst snd] in *. change (bytes_le _ (position_code (mit i))) with (slot i).
    rewrite zlen_app in Hl. destruct (position_slot_spec i Hi) as [Hz _]. pose proof (zlen_nonneg (concat (map slot ns))).
    pose proof (zlen_nonneg (slot i)). rewrite <- Hz. rewrite IH; [apply put_bytes_app; lia|done|lia|].
    rewrite zlen_put_bytes; lia.
Qed.

(** Reading the slots back, behind the ones already read. *)
Lemma decode_slots ns : forall pre buf o mit0 i,
  Forall position_ok ns -> 0 <= o -> o + zlen (pre ++ concat (map slot ns)) <= zlen buf ->
  foldl (fun m t => let c := of_le (take (Z.to_nat t.2) (drop (Z.to_nat t.1.2) (put_bytes buf o (pre ++ concat (map slot ns))))) in
                    fun i => if i =? t.1.1 then position_value c else m i) mit0
    (zip (zip ns (offsets (o + zlen pre) (map byte_size ns))) (map byte_size ns)) i
  = if bool_decide (i ∈ ns) then mit i else mit0 i.
Proof.
  induction ns as [|j ns IH]; intros pre buf o mit0 i Hok Ho Hl; [done|].
  apply Forall_cons in Hok as [Hj Hok]. destruct (position_slot_spec j Hj) as [Hz Hv].
  cbn [map concat offsets zip zip_with foldl fst snd] in *.
  replace (Z.to_nat (byte_size j)) with (length (slot j)) by (rewrite <- Hz; unfold zlen; lia).
  rewrite put_bytes_read by done. rewrite Hv. rewrite (app_assoc pre) in Hl |- *. rewrite <- Hz, <- Z.add_assoc, <- zlen_app.
  rewrite IH by done. destruct (Z.eqb_spec i j) as [->|Hij].
  - rewrite (bool_decide_true (j ∈ j :: ns)) by left. by destruct (bool_decide _).
  - rewrite (bool_decide_ext (i ∈ j :: ns) (i ∈ ns)) by (rewrite elem_of_cons; intuition). done.
Qed.

End Positions.

(** The positions in the stored dimensions, nulls included, are read back from the bytes they
    are written to; the other dimensions of the iterator and the other bytes of the buffer are
    unchanged. *)
Theorem PositionEncoder_roundtrip (orig : list Z) (dims : Z -> bool) (o : Z) (buf : list Z) (mit mit0 : Z -> Z)
    (Hok : Forall (position_ok orig mit) (stored orig dims)) (Ho : 0 <= o)
    (Hbuf : o + pe_size (Position_new orig dims) <= zlen buf) :
  let p := Position_SetPrimaryOffset (Position_new orig dims) o in
  let buf' := Position_Encode p buf mit in
  zlen buf' = zlen buf /\
  (forall k, 0 <= k < zlen buf -> k < o \/ o + pe_size p <= k -> buf'.[0|k] = buf.[0|k]) /\
  (forall i, Position_GetValue p buf' mit0 i
             = if (0 <=? i) && (i <? zlen orig) && dims i then mit i else mit0 i).
Proof.
  destruct (Position_new_fields orig dims) as (En & Es & Ez). cbv zeta. unfold Position_Encode, Position_GetValue, Position_SetPrimaryOffset.
  cbn [dim_no dim_offset dim_size pe_size]. rewrite En, Es. rewrite Ez in *. set (ns := stored orig dims) in *.
  rewrite <- (zlen_slots orig mit) in * by done.
  rewrite (foldl_triples (fun buf no off sz => put_bytes buf off (bytes_le (Z.to_nat sz) (position_code (mit no)))))
    by (rewrite ?length_offsets; by rewrite length_map).
  rewrite encode_slots by done.
  set (c := concat _) in *. split; [by apply zlen_put_bytes|]. split.
  - intros k Hk Hout. apply put_bytes_out; done.
  - intros i.
    rewrite (foldl_triples (fun m no off sz => let c' := of_le (take (Z.to_nat sz) (drop (Z.to_nat off) (put_bytes buf o c))) in
                              fun i => if i =? no then position_value c' else m i)) by (rewrite ?length_offsets; by rewrite length_map).
    pose proof (decode_slots orig dims mit ns [] buf o mit0 i Hok Ho Hbuf) as E. cbn [app] in E. fold c in E.
    change (zlen (@nil Z)) with 0 in E. rewrite Z.add_0_r in E. etransitivity; [exact E|apply if_in_stored].
Qed.

(** ** Witnesses and remarks *)

(** Texts of at most three bytes. *)
Definition small_texts (desc : bool) : EncText := mkET desc 1 5 [] [] false.

Lemma EncoderText_keys_witness :
  exists e1 e2 k1 k2, Text_Encode (small_texts true) (Some [97; 98]) true = Some (e1, k1) /\
    Text_Encode (small_texts true) None true = Some (e2, k2) /\
    k1 = [158; 157; 255; 255; 252] /\ k2 = [255; 255; 255; 255; 255] /\
    memcmp k1 k2 5 < 0.
Proof.
  destruct (EncoderText_keys (small_texts true) (Some [97; 98]) None true true) as (e1 & e2 & k1 & k2 & E1 & E2 & _ & Hc & _).
  - vm_compute; discriminate.
  - split; [repeat constructor|]; vm_compute; intuition discriminate.
  - vm_compute; intuition discriminate.
  - exists e1, e2, k1, k2. split; [exact E1|]. split; [exact E2|].
    vm_compute in E1, E2. injection E1 as _ <-. injection E2 as _ <-. repeat split.
Defined.

Definition double_column : VirtualColumn Z := Columns.typed_column RC_FLOAT 0 0 0.

(** -1.0 and 1.0. *)
Lemma EncoderDouble_keys_witness :
  let e := Double_new double_column true false in
  let minus_one := 13830554455654793216 in
  let one := 4607182418800017408 in
  (memcmp (Double_Encode e (double_arg (Some minus_one)) false) (Double_Encode e (double_arg (Some one)) false) 9 ?= 0) = Lt.
Proof.
  cbv zeta. destruct (EncoderDouble_keys double_column true false (Some 13830554455654793216) (Some 4607182418800017408)) as (_ & E & _).
  - reflexivity.
  - vm_compute; intuition discriminate.
  - vm_compute; intuition discriminate.
  - exact E.
Defined.

Lemma PositionEncoder_roundtrip_witness :
  let p := Position_SetPrimaryOffset (Position_new [1000; 7; 65536] (fun i => negb (i =? 1))) 1 in
  let buf := Position_Encode p (replicate 7 9) (fun i => if i =? 0 then NULL_VALUE_64 else 300 + i) in
  buf = [9; 0; 0; 47; 1; 0; 9] /\
  Position_GetValue p buf (fun _ => 5) 0 = NULL_VALUE_64 /\ Position_GetValue p buf (fun _ => 5) 1 = 5 /\
  Position_GetValue p buf (fun _ => 5) 2 = 302.
Proof.
  cbv zeta. destruct (PositionEncoder_roundtrip [1000; 7; 65536] (fun i => negb (i =? 1)) 1 (replicate 7 9)
    (fun i => if i =? 0 then NULL_VALUE_64 else 300 + i) (fun _ => 5)) as (_ & _ & E).
  - repeat apply Forall_cons_2; [| |constructor]; (split; [vm_compute; intuition discriminate|]); [left; reflexivity|right; vm_compute; intuition discriminate].
  - lia.
  - vm_compute. discriminate.
  - split; [reflexivity|]. split; [exact (E 0)|]. split; [exact (E 1)|exact (E 2)].
Defined.

(** The two bytes of the length overflow: a text of 65535 bytes is encoded with the length code of
    a null. *)
Theorem EncoderText_long_text :
  exists e k, Text_Encode (mkET false 1 65537 [] [] false) (Some (replicate 65535 120)) false = Some (e, k) /\
    Text_IsNull e k = true.
Proof. eexists _, _. split; [reflexivity|]. vm_compute. reflexivity. Qed.

(** The value of a descending key is read once: the buffer is negated in place, so the next read
    of the same buffer sees other bytes. *)
Theorem EncoderText_descending_reread :
  exists e k k', Text_Encode (small_texts true) (Some [97; 98]) false = Some (e, k) /\
    Text_GetValueT e k = (Some [97; 98], k') /\ fst (Text_GetValueT e k') <> Some [97; 98].
Proof. eexists _, _, _. split; [reflexivity|]. split; [reflexivity|]. vm_compute. discriminate. Qed.

(** The assertion on the buffer admits texts that leave no room for the length: their last bytes
    are overwritten. *)
Theorem EncoderText_assertion_slack :
  exists e k, Text_Encode (small_texts false) (Some [97; 98; 99; 100; 101]) false = Some (e, k) /\
    fst (Text_GetValueT e k) <> Some [97; 98; 99; 100; 101].
Proof. eexists _, _. split; [reflexivity|]. vm_compute. discriminate. Qed.
