(* ===== verification/Sorter.v ===== *)
(** * Sorters of rows (core/Sorter3.h, core/Sorter3.cpp)

    A sorter takes rows of [total_bytes] bytes, whose first [key_bytes] bytes are compared with
    [memcmp], and returns them in order.  This file has what all sorters promise and
    [SorterOnePass]: a quicksort that keeps its intervals in a cyclic queue.

    A pointer into the buffer is the number of a row, the buffer is the list of its rows. *)

From Stdlib Require Import Sorted.
From stdpp Require Import relations.
From S2P Require Import Prelude QSort KeyOrder.

Abbreviation row := (list Z).

(** Results: the query was killed, or the code would leave its memory or violate an assertion. *)
Inductive sres (A : Type) := SOk (x : A) | SKilled | SFault.
Arguments SOk {A} _.
Arguments SKilled {A}.
Arguments SFault {A}.

Definition sbind {A B : Type} (x : sres A) (f : A -> sres B) : sres B :=
  match x with SOk y => f y | SKilled => SKilled | SFault => SFault end.
Notation "x <~ e ; f" := (sbind e (fun x => f)) (at level 100, e at level 99, right associativity) : bh_scope.

Definition of_option {A : Type} (o : option A) : sres A := match o with Some x => SOk x | None => SFault end.

(** ** What a sorter is *)

Record Sorter3 := mkSorter {
  sorter : Type;
  PutValue : sorter -> row -> sres (sorter * bool);
  GetNextValue : sorter -> sres (sorter * option row)
}.

(** Put rows; a caller may stop when the sorter answers [false]. *)
Fixpoint put_all (S : Sorter3) (s : sorter S) (rows : list row) : sres (sorter S) :=
  match rows with
  | [] => SOk s
  | r :: rest => p <~ PutValue S s r; put_all S (fst p) rest
  end.

(** Read until there is no row; [n] rows at most. *)
Fixpoint drain (S : Sorter3) (n : nat) (s : sorter S) : sres (sorter S * list row) :=
  p <~ GetNextValue S s;
  match snd p, n with
  | None, _ => SOk (fst p, [])
  | Some _, O => SFault
  | Some r, Datatypes.S m => rest <~ drain S m (fst p); SOk (fst rest, r :: snd rest)
  end.

(** The rows put, then read. *)
Definition sort_rows (S : Sorter3) (s : sorter S) (rows : list row) : sres (sorter S * list row) :=
  s <~ put_all S s rows; drain S (length rows) s.

Section Rows.
Context (key_bytes total_bytes : nat).

Definition key_compare (r1 r2 : row) : Z := memcmp r1 r2 key_bytes.
Definition key_le (r1 r2 : row) : Prop := key_compare r1 r2 <= 0.

#[global] Instance key_compare_Comparator : Comparator key_compare.
Proof. apply memcmp_Comparator. Qed.

(** The promise: the rows come back in order, each as often as it was put, or the query is
    killed; after a rewind the rows come again. *)
Class Sorts (S : Sorter3) (Rewind : sorter S -> sres (sorter S)) (killed : Prop) (s0 : sorter S) (fits : list row -> Prop) : Prop := {
  sorts_rows : forall rows, fits rows ->
    (exists s out, sort_rows S s0 rows = SOk (s, out) /\ out ≡ₚ rows /\ StronglySorted key_le out /\
       (rows <> [] -> (exists s1 s2 out', Rewind s = SOk s1 /\ drain S (length rows) s1 = SOk (s2, out') /\
                         out' ≡ₚ rows /\ StronglySorted key_le out') \/ killed)) \/
    (sort_rows S s0 rows = SKilled /\ killed)
}.

(** ** SorterOnePass *)

Record OnePass := mkOP {
  buf : list row;            (* size rows *)
  buf_input_pos : Z;
  buf_output_pos : Z;
  bound_queue : list Z;
  already_sorted : bool
}.

Definition bound_queue_size (size : Z) : Z :=
  let n := 2 + size / 10 in if n <? 10 then 10 else n.

(** [mem] and [queue] are the memory as it is allocated. *)
Definition OnePass_new (mem : list row) (queue : list Z) : OnePass := mkOP mem 0 0 queue true.

Definition OnePass_PutValue (s : OnePass) (b : row) : sres (OnePass * bool) :=
  if negb (buf_input_pos s <? zlen (buf s)) then SFault
  else SOk (mkOP (buf s).[buf_input_pos s <- b] (buf_input_pos s + 1) (buf_output_pos s) (bound_queue s) false, true).

(** Passes over the whole interval until one exchanges nothing. *)
Fixpoint BubbleSort_loop (fuel : nat) (a : list row) (s1 s2 : Z) : sres (list row) :=
  match fuel with
  | O => SFault
  | S n => let '(a, pom) := bubble_up [] key_compare a s1 s2 in if pom then BubbleSort_loop n a s1 s2 else SOk a
  end.

Definition BubbleSort (a : list row) (s1 s2 : Z) : sres (list row) :=
  BubbleSort_loop (Z.to_nat (s2 - s1) + 2) a s1 s2.

(** The scans around [mid_val], which follows the row it points to. *)
Fixpoint qs_partition (fuel : nat) (a : list row) (mid_val i j : Z) : option (list row * Z * Z) :=
  match fuel with
  | O => None
  | S n =>
      i ← scan_up [] key_compare (length a + 1) a a.[[]|mid_val] i;
      j ← scan_down [] key_compare (length a + 1) a a.[[]|mid_val] j;
      let '(a, mid_val, i, j) :=
        if i <=? j then
          let '(a, mid_val) :=
            if negb (i =? j) then (ib_swap [] a i j, if i =? mid_val then j else if j =? mid_val then i else mid_val)
            else (a, mid_val) in
          (a, mid_val, i + 1, j - 1)
        else (a, mid_val, i, j) in
      if i <=? j then qs_partition n a mid_val i j else Some (a, i, j)
  end.

Definition bubble_sort_limit : Z := 20.

(** The state of the loop: the rows, the queue, where it is read and written. *)
Record QState := mkQS { qs_buf : list row; queue : list Z; queue_read : Z; queue_write : Z }.

(** An interval with more than one row is sorted at once if it is short, or queued. *)
Definition qs_add (q : QState) (n s1 s2 : Z) : sres QState :=
  if negb (s1 <? s2) then SOk q
  else if s2 - s1 <? bubble_sort_limit then
    a <~ BubbleSort (qs_buf q) s1 s2; SOk (mkQS a (queue q) (queue_read q) (queue_write q))
  else if negb ((0 <=? queue_write q) && (queue_write q + 1 <? zlen (queue q))) then SFault
  else
    let w := queue_write q + 2 in
    SOk (mkQS (qs_buf q) (queue q).[queue_write q <- s1].[queue_write q + 1 <- s2] (queue_read q)
           (if n <=? w then w - n else w)).

(** One interval of the queue; [n] is the size of the queue, [r] the random factor. *)
Definition qs_step (q : QState) (n r : Z) : sres QState :=
  if negb ((0 <=? queue_read q) && (queue_read q + 1 <? zlen (queue q))) then SFault
  else
    let s1 := (queue q).[0|queue_read q] in
    let s2 := (queue q).[0|queue_read q + 1] in
    let q := mkQS (qs_buf q) (queue q) ((queue_read q + 2) mod n) (queue_write q) in
    if s1 =? s2 then SOk q
    else
      let mid_val := s1 + (s2 - s1) / 8 * r in
      p <~ of_option (qs_partition (Z.to_nat (s2 - s1 + 2)) (qs_buf q) mid_val s1 s2);
      let '(a, i, j) := p in
      q <~ qs_add (mkQS a (queue q) (queue_read q) (queue_write q)) n s1 j;
      qs_add q n i s2.

(** [rand] and [killed] give the random number and the state of the connection in each round. *)
Fixpoint qs_loop (fuel : nat) (q : QState) (n : Z) (rand : nat -> Z) (killed : nat -> bool) (k : nat) : sres QState :=
  if queue_read q =? queue_write q then SOk q
  else
    match fuel with
    | O => SFault
    | S m =>
        if killed k then SKilled
        else q <~ qs_step q n (2 + rand k mod 4); qs_loop m q n rand killed (S k)
    end.

(** The rows 0 to [rows - 1] of [a]; each round removes an interval or splits it. *)
Definition QuickSort (a : list row) (rows : Z) (q : list Z) (rand : nat -> Z) (killed : nat -> bool) : sres (list row * list Z) :=
  if Nat.eqb key_bytes 0 then SOk (a, q)
  else
    let q := q.[0 <- 0].[1 <- rows - 1] in
    if rows <? bubble_sort_limit then a <~ BubbleSort a 0 (rows - 1); SOk (a, q)
    else
      q <~ qs_loop (Z.to_nat (2 * rows) + 1) (mkQS a q 0 2) (bound_queue_size (zlen a)) rand killed 0;
      SOk (qs_buf q, queue q).

Definition OnePass_GetNextValue (rand : nat -> Z) (killed : nat -> bool) (s : OnePass) : sres (OnePass * option row) :=
  s <~ (if negb (already_sorted s) then
          p <~ QuickSort (buf s) (buf_input_pos s) (bound_queue s) rand killed;
          SOk (mkOP (fst p) (buf_input_pos s) (buf_output_pos s) (snd p) true)
        else SOk s);
  if buf_output_pos s =? buf_input_pos s then SOk (s, None)
  else SOk (mkOP (buf s) (buf_input_pos s) (buf_output_pos s + 1) (bound_queue s) (already_sorted s),
            Some (buf s).[[]|buf_output_pos s]).

Definition OnePass_Rewind (s : OnePass) : OnePass :=
  mkOP (buf s) (buf_input_pos s) 0 (bound_queue s) (already_sorted s).

Definition SorterOnePass (rand : nat -> Z) (killed : nat -> bool) : Sorter3 :=
  mkSorter OnePass OnePass_PutValue (OnePass_GetNextValue rand killed).

(** ** Bubble sort *)

Abbreviation cmp := key_compare.
Abbreviation sorted_on := (QSort.sorted_on [] cmp).
Abbreviation swaps := (QSort.swaps []).

(** The last [k] rows are in their places. *)
Definition settled (a : list row) (lo hi k : Z) : Prop :=
  forall x y, lo <= x <= y -> y <= hi -> hi - k < y -> cmp a.[[]|x] a.[[]|y] <= 0.

Lemma bubble_up_still a hi m :
  (forall x, m <= x < hi -> cmp a.[[]|x] a.[[]|x + 1] <= 0) -> forall sw,
  foldl (fun '(a, swapped) i => if 0 <? cmp a.[[]|i] a.[[]|i + 1] then (ib_swap [] a i (i + 1), true) else (a, swapped))
    (a, sw) (range m (hi - 1)) = (a, sw).
Proof.
  intros H sw. assert (forall l, (forall x, In x l -> m <= x < hi) -> foldl (fun '(a, swapped) i =>
    if 0 <? cmp a.[[]|i] a.[[]|i + 1] then (ib_swap [] a i (i + 1), true) else (a, swapped)) (a, sw) l = (a, sw)) as Hl.
  { induction l as [|x l IH]; intros Hin; [done|]. cbn [foldl]. specialize (H x (Hin x (or_introl eq_refl))).
    destruct (Z.ltb_spec 0 (cmp a.[[]|x] a.[[]|x + 1])); [lia|]. apply IH. intros y Hy. apply Hin. by right. }
  apply Hl. intros x Hx. apply range_In in Hx. lia.
Qed.

Lemma bubble_pass a lo hi k :
  0 <= lo -> hi < zlen a -> 0 <= k -> lo <= hi - k -> settled a lo hi k ->
  let '(a', _) := bubble_up [] cmp a lo hi in settled a' lo hi (k + 1).
Proof.
  intros Hlo Hhi Hk Hm Hset. set (m := hi - k) in *.
  assert (bubble_up [] cmp a lo hi = bubble_up [] cmp a lo m) as ->.
  { unfold bubble_up. rewrite (range_app lo (m - 1) (hi - 1)), foldl_app by lia. replace (m - 1 + 1) with m by lia.
    pose proof (bubble_up_spec [] cmp a lo m ltac:(lia) ltac:(lia) ltac:(lia)) as Hup. unfold bubble_up in Hup.
    destruct (foldl _ (a, false) (range lo (m - 1))) as [a1 sw]. destruct Hup as (Hs & _).
    destruct (swaps_facts [] _ _ _ _ Hs) as (_ & _ & Hout & Hall). apply bubble_up_still. intros x Hx.
    rewrite (Hout (x + 1)) by lia. destruct (Z.eq_dec x m) as [->|]; [|rewrite Hout by lia; apply Hset; lia].
    apply (Hall (fun r => cmp r a.[[]|m + 1] <= 0)); [|lia]. intros y Hy. apply Hset; lia. }
  pose proof (bubble_up_spec [] cmp a lo m ltac:(lia) ltac:(lia) ltac:(lia)) as Hup.
  destruct (bubble_up [] cmp a lo m) as [a1 sw]. destruct Hup as (Hs & Hmax & _).
  destruct (swaps_facts [] _ _ _ _ Hs) as (_ & _ & Hout & Hall). intros x y Hx Hy Hyk.
  destruct (Z.eq_dec y m) as [->|]; [apply Hmax; lia|]. rewrite (Hout y) by lia.
  destruct (Z.le_gt_cases x m); [|rewrite Hout by lia; apply Hset; lia].
  apply (Hall (fun r => cmp r a.[[]|y] <= 0)); [|lia]. intros z Hz. apply Hset; lia.
Qed.

Lemma BubbleSort_loop_spec fuel lo hi : forall k a,
  0 <= lo -> hi < zlen a -> 0 <= k -> settled a lo hi k -> (Z.to_nat (hi - lo + 1 - k) < fuel)%nat ->
  exists a', BubbleSort_loop fuel a lo hi = SOk a' /\ swaps lo hi a a' /\ sorted_on a' lo hi.
Proof.
  induction fuel as [|n IH]; intros k a Hlo Hhi Hk Hset Hf; [lia|]. cbn [BubbleSort_loop].
  destruct (Z.le_gt_cases lo (hi - k)) as [Hle|Hgt].
  - pose proof (bubble_pass a lo hi k Hlo Hhi Hk Hle Hset) as Hp.
    pose proof (bubble_up_spec [] cmp a lo hi Hlo Hhi ltac:(lia)) as Hup.
    destruct (bubble_up [] cmp a lo hi) as [a1 sw]. destruct Hup as (Hs & _ & Hno). destruct sw.
    + pose proof (swaps_len [] _ _ _ _ Hs) as Hl. destruct (IH (k + 1) a1) as (a' & -> & Hs' & Hso); [lia|lia|lia|done|lia|].
      exists a'. split; [done|]. split; [by apply (swaps_trans [] _ _ _ a1)|done].
    + destruct (Hno eq_refl) as [-> Ha]. exists a. split; [done|]. split; [apply rtc_refl|by apply (adjacent_sorted [] cmp)].
  - unfold bubble_up. rewrite bubble_up_still by (intros x Hx; apply Hset; lia).
    exists a. split; [done|]. split; [apply rtc_refl|]. intros x y Hx Hy. apply Hset; lia.
Qed.

Lemma BubbleSort_spec a lo hi :
  0 <= lo -> hi < zlen a -> exists a', BubbleSort a lo hi = SOk a' /\ swaps lo hi a a' /\ sorted_on a' lo hi.
Proof.
  intros Hlo Hhi. apply (BubbleSort_loop_spec _ _ _ 0); [done|done|lia| |lia]. intros x y Hx Hy Hk. lia.
Qed.

(** ** Partition *)

Lemma scan_up_range fuel a p : forall i i', scan_up [] cmp fuel a p i = Some i' -> 0 <= i' < zlen a.
Proof.
  induction fuel as [|n IH]; intros i i'; simpl; [done|]. unfold in_array.
  destruct (Z.leb_spec 0 i), (Z.ltb_spec i (zlen a)); simpl; try done. destruct (_ <? 0); [apply IH|intros [= <-]; done].
Qed.

Lemma scan_down_range fuel a p : forall i i', scan_down [] cmp fuel a p i = Some i' -> 0 <= i' < zlen a.
Proof.
  induction fuel as [|n IH]; intros i i'; simpl; [done|]. unfold in_array.
  destruct (Z.leb_spec 0 i), (Z.ltb_spec i (zlen a)); simpl; try done. destruct (0 <? _); [apply IH|intros [= <-]; done].
Qed.

(** Following the pivot with a pointer is comparing with the row it points to. *)
Lemma qs_partition_eq fuel : forall a m i j,
  0 <= m < zlen a -> i <= j -> (0 < fuel)%nat -> qs_partition fuel a m i j = partition [] cmp (S fuel) a a.[[]|m] i j.
Proof.
  induction fuel as [|n IH]; intros a m i j Hm Hij Hf; [lia|]. cbn [qs_partition]. change (partition [] cmp (S (S n)) a a.[[]|m] i j) with
    (if j <? i then Some (a, i, j) else i0 ← scan_up [] cmp (length a + 1) a a.[[]|m] i; j0 ← scan_down [] cmp (length a + 1) a a.[[]|m] j;
     if i0 <=? j0 then partition [] cmp (S n) (ib_swap [] a i0 j0) a.[[]|m] (i0 + 1) (j0 - 1) else partition [] cmp (S n) a a.[[]|m] i0 j0).
  destruct (Z.ltb_spec j i); [lia|].
  destruct (scan_up [] cmp (length a + 1) a a.[[]|m] i) as [i1|] eqn:E1; [|done]. cbn [mbind option_bind].
  destruct (scan_down [] cmp (length a + 1) a a.[[]|m] j) as [j1|] eqn:E2; [|done]. cbn [mbind option_bind].
  apply scan_up_range in E1. apply scan_down_range in E2.
  assert (forall a' m' i' j', 0 <= m' < zlen a' -> a'.[[]|m'] = a.[[]|m] ->
    (if i' <=? j' then qs_partition n a' m' i' j' else Some (a', i', j')) = partition [] cmp (S n) a' a.[[]|m] i' j') as Hcont.
  { intros a' m' i' j' Hm' Ev. destruct (Z.leb_spec i' j').
    - rewrite <- Ev. destruct n as [|n]; [|apply IH; [done|done|lia]]. cbn [qs_partition partition].
      destruct (Z.ltb_spec j' i'); [lia|]. unfold mbind, option_bind. by repeat case_match.
    - cbn [partition]. by destruct (Z.ltb_spec j' i'); [|lia]. }
  destruct (Z.leb_spec i1 j1); [|by apply Hcont]. destruct (Z.eqb_spec i1 j1) as [->|Hne]; cbn [negb].
  - replace (ib_swap [] a j1 j1) with a; [by apply Hcont|]. unfold ib_swap. rewrite !zupd_id by (rewrite ?zupd_id by done; done). done.
  - apply Hcont; rewrite ?zlen_ib_swap; [case_cmp; lia|]. rewrite znth_ib_swap by lia.
    destruct (Z.eqb_spec i1 m), (Z.eqb_spec j1 m); case_cmp; subst; try lia; done.
Qed.

Lemma qs_partition_spec a lo hi m :
  0 <= lo -> lo <= m <= hi -> hi < zlen a ->
  exists a' i j, qs_partition (Z.to_nat (hi - lo + 2)) a m lo hi = Some (a', i, j) /\
    swaps lo hi a a' /\ split_at [] cmp a' a.[[]|m] lo hi i j /\ j < i /\ lo < i <= hi + 1 /\ lo - 1 <= j < hi.
Proof. intros Hlo Hm Hhi. rewrite qs_partition_eq by lia. apply partition_at; [apply _|lia..]. Qed.

(** ** Intervals that still have to be sorted *)

Definition inside (u : Z * Z) (x : Z) : Prop := u.1 <= x <= u.2.
Definition rows_of (u : Z * Z) : Z := u.2 - u.1 + 1.

(** How many intervals a row is in, and the number of rows of all intervals. *)
Definition cover (P : list (Z * Z)) (x : Z) : Z := foldr (fun u n => bit1 ((u.1 <=? x) && (x <=? u.2)) + n) 0 P.
Definition total (P : list (Z * Z)) : Z := foldr (fun u n => rows_of u + n) 0 P.

Lemma cover_app P Q x : cover (P ++ Q) x = cover P x + cover Q x.
Proof. induction P as [|u P IH]; [done|]. cbn [app cover foldr]. fold (cover (P ++ Q) x) (cover P x). lia. Qed.

Lemma total_app P Q : total (P ++ Q) = total P + total Q.
Proof. induction P as [|u P IH]; [done|]. cbn [app total foldr]. fold (total (P ++ Q)) (total P). lia. Qed.

Lemma cover_nonneg P x : 0 <= cover P x.
Proof. induction P as [|u P IH]; [done|]. cbn [cover foldr]. fold (cover P x). pose proof (bit1_bounds ((u.1 <=? x) && (x <=? u.2))). lia. Qed.

Lemma cover_inside P u x : In u P -> inside u x -> 1 <= cover P x.
Proof.
  unfold inside. induction P as [|v P IH]; [done|]. cbn [cover foldr]. fold (cover P x). pose proof (cover_nonneg P x).
  intros [->|Hin] Hx; [|specialize (IH Hin Hx); pose proof (bit1_bounds ((v.1 <=? x) && (x <=? v.2))); lia].
  cmp_solve.
Qed.

Lemma cover_unique P u v x : cover P x <= 1 -> In u P -> In v P -> inside u x -> inside v x -> u = v.
Proof.
  induction P as [|w P IH]; [done|]. cbn [cover foldr]. fold (cover P x). intros Hc Hu Hv Hux Hvx.
  assert (forall w, inside w x -> bit1 ((w.1 <=? x) && (x <=? w.2)) = 1) as Hb by (unfold inside; intros w' Hw; cmp_solve).
  pose proof (bit1_bounds ((w.1 <=? x) && (x <=? w.2))). pose proof (cover_nonneg P x).
  destruct Hu as [<-|Hu], Hv as [<-|Hv]; [done| | |apply IH; [lia|done..]].
  - pose proof (cover_inside P v x Hv Hvx). specialize (Hb w Hux). lia.
  - pose proof (cover_inside P u x Hu Hux). specialize (Hb w Hvx). lia.
Qed.

(** Two rows are in order, or still in a common interval. *)
Definition ordered_but (P : list (Z * Z)) (a : list row) (rows : Z) : Prop :=
  forall x y, 0 <= x < y -> y < rows -> (exists u, In u P /\ inside u x /\ inside u y) \/ cmp a.[[]|x] a.[[]|y] <= 0.

Lemma ordered_but_sub P P' a rows : (forall u, In u P -> In u P') -> ordered_but P a rows -> ordered_but P' a rows.
Proof. intros Hs H x y Hx Hy. destruct (H x y Hx Hy) as [(u & Hu & ?)|?]; [left; exists u; split; [by apply Hs|done]|by right]. Qed.

Lemma ordered_but_swaps P a a' rows u :
  ordered_but P a rows -> In u P -> (forall x, cover P x <= 1) -> 0 <= u.1 -> u.2 < rows -> swaps u.1 u.2 a a' -> ordered_but P a' rows.
Proof.
  intros H Hu Hc Hlo Hhi Hs. destruct (swaps_facts [] _ _ _ _ Hs) as (_ & _ & Hout & Hall).
  assert (forall k z, inside u k -> 0 <= z < rows -> ~ inside u z ->
            (k < z -> cmp a.[[]|k] a.[[]|z] <= 0) /\ (z < k -> cmp a.[[]|z] a.[[]|k] <= 0)) as Hcross.
  { intros k z Hk Hz Hnz. unfold inside in Hk.
    split; intros Hkz; [destruct (H k z) as [(v & Hv & H1 & H2)|?]|destruct (H z k) as [(v & Hv & H2 & H1)|?]]; try lia;
      (destruct Hnz; by rewrite (cover_unique P u v k)). }
  intros x y Hx Hy. destruct (decide (u.1 <= x <= u.2)) as [Hxu|Hxu], (decide (u.1 <= y <= u.2)) as [Hyu|Hyu].
  - left. by exists u.
  - right. rewrite (Hout y) by done. apply (Hall (fun r => cmp r a.[[]|y] <= 0)); [|done].
    intros k Hk. apply (Hcross k y); [done|lia|done|lia].
  - right. rewrite (Hout x) by done. apply (Hall (fun r => cmp a.[[]|x] r <= 0)); [|done].
    intros k Hk. apply (Hcross k x); [done|lia|done|lia].
  - rewrite !Hout by done. by apply H.
Qed.

Lemma ordered_but_split P a rows p lo hi i j :
  ordered_but ((lo, hi) :: P) a rows -> split_at [] cmp a p lo hi i j -> ordered_but ((lo, j) :: (i, hi) :: P) a rows.
Proof.
  intros H [Hl Hr] x y Hx Hy. unfold inside. destruct (H x y Hx Hy) as [(u & [<-|Hu] & Hux & Huy)|?]; [|left; exists u; by split; [do 2 right|]|by right].
  unfold inside in Hux, Huy. cbn [fst snd] in *. destruct (Z.le_gt_cases y j); [left; exists (lo, j); simpl; split; [by left|lia]|].
  destruct (Z.le_gt_cases i x); [left; exists (i, hi); simpl; split; [by right; left|lia]|].
  right. apply (QSort.cmp_trans _ p); [apply Hl; lia|apply Hr; lia].
Qed.

Lemma ordered_but_sorted P a rows lo hi : ordered_but ((lo, hi) :: P) a rows -> sorted_on a lo hi -> ordered_but P a rows.
Proof.
  intros H Hs x y Hx Hy. destruct (H x y Hx Hy) as [(u & [<-|Hu] & Hux & Huy)|?]; [right|left; by exists u|by right].
  unfold inside in Hux, Huy. cbn [fst snd] in *. apply Hs; lia.
Qed.

(** ** The cyclic queue *)

(** The place of the [k]th pair; the first entries of pairs may be odd or even. *)
Definition place (n read : Z) (k : nat) : Z := (read + 2 * Z.of_nat k) mod n.

Definition items (q : list Z) (n read : Z) (c : nat) : list (Z * Z) :=
  map (fun k => (q.[0|place n read k], q.[0|place n read k + 1])) (seq 0 c).

Lemma mod_wrap x n : 0 <= x < 2 * n -> x mod n = if x <? n then x else x - n.
Proof.
  intros Hx. destruct (Z.ltb_spec x n); [apply Z.mod_small; lia|].
  replace x with (x - n + 1 * n) at 1 by lia. rewrite Z.mod_add by lia. apply Z.mod_small. lia.
Qed.

Lemma place_eq n read k : 0 <= read < n -> 2 * Z.of_nat k <= n ->
  place n read k = if read + 2 * Z.of_nat k <? n then read + 2 * Z.of_nat k else read + 2 * Z.of_nat k - n.
Proof. intros Hr Hk. apply mod_wrap. lia. Qed.

Lemma length_items q n read c : length (items q n read c) = c.
Proof. unfold items. by rewrite length_map, length_seq. Qed.

Lemma items_cons q n read c : 0 <= read < n ->
  items q n read (S c) = (q.[0|read], q.[0|read + 1]) :: items q n ((read + 2) mod n) c.
Proof.
  intros Hr. unfold items. cbn [seq map]. rewrite <- seq_shift, map_map. f_equal.
  - unfold place. by rewrite Z.add_0_r, Z.mod_small by lia.
  - apply map_ext. intros k. assert (place n read (S k) = place n ((read + 2) mod n) k) as ->; [|done].
    unfold place. rewrite Z.add_mod_idemp_l by lia. f_equal. lia.
Qed.

(** Writing behind the last pair, as long as a pair stays free. *)
Lemma items_push q n read c s1 s2 :
  0 <= read < n -> 2 * Z.of_nat c + 2 < n -> n < zlen q ->
  let w := place n read c in
  items q.[w <- s1].[w + 1 <- s2] n read (S c) = items q n read c ++ [(s1, s2)].
Proof.
  intros Hr Hc Hq w. assert (0 <= w < n) as Hw by (unfold w, place; apply Z.mod_pos_bound; lia).
  unfold items. rewrite seq_S, map_app, Nat.add_0_l. cbn [map]. f_equal.
  - apply map_ext_in. intros k Hk. apply in_seq in Hk.
    pose proof (place_eq n read k Hr ltac:(lia)) as Ek. pose proof (place_eq n read c Hr ltac:(lia)) as Ec. fold w in Ec.
    assert (place n read k <> w /\ place n read k <> w + 1 /\ place n read k + 1 <> w) as (N1 & N2 & N3).
    { rewrite Ek, Ec. cmp_solve. }
    rewrite !znth_zupd_ne by lia. done.
  - fold w. rewrite (znth_zupd_ne 0 _ (w + 1) w) by lia. rewrite !znth_zupd_eq by (rewrite ?zlen_zupd; lia). done.
Qed.

(** ** The loop *)

Section Loop.
Context (rows size : Z) (a0 : list row) (Hrows : 0 <= rows <= size).
Abbreviation n := (bound_queue_size size).

(** A state of the loop with the queued intervals [P] and the intervals [X] at hand. *)
Record QInv (q : QState) (P X : list (Z * Z)) : Prop := {
  qi_buf : swaps 0 (rows - 1) a0 (qs_buf q);
  qi_size : zlen (qs_buf q) = size;
  qi_queue : zlen (queue q) = 2 * n;
  qi_read : 0 <= queue_read q < n;
  qi_write : queue_write q = place n (queue_read q) (length P);
  qi_items : P = items (queue q) n (queue_read q) (length P);
  qi_long : Forall (fun u => u.1 + 19 <= u.2) P;
  qi_range : Forall (fun u => 0 <= u.1 <= u.2 + 1 /\ u.2 < rows) (P ++ X);
  qi_cover : forall x, cover (P ++ X) x <= 1;
  qi_total : total (P ++ X) <= rows;
  qi_ordered : ordered_but (P ++ X) (qs_buf q) rows
}.

Lemma total_long P : Forall (fun u => u.1 + 19 <= u.2) P -> 20 * Z.of_nat (length P) <= total P.
Proof. induction 1 as [|u P Hu _ IH]; [done|]. cbn [length total foldr]. fold (total P). unfold rows_of. lia. Qed.

Lemma total_nonneg X : Forall (fun u => 0 <= u.1 <= u.2 + 1 /\ u.2 < rows) X -> 0 <= total X.
Proof. induction 1 as [|u P Hu _ IH]; [done|]. cbn [total foldr]. fold (total P). unfold rows_of. lia. Qed.

Lemma queue_room k : 20 * k <= rows -> 2 * k + 2 <= n.
Proof.
  intros Hk. unfold bound_queue_size. cbv zeta. pose proof (Z.div_mod size 10). pose proof (Z.mod_pos_bound size 10). cmp_solve.
Qed.

Lemma QInv_room q P X : QInv q P X -> 2 * Z.of_nat (length P) + 2 <= n.
Proof.
  intros [_ _ _ _ _ _ Hl Hr _ Ht _]. apply queue_room. pose proof (total_long P Hl). rewrite total_app in Ht.
  apply Forall_app in Hr as [_ Hr]. pose proof (total_nonneg X Hr). lia.
Qed.

Lemma QInv_empty q P : QInv q P [] -> (queue_read q =? queue_write q) = true -> P = [].
Proof.
  intros H E. pose proof (QInv_room _ _ _ H) as Hroom. destruct H as [_ _ _ Hr Hw _ _ _ _ _ _]. apply Z.eqb_eq in E.
  rewrite Hw, place_eq in E by lia. destruct P; [done|]. exfalso. cbn [length] in *. revert E. case_cmp; lia.
Qed.

(** The part at hand is finished. *)
Lemma QInv_finish q P X s1 s2 a :
  QInv q P ((s1, s2) :: X) -> swaps s1 s2 (qs_buf q) a -> sorted_on a s1 s2 ->
  QInv (mkQS a (queue q) (queue_read q) (queue_write q)) P X.
Proof.
  intros [Hb Hz Hq Hr Hw Hi Hl Hran Hc Ht Ho] Hs Hso. pose proof (swaps_len [] _ _ _ _ Hs) as Hlen.
  pose proof (swaps_len [] _ _ _ _ Hb) as Hlen0.
  assert (0 <= s1 <= s2 + 1 /\ s2 < rows) as Hran1.
  { apply Forall_app in Hran as [_ Hran]. by apply Forall_cons in Hran as [? _]. }
  constructor; cbn [qs_buf queue queue_read queue_write]; try done.
  - apply (swaps_trans [] _ _ _ (qs_buf q)); [done|]. apply (swaps_widen [] s1 s2); [done|lia..].
  - lia.
  - apply Forall_app in Hran as [H1 H2]. apply Forall_cons in H2 as [_ H2]. by apply Forall_app.
  - intros x. specialize (Hc x). rewrite cover_app in Hc |- *. cbn [cover foldr] in Hc. fold (cover X x) in Hc.
    pose proof (bit1_bounds (((s1, s2).1 <=? x) && (x <=? (s1, s2).2))). lia.
  - rewrite total_app in Ht |- *. cbn [total foldr] in Ht. fold (total X) in Ht. unfold rows_of in Ht. simpl in Ht. lia.
  - apply (ordered_but_sorted _ _ _ s1 s2); [|done].
    apply (ordered_but_sub (P ++ (s1, s2) :: X)); [intros u; rewrite !in_app_iff; simpl; rewrite in_app_iff; tauto|].
    apply (ordered_but_swaps _ (qs_buf q) a _ (s1, s2)); [done|apply in_elt|done|simpl; lia|simpl; lia|done].
Qed.

Definition measure (P : list (Z * Z)) : Z := foldr (fun u k => 2 * rows_of u - 1 + k) 0 P.

Lemma measure_app P Q : measure (P ++ Q) = measure P + measure Q.
Proof. induction P as [|u P IH]; [done|]. cbn [app measure foldr]. fold (measure (P ++ Q)) (measure P). lia. Qed.

Lemma qs_add_spec q P X s1 s2 :
  QInv q P ((s1, s2) :: X) ->
  exists q' P', qs_add q n s1 s2 = SOk q' /\ QInv q' P' X /\ measure P' <= measure P + Z.max 0 (2 * (s2 - s1 + 1) - 1).
Proof.
  intros H. pose proof (qi_range _ _ _ H) as Hran. apply Forall_app in Hran as [_ Hran]. apply Forall_cons in Hran as [Hs _].
  cbn [fst snd] in Hs. unfold qs_add. destruct (Z.ltb_spec s1 s2) as [Hlt|Hge]; cbn [negb].
  2: { exists q, P. split; [done|]. split; [|lia]. replace q with (mkQS (qs_buf q) (queue q) (queue_read q) (queue_write q)) by (by destruct q).
       apply (QInv_finish _ _ _ s1 s2); [done|apply rtc_refl|]. apply sorted_on_short; [apply _|lia]. }
  unfold bubble_sort_limit. destruct (Z.ltb_spec (s2 - s1) 20).
  { destruct (BubbleSort_spec (qs_buf q) s1 s2) as (a & -> & Hsw & Hso); [lia|rewrite (qi_size _ _ _ H); lia|].
    eexists _, P. split; [reflexivity|]. split; [|lia]. by apply (QInv_finish _ _ _ s1 s2). }
  pose proof (qi_total _ _ _ H) as Ht. rewrite total_app in Ht. cbn [total foldr] in Ht. fold (total X) in Ht.
  pose proof (qi_range _ _ _ H) as Hran. apply Forall_app in Hran as [_ Hran]. apply Forall_cons in Hran as [_ Hran].
  pose proof (total_nonneg X Hran). pose proof (total_long P (qi_long _ _ _ H)). unfold rows_of in Ht. cbn [fst snd] in Ht.
  pose proof (queue_room (Z.of_nat (length P) + 1) ltac:(lia)) as Hroom.
  pose proof (qi_read _ _ _ H) as Hr. pose proof (qi_queue _ _ _ H) as Hq. pose proof (qi_write _ _ _ H) as Hw.
  assert (0 <= queue_write q < n) as Hwr by (rewrite Hw; unfold place; apply Z.mod_pos_bound; lia).
  destruct (Z.leb_spec 0 (queue_write q)); [|lia]. destruct (Z.ltb_spec (queue_write q + 1) (zlen (queue q))); [|lia]. cbn [andb negb].
  eexists _, (P ++ [(s1, s2)]). split; [reflexivity|]. split; [|rewrite measure_app; cbn [measure foldr]; unfold rows_of; cbn [fst snd]; lia].
  destruct H as [Hb Hz _ _ _ Hi Hl Hra Hc Htt Ho].
  constructor; cbn [qs_buf queue queue_read queue_write]; rewrite ?length_app; cbn [length]; try done.
  - by rewrite !zlen_zupd.
  - rewrite Hw, !place_eq by lia. case_cmp; lia.
  - rewrite Nat.add_1_r, Hw, items_push by lia. by rewrite <- Hi.
  - apply Forall_app. split; [done|]. constructor; [simpl; lia|constructor].
  - by rewrite <- app_assoc.
  - intros x. rewrite <- app_assoc. apply Hc.
  - by rewrite <- app_assoc.
  - by rewrite <- app_assoc.
Qed.

(** The pivot is a row of the interval. *)
Lemma pivot_inside s1 s2 x : s1 < s2 -> s1 <= s1 + (s2 - s1) / 8 * (2 + x mod 4) <= s2.
Proof.
  intros H. pose proof (Z.div_mod (s2 - s1) 8). pose proof (Z.mod_pos_bound (s2 - s1) 8). pose proof (Z.mod_pos_bound x 4).
  assert (0 <= (s2 - s1) / 8) by (apply Z.div_pos; lia). nia.
Qed.

(** The first interval of the queue is split. *)
Lemma QInv_split q P s1 s2 p a i j :
  QInv q ((s1, s2) :: P) [] -> swaps s1 s2 (qs_buf q) a -> split_at [] cmp a p s1 s2 i j -> j < i -> s1 < i <= s2 + 1 -> s1 - 1 <= j < s2 ->
  QInv (mkQS a (queue q) ((queue_read q + 2) mod n) (queue_write q)) P [(s1, j); (i, s2)].
Proof.
  intros [Hb Hz Hq Hr Hw Hi Hl Hran Hc Ht Ho] Hs Hsp Hji Hib Hjb. pose proof (swaps_len [] _ _ _ _ Hs) as Hlen.
  pose proof (swaps_len [] _ _ _ _ Hb) as Hlen0. rewrite app_nil_r in *.
  apply Forall_cons in Hran as [Hran1 Hran]. apply Forall_cons in Hl as [_ Hl]. cbn [fst snd] in Hran1.
  cbn [length] in Hi, Hw. rewrite items_cons in Hi by done. injection Hi as Hs1 Hs2 Hi.
  constructor; cbn [qs_buf queue queue_read queue_write]; try done.
  - apply (swaps_trans [] _ _ _ (qs_buf q)); [done|]. apply (swaps_widen [] s1 s2); [done|lia..].
  - lia.
  - apply Z.mod_pos_bound. lia.
  - rewrite Hw. unfold place. rewrite Z.add_mod_idemp_l by lia. f_equal. lia.
  - apply Forall_app. split; [done|]. repeat constructor; simpl; lia.
  - intros x. specialize (Hc x). rewrite cover_app. cbn [cover foldr fst snd] in *. fold (cover P x) in *. revert Hc. unfold bit1. case_cmp; cbn [andb]; lia.
  - rewrite total_app. cbn [total foldr] in *. fold (total P) in *. unfold rows_of in *. cbn [fst snd] in *. lia.
  - apply (ordered_but_sub ((s1, j) :: (i, s2) :: P)); [intros u; rewrite in_app_iff; simpl; tauto|].
    apply (ordered_but_split _ _ _ p); [|done].
    apply (ordered_but_swaps _ (qs_buf q) a _ (s1, s2)); [done|by left|done|simpl; lia|simpl; lia|done].
Qed.

Lemma qs_step_spec q P u x :
  QInv q (u :: P) [] ->
  exists q' P', qs_step q n (2 + x mod 4) = SOk q' /\ QInv q' P' [] /\ measure P' < measure (u :: P).
Proof.
  intros H. destruct u as [s1 s2]. pose proof (qi_read _ _ _ H) as Hr. pose proof (qi_queue _ _ _ H) as Hq.
  pose proof (qi_items _ _ _ H) as Hi. cbn [length] in Hi. rewrite items_cons in Hi by done. injection Hi as Hs1 Hs2 _.
  pose proof (qi_long _ _ _ H) as Hl. apply Forall_cons in Hl as [Hl _].
  pose proof (qi_range _ _ _ H) as Hran. rewrite app_nil_r in Hran. apply Forall_cons in Hran as [Hran _]. cbn [fst snd] in *.
  unfold qs_step. destruct (Z.leb_spec 0 (queue_read q)); [|lia]. destruct (Z.ltb_spec (queue_read q + 1) (zlen (queue q))); [|lia]. cbn [andb negb].
  rewrite <- Hs1, <- Hs2. destruct (Z.eqb_spec s1 s2); [lia|]. cbn [qs_buf queue queue_read queue_write].
  pose proof (pivot_inside s1 s2 x ltac:(lia)) as Hm.
  destruct (qs_partition_spec (qs_buf q) s1 s2 _ ltac:(lia) Hm) as (a & i & j & -> & Hs & Hsp & Hji & Hib & Hjb); [rewrite (qi_size _ _ _ H); lia|].
  cbn [of_option sbind]. pose proof (QInv_split q P s1 s2 _ a i j H Hs Hsp Hji Hib Hjb) as I1.
  destruct (qs_add_spec _ _ _ _ _ I1) as (q1 & P1 & -> & I2 & M1). cbn [sbind].
  destruct (qs_add_spec _ _ _ _ _ I2) as (q2 & P2 & -> & I3 & M2). exists q2, P2. split; [done|]. split; [done|].
  cbn [measure foldr]. fold (measure P). unfold rows_of. cbn [fst snd]. lia.
Qed.

Lemma qs_loop_spec rand killed fuel : forall q P k,
  QInv q P [] -> measure P < Z.of_nat fuel ->
  (exists q', qs_loop fuel q n rand killed k = SOk q' /\ QInv q' [] []) \/
  (qs_loop fuel q n rand killed k = SKilled /\ exists k', killed k' = true).
Proof.
  induction fuel as [|m IH]; intros q P k H Hf; cbn [qs_loop].
  all: destruct (queue_read q =? queue_write q) eqn:E.
  1, 3: left; exists q; rewrite <- (QInv_empty q P H E) at 1; by (split; [done|]; pose proof (QInv_empty q P H E); subst P).
  - pose proof (total_long P (qi_long _ _ _ H)) as Hl. assert (0 <= measure P).
    { pose proof (qi_long _ _ _ H) as HL. clear -HL. induction HL as [|u P Hu _ IH]; [done|]. cbn [measure foldr]. fold (measure P). unfold rows_of. lia. }
    lia.
  - destruct P as [|u P].
    { pose proof (qi_write _ _ _ H) as Hw. pose proof (qi_read _ _ _ H). unfold place in Hw. cbn [length] in Hw. rewrite Z.add_0_r, Z.mod_small in Hw by lia. apply Z.eqb_neq in E. lia. }
    destruct (killed k) eqn:Ek; [right; split; [done|by exists k]|].
    destruct (qs_step_spec q P u (rand k) H) as (q' & P' & -> & H' & Hm). cbn [sbind]. apply (IH q' P'); [done|lia].
Qed.

End Loop.

(** A row order without pending intervals is the whole order. *)
Lemma ordered_sorted a rows : ordered_but [] a rows -> sorted_on a 0 (rows - 1).
Proof.
  intros H x y Hx Hy. destruct (Z.eq_dec x y) as [->|]; [apply cmp_refl; apply _|].
  destruct (H x y) as [(u & [] & _)|?]; [lia|lia|done].
Qed.

(** The sorter of a full buffer: the rows are sorted unless the query is killed. *)
Lemma QuickSort_spec a rows q rand killed :
  0 < rows <= zlen a -> zlen q = 2 * bound_queue_size (zlen a) ->
  (exists a' q', QuickSort a rows q rand killed = SOk (a', q') /\ swaps 0 (rows - 1) a a' /\ sorted_on a' 0 (rows - 1) /\ zlen q' = zlen q) \/
  (QuickSort a rows q rand killed = SKilled /\ exists k, killed k = true).
Proof.
  intros Hr Hq. unfold QuickSort. destruct (Nat.eqb_spec key_bytes 0) as [E0|Hne].
  { left. exists a, q. split; [done|]. split; [apply rtc_refl|]. split; [|done]. intros x y _ _. unfold key_compare. rewrite E0. done. }
  cbv zeta. unfold bubble_sort_limit. destruct (Z.ltb_spec rows 20).
  { left. destruct (BubbleSort_spec a 0 (rows - 1)) as (a' & -> & Hs & Hso); [lia|lia|].
    eexists _, _. split; [reflexivity|]. by rewrite !zlen_zupd. }
  assert (10 <= bound_queue_size (zlen a)) as Hn by (unfold bound_queue_size; cmp_solve).
  assert (QInv rows (zlen a) a (mkQS a q.[0 <- 0].[1 <- rows - 1] 0 2) [(0, rows - 1)] []) as H0.
  { constructor; cbn [qs_buf queue queue_read queue_write length]; try done.
    - by rewrite !zlen_zupd.
    - lia.
    - unfold place. rewrite Z.mod_small; lia.
    - rewrite items_cons by lia. cbn [items seq map]. rewrite (znth_zupd_ne 0 _ 1 0), !znth_zupd_eq by (rewrite ?zlen_zupd; lia). done.
    - repeat constructor. simpl. lia.
    - repeat constructor; simpl; lia.
    - intros x. cbn [app cover foldr fst snd]. pose proof (bit1_bounds ((0 <=? x) && (x <=? rows - 1))). lia.
    - cbn [app total foldr]. unfold rows_of. cbn [fst snd]. lia.
    - intros x y Hx Hy. left. exists (0, rows - 1). split; [by left|]. unfold inside. simpl. lia. }
  destruct (qs_loop_spec rows (zlen a) a ltac:(lia) rand killed (Z.to_nat (2 * rows) + 1) _ _ 0 H0) as [(q' & -> & Hi)|[-> Hk]]; [|left|right].
  - cbn [measure foldr]. unfold rows_of. cbn [fst snd]. lia.
  - cbn [sbind]. eexists _, _. split; [reflexivity|]. destruct Hi as [Hb _ Hqq _ _ _ _ _ _ _ Ho].
    split; [done|]. split; [by apply ordered_sorted|lia].
  - split; [done|done].
Qed.

(** ** The promise of [SorterOnePass] *)

Definition slice_rows (a : list row) (lo hi : Z) : list row := map (fun i => a.[[]|i]) (range lo hi).

Lemma slice_prefix (a : list row) k : 0 <= k <= zlen a -> slice_rows a 0 (k - 1) = take (Z.to_nat k) a.
Proof.
  intros Hk. apply (znth_ext []); unfold slice_rows, range.
  - unfold zlen in *. rewrite length_map, length_seqZ, length_take. lia.
  - intros i Hi. unfold zlen in Hi. rewrite length_map, length_seqZ in Hi. rewrite znth_take by lia.
    pose proof (list_lookup_fmap (fun i => a.[[]|i]) (seqZ 0 (k - 1 - 0 + 1)) (Z.to_nat i)) as E.
    rewrite lookup_seqZ_lt in E by lia. cbn [fmap option_fmap option_map] in E. apply (znth_lookup_Some []) in E. rewrite Z2Nat.id in E by lia.
    etransitivity; [exact E|]. done.
Qed.

Lemma sorted_slice a lo hi : sorted_on a lo hi -> StronglySorted key_le (slice_rows a lo hi).
Proof.
  unfold slice_rows. intros H. revert H. apply (range_ind (fun l lo => sorted_on a lo hi -> StronglySorted key_le (map (fun i => a.[[]|i]) l)) hi).
  - intros. constructor.
  - intros i Hi IH H. cbn [map]. constructor; [apply IH; intros x y Hx Hy; apply H; lia|].
    apply Forall_forall. intros r Hr. apply list_elem_of_In, in_map_iff in Hr as (k & <- & Hk). apply range_In in Hk. apply H; lia.
Qed.

Lemma OnePass_put_all rand killed rows : forall s,
  0 <= buf_input_pos s -> buf_input_pos s + zlen rows <= zlen (buf s) ->
  exists s', put_all (SorterOnePass rand killed) s rows = SOk s' /\
    zlen (buf s') = zlen (buf s) /\ buf_input_pos s' = buf_input_pos s + zlen rows /\ buf_output_pos s' = buf_output_pos s /\
    bound_queue s' = bound_queue s /\ already_sorted s' = already_sorted s && bool_decide (rows = []) /\
    (forall k, 0 <= k -> (buf s').[[]|k] = if (buf_input_pos s <=? k) && (k <? buf_input_pos s + zlen rows) then rows.[[]|k - buf_input_pos s] else (buf s).[[]|k]).
Proof.
  induction rows as [|r rows IH]; intros s Hi Hl.
  - exists s. split; [done|]. split; [done|]. unfold zlen at 1. cbn [length]. split; [lia|]. split; [done|]. split; [done|].
    split; [by rewrite andb_true_r|]. intros k Hk. unfold zlen. simpl. cmp_solve.
  - assert (zlen (r :: rows) = zlen rows + 1) as El by (unfold zlen; cbn [length]; lia). pose proof (zlen_nonneg rows).
    cbn [put_all SorterOnePass PutValue sorter]. unfold OnePass_PutValue at 1. destruct (Z.ltb_spec (buf_input_pos s) (zlen (buf s))); [|lia].
    cbn [negb sbind fst]. destruct (IH (mkOP (buf s).[buf_input_pos s <- r] (buf_input_pos s + 1) (buf_output_pos s) (bound_queue s) false))
      as (s' & -> & E1 & E2 & E3 & E4 & E5 & E6); cbn [buf buf_input_pos]; [lia|rewrite zlen_zupd; lia|].
    cbn [buf buf_input_pos buf_output_pos bound_queue already_sorted] in *. exists s'. split; [done|].
    split; [by rewrite E1, zlen_zupd|]. split; [lia|]. split; [done|]. split; [done|]. split; [rewrite E5; by rewrite andb_false_r|].
    intros k Hk. rewrite E6 by done. destruct (Z.eq_dec k (buf_input_pos s)) as [->|Hne].
    + rewrite znth_zupd_eq by lia. rewrite Z.sub_diag. case_cmp; try lia. done.
    + rewrite znth_zupd_ne by lia. replace (k - buf_input_pos s) with (1 + (k - (buf_input_pos s + 1))) by lia.
      case_cmp; try lia; cbn [andb]; try done.
      rewrite <- (znth_drop [] (r :: rows) 1) by lia. done.
Qed.

(** Reading from a sorted buffer. *)
Lemma OnePass_drain rand killed s n :
  already_sorted s = true -> 0 <= buf_output_pos s <= buf_input_pos s -> buf_input_pos s - buf_output_pos s <= Z.of_nat n ->
  drain (SorterOnePass rand killed) n s
  = SOk (mkOP (buf s) (buf_input_pos s) (buf_input_pos s) (bound_queue s) true,
         slice_rows (buf s) (buf_output_pos s) (buf_input_pos s - 1)).
Proof.
  revert s. induction n as [|n IH]; intros s Hs Ho Hn; cbn [drain SorterOnePass GetNextValue sorter]; unfold OnePass_GetNextValue at 1;
    rewrite Hs; cbn [negb sbind fst snd].
  - assert (buf_output_pos s = buf_input_pos s) as E by lia. rewrite (proj2 (Z.eqb_eq _ _) E). cbn [sbind fst snd].
    rewrite E. unfold slice_rows. rewrite range_nil by lia. destruct s; simpl in *. by subst.
  - destruct (Z.eqb_spec (buf_output_pos s) (buf_input_pos s)) as [E|Hne]; cbn [sbind fst snd].
    + rewrite E. unfold slice_rows. rewrite range_nil by lia. destruct s; simpl in *. by subst.
    + change (mkSorter _ _ _) with (SorterOnePass rand killed).
      rewrite (IH (mkOP (buf s) (buf_input_pos s) (buf_output_pos s + 1) (bound_queue s) (already_sorted s))) by (cbn [already_sorted buf_output_pos buf_input_pos]; done || lia).
      cbn [sbind fst snd buf buf_input_pos buf_output_pos bound_queue]. do 2 f_equal. unfold slice_rows. by rewrite (range_cons (buf_output_pos s)) by lia.
Qed.

Lemma take_put (a : list row) k r : 0 <= k < zlen a -> take (Z.to_nat (k + 1)) a.[k <- r] = take (Z.to_nat k) a ++ [r].
Proof.
  intros Hk. unfold zupd. destruct (Z.ltb_spec k 0); [lia|]. replace (Z.to_nat (k + 1)) with (S (Z.to_nat k)) by lia.
  unfold zlen in Hk. rewrite (take_S_r _ _ r) by (apply list_lookup_insert_eq; lia). by rewrite take_insert_ge by lia.
Qed.

(** Rows exchanged in a prefix: the prefix is permuted. *)
Lemma swaps_prefix (a a' : list row) k : 0 <= k <= zlen a -> swaps 0 (k - 1) a a' -> take (Z.to_nat k) a' ≡ₚ take (Z.to_nat k) a.
Proof.
  intros Hk Hs. destruct (swaps_facts [] _ _ _ _ Hs) as (Hl & Hp & Hout & _).
  apply (Permutation_app_inv_r (drop (Z.to_nat k) a)). rewrite take_drop.
  replace (drop (Z.to_nat k) a) with (drop (Z.to_nat k) a'); [by rewrite take_drop|].
  apply (znth_ext []); [unfold zlen in *; rewrite !length_drop; lia|]. intros i Hi. rewrite !znth_drop by lia. apply Hout. lia.
Qed.

(** The buffer after the rows are put is the rows. *)
Lemma prefix_rows (a rows : list row) :
  zlen rows <= zlen a -> (forall k, 0 <= k < zlen rows -> a.[[]|k] = rows.[[]|k]) -> take (length rows) a = rows.
Proof.
  intros Hl H. apply (znth_ext []); [unfold zlen in *; rewrite length_take; lia|].
  intros i Hi. rewrite <- (Nat2Z.id (length rows)). unfold zlen in *. rewrite length_take in Hi. rewrite znth_take by lia. apply H. lia.
Qed.

(** The first read sorts the rows 0 to [buf_input_pos - 1] of a buffer that is not yet sorted. *)
Lemma OnePass_first_read rand killed s n :
  already_sorted s = false -> 0 < buf_input_pos s <= zlen (buf s) -> buf_output_pos s = 0 ->
  zlen (bound_queue s) = 2 * bound_queue_size (zlen (buf s)) -> buf_input_pos s <= Z.of_nat n ->
  (exists s' out, drain (SorterOnePass rand killed) n s = SOk (s', out) /\
     already_sorted s' = true /\ buf_input_pos s' = buf_input_pos s /\ slice_rows (buf s') 0 (buf_input_pos s - 1) = out /\
     out ≡ₚ take (Z.to_nat (buf_input_pos s)) (buf s) /\ StronglySorted key_le out) \/
  (drain (SorterOnePass rand killed) n s = SKilled /\ exists k, killed k = true).
Proof.
  intros Hs Hi Ho Hq Hn. destruct n as [|n]; [lia|].
  destruct (QuickSort_spec (buf s) (buf_input_pos s) (bound_queue s) rand killed Hi Hq) as [(a & q & E & Hsw & Hso & Hq')|[E Hk]].
  - left. set (s1 := mkOP a (buf_input_pos s) 0 q true).
    assert (drain (SorterOnePass rand killed) (S n) s = drain (SorterOnePass rand killed) (S n) s1) as ->.
    { cbn [drain SorterOnePass GetNextValue sorter]. unfold OnePass_GetNextValue at 1. rewrite Hs. cbn [negb]. rewrite E. cbn [sbind fst snd]. rewrite Ho. done. }
    rewrite OnePass_drain by (cbn [s1 already_sorted buf_output_pos buf_input_pos]; done || lia). cbn [s1 buf buf_input_pos buf_output_pos bound_queue].
    eexists _, _. split; [reflexivity|]. split; [done|]. split; [done|]. split; [done|].
    split; [|by apply sorted_slice]. pose proof (swaps_len [] _ _ _ _ Hsw). rewrite slice_prefix by lia. apply swaps_prefix; [lia|done].
  - right. split; [|done]. cbn [drain SorterOnePass GetNextValue sorter]. unfold OnePass_GetNextValue at 1. rewrite Hs. cbn [negb]. by rewrite E.
Qed.

Lemma OnePass_sorts_lemma rand killed mem queue :
  zlen queue = 2 * bound_queue_size (zlen mem) ->
  Sorts (SorterOnePass rand killed) (fun s => SOk (OnePass_Rewind s)) (exists k, killed k = true)
    (OnePass_new mem queue) (fun rows => zlen rows <= zlen mem).
Proof.
  intros Hq. constructor. intros rows Hf. unfold sort_rows.
  destruct (OnePass_put_all rand killed rows (OnePass_new mem queue)) as (s & -> & Hl & Hi & Ho & Hbq & Has & Hb); [simpl; lia|simpl; lia|].
  cbn [OnePass_new buf buf_input_pos buf_output_pos bound_queue already_sorted sbind] in *. rewrite Z.add_0_l in Hi. rewrite <- Hl in Hf.
  destruct (decide (rows = [])) as [->|Hne].
  - left. rewrite bool_decide_true in Has by done. rewrite OnePass_drain by (done || (rewrite ?Ho, ?Hi; unfold zlen; simpl; lia)).
    rewrite Ho, Hi. eexists _, _. split; [reflexivity|]. split; [done|]. split; [constructor|done].
  - rewrite bool_decide_false in Has by done.
    assert (0 < zlen rows) by (unfold zlen; destruct rows; [done|simpl; lia]).
    destruct (OnePass_first_read rand killed s (length rows) Has) as [(s' & out & -> & Ha' & Hi' & Hsl & Hp & Hso)|[-> Hk]];
      [lia|lia|by rewrite Hbq, Hl|unfold zlen in Hi; lia| |right; done].
    assert (out ≡ₚ rows) as Hpr.
    { rewrite Hp, Hi. unfold zlen. rewrite Nat2Z.id. rewrite prefix_rows; [done|lia|]. intros k Hk. rewrite Hb by lia.
      rewrite Z.sub_0_r. case_cmp; try lia. done. }
    left. exists s', out. split; [done|]. split; [done|]. split; [done|]. intros _. left. eexists _, _, out. split; [reflexivity|]. split; [|done].
    rewrite OnePass_drain by (cbn [OnePass_Rewind already_sorted buf_output_pos buf_input_pos]; done || (rewrite ?Hi', ?Hi; unfold zlen; lia)).
    cbn [OnePass_Rewind buf buf_input_pos buf_output_pos]. by rewrite Hi', Hsl.
Qed.

End Rows.

(** C13: the quicksort sorter returns the rows it was given, each as often as it was put, in the
    order of their keys, and again after a rewind, whatever the random pivots are; the only other
    outcome is that the query is killed.  No scan leaves the buffer and the queue of intervals
    never overflows. *)
Theorem SorterOnePass_sorts (key_bytes : nat) (rand : nat -> Z) (killed : nat -> bool) (mem : list row) (queue : list Z)
    (Hq : zlen queue = 2 * bound_queue_size (zlen mem)) :
  Sorts key_bytes (SorterOnePass key_bytes rand killed) (fun s => SOk (OnePass_Rewind s)) (exists k, killed k = true)
    (OnePass_new mem queue) (fun rows => zlen rows <= zlen mem).
Proof. by apply OnePass_sorts_lemma. Qed.

(** 25 rows with a key of one byte. *)
Definition sample_rows : list row := map (fun i => [(i * 7) mod 25; i]) (range 0 24).

Lemma SorterOnePass_sorts_witness :
  (exists s out, sort_rows (SorterOnePass 1 (fun k => Z.of_nat k) (fun _ => false)) (OnePass_new (replicate 30 []) (replicate 20 0)) sample_rows = SOk (s, out) /\
     out ≡ₚ sample_rows /\ StronglySorted (key_le 1) out) /\
  sbind (sort_rows (SorterOnePass 1 (fun k => Z.of_nat k) (fun _ => false)) (OnePass_new (replicate 30 []) (replicate 20 0)) sample_rows)
    (fun p => SOk (map (hd 0) (snd p))) = SOk (range 0 24).
Proof.
  split; [|vm_compute; reflexivity].
  destruct (SorterOnePass_sorts 1 (fun k => Z.of_nat k) (fun _ => false) (replicate 30 []) (replicate 20 0) eq_refl) as [H].
  destruct (H sample_rows) as [(s & out & E & Hp & Hs & _)|[_ [k Hk]]].
  - vm_compute. discriminate.
  - exists s, out. split; [exact E|]. split; [exact Hp|exact Hs].
  - discriminate Hk.
Defined.
