(* ===== verification/SorterCount.v ===== *)
(** * Counting sort of rows with short keys (core/Sorter3.h, core/Sorter3.cpp)

    [SorterCounting] is used for keys of one or two bytes: it counts the rows of each key and
    moves every row to its place in a second buffer. *)

From Stdlib Require Import Sorted.
From S2P Require Import Prelude QSort KeyOrder Sorter.

Section Counting.
Context (key_bytes : nat).

Record Counting := mkCS {
  cs_buf : list row;
  buf_output : list row;
  cs_input_pos : Z;
  cs_output_pos : Z;
  buf_output_end : Z;
  distrib_min : Z;
  distrib_max : Z;
  cs_sorted : bool
}.

(** The memory of both buffers as it is allocated. *)
Definition Counting_new (mem1 mem2 : list row) : Counting := mkCS mem1 mem2 0 0 (-1) 65536 0 false.

Definition Position (b : row) : Z :=
  if Nat.eqb key_bytes 1 then b.[0|0] else Z.shiftl b.[0|0] 8 + b.[0|1].

Definition Counting_PutValue (s : Counting) (b : row) : sres (Counting * bool) :=
  if negb (cs_input_pos s <? zlen (cs_buf s)) then SFault
  else
    let pos := Position b in
    SOk (mkCS (cs_buf s).[cs_input_pos s <- b] (buf_output s) (cs_input_pos s + 1) (cs_output_pos s) (buf_output_end s)
           (if pos <? distrib_min s then pos else distrib_min s) (if distrib_max s <? pos then pos else distrib_max s) (cs_sorted s), true).

(** The first pass: how many rows have each key. *)
Definition count_rows (rows : list row) (lo : Z) (distrib : list Z) : list Z :=
  foldl (fun d r => let pos := Position r - lo in d.[pos <- d.[0|pos] + 1]) distrib rows.

(** Where the rows of each key go, and the number of rows. *)
Definition destinations (distrib : list Z) : list Z * Z :=
  foldl (fun '(dest, sum) n => (dest ++ [sum], sum + n)) ([], 0) distrib.

(** The second pass. *)
Definition move_rows (rows : list row) (lo : Z) (out : list row) (dest : list Z) : list row * list Z :=
  foldl (fun '(out, dest) r =>
           let pos := Position r - lo in
           (out.[dest.[0|pos] <- r], dest.[pos <- dest.[0|pos] + 1])) (out, dest) rows.

Definition CountingSort (s : Counting) : sres Counting :=
  if distrib_max s <? distrib_min s then SFault
  else
    let distrib_size := distrib_max s - distrib_min s + 1 in
    let rows := take (Z.to_nat (cs_input_pos s)) (cs_buf s) in
    let distrib := count_rows rows (distrib_min s) (replicate (Z.to_nat distrib_size) 0) in
    let '(dest, sum) := destinations distrib in
    let '(out, _) := move_rows rows (distrib_min s) (buf_output s) dest in
    SOk (mkCS (cs_buf s) out (cs_input_pos s) (cs_output_pos s) sum (distrib_min s) (distrib_max s) (cs_sorted s)).

Definition Counting_GetNextValue (s : Counting) : sres (Counting * option row) :=
  s <~ (if negb (cs_sorted s) then
          s <~ CountingSort s;
          SOk (mkCS (cs_buf s) (buf_output s) (cs_input_pos s) (cs_output_pos s) (buf_output_end s) (distrib_min s) (distrib_max s) true)
        else SOk s);
  if cs_output_pos s =? buf_output_end s then SOk (s, None)
  else SOk (mkCS (cs_buf s) (buf_output s) (cs_input_pos s) (cs_output_pos s + 1) (buf_output_end s) (distrib_min s) (distrib_max s) (cs_sorted s),
            Some (buf_output s).[[]|cs_output_pos s]).

Definition Counting_Rewind (s : Counting) : Counting :=
  mkCS (cs_buf s) (buf_output s) (cs_input_pos s) 0 (buf_output_end s) (distrib_min s) (distrib_max s) (cs_sorted s).

Definition SorterCounting : Sorter3 := mkSorter Counting Counting_PutValue Counting_GetNextValue.

(** ** The rows by key *)

Definition group (rows : list row) (v : Z) : list row := List.filter (fun r => Position r =? v) rows.
Definition groups (rows : list row) (lo hi : Z) : list (list row) := map (group rows) (range lo hi).

Definition keyed (rows : list row) (lo hi : Z) : Prop := Forall (fun r => lo <= Position r <= hi) rows.

Lemma group_app rows rows' v : group (rows ++ rows') v = group rows v ++ group rows' v.
Proof. apply List.filter_app. Qed.

Lemma groups_insert r rows vs :
  NoDup vs -> Position r ∈ vs -> concat (map (group (r :: rows)) vs) ≡ₚ r :: concat (map (group rows) vs).
Proof.
  induction 1 as [|v vs Hv Hnd IH]; intros Hin; [by apply elem_of_nil in Hin|].
  cbn [map concat]. unfold group at 1. cbn [List.filter]. destruct (Z.eqb_spec (Position r) v) as [E|Hne].
  - cbn [app]. constructor. apply Permutation_app_head. replace (map (group (r :: rows)) vs) with (map (group rows) vs); [done|].
    apply map_ext_in. intros w Hw. unfold group. cbn [List.filter]. destruct (Z.eqb_spec (Position r) w) as [E'|]; [|done].
    destruct Hv. rewrite <- E, E'. by apply list_elem_of_In.
  - rewrite IH; [|by apply elem_of_cons in Hin as [|]]. symmetry. apply Permutation_middle.
Qed.

Lemma groups_perm rows lo hi : keyed rows lo hi -> concat (groups rows lo hi) ≡ₚ rows.
Proof.
  unfold groups. induction 1 as [|r rows Hr _ IH].
  - induction (range lo hi) as [|v vs IHv]; [done|]. done.
  - rewrite groups_insert, IH; [done|apply NoDup_seqZ|]. by apply list_elem_of_In, range_In.
Qed.

Lemma zlen_groups rows lo hi : keyed rows lo hi -> zlen (concat (groups rows lo hi)) = zlen rows.
Proof. intros H. unfold zlen. by rewrite (groups_perm rows lo hi H). Qed.

Lemma group_group rows v w : group (group rows w) v = if w =? v then group rows w else [].
Proof.
  unfold group. induction rows as [|r rows IH]; [by destruct (w =? v)|]. cbn [List.filter].
  destruct (Z.eqb_spec (Position r) w) as [E|]; [|done]. cbn [List.filter]. rewrite E, IH. by destruct (Z.eqb_spec w v).
Qed.

(** Sorting by groups keeps each group. *)
Lemma groups_stable rows lo hi v : keyed rows lo hi -> group (concat (groups rows lo hi)) v = group rows v.
Proof.
  intros Hk. assert (forall l, NoDup l -> group (concat (map (group rows) l)) v = if bool_decide (v ∈ l) then group rows v else []) as Hl.
  { induction 1 as [|w l Hw Hnd IH]; [done|]. cbn [map concat]. rewrite group_app, group_group, IH.
    destruct (Z.eqb_spec w v) as [->|Hne].
    - rewrite (bool_decide_false (v ∈ l)), app_nil_r, (bool_decide_true (v ∈ v :: l)) by (done || left). done.
    - rewrite (bool_decide_ext (v ∈ w :: l) (v ∈ l)) by (rewrite elem_of_cons; intuition congruence). done. }
  unfold groups. rewrite Hl by apply NoDup_seqZ. case_bool_decide as E; [done|]. symmetry.
  clear Hl. unfold group. induction Hk as [|r rows Hr _ IH]; [done|]. cbn [List.filter]. destruct (Z.eqb_spec (Position r) v) as [<-|]; [|apply IH].
  destruct E. by apply list_elem_of_In, range_In.
Qed.

(** ** Places *)

(** The first place of the group [v]. *)
Definition base (G : list (list row)) (v : Z) : Z := zlen (concat (take (Z.to_nat v) G)).

Lemma base_next G v : 0 <= v < zlen G -> base G (v + 1) = base G v + zlen G.[[]|v].
Proof.
  intros Hv. unfold base. replace (Z.to_nat (v + 1)) with (S (Z.to_nat v)) by lia.
  rewrite (take_S_r G _ G.[[]|v]) by (by apply znth_lookup). rewrite concat_app, zlen_app. cbn [concat]. by rewrite app_nil_r.
Qed.

Lemma base_mono G v w : 0 <= v <= w -> w <= zlen G -> base G v <= base G w.
Proof.
  intros Hv Hw. remember (Z.to_nat (w - v)) as k eqn:Hk. revert w Hv Hw Hk. induction k as [|k IH]; intros w Hv Hw Hk; [replace w with v by lia; lia|].
  replace w with (w - 1 + 1) by lia. rewrite base_next by lia. pose proof (zlen_nonneg G.[[]|w - 1]). specialize (IH (w - 1) ltac:(lia) ltac:(lia) ltac:(lia)). lia.
Qed.

Lemma base_all G : base G (zlen G) = zlen (concat G).
Proof. unfold base, zlen. rewrite Nat2Z.id. by rewrite firstn_all. Qed.

Lemma concat_at G v t : 0 <= v < zlen G -> 0 <= t < zlen G.[[]|v] -> (concat G).[[]|base G v + t] = G.[[]|v].[[]|t].
Proof.
  intros Hv Ht. rewrite <- (take_drop (Z.to_nat v) G) at 1. rewrite (drop_S G G.[[]|v]) by (by apply znth_lookup).
  rewrite concat_app. cbn [concat]. unfold base. rewrite znth_app_r by lia. rewrite znth_app_l by lia. f_equal. lia.
Qed.

(** Every place belongs to a group. *)
Lemma base_split G i : 0 <= i < zlen (concat G) -> exists v t, 0 <= v < zlen G /\ 0 <= t < zlen G.[[]|v] /\ i = base G v + t.
Proof.
  intros Hi. rewrite <- base_all in Hi.
  assert (forall k w, k = Z.to_nat w -> 0 <= w <= zlen G -> i < base G w -> exists v t, 0 <= v < zlen G /\ 0 <= t < zlen G.[[]|v] /\ i = base G v + t) as H.
  { induction k as [|k IH]; intros w Hk Hw Hlt.
    - replace w with 0 in Hlt by lia. unfold base in Hlt. simpl in Hlt. unfold zlen in Hlt. simpl in Hlt. lia.
    - destruct (Z.lt_ge_cases i (base G (w - 1))); [by apply (IH (w - 1)); [lia|lia|]|].
      exists (w - 1), (i - base G (w - 1)). pose proof (base_next G (w - 1) ltac:(lia)) as E. replace (w - 1 + 1) with w in E by lia. lia. }
  apply (H (Z.to_nat (zlen G)) (zlen G)); [done|pose proof (zlen_nonneg G); lia|lia].
Qed.

(** Different groups have different places. *)
Lemma base_inj G v w t u :
  0 <= v < zlen G -> 0 <= w < zlen G -> 0 <= t < zlen G.[[]|v] -> 0 <= u < zlen G.[[]|w] -> base G v + t = base G w + u -> v = w /\ t = u.
Proof.
  intros Hv Hw Ht Hu E. pose proof (base_next G v Hv). pose proof (base_next G w Hw).
  destruct (Z.lt_trichotomy v w) as [Hlt|[->|Hgt]]; [|lia|]; [pose proof (base_mono G (v + 1) w ltac:(lia) ltac:(lia)); lia|].
  pose proof (base_mono G (w + 1) v ltac:(lia) ltac:(lia)); lia.
Qed.

Lemma zlen_groups_list rows lo hi : lo <= hi + 1 -> zlen (groups rows lo hi) = hi - lo + 1.
Proof. intros H. unfold groups, range, zlen. rewrite length_map, length_seqZ. lia. Qed.

Lemma groups_at rows lo hi v : lo <= hi -> 0 <= v <= hi - lo -> (groups rows lo hi).[[]|v] = group rows (lo + v).
Proof.
  intros Hl Hv. unfold groups, range. pose proof (list_lookup_fmap (group rows) (seqZ lo (hi - lo + 1)) (Z.to_nat v)) as E.
  rewrite lookup_seqZ_lt in E by lia. cbn [fmap option_fmap option_map] in E. apply (znth_lookup_Some []) in E. rewrite Z2Nat.id in E by lia. exact E.
Qed.

(** ** The two passes *)

Lemma count_rows_spec rows lo : forall d,
  keyed rows lo (lo + zlen d - 1) ->
  zlen (count_rows rows lo d) = zlen d /\
  forall v, 0 <= v < zlen d -> (count_rows rows lo d).[0|v] = d.[0|v] + zlen (group rows (lo + v)).
Proof.
  induction rows as [|r rows IH]; intros d Hk.
  - split; [done|]. intros v Hv. unfold group, zlen. simpl. lia.
  - apply Forall_cons in Hk as [Hr Hk]. unfold count_rows. cbn [foldl]. fold (count_rows rows lo d.[Position r - lo <- d.[0|Position r - lo] + 1]).
    destruct (IH d.[Position r - lo <- d.[0|Position r - lo] + 1]) as [Hl Hv]; [unfold keyed; by rewrite zlen_zupd|]. rewrite zlen_zupd in *.
    split; [done|]. intros v Hvr. rewrite Hv by done. unfold group. cbn [List.filter].
    destruct (Z.eqb_spec (Position r) (lo + v)) as [E|Hne].
    + replace (Position r - lo) with v by lia. rewrite znth_zupd_eq by lia. unfold zlen. cbn [length]. lia.
    + rewrite znth_zupd_ne by lia. done.
Qed.

Lemma destinations_spec G :
  let '(dest, sum) := destinations (map zlen G) in
  sum = zlen (concat G) /\ zlen dest = zlen G /\ forall v, 0 <= v < zlen G -> dest.[0|v] = base G v.
Proof.
  induction G as [|g G IH] using rev_ind; [split; [done|]; split; [done|]; unfold zlen; simpl; lia|].
  unfold destinations in *. rewrite map_app, foldl_app. destruct (foldl _ ([], 0) (map zlen G)) as [dest sum].
  destruct IH as (-> & Hl & Hd). cbn [map foldl]. rewrite concat_app, !zlen_app. cbn [concat]. rewrite app_nil_r.
  split; [done|]. split; [by rewrite Hl|]. assert (zlen [g] = 1) as -> by done. intros v Hv.
  assert (base (G ++ [g]) v = base G v) as ->.
  { unfold base. rewrite take_app_le; [done|]. unfold zlen in *. lia. }
  destruct (Z.eq_dec v (zlen G)) as [->|].
  - rewrite znth_app_r by lia. rewrite Hl, Z.sub_diag. by rewrite base_all.
  - rewrite znth_app_l by lia. apply Hd. lia.
Qed.

(** After the rows [pre] the destination of a group is behind its rows moved so far. *)
Lemma move_rows_spec post lo hi : forall pre out dest,
  let rows := pre ++ post in let G := groups rows lo hi in
  lo <= hi -> keyed rows lo hi -> zlen rows <= zlen out -> zlen dest = hi - lo + 1 ->
  (forall v, 0 <= v <= hi - lo -> dest.[0|v] = base G v + zlen (group pre (lo + v))) ->
  (forall v t, 0 <= v <= hi - lo -> 0 <= t < zlen (group pre (lo + v)) -> out.[[]|base G v + t] = (group rows (lo + v)).[[]|t]) ->
  let '(out', _) := move_rows post lo out dest in
  zlen out' = zlen out /\ (forall v t, 0 <= v <= hi - lo -> 0 <= t < zlen (group rows (lo + v)) -> out'.[[]|base G v + t] = (group rows (lo + v)).[[]|t]).
Proof.
  induction post as [|r post IH]; intros pre out dest rows G Hle Hk Hout Hdl Hd Ho.
  { unfold move_rows. cbn [foldl]. unfold rows in *. rewrite app_nil_r in *. done. }
  unfold move_rows. cbn [foldl]. set (p := Position r - lo). fold (move_rows post lo out.[dest.[0|p] <- r] dest.[p <- dest.[0|p] + 1]).
  assert (0 <= p <= hi - lo) as Hp.
  { unfold keyed, rows in Hk. apply Forall_app in Hk as [_ Hk]. apply Forall_cons in Hk as [Hr _]. unfold p. lia. }
  assert (forall v, group (pre ++ [r]) (lo + v) = group pre (lo + v) ++ (if v =? p then [r] else [])) as Hg.
  { intros v. rewrite group_app. unfold group at 2. cbn [List.filter]. unfold p. destruct (Z.eqb_spec (Position r) (lo + v)), (Z.eqb_spec v (Position r - lo)); lia || done. }
  assert (rows = (pre ++ [r]) ++ post) as Er by (unfold rows; by rewrite <- app_assoc).
  assert (forall v, 0 <= v <= hi - lo -> G.[[]|v] = group (pre ++ [r]) (lo + v) ++ group post (lo + v)) as HG.
  { intros v Hv. unfold G. rewrite groups_at by lia. by rewrite Er, group_app. }
  assert (zlen G = hi - lo + 1) as HGl by (unfold G; rewrite zlen_groups_list; lia).
  assert (0 <= base G p + zlen (group pre (lo + p)) < zlen out) as Hin.
  { pose proof (base_next G p ltac:(lia)) as E. rewrite HG, Hg, !zlen_app, Z.eqb_refl in E by lia. assert (zlen [r] = 1) as E1 by done.
    pose proof (zlen_nonneg (group post (lo + p))). pose proof (zlen_nonneg (group pre (lo + p))).
    pose proof (base_mono G (p + 1) (zlen G) ltac:(lia) ltac:(lia)) as E2. rewrite base_all in E2. unfold G in E2 at 2. rewrite (zlen_groups rows lo hi Hk) in E2.
    pose proof (zlen_nonneg (concat (take (Z.to_nat p) G))) as E3. fold (base G p) in E3. lia. }
  specialize (IH (pre ++ [r]) out.[dest.[0|p] <- r] dest.[p <- dest.[0|p] + 1]). cbv zeta in IH. rewrite <- Er in IH. fold G in IH.
  destruct (move_rows post lo _ _) as [out' dest']. rewrite !zlen_zupd in IH. apply IH; try done; clear IH.
  - intros v Hv. rewrite Hg, zlen_app, znth_zupd by lia. rewrite !Hd by lia. destruct (Z.eqb_spec v p) as [->|]; unfold zlen; cbn [length]; lia.
  - intros v t Hv Ht. rewrite (Hd p Hp). rewrite Hg, zlen_app in Ht.
    destruct (Z.eqb_spec v p) as [->|Hne].
    + assert (zlen [r] = 1) as E1 by done. destruct (Z.eq_dec t (zlen (group pre (lo + p)))) as [->|].
      * rewrite znth_zupd_eq by lia. rewrite Er, group_app, znth_app_l by (rewrite Hg, zlen_app, Z.eqb_refl; lia).
        rewrite Hg, Z.eqb_refl, znth_app_r, Z.sub_diag by lia. done.
      * rewrite znth_zupd_ne by lia. apply Ho; lia.
    + assert (zlen ([] : list row) = 0) as E0 by done. rewrite znth_zupd_ne; [apply Ho; lia|]. intros E.
      destruct (base_inj G p v (zlen (group pre (lo + p))) t) as [-> _]; try done; try lia.
      * rewrite HG, Hg, Z.eqb_refl, !zlen_app by lia. pose proof (zlen_nonneg (group post (lo + p))). pose proof (zlen_nonneg (group pre (lo + p))). assert (zlen [r] = 1) as E1 by done. lia.
      * rewrite HG, Hg, !zlen_app by lia. rewrite (proj2 (Z.eqb_neq v p)) by done. pose proof (zlen_nonneg (group post (lo + v))). lia.
Qed.

Lemma CountingSort_spec s :
  let rows := take (Z.to_nat (cs_input_pos s)) (cs_buf s) in
  distrib_min s <= distrib_max s -> keyed rows (distrib_min s) (distrib_max s) -> zlen rows <= zlen (buf_output s) ->
  exists out, CountingSort s = SOk (mkCS (cs_buf s) out (cs_input_pos s) (cs_output_pos s) (zlen rows) (distrib_min s) (distrib_max s) (cs_sorted s)) /\
    slice_rows out 0 (zlen rows - 1) = concat (groups rows (distrib_min s) (distrib_max s)).
Proof.
  intros rows Hle Hk Hout. unfold CountingSort. destruct (Z.ltb_spec (distrib_max s) (distrib_min s)); [lia|]. fold rows.
  set (lo := distrib_min s) in *. set (hi := distrib_max s) in *. set (G := groups rows lo hi).
  assert (zlen G = hi - lo + 1) as HG by (unfold G; rewrite zlen_groups_list; lia).
  assert (count_rows rows lo (replicate (Z.to_nat (hi - lo + 1)) 0) = map zlen G) as ->.
  { destruct (count_rows_spec rows lo (replicate (Z.to_nat (hi - lo + 1)) 0)) as [Hl Hv];
      [rewrite zlen_replicate by lia; replace (lo + (hi - lo + 1) - 1) with hi by lia; done|]. rewrite zlen_replicate in * by lia.
    apply (znth_ext 0); [rewrite Hl; unfold zlen in *; rewrite length_map; lia|]. intros v Hvr. rewrite Hl in Hvr.
    rewrite Hv, znth_replicate by lia. pose proof (list_lookup_fmap zlen G (Z.to_nat v)) as E.
    rewrite (znth_lookup [] G v) in E by lia. cbn [fmap option_fmap option_map] in E. apply (znth_lookup_Some 0) in E. rewrite Z2Nat.id in E by lia.
    etransitivity; [|symmetry; exact E]. unfold G. rewrite groups_at by lia. lia. }
  pose proof (destinations_spec G) as Hd. destruct (destinations (map zlen G)) as [dest sum]. destruct Hd as (-> & Hdl & Hd).
  pose proof (move_rows_spec rows lo hi [] (buf_output s) dest) as Hm. cbv zeta in Hm. cbn [app] in Hm. fold G in Hm.
  destruct (move_rows rows lo (buf_output s) dest) as [out dest']. destruct Hm as [Hl Ho]; try done; try lia.
  - intros v Hv. rewrite Hd by lia. unfold zlen at 1. simpl. lia.
  - intros v t _ Ht. unfold group, zlen in Ht. simpl in Ht. lia.
  - unfold G in Hd |- *. rewrite zlen_groups by done. exists out. split; [done|]. fold G.
    rewrite slice_prefix by (pose proof (zlen_nonneg rows); lia). apply (znth_ext []).
    + unfold G. rewrite zlen_groups by done. pose proof (zlen_nonneg rows). unfold zlen in *. rewrite length_take. lia.
    + intros i Hi. assert (zlen (take (Z.to_nat (zlen rows)) out) = zlen (concat G)) as El
        by (unfold G; rewrite zlen_groups by done; unfold zlen in *; rewrite length_take; lia).
      rewrite El in Hi. pose proof Hi as Hi'. unfold G in Hi'. rewrite zlen_groups in Hi' by done. rewrite znth_take by lia.
      destruct (base_split G i Hi) as (v & t & Hv & Ht & ->). rewrite concat_at by done. unfold G in Ht |- *. rewrite groups_at in * by lia. apply Ho; lia.
Qed.

(** ** Order of the groups *)

Definition byte_row (r : row) : Prop := Forall (is_word 8) r.

Context (Hkey : key_bytes = 1%nat \/ key_bytes = 2%nat).

Lemma Position_bytes r : byte_row r ->
  exists x y, 0 <= x < 256 /\ 0 <= y < 256 /\ hd 0 r = x /\ hd 0 (tail r) = y /\ Position r = if Nat.eqb key_bytes 1 then x else x * 256 + y.
Proof.
  intros Hr. exists (hd 0 r), (hd 0 (tail r)). unfold Position. rewrite Z.shiftl_mul_pow2 by lia.
  destruct Hr as [|x r Hx Hr]; [simpl; by destruct (Nat.eqb key_bytes 1)|].
  destruct Hr as [|y r Hy Hr]; unfold is_word in *; simpl; (split; [lia|]; split; [lia|]); by destruct (Nat.eqb key_bytes 1).
Qed.

Lemma Position_order r1 r2 : byte_row r1 -> byte_row r2 -> Position r1 <= Position r2 -> key_le key_bytes r1 r2.
Proof.
  intros H1 H2. destruct (Position_bytes r1 H1) as (x1 & y1 & ? & ? & E1 & F1 & ->), (Position_bytes r2 H2) as (x2 & y2 & ? & ? & E2 & F2 & ->).
  unfold key_le, key_compare. destruct Hkey as [-> | ->]; cbn [Nat.eqb memcmp]; rewrite E1, E2, ?F1, ?F2; cmp_solve.
Qed.

Lemma groups_sorted rows lo hi : Forall byte_row rows -> StronglySorted (key_le key_bytes) (concat (groups rows lo hi)).
Proof.
  intros Hb. unfold groups. apply (range_ind (fun l lo => StronglySorted (key_le key_bytes) (concat (map (group rows) l))) hi); [constructor|].
  intros v Hv IH. cbn [map concat].
  assert (forall w r, In r (group rows w) -> Position r = w /\ byte_row r) as Hin.
  { intros w r Hr. unfold group in Hr. apply filter_In in Hr as [Hr E]. apply Z.eqb_eq in E. split; [done|].
    rewrite Forall_forall in Hb. apply Hb. by apply list_elem_of_In. }
  assert (forall l, (forall r, In r l -> Position r = v /\ byte_row r) ->
            StronglySorted (key_le key_bytes) (l ++ concat (map (group rows) (range (v + 1) hi)))) as Hl.
  { induction l as [|r l IHl]; intros Hr; [done|]. cbn [app]. constructor; [apply IHl; intros; apply Hr; by right|].
    apply Forall_forall. intros r' Hr'. destruct (Hr r (or_introl eq_refl)) as [E Hbr]. apply list_elem_of_In, in_app_iff in Hr' as [Hr'|Hr'].
    - destruct (Hr r' (or_intror Hr')). apply Position_order; [done|done|lia].
    - apply in_concat in Hr' as (g & Hg & Hr'). apply in_map_iff in Hg as (w & <- & Hw). apply range_In in Hw.
      destruct (Hin w r' Hr'). apply Position_order; [done|done|lia]. }
  apply Hl. intros r Hr. by apply Hin.
Qed.

(** ** The promise of [SorterCounting] *)

(** The rows put so far and the bounds of their keys. *)
Record CInv (s : Counting) (rows : list row) : Prop := {
  ci_rows : take (Z.to_nat (cs_input_pos s)) (cs_buf s) = rows;
  ci_pos : cs_input_pos s = zlen rows;
  ci_fit : zlen rows <= zlen (cs_buf s);
  ci_mem : zlen (buf_output s) = zlen (cs_buf s);
  ci_out : cs_output_pos s = 0;
  ci_new : cs_sorted s = false;
  ci_keyed : keyed rows (distrib_min s) (distrib_max s)
}.

Lemma Counting_put_all rest : forall s rows,
  CInv s rows -> zlen rows + zlen rest <= zlen (cs_buf s) ->
  exists s', put_all SorterCounting s rest = SOk s' /\ CInv s' (rows ++ rest).
Proof.
  induction rest as [|r rest IH]; intros s rows H Hl; [exists s; by rewrite app_nil_r|].
  assert (zlen (r :: rest) = zlen rest + 1) as El by (unfold zlen; cbn [length]; lia). pose proof (zlen_nonneg rest). pose proof (zlen_nonneg rows).
  destruct H as [Hr Hp Hf Hm Ho Hn Hk]. cbn [put_all SorterCounting PutValue sorter]. unfold Counting_PutValue at 1.
  destruct (Z.ltb_spec (cs_input_pos s) (zlen (cs_buf s))); [|lia]. cbn [negb sbind fst]. cbv zeta.
  set (s1 := mkCS _ _ _ _ _ _ _ _). destruct (IH s1 (rows ++ [r])) as (s' & E & Hi).
  - constructor; cbn [s1 cs_buf buf_output cs_input_pos cs_output_pos cs_sorted distrib_min distrib_max]; rewrite ?zlen_zupd, ?zlen_app; try done.
    + by rewrite take_put, Hr by lia.
    + unfold zlen at 2. simpl. lia.
    + unfold zlen at 2. simpl. lia.
    + unfold keyed. apply Forall_app. split; [|repeat constructor; case_cmp; lia].
      eapply Forall_impl; [exact Hk|]. intros x Hx. cbv beta in Hx. case_cmp; lia.
  - cbn [s1 cs_buf]. rewrite zlen_zupd, zlen_app. unfold zlen at 2. simpl. lia.
  - exists s'. split; [exact E|]. by rewrite <- app_assoc in Hi.
Qed.

Lemma Counting_drain s n :
  cs_sorted s = true -> 0 <= cs_output_pos s <= buf_output_end s -> buf_output_end s - cs_output_pos s <= Z.of_nat n ->
  drain SorterCounting n s
  = SOk (mkCS (cs_buf s) (buf_output s) (cs_input_pos s) (buf_output_end s) (buf_output_end s) (distrib_min s) (distrib_max s) true,
         slice_rows (buf_output s) (cs_output_pos s) (buf_output_end s - 1)).
Proof.
  revert s. induction n as [|n IH]; intros s Hs Ho Hn; cbn [drain SorterCounting GetNextValue sorter]; unfold Counting_GetNextValue at 1;
    rewrite Hs; cbn [negb sbind fst snd].
  - assert (cs_output_pos s = buf_output_end s) as E by lia. rewrite (proj2 (Z.eqb_eq _ _) E). cbn [sbind fst snd].
    rewrite E. unfold slice_rows. rewrite range_nil by lia. destruct s; simpl in *. by subst.
  - destruct (Z.eqb_spec (cs_output_pos s) (buf_output_end s)) as [E|Hne]; cbn [sbind fst snd].
    + rewrite E. unfold slice_rows. rewrite range_nil by lia. destruct s; simpl in *. by subst.
    + change (mkSorter _ _ _) with SorterCounting. rewrite IH by (cbn [cs_sorted cs_output_pos buf_output_end]; done || lia).
      cbn [sbind fst snd cs_buf buf_output cs_input_pos cs_output_pos buf_output_end distrib_min distrib_max]. do 2 f_equal.
      unfold slice_rows. by rewrite (range_cons (cs_output_pos s)) by lia.
Qed.

Lemma Counting_sort_rows mem1 mem2 rows :
  zlen mem2 = zlen mem1 -> zlen rows <= zlen mem1 -> rows <> [] ->
  exists s out lo hi, sort_rows SorterCounting (Counting_new mem1 mem2) rows = SOk (s, out) /\
    keyed rows lo hi /\ out = concat (groups rows lo hi) /\
    drain SorterCounting (length rows) (Counting_Rewind s) = SOk (s, out).
Proof.
  intros Hm Hf Hne. unfold sort_rows.
  destruct (Counting_put_all rows (Counting_new mem1 mem2) []) as (s & -> & [Hr Hp Hfit Hmem Ho Hn Hk]); cbn [app] in *.
  { constructor; cbn; try done; [apply zlen_nonneg|constructor]. }
  { unfold zlen at 1. simpl. lia. }
  assert (distrib_min s <= distrib_max s) as Hle.
  { destruct Hk as [|r rows0 Hr0 _]; [done|lia]. }
  destruct (CountingSort_spec s) as (out & E & Hsl); [done|by rewrite Hr|rewrite Hr; lia|]. rewrite Hr in *.
  cbn [sbind]. destruct (length rows) as [|n] eqn:El; [by destruct rows|].
  set (s1 := mkCS (cs_buf s) out (cs_input_pos s) 0 (zlen rows) (distrib_min s) (distrib_max s) true).
  assert (drain SorterCounting (S n) s = drain SorterCounting (S n) s1) as ->.
  { cbn [drain SorterCounting GetNextValue sorter]. unfold Counting_GetNextValue at 1. rewrite Hn. cbn [negb]. rewrite E. cbn [sbind fst snd]. rewrite Ho. done. }
  assert (zlen rows = Z.of_nat (S n)) as Ez by (unfold zlen; lia). pose proof (zlen_nonneg rows).
  rewrite Counting_drain by (cbn [s1 cs_sorted cs_output_pos buf_output_end]; done || lia).
  cbn [s1 cs_buf buf_output cs_input_pos cs_output_pos buf_output_end distrib_min distrib_max].
  eexists _, _, (distrib_min s), (distrib_max s). split; [reflexivity|]. split; [done|]. split; [done|].
  rewrite Counting_drain by (cbn [Counting_Rewind cs_sorted cs_output_pos buf_output_end]; done || lia). done.
Qed.

Lemma Counting_sorts_lemma mem1 mem2 :
  zlen mem2 = zlen mem1 ->
  Sorts key_bytes SorterCounting (fun s => SOk (Counting_Rewind s)) False (Counting_new mem1 mem2)
    (fun rows => rows <> [] /\ zlen rows <= zlen mem1 /\ Forall byte_row rows).
Proof.
  intros Hm. constructor. intros rows (Hne & Hf & Hb). left.
  destruct (Counting_sort_rows mem1 mem2 rows Hm Hf Hne) as (s & out & lo & hi & E & Hk & -> & Er).
  exists s, (concat (groups rows lo hi)). split; [done|]. split; [by apply groups_perm|]. split; [by apply groups_sorted|].
  intros _. left. exists (Counting_Rewind s), s, (concat (groups rows lo hi)). split; [done|]. split; [done|]. split; [by apply groups_perm|by apply groups_sorted].
Qed.

End Counting.

(** C26: the counting sort of rows with a key of one or two bytes returns the rows it was given
    in the order of their keys, also after a rewind; rows with the same key keep their order. *)
Theorem SorterCounting_sorts (key_bytes : nat) (mem1 mem2 : list row)
    (Hkey : key_bytes = 1%nat \/ key_bytes = 2%nat) (Hmem : zlen mem2 = zlen mem1) :
  Sorts key_bytes (SorterCounting key_bytes) (fun s => SOk (Counting_Rewind s)) False (Counting_new mem1 mem2)
    (fun rows => rows <> [] /\ zlen rows <= zlen mem1 /\ Forall byte_row rows) /\
  forall rows, rows <> [] -> zlen rows <= zlen mem1 ->
    exists s out, sort_rows (SorterCounting key_bytes) (Counting_new mem1 mem2) rows = SOk (s, out) /\
      forall v, group key_bytes out v = group key_bytes rows v.
Proof.
  split; [by apply Counting_sorts_lemma|]. intros rows Hne Hf.
  destruct (Counting_sort_rows key_bytes Hkey mem1 mem2 rows Hmem Hf Hne) as (s & out & lo & hi & E & Hk & -> & _).
  exists s, (concat (groups key_bytes rows lo hi)). split; [done|]. intros v. by apply groups_stable.
Qed.

Lemma SorterCounting_sorts_witness :
  (exists s out, sort_rows (SorterCounting 2) (Counting_new (replicate 3 []) (replicate 3 [])) [[1; 7; 0]; [0; 9; 1]; [1; 7; 2]] = SOk (s, out) /\
    out ≡ₚ [[1; 7; 0]; [0; 9; 1]; [1; 7; 2]] /\ StronglySorted (key_le 2) out) /\
  sbind (sort_rows (SorterCounting 2) (Counting_new (replicate 3 []) (replicate 3 [])) [[1; 7; 0]; [0; 9; 1]; [1; 7; 2]])
    (fun p => SOk (snd p)) = SOk [[0; 9; 1]; [1; 7; 0]; [1; 7; 2]].
Proof.
  split; [|vm_compute; reflexivity].
  destruct (SorterCounting_sorts 2 (replicate 3 []) (replicate 3 []) (or_intror eq_refl) eq_refl) as [[H] _].
  destruct (H [[1; 7; 0]; [0; 9; 1]; [1; 7; 2]]) as [(s & out & E & Hp & Hs & _)|[_ []]].
  - split; [discriminate|]. split; [vm_compute; discriminate|]. repeat constructor; vm_compute; discriminate.
  - exists s, out. split; [exact E|]. split; [exact Hp|exact Hs].
Defined.

(** A counting sorter without rows has no smallest key: reading from it violates the assertion,
    where the other sorters answer that there is no row. *)
Theorem SorterCounting_empty mem1 mem2 :
  Counting_GetNextValue 1 (Counting_new mem1 mem2) = SFault.
Proof. reflexivity. Qed.
