(* ===== verification/SorterLimit.v ===== *)
(** * Sorting with a limit (core/Sorter3.h, core/Sorter3.cpp)

    [SorterLimit] keeps the [size] rows with the smallest keys in a heap whose first row has the
    greatest key, and sorts them as [SorterOnePass] does.  Positions in the heap start with 1. *)

From Stdlib Require Import Sorted.
From stdpp Require Import relations.
From S2P Require Import Prelude QSort KeyOrder Sorter.

Section Limit.
Context (key_bytes : nat).
Abbreviation cmp := (key_compare key_bytes).

(** A [SorterOnePass] and the number of values added. *)
Record Limit := mkSL { pass : OnePass; no_obj : Z }.

(** The constructor simulates the end of the buffer. *)
Definition Limit_new (mem : list row) (queue : list Z) : Limit := mkSL (mkOP mem (zlen mem) 0 queue true) 0.

Definition zero_buf : row := replicate key_bytes 0.

Definition with_buf (s : Limit) (a : list row) (n : Z) : Limit :=
  mkSL (mkOP a (buf_input_pos (pass s)) (buf_output_pos (pass s)) (bound_queue (pass s)) false) n.

(** A row moves up while its parent has a smaller key. *)
Fixpoint heap_up (fuel : nat) (a : list row) (n : Z) : list row :=
  match fuel with
  | O => a
  | S m =>
      let parent := Z.shiftr n 1 in
      if 0 <? parent then
        if 0 <=? cmp a.[[]|parent - 1] a.[[]|n - 1] then a
        else heap_up m (ib_swap [] a (parent - 1) (n - 1)) parent
      else a
  end.

(** The greater child moves up while its key is greater than that of [b]; the row [n] is free. *)
Fixpoint heap_down (fuel : nat) (a : list row) (size : Z) (b : row) (n : Z) : list row * Z :=
  match fuel with
  | O => (a, n)
  | S m =>
      let child := 2 * n in
      if child <=? size then
        let child_greater := if (child =? size) || (0 <? cmp a.[[]|child - 1] a.[[]|child]) then child - 1 else child in
        if 0 <? cmp a.[[]|child_greater] b then heap_down m a.[n - 1 <- a.[[]|child_greater]] size b (child_greater + 1)
        else (a, n)
      else (a, n)
  end.

Definition Limit_PutValue (s : Limit) (b : row) : sres (Limit * bool) :=
  let a := buf (pass s) in
  let size := zlen a in
  if Nat.eqb key_bytes 0 then
    if no_obj s <? size then SOk (with_buf s a.[no_obj s <- b] (no_obj s + 1), true) else SOk (with_buf s a (no_obj s), true)
  else if no_obj s <? size then
    let n := no_obj s + 1 in
    SOk (with_buf s (heap_up (Z.to_nat n) a.[n - 1 <- b] n) n, true)
  else if size =? 0 then SFault
  else if 0 <? cmp a.[[]|0] b then
    let '(a, n) := heap_down (Z.to_nat size) a size b 1 in
    SOk (with_buf s a.[n - 1 <- b] (no_obj s), true)
  else SOk (with_buf s a (no_obj s), negb (cmp a.[[]|0] zero_buf =? 0)).

Definition Limit_GetNextValue (rand : nat -> Z) (killed : nat -> bool) (s : Limit) : sres (Limit * option row) :=
  p <~ OnePass_GetNextValue key_bytes rand killed (pass s); SOk (mkSL (fst p) (no_obj s), snd p).

Definition SorterLimit (rand : nat -> Z) (killed : nat -> bool) : Sorter3 :=
  mkSorter Limit Limit_PutValue (Limit_GetNextValue rand killed).

(** ** Heaps *)

Abbreviation le := (key_le key_bytes).

Lemma le_trans x y z : le x y -> le y z -> le x z.
Proof. apply cmp_trans. Qed.

Lemma le_refl x : le x x.
Proof. apply cmp_refl. apply _. Qed.

Lemma lt_le x y : cmp x y < 0 -> le x y.
Proof. unfold key_le. lia. Qed.

Lemma gt_le x y : 0 < cmp y x -> le x y.
Proof. intros H. apply lt_le. by apply cmp_anti. Qed.

Lemma ge_le x y : 0 <= cmp x y -> le y x.
Proof. intros H. unfold key_le. apply cmp_not_lt; [apply _|lia]. Qed.

Lemma half k p : 0 <= k -> (k / 2 = p <-> 2 * p <= k <= 2 * p + 1).
Proof. intros Hk. pose proof (Z.div_mod k 2). pose proof (Z.mod_pos_bound k 2). lia. Qed.

(** No row has a greater key than its parent. *)
Definition heap (a : list row) (N : Z) : Prop := forall k, 1 < k <= N -> le a.[[]|k - 1] a.[[]|k / 2 - 1].

Lemma heap_top a N k : heap a N -> 1 <= k <= N -> le a.[[]|k - 1] a.[[]|0].
Proof.
  intros H. assert (forall m k, (Z.to_nat k <= m)%nat -> 1 <= k <= N -> le a.[[]|k - 1] a.[[]|0]) as Hm.
  { induction m as [|m IH]; intros j Hj Hk; [lia|]. destruct (Z.eq_dec j 1) as [->|]; [apply le_refl|].
    pose proof (proj1 (half j (j / 2) ltac:(lia)) eq_refl).
    apply (le_trans _ a.[[]|j / 2 - 1]); [apply H; lia|apply IH; lia]. }
  by apply (Hm (Z.to_nat k)).
Qed.

(** A heap but for the row [n], which may have a greater key than its parent. *)
Definition heap_but_up (a : list row) (N n : Z) : Prop :=
  (forall k, 1 < k <= N -> k <> n -> le a.[[]|k - 1] a.[[]|k / 2 - 1]) /\
  (forall k, 1 < k <= N -> k / 2 = n -> 1 < n -> le a.[[]|k - 1] a.[[]|n / 2 - 1]).

Lemma heap_up_step a N n p :
  1 < n <= N -> N <= zlen a -> p = n / 2 -> cmp a.[[]|p - 1] a.[[]|n - 1] < 0 ->
  heap_but_up a N n -> heap_but_up (ib_swap [] a (p - 1) (n - 1)) N p.
Proof.
  intros Hn HN Ep Hlt [H1 H2]. apply lt_le in Hlt. pose proof (proj1 (half n p ltac:(lia)) (eq_sym Ep)) as Hp.
  split; intros k Hk.
  - intros Hkp. rewrite !znth_ib_swap by lia. pose proof (proj1 (half k (k / 2) ltac:(lia)) eq_refl) as Hk2.
    case_cmp; try lia.
    + replace (k - 1) with (n - 1) in * by lia. done.
    + subst p. apply H2; lia.
    + apply (le_trans _ a.[[]|p - 1]); [|done]. replace (p - 1) with (k / 2 - 1) by lia. apply H1; lia.
    + apply H1; lia.
  - intros Hkp Hp1. pose proof (proj1 (half k p ltac:(lia)) Hkp). pose proof (proj1 (half p (p / 2) ltac:(lia)) eq_refl) as Hp2. rewrite !znth_ib_swap by lia.
    assert (le a.[[]|p - 1] a.[[]|p / 2 - 1]) as Hpp by (apply H1; lia). case_cmp; try lia; try done.
    apply (le_trans _ a.[[]|p - 1]); [|done]. rewrite <- Hkp. apply H1; lia.
Qed.

Lemma heap_up_spec fuel : forall a N n,
  1 <= n <= N -> N <= zlen a -> (Z.to_nat n <= fuel)%nat -> heap_but_up a N n ->
  QSort.swaps [] 0 (N - 1) a (heap_up fuel a n) /\ heap (heap_up fuel a n) N.
Proof.
  induction fuel as [|m IH]; intros a N n Hn HN Hf H; [lia|]. cbn [heap_up]. rewrite Z.shiftr_div_pow2 by lia. change (2 ^ 1) with 2.
  pose proof (proj1 (half n (n / 2) ltac:(lia)) eq_refl) as Hp. destruct (Z.ltb_spec 0 (n / 2)).
  - destruct (Z.leb_spec 0 (cmp a.[[]|n / 2 - 1] a.[[]|n - 1])) as [Hge|Hlt].
    + split; [apply rtc_refl|]. intros k Hk. destruct (Z.eq_dec k n) as [->|]; [by apply ge_le|by apply H].
    + pose proof (heap_up_step a N n (n / 2) ltac:(lia) HN eq_refl Hlt H) as H'.
      destruct (IH (ib_swap [] a (n / 2 - 1) (n - 1)) N (n / 2)) as [Hs Hh]; [lia|by rewrite zlen_ib_swap|lia|done|].
      split; [|done]. eapply rtc_l; [|exact Hs]. exists (n / 2 - 1), (n - 1). repeat split; lia.
  - split; [apply rtc_refl|]. intros k Hk. apply H; lia.
Qed.

(** A heap but for the children of the row [n]. *)
Definition heap_but_down (a : list row) (N n : Z) : Prop :=
  (forall k, 1 < k <= N -> k / 2 <> n -> le a.[[]|k - 1] a.[[]|k / 2 - 1]) /\
  (forall k, 1 < k <= N -> k / 2 = n -> 1 < n -> le a.[[]|k - 1] a.[[]|n / 2 - 1]).

Lemma heap_down_step a N n c :
  1 <= n -> 1 < c <= N -> N <= zlen a -> c / 2 = n -> 0 < cmp a.[[]|c - 1] a.[[]|n - 1] ->
  (forall k, 1 < k <= N -> k / 2 = n -> le a.[[]|k - 1] a.[[]|c - 1]) ->
  heap_but_down a N n -> heap_but_down (ib_swap [] a (n - 1) (c - 1)) N c.
Proof.
  intros Hn Hc HN Ec Hgt Hmax [H1 H2]. apply gt_le in Hgt. pose proof (proj1 (half c n ltac:(lia)) Ec) as Hcn.
  split; intros k Hk.
  - intros Hkc. rewrite !znth_ib_swap by lia. pose proof (proj1 (half k (k / 2) ltac:(lia)) eq_refl) as Hk2.
    case_cmp; try lia.
    + done.
    + replace (k / 2 - 1) with (n / 2 - 1) by (do 2 f_equal; lia). apply H2; [lia|done|lia].
    + apply Hmax; lia.
    + apply H1; lia.
  - intros Hkc Hc1. rewrite Ec, !znth_ib_swap by lia. pose proof (proj1 (half k c ltac:(lia)) Hkc). case_cmp; try lia.
    rewrite <- Hkc. apply H1; lia.
Qed.

(** What [heap_down] leaves, with the new row in the free place. *)
Lemma heap_down_spec fuel b : forall a n,
  let N := zlen a in
  1 <= n <= N -> (Z.to_nat (N - n) < fuel)%nat -> heap_but_down a.[n - 1 <- b] N n ->
  let '(a', n') := heap_down fuel a N b n in
  QSort.swaps [] 0 (N - 1) a.[n - 1 <- b] a'.[n' - 1 <- b] /\ heap a'.[n' - 1 <- b] N.
Proof.
  induction fuel as [|m IH]; intros a n N Hn Hf H; [lia|]. cbn [heap_down].
  assert (forall k, 0 <= k < zlen a -> k <> n - 1 -> a.[n - 1 <- b].[[]|k] = a.[[]|k]) as Hother by (intros; apply znth_zupd_ne; lia).
  assert (a.[n - 1 <- b].[[]|n - 1] = b) as Hown by (apply znth_zupd_eq; lia).
  destruct (Z.leb_spec (2 * n) N).
  2: { split; [apply rtc_refl|]. intros k Hk. apply H; [done|]. intros E. apply half in E; lia. }
  set (c := if (2 * n =? N) || (0 <? cmp a.[[]|2 * n - 1] a.[[]|2 * n]) then 2 * n else 2 * n + 1).
  assert ((if (2 * n =? N) || (0 <? cmp a.[[]|2 * n - 1] a.[[]|2 * n]) then 2 * n - 1 else 2 * n) = c - 1) as ->
    by (unfold c; destruct (_ || _); lia).
  assert (2 * n <= c <= 2 * n + 1 /\ c <= N /\ (forall k, 1 < k <= N -> k / 2 = n -> le a.[n - 1 <- b].[[]|k - 1] a.[n - 1 <- b].[[]|c - 1])) as (Hc & HcN & Hmax).
  { assert (2 * n <= c <= 2 * n + 1 /\ c <= N /\ (2 * n <> c -> le a.[[]|2 * n - 1] a.[[]|c - 1]) /\ (2 * n + 1 <= N -> 2 * n + 1 <> c -> le a.[[]|2 * n] a.[[]|c - 1])) as (? & ? & Ha & Hb).
    { unfold c. destruct (Z.eqb_spec (2 * n) N); [cbn [orb]; repeat split; lia|]. cbn [orb].
      destruct (Z.ltb_spec 0 (cmp a.[[]|2 * n - 1] a.[[]|2 * n])) as [Hgt|Hle]; (split; [lia|]; split; [lia|]; split; intros; try lia).
      - by apply gt_le.
      - replace (2 * n + 1 - 1) with (2 * n) by lia. exact Hle. }
    split; [done|]. split; [done|]. intros k Hk E. apply half in E; [|lia]. rewrite !Hother by lia.
    destruct (Z.eq_dec k c) as [->|]; [apply le_refl|]. destruct (Z.eq_dec k (2 * n)) as [->|]; [apply Ha; lia|].
    replace (k - 1) with (2 * n) by lia. apply Hb; lia. }
  destruct (Z.ltb_spec 0 (cmp a.[[]|c - 1] b)) as [Hgt|Hle].
  - replace (c - 1 + 1) with c by lia.
    assert (a.[n - 1 <- a.[[]|c - 1]].[c - 1 <- b] = ib_swap [] a.[n - 1 <- b] (n - 1) (c - 1)) as E.
    { unfold ib_swap. rewrite Hown, Hother by lia. f_equal. unfold zupd. destruct (Z.ltb_spec (n - 1) 0); [done|]. by rewrite list_insert_insert_eq. }
    specialize (IH a.[n - 1 <- a.[[]|c - 1]] c). cbv zeta in IH. rewrite zlen_zupd, E in IH.
    change (zlen a) with N in IH. destruct (heap_down m a.[n - 1 <- a.[[]|c - 1]] N b c) as [a' n'].
    destruct IH as [Hs Hh]; [lia|lia| |].
    + apply heap_down_step; try done; rewrite ?zlen_zupd; try lia; [apply half; lia|]. by rewrite Hown, Hother by lia.
    + split; [|done]. eapply rtc_l; [|exact Hs]. exists (n - 1), (c - 1). rewrite zlen_zupd. repeat split; lia.
  - split; [apply rtc_refl|]. intros k Hk. destruct (Z.eq_dec (k / 2) n) as [E|Hne]; [|by apply H].
    apply (le_trans _ a.[n - 1 <- b].[[]|c - 1]); [by apply Hmax|]. rewrite E, Hown, Hother by lia. exact Hle.
Qed.

Lemma replace_perm (a : list row) i b : 0 <= i < zlen a -> a.[i <- b] ++ [a.[[]|i]] ≡ₚ a ++ [b].
Proof.
  intros Hi. pose proof (znth_lookup [] a i Hi) as E. unfold zupd. destruct (Z.ltb_spec i 0); [lia|].
  rewrite insert_take_drop by (unfold zlen in Hi; lia). rewrite <- (take_drop_middle a _ _ E) at 4.
  rewrite !(Permutation_app_comm _ [_]). cbn [app]. rewrite <- !Permutation_middle. constructor.
Qed.

(** ** The rows kept *)

(** After [rows] the buffer has the smallest of them; the others are [dropped]. *)
Record LInv (s : Limit) (rows dropped : list row) : Prop := {
  li_range : 0 <= no_obj s <= zlen (buf (pass s));
  li_perm : take (Z.to_nat (no_obj s)) (buf (pass s)) ++ dropped ≡ₚ rows;
  li_none : no_obj s < zlen (buf (pass s)) -> dropped = [];
  li_heap : heap (buf (pass s)) (no_obj s);
  li_low : forall k r, 0 <= k < no_obj s -> r ∈ dropped -> le (buf (pass s)).[[]|k] r
}.

Lemma Limit_replace a b dropped rows :
  0 < zlen a -> heap a (zlen a) -> a ++ dropped ≡ₚ rows -> (forall k r, 0 <= k < zlen a -> r ∈ dropped -> le a.[[]|k] r) -> 0 < cmp a.[[]|0] b ->
  let '(a0, n) := heap_down (Z.to_nat (zlen a)) a (zlen a) b 1 in
  let a' := a0.[n - 1 <- b] in
  zlen a' = zlen a /\ heap a' (zlen a) /\ a' ++ (a.[[]|0] :: dropped) ≡ₚ rows ++ [b] /\
  (forall k r, 0 <= k < zlen a -> r ∈ a.[[]|0] :: dropped -> le a'.[[]|k] r).
Proof.
  intros Hz Hh Hp Hl Hgt. pose proof (heap_down_spec (Z.to_nat (zlen a)) b a 1) as H. cbv zeta in H. change (1 - 1) with 0 in H.
  destruct (heap_down (Z.to_nat (zlen a)) a (zlen a) b 1) as [a0 n]. destruct H as [Hs Hh']; [lia|lia| |].
  { split; [|lia]. intros k Hk Hk1. pose proof (proj1 (half k (k / 2) ltac:(lia)) eq_refl). rewrite !znth_zupd_ne by lia. apply Hh; lia. }
  cbv zeta. destruct (swaps_facts [] _ _ _ _ Hs) as (Hlen & Hperm & _ & Hall). rewrite (zlen_zupd a) in Hlen.
  split; [done|]. split; [done|]. split.
  - rewrite Hperm. rewrite <- Hp. pose proof (replace_perm a 0 b ltac:(lia)) as Hr.
    change (a.[[]|0] :: dropped) with ([a.[[]|0]] ++ dropped). rewrite app_assoc, Hr, <- !app_assoc. apply Permutation_app_head. apply Permutation_app_comm.
  - assert (forall k, 0 <= k < zlen a -> le a0.[n - 1 <- b].[[]|k] a.[[]|0]) as Htop.
    { intros k Hk. apply (Hall (fun r => le r a.[[]|0])); [|lia]. intros j Hj. destruct (Z.eq_dec j 0) as [->|].
      - rewrite znth_zupd_eq by lia. by apply gt_le.
      - rewrite znth_zupd_ne by lia. replace j with (j + 1 - 1) by lia. apply (heap_top a (zlen a)); [done|lia]. }
    intros k r Hk Hr. apply elem_of_cons in Hr as [->|Hr]; [apply Htop; lia|].
    apply (le_trans _ a.[[]|0]); [apply Htop; lia|apply Hl; [lia|done]].
Qed.

(** Without keys every order is right. *)
Lemma no_key r1 r2 : Nat.eqb key_bytes 0 = true -> le r1 r2.
Proof. intros E. apply Nat.eqb_eq in E. unfold key_le, key_compare. by rewrite E. Qed.

Lemma LInv_add s rows b a :
  LInv s rows [] -> zlen a = zlen (buf (pass s)) -> no_obj s < zlen a ->
  QSort.swaps [] 0 (no_obj s) (buf (pass s)).[no_obj s <- b] a -> heap a (no_obj s + 1) -> LInv (with_buf s a (no_obj s + 1)) (rows ++ [b]) [].
Proof.
  intros [Hr Hp Hn Hh Hl] Hz Hlt Hs Hh'. constructor; cbn [with_buf pass buf no_obj]; try done.
  - lia.
  - rewrite app_nil_r in *. replace (no_obj s) with (no_obj s + 1 - 1) in Hs at 1 by lia. apply swaps_prefix in Hs; [|rewrite zlen_zupd; lia].
    rewrite Hs, take_put by lia. by rewrite Hp.
  - intros k r _ H. by apply elem_of_nil in H.
Qed.

(** A row of a full buffer that is dropped at once. *)
Lemma LInv_drop s rows dropped b :
  LInv s rows dropped -> no_obj s = zlen (buf (pass s)) -> (forall k, 0 <= k < no_obj s -> le (buf (pass s)).[[]|k] b) ->
  LInv (with_buf s (buf (pass s)) (no_obj s)) (rows ++ [b]) (dropped ++ [b]).
Proof.
  intros [Hr Hp Hn Hh Hl] Hf Hb. constructor; cbn [with_buf pass buf no_obj]; try done.
  - by rewrite app_assoc, Hp.
  - lia.
  - intros k r Hk Hin. apply elem_of_app in Hin as [?|Hin]; [by apply Hl|]. apply list_elem_of_singleton in Hin as ->. by apply Hb.
Qed.

Definition same_pass (s s' : Limit) : Prop :=
  zlen (buf (pass s')) = zlen (buf (pass s)) /\ buf_input_pos (pass s') = buf_input_pos (pass s) /\
  buf_output_pos (pass s') = buf_output_pos (pass s) /\ bound_queue (pass s') = bound_queue (pass s).

Lemma Limit_put s rows dropped b :
  0 < zlen (buf (pass s)) -> LInv s rows dropped ->
  exists s' more dropped', Limit_PutValue s b = SOk (s', more) /\ LInv s' (rows ++ [b]) dropped' /\ same_pass s s' /\ already_sorted (pass s') = false /\
    (more = false -> buf (pass s') = buf (pass s) /\ no_obj s' = zlen (buf (pass s)) /\ cmp (buf (pass s)).[[]|0] zero_buf = 0).
Proof.
  intros Hz H. pose proof (li_range _ _ _ H) as Hr. unfold Limit_PutValue. cbv zeta. destruct (Nat.eqb key_bytes 0) eqn:E0.
  - destruct (Z.ltb_spec (no_obj s) (zlen (buf (pass s)))) as [Hlt|Hge].
    + assert (dropped = []) as -> by (by apply (li_none _ _ _ H)).
      do 3 eexists. split; [reflexivity|]. split; [|split; [unfold same_pass; simpl; by rewrite zlen_zupd|split; [done|done]]].
      apply LInv_add; rewrite ?zlen_zupd; try done. intros k _. by apply no_key.
    + do 3 eexists. split; [reflexivity|]. split; [|split; [done|split; [done|done]]]. apply (LInv_drop _ _ dropped); [done|lia|]. intros. by apply no_key.
  - destruct (Z.ltb_spec (no_obj s) (zlen (buf (pass s)))) as [Hlt|Hge].
    + assert (dropped = []) as -> by (by apply (li_none _ _ _ H)). replace (no_obj s + 1 - 1) with (no_obj s) by lia.
      destruct (heap_up_spec (Z.to_nat (no_obj s + 1)) (buf (pass s)).[no_obj s <- b] (no_obj s + 1) (no_obj s + 1)) as [Hs Hh]; rewrite ?zlen_zupd; [lia|lia|lia| |].
      { split; intros k Hk.
        - intros Hne. pose proof (proj1 (half k (k / 2) ltac:(lia)) eq_refl). rewrite !znth_zupd_ne by lia. apply (li_heap _ _ _ H). lia.
        - intros E. apply half in E; lia. }
      replace (no_obj s + 1 - 1) with (no_obj s) in Hs by lia. pose proof (swaps_len [] _ _ _ _ Hs) as Hlen. rewrite (zlen_zupd (buf (pass s))) in Hlen.
      do 3 eexists. split; [reflexivity|]. split; [apply LInv_add; try done; lia|]. split; [by unfold same_pass|split; [done|done]].
    + assert (no_obj s = zlen (buf (pass s))) as Hfull by lia. destruct (Z.eqb_spec (zlen (buf (pass s))) 0); [lia|].
      pose proof (li_heap _ _ _ H) as Hh. rewrite Hfull in Hh.
      destruct (Z.ltb_spec 0 (cmp (buf (pass s)).[[]|0] b)) as [Hgt|Hle].
      * pose proof (li_perm _ _ _ H) as Hp. rewrite Hfull, take_ge in Hp by (unfold zlen; lia).
        pose proof (Limit_replace (buf (pass s)) b dropped rows Hz Hh Hp) as Hrep. destruct (heap_down _ _ _ b 1) as [a n1].
        destruct Hrep as (Hl & Hh' & Hp' & Hlow); [intros k r Hk; apply (li_low _ _ _ H); lia|done|].
        eexists _, _, ((buf (pass s)).[[]|0] :: dropped). split; [reflexivity|]. split; [|split; [done|split; [done|done]]].
        constructor; cbn [with_buf pass buf no_obj]; rewrite ?Hl, ?Hfull; try done; try lia. by rewrite take_ge by (unfold zlen in *; lia).
      * do 3 eexists. split; [reflexivity|]. split.
        { apply (LInv_drop _ _ dropped); [done|done|]. intros k Hk. apply (le_trans _ (buf (pass s)).[[]|0]); [|exact Hle].
          replace k with (k + 1 - 1) by lia. apply (heap_top _ (zlen (buf (pass s)))); [done|lia]. }
        split; [done|]. split; [done|]. intros E. apply negb_false_iff, Z.eqb_eq in E. done.
Qed.

Lemma Limit_put_all rand killed rest : forall s rows dropped,
  0 < zlen (buf (pass s)) -> LInv s rows dropped ->
  exists s' dropped', put_all (SorterLimit rand killed) s rest = SOk s' /\ LInv s' (rows ++ rest) dropped' /\ same_pass s s' /\
    (rest <> [] -> already_sorted (pass s') = false).
Proof.
  induction rest as [|b rest IH]; intros s rows dropped Hz H.
  - exists s, dropped. rewrite app_nil_r. split; [done|]. split; [done|]. split; [done|]. done.
  - destruct (Limit_put s rows dropped b Hz H) as (s1 & m & d1 & E & H1 & Hsame & Hs1 & _).
    destruct (IH s1 (rows ++ [b]) d1) as (s' & d' & E' & H' & Hsame' & Hs'); [destruct Hsame as (-> & _); done|done|].
    exists s', d'. cbn [put_all SorterLimit PutValue sorter]. rewrite E. cbn [sbind fst]. split; [exact E'|].
    split; [by rewrite <- app_assoc in H'|]. split; [unfold same_pass in *; intuition congruence|]. intros _.
    destruct rest as [|r rest]; [|by apply Hs']. cbn [put_all] in E'. by injection E' as <-.
Qed.

(** Reading is reading from the buffer. *)
Lemma Limit_drain rand killed n : forall s,
  drain (SorterLimit rand killed) n s
  = sbind (drain (SorterOnePass key_bytes rand killed) n (pass s)) (fun p => SOk (mkSL (fst p) (no_obj s), snd p)).
Proof.
  induction n as [|n IH]; intros s; cbn [drain SorterLimit SorterOnePass GetNextValue sorter]; unfold Limit_GetNextValue at 1;
    destruct (OnePass_GetNextValue key_bytes rand killed (pass s)) as [[p [r|]]| |]; cbn [sbind fst snd]; try done.
  change (mkSorter Limit _ _) with (SorterLimit rand killed). rewrite IH. cbn [pass no_obj].
  change (mkSorter OnePass _ _) with (SorterOnePass key_bytes rand killed). by destruct (drain (SorterOnePass key_bytes rand killed) n p) as [[]| |].
Qed.

(** The rows that are read are the smallest. *)
Lemma Limit_smallest_lemma rand killed mem queue rows :
  0 < zlen mem <= zlen rows -> zlen queue = 2 * bound_queue_size (zlen mem) ->
  (exists s out dropped, sort_rows (SorterLimit rand killed) (Limit_new mem queue) rows = SOk (s, out) /\
     out ++ dropped ≡ₚ rows /\ zlen out = zlen mem /\ StronglySorted le out /\
     forall r d, r ∈ out -> d ∈ dropped -> le r d) \/
  (sort_rows (SorterLimit rand killed) (Limit_new mem queue) rows = SKilled /\ exists k, killed k = true).
Proof.
  intros Hlimit Hq. unfold sort_rows. destruct (Limit_put_all rand killed rows (Limit_new mem queue) [] []) as (s & dropped & -> & H & (Hz & Hi & Ho & Hbq) & Hs); [simpl; lia| |].
  { constructor; cbn [Limit_new pass buf no_obj]; try done; [lia|intros k Hk; lia|intros; lia]. }
  cbn [Limit_new pass buf buf_input_pos buf_output_pos bound_queue app sbind] in *. rewrite Limit_drain.
  assert (no_obj s = zlen mem) as Hfull.
  { pose proof (li_range _ _ _ H). destruct (Z.lt_ge_cases (no_obj s) (zlen mem)); [|lia].
    pose proof (li_perm _ _ _ H) as Hp. rewrite (li_none _ _ _ H), app_nil_r in Hp by lia. apply Permutation_length in Hp. unfold zlen in *. rewrite length_take in Hp. lia. }
  destruct (OnePass_first_read key_bytes rand killed (pass s) (length rows)) as [(s' & out & -> & _ & _ & _ & Hp & Hso)|[-> Hk]];
    [apply Hs; intros ->; unfold zlen in Hlimit; simpl in Hlimit; lia|lia|done|by rewrite Hbq, Hz|unfold zlen in *; lia|left|by right].
  pose proof (li_perm _ _ _ H) as Hpr. rewrite Hfull in Hpr. rewrite Hi in Hp.
  exists (mkSL s' (no_obj s)), out, dropped. split; [done|]. split; [by rewrite Hp|]. split.
  { unfold zlen in *. rewrite Hp, length_take. lia. }
  split; [done|]. intros r d Hr Hd. rewrite Hp in Hr. apply list_elem_of_lookup in Hr as (k & Hr). apply lookup_take_Some in Hr as [Hr Hk].
  apply (znth_lookup_Some []) in Hr. rewrite <- Hr. apply (li_low _ _ _ H); [lia|done].
Qed.

End Limit.

(** C14: a sorter with a limit, given at least as many rows as the limit, returns that many rows
    in the order of their keys: the rows it does not return have keys at least as great. *)
Theorem SorterLimit_smallest (key_bytes : nat) (rand : nat -> Z) (killed : nat -> bool) (mem : list row) (queue : list Z) (rows : list row)
    (Hlimit : 0 < zlen mem <= zlen rows) (Hq : zlen queue = 2 * bound_queue_size (zlen mem)) :
  (exists s out dropped, sort_rows (SorterLimit key_bytes rand killed) (Limit_new mem queue) rows = SOk (s, out) /\
     out ++ dropped ≡ₚ rows /\ zlen out = zlen mem /\ StronglySorted (key_le key_bytes) out /\
     forall r d, r ∈ out -> d ∈ dropped -> key_le key_bytes r d) \/
  (sort_rows (SorterLimit key_bytes rand killed) (Limit_new mem queue) rows = SKilled /\ exists k, killed k = true).
Proof. by apply Limit_smallest_lemma. Qed.

Lemma memcmp_zeros (b : list Z) n : Forall (is_word 8) b -> memcmp (replicate n 0) b n <= 0.
Proof.
  revert b. induction n as [|n IH]; intros b Hb; [done|]. cbn [replicate memcmp hd tail].
  destruct Hb as [|x b Hx Hb]; cbn [hd tail]; [by apply (IH [])|]. unfold is_word in Hx. destruct (Z.eqb_spec 0 x); [by apply IH|lia].
Qed.

(** When a sorter with a limit answers that no more rows are needed, it is right: rows put
    afterwards do not change the rows it keeps. *)
Theorem SorterLimit_stop (key_bytes : nat) (rand : nat -> Z) (killed : nat -> bool) (s s' : Limit) (b : row) (more : list row)
    (Hsize : 0 < zlen (buf (pass s))) (Hreach : exists rows dropped, LInv key_bytes s rows dropped)
    (Hstop : Limit_PutValue key_bytes s b = SOk (s', false)) (Hmore : Forall (Forall (is_word 8)) more) :
  buf (pass s') = buf (pass s) /\
  exists s2, put_all (SorterLimit key_bytes rand killed) s' more = SOk s2 /\ buf (pass s2) = buf (pass s) /\ pass s2 = pass s'.
Proof.
  destruct Hreach as (rows & dropped & H). destruct (Limit_put key_bytes s rows dropped b Hsize H) as (s1 & m & d & E & H' & Hsame & Hs1 & Hf).
  rewrite Hstop in E. injection E as <- <-. destruct (Hf eq_refl) as (Hb & Hn & Hzero). split; [done|].
  assert (forall l t, Forall (Forall (is_word 8)) l -> pass t = pass s' -> no_obj t = zlen (buf (pass s)) ->
            exists s2, put_all (SorterLimit key_bytes rand killed) t l = SOk s2 /\ pass s2 = pass s') as Hl.
  { induction l as [|r l IH]; intros t Hr Hp Hno; [by exists t|]. apply Forall_cons in Hr as [Hr Hrest].
    assert (exists res, Limit_PutValue key_bytes t r = SOk (with_buf t (buf (pass t)) (no_obj t), res)) as [res E].
    { unfold Limit_PutValue. rewrite Hp, Hb. cbv zeta. rewrite Hno, Z.ltb_irrefl. destruct (Nat.eqb key_bytes 0); [by eexists|].
      destruct (Z.eqb_spec (zlen (buf (pass s))) 0); [lia|].
      assert (key_compare key_bytes (buf (pass s)).[[]|0] r <= 0) as Hle.
      { apply (QSort.cmp_trans _ (zero_buf key_bytes)); [lia|]. by apply memcmp_zeros. }
      destruct (Z.ltb_spec 0 (key_compare key_bytes (buf (pass s)).[[]|0] r)); [lia|]. by eexists. }
    destruct (IH (with_buf t (buf (pass t)) (no_obj t))) as (s2 & E2 & Hp2); [done| |done|].
    - unfold with_buf. cbn [pass]. rewrite Hp. destruct (pass s') eqn:Es. cbn in *. by subst.
    - exists s2. cbn [put_all SorterLimit PutValue sorter]. rewrite E. done. }
  destruct (Hl more s' Hmore eq_refl Hn) as (s2 & E2 & Hp2). exists s2. split; [done|]. split; [by rewrite Hp2|done].
Qed.

(** ** Witnesses and remarks *)

Definition limit3 : Limit := Limit_new (replicate 3 []) (replicate 20 0).

Lemma SorterLimit_smallest_witness :
  (exists s out dropped, sort_rows (SorterLimit 1 (fun _ => 0) (fun _ => false)) limit3 [[5]; [9]; [2]; [7]; [1]] = SOk (s, out) /\
     out ++ dropped ≡ₚ [[5]; [9]; [2]; [7]; [1]] /\ zlen out = 3) /\
  sbind (sort_rows (SorterLimit 1 (fun _ => 0) (fun _ => false)) limit3 [[5]; [9]; [2]; [7]; [1]]) (fun p => SOk (snd p)) = SOk [[1]; [2]; [5]].
Proof.
  split; [|vm_compute; reflexivity].
  destruct (SorterLimit_smallest 1 (fun _ => 0) (fun _ => false) (replicate 3 []) (replicate 20 0) [[5]; [9]; [2]; [7]; [1]])
    as [(s & out & d & E & Hp & Hz & _)|[_ [k Hk]]].
  - vm_compute. split; [reflexivity|discriminate].
  - reflexivity.
  - exists s, out, d. split; [exact E|]. split; [exact Hp|exact Hz].
  - discriminate Hk.
Defined.

Definition zeros3 : Limit := mkSL (mkOP [[0]; [0]; [0]] 3 0 (replicate 20 0) false) 3.

Lemma SorterLimit_stop_witness :
  exists s2, put_all (SorterLimit 1 (fun _ => 0) (fun _ => false)) (with_buf zeros3 [[0]; [0]; [0]] 3) [[4]; [0]] = SOk s2 /\
    buf (pass s2) = [[0]; [0]; [0]].
Proof.
  destruct (SorterLimit_stop 1 (fun _ => 0) (fun _ => false) zeros3 (with_buf zeros3 [[0]; [0]; [0]] 3) [8] [[4]; [0]]) as [_ (s2 & E & Hb & _)].
  - reflexivity.
  - exists [[0]; [0]; [0]], []. constructor.
    + vm_compute. split; discriminate.
    + rewrite app_nil_r. reflexivity.
    + intros _. reflexivity.
    + intros k Hk. assert (k = 2 \/ k = 3) as [-> | ->] by (cbn [zeros3 no_obj] in Hk; lia); vm_compute; discriminate.
    + intros k r _ Hr. by apply elem_of_nil in Hr.
  - reflexivity.
  - repeat constructor; vm_compute; discriminate.
  - exists s2. split; [exact E|exact Hb].
Defined.

(** A limit of no rows leaves the sorter without a buffer, and the first row is compared with the
    row at its start. *)
Theorem SorterLimit_zero (b : row) : Limit_PutValue 1 (Limit_new [] (replicate 20 0)) b = SFault.
Proof. reflexivity. Qed.

(** With fewer rows than the limit, rows that were never put are returned. *)
Theorem SorterLimit_few_rows :
  sbind (sort_rows (SorterLimit 1 (fun _ => 0) (fun _ => false)) (Limit_new [[9]; [3]] (replicate 20 0)) [[5]]) (fun p => SOk (snd p)) = SFault /\
  sbind (put_all (SorterLimit 1 (fun _ => 0) (fun _ => false)) (Limit_new [[9]; [3]] (replicate 20 0)) [[5]])
    (fun s => sbind (drain (SorterLimit 1 (fun _ => 0) (fun _ => false)) 2 s) (fun p => SOk (snd p))) = SOk [[3]; [5]].
Proof. vm_compute. done. Qed.
