(* ===== verification/CacheItem.v ===== *)
(** * Blocks on disk (system/CacheableItem.h, system/CacheableItem.cpp)

    An object that does not fit the memory keeps numbered blocks of bytes in temporary files of at
    most 2000000000 bytes.  [CI_Put] appends a new block, or one whose size has changed, to the
    last file; [CI_Get] reads a part of a block.

    The disk maps the six digits of a file name to the bytes of the file.  [None] is an exception
    of the file system. *)

From stdpp Require Import gmap.
From S2P Require Import Prelude ByteFile.

Record CacheableItem := mkCI {
  disk : gmap (list Z) (list Z);
  max_file_id : Z;
  max_file_pos : Z;
  no_block : Z;
  file_number : list Z;
  file_start : list Z;
  file_size : list Z;
  default_block_size : Z;
  cur_file_number : Z
}.

Definition CI_new (disk : gmap (list Z) (list Z)) (default_size : Z) : CacheableItem :=
  mkCI disk 0 0 0 [] [] [] default_size (-1).

(** The digits of the file number; the rest of the name does not change. *)
Definition SetFilename (i : Z) : list Z :=
  [(i / 100000) mod 10; (i / 10000) mod 10; (i / 1000) mod 10; (i / 100) mod 10; (i / 10) mod 10; i mod 10].

(** [OpenReadWrite]: the file must exist. *)
Definition open_file (s : CacheableItem) (i : Z) : option CacheableItem :=
  _ ← disk s !! SetFilename i;
  Some (mkCI (disk s) (max_file_id s) (max_file_pos s) (no_block s) (file_number s) (file_start s) (file_size s) (default_block_size s) i).

(** The current file becomes the file of the block. *)
Definition open_block (s : CacheableItem) (block : Z) : option CacheableItem :=
  if negb ((file_number s).[-1|block] =? cur_file_number s) then open_file s (file_number s).[-1|block] else Some s.

Definition with_disk (s : CacheableItem) (d : gmap (list Z) (list Z)) : CacheableItem :=
  mkCI d (max_file_id s) (max_file_pos s) (no_block s) (file_number s) (file_start s) (file_size s) (default_block_size s) (cur_file_number s).

(** Empty blocks before a block whose number is not the next one. *)
Definition fill_blocks (s : CacheableItem) (block : Z) : CacheableItem :=
  let gap := Z.to_nat (block - no_block s) in
  mkCI (disk s) (max_file_id s) (max_file_pos s) (no_block s) (file_number s ++ replicate gap (-1)) (file_start s ++ replicate gap 0)
    (file_size s ++ replicate gap 0) (default_block_size s) (cur_file_number s).

(** A place at the end of the last file, or in a new file. *)
Definition new_place (s : CacheableItem) (block size : Z) : option CacheableItem :=
  let '(id, pos) := if 2000000000 <? size + max_file_pos s then (max_file_id s + 1, 0) else (max_file_id s, max_file_pos s) in
  let s :=
    if no_block s <=? block then
      mkCI (disk s) id pos (block + 1) (file_number s ++ [id]) (file_start s ++ [pos]) (file_size s ++ [size]) (default_block_size s) (cur_file_number s)
    else
      mkCI (disk s) id pos (no_block s) (file_number s).[block <- id] (file_start s).[block <- pos] (file_size s).[block <- size]
        (default_block_size s) (cur_file_number s) in
  let number := (file_number s).[-1|block] in
  s ← (if pos =? 0 then Some (with_disk s (<[SetFilename number := []]> (disk s))) else open_file s number);
  Some (mkCI (disk s) (max_file_id s) (pos + size) (no_block s) (file_number s) (file_start s) (file_size s) (default_block_size s) number).

Definition CI_Put (s : CacheableItem) (block : Z) (data : list Z) (size : Z) : option CacheableItem :=
  if block =? -1 then Some s
  else
    let size := if size =? -1 then default_block_size s else size in
    if size <=? 0 then Some s
    else
      let s := fill_blocks s block in
      s ← (if (no_block s <=? block) || negb (size =? (file_size s).[0|block]) then new_place s block size else Some s);
      s ← open_block s block;
      bytes ← disk s !! SetFilename (cur_file_number s);
      f ← Seek_set (mkFile bytes 0) (file_start s).[0|block];
      let f := WriteExact f (take (Z.to_nat (file_size s).[0|block]) data) in
      Some (with_disk s (<[SetFilename (cur_file_number s) := fbytes f]> (disk s))).

(** The second result is what the buffer receives; [None] is the answer -1.  The sum of the offset and
    the size is an [int]. *)
Definition CI_Get (s : CacheableItem) (block size off : Z) : option (CacheableItem * option (list Z)) :=
  if (no_block s <=? block) || ((file_size s).[0|block] <=? 0) || ((0 <=? size) && ((file_size s).[0|block] <? swrap 32 (off + size))) then Some (s, None)
  else
    s ← open_block s block;
    let '(size, off) := if size <? 0 then ((file_size s).[0|block], 0) else (size, off) in
    bytes ← disk s !! SetFilename (cur_file_number s);
    f ← Seek_set (mkFile bytes 0) ((file_start s).[0|block] + off);
    Some (s, Some (slice (fbytes f) (fpos f) size)).

(** ** File names *)

Lemma SetFilename_inj i j : 0 <= i < 1000000 -> 0 <= j < 1000000 -> SetFilename i = SetFilename j -> i = j.
Proof.
  intros Hi Hj [= E5 E4 E3 E2 E1 E0].
  assert (forall n, 0 <= n < 1000000 -> n = (n / 100000) mod 10 * 100000 + (n / 10000) mod 10 * 10000 + (n / 1000) mod 10 * 1000
            + (n / 100) mod 10 * 100 + (n / 10) mod 10 * 10 + n mod 10) as Hd.
  { intros n Hn. pose proof (Z.div_mod n 10). pose proof (Z.div_mod (n / 10) 10). pose proof (Z.div_mod (n / 100) 10).
    pose proof (Z.div_mod (n / 1000) 10). pose proof (Z.div_mod (n / 10000) 10). pose proof (Z.div_mod (n / 100000) 10).
    rewrite !Z.div_div in * by lia. change (10 * 10) with 100 in *. change (100 * 10) with 1000 in *. change (1000 * 10) with 10000 in *.
    change (10000 * 10) with 100000 in *. change (100000 * 10) with 1000000 in *. rewrite (Z.div_small n 1000000) in * by lia. lia. }
  rewrite (Hd i Hi), (Hd j Hj). by rewrite E5, E4, E3, E2, E1, E0.
Qed.

(** ** Places of the blocks *)

Definition num (s : CacheableItem) (b : Z) : Z := (file_number s).[-1|b].
Definition start (s : CacheableItem) (b : Z) : Z := (file_start s).[0|b].
Definition bsize (s : CacheableItem) (b : Z) : Z := (file_size s).[0|b].

Definition apart (s : CacheableItem) (b c : Z) : Prop :=
  num s b <> num s c \/ start s b + bsize s b <= start s c \/ start s c + bsize s c <= start s b.

(** The blocks [live] have places in existing files, which do not overlap. *)
Record Places (s : CacheableItem) (live : Z -> Prop) : Prop := {
  pl_number : zlen (file_number s) = no_block s;
  pl_start : zlen (file_start s) = no_block s;
  pl_size : zlen (file_size s) = no_block s;
  pl_id : 0 <= max_file_id s < 1000000;
  pl_pos : 0 <= max_file_pos s;
  pl_last : 0 < max_file_pos s -> is_Some (disk s !! SetFilename (max_file_id s));
  pl_cur : cur_file_number s = -1 \/ 0 <= cur_file_number s <= max_file_id s /\ is_Some (disk s !! SetFilename (cur_file_number s));
  pl_block : forall b, live b -> 0 <= b < no_block s /\ 0 < bsize s b /\ 0 <= start s b /\ 0 <= num s b <= max_file_id s /\
    (num s b = max_file_id s -> start s b + bsize s b <= max_file_pos s) /\ is_Some (disk s !! SetFilename (num s b));
  pl_apart : forall b c, live b -> live c -> b <> c -> apart s b c
}.

(** The bytes of the blocks are where their places say. *)
Definition stored_at (s : CacheableItem) (b : Z) (bs : list Z) : Prop :=
  bsize s b = zlen bs /\
  exists bytes, disk s !! SetFilename (num s b) = Some bytes /\ start s b + zlen bs <= zlen bytes /\ slice bytes (start s b) (zlen bs) = bs.

Definition holds (s : CacheableItem) (m : gmap Z (list Z)) : Prop := forall b bs, m !! b = Some bs -> stored_at s b bs.

(** What the object stores: the blocks of [m], the other numbers are empty. *)
Record Stores (s : CacheableItem) (m : gmap Z (list Z)) : Prop := {
  st_places : Places s (fun b => is_Some (m !! b));
  st_holds : holds s m;
  st_empty : forall b, m !! b = None -> 0 <= b < no_block s -> bsize s b = 0
}.

Lemma Stores_new d n : Stores (CI_new d n) ∅.
Proof.
  constructor.
  - constructor; cbn; try done; try lia; try (by left).
    + intros b [x Hx]. by rewrite lookup_empty in Hx.
    + intros b c [x Hx]. by rewrite lookup_empty in Hx.
  - intros b bs Hb. by rewrite lookup_empty in Hb.
  - intros b _ Hb. simpl in Hb. lia.
Qed.

(** Opening the file of a block changes nothing else. *)
Lemma open_block_spec s live b :
  Places s live -> live b ->
  exists s', open_block s b = Some s' /\ cur_file_number s' = num s b /\ disk s' = disk s /\ max_file_id s' = max_file_id s /\
    (forall c, num s' c = num s c /\ start s' c = start s c /\ bsize s' c = bsize s c) /\ no_block s' = no_block s /\
    default_block_size s' = default_block_size s /\ Places s' live.
Proof.
  intros H Hb. pose proof (pl_block _ _ H b Hb) as (Hr & _ & _ & Hn & _ & [bytes Hf]). unfold open_block, open_file.
  fold (num s b). destruct (Z.eqb_spec (num s b) (cur_file_number s)) as [E|Hne]; cbn [negb].
  - exists s. done.
  - rewrite Hf. cbn [mbind option_bind]. eexists. split; [reflexivity|]. repeat (split; [done|]).
    destruct H as [H1 H2 H3 H4 H5 H6 H7 H8 H9]. constructor; cbn; try done. right. split; [lia|by eexists].
Qed.

(** Writing the bytes of a placed block. *)
Lemma write_block s m b bytes bs :
  let live c := is_Some (m !! c) \/ c = b in
  let d := <[SetFilename (num s b) := overwrite bytes (start s b) bs]> (disk s) in
  Places s live -> holds s (delete b m) -> bsize s b = zlen bs -> disk s !! SetFilename (num s b) = Some bytes ->
  (forall c, m !! c = None -> c <> b -> 0 <= c < no_block s -> bsize s c = 0) ->
  Stores (with_disk s d) (<[b := bs]> m).
Proof.
  intros live d HP HD Hsz Hbytes Hempty. pose proof (pl_block _ _ HP b (or_intror eq_refl)) as (Hb1 & Hb2 & Hb3 & Hb4 & Hb5 & _).
  assert (forall n, 0 <= n <= max_file_id s -> is_Some (disk s !! SetFilename n) -> is_Some (d !! SetFilename n)) as Hsome.
  { intros n Hn Hs. unfold d. destruct (decide (SetFilename (num s b) = SetFilename n)) as [->|]; [rewrite lookup_insert_eq; by eexists|].
    by rewrite lookup_insert_ne. }
  pose proof (pl_id _ _ HP) as Hid.
  constructor.
  - destruct HP as [P1 P2 P3 P4 P5 P6 P7 P8 P9]. constructor; cbn [with_disk disk max_file_id max_file_pos no_block file_number file_start file_size cur_file_number]; try done.
    + intros Hp. apply Hsome; [lia|by apply P6].
    + destruct P7 as [?|[? ?]]; [by left|right; split; [done|by apply Hsome]].
    + intros c [x Hc]. assert (live c) as Hl.
      { destruct (decide (c = b)) as [->|]; [by right|]. rewrite lookup_insert_ne in Hc by done. left. by eexists. }
      destruct (P8 c Hl) as (? & ? & ? & ? & ? & ?). repeat (split; [done|]). apply Hsome; [done|done].
    + intros c e [x Hc] [y He]. apply P9.
      * destruct (decide (c = b)) as [->|]; [by right|]. rewrite lookup_insert_ne in Hc by done. left. by eexists.
      * destruct (decide (e = b)) as [->|]; [by right|]. rewrite lookup_insert_ne in He by done. left. by eexists.
  - intros c cs Hc. unfold stored_at. cbn [with_disk disk]. change (num (with_disk s d) c) with (num s c). change (start (with_disk s d) c) with (start s c).
    change (bsize (with_disk s d) c) with (bsize s c). destruct (decide (c = b)) as [->|Hne].
    + rewrite lookup_insert_eq in Hc. injection Hc as <-. split; [done|]. exists (overwrite bytes (start s b) bs). unfold d.
      rewrite lookup_insert_eq. split; [done|]. rewrite zlen_overwrite by lia. split; [lia|]. by apply slice_overwrite_same.
    + rewrite lookup_insert_ne in Hc by done. destruct (HD c cs) as (E & bytes' & Hf & Hl & Hs); [by rewrite lookup_delete_ne|].
      split; [done|]. pose proof (pl_block _ _ HP c (or_introl (ex_intro _ _ Hc))) as (_ & Hc2 & Hc3 & Hc4 & _).
      pose proof (pl_apart _ _ HP c b (or_introl (ex_intro _ _ Hc)) (or_intror eq_refl) Hne) as Hap. unfold d.
      destruct (decide (num s b = num s c)) as [En|Hnn].
      * rewrite En in *. rewrite Hf in Hbytes. injection Hbytes as ->. rewrite lookup_insert_eq. eexists. split; [done|].
        rewrite zlen_overwrite by lia. split; [lia|]. unfold apart in Hap. rewrite slice_overwrite_other; [done|lia..].
      * rewrite lookup_insert_ne by (intros E'; apply Hnn, SetFilename_inj; [lia|lia|done]). by exists bytes'.
  - intros c Hc Hr. change (bsize (with_disk s d) c) with (bsize s c). destruct (decide (c = b)) as [->|]; [by rewrite lookup_insert_eq in Hc|].
    rewrite lookup_insert_ne in Hc by done. by apply Hempty.
Qed.

(** A vector with a new entry for a block, behind entries for the empty blocks before it. *)
Lemma vector_place (v : list Z) (d x block : Z) :
  0 <= block ->
  let w := v ++ replicate (Z.to_nat (block - zlen v)) d in
  let v' := if zlen v <=? block then w ++ [x] else w.[block <- x] in
  zlen v' = Z.max (zlen v) (block + 1) /\ forall c, 0 <= c -> v'.[d|c] = if c =? block then x else v.[d|c].
Proof.
  intros Hb w v'. pose proof (zlen_nonneg v).
  assert (zlen w = Z.max (zlen v) block) as Hw by (unfold w; rewrite zlen_app; unfold zlen in *; rewrite length_replicate; lia).
  assert (forall c, 0 <= c -> w.[d|c] = v.[d|c]) as Hc.
  { intros c Hc. unfold w. destruct (Z.lt_ge_cases c (zlen v)); [by rewrite znth_app_l by lia|]. rewrite znth_app_r by lia. rewrite (znth_overflow d v) by lia.
    destruct (Z.lt_ge_cases (c - zlen v) (block - zlen v)); [apply znth_replicate; lia|]. apply znth_overflow. unfold zlen in *. rewrite length_replicate. lia. }
  unfold v'. destruct (Z.leb_spec (zlen v) block).
  - rewrite zlen_app. assert (zlen [x] = 1) as -> by done. split; [lia|]. intros c Hc0. destruct (Z.eqb_spec c block) as [->|].
    + rewrite znth_app_r by lia. replace (block - zlen w) with 0 by lia. done.
    + destruct (Z.lt_ge_cases c block); [rewrite znth_app_l by lia; by apply Hc|]. rewrite !znth_overflow; [done|lia|]. rewrite zlen_app. unfold zlen at 2. simpl. lia.
  - rewrite zlen_zupd. split; [lia|]. intros c Hc0. destruct (Z.eqb_spec c block) as [->|]; [apply znth_zupd_eq; lia|]. rewrite znth_zupd_ne by lia. by apply Hc.
Qed.

(** The places after a new one: nothing live is in the file that is created, and nothing behind
    the end of the last file. *)
Lemma new_place_spec s m block size :
  Stores s m -> 0 <= block -> 0 < size -> max_file_id s < 999999 ->
  exists s', new_place (fill_blocks s block) block size = Some s' /\
    Places s' (fun c => is_Some (m !! c) \/ c = block) /\ holds s' (delete block m) /\ bsize s' block = size /\
    (forall c, m !! c = None -> c <> block -> 0 <= c < no_block s' -> bsize s' c = 0) /\
    max_file_id s <= max_file_id s' <= max_file_id s + 1 /\ default_block_size s' = default_block_size s.
Proof.
  intros [[P1 P2 P3 P4 P5 P6 P7 P8 P9] HD HE] Hb Hsz Hid. unfold new_place, fill_blocks.
  cbn [max_file_pos max_file_id no_block file_number file_start file_size disk default_block_size cur_file_number].
  set (new := 2000000000 <? size + max_file_pos s).
  replace (if new then (max_file_id s + 1, 0) else (max_file_id s, max_file_pos s))
    with (if new then max_file_id s + 1 else max_file_id s, if new then 0 else max_file_pos s) by (by destruct new).
  set (id := if new then max_file_id s + 1 else max_file_id s). set (pos := if new then 0 else max_file_pos s).
  assert (max_file_id s <= id <= max_file_id s + 1 /\ 0 <= pos) as [Hidr Hposr] by (unfold id, pos; destruct new; lia).
  destruct (vector_place (file_number s) (-1) id block Hb) as [Ln Vn], (vector_place (file_start s) 0 pos block Hb) as [Ls Vs],
    (vector_place (file_size s) 0 size block Hb) as [Lz Vz]. rewrite P1 in *. rewrite P2 in *. rewrite P3 in *.
  set (vn := if no_block s <=? block then _ else (_ : list Z)) in Ln, Vn.
  set (vs := if no_block s <=? block then _ else (_ : list Z)) in Ls, Vs. set (vz := if no_block s <=? block then _ else (_ : list Z)) in Lz, Vz.
  set (s1 := if no_block s <=? block then _ else _).
  assert (s1 = mkCI (disk s) id pos (Z.max (no_block s) (block + 1)) vn vs vz (default_block_size s) (cur_file_number s)) as ->.
  { unfold s1, vn, vs, vz. destruct (Z.leb_spec (no_block s) block); f_equal; lia. }
  cbn [file_number]. replace vn.[-1|block] with id by (rewrite Vn by done; by rewrite Z.eqb_refl).
  assert (forall c, is_Some (m !! c) -> num s c = id -> pos = 0 -> False) as Hfresh.
  { intros c Hc E Hp. destruct (P8 c Hc) as (_ & H2 & H3 & H4 & H5 & _). unfold id, pos in *. destruct new; [lia|]. specialize (H5 E). lia. }
  (* the disk after the file is opened *)
  set (d := if pos =? 0 then <[SetFilename id := []]> (disk s) else disk s).
  assert (is_Some (d !! SetFilename id)) as Hdid.
  { unfold d. destruct (Z.eqb_spec pos 0); [rewrite lookup_insert_eq; by eexists|]. unfold id, pos in *. destruct new; [lia|]. apply P6. lia. }
  assert (forall c x, is_Some (m !! c) -> disk s !! SetFilename (num s c) = Some x -> d !! SetFilename (num s c) = Some x) as Hkeep.
  { intros c x Hc Hx. unfold d. destruct (Z.eqb_spec pos 0) as [Hp|]; [|done]. destruct (P8 c Hc) as (_ & _ & _ & H4 & _).
    rewrite lookup_insert_ne; [done|]. intros E. apply (Hfresh c Hc); [|done]. symmetry. apply SetFilename_inj; [lia|lia|done]. }
  set (s2 := mkCI d id (pos + size) (Z.max (no_block s) (block + 1)) vn vs vz (default_block_size s) id).
  exists s2. split.
  { unfold with_disk, open_file. cbn [disk]. unfold s2, d in *. destruct (Z.eqb_spec pos 0); [done|].
    destruct Hdid as [x Hx]. rewrite Hx. done. }
  assert (forall c, 0 <= c -> num s2 c = (if c =? block then id else num s c) /\ start s2 c = (if c =? block then pos else start s c) /\
            bsize s2 c = (if c =? block then size else bsize s c)) as Hf.
  { intros c Hc. unfold num, start, bsize. cbn [s2 file_number file_start file_size]. by rewrite Vn, Vs, Vz. }
  assert (forall c, is_Some (m !! c) -> c <> block -> num s2 c = num s c /\ start s2 c = start s c /\ bsize s2 c = bsize s c) as Hold.
  { intros c Hc Hne. destruct (P8 c Hc) as (H1 & _). destruct (Hf c) as (-> & -> & ->); [lia|]. by rewrite (proj2 (Z.eqb_neq c block)). }
  destruct (Hf block Hb) as (Fn & Fs & Fz). rewrite Z.eqb_refl in Fn, Fs, Fz.
  split; [constructor|]; cbn [s2 file_number file_start file_size no_block max_file_id max_file_pos cur_file_number disk]; try done; try lia.
  - right. split; [lia|done].
  - intros c Hc. destruct (decide (c = block)) as [->|Hne].
    + rewrite Fn, Fs, Fz. repeat (split; [lia|]). done.
    + destruct Hc as [Hc|]; [|done]. destruct (Hold c Hc Hne) as (-> & -> & ->). destruct (P8 c Hc) as (H1 & H2 & H3 & H4 & H5 & [x Hx]).
      split; [lia|]. split; [lia|]. split; [lia|]. split; [lia|]. split; [|eexists; by apply Hkeep].
      intros E. unfold id, pos in *. destruct new; [lia|]. specialize (H5 E). lia.
  - assert (forall c, is_Some (m !! c) -> c <> block -> apart s2 c block) as Hap.
    { intros c Hc Hne. destruct (Hold c Hc Hne) as (E1 & E2 & E3). destruct (P8 c Hc) as (H1 & H2 & H3 & H4 & H5 & _).
      unfold apart. rewrite E1, E2, E3, Fn, Fs, Fz. destruct (Z.eq_dec (num s c) id) as [E|]; [|by left]. right. left.
      unfold id, pos in *. destruct new; [lia|]. by apply H5. }
    intros b c Hbb Hc Hne. destruct (decide (b = block)) as [->|Hbne], (decide (c = block)) as [->|Hcne]; [done| | |].
    + destruct Hc as [Hc|]; [|done]. specialize (Hap c Hc Hcne). unfold apart in *. intuition congruence.
    + destruct Hbb as [Hbb|]; [|done]. by apply Hap.
    + destruct Hbb as [Hbb|]; [|done]. destruct Hc as [Hc|]; [|done]. unfold apart.
      destruct (Hold b Hbb Hbne) as (-> & -> & ->), (Hold c Hc Hcne) as (-> & -> & ->). by apply P9.
  - split; [|split; [done|split; [|split; [lia|done]]]].
    + intros c cs Hc. apply lookup_delete_Some in Hc as [Hne Hc]. destruct (Hold c (ex_intro _ _ Hc) (not_eq_sym Hne)) as (E1 & E2 & E3).
      destruct (HD c cs Hc) as (Ez & bytes & Hbytes & Hl & Hs). unfold stored_at. rewrite E1, E2, E3. split; [done|].
      exists bytes. split; [|done]. apply (Hkeep c); [by eexists|done].
    + intros c Hc Hne Hr. destruct (Hf c) as (_ & _ & ->); [lia|]. rewrite (proj2 (Z.eqb_neq c block)) by done.
      destruct (Z.lt_ge_cases c (no_block s)); [apply HE; [done|lia]|]. unfold bsize. apply znth_overflow. lia.
Qed.

(** ** What the operations promise *)

Lemma CI_Put_spec s m block data size :
  Stores s m -> 0 <= block -> 0 < size <= zlen data -> max_file_id s < 999999 ->
  exists s', CI_Put s block data size = Some s' /\ Stores s' (<[block := take (Z.to_nat size) data]> m) /\
    max_file_id s <= max_file_id s' <= max_file_id s + 1.
Proof.
  intros H Hb Hsz Hid. unfold CI_Put. destruct (Z.eqb_spec block (-1)); [lia|]. destruct (Z.eqb_spec size (-1)); [lia|].
  destruct (Z.leb_spec size 0); [lia|]. cbv zeta.
  assert (exists s1, (if (no_block (fill_blocks s block) <=? block) || negb (size =? (file_size (fill_blocks s block)).[0|block])
                      then new_place (fill_blocks s block) block size else Some (fill_blocks s block)) = Some s1 /\
    Places s1 (fun c => is_Some (m !! c) \/ c = block) /\ holds s1 (delete block m) /\ bsize s1 block = size /\
    (forall c, m !! c = None -> c <> block -> 0 <= c < no_block s1 -> bsize s1 c = 0) /\
    max_file_id s <= max_file_id s1 <= max_file_id s + 1) as (s1 & -> & HP & HD & Hz & HE & Hm).
  { destruct (new_place_spec s m block size H Hb ltac:(lia) Hid) as (s1 & E & HP & HD & Hz & HE & Hm & _).
    destruct (_ || _) eqn:Eo; [by exists s1|]. apply orb_false_iff in Eo as [En Es]. apply negb_false_iff, Z.eqb_eq in Es. apply Z.leb_gt in En. cbn [fill_blocks no_block] in En.
    assert (fill_blocks s block = s) as Ef.
    { unfold fill_blocks. replace (Z.to_nat (block - no_block s)) with 0%nat by lia. cbn [replicate]. rewrite !app_nil_r. by destruct s. }
    rewrite Ef in *. exists s. split; [done|]. destruct H as [HP' HD' HE'].
    assert (is_Some (m !! block)) as Hl.
    { destruct (m !! block) eqn:Em; [by eexists|]. specialize (HE' block Em ltac:(lia)). unfold bsize in HE'. lia. }
    split. { destruct HP' as [P1 P2 P3 P4 P5 P6 P7 P8 P9]. constructor; try done; [intros b [?| ->]; by apply P8|].
             intros b c Hbb Hc. apply P9; [by destruct Hbb as [?| ->]|by destruct Hc as [?| ->]]. }
    split; [intros c cs Hc; apply HD'; by apply lookup_delete_Some in Hc as [_ Hc]|]. split; [done|]. split; [|lia].
    intros c Hc _. by apply HE'. }
  cbn [mbind option_bind]. destruct (open_block_spec s1 _ block HP (or_intror eq_refl)) as (s2 & -> & Hcur & Hd & Hm2 & Hf & Hnb & _ & HP2).
  cbn [mbind option_bind]. destruct (pl_block _ _ HP2 block (or_intror eq_refl)) as (Hr & Hsz2 & Hst & _ & _ & [bytes Hbytes]).
  destruct (Hf block) as (Fn & Fs & Fz). rewrite Hcur, <- Fn, Hbytes. cbn [mbind option_bind]. fold (start s2 block) (bsize s2 block).
  unfold Seek_set. destruct (Z.ltb_spec (start s2 block) 0); [lia|]. cbn [mbind option_bind fbytes fpos]. rewrite Fz, Hz.
  set (bs := take (Z.to_nat size) data). assert (zlen bs = size) as Hbs by (unfold bs, zlen in *; rewrite length_take; lia).
  eexists. split; [reflexivity|]. split; [|cbn [with_disk max_file_id]; lia].
  assert (fbytes (WriteExact (mkFile bytes (start s2 block)) bs) = overwrite bytes (start s2 block) bs) as ->.
  { unfold WriteExact. destruct bs; [unfold zlen in Hbs; simpl in Hbs; lia|done]. }
  apply (write_block s2 m block bytes bs HP2); [|by rewrite Fz, Hz|done|].
  - intros c cs Hc. destruct (HD c cs Hc) as (E & by' & Hby & ?). destruct (Hf c) as (Gn & Gs & Gz). unfold stored_at. rewrite Gn, Gs, Gz, Hd. split; [done|]. by exists by'.
  - intros c Hc Hne Hcr. destruct (Hf c) as (_ & _ & ->). apply HE; [done|done|lia].
Qed.

Lemma CI_Get_spec s m block size off :
  Stores s m -> 0 <= block ->
  match m !! block with
  | Some bs => 0 <= size -> 0 <= off -> off + size < 2 ^ 31 ->
      if zlen bs <? off + size then CI_Get s block size off = Some (s, None)
      else exists s', CI_Get s block size off = Some (s', Some (slice bs off size)) /\ Stores s' m /\ max_file_id s' = max_file_id s
  | None => CI_Get s block size off = Some (s, None)
  end.
Proof.
  intros H Hb. unfold CI_Get. fold (bsize s block). destruct (m !! block) as [bs|] eqn:Em.
  - intros Hs Ho Hint. rewrite swrap_id by (unfold is_sword; lia). destruct (pl_block _ _ (st_places _ _ H) block (ex_intro _ _ Em)) as (Hr & Hsz & Hst & _).
    destruct (st_holds _ _ H block bs Em) as (Ez & bytes & Hbytes & Hl & Hsl). rewrite Ez in *.
    destruct (Z.leb_spec (no_block s) block); [lia|]. destruct (Z.leb_spec (zlen bs) 0); [lia|]. destruct (Z.leb_spec 0 size); [|lia]. cbn [orb andb].
    destruct (Z.ltb_spec (zlen bs) (off + size)); [done|].
    destruct (open_block_spec s _ block (st_places _ _ H) (ex_intro _ _ Em)) as (s2 & -> & Hcur & Hd & Hm2 & Hf & Hnb & Hdef & HP2).
    cbn [mbind option_bind]. destruct (Z.ltb_spec size 0); [lia|]. rewrite Hd, Hcur, Hbytes. cbn [mbind option_bind]. fold (start s2 block).
    destruct (Hf block) as (_ & -> & _). unfold Seek_set. destruct (Z.ltb_spec (start s block + off) 0); [lia|]. cbn [mbind option_bind fbytes fpos].
    exists s2. split; [|split; [|done]].
    + do 3 f_equal. rewrite <- Hsl. rewrite slice_slice; [done|lia..].
    + constructor; [done| |].
      * intros c cs Hc. destruct (st_holds _ _ H c cs Hc) as (E & by' & Hby & ?). destruct (Hf c) as (Gn & Gs & Gz). unfold stored_at. rewrite Gn, Gs, Gz, Hd. split; [done|]. by exists by'.
      * intros c Hc Hcr. destruct (Hf c) as (_ & _ & ->). apply (st_empty _ _ H); [done|lia].
  - destruct (Z.leb_spec (no_block s) block); [done|]. rewrite (st_empty _ _ H block Em) by lia. done.
Qed.

(** C15: the temporary files of an object are a map from block numbers to bytes: a block put is
    added to the map, replacing the block of that number and no other, a part of a block is read
    back, and a block that is missing or too short gives the answer -1.  The numbers are those of
    an [int]: the end of the part that is asked for is below [2 ^ 31], since the sum of the offset
    and the size would overflow otherwise, and there are less than a million files. *)
Theorem CacheableItem_refines_map (s : CacheableItem) (m : gmap Z (list Z)) (block : Z)
    (H : Stores s m) (Hb : 0 <= block < 2 ^ 31 - 1) (Hid : max_file_id s < 999999) :
  (forall data size, 0 < size <= zlen data -> size < 2 ^ 31 ->
     exists s', CI_Put s block data size = Some s' /\ Stores s' (<[block := take (Z.to_nat size) data]> m)) /\
  (forall size off, 0 <= size -> 0 <= off -> off + size < 2 ^ 31 ->
     match m !! block with
     | Some bs => if zlen bs <? off + size then CI_Get s block size off = Some (s, None)
                  else exists s', CI_Get s block size off = Some (s', Some (slice bs off size)) /\ Stores s' m
     | None => CI_Get s block size off = Some (s, None)
     end).
Proof.
  split.
  - intros data size Hsz _. destruct (CI_Put_spec s m block data size H ltac:(lia) Hsz Hid) as (s' & E & Hs & _). by exists s'.
  - intros size off Hsz Ho Hint. pose proof (CI_Get_spec s m block size off H ltac:(lia)) as G. destruct (m !! block) as [bs|]; [|done].
    specialize (G Hsz Ho Hint). destruct (zlen bs <? off + size); [done|]. destruct G as (s' & E & Hs & _). by exists s'.
Qed.

Lemma CacheableItem_refines_map_witness :
  (exists s', CI_Put (CI_new ∅ (-1)) 2 [10; 20; 30; 40] 3 = Some s' /\ Stores s' (<[2 := [10; 20; 30]]> ∅)) /\
  (s ← CI_Put (CI_new ∅ (-1)) 2 [10; 20; 30; 40] 3; s ← CI_Put s 0 [7; 8] 2; p ← CI_Get s 2 2 1; snd p) = Some [20; 30].
Proof.
  split; [|vm_compute; reflexivity].
  apply (proj1 (CacheableItem_refines_map (CI_new ∅ (-1)) ∅ 2 (Stores_new ∅ (-1)) ltac:(lia) ltac:(cbn; lia)) [10; 20; 30; 40] 3); [unfold zlen; simpl|]; lia.
Defined.

(** The check of [CI_Get] lets a part of 2147483647 bytes at offset 1 of any block pass, since the sum
    of the two is negative: the bytes are read, whatever the size of the block. *)
Theorem CI_Get_sum_wraps (s : CacheableItem) (m : gmap Z (list Z)) (block : Z) (bs : list Z) :
  Stores s m -> 0 <= block -> m !! block = Some bs -> exists s' r, CI_Get s block (2 ^ 31 - 1) 1 = Some (s', Some r).
Proof.
  intros H Hb Em. destruct (pl_block _ _ (st_places _ _ H) block (ex_intro _ _ Em)) as (Hr & Hsz & Hst & _).
  destruct (st_holds _ _ H block bs Em) as (Ez & bytes & Hbytes & _). unfold CI_Get. fold (bsize s block).
  change (swrap 32 (1 + (2 ^ 31 - 1))) with (- 2 ^ 31). change (0 <=? 2 ^ 31 - 1) with true. change (2 ^ 31 - 1 <? 0) with false.
  destruct (Z.leb_spec (no_block s) block); [lia|]. destruct (Z.leb_spec (bsize s block) 0); [lia|]. destruct (Z.ltb_spec (bsize s block) (- 2 ^ 31)); [lia|]. cbn [orb andb].
  destruct (open_block_spec s _ block (st_places _ _ H) (ex_intro _ _ Em)) as (s2 & -> & Hcur & Hd & _ & Hf & _).
  cbn [mbind option_bind]. rewrite Hd, Hcur, Hbytes. cbn [mbind option_bind]. fold (start s2 block). destruct (Hf block) as (_ & -> & _).
  unfold Seek_set. destruct (Z.ltb_spec (start s block + 1) 0); [lia|]. by eexists _, _.
Qed.

(** The file names have six digits: the file 1000000 is the file 0. *)
Theorem SetFilename_wraps : SetFilename 1000000 = SetFilename 0.
Proof. reflexivity. Qed.

(** ** The interface of a store of blocks *)

(** A store represents a map from block numbers to bytes; [n] blocks can still be put. *)
Class BlockStore (St : Type) := {
  put_block : St -> Z -> list Z -> option St;
  get_block : St -> Z -> Z -> Z -> option (St * option (list Z));
  represents : St -> gmap Z (list Z) -> Z -> Prop;
  put_block_spec : forall s m n b bs, represents s m n -> 0 < n -> 0 <= b -> bs <> [] ->
    exists s', put_block s b bs = Some s' /\ represents s' (<[b := bs]> m) (n - 1);
  get_block_spec : forall s m n b bs size off, represents s m n -> m !! b = Some bs -> 0 <= b -> 0 <= size -> 0 <= off -> off + size <= zlen bs -> zlen bs < 2 ^ 31 ->
    exists s', get_block s b size off = Some (s', Some (slice bs off size)) /\ represents s' m n
}.

#[global] Program Instance CacheableItem_BlockStore : BlockStore CacheableItem := {
  put_block s b bs := CI_Put s b bs (zlen bs);
  get_block s b size off := CI_Get s b size off;
  represents s m n := Stores s m /\ max_file_id s + n <= 999999
}.
Next Obligation.
  intros s m n b bs [H Hn] Hpos Hb Hbs. assert (0 < zlen bs) by (unfold zlen; destruct bs; [done|simpl; lia]).
  destruct (CI_Put_spec s m b bs (zlen bs) H Hb ltac:(lia) ltac:(lia)) as (s' & E & Hs & Hm). exists s'. split; [done|].
  rewrite take_ge in Hs by (unfold zlen; lia). split; [done|lia].
Qed.
Next Obligation.
  intros s m n b bs size off [H Hn] Hm Hb Hs Ho Hl Hint. pose proof (CI_Get_spec s m b size off H Hb) as G. rewrite Hm in G. specialize (G Hs Ho ltac:(lia)).
  destruct (Z.ltb_spec (zlen bs) (off + size)); [lia|]. destruct G as (s' & E & Hst & Hid). exists s'. split; [done|]. split; [done|lia].
Qed.
