(* ===== verification/SorterMulti.v ===== *)
(** * Sorting more rows than fit the memory (core/Sorter3.h, core/Sorter3.cpp)

    [SorterMultiPass] sorts full buffers, puts them to disk as blocks and merges the blocks with a
    priority queue; each block has a part of the buffer, which is loaded again when all its rows
    are read.  The queue holds pointers into the buffer, so the row of the last pointer is saved
    in [last_row] before its part of the buffer is overwritten.

    Positions in the buffer are counted in rows of [total_bytes] bytes.  The code keeps the sizes
    and offsets of blocks as [int]s that count bytes, all of them multiples of [total_bytes]: a
    number of rows whose bytes do not fit an [int] is [SFault] where the code converts or
    multiplies it (when a block is stored, and when the buffer is divided). *)

From Stdlib Require Import Sorted.
From stdpp Require Import gmap relations.
From S2P Require Import Prelude ByteFile QSort KeyOrder Sorter CacheItem.

Section Multi.
Context {St : Type} `{BlockStore St} (key_bytes : nat) (total_bytes : Z).
Context (rand : Z -> nat -> Z) (killed : Z -> nat -> bool) (killed_load : nat -> Z -> bool).

(** The choice of [std::priority_queue]: the index of an element on top, which may depend on the
    history (the number of the call). *)
Context (pick : nat -> list row -> nat).

(** Sizes and offsets in rows.  The special values of [read_offset]: -1 for a buffer to be loaded, -2 for the end of the block. *)
Record BlockDescription := mkBD {
  block_size : Z;
  file_offset : Z;
  block_start : Z;
  read_offset : Z;
  buf_size : Z
}.

Record Multi := mkMP {
  msize : Z;
  mpass : OnePass;
  no_blocks : Z;
  blocks : list BlockDescription;
  mheap : list (Z * Z);        (* Keyblock: the block and the row of the buffer *)
  last_row : row;
  store : St;
  pops : nat
}.

Definition Multi_new (mem : list row) (queue : list Z) (s : St) : Multi :=
  mkMP (zlen mem) (OnePass_new mem queue) 0 [] [] [] s 0.

Definition with_pass (s : Multi) (p : OnePass) : Multi :=
  mkMP (msize s) p (no_blocks s) (blocks s) (mheap s) (last_row s) (store s) (pops s).

(** The bytes of [n] rows are an [int]. *)
Definition int_bytes (n : Z) : bool := fits_int (n * total_bytes).

(** The rows of the buffer are sorted and put to disk as the next block of
    [int(buf_input_pos - buf)] bytes. *)
Definition store_block (s : Multi) : sres Multi :=
  let p := mpass s in
  r <~ QuickSort key_bytes (buf p) (buf_input_pos p) (bound_queue p) (rand (no_blocks s)) (killed (no_blocks s));
  let '(a, q) := r in
  if negb (int_bytes (buf_input_pos p)) then SFault
  else
  st <~ of_option (put_block (store s) (no_blocks s) (concat (take (Z.to_nat (buf_input_pos p)) a)));
  SOk (mkMP (msize s) (mkOP a (buf_input_pos p) (buf_output_pos p) q (already_sorted p)) (no_blocks s + 1)
         (blocks s ++ [mkBD (buf_input_pos p) 0 0 (-1) 0]) (mheap s) (last_row s) st (pops s)).

Definition Multi_PutValue (s : Multi) (b : row) : sres (Multi * bool) :=
  s <~ (if buf_input_pos (mpass s) =? msize s then
          s <~ store_block s;
          let p := mpass s in SOk (with_pass s (mkOP (buf p) 0 (buf_output_pos p) (bound_queue p) (already_sorted p)))
        else SOk s);
  let p := mpass s in
  if negb (buf_input_pos p <? zlen (buf p)) then SFault
  else SOk (with_pass s (mkOP (buf p).[buf_input_pos p <- b] (buf_input_pos p + 1) (buf_output_pos p) (bound_queue p) false), true).

Definition rows_of_bytes (n : Z) (bs : list Z) : list row := map (fun i => slice bs (i * total_bytes) total_bytes) (range 0 (n - 1)).

Definition put_rows (a : list row) (o : Z) (rows : list row) : list row :=
  take (Z.to_nat o) a ++ rows ++ drop (Z.to_nat o + length rows) a.

(** What [CI_Get] reads goes to the buffer of the block. *)
Definition load (a : list row) (st : St) (b o n off : Z) : sres (list row * St) :=
  if negb ((0 <=? o) && (o + n <=? zlen a)) then SFault
  else
    p <~ of_option (get_block st b (n * total_bytes) (off * total_bytes));
    match p with
    | (st, Some bs) => SOk (put_rows a o (rows_of_bytes n bs), st)
    | (st, None) => SOk (a, st)
    end.

Definition set_block (s : Multi) (b : Z) (d : BlockDescription) : Multi :=
  mkMP (msize s) (mpass s) (no_blocks s) (blocks s).[b <- d] (mheap s) (last_row s) (store s) (pops s).

Definition no_desc : BlockDescription := mkBD 0 0 0 (-2) 0.

(** The next row of a block that is in the buffer. *)
Definition next_in_buffer (s : Multi) (b : Z) : Multi * option Z :=
  let d := (blocks s).[no_desc|b] in
  let r := read_offset d + 1 in
  (set_block s b (mkBD (block_size d) (file_offset d) (block_start d) (if buf_size d <=? r then -1 else r) (buf_size d)),
   Some (block_start d + read_offset d)).

(** The next row of a block; the last result tells whether the last row was saved. *)
Definition GetFromBlock (s : Multi) (b : Z) : sres (Multi * option Z * bool) :=
  let d := (blocks s).[no_desc|b] in
  if read_offset d =? -2 then SOk (s, None, false)
  else if read_offset d =? -1 then
    let p := mpass s in
    let reloaded := 0 <? file_offset d in
    let s := if reloaded then mkMP (msize s) p (no_blocks s) (blocks s) (mheap s) (buf p).[[]|block_start d + buf_size d - 1] (store s) (pops s) else s in
    let n := Z.min (block_size d - file_offset d) (buf_size d) in
    if n <=? 0 then SOk (set_block s b (mkBD (block_size d) (file_offset d) (block_start d) (-2) (buf_size d)), None, reloaded)
    else
      r <~ load (buf p) (store s) b (block_start d) n (file_offset d);
      if killed_load (pops s) b then SKilled
      else
        let s := mkMP (msize s) (mkOP (fst r) (buf_input_pos p) (buf_output_pos p) (bound_queue p) (already_sorted p)) (no_blocks s)
                   (blocks s).[b <- mkBD (block_size d) (file_offset d + n) (block_start d) 0 n] (mheap s) (last_row s) (snd r) (pops s) in
        let '(s, rec) := next_in_buffer s b in SOk (s, rec, reloaded)
  else let '(s, rec) := next_in_buffer s b in SOk (s, rec, false).

Definition push (s : Multi) (b : Z) (rec : option Z) : Multi :=
  match rec with
  | Some r => mkMP (msize s) (mpass s) (no_blocks s) (blocks s) (mheap s ++ [(b, r)]) (last_row s) (store s) (pops s)
  | None => s
  end.

(** The parts of the buffer for the blocks [i], ...; the last block has the rest of the buffer. *)
Fixpoint init_blocks (ids : list Z) (s : Multi) (standard last : Z) : sres Multi :=
  match ids with
  | [] => SOk s
  | i :: rest =>
      let d := (blocks s).[no_desc|i] in
      let s := set_block s i (mkBD (block_size d) (file_offset d) (i * standard) (read_offset d)
                                (if i <? no_blocks s - 1 then standard else last)) in
      p <~ GetFromBlock s i;
      let '(s, rec, _) := p in init_blocks rest (push s i rec) standard last
  end.

(** A new buffer has no contents yet.  The sizes in bytes: of the buffer ([size * total_bytes]) and
    of its parts ([3 * total_bytes * no_blocks], [i * standard_buf_size] and
    [standard_buf_size * (no_blocks - 1)] are at most the bytes of [n * no_blocks] rows). *)
Definition InitHeap (s : Multi) : sres Multi :=
  if no_blocks s =? 0 then SFault
  else
    let n := msize s / no_blocks s in
    let '(n, a) := if n <? 3 then (3, replicate (Z.to_nat (3 * no_blocks s)) []) else (n, buf (mpass s)) in
    if negb (int_bytes (msize s) && int_bytes (n * no_blocks s)) then SFault
    else
    let p := mpass s in
    let s := with_pass s (mkOP a (buf_input_pos p) (buf_output_pos p) (bound_queue p) (already_sorted p)) in
    init_blocks (range 0 (no_blocks s - 1)) s n (msize s - n * (no_blocks s - 1)).

Definition Multi_GetNextValue (s : Multi) : sres (Multi * option row) :=
  s <~ (if negb (already_sorted (mpass s)) then
          s <~ store_block s;
          s <~ InitHeap s;
          let p := mpass s in SOk (with_pass s (mkOP (buf p) (buf_input_pos p) (buf_output_pos p) (bound_queue p) true))
        else SOk s);
  match mheap s with
  | [] => SOk (s, None)
  | _ =>
      let k := pick (pops s) (map (fun e => (buf (mpass s)).[[]|snd e]) (mheap s)) in
      match mheap s !! k with
      | None => SFault
      | Some (b, res) =>
          let s := mkMP (msize s) (mpass s) (no_blocks s) (blocks s) (delete k (mheap s)) (last_row s) (store s) (S (pops s)) in
          p <~ GetFromBlock s b;
          let '(s, rec, reloaded) := p in
          let s := push s b rec in
          SOk (s, Some (if (reloaded : bool) then last_row s else (buf (mpass s)).[[]|res]))
      end
  end.

Definition Multi_Rewind (s : Multi) : sres Multi :=
  InitHeap (mkMP (msize s) (mpass s) (no_blocks s)
              (map (fun d => mkBD (block_size d) 0 (block_start d) (-1) (buf_size d)) (blocks s)) [] (last_row s) (store s) (pops s)).

Definition SorterMultiPass : Sorter3 := mkSorter Multi Multi_PutValue Multi_GetNextValue.

(** ** Rows as bytes *)

Context (Htotal : 0 < total_bytes).

Definition uniform (R : list row) : Prop := Forall (fun r => length r = Z.to_nat total_bytes) R.

Lemma concat_drop R : uniform R -> forall k, drop (k * Z.to_nat total_bytes) (concat R) = concat (drop k R).
Proof.
  induction 1 as [|r R Hr _ IH]; intros k; [by cbn [concat]; rewrite !drop_nil|]. destruct k as [|k]; [done|].
  cbn [drop concat]. rewrite drop_app_ge by (rewrite Hr; lia). rewrite Hr. replace (S k * Z.to_nat total_bytes - Z.to_nat total_bytes)%nat with (k * Z.to_nat total_bytes)%nat by lia. apply IH.
Qed.

Lemma length_concat_uniform R : uniform R -> length (concat R) = (length R * Z.to_nat total_bytes)%nat.
Proof. induction 1 as [|r R Hr _ IH]; [done|]. cbn [concat length]. rewrite length_app, IH, Hr. lia. Qed.

Lemma concat_take R : uniform R -> forall k, take (k * Z.to_nat total_bytes) (concat R) = concat (take k R).
Proof.
  induction 1 as [|r R Hr _ IH]; intros k; [by cbn [concat]; rewrite !take_nil|]. destruct k as [|k]; [done|].
  cbn [take concat]. rewrite take_app_ge by (rewrite Hr; lia). rewrite Hr. replace (S k * Z.to_nat total_bytes - Z.to_nat total_bytes)%nat with (k * Z.to_nat total_bytes)%nat by lia. by rewrite IH.
Qed.

Lemma rows_of_bytes_concat R : uniform R -> rows_of_bytes (zlen R) (concat R) = R.
Proof.
  intros HR. apply (znth_ext []).
  - unfold rows_of_bytes, range, zlen. rewrite length_map, length_seqZ. lia.
  - intros i Hi. assert (0 <= i < zlen R) as Hi' by (unfold rows_of_bytes, range, zlen in *; rewrite length_map, length_seqZ in Hi; lia).
    unfold rows_of_bytes, range. pose proof (list_lookup_fmap (fun i => slice (concat R) (i * total_bytes) total_bytes) (seqZ 0 (zlen R - 1 - 0 + 1)) (Z.to_nat i)) as E.
    rewrite lookup_seqZ_lt in E by lia. cbn [fmap option_fmap option_map] in E. apply (znth_lookup_Some []) in E. rewrite Z2Nat.id in E by lia.
    etransitivity; [exact E|]. unfold slice. rewrite Z.add_0_l, Z2Nat.inj_mul by lia. rewrite concat_drop by done.
    pose proof (znth_lookup [] R i Hi') as Er. rewrite (drop_S _ _ _ Er). cbn [concat].
    assert (length R.[[]|i] = Z.to_nat total_bytes) as Hl by (unfold uniform in HR; rewrite Forall_forall in HR; apply HR; eapply list_elem_of_lookup_2; exact Er).
    by rewrite take_app_le, take_ge by lia.
Qed.

Lemma uniform_take R k : uniform R -> uniform (take k R).
Proof. apply Forall_take. Qed.

Lemma uniform_drop R k : uniform R -> uniform (drop k R).
Proof. apply Forall_drop. Qed.

(** The rows of a block whose bytes are an [int]. *)
Definition block_rows (R : list row) : Prop := uniform R /\ zlen R * total_bytes < 2 ^ 31.

Lemma int_bytes_true n k : 0 <= n <= k -> k * total_bytes < 2 ^ 31 -> int_bytes n = true.
Proof. intros Hn Hk. unfold int_bytes, fits_int. assert (0 <= n * total_bytes <= k * total_bytes) by nia. cmp_solve. Qed.

(** The part of a block that is read is the rows of the part. *)
Lemma rows_of_part R off n :
  uniform R -> 0 <= off -> 0 <= n -> off + n <= zlen R ->
  rows_of_bytes n (slice (concat R) (off * total_bytes) (n * total_bytes)) = take (Z.to_nat n) (drop (Z.to_nat off) R).
Proof.
  intros HR Ho Hn Hl. unfold slice. rewrite !Z2Nat.inj_mul by lia. rewrite concat_drop, concat_take by (done || by apply uniform_drop).
  set (Q := take (Z.to_nat n) (drop (Z.to_nat off) R)). replace n with (zlen Q) by (unfold Q, zlen in *; rewrite length_take, length_drop; lia).
  apply rows_of_bytes_concat. by apply uniform_take, uniform_drop.
Qed.

Lemma zlen_put_rows a o rows : 0 <= o -> o + zlen rows <= zlen a -> zlen (put_rows a o rows) = zlen a.
Proof. intros Ho Hl. unfold put_rows, zlen in *. rewrite !length_app, length_take, length_drop. lia. Qed.

Lemma znth_put_rows a o rows k : 0 <= o -> o + zlen rows <= zlen a -> 0 <= k ->
  (put_rows a o rows).[[]|k] = if (o <=? k) && (k <? o + zlen rows) then rows.[[]|k - o] else a.[[]|k].
Proof.
  intros Ho Hl Hk. unfold put_rows. assert (zlen (take (Z.to_nat o) a) = o) as Ht by (unfold zlen in *; rewrite length_take; lia).
  pose proof (zlen_nonneg rows). case_cmp; cbn [andb]; try lia.
  - rewrite znth_app_r, znth_app_l by lia. by rewrite Ht.
  - rewrite znth_app_l by lia. by apply znth_take.
  - rewrite znth_app_r by lia. rewrite Ht. rewrite znth_app_r by lia. replace (Z.to_nat o + length rows)%nat with (Z.to_nat (o + zlen rows)) by (unfold zlen; lia). rewrite znth_drop by lia. f_equal. lia.
Qed.

Lemma load_spec a st m c b o n off R :
  represents st m c -> m !! b = Some (concat R) -> block_rows R -> 0 <= b -> 0 <= o -> o + n <= zlen a -> 0 < n -> 0 <= off -> off + n <= zlen R ->
  exists st', load a st b o n off = SOk (put_rows a o (take (Z.to_nat n) (drop (Z.to_nat off) R)), st') /\ represents st' m c.
Proof.
  intros Hst Hm [HR Hbytes] Hb Ho Hoa Hn Hoff Hl. unfold load. destruct (Z.leb_spec 0 o); [|lia]. destruct (Z.leb_spec (o + n) (zlen a)); [|lia]. cbn [andb negb].
  destruct (get_block_spec st m c b (concat R) (n * total_bytes) (off * total_bytes) Hst Hm Hb) as (st' & -> & Hst'); [nia|nia| | |].
  1, 2: unfold zlen in *; rewrite length_concat_uniform by done; nia.
  exists st'. cbn [of_option sbind]. by rewrite rows_of_part by (done || lia).
Qed.

(** ** Reading a block *)

(** The buffer of the block has the rows before its position in the file. *)
Definition loaded (a : list row) (d : BlockDescription) (R : list row) : Prop :=
  buf_size d <= file_offset d /\
  forall k, 0 <= k < buf_size d -> a.[[]|block_start d + k] = R.[[]|file_offset d - buf_size d + k].

(** A block with the rows [R] of which [g] have been given; its part of the buffer has [cap] rows. *)
Record Reading (a : list row) (d : BlockDescription) (R : list row) (g cap : Z) : Prop := {
  rd_size : block_size d = zlen R;
  rd_offset : 0 <= file_offset d <= zlen R;
  rd_start : 0 <= block_start d;
  rd_end : block_start d + cap <= zlen a;
  rd_given : 0 <= g <= zlen R;
  rd_state : read_offset d = -2 /\ g = zlen R \/
             1 <= buf_size d <= cap /\
               (read_offset d = -1 /\ g = file_offset d /\ (0 < file_offset d -> loaded a d R) \/
                0 <= read_offset d < buf_size d /\ g = file_offset d - buf_size d + read_offset d /\ loaded a d R)
}.

(** What a step on a block leaves as it is. *)
Definition same_but_block (s s' : Multi) (b : Z) (d' : BlockDescription) (cap : Z) : Prop :=
  msize s' = msize s /\ no_blocks s' = no_blocks s /\ mheap s' = mheap s /\ pops s' = pops s /\
  blocks s' = (blocks s).[b <- d'] /\ block_start d' = block_start (blocks s).[no_desc|b] /\
  buf_input_pos (mpass s') = buf_input_pos (mpass s) /\ bound_queue (mpass s') = bound_queue (mpass s) /\
  already_sorted (mpass s') = already_sorted (mpass s) /\ zlen (buf (mpass s')) = zlen (buf (mpass s)) /\
  (forall k, 0 <= k -> k < block_start d' \/ block_start d' + cap <= k -> (buf (mpass s')).[[]|k] = (buf (mpass s)).[[]|k]).

(** A row in the buffer. *)
Lemma next_in_buffer_spec s b R g cap :
  let d := (blocks s).[no_desc|b] in
  0 <= b < zlen (blocks s) -> Reading (buf (mpass s)) d R g cap -> 0 <= read_offset d ->
  exists d', let s' := fst (next_in_buffer s b) in
    snd (next_in_buffer s b) = Some (block_start d + read_offset d) /\ same_but_block s s' b d' cap /\ buf (mpass s') = buf (mpass s) /\
    store s' = store s /\ last_row s' = last_row s /\
    g < zlen R /\ block_start d <= block_start d + read_offset d < block_start d + cap /\
    (buf (mpass s)).[[]|block_start d + read_offset d] = R.[[]|g] /\ Reading (buf (mpass s)) d' R (g + 1) cap.
Proof.
  intros d Hb [H1 H2 H3 H4 H5 H6] Hr. destruct H6 as [[E _]|[Hbs [[E _]|(Hro & Hg & Hl)]]]; [lia|lia|].
  assert (g < zlen R) by lia. eexists. unfold next_in_buffer. fold d. cbn [fst snd]. split; [done|]. split; [repeat split|].
  split; [done|]. split; [done|]. split; [done|]. split; [done|]. split; [lia|].
  split; [rewrite (proj2 Hl) by lia; f_equal; lia|].
  constructor; cbn [block_size file_offset block_start]; try done; try lia. right. cbn [buf_size read_offset]. split; [done|].
  destruct (Z.leb_spec (buf_size d) (read_offset d + 1)); [left|right]; (split; [lia|]); (split; [lia|]); [intros _|]; exact Hl.
Qed.

Lemma same_but_block_buffered s s1 s2 b d1 d2 cap :
  0 <= b < zlen (blocks s) -> same_but_block s s1 b d1 cap -> same_but_block s1 s2 b d2 cap -> same_but_block s s2 b d2 cap.
Proof.
  intros Hb (A1 & A2 & A3 & A4 & A5 & A6 & A7 & A8 & A9 & A10 & A11) (B1 & B2 & B3 & B4 & B5 & B6 & B7 & B8 & B9 & B10 & B11).
  assert (block_start d2 = block_start d1) as E by (rewrite B6, A5, znth_zupd_eq by done; done).
  repeat split; try congruence.
  - rewrite B5, A5. unfold zupd. destruct (Z.ltb_spec b 0); [done|]. by rewrite list_insert_insert_eq.
  - intros k Hk Hout. rewrite B11 by done. apply A11; [done|lia].
Qed.

Lemma GetFromBlock_spec s b R g cap m c :
  let d := (blocks s).[no_desc|b] in
  0 <= b < zlen (blocks s) -> Reading (buf (mpass s)) d R g cap -> represents (store s) m c -> m !! b = Some (concat R) -> block_rows R ->
  (GetFromBlock s b = SKilled /\ killed_load (pops s) b = true) \/
  exists s' rec reloaded d', GetFromBlock s b = SOk (s', rec, reloaded) /\ same_but_block s s' b d' cap /\ represents (store s') m c /\
    (reloaded = true -> 0 < g /\ last_row s' = R.[[]|g - 1]) /\ (reloaded = false -> 0 < g -> buf (mpass s') = buf (mpass s)) /\
    match rec with
    | None => g = zlen R /\ Reading (buf (mpass s')) d' R g cap
    | Some r => g < zlen R /\ block_start d' <= r < block_start d' + cap /\ (buf (mpass s')).[[]|r] = R.[[]|g] /\ Reading (buf (mpass s')) d' R (g + 1) cap
    end.
Proof.
  intros d Hb Hrd Hst Hm HR. pose proof Hrd as [H1 H2 H3 H4 H5 H6]. unfold GetFromBlock. fold d.
  assert ((blocks s).[b <- d] = blocks s) as Eid by (by apply zupd_id).
  destruct (Z.eqb_spec (read_offset d) (-2)) as [E2|Hn2].
  { right. exists s, None, false, d. split; [done|]. destruct H6 as [[_ Hg]|[? [[? _]|[? _]]]]; [|lia|lia].
    split; [repeat split; done|]. split; [done|]. split; [done|]. split; [done|]. split; [done|done]. }
  destruct (Z.eqb_spec (read_offset d) (-1)) as [E1|Hn1].
  2: { right. destruct H6 as [[? _]|[Hbs [[? _]|(Hro & Hg & Hl)]]]; [lia|lia|].
       destruct (next_in_buffer_spec s b R g cap Hb Hrd ltac:(fold d; lia)) as (d' & En & Hsame & Hbuf & Hstore & Hlast & Hlt & Hin & Hval & Hrd').
       fold d in En, Hin, Hval. destruct (next_in_buffer s b) as [s' rec]. cbn [fst snd] in *. subst rec.
       exists s', (Some (block_start d + read_offset d)), false, d'. split; [done|]. split; [done|]. rewrite Hbuf, Hstore.
       split; [done|]. split; [done|]. split; [done|]. split; [done|]. assert (block_start d' = block_start d) as -> by apply Hsame. done. }
  destruct H6 as [[? _]|[Hbs [(_ & Hg & Hl)|[? _]]]]; [lia| |lia].
  set (reloaded := 0 <? file_offset d).
  set (s1 := if reloaded then _ else s).
  assert (buf (mpass s1) = buf (mpass s) /\ blocks s1 = blocks s /\ store s1 = store s /\ mpass s1 = mpass s /\ pops s1 = pops s /\ msize s1 = msize s /\ no_blocks s1 = no_blocks s /\ mheap s1 = mheap s) as (B1 & B2 & B3 & B4 & B5 & B6 & B7 & B8)
    by (unfold s1; by destruct reloaded).
  assert (reloaded = true -> 0 < g /\ last_row s1 = R.[[]|g - 1]) as Hlast.
  { intros E. unfold s1. rewrite E. cbn [last_row]. unfold reloaded in E. apply Z.ltb_lt in E. split; [lia|]. destruct (Hl E) as [Hle Hv].
    replace (block_start d + buf_size d - 1) with (block_start d + (buf_size d - 1)) by lia. rewrite Hv by lia. f_equal. lia. }
  assert (reloaded = false -> g = 0) as Hnot by (unfold reloaded; intros E; apply Z.ltb_ge in E; lia).
  destruct (Z.leb_spec (Z.min (block_size d - file_offset d) (buf_size d)) 0) as [Hend|Hmore].
  - right. eexists _, None, reloaded, _. split; [reflexivity|]. unfold same_but_block, set_block. cbn [msize no_blocks mheap pops blocks block_start mpass buf_input_pos bound_queue already_sorted buf store last_row].
    rewrite B2, B3, B4, B5, B6, B7, B8. split; [repeat split; done|]. split; [done|]. split; [done|]. split; [intros E; specialize (Hnot E); lia|].
    split; [lia|]. constructor; cbn [block_size file_offset block_start]; try done. left. cbn [read_offset]. split; [done|lia].
  - set (n := Z.min (block_size d - file_offset d) (buf_size d)) in *. rewrite B3.
    assert (n <= buf_size d /\ n <= block_size d - file_offset d) as [Hn1' Hn2'] by (unfold n; lia). clearbody n.
    destruct (load_spec (buf (mpass s)) (store s) m c b (block_start d) n (file_offset d) R) as (st' & -> & Hst'); try done; try lia.
    cbn [sbind fst snd]. rewrite B5. destruct (killed_load (pops s) b) eqn:Ek; [by left|]. right.
    set (Q := take (Z.to_nat n) (drop (Z.to_nat (file_offset d)) R)).
    assert (zlen Q = n) as HQ by (unfold Q, zlen in *; rewrite length_take, length_drop; lia).
    set (d1 := mkBD (block_size d) (file_offset d + n) (block_start d) 0 n).
    set (s2 := mkMP _ _ _ _ _ _ _ _).
    assert (buf (mpass s2) = put_rows (buf (mpass s)) (block_start d) Q) as Ebuf by done.
    assert (forall k, 0 <= k < n -> (buf (mpass s2)).[[]|block_start d + k] = R.[[]|file_offset d + k]) as Hvals.
    { intros k Hk. rewrite Ebuf, znth_put_rows by lia. destruct (Z.leb_spec (block_start d) (block_start d + k)); [|lia].
      destruct (Z.ltb_spec (block_start d + k) (block_start d + zlen Q)); [|lia]. cbn [andb]. replace (block_start d + k - block_start d) with k by lia.
      unfold Q. rewrite znth_take, znth_drop by lia. done. }
    assert (same_but_block s s2 b d1 cap) as Hsame.
    { assert (zlen (buf (mpass s2)) = zlen (buf (mpass s))) as Hlen by (rewrite Ebuf, zlen_put_rows; lia).
      assert (forall k, 0 <= k -> k < block_start d1 \/ block_start d1 + cap <= k -> (buf (mpass s2)).[[]|k] = (buf (mpass s)).[[]|k]) as Hout.
      { intros k Hk Hout. change (block_start d1) with (block_start d) in Hout. rewrite Ebuf, znth_put_rows by lia. case_cmp; cbn [andb]; done || lia. }
      unfold same_but_block. split; [done|]. split; [done|]. split; [done|]. split; [done|]. split; [cbn [s2 blocks]; by rewrite B2|]. done. }
    assert ((blocks s2).[no_desc|b] = d1) as Ed1 by (cbn [s2 blocks]; rewrite B2; by rewrite znth_zupd_eq by done).
    assert (Reading (buf (mpass s2)) d1 R g cap) as Hrd1.
    { constructor; cbn [d1 block_size file_offset block_start]; try done; try lia.
      { rewrite Ebuf, zlen_put_rows; lia. }
      right. cbn [d1 buf_size read_offset]. split; [lia|]. right. split; [lia|]. split; [lia|].
      split; cbn [d1 buf_size file_offset block_start]; [lia|]. intros k Hk. rewrite Hvals by lia. f_equal. lia. }
    assert (0 <= b < zlen (blocks s2)) as Hb2 by (cbn [s2 blocks]; rewrite B2, zlen_zupd; done).
    pose proof (next_in_buffer_spec s2 b R g cap Hb2) as Hnx. rewrite Ed1 in Hnx. destruct (Hnx Hrd1 ltac:(done)) as (d' & En & Hsame2 & Hbuf & Hstore & Hlast2 & Hlt & Hin & Hval & Hrd').
    destruct (next_in_buffer s2 b) as [s' rec]. cbn [fst snd] in *. subst rec.
    exists s', (Some (block_start d1 + read_offset d1)), reloaded, d'. split; [done|].
    split; [by apply (same_but_block_buffered s s2 s' b d1 d' cap)|]. rewrite Hbuf, Hstore, Hlast2. split; [done|]. split; [done|].
    split; [intros E; specialize (Hnot E); lia|]. split; [done|]. assert (block_start d' = block_start d1) as -> by (destruct Hsame2 as (_ & _ & _ & _ & _ & E & _); by rewrite E, Ed1). done.
Qed.

(** The sizes do not change. *)
Definition same_size (s s' : Multi) : Prop := msize s' = msize s /\ zlen (buf (mpass s')) = zlen (buf (mpass s)).

(** ** Merging *)

Section Merge.
Context (Rs : list (list row)) (m : gmap Z (list Z)) (standard last : Z).
Abbreviation nb := (zlen Rs).
Abbreviation R b := (Rs.[[]|b]).
Context (Hm : forall b, 0 <= b < nb -> m !! b = Some (concat (R b))) (Huni : forall b, 0 <= b < nb -> block_rows (R b)).
Context (Hstandard : 0 < standard) (Hlast : 0 < last).

Definition cap (b : Z) : Z := if b <? nb - 1 then standard else last.

Definition desc (s : Multi) (b : Z) : BlockDescription := (blocks s).[no_desc|b].

(** The blocks before [k] are open; [g] rows of each have been taken; the queue has the last one
    of each block that is not at its end, but for the block [o]. *)
Record Merging (s : Multi) (g : Z -> Z) (k : Z) (o : option Z) (c : Z) : Prop := {
  mg_store : represents (store s) m c;
  mg_blocks : zlen (blocks s) = nb;
  mg_number : no_blocks s = nb;
  mg_room : (nb - 1) * standard + last <= zlen (buf (mpass s));
  mg_reading : forall b, 0 <= b < k -> Reading (buf (mpass s)) (desc s b) (R b) (g b) (cap b) /\ block_start (desc s b) = b * standard;
  mg_future : forall b, k <= b < nb -> block_size (desc s b) = zlen (R b) /\ file_offset (desc s b) = 0 /\ read_offset (desc s b) = -1;
  mg_entry : forall b r, (b, r) ∈ mheap s -> 0 <= b < k /\ o <> Some b /\ 1 <= g b /\ b * standard <= r < b * standard + cap b /\
    (buf (mpass s)).[[]|r] = (R b).[[]|g b - 1];
  mg_done : forall b, 0 <= b < k -> b ∉ map fst (mheap s) -> o <> Some b -> g b = zlen (R b);
  mg_nodup : NoDup (map fst (mheap s))
}.

(** The rows that are still to be given. *)
Definition rest (s : Multi) (g : Z -> Z) : list row := concat (map (fun e => drop (Z.to_nat (g (fst e) - 1)) (R (fst e))) (mheap s)).

(** The parts of the buffer do not overlap. *)
Lemma parts_apart b c r : 0 <= b < nb -> 0 <= c < nb -> b <> c -> b * standard <= r < b * standard + cap b -> r < c * standard \/ c * standard + cap c <= r.
Proof. intros Hb Hc Hne. unfold cap. case_cmp; intros Hr; destruct (Z.lt_trichotomy b c) as [?|[?|?]]; try lia; [left|right|left|right]; nia. Qed.

Lemma part_fits b : 0 <= b < nb -> 0 <= b * standard /\ 1 <= cap b /\ b * standard + cap b <= (nb - 1) * standard + last.
Proof. intros Hb. unfold cap. case_cmp; nia. Qed.

(** A step on one block leaves the others. *)
Lemma desc_other s s' b c d' p : same_but_block s s' b d' p -> 0 <= b -> c <> b -> desc s' c = desc s c.
Proof. intros (_ & _ & _ & _ & E & _) Hb Hne. unfold desc. rewrite E. by apply znth_zupd_ne. Qed.

Lemma reading_kept a a' d R0 g c :
  Reading a d R0 g c -> zlen a' = zlen a -> (forall k, block_start d <= k < block_start d + c -> a'.[[]|k] = a.[[]|k]) -> Reading a' d R0 g c.
Proof.
  intros [H1 H2 H3 H4 H5 H6] Hl Hk. assert (loaded a d R0 -> 1 <= buf_size d <= c -> loaded a' d R0) as Hld.
  { intros [L1 L2] Hb. split; [done|]. intros k Hkk. rewrite Hk by lia. by apply L2. }
  constructor; try done; [lia|]. destruct H6 as [?|(Hb & [(E & Hg & Hl')|(E & Hg & Hl')])]; [by left|right..]; (split; [done|]).
  - left. split; [done|]. split; [done|]. intros Hf. by apply Hld; [apply Hl'|].
  - right. split; [done|]. split; [done|]. by apply Hld.
Qed.

(** Taking the next row of the block that is not in the queue. *)
Lemma Merging_advance s g k b c :
  Merging s g k (Some b) c -> 0 <= b < k -> k <= nb ->
  (GetFromBlock s b = SKilled /\ killed_load (pops s) b = true) \/
  exists s' rec reloaded g', GetFromBlock s b = SOk (s', rec, reloaded) /\ Merging (push s' b rec) g' k None c /\
    rest (push s' b rec) g' = rest s g ++ drop (Z.to_nat (g b)) (R b) /\
    (reloaded = true -> 0 < g b /\ last_row s' = (R b).[[]|g b - 1]) /\ (reloaded = false -> 0 < g b -> buf (mpass s') = buf (mpass s)) /\
    mpass (push s' b rec) = mpass s' /\ last_row (push s' b rec) = last_row s' /\ same_size s (push s' b rec) /\ already_sorted (mpass s') = already_sorted (mpass s) /\ pops (push s' b rec) = pops s.
Proof.
  intros [M1 M2 M3 M4 M5 M6 M7 M8 M9] Hb Hk. destruct (M5 b Hb) as [Hrd Hst].
  destruct (GetFromBlock_spec s b (R b) (g b) (cap b) m c ltac:(lia) Hrd M1 (Hm b ltac:(lia)) (Huni b ltac:(lia))) as [?|(s' & rec & rl & d' & E & Hsame & Hst' & Hrl & Hnrl & Hrec)]; [by left|right].
  pose proof Hsame as (S1 & S2 & S3 & S4 & S5 & S6 & S7 & S8 & S9 & S10 & S11). fold (desc s b) in S6. rewrite Hst in S6. rewrite S6 in S11.
  assert (desc s' b = d') as Ed by (unfold desc; rewrite S5; apply znth_zupd_eq; lia).
  assert (forall b' r, (b', r) ∈ mheap s -> b' <> b) as Hother by (intros b' r Hin ->; by destruct (M7 b r Hin) as (_ & ? & _)).
  assert (forall b', 0 <= b' < k -> b' <> b -> Reading (buf (mpass s')) (desc s' b') (R b') (g b') (cap b') /\ block_start (desc s' b') = b' * standard) as Hrest.
  { intros b' Hb' Hne. rewrite (desc_other s s' b b' d' (cap b)) by (done || lia). destruct (M5 b' Hb') as [Hrd' Hst1]. split; [|done].
    apply (reading_kept (buf (mpass s))); [done|done|]. intros j Hj. rewrite Hst1 in Hj. apply S11; [nia|]. apply (parts_apart b' b); [lia|lia|done|done]. }
  assert (forall b' r, (b', r) ∈ mheap s -> (buf (mpass s')).[[]|r] = (buf (mpass s)).[[]|r]) as Hentry.
  { intros b' r Hin. destruct (M7 b' r Hin) as (Hb' & _ & _ & Hr & _). apply S11; [nia|]. apply (parts_apart b' b); [lia|lia|by apply (Hother b' r)|done]. }
  set (g' := fun x => if x =? b then match rec with Some _ => g b + 1 | None => g b end else g x).
  assert (forall x, x <> b -> g' x = g x) as Hg' by (intros x Hx; unfold g'; by rewrite (proj2 (Z.eqb_neq x b))).
  assert (forall x, In x (mheap s) -> drop (Z.to_nat (g' (fst x) - 1)) (R (fst x)) = drop (Z.to_nat (g (fst x) - 1)) (R (fst x))) as Hdrop.
  { intros [b' r] Hin. cbn [fst]. rewrite Hg'; [done|]. apply (Hother b' r). by apply list_elem_of_In. }
  exists s', rec, rl, g'. split; [done|]. destruct rec as [r|].
  - destruct Hrec as (Hlt & Hr & Hval & Hrd'). rewrite S6 in Hr. assert (g' b = g b + 1) as Egb by (unfold g'; by rewrite Z.eqb_refl).
    split; [|split; [|split; [done|split; [done|split; [done|split; [done|split; [done|split; [done|done]]]]]]]].
    + constructor; cbn [push store blocks no_blocks mpass mheap]; try done; try lia.
      * rewrite S5, zlen_zupd. done.
      * intros b' Hb'. destruct (Z.eq_dec b' b) as [->|Hne]; [|rewrite Hg' by done; by apply Hrest]. change (desc _ b) with (desc s' b). rewrite Ed, Egb. done.
      * intros b' Hb'. change (desc _ b') with (desc s' b'). rewrite (desc_other s s' b b' d' (cap b)) by (done || lia). by apply M6.
      * intros b' r' Hin. rewrite S3 in Hin. apply elem_of_app in Hin as [Hin|Hin].
        -- rewrite (Hentry b' r' Hin). destruct (M7 b' r' Hin) as (? & ? & ? & ? & ?). by rewrite (Hg' b' (Hother b' r' Hin)).
        -- apply list_elem_of_singleton in Hin as [= -> ->]. rewrite Egb, Z.add_simpl_r. split; [done|]. split; [done|]. split; [pose proof (rd_given _ _ _ _ _ Hrd); lia|]. done.
      * intros b' Hb' Hnin _. rewrite S3, map_app in Hnin. apply not_elem_of_app in Hnin as [Hn1 Hn2]. assert (b' <> b) by (intros ->; apply Hn2; left).
        rewrite Hg' by done. apply M8; [done|done|congruence].
      * rewrite S3, map_app. apply NoDup_app. split; [done|]. split; [|apply NoDup_singleton]. intros x Hx Hx'. apply list_elem_of_singleton in Hx' as ->.
        apply list_elem_of_In, in_map_iff in Hx as ([b' r'] & Ex & Hx). cbn [fst] in Ex. apply (Hother b' r'); [by apply list_elem_of_In|done].
    + unfold rest. cbn [push mheap]. rewrite S3, map_app, concat_app. cbn [map concat fst]. rewrite app_nil_r, Egb, Z.add_simpl_r. f_equal. f_equal. by apply map_ext_in.
  - destruct Hrec as [Hend Hrd']. assert (g' b = g b) as Egb by (unfold g'; by rewrite Z.eqb_refl).
    split; [|split; [|split; [done|split; [done|split; [done|split; [done|split; [done|split; [done|done]]]]]]]].
    + constructor; cbn [push]; try done; try lia.
      * rewrite S5, zlen_zupd. done.
      * intros b' Hb'. destruct (Z.eq_dec b' b) as [->|Hne]; [|rewrite Hg' by done; by apply Hrest]. rewrite Ed, Egb. done.
      * intros b' Hb'. rewrite (desc_other s s' b b' d' (cap b)) by (done || lia). by apply M6.
      * intros b' r' Hin. rewrite S3 in Hin. rewrite (Hentry b' r' Hin). destruct (M7 b' r' Hin) as (? & ? & ? & ? & ?). by rewrite (Hg' b' (Hother b' r' Hin)).
      * intros b' Hb' Hnin _. rewrite S3 in Hnin. destruct (Z.eq_dec b' b) as [->|Hne]; [by rewrite Egb|]. rewrite Hg' by done. apply M8; [done|done|congruence].
      * by rewrite S3.
    + unfold rest. cbn [push]. rewrite S3, drop_ge, app_nil_r by (unfold zlen in Hend; lia). f_equal. by apply map_ext_in.
Qed.

(** Opening the blocks one by one. *)
Lemma init_blocks_spec n : forall k s g c,
  n = Z.to_nat (nb - k) -> 0 <= k <= nb -> Merging s g k None c ->
  (init_blocks (range k (nb - 1)) s standard last = SKilled /\ exists i, killed_load (pops s) i = true) \/
  exists s' g', init_blocks (range k (nb - 1)) s standard last = SOk s' /\ Merging s' g' nb None c /\
    rest s' g' = rest s g ++ concat (drop (Z.to_nat k) Rs) /\ same_size s s' /\ already_sorted (mpass s') = already_sorted (mpass s).
Proof.
  induction n as [|n IH]; intros k s g c Hn Hk HM.
  - right. exists s, g. assert (k = nb) as -> by lia. rewrite range_nil by lia. rewrite drop_ge by (unfold zlen; lia). split; [done|]. split; [done|]. split; [by rewrite app_nil_r|]. done.
  - rewrite range_cons by lia. cbn [init_blocks]. set (d := (blocks s).[no_desc|k]). set (s1 := set_block s k _).
    destruct HM as [M1 M2 M3 M4 M5 M6 M7 M8 M9]. destruct (M6 k ltac:(lia)) as (F1 & F2 & F3). unfold desc in F1, F2, F3. fold d in F1, F2, F3.
    destruct (part_fits k ltac:(lia)) as (P1 & P2 & P3).
    assert (forall b, 0 <= b -> b <> k -> desc s1 b = desc s b) as Hold by (intros b Hb Hne; unfold desc, s1; cbn [set_block blocks]; by apply znth_zupd_ne).
    assert (desc s1 k = mkBD (block_size d) (file_offset d) (k * standard) (read_offset d) (cap k)) as Hnew.
    { unfold desc, s1. cbn [set_block blocks]. rewrite znth_zupd_eq by lia. rewrite M3. done. }
    assert (forall x, k ∉ map fst (mheap s) -> In x (mheap s) -> fst x <> k) as Hnk.
    { intros x Hx Hin E. apply Hx. rewrite <- E. apply list_elem_of_In, in_map_iff. by exists x. }
    assert (k ∉ map fst (mheap s)) as Hkn.
    { intros Hin. apply list_elem_of_In, in_map_iff in Hin as ([b r] & E & Hin). cbn [fst] in E. subst b. apply list_elem_of_In in Hin. destruct (M7 k r Hin) as (? & _). lia. }
    set (g1 := fun x => if x =? k then 0 else g x).
    assert (forall x, x <> k -> g1 x = g x) as Hg1 by (intros x Hx; unfold g1; by rewrite (proj2 (Z.eqb_neq x k))).
    assert (Merging s1 g1 (k + 1) (Some k) c) as H1.
    { constructor; try done.
      - unfold s1. cbn [set_block blocks]. by rewrite zlen_zupd.
      - intros b Hb. destruct (Z.eq_dec b k) as [->|Hne]; [|rewrite Hold, Hg1 by lia; apply M5; lia]. rewrite Hnew. unfold g1. rewrite Z.eqb_refl. split; [|done].
        constructor; cbn [block_size file_offset block_start read_offset buf_size]; try done; try (pose proof (zlen_nonneg (R k)); lia).
        change (buf (mpass s1)) with (buf (mpass s)). lia.
      - intros b Hb. rewrite Hold by lia. apply M6. lia.
      - intros b r Hin. destruct (M7 b r Hin) as (A1 & A2 & A3 & A4 & A5). rewrite Hg1 by lia. split; [lia|]. split; [intros [= ->]; lia|]. done.
      - intros b Hb Hnin Ho. rewrite Hg1 by congruence. apply M8; [|done|done]. assert (b <> k) by congruence. lia. }
    destruct (Merging_advance s1 g1 (k + 1) k c H1 ltac:(lia) ltac:(lia)) as [[-> Hkl]|(s2 & rec & rl & g2 & -> & H2 & Hr & _ & _ & E1 & _ & E2 & E3 & Ep)].
    + left. split; [done|]. by exists k.
    + cbn [sbind]. destruct (IH (k + 1) (push s2 k rec) g2 c ltac:(lia) ltac:(lia) H2) as [[-> (i & Hi)]|(s' & g' & -> & H' & Hr' & E4 & E5)].
      * left. split; [done|]. exists i. by rewrite Ep in Hi.
      * right. exists s', g'. split; [done|]. split; [done|]. split; [|split; [destruct E2 as [E21 E22], E4 as [E41 E42]; split; [etransitivity; [exact E41|exact E21]|etransitivity; [exact E42|exact E22]]|rewrite E5, E1; done]].
        rewrite Hr', Hr, <- app_assoc. unfold g1 at 2. rewrite Z.eqb_refl. f_equal.
        { unfold rest. change (mheap s1) with (mheap s). f_equal. apply map_ext_in. intros x Hx. by rewrite Hg1 by (by apply Hnk). }
        change (Z.to_nat 0) with 0%nat. rewrite drop_0. pose proof (znth_lookup [] Rs k ltac:(lia)) as Er. rewrite (drop_S _ _ _ Er). cbn [concat].
        by replace (Z.to_nat (k + 1)) with (S (Z.to_nat k)) by lia.
Qed.

(** ** Giving the rows *)

Abbreviation le := (key_le key_bytes).

(** The element on top is one with the smallest key. *)
Context (Hpick : forall k l, l <> [] -> (pick k l < length l)%nat /\ forall r, r ∈ l -> le (nth (pick k l) l []) r).
Context (Hsorted : forall b, 0 <= b < nb -> StronglySorted le (R b)).

Lemma rest_entry s g k o c b r :
  Merging s g k o c -> k <= nb -> (b, r) ∈ mheap s ->
  drop (Z.to_nat (g b - 1)) (R b) = (buf (mpass s)).[[]|r] :: drop (Z.to_nat (g b)) (R b).
Proof.
  intros HM Hk Hin. destruct (mg_entry _ _ _ _ _ HM b r Hin) as (Hb & _ & Hg & _ & ->).
  destruct (mg_reading _ _ _ _ _ HM b Hb) as [Hrd _]. pose proof (rd_given _ _ _ _ _ Hrd).
  replace (Z.to_nat (g b)) with (S (Z.to_nat (g b - 1))) by lia. apply drop_S. apply znth_lookup. lia.
Qed.

(** The first row of an entry has the smallest key of its block's rows. *)
Lemma entry_least s g k o c b r x :
  Merging s g k o c -> k <= nb -> (b, r) ∈ mheap s -> x ∈ drop (Z.to_nat (g b - 1)) (R b) -> le (buf (mpass s)).[[]|r] x.
Proof.
  intros HM Hk Hin Hx. pose proof (rest_entry s g k o c b r HM Hk Hin) as E.
  destruct (mg_entry _ _ _ _ _ HM b r Hin) as (Hb & _). pose proof (Hsorted b ltac:(lia)) as Hs.
  assert (StronglySorted le (drop (Z.to_nat (g b - 1)) (R b))) as Hs'.
  { rewrite <- (take_drop (Z.to_nat (g b - 1)) (R b)) in Hs. clear -Hs. induction (take _ _) as [|y l IH]; [done|]. apply IH. by inversion Hs. }
  rewrite E in Hs', Hx. inversion Hs' as [|? ? _ Hall]; subst. apply elem_of_cons in Hx as [->|Hx]; [apply cmp_refl; apply _|]. rewrite Forall_forall in Hall. by apply Hall.
Qed.

Lemma Multi_read s g c :
  Merging s g nb None c -> already_sorted (mpass s) = true ->
  (mheap s = [] /\ Multi_GetNextValue s = SOk (s, None)) \/
  (Multi_GetNextValue s = SKilled /\ exists k b, killed_load k b = true) \/
  exists s' g' x, Multi_GetNextValue s = SOk (s', Some x) /\ Merging s' g' nb None c /\ already_sorted (mpass s') = true /\ same_size s s' /\
    rest s g ≡ₚ x :: rest s' g' /\ (forall r, r ∈ rest s g -> le x r).
Proof.
  intros HM Hs. unfold Multi_GetNextValue. rewrite Hs. cbn [negb sbind]. destruct (mheap s) as [|e0 h0] eqn:Eh; [by left|right]. rewrite <- Eh.
  set (l := map (fun e => (buf (mpass s)).[[]|snd e]) (mheap s)). assert (l <> []) as Hl by (unfold l; by rewrite Eh).
  destruct (Hpick (pops s) l Hl) as [Hlt Hle]. set (k := pick (pops s) l) in *.
  assert (length l = length (mheap s)) as Hll by apply length_map. destruct (lookup_lt_is_Some_2 (mheap s) k ltac:(lia)) as [[b res] Hk]. rewrite Hk.
  pose proof (list_elem_of_lookup_2 _ _ _ Hk) as Hin. set (s1 := mkMP _ _ _ _ _ _ _ _).
  assert (nth k l [] = (buf (mpass s)).[[]|res]) as Etop.
  { pose proof (list_lookup_fmap (fun e => (buf (mpass s)).[[]|snd e]) (mheap s) k) as E. rewrite Hk in E. cbn [fmap option_fmap option_map snd] in E. by apply nth_lookup_Some. }
  rewrite Etop in Hle. destruct (mg_entry _ _ _ _ _ HM b res Hin) as (Hb & _ & Hg & _ & Hval).
  pose proof (delete_Permutation _ _ _ Hk) as Hperm.
  assert (Merging s1 g nb (Some b) c) as H1.
  { destruct HM as [M1 M2 M3 M4 M5 M6 M7 M8 M9]. assert (NoDup (map fst ((b, res) :: delete k (mheap s)))) as Hnd by (by rewrite <- Hperm).
    cbn [map fst] in Hnd. apply NoDup_cons in Hnd as [Hnb Hnd]. constructor; try done; cbn [s1 mheap mpass store].
    - intros b' r' Hin'. assert ((b', r') ∈ mheap s) as Hin2 by (rewrite Hperm; by right). destruct (M7 b' r' Hin2) as (? & _ & ? & ? & ?).
      split; [done|]. split; [|done]. intros [= <-]. apply Hnb. apply list_elem_of_In, in_map_iff. exists (b, r'). split; [done|by apply list_elem_of_In].
    - intros b' Hb' Hnin Ho. apply M8; [done| |done]. rewrite Hperm. cbn [map fst]. intros Hx. apply elem_of_cons in Hx as [->|Hx]; [by apply Ho|done]. }
  assert (rest s g ≡ₚ (buf (mpass s)).[[]|res] :: rest s1 g ++ drop (Z.to_nat (g b)) (R b)) as Hrest.
  { unfold rest. rewrite Hperm. cbn [map concat fst]. rewrite (rest_entry s g nb None c b res HM ltac:(lia) Hin). cbn [app]. constructor. apply Permutation_app_comm. }
  destruct (Merging_advance s1 g nb b c H1 Hb ltac:(lia)) as [[-> Hkl]|(s2 & rec & rl & g2 & -> & H2 & Hr & Hrl & Hnrl & E1 & E2 & E3 & E4 & _)]; [left|right].
  { split; [done|]. by eexists _, _. }
  cbn [sbind]. exists (push s2 b rec), g2, (buf (mpass s)).[[]|res].
  assert ((if rl then last_row (push s2 b rec) else (buf (mpass (push s2 b rec))).[[]|res]) = (buf (mpass s)).[[]|res]) as ->.
  { rewrite E1, E2. destruct rl; [destruct (Hrl eq_refl) as [_ ->]; done|]. rewrite Hnrl by (done || lia). done. }
  split; [done|]. split; [done|]. split; [rewrite E1, E4; done|]. split; [done|].
  split; [by rewrite Hr|]. intros x Hx. unfold rest in Hx. apply list_elem_of_In, in_concat in Hx as (y & Hy & Hx). apply in_map_iff in Hy as ([b' r'] & <- & Hy). cbn [fst] in Hx.
  apply list_elem_of_In in Hy, Hx. apply (QSort.cmp_trans _ (buf (mpass s)).[[]|r']); [|by apply (entry_least s g nb None c b' r')].
  apply Hle. unfold l. apply list_elem_of_In, in_map_iff. exists (b', r'). split; [done|by apply list_elem_of_In].
Qed.

Lemma Multi_drain n : forall s g c,
  Merging s g nb None c -> already_sorted (mpass s) = true -> (length (rest s g) <= n)%nat ->
  (drain SorterMultiPass n s = SKilled /\ exists k b, killed_load k b = true) \/
  exists s' g' out, drain SorterMultiPass n s = SOk (s', out) /\ Merging s' g' nb None c /\ already_sorted (mpass s') = true /\ same_size s s' /\
    out ≡ₚ rest s g /\ StronglySorted le out.
Proof.
  induction n as [|n IH]; intros s g c HM Hs Hn; cbn [drain SorterMultiPass GetNextValue sorter].
  all: destruct (Multi_read s g c HM Hs) as [[Eh ->]|[[-> Hk]|(s' & g' & x & -> & H' & Hs' & Em & Hp & Hle)]]; cbn [sbind fst snd].
  1, 4: right; exists s, g, []; split; [done|]; split; [done|]; split; [done|]; split; [done|]; unfold rest; rewrite Eh; split; [done|constructor].
  1, 3: by left.
  - exfalso. rewrite Hp in Hn. simpl in Hn. lia.
  - change (mkSorter Multi _ _) with SorterMultiPass. destruct (IH s' g' c H' Hs') as [[-> Hk]|(s2 & g2 & out & -> & H2 & Hs2 & Em2 & Hp2 & Hso)].
    { rewrite Hp in Hn. simpl in Hn. lia. }
    + left. by split.
    + right. exists s2, g2, (x :: out). cbn [sbind fst snd]. split; [done|]. split; [done|]. split; [done|]. split; [destruct Em, Em2; split; congruence|]. split; [by rewrite Hp2, Hp|].
      constructor; [done|]. apply Forall_forall. intros r Hr. apply Hle. rewrite Hp. right. by rewrite <- Hp2.
Qed.

End Merge.

(** ** From the blocks to the queue *)

Definition part_rows (size nb : Z) : Z := if size / nb <? 3 then 3 else size / nb.
Definition last_rows (size nb : Z) : Z := size - part_rows size nb * (nb - 1).

(** All blocks are on disk and none is open. *)
Record Ready (s : Multi) (Rs : list (list row)) (m : gmap Z (list Z)) (c : Z) : Prop := {
  ry_store : represents (store s) m c;
  ry_blocks : zlen (blocks s) = zlen Rs;
  ry_number : no_blocks s = zlen Rs;
  ry_desc : forall b, 0 <= b < zlen Rs -> block_size (desc s b) = zlen Rs.[[]|b] /\ file_offset (desc s b) = 0 /\ read_offset (desc s b) = -1;
  ry_heap : mheap s = [];
  ry_buf : 3 <= msize s / zlen Rs -> zlen (buf (mpass s)) = msize s
}.

(** Sorted blocks of rows. *)
Record Blocks (Rs : list (list row)) (m : gmap Z (list Z)) : Prop := {
  bl_bytes : forall b, 0 <= b < zlen Rs -> m !! b = Some (concat Rs.[[]|b]);
  bl_rows : forall b, 0 <= b < zlen Rs -> block_rows Rs.[[]|b];
  bl_sorted : forall b, 0 <= b < zlen Rs -> StronglySorted (key_le key_bytes) Rs.[[]|b]
}.

Lemma parts_positive size nb : 1 <= nb -> 3 * (nb - 1) < size -> 0 < part_rows size nb /\ 0 < last_rows size nb.
Proof.
  intros Hnb Hs. unfold last_rows, part_rows. pose proof (Z.div_mod size nb ltac:(lia)). pose proof (Z.mod_pos_bound size nb ltac:(lia)). case_cmp; split; nia.
Qed.

Lemma parts_within size nb : 1 <= nb -> 3 * (nb - 1) < size -> part_rows size nb * nb <= size + 2.
Proof. intros Hnb Hs. unfold part_rows. pose proof (Z.mul_div_le size nb ltac:(lia)). case_cmp; nia. Qed.

Lemma InitHeap_spec s Rs m c :
  Ready s Rs m c -> Blocks Rs m -> 1 <= zlen Rs -> 3 * (zlen Rs - 1) < msize s -> (msize s + 2) * total_bytes < 2 ^ 31 ->
  (InitHeap s = SKilled /\ exists k b, killed_load k b = true) \/
  exists s' g, InitHeap s = SOk s' /\ Merging Rs m (part_rows (msize s) (zlen Rs)) (last_rows (msize s) (zlen Rs)) s' g (zlen Rs) None c /\
    rest Rs s' g = concat Rs /\ msize s' = msize s /\ (3 <= msize s' / zlen Rs -> zlen (buf (mpass s')) = msize s') /\
    already_sorted (mpass s') = already_sorted (mpass s).
Proof.
  intros [R1 R2 R3 R4 R5 R6] [B1 B2 B3] Hnb Hsz Hbytes. destruct (parts_positive (msize s) (zlen Rs) Hnb Hsz) as [P1 P2]. unfold InitHeap. rewrite R3.
  destruct (Z.eqb_spec (zlen Rs) 0); [lia|]. set (a := if msize s / zlen Rs <? 3 then replicate (Z.to_nat (3 * zlen Rs)) [] else buf (mpass s)).
  replace (if msize s / zlen Rs <? 3 then (3, replicate (Z.to_nat (3 * zlen Rs)) []) else (msize s / zlen Rs, buf (mpass s)))
    with (part_rows (msize s) (zlen Rs), a) by (unfold part_rows, a; by destruct (_ <? 3)).
  rewrite (int_bytes_true (msize s) (msize s + 2)), (int_bytes_true (part_rows (msize s) (zlen Rs) * zlen Rs) (msize s + 2));
    [cbn [andb negb]|by split; [nia|apply parts_within]|done|lia|done].
  set (s1 := with_pass s _). change (no_blocks s1) with (no_blocks s). rewrite R3. change (msize s1) with (msize s).
  fold (last_rows (msize s) (zlen Rs)).
  assert ((zlen Rs - 1) * part_rows (msize s) (zlen Rs) + last_rows (msize s) (zlen Rs) = msize s) as Esum by (unfold last_rows; lia).
  assert (msize s <= zlen a /\ (3 <= msize s / zlen Rs -> zlen a = msize s)) as [Ha Ha'].
  { unfold a. destruct (Z.ltb_spec (msize s / zlen Rs) 3); [|split; [rewrite R6 by done; lia|done]]. split; [|lia]. rewrite zlen_replicate by lia.
    pose proof (Z.div_mod (msize s) (zlen Rs) ltac:(lia)). pose proof (Z.mod_pos_bound (msize s) (zlen Rs) ltac:(lia)). nia. }
  assert (Merging Rs m (part_rows (msize s) (zlen Rs)) (last_rows (msize s) (zlen Rs)) s1 (fun _ => 0) 0 None c) as H0.
  { constructor; cbn [s1 with_pass store blocks no_blocks mpass buf mheap]; try done; try lia; try (intros; lia).
    - rewrite R5. intros b r Hin. by apply elem_of_nil in Hin.
    - rewrite R5. constructor. }
  destruct (init_blocks_spec Rs m _ _ B1 B2 P1 P2 _ 0 s1 (fun _ => 0) c eq_refl ltac:(lia) H0) as [[-> [i Hi]]|(s' & g & -> & HM & Hr & [E1 E2] & E3)].
  - left. split; [done|]. by exists (pops s1), i.
  - right. exists s', g. split; [done|]. split; [done|]. change (Z.to_nat 0) with 0%nat in Hr. rewrite drop_0 in Hr. unfold rest in Hr at 2. cbn [s1 with_pass mheap] in Hr. rewrite R5 in Hr.
    split; [done|]. split; [done|]. rewrite E1, E2. split; [exact Ha'|exact E3].
Qed.

(** ** Putting rows *)

Context (K : Z).

(** The full blocks [Rs] are on disk, the rows [cur] in the buffer; [K] blocks are possible. *)
Record Filled (s : Multi) (Rs : list (list row)) (cur : list row) (m : gmap Z (list Z)) : Prop := {
  fi_store : represents (store s) m (K - zlen Rs);
  fi_blocks : blocks s = map (fun B => mkBD (zlen B) 0 0 (-1) 0) Rs;
  fi_number : no_blocks s = zlen Rs;
  fi_heap : mheap s = [];
  fi_full : Forall (fun B => zlen B = msize s) Rs;
  fi_data : Blocks Rs m;
  fi_size : (0 < msize s /\ (msize s + 2) * total_bytes < 2 ^ 31) /\ zlen (buf (mpass s)) = msize s;
  fi_queue : zlen (bound_queue (mpass s)) = 2 * bound_queue_size (msize s);
  fi_cur : take (Z.to_nat (buf_input_pos (mpass s))) (buf (mpass s)) = cur;
  fi_pos : buf_input_pos (mpass s) = zlen cur;
  fi_fit : zlen cur <= msize s;
  fi_uniform : uniform cur;
  fi_sorted : if already_sorted (mpass s) then Rs = [] /\ cur = [] else cur <> []
}.

Lemma desc_map s (Rs : list (list row)) b : blocks s = map (fun B => mkBD (zlen B) 0 0 (-1) 0) Rs -> 0 <= b < zlen Rs -> desc s b = mkBD (zlen Rs.[[]|b]) 0 0 (-1) 0.
Proof.
  intros E Hb. unfold desc. rewrite E. pose proof (list_lookup_fmap (fun B : list row => mkBD (zlen B) 0 0 (-1) 0) Rs (Z.to_nat b)) as El.
  rewrite (znth_lookup [] Rs b Hb) in El. cbn [fmap option_fmap option_map] in El. apply (znth_lookup_Some no_desc) in El. rewrite Z2Nat.id in El by lia. exact El.
Qed.

Lemma Blocks_snoc Rs m B :
  Blocks Rs m -> block_rows B -> StronglySorted (key_le key_bytes) B -> Blocks (Rs ++ [B]) (<[zlen Rs := concat B]> m).
Proof.
  intros [B1 B2 B3] Hu Hs. assert (zlen (Rs ++ [B]) = zlen Rs + 1) as Hz by (rewrite zlen_app; done).
  assert (forall b, 0 <= b < zlen Rs + 1 -> (Rs ++ [B]).[[]|b] = if b =? zlen Rs then B else Rs.[[]|b]) as Hn.
  { intros b Hb. destruct (Z.eqb_spec b (zlen Rs)) as [->|]; [rewrite znth_app_r, Z.sub_diag by lia; done|by rewrite znth_app_l by lia]. }
  constructor; intros b Hb; rewrite Hz in Hb; rewrite Hn by done; destruct (Z.eqb_spec b (zlen Rs)) as [->|Hne]; try done;
    rewrite ?lookup_insert_eq, ?lookup_insert_ne by lia; try done; [apply B1|apply B2|apply B3]; lia.
Qed.

Lemma uniform_perm A B : A ≡ₚ B -> uniform A -> uniform B.
Proof. intros Hp. unfold uniform. by rewrite Hp. Qed.

(** A sorted buffer becomes the next block. *)
Lemma store_block_spec s Rs cur m :
  Filled s Rs cur m -> cur <> [] -> zlen Rs < K ->
  (store_block s = SKilled /\ exists b k, killed b k = true) \/
  exists s' B, store_block s = SOk s' /\ B ≡ₚ cur /\ Blocks (Rs ++ [B]) (<[zlen Rs := concat B]> m) /\ represents (store s') (<[zlen Rs := concat B]> m) (K - zlen Rs - 1) /\
    blocks s' = map (fun B => mkBD (zlen B) 0 0 (-1) 0) (Rs ++ [B]) /\ no_blocks s' = zlen Rs + 1 /\ mheap s' = [] /\ msize s' = msize s /\
    zlen (buf (mpass s')) = msize s /\ zlen (bound_queue (mpass s')) = zlen (bound_queue (mpass s)) /\ already_sorted (mpass s') = already_sorted (mpass s).
Proof.
  intros [F1 F2 F3 F4 F5 F6 [[F7 F7b] F7'] F8 F9 F10 F11 F12 F13] Hne HK. assert (0 < zlen cur) by (unfold zlen; destruct cur; [done|simpl; lia]).
  unfold store_block. destruct (QuickSort_spec key_bytes (buf (mpass s)) (buf_input_pos (mpass s)) (bound_queue (mpass s)) (rand (no_blocks s)) (killed (no_blocks s)))
    as [(a & q & -> & Hsw & Hso & Hq)|[-> [k Hk]]]; [lia|by rewrite F7'|right|left; split; [done|by eexists _, k]].
  cbn [sbind]. set (B := take (Z.to_nat (buf_input_pos (mpass s))) a).
  assert (B ≡ₚ cur) as HB by (rewrite <- F9; unfold B; apply swaps_prefix; [lia|done]).
  assert (uniform B) as HBu by (by apply (uniform_perm cur)).
  rewrite (int_bytes_true _ (msize s + 2)) by (done || lia). cbn [negb].
  assert (StronglySorted (key_le key_bytes) B) as HBs.
  { unfold B. pose proof (swaps_len [] _ _ _ _ Hsw). rewrite <- slice_prefix by lia. by apply sorted_slice. }
  assert (zlen B = zlen cur) as HBl by (unfold zlen; by rewrite HB).
  destruct (put_block_spec (store s) m (K - zlen Rs) (no_blocks s) (concat B) F1 ltac:(lia)) as (st & -> & Hst).
  { rewrite F3. apply zlen_nonneg. }
  { intros E. apply (f_equal length) in E. rewrite length_concat_uniform in E by done. unfold zlen in HBl. simpl in E. assert (0 < Z.to_nat total_bytes)%nat by lia. unfold zlen in *. nia. }
  cbn [of_option sbind]. eexists _, B. split; [reflexivity|]. split; [done|]. split; [apply Blocks_snoc; [done|split; [done|nia]|done]|].
  cbn [store blocks no_blocks mheap msize mpass buf bound_queue already_sorted]. rewrite F3 in Hst |- *. split; [done|]. rewrite map_app, F2. cbn [map]. rewrite HBl, F10.
  split; [done|]. split; [done|]. split; [done|]. split; [done|]. split; [rewrite (swaps_len [] _ _ _ _ Hsw); done|]. done.
Qed.

(** A row put into a buffer with room. *)
Lemma Filled_put s Rs cur m b :
  Filled s Rs cur m -> zlen cur < msize s -> length b = Z.to_nat total_bytes ->
  let p := mpass s in
  Filled (with_pass s (mkOP (buf p).[buf_input_pos p <- b] (buf_input_pos p + 1) (buf_output_pos p) (bound_queue p) false)) Rs (cur ++ [b]) m.
Proof.
  intros [F1 F2 F3 F4 F5 F6 [[F7 F7b] F7'] F8 F9 F10 F11 F12 F13] Hlt Hb p. pose proof (zlen_nonneg cur).
  constructor; cbn [with_pass store blocks no_blocks mheap msize mpass buf buf_input_pos bound_queue already_sorted]; try done.
  - by rewrite zlen_zupd.
  - rewrite take_put by (unfold p; lia). unfold p. by rewrite F9.
  - rewrite zlen_app. unfold p, zlen at 2. simpl. lia.
  - rewrite zlen_app. unfold zlen at 2. simpl. lia.
  - apply Forall_app. split; [done|]. by constructor.
  - by destruct cur.
Qed.

Lemma Multi_put s Rs cur m b :
  Filled s Rs cur m -> length b = Z.to_nat total_bytes -> zlen Rs < K ->
  (Multi_PutValue s b = SKilled /\ exists i k, killed i k = true) \/
  exists s' Rs' cur' m', Multi_PutValue s b = SOk (s', true) /\ Filled s' Rs' cur' m' /\ msize s' = msize s /\ cur' <> [] /\
    concat Rs' ++ cur' ≡ₚ concat Rs ++ cur ++ [b] /\ zlen Rs' * msize s + zlen cur' = zlen Rs * msize s + zlen cur + 1.
Proof.
  intros F Hb HK. pose proof F as [F1 F2 F3 F4 F5 F6 [[F7 F7b] F7'] F8 F9 F10 F11 F12 F13]. pose proof (zlen_nonneg cur). unfold Multi_PutValue.
  destruct (Z.eqb_spec (buf_input_pos (mpass s)) (msize s)) as [E|Hne].
  - assert (cur <> []) as Hcur by (intros ->; unfold zlen in F10; simpl in F10; lia).
    destruct (store_block_spec s Rs cur m F Hcur HK) as [[-> Hk]|(s1 & B & -> & HB & HBl & Hst & Eb & En & Eh & Em & Ez & Eq & Es)]; [by left|right]. cbn [sbind].
    set (s2 := with_pass s1 _). assert (zlen B = msize s) as HBz by (unfold zlen in *; rewrite HB; lia).
    assert (msize s2 = msize s) as Em2 by exact Em.
    set (p2 := mpass s2). cbn [s2 with_pass mpass p2 buf_input_pos buf]. destruct (Z.ltb_spec 0 (zlen (buf (mpass s1)))); [|lia]. cbn [negb].
    eexists _, (Rs ++ [B]), [b], (<[zlen Rs := concat B]> m). split; [reflexivity|].
    cbn [with_pass msize mpass buf buf_input_pos buf_output_pos bound_queue]. split.
    + constructor; cbn [with_pass store blocks no_blocks mheap msize mpass buf buf_input_pos bound_queue already_sorted]; try done.
      * rewrite zlen_app. replace (K - (zlen Rs + zlen [B])) with (K - zlen Rs - 1) by (change (zlen [B]) with 1; lia). done.
      * rewrite zlen_app. done.
      * rewrite Em2. apply Forall_app. split; [done|]. constructor; [done|constructor].
      * rewrite Em2, zlen_zupd. done.
      * rewrite Em2, Eq. done.
      * by rewrite (take_put (buf (mpass s1)) 0 b) by lia.
      * rewrite Em2. unfold zlen. simpl. lia.
      * constructor; [done|constructor].
    + split; [done|]. split; [done|]. split; [rewrite concat_app; cbn [concat]; rewrite app_nil_r, HB; by rewrite app_assoc|].
      rewrite zlen_app. assert (zlen [B] = 1) as -> by done. assert (zlen [b] = 1) as -> by done. lia.
  - right. cbn [sbind]. destruct (Z.ltb_spec (buf_input_pos (mpass s)) (zlen (buf (mpass s)))); [|lia]. cbn [negb].
    eexists _, Rs, (cur ++ [b]), m. split; [reflexivity|]. split; [apply Filled_put; [done|lia|done]|]. split; [done|]. split; [by destruct cur|]. split; [done|].
    rewrite zlen_app. assert (zlen [b] = 1) as -> by done. lia.
Qed.

Lemma Multi_put_all rows : forall s Rs cur m,
  Filled s Rs cur m -> uniform rows -> zlen Rs * msize s + zlen cur + zlen rows <= K * msize s ->
  (put_all SorterMultiPass s rows = SKilled /\ exists i k, killed i k = true) \/
  exists s' Rs' cur' m', put_all SorterMultiPass s rows = SOk s' /\ Filled s' Rs' cur' m' /\ msize s' = msize s /\
    concat Rs' ++ cur' ≡ₚ (concat Rs ++ cur) ++ rows /\ zlen Rs' * msize s + zlen cur' = zlen Rs * msize s + zlen cur + zlen rows.
Proof.
  induction rows as [|b rows IH]; intros s Rs cur m F Hu HK.
  - right. exists s, Rs, cur, m. split; [done|]. split; [done|]. split; [done|]. rewrite app_nil_r. split; [done|]. change (zlen (@nil row)) with 0. lia.
  - apply Forall_cons in Hu as [Hb Hu]. assert (zlen (b :: rows) = zlen rows + 1) as El by (unfold zlen; cbn [length]; lia). pose proof (zlen_nonneg rows). pose proof (zlen_nonneg cur).
    pose proof (fi_size _ _ _ _ F) as [[Hsz _] _]. assert (zlen Rs < K) as HK1 by nia.
    cbn [put_all SorterMultiPass PutValue sorter]. destruct (Multi_put s Rs cur m b F Hb HK1) as [[-> Hk]|(s1 & Rs1 & cur1 & m1 & -> & F1 & Em & Hc1 & Hp & Hz)]; [by left|].
    cbn [sbind fst]. change (mkSorter Multi _ _) with SorterMultiPass. rewrite <- Em in Hz, HK.
    destruct (IH s1 Rs1 cur1 m1 F1 Hu ltac:(lia)) as [[-> Hk]|(s' & Rs' & cur' & m' & -> & F' & Em' & Hp' & Hz')]; [by left|right].
    exists s', Rs', cur', m'. split; [done|]. split; [done|]. split; [congruence|].
    split; [|rewrite <- Em; lia]. rewrite Hp', Hp. by rewrite <- !app_assoc.
Qed.

(** ** The promise of [SorterMultiPass] *)

Context (Hpick : forall k l, l <> [] -> (pick k l < length l)%nat /\ forall r, r ∈ l -> key_le key_bytes (nth (pick k l) l []) r).

Definition any_killed : Prop := (exists b k, killed b k = true) \/ (exists k b, killed_load k b = true).

Lemma Merging_sorted Rs m st la s g k o c p :
  Merging Rs m st la s g k o c -> buf p = buf (mpass s) -> Merging Rs m st la (with_pass s p) g k o c.
Proof. intros [M1 M2 M3 M4 M5 M6 M7 M8 M9] E. constructor; cbn [with_pass store blocks no_blocks mpass mheap]; rewrite ?E; done. Qed.

(** Reading all rows from an opened queue. *)
Lemma Multi_read_all s g Rs m c :
  Blocks Rs m -> 1 <= zlen Rs -> 3 * (zlen Rs - 1) < msize s ->
  Merging Rs m (part_rows (msize s) (zlen Rs)) (last_rows (msize s) (zlen Rs)) s g (zlen Rs) None c -> rest Rs s g = concat Rs -> already_sorted (mpass s) = true ->
  (3 <= msize s / zlen Rs -> zlen (buf (mpass s)) = msize s) -> forall n, length (concat Rs) = n ->
  (drain SorterMultiPass n s = SKilled /\ any_killed) \/
  exists s' out, drain SorterMultiPass n s = SOk (s', out) /\ out ≡ₚ concat Rs /\ StronglySorted (key_le key_bytes) out /\ msize s' = msize s /\
    exists s1, Multi_Rewind s' = InitHeap s1 /\ Ready s1 Rs m c /\ already_sorted (mpass s1) = true /\ msize s1 = msize s.
Proof.
  intros [B1 B2 B3] Hnb Hsz HM Hr Hs Hbuf n Hn. destruct (parts_positive (msize s) (zlen Rs) Hnb Hsz) as [P1 P2].
  destruct (Multi_drain Rs m _ _ B1 B2 P1 Hpick B3 n s g c HM Hs) as [[-> Hk]|(s' & g' & out & -> & HM' & Hs' & [Em Ez] & Hp & Hso)]; [rewrite Hr; lia|left; split; [done|by right]|right].
  exists s', out. split; [done|]. split; [by rewrite Hp, Hr|]. split; [done|]. split; [done|]. unfold Multi_Rewind. eexists. split; [reflexivity|].
  split; [|split; [exact Hs'|exact Em]]. destruct HM' as [M1 M2 M3 M4 M5 M6 M7 M8 M9].
  constructor; cbn [store blocks no_blocks mheap msize mpass]; try done.
  - unfold zlen in *. by rewrite length_map.
  - intros b Hb. destruct (M5 b Hb) as [Hrd _]. unfold desc at 1 2 3. cbn [blocks].
    set (f := fun d => mkBD (block_size d) 0 (block_start d) (-1) (buf_size d)).
    pose proof (list_lookup_fmap f (blocks s') (Z.to_nat b)) as E. rewrite (znth_lookup no_desc (blocks s') b) in E by lia. cbn [fmap option_fmap option_map] in E.
    apply (znth_lookup_Some no_desc) in E. rewrite Z2Nat.id in E by lia. change (f <$> blocks s') with (map f (blocks s')) in E. rewrite E. cbn [f block_size file_offset read_offset].
    split; [exact (rd_size _ _ _ _ _ Hrd)|done].
  - rewrite Em, Ez. done.
Qed.

Lemma Multi_sort_rows mem queue st rows :
  represents st ∅ K -> 0 < zlen mem -> (zlen mem + 2) * total_bytes < 2 ^ 31 -> zlen queue = 2 * bound_queue_size (zlen mem) ->
  rows <> [] -> uniform rows -> zlen rows <= K * zlen mem -> 3 * ((zlen rows - 1) / zlen mem) < zlen mem ->
  (sort_rows SorterMultiPass (Multi_new mem queue st) rows = SKilled /\ any_killed) \/
  exists s out, sort_rows SorterMultiPass (Multi_new mem queue st) rows = SOk (s, out) /\ out ≡ₚ rows /\ StronglySorted (key_le key_bytes) out /\
    ((exists s1 s2 out', Multi_Rewind s = SOk s1 /\ drain SorterMultiPass (length rows) s1 = SOk (s2, out') /\ out' ≡ₚ rows /\ StronglySorted (key_le key_bytes) out') \/ any_killed).
Proof.
  intros Hst Hmem Hbytes Hq Hne Hu HK Hsmall. unfold sort_rows.
  destruct (Multi_put_all rows (Multi_new mem queue st) [] [] ∅) as [[-> Hk]|(s & Rs & cur & m & -> & F & Em & Hp & Hz)]; [| |exact HK|left; split; [done|by left]|].
  { constructor; cbn [Multi_new store blocks no_blocks mheap msize mpass OnePass_new buf buf_input_pos bound_queue already_sorted]; try done; try (change (zlen (@nil row)) with 0); try lia.
    - by rewrite Z.sub_0_r.
    - constructor; intros b Hb; change (zlen (@nil (list row))) with 0 in Hb; lia.
    - constructor. }
  { done. }
  cbn [sbind Multi_new msize] in *. change (zlen (@nil (list row))) with 0 in Hz. change (zlen (@nil row)) with 0 in Hz. cbn [concat app] in Hp.
  pose proof F as [F1 F2 F3 F4 F5 F6 [[F7 F7b] F7'] F8 F9 F10 F11 F12 F13].
  assert (already_sorted (mpass s) = false /\ cur <> []) as [Hns Hcur].
  { destruct (already_sorted (mpass s)); [|done]. destruct F13 as [-> ->]. simpl in Hp. apply Permutation_nil_l in Hp. congruence. }
  assert (0 < zlen cur) by (unfold zlen; destruct cur; [done|simpl; lia]). pose proof (zlen_nonneg Rs).
  assert ((zlen rows - 1) / zlen mem = zlen Rs) as Ediv by (symmetry; apply (Z.div_unique _ _ _ (zlen cur - 1)); lia). rewrite Ediv in Hsmall.
  destruct (length rows) as [|n] eqn:El; [by destruct rows|].
  destruct (store_block_spec s Rs cur m F Hcur ltac:(nia)) as [[E Hk]|(s1 & B & E1 & HB & HBl & Hst1 & Eb & En & Eh & Em1 & Ez & Eq & Es)].
  { left. split; [|by left]. cbn [drain SorterMultiPass GetNextValue sorter]. unfold Multi_GetNextValue at 1. rewrite Hns. cbn [negb]. by rewrite E. }
  assert (zlen (Rs ++ [B]) = zlen Rs + 1) as Hzl by (rewrite zlen_app; done).
  assert (concat (Rs ++ [B]) ≡ₚ rows) as Hall by (rewrite concat_app; cbn [concat]; by rewrite app_nil_r, HB).
  assert (length (concat (Rs ++ [B])) = S n) as Hlen by (by rewrite Hall).
  assert (Ready s1 (Rs ++ [B]) (<[zlen Rs := concat B]> m) (K - zlen Rs - 1)) as HR.
  { constructor; try done; [unfold zlen; rewrite Eb; by rewrite length_map|by rewrite Hzl| |intros _; lia]. intros b Hb. rewrite (desc_map s1 _ b Eb Hb). done. }
  destruct (InitHeap_spec s1 _ _ _ HR HBl ltac:(lia) ltac:(rewrite Em1, Em; lia) ltac:(rewrite Em1, Em; lia)) as [[E2 Hk]|(s2 & g & E2 & HM & Hr & Em2 & Hbuf & Es2)].
  { left. split; [|by right]. cbn [drain SorterMultiPass GetNextValue sorter]. unfold Multi_GetNextValue at 1. rewrite Hns. cbn [negb]. rewrite E1. cbn [sbind]. by rewrite E2. }
  set (p2 := mpass s2). set (s3 := with_pass s2 (mkOP (buf p2) (buf_input_pos p2) (buf_output_pos p2) (bound_queue p2) true)).
  assert (drain SorterMultiPass (S n) s = drain SorterMultiPass (S n) s3) as ->.
  { assert (Multi_GetNextValue s = Multi_GetNextValue s3) as Eg by (unfold Multi_GetNextValue; rewrite Hns; cbn [negb]; rewrite E1; cbn [sbind]; rewrite E2; done).
    cbn [drain SorterMultiPass GetNextValue sorter]. by rewrite Eg. }
  rewrite <- Em2 in HM. destruct (Multi_read_all s3 g (Rs ++ [B]) _ (K - zlen Rs - 1) HBl ltac:(lia) ltac:(cbn [s3 with_pass msize]; lia)
    ltac:(apply Merging_sorted; [exact HM|done]) Hr eq_refl Hbuf (S n) Hlen) as [[-> Hk]|(s4 & out & -> & Hpo & Hso & Em4 & s5 & Erw & HR5 & Hs5 & Em5)]; [by left|right].
  exists s4, out. split; [done|]. split; [by rewrite Hpo|]. split; [done|]. rewrite Erw. change (msize s3) with (msize s2) in *.
  destruct (InitHeap_spec s5 _ _ _ HR5 HBl ltac:(lia) ltac:(lia) ltac:(rewrite Em5, Em2, Em1, Em; lia)) as [[-> Hk]|(s6 & g6 & -> & HM6 & Hr6 & Em6 & Hbuf6 & Es6)]; [right; by right|].
  rewrite <- Em6 in HM6. destruct (Multi_read_all s6 g6 (Rs ++ [B]) _ _ HBl ltac:(lia) ltac:(lia) HM6 Hr6 ltac:(congruence) Hbuf6 (S n) Hlen)
    as [[_ Hk]|(s7 & out' & E7 & Hp7 & Hso7 & _)]; [by right|left]. exists s6, s7, out'. split; [done|]. split; [done|]. split; [by rewrite Hp7|done].
Qed.

Lemma Multi_sorts_lemma mem queue st :
  represents st ∅ K -> 0 < zlen mem -> (zlen mem + 2) * total_bytes < 2 ^ 31 -> zlen queue = 2 * bound_queue_size (zlen mem) ->
  Sorts key_bytes SorterMultiPass Multi_Rewind any_killed (Multi_new mem queue st)
    (fun rows => uniform rows /\ zlen rows <= K * zlen mem /\ 3 * ((zlen rows - 1) / zlen mem) < zlen mem).
Proof.
  intros Hst Hmem Hbytes Hq. constructor. intros rows (Hu & HK & Hsmall). destruct (decide (rows = [])) as [->|Hne].
  - left. eexists _, []. split; [reflexivity|]. split; [done|]. split; [constructor|done].
  - destruct (Multi_sort_rows mem queue st rows Hst Hmem Hbytes Hq Hne Hu HK Hsmall) as [?|(s & out & E & Hp & Hs & Hrw)]; [by right|left]. exists s, out. split; [done|]. split; [done|]. split; [done|]. by intros _.
Qed.

End Multi.

(** C12: the merge sorter returns the rows it was given, each of [total_bytes] bytes, in the order of
    their keys, also after a rewind, for every store of blocks and every priority queue that keep their
    promises, unless the query is killed.  The number of blocks must be below a third of the rows of
    the buffer and at most the number [K] that the store takes, and the buffer with two more rows below
    [2^31] bytes: the sizes of blocks, the offsets in them and the parts of the buffer are then [int]s,
    none of which overflows. *)
Theorem SorterMultiPass_sorts {St : Type} `{BlockStore St} (key_bytes : nat) (total_bytes : Z)
    (rand : Z -> nat -> Z) (killed : Z -> nat -> bool) (killed_load : nat -> Z -> bool) (pick : nat -> list row -> nat)
    (mem : list row) (queue : list Z) (st : St) (K : Z)
    (Htotal : 0 < total_bytes) (Hmem : 0 < zlen mem) (Hbytes : (zlen mem + 2) * total_bytes < 2 ^ 31)
    (Hq : zlen queue = 2 * bound_queue_size (zlen mem)) (Hst : represents st ∅ K)
    (Hpick : forall k l, l <> [] -> (pick k l < length l)%nat /\ forall r, r ∈ l -> key_le key_bytes (nth (pick k l) l []) r) :
  Sorts key_bytes (SorterMultiPass key_bytes total_bytes rand killed killed_load pick) (Multi_Rewind total_bytes killed_load)
    (any_killed killed killed_load) (Multi_new mem queue st)
    (fun rows => uniform total_bytes rows /\ zlen rows <= K * zlen mem /\ 3 * ((zlen rows - 1) / zlen mem) < zlen mem).
Proof. by apply Multi_sorts_lemma. Qed.

(** ** Witnesses and remarks *)

(** A priority queue that takes the first of the rows with the smallest key. *)
Fixpoint first_least (n : nat) (l : list row) : nat :=
  match l with
  | [] => 0
  | x :: rest => let k := first_least n rest in
      match rest with
      | [] => 0
      | _ => if key_compare n x (nth k rest []) <=? 0 then 0 else S k
      end
  end.

Lemma first_least_spec n l : l <> [] ->
  (first_least n l < length l)%nat /\ forall r, r ∈ l -> key_le n (nth (first_least n l) l []) r.
Proof.
  induction l as [|x l IH]; intros Hl; [done|]. destruct l as [|y l].
  - simpl. split; [lia|]. intros r Hr. apply list_elem_of_singleton in Hr as ->. apply cmp_refl. apply _.
  - destruct (IH ltac:(done)) as [Hlt Hle]. change (first_least n (x :: y :: l)) with
      (if key_compare n x (nth (first_least n (y :: l)) (y :: l) []) <=? 0 then 0%nat else S (first_least n (y :: l))).
    set (k := first_least n (y :: l)) in *. destruct (Z.leb_spec (key_compare n x (nth k (y :: l) [])) 0) as [Hxk|Hkx].
    + split; [simpl; lia|]. intros r Hr. apply elem_of_cons in Hr as [->|Hr]; [apply cmp_refl; apply _|].
      apply (QSort.cmp_trans _ (nth k (y :: l) [])); [exact Hxk|by apply Hle].
    + split; [cbn [length] in *; lia|]. intros r Hr. apply elem_of_cons in Hr as [->|Hr]; [|by apply Hle].
      apply Z.lt_le_incl. by apply QSort.cmp_anti.
Qed.

Definition merge_sorter : Sorter3 :=
  SorterMultiPass 1 2 (fun _ k => Z.of_nat k) (fun _ _ => false) (fun _ _ => false) (fun _ l => first_least 1 l).

Definition merge_state (n : nat) : Multi := Multi_new (replicate n []) (replicate 20 0) (CI_new ∅ (-1)).

Lemma SorterMultiPass_sorts_witness :
  (exists s out, sort_rows merge_sorter (merge_state 10) sample_rows = SOk (s, out) /\ out ≡ₚ sample_rows /\ StronglySorted (key_le 1) out) /\
  sbind (sort_rows merge_sorter (merge_state 10) sample_rows) (fun p => SOk (map (hd 0) (snd p))) = SOk (range 0 24).
Proof.
  split; [|vm_compute; reflexivity].
  destruct (SorterMultiPass_sorts 1 2 (fun _ k => Z.of_nat k) (fun _ _ => false) (fun _ _ => false) (fun _ l => first_least 1 l)
    (replicate 10 []) (replicate 20 0) (CI_new ∅ (-1)) 3) as [H].
  - reflexivity.
  - reflexivity.
  - reflexivity.
  - reflexivity.
  - split; [apply Stores_new|cbn; lia].
  - intros k l Hl. by apply first_least_spec.
  - destruct (H sample_rows) as [(s & out & E & Hp & Hs & _)|[_ [(b & k & Hk)|(k & b & Hk)]]].
    + split; [vm_compute; repeat constructor|]. split; [vm_compute; discriminate|vm_compute; reflexivity].
    + exists s, out. split; [exact E|]. split; [exact Hp|exact Hs].
    + discriminate Hk.
    + discriminate Hk.
Defined.

(** With three or more blocks for a buffer of four rows the part of the last block has no rows, and
    its rows are lost. *)
Theorem SorterMultiPass_lost_rows :
  sbind (sort_rows merge_sorter (merge_state 4) (take 9 sample_rows)) (fun p => SOk (length (snd p))) = SOk 8%nat.
Proof. vm_compute. reflexivity. Qed.

(** A rewind before the first row is read divides by the number of blocks, which is zero. *)
Theorem SorterMultiPass_early_rewind : Multi_Rewind 2 (fun _ _ => false) (merge_state 4) = SFault.
Proof. reflexivity. Qed.

(** A buffer of [2^31] bytes: the size of its block is not an [int]. *)
Theorem SorterMultiPass_2GB :
  sort_rows (SorterMultiPass 1 (2 ^ 30) (fun _ _ => 0) (fun _ _ => false) (fun _ _ => false) (fun _ l => first_least 1 l))
    (merge_state 2) [[1]; [2]; [3]] = SFault.
Proof. vm_compute. reflexivity. Qed.
