(* ===== verification/SorterCreate.v ===== *)
(** * Choosing a sorter (core/Sorter3.cpp)

    [CreateSorter] chooses one of the four sorters by the number of rows, the size of a row, the
    limit of the query and the memory.  The rows put into the sorter it chooses come back in
    order: all of them, or with a limit the smallest ones. *)

From Stdlib Require Import Sorted.
From stdpp Require Import gmap.
From S2P Require Import Prelude QSort KeyOrder Sorter SorterCount SorterLimit CacheItem SorterMulti.

(** The sorter and the number of rows it is created for. *)
Inductive sorter_choice :=
  | NewLimit (n : Z)
  | NewCounting (n : Z)
  | NewOnePass (n : Z)
  | NewMultiPass (n : Z).

Definition MBYTE : Z := 1048576.

(** [max_buffer] is [TrackableObject::MaxBufferSize(mem_modifier)]; [None] is a failed assertion. *)
Definition CreateSorter (size key_bytes total_bytes limit max_buffer : Z) : option sorter_choice :=
  let max_mem_size := if 64 * MBYTE <? swrap 64 (size * total_bytes * 2) then max_buffer * 2 else 64 * MBYTE in
  let max_no_rows := Z.quot max_mem_size total_bytes in
  if negb (limit =? -1) && (limit <? Z.quot max_no_rows 3) && (limit <? Z.quot size 3) then
    if 0 <=? limit then Some (NewLimit (wrap 32 limit)) else None
  else if size <? max_no_rows then
    if (swrap 64 (size * 2) <? max_no_rows) &&
       (((key_bytes =? 1) && (1024 <? size)) || ((key_bytes =? 2) && (256000 <? size))) then Some (NewCounting (wrap 32 size))
    else Some (NewOnePass (wrap 32 size))
  else Some (NewMultiPass (wrap 32 max_no_rows)).

Section Run.
Context {St : Type} `{BlockStore St} (key_bytes : nat) (total_bytes : Z).
Context (rand : Z -> nat -> Z) (killed : Z -> nat -> bool) (killed_load : nat -> Z -> bool) (pick : nat -> list row -> nat).
Context (alloc : Z -> list row) (alloc_queue : Z -> list Z) (st : St).

(** The buffer of [n] rows that a constructor allocates; the product [size * total_bytes] of 32 bits
    must be the number of its bytes. *)
Definition new_buffer (n : Z) : sres (list row) :=
  if wrap 32 (n * total_bytes) =? n * total_bytes then SOk (alloc n) else SFault.

(** The rows put into the new sorter and read from it. *)
Definition run_sorter (c : sorter_choice) (rows : list row) : sres (list row) :=
  match c with
  | NewLimit n =>
      mem <~ new_buffer n;
      p <~ sort_rows (SorterLimit key_bytes (rand 0) (killed 0)) (Limit_new mem (alloc_queue n)) rows; SOk (snd p)
  | NewCounting n =>
      mem <~ new_buffer n;
      out <~ new_buffer n;
      p <~ sort_rows (SorterCounting key_bytes) (Counting_new mem out) rows; SOk (snd p)
  | NewOnePass n =>
      mem <~ new_buffer n;
      p <~ sort_rows (SorterOnePass key_bytes (rand 0) (killed 0)) (OnePass_new mem (alloc_queue n)) rows; SOk (snd p)
  | NewMultiPass n =>
      mem <~ new_buffer n;
      p <~ sort_rows (SorterMultiPass key_bytes total_bytes rand killed killed_load pick) (Multi_new mem (alloc_queue n) st) rows; SOk (snd p)
  end.

(** What the memory, the queue and the disk promise. *)
Record Environment (K : Z) : Prop := {
  env_alloc : forall n, 0 <= n -> zlen (alloc n) = n;
  env_queue : forall n, 0 <= n -> zlen (alloc_queue n) = 2 * bound_queue_size n;
  env_pick : forall k l, l <> [] -> (pick k l < length l)%nat /\ forall r, r ∈ l -> key_le key_bytes (nth (pick k l) l []) r;
  env_store : represents st ∅ K
}.

(** The rows of a query for which [size] rows were announced to [CreateSorter].  When they are
    more than 32 MB, the memory of the sorter with two more rows is below [2^31] bytes, and the
    blocks of the merge sorter are few enough for its buffer and for the disk. *)
Record Request (size : Z) (rows : list row) (limit max_buffer K : Z) : Prop := {
  rq_total : 0 < total_bytes < 2 ^ 31;
  rq_size : 0 < zlen rows <= size;
  rq_int : size < 2 ^ 31;
  rq_rows : Forall (fun r => length r = Z.to_nat total_bytes) rows;
  rq_bytes : Forall byte_row rows;
  rq_limit : limit = -1 \/ 0 < limit <= zlen rows \/ size <= limit;
  rq_memory : 64 * MBYTE <= size * total_bytes * 2 ->
    let n := max_buffer * 2 / total_bytes in
    0 < n /\ (n + 2) * total_bytes < 2 ^ 31 /\ zlen rows <= K * n /\ 3 * ((zlen rows - 1) / n) < n
}.

(** Sorted rows, and no row that is left out has a smaller key. *)
Definition answers (rows out : list row) (limit : Z) : Prop :=
  StronglySorted (key_le key_bytes) out /\
  exists dropped, out ++ dropped ≡ₚ rows /\ (dropped = [] \/ zlen out = limit) /\ forall r d, r ∈ out -> d ∈ dropped -> key_le key_bytes r d.

Lemma answers_all rows out limit : out ≡ₚ rows -> StronglySorted (key_le key_bytes) out -> answers rows out limit.
Proof. intros Hp Hs. split; [done|]. exists []. rewrite app_nil_r. split; [done|]. split; [by left|]. intros r d _ Hd. by apply elem_of_nil in Hd. Qed.

Lemma Sorts_answers S Rewind kill s0 fits rows limit :
  Sorts key_bytes S Rewind kill s0 fits -> fits rows ->
  (exists out, sbind (sort_rows S s0 rows) (fun p => SOk (snd p)) = SOk out /\ answers rows out limit) \/
  (sbind (sort_rows S s0 rows) (fun p => SOk (snd p)) = SKilled /\ kill).
Proof.
  intros [Hs] Hf. destruct (Hs rows Hf) as [(s & out & -> & Hp & Hso & _)|[-> Hk]]; [left|by right]. exists out. split; [done|by apply answers_all].
Qed.

(** The rows that fit the memory: their number is the one [CreateSorter] compares with. *)
Lemma memory_rows size rows limit max_buffer K :
  Request size rows limit max_buffer K ->
  exists n, Z.quot (if 64 * MBYTE <? swrap 64 (size * total_bytes * 2) then max_buffer * 2 else 64 * MBYTE) total_bytes = n /\
    0 <= n < 2 ^ 31 /\ n * total_bytes < 2 ^ 31 /\
    (size < n \/ 0 < n /\ (n + 2) * total_bytes < 2 ^ 31 /\ zlen rows <= K * n /\ 3 * ((zlen rows - 1) / n) < n).
Proof.
  intros [R1 R2 R2' R3 R4 R5 R6]. assert (0 < size * total_bytes < 2 ^ 62) as Hprod by nia.
  rewrite swrap_id by (try done; unfold is_sword; lia). eexists. split; [reflexivity|].
  destruct (Z.ltb_spec (64 * MBYTE) (size * total_bytes * 2)) as [Hgt|Hle].
  - destruct R6 as (R61 & R62 & R63); [lia|]. rewrite Z.quot_div_nonneg; [|pose proof (Z.mul_div_le (max_buffer * 2) total_bytes ltac:(lia)); nia|lia].
    split; [nia|]. split; [nia|]. right. done.
  - unfold MBYTE in *. rewrite Z.quot_div_nonneg by lia. pose proof (Z.mul_div_le (64 * 1048576) total_bytes ltac:(lia)).
    assert (0 <= 64 * 1048576 / total_bytes) by (apply Z.div_pos; lia). split; [nia|]. split; [nia|]. left.
    apply Z.lt_le_trans with (2 * size); [lia|]. apply Z.div_le_lower_bound; lia.
Qed.

Lemma new_buffer_ok n : 0 < total_bytes -> 0 <= n -> n * total_bytes < 2 ^ 31 -> new_buffer n = SOk (alloc n).
Proof. intros. unfold new_buffer. rewrite wrap_id by (unfold is_word; nia). by rewrite Z.eqb_refl. Qed.

Lemma run_sorter_spec K size rows limit max_buffer :
  Environment K -> Request size rows limit max_buffer K ->
  exists c, CreateSorter size (Z.of_nat key_bytes) total_bytes limit max_buffer = Some c /\
    ((exists out, run_sorter c rows = SOk out /\ answers rows out limit) \/
     (run_sorter c rows = SKilled /\ any_killed killed killed_load)).
Proof.
  intros [E1 E2 E3 E4] HR. unfold CreateSorter. cbv zeta. destruct (memory_rows _ _ _ _ _ HR) as (n & -> & Hn0 & Hnb & Hcap).
  destruct HR as [R1 R2 R2' R3 R4 R5 R6]. rewrite swrap_id by (try done; unfold is_sword; lia).
  assert (rows <> []) as Hne by (intros ->; unfold zlen in R2; simpl in R2; lia).
  assert (forall w, 0 <= w < 2 ^ 31 -> wrap 32 w = w) as Hw by (intros w Hwr; apply wrap_id; unfold is_word; lia).
  destruct (negb (limit =? -1) && (limit <? Z.quot n 3) && (limit <? Z.quot size 3)) eqn:El.
  - apply andb_true_iff in El as [El E3']. apply andb_true_iff in El as [El E4']. apply Z.ltb_lt in E3', E4'. rewrite Z.quot_div_nonneg in E3', E4' by lia.
    pose proof (Z.mul_div_le size 3). pose proof (Z.mul_div_le n 3).
    destruct (Z.eqb_spec limit (-1)); [done|]. destruct R5 as [?|[R5|?]]; [done| |lia]. destruct (Z.leb_spec 0 limit); [|lia]. eexists. split; [reflexivity|].
    rewrite Hw by lia. cbn [run_sorter]. rewrite new_buffer_ok by (done || nia). cbn [sbind].
    destruct (Limit_smallest_lemma key_bytes (rand 0) (killed 0) (alloc limit) (alloc_queue limit) rows) as [(s & out & dropped & -> & Hp & Hz & Hs & Hle)|[-> [k Hk]]];
      [rewrite E1 by lia; lia|rewrite E1, E2 by lia; done|left|right; split; [done|left; by exists 0, k]].
    exists out. split; [done|]. split; [done|]. exists dropped. split; [done|]. rewrite E1 in Hz by lia. split; [by right|done].
  - destruct (Z.ltb_spec size n) as [Hlt|Hge].
    + clear El. destruct ((size * 2 <? n) && _) eqn:Ec; eexists; (split; [reflexivity|]); rewrite Hw by lia; cbn [run_sorter];
        rewrite !new_buffer_ok by (done || nia); cbn [sbind].
      * assert (key_bytes = 1%nat \/ key_bytes = 2%nat) as Hk.
        { apply andb_true_iff in Ec as [_ Ec]. apply orb_true_iff in Ec as [Ec|Ec]; apply andb_true_iff in Ec as [Ec _]; apply Z.eqb_eq in Ec; [left|right]; lia. }
        destruct (Sorts_answers _ _ _ _ _ rows limit (Counting_sorts_lemma key_bytes Hk (alloc size) (alloc size) eq_refl)) as [?|[_ []]]; [|by left].
        split; [done|]. split; [|done]. rewrite E1 by lia. lia.
      * destruct (Sorts_answers _ _ _ _ _ rows limit (OnePass_sorts_lemma key_bytes (rand 0) (killed 0) (alloc size) (alloc_queue size) ltac:(rewrite E1, E2 by lia; done)))
          as [?|[? [k Hk]]]; [rewrite E1 by lia; lia|by left|right; split; [done|left; by exists 0, k]].
    + destruct Hcap as [?|(Hn1 & Hb & HK & Hsmall)]; [lia|]. eexists. split; [reflexivity|]. rewrite Hw by lia. cbn [run_sorter].
      rewrite new_buffer_ok by (done || nia). cbn [sbind].
      destruct (Sorts_answers _ _ _ _ _ rows limit (Multi_sorts_lemma key_bytes total_bytes rand killed killed_load pick ltac:(lia) K E3 (alloc n) (alloc_queue n) st E4
        ltac:(rewrite E1 by lia; lia) ltac:(rewrite E1 by lia; lia) ltac:(rewrite E1, E2 by lia; done))) as [?|[? ?]]; [rewrite E1 by lia; done|by left|by right].
Qed.

End Run.

(** C11: at least one row and at most the announced number of rows (below [2^31]) are put into the
    sorter that [CreateSorter] chooses; the limit is -1, or positive and at most the number of rows
    put, or at least the number announced; when the announced rows take 32 MB or more, the memory with
    two more rows is below [2^31] bytes, and the blocks of the merge sorter are below a third of the
    rows of its buffer and no more than the disk takes.  Then no size overflows, and the rows come back
    in the order of their keys: all of them, or, with a limit, the smallest ones; otherwise the query
    was killed. *)
Theorem CreateSorter_answers {St : Type} `{BlockStore St} (key_bytes : nat) (total_bytes : Z)
    (rand : Z -> nat -> Z) (killed : Z -> nat -> bool) (killed_load : nat -> Z -> bool) (pick : nat -> list row -> nat)
    (alloc : Z -> list row) (alloc_queue : Z -> list Z) (st : St) (K size : Z) (rows : list row) (limit max_buffer : Z)
    (Henv : Environment key_bytes pick alloc alloc_queue st K) (Hreq : Request total_bytes size rows limit max_buffer K) :
  exists c, CreateSorter size (Z.of_nat key_bytes) total_bytes limit max_buffer = Some c /\
    ((exists out, run_sorter key_bytes total_bytes rand killed killed_load pick alloc alloc_queue st c rows = SOk out /\ answers key_bytes rows out limit) \/
     (run_sorter key_bytes total_bytes rand killed killed_load pick alloc alloc_queue st c rows = SKilled /\ any_killed killed killed_load)).
Proof. by apply (run_sorter_spec key_bytes total_bytes rand killed killed_load pick alloc alloc_queue st K). Qed.

(** Four of five announced rows, the two smallest are wanted: the limit is too large for the heap,
    so all rows are sorted. *)
Lemma CreateSorter_answers_witness :
  CreateSorter 5 1 2 2 1000 = Some (NewOnePass 5) /\
  exists out, run_sorter 1 2 (fun _ _ => 0) (fun _ _ => false) (fun _ _ => false) (fun _ l => first_least 1 l) (fun n => replicate (Z.to_nat n) [])
    (fun n => replicate (Z.to_nat (2 * bound_queue_size n)) 0) (CI_new ∅ (-1)) (NewOnePass 5) [[3; 0]; [1; 1]; [2; 2]; [1; 3]] = SOk out /\
    answers 1 [[3; 0]; [1; 1]; [2; 2]; [1; 3]] out 2.
Proof.
  split; [reflexivity|].
  destruct (CreateSorter_answers 1 2 (fun _ _ => 0) (fun _ _ => false) (fun _ _ => false) (fun _ l => first_least 1 l) (fun n => replicate (Z.to_nat n) [])
    (fun n => replicate (Z.to_nat (2 * bound_queue_size n)) 0) (CI_new ∅ (-1)) 5 5 [[3; 0]; [1; 1]; [2; 2]; [1; 3]] 2 1000) as (c & Ec & [(out & E & Ha)|[_ [(b & k & Hk)|(k & b & Hk)]]]).
  - constructor.
    + intros n Hn. by apply zlen_replicate.
    + intros n Hn. apply zlen_replicate. unfold bound_queue_size. cmp_solve.
    + intros k l Hl. by apply first_least_spec.
    + split; [apply Stores_new|cbn; lia].
  - constructor; try (vm_compute; intuition discriminate); repeat constructor; vm_compute; discriminate.
  - vm_compute in Ec. injection Ec as <-. exists out. split; [exact E|exact Ha].
  - discriminate Hk.
  - discriminate Hk.
Defined.

(** The other choices. *)
Example CreateSorter_limit : CreateSorter 1000 1 2 100 1000 = Some (NewLimit 100).
Proof. reflexivity. Qed.

Example CreateSorter_counting : CreateSorter 2000 1 2 (-1) 1000 = Some (NewCounting 2000).
Proof. reflexivity. Qed.

Example CreateSorter_merge : CreateSorter 100000000 8 16 (-1) 67108864 = Some (NewMultiPass 8388608).
Proof. reflexivity. Qed.

(** The largest buffer, 1 GB, is doubled: a merge sorter of exactly [2^31] bytes is created, whose
    first block has no [int] size. *)
Example CreateSorter_2GB : CreateSorter 100000000 8 32 (-1) (2 ^ 30) = Some (NewMultiPass (2 ^ 31 / 32)).
Proof. reflexivity. Qed.
