(* ===== verification/DoubleSums.v ===== *)
(** * Sums and products of doubles, with their rounding errors

    The aggregators compute a sum a second time with doubles, to see whether it leaves the range of
    64-bit integers (core/AggregatorBasic.cpp).  The results are rounded as in Doubles; here is how
    far from the exact value they are. *)

From S2P Require Import Prelude Doubles.

Definition dneg (a : double) : double :=
  match a with DFin k => DFin (- k) | DInf s => DInf (negb s) | DNaN => DNaN end.

Definition dadd (a b : double) : double := dsub a (dneg b).

(** A product of finite numbers; the conversions of 64-bit integers are finite. *)
Definition dmul (a b : double) : double :=
  match a, b with
  | DFin x, DFin y => round_units (x * y) one_units
  | _, _ => DNaN
  end.

(** ** Rounding errors *)

Lemma round_half_even_error n d : 0 < d -> 2 * Z.abs (round_half_even n d * d - n) <= d.
Proof.
  intros Hd. unfold round_half_even. pose proof (Z.div_mod n d ltac:(lia)). pose proof (Z.mod_pos_bound n d Hd).
  cmp_solve; try nia. destruct (Z.even _); nia.
Qed.

Lemma excess_bound q : 0 <= q -> 0 < excess q -> 2 ^ excess q * 2 ^ 52 <= q.
Proof.
  unfold excess. intros Hq He. rewrite <- Z.pow_add_r by lia. replace (Z.max 0 (Z.log2 q - 52) + 52) with (Z.log2 q) by lia.
  apply Z.log2_spec. destruct (Z.eq_dec q 0) as [->|]; [cbn in He|]; lia.
Qed.

Lemma round53_error n d : 0 <= n -> 0 < d -> 2 ^ 53 * Z.abs (round53 n d * d - n) <= n + d * 2 ^ 52.
Proof.
  intros Hn Hd. unfold round53. set (k := excess (n / d)). assert (Hk : 0 < 2 ^ k) by (apply pow2_pos, excess_nonneg).
  pose proof (round_half_even_error n (d * 2 ^ k) ltac:(nia)) as E.
  replace (round_half_even n (d * 2 ^ k) * 2 ^ k * d) with (round_half_even n (d * 2 ^ k) * (d * 2 ^ k)) by ring.
  set (e := Z.abs _) in *. assert (2 ^ 52 * (d * 2 ^ k) <= n + d * 2 ^ 52); [|lia].
  destruct (Z.eq_dec k 0) as [->|]; [lia|].
  pose proof (excess_bound (n / d) ltac:(apply Z.div_pos; lia) ltac:(unfold k in *; pose proof (excess_nonneg (n / d)); lia)) as B.
  fold k in B. pose proof (Z.mul_div_le n d Hd). nia.
Qed.

(** A result up to [2 ^ 130] is finite and within [(|n| + 2^52 d) / 2^53] of [n], in units of [1/d]. *)
Lemma round_units_error n d :
  0 < d -> Z.abs n <= 2 ^ 130 * one_units * d ->
  exists k, round_units n d = DFin k /\ 2 ^ 53 * Z.abs (k * d - n) <= Z.abs n + d * 2 ^ 52.
Proof.
  intros Hd Hn. unfold round_units. pose proof (round53_error (Z.abs n) d ltac:(lia) Hd) as E.
  pose proof (round53_nonneg (Z.abs n) d ltac:(lia) Hd). set (r := round53 _ _) in *.
  exists (Z.sgn n * r). assert (Z.abs (Z.sgn n * r) <= r) by (destruct (Z.sgn_spec n) as [[? ->]|[[? ->]|[? ->]]]; lia).
  assert (r * d <= 2 * (2 ^ 130 * one_units * d) + d * 2 ^ 52) as Hr.
  { assert (r * d - Z.abs n <= Z.abs n + d * 2 ^ 52); [|lia]. lia. }
  pose proof one_units_pos. assert (2 ^ 52 <= one_units) by (rewrite one_units_pow; apply Z.pow_le_mono_r; lia).
  assert (r <= 2 * (2 ^ 130 * one_units) + one_units) by nia.
  assert ((max_units <=? Z.abs (Z.sgn n * r)) = false) as ->.
  { apply Z.leb_gt. rewrite max_units_pow. assert (2 * 2 ^ 130 + 1 < 2 ^ 1024) by reflexivity. nia. }
  split; [done|]. destruct (Z.sgn_spec n) as [[? ->]|[[? ->]|[? ->]]]; lia.
Qed.

(** ** Sums of 64-bit integers *)

Lemma one_units_large : 2 ^ 52 <= one_units.
Proof. rewrite one_units_pow. apply Z.pow_le_mono_r; lia. Qed.

Lemma double_of_int_error z :
  Z.abs z <= 2 ^ 64 -> exists k, double_of_int z = DFin k /\ 2 ^ 52 * Z.abs (k - z * one_units) <= Z.abs z * one_units.
Proof.
  intros Hz. pose proof one_units_large. set (U := one_units) in *.
  destruct (round_units_error (z * U) 1 ltac:(lia)) as (k & E & B).
  { rewrite Z.abs_mul, (Z.abs_eq U), Z.mul_1_r by lia. apply Z.mul_le_mono_nonneg_r; lia. }
  exists k. split; [done|]. rewrite Z.mul_1_r, Z.mul_1_l, Z.abs_mul, (Z.abs_eq U) in B by lia.
  destruct (Z.eq_dec z 0) as [->|]; [lia|]. assert (U <= Z.abs z * U) by nia. lia.
Qed.

Lemma product_error U v f x y :
  0 < U -> 2 ^ 52 * Z.abs (x - v * U) <= Z.abs v * U -> 2 ^ 52 * Z.abs (y - f * U) <= Z.abs f * U ->
  2 ^ 52 * Z.abs (x * y - v * f * U * U) <= 3 * (Z.abs (v * f) * U * U).
Proof.
  intros HU Ha Hb. set (a := x - v * U) in *. set (b := y - f * U) in *.
  replace (x * y - v * f * U * U) with (v * U * b + (f * U * a + a * b)) by (unfold a, b; ring).
  assert (Z.abs (v * U * b + (f * U * a + a * b)) <= Z.abs v * U * Z.abs b + (Z.abs f * U * Z.abs a + Z.abs a * Z.abs b)) as Ht.
  { eapply Z.le_trans; [apply Z.abs_triangle|]. apply Z.add_le_mono; [by rewrite !Z.abs_mul, (Z.abs_eq U) by lia|].
    eapply Z.le_trans; [apply Z.abs_triangle|]. by rewrite !Z.abs_mul, (Z.abs_eq U) by lia. }
  rewrite Z.abs_mul. set (V := Z.abs v) in *. set (F := Z.abs f) in *. set (A := Z.abs a) in *. set (B := Z.abs b) in *.
  assert (0 <= V /\ 0 <= F /\ 0 <= A /\ 0 <= B) as (? & ? & ? & ?) by (unfold V, F, A, B; lia).
  assert (V * U * (2 ^ 52 * B) <= V * U * (F * U)) by (apply Z.mul_le_mono_nonneg_l; nia).
  assert (F * U * (2 ^ 52 * A) <= F * U * (V * U)) by (apply Z.mul_le_mono_nonneg_l; nia).
  assert (A * (2 ^ 52 * B) <= A * (F * U)) by (apply Z.mul_le_mono_nonneg_l; nia).
  assert (0 <= F * U * A) by (repeat apply Z.mul_nonneg_nonneg; lia). lia.
Qed.

(** [x] is [t] up to a relative error of [2 ^ -49]. *)
Definition approximates (x : double) (t : Z) : Prop :=
  exists k, x = DFin k /\ 2 ^ 49 * Z.abs (k - t * one_units) <= Z.abs t * one_units.

Lemma double_of_int_approximates z : Z.abs z <= 2 ^ 64 -> approximates (double_of_int z) z.
Proof. intros Hz. destruct (double_of_int_error z Hz) as (k & E & B). exists k. split; [done|lia]. Qed.

Lemma dmul_int_approximates v f :
  Z.abs v <= 2 ^ 64 -> Z.abs f <= 2 ^ 64 -> approximates (dmul (double_of_int v) (double_of_int f)) (v * f).
Proof.
  intros Hv Hf. destruct (double_of_int_error v Hv) as (x & -> & Hx), (double_of_int_error f Hf) as (y & -> & Hy).
  pose proof one_units_large. pose proof one_units_pos. cbn [dmul]. set (U := one_units) in *.
  pose proof (product_error U v f x y ltac:(lia) Hx Hy) as P. set (W := Z.abs (v * f)) in *.
  assert (W <= 2 ^ 128) by (unfold W; rewrite Z.abs_mul; nia). assert (0 <= W) by (unfold W; lia).
  assert (Hxy : 2 ^ 52 * Z.abs (x * y) <= 2 ^ 53 * (W * U * U)).
  { assert (Z.abs (x * y) <= Z.abs (x * y - v * f * U * U) + Z.abs (v * f * U * U)) by lia.
    assert (Z.abs (v * f * U * U) = W * U * U) by (unfold W; rewrite !Z.abs_mul, (Z.abs_eq U) by lia; lia).
    assert (0 <= W * U * U) by (repeat apply Z.mul_nonneg_nonneg; lia). lia. }
  destruct (round_units_error (x * y) U ltac:(lia)) as (k & E & B).
  { assert (W * U * U <= 2 ^ 128 * U * U) by (apply Z.mul_le_mono_nonneg_r; [lia|]; apply Z.mul_le_mono_nonneg_r; lia). lia. }
  exists k. split; [done|].
  assert (Hk : 2 ^ 49 * (Z.abs (k - v * f * U) * U) <= W * U * U).
  { rewrite <- (Z.abs_eq U) at 2 by lia. rewrite <- Z.abs_mul, Z.mul_sub_distr_r.
    destruct (Z.eq_dec W 0) as [W0|].
    - assert (x * y = 0) as Exy by (rewrite W0 in Hxy; lia). rewrite Exy in *. assert (v * f = 0) as -> by (unfold W in W0; lia).
      rewrite W0. assert (k * U = 0); [|lia]. assert (Z.abs (k * U) < U) as Hk by lia. rewrite Z.abs_mul, (Z.abs_eq U) in Hk by lia.
      assert (Z.abs k < 1) by (apply (Z.mul_lt_mono_pos_r U); lia). replace k with 0 by lia. lia.
    - assert (U * 2 ^ 52 <= W * U * U) by nia. lia. }
  apply Z.mul_le_mono_pos_r with U; lia.
Qed.

Lemma sum_check_error p t y :
  Z.abs p <= 2 ^ 64 -> Z.abs t <= 2 ^ 128 -> approximates y t ->
  exists r, dadd (double_of_int p) y = DFin r
            /\ 2 ^ 47 * Z.abs (r - (p + t) * one_units) <= (Z.abs p + Z.abs t) * one_units.
Proof.
  intros Hp W (k & -> & Hk). destruct (double_of_int_error p Hp) as (x & -> & Hx).
  pose proof one_units_large. unfold dadd. cbn [dneg dsub]. set (U := one_units) in *.
  assert (Hs : 2 ^ 49 * Z.abs (x - - k - (p + t) * U) <= (Z.abs p + Z.abs t) * U).
  { replace (x - - k - (p + t) * U) with ((x - p * U) + (k - t * U)) by ring. lia. }
  assert (Z.abs ((p + t) * U) <= (Z.abs p + Z.abs t) * U) by (rewrite Z.abs_mul, (Z.abs_eq U) by lia; apply Z.mul_le_mono_nonneg_r; lia).
  destruct (round_units_error (x - - k) 1 ltac:(lia)) as (r & E & B).
  { assert ((Z.abs p + Z.abs t) * U <= 2 ^ 129 * U) by (apply Z.mul_le_mono_nonneg_r; lia). lia. }
  exists r. split; [done|]. destruct (Z.eq_dec (Z.abs p + Z.abs t) 0) as [E0|].
  - assert (p = 0 /\ t = 0) as [-> ->] by lia. lia.
  - assert (U <= (Z.abs p + Z.abs t) * U) by (rewrite <- (Z.mul_1_l U) at 1; apply Z.mul_le_mono_nonneg_r; lia).
    set (N := (Z.abs p + Z.abs t) * U) in *. set (T := (p + t) * U) in *. set (s := x - - k) in *. clearbody N T s. lia.
Qed.

(** ** The check of a sum *)

(** [9.223372037e+18], which the compiler rounds to a double. *)
Definition sum_limit : double := double_of_int 9223372037000000000.

Definition overflows (x : double) : bool := dlt sum_limit x || dlt x (dneg sum_limit).

Lemma sum_limit_value : sum_limit = DFin (9223372036999999488 * one_units).
Proof. vm_compute. reflexivity. Qed.

Lemma overflows_finite r : overflows (DFin r) = (9223372036999999488 * one_units <? Z.abs r).
Proof.
  unfold overflows. rewrite sum_limit_value. cbn [dlt dneg]. pose proof one_units_pos. cmp_solve.
Qed.

(** The check lets each sum pass that is a 64-bit integer, and stops each of [2^63 + 2^28] or more. *)
Lemma sum_in_range_passes p t y :
  approximates y t -> Z.abs p <= 2 ^ 63 -> Z.abs t <= 2 ^ 63 -> Z.abs (p + t) <= 2 ^ 63 ->
  overflows (dadd (double_of_int p) y) = false.
Proof.
  intros Hy Hp Ht Hs. destruct (sum_check_error p t y ltac:(lia) ltac:(lia) Hy) as (r & -> & B).
  rewrite overflows_finite. pose proof one_units_pos. set (U := one_units) in *. clearbody U. apply Z.ltb_ge.
  assert ((Z.abs p + Z.abs t) * U <= 2 ^ 64 * U) by (apply Z.mul_le_mono_nonneg_r; lia).
  assert (Z.abs ((p + t) * U) <= 2 ^ 63 * U) by (rewrite Z.abs_mul, (Z.abs_eq U) by lia; apply Z.mul_le_mono_nonneg_r; lia).
  set (T := (p + t) * U) in *. set (N := (Z.abs p + Z.abs t) * U) in *. clearbody N T. lia.
Qed.

Lemma sum_out_of_range_stops p t y :
  approximates y t -> Z.abs p <= 2 ^ 63 -> Z.abs t <= 2 ^ 126 -> 2 ^ 63 + 2 ^ 28 <= Z.abs (p + t) ->
  overflows (dadd (double_of_int p) y) = true.
Proof.
  intros Hy Hp Ht Hs. destruct (sum_check_error p t y ltac:(lia) ltac:(lia) Hy) as (r & -> & B).
  rewrite overflows_finite. pose proof one_units_pos. set (U := one_units) in *. clearbody U. apply Z.ltb_lt.
  set (s := p + t) in *. assert (Z.abs p + Z.abs t <= 5 * Z.abs s) as H5 by (unfold s in *; lia).
  assert ((Z.abs p + Z.abs t) * U <= 5 * Z.abs s * U) by (apply Z.mul_le_mono_nonneg_r; lia).
  assert ((2 ^ 63 + 2 ^ 28) * U <= Z.abs s * U) by (apply Z.mul_le_mono_nonneg_r; lia).
  assert (Z.abs (s * U) = Z.abs s * U) as ET by (rewrite Z.abs_mul, (Z.abs_eq U) by lia; done).
  set (N := (Z.abs p + Z.abs t) * U) in *. set (T := s * U) in *. rewrite <- ET in *.
  replace (5 * Z.abs s * U) with (5 * Z.abs T) in * by lia. clearbody N T. lia.
Qed.
