(* ===== verification/Aggregators.v ===== *)
(** * Aggregate functions (core/Aggregator.h, core/AggregatorBasic.h, .cpp, core/AggregatorAdvanced.h, .cpp)

    An aggregator is one object for a column of a grouping; the counters of the groups are cells of
    [BufferByteSize] bytes in the rows of a grouping table.  Here are the aggregators of integers
    (COUNT, SUM, MIN, MAX, the first value, BIT_AND, BIT_OR, BIT_XOR), the extrema of doubles and
    the aggregators of texts.  The classes of 32 and of 64 bits are one definition with a width, the
    classes with a collation are those without with another comparison.  SUM, AVG and the variances
    of doubles are not modelled.

    A C++ exception is [AThrow]; a signed overflow and an access outside the cell are [AUndef]. *)

From S2P Require Import Prelude BinTools ByteFile Doubles DoubleSums KeyOrder IntEncoders TextEncoders.

Inductive ares (A : Type) := AOk (a : A) | AThrow | AUndef.
Arguments AOk {A}.
Arguments AThrow {A}.
Arguments AUndef {A}.

Definition abind {A B : Type} (e : ares A) (f : A -> ares B) : ares B :=
  match e with AOk a => f a | AThrow => AThrow | AUndef => AUndef end.

Notation "x <<- e ; f" := (abind e (fun x => f)) (at level 100, e at next level, f at level 200, right associativity).

(** ** Integers in cells *)

Inductive width := W32 | W64.

Definition wbits (w : width) : Z := match w with W32 => 32 | W64 => 64 end.
Definition wbytes (w : width) : nat := match w with W32 => 4 | W64 => 8 end.
Definition wnull (w : width) : Z := match w with W32 => - 0x80000000 | W64 => NULL_VALUE_64 end.
Definition wmax (w : width) : Z := match w with W32 => 0x7FFFFFFF | W64 => PLUS_INF_64 end.
Definition wmin (w : width) : Z := match w with W32 => - 0x80000000 | W64 => MINUS_INF_64 end.

Definition load (w : width) (cell : list Z) : Z := swrap (wbits w) (of_le (take (wbytes w) cell)).
Definition store (w : width) (v : Z) : list Z := bytes_le (wbytes w) v.

Definition checked (w : width) (v : Z) : ares Z :=
  if (- 2 ^ (wbits w - 1) <=? v) && (v <? 2 ^ (wbits w - 1)) then AOk v else AUndef.

(** ** Texts in cells: the length, the text, zeros; an empty text has a nonzero first character *)

Definition text_cell (val_len : Z) (s : list Z) : list Z :=
  bytes_le 2 (zlen s) ++ (if zlen s =? 0 then [1] else s)
  ++ replicate (Z.to_nat (val_len - Z.max 1 (zlen s))) 0.

Definition cell_len (cell : list Z) : Z := of_le (take 2 cell).
Definition text_null (cell : list Z) : bool := (cell_len cell =? 0) && (cell.[0|2] =? 0).

(** [strlen] of what is left of the cell. *)
Fixpoint cstring (l : list Z) : option (list Z) :=
  match l with
  | [] => None
  | c :: l => if c =? 0 then Some [] else option_map (cons c) (cstring l)
  end.

(** [RCBString(buf + 2, len)], which takes the length of a zero-terminated text if [len] is 0. *)
Definition cell_string (cell : list Z) : ares (list Z) :=
  if cell_len cell =? 0 then match cstring (drop 2 cell) with Some s => AOk s | None => AUndef end
  else AOk (take (Z.to_nat (cell_len cell)) (drop 2 cell)).

Definition cell_GetValueT (cell : list Z) : option (list Z) :=
  if cell_len cell =? 0 then if negb (cell.[0|2] =? 0) then Some [] else None
  else Some (take (Z.to_nat (cell_len cell)) (drop 2 cell)).

(** Writing a text over a cell: the rest is cleared, except by [AggregatorListT]. *)
Definition put_text (val_len : Z) (s : list Z) : ares (list Z) :=
  if val_len <? Z.max 1 (zlen s) then AUndef else AOk (text_cell val_len s).

Definition put_text_over (cell s : list Z) : ares (list Z) :=
  if zlen cell - 2 <? Z.max 1 (zlen s) then AUndef
  else AOk (overwrite (overwrite cell 0 (bytes_le 2 (zlen s))) 2 (if zlen s =? 0 then [1] else s)).

(** ** The aggregators *)

Record CountSt := mkCount { max_counter : Z; cur_min_counter : Z; pack_count : Z }.
Record SumSt := mkSum { pack_sum : Z; pack_min : Z; pack_max : Z; sum_null_group : bool }.
(** [stat_max] and [pack_min] of a minimum, [stat_min] and [pack_max] of a maximum; of doubles,
    their bits. *)
Record BoundSt := mkBound { stat : Z; pack_bound : Z; null_group_found : bool }.

Inductive kind :=
  | Count (w : width) (c : CountSt)
  | Sum64 (s : SumSt)
  | Min (w : width) (b : BoundSt)
  | Max (w : width) (b : BoundSt)
  | MinD (b : BoundSt)
  | MaxD (b : BoundSt)
  | MinT (val_len : Z) (cmp : list Z -> list Z -> Z)
  | MaxT (val_len : Z) (cmp : list Z -> list Z -> Z)
  | First (w : width) (value_set : bool)
  | FirstT (val_len : Z) (value_set : bool)
  | BitAnd | BitOr | BitXor.

Record Aggregator := mkAgg { stats_updated : bool; akind : kind }.

Definition changed (k : kind) : Aggregator := mkAgg false k.

(** ** Construction *)

Definition Count_new (w : width) (max_count : Z) : kind := Count w (mkCount (swrap (wbits w) max_count) (wmax w) 0).
Definition Sum64_new : kind := Sum64 (mkSum 0 0 0 false).
Definition Min_new (w : width) : kind := Min w (mkBound 0 0 false).
Definition Max_new (w : width) : kind := Max w (mkBound 0 0 false).

(** ** Properties *)

Definition BufferByteSize (a : Aggregator) : Z :=
  match akind a with
  | Count w _ | Min w _ | Max w _ | First w _ => Z.of_nat (wbytes w)
  | MinT n _ | MaxT n _ | FirstT n _ => n + 2
  | _ => 8
  end.

Definition IgnoreNulls (a : Aggregator) : bool := true.

Definition IgnoreDistinct (a : Aggregator) : bool :=
  match akind a with Count _ _ | Sum64 _ | BitXor => false | _ => true end.

Definition FactorNeeded (a : Aggregator) : bool :=
  match akind a with Count _ _ | Sum64 _ | BitXor => true | _ => false end.

Definition PackAggregationNeedsSize (a : Aggregator) : bool := match akind a with Count _ _ => true | _ => false end.
Definition PackAggregationNeedsNotNulls (a : Aggregator) : bool := match akind a with Count _ _ => true | _ => false end.
Definition PackAggregationNeedsSum (a : Aggregator) : bool := match akind a with Sum64 _ => true | _ => false end.
Definition PackAggregationNeedsMin (a : Aggregator) : bool :=
  match akind a with Sum64 _ | Min _ _ | MinD _ => true | _ => false end.
Definition PackAggregationNeedsMax (a : Aggregator) : bool :=
  match akind a with Sum64 _ | Max _ _ | MaxD _ => true | _ => false end.
Definition PackAggregationDistinctIrrelevant (a : Aggregator) : bool :=
  match akind a with Min _ _ | Max _ _ | MinD _ | MaxD _ | MinT _ _ | MaxT _ _ => true | _ => false end.

(** ** Reset *)

Definition Reset (a : Aggregator) : Aggregator * list Z :=
  match akind a with
  | Count w _ => (a, store w 0)
  | Sum64 _ => (a, store W64 NULL_VALUE_64)
  | Min w _ | Max w _ => (a, store w (wnull w))
  | MinD _ | MaxD _ => (a, store W64 NULL_VALUE_64)
  | MinT n _ | MaxT n _ => (a, replicate (Z.to_nat (n + 2)) 0)
  | First w _ => (mkAgg (stats_updated a) (First w false), store w (wnull w))
  | FirstT n _ => (mkAgg (stats_updated a) (FirstT n false), replicate (Z.to_nat (n + 2)) 0)
  | BitAnd => (a, store W64 (-1))
  | BitOr | BitXor => (a, store W64 0)
  end.

(** ** Adding a value *)

Definition Count_Put (w : width) (cell : list Z) (factor : Z) : ares (list Z) :=
  n <<- checked w (load w cell + swrap (wbits w) factor); AOk (store w n).

Definition Sum64_Put (cell : list Z) (v factor : Z) : ares (list Z) :=
  let p := if load W64 cell =? NULL_VALUE_64 then 0 else load W64 cell in
  if overflows (dadd (double_of_int p) (dmul (double_of_int v) (double_of_int factor))) then AThrow
  else d <<- checked W64 (v * factor); n <<- checked W64 (p + d); AOk (store W64 n).

Definition Min_Put (w : width) (b : BoundSt) (a : Aggregator) (cell : list Z) (v : Z) : Aggregator * list Z :=
  if (load w cell =? wnull w) || (v <? load w cell) then (changed (Min w b), store w (swrap (wbits w) v)) else (a, cell).

Definition Max_Put (w : width) (b : BoundSt) (a : Aggregator) (cell : list Z) (v : Z) : Aggregator * list Z :=
  if (load w cell =? wnull w) || (load w cell <? v) then (changed (Max w b), store w (swrap (wbits w) v)) else (a, cell).

(** The value is the bits of a double. *)
Definition MinD_Put (b : BoundSt) (a : Aggregator) (cell : list Z) (v : Z) : Aggregator * list Z :=
  if (load W64 cell =? NULL_VALUE_64) || dlt (double_of_bits v) (double_of_bits (load W64 cell))
  then (changed (MinD b), store W64 v) else (a, cell).

Definition MaxD_Put (b : BoundSt) (a : Aggregator) (cell : list Z) (v : Z) : Aggregator * list Z :=
  if (load W64 cell =? NULL_VALUE_64) || dlt (double_of_bits (load W64 cell)) (double_of_bits v)
  then (changed (MaxD b), store W64 v) else (a, cell).

Definition MinT_Put (n : Z) (cmp : list Z -> list Z -> Z) (a : Aggregator) (cell s : list Z) : ares (Aggregator * list Z) :=
  if text_null cell then c <<- put_text n s; AOk (changed (MinT n cmp), c)
  else
    m <<- cell_string cell;
    if 0 <? cmp m s then c <<- put_text n s; AOk (changed (MinT n cmp), c) else AOk (a, cell).

Definition MaxT_Put (n : Z) (cmp : list Z -> list Z -> Z) (cell s : list Z) : ares (Aggregator * list Z) :=
  let a := changed (MaxT n cmp) in
  if text_null cell then c <<- put_text n s; AOk (a, c)
  else
    m <<- cell_string cell;
    if cmp m s <? 0 then c <<- put_text n s; AOk (a, c) else AOk (a, cell).

Definition First_Put (w : width) (a : Aggregator) (cell : list Z) (v : Z) : Aggregator * list Z :=
  if load w cell =? wnull w then (changed (First w true), store w (swrap (wbits w) v)) else (a, cell).

Definition FirstT_Put (n : Z) (a : Aggregator) (cell s : list Z) : ares (Aggregator * list Z) :=
  if text_null cell then c <<- put_text_over cell s; AOk (changed (FirstT n true), c) else AOk (a, cell).

(** The three overloads: no value, a number (a double as its bits) and a text.  Those that a class
    does not have are an assertion. *)
Definition PutFactor (a : Aggregator) (cell : list Z) (factor : Z) : ares (Aggregator * list Z) :=
  match akind a with
  | Count w c => n <<- Count_Put w cell factor; AOk (changed (Count w c), n)
  | _ => AOk (a, cell)
  end.

Definition PutNumber (a : Aggregator) (cell : list Z) (v factor : Z) : ares (Aggregator * list Z) :=
  match akind a with
  | Count w c => n <<- Count_Put w cell factor; AOk (changed (Count w c), n)
  | Sum64 s => n <<- Sum64_Put cell v factor; AOk (changed (Sum64 s), n)
  | Min w b => AOk (Min_Put w b a cell v)
  | Max w b => AOk (Max_Put w b a cell v)
  | MinD b => AOk (MinD_Put b a cell v)
  | MaxD b => AOk (MaxD_Put b a cell v)
  | First w _ => AOk (First_Put w a cell v)
  | BitAnd => AOk (a, store W64 (Z.land (load W64 cell) v))
  | BitOr => AOk (a, store W64 (Z.lor (load W64 cell) v))
  | BitXor => AOk (a, if Z.rem factor 2 =? 1 then store W64 (Z.lxor (load W64 cell) v) else cell)
  | _ => AOk (a, cell)
  end.

(** [RCNum::Parse] of a text as a 64-bit integer is an argument. *)
Definition PutText (parse : list Z -> option Z) (a : Aggregator) (cell s : list Z) (factor : Z) : ares (Aggregator * list Z) :=
  match akind a with
  | Count w c => n <<- Count_Put w cell factor; AOk (changed (Count w c), n)
  | MinT n cmp => MinT_Put n cmp a cell s
  | MaxT n cmp => MaxT_Put n cmp cell s
  | FirstT n _ => FirstT_Put n a cell s
  | BitAnd | BitOr | BitXor =>
      let a := changed (akind a) in
      if zlen s =? 0 then AOk (a, cell)
      else match parse s with Some v => PutNumber a cell v factor | None => AOk (a, cell) end
  | _ => AOk (a, cell)
  end.

(** ** Merging the counters of two tables *)

Definition Sum64_Merge (cell src : list Z) : ares (list Z) :=
  let p := if load W64 cell =? NULL_VALUE_64 then 0 else load W64 cell in
  if overflows (dadd (double_of_int p) (double_of_int (load W64 src))) then AThrow
  else n <<- checked W64 (p + load W64 src); AOk (store W64 n).

Definition MinT_Merge (n : Z) (cmp : list Z -> list Z -> Z) (a : Aggregator) (cell src : list Z) : ares (Aggregator * list Z) :=
  if text_null src then AOk (a, cell)
  else if text_null cell then AOk (changed (MinT n cmp), src)
  else
    m <<- cell_string cell; v <<- cell_string src;
    if 0 <? cmp m v then AOk (changed (MinT n cmp), src) else AOk (a, cell).

Definition MaxT_Merge (n : Z) (cmp : list Z -> list Z -> Z) (a : Aggregator) (cell src : list Z) : ares (Aggregator * list Z) :=
  if text_null src then AOk (a, cell)
  else if text_null cell then AOk (changed (MaxT n cmp), src)
  else
    m <<- cell_string cell; v <<- cell_string src;
    if cmp m v <? 0 then AOk (changed (MaxT n cmp), src) else AOk (a, cell).

Definition Merge (a : Aggregator) (cell src : list Z) : ares (Aggregator * list Z) :=
  match akind a with
  | Count w c => n <<- checked w (load w cell + load w src); AOk (changed (Count w c), store w n)
  | Sum64 s => if load W64 src =? NULL_VALUE_64 then AOk (a, cell) else n <<- Sum64_Merge cell src; AOk (changed (Sum64 s), n)
  | Min w b => if load w src =? wnull w then AOk (a, cell) else AOk (Min_Put w b a cell (load w src))
  | Max w b => if load w src =? wnull w then AOk (a, cell) else AOk (Max_Put w b a cell (load w src))
  | MinD b => if load W64 src =? NULL_VALUE_64 then AOk (a, cell) else AOk (MinD_Put b a cell (load W64 src))
  | MaxD b => if load W64 src =? NULL_VALUE_64 then AOk (a, cell) else AOk (MaxD_Put b a cell (load W64 src))
  | MinT n cmp => MinT_Merge n cmp a cell src
  | MaxT n cmp => MaxT_Merge n cmp a cell src
  | First w _ => if negb (load w src =? wnull w) then AOk (First_Put w a cell (load w src)) else AOk (a, cell)
  | FirstT n _ => if text_null cell && negb (text_null src) then AOk (changed (FirstT n true), src) else AOk (a, cell)
  | BitAnd => AOk (a, store W64 (Z.land (load W64 cell) (load W64 src)))
  | BitOr => AOk (a, store W64 (Z.lor (load W64 cell) (load W64 src)))
  | BitXor => AOk (a, store W64 (Z.lxor (load W64 cell) (load W64 src)))
  end.

(** ** Reading a counter *)

Definition GetValue64 (a : Aggregator) (cell : list Z) : Z :=
  match akind a with
  | Count w _ => load w cell
  | Min w _ | Max w _ | First w _ => if load w cell =? wnull w then NULL_VALUE_64 else load w cell
  | MinT _ _ | MaxT _ _ | FirstT _ _ => NULL_VALUE_64
  | _ => load W64 cell
  end.

Definition GetValueT (a : Aggregator) (cell : list Z) : option (list Z) :=
  match akind a with MinT _ _ | MaxT _ _ | FirstT _ _ => cell_GetValueT cell | _ => None end.

(** ** Whole packs *)

Definition with_kind (a : Aggregator) (k : kind) : Aggregator := mkAgg (stats_updated a) k.

Definition SetAggregatePackNoObj (a : Aggregator) (n : Z) : Aggregator :=
  match akind a with
  | Count w c => with_kind a (Count w (mkCount (max_counter c) (cur_min_counter c) (swrap (wbits w) n)))
  | _ => a
  end.

Definition SetAggregatePackNotNulls (a : Aggregator) (n : Z) : Aggregator := SetAggregatePackNoObj a n.

Definition SetAggregatePackSum (a : Aggregator) (par1 factor : Z) : ares Aggregator :=
  match akind a with
  | Sum64 s =>
      if overflows (dmul (double_of_int par1) (double_of_int factor)) then AThrow
      else d <<- checked W64 (par1 * factor); AOk (with_kind a (Sum64 (mkSum d (pack_min s) (pack_max s) (sum_null_group s))))
  | _ => AOk a
  end.

(** The bits of the largest double, and of its opposite. *)
Definition PLUS_INF_DBL : Z := 0x7FEFFFFFFFFFFFFF.
Definition MINUS_INF_DBL : Z := - 0x10000000000001.
Definition double_bound (v : Z) : Z :=
  if v =? MINUS_INF_64 then MINUS_INF_DBL else if v =? PLUS_INF_64 then PLUS_INF_DBL else v.

Definition with_bound (b : BoundSt) (v : Z) : BoundSt := mkBound (stat b) v (null_group_found b).

Definition SetAggregatePackMin (a : Aggregator) (v : Z) : Aggregator :=
  match akind a with
  | Sum64 s => with_kind a (Sum64 (mkSum (pack_sum s) v (pack_max s) (sum_null_group s)))
  | Min w b => with_kind a (Min w (with_bound b v))
  | MinD b => with_kind a (MinD (with_bound b (double_bound v)))
  | _ => a
  end.

Definition SetAggregatePackMax (a : Aggregator) (v : Z) : Aggregator :=
  match akind a with
  | Sum64 s => with_kind a (Sum64 (mkSum (pack_sum s) (pack_min s) v (sum_null_group s)))
  | Max w b => with_kind a (Max w (with_bound b v))
  | MaxD b => with_kind a (MaxD (with_bound b (double_bound v)))
  | _ => a
  end.

(** The answer tells whether the pack is aggregated; if not, its rows have to be. *)
Definition AggregatePack (a : Aggregator) (cell : list Z) : ares (bool * (Aggregator * list Z)) :=
  match akind a with
  | Count w c => r <<- PutFactor a cell (pack_count c); AOk (true, r)
  | Sum64 s => r <<- PutNumber a cell (pack_sum s) 1; AOk (true, r)
  | Min W64 b | Max W64 b | MinD b | MaxD b => r <<- PutNumber a cell (pack_bound b) 1; AOk (true, r)
  | _ => AOk (false, (a, cell))
  end.

(** ** Statistics of the counters, by which packs are left out *)

Definition with_stat (b : BoundSt) (v : Z) (nulls : bool) : BoundSt := mkBound v (pack_bound b) nulls.

Definition ResetStatistics (a : Aggregator) : Aggregator :=
  changed match akind a with
  | Count w c => Count w (mkCount (max_counter c) (wmax w) (pack_count c))
  | Sum64 s => Sum64 (mkSum (pack_sum s) (pack_min s) (pack_max s) false)
  | Min w b => Min w (with_stat b (wmin w) false)
  | Max w b => Max w (with_stat b (wmax w) false)
  | MinD b => MinD (with_stat b NULL_VALUE_64 false)
  | MaxD b => MaxD (with_stat b NULL_VALUE_64 false)
  | k => k
  end.

(** Adds a counter to the statistics; [true] if no more counters are needed. *)
Definition UpdateStatistics (a : Aggregator) (cell : list Z) : bool * Aggregator :=
  match akind a with
  | Count w c =>
      let m := if load w cell <? cur_min_counter c then load w cell else cur_min_counter c in
      (m =? 1, with_kind a (Count w (mkCount (max_counter c) m (pack_count c))))
  | Sum64 s =>
      let n := (load W64 cell =? NULL_VALUE_64) || sum_null_group s in
      (n, with_kind a (Sum64 (mkSum (pack_sum s) (pack_min s) (pack_max s) n)))
  | Min w b =>
      (false, with_kind a (Min w
        (if load w cell =? wnull w then with_stat b (stat b) true
         else if stat b <? load w cell then with_stat b (load w cell) (null_group_found b) else b)))
  | Max w b =>
      (false, with_kind a (Max w
        (if load w cell =? wnull w then with_stat b (stat b) true
         else if load w cell <? stat b then with_stat b (load w cell) (null_group_found b) else b)))
  | MinD b =>
      (false, with_kind a (MinD
        (if load W64 cell =? NULL_VALUE_64 then with_stat b (stat b) true
         else if (stat b =? NULL_VALUE_64) || dlt (double_of_bits (stat b)) (double_of_bits (load W64 cell))
         then with_stat b (load W64 cell) (null_group_found b) else b)))
  | MaxD b =>
      (false, with_kind a (MaxD
        (if load W64 cell =? NULL_VALUE_64 then with_stat b (stat b) true
         else if (stat b =? NULL_VALUE_64) || dlt (double_of_bits (load W64 cell)) (double_of_bits (stat b))
         then with_stat b (load W64 cell) (null_group_found b) else b)))
  | First w vs =>
      let vs := if load w cell =? wnull w then false else vs in (negb vs, with_kind a (First w vs))
  | FirstT n vs =>
      let vs := if text_null cell then false else vs in (negb vs, with_kind a (FirstT n vs))
  | _ => (true, a)
  end.

Definition PackCannotChangeAggregation (a : Aggregator) : bool :=
  match akind a with
  | Count _ c => cur_min_counter c =? max_counter c
  | Sum64 s => negb (sum_null_group s) && (pack_min s =? 0) && (pack_max s =? 0)
  | Min _ b => negb (null_group_found b) && negb (pack_bound b =? NULL_VALUE_64) && (stat b <=? pack_bound b)
  | Max _ b => negb (null_group_found b) && negb (pack_bound b =? NULL_VALUE_64) && (pack_bound b <=? stat b)
  | MinD b =>
      negb (null_group_found b) && negb (pack_bound b =? NULL_VALUE_64) && negb (stat b =? NULL_VALUE_64)
      && dle (double_of_bits (stat b)) (double_of_bits (pack_bound b))
  | MaxD b =>
      negb (null_group_found b) && negb (pack_bound b =? NULL_VALUE_64) && negb (stat b =? NULL_VALUE_64)
      && dle (double_of_bits (pack_bound b)) (double_of_bits (stat b))
  | First _ vs | FirstT _ vs => vs
  | _ => false
  end.

(** [GroupTable::UpdateAttrStats] on the counters of a column (core/GroupTable.cpp). *)
Fixpoint update_loop (a : Aggregator) (cells : list (list Z)) : Aggregator :=
  match cells with
  | [] => a
  | c :: cells => let '(stop, a) := UpdateStatistics a c in if stop : bool then a else update_loop a cells
  end.

Definition UpdateAttrStats (a : Aggregator) (cells : list (list Z)) : Aggregator :=
  if stats_updated a then a
  else mkAgg true (akind (update_loop (ResetStatistics a) cells)).

(** ** Cells *)

Lemma wbits_bytes w : wbits w = 8 * Z.of_nat (wbytes w).
Proof. by destruct w. Qed.

Lemma load_store w v : load w (store w v) = swrap (wbits w) v.
Proof.
  unfold load, store. rewrite take_ge by by rewrite length_bytes_le.
  rewrite of_bytes_le, <- wbits_bytes. apply swrap_eqm. by rewrite Z.mod_mod by (destruct w; discriminate).
Qed.

Lemma load_store_word w v : is_sword (wbits w) v -> load w (store w v) = v.
Proof. intros. rewrite load_store. apply swrap_id; [by destruct w|done]. Qed.

Lemma store_swrap w v : store w (swrap (wbits w) v) = store w v.
Proof.
  unfold store. enough (forall n x y, x mod 2 ^ (8 * Z.of_nat n) = y mod 2 ^ (8 * Z.of_nat n) -> bytes_le n x = bytes_le n y) as E.
  { apply E. rewrite <- wbits_bytes. unfold swrap. destruct w; cbn [wbits]; destruct (_ <? _); rewrite ?Z.mod_mod by lia; try done; rewrite Zminus_mod, Z.mod_same, Z.sub_0_r, !Z.mod_mod by lia; done. }
  induction n as [|n IH]; intros x y H; [done|].
  assert (E : 2 ^ (8 * Z.of_nat (S n)) = 256 * 2 ^ (8 * Z.of_nat n)) by (rewrite Nat2Z.inj_succ, Z.mul_succ_r, Z.pow_add_r by lia; lia).
  rewrite E in H. assert (P : 0 < 2 ^ (8 * Z.of_nat n)) by (apply Z.pow_pos_nonneg; lia).
  rewrite !Z.rem_mul_r in H by lia. cbn [bytes_le].
  assert (x mod 256 = y mod 256 /\ (x / 256) mod 2 ^ (8 * Z.of_nat n) = (y / 256) mod 2 ^ (8 * Z.of_nat n)) as [-> E2]
    by (pose proof (Z.mod_pos_bound x 256); pose proof (Z.mod_pos_bound y 256); lia).
  by rewrite (IH _ _ E2).
Qed.

Lemma checked_ok w v : is_sword (wbits w) v -> checked w v = AOk v.
Proof. unfold is_sword, checked. intros. by rewrite (proj2 (andb_true_iff _ _)) by lia. Qed.

Lemma checked_inv w v x : checked w v = AOk x -> x = v /\ is_sword (wbits w) v.
Proof. unfold is_sword, checked. destruct (_ && _) eqn:E; [|discriminate]. intros [= <-]. split; [done|lia]. Qed.

(** ** Extrema *)

(** [better v c]: the value [v] replaces the counter [c]. *)
Class Better {V : Type} (better : V -> V -> bool) := {
  better_asym : forall x y, better x y = true -> better y x = false;
  better_cotrans : forall x y z, better x y = false -> better y z = false -> better x z = false
}.

Section Extrema.
Context {V : Type} (better : V -> V -> bool).

Definition improve (cur : option V) (v : V) : option V :=
  match cur with Some c => if better v c then Some v else cur | None => Some v end.

Definition best (l : list V) : option V := foldl improve None l.

Lemma best_snoc l v : best (l ++ [v]) = improve (best l) v.
Proof. unfold best. by rewrite foldl_app. Qed.

Lemma best_None l : best l = None <-> l = [].
Proof.
  destruct l as [|v l _] using rev_ind; [done|]. rewrite best_snoc. split.
  - unfold improve. destruct (best l); [destruct (better _ _)|]; discriminate.
  - by destruct l.
Qed.

Lemma best_In l v : best l = Some v -> v ∈ l.
Proof.
  induction l as [|x l IH] using rev_ind; [done|]. rewrite best_snoc, elem_of_app, list_elem_of_singleton.
  unfold improve. destruct (best l); [destruct (better _ _)|]; naive_solver.
Qed.

Context `{!Better better}.

Lemma better_trans x y z : better x y = true -> better y z = true -> better x z = true.
Proof.
  intros H1 H2. destruct (better x z) eqn:E; [done|]. rewrite (better_cotrans _ _ _ E (better_asym _ _ H2)) in H1. done.
Qed.

Lemma better_irrefl x : better x x = false.
Proof. destruct (better x x) eqn:E; [|done]. by rewrite (better_asym _ _ E) in E. Qed.

(** The best of a list is one that no other is better than. *)
Lemma best_least l v : best l = Some v -> forall x, x ∈ l -> better x v = false.
Proof.
  revert v. induction l as [|y l IH] using rev_ind; [done|]. intros v. rewrite best_snoc. unfold improve.
  intros H x Hx. apply elem_of_app in Hx as [Hx|Hx]; [|apply list_elem_of_singleton in Hx as ->].
  - destruct (best l) as [c|] eqn:E; [|apply best_None in E as ->; inversion Hx].
    destruct (better y c) eqn:Ey; injection H as <-; [|eauto].
    destruct (better x y) eqn:Exy; [|done]. by rewrite <- (IH c eq_refl x Hx), (better_trans _ _ _ Exy Ey).
  - destruct (best l) as [c|]; [destruct (better y c) eqn:Ey|]; injection H as <-; auto using better_irrefl.
Qed.

Lemma best_app l1 l2 : best (l1 ++ l2) = match best l2 with Some v => improve (best l1) v | None => best l1 end.
Proof.
  induction l2 as [|v l2 IH] using rev_ind; [by rewrite app_nil_r|]. rewrite app_assoc, !best_snoc, IH.
  destruct (best l2) as [w|]; [|done]. cbn [improve].
  destruct (best l1) as [c|]; cbn [improve]; [|by destruct (better v w)].
  destruct (better w c) eqn:E1, (better v w) eqn:E2; cbn [improve]; rewrite ?E1, ?E2; try done.
  - by rewrite (better_trans _ _ _ E2 E1).
  - by rewrite (better_cotrans _ _ _ E2 E1).
Qed.
End Extrema.

#[export] Instance less_Better : Better Z.ltb.
Proof. split; intros; lia. Qed.

#[export] Instance greater_Better : Better Z.gtb.
Proof. split; intros; lia. Qed.

(** ** What the cells hold *)

Inductive input := IFactor (f : Z) | INumber (v f : Z) | IText (s : list Z) (f : Z).

Definition Put (parse : list Z -> option Z) (a : Aggregator) (cell : list Z) (i : input) : ares (Aggregator * list Z) :=
  match i with
  | IFactor f => PutFactor a cell f
  | INumber v f => PutNumber a cell v f
  | IText s f => PutText parse a cell s f
  end.

Definition ifactor (i : input) : Z := match i with IFactor f | INumber _ f | IText _ f => f end.
Definition number (i : input) : option Z := match i with INumber v _ => Some v | _ => None end.
Definition odd_number (i : input) : option Z := match i with INumber v f => if Z.rem f 2 =? 1 then Some v else None | _ => None end.
Definition weighted (i : input) : Z := match i with INumber v f => v * f | _ => 0 end.
Definition itext (i : input) : option (list Z) := match i with IText s _ => Some s | _ => None end.

Definition zsum (f : input -> Z) (l : list input) : Z := foldr (fun i s => f i + s) 0 l.

(** Counters that hold an integer, or no value. *)
Definition opt_cell (w : width) (o : option Z) : list Z := store w (default (wnull w) o).
Definition opt_text (n : Z) (o : option (list Z)) : list Z :=
  match o with Some s => text_cell n s | None => replicate (Z.to_nat (n + 2)) 0 end.

Definition dless (x y : Z) : bool := dlt (double_of_bits x) (double_of_bits y).
Definition dgreater (x y : Z) : bool := dless y x.
Definition tless (cmp : list Z -> list Z -> Z) (v c : list Z) : bool := 0 <? cmp c v.
Definition tgreater (cmp : list Z -> list Z -> Z) (v c : list Z) : bool := cmp c v <? 0.

(** The cell of a group after the inputs [l]. *)
Definition cell_of (k : kind) (l : list input) : list Z :=
  match k with
  | Count w _ => store w (zsum ifactor l)
  | Sum64 _ => store W64 (match l with [] => NULL_VALUE_64 | _ => zsum weighted l end)
  | Min w _ => opt_cell w (best Z.ltb (omap number l))
  | Max w _ => opt_cell w (best Z.gtb (omap number l))
  | MinD _ => opt_cell W64 (best dless (omap number l))
  | MaxD _ => opt_cell W64 (best dgreater (omap number l))
  | MinT n cmp => opt_text n (best (tless cmp) (omap itext l))
  | MaxT n cmp => opt_text n (best (tgreater cmp) (omap itext l))
  | First w _ => opt_cell w (head (omap number l))
  | FirstT n _ => opt_text n (head (omap itext l))
  | BitAnd => store W64 (foldl Z.land (-1) (omap number l))
  | BitOr => store W64 (foldl Z.lor 0 (omap number l))
  | BitXor => store W64 (foldl Z.lxor 0 (omap odd_number l))
  end.

(** What a counter can take: numbers of its width that are not the null value, no sum that leaves
    the range, texts that fit and that a byte 1 is less than. *)
Definition number_ok (w : width) (i : input) : Prop :=
  match i with INumber v _ => is_sword (wbits w) v /\ v <> wnull w | _ => False end.
Definition double_ok (i : input) : Prop :=
  number_ok W64 i /\ match i with INumber v _ => double_of_bits v <> DNaN | _ => False end.
Definition text_fits (n : Z) (i : input) : Prop := match i with IText s _ => zlen s <= n | _ => False end.
Definition text_ok (n : Z) (cmp : list Z -> list Z -> Z) (i : input) : Prop :=
  match i with IText s _ => zlen s <= n /\ (s = [] \/ (cmp [1] s < 0 /\ cmp [] s < 0)) | _ => False end.
Definition product_ok (i : input) : Prop :=
  match i with INumber v f => is_sword 64 v /\ is_sword 64 f /\ is_sword 64 (v * f) | _ => False end.

Class Collation (cmp : list Z -> list Z -> Z) := {
  coll_sym : forall a b, (cmp a b <? 0) = (0 <? cmp b a);
  coll_less : Better (tless cmp)
}.

Definition fits (k : kind) (l : list input) : Prop :=
  match k with
  | Count w _ => Forall (fun i => 0 <= ifactor i) l /\ zsum ifactor l < 2 ^ (wbits w - 1)
  | Sum64 _ => Forall product_ok l /\ forall p q, l = p ++ q -> p <> [] -> NULL_VALUE_64 < zsum weighted p < 2 ^ 63
  | Min w _ | Max w _ | First w _ => Forall (number_ok w) l
  | MinD _ | MaxD _ => Forall double_ok l
  | MinT n cmp | MaxT n cmp => 2 <= n < 2 ^ 16 /\ Collation cmp /\ Forall (text_ok n cmp) l
  | FirstT n _ => 1 <= n < 2 ^ 16 /\ Forall (text_fits n) l
  | BitAnd | BitOr => Forall product_ok l
  | BitXor => Forall product_ok l /\ Forall (fun i => 0 <= ifactor i) l
  end.

Definition same_class (k k' : kind) : Prop :=
  match k, k' with
  | Count w c, Count w' c' => w = w' /\ max_counter c = max_counter c'
  | Min w _, Min w' _ | Max w _, Max w' _ | First w _, First w' _ => w = w'
  | Sum64 _, Sum64 _ | MinD _, MinD _ | MaxD _, MaxD _ | BitAnd, BitAnd | BitOr, BitOr | BitXor, BitXor => True
  | MinT n cmp, MinT n' cmp' | MaxT n cmp, MaxT n' cmp' => n = n' /\ cmp = cmp'
  | FirstT n _, FirstT n' _ => n = n'
  | _, _ => False
  end.

Lemma same_class_refl k : same_class k k.
Proof. by destruct k. Qed.

Lemma same_class_cell k k' l : same_class k k' -> cell_of k' l = cell_of k l.
Proof. destruct k, k'; try done; cbn; intuition congruence. Qed.

Lemma same_class_fits k k' l : same_class k k' -> fits k' l <-> fits k l.
Proof. destruct k, k'; try done; cbn; intuition congruence. Qed.

(** ** Texts in cells *)

Lemma text_cell_len n s : zlen s < 2 ^ 16 -> cell_len (text_cell n s) = zlen s.
Proof.
  intros H. pose proof (zlen_nonneg s). unfold cell_len, text_cell. rewrite take_app_le by by rewrite length_bytes_le.
  rewrite take_ge by by rewrite length_bytes_le. apply of_bytes_le_word. unfold is_word. lia.
Qed.

Lemma text_cell_drop n s :
  drop 2 (text_cell n s) = (if zlen s =? 0 then [1] else s) ++ replicate (Z.to_nat (n - Z.max 1 (zlen s))) 0.
Proof. reflexivity. Qed.

Definition shown (s : list Z) : list Z := if zlen s =? 0 then [1] else s.

Lemma text_cell_string n s : 2 <= n < 2 ^ 16 -> zlen s <= n -> cell_string (text_cell n s) = AOk (shown s).
Proof.
  intros Hn Hs. unfold cell_string, shown. rewrite text_cell_len, text_cell_drop by lia.
  destruct (Z.eqb_spec (zlen s) 0) as [E|].
  - rewrite E. replace (Z.to_nat (n - Z.max 1 0)) with (S (Z.to_nat (n - 2))) by lia. reflexivity.
  - unfold zlen. by rewrite Nat2Z.id, take_app_length.
Qed.

Lemma text_cell_value n s : zlen s < 2 ^ 16 -> cell_GetValueT (text_cell n s) = Some s.
Proof.
  intros Hs. unfold cell_GetValueT. rewrite text_cell_len, text_cell_drop by lia. destruct (Z.eqb_spec (zlen s) 0) as [E|].
  - destruct s; [reflexivity|discriminate].
  - unfold zlen. by rewrite Nat2Z.id, take_app_length.
Qed.

Lemma text_cell_null n s : zlen s < 2 ^ 16 -> text_null (text_cell n s) = false.
Proof.
  intros Hs. unfold text_null. rewrite text_cell_len by done. destruct (Z.eqb_spec (zlen s) 0) as [E|]; [|done].
  by destruct s.
Qed.

Lemma null_cell_null n : 1 <= n -> text_null (replicate (Z.to_nat (n + 2)) 0) = true.
Proof. intros. replace (Z.to_nat (n + 2)) with (3 + Z.to_nat (n - 1))%nat by lia. reflexivity. Qed.

Lemma null_cell_value n : 1 <= n -> cell_GetValueT (replicate (Z.to_nat (n + 2)) 0) = None.
Proof. intros. replace (Z.to_nat (n + 2)) with (3 + Z.to_nat (n - 1))%nat by lia. reflexivity. Qed.

Lemma put_text_fits n s : 1 <= n -> zlen s <= n -> put_text n s = AOk (text_cell n s).
Proof. intros. unfold put_text. destruct (Z.ltb_spec n (Z.max 1 (zlen s))); [lia|done]. Qed.

Lemma put_text_over_null n s : 1 <= n -> zlen s <= n -> put_text_over (replicate (Z.to_nat (n + 2)) 0) s = AOk (text_cell n s).
Proof.
  intros Hn Hs. unfold put_text_over. rewrite zlen_replicate by lia. destruct (Z.ltb_spec (n + 2 - 2) (Z.max 1 (zlen s))); [lia|].
  do 2 f_equal. pose proof (zlen_nonneg s). set (t := if zlen s =? 0 then [1] else s).
  assert (Ht : zlen t = Z.max 1 (zlen s)) by (unfold t; destruct (Z.eqb_spec (zlen s) 0) as [->|]; [reflexivity|lia]).
  unfold text_cell. fold t. rewrite <- Ht. unfold overwrite. cbn [Z.to_nat take]. rewrite !app_nil_l.
  replace (zlen (bytes_le 2 (zlen s))) with 2 by reflexivity.
  replace (Z.to_nat (n + 2)) with (2 + Z.to_nat n)%nat by lia. cbn [replicate Nat.add]. 
  replace (drop (Z.to_nat (0 + 2)) (0 :: 0 :: replicate (Z.to_nat n) 0)) with (replicate (Z.to_nat n) 0) by reflexivity.
  rewrite <- app_assoc. change (Z.to_nat 2) with (length (bytes_le 2 (zlen s))) at 1. rewrite take_app_length. f_equal. f_equal.
  replace (Z.to_nat (2 + zlen t)) with (length (bytes_le 2 (zlen s)) + Z.to_nat (zlen t))%nat by (rewrite length_bytes_le; lia).
  rewrite <- drop_drop, drop_app_length, drop_replicate. f_equal. lia.
Qed.

(** ** Counters with an optional integer *)

Definition good (w : width) (o : option Z) : Prop := forall v, o = Some v -> is_sword (wbits w) v /\ v <> wnull w.

Lemma good_null_sword w : is_sword (wbits w) (wnull w).
Proof. destruct w; done. Qed.

Lemma load_opt w o : good w o -> load w (opt_cell w o) = default (wnull w) o.
Proof. intros H. apply load_store_word. destruct o as [v|]; [by apply (H v)|apply good_null_sword]. Qed.

Lemma opt_is_null w o : good w o -> (load w (opt_cell w o) =? wnull w) = negb (bool_decide (is_Some o)).
Proof.
  intros H. rewrite load_opt by done. destruct o as [v|]; cbn; [|apply Z.eqb_refl].
  apply Z.eqb_neq. by apply (H v).
Qed.

Lemma good_best better w l : Forall (number_ok w) l -> good w (best better (omap number l)).
Proof.
  intros H v Hv%best_In. apply list_elem_of_omap in Hv as (i & Hi & E). rewrite Forall_forall in H. specialize (H i Hi).
  destruct i; try discriminate. injection E as ->. exact H.
Qed.

Lemma good_head w l : Forall (number_ok w) l -> good w (head (omap number l)).
Proof.
  intros H v Hv. destruct l as [|i l]; [discriminate|]. inversion H as [|? ? Hi _]; subst. destruct i; try done.
  cbn in Hv. injection Hv as ->. exact Hi.
Qed.

(** The outcome of a step: the cell, and an aggregator of the same class. *)
Definition gives (a : Aggregator) (r : ares (Aggregator * list Z)) (cell : list Z) : Prop :=
  exists a', r = AOk (a', cell) /\ same_class (akind a) (akind a').

Ltac gives_done := eexists; split; [reflexivity|cbn; repeat match goal with H : akind _ = _ |- _ => rewrite H end; done].

Lemma Min_Put_improve w b a o v :
  akind a = Min w b -> good w o -> gives a (AOk (Min_Put w b a (opt_cell w o) v)) (opt_cell w (improve Z.ltb o v)).
Proof.
  intros Ha Ho. unfold Min_Put. rewrite opt_is_null, load_opt, store_swrap by done. destruct o as [c|]; cbn; [|gives_done].
  destruct (v <? c); gives_done.
Qed.

Lemma Max_Put_improve w b a o v :
  akind a = Max w b -> good w o -> gives a (AOk (Max_Put w b a (opt_cell w o) v)) (opt_cell w (improve Z.gtb o v)).
Proof.
  intros Ha Ho. unfold Max_Put. rewrite opt_is_null, load_opt, store_swrap by done. destruct o as [c|]; cbn; [|gives_done].
  rewrite Z.gtb_ltb. destruct (c <? v); gives_done.
Qed.

Lemma MinD_Put_improve b a o v :
  akind a = MinD b -> good W64 o -> gives a (AOk (MinD_Put b a (opt_cell W64 o) v)) (opt_cell W64 (improve dless o v)).
Proof.
  intros Ha Ho. unfold MinD_Put. change NULL_VALUE_64 with (wnull W64). rewrite opt_is_null, load_opt by done.
  destruct o as [c|]; cbn; [|gives_done]. fold (dless v c). destruct (dless v c); gives_done.
Qed.

Lemma MaxD_Put_improve b a o v :
  akind a = MaxD b -> good W64 o -> gives a (AOk (MaxD_Put b a (opt_cell W64 o) v)) (opt_cell W64 (improve dgreater o v)).
Proof.
  intros Ha Ho. unfold MaxD_Put. change NULL_VALUE_64 with (wnull W64). rewrite opt_is_null, load_opt by done.
  destruct o as [c|]; cbn; [|gives_done]. fold (dless c v). change (dless c v) with (dgreater v c). destruct (dgreater v c); gives_done.
Qed.

Lemma First_Put_head w vs a o v :
  akind a = First w vs -> good w o -> gives a (AOk (First_Put w a (opt_cell w o) v)) (opt_cell w (match o with Some c => o | None => Some v end)).
Proof.
  intros Ha Ho. unfold First_Put. rewrite opt_is_null, store_swrap by done. destruct o as [c|]; cbn; gives_done.
Qed.

(** ** Counters with an optional text *)

Definition text_good (n : Z) (cmp : list Z -> list Z -> Z) (s : list Z) : Prop :=
  zlen s <= n /\ (s = [] \/ (cmp [1] s < 0 /\ cmp [] s < 0)).

Definition good_text (n : Z) (o : option (list Z)) : Prop := forall s, o = Some s -> zlen s <= n.

Lemma opt_text_null n o : 1 <= n < 2 ^ 16 -> good_text n o -> text_null (opt_text n o) = negb (bool_decide (is_Some o)).
Proof.
  intros Hn Ho. destruct o as [s|]; cbn [opt_text]; [|rewrite null_cell_null by lia; done].
  rewrite text_cell_null; [done|]. specialize (Ho s eq_refl). lia.
Qed.

Lemma opt_text_value n o : 1 <= n < 2 ^ 16 -> good_text n o -> cell_GetValueT (opt_text n o) = o.
Proof.
  intros Hn Ho. destruct o as [s|]; cbn [opt_text]; [|by rewrite null_cell_value by lia].
  apply text_cell_value. specialize (Ho s eq_refl). lia.
Qed.

(** The code compares the byte 1 where the counter is the empty text. *)
Lemma shown_compare n cmp `{!Collation cmp} c s :
  text_good n cmp c -> text_good n cmp s ->
  improve (tless cmp) (Some c) s = (if 0 <? cmp (shown c) s then Some s else Some c)
  /\ improve (tgreater cmp) (Some c) s = (if cmp (shown c) s <? 0 then Some s else Some c).
Proof.
  intros [_ Hc] [_ Hs]. unfold improve, tless, tgreater, shown.
  destruct c as [|x c]; cbn [zlen length Z.of_nat Z.eqb]; [|by split; destruct (_ <? _)].
  replace (zlen []  =? 0) with true by reflexivity. destruct Hs as [->|[H1 H2]].
  - pose proof (better_irrefl (tless cmp) (Better0 := coll_less) []) as I. unfold tless in I. rewrite (coll_sym [] []), I.
    split; by repeat case_match.
  - destruct (Z.ltb_spec 0 (cmp [] s)), (Z.ltb_spec 0 (cmp [1] s)), (Z.ltb_spec (cmp [] s) 0), (Z.ltb_spec (cmp [1] s) 0); done || lia.
Qed.

Lemma MinT_Put_improve n cmp `{!Collation cmp} a o s :
  akind a = MinT n cmp -> 2 <= n < 2 ^ 16 -> (forall c, o = Some c -> text_good n cmp c) -> text_good n cmp s ->
  gives a (MinT_Put n cmp a (opt_text n o) s) (opt_text n (improve (tless cmp) o s)).
Proof.
  intros Ha Hn Ho Hs. unfold MinT_Put. rewrite opt_text_null by (lia || (intros c Hc; apply (Ho c Hc))).
  destruct o as [c|]; cbn [is_Some bool_decide negb].
  - rewrite bool_decide_true by (by eexists). specialize (Ho c eq_refl). cbn [negb opt_text].
    rewrite text_cell_string by (done || apply Ho). cbn [abind].
    rewrite (proj1 (shown_compare n cmp c s Ho Hs)), put_text_fits by (apply Hs || lia).
    destruct (0 <? _); cbn; gives_done.
  - rewrite bool_decide_false by (intros []; discriminate). rewrite put_text_fits by (apply Hs || lia). cbn. gives_done.
Qed.

Lemma MaxT_Put_improve n cmp `{!Collation cmp} a o s :
  akind a = MaxT n cmp -> 2 <= n < 2 ^ 16 -> (forall c, o = Some c -> text_good n cmp c) -> text_good n cmp s ->
  gives a (MaxT_Put n cmp (opt_text n o) s) (opt_text n (improve (tgreater cmp) o s)).
Proof.
  intros Ha Hn Ho Hs. unfold MaxT_Put. rewrite opt_text_null by (lia || (intros c Hc; apply (Ho c Hc))).
  destruct o as [c|].
  - rewrite bool_decide_true by (by eexists). specialize (Ho c eq_refl). cbn [negb opt_text].
    rewrite text_cell_string by (done || apply Ho). cbn [abind].
    rewrite (proj2 (shown_compare n cmp c s Ho Hs)), put_text_fits by (apply Hs || lia).
    destruct (_ <? 0); cbn; gives_done.
  - rewrite bool_decide_false by (intros []; discriminate). rewrite put_text_fits by (apply Hs || lia). cbn. gives_done.
Qed.

Lemma FirstT_Put_head n vs a o s :
  akind a = FirstT n vs -> 1 <= n < 2 ^ 16 -> good_text n o -> zlen s <= n ->
  gives a (FirstT_Put n a (opt_text n o) s) (opt_text n (match o with Some c => o | None => Some s end)).
Proof.
  intros Ha Hn Ho Hs. unfold FirstT_Put. rewrite opt_text_null by done. destruct o as [c|].
  - rewrite bool_decide_true by (by eexists). cbn. gives_done.
  - rewrite bool_decide_false by (intros []; discriminate). cbn [negb opt_text]. rewrite put_text_over_null by lia. cbn. gives_done.
Qed.

Lemma text_good_best n cmp better l :
  Forall (text_ok n cmp) l -> forall c, best better (omap itext l) = Some c -> text_good n cmp c.
Proof.
  intros H c Hc%best_In. apply list_elem_of_omap in Hc as (i & Hi & E). rewrite Forall_forall in H. specialize (H i Hi).
  destruct i; try discriminate. injection E as ->. exact H.
Qed.

Lemma good_text_head n l : Forall (text_fits n) l -> good_text n (head (omap itext l)).
Proof.
  intros H v Hv. destruct l as [|i l]; [discriminate|]. inversion H as [|? ? Hi _]; subst. destruct i; try done.
  cbn in Hv. injection Hv as ->. exact Hi.
Qed.

(** ** Sums *)

Lemma zsum_snoc f l i : zsum f (l ++ [i]) = zsum f l + f i.
Proof. unfold zsum. induction l as [|j l IH]; cbn [foldr app]; lia. Qed.

Lemma zsum_app f l1 l2 : zsum f (l1 ++ l2) = zsum f l1 + zsum f l2.
Proof. unfold zsum. induction l1 as [|j l IH]; cbn [foldr app]; lia. Qed.

Lemma zsum_nonneg f l : Forall (fun i => 0 <= f i) l -> 0 <= zsum f l.
Proof. unfold zsum. induction 1; cbn [foldr]; lia. Qed.

(** The running sum of SUM: nothing yet, or a number that is not the null value. *)
Lemma sum_running l :
  (forall p q, l = p ++ q -> p <> [] -> NULL_VALUE_64 < zsum weighted p < 2 ^ 63) ->
  (if load W64 (cell_of Sum64_new l) =? NULL_VALUE_64 then 0 else load W64 (cell_of Sum64_new l)) = zsum weighted l.
Proof.
  intros H. cbn [cell_of Sum64_new]. destruct l as [|i l]; [reflexivity|].
  specialize (H (i :: l) [] ltac:(by rewrite app_nil_r) ltac:(done)).
  rewrite load_store_word by (unfold is_sword, NULL_VALUE_64 in *; cbn [wbits]; lia).
  destruct (Z.eqb_spec (zsum weighted (i :: l)) NULL_VALUE_64); [lia|done].
Qed.

Lemma Sum64_Put_total cell p v f :
  (if load W64 cell =? NULL_VALUE_64 then 0 else load W64 cell) = p ->
  product_ok (INumber v f) -> is_sword 64 p -> is_sword 64 (p + v * f) ->
  Sum64_Put cell v f = AOk (store W64 (p + v * f)).
Proof.
  intros E (Hv & Hf & Hvf) Hp Hs. unfold Sum64_Put. rewrite E. unfold is_sword in *.
  rewrite (sum_in_range_passes p (v * f)) by (try apply dmul_int_approximates; lia).
  rewrite checked_ok by done. cbn [abind]. by rewrite checked_ok by done.
Qed.

Lemma Forall_snoc_inv {A : Type} (P : A -> Prop) l x : Forall P (l ++ [x]) -> Forall P l /\ P x.
Proof. rewrite Forall_app, Forall_singleton. done. Qed.

Lemma head_snoc {A : Type} (l : list A) x : head (l ++ [x]) = match head l with Some c => Some c | None => Some x end.
Proof. by destruct l. Qed.

Lemma Count_Put_total w l f :
  Forall (fun i => 0 <= ifactor i) l -> 0 <= f -> zsum ifactor l + f < 2 ^ (wbits w - 1) ->
  Count_Put w (store w (zsum ifactor l)) f = AOk (store w (zsum ifactor l + f)).
Proof.
  intros H Hf Hs%Z.lt_le_pred. pose proof (zsum_nonneg _ _ H). unfold Count_Put.
  assert (0 < wbits w) by (by destruct w). assert (0 < 2 ^ (wbits w - 1)) by (apply Z.pow_pos_nonneg; lia).
  rewrite load_store_word, (swrap_id (wbits w) f), checked_ok by (unfold is_sword; lia). done.
Qed.

Lemma Sum64_Put_cell l v f :
  Forall product_ok (l ++ [INumber v f]) ->
  (forall p q, l ++ [INumber v f] = p ++ q -> p <> [] -> NULL_VALUE_64 < zsum weighted p < 2 ^ 63) ->
  Sum64_Put (cell_of Sum64_new l) v f = AOk (cell_of Sum64_new (l ++ [INumber v f])).
Proof.
  intros [H Hi]%Forall_snoc_inv Hs.
  assert (Hl : forall p q, l = p ++ q -> p <> [] -> NULL_VALUE_64 < zsum weighted p < 2 ^ 63).
  { intros p q -> Hp. apply (Hs p (q ++ [INumber v f])); [by rewrite app_assoc|done]. }
  specialize (Hs (l ++ [INumber v f]) [] ltac:(by rewrite app_nil_r) ltac:(by destruct l)). rewrite zsum_snoc in Hs. cbn [weighted] in Hs.
  assert (is_sword 64 (zsum weighted l)).
  { destruct l; [done|]. specialize (Hl (i :: l) [] ltac:(by rewrite app_nil_r) ltac:(done)). unfold is_sword, NULL_VALUE_64 in *. lia. }
  rewrite (Sum64_Put_total _ _ _ _ (sum_running l Hl) Hi) by (done || unfold is_sword, NULL_VALUE_64 in *; lia).
  do 2 f_equal. cbn [cell_of Sum64_new]. rewrite zsum_snoc. by destruct l.
Qed.

(** ** Bits *)

Lemma sword_shiftr x : is_sword 64 x <-> Z.shiftr x 63 = 0 \/ Z.shiftr x 63 = -1.
Proof.
  unfold is_sword. rewrite Z.shiftr_div_pow2 by lia. pose proof (Z.div_mod x (2 ^ 63) ltac:(lia)). pose proof (Z.mod_pos_bound x (2 ^ 63)).
  cbn [Z.sub] in *. change (64 - 1) with 63. lia.
Qed.

Lemma sword_land x y : is_sword 64 x -> is_sword 64 y -> is_sword 64 (Z.land x y).
Proof. rewrite !sword_shiftr, Z.shiftr_land. by intros [-> | ->] [-> | ->]; auto. Qed.

Lemma sword_lor x y : is_sword 64 x -> is_sword 64 y -> is_sword 64 (Z.lor x y).
Proof. rewrite !sword_shiftr, Z.shiftr_lor. by intros [-> | ->] [-> | ->]; auto. Qed.

Lemma sword_lxor x y : is_sword 64 x -> is_sword 64 y -> is_sword 64 (Z.lxor x y).
Proof. rewrite !sword_shiftr, Z.shiftr_lxor. by intros [-> | ->] [-> | ->]; auto. Qed.

Lemma sword_fold (op : Z -> Z -> Z) (sel : input -> option Z) z l :
  (forall x y, is_sword 64 x -> is_sword 64 y -> is_sword 64 (op x y)) -> is_sword 64 z ->
  (forall i v, product_ok i -> sel i = Some v -> is_sword 64 v) -> Forall product_ok l ->
  is_sword 64 (foldl op z (omap sel l)).
Proof.
  intros Hop Hz Hsel H. revert z Hz. induction H as [|i l Hi _ IH]; intros z Hz; [done|]. cbn.
  destruct (sel i) as [v|] eqn:E; cbn; eauto.
Qed.

Lemma product_number i v : product_ok i -> number i = Some v -> is_sword 64 v.
Proof. destruct i; try done. intros [? _] [= <-]. done. Qed.

Lemma product_odd_number i v : product_ok i -> odd_number i = Some v -> is_sword 64 v.
Proof. destruct i; try done. cbn. intros [? _]. destruct (_ =? 1); [|done]. by intros [= <-]. Qed.

Lemma load_land l : Forall product_ok l -> load W64 (cell_of BitAnd l) = foldl Z.land (-1) (omap number l).
Proof. intros. apply load_store_word. apply sword_fold; eauto using sword_land, product_number; unfold is_sword; lia. Qed.

Lemma load_lor l : Forall product_ok l -> load W64 (cell_of BitOr l) = foldl Z.lor 0 (omap number l).
Proof. intros. apply load_store_word. apply sword_fold; eauto using sword_lor, product_number; unfold is_sword; lia. Qed.

Lemma load_lxor l : Forall product_ok l -> load W64 (cell_of BitXor l) = foldl Z.lxor 0 (omap odd_number l).
Proof. intros. apply load_store_word. apply sword_fold; eauto using sword_lxor, product_odd_number; unfold is_sword; lia. Qed.

(** ** Adding a value to the counter of a group *)

Lemma numbers_snoc l v f : omap number (l ++ [INumber v f]) = omap number l ++ [v].
Proof. by rewrite omap_app. Qed.

Lemma odd_snoc l v f : omap odd_number (l ++ [INumber v f]) = omap odd_number l ++ (if Z.rem f 2 =? 1 then [v] else []).
Proof. rewrite omap_app. cbn. by destruct (_ =? 1). Qed.

Lemma texts_snoc l s f : omap itext (l ++ [IText s f]) = omap itext l ++ [s].
Proof. by rewrite omap_app. Qed.

Lemma PutNumber_cell a l v f :
  fits (akind a) (l ++ [INumber v f]) -> gives a (PutNumber a (cell_of (akind a) l) v f) (cell_of (akind a) (l ++ [INumber v f])).
Proof.
  unfold PutNumber. destruct (akind a) as [w c|s|w b|w b|b|b|n cmp|n cmp|w vs|n vs| | |] eqn:E; cbn [fits].
  - intros [[H Hi]%Forall_snoc_inv Hs]. cbn [cell_of]. rewrite zsum_snoc in Hs |- *. rewrite Count_Put_total by done. gives_done.
  - intros [H Hs]. change (cell_of (Sum64 s)) with (cell_of Sum64_new). rewrite Sum64_Put_cell by done. gives_done.
  - intros [H _]%Forall_snoc_inv. cbn [cell_of]. rewrite numbers_snoc, best_snoc. apply Min_Put_improve; [done|by apply good_best].
  - intros [H _]%Forall_snoc_inv. cbn [cell_of]. rewrite numbers_snoc, best_snoc. apply Max_Put_improve; [done|by apply good_best].
  - intros [H _]%Forall_snoc_inv. cbn [cell_of]. rewrite numbers_snoc, best_snoc. apply MinD_Put_improve; [done|apply good_best].
    eapply Forall_impl; [done|]. by intros ? [? _].
  - intros [H _]%Forall_snoc_inv. cbn [cell_of]. rewrite numbers_snoc, best_snoc. apply MaxD_Put_improve; [done|apply good_best].
    eapply Forall_impl; [done|]. by intros ? [? _].
  - intros (_ & _ & [_ []]%Forall_snoc_inv).
  - intros (_ & _ & [_ []]%Forall_snoc_inv).
  - intros [H _]%Forall_snoc_inv. cbn [cell_of]. rewrite numbers_snoc, head_snoc.
    pose proof (First_Put_head w vs a _ v E (good_head w l H)) as G. by destruct (head (omap number l)).
  - intros (_ & [_ []]%Forall_snoc_inv).
  - intros [H _]%Forall_snoc_inv. rewrite load_land by done. cbn [cell_of]. rewrite numbers_snoc, foldl_app. gives_done.
  - intros [H _]%Forall_snoc_inv. rewrite load_lor by done. cbn [cell_of]. rewrite numbers_snoc, foldl_app. gives_done.
  - intros [[H _]%Forall_snoc_inv _]. rewrite load_lxor by done. cbn [cell_of]. rewrite odd_snoc, foldl_app.
    destruct (Z.rem f 2 =? 1); gives_done.
Qed.

Lemma PutText_cell parse a l s f :
  fits (akind a) (l ++ [IText s f]) -> gives a (PutText parse a (cell_of (akind a) l) s f) (cell_of (akind a) (l ++ [IText s f])).
Proof.
  unfold PutText. destruct (akind a) as [w c|st|w b|w b|b|b|n cmp|n cmp|w vs|n vs| | |] eqn:E; cbn [fits].
  - intros [[H Hi]%Forall_snoc_inv Hs]. cbn [cell_of]. rewrite zsum_snoc in Hs |- *. rewrite Count_Put_total by done. gives_done.
  - intros [[_ []]%Forall_snoc_inv _].
  - intros [_ []]%Forall_snoc_inv.
  - intros [_ []]%Forall_snoc_inv.
  - intros [_ [[] _]]%Forall_snoc_inv.
  - intros [_ [[] _]]%Forall_snoc_inv.
  - intros (Hn & HC & [H Hi]%Forall_snoc_inv). cbn [cell_of]. rewrite texts_snoc, best_snoc. apply MinT_Put_improve; try done. by apply text_good_best.
  - intros (Hn & HC & [H Hi]%Forall_snoc_inv). cbn [cell_of]. rewrite texts_snoc, best_snoc. apply MaxT_Put_improve; try done. by apply text_good_best.
  - intros [_ []]%Forall_snoc_inv.
  - intros (Hn & [H Hi]%Forall_snoc_inv). cbn [cell_of]. rewrite texts_snoc, head_snoc.
    pose proof (FirstT_Put_head n vs a _ s E Hn (good_text_head n l H) Hi) as G. by destruct (head (omap itext l)).
  - intros [_ []]%Forall_snoc_inv.
  - intros [_ []]%Forall_snoc_inv.
  - intros [[_ []]%Forall_snoc_inv _].
Qed.

Lemma PutFactor_cell a l f :
  fits (akind a) (l ++ [IFactor f]) -> gives a (PutFactor a (cell_of (akind a) l) f) (cell_of (akind a) (l ++ [IFactor f])).
Proof.
  unfold PutFactor. destruct (akind a) as [w c|s|w b|w b|b|b|n cmp|n cmp|w vs|n vs| | |] eqn:E; cbn [fits];
    try (intros H; exfalso; repeat match goal with H : _ /\ _ |- _ => destruct H end;
         match goal with H : Forall _ (l ++ _) |- _ => apply Forall_snoc_inv in H as [_ H]; unfold double_ok in H; cbn in H; tauto end).
  intros [[H Hi]%Forall_snoc_inv Hs]. cbn [cell_of]. rewrite zsum_snoc in Hs |- *. rewrite Count_Put_total by done. gives_done.
Qed.

Lemma Put_cell parse a l i :
  fits (akind a) (l ++ [i]) -> gives a (Put parse a (cell_of (akind a) l) i) (cell_of (akind a) (l ++ [i])).
Proof. destruct i; [apply PutFactor_cell|apply PutNumber_cell|apply PutText_cell]. Qed.

Lemma Reset_cell a : snd (Reset a) = cell_of (akind a) [] /\ same_class (akind a) (akind (fst (Reset a))).
Proof. unfold Reset. destruct a as [st k]; destruct k; cbn; by split. Qed.

(** ** Doubles that are numbers are ordered by an integer *)

Definition rank (v : Z) : Z :=
  match double_of_bits v with DFin k => k | DInf neg => if neg then - 2 ^ 2100 else 2 ^ 2100 | DNaN => 0 end.

#[export] Instance rank_less_Better : Better (fun x y => rank x <? rank y).
Proof. split; intros; lia. Qed.

#[export] Instance rank_greater_Better : Better (fun x y => rank y <? rank x).
Proof. split; intros; lia. Qed.

Lemma double_of_bits_bounded v k : double_of_bits v = DFin k -> Z.abs k < 2 ^ 2100.
Proof.
  unfold double_of_bits. set (u := wrap64 v). pose proof (Z.mod_pos_bound u (2 ^ 52) ltac:(lia)).
  pose proof (Z.mod_pos_bound (u / 2 ^ 52) (2 ^ 11) ltac:(lia)). set (e := (u / 2 ^ 52) mod 2 ^ 11) in *. set (f := u mod 2 ^ 52) in *.
  destruct (Z.eqb_spec e 2047); [destruct (f =? 0); discriminate|]. intros [= <-].
  set (m := if e =? 0 then f else (2 ^ 52 + f) * 2 ^ (e - 1)).
  assert (0 <= m < 2 ^ 2100); [|clearbody m; match goal with |- context [if ?b then - m else m] => destruct b end; lia]. unfold m. clear m.
  assert (2 ^ 52 < 2 ^ 2100) by (apply Z.pow_lt_mono_r; lia). destruct (Z.eqb_spec e 0); [lia|].
  assert (2 ^ (e - 1) <= 2 ^ 2046) by (apply Z.pow_le_mono_r; lia). assert (0 < 2 ^ (e - 1)) by (apply Z.pow_pos_nonneg; lia).
  assert (2 ^ 2100 = 2 ^ 54 * 2 ^ 2046) as -> by (rewrite <- Z.pow_add_r by lia; f_equal; lia). 
  split; [apply Z.mul_nonneg_nonneg; lia|]. apply Z.lt_le_trans with (2 ^ 53 * 2 ^ (e - 1)); [apply Z.mul_lt_mono_pos_r; lia|].
  apply Z.mul_le_mono_nonneg; lia.
Qed.

Lemma dless_rank x y : double_of_bits x <> DNaN -> double_of_bits y <> DNaN -> dless x y = (rank x <? rank y).
Proof.
  unfold dless, rank. intros Hx Hy.
  destruct (double_of_bits x) as [k| |] eqn:Ex; [apply double_of_bits_bounded in Ex| |done];
    (destruct (double_of_bits y) as [m| |] eqn:Ey; [apply double_of_bits_bounded in Ey| |done]); cbn [dlt];
    repeat match goal with b : bool |- _ => destruct b end; cbn [andb negb]; try reflexivity; generalize dependent (2 ^ 2100); intros; symmetry;
    (apply Z.ltb_lt || apply Z.ltb_ge || idtac); lia.
Qed.

Lemma best_ext {V : Type} (b1 b2 : V -> V -> bool) l :
  (forall x y, x ∈ l -> y ∈ l -> b1 x y = b2 x y) -> best b1 l = best b2 l.
Proof.
  induction l as [|v l IH] using rev_ind; [done|]. intros H. rewrite !best_snoc, IH by (intros; apply H; rewrite elem_of_app; auto).
  unfold improve. destruct (best b2 l) as [c|] eqn:E; [|done]. apply best_In in E.
  rewrite H; [done|..]; rewrite elem_of_app, ?list_elem_of_singleton; auto.
Qed.

Lemma doubles_rank l : Forall double_ok l -> forall x, x ∈ omap number l -> double_of_bits x <> DNaN.
Proof.
  intros H x (i & Hi & E)%list_elem_of_omap. rewrite Forall_forall in H. destruct (H i Hi) as [_ Hn].
  destruct i; try done. by injection E as <-.
Qed.

Lemma best_dless l : Forall double_ok l -> best dless (omap number l) = best (fun x y => rank x <? rank y) (omap number l).
Proof. intros H. apply best_ext. intros. apply dless_rank; by apply (doubles_rank l H). Qed.

Lemma best_dgreater l : Forall double_ok l -> best dgreater (omap number l) = best (fun x y => rank y <? rank x) (omap number l).
Proof. intros H. apply best_ext. intros. apply dless_rank; by apply (doubles_rank l H). Qed.

(** ** Merging *)

Lemma best_app_ext {V : Type} (b1 b2 : V -> V -> bool) `{!Better b2} l1 l2 :
  (forall x y, x ∈ l1 ++ l2 -> y ∈ l1 ++ l2 -> b1 x y = b2 x y) ->
  best b1 (l1 ++ l2) = match best b1 l2 with Some v => improve b1 (best b1 l1) v | None => best b1 l1 end.
Proof.
  intros H. rewrite (best_ext _ _ _ H), best_app by done.
  rewrite <- (best_ext b1 b2 l1), <- (best_ext b1 b2 l2) by (intros; apply H; rewrite elem_of_app; auto).
  destruct (best b1 l2) as [v|] eqn:E2; [|done]. unfold improve. destruct (best b1 l1) as [c|] eqn:E1; [|done].
  apply best_In in E1, E2. rewrite H; [done|..]; rewrite elem_of_app; auto.
Qed.

Lemma fits_app_l k l1 l2 : fits k (l1 ++ l2) -> fits k l1.
Proof.
  destruct k; cbn [fits]; rewrite ?Forall_app; try tauto.
  - rewrite zsum_app. intros [[H1 H2] H]. pose proof (zsum_nonneg _ _ H2). split; [done|lia].
  - intros [[H1 H2] H]. split; [done|]. intros p q -> Hp. apply (H p (q ++ l2)); [by rewrite app_assoc|done].
Qed.

Lemma Count_Merge_total w l1 l2 :
  Forall (fun i => 0 <= ifactor i) (l1 ++ l2) -> zsum ifactor (l1 ++ l2) < 2 ^ (wbits w - 1) ->
  checked w (load w (store w (zsum ifactor l1)) + load w (store w (zsum ifactor l2))) = AOk (zsum ifactor (l1 ++ l2)).
Proof.
  rewrite Forall_app, zsum_app. intros [H1 H2] Hs%Z.lt_le_pred. apply zsum_nonneg in H1, H2.
  assert (0 < 2 ^ (wbits w - 1)) by (by destruct w).
  rewrite !load_store_word, checked_ok by (unfold is_sword; lia). done.
Qed.

Lemma Sum64_Merge_cell l1 l2 :
  fits Sum64_new (l1 ++ l2) -> fits Sum64_new l2 -> l2 <> [] ->
  Sum64_Merge (cell_of Sum64_new l1) (cell_of Sum64_new l2) = AOk (cell_of Sum64_new (l1 ++ l2)).
Proof.
  intros F1 [_ F2] Hl2. pose proof (fits_app_l _ _ _ F1) as [_ F0]. destruct F1 as [_ F1].
  pose proof (F2 l2 [] ltac:(by rewrite app_nil_r) Hl2) as S2.
  pose proof (F1 (l1 ++ l2) [] ltac:(by rewrite app_nil_r) ltac:(destruct l1; [done|by destruct l2])) as S12. rewrite zsum_app in S12.
  assert (S1 : Z.abs (zsum weighted l1) < 2 ^ 63).
  { destruct l1 as [|i l1]; [done|]. specialize (F0 (i :: l1) [] ltac:(by rewrite app_nil_r) ltac:(done)). unfold NULL_VALUE_64 in *. lia. }
  unfold Sum64_Merge. rewrite (sum_running l1 F0).
  assert (load W64 (cell_of Sum64_new l2) = zsum weighted l2) as ->.
  { pose proof (sum_running l2 F2) as E. destruct (Z.eqb_spec (load W64 (cell_of Sum64_new l2)) NULL_VALUE_64) as [En|]; [|done].
    exfalso. destruct l2 as [|i l2]; [done|]. cbn [cell_of Sum64_new] in En. rewrite load_store_word in En; unfold is_sword, NULL_VALUE_64 in *; cbn [wbits]; lia. }
  unfold NULL_VALUE_64 in *.
  rewrite (sum_in_range_passes _ (zsum weighted l2)) by (try apply double_of_int_approximates; lia).
  rewrite checked_ok by (unfold is_sword; cbn [wbits]; lia). cbn [abind cell_of Sum64_new]. rewrite zsum_app. do 2 f_equal.
  by destruct l1, l2.
Qed.

Lemma opt_src w better l :
  Forall (number_ok w) l -> let o := best better (omap number l) in
  (load w (opt_cell w o) =? wnull w) = negb (bool_decide (is_Some o)) /\ load w (opt_cell w o) = default (wnull w) o.
Proof. intros H. split; [by apply opt_is_null, good_best|by apply load_opt, good_best]. Qed.

Lemma shown_compare_shown n cmp `{!Collation cmp} c s :
  text_good n cmp c -> text_good n cmp s ->
  (0 <? cmp (shown c) (shown s)) = (0 <? cmp c s) /\ (cmp (shown c) (shown s) <? 0) = (cmp c s <? 0).
Proof.
  intros [_ Hc] [_ Hs].
  assert (S : forall a b, cmp a b < 0 <-> 0 < cmp b a) by (intros a b; rewrite <- !Z.ltb_lt; by rewrite coll_sym).
  assert (I : forall a, ~ 0 < cmp a a).
  { intros a. pose proof (better_irrefl (tless cmp) (Better0 := coll_less) a) as I. by apply Z.ltb_ge in I; apply Zle_not_lt. }
  pose proof (I []). pose proof (I [1]). pose proof (S [] []). pose proof (S [1] [1]).
  pose proof (S [1] s). pose proof (S [] s). pose proof (S [1] c). pose proof (S [] c).
  unfold shown. destruct c as [|x c], s as [|y s]; repeat change (zlen [] =? 0) with true;
    repeat match goal with |- context [zlen (?x :: ?l) =? 0] => change (zlen (x :: l) =? 0) with false end; cbn iota;
    (destruct Hc as [|Hc]; [done||idtac|]); (destruct Hs as [|Hs]; [done||idtac|]);
    split; apply eq_true_iff_eq; rewrite !Z.ltb_lt; try tauto; lia.
Qed.

Lemma opt_text_src n cmp better l :
  1 <= n < 2 ^ 16 -> Forall (text_ok n cmp) l -> let o := best better (omap itext l) in
  text_null (opt_text n o) = negb (bool_decide (is_Some o)) /\ forall c, o = Some c -> text_good n cmp c.
Proof.
  intros Hn H. split; [|by apply text_good_best]. apply opt_text_null; [done|]. intros c Hc. by apply (text_good_best n cmp better l H).
Qed.

Lemma MinT_Merge_best n cmp `{!Collation cmp} a o1 o2 :
  akind a = MinT n cmp -> 2 <= n < 2 ^ 16 ->
  (forall c, o1 = Some c -> text_good n cmp c) -> (forall c, o2 = Some c -> text_good n cmp c) ->
  gives a (MinT_Merge n cmp a (opt_text n o1) (opt_text n o2))
          (opt_text n (match o2 with Some s => improve (tless cmp) o1 s | None => o1 end)).
Proof.
  intros Ha Hn H1 H2. unfold MinT_Merge.
  rewrite !opt_text_null by (lia || (intros c Hc; first [apply (H1 c Hc)|apply (H2 c Hc)])).
  destruct o2 as [s|]; [|rewrite bool_decide_false by (intros []; discriminate); gives_done].
  rewrite bool_decide_true by (by eexists). specialize (H2 s eq_refl). destruct o1 as [c|]; cbn [negb opt_text].
  - rewrite bool_decide_true by (by eexists). specialize (H1 c eq_refl). cbn [negb].
    rewrite !text_cell_string by (done || apply H1 || apply H2). cbn [abind].
    rewrite (proj1 (shown_compare_shown n cmp c s H1 H2)). cbn [improve]. unfold tless. destruct (0 <? _); gives_done.
  - rewrite bool_decide_false by (intros []; discriminate). cbn. gives_done.
Qed.

Lemma MaxT_Merge_best n cmp `{!Collation cmp} a o1 o2 :
  akind a = MaxT n cmp -> 2 <= n < 2 ^ 16 ->
  (forall c, o1 = Some c -> text_good n cmp c) -> (forall c, o2 = Some c -> text_good n cmp c) ->
  gives a (MaxT_Merge n cmp a (opt_text n o1) (opt_text n o2))
          (opt_text n (match o2 with Some s => improve (tgreater cmp) o1 s | None => o1 end)).
Proof.
  intros Ha Hn H1 H2. unfold MaxT_Merge.
  rewrite !opt_text_null by (lia || (intros c Hc; first [apply (H1 c Hc)|apply (H2 c Hc)])).
  destruct o2 as [s|]; [|rewrite bool_decide_false by (intros []; discriminate); gives_done].
  rewrite bool_decide_true by (by eexists). specialize (H2 s eq_refl). destruct o1 as [c|]; cbn [negb opt_text].
  - rewrite bool_decide_true by (by eexists). specialize (H1 c eq_refl). cbn [negb].
    rewrite !text_cell_string by (done || apply H1 || apply H2). cbn [abind].
    rewrite (proj2 (shown_compare_shown n cmp c s H1 H2)). cbn [improve]. unfold tgreater. destruct (_ <? 0); gives_done.
  - rewrite bool_decide_false by (intros []; discriminate). cbn. gives_done.
Qed.

#[export] Instance tgreater_Better cmp `{!Collation cmp} : Better (tgreater cmp).
Proof.
  destruct coll_less as [A C]. unfold tless, tgreater in *. split.
  - intros x y. rewrite !coll_sym. apply A.
  - intros x y z H1 H2. rewrite coll_sym in *. by apply (C _ y).
Qed.

Lemma head_app_omap {A B : Type} (f : A -> option B) l1 l2 :
  head (omap f (l1 ++ l2)) = match head (omap f l1) with Some c => Some c | None => head (omap f l2) end.
Proof. rewrite omap_app. by destruct (omap f l1). Qed.

Lemma foldl_assoc (op : Z -> Z -> Z) e l1 l2 :
  (forall x y z, op x (op y z) = op (op x y) z) -> (forall x, op x e = x) ->
  op (foldl op e l1) (foldl op e l2) = foldl op e (l1 ++ l2).
Proof.
  intros Ha He. rewrite foldl_app. generalize (foldl op e l1). intros x. induction l2 as [|y l2 IH] using rev_ind; [done|].
  by rewrite !foldl_app, <- IH; cbn; rewrite Ha.
Qed.

Ltac split_fits := repeat match goal with H : _ /\ _ |- _ => destruct H | H : Forall _ (_ ++ _) |- _ => apply Forall_app in H end.

Lemma MinD_Merge_cell a b l1 l2 :
  akind a = MinD b -> Forall double_ok (l1 ++ l2) -> gives a (Merge a (cell_of (MinD b) l1) (cell_of (MinD b) l2)) (cell_of (MinD b) (l1 ++ l2)).
Proof.
  intros E F. assert (N : Forall (number_ok W64) (l1 ++ l2)) by (eapply Forall_impl; [done|]; by intros ? [? _]).
  unfold Merge. rewrite E. cbn [cell_of]. apply Forall_app in N as [N1 N2]. change NULL_VALUE_64 with (wnull W64).
  destruct (opt_src W64 dless l2 N2) as [-> ->].
  rewrite omap_app, (best_app_ext dless (fun x y => rank x <? rank y)).
  - destruct (best dless (omap number l2)); [|gives_done]. apply MinD_Put_improve; [done|by apply good_best].
  - intros. apply dless_rank; apply (doubles_rank _ F); by rewrite omap_app.
Qed.

Lemma MaxD_Merge_cell a b l1 l2 :
  akind a = MaxD b -> Forall double_ok (l1 ++ l2) -> gives a (Merge a (cell_of (MaxD b) l1) (cell_of (MaxD b) l2)) (cell_of (MaxD b) (l1 ++ l2)).
Proof.
  intros E F. assert (N : Forall (number_ok W64) (l1 ++ l2)) by (eapply Forall_impl; [done|]; by intros ? [? _]).
  unfold Merge. rewrite E. cbn [cell_of]. apply Forall_app in N as [N1 N2]. change NULL_VALUE_64 with (wnull W64).
  destruct (opt_src W64 dgreater l2 N2) as [-> ->].
  rewrite omap_app, (best_app_ext dgreater (fun x y => rank y <? rank x)).
  - destruct (best dgreater (omap number l2)); [|gives_done]. apply MaxD_Put_improve; [done|by apply good_best].
  - intros. apply dless_rank; apply (doubles_rank _ F); by rewrite omap_app.
Qed.

Lemma Sum64_cell_null l :
  fits Sum64_new l -> l <> [] -> (load W64 (cell_of Sum64_new l) =? NULL_VALUE_64) = false.
Proof.
  intros [_ F] Hl. specialize (F l [] ltac:(by rewrite app_nil_r) Hl). destruct l as [|i l]; [done|].
  apply Z.eqb_neq. cbn [cell_of Sum64_new]. rewrite load_store_word; unfold is_sword, NULL_VALUE_64 in *; cbn [wbits]; lia.
Qed.

(** Merging the counter of one table into that of another is counting the rows of both. *)
Lemma Merge_cell a l1 l2 :
  fits (akind a) (l1 ++ l2) -> fits (akind a) l2 ->
  gives a (Merge a (cell_of (akind a) l1) (cell_of (akind a) l2)) (cell_of (akind a) (l1 ++ l2)).
Proof.
  destruct (akind a) as [w c|s|w b|w b|b|b|n cmp|n cmp|w vs|n vs| | |] eqn:E; intros F F2;
    try (by apply MinD_Merge_cell); try (by apply MaxD_Merge_cell); unfold Merge; rewrite E.
  - cbn [cell_of]. rewrite Count_Merge_total by apply F. cbn [abind]. gives_done.
  - change (cell_of (Sum64 s)) with (cell_of Sum64_new). destruct (decide (l2 = [])) as [->|Hl2].
    { rewrite app_nil_r. cbn. gives_done. }
    rewrite Sum64_cell_null, Sum64_Merge_cell by done. cbn [abind]. gives_done.
  - cbn [fits] in *. split_fits. cbn [cell_of]. rewrite omap_app, best_app by apply _. destruct (opt_src w Z.ltb l2) as [-> ->]; [done|].
    destruct (best Z.ltb (omap number l2)); [|gives_done]. apply Min_Put_improve; [done|by apply good_best].
  - cbn [fits] in *. split_fits. cbn [cell_of]. rewrite omap_app, best_app by apply _. destruct (opt_src w Z.gtb l2) as [-> ->]; [done|].
    destruct (best Z.gtb (omap number l2)); [|gives_done]. apply Max_Put_improve; [done|by apply good_best].
  - cbn [fits] in *. split_fits. cbn [cell_of]. rewrite omap_app, best_app by (constructor; apply coll_less). apply MinT_Merge_best; try done; by apply text_good_best.
  - cbn [fits] in *. split_fits. cbn [cell_of]. rewrite omap_app, best_app by apply _. apply MaxT_Merge_best; try done; by apply text_good_best.
  - cbn [fits] in *. split_fits. cbn [cell_of]. rewrite head_app_omap.
    rewrite (opt_is_null w _ (good_head w l2 F2)), (load_opt w _ (good_head w l2 F2)).
    destruct (head (omap number l2)) as [v|]; cbn [negb].
    + pose proof (First_Put_head w vs a (head (omap number l1)) v E ltac:(by apply good_head)) as G. cbn. by destruct (head (omap number l1)).
    + destruct (head (omap number l1)); gives_done.
  - cbn [fits] in *. split_fits. cbn [cell_of]. rewrite head_app_omap.
    rewrite !opt_text_null by (done || by apply good_text_head).
    destruct (head (omap itext l1)), (head (omap itext l2)); gives_done.
  - cbn [fits] in *. split_fits. rewrite !load_land by done. cbn [cell_of]. rewrite omap_app, foldl_assoc by (intros; (by rewrite Z.land_assoc) || by rewrite Z.land_m1_r). gives_done.
  - cbn [fits] in *. split_fits. rewrite !load_lor by done. cbn [cell_of]. rewrite omap_app, foldl_assoc by (intros; (by rewrite Z.lor_assoc) || by rewrite Z.lor_0_r). gives_done.
  - cbn [fits] in *. split_fits. rewrite !load_lxor by done. cbn [cell_of]. rewrite omap_app, foldl_assoc by (intros; (by rewrite Z.lxor_assoc) || by rewrite Z.lxor_0_r). gives_done.
Qed.

(** ** A group of rows *)

Fixpoint put_all (parse : list Z -> option Z) (a : Aggregator) (cell : list Z) (l : list input) : ares (Aggregator * list Z) :=
  match l with
  | [] => AOk (a, cell)
  | i :: l => r <<- Put parse a cell i; put_all parse (fst r) (snd r) l
  end.

(** A counter is reset when the group is new; then the values of its rows are put. *)
Definition aggregate (parse : list Z -> option Z) (a : Aggregator) (l : list input) : ares (Aggregator * list Z) :=
  put_all parse (fst (Reset a)) (snd (Reset a)) l.

Definition least {V : Type} (better : V -> V -> bool) (vs : list V) (r : option V) : Prop :=
  match r with None => vs = [] | Some m => m ∈ vs /\ forall x, x ∈ vs -> better x m = false end.

Definition null_or (v : Z) (r : option Z) : Prop := v = default NULL_VALUE_64 r.

(** What SQL says about the value [v], or the text [t], of the group of rows [l]. *)
Definition answers (k : kind) (l : list input) (v : Z) (t : option (list Z)) : Prop :=
  match k with
  | Count _ _ => v = zsum ifactor l
  | Sum64 _ => v = match l with [] => NULL_VALUE_64 | _ => zsum weighted l end
  | Min _ _ => exists r, least Z.ltb (omap number l) r /\ null_or v r
  | Max _ _ => exists r, least Z.gtb (omap number l) r /\ null_or v r
  | MinD _ => exists r, least dless (omap number l) r /\ null_or v r
  | MaxD _ => exists r, least dgreater (omap number l) r /\ null_or v r
  | MinT _ cmp => least (tless cmp) (omap itext l) t
  | MaxT _ cmp => least (tgreater cmp) (omap itext l) t
  | First _ _ => null_or v (head (omap number l))
  | FirstT _ _ => t = head (omap itext l)
  | BitAnd => v = foldr Z.land (-1) (omap number l)
  | BitOr => v = foldr Z.lor 0 (omap number l)
  | BitXor => v = foldr Z.lxor 0 (omap odd_number l)
  end.

Lemma put_all_cell parse a l1 l2 :
  fits (akind a) (l1 ++ l2) -> gives a (put_all parse a (cell_of (akind a) l1) l2) (cell_of (akind a) (l1 ++ l2)).
Proof.
  revert a l1. induction l2 as [|i l2 IH]; intros a l1 F.
  - rewrite app_nil_r. cbn. eexists. split; [reflexivity|apply same_class_refl].
  - replace (l1 ++ i :: l2) with ((l1 ++ [i]) ++ l2) in * by by rewrite <- app_assoc.
    destruct (Put_cell parse a l1 i (fits_app_l _ _ _ F)) as (a' & E & C). cbn [put_all]. rewrite E. cbn [abind fst snd].
    rewrite <- (same_class_cell _ _ _ C). destruct (IH a' (l1 ++ [i])) as (a'' & E' & C'); [by apply (same_class_fits _ _ _ C)|].
    exists a''. split; [by rewrite E', (same_class_cell _ _ _ C)|].
    revert C C'. destruct (akind a), (akind a'); try done; destruct (akind a''); cbn; intuition congruence.
Qed.

Lemma aggregate_cell parse a l : fits (akind a) l -> gives a (aggregate parse a l) (cell_of (akind a) l).
Proof.
  intros F. destruct (Reset_cell a) as [E C]. unfold aggregate. rewrite E, <- (same_class_cell _ _ _ C).
  destruct (put_all_cell parse (fst (Reset a)) [] l) as (a' & E' & C'); [by apply (same_class_fits _ _ _ C)|].
  exists a'. split; [by rewrite E', (same_class_cell _ _ _ C)|].
  revert C C'. destruct (akind a), (akind (fst (Reset a))); try done; destruct (akind a'); cbn; intuition congruence.
Qed.

Lemma best_least_of {V : Type} (better : V -> V -> bool) `{!Better better} l : least better l (best better l).
Proof.
  destruct (best better l) as [m|] eqn:E; cbn; [|by apply best_None in E].
  split; [by apply best_In in E|by apply best_least].
Qed.

Lemma least_ext {V : Type} (b1 b2 : V -> V -> bool) l r :
  (forall x y, x ∈ l -> y ∈ l -> b1 x y = b2 x y) -> least b2 l r -> least b1 l r.
Proof. intros H. destruct r as [m|]; cbn; [|done]. intros [Hm Hl]. split; [done|]. intros x Hx. rewrite H by done. auto. Qed.

Lemma read_opt w o : good w o -> null_or (if load w (opt_cell w o) =? wnull w then NULL_VALUE_64 else load w (opt_cell w o)) o.
Proof. intros H. rewrite opt_is_null, load_opt by done. unfold null_or. destruct o; done. Qed.

Lemma read_opt64 o : good W64 o -> null_or (load W64 (opt_cell W64 o)) o.
Proof. intros H. rewrite load_opt by done. done. Qed.

Lemma foldl_foldr (op : Z -> Z -> Z) e l :
  (forall x y z, op x (op y z) = op (op x y) z) -> (forall x, op x e = x) -> (forall x, op e x = x) -> foldl op e l = foldr op e l.
Proof.
  intros Ha He Hl. enough (G : forall x, foldl op x l = op x (foldr op e l)) by by rewrite G, Hl.
  induction l as [|y l IH]; intros x; cbn; [done|]. by rewrite IH, Ha.
Qed.

Lemma cell_answers a l :
  fits (akind a) l -> answers (akind a) l (GetValue64 a (cell_of (akind a) l)) (GetValueT a (cell_of (akind a) l)).
Proof.
  unfold GetValue64, GetValueT. destruct (akind a) as [w c|s|w b|w b|b|b|n cmp|n cmp|w vs|n vs| | |] eqn:E; intros F; cbn [answers].
  - destruct F as [H Hs%Z.lt_le_pred]. apply zsum_nonneg in H. assert (0 < 2 ^ (wbits w - 1)) by (by destruct w).
    apply load_store_word. unfold is_sword. lia.
  - change (cell_of (Sum64 s)) with (cell_of Sum64_new). destruct l as [|i l]; [done|].
    pose proof (sum_running (i :: l) (proj2 F)) as R. by rewrite (Sum64_cell_null _ F) in R.
  - eexists. split; [apply best_least_of; apply _|]. apply read_opt. by apply good_best.
  - eexists. split; [apply best_least_of; apply _|]. apply read_opt. by apply good_best.
  - exists (best dless (omap number l)). split.
    + rewrite best_dless by done. eapply least_ext; [|apply best_least_of; apply _]. intros. apply dless_rank; by apply (doubles_rank l F).
    + apply read_opt64, good_best. eapply Forall_impl; [done|]. by intros ? [? _].
  - exists (best dgreater (omap number l)). split.
    + rewrite best_dgreater by done. eapply least_ext; [|apply best_least_of; apply _]. intros. apply dless_rank; by apply (doubles_rank l F).
    + apply read_opt64, good_best. eapply Forall_impl; [done|]. by intros ? [? _].
  - destruct F as (Hn & HC & H). cbn [cell_of]. rewrite opt_text_value by (lia || (intros c Hc; exact (proj1 (text_good_best _ _ _ _ H c Hc)))).
    apply best_least_of. apply coll_less.
  - destruct F as (Hn & HC & H). cbn [cell_of]. rewrite opt_text_value by (lia || (intros c Hc; exact (proj1 (text_good_best _ _ _ _ H c Hc)))).
    apply best_least_of. apply _.
  - apply read_opt. by apply good_head.
  - destruct F as (Hn & H). cbn [cell_of]. apply opt_text_value; [done|by apply good_text_head].
  - rewrite load_land by done. apply foldl_foldr; intros; [by rewrite Z.land_assoc|by rewrite Z.land_m1_r|by rewrite Z.land_m1_l].
  - rewrite load_lor by done. apply foldl_foldr; intros; [by rewrite Z.lor_assoc|by rewrite Z.lor_0_r|by rewrite Z.lor_0_l].
  - destruct F as [F _]. rewrite load_lxor by done. apply foldl_foldr; intros; [by rewrite Z.lxor_assoc|by rewrite Z.lxor_0_r|by rewrite Z.lxor_0_l].
Qed.

(** ** Statistics *)

(** What the statistics know of a counter, unless they are [stuck]: then no pack is left out. *)
Definition covered (k : kind) (cell : list Z) : Prop :=
  match k with
  | Count w c => cur_min_counter c <= load w cell
  | Min w b => if load w cell =? wnull w then null_group_found b = true else load w cell <= stat b
  | Max w b => if load w cell =? wnull w then null_group_found b = true else stat b <= load w cell
  | MinD b => if load W64 cell =? NULL_VALUE_64 then null_group_found b = true
              else stat b <> NULL_VALUE_64 /\ dless (stat b) (load W64 cell) = false
  | MaxD b => if load W64 cell =? NULL_VALUE_64 then null_group_found b = true
              else stat b <> NULL_VALUE_64 /\ dless (load W64 cell) (stat b) = false
  | Sum64 s => load W64 cell = NULL_VALUE_64 -> sum_null_group s = true
  | First w vs => load w cell = wnull w -> vs = false
  | FirstT _ vs => text_null cell = true -> vs = false
  | _ => True
  end.

Definition stuck (k : kind) : Prop :=
  match k with
  | Sum64 s => sum_null_group s = true
  | First _ vs | FirstT _ vs => vs = false
  | MinT _ _ | MaxT _ _ | BitAnd | BitOr | BitXor => True
  | _ => False
  end.

(** The statistics of the doubles are numbers, the counters of COUNT are not zero. *)
Definition stat_number (k : kind) : Prop :=
  match k with MinD b | MaxD b => double_of_bits (stat b) <> DNaN | _ => True end.
Definition cell_number (k : kind) (cell : list Z) : Prop :=
  match k with
  | Count w _ => 1 <= load w cell
  | MinD _ | MaxD _ => double_of_bits (load W64 cell) <> DNaN
  | _ => True
  end.

Lemma rank_total x y z :
  double_of_bits x <> DNaN -> double_of_bits y <> DNaN -> double_of_bits z <> DNaN ->
  dless x y = false -> dless y z = false -> dless x z = false.
Proof. intros. rewrite !dless_rank in * by done. lia. Qed.

Lemma dless_asym x y : double_of_bits x <> DNaN -> double_of_bits y <> DNaN -> dless x y = true -> dless y x = false.
Proof. intros. rewrite !dless_rank in * by done. lia. Qed.

(** After the last counter that is needed no pack is left out, or all counters are covered. *)
Definition settled (k : kind) : Prop := stuck k \/ forall d, cell_number k d -> covered k d.

(** Each counter that [UpdateStatistics] sees is covered, and those that it saw stay covered. *)
Definition covers (k k' : kind) (c : list Z) : Prop :=
  covered k' c /\ forall d, cell_number k d -> covered k d -> covered k' d.

Lemma Min_covers w b c :
  covers (Min w b) (Min w (if load w c =? wnull w then with_stat b (stat b) true
                           else if stat b <? load w c then with_stat b (load w c) (null_group_found b) else b)) c.
Proof.
  unfold covers. cbn [covered]. destruct (load w c =? wnull w) eqn:Ec; [split; [done|]|destruct (Z.ltb_spec (stat b) (load w c)); split];
    try (intros d _; destruct (load w d =? wnull w)); cbn [null_group_found stat with_stat]; rewrite ?Ec; lia || done.
Qed.

Lemma Max_covers w b c :
  covers (Max w b) (Max w (if load w c =? wnull w then with_stat b (stat b) true
                           else if load w c <? stat b then with_stat b (load w c) (null_group_found b) else b)) c.
Proof.
  unfold covers. cbn [covered]. destruct (load w c =? wnull w) eqn:Ec; [split; [done|]|destruct (Z.ltb_spec (load w c) (stat b)); split];
    try (intros d _; destruct (load w d =? wnull w)); cbn [null_group_found stat with_stat]; rewrite ?Ec; lia || done.
Qed.

Lemma MinD_covers b c :
  double_of_bits (stat b) <> DNaN -> double_of_bits (load W64 c) <> DNaN ->
  covers (MinD b) (MinD (if load W64 c =? NULL_VALUE_64 then with_stat b (stat b) true
                         else if (stat b =? NULL_VALUE_64) || dless (stat b) (load W64 c)
                         then with_stat b (load W64 c) (null_group_found b) else b)) c.
Proof.
  intros Hs Hc. unfold covers. cbn [covered cell_number]. destruct (Z.eqb_spec (load W64 c) NULL_VALUE_64) as [Ec|Ec].
  { split; [done|]. intros d _. by destruct (load W64 d =? NULL_VALUE_64). }
  destruct ((stat b =? NULL_VALUE_64) || dless (stat b) (load W64 c)) eqn:Es; cbn [null_group_found stat with_stat].
  - split; [split; [done|rewrite dless_rank by done; lia]|]. intros d Hd. destruct (load W64 d =? NULL_VALUE_64); [done|].
    intros [Hn Hl]. split; [done|]. apply orb_true_iff in Es as [Es%Z.eqb_eq|Es]; [done|]. rewrite !dless_rank in * by done. lia.
  - apply orb_false_iff in Es as [Es%Z.eqb_neq Hl]. split; [done|]. by intros d _.
Qed.

Lemma MaxD_covers b c :
  double_of_bits (stat b) <> DNaN -> double_of_bits (load W64 c) <> DNaN ->
  covers (MaxD b) (MaxD (if load W64 c =? NULL_VALUE_64 then with_stat b (stat b) true
                         else if (stat b =? NULL_VALUE_64) || dless (load W64 c) (stat b)
                         then with_stat b (load W64 c) (null_group_found b) else b)) c.
Proof.
  intros Hs Hc. unfold covers. cbn [covered cell_number]. destruct (Z.eqb_spec (load W64 c) NULL_VALUE_64) as [Ec|Ec].
  { split; [done|]. intros d _. by destruct (load W64 d =? NULL_VALUE_64). }
  destruct ((stat b =? NULL_VALUE_64) || dless (load W64 c) (stat b)) eqn:Es; cbn [null_group_found stat with_stat].
  - split; [split; [done|rewrite dless_rank by done; lia]|]. intros d Hd. destruct (load W64 d =? NULL_VALUE_64); [done|].
    intros [Hn Hl]. split; [done|]. apply orb_true_iff in Es as [Es%Z.eqb_eq|Es]; [done|]. rewrite !dless_rank in * by done. lia.
  - apply orb_false_iff in Es as [Es%Z.eqb_neq Hl]. split; [done|]. by intros d _.
Qed.

Lemma UpdateStatistics_covers a c stop a' :
  stat_number (akind a) -> cell_number (akind a) c -> UpdateStatistics a c = (stop, a') ->
  same_class (akind a) (akind a') /\ stat_number (akind a') /\ covers (akind a) (akind a') c /\ (stop = true -> settled (akind a')).
Proof.
  unfold UpdateStatistics. destruct (akind a) as [w k|s|w b|w b|b|b|n cmp|n cmp|w vs|n vs| | |] eqn:E; intros HS Hc [= <- <-];
    cbn [akind with_kind same_class stat_number]; unfold settled; cbn [stuck]; try (rewrite E; split_and!; try done; by left).
  - split_and!; try done.
    + split; cbn; [|intros d _]; destruct (Z.ltb_spec (load w c) (cur_min_counter k)); lia.
    + intros Hs%Z.eqb_eq. right. cbn. intros d Hd. lia.
  - split_and!; try done; [|by left]. split; cbn; [by intros ->|]. intros d _ H Hd. rewrite H by done. apply orb_true_r.
  - split_and!; try done. apply Min_covers.
  - split_and!; try done. apply Max_covers.
  - split_and!; try done; [|by apply MinD_covers]. by destruct (_ =? _); [|destruct (_ || _)].
  - split_and!; try done; [|by apply MaxD_covers]. by destruct (_ =? _); [|destruct (_ || _)].
  - split_and!; try done; [|intros H%negb_true_iff; by left]. split; cbn; [by intros ->; rewrite Z.eqb_refl|].
    intros d _ H Hd. rewrite H by done. by destruct (_ =? _).
  - split_and!; try done; [|intros H%negb_true_iff; by left]. split; cbn; [by intros ->|].
    intros d _ H Hd. rewrite H by done. by destruct (text_null c).
Qed.

Lemma same_class_trans k1 k2 k3 : same_class k1 k2 -> same_class k2 k3 -> same_class k1 k3.
Proof. destruct k1, k2; try done; destruct k3; cbn; intuition congruence. Qed.

Lemma same_class_number k k' c : same_class k k' -> cell_number k c -> cell_number k' c.
Proof. destruct k, k'; try done. by intros [-> _]. Qed.

Lemma update_loop_covers a cells :
  stat_number (akind a) -> Forall (cell_number (akind a)) cells ->
  same_class (akind a) (akind (update_loop a cells))
  /\ (stuck (akind (update_loop a cells))
      \/ Forall (covered (akind (update_loop a cells))) cells
         /\ forall d, cell_number (akind a) d -> covered (akind a) d -> covered (akind (update_loop a cells)) d).
Proof.
  intros HS HF. revert a HS HF. induction cells as [|c cells IH]; intros a HS HF; cbn [update_loop].
  { split; [apply same_class_refl|]. right. split; [done|]. auto. }
  apply Forall_cons in HF as [Hc HF]. destruct (UpdateStatistics a c) as [stop a'] eqn:E.
  destruct (UpdateStatistics_covers a c stop a' HS Hc E) as (C & HS' & [Hcc Hcd] & Hstop).
  destruct stop.
  { split; [done|]. destruct (Hstop eq_refl) as [?|Hall]; [by left|right]. split; [|by auto].
    constructor; [done|]. eapply Forall_impl; [exact HF|]. intros d Hd. apply Hall. by apply (same_class_number _ _ _ C). }
  destruct (IH a') as (C' & IH'); [done| |].
  { eapply Forall_impl; [done|]. intros d. by apply same_class_number. }
  split; [by eapply same_class_trans|]. destruct IH' as [?|[F G]]; [by left|right]. split.
  - constructor; [|done]. apply G; [by eapply same_class_number|done].
  - intros d Hd Hcov. apply G; [by eapply same_class_number|auto].
Qed.

(** A pack given by its minimum and maximum. *)
Definition with_bounds (a : Aggregator) (pmin pmax : Z) : Aggregator := SetAggregatePackMax (SetAggregatePackMin a pmin) pmax.

Definition in_pack (k : kind) (pmin pmax : Z) (i : input) : Prop :=
  match i with
  | INumber v _ =>
      match k with
      | MinD _ => dless v (double_bound pmin) = false
      | MaxD _ => dless (double_bound pmax) v = false
      | _ => pmin <= v <= pmax
      end
  | _ => True
  end.

Lemma improve_same {V : Type} (better : V -> V -> bool) c v : better v c = false -> improve better (Some c) v = Some c.
Proof. cbn. by intros ->. Qed.

Lemma dle_number x y : dle (double_of_bits x) (double_of_bits y) = true ->
  double_of_bits x <> DNaN /\ double_of_bits y <> DNaN /\ rank x <= rank y.
Proof.
  unfold dle. intros H. assert (double_of_bits x <> DNaN /\ double_of_bits y <> DNaN) as [Hx Hy].
  { split; intros E; rewrite E in H; [done|]. by destruct (double_of_bits x). }
  split_and!; [done..|]. apply orb_true_iff in H as [H|H].
  - fold (dless x y) in H. rewrite dless_rank in H by done. lia.
  - unfold rank. destruct (double_of_bits x) as [|[]|], (double_of_bits y) as [|[]|]; cbn in H; lia || done.
Qed.

(** The counter [o] seen by the statistics. *)
Lemma opt_covered w o (P : Z -> Prop) (Q : Prop) :
  good w o -> (if load w (opt_cell w o) =? wnull w then Q else P (load w (opt_cell w o))) ->
  match o with Some c => P c | None => Q end.
Proof.
  intros Ho. rewrite opt_is_null, load_opt by done. destruct o as [c|].
  - by rewrite bool_decide_true by (by eexists).
  - by rewrite bool_decide_false by (intros []; done).
Qed.

Lemma numbers_ok l : Forall double_ok l -> Forall (number_ok W64) l.
Proof. intros H. eapply Forall_impl; [done|]. by intros ? [? _]. Qed.

(** No group has more rows than the number that COUNT was created with. *)
Definition counts_within (k : kind) (l : list input) : Prop :=
  match k with Count _ c => zsum ifactor l <= max_counter c | _ => True end.

(** A covered counter is not changed by a value of a pack that the statistics let be left out. *)
Lemma covered_cannot_change a l i pmin pmax :
  covered (akind a) (cell_of (akind a) l) -> ~ stuck (akind a) -> counts_within (akind a) (l ++ [i]) ->
  fits (akind a) (l ++ [i]) -> PackCannotChangeAggregation (with_bounds a pmin pmax) = true -> in_pack (akind a) pmin pmax i ->
  cell_of (akind a) (l ++ [i]) = cell_of (akind a) l.
Proof.
  unfold with_bounds, SetAggregatePackMax, SetAggregatePackMin, PackCannotChangeAggregation, with_kind, in_pack.
  destruct (akind a) as [w k|s|w b|w b|b|b|n cmp|n cmp|w vs|n vs| | |] eqn:E; cbn [akind stuck counts_within covered]; rewrite ?E;
    cbn [pack_bound null_group_found stat with_bound sum_null_group pack_min pack_max];
    intros Hcov Hst HC F HP Hi; try done; unfold with_bound in HP; cbn [akind pack_bound null_group_found stat] in HP.
  - apply Z.eqb_eq in HP. destruct F as [Hf Hs]. cbn [cell_of] in *. apply Forall_snoc_inv in Hf as [Hl Hf]. rewrite zsum_snoc in *.
    pose proof (zsum_nonneg ifactor l Hl). rewrite load_store_word in Hcov by (unfold is_sword; lia).
    replace (ifactor i) with 0 by lia. by rewrite Z.add_0_r.
  - destruct i as [|v f|]; [by destruct F as [[_ []]%Forall_snoc_inv _]| |by destruct F as [[_ []]%Forall_snoc_inv _]].
    apply andb_true_iff in HP as [[Hn%negb_true_iff Hmin%Z.eqb_eq]%andb_true_iff Hmax%Z.eqb_eq].
    destruct l as [|j l]; [by rewrite Hcov in Hn|]. assert (v = 0) as -> by lia.
    cbn [cell_of app]. rewrite app_comm_cons, zsum_snoc. cbn [weighted]. by rewrite Z.mul_0_l, Z.add_0_r.
  - apply Forall_snoc_inv in F as [F Hw]. destruct i as [|v f|]; try done. cbn [cell_of] in *. rewrite numbers_snoc, best_snoc.
    apply andb_true_iff in HP as [[Hn%negb_true_iff Hmin]%andb_true_iff Hmax].
    apply (opt_covered w _ (fun c => c <= stat b)) in Hcov; [|by apply good_best].
    destruct (best Z.ltb (omap number l)) as [c|]; [|congruence]. by rewrite improve_same by lia.
  - apply Forall_snoc_inv in F as [F Hw]. destruct i as [|v f|]; try done. cbn [cell_of] in *. rewrite numbers_snoc, best_snoc.
    apply andb_true_iff in HP as [[Hn%negb_true_iff Hmin]%andb_true_iff Hmax].
    apply (opt_covered w _ (fun c => stat b <= c)) in Hcov; [|by apply good_best].
    destruct (best Z.gtb (omap number l)) as [c|]; [|congruence]. by rewrite improve_same by lia.
  - pose proof (doubles_rank _ F) as R. apply Forall_snoc_inv in F as [F Hw]. destruct i as [|v f|]; [by destruct Hw| |by destruct Hw].
    cbn [cell_of] in *. rewrite numbers_snoc in R |- *. rewrite best_snoc.
    apply andb_true_iff in HP as [[[Hn%negb_true_iff _]%andb_true_iff _]%andb_true_iff (N1 & N2 & Hle)%dle_number].
    apply (opt_covered W64 _ (fun c => stat b <> NULL_VALUE_64 /\ dless (stat b) c = false)) in Hcov; [|by apply good_best, numbers_ok].
    destruct (best dless (omap number l)) as [c|] eqn:Eb; [|congruence]. apply best_In in Eb. destruct Hcov as [_ Hcov].
    assert (double_of_bits c <> DNaN) by (apply R; rewrite elem_of_app, ?list_elem_of_singleton; auto). assert (double_of_bits v <> DNaN) by (apply R; rewrite elem_of_app, ?list_elem_of_singleton; auto).
    rewrite improve_same; [done|]. rewrite dless_rank in * by done. lia.
  - pose proof (doubles_rank _ F) as R. apply Forall_snoc_inv in F as [F Hw]. destruct i as [|v f|]; [by destruct Hw| |by destruct Hw].
    cbn [cell_of] in *. rewrite numbers_snoc in R |- *. rewrite best_snoc.
    apply andb_true_iff in HP as [[[Hn%negb_true_iff _]%andb_true_iff _]%andb_true_iff (N1 & N2 & Hle)%dle_number].
    apply (opt_covered W64 _ (fun c => stat b <> NULL_VALUE_64 /\ dless c (stat b) = false)) in Hcov; [|by apply good_best, numbers_ok].
    destruct (best dgreater (omap number l)) as [c|] eqn:Eb; [|congruence]. apply best_In in Eb. destruct Hcov as [_ Hcov].
    assert (double_of_bits c <> DNaN) by (apply R; rewrite elem_of_app, ?list_elem_of_singleton; auto). assert (double_of_bits v <> DNaN) by (apply R; rewrite elem_of_app, ?list_elem_of_singleton; auto).
    rewrite improve_same; [done|]. unfold dgreater. rewrite dless_rank in * by done. lia.
  - apply Forall_snoc_inv in F as [F Hw]. destruct i as [|v f|]; try done. cbn [cell_of] in *. rewrite numbers_snoc, head_snoc.
    destruct (head (omap number l)) as [c|]; [done|]. exfalso. apply Hst, Hcov. rewrite load_opt by done. done.
  - destruct F as [Hn F]. apply Forall_snoc_inv in F as [F Hw]. destruct i as [| |s f]; try done. cbn [cell_of] in *. rewrite texts_snoc, head_snoc.
    destruct (head (omap itext l)) as [c|]; [done|]. exfalso. apply Hst, Hcov. cbn. apply null_cell_null. lia.
Qed.

(** ** What is proved *)

Lemma same_class_value k k' st st' cell :
  same_class k k' -> GetValue64 (mkAgg st k) cell = GetValue64 (mkAgg st' k') cell /\ GetValueT (mkAgg st k) cell = GetValueT (mkAgg st' k') cell.
Proof. by destruct k, k'; try done; cbn; intros; repeat match goal with H : _ /\ _ |- _ => destruct H end; subst. Qed.

(** C16: the counter of a group, reset and then given the values of the rows of the group, holds what
    SQL says of them: the number of the rows, their sum, a value that no other is less (or
    greater) than, the first of them, the conjunction, disjunction or exclusive disjunction of
    their bits; null if there are none.  The rows have to fit: no sum out of the range of the
    counter, texts that are not longer than the counter. *)
Theorem Aggregator_answers (parse : list Z -> option Z) (a : Aggregator) (l : list input) :
  fits (akind a) l ->
  exists a' cell, aggregate parse a l = AOk (a', cell) /\ answers (akind a) l (GetValue64 a' cell) (GetValueT a' cell).
Proof.
  intros F. destruct (aggregate_cell parse a l F) as (a' & E & C). exists a', (cell_of (akind a) l). split; [done|].
  pose proof (cell_answers a l F) as A. destruct a as [st k], a' as [st' k']. cbn [akind] in *.
  by destruct (same_class_value k k' st st' (cell_of k l) C) as [<- <-].
Qed.

Definition sample_rows : list input := [INumber 7 1; INumber (-3) 2; INumber 7 1].

Lemma sample_rows_fit :
  (fits Sum64_new sample_rows /\ fits (Min_new W32) sample_rows) /\ fits (Count_new W32 10) sample_rows.
Proof.
  split; [split|].
  - split; [by repeat constructor|]. intros p q E Hp. unfold sample_rows in E.
    destruct p as [|x p]; [done|]. injection E as <- E. destruct p as [|x p]; [done|]. injection E as <- E.
    destruct p as [|x p]; [done|]. injection E as <- E. by destruct p.
  - by repeat constructor.
  - split; [repeat constructor; cbn; lia|done].
Qed.

Example Aggregator_answers_witness :
  exists a' cell, aggregate (fun _ => None) (mkAgg false Sum64_new) sample_rows = AOk (a', cell)
                  /\ answers Sum64_new sample_rows (GetValue64 a' cell) (GetValueT a' cell).
Proof. apply (Aggregator_answers (fun _ => None) (mkAgg false Sum64_new)). apply sample_rows_fit. Defined.

(** C17: merging the counters that two tables have for a group gives the counter of the rows of both,
    in their order. *)
Theorem Aggregator_Merge (parse : list Z -> option Z) (a : Aggregator) (l1 l2 : list input) a1 c1 a2 c2 :
  fits (akind a) (l1 ++ l2) -> fits (akind a) l2 ->
  aggregate parse a l1 = AOk (a1, c1) -> aggregate parse a l2 = AOk (a2, c2) ->
  exists a12 a' cell, aggregate parse a (l1 ++ l2) = AOk (a12, cell) /\ Merge a1 c1 c2 = AOk (a', cell).
Proof.
  intros F F2 E1 E2. destruct (aggregate_cell parse a l1 (fits_app_l _ _ _ F)) as (a1' & E1' & C1).
  destruct (aggregate_cell parse a l2 F2) as (a2' & E2' & C2), (aggregate_cell parse a (l1 ++ l2) F) as (a12 & E12 & C12).
  rewrite E1 in E1'. rewrite E2 in E2'. injection E1' as -> ->. injection E2' as -> ->.
  destruct (Merge_cell a1' l1 l2) as (a' & E & _); [by apply (same_class_fits _ _ _ C1)..|].
  rewrite !(same_class_cell _ _ _ C1) in E. eauto.
Qed.

Example Aggregator_Merge_witness :
  exists a12 a' cell, aggregate (fun _ => None) (mkAgg false (Min_new W32)) (sample_rows ++ sample_rows) = AOk (a12, cell)
                      /\ Merge (mkAgg false (Min_new W32)) (store W32 (-3)) (store W32 (-3)) = AOk (a', cell).
Proof.
  apply (Aggregator_Merge (fun _ => None) (mkAgg false (Min_new W32)) sample_rows sample_rows _ _ (mkAgg false (Min_new W32)) (store W32 (-3)));
    try reflexivity; by repeat constructor.
Defined.

(** COUNT has no group without rows. *)
Definition some_rows (k : kind) (l : list input) : Prop :=
  match k with Count _ _ => 1 <= zsum ifactor l | _ => True end.

Lemma cells_number k groups :
  Forall (fits k) groups -> Forall (some_rows k) groups -> Forall (cell_number k) (map (cell_of k) groups).
Proof.
  intros HG HR. rewrite Forall_map. rewrite Forall_forall in HG, HR |- *. intros g Hin. specialize (HG g Hin). specialize (HR g Hin).
  rename HG into Hg. destruct k; try done; cbn [cell_number cell_of fits some_rows] in *; [|rewrite load_opt by by apply good_best, numbers_ok..].
  - rewrite load_store_word; [done|]. unfold is_sword. lia.
  - destruct (best dless _) as [v|] eqn:Eb; [|done]. apply best_In in Eb. by apply (doubles_rank g Hg).
  - destruct (best dgreater _) as [v|] eqn:Eb; [|done]. apply best_In in Eb. by apply (doubles_rank g Hg).
Qed.

Lemma UpdateAttrStats_covers a groups :
  Forall (some_rows (akind a)) groups -> stats_updated a = false -> Forall (fits (akind a)) groups ->
  let a' := UpdateAttrStats a (map (cell_of (akind a)) groups) in
  same_class (akind a) (akind a')
  /\ (stuck (akind a') \/ forall l, l ∈ groups -> covered (akind a') (cell_of (akind a) l)).
Proof.
  intros HC Hst HG. cbv zeta. unfold UpdateAttrStats. rewrite Hst. cbn [akind].
  assert (C0 : same_class (akind a) (akind (ResetStatistics a))) by (unfold ResetStatistics; by destruct (akind a)).
  destruct (update_loop_covers (ResetStatistics a) (map (cell_of (akind a)) groups)) as [C1 Hcov].
  - unfold ResetStatistics. by destruct (akind a).
  - eapply Forall_impl; [by apply cells_number|]. intros c. by apply same_class_number.
  - split; [by eapply same_class_trans|]. destruct Hcov as [?|[Hcov _]]; [by left|right].
    intros l Hl. rewrite Forall_forall in Hcov. apply Hcov. by apply list_elem_of_fmap_2.
Qed.

Lemma with_bounds_class a pmin pmax : same_class (akind a) (akind (with_bounds a pmin pmax)).
Proof.
  unfold with_bounds, SetAggregatePackMax, SetAggregatePackMin, with_kind. destruct a as [st k]. by destruct k.
Qed.

Lemma with_bounds_stuck a pmin pmax : stuck (akind a) -> PackCannotChangeAggregation (with_bounds a pmin pmax) = false.
Proof.
  destruct a as [st k]. unfold with_bounds, SetAggregatePackMax, SetAggregatePackMin, with_kind, PackCannotChangeAggregation.
  destruct k; cbn; try done; by intros ->.
Qed.

(** C18: a pack is left out only if no row of it could change a counter: with statistics collected from
    all the groups, and the minimum and the maximum of the pack set, where the aggregator answers
    that the pack cannot change the aggregation, putting any value between them leaves the
    counter of every group as it was.  This holds for all kinds of aggregators; for COUNT, if every
    group has at least one row ([some_rows]) and, with the row put, at most as many rows as COUNT was
    created for ([counts_within]).  A counter of COUNT that is zero is the case of
    [Count_statistics_zero] below. *)
Theorem PackCannotChangeAggregation_sound
    (parse : list Z -> option Z) (a : Aggregator) (groups : list (list input)) (pmin pmax : Z) (l : list input) (i : input) :
  stats_updated a = false -> Forall (fits (akind a)) groups ->
  Forall (some_rows (akind a)) groups -> counts_within (akind a) (l ++ [i]) ->
  let a' := with_bounds (UpdateAttrStats a (map (cell_of (akind a)) groups)) pmin pmax in
  PackCannotChangeAggregation a' = true -> l ∈ groups -> in_pack (akind a) pmin pmax i -> fits (akind a) (l ++ [i]) ->
  exists a'', Put parse a' (cell_of (akind a) l) i = AOk (a'', cell_of (akind a) l).
Proof.
  intros Hst HG HC Hcw a' HP Hl Hi F. set (a1 := UpdateAttrStats a (map (cell_of (akind a)) groups)) in *.
  destruct (UpdateAttrStats_covers a groups HC Hst HG) as [C Hcov]. fold a1 in C, Hcov.
  change a' with (with_bounds a1 pmin pmax) in *. clear a'.
  destruct Hcov as [Hs|Hcov]; [by rewrite (with_bounds_stuck a1 pmin pmax Hs) in HP|].
  assert (Hn : ~ stuck (akind a1)) by (intros Hs; by rewrite (with_bounds_stuck a1 pmin pmax Hs) in HP).
  pose proof (same_class_trans _ _ _ C (with_bounds_class a1 pmin pmax)) as Ha'.
  destruct (Put_cell parse (with_bounds a1 pmin pmax) l i) as (a'' & E & _); [by apply (same_class_fits _ _ _ Ha')|].
  exists a''. rewrite !(same_class_cell _ _ _ Ha') in E. rewrite E. do 2 f_equal.
  pose proof (covered_cannot_change a1 l i pmin pmax) as K.
  rewrite !(same_class_cell _ _ _ C), (same_class_fits _ _ _ C) in K. rewrite K; auto.
  - revert Hcw C. destruct (akind a), (akind a1); try done. by intros H [_ E']; cbn in *; rewrite <- E'.
  - revert Hi C. destruct (akind a), (akind a1); done.
Qed.

Example PackCannotChangeAggregation_sound_witness :
  (exists a'', Put (fun _ => None) (with_bounds (UpdateAttrStats (mkAgg false (Count_new W32 4)) [store W32 4]) 5 9) (store W32 4) (INumber 8 0)
               = AOk (a'', store W32 4)) /\
  PackCannotChangeAggregation (with_bounds (UpdateAttrStats (mkAgg false (Min_new W32)) [store W32 (-3); store W32 5]) 5 9) = true
  /\ exists a'', Put (fun _ => None) (with_bounds (UpdateAttrStats (mkAgg false (Min_new W32)) [store W32 (-3); store W32 5]) 5 9) (store W32 5) (INumber 8 1)
                 = AOk (a'', store W32 5).
Proof.
  split; [|split; [reflexivity|]].
  - apply (PackCannotChangeAggregation_sound (fun _ => None) (mkAgg false (Count_new W32 4)) [sample_rows] 5 9 sample_rows (INumber 8 0));
      try reflexivity; [constructor; [apply sample_rows_fit|constructor]|constructor; [done|constructor]|done|left|cbn; lia|].
    split; [|done]. repeat (apply Forall_cons; split; [cbn; lia|]). constructor.
  - apply (PackCannotChangeAggregation_sound (fun _ => None) (mkAgg false (Min_new W32)) [sample_rows; [INumber 5 1]] 5 9 [INumber 5 1] (INumber 8 1));
      try reflexivity; [by repeat constructor|by repeat constructor|right; left|cbn; lia|by repeat constructor].
Defined.

(** C20: SUM does not go wrong unnoticed far from its range: where the sum of the counter (0 if it has
    no value yet) and the product of the value and its factor is [2 ^ 63 + 2 ^ 28] or more, in
    absolute value, there is an exception; also for the first value of a group. *)
Theorem Sum64_overflow_throws (a : Aggregator) (s : SumSt) (cell : list Z) (v f : Z) :
  akind a = Sum64 s -> is_sword 64 v -> is_sword 64 f ->
  2 ^ 63 + 2 ^ 28 <= Z.abs ((if load W64 cell =? NULL_VALUE_64 then 0 else load W64 cell) + v * f) -> PutNumber a cell v f = AThrow.
Proof.
  intros E Hv Hf Hs. unfold PutNumber. rewrite E. unfold Sum64_Put.
  assert (is_sword 64 (load W64 cell)) by (unfold load; by apply swrap_sword). unfold is_sword in *.
  assert (Z.abs (v * f) <= 2 ^ 63 * 2 ^ 63) by (rewrite Z.abs_mul; apply Z.mul_le_mono_nonneg; lia).
  destruct (load W64 cell =? NULL_VALUE_64); cbv zeta;
    by rewrite (sum_out_of_range_stops _ (v * f)) by (try apply dmul_int_approximates; lia).
Qed.

(** The first value of a group, and the second one. *)
Example Sum64_overflow_throws_witness :
  PutNumber (mkAgg false Sum64_new) (store W64 NULL_VALUE_64) (2 ^ 62) 3 = AThrow /\
  PutNumber (mkAgg false Sum64_new) (store W64 (2 ^ 62)) (2 ^ 62) 3 = AThrow.
Proof.
  split; apply (Sum64_overflow_throws (mkAgg false Sum64_new) (mkSum 0 0 0 false));
    first [reflexivity|unfold is_sword; lia|vm_compute; discriminate].
Defined.

(** ** Where the code does not do what it says *)

(** Nearer to the range the check lets a sum pass that the counter cannot hold. *)
Example Sum64_gap : Sum64_Put (store W64 (2 ^ 63 - 1)) 1 1 = AUndef.
Proof. vm_compute. reflexivity. Qed.

(** A sum that is the null value is one: the next value starts a new sum. *)
Example Sum64_null_sum :
  exists a c, aggregate (fun _ => None) (mkAgg false Sum64_new) [INumber (- 2 ^ 62) 1; INumber (1 - 2 ^ 62) 1; INumber 5 1] = AOk (a, c)
              /\ GetValue64 a c = 5.
Proof. exists (mkAgg false Sum64_new), (store W64 5). split; vm_compute; reflexivity. Qed.

(** The statistics of COUNT stop at a counter of 1, as if no counter were 0: here a pack is left out
    that would change the second counter. *)
Example Count_statistics_zero :
  let a := UpdateAttrStats (mkAgg false (Count_new W32 1)) [store W32 1; store W32 0] in
  PackCannotChangeAggregation a = true /\ PutFactor a (store W32 0) 1 = AOk (changed (akind a), store W32 1).
Proof. by vm_compute. Qed.

(** A counter that is reset for a new group does not invalidate the statistics: the pack is left out
    though the new group has no minimum yet. *)
Example Reset_keeps_statistics :
  let a := UpdateAttrStats (mkAgg false (Min_new W32)) [store W32 5] in
  let '(a, cell) := Reset a in
  let a := with_bounds (UpdateAttrStats a [store W32 5; cell]) 6 9 in
  PackCannotChangeAggregation a = true /\ PutNumber a cell 7 1 = AOk (changed (akind a), store W32 7).
Proof. by vm_compute. Qed.

(** The empty text of a counter is compared as the text of the byte 1, which is then not greater. *)
Example MaxT_empty_text :
  exists a c, aggregate (fun _ => None) (mkAgg false (MaxT 4 rcb_strcmp)) [IText [] 1; IText [1] 1] = AOk (a, c)
              /\ GetValueT a c = Some [] /\ rcb_strcmp [] [1] < 0.
Proof. exists (changed (MaxT 4 rcb_strcmp)), (text_cell 4 []). split_and!; vm_compute; reflexivity. Qed.
