(* ===== verification/RowStorage.v ===== *)
(** * Rows of bytes in blocks of memory (core/BlockedMemTable.h, core/BlockedMemTable.cpp)

    The hash table of a grouping keeps its rows in blocks of equal size, each of [2 ^ npower] rows,
    which it gets from a manager that recycles them.  A pointer is the number of an allocation; the
    memory is a map from pointers to bytes, and the contents of fresh memory are an argument
    ([junk]).  An access to memory that is not allocated, or through a null pointer, is [None], and so
    is the overflow of an [int] in the computation of the size of a block.

    Locks are not modelled. *)

From stdpp Require Import gmap.
From S2P Require Import Prelude ByteFile.

(** ** class MemBlockManager *)

Record MemBlockManager := mkMan {
  free_blocks : list Z;          (* the one given back last comes first *)
  used_blocks : gset Z;
  man_block_size : Z;
  size_limit : Z;                (* -1: none *)
  hard_size_limit : Z;
  no_threads : Z;
  current_size : Z;
  memory : gmap Z (list Z);
  next_pointer : Z
}.

Definition MemBlockManager_default : MemBlockManager := mkMan [] ∅ (-1) (-1) (-1) 1 0 ∅ 0.

(** [Init] on a manager that is initialized already does nothing. *)
Definition Man_Init (m : MemBlockManager) (mem_limit no_th b_size mem_hard_limit : Z) : bool * MemBlockManager :=
  if negb (size_limit m =? -1) then (false, m)
  else (true, mkMan (free_blocks m) (used_blocks m) b_size mem_limit mem_hard_limit no_th 0 (memory m) (next_pointer m)).

Definition MemBlockManager_new (mem_limit no_th b_size mem_hard_limit : Z) : MemBlockManager :=
  snd (Man_Init MemBlockManager_default mem_limit no_th b_size mem_hard_limit).

(** A copy has no blocks. *)
Definition Man_copy (m : MemBlockManager) : MemBlockManager :=
  mkMan [] ∅ (man_block_size m) (size_limit m) (hard_size_limit m) (no_threads m) 0 ∅ 0.

Definition SetBlockSize (m : MemBlockManager) (bsize : Z) : MemBlockManager :=
  mkMan (free_blocks m) (used_blocks m) bsize (size_limit m) (hard_size_limit m) (no_threads m) (current_size m) (memory m) (next_pointer m).

Definition with_blocks (m : MemBlockManager) (free : list Z) (used : gset Z) (size : Z) (mem : gmap Z (list Z)) (next : Z) : MemBlockManager :=
  mkMan free used (man_block_size m) (size_limit m) (hard_size_limit m) (no_threads m) size mem next.

Definition MemoryBlocksLeft (m : MemBlockManager) : Z :=
  if size_limit m =? -1 then 9999
  else
    let size_in_near_future := current_size m + man_block_size m * (Z.shiftr (no_threads m) 1 - zlen (free_blocks m)) in
    if size_limit m <? size_in_near_future then 0
    else swrap 32 (Z.quot (size_limit m - size_in_near_future) (man_block_size m)).

Definition MoreBlocksAllowed (m : MemBlockManager) : bool :=
  if man_block_size m =? -1 then false
  else if size_limit m =? -1 then true
  else 0 <? MemoryBlocksLeft m.

Section Storage.
Variable junk : Z -> list Z.

Definition GetBlock (m : MemBlockManager) : option Z * MemBlockManager :=
  if negb (hard_size_limit m =? -1) && (hard_size_limit m <=? current_size m) then (None, m)
  else match free_blocks m with
       | p :: free => (Some p, with_blocks m free ({[p]} ∪ used_blocks m) (current_size m) (memory m) (next_pointer m))
       | [] =>
           let p := next_pointer m in
           (Some p, with_blocks m [] ({[p]} ∪ used_blocks m) (current_size m + man_block_size m)
                      (<[p := resize (Z.to_nat (man_block_size m)) 0 (junk p)]> (memory m)) (p + 1))
       end.

Definition FreeBlock (m : MemBlockManager) (b : option Z) : MemBlockManager :=
  match b with
  | None => m
  | Some p =>
      if bool_decide (p ∈ used_blocks m) then
        let used := used_blocks m ∖ {[p]} in
        let keep := with_blocks m (p :: free_blocks m) used (current_size m) (memory m) (next_pointer m) in
        let release := with_blocks m (free_blocks m) used (current_size m - man_block_size m) (delete p (memory m)) (next_pointer m) in
        if size_limit m =? -1 then if 5 <? zlen (free_blocks m) then release else keep
        else if size_limit m + swrap 32 (man_block_size m * (no_threads m + 1)) <? current_size m then release else keep
      else m
  end.

(** ** class BlockedRowMemStorage *)

Record Storage := mkStorage {
  bman : MemBlockManager;
  row_len : Z;
  block_size : Z;
  npower : Z;                     (* a block contains 2 ^ npower rows *)
  ndx_mask : Z;
  rows_in_block : Z;
  no_rows : Z;
  no_blocks : Z;
  blocks : list (option Z);
  current : Z;
  release : bool;
  released_until : Z
}.

(** [CalculateBlockSize]: the power, and the rows of a block.  The product is an [int], which the
    doublings exceed after 31 rounds at the latest. *)
Fixpoint block_power (fuel : nat) (row_len min_block_size power rows : Z) : option (Z * Z) :=
  match fuel with
  | O => None
  | S fuel =>
      if 2 ^ 31 <=? row_len * rows then None
      else if row_len * rows <? min_block_size then block_power fuel row_len min_block_size (power + 1) (rows * 2)
      else Some (power, rows)
  end.

Definition CalculateBlockSize (row_len min_block_size : Z) : option (Z * Z) := block_power 32 row_len min_block_size 0 1.

Fixpoint get_blocks (n : nat) (m : MemBlockManager) (bs : list (option Z)) : option (MemBlockManager * list (option Z)) :=
  match n with
  | O => Some (m, bs)
  | S n => match GetBlock m with
           | (Some p, m) => get_blocks n m (bs ++ [Some p])
           | (None, _) => None                                 (* OutOfMemoryRCException *)
           end
  end.

Definition Storage_Init (rowl : Z) (m : MemBlockManager) (initial_size min_block_len : Z) : option Storage :=
  '(power, rows) ← CalculateBlockSize rowl min_block_len;
  let m := SetBlockSize m (rows * rowl) in
  let n := if 0 <? initial_size then initial_size / rows + 1 else 0 in
  match get_blocks (Z.to_nat n) m [] with
  | Some (m, bs) => Some (mkStorage m rowl (rows * rowl) power (Z.shiftl 1 power - 1) rows initial_size n bs (-1) false (-2))
  | None => None
  end.

Definition with_rows (st : Storage) (m : MemBlockManager) (rows nblocks : Z) (bs : list (option Z)) : Storage :=
  mkStorage m (row_len st) (block_size st) (npower st) (ndx_mask st) (rows_in_block st) rows nblocks bs
            (current st) (release st) (released_until st).

Definition with_man (st : Storage) (m : MemBlockManager) : Storage := with_rows st m (no_rows st) (no_blocks st) (blocks st).

Definition with_iter (st : Storage) (cur : Z) (rel : bool) (until : Z) : Storage :=
  mkStorage (bman st) (row_len st) (block_size st) (npower st) (ndx_mask st) (rows_in_block st) (no_rows st) (no_blocks st)
            (blocks st) cur rel until.

Definition Clear (st : Storage) : Storage :=
  with_iter (with_rows st (foldl FreeBlock (bman st) (blocks st)) 0 0 []) (-1) false (-2).

(** A pointer into a block. *)
Definition GetRow (st : Storage) (r : Z) : option (Z * Z) :=
  let b := Z.shiftr r (npower st) in
  if (b <? 0) then None
  else match blocks st !! Z.to_nat b with
       | Some (Some p) => Some (p, row_len st * Z.land r (ndx_mask st))
       | _ => None
       end.

Definition mem_read (st : Storage) (at_ : Z * Z) (off n : Z) : option (list Z) :=
  match memory (bman st) !! fst at_ with
  | Some c => if (0 <=? snd at_ + off) && (snd at_ + off + n <=? zlen c) then Some (slice c (snd at_ + off) n) else None
  | None => None
  end.

Definition mem_write (st : Storage) (at_ : Z * Z) (off : Z) (bs : list Z) : option Storage :=
  match memory (bman st) !! fst at_ with
  | Some c =>
      if (0 <=? snd at_ + off) && (snd at_ + off + zlen bs <=? zlen c) then
        Some (with_man st (with_blocks (bman st) (free_blocks (bman st)) (used_blocks (bman st)) (current_size (bman st))
                             (<[fst at_ := overwrite c (snd at_ + off) bs]> (memory (bman st))) (next_pointer (bman st))))
      else None
  | None => None
  end.

(** Reading and writing [n] bytes of row [r]. *)
Definition read_row (st : Storage) (r off n : Z) : option (list Z) :=
  match GetRow st r with Some p => mem_read st p off n | None => None end.

Definition write_row (st : Storage) (r off : Z) (bs : list Z) : option Storage :=
  match GetRow st r with Some p => mem_write st p off bs | None => None end.

(** A new block is taken when the last one is full; the row goes to the last block. *)
Definition AddRow (st : Storage) (r : list Z) : option (Z * Storage) :=
  let st := if Z.land (no_rows st) (ndx_mask st) =? 0
            then let '(b, m) := GetBlock (bman st) in with_rows st m (no_rows st) (no_blocks st + 1) (blocks st ++ [b])
            else st in
  match blocks st !! Z.to_nat (no_blocks st - 1) with
  | Some (Some p) =>
      match mem_write st (p, Z.land (no_rows st) (ndx_mask st) * row_len st) 0 r with
      | Some st => Some (no_rows st, with_rows st (bman st) (no_rows st + 1) (no_blocks st) (blocks st))
      | None => None
      end
  | _ => None
  end.

Definition AddEmptyRow (st : Storage) : option (Z * Storage) := AddRow st (replicate (Z.to_nat (row_len st)) 0).

Definition Storage_Set (st : Storage) (idx : Z) (r : list Z) : option Storage := write_row st idx 0 r.

Definition Rewind (st : Storage) (rel : bool) : Storage :=
  with_iter st (if no_rows st =? 0 then -1 else 0) rel (released_until st).

Definition GetCurrent (st : Storage) : Z := current st.

Definition NextRow (st : Storage) : bool * Storage :=
  let cur := current st + 1 in
  if cur =? no_rows st then (false, with_iter st (-1) (release st) (released_until st))
  else
    let st' := with_iter st cur (release st) (released_until st + if release st then 1 else 0) in
    if release st && (Z.land cur (ndx_mask st) =? 0) then
      let b := Z.to_nat (Z.shiftr cur (npower st) - 1) in
      (true, with_rows st' (FreeBlock (bman st) (default None (blocks st !! b))) (no_rows st) (no_blocks st) (<[b := None]> (blocks st)))
    else (true, st').

(** The copy of a storage whose manager is not its own has no blocks. *)
Definition Storage_copy (st : Storage) : Storage := with_rows st (bman st) (no_rows st) (no_blocks st) [].

(** ** The manager *)

Arguments FreeBlock : simpl never.

(** Each block is free or in use, allocated, and of the size of the blocks. *)
Record man_ok (m : MemBlockManager) : Prop := {
  man_free_NoDup : NoDup (free_blocks m);
  man_disjoint : forall p, p ∈ free_blocks m -> p ∉ used_blocks m;
  man_allocated : forall p, p ∈ free_blocks m \/ p ∈ used_blocks m ->
    exists c, memory m !! p = Some c /\ zlen c = man_block_size m;
  man_fresh : forall p c, memory m !! p = Some c -> p < next_pointer m;
  man_size : 0 < man_block_size m;
  man_no_hard : hard_size_limit m = -1
}.

(** Every block that is in use stays in use and keeps its contents. *)
Definition extends (m m' : MemBlockManager) : Prop :=
  forall p, p ∈ used_blocks m -> p ∈ used_blocks m' /\ memory m' !! p = memory m !! p.

Lemma GetBlock_spec m :
  man_ok m ->
  exists p m', GetBlock m = (Some p, m') /\ man_ok m' /\ (p ∉ used_blocks m) /\ (used_blocks m' = {[p]} ∪ used_blocks m)
               /\ extends m m' /\ man_block_size m' = man_block_size m.
Proof.
  intros [Hnd Hdis Hall Hfr Hsz Hhard]. unfold GetBlock. rewrite Hhard. cbn [Z.eqb Z.opp Pos.eqb negb andb].
  replace (-1 =? -1) with true by reflexivity. cbn [negb andb].
  destruct (free_blocks m) as [|p free] eqn:Ef.
  - set (p := next_pointer m). assert (Hp : memory m !! p = None).
    { destruct (memory m !! p) as [c|] eqn:E; [|done]. apply Hfr in E. unfold p in E. lia. }
    assert (p ∉ used_blocks m) as Hpu.
    { intros Hu. destruct (Hall p (or_intror Hu)) as (c & E & _). congruence. }
    eexists _, _. split; [reflexivity|]. split_and!; try done.
    + split; cbn; try done.
      * intros q Hq. by apply elem_of_nil in Hq.
      * intros q [H|H]; [by apply elem_of_nil in H|]. apply elem_of_union in H as [H|H]; [apply elem_of_singleton in H as ->|].
        -- eexists. split; [apply lookup_insert_eq|]. unfold zlen. rewrite length_resize. lia.
        -- rewrite lookup_insert_ne by (intros <-; done). apply Hall. by right.
      * intros q c. rewrite lookup_insert_Some. intros [[<- _]|[_ H%Hfr]]; unfold p; lia.
    + intros q Hq. cbn. split; [set_solver|]. apply lookup_insert_ne. intros <-. done.
  - assert (p ∉ used_blocks m) as Hpu by (apply Hdis; left). apply NoDup_cons in Hnd as [Hpf Hnd].
    eexists _, _. split; [reflexivity|]. split_and!; try done.
    + split; cbn; try done.
      * intros q Hq. rewrite not_elem_of_union, not_elem_of_singleton. split; [by intros ->|]. apply Hdis. by right.
      * intros q Hq. apply Hall. destruct Hq as [Hq|Hq]; [left; by right|].
        apply elem_of_union in Hq as [Hq|Hq]; [apply elem_of_singleton in Hq as ->; left; left|by right].
    + intros q Hq. cbn. split; [set_solver|done].
Qed.

Lemma FreeBlock_spec m p :
  man_ok m -> p ∈ used_blocks m ->
  man_ok (FreeBlock m (Some p)) /\ used_blocks (FreeBlock m (Some p)) = used_blocks m ∖ {[p]}
  /\ (forall q, q ∈ used_blocks m -> q <> p -> memory (FreeBlock m (Some p)) !! q = memory m !! q)
  /\ man_block_size (FreeBlock m (Some p)) = man_block_size m.
Proof.
  intros [Hnd Hdis Hall Hfr Hsz Hhard] Hp. unfold FreeBlock. rewrite bool_decide_true by done.
  set (keep := with_blocks m (p :: free_blocks m) _ _ _ _). set (rel := with_blocks m (free_blocks m) _ _ _ _).
  assert (Hk : man_ok keep).
  { split; cbn; try done.
    - apply NoDup_cons. split; [|done]. intros H. by apply (Hdis p).
    - intros q Hq. apply elem_of_cons in Hq as [->|Hq]; [set_solver|]. specialize (Hdis q Hq). set_solver.
    - intros q Hq. apply Hall. destruct Hq as [Hq|Hq]; [|right; set_solver]. apply elem_of_cons in Hq as [->|Hq]; [by right|by left]. }
  assert (Hr : man_ok rel).
  { split; cbn; try done.
    - intros q Hq. specialize (Hdis q Hq). set_solver.
    - intros q Hq. assert (q <> p) by (destruct Hq as [Hq|Hq]; [intros ->; by apply (Hdis p)|set_solver]).
      rewrite lookup_delete_ne by done. apply Hall. destruct Hq; [by left|right; set_solver].
    - intros q c. rewrite lookup_delete_Some. intros [_ H]. by apply Hfr in H. }
  assert (forall q, q ∈ used_blocks m -> q <> p -> memory rel !! q = memory m !! q) by (intros q _ Hq; cbn; by apply lookup_delete_ne).
  repeat case_match; done.
Qed.

(** ** The storage *)

(** Blocks from [first] on hold the rows; those before it were released. *)
Record holds (st : Storage) (first : Z) (rows : list (list Z)) : Prop := {
  h_man : man_ok (bman st);
  h_rows : zlen rows = no_rows st;
  h_row_len : Forall (fun r => zlen r = row_len st) rows;
  h_len_pos : 0 < row_len st;
  h_power : 0 <= npower st;
  h_mask : ndx_mask st = 2 ^ npower st - 1;
  h_size : block_size st = 2 ^ npower st * row_len st;
  h_man_size : man_block_size (bman st) = block_size st;
  h_no_blocks : no_blocks st = zlen (blocks st);
  h_blocks : (no_rows st + ndx_mask st) / 2 ^ npower st <= zlen (blocks st);
  h_live : forall b, first <= b < zlen (blocks st) ->
    exists p c, blocks st !! Z.to_nat b = Some (Some p) /\ p ∈ used_blocks (bman st) /\ memory (bman st) !! p = Some c
                /\ forall k, 0 <= k < 2 ^ npower st -> b * 2 ^ npower st + k < no_rows st ->
                     slice c (row_len st * k) (row_len st) = rows.[[]|b * 2 ^ npower st + k];
  h_distinct : forall b b' p, blocks st !! b = Some (Some p) -> blocks st !! b' = Some (Some p) -> b = b';
  h_first : 0 <= first
}.

(** No block is without rows. *)
Definition tight (st : Storage) : Prop := zlen (blocks st) = (no_rows st + ndx_mask st) / 2 ^ npower st.

Lemma land_mask st r : 0 <= npower st -> ndx_mask st = 2 ^ npower st - 1 -> Z.land r (ndx_mask st) = r mod 2 ^ npower st.
Proof. intros Hn ->. rewrite <- Z.land_ones by done. by rewrite Z.ones_equiv, Z.sub_1_r. Qed.

(** The block of a row, and the place of the row in it. *)
Lemma GetRow_spec st first rows r :
  holds st first rows -> first * 2 ^ npower st <= r < no_rows st ->
  exists p c, GetRow st r = Some (p, row_len st * (r mod 2 ^ npower st)) /\ p ∈ used_blocks (bman st)
    /\ memory (bman st) !! p = Some c /\ zlen c = 2 ^ npower st * row_len st
    /\ blocks st !! Z.to_nat (r / 2 ^ npower st) = Some (Some p)
    /\ slice c (row_len st * (r mod 2 ^ npower st)) (row_len st) = rows.[[]|r].
Proof.
  intros H Hr. pose proof (h_power _ _ _ H). pose proof (h_mask _ _ _ H) as Hm. pose proof (h_first _ _ _ H).
  assert (Hp : 0 < 2 ^ npower st) by (apply Z.pow_pos_nonneg; lia).
  assert (Hb : first <= r / 2 ^ npower st < zlen (blocks st)).
  { pose proof (h_blocks _ _ _ H) as Hbl. rewrite Hm in Hbl. split; [apply Z.div_le_lower_bound; lia|].
    eapply Z.lt_le_trans; [|exact Hbl]. apply Z.lt_le_trans with ((r + 2 ^ npower st) / 2 ^ npower st); [|apply Z.div_le_mono; lia].
    replace (r + 2 ^ npower st) with (r + 1 * 2 ^ npower st) by lia. rewrite Z.div_add by lia. lia. }
  destruct (h_live _ _ _ H _ Hb) as (p & c & E & Hu & Ec & Hs). exists p, c.
  destruct (man_allocated _ (h_man _ _ _ H) p (or_intror Hu)) as (c' & Ec' & Hc). rewrite Ec in Ec'. injection Ec' as <-.
  rewrite (h_man_size _ _ _ H), (h_size _ _ _ H) in Hc.
  split_and!; try done.
  - unfold GetRow. rewrite Z.shiftr_div_pow2, land_mask by done. destruct (Z.ltb_spec (r / 2 ^ npower st) 0); [lia|]. by rewrite E.
  - pose proof (Z.mod_pos_bound r _ Hp). pose proof (Z.div_mod r (2 ^ npower st) ltac:(lia)).
    rewrite Hs by lia. f_equal. lia.
Qed.

Lemma row_bounds st (r : Z) : 0 < row_len st -> 0 <= npower st ->
  0 <= row_len st * (r mod 2 ^ npower st) /\ row_len st * (r mod 2 ^ npower st) + row_len st <= 2 ^ npower st * row_len st.
Proof.
  intros Hl Hn. assert (Hp : 0 < 2 ^ npower st) by (apply Z.pow_pos_nonneg; lia). pose proof (Z.mod_pos_bound r _ Hp). nia.
Qed.

Lemma read_row_spec st first rows r off n :
  holds st first rows -> first * 2 ^ npower st <= r < no_rows st -> 0 <= off -> 0 <= n -> off + n <= row_len st ->
  read_row st r off n = Some (slice (rows.[[]|r]) off n).
Proof.
  intros H Hr Hoff Hn Hlen. destruct (GetRow_spec _ _ _ _ H Hr) as (p & c & Hg & _ & Ec & Hc & _ & Hs).
  destruct (row_bounds st r (h_len_pos _ _ _ H) (h_power _ _ _ H)) as [B1 B2].
  unfold read_row, mem_read. rewrite Hg. cbn [fst snd]. rewrite Ec, Hc, (proj2 (andb_true_iff _ _)) by lia.
  rewrite <- Hs, slice_slice by lia. done.
Qed.

(** Memory with other contents of one block. *)
Definition man_poke (m : MemBlockManager) (p : Z) (c : list Z) : MemBlockManager :=
  with_blocks m (free_blocks m) (used_blocks m) (current_size m) (<[p := c]> (memory m)) (next_pointer m).

Lemma man_poke_ok m p c c' : man_ok m -> memory m !! p = Some c -> zlen c' = zlen c -> man_ok (man_poke m p c').
Proof.
  intros [Hnd Hdis Hall Hfr Hsz Hhard] E Hc. split; try done; cbn.
  - intros q Hq. destruct (Hall q Hq) as (d & Ed & Hd). destruct (decide (q = p)) as [->|].
    + exists c'. rewrite lookup_insert_eq. split; [done|]. rewrite E in Ed. injection Ed as <-. congruence.
    + exists d. by rewrite lookup_insert_ne by done.
  - intros q d. rewrite lookup_insert_Some. intros [[<- _]|[_ Hd]]; eauto.
Qed.

Lemma div_mod_eq r r' m : r / m = r' / m -> r mod m = r' mod m -> 0 < m -> r = r'.
Proof. intros H1 H2 Hm. rewrite (Z.div_mod r m), (Z.div_mod r' m) by lia. by rewrite H1, H2. Qed.

(** Writing into a row changes that row and no other. *)
Lemma write_row_spec st first rows r off bs :
  holds st first rows -> first * 2 ^ npower st <= r < no_rows st -> 0 <= off -> off + zlen bs <= row_len st ->
  exists m, write_row st r off bs = Some (with_man st m) /\ holds (with_man st m) first (rows.[r <- overwrite (rows.[[]|r]) off bs]).
Proof.
  intros H Hr Hoff Hlen. destruct (GetRow_spec _ _ _ _ H Hr) as (p & c & Hg & Hu & Ec & Hc & Eb & Hs).
  pose proof (h_power _ _ _ H) as Hn. pose proof (h_first _ _ _ H). pose proof (h_len_pos _ _ _ H) as Hl.
  assert (Hp : 0 < 2 ^ npower st) by (apply Z.pow_pos_nonneg; lia).
  destruct (row_bounds st r Hl Hn) as [B1 B2]. pose proof (zlen_nonneg bs). set (base := row_len st * (r mod 2 ^ npower st)) in *.
  set (c' := overwrite c (base + off) bs). assert (Hc' : zlen c' = zlen c) by (unfold c'; rewrite zlen_overwrite; lia).
  exists (man_poke (bman st) p c'). split.
  { unfold write_row, mem_write. rewrite Hg. cbn [fst snd]. rewrite Ec, (proj2 (andb_true_iff _ _)) by lia. done. }
  assert (Hrr : 0 <= r < zlen rows) by (rewrite (h_rows _ _ _ H); nia).
  assert (Hrl : zlen (rows.[[]|r]) = row_len st) by (rewrite <- Hs, length_slice; lia).
  destruct H as [Hman Hrows Hrlen _ _ Hmask Hsize Hms Hnb Hbl Hlive Hdist _]. split; cbn; try done.
  - by eapply man_poke_ok.
  - by rewrite zlen_zupd.
  - apply zupd_Forall; [done|]. rewrite zlen_overwrite; lia.
  - intros b Hb. destruct (Hlive b Hb) as (q & d & Eq & Huq & Ed & Hd). destruct (decide (q = p)) as [->|Hne].
    + rewrite Ec in Ed. injection Ed as <-. exists p, c'. split_and!; try done; [apply lookup_insert_eq|].
      assert (b = r / 2 ^ npower st) as ->.
      { pose proof (Hdist _ _ _ Eq Eb). pose proof (Z.div_le_lower_bound r (2 ^ npower st) first Hp ltac:(lia)). lia. }
      intros k Hk Hkn. pose proof (Z.div_mod r (2 ^ npower st) ltac:(lia)) as Hdm. destruct (decide (k = r mod 2 ^ npower st)) as [->|Hk'].
      * replace (r / 2 ^ npower st * 2 ^ npower st + r mod 2 ^ npower st) with r in * by lia.
        rewrite znth_zupd_eq by done. fold base. unfold c'. rewrite slice_overwrite_inside by lia. by rewrite Hs.
      * rewrite znth_zupd_ne by lia. rewrite <- Hd by done. unfold c'.
        pose proof (Z.mod_pos_bound r _ Hp). apply slice_overwrite_other; unfold base; nia.
    + exists q, d. split_and!; try done; [by rewrite lookup_insert_ne by done|]. intros k Hk Hkn. rewrite znth_zupd_ne; [by apply Hd|].
      intros ->. rewrite Z.add_comm, Z.div_add, (Z.div_small k), Z.add_0_l in Eb by lia. rewrite Eq in Eb. by injection Eb.
Qed.

(** ** Adding a row *)

(** The storage has room in its last block. *)
Lemma write_last st rows r :
  holds st 0 rows -> zlen (blocks st) = no_rows st / 2 ^ npower st + 1 -> zlen r = row_len st ->
  exists p m, blocks st !! Z.to_nat (no_blocks st - 1) = Some (Some p)
    /\ mem_write st (p, Z.land (no_rows st) (ndx_mask st) * row_len st) 0 r = Some (with_man st m)
    /\ holds (with_rows st m (no_rows st + 1) (no_blocks st) (blocks st)) 0 (rows ++ [r])
    /\ tight (with_rows st m (no_rows st + 1) (no_blocks st) (blocks st)).
Proof.
  intros H Hb Hr. pose proof (h_power _ _ _ H) as Hn. pose proof (h_len_pos _ _ _ H) as Hl. pose proof (h_mask _ _ _ H) as Hmask.
  assert (Hp : 0 < 2 ^ npower st) by (apply Z.pow_pos_nonneg; lia). set (N := no_rows st) in *.
  assert (HN : 0 <= N) by (unfold N; rewrite <- (h_rows _ _ _ H); apply zlen_nonneg).
  pose proof (Z.div_pos N (2 ^ npower st) HN Hp). pose proof (Z.div_mod N (2 ^ npower st) ltac:(lia)) as Hdm. pose proof (Z.mod_pos_bound N _ Hp) as Hmod.
  destruct (h_live _ _ _ H (N / 2 ^ npower st) ltac:(lia)) as (p & c & Eb & Hu & Ec & Hs).
  destruct (man_allocated _ (h_man _ _ _ H) p (or_intror Hu)) as (c0 & Ec0 & Hc). rewrite Ec in Ec0. injection Ec0 as <-.
  rewrite (h_man_size _ _ _ H), (h_size _ _ _ H) in Hc.
  destruct (row_bounds st N Hl Hn) as [B1 B2]. set (base := row_len st * (N mod 2 ^ npower st)) in *.
  set (c' := overwrite c base r). assert (Hc' : zlen c' = zlen c) by (unfold c'; rewrite zlen_overwrite; lia).
  exists p, (man_poke (bman st) p c'). rewrite (h_no_blocks _ _ _ H), Hb. replace (N / 2 ^ npower st + 1 - 1) with (N / 2 ^ npower st) by lia.
  split_and!; [done| | |].
  - unfold mem_write. cbn [fst snd]. rewrite Ec, land_mask by done. replace (N mod 2 ^ npower st * row_len st + 0) with base by (unfold base; lia).
    rewrite (proj2 (andb_true_iff _ _)) by lia. done.
  - destruct H as [Hman Hrows Hrlen _ _ _ Hsize Hms Hnb Hbl Hlive Hdist _]. split; cbn; try done.
    + by eapply man_poke_ok.
    + rewrite zlen_app, Hrows. reflexivity.
    + apply Forall_app. split; [done|by constructor].
    + rewrite Hb, Hmask. fold N. replace (N + 1 + (2 ^ npower st - 1)) with (N + 1 * 2 ^ npower st) by lia. rewrite Z.div_add by lia. lia.
    + intros b Hbb. destruct (Hlive b Hbb) as (q & d & Eq & Huq & Ed & Hd). destruct (decide (q = p)) as [->|Hne].
      * rewrite Ec in Ed. injection Ed as <-. exists p, c'. split_and!; try done; [apply lookup_insert_eq|].
        assert (b = N / 2 ^ npower st) as -> by (pose proof (Hdist _ _ _ Eq Eb); lia).
        intros k Hk Hkn. destruct (decide (k = N mod 2 ^ npower st)) as [->|Hk'].
        -- replace (N / 2 ^ npower st * 2 ^ npower st + N mod 2 ^ npower st) with N by lia. fold base. unfold c'. rewrite <- Hr, slice_overwrite_same by lia.
           rewrite znth_app_r, Hrows by lia. fold N. by rewrite Z.sub_diag.
        -- rewrite znth_app_l by lia. rewrite <- Hd by lia. unfold c'. apply slice_overwrite_other; unfold base; nia.
      * exists q, d. split_and!; try done; [by rewrite lookup_insert_ne by done|]. intros k Hk Hkn.
        assert (b * 2 ^ npower st + k <> N).
        { intros E. apply Hne. assert (b = N / 2 ^ npower st) as ->; [|rewrite Eb in Eq; by injection Eq].
          rewrite <- E, Z.add_comm, Z.div_add, (Z.div_small k) by lia. lia. }
        rewrite znth_app_l by (rewrite Hrows; fold N; lia). apply Hd; fold N; lia.
  - unfold tight. cbn. rewrite Hb, Hmask. fold N. replace (N + 1 + (2 ^ npower st - 1)) with (N + 1 * 2 ^ npower st) by lia. rewrite Z.div_add by lia. done.
Qed.

(** A fresh block at the end, for the first of its rows. *)
Lemma new_block st rows :
  holds st 0 rows -> tight st -> no_rows st mod 2 ^ npower st = 0 ->
  exists b m, GetBlock (bman st) = (b, m) /\ let st' := with_rows st m (no_rows st) (no_blocks st + 1) (blocks st ++ [b]) in
    holds st' 0 rows /\ zlen (blocks st') = no_rows st / 2 ^ npower st + 1.
Proof.
  intros H Ht Hmod. destruct (GetBlock_spec _ (h_man _ _ _ H)) as (p & m & Eg & Hm & Hpu & Hused & Hext & Hsz).
  exists (Some p), m. split; [done|]. pose proof (h_power _ _ _ H) as Hn. pose proof (h_mask _ _ _ H) as Hmask.
  assert (Hp : 0 < 2 ^ npower st) by (apply Z.pow_pos_nonneg; lia).
  assert (Hlen : zlen (blocks st) = no_rows st / 2 ^ npower st).
  { rewrite Ht, Hmask. pose proof (Z.div_mod (no_rows st) (2 ^ npower st) ltac:(lia)).
    replace (no_rows st + (2 ^ npower st - 1)) with (2 ^ npower st - 1 + (no_rows st / 2 ^ npower st) * 2 ^ npower st) by lia.
    rewrite Z.div_add, Z.div_small by lia. lia. }
  destruct H as [Hman Hrows Hrlen Hl _ _ Hsize Hms Hnb Hbl Hlive Hdist _].
  assert (HN : 0 <= no_rows st) by (rewrite <- Hrows; apply zlen_nonneg).
  cbv zeta. split; [split|]; cbn; try done.
  - congruence.
  - rewrite zlen_app, Hnb. reflexivity.
  - rewrite zlen_app. change (zlen [Some p]) with 1. lia.
  - intros b Hb. rewrite zlen_app in Hb. change (zlen [Some p]) with 1 in Hb. destruct (Z.eq_dec b (zlen (blocks st))) as [->|].
    + destruct (man_allocated _ Hm p) as (c & Ec & _); [right; rewrite Hused; set_solver|]. exists p, c.
      unfold zlen. rewrite Nat2Z.id, list_lookup_middle by done. split_and!; [done|rewrite Hused; set_solver|done|].
      intros k Hk Hkn. exfalso. unfold zlen in Hlen. rewrite Hlen in Hkn. pose proof (Z.div_mod (no_rows st) (2 ^ npower st) ltac:(lia)). lia.
    + destruct (Hlive b ltac:(lia)) as (q & c & Eq & Huq & Ec & Hs). destruct (Hext q Huq) as [Hu' E']. exists q, c.
      split_and!; try done; [|by rewrite E']. rewrite lookup_app_l; [done|]. apply lookup_lt_Some in Eq. done.
  - intros b b' q. rewrite !lookup_app.
    assert (Hold : forall i, blocks st !! i = Some (Some p) -> False).
    { intros i Hi. pose proof (lookup_lt_Some _ _ _ Hi). destruct (Hlive (Z.of_nat i)) as (q' & c & Eq & Huq & _); [unfold zlen; lia|].
      rewrite Nat2Z.id, Hi in Eq. injection Eq as <-. done. }
    destruct (blocks st !! b) eqn:E1, (blocks st !! b') eqn:E2; intros H1 H2.
    + injection H1 as ->. injection H2 as ->. by eapply Hdist.
    + injection H1 as ->. apply list_lookup_singleton_Some in H2 as [_ [= ->]]. by apply Hold in E1.
    + injection H2 as ->. apply list_lookup_singleton_Some in H1 as [_ [= ->]]. by apply Hold in E2.
    + apply list_lookup_singleton_Some in H1 as [H1 _], H2 as [H2 _]. apply lookup_ge_None in E1, E2. lia.
  - rewrite zlen_app, Hlen. done.
Qed.

(** A row goes to the end. *)
Lemma AddRow_spec st rows r :
  holds st 0 rows -> tight st -> zlen r = row_len st ->
  exists st', AddRow st r = Some (no_rows st, st') /\ holds st' 0 (rows ++ [r]) /\ tight st'
              /\ row_len st' = row_len st /\ npower st' = npower st /\ release st' = release st /\ no_rows st' = no_rows st + 1.
Proof.
  intros H Ht Hr. pose proof (h_power _ _ _ H) as Hn. pose proof (h_mask _ _ _ H) as Hmask. unfold AddRow.
  assert (Hp : 0 < 2 ^ npower st) by (apply Z.pow_pos_nonneg; lia).
  pose proof (land_mask st (no_rows st) Hn Hmask) as Eland. destruct (Z.eqb_spec (Z.land (no_rows st) (ndx_mask st)) 0) as [E0|E0]; rewrite Eland in E0.
  - destruct (new_block st rows H Ht E0) as (b & m & -> & H' & Hb'). cbv zeta in H', Hb'.
    set (st1 := with_rows st m (no_rows st) (no_blocks st + 1) (blocks st ++ [b])) in *.
    destruct (write_last st1 rows r H' Hb' Hr) as (p & m' & -> & -> & Hh & Ht').
    eexists. split; [reflexivity|]. split_and!; done.
  - destruct (write_last st rows r H) as (p & m' & -> & -> & Hh & Ht'); [|done|].
    { rewrite Ht, Hmask. pose proof (Z.div_mod (no_rows st) (2 ^ npower st) ltac:(lia)). pose proof (Z.mod_pos_bound (no_rows st) _ Hp).
      replace (no_rows st + (2 ^ npower st - 1)) with ((no_rows st mod 2 ^ npower st - 1) + (no_rows st / 2 ^ npower st + 1) * 2 ^ npower st) by lia.
      rewrite Z.div_add, Z.div_small by lia. lia. }
    eexists. split; [reflexivity|]. split_and!; done.
Qed.

(** ** Initialization *)

(** Sizes for which no product overflows. *)
Definition sizes_ok (rowl min_block_len : Z) : Prop := 0 < rowl < 2 ^ 31 /\ min_block_len <= 2 ^ 30.

Lemma block_power_spec rl mn fuel : forall pw,
  0 < rl -> mn <= 2 ^ 30 -> 0 <= pw -> rl * 2 ^ pw < 2 ^ 31 -> 31 < pw + Z.of_nat fuel ->
  exists pw', block_power fuel rl mn pw (2 ^ pw) = Some (pw', 2 ^ pw') /\ pw <= pw' /\ mn <= rl * 2 ^ pw' < 2 ^ 31.
Proof.
  induction fuel as [|fuel IH]; intros pw Hr Hm Hp Hlt Hf.
  { assert (2 ^ 32 <= 2 ^ pw) by (apply Z.pow_le_mono_r; lia). nia. }
  cbn [block_power]. destruct (Z.leb_spec (2 ^ 31) (rl * 2 ^ pw)); [lia|]. destruct (Z.ltb_spec (rl * 2 ^ pw) mn); [|by exists pw].
  destruct (IH (pw + 1)) as (pw' & E & Hle & Hb); [done|done|lia|rewrite Z.pow_add_r by lia; lia|lia|].
  rewrite Z.pow_add_r in E by lia. exists pw'. split; [done|lia].
Qed.

Lemma CalculateBlockSize_spec rl mn :
  sizes_ok rl mn -> exists pw, CalculateBlockSize rl mn = Some (pw, 2 ^ pw) /\ 0 <= pw /\ mn <= rl * 2 ^ pw < 2 ^ 31.
Proof. intros [Hr Hm]. destruct (block_power_spec rl mn 32 0) as (pw & E & Hp); try lia. by exists pw. Qed.

Definition empty_manager (m : MemBlockManager) : Prop :=
  free_blocks m = [] /\ used_blocks m = ∅ /\ memory m = ∅ /\ hard_size_limit m = -1.

Lemma Storage_Init_spec rowl m min_block_len :
  empty_manager m -> sizes_ok rowl min_block_len ->
  exists st, Storage_Init rowl m 0 min_block_len = Some st /\ holds st 0 [] /\ tight st /\ row_len st = rowl
             /\ release st = false /\ current st = -1 /\ no_rows st = 0.
Proof.
  intros (Hf & Hu & Hm & Hh) Hs. unfold Storage_Init. destruct (CalculateBlockSize_spec _ _ Hs) as (pw & -> & Hp & _). destruct Hs as [[Hr _] _].
  cbn [mbind option_bind].
  assert (0 < 2 ^ pw) by (apply Z.pow_pos_nonneg; lia). cbn [Z.ltb Z.compare get_blocks Z.to_nat].
  eexists. split; [reflexivity|]. assert (Hmask : Z.shiftl 1 pw - 1 = 2 ^ pw - 1) by (rewrite Z.shiftl_mul_pow2; lia).
  split_and!; try done.
  - split; cbn; try done; [|rewrite Hmask, Z.div_small by lia; done|intros b Hb; unfold zlen in Hb; cbn in Hb; lia].
    split; cbn; rewrite ?Hf, ?Hu, ?Hm; try done; [by apply NoDup_nil| |nia].
    intros p [H'|H']; [by apply elem_of_nil in H'|set_solver].
  - unfold tight. cbn. rewrite Hmask, Z.div_small by lia. done.
Qed.

Lemma FreeBlock_ok m b : man_ok m -> man_ok (FreeBlock m b) /\ man_block_size (FreeBlock m b) = man_block_size m.
Proof.
  intros H. destruct b as [p|]; [|done]. destruct (decide (p ∈ used_blocks m)) as [Hp|Hp].
  - destruct (FreeBlock_spec m p H Hp) as (? & _ & _ & ?). done.
  - unfold FreeBlock. by rewrite bool_decide_false.
Qed.

Lemma FreeBlocks_ok bs m : man_ok m -> man_ok (foldl FreeBlock m bs) /\ man_block_size (foldl FreeBlock m bs) = man_block_size m.
Proof.
  revert m. induction bs as [|b bs IH]; intros m H; [done|]. cbn. destruct (FreeBlock_ok m b H) as [H' E].
  destruct (IH _ H') as [H'' E']. split; congruence.
Qed.

(** [Clear] gives every block back, also after a traversal that released some. *)
Lemma Clear_spec st first rows :
  holds st first rows -> holds (Clear st) 0 [] /\ tight (Clear st) /\ row_len (Clear st) = row_len st
                         /\ release (Clear st) = false /\ current (Clear st) = -1.
Proof.
  intros [Hman Hrows Hrlen Hl Hp Hmask Hsize Hms Hnb Hbl Hlive Hdist Hf]. destruct (FreeBlocks_ok (blocks st) (bman st) Hman) as [Hm E].
  assert (0 < 2 ^ npower st) by (apply Z.pow_pos_nonneg; lia).
  split_and!; try done.
  - split; cbn; try done; [congruence|rewrite Hmask, Z.div_small by lia; done|intros b Hb; unfold zlen in Hb; cbn in Hb; lia].
  - unfold tight. cbn. rewrite Hmask, Z.div_small by lia. done.
Qed.

(** ** Traversal *)

Lemma NextRow_spec st first rows :
  holds st first rows -> 0 <= current st < no_rows st -> first <= current st / 2 ^ npower st ->
  let '(more, st') := NextRow st in
  if current st + 1 =? no_rows st then more = false /\ current st' = -1 /\ holds st' first rows
  else more = true /\ current st' = current st + 1 /\ release st' = release st /\ row_len st' = row_len st /\ npower st' = npower st
       /\ no_rows st' = no_rows st /\ exists first', holds st' first' rows /\ first' <= current st' / 2 ^ npower st'.
Proof.
  intros H Hc Hfirst. unfold NextRow. set (c := current st + 1). pose proof (h_power _ _ _ H) as Hn. pose proof (h_mask _ _ _ H) as Hmask.
  assert (Hp : 0 < 2 ^ npower st) by (apply Z.pow_pos_nonneg; lia).
  destruct (Z.eqb_spec c (no_rows st)) as [Ec|Ec]; cbv zeta.
  { split_and!; try done. destruct H; by split. }
  rewrite land_mask by done. assert (Hmono : current st / 2 ^ npower st <= c / 2 ^ npower st) by (apply Z.div_le_mono; lia).
  destruct (release st && (c mod 2 ^ npower st =? 0)) eqn:Erel.
  2: { split_and!; try done. exists first. split; [destruct H; by split|cbn; lia]. }
  apply andb_true_iff in Erel as [_ E0%Z.eqb_eq]. rewrite Z.shiftr_div_pow2 by done. split_and!; try done.
  set (b := c / 2 ^ npower st - 1).
  assert (Hb : current st / 2 ^ npower st = b).
  { unfold b. pose proof (Z.div_mod c (2 ^ npower st) ltac:(lia)). symmetry. apply (Z.div_unique _ _ _ (2 ^ npower st - 1)); [lia|]. unfold c in *. lia. }
  destruct (GetRow_spec st first rows (current st) H) as (p & cc & _ & Hu & _ & _ & Eb & _).
  { pose proof (Z.mul_div_le (current st) (2 ^ npower st) Hp). nia. }
  rewrite Hb in Eb. rewrite Eb. cbn [default from_option id]. destruct (FreeBlock_spec _ p (h_man _ _ _ H) Hu) as (Hm & Hused & Hmem & Hsz).
  exists (b + 1). split; [|cbn; unfold b, c; lia].
  assert (Hb0 : 0 <= b) by (pose proof (h_first _ _ _ H); lia).
  destruct H as [Hman Hrows Hrlen Hl _ _ Hsize Hms Hnb Hbl Hlive Hdist Hf]. split; cbn; try done.
  - congruence.
  - rewrite Hnb. unfold zlen. by rewrite length_insert.
  - unfold zlen in *. by rewrite length_insert.
  - intros b' Hb'. unfold zlen in Hb'. rewrite length_insert in Hb'. destruct (Hlive b' ltac:(unfold zlen; lia)) as (q & d & Eq & Huq & Ed & Hd).
    assert (q <> p) by (intros ->; pose proof (Hdist _ _ _ Eq Eb); lia). exists q, d.
    rewrite list_lookup_insert_ne by lia. split_and!; try done; [rewrite Hused; set_solver|by rewrite Hmem].
  - intros i i' q. rewrite !list_lookup_insert_Some. intros [(_ & E & _)|(_ & Hi)]; [done|]. intros [(_ & E & _)|(_ & Hi')]; [done|]. by eapply Hdist.
  - lia.
Qed.

(** The rows that a traversal sees, from the current one. *)
Fixpoint traverse (fuel : nat) (st : Storage) : option (list (list Z) * Storage) :=
  match fuel with
  | O => Some ([], st)
  | S fuel =>
      if GetCurrent st =? -1 then Some ([], st)
      else match read_row st (GetCurrent st) 0 (row_len st) with
           | Some r => match traverse fuel (snd (NextRow st)) with Some (rs, st') => Some (r :: rs, st') | None => None end
           | None => None
           end
  end.

Lemma traverse_from fuel st first rows :
  holds st first rows -> 0 <= current st < no_rows st -> first <= current st / 2 ^ npower st -> (Z.to_nat (no_rows st - current st) <= fuel)%nat ->
  exists st' first', traverse fuel st = Some (drop (Z.to_nat (current st)) rows, st') /\ holds st' first' rows.
Proof.
  revert st first. induction fuel as [|fuel IH]; intros st first H Hc Hf Hfuel; [lia|]. cbn [traverse]. unfold GetCurrent.
  destruct (Z.eqb_spec (current st) (-1)); [lia|]. pose proof (h_len_pos _ _ _ H). pose proof (h_rows _ _ _ H) as Hrows.
  assert (Hp : 0 < 2 ^ npower st) by (apply Z.pow_pos_nonneg; [lia|apply (h_power _ _ _ H)]).
  assert (Hr : first * 2 ^ npower st <= current st < no_rows st) by (pose proof (Z.mul_div_le (current st) (2 ^ npower st) Hp); nia).
  rewrite (read_row_spec _ _ _ _ _ _ H Hr) by lia.
  assert (El : rows !! Z.to_nat (current st) = Some (rows.[[]|current st])) by (apply znth_lookup; lia).
  assert (Es : slice (rows.[[]|current st]) 0 (row_len st) = rows.[[]|current st]).
  { pose proof (proj1 (Forall_forall _ _) (h_row_len _ _ _ H) _ (list_elem_of_lookup_2 _ _ _ El)) as Hlen. cbn in Hlen.
    unfold slice. cbn [Z.to_nat drop]. apply take_ge. unfold zlen in Hlen. lia. }
  rewrite Es, (drop_S _ _ _ El). pose proof (NextRow_spec st first rows H Hc Hf) as N. destruct (NextRow st) as [more st1]. cbn [snd].
  destruct (Z.eqb_spec (current st + 1) (no_rows st)) as [En|En].
  - destruct N as (_ & Ecur & Hh). exists st1, first. split; [|done]. rewrite drop_ge by (unfold zlen in Hrows; lia).
    destruct fuel; cbn [traverse]; unfold GetCurrent; rewrite ?Ecur; done.
  - destruct N as (_ & Ecur & _ & _ & _ & En' & first' & Hh & Hf'). destruct (IH st1 first' Hh) as (st2 & first2 & E & Hh2); [lia|done|lia|].
    exists st2, first2. rewrite E, Ecur. split; [|done]. do 3 f_equal. f_equal. lia.
Qed.

Fixpoint add_rows (st : Storage) (rows : list (list Z)) : option Storage :=
  match rows with
  | [] => Some st
  | r :: rows => match AddRow st r with Some (_, st) => add_rows st rows | None => None end
  end.

Lemma add_rows_spec st rows new :
  holds st 0 rows -> tight st -> Forall (fun r => zlen r = row_len st) new ->
  exists st', add_rows st new = Some st' /\ holds st' 0 (rows ++ new) /\ tight st' /\ release st' = release st.
Proof.
  revert st rows. induction new as [|r new IH]; intros st rows H Ht Hn; cbn [add_rows].
  { exists st. by rewrite app_nil_r. }
  apply Forall_cons in Hn as [Hr Hn]. destruct (AddRow_spec st rows r H Ht Hr) as (st1 & -> & H1 & Ht1 & El & _ & Er & _).
  destruct (IH st1 _ H1 Ht1) as (st2 & E & H2 & Ht2 & Er2); [by rewrite El|]. exists st2. rewrite <- app_assoc in H2. split_and!; congruence || done.
Qed.

(** C19: rows that are added to a storage are visited in their order, each with its bytes, whatever the
    memory held before, for every size of the blocks, and whether or not the blocks are given
    back during the visit; no access leaves a block.  The size of a block that is asked for is at
    most [2 ^ 30] and there are less than [2 ^ 31] rows, so that no [int] overflows: the size is
    rounded up to a power of two times the size of a row. *)
Theorem Storage_rows (rowl : Z) (m : MemBlockManager) (min_block_len : Z) (rows : list (list Z)) (rel : bool) :
  empty_manager m -> 0 < rowl < 2 ^ 31 -> min_block_len <= 2 ^ 30 -> zlen rows < 2 ^ 31 -> Forall (fun r => zlen r = rowl) rows ->
  exists st0 st st', Storage_Init rowl m 0 min_block_len = Some st0 /\ add_rows st0 rows = Some st
                     /\ traverse (length rows) (Rewind st rel) = Some (rows, st').
Proof.
  intros Hm Hr Hml _ Hrows. destruct (Storage_Init_spec rowl m min_block_len Hm (conj Hr Hml)) as (st0 & E0 & H0 & Ht0 & El & _).
  destruct (add_rows_spec st0 [] rows H0 Ht0) as (st & E & H & Ht & _); [by rewrite El|]. cbn [app] in H.
  exists st0, st. pose proof (h_rows _ _ _ H) as Hn. destruct (decide (rows = [])) as [->|Hne].
  { exists (Rewind st rel). split_and!; done. }
  assert (Hpos : 0 < zlen rows) by (destruct rows; [done|unfold zlen; cbn; lia]).
  destruct (traverse_from (length rows) (Rewind st rel) 0 rows) as (st' & first' & Et & _).
  - unfold Rewind. destruct (Z.eqb_spec (no_rows st) 0); [lia|]. destruct H; by split.
  - unfold Rewind. cbn. destruct (Z.eqb_spec (no_rows st) 0); lia.
  - unfold Rewind. cbn. destruct (Z.eqb_spec (no_rows st) 0); [lia|]. rewrite Z.div_0_l by (apply Z.pow_nonzero; [lia|apply (h_power _ _ _ H)]). done.
  - unfold Rewind. cbn. unfold zlen in Hn, Hpos. destruct (Z.eqb_spec (no_rows st) 0); lia.
  - exists st'. split_and!; try done. rewrite Et. unfold Rewind. cbn. destruct (Z.eqb_spec (no_rows st) 0); [lia|]. done.
Qed.
End Storage.

Example Storage_rows_witness :
  exists st0 st st', Storage_Init (fun _ => []) 3 (MemBlockManager_new 100 1 0 (-1)) 0 5 = Some st0
    /\ add_rows (fun _ => []) st0 [[1; 2; 3]; [4; 5; 6]; [7; 8; 9]] = Some st
    /\ traverse 3 (Rewind st true) = Some ([[1; 2; 3]; [4; 5; 6]; [7; 8; 9]], st').
Proof. apply (Storage_rows (fun _ => [])); [done|lia|lia|reflexivity|by repeat constructor]. Defined.

(** Above that size the product can overflow: with rows of 3 bytes no power of two gives a block of
    2147483647 bytes or more that is an [int]. *)
Example CalculateBlockSize_overflow : CalculateBlockSize 3 (2 ^ 31 - 1) = None.
Proof. reflexivity. Qed.

(** A storage that starts with as many rows as fill its blocks has a block too many: a row that is
    added goes to the block after the one where it is looked for. *)
Example Storage_Init_full_blocks :
  match Storage_Init (fun _ => [0; 0]) 1 (MemBlockManager_new 100 1 0 (-1)) 2 2 with
  | Some st0 =>
      match AddRow (fun _ => [0; 0]) st0 [7] with
      | Some (r, st) => r = 2 /\ read_row st 2 0 1 = Some [0] /\ read_row st 4 0 1 = Some [7]
      | None => False
      end
  | None => False
  end.
Proof. vm_compute. by split_and!. Qed.

(** The copy of a storage with rows has no block to find them in. *)
Example Storage_copy_lost_rows :
  match Storage_Init (fun _ => []) 1 (MemBlockManager_new 100 1 0 (-1)) 0 2 with
  | Some st0 =>
      match add_rows (fun _ => []) st0 [[7]] with
      | Some st => read_row st 0 0 1 = Some [7] /\ no_rows (Storage_copy st) = 1 /\ read_row (Storage_copy st) 0 0 1 = None
      | None => False
      end
  | None => False
  end.
Proof. vm_compute. by split_and!. Qed.
