(* ===== verification/MatchTable.v ===== *)
(** * Tables that match the rows of a grouping (core/ValueMatchingTable.h)

    The abstract class [ValueMatchingTable] as an interface: [MatchTable] are its operations,
    [MatchLaws] is what each of the three implementations promises to the code that groups rows.

    A table holds entries: the number of the row, the input buffer that was put there and the bytes
    that the aggregators keep.  Two inputs match if they agree in their first [sh_match] bytes.  The
    order of the entries is the order in which they were added, and in which they are visited. *)

From S2P Require Import Prelude BinTools ByteFile.

Record entry := mkEntry { e_row : Z; e_input : list Z; e_aggr : list Z }.

(** The widths of a table, the inputs that it takes and the number of its rows. *)
Record table_shape := mkShape { sh_match : Z; sh_input : Z; sh_aggr : Z; sh_key : list Z -> Prop; sh_room : Z }.

Definition byte (b : Z) : Prop := is_word 8 b.

Definition key (sh : table_shape) (buf : list Z) : list Z := slice buf 0 (sh_match sh).

Definition input_ok (sh : table_shape) (buf : list Z) : Prop :=
  zlen buf = sh_input sh /\ Forall byte buf /\ sh_key sh buf.

Definition put_bytes (e : entry) (off : Z) (bs : list Z) : entry := mkEntry (e_row e) (e_input e) (overwrite (e_aggr e) off bs).

(** The operations.  [None] is an access outside the table. *)
Class MatchTable (T : Type) := {
  vm_rows : T -> Z;                                                (* NoRows *)
  vm_find : T -> list Z -> bool -> option (bool * Z * T);          (* FindCurrentRow *)
  vm_read_group : T -> Z -> option (list Z);                       (* bytes at GetGroupingRow *)
  vm_read_aggr : T -> Z -> Z -> Z -> option (list Z);              (* bytes at GetAggregationRow *)
  vm_write_aggr : T -> Z -> Z -> list Z -> option T;
  vm_full : T -> bool;                                             (* NoMoreSpace *)
  vm_clear : T -> T;                                               (* Clear *)
  vm_rewind : T -> bool -> T;                                      (* Rewind *)
  vm_valid : T -> bool;                                            (* RowValid *)
  vm_current : T -> option Z;                                      (* GetCurrentRow *)
  vm_next : T -> T                                                 (* NextRow *)
}.

(** [rep sh t G]: the table holds the entries [G]; [at_ sh t G rel i]: it is being visited and has
    come to entry [i]; with [rel] the entries before are given up. *)
Class MatchLaws {T : Type} `{!MatchTable T} (rep : table_shape -> T -> list entry -> Prop)
    (at_ : table_shape -> T -> list entry -> bool -> nat -> Prop) := {
  law_rows sh t G : rep sh t G -> vm_rows t = zlen G;
  law_keys sh t G : rep sh t G -> NoDup (map (fun e => key sh (e_input e)) G);
  law_hit sh t G buf add e :
    rep sh t G -> input_ok sh buf -> e ∈ G -> key sh (e_input e) = key sh buf -> vm_find t buf add = Some (true, e_row e, t);
  law_miss sh t G buf :
    rep sh t G -> input_ok sh buf -> (forall e, e ∈ G -> key sh (e_input e) <> key sh buf) ->
    vm_find t buf false = Some (false, NULL_VALUE_64, t);
  law_add sh t G buf :
    rep sh t G -> input_ok sh buf -> (forall e, e ∈ G -> key sh (e_input e) <> key sh buf) -> zlen G < sh_room sh ->
    exists t' r aggr, vm_find t buf true = Some (false, r, t') /\ r <> NULL_VALUE_64
                      /\ rep sh t' (G ++ [mkEntry r buf aggr]) /\ zlen aggr = sh_aggr sh;
  law_read sh t G i e off n :
    rep sh t G -> G !! i = Some e -> 0 <= off -> 0 <= n -> off + n <= sh_aggr sh ->
    vm_read_aggr t (e_row e) off n = Some (slice (e_aggr e) off n);
  law_group sh t G i e : rep sh t G -> G !! i = Some e -> vm_read_group t (e_row e) = Some (e_input e);
  law_write sh t G i e off bs :
    rep sh t G -> G !! i = Some e -> 0 <= off -> off + zlen bs <= sh_aggr sh ->
    exists t', vm_write_aggr t (e_row e) off bs = Some t' /\ rep sh t' (<[i := put_bytes e off bs]> G);
  law_full sh t G : rep sh t G -> vm_full t = (sh_room sh <=? zlen G);
  law_clear sh t G : rep sh t G -> rep sh (vm_clear t) [];
  law_rewind sh t G rel : rep sh t G -> at_ sh (vm_rewind t rel) G rel 0%nat;
  law_valid sh t G rel i : at_ sh t G rel i -> vm_valid t = bool_decide (i < length G)%nat;
  law_current sh t G rel i e : at_ sh t G rel i -> G !! i = Some e -> vm_current t = Some (e_row e);
  law_at_group sh t G rel i e : at_ sh t G rel i -> G !! i = Some e -> vm_read_group t (e_row e) = Some (e_input e);
  law_at_read sh t G rel i e off n :
    at_ sh t G rel i -> G !! i = Some e -> 0 <= off -> 0 <= n -> off + n <= sh_aggr sh ->
    vm_read_aggr t (e_row e) off n = Some (slice (e_aggr e) off n);
  law_next sh t G rel i : at_ sh t G rel i -> (i < length G)%nat -> at_ sh (vm_next t) G rel (S i);
  law_keep sh t G i : at_ sh t G false i -> rep sh t G;
  law_at_clear sh t G rel i : at_ sh t G rel i -> rep sh (vm_clear t) []
}.

(** ** Bytes *)

(** Bytes of an array. *)
Definition bytes_at (l : list Z) (off n : Z) : option (list Z) :=
  if (0 <=? off) && (off + n <=? zlen l) then Some (slice l off n) else None.

Definition put_at (l : list Z) (off : Z) (bs : list Z) : option (list Z) :=
  if (0 <=? off) && (off + zlen bs <=? zlen l) then Some (overwrite l off bs) else None.

Lemma bytes_at_in l off n : 0 <= off -> off + n <= zlen l -> bytes_at l off n = Some (slice l off n).
Proof. intros. unfold bytes_at. by rewrite (proj2 (andb_true_iff _ _)) by lia. Qed.

Lemma put_at_in l off bs : 0 <= off -> off + zlen bs <= zlen l -> put_at l off bs = Some (overwrite l off bs).
Proof. intros. unfold put_at. by rewrite (proj2 (andb_true_iff _ _)) by lia. Qed.

Lemma zlen_snoc {A : Type} (l : list A) x : zlen (l ++ [x]) = zlen l + 1.
Proof. by rewrite zlen_app. Qed.

Lemma zlen_slice l off n : 0 <= off -> 0 <= n -> off + n <= zlen l -> zlen (slice l off n) = n.
Proof. apply length_slice. Qed.

Lemma slice_app_l l1 l2 n : 0 <= n <= zlen l1 -> slice (l1 ++ l2) 0 n = slice l1 0 n.
Proof. intros Hn. unfold slice. change (Z.to_nat 0) with 0%nat. rewrite !drop_0. apply take_app_le. unfold zlen in *. lia. Qed.

Lemma slice_app_after l1 l2 off n : zlen l1 <= off -> slice (l1 ++ l2) off n = slice l2 (off - zlen l1) n.
Proof.
  intros Ho. unfold slice. rewrite drop_app_ge by (unfold zlen in *; lia).
  by replace (Z.to_nat off - length l1)%nat with (Z.to_nat (off - zlen l1)) by (unfold zlen in *; lia).
Qed.

Lemma slice_all l : slice l 0 (zlen l) = l.
Proof. unfold slice. change (Z.to_nat 0) with 0%nat. rewrite !drop_0. apply take_ge. unfold zlen. lia. Qed.

Lemma Forall_slice (P : Z -> Prop) l off n : Forall P l -> Forall P (slice l off n).
Proof. intros H. unfold slice. by apply Forall_take, Forall_drop. Qed.

Lemma of_le_bound l : Forall byte l -> 0 <= of_le l < 2 ^ (8 * zlen l).
Proof.
  induction 1 as [|b l Hb _ IH]; [done|]. cbn [of_le]. unfold byte, is_word in Hb.
  replace (8 * zlen (b :: l)) with (8 + 8 * zlen l) by (unfold zlen; cbn [length]; lia).
  rewrite Z.pow_add_r by (unfold zlen; lia). change (2 ^ 8) with 256 in *. lia.
Qed.

Lemma of_le_inj l1 l2 : Forall byte l1 -> Forall byte l2 -> zlen l1 = zlen l2 -> of_le l1 = of_le l2 -> l1 = l2.
Proof.
  intros H1. revert l2. induction H1 as [|b l1 Hb _ IH]; intros l2 H2 Hl E; destruct H2 as [|b' l2 Hb' H2]; try done.
  cbn [of_le] in E. unfold byte, is_word in *. change (2 ^ 8) with 256 in *. unfold zlen in *. cbn [length] in Hl.
  assert (b = b') as -> by lia. f_equal. apply IH; [done|lia|lia].
Qed.

Lemma overwrite_prefix l bs : zlen bs <= zlen l -> overwrite l 0 bs = bs ++ drop (length bs) l.
Proof.
  intros Hl. unfold overwrite. change (Z.to_nat 0) with 0%nat. cbn [take app].
  by replace (Z.to_nat (0 + zlen bs)) with (length bs) by (unfold zlen; lia).
Qed.

Lemma overwrite_mid l1 l2 l3 bs off : off = zlen l1 -> zlen bs = zlen l2 -> overwrite (l1 ++ l2 ++ l3) off bs = l1 ++ bs ++ l3.
Proof.
  intros -> Hb. unfold overwrite. rewrite !zlen_app. unfold zlen in *.
  replace (Z.to_nat (Z.of_nat (length l1) - _)) with 0%nat by lia. cbn [replicate]. rewrite app_nil_r.
  rewrite take_app_length' by lia. do 2 f_equal. rewrite drop_app_ge by lia. apply drop_app_length'. lia.
Qed.

Lemma overwrite_inside l1 l2 l3 off bs :
  0 <= off -> off + zlen bs <= zlen l2 -> overwrite (l1 ++ l2 ++ l3) (zlen l1 + off) bs = l1 ++ overwrite l2 off bs ++ l3.
Proof.
  intros Ho Hl. unfold overwrite. rewrite !zlen_app. unfold zlen in *.
  replace (Z.to_nat (Z.of_nat (length l1) + off - _)) with 0%nat by lia. replace (Z.to_nat (off - _)) with 0%nat by lia.
  cbn [replicate]. rewrite !app_nil_r, take_app, take_ge, take_app_le by lia. rewrite drop_app_ge, drop_app_le by lia.
  rewrite <- !app_assoc. do 2 f_equal; [f_equal; lia|]. do 3 f_equal. lia.
Qed.

(** ** Visiting a table *)

Section Visit.
Context {T : Type} `{!MatchTable T}.

(** The rows that [for(Rewind(); RowValid(); NextRow())] sees. *)
Fixpoint visit (fuel : nat) (t : T) : option (list Z) :=
  match fuel with
  | O => Some []
  | S fuel =>
      if vm_valid t then
        match vm_current t with
        | Some r => match visit fuel (vm_next t) with Some rs => Some (r :: rs) | None => None end
        | None => None
        end
      else Some []
  end.

Context (rep : table_shape -> T -> list entry -> Prop) (at_ : table_shape -> T -> list entry -> bool -> nat -> Prop) `{!MatchLaws rep at_}.

Lemma visit_rows fuel sh t G rel i :
  at_ sh t G rel i -> (length G - i <= fuel)%nat -> visit fuel t = Some (map e_row (drop i G)).
Proof.
  revert t i. induction fuel as [|fuel IH]; intros t i H Hf; cbn [visit].
  { rewrite drop_ge by lia. done. }
  rewrite (law_valid _ _ _ _ _ H). case_bool_decide as Hi; [|by rewrite drop_ge by lia].
  destruct (lookup_lt_is_Some_2 G i Hi) as [e Ee]. rewrite (law_current _ _ _ _ _ _ H Ee).
  rewrite (IH (vm_next t) (S i)) by (by apply (law_next _ _ _ _ _ H) || lia). by rewrite (drop_S G e i Ee).
Qed.
End Visit.
