(* ===== verification/MatchHash.v ===== *)
(** * The hash table of a grouping (core/ValueMatchingHashTable.h, core/ValueMatchingHashTable.cpp)

    Class [ValueMatching_HashTable]: an array of positions for the values of the hash function, rows
    in a storage of blocks, and in each row, after the bytes of the grouping and of the
    aggregators, the number of the next row with the same position, or zero.  It is an instance of
    the interface of MatchTable.

    The memory is that of RowStorage; logging and locks are not modelled.  The clone of a table with
    rows loses them ([Storage_copy_lost_rows] of RowStorage) and is not a definition here. *)

From stdpp Require Import gmap option.
From S2P Require Import Prelude BinTools ByteFile MD5 Doubles DoubleSums RowStorage MatchTable.

Record HashTable := mkHash {
  hm_total : Z;                    (* the bytes of a row *)
  hm_match : Z;
  hm_input : Z;
  hm_rows : Z;
  hm_max_rows : Z;
  hm_one_pass : bool;
  hm_slots : list Z;               (* ht *)
  hm_mask : Z;
  hm_next_off : Z;
  hm_store : Storage
}.

Definition EMPTY : Z := 0xFFFFFFFF.
Definition MBYTE : Z := 0x100000.
Definition GBYTE : Z := 0x40000000.

Definition with_store (h : HashTable) (st : Storage) : HashTable :=
  mkHash (hm_total h) (hm_match h) (hm_input h) (hm_rows h) (hm_max_rows h) (hm_one_pass h) (hm_slots h) (hm_mask h) (hm_next_off h) st.

Definition with_table (h : HashTable) (rows : Z) (slots : list Z) (st : Storage) : HashTable :=
  mkHash (hm_total h) (hm_match h) (hm_input h) rows (hm_max_rows h) (hm_one_pass h) slots (hm_mask h) (hm_next_off h) st.

(** ** Initialization *)

(** The conversions of a double to [unsigned int] and to [_int64]. *)
Definition int_between (lo hi : Z) (a : double) : option Z :=
  match a with
  | DFin k => let z := Z.quot k one_units in if (lo <=? z) && (z <? hi) then Some z else None
  | _ => None
  end.

Definition double_1_2 : double := double_of_bits 0x3FF3333333333333.

(** A power of two, less one, that leaves room for 1.2 times the positions. *)
Definition position_mask (positions : Z) : option Z :=
  if 100000000 <? positions then Some 0x07FFFFFF
  else n ← int_between 0 (2 ^ 32) (dmul (double_of_int positions) double_1_2);
       Some (Z.shiftl 1 (CalculateBinSize n) - 1).

(** The part of the memory that the positions get, when the rows do not fit. *)
Definition split_positions (mem total : Z) : option Z :=
  hts ← int_between (- 2 ^ 63) (2 ^ 63) (ddiv (dmul (double_of_int mem) (double_of_int 4)) (double_of_int (total + 4)));
  Some (Z.quot hts 4).

Definition min_block_len (mem rows total : Z) : Z :=
  let len := rows * total in
  if (GBYTE <? len) && (256 * MBYTE <? mem) then 16 * MBYTE else if 4 * MBYTE <? len then 4 * MBYTE else len.

Definition Hash_Clear (h : HashTable) : HashTable :=
  with_table h 0 (replicate (Z.to_nat (hm_mask h + 1)) EMPTY) (Clear (hm_store h)).

(** [ht_mask], for rows of [total] bytes, and whether all groups fit the memory. *)
Definition fits_memory (mem max_groups total : Z) : bool := swrap 64 (max_groups * 8 + max_groups * total) <? mem.

Definition hash_mask (mem max_groups total : Z) : option Z :=
  mask ← (if fits_memory mem max_groups total then position_mask max_groups else split_positions mem total ≫= position_mask);
  Some (if mask <? 63 then 63 else mask).

(** Rows of [total_width] bytes, rounded up, have four more bytes for the link. *)
Definition row_width (total_width : Z) : Z := 4 * ((total_width + 3) / 4) + 4.

Definition Hash_Init (junk : Z -> list Z) (mem max_groups total_width input_width match_width : Z) : option HashTable :=
  if input_width <=? 0 then None                           (* assert(input_buffer_width > 0) *)
  else
  let total := row_width total_width in
  mask ← hash_mask mem max_groups total;
  let '(max_rows, one_pass) :=
    if 2000000000 <? max_groups then (2000000000, false) else (max_groups, fits_memory mem max_groups total) in
  let mem := mem - (mask + 1) * 4 in
  if mem <=? 0 then None                                   (* assert(mem_available > 0) *)
  else
    st ← Storage_Init junk total (MemBlockManager_new mem 1 (4 * MBYTE) (-1)) 0 (swrap 32 (min_block_len mem max_rows total));
    Some (Hash_Clear (mkHash total match_width input_width 0 max_rows one_pass [] mask (total - 4) st)).

Definition Hash_ByteSize (h : HashTable) : Z :=
  let res := (hm_mask h + 1) * 4 in
  let m := bman (hm_store h) in
  if size_limit m <? hm_max_rows h * hm_total h then res + size_limit m
  else if hm_max_rows h * hm_total h <? man_block_size m then res + man_block_size m
  else res + hm_max_rows h * hm_total h.

Definition Hash_MemoryBlocksLeft (h : HashTable) : Z := if hm_one_pass h then 999 else MemoryBlocksLeft (bman (hm_store h)).
Definition Hash_RowNumberScope (h : HashTable) : Z := hm_max_rows h.

(** ** Finding and adding a row *)

(** The loop along the rows of one position: the row where the input is, or the number of the next
    row to be added, after the last row was given that number. *)
Fixpoint walk (fuel : nat) (h : HashTable) (buf : list Z) (add : bool) (row_no : Z) : option (bool * Z * HashTable) :=
  if row_no <? hm_rows h then
    match fuel with
    | O => None
    | S fuel =>
        k ← read_row (hm_store h) row_no 0 (hm_match h);
        if bool_decide (k = slice buf 0 (hm_match h)) then Some (true, row_no, h)
        else
          nx ← read_row (hm_store h) row_no (hm_next_off h) 4;
          if of_le nx =? 0 then
            if add then
              st ← write_row (hm_store h) row_no (hm_next_off h) (bytes_le 4 (hm_rows h));
              Some (false, hm_rows h, with_store h st)
            else Some (false, hm_rows h, h)
          else if row_no <? of_le nx then walk fuel h buf add (of_le nx)
          else None                                        (* assert(row_no < *next_pos) *)
    end
  else Some (false, row_no, h).

Definition position (h : HashTable) (buf : list Z) : Z := Z.land (HashValue buf (hm_match h)) (hm_mask h).

Definition add_new (junk : Z -> list Z) (h : HashTable) (buf : list Z) (row : Z) : option (bool * Z * HashTable) :=
  '(new_row, st) ← AddEmptyRow junk (hm_store h);
  if negb (new_row =? row) then None                       (* assert(new_row == row) *)
  else
  st ← write_row st row 0 (slice buf 0 (hm_input h));
  Some (false, row, with_table h (hm_rows h + 1) (hm_slots h) st).

Definition Hash_FindCurrentRow (junk : Z -> list Z) (h : HashTable) (buf : list Z) (add : bool) : option (bool * Z * HashTable) :=
  let pos := position h buf in
  let r := (hm_slots h).[0|pos] in
  if (r =? EMPTY) && negb add then Some (false, NULL_VALUE_64, h)
  else
    let '(h, r) := if r =? EMPTY then (with_table h (hm_rows h) (hm_slots h).[pos <- hm_rows h] (hm_store h), hm_rows h) else (h, r) in
    '(found, row, h) ← walk (Z.to_nat (hm_rows h)) h buf add r;
    if (found : bool) then Some (true, row, h)
    else if negb add then Some (false, NULL_VALUE_64, h)
    else add_new junk h buf row.

Definition Hash_MatchTable (junk : Z -> list Z) : MatchTable HashTable := {|
  vm_rows := hm_rows;
  vm_find := Hash_FindCurrentRow junk;
  vm_read_group := fun h row => read_row (hm_store h) row 0 (hm_input h);
  vm_read_aggr := fun h row off n => read_row (hm_store h) row (hm_input h + off) n;
  vm_write_aggr := fun h row off bs => st ← write_row (hm_store h) row (hm_input h + off) bs; Some (with_store h st);
  vm_full := fun h => hm_max_rows h <=? hm_rows h;
  vm_clear := Hash_Clear;
  vm_rewind := fun h rel => with_store h (Rewind (hm_store h) rel);
  vm_valid := fun h => negb (GetCurrent (hm_store h) =? -1);
  vm_current := fun h => Some (GetCurrent (hm_store h));
  vm_next := fun h => with_store h (snd (NextRow (hm_store h)))
|}.

#[local] Arguments bytes_le : simpl never.

(** ** Positions and chains *)

(** The first place of [s] in a list whose places are counted from [i]. *)
Fixpoint first_in (s : Z) (l : list Z) (i : nat) : option nat :=
  match l with
  | [] => None
  | x :: l => if x =? s then Some i else first_in s l (S i)
  end.

Lemma first_in_Some s l i j :
  first_in s l i = Some j ->
  exists k, j = (i + k)%nat /\ l !! k = Some s /\ forall k', (k' < k)%nat -> l !! k' <> Some s.
Proof.
  revert i. induction l as [|x l IH]; intros i H; [done|]. cbn [first_in] in H. destruct (Z.eqb_spec x s) as [->|Hx].
  - injection H as <-. exists O. split_and!; [lia|done|]. intros k' Hk'. lia.
  - apply IH in H as (k & -> & Hk & Hm). exists (S k). split_and!; [lia|done|]. intros [|k'] Hk'; cbn; [congruence|]. apply Hm. lia.
Qed.

Lemma first_in_None s l i : first_in s l i = None <-> forall k : nat, l !! k <> Some s.
Proof.
  revert i. induction l as [|x l IH]; intros i; cbn [first_in]; [done|]. destruct (Z.eqb_spec x s) as [->|Hx].
  - split; [done|]. intros H. by specialize (H O).
  - rewrite IH. split; [|intros H k; by specialize (H (S k))]. intros H [|k]; cbn; [congruence|apply H].
Qed.

Lemma first_in_snoc s l x i :
  first_in s (l ++ [x]) i = match first_in s l i with Some j => Some j | None => if x =? s then Some (i + length l)%nat else None end.
Proof.
  revert i. induction l as [|y l IH]; intros i; cbn [first_in app length].
  - by rewrite Nat.add_0_r.
  - destruct (y =? s); [done|]. rewrite IH. by replace (S i + length l)%nat with (i + S (length l))%nat by lia.
Qed.

(** What the link of each row is: the next row with its position, or zero. *)
Fixpoint links (l : list Z) (i : nat) : list Z :=
  match l with
  | [] => []
  | s :: l => match first_in s l (S i) with Some j => Z.of_nat j | None => 0 end :: links l (S i)
  end.

Lemma length_links l i : length (links l i) = length l.
Proof. revert i. induction l as [|s l IH]; intros i; cbn; [done|]. by rewrite IH. Qed.

Lemma lookup_links l i k s :
  l !! k = Some s ->
  links l i !! k = Some (match first_in s (drop (S k) l) (S (i + k)) with Some j => Z.of_nat j | None => 0 end).
Proof.
  revert i k. induction l as [|x l IH]; intros i k H; [done|]. destruct k as [|k]; cbn in H; cbn [links]; rewrite lookup_cons.
  - injection H as ->. cbn [drop]. by rewrite Nat.add_0_r, drop_0.
  - rewrite (IH (S i) k H). cbn [drop]. by replace (S i + k)%nat with (i + S k)%nat by lia.
Qed.

(** A position that is new adds an entry without changing a link. *)
Lemma links_new l s i : (forall k, l !! k <> Some s) -> links (l ++ [s]) i = links l i ++ [0].
Proof.
  revert i. induction l as [|x l IH]; intros i H; cbn [links app]; [done|]. rewrite IH by (intros k; apply (H (S k))). f_equal.
  rewrite first_in_snoc. destruct (Z.eqb_spec s x) as [->|]; [by specialize (H O)|]. by destruct (first_in x l (S i)).
Qed.

(** Otherwise the link of the last row with that position changes. *)
Lemma links_last l s i k :
  l !! k = Some s -> (forall k', (k < k')%nat -> l !! k' <> Some s) ->
  links (l ++ [s]) i = <[k := Z.of_nat (i + length l)]> (links l i) ++ [0].
Proof.
  revert i k. induction l as [|x l IH]; intros i k H Hl; [done|]. destruct k as [|k]; cbn [links app length].
  - injection H as ->. cbn. rewrite links_new by (intros k; apply (Hl (S k)); lia). f_equal. rewrite first_in_snoc, Z.eqb_refl.
    rewrite (proj2 (first_in_None s l (S i))) by (intros k; apply (Hl (S k)); lia).
    f_equal. lia.
  - cbn in H |- *. rewrite (IH (S i) k H) by (intros k' Hk'; apply (Hl (S k')); lia).
    replace (S i + length l)%nat with (i + S (length l))%nat by lia. f_equal. rewrite first_in_snoc. destruct (Z.eqb_spec s x) as [->|].
    + destruct (first_in x l (S i)) eqn:E; [done|]. by apply first_in_None with (k := k) in E.
    + by destruct (first_in x l (S i)).
Qed.

(** ** The hash function looks at the bytes that match *)

Lemma foldl_ext_elem {A B : Type} (f g : A -> B -> A) l a :
  (forall x y, y ∈ l -> f x y = g x y) -> foldl f a l = foldl g a l.
Proof.
  revert a. induction l as [|y l IH]; intros a H; [done|]. cbn. rewrite H by left. apply IH. intros x z Hz. apply H. by right.
Qed.

Lemma HashValue_ext a b m : (forall i, 0 <= i < m -> a.[0|i] = b.[0|i]) -> HashValue a m = HashValue b m.
Proof.
  intros H. unfold HashValue.
  assert (Hle : forall j, 0 <= j -> 4 * j + 3 < m -> le32 a (4 * j) = le32 b (4 * j)).
  { intros j Hj Hm. unfold le32. by rewrite !H by lia. }
  pose proof (Z.div_mod m 4 ltac:(lia)). pose proof (Z.mod_pos_bound m 4 ltac:(lia)).
  assert (Hbytes : forall v i, 0 <= i -> foldl (fun val j => hash_mix val a.[0|j]) v (range i (m - 1))
                                      = foldl (fun val j => hash_mix val b.[0|j]) v (range i (m - 1))).
  { intros v i Hi. apply foldl_ext_elem. intros x j Hj%list_elem_of_In%range_In. by rewrite H by lia. }
  destruct (Z.eqb_spec (m / 4 * 4) 4) as [E|E].
  - pose proof (Hle 0 ltac:(lia) ltac:(lia)) as Hle0. change (4 * 0) with 0 in Hle0. by rewrite Hle0, Hbytes by lia.
  - assert (Hw : foldl (fun val j => hash_mix val (le32 a (4 * j))) 0 (range 0 (m / 4 * 4 / 4 - 1))
                 = foldl (fun val j => hash_mix val (le32 b (4 * j))) 0 (range 0 (m / 4 * 4 / 4 - 1))).
    { apply foldl_ext_elem. intros x j Hj%list_elem_of_In%range_In. rewrite Z.div_mul in Hj by lia. by rewrite Hle by lia. }
    rewrite Hw. destruct (Z.le_gt_cases 0 (m / 4 * 4)); [by rewrite Hbytes|].
    rewrite (range_nil 0) by (rewrite Z.div_mul; lia). cbn [foldl].
    assert (m < 0) by lia.
    assert (Hn : forall (v : Z) (d : list Z), foldl (fun val j => hash_mix val d.[0|j]) v (range (m / 4 * 4) (m - 1))
                 = foldl (fun val j => hash_mix val 0) v (range (m / 4 * 4) (m - 1))).
    { intros v d. apply foldl_ext_elem. intros x j Hj%list_elem_of_In%range_In. unfold znth. by destruct (Z.ltb_spec j 0); [|lia]. }
    by rewrite !Hn.
Qed.

Lemma position_key h buf buf' :
  slice buf 0 (hm_match h) = slice buf' 0 (hm_match h) -> position h buf = position h buf'.
Proof.
  intros E. unfold position. rewrite (HashValue_ext buf buf'); [done|]. intros i Hi.
  pose proof (znth_slice buf 0 (hm_match h) i) as E1. pose proof (znth_slice buf' 0 (hm_match h) i) as E2.
  rewrite E, Z.add_0_l in E1. rewrite Z.add_0_l in E2. by rewrite <- E1, <- E2 by lia.
Qed.

(** ** The entries of a table *)

Definition positions (h : HashTable) (G : list entry) : list Z := map (fun e => position h (e_input e)) G.

Definition row_bytes (e : entry) (next : Z) : list Z := e_input e ++ e_aggr e ++ bytes_le 4 next.

#[local] Arguments row_bytes : simpl never.

Definition hash_rows (h : HashTable) (G : list entry) : list (list Z) := zip_with row_bytes G (links (positions h G) 0).

(** The widths, the entries and their positions; the storage is apart. *)
Record hash_ok (sh : table_shape) (h : HashTable) (G : list entry) : Prop := {
  hk_match : hm_match h = sh_match sh;
  hk_input : hm_input h = sh_input sh;
  hk_next : hm_next_off h = sh_input sh + sh_aggr sh;
  hk_total : hm_total h = hm_next_off h + 4;
  hk_widths : 0 <= sh_match sh <= sh_input sh /\ 0 <= sh_aggr sh;
  hk_room : hm_max_rows h = sh_room sh /\ sh_room sh <= 2000000000;
  hk_rows : hm_rows h = zlen G;
  hk_rows_room : zlen G <= Z.max 0 (sh_room sh);
  hk_mask : 0 <= hm_mask h /\ zlen (hm_slots h) = hm_mask h + 1;
  hk_entries : Forall (fun e => zlen (e_input e) = sh_input sh /\ zlen (e_aggr e) = sh_aggr sh) G;
  hk_numbers : forall i e, G !! i = Some e -> e_row e = Z.of_nat i;
  hk_keys : NoDup (map (fun e => key sh (e_input e)) G);
  hk_slots : forall s, 0 <= s <= hm_mask h ->
    (hm_slots h).[0|s] = match first_in s (positions h G) 0 with Some j => Z.of_nat j | None => EMPTY end
}.

Record hash_rep (sh : table_shape) (h : HashTable) (G : list entry) : Prop := {
  hr_ok : hash_ok sh h G;
  hr_holds : holds (hm_store h) 0 (hash_rows h G);
  hr_tight : tight (hm_store h);
  hr_row_len : row_len (hm_store h) = hm_total h;
  hr_release : release (hm_store h) = false
}.

Section Entries.
Context (sh : table_shape) (h : HashTable) (G : list entry) (H : hash_ok sh h G).

Lemma length_positions : length (positions h G) = length G.
Proof. apply length_map. Qed.

Lemma zlen_hash_rows : zlen (hash_rows h G) = zlen G.
Proof. unfold zlen, hash_rows. rewrite length_zip_with, length_links, length_positions. lia. Qed.

Lemma rows_small : zlen G < EMPTY.
Proof using H. pose proof (hk_rows_room _ _ _ H). pose proof (hk_room _ _ _ H). unfold EMPTY. lia. Qed.

Lemma link_of (i : nat) (e : entry) :
  G !! i = Some e ->
  exists next, links (positions h G) 0 !! i = Some next
    /\ next = match first_in (position h (e_input e)) (drop (S i) (positions h G)) (S i) with Some j => Z.of_nat j | None => 0 end
    /\ is_word 32 next.
Proof using H.
  intros E. assert (Ep : positions h G !! i = Some (position h (e_input e))) by (unfold positions; by rewrite list_lookup_fmap, E).
  eexists. split; [by apply lookup_links|]. cbn [Nat.add]. split; [done|]. pose proof rows_small.
  destruct (first_in _ _ _) as [j|] eqn:Ej; unfold is_word; [|lia].
  apply first_in_Some in Ej as (k & -> & Hk & _). apply lookup_lt_Some in Hk. rewrite length_drop, length_positions in Hk. unfold zlen, EMPTY in *. lia.
Qed.

Lemma hash_row (i : nat) (e : entry) :
  G !! i = Some e -> exists next, (hash_rows h G).[[]|Z.of_nat i] = row_bytes e next /\ links (positions h G) 0 !! i = Some next.
Proof using H.
  intros E. destruct (link_of i e E) as (next & Hn & _). exists next. split; [|done].
  apply znth_lookup_Some. unfold hash_rows. by rewrite lookup_zip_with, E, Hn.
Qed.

Lemma entry_widths (i : nat) (e : entry) : G !! i = Some e -> zlen (e_input e) = sh_input sh /\ zlen (e_aggr e) = sh_aggr sh.
Proof using H. intros E. pose proof (hk_entries _ _ _ H) as F. rewrite Forall_forall in F. apply F. by eapply list_elem_of_lookup_2. Qed.

Lemma position_bound buf : 0 <= position h buf <= hm_mask h.
Proof using H.
  destruct (hk_mask _ _ _ H) as [Hm _]. unfold position. split; [apply Z.land_nonneg; by right|].
  destruct (Z.eq_dec (hm_mask h) 0) as [->|]; [by rewrite Z.land_0_r|].
  destruct (Z.le_gt_cases (Z.land (HashValue buf (hm_match h)) (hm_mask h)) (hm_mask h)) as [|C]; [done|exfalso].
  assert (Hsub : Z.ldiff (Z.land (HashValue buf (hm_match h)) (hm_mask h)) (hm_mask h) = 0).
  { apply Z.bits_inj'. intros k Hk. rewrite Z.ldiff_spec, Z.land_spec, Z.bits_0. destruct (Z.testbit (hm_mask h) k); by rewrite ?andb_false_r. }
  apply Z.ldiff_le in Hsub; lia.
Qed.
End Entries.

(** ** Reading the rows *)

Lemma row_bytes_key e next n : 0 <= n <= zlen (e_input e) -> slice (row_bytes e next) 0 n = slice (e_input e) 0 n.
Proof. intros Hn. unfold row_bytes. by apply slice_app_l. Qed.

Lemma row_bytes_aggr e next off n :
  0 <= off -> 0 <= n -> off + n <= zlen (e_aggr e) -> slice (row_bytes e next) (zlen (e_input e) + off) n = slice (e_aggr e) off n.
Proof.
  intros Ho Hn Hl. unfold row_bytes. rewrite slice_app_after by lia. replace (zlen (e_input e) + off - zlen (e_input e)) with off by lia.
  unfold slice. unfold zlen in Hl. rewrite drop_app_le by lia. apply take_app_le. rewrite length_drop. lia.
Qed.

Lemma row_bytes_next e next : slice (row_bytes e next) (zlen (e_input e) + zlen (e_aggr e)) 4 = bytes_le 4 next.
Proof.
  unfold row_bytes. rewrite app_assoc, slice_app_after by (rewrite zlen_app; lia). rewrite zlen_app, Z.sub_diag. apply slice_all.
Qed.

Section Rows.
Context (sh : table_shape) (h : HashTable) (G : list entry) (R : hash_rep sh h G).

Lemma read_entry (first : Z) (st : Storage) (i : nat) (e : entry) off n :
  holds st first (hash_rows h G) -> row_len st = hm_total h -> G !! i = Some e -> first * 2 ^ npower st <= Z.of_nat i ->
  0 <= off -> 0 <= n -> off + n <= hm_total h ->
  exists next, read_row st (Z.of_nat i) off n = Some (slice (row_bytes e next) off n) /\ links (positions h G) 0 !! i = Some next.
Proof using R.
  intros Hh Hl E Hf Ho Hn Hb. destruct (hash_row sh h G (hr_ok _ _ _ R) i e E) as (next & Er & El). exists next. split; [|done].
  rewrite (read_row_spec st first (hash_rows h G)) by (done || (rewrite <- (h_rows _ _ _ Hh), zlen_hash_rows; apply lookup_lt_Some in E; unfold zlen; lia) || lia).
  by rewrite Er.
Qed.

Ltac widths E :=
  let W1 := fresh "W" in let W2 := fresh "W" in
  destruct (entry_widths sh h G (hr_ok _ _ _ R) _ _ E) as [W1 W2];
  pose proof (hk_widths _ _ _ (hr_ok _ _ _ R)); pose proof (hk_match _ _ _ (hr_ok _ _ _ R)); pose proof (hk_input _ _ _ (hr_ok _ _ _ R));
  pose proof (hk_next _ _ _ (hr_ok _ _ _ R)); pose proof (hk_total _ _ _ (hr_ok _ _ _ R)).

Lemma read_key (i : nat) (e : entry) :
  G !! i = Some e -> read_row (hm_store h) (Z.of_nat i) 0 (hm_match h) = Some (key sh (e_input e)).
Proof using R.
  intros E. widths E. destruct (read_entry 0 (hm_store h) i e 0 (hm_match h) (hr_holds _ _ _ R) (hr_row_len _ _ _ R) E) as (next & -> & _); [lia..|].
  rewrite row_bytes_key by lia. unfold key. by rewrite <- (hk_match _ _ _ (hr_ok _ _ _ R)).
Qed.

Lemma read_next (i : nat) (e : entry) :
  G !! i = Some e -> exists next, read_row (hm_store h) (Z.of_nat i) (hm_next_off h) 4 = Some (bytes_le 4 next)
                                  /\ links (positions h G) 0 !! i = Some next.
Proof using R.
  intros E. widths E. destruct (read_entry 0 (hm_store h) i e (hm_next_off h) 4 (hr_holds _ _ _ R) (hr_row_len _ _ _ R) E) as (next & -> & El); [lia..|].
  exists next. split; [|done]. replace (hm_next_off h) with (zlen (e_input e) + zlen (e_aggr e)) by lia. by rewrite row_bytes_next.
Qed.

Lemma key_position (e : entry) buf : key sh (e_input e) = key sh buf -> position h (e_input e) = position h buf.
Proof using R. unfold key. rewrite <- (hk_match _ _ _ (hr_ok _ _ _ R)). apply position_key. Qed.

(** The walk from a row of the position of the input. *)
Lemma walk_spec fuel buf add (j : nat) :
  positions h G !! j = Some (position h buf) -> (length G - j <= fuel)%nat ->
  (exists i e, (j <= i)%nat /\ G !! i = Some e /\ key sh (e_input e) = key sh buf /\ walk fuel h buf add (Z.of_nat j) = Some (true, Z.of_nat i, h))
  \/ ((forall i e, (j <= i)%nat -> G !! i = Some e -> key sh (e_input e) <> key sh buf)
      /\ exists l, positions h G !! l = Some (position h buf) /\ (forall l', (l < l')%nat -> positions h G !! l' <> Some (position h buf))
         /\ walk fuel h buf add (Z.of_nat j) =
              if add then st ← write_row (hm_store h) (Z.of_nat l) (hm_next_off h) (bytes_le 4 (hm_rows h)); Some (false, hm_rows h, with_store h st)
              else Some (false, hm_rows h, h)).
Proof using R.
  revert j. induction fuel as [|fuel IH]; intros j Hj Hf; pose proof (lookup_lt_Some _ _ _ Hj) as Hlt; rewrite length_positions in Hlt; [lia|].
  destruct (lookup_lt_is_Some_2 G j Hlt) as [e Ee]. cbn [walk]. rewrite (hk_rows _ _ _ (hr_ok _ _ _ R)).
  rewrite (proj2 (Z.ltb_lt (Z.of_nat j) (zlen G))) by (unfold zlen; lia). rewrite (read_key j e Ee). cbn [mbind option_bind].
  replace (slice buf 0 (hm_match h)) with (key sh buf) by (unfold key; by rewrite (hk_match _ _ _ (hr_ok _ _ _ R))).
  case_bool_decide as Hk; [left; by exists j, e|]. destruct (read_next j e Ee) as (next & -> & El). cbn [mbind option_bind].
  destruct (link_of sh h G (hr_ok _ _ _ R) j e Ee) as (next' & El' & En & Hw). rewrite El in El'. injection El' as <-.
  rewrite of_bytes_le_word by done. assert (Ep : position h (e_input e) = position h buf).
  { unfold positions in Hj. rewrite list_lookup_fmap, Ee in Hj. by injection Hj. }
  rewrite Ep in En. destruct (first_in _ _ _) as [j'|] eqn:Ej.
  - apply first_in_Some in Ej as (k & -> & Hk' & Hmin). rewrite lookup_drop in Hk'.
    destruct (Z.eqb_spec next 0); [lia|]. rewrite En, (proj2 (Z.ltb_lt (Z.of_nat j) _)) by lia.
    destruct (IH (S j + k)%nat Hk' ltac:(lia)) as [(i & e' & Hi & Ei & Hke & Hwk)|[Hno (l & Hl & Hl' & Hwk)]].
    + left. exists i, e'. split_and!; try done. lia.
    + right. split; [|exists l; split_and!; [done|done|by rewrite Hwk, (hk_rows _ _ _ (hr_ok _ _ _ R))]].
      intros i e' Hi Ei. destruct (decide (i = j)) as [->|]; [congruence|]. destruct (decide (i < S j + k)%nat); [|apply Hno with i; [lia|done]].
      intros Hke%key_position. apply (Hmin (i - S j)%nat); [lia|]. rewrite lookup_drop. replace (S j + (i - S j))%nat with i by lia.
      unfold positions. by rewrite list_lookup_fmap, Ei, <- Hke.
  - right. subst next. cbn [Z.eqb]. pose proof (proj1 (first_in_None _ _ _) Ej) as Hno. split.
    + intros i e' Hi Ei Hke. destruct (decide (i = j)) as [->|]; [congruence|]. apply (Hno (i - S j)%nat). rewrite lookup_drop.
      replace (S j + (i - S j))%nat with i by lia. unfold positions. by rewrite list_lookup_fmap, Ei, <- (key_position _ _ Hke).
    + exists j. split_and!; [done| |done].
      intros l' Hl'. specialize (Hno (l' - S j)%nat). rewrite lookup_drop in Hno. by replace (S j + (l' - S j))%nat with l' in Hno by lia.
Qed.
End Rows.

(** ** Adding an entry *)

Definition new_entry (sh : table_shape) (G : list entry) (buf : list Z) : entry := mkEntry (zlen G) buf (replicate (Z.to_nat (sh_aggr sh)) 0).

Lemma positions_with_table h rows slots st G : positions (with_table h rows slots st) G = positions h G.
Proof. done. Qed.

Lemma positions_snoc h G e : positions h (G ++ [e]) = positions h G ++ [position h (e_input e)].
Proof. apply map_app. Qed.

Lemma hash_ok_snoc sh h G buf slots st :
  hash_ok sh h G -> input_ok sh buf -> (forall e, e ∈ G -> key sh (e_input e) <> key sh buf) -> zlen G < sh_room sh ->
  zlen slots = hm_mask h + 1 ->
  (forall s, 0 <= s <= hm_mask h ->
     slots.[0|s] = match first_in s (positions h G ++ [position h buf]) 0 with Some j => Z.of_nat j | None => EMPTY end) ->
  hash_ok sh (with_table h (hm_rows h + 1) slots st) (G ++ [new_entry sh G buf]).
Proof.
  intros [] (Hl & Hb & Hk) Hno Hroom Hsl Hs. split; cbn; try done.
  - rewrite zlen_snoc. lia.
  - rewrite zlen_snoc. lia.
  - split; [|done]. by destruct hk_mask0.
  - apply Forall_app. split; [done|]. constructor; [|done]. cbn. split; [done|]. apply zlen_replicate. apply hk_widths0.
  - intros i e He. apply lookup_app_Some in He as [He|[Hi He]]; [by apply hk_numbers0|]. apply list_lookup_singleton_Some in He as [Hi' <-].
    cbn. unfold zlen. lia.
  - rewrite map_app. apply NoDup_app. split_and!; [done| |apply NoDup_singleton].
    intros k Hk' Hin. apply list_elem_of_fmap in Hk' as (e & -> & He). apply list_elem_of_singleton in Hin. by apply (Hno e).
  - intros s Hs'. rewrite positions_with_table, positions_snoc. by apply Hs.
Qed.

Lemma row_bytes_link e next n : overwrite (row_bytes e next) (zlen (e_input e) + zlen (e_aggr e)) (bytes_le 4 n) = row_bytes e n.
Proof.
  unfold row_bytes. rewrite <- (app_nil_r (bytes_le 4 next)), !(app_assoc (e_input e)).
  rewrite overwrite_mid by (rewrite ?zlen_app; done). by rewrite app_nil_r.
Qed.

(** A row of zeros is added and the input put at its start. *)
Lemma add_row_put junk st rows bs :
  holds st 0 rows -> tight st -> release st = false -> zlen bs <= row_len st ->
  exists st0 st', AddEmptyRow junk st = Some (no_rows st, st0) /\ write_row st0 (no_rows st) 0 bs = Some st'
    /\ holds st' 0 (rows ++ [bs ++ replicate (Z.to_nat (row_len st - zlen bs)) 0]) /\ tight st' /\ row_len st' = row_len st /\ release st' = false.
Proof.
  intros Hh Ht Hr Hbs. pose proof (h_len_pos _ _ _ Hh). pose proof (h_rows _ _ _ Hh) as Hn. pose proof (zlen_nonneg rows). pose proof (zlen_nonneg bs).
  destruct (AddRow_spec junk st rows (replicate (Z.to_nat (row_len st)) 0) Hh Ht) as (st0 & E & Hh0 & Ht0 & Hl0 & _ & Hr0 & Hn0);
    [apply zlen_replicate; lia|].
  destruct (write_row_spec st0 0 _ (no_rows st) 0 bs Hh0) as (m & Ew & Hh1); [lia..|].
  exists st0, (with_man st0 m). split_and!; [done|done| |exact Ht0|cbn; congruence|cbn; congruence].
  assert (Ez : (rows ++ [replicate (Z.to_nat (row_len st)) 0]).[[]|no_rows st] = replicate (Z.to_nat (row_len st)) 0).
  { rewrite znth_app_r by lia. by rewrite Hn, Z.sub_diag. }
  rewrite Ez in Hh1. rewrite overwrite_prefix in Hh1 by (rewrite zlen_replicate; lia).
  rewrite drop_replicate in Hh1. replace (Z.to_nat (row_len st) - length bs)%nat with (Z.to_nat (row_len st - zlen bs)) in Hh1 by (unfold zlen in *; lia).
  unfold zupd in Hh1. destruct (Z.ltb_spec (no_rows st) 0); [lia|]. rewrite insert_app_r_alt in Hh1 by (unfold zlen in *; lia).
  replace (Z.to_nat (no_rows st) - length rows)%nat with 0%nat in Hh1 by (unfold zlen in *; lia). done.
Qed.

Lemma input_slice sh buf : input_ok sh buf -> slice buf 0 (sh_input sh) = buf.
Proof. intros (<- & _ & _). apply slice_all. Qed.

(** The new row, with its link, in a table whose other rows are up to date. *)
Lemma add_new_rep junk sh h h1 G buf rows :
  hash_rep sh h G -> input_ok sh buf -> (forall e, e ∈ G -> key sh (e_input e) <> key sh buf) -> zlen G < sh_room sh ->
  h1 = with_table h (hm_rows h) (hm_slots h1) (hm_store h1) -> zlen (hm_slots h1) = hm_mask h + 1 ->
  (forall s, 0 <= s <= hm_mask h ->
     (hm_slots h1).[0|s] = match first_in s (positions h G ++ [position h buf]) 0 with Some j => Z.of_nat j | None => EMPTY end) ->
  holds (hm_store h1) 0 rows -> tight (hm_store h1) -> release (hm_store h1) = false -> row_len (hm_store h1) = hm_total h ->
  rows ++ [row_bytes (new_entry sh G buf) 0] = hash_rows h (G ++ [new_entry sh G buf]) ->
  exists h', add_new junk h1 buf (hm_rows h) = Some (false, hm_rows h, h') /\ hash_rep sh h' (G ++ [new_entry sh G buf]).
Proof.
  intros R Hi Hno Hroom Eh1 Hsl Hs Hh Ht Hrel Hlen Hrows. pose proof (hr_ok _ _ _ R) as K.
  destruct (hk_widths _ _ _ K) as [Hw1 Hw2]. pose proof (hk_total _ _ _ K) as Htot. pose proof (hk_next _ _ _ K) as Hnx.
  destruct (add_row_put junk (hm_store h1) rows buf Hh Ht Hrel) as (st0 & st' & E0 & Ew & Hh' & Ht' & Hl' & Hr').
  { destruct Hi as (-> & _). lia. }
  assert (En : no_rows (hm_store h1) = hm_rows h).
  { rewrite <- (h_rows _ _ _ Hh), (hk_rows _ _ _ K). apply (f_equal zlen) in Hrows. rewrite zlen_hash_rows, !zlen_snoc in Hrows. lia. }
  unfold add_new. rewrite E0, En in *. cbn [mbind option_bind]. rewrite Z.eqb_refl. cbn [negb]. rewrite Eh1. cbn [hm_input hm_rows hm_slots with_table].
  rewrite (hk_input _ _ _ K), (input_slice sh buf Hi), Ew. cbn [mbind option_bind].
  eexists. split; [reflexivity|]. split; [by apply (hash_ok_snoc sh h G buf (hm_slots h1) st')| |done|cbn; congruence|done].
  change (holds st' 0 (hash_rows h (G ++ [new_entry sh G buf]))). rewrite <- Hrows.
  replace (row_bytes (new_entry sh G buf) 0) with (buf ++ replicate (Z.to_nat (row_len (hm_store h1) - zlen buf)) 0); [done|].
  unfold row_bytes, new_entry. cbn [e_input e_aggr]. f_equal. destruct Hi as (-> & _). rewrite Hlen.
  change (bytes_le 4 0) with (replicate 4 0). rewrite <- replicate_add. f_equal. lia.
Qed.

Section Find.
Context (junk : Z -> list Z) (sh : table_shape) (h : HashTable) (G : list entry) (R : hash_rep sh h G) (buf : list Z) (Hi : input_ok sh buf).

Lemma position_lookup (i : nat) (e : entry) : G !! i = Some e -> positions h G !! i = Some (position h (e_input e)).
Proof. intros E. unfold positions. by rewrite list_lookup_fmap, E. Qed.

(** The position of the input is empty, or starts a chain. *)
Lemma slot_cases :
  ((hm_slots h).[0|position h buf] = EMPTY /\ (forall k : nat, positions h G !! k <> Some (position h buf)))
  \/ (exists j : nat, (hm_slots h).[0|position h buf] = Z.of_nat j /\ (Z.of_nat j =? EMPTY) = false
      /\ positions h G !! j = Some (position h buf) /\ forall k, (k < j)%nat -> positions h G !! k <> Some (position h buf)).
Proof using R.
  pose proof (hr_ok _ _ _ R) as K. rewrite (hk_slots _ _ _ K _ (position_bound sh h G K buf)).
  destruct (first_in (position h buf) (positions h G) 0) as [j|] eqn:E; [right|left].
  - apply first_in_Some in E as (k & -> & Hk & Hm). exists k. split_and!; try done.
    apply lookup_lt_Some in Hk. rewrite length_positions in Hk. pose proof (rows_small sh h G K). unfold zlen in *. apply Z.eqb_neq. lia.
  - split; [done|]. exact (proj1 (first_in_None _ _ _) E).
Qed.

Lemma hash_find_hit add e : e ∈ G -> key sh (e_input e) = key sh buf -> Hash_FindCurrentRow junk h buf add = Some (true, e_row e, h).
Proof using R.
  intros He Hk. apply list_elem_of_lookup in He as [i Ei]. pose proof (hr_ok _ _ _ R) as K.
  pose proof (position_lookup i e Ei) as Ep. rewrite (key_position sh h G R e buf Hk) in Ep.
  destruct slot_cases as [[_ Hno]|(j & Ej & Hne & Hj & Hmin)]; [by specialize (Hno i)|].
  assert (Hji : (j <= i)%nat) by (apply Nat.le_ngt; intros Hlt; by apply (Hmin i Hlt)).
  unfold Hash_FindCurrentRow. rewrite Ej, Hne. cbn [andb].
  destruct (walk_spec sh h G R (Z.to_nat (hm_rows h)) buf add j Hj) as [(i' & e' & _ & Ei' & Hk' & ->)|[Hno _]].
  - rewrite (hk_rows _ _ _ K). unfold zlen. lia.
  - cbn [mbind option_bind]. assert (i = i') as <-.
    { apply (NoDup_lookup _ i i' (key sh buf) (hk_keys _ _ _ K)); rewrite list_lookup_fmap, ?Ei, ?Ei'; cbn; congruence. }
    by rewrite (hk_numbers _ _ _ K i e Ei).
  - by destruct (Hno i e Hji Ei).
Qed.

Context (Hno : forall e, e ∈ G -> key sh (e_input e) <> key sh buf).

(** The walk of an input that is not there comes to the last row of its position. *)
Lemma walk_miss add (j : nat) :
  positions h G !! j = Some (position h buf) ->
  exists l : nat, positions h G !! l = Some (position h buf) /\ (forall l', (l < l')%nat -> positions h G !! l' <> Some (position h buf))
    /\ walk (Z.to_nat (hm_rows h)) h buf add (Z.of_nat j) =
         if add then st ← write_row (hm_store h) (Z.of_nat l) (hm_next_off h) (bytes_le 4 (hm_rows h)); Some (false, hm_rows h, with_store h st)
         else Some (false, hm_rows h, h).
Proof using R Hno.
  intros Hj. destruct (walk_spec sh h G R (Z.to_nat (hm_rows h)) buf add j Hj) as [(i & e & _ & Ei & Hk & _)|[_ (l & Hl & Hl' & E)]].
  - rewrite (hk_rows _ _ _ (hr_ok _ _ _ R)). unfold zlen. lia.
  - exfalso. apply (Hno e); [by eapply list_elem_of_lookup_2|done].
  - by exists l.
Qed.

Lemma find_miss : Hash_FindCurrentRow junk h buf false = Some (false, NULL_VALUE_64, h).
Proof using R Hno.
  unfold Hash_FindCurrentRow. destruct slot_cases as [[-> _]|(j & -> & -> & Hj & _)]; [done|]. cbn [andb].
  by destruct (walk_miss false j Hj) as (l & _ & _ & ->).
Qed.

Lemma walk_end fuel h' add : walk fuel h' buf add (hm_rows h') = Some (false, hm_rows h', h').
Proof. destruct fuel; cbn [walk]; by rewrite Z.ltb_irrefl. Qed.

(** The first row of a position. *)
Lemma find_add_first :
  zlen G < sh_room sh -> (hm_slots h).[0|position h buf] = EMPTY -> (forall k : nat, positions h G !! k <> Some (position h buf)) ->
  exists h', Hash_FindCurrentRow junk h buf true = Some (false, hm_rows h, h') /\ hash_rep sh h' (G ++ [new_entry sh G buf]).
Proof using R Hi Hno.
  intros Hroom E Hnew. pose proof (hr_ok _ _ _ R) as K. destruct (hk_mask _ _ _ K) as [Hm Hsl]. pose proof (position_bound sh h G K buf) as Hp.
  unfold Hash_FindCurrentRow. rewrite E. cbn [Z.eqb andb negb]. change (EMPTY =? EMPTY) with true. cbn [andb negb].
  set (h1 := with_table h (hm_rows h) (hm_slots h).[position h buf <- hm_rows h] (hm_store h)).
  replace (walk _ h1 buf true (hm_rows h)) with (Some (false, hm_rows h, h1)) by (symmetry; exact (walk_end _ h1 true)).
  cbn [mbind option_bind negb].
  apply (add_new_rep junk sh h h1 G buf (hash_rows h G)); try done; cbn.
  - by rewrite zlen_zupd.
  - intros s Hs. rewrite znth_zupd by lia. rewrite first_in_snoc, (hk_slots _ _ _ K) by done. destruct (Z.eqb_spec s (position h buf)) as [->|Hne].
    + rewrite (proj2 (first_in_None _ _ _)) by done. rewrite Z.eqb_refl, (hk_rows _ _ _ K), length_positions. done.
    + destruct (first_in s (positions h G) 0); [done|]. by destruct (Z.eqb_spec (position h buf) s).
  - apply (hr_holds _ _ _ R).
  - apply (hr_tight _ _ _ R).
  - apply (hr_release _ _ _ R).
  - apply (hr_row_len _ _ _ R).
  - unfold hash_rows. rewrite positions_snoc, links_new by done. cbn [e_input new_entry]. rewrite zip_with_app by (by rewrite length_links, length_positions). done.
Qed.

(** A further row of a position. *)
Lemma find_add_next (j : nat) :
  zlen G < sh_room sh -> (hm_slots h).[0|position h buf] = Z.of_nat j -> (Z.of_nat j =? EMPTY) = false -> positions h G !! j = Some (position h buf) ->
  exists h', Hash_FindCurrentRow junk h buf true = Some (false, hm_rows h, h') /\ hash_rep sh h' (G ++ [new_entry sh G buf]).
Proof using R Hi Hno.
  intros Hroom E Hne Hj. pose proof (hr_ok _ _ _ R) as K. unfold Hash_FindCurrentRow. rewrite E, Hne. cbn [andb].
  destruct (walk_miss true j Hj) as (l & Hl & Hl' & ->). pose proof (lookup_lt_Some _ _ _ Hl) as Hlt. rewrite length_positions in Hlt.
  destruct (lookup_lt_is_Some_2 G l Hlt) as [e Ee]. destruct (entry_widths sh h G K l e Ee) as [W1 W2].
  destruct (hash_row sh h G K l e Ee) as (next & Er & Elk). pose proof (hk_widths _ _ _ K). pose proof (hk_next _ _ _ K). pose proof (hk_total _ _ _ K).
  destruct (write_row_spec (hm_store h) 0 (hash_rows h G) (Z.of_nat l) (hm_next_off h) (bytes_le 4 (hm_rows h)) (hr_holds _ _ _ R)) as (m & -> & Hh).
  { rewrite <- (h_rows _ _ _ (hr_holds _ _ _ R)), zlen_hash_rows. unfold zlen. lia. }
  { lia. }
  { rewrite (hr_row_len _ _ _ R). change (zlen (bytes_le 4 (hm_rows h))) with 4. lia. }
  cbn [mbind option_bind negb]. eapply (add_new_rep junk sh h (with_store h (with_man (hm_store h) m)) G buf); try done; cbn.
  - by destruct (hk_mask _ _ _ K).
  - intros s Hs. rewrite (hk_slots _ _ _ K) by done. rewrite first_in_snoc. destruct (first_in s (positions h G) 0) as [k|] eqn:Ek; [done|].
    destruct (Z.eqb_spec (position h buf) s) as [<-|]; [|done]. exfalso. by apply (proj1 (first_in_None _ _ _) Ek l).
  - apply (hr_tight _ _ _ R).
  - apply (hr_release _ _ _ R).
  - apply (hr_row_len _ _ _ R).
  - unfold hash_rows at 3. rewrite positions_snoc, (links_last _ _ 0 l) by done. cbn [e_input new_entry].
    rewrite zip_with_app by (by rewrite length_insert, length_links, length_positions). cbn [zip_with]. f_equal.
    rewrite Er. replace (hm_next_off h) with (zlen (e_input e) + zlen (e_aggr e)) by lia. rewrite row_bytes_link.
    unfold zupd, hash_rows. destruct (Z.ltb_spec (Z.of_nat l) 0); [lia|]. rewrite Nat2Z.id, insert_zip_with, (list_insert_id G) by done.
    by rewrite (hk_rows _ _ _ K), length_positions.
Qed.
End Find.

(** ** Reading and writing the bytes of the aggregators *)

Lemma row_bytes_put e next off bs :
  0 <= off -> off + zlen bs <= zlen (e_aggr e) -> overwrite (row_bytes e next) (zlen (e_input e) + off) bs = row_bytes (put_bytes e off bs) next.
Proof. intros Ho Hl. unfold row_bytes. by apply overwrite_inside. Qed.

Lemma positions_put h G i e off bs : G !! i = Some e -> positions h (<[i := put_bytes e off bs]> G) = positions h G.
Proof. intros E. unfold positions. change (map ?f ?l) with (f <$> l). rewrite list_fmap_insert. apply list_insert_id. by rewrite list_lookup_fmap, E. Qed.

Lemma hash_rows_put h G i e off bs :
  G !! i = Some e -> 0 <= off -> off + zlen bs <= zlen (e_aggr e) ->
  hash_rows h (<[i := put_bytes e off bs]> G)
  = (hash_rows h G).[Z.of_nat i <- overwrite ((hash_rows h G).[[]|Z.of_nat i]) (zlen (e_input e) + off) bs].
Proof.
  intros E Ho Hl. unfold hash_rows. rewrite (positions_put h G i e) by done.
  assert (Hx : exists next, links (positions h G) 0 !! i = Some next).
  { apply lookup_lt_is_Some_2. rewrite length_links, length_positions. by apply lookup_lt_Some in E. }
  destruct Hx as [next En]. rewrite (znth_lookup_Some [] _ i (row_bytes e next)) by by rewrite lookup_zip_with, E, En.
  rewrite row_bytes_put by done. unfold zupd. destruct (Z.ltb_spec (Z.of_nat i) 0); [lia|].
  by rewrite Nat2Z.id, insert_zip_with, (list_insert_id (links _ _)).
Qed.

Lemma hash_ok_put sh h G i e off bs st :
  hash_ok sh h G -> G !! i = Some e -> 0 <= off -> off + zlen bs <= sh_aggr sh ->
  hash_ok sh (with_store h st) (<[i := put_bytes e off bs]> G).
Proof.
  intros K E Ho Hl. destruct (entry_widths sh h G K i e E) as [W1 W2]. destruct K. split; cbn; try done.
  - unfold zlen. rewrite length_insert. done.
  - unfold zlen. rewrite length_insert. done.
  - apply Forall_insert; [done|]. cbn. split; [done|]. pose proof (zlen_nonneg bs). rewrite zlen_overwrite; lia.
  - intros k e' Hk. apply list_lookup_insert_Some in Hk as [(<- & <- & _)|[_ Hk]]; [|by apply hk_numbers0]. cbn. by apply hk_numbers0.
  - change (map ?f ?l) with (f <$> l) in *. rewrite list_fmap_insert, list_insert_id; [done|]. by rewrite list_lookup_fmap, E.
  - change (positions (with_store h st)) with (positions h). by rewrite (positions_put h G i e).
Qed.

Lemma holds_iter st first rows cur rel until : holds st first rows -> holds (with_iter st cur rel until) first rows.
Proof. intros []. by split. Qed.

Lemma hash_ok_store sh h G st : hash_ok sh h G -> hash_ok sh (with_store h st) G.
Proof. intros []. by split. Qed.

(** A visit has come to row [i]; the blocks before [first] were given back. *)
Record hash_at (sh : table_shape) (h : HashTable) (G : list entry) (rel : bool) (i : nat) : Prop := {
  ha_ok : hash_ok sh h G;
  ha_index : (i <= length G)%nat;
  ha_current : current (hm_store h) = if bool_decide (i < length G)%nat then Z.of_nat i else -1;
  ha_row_len : row_len (hm_store h) = hm_total h;
  ha_release : release (hm_store h) = rel;
  ha_holds : exists first, holds (hm_store h) first (hash_rows h G) /\ (rel = false -> first = 0 /\ tight (hm_store h))
                           /\ ((i < length G)%nat -> first <= Z.of_nat i / 2 ^ npower (hm_store h))
}.

Lemma hash_at_rep sh h G i : hash_at sh h G false i -> hash_rep sh h G.
Proof. intros [K _ _ Hl Hr (first & Hh & Hf & _)]. destruct (Hf eq_refl) as [-> Ht]. by split. Qed.

Section Laws.
Context (junk : Z -> list Z).

#[local] Instance table : MatchTable HashTable := Hash_MatchTable junk.

Lemma read_at sh h G first i e off n :
  hash_ok sh h G -> holds (hm_store h) first (hash_rows h G) -> row_len (hm_store h) = hm_total h -> first * 2 ^ npower (hm_store h) <= Z.of_nat i ->
  G !! i = Some e -> 0 <= off -> 0 <= n -> off + n <= hm_total h ->
  exists next, read_row (hm_store h) (e_row e) off n = Some (slice (row_bytes e next) off n).
Proof.
  intros K Hh Hl Hf E Ho Hn Hb. rewrite (hk_numbers _ _ _ K i e E). destruct (hash_row sh h G K i e E) as (next & Er & _). exists next.
  rewrite (read_row_spec (hm_store h) first (hash_rows h G)) by (done || (rewrite <- (h_rows _ _ _ Hh), zlen_hash_rows; apply lookup_lt_Some in E; unfold zlen; lia) || lia).
  by rewrite Er.
Qed.

Lemma read_group_at sh h G first i e :
  hash_ok sh h G -> holds (hm_store h) first (hash_rows h G) -> row_len (hm_store h) = hm_total h -> first * 2 ^ npower (hm_store h) <= Z.of_nat i ->
  G !! i = Some e -> vm_read_group h (e_row e) = Some (e_input e).
Proof.
  intros K Hh Hl Hf E. destruct (entry_widths sh h G K i e E) as [W1 W2]. pose proof (hk_widths _ _ _ K). pose proof (hk_next _ _ _ K). pose proof (hk_total _ _ _ K).
  pose proof (hk_input _ _ _ K). cbn. destruct (read_at sh h G first i e 0 (hm_input h) K Hh Hl Hf E) as [next ->]; [lia..|].
  rewrite row_bytes_key by lia. replace (hm_input h) with (zlen (e_input e)) by lia. by rewrite slice_all.
Qed.

Lemma read_aggr_at sh h G first i e off n :
  hash_ok sh h G -> holds (hm_store h) first (hash_rows h G) -> row_len (hm_store h) = hm_total h -> first * 2 ^ npower (hm_store h) <= Z.of_nat i ->
  G !! i = Some e -> 0 <= off -> 0 <= n -> off + n <= sh_aggr sh -> vm_read_aggr h (e_row e) off n = Some (slice (e_aggr e) off n).
Proof.
  intros K Hh Hl Hf E Ho Hn Hb. destruct (entry_widths sh h G K i e E) as [W1 W2]. pose proof (hk_widths _ _ _ K). pose proof (hk_next _ _ _ K). pose proof (hk_total _ _ _ K).
  pose proof (hk_input _ _ _ K). cbn. destruct (read_at sh h G first i e (hm_input h + off) n K Hh Hl Hf E) as [next ->]; [lia..|].
  replace (hm_input h) with (zlen (e_input e)) by lia. by rewrite row_bytes_aggr by lia.
Qed.

Lemma write_aggr_rep sh h G i e off bs :
  hash_rep sh h G -> G !! i = Some e -> 0 <= off -> off + zlen bs <= sh_aggr sh ->
  exists h', vm_write_aggr h (e_row e) off bs = Some h' /\ hash_rep sh h' (<[i := put_bytes e off bs]> G).
Proof.
  intros R E Ho Hb. pose proof (hr_ok _ _ _ R) as K. destruct (entry_widths sh h G K i e E) as [W1 W2].
  pose proof (hk_widths _ _ _ K). pose proof (hk_next _ _ _ K). pose proof (hk_total _ _ _ K). pose proof (hk_input _ _ _ K). pose proof (lookup_lt_Some _ _ _ E).
  cbn. rewrite (hk_numbers _ _ _ K i e E).
  destruct (write_row_spec (hm_store h) 0 (hash_rows h G) (Z.of_nat i) (hm_input h + off) bs (hr_holds _ _ _ R)) as (m & -> & Hh).
  { rewrite <- (h_rows _ _ _ (hr_holds _ _ _ R)), zlen_hash_rows. unfold zlen. lia. }
  { lia. }
  { rewrite (hr_row_len _ _ _ R). lia. }
  cbn [mbind option_bind]. eexists. split; [reflexivity|]. replace (hm_input h) with (zlen (e_input e)) in Hh by lia.
  split; [by apply hash_ok_put| |apply (hr_tight _ _ _ R)|apply (hr_row_len _ _ _ R)|apply (hr_release _ _ _ R)].
  change (holds (with_man (hm_store h) m) 0 (hash_rows h (<[i:=put_bytes e off bs]> G))). rewrite hash_rows_put by (done || lia). done.
Qed.

Lemma clear_ok sh h G : hash_ok sh h G -> hash_ok sh (Hash_Clear h) [].
Proof.
  intros []. destruct hk_mask0 as [Hm Hs]. split; cbn; try done.
  - unfold zlen. cbn. lia.
  - split; [done|]. rewrite zlen_replicate; lia.
  - apply NoDup_nil_2.
  - intros s Hb. apply znth_replicate. lia.
Qed.

Lemma clear_rep sh h G first : hash_ok sh h G -> holds (hm_store h) first (hash_rows h G) -> row_len (hm_store h) = hm_total h -> hash_rep sh (Hash_Clear h) [].
Proof.
  intros K Hh Hl. destruct (Clear_spec junk (hm_store h) first (hash_rows h G) Hh) as (Hc & Ht & Hlc & Hr & _).
  split; [by apply (clear_ok sh h G)|exact Hc|exact Ht|cbn; congruence|exact Hr].
Qed.

Lemma rewind_at sh h G rel : hash_rep sh h G -> hash_at sh (vm_rewind h rel) G rel 0.
Proof.
  intros [K Hh Ht Hl Hr]. pose proof (h_rows _ _ _ Hh) as Hn. rewrite zlen_hash_rows in Hn.
  assert (0 < 2 ^ npower (hm_store h)) by (apply Z.pow_pos_nonneg; [lia|apply (h_power _ _ _ Hh)]).
  split; cbn; try done; [by apply hash_ok_store|lia| |].
  - rewrite <- Hn. unfold zlen. by destruct G.
  - exists 0. split; [by apply holds_iter|]. split; [done|]. intros _. by rewrite Z.div_0_l by lia.
Qed.

(** A step without a block to give back moves only the cursor. *)
Lemma NextRow_step st :
  release st = false \/ current st + 1 = no_rows st ->
  snd (NextRow st) = with_iter st (if current st + 1 =? no_rows st then -1 else current st + 1) (release st) (released_until st).
Proof.
  unfold NextRow. destruct (Z.eqb_spec (current st + 1) (no_rows st)); [done|]. intros [->|]; [|done]. cbn. by rewrite Z.add_0_r.
Qed.

Lemma next_at sh h G rel i : hash_at sh h G rel i -> (i < length G)%nat -> hash_at sh (vm_next h) G rel (S i).
Proof.
  intros [K Hi Hc Hl Hr (first & Hh & Hf & Hb)] Hlt. rewrite bool_decide_true in Hc by done.
  pose proof (h_rows _ _ _ Hh) as Hn. rewrite zlen_hash_rows in Hn. unfold zlen in Hn. specialize (Hb Hlt).
  assert (Hp : 0 < 2 ^ npower (hm_store h)) by (apply Z.pow_pos_nonneg; [lia|apply (h_power _ _ _ Hh)]).
  assert (Hcur : (if current (hm_store h) + 1 =? no_rows (hm_store h) then -1 else current (hm_store h) + 1)
                 = if bool_decide (S i < length G)%nat then Z.of_nat (S i) else -1).
  { rewrite Hc, <- Hn. case_bool_decide; destruct (Z.eqb_spec (Z.of_nat i + 1) (Z.of_nat (length G))); lia. }
  assert (Hmono : Z.of_nat i / 2 ^ npower (hm_store h) <= Z.of_nat (S i) / 2 ^ npower (hm_store h)) by (apply Z.div_le_mono; lia).
  destruct (decide (rel = false \/ current (hm_store h) + 1 = no_rows (hm_store h))) as [Hs|Hs].
  - cbn. rewrite NextRow_step by by rewrite Hr. rewrite Hcur. split; cbn; try done; [by apply hash_ok_store|].
    exists first. split; [by apply holds_iter|]. split; [exact Hf|lia].
  - pose proof (NextRow_spec junk (hm_store h) first (hash_rows h G) Hh) as N. cbn. destruct (NextRow (hm_store h)) as [more st']. cbn [snd].
    destruct (Z.eqb_spec (current (hm_store h) + 1) (no_rows (hm_store h))); [tauto|].
    destruct N as (_ & Ec & Er & El & Ep & _ & first' & Hh' & Hb'); [lia|by rewrite Hc|].
    split; cbn; try congruence; [by apply hash_ok_store|done|].
    exists first'. split; [done|]. split; [tauto|]. intros Hlt'. rewrite Ec, Hcur, bool_decide_true in Hb' by done. done.
Qed.
End Laws.

Lemma at_first sh h G rel i e :
  hash_at sh h G rel i -> G !! i = Some e ->
  exists first, holds (hm_store h) first (hash_rows h G) /\ first * 2 ^ npower (hm_store h) <= Z.of_nat i.
Proof.
  intros [_ _ _ _ _ (first & Hh & _ & Hb)] E. exists first. split; [done|].
  assert (Hp : 0 < 2 ^ npower (hm_store h)) by (apply Z.pow_pos_nonneg; [lia|apply (h_power _ _ _ Hh)]).
  specialize (Hb (lookup_lt_Some _ _ _ E)). pose proof (Z.mul_div_le (Z.of_nat i) (2 ^ npower (hm_store h)) Hp). nia.
Qed.

(** The hash table is a table that matches. *)
#[export] Instance Hash_laws (junk : Z -> list Z) : MatchLaws (MatchTable0 := Hash_MatchTable junk) hash_rep hash_at.
Proof.
  split; cbn.
  - intros sh h G R. apply (hk_rows _ _ _ (hr_ok _ _ _ R)).
  - intros sh h G R. apply (hk_keys _ _ _ (hr_ok _ _ _ R)).
  - intros sh h G buf add e R Hi He Hk. by apply (hash_find_hit junk sh h G).
  - intros sh h G buf R Hi Hno. by apply (find_miss junk sh h G).
  - intros sh h G buf R Hi Hno Hroom. pose proof (hr_ok _ _ _ R) as K.
    assert (Hf : exists h', Hash_FindCurrentRow junk h buf true = Some (false, hm_rows h, h') /\ hash_rep sh h' (G ++ [new_entry sh G buf])).
    { destruct (slot_cases sh h G R buf) as [[E Hnew]|(j & E & Hne & Hj & _)]; [by apply find_add_first|by eapply find_add_next]. }
    destruct Hf as (h' & E & R'). exists h', (hm_rows h), (replicate (Z.to_nat (sh_aggr sh)) 0). rewrite (hk_rows _ _ _ K) in *.
    split_and!; try done; [unfold NULL_VALUE_64; pose proof (zlen_nonneg G); lia|]. apply zlen_replicate. apply (hk_widths _ _ _ K).
  - intros sh h G i e off n R E Ho Hn Hb.
    apply (read_aggr_at junk sh h G 0 i e off n (hr_ok _ _ _ R) (hr_holds _ _ _ R) (hr_row_len _ _ _ R)); lia || done.
  - intros sh h G i e R E. apply (read_group_at junk sh h G 0 i e (hr_ok _ _ _ R) (hr_holds _ _ _ R) (hr_row_len _ _ _ R)); lia || done.
  - intros sh h G i e off bs R E Ho Hb. by apply (write_aggr_rep junk).
  - intros sh h G R. pose proof (hr_ok _ _ _ R) as K. destruct (hk_room _ _ _ K) as [-> _]. by rewrite (hk_rows _ _ _ K).
  - intros sh h G R. apply (clear_rep junk sh h G 0); apply R.
  - intros. by apply (rewind_at junk).
  - intros sh h G rel i [_ _ Hc _ _ _]. unfold GetCurrent. rewrite Hc. case_bool_decide; [|done]. by destruct (Z.eqb_spec (Z.of_nat i) (-1)); [lia|].
  - intros sh h G rel i e [K _ Hc _ _ _] E. unfold GetCurrent. rewrite Hc, bool_decide_true by (by eapply lookup_lt_Some).
    by rewrite (hk_numbers _ _ _ K i e E).
  - intros sh h G rel i e A E. destruct (at_first sh h G rel i e A E) as (first & Hh & Hf).
    apply (read_group_at junk sh h G first i e); apply A || done.
  - intros sh h G rel i e off n A E. destruct (at_first sh h G rel i e A E) as (first & Hh & Hf).
    apply (read_aggr_at junk sh h G first i e off n); apply A || done.
  - intros. by apply (next_at junk).
  - intros sh h G i A. by apply hash_at_rep with i.
  - intros sh h G rel i [K _ _ Hl _ (first & Hh & _)]. by apply (clear_rep junk sh h G first).
Qed.

(** ** Initialization *)

Lemma round_units_range n d :
  0 <= n -> 0 < d -> n <= 2 ^ 130 * one_units * d -> exists k, round_units n d = DFin k /\ 0 <= k /\ k * d <= 2 * n + d.
Proof.
  intros Hn Hd Hb. destruct (round_units_error n d Hd) as (k & -> & B); [by rewrite Z.abs_eq|]. rewrite (Z.abs_eq n) in B by done.
  exists k. split; [done|]. assert (Hl : - d < k * d) by lia. split; [nia|lia].
Qed.

Lemma int_between_range lo hi k : lo <= 0 -> 0 <= k < hi * one_units -> exists z, int_between lo hi (DFin k) = Some z /\ 0 <= z < hi.
Proof.
  intros Hlo Hk. pose proof one_units_pos. unfold int_between. rewrite Z.quot_div_nonneg by lia.
  assert (0 <= k / one_units < hi) by (split; [apply Z.div_pos; lia|apply Z.div_lt_upper_bound; lia]).
  exists (k / one_units). by rewrite (proj2 (andb_true_iff _ _)) by lia.
Qed.

Definition units_1_2 : Z := (2 ^ 52 + 0x3333333333333) * 2 ^ 1022.

Lemma double_1_2_units : double_1_2 = DFin units_1_2.
Proof. vm_compute. reflexivity. Qed.

Lemma units_1_2_bound : 0 <= units_1_2 <= 2 * one_units.
Proof. split; apply Z.leb_le; vm_compute; reflexivity. Qed.

Lemma position_mask_ok n : 0 <= n -> exists m, position_mask n = Some m /\ 0 <= m.
Proof.
  intros Hn. unfold position_mask. destruct (Z.ltb_spec 100000000 n); [by eexists|]. pose proof one_units_pos. pose proof units_1_2_bound.
  rewrite double_of_int_small, double_1_2_units by lia. cbn [dmul].
  destruct (round_units_range (n * one_units * units_1_2) one_units) as (k & -> & Hk0 & Hk); [nia|lia| |].
  { assert (n * one_units * units_1_2 <= 100000000 * one_units * (2 * one_units)) by (apply Z.mul_le_mono_nonneg; nia). nia. }
  destruct (int_between_range 0 (2 ^ 32) k) as (z & -> & Hz); [lia| |].
  { split; [done|]. assert (k <= 2 * (n * units_1_2) + 1) by nia. assert (n * units_1_2 <= 100000000 * (2 * one_units)) by (apply Z.mul_le_mono_nonneg; lia). lia. }
  cbn [mbind option_bind]. eexists. split; [done|]. rewrite CalculateBinSize_spec by done.
  pose proof (bitlen_nonneg z). rewrite Z.shiftl_mul_pow2 by done.
  pose proof (Z.pow_pos_nonneg 2 (bitlen z)). lia.
Qed.

Lemma split_positions_ok mem total : 0 <= mem < 2 ^ 61 -> 4 <= total < 2 ^ 52 -> exists n, split_positions mem total = Some n /\ 0 <= n.
Proof.
  intros Hm Ht. unfold split_positions. pose proof one_units_pos.
  destruct (dmul_int_approximates mem 4) as (k & -> & Hk); [lia..|]. rewrite double_of_int_small by lia. cbn [ddiv].
  destruct (Z.eqb_spec ((total + 4) * one_units) 0); [lia|]. rewrite Z.sgn_pos, Z.abs_eq by lia. rewrite (Z.abs_eq (mem * 4)) in Hk by lia.
  assert (Hk0 : 0 <= k <= 2 * (mem * 4 * one_units)) by lia.
  destruct (round_units_range (1 * k * one_units) ((total + 4) * one_units)) as (q & -> & Hq0 & Hq); [nia|lia| |].
  { assert (k <= 2 ^ 130 * one_units) by nia. nia. }
  destruct (int_between_range (- 2 ^ 63) (2 ^ 63) q) as (z & -> & Hz); [lia| |].
  { split; [done|]. assert (q * (total + 4) <= 2 * k + (total + 4)) by nia. assert (8 * q <= q * (total + 4)) by nia.
    assert (q * (total + 4) <= 2 * k + (total + 4)) by done. nia. }
  cbn [mbind option_bind]. eexists. split; [done|]. apply Z.quot_pos; lia.
Qed.

(** The shape of a hash table; the row numbers have 32 bits. *)
Definition hash_shape (max_groups total_width input_width match_width : Z) : table_shape :=
  mkShape match_width input_width (4 * ((total_width + 3) / 4) - input_width) (fun _ => True) (Z.min max_groups 2000000000).

(** The positions leave some of the memory to the rows. *)
Definition positions_fit (mem max_groups total_width : Z) : Prop :=
  match hash_mask mem max_groups (row_width total_width) with Some mask => 4 * (mask + 1) < mem | None => True end.

Lemma row_width_bounds w : 0 <= w < 2 ^ 31 - 8 -> w + 4 <= row_width w < 2 ^ 31.
Proof. intros Hw. unfold row_width. pose proof (Z.div_mod (w + 3) 4). pose proof (Z.mod_pos_bound (w + 3) 4). lia. Qed.

Lemma hash_mask_ok mem max_groups total : 0 <= mem < 2 ^ 61 -> 0 <= max_groups -> 4 <= total < 2 ^ 52 ->
  exists mask, hash_mask mem max_groups total = Some mask /\ 0 <= mask.
Proof.
  intros Hmem Hg Ht. unfold hash_mask. set (r := if fits_memory _ _ _ then _ else _).
  assert (exists m, r = Some m /\ 0 <= m) as (m & -> & Hm).
  { unfold r. destruct (fits_memory _ _ _); [by apply position_mask_ok|]. destruct (split_positions_ok mem total) as (n & -> & Hn); [lia..|].
    cbn [mbind option_bind]. by apply position_mask_ok. }
  cbn [mbind option_bind]. eexists. split; [done|]. case_cmp; lia.
Qed.

Lemma min_block_len_bounds mem rows total : 0 <= rows -> 0 <= total -> 0 <= min_block_len mem rows total <= 2 ^ 24.
Proof. intros Hr Ht. unfold min_block_len, MBYTE, GBYTE. destruct (_ && _); [lia|]. case_cmp; nia. Qed.

Lemma Hash_Init_spec junk mem max_groups total_width input_width match_width :
  0 <= mem < 2 ^ 61 -> 0 <= max_groups < 2 ^ 63 -> 0 <= match_width <= input_width -> 0 < input_width <= total_width /\ total_width < 2 ^ 31 - 8 ->
  positions_fit mem max_groups total_width ->
  exists h, Hash_Init junk mem max_groups total_width input_width match_width = Some h
            /\ hash_rep (hash_shape max_groups total_width input_width match_width) h [].
Proof.
  intros Hmem Hg Hm Hi Hfit. unfold Hash_Init, positions_fit in *. destruct (Z.leb_spec input_width 0); [lia|]. destruct (row_width_bounds total_width) as [W1 W2]; [lia|]. cbv zeta.
  destruct (hash_mask_ok mem max_groups (row_width total_width)) as (mask & Em & Hm0); [lia..|]. rewrite Em in Hfit |- *. cbn [mbind option_bind].
  set (rows := if 2000000000 <? max_groups then _ else _).
  assert (Hrows : fst rows = Z.min max_groups 2000000000) by (unfold rows; case_cmp; cbn; lia). destruct rows as [rows p]. cbn [fst] in Hrows.
  destruct (Z.leb_spec (mem - (mask + 1) * 4) 0); [lia|]. set (len := min_block_len _ _ _).
  assert (0 <= len <= 2 ^ 24) by (apply min_block_len_bounds; lia). rewrite swrap_id by (unfold is_sword; lia).
  destruct (Storage_Init_spec junk (row_width total_width) (MemBlockManager_new (mem - (mask + 1) * 4) 1 (4 * MBYTE) (-1)) len)
    as (st & -> & Hh & _ & Hl & _); [done|split; lia|].
  cbn [mbind option_bind]. eexists. split; [reflexivity|].
  destruct (Clear_spec junk st 0 [] Hh) as (Hc & Htc & Hlc & Hrc & _). split; [|exact Hc|exact Htc|cbn; congruence|exact Hrc].
  unfold row_width in *. split; cbn; try done; try lia.
  - unfold zlen. cbn. lia.
  - rewrite zlen_replicate; lia.
  - apply NoDup_nil_2.
  - intros s Hs. apply znth_replicate. lia.
Qed.

(** ** What is proved *)

(** The number of a key among the keys seen so far, in the order in which they were first seen. *)
Fixpoint index_of (k : list Z) (seen : list (list Z)) (i : nat) : option nat :=
  match seen with
  | [] => None
  | x :: seen => if bool_decide (x = k) then Some i else index_of k seen (S i)
  end.

Fixpoint number_keys (seen ks : list (list Z)) : list (bool * Z) :=
  match ks with
  | [] => []
  | k :: ks =>
      match index_of k seen 0 with
      | Some i => (true, Z.of_nat i) :: number_keys seen ks
      | None => (false, zlen seen) :: number_keys (seen ++ [k]) ks
      end
  end.

(** The first input with each key that was not seen before. *)
Fixpoint first_inputs (sh : table_shape) (seen : list (list Z)) (bufs : list (list Z)) : list (list Z) :=
  match bufs with
  | [] => []
  | b :: bufs => if bool_decide (key sh b ∈ seen) then first_inputs sh seen bufs else b :: first_inputs sh (seen ++ [key sh b]) bufs
  end.

Fixpoint find_all (junk : Z -> list Z) (h : HashTable) (bufs : list (list Z)) : option (list (bool * Z) * HashTable) :=
  match bufs with
  | [] => Some ([], h)
  | b :: bufs =>
      '(found, row, h) ← Hash_FindCurrentRow junk h b true;
      '(rs, h) ← find_all junk h bufs;
      Some ((found : bool, row) :: rs, h)
  end.

Lemma index_of_spec k seen i :
  match index_of k seen i with
  | Some j => exists n, j = (i + n)%nat /\ seen !! n = Some k
  | None => k ∉ seen
  end.
Proof.
  revert i. induction seen as [|x seen IH]; intros i; cbn [index_of]; [apply not_elem_of_nil|]. case_bool_decide as E.
  - exists O. subst. split; [lia|done].
  - specialize (IH (S i)). destruct (index_of k seen (S i)).
    + destruct IH as (m & -> & Em). exists (S m). split; [lia|done].
    + by apply not_elem_of_cons.
Qed.

Lemma find_all_from junk sh h G bufs :
  hash_rep sh h G -> Forall (input_ok sh) bufs ->
  zlen G + zlen (first_inputs sh (map (fun e => key sh (e_input e)) G) bufs) <= sh_room sh ->
  exists h' G', find_all junk h bufs = Some (number_keys (map (fun e => key sh (e_input e)) G) (map (key sh) bufs), h')
    /\ hash_rep sh h' (G ++ G') /\ map e_input G' = first_inputs sh (map (fun e => key sh (e_input e)) G) bufs.
Proof.
  revert h G. induction bufs as [|b bufs IH]; intros h G R Hb Hroom.
  { exists h, []. by rewrite app_nil_r. }
  apply Forall_cons in Hb as [Hb Hbs]. cbn [find_all first_inputs map number_keys] in *. set (keys := map (fun e => key sh (e_input e)) G) in *.
  pose proof (index_of_spec (key sh b) keys 0) as Hi. destruct (index_of (key sh b) keys 0) as [j|].
  - destruct Hi as (n & -> & En). cbn [Nat.add]. unfold keys in En. apply list_lookup_fmap_Some in En as (e & Ek & Ee).
    rewrite bool_decide_true in Hroom |- * by (apply list_elem_of_fmap; exists e; split; [done|by eapply list_elem_of_lookup_2]).
    rewrite (hash_find_hit junk sh h G R b true e) by (done || by eapply list_elem_of_lookup_2). cbn [mbind option_bind].
    destruct (IH h G R Hbs Hroom) as (h' & G' & -> & R' & Em). exists h', G'. split_and!; try done. cbn [mbind option_bind].
    by rewrite (hk_numbers _ _ _ (hr_ok _ _ _ R) n e Ee).
  - assert (Hno : forall e, e ∈ G -> key sh (e_input e) <> key sh b).
    { intros e He Ek. apply Hi. apply list_elem_of_fmap. by exists e. }
    rewrite bool_decide_false in Hroom |- * by done. assert (Hr : zlen G < sh_room sh) by (unfold zlen in *; cbn [length] in *; lia).
    assert (Hf : exists h', Hash_FindCurrentRow junk h b true = Some (false, hm_rows h, h') /\ hash_rep sh h' (G ++ [new_entry sh G b])).
    { destruct (slot_cases sh h G R b) as [[E Hnew]|(j & E & Hne & Hj & _)]; [by apply find_add_first|by eapply find_add_next]. }
    destruct Hf as (h1 & -> & R1). cbn [mbind option_bind].
    assert (Em : map (fun e => key sh (e_input e)) (G ++ [new_entry sh G b]) = keys ++ [key sh b]) by by rewrite map_app.
    destruct (IH h1 (G ++ [new_entry sh G b]) R1 Hbs) as (h' & G' & -> & R' & Em').
    { rewrite Em, zlen_snoc. unfold zlen in *. cbn [length] in *. lia. }
    exists h', (new_entry sh G b :: G'). rewrite Em in *. cbn [mbind option_bind map e_input new_entry]. rewrite Em'.
    rewrite <- app_assoc in R'. split_and!; try done. rewrite (hk_rows _ _ _ (hr_ok _ _ _ R)). unfold keys, zlen. by rewrite length_map.
Qed.

Lemma zlen_map {A B : Type} (f : A -> B) l : zlen (map f l) = zlen l.
Proof. unfold zlen. by rewrite length_map. Qed.

Lemma map_rows sh h G : hash_ok sh h G -> map e_row G = seqZ 0 (zlen G).
Proof.
  intros K. apply list_eq. intros i. rewrite list_lookup_fmap. destruct (G !! i) as [e|] eqn:E; cbn.
  - rewrite (hk_numbers _ _ _ K i e E). symmetry. apply lookup_seqZ. apply lookup_lt_Some in E. unfold zlen. lia.
  - symmetry. apply lookup_seqZ_ge. apply lookup_ge_None in E. unfold zlen. lia.
Qed.

Lemma length_first_inputs sh seen bufs : (length (first_inputs sh seen bufs) <= length bufs)%nat.
Proof.
  revert seen. induction bufs as [|b bufs IH]; intros seen; cbn [first_inputs length]; [lia|].
  case_bool_decide; cbn [length]; [specialize (IH seen)|specialize (IH (seen ++ [key sh b]))]; lia.
Qed.

(** C24: the hash table numbers the groups.  For every number of groups, memory that has room for the
    table of positions ([positions_fit]), and widths that are [int]s, a table is made.  If there are
    no more groups than it was made for, and than 2000000000, looking up a sequence of inputs, with new ones added, answers for each whether an input
    with the same key came before and gives inputs with the same key the same number, new keys the
    next one; and a visit of the rows, with or without giving their memory back, sees each key once,
    in the order of the numbers, with its first input.  The lookup ends, and no access leaves the
    memory, whatever the hash function and the contents of fresh memory are. *)
Theorem HashTable_groups (junk : Z -> list Z) (mem max_groups total_width input_width match_width : Z) (bufs : list (list Z)) (rel : bool) :
  0 <= mem < 2 ^ 61 -> 0 <= max_groups < 2 ^ 63 -> 0 <= match_width <= input_width -> 0 < input_width <= total_width /\ total_width < 2 ^ 31 - 8 ->
  positions_fit mem max_groups total_width ->
  let sh := hash_shape max_groups total_width input_width match_width in
  Forall (input_ok sh) bufs -> zlen (first_inputs sh [] bufs) <= Z.min max_groups 2000000000 ->
  exists h0 h, Hash_Init junk mem max_groups total_width input_width match_width = Some h0
    /\ find_all junk h0 bufs = Some (number_keys [] (map (key sh) bufs), h)
    /\ @visit _ (Hash_MatchTable junk) (length bufs) (vm_rewind (MatchTable := Hash_MatchTable junk) h rel)
       = Some (seqZ 0 (zlen (first_inputs sh [] bufs)))
    /\ forall i b, first_inputs sh [] bufs !! i = Some b -> vm_read_group (MatchTable := Hash_MatchTable junk) h (Z.of_nat i) = Some b.
Proof.
  intros Hm Hg Hw Ht Hfit sh Hb Hroom. destruct (Hash_Init_spec junk mem max_groups total_width input_width match_width Hm Hg Hw Ht Hfit) as (h0 & E0 & R0).
  fold sh in R0. destruct (find_all_from junk sh h0 [] bufs R0 Hb) as (h & G & E & R & Em); [cbn [map]; unfold zlen at 1; cbn [length]; exact Hroom|].
  cbn [app map] in E, R, Em. exists h0, h. split_and!; try done.
  - rewrite (visit_rows (MatchTable0 := Hash_MatchTable junk) hash_rep hash_at (length bufs) sh _ G rel 0).
    + by rewrite drop_0, (map_rows sh h G (hr_ok _ _ _ R)), <- Em, zlen_map.
    + by apply (law_rewind (MatchTable0 := Hash_MatchTable junk) (rep := hash_rep)).
    + apply (f_equal length) in Em. rewrite length_map in Em. pose proof (length_first_inputs sh [] bufs). lia.
  - intros i b Hib. rewrite <- Em in Hib. apply list_lookup_fmap_Some in Hib as (e & -> & Ee).
    rewrite <- (hk_numbers _ _ _ (hr_ok _ _ _ R) i e Ee). by apply (law_group (MatchTable0 := Hash_MatchTable junk) (rep := hash_rep) sh h G i).
Qed.

Example HashTable_groups_witness :
  let sh := hash_shape 10 9 4 2 in
  let bufs := [[1; 2; 3; 4]; [2; 2; 3; 4]; [1; 2; 9; 9]] in
  exists h0 h, Hash_Init (fun _ => []) 10000 10 9 4 2 = Some h0
    /\ find_all (fun _ => []) h0 bufs = Some ([(false, 0); (false, 1); (true, 0)], h)
    /\ @visit _ (Hash_MatchTable (fun _ => [])) 3 (vm_rewind (MatchTable := Hash_MatchTable (fun _ => [])) h true) = Some [0; 1]
    /\ forall i b, first_inputs sh [] bufs !! i = Some b -> vm_read_group (MatchTable := Hash_MatchTable (fun _ => [])) h (Z.of_nat i) = Some b.
Proof.
  apply (HashTable_groups (fun _ => []) 10000 10 9 4 2 [[1; 2; 3; 4]; [2; 2; 3; 4]; [1; 2; 9; 9]] true); try lia.
  - vm_compute. reflexivity.
  - repeat constructor; lia.
  - vm_compute. discriminate.
Defined.
