(* ===== verification/MatchSimple.v ===== *)
(** * The tables of few groups (core/ValueMatchingTable.h, core/ValueMatchingTable.cpp)

    [ValueMatching_OnePosition] has one row, for a query without grouping columns;
    [ValueMatching_LookupTable] takes the bytes of the key as the number of the row and keeps a
    filter of the rows that are in use.  Both are instances of the interface of MatchTable.

    The contents of fresh memory are arguments.  Copies, and the sizes that are reported to the
    memory manager, change no table and are left out. *)

From stdpp Require Import option sets.
From S2P Require Import Prelude BinTools ByteFile FilterBlock FilterDefs FilterCore FilterRefine MatchTable.

(** ** class ValueMatching_OnePosition *)

Record OnePosition := mkOne { one_total : Z; one_rows : Z; one_aggr : list Z; one_valid : bool }.

Definition One_Init (junk : list Z) (total_width : Z) : OnePosition :=
  mkOne total_width 0 (resize (Z.to_nat total_width) 0 junk) false.

Definition One_Clear (t : OnePosition) : OnePosition := mkOne (one_total t) 0 (replicate (Z.to_nat (one_total t)) 0) (one_valid t).

Definition One_FindCurrentRow (t : OnePosition) (buf : list Z) (add : bool) : option (bool * Z * OnePosition) :=
  if one_rows t =? 1 then Some (true, 0, t)
  else if negb add then Some (false, NULL_VALUE_64, t)
  else Some (false, 0, mkOne (one_total t) 1 (one_aggr t) (one_valid t)).

(** There is no grouping row: nothing is read through the null pointer. *)
#[export] Instance One_MatchTable : MatchTable OnePosition := {|
  vm_rows := one_rows;
  vm_find := One_FindCurrentRow;
  vm_read_group := fun _ _ => Some [];
  vm_read_aggr := fun t _ off n => bytes_at (one_aggr t) off n;
  vm_write_aggr := fun t _ off bs => a ← put_at (one_aggr t) off bs; Some (mkOne (one_total t) (one_rows t) a (one_valid t));
  vm_full := fun t => 0 <? one_rows t;
  vm_clear := One_Clear;
  vm_rewind := fun t _ => mkOne (one_total t) (one_rows t) (one_aggr t) (0 <? one_rows t);
  vm_valid := one_valid;
  vm_current := fun _ => Some 0;
  vm_next := fun t => mkOne (one_total t) (one_rows t) (one_aggr t) false
|}.

Definition One_ByteSize (t : OnePosition) : Z := one_total t.

(** ** class ValueMatching_LookupTable *)

Record LookupTable := mkLookup {
  lk_total : Z;
  lk_match : Z;
  lk_input : Z;
  lk_rows : Z;
  lk_max : Z;
  lk_bytes : list Z;               (* t *)
  lk_occupied : Filter;
  lk_table : list Z;               (* occupied_table *)
  lk_iter : Z
}.

Definition lk_with (t : LookupTable) (rows : Z) (bytes : list Z) (occupied : Filter) (table : list Z) (iter : Z) : LookupTable :=
  mkLookup (lk_total t) (lk_match t) (lk_input t) rows (lk_max t) bytes occupied table iter.

Definition Lookup_Clear (t : LookupTable) : LookupTable :=
  lk_with t 0 (replicate (Z.to_nat (lk_total t * lk_max t)) 0) (Reset_all (lk_occupied t)) (lk_table t) (lk_iter t).

Definition Lookup_Init (junk_t junk_table : list Z) (max_group_code total_width input_width match_width : Z) : option LookupTable :=
  let max := max_group_code + 1 in
  f ← Filter_new max false;
  Some (Lookup_Clear (mkLookup total_width match_width input_width 0 max (resize (Z.to_nat (total_width * max)) 0 junk_t) f
                               (resize (Z.to_nat max) 0 junk_table) 0)).

Definition Lookup_FindCurrentRow (t : LookupTable) (buf : list Z) (add : bool) : option (bool * Z * LookupTable) :=
  if 8 <? lk_match t then None
  else
    let row := swrap 64 (of_le (slice buf 0 (lk_match t))) in
    if negb ((0 <=? row) && (row <? lk_max t)) then None
    else
      found ← Get_row (lk_occupied t) row;
      if (found : bool) then Some (true, row, t)
      else if negb add then Some (false, NULL_VALUE_64, t)
      else
        bytes ← put_at (lk_bytes t) (row * lk_total t) (slice buf 0 (lk_input t));
        occupied ← Set_bn (lk_occupied t) (Z.shiftr row 16) (Z.land row 65535);
        if (0 <=? lk_rows t) && (lk_rows t <? zlen (lk_table t)) then
          Some (false, row, lk_with t (lk_rows t + 1) bytes occupied (lk_table t).[lk_rows t <- swrap 32 row] (lk_iter t))
        else None.

Definition Lookup_ByteSize (t : LookupTable) : Z := (lk_total t + 4) * lk_max t.

#[export] Instance Lookup_MatchTable : MatchTable LookupTable := {|
  vm_rows := lk_rows;
  vm_find := Lookup_FindCurrentRow;
  vm_read_group := fun t row => bytes_at (lk_bytes t) (row * lk_total t) (lk_input t);
  vm_read_aggr := fun t row off n => bytes_at (lk_bytes t) (row * lk_total t + (lk_input t + off)) n;
  vm_write_aggr := fun t row off bs =>
    bytes ← put_at (lk_bytes t) (row * lk_total t + (lk_input t + off)) bs;
    Some (lk_with t (lk_rows t) bytes (lk_occupied t) (lk_table t) (lk_iter t));
  vm_full := fun t => lk_max t <=? lk_rows t;
  vm_clear := Lookup_Clear;
  vm_rewind := fun t _ => lk_with t (lk_rows t) (lk_bytes t) (lk_occupied t) (lk_table t) 0;
  vm_valid := fun t => lk_iter t <? lk_rows t;
  vm_current := fun t => if (0 <=? lk_iter t) && (lk_iter t <? zlen (lk_table t)) then Some ((lk_table t).[0|lk_iter t]) else None;
  vm_next := fun t => lk_with t (lk_rows t) (lk_bytes t) (lk_occupied t) (lk_table t) (lk_iter t + 1)
|}.

(** ** One position *)

Definition one_shape (total_width : Z) : table_shape := mkShape 0 0 total_width (fun _ => True) 1.

Record one_rep (sh : table_shape) (t : OnePosition) (G : list entry) : Prop := {
  or_shape : sh_match sh = 0 /\ sh_input sh = 0 /\ sh_room sh = 1 /\ one_total t = sh_aggr sh /\ 0 <= sh_aggr sh;
  or_len : zlen (one_aggr t) = sh_aggr sh;
  or_rows : (one_rows t = 0 /\ G = []) \/ (one_rows t = 1 /\ G = [mkEntry 0 [] (one_aggr t)])
}.

Definition one_at (sh : table_shape) (t : OnePosition) (G : list entry) (rel : bool) (i : nat) : Prop :=
  one_rep sh t G /\ (i <= length G)%nat /\ one_valid t = bool_decide (i < length G)%nat.

Lemma one_key sh t G buf : one_rep sh t G -> key sh buf = [].
Proof. intros [(E & _) _ _]. unfold key. rewrite E. unfold slice. by rewrite take_0. Qed.

Lemma one_lookup (e e' : entry) i : [e] !! i = Some e' -> i = 0%nat /\ e' = e.
Proof. intros H. by apply list_lookup_singleton_Some in H as [-> ->]. Qed.

Lemma one_read sh t G i e off n :
  one_rep sh t G -> G !! i = Some e -> 0 <= off -> 0 <= n -> off + n <= sh_aggr sh ->
  bytes_at (one_aggr t) off n = Some (slice (e_aggr e) off n).
Proof.
  intros [_ Hl [[_ ->]|[_ ->]]] E; [done|]. apply one_lookup in E as [-> ->]. intros. cbn. apply bytes_at_in; lia.
Qed.

#[export] Instance One_laws : MatchLaws one_rep one_at.
Proof.
  split; cbn.
  - by intros sh t G [_ _ [[-> ->]|[-> ->]]].
  - intros sh t G [_ _ [[_ ->]|[_ ->]]]; cbn; [apply NoDup_nil_2|apply NoDup_singleton].
  - intros sh t G buf add e [_ _ [[_ ->]|[E ->]]] _ He _; [by apply elem_of_nil in He|]. apply list_elem_of_singleton in He as ->.
    unfold One_FindCurrentRow. by rewrite E.
  - intros sh t G buf R _ Hno. destruct R as [? ? [[E ->]|[E ->]]] eqn:HR.
    + unfold One_FindCurrentRow. by rewrite E.
    + exfalso. apply (Hno (mkEntry 0 [] (one_aggr t))); [by apply list_elem_of_singleton|]. by rewrite !(one_key sh t _ _ R).
  - intros sh t G buf R (Hb & _) Hno Hroom. destruct R as [Hs Hl [[E ->]|[E ->]]].
    + exists (mkOne (one_total t) 1 (one_aggr t) (one_valid t)), 0, (one_aggr t). unfold One_FindCurrentRow. rewrite E. split_and!; try done.
      assert (buf = []) as -> by (apply nil_length_inv; unfold zlen in Hb; lia). split; [done|done|by right].
    + unfold zlen in Hroom. cbn in Hroom. lia.
  - intros sh t G i e off n R E Ho Hn Hb. by apply (one_read sh t G i).
  - intros sh t G i e [_ _ [[_ ->]|[_ ->]]] E; [done|]. by apply one_lookup in E as [_ ->].
  - intros sh t G i e off bs R E Ho Hb. destruct R as [Hs Hl [[E' ->]|[E' ->]]]; [done|]. apply one_lookup in E as [-> ->].
    rewrite put_at_in by lia. eexists. split; [reflexivity|]. pose proof (zlen_nonneg bs). split; cbn; [done|rewrite zlen_overwrite; lia|by right].
  - intros sh t G [(_ & _ & -> & _) _ [[-> ->]|[-> ->]]]; done.
  - intros sh t G [Hs Hl _]. split; cbn; [done| |by left]. rewrite zlen_replicate; lia.
  - intros sh t G rel [Hs Hl Hr]. split_and!; [by split|lia|]. by destruct Hr as [[-> ->]|[-> ->]].
  - by intros sh t G rel i (_ & _ & ->).
  - intros sh t G rel i e ([_ _ [[_ ->]|[_ ->]]] & _) E; [done|]. by apply one_lookup in E as [_ ->].
  - intros sh t G rel i e ([_ _ [[_ ->]|[_ ->]]] & _) E; [done|]. by apply one_lookup in E as [_ ->].
  - intros sh t G rel i e off n (R & _) E Ho Hn Hb. by apply (one_read sh t G i).
  - intros sh t G rel i ([Hs Hl Hr] & Hi & _) Hlt. split_and!; [by split|lia|]. cbn. symmetry. apply bool_decide_eq_false_2.
    destruct Hr as [[_ ->]|[_ ->]]; cbn in *; lia.
  - by intros sh t G i (R & _).
  - intros sh t G rel i ([Hs Hl _] & _). split; cbn; [done| |by left]. rewrite zlen_replicate; lia.
Qed.

Lemma One_Init_spec junk total_width :
  0 <= total_width -> one_rep (one_shape total_width) (One_Init junk total_width) [].
Proof. intros Ht. split; cbn; [done| |by left]. unfold zlen. rewrite length_resize. lia. Qed.

(** ** The filter of the rows in use, cleared *)

Lemma Reset_all_fields f :
  no_blocks (Reset_all f) = no_blocks f /\ no_of_bits_in_last_block (Reset_all f) = no_of_bits_in_last_block f.
Proof.
  unfold Reset_all. set (g := mkFilter _ _ _ _ _ _ _ _ _ _ _).
  assert (H : forall l f0, no_blocks (foldl (fun f b => match blk f b with Some _ => DeleteBlock f b | None => f end) f0 l) = no_blocks f0
     /\ no_of_bits_in_last_block (foldl (fun f b => match blk f b with Some _ => DeleteBlock f b | None => f end) f0 l) = no_of_bits_in_last_block f0).
  { induction l as [|b l IH]; intros f0; [done|]. cbn [foldl]. destruct (IH (match blk f0 b with Some _ => DeleteBlock f0 b | None => f0 end)) as [-> ->].
    by destruct (blk f0 b). }
  destruct (H (range 0 (no_blocks g - 1)) g) as [H1 H2]. unfold mark_all, set_delayed. by case_match.
Qed.

(** What the loop over the blocks keeps, and what it has done before block [i]. *)
Record cleared (f : Filter) (i : Z) (g : Filter) : Prop := {
  cl_nb : no_blocks g = no_blocks f;
  cl_bits : no_of_bits_in_last_block g = no_of_bits_in_last_block f;
  cl_stat : block_status g = map (fun _ => FB_EMPTY) (block_status f);
  cl_blk : zlen (blocks g) = zlen (blocks f);
  cl_lst : block_last_one g = block_last_one f;
  cl_chg : was_block_changed g = was_block_changed f;
  cl_track : track_changes g = track_changes f;
  cl_none : forall b, 0 <= b < i -> blk g b = None
}.

Lemma Reset_all_denotes f F : fdenotes f F -> fdenotes (Reset_all f) (fun _ => false) /\ NoObj (Reset_all f) = NoObj f.
Proof.
  intros [Hf _]. destruct (Reset_all_fields f) as [En Eb]. split; [|unfold NoObj; by rewrite En, Eb].
  unfold Reset_all in *. set (f0 := mkFilter _ _ _ _ _ _ _ _ _ _ _) in *. change (no_blocks f0) with (no_blocks f) in *.
  set (step := fun f b => match blk f b with Some _ => DeleteBlock f b | None => f end) in *.
  pose proof (sh_nb f Hf) as Hnb. pose proof (sh_blk f Hf) as Hbl.
  assert (Hc : cleared f (no_blocks f - 1 + 1) (foldl step f0 (range 0 (no_blocks f - 1)))).
  { apply foldl_range; [lia|by split; cbn; try done; intros; lia|]. intros i g Hi [c1 c2 c3 c4 c5 c6 c7 c8]. unfold step.
    destruct (blk g i) eqn:Eg.
    - split; cbn; try done; [by rewrite zlen_zupd|]. intros c Hc. unfold blk, DeleteBlock, set_blk. cbn. rewrite znth_zupd by lia.
      destruct (Z.eqb_spec c i); [done|]. apply c8. lia.
    - split; try done. intros c Hc. destruct (Z.eq_dec c i) as [->|]; [done|]. apply c8. lia. }
  set (g := foldl step f0 _) in *. destruct Hc as [c1 c2 c3 c4 c5 c6 c7 c8]. clearbody g.
  assert (Hm : forall h, h = mark_all (set_delayed g (-1) (delayed_block g) (delayed_stats_set g) (delayed_block_set g)) ->
    no_blocks h = no_blocks f /\ no_of_bits_in_last_block h = no_of_bits_in_last_block f /\ block_status h = block_status g
    /\ blocks h = blocks g /\ block_last_one h = block_last_one f /\ track_changes h = track_changes f
    /\ length (was_block_changed h) = length (was_block_changed f)).
  { intros h ->. unfold mark_all, set_delayed. cbn. destruct (track_changes g) eqn:Et; cbn; rewrite ?length_map; split_and!; congruence. }
  set (h := mark_all _) in *. destruct (Hm h eq_refl) as (e1 & e2 & e3 & e4 & e5 & e6 & e7). clearbody h. destruct Hf. split.
  - split; rewrite ?e1, ?e2, ?e3, ?e4, ?e5, ?e6, ?c3; try done; [unfold zlen in *; by rewrite length_map|congruence|].
    intros Ht. unfold zlen in *. rewrite e7. auto.
  - intros b Hb. unfold in_packs in Hb. rewrite e1 in Hb. unfold pack_denotes, stat, blk, lst. rewrite e3, e4, c3.
    assert (Es : (map (fun _ => FB_EMPTY) (block_status f)).[FB_EMPTY|b] = FB_EMPTY).
    { unfold znth. destruct (b <? 0); [done|]. rewrite nth_lookup, list_lookup_fmap. by destruct (block_status f !! Z.to_nat b). }
    rewrite Es. split; [|done]. apply c8. lia.
Qed.

(** ** The lookup table *)

Definition code (sh : table_shape) (buf : list Z) : Z := of_le (key sh buf).

Record lookup_rep (sh : table_shape) (t : LookupTable) (G : list entry) : Prop := {
  lr_match : lk_match t = sh_match sh /\ 0 <= sh_match sh <= 8 /\ sh_match sh <= sh_input sh;
  lr_input : lk_input t = sh_input sh /\ 0 <= sh_aggr sh;
  lr_total : lk_total t = sh_input sh + sh_aggr sh;
  lr_max : lk_max t = sh_room sh /\ 0 <= sh_room sh <= 2 ^ 31;
  lr_key : forall buf, sh_key sh buf <-> code sh buf < sh_room sh;
  lr_bytes : zlen (lk_bytes t) = lk_total t * lk_max t;
  lr_rows : lk_rows t = zlen G;
  lr_table : zlen (lk_table t) = lk_max t /\ forall i e, G !! i = Some e -> (lk_table t).[0|Z.of_nat i] = e_row e;
  lr_occupied : fdenotes (lk_occupied t) (fun r => bool_decide (r ∈ map e_row G)) /\ NoObj (lk_occupied t) = lk_max t;
  lr_entries : forall e, e ∈ G -> input_ok sh (e_input e) /\ zlen (e_aggr e) = sh_aggr sh /\ e_row e = code sh (e_input e)
                 /\ slice (lk_bytes t) (e_row e * lk_total t) (lk_total t) = e_input e ++ e_aggr e;
  lr_NoDup : NoDup (map e_row G);
  lr_few : zlen G <= sh_room sh
}.

Definition lookup_at (sh : table_shape) (t : LookupTable) (G : list entry) (rel : bool) (i : nat) : Prop :=
  lookup_rep sh t G /\ (i <= length G)%nat /\ lk_iter t = Z.of_nat i.

Section Lookup.
Context (sh : table_shape) (t : LookupTable) (G : list entry) (R : lookup_rep sh t G).

Lemma code_bound buf : input_ok sh buf -> 0 <= code sh buf < lk_max t.
Proof using R.
  intros (Hl & Hb & Hk). apply (lr_key _ _ _ R) in Hk. destruct (lr_max _ _ _ R) as [-> _]. split; [|done].
  unfold code. by apply of_le_bound, Forall_slice.
Qed.

Lemma code_inj b1 b2 : input_ok sh b1 -> input_ok sh b2 -> code sh b1 = code sh b2 -> key sh b1 = key sh b2.
Proof using R.
  intros (H1 & F1 & _) (H2 & F2 & _) E. destruct (lr_match _ _ _ R) as (_ & ? & ?).
  apply of_le_inj; [by apply Forall_slice|by apply Forall_slice| |done]. unfold key. rewrite !zlen_slice; lia.
Qed.

Lemma find_code buf add :
  input_ok sh buf ->
  Lookup_FindCurrentRow t buf add =
    if bool_decide (code sh buf ∈ map e_row G) then Some (true, code sh buf, t)
    else if negb add then Some (false, NULL_VALUE_64, t)
    else
      bytes ← put_at (lk_bytes t) (code sh buf * lk_total t) (slice buf 0 (lk_input t));
      occupied ← Set_bn (lk_occupied t) (Z.shiftr (code sh buf) 16) (Z.land (code sh buf) 65535);
      if (0 <=? lk_rows t) && (lk_rows t <? zlen (lk_table t)) then
        Some (false, code sh buf, lk_with t (lk_rows t + 1) bytes occupied (lk_table t).[lk_rows t <- code sh buf] (lk_iter t))
      else None.
Proof using R.
  intros Hb. pose proof (code_bound buf Hb) as Hc. destruct (lr_match _ _ _ R) as (Em & Hm & _), (lr_max _ _ _ R) as (Emax & Hmax), (lr_occupied _ _ _ R) as [Ho En].
  unfold Lookup_FindCurrentRow. destruct (Z.ltb_spec 8 (lk_match t)); [lia|]. rewrite Em. change (of_le (slice buf 0 (sh_match sh))) with (code sh buf).
  rewrite (swrap_id 64) by (unfold is_sword; lia). rewrite (proj2 (andb_true_iff _ _)) by lia. cbn [negb].
  rewrite (fdenotes_Get _ _ _ Ho) by lia. cbn [mbind option_bind]. by rewrite (swrap_id 32) by (unfold is_sword; lia).
Qed.

Lemma lookup_miss buf :
  input_ok sh buf -> (forall e, e ∈ G -> key sh (e_input e) <> key sh buf) -> code sh buf ∉ map e_row G.
Proof using R.
  intros Hb Hno (e & E & He)%list_elem_of_fmap. destruct (lr_entries _ _ _ R e He) as (Hi & _ & Er & _).
  apply (Hno e He). apply code_inj; [done|done|congruence].
Qed.

(** The bytes of a row are inside the table, and apart from those of the other rows. *)
Lemma row_inside r : 0 <= r < lk_max t -> 0 <= r * lk_total t /\ r * lk_total t + lk_total t <= zlen (lk_bytes t).
Proof using R.
  intros Hr. rewrite (lr_bytes _ _ _ R). destruct (lr_match _ _ _ R) as (_ & ? & ?), (lr_input _ _ _ R) as [_ ?]. rewrite (lr_total _ _ _ R). nia.
Qed.

Lemma rows_apart r r' : r <> r' -> r * lk_total t + lk_total t <= r' * lk_total t \/ r' * lk_total t + lk_total t <= r * lk_total t.
Proof using R.
  intros Hr. destruct (lr_match _ _ _ R) as (_ & ? & ?), (lr_input _ _ _ R) as [_ ?]. rewrite (lr_total _ _ _ R). nia.
Qed.

Lemma entry_row e : e ∈ G -> 0 <= e_row e < lk_max t.
Proof using R. intros He. destruct (lr_entries _ _ _ R e He) as (Hi & _ & -> & _). by apply code_bound. Qed.

Lemma entry_bytes e off n :
  e ∈ G -> 0 <= off -> 0 <= n -> off + n <= lk_total t ->
  bytes_at (lk_bytes t) (e_row e * lk_total t + off) n = Some (slice (e_input e ++ e_aggr e) off n).
Proof using R.
  intros He Ho Hn Hb. destruct (row_inside (e_row e) (entry_row e He)). destruct (lr_entries _ _ _ R e He) as (_ & _ & _ & <-).
  rewrite bytes_at_in by lia. by rewrite slice_slice by lia.
Qed.

(** Writing into one row. *)
Lemma put_row r off bs :
  0 <= r < lk_max t -> 0 <= off -> off + zlen bs <= lk_total t ->
  put_at (lk_bytes t) (r * lk_total t + off) bs = Some (overwrite (lk_bytes t) (r * lk_total t + off) bs)
  /\ zlen (overwrite (lk_bytes t) (r * lk_total t + off) bs) = zlen (lk_bytes t)
  /\ slice (overwrite (lk_bytes t) (r * lk_total t + off) bs) (r * lk_total t) (lk_total t)
     = overwrite (slice (lk_bytes t) (r * lk_total t) (lk_total t)) off bs
  /\ forall r', r' <> r -> 0 <= r' < lk_max t ->
       slice (overwrite (lk_bytes t) (r * lk_total t + off) bs) (r' * lk_total t) (lk_total t) = slice (lk_bytes t) (r' * lk_total t) (lk_total t).
Proof using R.
  intros Hr Ho Hb. destruct (row_inside r Hr) as [B1 B2]. pose proof (zlen_nonneg bs).
  assert (Ht : 0 <= lk_total t) by (destruct (lr_match _ _ _ R) as (_ & ? & ?), (lr_input _ _ _ R) as [_ ?]; rewrite (lr_total _ _ _ R); lia).
  split_and!; [apply put_at_in; lia|rewrite zlen_overwrite; lia|by apply slice_overwrite_inside|].
  intros r' Hne Hr'. destruct (row_inside r' Hr'). destruct (rows_apart r r'); [done|..]; apply slice_overwrite_other; lia.
Qed.
End Lookup.

(** ** The laws of the lookup table *)

Lemma zlen_eq_app (l1 l2 l3 l4 : list Z) : zlen l1 = zlen l3 -> l1 ++ l2 = l3 ++ l4 -> l1 = l3 /\ l2 = l4.
Proof. intros Hl. apply app_inj_1. unfold zlen in Hl. lia. Qed.

Lemma slice_split l off n m : 0 <= off -> 0 <= n -> 0 <= m -> off + n + m <= zlen l -> slice l off (n + m) = slice l off n ++ slice l (off + n) m.
Proof.
  intros. unfold slice. rewrite Z2Nat.inj_add, <- take_take_drop by lia. f_equal. rewrite drop_drop. do 2 f_equal. lia.
Qed.

Lemma lookup_hit sh t G buf add e :
  lookup_rep sh t G -> input_ok sh buf -> e ∈ G -> key sh (e_input e) = key sh buf ->
  Lookup_FindCurrentRow t buf add = Some (true, e_row e, t).
Proof.
  intros R Hb He Hk. destruct (lr_entries _ _ _ R e He) as (_ & _ & Er & _). unfold code in Er. rewrite Hk in Er. fold (code sh buf) in Er.
  rewrite (find_code sh t G R) by done. rewrite bool_decide_true by (rewrite <- Er; apply list_elem_of_fmap; by exists e). by rewrite Er.
Qed.

Lemma lookup_add sh t G buf :
  lookup_rep sh t G -> input_ok sh buf -> (forall e, e ∈ G -> key sh (e_input e) <> key sh buf) -> zlen G < sh_room sh ->
  exists t' aggr, Lookup_FindCurrentRow t buf true = Some (false, code sh buf, t')
                  /\ lookup_rep sh t' (G ++ [mkEntry (code sh buf) buf aggr]) /\ zlen aggr = sh_aggr sh.
Proof.
  intros R Hb Hno Hroom. pose proof (code_bound sh t G R buf Hb) as Hc. pose proof (lookup_miss sh t G R buf Hb Hno) as Hmiss.
  destruct (lr_match _ _ _ R) as (Em & Hm & Hmi), (lr_input _ _ _ R) as (Ei & Ha), (lr_max _ _ _ R) as (Emax & Hmax).
  pose proof (lr_total _ _ _ R) as Et. pose proof (lr_bytes _ _ _ R) as Hbytes. destruct (lr_table _ _ _ R) as [Hlt Htab], (lr_occupied _ _ _ R) as [Ho En].
  rewrite (find_code sh t G R) by done. rewrite bool_decide_false by done. cbn [negb].
  destruct (Hb) as (Hl & Hby & Hk). replace (slice buf 0 (lk_input t)) with buf by (by rewrite Ei, <- Hl, slice_all).
  pose proof (put_row sh t G R (code sh buf) 0 buf) as P. rewrite Z.add_0_r in P. destruct P as (-> & Hlen & Hsame & Hother); [lia..|].
  cbn [mbind option_bind].
  destruct (Set_row (lk_occupied t) _ Ho (code sh buf) ltac:(lia)) as (f' & -> & Hf' & He'). cbn [mbind option_bind].
  assert (Hn : zlen G < lk_max t) by lia. rewrite (lr_rows _ _ _ R), Hlt, (proj2 (andb_true_iff _ _)) by (pose proof (zlen_nonneg G); lia).
  destruct (row_inside sh t G R (code sh buf) Hc) as [B1 B2]. pose proof (zlen_nonneg buf).
  set (old := slice (lk_bytes t) (code sh buf * lk_total t) (lk_total t)) in *.
  assert (Hold : zlen old = lk_total t) by (unfold old; rewrite zlen_slice; lia).
  exists (lk_with t (zlen G + 1) (overwrite (lk_bytes t) (code sh buf * lk_total t) buf) f' (lk_table t).[zlen G <- code sh buf] (lk_iter t)), (drop (length buf) old).
  assert (Haggr : zlen (drop (length buf) old) = sh_aggr sh) by (unfold zlen in *; rewrite length_drop; lia).
  split_and!; [done| |done]. split; cbn [lk_with lk_match lk_input lk_total lk_max lk_bytes lk_rows lk_table lk_occupied lk_iter]; try done; try apply R.
  - congruence.
  - by rewrite zlen_snoc.
  - rewrite zlen_zupd. split; [done|]. intros i e [He|[Hi He]]%lookup_app_Some.
    + pose proof (lookup_lt_Some _ _ _ He). rewrite znth_zupd_ne by (unfold zlen; lia). by apply Htab.
    + apply list_lookup_singleton_Some in He as [Hi' <-]. replace (Z.of_nat i) with (zlen G) by (unfold zlen; lia). apply znth_zupd_eq. pose proof (zlen_nonneg G). lia.
  - split; [|by rewrite (evolves_NoObj _ _ He')]. eapply fdenotes_ext; [exact Hf'|]. intros r Hr. cbn beta. rewrite map_app. cbn [map e_row].
    destruct (Z.eqb_spec r (code sh buf)) as [->|Hne]; cbn [orb]; symmetry.
    + apply bool_decide_eq_true_2, elem_of_app. right. by apply list_elem_of_singleton.
    + apply bool_decide_ext. rewrite elem_of_app, list_elem_of_singleton. tauto.
  - intros e [He|He%list_elem_of_singleton]%elem_of_app.
    + destruct (lr_entries _ _ _ R e He) as (E1 & E2 & E3 & E4). split_and!; try done. rewrite Hother; [done| |by apply (entry_row sh t G R)].
      intros E. apply Hmiss. rewrite <- E. apply list_elem_of_fmap. by exists e.
    + subst e. cbn [e_input e_aggr e_row]. split_and!; try done. rewrite Hsame, overwrite_prefix by lia. done.
  - rewrite map_app. apply NoDup_app. split_and!; [apply R| |apply NoDup_singleton]. intros r Hr Hr'%list_elem_of_singleton. cbn in Hr'. by subst.
  - rewrite zlen_snoc. lia.
Qed.

Lemma lookup_read sh t G i e off n :
  lookup_rep sh t G -> G !! i = Some e -> 0 <= off -> 0 <= n -> off + n <= sh_aggr sh ->
  bytes_at (lk_bytes t) (e_row e * lk_total t + (lk_input t + off)) n = Some (slice (e_aggr e) off n).
Proof.
  intros R E Ho Hn Hb. pose proof (list_elem_of_lookup_2 _ _ _ E) as He. destruct (lr_entries _ _ _ R e He) as ((Hl & _) & Ha & _ & _).
  destruct (lr_match _ _ _ R) as (_ & ? & ?), (lr_input _ _ _ R) as [Ei ?]. pose proof (lr_total _ _ _ R).
  rewrite (entry_bytes sh t G R e) by (done || lia). rewrite slice_app_after by lia. do 2 f_equal. lia.
Qed.

Lemma lookup_group sh t G i e :
  lookup_rep sh t G -> G !! i = Some e -> bytes_at (lk_bytes t) (e_row e * lk_total t) (lk_input t) = Some (e_input e).
Proof.
  intros R E. pose proof (list_elem_of_lookup_2 _ _ _ E) as He. destruct (lr_entries _ _ _ R e He) as ((Hl & _) & Ha & _ & _).
  destruct (lr_match _ _ _ R) as (_ & ? & ?), (lr_input _ _ _ R) as [Ei ?]. pose proof (lr_total _ _ _ R).
  rewrite <- (Z.add_0_r (e_row e * _)). rewrite (entry_bytes sh t G R e) by (done || lia). rewrite slice_app_l by lia.
  replace (lk_input t) with (zlen (e_input e)) by lia. by rewrite slice_all.
Qed.

Lemma lookup_write sh t G i e off bs :
  lookup_rep sh t G -> G !! i = Some e -> 0 <= off -> off + zlen bs <= sh_aggr sh ->
  exists t', vm_write_aggr t (e_row e) off bs = Some t' /\ lookup_rep sh t' (<[i := put_bytes e off bs]> G).
Proof.
  intros R E Ho Hb. pose proof (list_elem_of_lookup_2 _ _ _ E) as He. destruct (lr_entries _ _ _ R e He) as ((Hl & Hby) & Ha & Er & Ebytes).
  destruct (lr_match _ _ _ R) as (? & ? & ?), (lr_input _ _ _ R) as [Ei ?]. pose proof (lr_total _ _ _ R). pose proof (zlen_nonneg bs).
  pose proof (put_row sh t G R (e_row e) (lk_input t + off) bs (entry_row sh t G R e He)) as P.
  destruct P as (Ep & Hlen & Hsame & Hother); [lia..|]. cbn. rewrite Ep. cbn [mbind option_bind]. eexists. split; [reflexivity|].
  assert (Erow : map e_row (<[i := put_bytes e off bs]> G) = map e_row G).
  { change (map ?f ?l) with (f <$> l). rewrite list_fmap_insert. apply list_insert_id. by rewrite list_lookup_fmap, E. }
  pose proof (lr_NoDup _ _ _ R) as Hnd.
  split; cbn [lk_with lk_match lk_input lk_total lk_max lk_bytes lk_rows lk_table lk_occupied lk_iter]; rewrite ?Erow; try apply R.
  - rewrite Hlen. apply R.
  - rewrite (lr_rows _ _ _ R). unfold zlen. by rewrite length_insert.
  - destruct (lr_table _ _ _ R) as [Ht1 Ht2]. split; [done|]. intros k e' [(<- & <- & _)|[_ Hk]]%list_lookup_insert_Some; [by rewrite (Ht2 _ _ E)|by apply Ht2].
  - intros e' [k Hk]%list_elem_of_lookup. apply list_lookup_insert_Some in Hk as [(<- & <- & _)|[Hne Hk]]; cbn [put_bytes e_row e_input e_aggr].
    + split_and!; try done; [rewrite zlen_overwrite; lia|]. rewrite Hsame, Ebytes. replace (lk_input t) with (zlen (e_input e)) by lia.
      pose proof (overwrite_inside (e_input e) (e_aggr e) [] off bs) as O. rewrite !app_nil_r in O. apply O; lia.
    + pose proof (list_elem_of_lookup_2 _ _ _ Hk) as He'. destruct (lr_entries _ _ _ R e' He') as (E1 & E2 & E3 & E4). split_and!; try done.
      rewrite Hother; [done| |by apply (entry_row sh t G R)]. intros Err. apply Hne.
      apply (NoDup_lookup _ i k (e_row e) Hnd); rewrite list_lookup_fmap, ?E, ?Hk; cbn; congruence.
  - unfold zlen. rewrite length_insert. apply R.
Qed.

Lemma lookup_clear sh t G : lookup_rep sh t G -> lookup_rep sh (Lookup_Clear t) [].
Proof.
  intros []. destruct lr_occupied0 as [Ho En]. destruct (Reset_all_denotes _ _ Ho) as [Hf' En'].
  destruct lr_match0 as (? & ? & ?), lr_input0, lr_max0, lr_table0 as [Ht1 _].
  split; cbn [Lookup_Clear lk_with lk_match lk_input lk_total lk_max lk_bytes lk_rows lk_table lk_occupied lk_iter]; try done.
  - apply zlen_replicate. nia.
  - split; [|congruence]. eapply fdenotes_ext; [exact Hf'|]. intros r _. symmetry. apply bool_decide_eq_false_2. apply not_elem_of_nil.
  - by intros e He%elem_of_nil.
  - apply NoDup_nil_2.
  - unfold zlen. cbn. lia.
Qed.

Lemma lookup_iter sh t G iter :
  lookup_rep sh t G -> lookup_rep sh (lk_with t (lk_rows t) (lk_bytes t) (lk_occupied t) (lk_table t) iter) G.
Proof. intros []. by split. Qed.

#[export] Instance Lookup_laws : MatchLaws lookup_rep lookup_at.
Proof.
  split; cbn.
  - intros sh t G R. apply R.
  - intros sh t G R. apply NoDup_fmap_1 with (f := of_le). change (map ?f ?l) with (f <$> l). rewrite <- list_fmap_compose.
    rewrite (list_fmap_ext _ e_row); [apply R|]. intros i e E. cbn. symmetry. by apply (lr_entries _ _ _ R e (list_elem_of_lookup_2 _ _ _ E)).
  - intros sh t G buf add e R Hb He Hk. by apply (lookup_hit sh t G).
  - intros sh t G buf R Hb Hno. rewrite (find_code sh t G R) by done. by rewrite bool_decide_false by by apply (lookup_miss sh t G R).
  - intros sh t G buf R Hb Hno Hroom. destruct (lookup_add sh t G buf R Hb Hno Hroom) as (t' & aggr & E & R' & Ha).
    exists t', (code sh buf), aggr. split_and!; try done. pose proof (code_bound sh t G R buf Hb). unfold NULL_VALUE_64. lia.
  - intros sh t G i e off n R E Ho Hn Hb. by apply (lookup_read sh t G i).
  - intros sh t G i e R E. by apply (lookup_group sh t G i).
  - intros sh t G i e off bs R E Ho Hb. by apply (lookup_write sh t G i e off bs).
  - intros sh t G R. destruct (lr_max _ _ _ R) as [-> _]. by rewrite (lr_rows _ _ _ R).
  - intros sh t G R. by apply (lookup_clear sh t G).
  - intros sh t G rel R. split_and!; [by apply lookup_iter|lia|done].
  - intros sh t G rel i (R & _ & ->). rewrite (lr_rows _ _ _ R). unfold zlen. case_bool_decide; lia.
  - intros sh t G rel i e (R & _ & ->) E. destruct (lr_table _ _ _ R) as [Ht1 Ht2]. pose proof (lookup_lt_Some _ _ _ E).
    rewrite (proj2 (andb_true_iff _ _)); [by rewrite (Ht2 i e E)|]. rewrite Ht1. pose proof (lr_few _ _ _ R). destruct (lr_max _ _ _ R). unfold zlen in *. lia.
  - intros sh t G rel i e (R & _) E. by apply (lookup_group sh t G i).
  - intros sh t G rel i e off n (R & _) E Ho Hn Hb. by apply (lookup_read sh t G i).
  - intros sh t G rel i (R & Hi & E) Hlt. split_and!; [by apply lookup_iter|lia|cbn; lia].
  - by intros sh t G i (R & _).
  - intros sh t G rel i (R & _). by apply (lookup_clear sh t G).
Qed.

(** The keys of a lookup table are at most the greatest code. *)
Definition lookup_shape (max_group_code total_width input_width match_width : Z) : table_shape :=
  mkShape match_width input_width (total_width - input_width)
          (fun buf => of_le (slice buf 0 match_width) < max_group_code + 1) (max_group_code + 1).

Lemma Lookup_Init_spec junk_t junk_table max_group_code total_width input_width match_width :
  0 <= max_group_code < 2 ^ 31 -> 0 <= match_width <= 8 -> match_width <= input_width -> input_width <= total_width ->
  exists t, Lookup_Init junk_t junk_table max_group_code total_width input_width match_width = Some t
            /\ lookup_rep (lookup_shape max_group_code total_width input_width match_width) t [].
Proof.
  intros Hc Hm Hmi Hi. unfold Lookup_Init. destruct (Filter_new_rows (max_group_code + 1) false) as (f & -> & Hf & Hn); [lia|].
  cbn [mbind option_bind]. eexists. split; [reflexivity|]. destruct (Reset_all_denotes _ _ Hf) as [Hf' Hn'].
  split; cbn [Lookup_Clear lk_with lk_match lk_input lk_total lk_max lk_bytes lk_rows lk_table lk_occupied lookup_shape sh_match sh_input sh_aggr sh_room sh_key]; try done; try lia.
  - apply zlen_replicate. nia.
  - split; [unfold zlen; rewrite length_resize; lia|done].
  - split; [|congruence]. eapply fdenotes_ext; [exact Hf'|]. intros r _. symmetry. apply bool_decide_eq_false_2. apply not_elem_of_nil.
  - by intros e He%elem_of_nil.
  - apply NoDup_nil_2.
  - unfold zlen. cbn. lia.
Qed.
