(* ===== verification/MatchCreate.v ===== *)
(** * The choice of a table for a grouping (core/ValueMatchingTable.cpp)

    [CreateNew_ValueMatchingTable] takes the table with one position if there are no bytes to match,
    the lookup table if the greatest code of a key is less than one and a half times the number of
    groups, and the hash table otherwise.  What it gives is a table that matches, by the laws of the
    three. *)

From stdpp Require Import option.
From S2P Require Import Prelude BinTools ByteFile IntEncoders Doubles DoubleSums MatchTable MatchHash MatchSimple.

Inductive ValueMatchingTable :=
  | IsOne (t : OnePosition)
  | IsLookup (t : LookupTable)
  | IsHash (t : HashTable).

(** The contents of fresh memory: arrays of bytes and of numbers, and blocks. *)
Record fresh := mkFresh { fresh_bytes : list Z; fresh_ints : list Z; fresh_block : Z -> list Z }.

Definition double_1_5 : double := double_of_bits 0x3FF8000000000000.

Definition CreateNew_ValueMatchingTable (junk : fresh) (mem_available max_no_groups max_group_code total_width input_width match_width : Z)
    : option ValueMatchingTable :=
  if input_width =? 0 then Some (IsOne (One_Init (fresh_bytes junk) total_width))
  else if (max_group_code <? PLUS_INF_64) && dlt (double_of_int max_group_code) (dmul (double_of_int max_no_groups) double_1_5) then
    t ← Lookup_Init (fresh_bytes junk) (fresh_ints junk) max_group_code total_width input_width match_width; Some (IsLookup t)
  else
    t ← Hash_Init (fresh_block junk) mem_available max_no_groups total_width input_width match_width; Some (IsHash t).

(** ** Memory *)

Definition VM_IsOnePass (t : ValueMatchingTable) : bool := match t with IsHash t => hm_one_pass t | _ => true end.
Definition VM_MemoryBlocksLeft (t : ValueMatchingTable) : Z := match t with IsHash t => Hash_MemoryBlocksLeft t | _ => 999 end.
Definition VM_ByteSize (t : ValueMatchingTable) : Z :=
  match t with IsOne t => One_ByteSize t | IsLookup t => Lookup_ByteSize t | IsHash t => Hash_ByteSize t end.
Definition VM_RowNumberScope (t : ValueMatchingTable) : Z :=
  match t with IsOne _ => 1 | IsLookup t => lk_max t | IsHash t => Hash_RowNumberScope t end.

(** ** The virtual functions *)

Section Dispatch.
Context (junk : Z -> list Z).

#[local] Instance hash_table : MatchTable HashTable := Hash_MatchTable junk.

Definition on_table {A : Type} (f : forall T, MatchTable T -> T -> A) (t : ValueMatchingTable) : A :=
  match t with
  | IsOne t => f OnePosition _ t
  | IsLookup t => f LookupTable _ t
  | IsHash t => f HashTable _ t
  end.

Definition find_table (t : ValueMatchingTable) (buf : list Z) (add : bool) : option (bool * Z * ValueMatchingTable) :=
  match t with
  | IsOne t => '(r, t) ← vm_find t buf add; Some (r, IsOne t)
  | IsLookup t => '(r, t) ← vm_find t buf add; Some (r, IsLookup t)
  | IsHash t => '(r, t) ← vm_find t buf add; Some (r, IsHash t)
  end.

Definition write_table (t : ValueMatchingTable) (row off : Z) (bs : list Z) : option ValueMatchingTable :=
  match t with
  | IsOne t => IsOne <$> vm_write_aggr t row off bs
  | IsLookup t => IsLookup <$> vm_write_aggr t row off bs
  | IsHash t => IsHash <$> vm_write_aggr t row off bs
  end.

Definition change_table (f : forall T, MatchTable T -> T -> T) (t : ValueMatchingTable) : ValueMatchingTable :=
  match t with
  | IsOne t => IsOne (f OnePosition _ t)
  | IsLookup t => IsLookup (f LookupTable _ t)
  | IsHash t => IsHash (f HashTable _ t)
  end.

Definition Any_MatchTable : MatchTable ValueMatchingTable := {|
  vm_rows := on_table (fun T _ t => vm_rows t);
  vm_find := find_table;
  vm_read_group := fun t row => on_table (fun T _ t => vm_read_group t row) t;
  vm_read_aggr := fun t row off n => on_table (fun T _ t => vm_read_aggr t row off n) t;
  vm_write_aggr := write_table;
  vm_full := on_table (fun T _ t => vm_full t);
  vm_clear := change_table (fun T _ t => vm_clear t);
  vm_rewind := fun t rel => change_table (fun T _ t => vm_rewind t rel) t;
  vm_valid := on_table (fun T _ t => vm_valid t);
  vm_current := on_table (fun T _ t => vm_current t);
  vm_next := change_table (fun T _ t => vm_next t)
|}.

Definition any_rep (sh : table_shape) (t : ValueMatchingTable) (G : list entry) : Prop :=
  match t with IsOne t => one_rep sh t G | IsLookup t => lookup_rep sh t G | IsHash t => hash_rep sh t G end.

Definition any_at (sh : table_shape) (t : ValueMatchingTable) (G : list entry) (rel : bool) (i : nat) : Prop :=
  match t with IsOne t => one_at sh t G rel i | IsLookup t => lookup_at sh t G rel i | IsHash t => hash_at sh t G rel i end.

#[local] Existing Instance Any_MatchTable.
#[local] Instance hash_table_laws : MatchLaws hash_rep hash_at := Hash_laws junk.

(** A law of the interface holds for each of the three. *)
Ltac by_law law :=
  let t := fresh "t" in let H := fresh "H" in
  intros sh t; intros; destruct t;
  cbn [any_rep any_at Any_MatchTable on_table change_table vm_rows vm_find vm_read_group vm_read_aggr vm_write_aggr vm_full vm_clear vm_rewind vm_valid vm_current vm_next] in *;
  [eapply (law OnePosition _ one_rep one_at _)|eapply (law LookupTable _ lookup_rep lookup_at _)|eapply (law HashTable _ hash_rep hash_at _)];
  eassumption || done.

Lemma Any_laws : MatchLaws any_rep any_at.
Proof.
  split.
  - by_law @law_rows.
  - by_law @law_keys.
  - intros sh t G buf add e R Hb He Hk. destruct t; cbn [any_rep vm_find Any_MatchTable find_table] in *; by erewrite law_hit.
  - intros sh t G buf R Hb Hno. destruct t; cbn [any_rep vm_find Any_MatchTable find_table] in *; by erewrite law_miss.
  - intros sh t G buf R Hb Hno Hroom. destruct t; cbn [any_rep vm_find Any_MatchTable find_table] in *;
      destruct (law_add _ _ _ _ R Hb Hno Hroom) as (t' & r & aggr & -> & Hr & R' & Ha); cbn [mbind option_bind];
      [exists (IsOne t'), r, aggr|exists (IsLookup t'), r, aggr|exists (IsHash t'), r, aggr]; done.
  - by_law @law_read.
  - by_law @law_group.
  - intros sh t G i e off bs R E Ho Hb. destruct t; cbn [any_rep vm_write_aggr Any_MatchTable write_table] in *;
      destruct (law_write _ _ _ _ _ _ _ R E Ho Hb) as (t' & -> & R'); cbn [fmap option_fmap option_map];
      [exists (IsOne t')|exists (IsLookup t')|exists (IsHash t')]; done.
  - by_law @law_full.
  - by_law @law_clear.
  - by_law @law_rewind.
  - by_law @law_valid.
  - by_law @law_current.
  - by_law @law_at_group.
  - by_law @law_at_read.
  - by_law @law_next.
  - by_law @law_keep.
  - by_law @law_at_clear.
Qed.
End Dispatch.
