(* ===== verification/DistinctTable.v ===== *)
(** * Distinct values of groups (core/GroupDistinctTable.h, core/GroupDistinctTable.cpp)

    For an aggregation with DISTINCT a table keeps the pairs of a group and a value that were counted
    already.  It is a filter of all possible pairs, where there are few, or a hash table that is
    searched at eight positions; a pair for which there is no place is rejected, and counted in a
    later pass.

    The encoder of the column is an argument: what it makes of a value is an [encoded].  The memory
    that is free and the contents of fresh memory are arguments too. *)

From stdpp Require Import option sets.
From S2P Require Import Prelude BinTools ByteFile MD5 Doubles DoubleSums FilterBlock FilterDefs FilterCore FilterRefine MatchTable MatchHash MatchSimple.

Inductive GDTResult := GDT_ADDED | GDT_EXISTS | GDT_FULL.

#[export] Instance GDTResult_eq_dec : EqDecision GDTResult.
Proof. solve_decision. Defined.

(** What the encoder makes of a value: its number ([ValEncode]) and its bytes ([Encode]). *)
Record encoded := mkEncoded { val_code : Z; val_bytes : list Z }.

Record DistinctTable := mkDistinct {
  gd_input : list Z;               (* input_buffer *)
  gd_t : list Z;
  gd_group : Z;                    (* group_bytes *)
  gd_value : Z;                    (* value_bytes *)
  gd_length : Z;                   (* input_length *)
  gd_total : Z;                    (* total_width *)
  gd_rows : Z;                     (* no_rows *)
  gd_limit : Z;                    (* rows_limit *)
  gd_occupied : Z;                 (* no_of_occupied *)
  gd_crc : bool;                   (* use_CRC *)
  gd_filter : option Filter;       (* f, with filter_implementation *)
  gd_factor : Z                    (* group_factor *)
}.

Definition with_input (d : DistinctTable) (input : list Z) : DistinctTable :=
  mkDistinct input (gd_t d) (gd_group d) (gd_value d) (gd_length d) (gd_total d) (gd_rows d) (gd_limit d) (gd_occupied d) (gd_crc d) (gd_filter d) (gd_factor d).

Definition with_t (d : DistinctTable) (t : list Z) (occupied : Z) : DistinctTable :=
  mkDistinct (gd_input d) t (gd_group d) (gd_value d) (gd_length d) (gd_total d) (gd_rows d) (gd_limit d) occupied (gd_crc d) (gd_filter d) (gd_factor d).

Definition with_filter (d : DistinctTable) (f : Filter) : DistinctTable :=
  mkDistinct (gd_input d) (gd_t d) (gd_group d) (gd_value d) (gd_length d) (gd_total d) (gd_rows d) (gd_limit d) (gd_occupied d) (gd_crc d) (Some f) (gd_factor d).

(** ** Clearing and initialization *)

Definition Distinct_Clear (d : DistinctTable) : DistinctTable :=
  match gd_filter d with
  | Some f => with_filter d (Reset_all f)
  | None =>
      with_t (with_input d (overwrite (gd_input d) 0 (replicate (Z.to_nat (gd_total d)) 0)))
             (replicate (Z.to_nat (gd_total d * gd_rows d)) 0) 0
  end.

Definition double_1_3 : double := double_of_bits 0x3FF4CCCCCCCCCCCD.
Definition double_0_9 : double := double_of_bits 0x3FECCCCCCCCCCCCD.

Definition int64_of_double : double -> option Z := int_between (- 2 ^ 63) (2 ^ 63).

(** The number of rows of a hash table. *)
Definition distinct_rows (max_total_size total max_no_rows : Z) : option Z :=
  let n := Z.quot max_total_size total in
  let wanted := dmul (double_of_int (max_no_rows + 1)) double_1_3 in
  n ← (if negb (max_no_rows =? 0) && dlt wanted (double_of_int n) then int64_of_double wanted else Some n);
  let n := if n <? 67 then 67 else n in
  Some (if Z.rem n 17 =? 0 then n + 1 else n).

Definition Distinct_hash (junk_t junk_input : list Z) (group value length max_total_size max_no_rows : Z) (crc : bool) : option DistinctTable :=
  let total := value + group in
  n ← distinct_rows max_total_size total max_no_rows;
  limit ← int64_of_double (dmul (double_of_int n) double_0_9);
  Some (Distinct_Clear (mkDistinct (resize (Z.to_nat (4 * (Z.quot total 4 + 1))) 0 junk_input) (resize (Z.to_nat (total * n)) 0 junk_t)
                                   group value length total n limit 0 crc None 0)).

(** The loop that counts the bytes of a number. *)
Fixpoint byte_count (fuel : nat) (m : Z) : Z :=
  match fuel with
  | O => 0
  | S fuel => if 0 <? m then 1 + byte_count fuel (Z.shiftr m 8) else 0
  end.

Definition InitializeVC (junk_t junk_input : list Z) (max_no_groups max_code primary_size max_no_rows max_bytes : Z) : option DistinctTable :=
  let size := if 0 <? max_bytes then max_bytes else 64 * MBYTE in
  let size := if 2000000000 <? max_bytes then GBYTE else size in
  let max_no_rows := if max_no_rows =? NULL_VALUE_64 then 0 else max_no_rows in
  let positions := max_no_groups * (max_code + 1) in
  if negb (max_code =? NULL_VALUE_64) && (primary_size <=? 4) && (max_no_groups <? 1000000000)
     && (Z.quot positions 8 <? size) && (Z.quot positions 8 <? 4 * max_no_rows)
  then
    f ← Filter_new positions false;
    Some (mkDistinct [] [] 0 0 0 0 0 (positions + 1) 0 false (Some (Reset_all f)) max_no_groups)
  else Distinct_hash junk_t junk_input (byte_count 8 (max_no_groups + 1)) primary_size 0 size max_no_rows false.

(** For vectors of bytes; [buffer_size] is what the memory manager offers. *)
Definition InitializeB (junk_t junk_input : list Z) (buffer_size max_len max_no_rows : Z) : option DistinctTable :=
  let '(value, crc) := if 16 <? max_len then (16, true) else (max_len, false) in
  let total := value + 1 in
  let size := if 64 * MBYTE <? max_no_rows * total * 2 then buffer_size else 64 * MBYTE in
  Distinct_hash junk_t junk_input 1 value max_len size max_no_rows crc.

Definition AlreadyFull (d : DistinctTable) : bool := gd_limit d <=? gd_occupied d.

Definition BytesTaken (d : DistinctTable) : Z :=
  match gd_filter d with Some f => Z.quot (NoObj f) 8 | None => gd_total d * gd_rows d end.

(** ** Finding and adding the vector in the input buffer *)

Definition RowEmpty (d : DistinctTable) (p : list Z) : bool := bool_decide (slice p 0 (gd_group d) = replicate (Z.to_nat (gd_group d)) 0).

(** [fuel] is the number of positions that are left to be looked at. *)
Fixpoint probe (fuel : nat) (d : DistinctTable) (find_only : bool) (step row checks : Z) : option (GDTResult * DistinctTable) :=
  match fuel with
  | O => None
  | S fuel =>
      p ← bytes_at (gd_t d) (row * gd_total d) (gd_total d);
      if negb (RowEmpty d p) then
        if bool_decide (p = slice (gd_input d) 0 (gd_total d)) then Some (GDT_EXISTS, d)
        else
          let checks := checks + 1 in
          let row := row + (step + checks) in
          let row := if gd_rows d <=? row then Z.rem row (gd_rows d) else row in
          if checks <? 8 then probe fuel d find_only step row checks else Some (GDT_FULL, d)
      else if find_only then Some (GDT_ADDED, d)
      else
        t ← put_at (gd_t d) (row * gd_total d) (slice (gd_input d) 0 (gd_total d));
        Some (GDT_ADDED, with_t d t (gd_occupied d + 1))
  end.

Definition Distinct_FindCurrentRow (d : DistinctTable) (find_only : bool) : option (GDTResult * DistinctTable) :=
  match gd_filter d with
  | Some _ => None
  | None =>
      let crc := wrap32 (HashValue (gd_input d) (gd_total d)) in
      probe 8 d find_only (3 + crc mod 8) (Z.rem crc (gd_rows d)) 0
  end.

(** The group and the value in the input buffer; group 0 is written as 1. *)
Definition put_pair (d : DistinctTable) (group : Z) (v : encoded) : DistinctTable :=
  with_input d (overwrite (overwrite (gd_input d) 0 (bytes_le (Z.to_nat (gd_group d)) (group + 1))) (gd_group d) (val_bytes v)).

Definition filter_position (d : DistinctTable) (group : Z) (v : encoded) : Z := group + gd_factor d * val_code v.

Definition Distinct_Find (d : DistinctTable) (group : Z) (v : encoded) : option (GDTResult * DistinctTable) :=
  match gd_filter d with
  | Some f => b ← Get_row f (filter_position d group v); Some (if b : bool then GDT_EXISTS else GDT_ADDED, d)
  | None => Distinct_FindCurrentRow (put_pair d group v) true
  end.

Definition Distinct_Add (d : DistinctTable) (group : Z) (v : encoded) : option (GDTResult * DistinctTable) :=
  match gd_filter d with
  | Some f =>
      let pos := filter_position d group v in
      b ← Get_row f pos;
      if b : bool then Some (GDT_EXISTS, d)
      else f ← Set_bn f (Z.shiftr pos 16) (Z.land pos 65535); Some (GDT_ADDED, with_filter d f)
  | None => Distinct_FindCurrentRow (put_pair d group v) false
  end.

(** Vectors of bytes, of which a long one is replaced by its digest. *)
Definition Add_bytes (junk : Z -> Z) (d : DistinctTable) (v : list Z) : option (GDTResult * DistinctTable) :=
  match gd_filter d with
  | Some _ => None
  | None =>
      let input := overwrite (gd_input d) 0 [1] in
      bs ← (if gd_crc d then HashMD5 junk v (gd_length d) else Some (slice v 0 (gd_value d)));
      let input := overwrite input (gd_group d) bs in
      Distinct_FindCurrentRow (with_input d input) false
  end.

Definition AddFromCache (d : DistinctTable) (v : list Z) : option (GDTResult * DistinctTable) :=
  match gd_filter d with
  | Some _ => None
  | None => Distinct_FindCurrentRow (with_input d (overwrite (gd_input d) 0 (slice v 0 (gd_total d)))) false
  end.

Definition GroupNoFromInput (d : DistinctTable) : Z := swrap 64 (of_le (slice (gd_input d) 0 (gd_group d)) - 1).

(** The bytes that [ValueFromInput] has the encoder decode. *)
Definition value_from_input (d : DistinctTable) : list Z := slice (gd_input d) (gd_group d) (gd_value d).

(** ** The hash table as a set of vectors *)

Definition drow (d : DistinctTable) (r : Z) : list Z := slice (gd_t d) (r * gd_total d) (gd_total d).

Fixpoint path (n step start : Z) (k : nat) : Z :=
  match k with O => start | S k' => (path n step start k' + (step + Z.of_nat k)) mod n end.

(** The positions where a vector is looked for. *)
Definition place (d : DistinctTable) (v : list Z) (k : nat) : Z :=
  let crc := wrap32 (HashValue v (gd_total d)) in path (gd_rows d) (3 + crc mod 8) (crc mod gd_rows d) k.

Record table_ok (d : DistinctTable) : Prop := {
  tk_filter : gd_filter d = None;
  tk_group : 0 < gd_group d <= 8;
  tk_value : 0 <= gd_value d;
  tk_total : gd_total d = gd_value d + gd_group d;
  tk_rows : 0 < gd_rows d;
  tk_t : zlen (gd_t d) = gd_total d * gd_rows d;
  tk_input : gd_total d <= zlen (gd_input d)
}.

Definition vector_ok (d : DistinctTable) (v : list Z) : Prop := zlen v = gd_total d /\ RowEmpty d v = false.

Record holds_vectors (d : DistinctTable) (S : list (list Z)) : Prop := {
  hv_ok : table_ok d;
  hv_vectors : Forall (vector_ok d) S;
  hv_stored : forall r, 0 <= r < gd_rows d -> RowEmpty d (drow d r) = false -> drow d r ∈ S;
  hv_found : forall v, v ∈ S -> exists k, (k < 8)%nat /\ drow d (place d v k) = v /\ forall j, (j < k)%nat -> RowEmpty d (drow d (place d v j)) = false;
  hv_occupied : gd_occupied d = zlen S;
  hv_NoDup : NoDup S
}.


Lemma path_bound n step start k : 0 < n -> 0 <= start < n -> 0 <= path n step start k < n.
Proof. intros Hn Hs. destruct k; [done|]. cbn. apply Z.mod_pos_bound. lia. Qed.

Section Probe.
Context (d : DistinctTable) (H : table_ok d).

Lemma place_bound v k : 0 <= place d v k < gd_rows d.
Proof using H. pose proof (tk_rows _ H). apply path_bound; [done|]. apply Z.mod_pos_bound. lia. Qed.

Lemma row_room r : 0 <= r < gd_rows d -> 0 <= r * gd_total d /\ r * gd_total d + gd_total d <= zlen (gd_t d).
Proof using H. destruct H. intros. split; nia. Qed.

Lemma row_at r : 0 <= r < gd_rows d -> bytes_at (gd_t d) (r * gd_total d) (gd_total d) = Some (drow d r).
Proof using H. intros Hr. destruct (row_room r Hr). by apply bytes_at_in. Qed.

Definition passed (v : list Z) (j : nat) : Prop := RowEmpty d (drow d (place d v j)) = false /\ drow d (place d v j) <> v.

(** What the search gives: the vector, an empty row, or neither. *)
Inductive search_result (find_only : bool) (v : list Z) : GDTResult * DistinctTable -> Prop :=
  | search_exists j : (j < 8)%nat -> (forall i, (i < j)%nat -> passed v i) -> drow d (place d v j) = v ->
      search_result find_only v (GDT_EXISTS, d)
  | search_new j : (j < 8)%nat -> (forall i, (i < j)%nat -> passed v i) -> RowEmpty d (drow d (place d v j)) = true ->
      search_result find_only v (GDT_ADDED,
        if find_only then d else with_t d (overwrite (gd_t d) (place d v j * gd_total d) v) (gd_occupied d + 1))
  | search_full : (forall i, (i < 8)%nat -> passed v i) -> search_result find_only v (GDT_FULL, d).

Lemma probe_result fuel find_only v k :
  slice (gd_input d) 0 (gd_total d) = v -> zlen v = gd_total d -> RowEmpty d v = false ->
  (fuel + k = 8)%nat -> (0 < fuel)%nat -> (forall i, (i < k)%nat -> passed v i) ->
  exists res, probe fuel d find_only (3 + wrap32 (HashValue v (gd_total d)) mod 8) (place d v k) (Z.of_nat k) = Some res /\ search_result find_only v res.
Proof using H.
  intros Hv Hl Hn. revert k. induction fuel as [|fuel IH]; intros k Hk Hf Hp; [lia|]. cbn [probe].
  pose proof (place_bound v k) as Hb. pose proof (tk_value _ H). pose proof (tk_group _ H). pose proof (tk_total _ H). rewrite row_at by done. cbn [mbind option_bind]. rewrite Hv.
  destruct (RowEmpty d (drow d (place d v k))) eqn:E; cbn [negb].
  - destruct (row_room _ Hb). destruct find_only.
    + eexists. split; [done|]. apply (search_new true v k); [lia|done|done].
    + rewrite put_at_in by lia. eexists. split; [reflexivity|]. apply (search_new false v k); [lia|done|done].
  - case_bool_decide as Ev; [eexists; split; [done|]; apply (search_exists _ v k); [lia|done|done]|].
    assert (Hp' : forall i, (i < S k)%nat -> passed v i) by (intros i Hi; destruct (Nat.eq_dec i k) as [->|]; [done|apply Hp; lia]).
    replace (Z.of_nat k + 1) with (Z.of_nat (S k)) by lia.
    pose proof (tk_rows _ H). set (row := place d v k + (3 + wrap32 (HashValue v (gd_total d)) mod 8 + Z.of_nat (S k))).
    assert (Hrow : 0 <= row) by (unfold row; pose proof (Z.mod_pos_bound (wrap32 (HashValue v (gd_total d))) 8); lia).
    assert (Er : (if gd_rows d <=? row then Z.rem row (gd_rows d) else row) = place d v (S k)).
    { change (place d v (S k)) with (row mod gd_rows d). destruct (Z.leb_spec (gd_rows d) row); [apply Z.rem_mod_nonneg; lia|symmetry; apply Z.mod_small; lia]. }
    rewrite Er. destruct (Z.ltb_spec (Z.of_nat (S k)) 8); [apply IH; [lia|lia|done]|].
    eexists. split; [done|]. apply search_full. intros i Hi. apply Hp'. lia.
Qed.
End Probe.

Lemma rows_apart_z n r r' : 0 <= n -> r <> r' -> r * n + n <= r' * n \/ r' * n + n <= r * n.
Proof. intros. destruct (Z.lt_ge_cases r r'); [left|right]; nia. Qed.

Lemma drow_put d v r r' occ :
  table_ok d -> zlen v = gd_total d -> 0 <= r < gd_rows d -> 0 <= r' < gd_rows d ->
  drow (with_t d (overwrite (gd_t d) (r * gd_total d) v) occ) r' = if r' =? r then v else drow d r'.
Proof.
  intros H Hl Hr Hr'. destruct (row_room d H r Hr), (row_room d H r' Hr'). unfold drow. cbn [with_t gd_t gd_total].
  pose proof (zlen_nonneg v). destruct (Z.eqb_spec r' r) as [->|Hne].
  - rewrite <- Hl at 3. apply slice_overwrite_same. lia.
  - apply slice_overwrite_other; try lia. rewrite Hl. destruct (rows_apart_z (gd_total d) r r'); lia.
Qed.

Lemma holds_new d S v j :
  holds_vectors d S -> vector_ok d v -> v ∉ S -> (j < 8)%nat -> (forall i, (i < j)%nat -> passed d v i) ->
  RowEmpty d (drow d (place d v j)) = true ->
  holds_vectors (with_t d (overwrite (gd_t d) (place d v j * gd_total d) v) (gd_occupied d + 1)) (v :: S).
Proof.
  intros R [Hl Hn] Hv Hj Hp He. pose proof (hv_ok _ _ R) as K. set (p := place d v j) in *.
  assert (Hb : 0 <= p < gd_rows d) by by apply place_bound. set (d' := with_t _ _ _).
  assert (Hrow : forall r, 0 <= r < gd_rows d -> drow d' r = if r =? p then v else drow d r) by (intros; by apply drow_put).
  destruct (row_room d K p Hb).
  split.
  - destruct K. split; cbn; try done. rewrite zlen_overwrite by lia. lia.
  - constructor; [done|]. exact (hv_vectors _ _ R).
  - intros r Hr. cbn [gd_rows d' with_t] in Hr. rewrite Hrow by done. change (RowEmpty d') with (RowEmpty d).
    destruct (r =? p); [intros _; left|]. intros E. right. by apply (hv_stored _ _ R).
  - intros w [->|Hw]%elem_of_cons; change (RowEmpty d') with (RowEmpty d).
    + exists j. split; [done|]. change (place d' v) with (place d v). fold p. rewrite Hrow by done. rewrite Z.eqb_refl. split; [done|].
      intros i Hi. rewrite Hrow by by apply place_bound. destruct (_ =? p); [done|]. by apply Hp.
    + destruct (hv_found _ _ R w Hw) as (k & Hk & Ek & Hnk). exists k. split; [done|]. change (place d' w) with (place d w).
      pose proof (proj1 (Forall_forall _ _) (hv_vectors _ _ R) w Hw) as [_ Hnw].
      assert (Hne : forall i, (i <= k)%nat -> RowEmpty d (drow d (place d w i)) = false).
      { intros i Hi. destruct (Nat.eq_dec i k) as [->|]; [by rewrite Ek|apply Hnk; lia]. }
      assert (Hkeep : forall i, (i <= k)%nat -> drow d' (place d w i) = drow d (place d w i)).
      { intros i Hi. rewrite Hrow by by apply place_bound. destruct (Z.eqb_spec (place d w i) p) as [E|]; [|done].
        specialize (Hne i Hi). rewrite E in Hne. congruence. }
      split; [by rewrite Hkeep|]. intros i Hi. rewrite Hkeep by lia. apply Hne. lia.
  - cbn. rewrite (hv_occupied _ _ R). unfold zlen. cbn [length]. lia.
  - constructor; [done|apply R].
Qed.

(** The outcome of a search: [added] is what is held after the vector was added. *)
Inductive outcome {A : Type} (held : DistinctTable -> list A -> Prop) (find_only : bool) (S : list A) (x : A) (d : DistinctTable) :
    GDTResult -> DistinctTable -> Prop :=
  | out_exists : x ∈ S -> outcome held find_only S x d GDT_EXISTS d
  | out_full : x ∉ S -> S <> [] -> outcome held find_only S x d GDT_FULL d
  | out_found : x ∉ S -> find_only = true -> outcome held find_only S x d GDT_ADDED d
  | out_added d' : x ∉ S -> find_only = false -> held d' (x :: S) -> outcome held find_only S x d GDT_ADDED d'.

Lemma FindCurrentRow_outcome d S v find_only :
  holds_vectors d S -> slice (gd_input d) 0 (gd_total d) = v -> vector_ok d v ->
  exists r d', Distinct_FindCurrentRow d find_only = Some (r, d')
    /\ outcome (fun d' S' => holds_vectors d' S' /\ exists t occ, d' = with_t d t occ) find_only S v d r d'.
Proof.
  intros R Hs [Hl Hn]. pose proof (hv_ok _ _ R) as K. pose proof (tk_rows _ K). pose proof (tk_total _ K). pose proof (tk_value _ K). pose proof (tk_group _ K).
  unfold Distinct_FindCurrentRow. rewrite (tk_filter _ K).
  assert (Eh : HashValue (gd_input d) (gd_total d) = HashValue v (gd_total d)).
  { apply HashValue_ext. intros i Hi. rewrite <- Hs. rewrite znth_slice by lia. f_equal. }
  rewrite Eh. cbv zeta. rewrite Z.rem_mod_nonneg by (try apply Z.mod_pos_bound; lia).
  destruct (probe_result d K 8 find_only v 0 Hs Hl Hn) as ([r d'] & E & Hres); [lia|lia|lia|].
  change (place d v 0) with (wrap32 (HashValue v (gd_total d)) mod gd_rows d) in E. change (Z.of_nat 0) with 0 in E. rewrite E. exists r, d'. split; [done|].
  assert (Hpass : forall k, v ∈ S -> (forall i, (i < k)%nat -> passed d v i) -> (k < 8)%nat -> RowEmpty d (drow d (place d v k)) = true -> False).
  { intros k Hv Hp Hk He. destruct (hv_found _ _ R v Hv) as (j & Hj & Ej & Hnj).
    destruct (Nat.lt_trichotomy j k) as [Hlt|[->|Hgt]]; [by apply (Hp j Hlt)|congruence|]. rewrite Hnj in He; done. }
  inversion Hres as [j Hj Hp Ej|j Hj Hp Ej|Hp]; subst.
  - apply out_exists. rewrite <- Ej at 1. apply (hv_stored _ _ R); [by apply place_bound|]. by rewrite Ej.
  - assert (Hv : slice (gd_input d) 0 (gd_total d) ∉ S) by (intros Hv; by apply (Hpass j Hv Hp Hj)).
    destruct find_only; [by apply out_found|]. apply out_added; [done|done|]. split; [by apply holds_new|by eexists _, _].
  - apply out_full.
    + intros Hv. destruct (hv_found _ _ R _ Hv) as (j & Hj & Ej & _). by apply (Hp j Hj).
    + intros ->. destruct (Hp 0%nat) as [Hne _]; [lia|]. apply (hv_stored _ _ R) in Hne; [by apply elem_of_nil in Hne|by apply place_bound].
Qed.

(** ** The table as a set of pairs of a group and a value *)

Section Pairs.
Context {V : Type} (enc : V -> encoded) (good : V -> Prop) (G max_code primary : Z).

(** What the table relies on: the codes of the values that occur are in range, and values with the
    same code or the same bytes are the same.  Without a greatest code there are no codes. *)
Record encoder_ok : Prop := {
  eo_range : max_code <> NULL_VALUE_64 -> forall v, good v -> 0 <= val_code (enc v) <= max_code;
  eo_code : max_code <> NULL_VALUE_64 -> forall v w, good v -> good w -> val_code (enc v) = val_code (enc w) -> v = w;
  eo_length : forall v, good v -> zlen (val_bytes (enc v)) = primary;
  eo_bytes : forall v w, good v -> good w -> val_bytes (enc v) = val_bytes (enc w) -> v = w
}.

Definition pair_ok (x : Z * V) : Prop := 0 <= fst x < G /\ good (snd x).

Definition pair_bytes (d : DistinctTable) (x : Z * V) : list Z :=
  bytes_le (Z.to_nat (gd_group d)) (fst x + 1) ++ val_bytes (enc (snd x)).

Definition pair_position (x : Z * V) : Z := fst x + G * val_code (enc (snd x)).

Definition holds_pairs (d : DistinctTable) (S : list (Z * V)) : Prop :=
  NoDup S /\ Forall pair_ok S /\
  match gd_filter d with
  | Some f =>
      max_code <> NULL_VALUE_64 /\ fdenotes f (fun r => bool_decide (r ∈ map pair_position S))
      /\ NoObj f = G * (max_code + 1) /\ gd_factor d = G
  | None => holds_vectors d (map (pair_bytes d) S) /\ G < 2 ^ (8 * gd_group d) /\ gd_value d = primary
  end.

Context (E : encoder_ok).

Lemma pair_position_range x : max_code <> NULL_VALUE_64 -> pair_ok x -> 0 <= pair_position x < G * (max_code + 1).
Proof using E. intros M [Hg Hv]. pose proof (eo_range E M _ Hv). unfold pair_position. nia. Qed.

Lemma pair_position_inj x y : max_code <> NULL_VALUE_64 -> pair_ok x -> pair_ok y -> pair_position x = pair_position y -> x = y.
Proof using E.
  intros M [Hx Gx] [Hy Gy] H. unfold pair_position in H. destruct x as [g v], y as [g' v']. cbn [fst snd] in *.
  pose proof (eo_range E M _ Gx). pose proof (eo_range E M _ Gy).
  assert (val_code (enc v) = val_code (enc v')) as Hc by nia. rewrite Hc in H. f_equal; [lia|by apply (eo_code E M)].
Qed.

Lemma pair_bytes_inj d x y :
  0 < gd_group d <= 8 -> G < 2 ^ (8 * gd_group d) -> pair_ok x -> pair_ok y -> pair_bytes d x = pair_bytes d y -> x = y.
Proof using E.
  intros Hg Hlt [Hx Gx] [Hy Gy] H. destruct x as [g v], y as [g' v']. unfold pair_bytes in H. cbn [fst snd] in *.
  apply app_inj_1 in H as [Ha Hb]; [|by rewrite !length_bytes_le]. f_equal; [|by apply (eo_bytes E)].
  apply (f_equal of_le) in Ha. rewrite !of_bytes_le_word in Ha by (unfold is_word; replace (8 * _) with (8 * gd_group d) by lia; lia). lia.
Qed.

Lemma pair_vector d x : table_ok d -> G < 2 ^ (8 * gd_group d) -> gd_value d = primary -> pair_ok x -> vector_ok d (pair_bytes d x).
Proof using E.
  intros K Hlt Hp [Hx Gx]. pose proof (tk_group _ K) as Kg. split.
  - unfold pair_bytes. rewrite zlen_app, (eo_length E _ Gx), (tk_total _ K). unfold zlen. rewrite length_bytes_le. lia.
  - unfold RowEmpty. apply bool_decide_eq_false_2. unfold pair_bytes, slice. change (Z.to_nat 0) with 0%nat. rewrite drop_0, take_app_le by (rewrite length_bytes_le; lia).
    rewrite take_ge by by rewrite length_bytes_le. intros H. apply (f_equal of_le) in H.
    rewrite of_bytes_le_word in H by (unfold is_word; replace (8 * _) with (8 * gd_group d) by lia; lia).
    assert (Hz : forall n, of_le (replicate n 0) = 0) by (induction n as [|n IH]; [done|cbn; by rewrite IH]). rewrite Hz in H. lia.
Qed.

Lemma pair_in_positions S x : max_code <> NULL_VALUE_64 -> Forall pair_ok S -> pair_ok x -> pair_position x ∈ map pair_position S <-> x ∈ S.
Proof using E.
  intros M HS Hx. rewrite Forall_forall in HS. rewrite list_elem_of_fmap. split; [|by exists x].
  intros (y & Hy & Hi). rewrite (pair_position_inj x y); auto.
Qed.

Lemma pair_in_vectors d S x :
  0 < gd_group d <= 8 -> G < 2 ^ (8 * gd_group d) -> Forall pair_ok S -> pair_ok x -> pair_bytes d x ∈ map (pair_bytes d) S <-> x ∈ S.
Proof using E.
  intros Hg Hlt HS Hx. rewrite Forall_forall in HS. rewrite list_elem_of_fmap. split; [|by exists x].
  intros (y & Hy & Hi). rewrite (pair_bytes_inj d x y); auto.
Qed.

(** What is answered for a pair, and what is held then. *)
Inductive answer (S : list (Z * V)) (x : Z * V) : GDTResult -> list (Z * V) -> Prop :=
  | ans_exists : x ∈ S -> answer S x GDT_EXISTS S
  | ans_full : x ∉ S -> S <> [] -> answer S x GDT_FULL S
  | ans_added : x ∉ S -> answer S x GDT_ADDED (x :: S).

Lemma put_pair_holds d S x :
  holds_vectors d S -> pair_ok x -> gd_value d = primary -> 
  holds_vectors (put_pair d (fst x) (enc (snd x))) S /\
  slice (gd_input (put_pair d (fst x) (enc (snd x)))) 0 (gd_total d) = pair_bytes d x.
Proof using E.
  intros R [Hx Gx] Hp. pose proof (hv_ok _ _ R) as K. pose proof (tk_group _ K). pose proof (tk_total _ K). pose proof (tk_input _ K). pose proof (tk_value _ K).
  pose proof (eo_length E _ Gx) as Hl. unfold put_pair. set (bs := bytes_le _ _). assert (Hbs : zlen bs = gd_group d) by (unfold bs, zlen; rewrite length_bytes_le; lia).
  split.
  - destruct R as [K' ? ? ? ? ?]. split; try done. destruct K'. split; try done. cbn. rewrite !zlen_overwrite by lia. lia.
  - cbn [with_input gd_input]. rewrite (overwrite_prefix _ bs) by lia.
    rewrite <- (app_nil_r (drop (length bs) (gd_input d))). set (rest := drop (length bs) (gd_input d)).
    assert (Hr : zlen rest = zlen (gd_input d) - gd_group d) by (unfold rest, zlen in *; rewrite length_drop; lia).
    rewrite app_nil_r. replace rest with (take (Z.to_nat primary) rest ++ drop (Z.to_nat primary) rest) by apply take_drop.
    rewrite overwrite_mid by (unfold zlen in *; rewrite ?length_take; lia).
    unfold slice. change (Z.to_nat 0) with 0%nat. rewrite drop_0, app_assoc. unfold pair_bytes. fold bs.
    apply take_app_length'. rewrite length_app. unfold zlen in *. lia.
Qed.

(** Adding a pair, and looking one up. *)
Lemma Add_answer d S x :
  holds_pairs d S -> pair_ok x ->
  exists r d' S', Distinct_Add d (fst x) (enc (snd x)) = Some (r, d') /\ answer S x r S' /\ holds_pairs d' S'.
Proof using E.
  intros (Hnd & HS & R) Hx. unfold Distinct_Add.
  assert (Hnd' : x ∉ S -> NoDup (x :: S)) by (intros; by constructor).
  assert (HS' : Forall pair_ok (x :: S)) by by constructor.
  destruct (gd_filter d) as [f|] eqn:Ef.
  - destruct R as (M & Hf & Hn & Hg). pose proof (pair_position_range x M Hx) as Hr. assert (Ep : filter_position d (fst x) (enc (snd x)) = pair_position x) by (unfold filter_position; by rewrite Hg).
    cbv zeta. rewrite Ep, (fdenotes_Get _ _ _ Hf) by lia. cbn [mbind option_bind]. case_bool_decide as Hb; rewrite pair_in_positions in Hb by done.
    + exists GDT_EXISTS, d, S. split_and!; [done|by constructor|]. split_and!; [done|done|]. by rewrite Ef.
    + destruct (Set_row f _ Hf (pair_position x)) as (f' & -> & Hf' & He); [lia|]. cbn [mbind option_bind].
      eexists GDT_ADDED, _, (x :: S). split_and!; [done|by constructor|]. split_and!; [auto|done|]. cbn [with_filter gd_filter gd_factor].
      split_and!; [done| |by rewrite (evolves_NoObj _ _ He)|done]. eapply fdenotes_ext; [exact Hf'|]. intros r _. cbn [map].
      destruct (Z.eqb_spec r (pair_position x)) as [->|Hne]; cbn [orb]; symmetry; [apply bool_decide_eq_true_2; left|].
      apply bool_decide_ext. rewrite elem_of_cons. tauto.
  - destruct R as (R & Hlt & Hp). pose proof (hv_ok _ _ R) as K. pose proof (tk_group _ K) as Kg.
    destruct (put_pair_holds d _ x R Hx Hp) as [R' Hs].
    destruct (FindCurrentRow_outcome _ _ _ false R' Hs) as (r & d' & -> & O); [by apply (pair_vector d x)|].
    pose proof (pair_in_vectors d S x Kg Hlt HS Hx) as Hi.
    inversion O as [Hin|Hin Hne|Hin|d1 Hin Hfo [R1 (t & occ & ->)]]; subst; try done; rewrite Hi in Hin.
    + exists GDT_EXISTS, (put_pair d (fst x) (enc (snd x))), S. split_and!; [done|by constructor|]. split_and!; [done|done|]. cbn [put_pair with_input gd_filter]. by rewrite Ef.
    + exists GDT_FULL, (put_pair d (fst x) (enc (snd x))), S. split_and!; [done|constructor; [done|by intros ->]|]. split_and!; [done|done|]. cbn [put_pair with_input gd_filter]. by rewrite Ef.
    + eexists GDT_ADDED, _, (x :: S). split_and!; [done|by constructor|]. split_and!; [auto|done|]. cbn [put_pair with_input with_t gd_filter]. by rewrite Ef.
Qed.

Lemma Find_answer d S x :
  holds_pairs d S -> pair_ok x ->
  exists r d', Distinct_Find d (fst x) (enc (snd x)) = Some (r, d') /\ (r = GDT_EXISTS <-> x ∈ S) /\ holds_pairs d' S.
Proof using E.
  intros (Hnd & HS & R) Hx. unfold Distinct_Find. destruct (gd_filter d) as [f|] eqn:Ef.
  - destruct R as (M & Hf & Hn & Hg). pose proof (pair_position_range x M Hx) as Hr. assert (Ep : filter_position d (fst x) (enc (snd x)) = pair_position x) by (unfold filter_position; by rewrite Hg).
    rewrite Ep, (fdenotes_Get _ _ _ Hf) by lia. cbn [mbind option_bind]. eexists _, d. split; [done|].
    split; [|split_and!; [done|done|by rewrite Ef]]. case_bool_decide as Hb; rewrite pair_in_positions in Hb by done; done.
  - destruct R as (R & Hlt & Hp). pose proof (hv_ok _ _ R) as K. pose proof (tk_group _ K) as Kg.
    destruct (put_pair_holds d _ x R Hx Hp) as [R' Hs].
    destruct (FindCurrentRow_outcome _ _ _ true R' Hs) as (r & d' & -> & O); [by apply (pair_vector d x)|].
    pose proof (pair_in_vectors d S x Kg Hlt HS Hx) as Hi.
    inversion O as [Hin|Hin Hne|Hin|d1 Hin Hfo]; subst; try done; rewrite Hi in Hin; eexists _, _; (split; [done|]; split; [done|]);
      (split_and!; [done|done|]; cbn [put_pair with_input gd_filter]; by rewrite Ef).
Qed.
End Pairs.

(** ** Clearing and initialization *)

Lemma cleared_holds d : table_ok d -> holds_vectors (Distinct_Clear d) [].
Proof.
  intros K. destruct K as [Ef Kg Kv Kt Kr Kl Ki]. unfold Distinct_Clear. rewrite Ef.
  set (d' := with_t _ _ _). assert (K' : table_ok d').
  { split; cbn; try done; [apply zlen_replicate; nia|]. rewrite zlen_overwrite by lia. lia. }
  split; [done|constructor| |by intros v Hv%elem_of_nil|done|apply NoDup_nil_2].
  intros r Hr. destruct (row_room d' K' r Hr). cbn [d' with_t gd_t gd_total] in *. rewrite zlen_replicate in * by nia.
  intros Hn. exfalso. unfold RowEmpty in Hn. apply bool_decide_eq_false in Hn. apply Hn. cbn [d' with_t gd_group with_input].
  assert (Hz : forall n off m, slice (replicate n 0) off m = replicate (Z.to_nat m `min` (n - Z.to_nat off)) 0).
  { intros. unfold slice. by rewrite drop_replicate, take_replicate. }
  unfold drow. cbn [d' with_t gd_t gd_total with_input]. rewrite !Hz. f_equal.
  cbn [with_input gd_total] in *. change (Z.to_nat 0) with 0%nat. set (p := r * gd_total d) in *. set (q := gd_total d * gd_rows d) in *. lia.
Qed.

Lemma byte_count_bound fuel m : 0 <= m -> m < 2 ^ (8 * Z.of_nat fuel) -> 0 <= byte_count fuel m <= Z.of_nat fuel /\ m < 2 ^ (8 * byte_count fuel m).
Proof.
  revert m. induction fuel as [|fuel IH]; intros m Hm Hb; cbn [byte_count]; [done|].
  destruct (Z.ltb_spec 0 m); [|rewrite Z.mul_0_r; cbn; lia].
  rewrite Z.shiftr_div_pow2 by lia. change (2 ^ 8) with 256. replace (8 * Z.of_nat (S fuel)) with (8 + 8 * Z.of_nat fuel) in Hb by lia.
  rewrite Z.pow_add_r in Hb by lia. change (2 ^ 8) with 256 in Hb.
  destruct (IH (m / 256)) as [B1 B2]; [apply Z.div_pos; lia|apply Z.div_lt_upper_bound; lia|]. split; [lia|].
  replace (8 * (1 + byte_count fuel (m / 256))) with (8 + 8 * byte_count fuel (m / 256)) by lia. rewrite Z.pow_add_r by lia. change (2 ^ 8) with 256.
  pose proof (Z.div_mod m 256). pose proof (Z.mod_pos_bound m 256). lia.
Qed.

Lemma double_1_3_units : exists u, double_1_3 = DFin u /\ 0 <= u <= 2 * one_units.
Proof. eexists. split; [vm_compute; reflexivity|]. split; apply Z.leb_le; vm_compute; reflexivity. Qed.

Lemma int64_range k : 0 <= k < 2 ^ 62 * one_units -> exists z, int64_of_double (DFin k) = Some z /\ 0 <= z < 2 ^ 62.
Proof.
  intros Hk. pose proof one_units_pos. unfold int64_of_double, int_between. rewrite Z.quot_div_nonneg by lia.
  assert (0 <= k / one_units < 2 ^ 62) by (split; [apply Z.div_pos; lia|apply Z.div_lt_upper_bound; lia]).
  exists (k / one_units). by rewrite (proj2 (andb_true_iff _ _)) by lia.
Qed.

Lemma distinct_rows_ok size total max_no_rows :
  0 < size < 2 ^ 61 -> 0 < total -> 0 <= max_no_rows < 2 ^ 62 -> exists n, distinct_rows size total max_no_rows = Some n /\ 0 < n <= 2 ^ 62.
Proof.
  intros Hs Ht Hm. unfold distinct_rows. pose proof one_units_pos.
  assert (Hq : 0 <= Z.quot size total <= size) by (rewrite Z.quot_div_nonneg by lia; split; [apply Z.div_pos; lia|apply Z.div_le_upper_bound; nia]).
  set (q := Z.quot size total) in *.
  assert (Hn : exists n, (if negb (max_no_rows =? 0) && dlt (dmul (double_of_int (max_no_rows + 1)) double_1_3) (double_of_int q)
                          then int64_of_double (dmul (double_of_int (max_no_rows + 1)) double_1_3) else Some q) = Some n /\ 0 <= n < 2 ^ 62).
  { destruct (negb _ && dlt _ _) eqn:Hlt; [|exists q; split; [done|lia]]. apply andb_true_iff in Hlt as [_ Hlt].
    destruct (double_of_int_spec (max_no_rows + 1)) as [E1 B1]; [lia|]. destruct (double_of_int_spec q) as [E2 B2]; [lia|]. rewrite E1 in *. rewrite E2 in Hlt.
    destruct double_1_3_units as (u & E3 & Hu). rewrite E3 in *. cbn [dmul] in *. set (a := round53 ((max_no_rows + 1) * one_units) 1) in *.
    destruct (round_units_range (a * u) one_units) as (k & Ek & Hk0 & Hk); [nia|lia| |].
    { assert (a * u <= 2 ^ 64 * one_units * (2 * one_units)) by (apply Z.mul_le_mono_nonneg; lia). nia. }
    rewrite Ek in *. cbn [dlt] in Hlt. apply Z.ltb_lt in Hlt. assert (Hq2 : round53 (q * one_units) 1 <= 2 ^ 61 * one_units).
    { apply round53_upper; [lia| |nia]. rewrite one_units_pow, <- Z.pow_add_r by lia. by apply repr53_pow2. }
    apply int64_range. nia. }
  destruct Hn as (n & -> & Hn). cbn [mbind option_bind]. eexists. split; [reflexivity|].
  destruct (Z.ltb_spec n 67); destruct (_ =? 0); lia.
Qed.

Lemma double_0_9_units : exists u, double_0_9 = DFin u /\ 0 <= u <= one_units.
Proof. eexists. split; [vm_compute; reflexivity|]. split; apply Z.leb_le; vm_compute; reflexivity. Qed.

Lemma limit_ok n : 0 < n <= 2 ^ 62 -> exists z, int64_of_double (dmul (double_of_int n) double_0_9) = Some z.
Proof.
  intros Hn. pose proof one_units_pos. destruct (double_of_int_spec n) as [-> B]; [lia|]. destruct double_0_9_units as (u & -> & Hu). cbn [dmul].
  set (a := round53 (n * one_units) 1) in *.
  assert (Ha : a <= 2 ^ 62 * one_units).
  { apply round53_upper; [lia| |nia]. rewrite one_units_pow, <- Z.pow_add_r by lia. by apply repr53_pow2. }
  assert (Hau : a * u <= 2 ^ 62 * one_units * one_units) by (apply Z.mul_le_mono_nonneg; lia).
  rewrite round_units_nonneg; [|nia|lia|].
  - destruct (int_between_range (- 2 ^ 63) (2 ^ 63) (round53 (a * u) one_units)) as (z & E & _); [lia| |by exists z].
    split; [apply round53_nonneg; nia|]. apply Z.le_lt_trans with (2 ^ 62 * one_units); [|nia]. apply round53_upper; [lia| |nia].
    rewrite one_units_pow, <- Z.pow_add_r by lia. by apply repr53_pow2.
  - rewrite max_units_pow. apply Z.le_lt_trans with (2 ^ 62 * one_units); [|nia]. apply round53_upper; [lia| |nia].
    rewrite one_units_pow, <- Z.pow_add_r by lia. by apply repr53_pow2.
Qed.

Lemma Distinct_hash_holds junk_t junk_input group value length size max_no_rows crc :
  0 < group <= 8 -> 0 <= value < 2 ^ 31 -> 0 < size < 2 ^ 61 -> 0 <= max_no_rows < 2 ^ 62 ->
  exists d, Distinct_hash junk_t junk_input group value length size max_no_rows crc = Some d
            /\ holds_vectors d [] /\ gd_group d = group /\ gd_value d = value /\ gd_filter d = None.
Proof.
  intros Hg Hv Hs Hm. unfold Distinct_hash. cbv zeta. destruct (distinct_rows_ok size (value + group) max_no_rows) as (n & -> & Hn); [lia..|].
  cbn [mbind option_bind]. destruct (limit_ok n Hn) as (z & ->). cbn [mbind option_bind]. eexists. split; [reflexivity|].
  split; [|done]. apply cleared_holds. split; cbn; try done; try lia.
  - unfold zlen. rewrite length_resize. nia.
  - unfold zlen. rewrite length_resize. rewrite Z.quot_div_nonneg by lia. pose proof (Z.div_mod (value + group) 4). pose proof (Z.mod_pos_bound (value + group) 4). lia.
Qed.

Section Runs.
Context {V : Type} (enc : V -> encoded) (good : V -> Prop) (G max_code primary : Z) (E : encoder_ok enc good max_code primary).

Lemma InitializeVC_holds junk_t junk_input max_no_rows max_bytes :
  0 < G < 2 ^ 62 -> 0 <= primary < 2 ^ 31 -> max_code = NULL_VALUE_64 \/ 0 <= max_code -> max_no_rows = NULL_VALUE_64 \/ 0 <= max_no_rows < 2 ^ 62 ->
  exists d, InitializeVC junk_t junk_input G max_code primary max_no_rows max_bytes = Some d /\ holds_pairs enc good G max_code primary d [].
Proof using Type.
  intros HG Hp Hc Hr. unfold InitializeVC. set (size := if 2000000000 <? max_bytes then GBYTE else _).
  assert (Hs : 0 < size <= 2000000000) by (unfold size, GBYTE, MBYTE; repeat case_match; lia).
  set (rows := if max_no_rows =? NULL_VALUE_64 then 0 else max_no_rows).
  assert (0 <= rows < 2 ^ 62) by (unfold rows; destruct (Z.eqb_spec max_no_rows NULL_VALUE_64); lia).
  destruct (_ && _) eqn:Eb.
  - repeat (apply andb_true_iff in Eb as [Eb ?]). apply negb_true_iff, Z.eqb_neq in Eb. assert (0 <= max_code) by tauto.
    assert (0 <= G * (max_code + 1)) by nia. set (n := G * (max_code + 1)) in *.
    assert (n < 8 * 2000000000 + 8).
    { rewrite Z.quot_div_nonneg in * by lia. pose proof (Z.div_mod n 8). pose proof (Z.mod_pos_bound n 8). lia. }
    destruct (Filter_new_rows n false) as (f & -> & Hf & Hn); [lia|]. cbn [mbind option_bind]. eexists. split; [reflexivity|].
    split_and!; [apply NoDup_nil_2|done|]. cbn [gd_filter]. destruct (Reset_all_denotes _ _ Hf) as [Hf' Hn']. split_and!; [done| |by rewrite Hn'|done].
    eapply fdenotes_ext; [exact Hf'|]. intros r _. symmetry. apply bool_decide_eq_false_2. apply not_elem_of_nil.
  - destruct (byte_count_bound 8 (G + 1)) as [B1 B2]; [lia|lia|].
    assert (0 < byte_count 8 (G + 1)) by (destruct (Z.eq_dec (byte_count 8 (G + 1)) 0) as [E0|]; [rewrite E0 in B2; cbn in B2; lia|lia]).
    destruct (Distinct_hash_holds junk_t junk_input (byte_count 8 (G + 1)) primary 0 size rows false) as (d & -> & R & Eg & Ev & Ef); [lia..|].
    exists d. split; [done|]. split_and!; [apply NoDup_nil_2|done|]. rewrite Ef. split_and!; [done|rewrite Eg; lia|done].
Qed.

(** Adding pairs one after the other. *)
Fixpoint add_all (d : DistinctTable) (l : list (Z * V)) : option (list GDTResult * DistinctTable) :=
  match l with
  | [] => Some ([], d)
  | (g, v) :: l => '(r, d) ← Distinct_Add d g (enc v); '(rs, d) ← add_all d l; Some (r :: rs, d)
  end.

(** The pairs that were added. *)
Definition added (l : list (Z * V)) (rs : list GDTResult) : list (Z * V) :=
  map fst (List.filter (fun p => bool_decide (snd p = GDT_ADDED)) (zip l rs)).

Record run_ok (S : list (Z * V)) (l : list (Z * V)) (rs : list GDTResult) : Prop := {
  ro_length : length rs = length l;
  ro_NoDup : NoDup (added l rs ++ S);
  ro_exists : forall i x, l !! i = Some x -> (rs !! i = Some GDT_EXISTS <-> x ∈ added (take i l) (take i rs) ++ S);
  ro_first : S = [] -> rs !! 0%nat <> Some GDT_FULL
}.

Lemma added_snoc_perm (S : list (Z * V)) l x : (forall y, y ∈ (x :: l) ++ S <-> y ∈ l ++ x :: S).
Proof. intros y. rewrite !elem_of_app, !elem_of_cons. tauto. Qed.

Lemma add_all_ok l : forall d S,
  holds_pairs enc good G max_code primary d S -> Forall (pair_ok good G) l ->
  exists rs d', add_all d l = Some (rs, d') /\ run_ok S l rs /\ holds_pairs enc good G max_code primary d' (rev (added l rs) ++ S).
Proof using E.
  induction l as [|x l IH]; intros d S R Hl; cbn [add_all].
  { exists [], d. split; [done|]. split; [|done]. split; [done|apply R|done|done]. }
  apply Forall_cons in Hl as [Hx Hl]. destruct (Add_answer enc good G max_code primary E d S x R Hx) as (r & d1 & S1 & Ea & A & R1).
  destruct x as [g v]. cbn [fst snd] in Ea. rewrite Ea. cbn [mbind option_bind].
  destruct (IH d1 S1 R1 Hl) as (rs & d' & -> & [L N Q F] & R'). exists (r :: rs), d'. cbn [mbind option_bind]. split; [done|].
  inversion A as [Hin|Hin Hne|Hin]; subst; cbn [added zip zip_with List.filter map fst snd bool_decide] in *.
  - split; [|done]. split; cbn; [by rewrite L|done| |done]. intros [|i] y; cbn [lookup list_lookup take]; [intros [= <-]|].
    + split; [done|done].
    + intros Hy. rewrite Q by done. done.
  - split; [|done]. split; cbn; [by rewrite L|done| |done]. intros [|i] y; cbn [lookup list_lookup take]; [intros [= <-]; done|].
    intros Hy. rewrite Q by done. done.
  - assert (Ea' : added ((g, v) :: l) (GDT_ADDED :: rs) = (g, v) :: added l rs) by done. split.
    + split; [cbn; by rewrite L| | |done].
      * rewrite Ea'. eapply NoDup_Permutation_proper; [|exact N]. apply Permutation_middle.
      * intros [|i] y; cbn [lookup list_lookup take]; [intros [= <-]; done|]. intros Hy. rewrite Q by done.
        rewrite <- (added_snoc_perm S). done.
    + assert (Er : rev ((g, v) :: added l rs) ++ S = rev (added l rs) ++ (g, v) :: S) by (cbn; by rewrite <- app_assoc).
      rewrite <- Er in R'. exact R'.
Qed.
End Runs.

Lemma Clear_pairs {V : Type} (enc : V -> encoded) good G max_code primary d S :
  holds_pairs enc good G max_code primary d S -> holds_pairs enc good G max_code primary (Distinct_Clear d) [].
Proof.
  intros (_ & _ & R). split_and!; [apply NoDup_nil_2|done|]. destruct (gd_filter d) as [f|] eqn:Ef.
  - destruct R as (M & Hf & Hn & Hg). unfold Distinct_Clear. rewrite Ef. cbn. destruct (Reset_all_denotes _ _ Hf) as [Hf' Hn'].
    split_and!; [done| |by rewrite Hn'|done]. eapply fdenotes_ext; [exact Hf'|]. intros r _. symmetry. apply bool_decide_eq_false_2. apply not_elem_of_nil.
  - destruct R as (R & Hlt & Hp). pose proof (cleared_holds d (hv_ok _ _ R)) as C. unfold Distinct_Clear in *. rewrite Ef in *. cbn [with_t with_input gd_filter]. by rewrite Ef.
Qed.

(** The group that is read back from the input buffer is the group that was put there. *)
Lemma GroupNoFromInput_put d g v :
  table_ok d -> 0 <= g < 2 ^ (8 * gd_group d) - 1 -> g < 2 ^ 63 -> zlen (val_bytes v) = gd_value d ->
  GroupNoFromInput (put_pair d g v) = g /\ value_from_input (put_pair d g v) = val_bytes v.
Proof.
  intros K Hg Hg63 Hv. pose proof (tk_group _ K). pose proof (tk_total _ K). pose proof (tk_input _ K). pose proof (tk_value _ K).
  unfold GroupNoFromInput, value_from_input, put_pair. cbn [with_input gd_input gd_group gd_value]. set (bs := bytes_le _ _).
  assert (Hbs : zlen bs = gd_group d) by (unfold bs, zlen; rewrite length_bytes_le; lia). split.
  - rewrite slice_overwrite_other by (rewrite ?zlen_overwrite by lia; lia). rewrite <- Hbs at 1. rewrite slice_overwrite_same by lia. unfold bs.
    rewrite of_bytes_le_word by (unfold is_word; replace (8 * _) with (8 * gd_group d) by lia; lia). rewrite swrap_id; [lia|done|unfold is_sword; lia].
  - rewrite <- Hv. rewrite slice_overwrite_same by lia. done.
Qed.

(** ** What is proved *)

(** An aggregation with DISTINCT counts no value twice and loses none unnoticed.  Of the pairs of
    a group and a value that are added to a new table, each is answered to exist if and only if it was
    added before; no pair is added twice; the others were added, or rejected, but not the first, so
    that every pass makes progress; and a look-up finds exactly the pairs that were added.  This holds
    for the filter and for the hash table, whatever the hash. *)
Theorem Distinct_counts_once {V : Type} (enc : V -> encoded) (good : V -> Prop) (G max_code primary max_no_rows max_bytes : Z) (junk_t junk_input : list Z) :
  encoder_ok enc good max_code primary -> 0 < G < 2 ^ 62 -> 0 <= primary < 2 ^ 31 ->
  max_code = NULL_VALUE_64 \/ 0 <= max_code -> max_no_rows = NULL_VALUE_64 \/ 0 <= max_no_rows < 2 ^ 62 ->
  exists d, InitializeVC junk_t junk_input G max_code primary max_no_rows max_bytes = Some d /\
  forall l, Forall (pair_ok good G) l ->
  exists rs d', add_all enc d l = Some (rs, d') /\ length rs = length l /\ NoDup (added l rs) /\ rs !! 0%nat <> Some GDT_FULL
    /\ (forall i x, l !! i = Some x -> (rs !! i = Some GDT_EXISTS <-> x ∈ added (take i l) (take i rs)))
    /\ (forall x, pair_ok good G x -> exists r d'', Distinct_Find d' (fst x) (enc (snd x)) = Some (r, d'') /\ (r = GDT_EXISTS <-> x ∈ added l rs)).
Proof.
  intros E HG Hp Hc Hr. destruct (InitializeVC_holds enc good G max_code primary junk_t junk_input max_no_rows max_bytes HG Hp Hc Hr) as (d & Ei & R).
  exists d. split; [done|]. intros l Hl. destruct (add_all_ok enc good G max_code primary E l d [] R Hl) as (rs & d' & Ea & [L N Q F] & R').
  exists rs, d'. rewrite app_nil_r in *. split_and!; [done|done|done|by apply F| |].
  - intros i x Hx. rewrite (Q i x Hx). by rewrite app_nil_r.
  - intros x Hx. destruct (Find_answer enc good G max_code primary E d' _ x R' Hx) as (r & d'' & Ef & Hin & _).
    exists r, d''. split; [done|]. rewrite Hin, !list_elem_of_In. symmetry. apply in_rev.
Qed.

Definition byte_code (v : Z) : encoded := mkEncoded v [v].

Lemma byte_code_ok : encoder_ok byte_code (fun v => 0 <= v < 256) 255 1.
Proof. split; cbn; try done; [intros; lia|intros v w _ _; congruence]. Qed.

Example Distinct_counts_once_witness :
  exists d, InitializeVC [] [] 3 255 1 0 1000 = Some d /\
  forall l, Forall (pair_ok (fun v => 0 <= v < 256) 3) l ->
  exists rs d', add_all byte_code d l = Some (rs, d') /\ length rs = length l /\ NoDup (added l rs) /\ rs !! 0%nat <> Some GDT_FULL
    /\ (forall i x, l !! i = Some x -> (rs !! i = Some GDT_EXISTS <-> x ∈ added (take i l) (take i rs)))
    /\ (forall x, pair_ok (fun v => 0 <= v < 256) 3 x ->
          exists r d'', Distinct_Find d' (fst x) (byte_code (snd x)) = Some (r, d'') /\ (r = GDT_EXISTS <-> x ∈ added l rs)).
Proof. apply Distinct_counts_once; [apply byte_code_ok|lia|lia|right; lia|right; lia]. Defined.

(** The filter and the hash table on the same pairs. *)
Example filter_and_hash :
  let l := [(0, 7); (2, 7); (0, 7); (1, 9)] in
  let run rows := (d ← InitializeVC [] [] 3 255 1 rows 1000; '(rs, _) ← add_all byte_code d l; Some (rs, bool_decide (is_Some (gd_filter d)))) in
  run 100 = Some ([GDT_ADDED; GDT_ADDED; GDT_EXISTS; GDT_ADDED], true)
  /\ run 1 = Some ([GDT_ADDED; GDT_ADDED; GDT_EXISTS; GDT_ADDED], false).
Proof. by vm_compute. Qed.
