(* ===== verification/GroupTable.v ===== *)
(** * Tables of groups (core/GroupTable.h, core/GroupTable.cpp)

    A grouping table has a table of matching rows ([MatchTable]), one encoder for each grouping column
    ([KeyEncoder]) and one aggregator for each aggregated column, perhaps with a table of distinct
    values.  A row of the matching table is the encoded key, then the cells of the aggregators.

    The columns are numbered from 0 among the grouping and among the aggregated ones.  What a virtual
    column gives for a row is a [source].  Encoders with a second buffer, for the originals of texts
    with a collation, are left out, and so are the sizes of buffers that are asked from the memory
    manager and the log. *)

From stdpp Require Import option sets.
From S2P Require Import Prelude BinTools ByteFile IntEncoders Doubles Aggregators MatchTable MatchHash MatchSimple MatchCreate DistinctTable.

(** ** What a grouping table uses *)

Class KeyEncoder (Enc Val : Type) := {
  ke_size : Enc -> Z;                        (* GetPrimarySize *)
  ke_max_code : Enc -> Z;                    (* MaxCode *)
  ke_encode : Enc -> Val -> list Z;          (* Encode, without statistics *)
  ke_decode : Enc -> list Z -> Val;          (* GetValue64 *)
  ke_update : Enc -> list Z -> Enc;          (* UpdateStatistics *)
  ke_clear : Enc -> Enc                      (* ClearStatistics *)
}.

(** The value of an aggregated column in a row: [IsNull], [GetValueInt64], [GetValueString], and what
    the encoder of the distinct values makes of it. *)
Record source := mkSource { src_null : bool; src_int : Z; src_text : option (list Z); src_code : encoded }.

Record Column := mkColumn { col_agg : Aggregator; col_off : Z; col_distinct : option DistinctTable }.

Record GroupTable (T Enc : Type) := mkGroups {
  vm_tab : T;
  input_buffer : list Z;
  encoders : list (Enc * Z);                 (* encoder, with its offset *)
  columns : list Column;                     (* aggregator, aggregated_col_offset, gdistinct *)
  not_full : bool
}.

Arguments mkGroups {T Enc}.
Arguments vm_tab {T Enc}.
Arguments input_buffer {T Enc}.
Arguments encoders {T Enc}.
Arguments columns {T Enc}.
Arguments not_full {T Enc}.

Definition olift {A : Type} (o : option A) : ares A := match o with Some a => AOk a | None => AUndef end.

(** ** The widths *)

Definition round4 (n : Z) : Z := 4 * ((n + 3) / 4).

(** The offsets of the encoders and the width of the keys. *)
Fixpoint encoder_offsets {Enc Val : Type} `{!KeyEncoder Enc Val} (es : list Enc) (width : Z) : list (Enc * Z) * Z :=
  match es with
  | [] => ([], width)
  | e :: es => let '(l, w) := encoder_offsets es (width + ke_size e) in ((e, width) :: l, w)
  end.

(** The offsets of the aggregators, [input] bytes after the beginning of a row, and the width of a row. *)
Fixpoint column_offsets (input : Z) (cs : list (Aggregator * option DistinctTable)) (total : Z) : list Column * Z :=
  match cs with
  | [] => ([], total)
  | (a, d) :: cs => let '(l, w) := column_offsets input cs (round4 (total + BufferByteSize a)) in (mkColumn a (total - input) d :: l, w)
  end.

Section Operations.
Context {T Enc Val : Type} `{!MatchTable T} `{!KeyEncoder Enc Val}.

Abbreviation Groups := (GroupTable T Enc).

Definition with_tab (g : Groups) (t : T) : Groups := mkGroups t (input_buffer g) (encoders g) (columns g) (not_full g).
Definition with_buffer (g : Groups) (buf : list Z) : Groups := mkGroups (vm_tab g) buf (encoders g) (columns g) (not_full g).
Definition with_columns (g : Groups) (cs : list Column) : Groups := mkGroups (vm_tab g) (input_buffer g) (encoders g) cs (not_full g).
Definition with_full (g : Groups) (b : bool) : Groups := mkGroups (vm_tab g) (input_buffer g) (encoders g) (columns g) b.
Definition with_agg (c : Column) (a : Aggregator) : Column := mkColumn a (col_off c) (col_distinct c).
Definition with_distinct (c : Column) (d : DistinctTable) : Column := mkColumn (col_agg c) (col_off c) (Some d).

(** ** Clearing *)

Definition ClearStatistics (es : list (Enc * Z)) : list (Enc * Z) := map (fun p => (ke_clear (fst p), snd p)) es.

Definition clear_column (c : Column) : Column := mkColumn (ResetStatistics (col_agg c)) (col_off c) (Distinct_Clear <$> col_distinct c).

Definition ClearAll (g : Groups) : Groups :=
  mkGroups (vm_clear (vm_tab g)) (input_buffer g) (ClearStatistics (encoders g)) (map clear_column (columns g)) true.

Definition ClearUsed : Groups -> Groups := ClearAll.

Definition ClearDistinct (g : Groups) : Groups := with_columns g (map clear_column (columns g)).

Definition InvalidateAggregationStatistics (g : Groups) : Groups :=
  with_columns g (map (fun c => with_agg c (ResetStatistics (col_agg c))) (columns g)).

(** The greatest number that the bytes of a key can be, if it is easily known. *)
Definition max_group_code (es : list Enc) (width : Z) : Z :=
  match es with
  | [] => PLUS_INF_64
  | e0 :: es =>
      let code := if (width =? 1) && (0 <? ke_max_code e0) then ke_max_code e0 else PLUS_INF_64 in
      match es with
      | [e1] => if (width =? 2) && (0 <? ke_max_code e1) then ke_max_code e1 * 256 + ke_max_code e0 else code
      | _ => code
      end
  end.

(** The table that [Initialize] makes; [create] makes the matching table for the greatest code and the
    widths of a row, of the input and of the key. *)
Definition Groups_Initialize (create : Z -> Z -> Z -> Z -> option T) (es : list Enc) (cs : list (Aggregator * option DistinctTable)) : option Groups :=
  let '(encs, match_width) := encoder_offsets es 0 in
  let input_width := round4 match_width in
  let '(cols, total) := column_offsets input_width cs input_width in
  let total := if total <? 1 then 1 else total in
  t ← create (max_group_code es match_width) total input_width match_width;
  Some (ClearAll (mkGroups t (replicate (Z.to_nat input_width) 0) encs cols true)).

(** ** Finding a group *)

Definition PutGroupingValue (g : Groups) (col : nat) (v : Val) : Groups :=
  match encoders g !! col with
  | Some (e, off) => with_buffer g (overwrite (input_buffer g) off (ke_encode e v))
  | None => g
  end.

(** [p] is the grouping row. *)
Definition UpdateStatistics_all (p : list Z) (es : list (Enc * Z)) : list (Enc * Z) :=
  map (fun '(e, off) => (ke_update e (slice p off (ke_size e)), off)) es.

Fixpoint reset_columns (t : T) (row : Z) (cs : list Column) : ares (T * list Column) :=
  match cs with
  | [] => AOk (t, [])
  | c :: cs =>
      let '(a, cell) := Reset (col_agg c) in
      t <<- olift (vm_write_aggr t row (col_off c) cell);
      r <<- reset_columns t row cs;
      AOk (fst r, with_agg c a :: snd r)
  end.

Definition FindCurrentRow (g : Groups) : ares (bool * Z * Groups) :=
  r <<- olift (vm_find (vm_tab g) (input_buffer g) (not_full g));
  let '(existed, row, t) := r in
  if (existed : bool) || (row =? NULL_VALUE_64) then AOk (existed, row, with_tab g t)
  else
    let full := negb (vm_full t) && not_full g in
    es <<- (match encoders g with
            | [] => AOk []
            | _ => p <<- olift (vm_read_group t row); AOk (UpdateStatistics_all p (encoders g))
            end);
    r <<- reset_columns t row (columns g);
    AOk (false, row, mkGroups (fst r) (input_buffer g) es (snd r) full).

(** ** Aggregating *)

(** [f] on the cell of a column in a row, with the aggregator of the column. *)
Definition on_cell (g : Groups) (col : nat) (row : Z) (f : Aggregator -> list Z -> ares (Aggregator * list Z)) : ares Groups :=
  c <<- olift (columns g !! col);
  cell <<- olift (vm_read_aggr (vm_tab g) row (col_off c) (BufferByteSize (col_agg c)));
  r <<- f (col_agg c) cell;
  t <<- olift (vm_write_aggr (vm_tab g) row (col_off c) (snd r));
  AOk (with_columns (with_tab g t) (<[col := with_agg c (fst r)]> (columns g))).

Definition is_null_factor (a : Aggregator) (factor : Z) : bool := (factor =? NULL_VALUE_64) && FactorNeeded a.

(** Without a value, for COUNT. *)
Definition PutAggregatedFactor (g : Groups) (col : nat) (row factor : Z) : ares Groups :=
  c <<- olift (columns g !! col);
  if is_null_factor (col_agg c) factor then AThrow else on_cell g col row (fun a cell => PutFactor a cell factor).

Definition Put_source (parse : list Z -> option Z) (s : source) (factor : Z) (as_string : bool) (a : Aggregator) (cell : list Z) : ares (Aggregator * list Z) :=
  if as_string then
    match src_text s with
    | None => if IgnoreNulls a then AOk (a, cell) else PutText parse a cell [] factor
    | Some t => PutText parse a cell t factor
    end
  else if (src_int s =? NULL_VALUE_64) && IgnoreNulls a then AOk (a, cell)
  else PutNumber a cell (src_int s) factor.

Definition put_value (parse : list Z -> option Z) (g : Groups) (col : nat) (row : Z) (s : source) (factor : Z) (as_string : bool) : ares Groups :=
  c <<- olift (columns g !! col);
  if is_null_factor (col_agg c) factor then AThrow else on_cell g col row (Put_source parse s factor as_string).

(** The answer is [false] if there was no place among the distinct values. *)
Definition PutAggregatedValue (parse : list Z -> option Z) (g : Groups) (col : nat) (row : Z) (s : source) (factor : Z) (as_string : bool)
    : ares (bool * Groups) :=
  c <<- olift (columns g !! col);
  match col_distinct c with
  | Some d =>
      if src_null s then AOk (true, g)
      else
        r <<- olift (Distinct_Add d row (src_code s));
        let '(res, d) := r in
        let g := with_columns g (<[col := with_distinct c d]> (columns g)) in
        match res with
        | GDT_EXISTS => AOk (true, g)
        | GDT_FULL => AOk (false, if AlreadyFull d then with_full g false else g)
        | GDT_ADDED => g <<- put_value parse g col row s 1 as_string; AOk (true, g)
        end
  | None => g <<- put_value parse g col row s factor as_string; AOk (true, g)
  end.

Definition PutAggregatedNull (parse : list Z -> option Z) (g : Groups) (col : nat) (row : Z) (as_string : bool) : ares (bool * Groups) :=
  c <<- olift (columns g !! col);
  if bool_decide (is_Some (col_distinct c)) || IgnoreNulls (col_agg c) then AOk (true, g)
  else
    g <<- on_cell g col row (fun a cell => if as_string then PutText parse a cell [] 1 else PutNumber a cell NULL_VALUE_64 1);
    AOk (true, g).

Definition set_distinct (g : Groups) (col : nat) (c : Column) (d : DistinctTable) : Groups :=
  with_columns g (<[col := with_distinct c d]> (columns g)).

(** A pair from the cache of a column: its bytes as they were in the input buffer.  [decode] is what
    the encoder of the distinct values reads from the bytes of a value. *)
Definition PutCachedValue (parse : list Z -> option Z) (decode : list Z -> source) (g : Groups) (col : nat) (cached : list Z) (count_not_null as_text : bool)
    : ares (bool * Groups) :=
  c <<- olift (columns g !! col);
  d <<- olift (col_distinct c);
  r <<- olift (AddFromCache d cached);
  let '(res, d) := r in
  let g := set_distinct g col c d in
  match res with
  | GDT_EXISTS => AOk (true, g)
  | GDT_FULL => AOk (false, if AlreadyFull d then with_full g false else g)
  | GDT_ADDED =>
      let row := GroupNoFromInput d in
      g <<- on_cell g col row (fun a cell =>
              if count_not_null then PutFactor a cell 1
              else let s := decode (value_from_input d) in
                   if as_text then PutText parse a cell (default [] (src_text s)) 1 else PutNumber a cell (src_int s) 1);
      AOk (true, g)
  end.

Definition AddCurrentValueToCache (g : Groups) (col : nat) : option (list Z) :=
  c ← columns g !! col; d ← col_distinct c; Some (gd_input d).

Definition FindDistinctValue (g : Groups) (col : nat) (row v : Z) (code : encoded) : ares (GDTResult * Groups) :=
  c <<- olift (columns g !! col);
  d <<- olift (col_distinct c);
  if v =? NULL_VALUE_64 then AOk (GDT_EXISTS, g)
  else r <<- olift (Distinct_Find d row code); AOk (fst r, set_distinct g col c (snd r)).

Definition AddDistinctValue (g : Groups) (col : nat) (row v : Z) (code : encoded) : ares (GDTResult * Groups) :=
  c <<- olift (columns g !! col);
  d <<- olift (col_distinct c);
  if v =? NULL_VALUE_64 then AOk (GDT_EXISTS, g)
  else r <<- olift (Distinct_Add d row code); AOk (fst r, set_distinct g col c (snd r)).

(** A whole pack, with the parameters that were set in the aggregator. *)
Definition Groups_AggregatePack (g : Groups) (col : nat) (row : Z) : ares (bool * Groups) :=
  c <<- olift (columns g !! col);
  cell <<- olift (vm_read_aggr (vm_tab g) row (col_off c) (BufferByteSize (col_agg c)));
  r <<- AggregatePack (col_agg c) cell;
  t <<- olift (vm_write_aggr (vm_tab g) row (col_off c) (snd (snd r)));
  AOk (fst r, with_columns (with_tab g t) (<[col := with_agg c (fst (snd r))]> (columns g))).

(** ** Results *)

Definition Groups_GetValue64 (g : Groups) (col : nat) (row : Z) : ares Z :=
  c <<- olift (columns g !! col);
  cell <<- olift (vm_read_aggr (vm_tab g) row (col_off c) (BufferByteSize (col_agg c)));
  AOk (GetValue64 (col_agg c) cell).

Definition Groups_GetValueT (g : Groups) (col : nat) (row : Z) : ares (option (list Z)) :=
  c <<- olift (columns g !! col);
  cell <<- olift (vm_read_aggr (vm_tab g) row (col_off c) (BufferByteSize (col_agg c)));
  AOk (GetValueT (col_agg c) cell).

(** The value of a grouping column. *)
Definition GetGroupingValue (g : Groups) (col : nat) (row : Z) : ares Val :=
  e <<- olift (encoders g !! col);
  p <<- olift (vm_read_group (vm_tab g) row);
  AOk (ke_decode (fst e) (slice p (snd e) (ke_size (fst e)))).

Definition IsFull (g : Groups) : bool := negb (not_full g).
Definition GetNoOfGroups (g : Groups) : Z := vm_rows (vm_tab g).

(** ** Merging *)

(** The cells of two rows, column by column. *)
Fixpoint merge_columns (t : T) (row : Z) (sec : T) (sec_row : Z) (cs sec_cs : list Column) : ares (T * list Column) :=
  match cs, sec_cs with
  | c :: cs, c2 :: sec_cs =>
      p1 <<- olift (vm_read_aggr t row (col_off c) (BufferByteSize (col_agg c)));
      p2 <<- olift (vm_read_aggr sec sec_row (col_off c2) (BufferByteSize (col_agg c)));
      r <<- Merge (col_agg c) p1 p2;
      t <<- olift (vm_write_aggr t row (col_off c) (snd r));
      rest <<- merge_columns t row sec sec_row cs sec_cs;
      AOk (fst rest, with_agg c (fst r) :: snd rest)
  | _, _ => AOk (t, cs)
  end.

Definition merge_row (g : Groups) (sec : T) (sec_cs : list Column) : ares Groups :=
  sec_row <<- olift (vm_current sec);
  p <<- olift (vm_read_group sec sec_row);
  r <<- FindCurrentRow (with_buffer g p);
  let '(_, row, g) := r in
  if row =? NULL_VALUE_64 then AUndef
  else
    m <<- merge_columns (vm_tab g) row sec sec_row (columns g) sec_cs;
    AOk (with_columns (with_tab g (fst m)) (snd m)).

(** [while(RowValid())]; the rows that were visited are given up. *)
Fixpoint merge_rows (fuel : nat) (g : Groups) (sec : T) (sec_cs : list Column) : ares (Groups * T) :=
  match fuel with
  | O => if vm_valid sec then AUndef else AOk (g, sec)
  | S fuel =>
      if vm_valid sec then g <<- merge_row g sec sec_cs; merge_rows fuel g (vm_next sec) sec_cs
      else AOk (g, sec)
  end.

Definition Groups_Merge (g sec : Groups) : ares (Groups * Groups) :=
  let sec_tab := vm_rewind (vm_tab sec) true in
  r <<- merge_rows (Z.to_nat (vm_rows (vm_tab sec))) (with_full g true) sec_tab (columns sec);
  AOk (fst r, with_tab sec (vm_clear (snd r))).

(** ** Statistics of a column *)

Fixpoint stats_rows (fuel : nat) (t : T) (off size : Z) (a : Aggregator) : ares (Aggregator * T) :=
  match fuel with
  | O => if vm_valid t then AUndef else AOk (a, t)
  | S fuel =>
      if vm_valid t then
        row <<- olift (vm_current t);
        cell <<- olift (vm_read_aggr t row off size);
        let '(stop, a) := UpdateStatistics a cell in
        if stop : bool then AOk (a, vm_next t) else stats_rows fuel (vm_next t) off size a
      else AOk (a, t)
  end.

Definition Groups_UpdateAttrStats (g : Groups) (col : nat) : ares Groups :=
  c <<- olift (columns g !! col);
  if stats_updated (col_agg c) then AOk g
  else
    let t := vm_rewind (vm_tab g) false in
    r <<- stats_rows (Z.to_nat (vm_rows t)) t (col_off c) (BufferByteSize (col_agg c)) (ResetStatistics (col_agg c));
    AOk (with_columns (with_tab g (snd r)) (<[col := with_agg c (mkAgg true (akind (fst r)))]> (columns g))).
End Operations.
