(* ===== verification/GroupRep.v ===== *)
(** * What a grouping table holds

    A grouping table is correct if it holds a list of groups: for each the encoded key and, for each
    aggregated column, the inputs that were put there; the cell of the column is what the aggregator
    makes of these inputs.  The operations of GroupTable are shown to keep that, over any table of
    matching rows that obeys the laws of [MatchLaws]. *)

From stdpp Require Import option sets.
From S2P Require Import Prelude BinTools ByteFile Aggregators MatchTable DistinctTable GroupTable.

(** The bytes of a counter. *)
Definition ksize (k : kind) : Z := BufferByteSize (mkAgg false k).

Record group := mkGroup { g_key : list Z; g_cols : list (list input) }.

(** ** Cells *)

Lemma same_class_size k k' : same_class k k' -> ksize k' = ksize k.
Proof. by destruct k, k'; try done; cbn; intros; repeat match goal with H : _ /\ _ |- _ => destruct H end; subst. Qed.

Lemma agg_size a k : same_class k (akind a) -> BufferByteSize a = ksize k.
Proof. intros H. rewrite <- (same_class_size _ _ H). by destruct a. Qed.

Lemma zlen_store w v : zlen (store w v) = Z.of_nat (wbytes w).
Proof. unfold store, zlen. by rewrite length_bytes_le. Qed.

Lemma zlen_text_cell n s : 1 <= n -> zlen s <= n -> zlen (text_cell n s) = n + 2.
Proof.
  intros Hn Hs. unfold text_cell. rewrite !zlen_app, zlen_replicate by lia. pose proof (zlen_nonneg s).
  change (zlen (bytes_le 2 (zlen s))) with 2. destruct (Z.eqb_spec (zlen s) 0) as [->|]; unfold zlen in *; cbn [length]; lia.
Qed.

Lemma zlen_opt_text n o : 1 <= n -> good_text n o -> zlen (opt_text n o) = n + 2.
Proof. intros Hn Ho. destruct o as [s|]; cbn; [apply zlen_text_cell; [done|by apply Ho]|apply zlen_replicate; lia]. Qed.

Lemma best_text_fits n cmp better l : Forall (Aggregators.text_ok n cmp) l -> good_text n (best better (omap itext l)).
Proof.
  intros F s Hs%best_In. apply list_elem_of_omap in Hs as (i & Hi & Es). rewrite Forall_forall in F. specialize (F i Hi).
  destruct i; try discriminate. injection Es as ->. by destruct F.
Qed.

Lemma zlen_cell k l : fits k l -> zlen (cell_of k l) = ksize k.
Proof.
  destruct k; cbn [cell_of fits]; unfold opt_cell; rewrite ?zlen_store; try done.
  - intros (Hn & _ & F). apply zlen_opt_text; [lia|by eapply best_text_fits].
  - intros (Hn & _ & F). apply zlen_opt_text; [lia|by eapply best_text_fits].
  - intros (Hn & F). apply zlen_opt_text; [lia|by apply good_text_head].
Qed.

Lemma fits_nil_of k l : fits k l -> fits k [].
Proof. apply (fits_app_l k [] l). Qed.

(** ** Encoders *)

Section Encoders.
Context {Enc Val : Type} `{!KeyEncoder Enc Val}.

(** Encoders that differ in their statistics only. *)
Record same_encoder (e e' : Enc) : Prop := {
  se_size : ke_size e' = ke_size e;
  se_encode : forall v, ke_encode e' v = ke_encode e v;
  se_decode : forall bs, ke_decode e' bs = ke_decode e bs
}.

Class KeyLaws (good : Enc -> Val -> Prop) := {
  kl_size e v : good e v -> zlen (ke_encode e v) = ke_size e;
  kl_bytes e v : good e v -> Forall byte (ke_encode e v);
  kl_decode e v : good e v -> ke_decode e (ke_encode e v) = v;
  kl_nonneg e : 0 <= ke_size e;
  kl_update e p : same_encoder e (ke_update e p);
  kl_clear e : same_encoder e (ke_clear e)
}.

Lemma same_encoder_refl e : same_encoder e e.
Proof. by split. Qed.

Lemma same_encoder_trans e1 e2 e3 : same_encoder e1 e2 -> same_encoder e2 e3 -> same_encoder e1 e3.
Proof. intros [H1 H2 H3] [K1 K2 K3]. split; intros; [by rewrite K1|by rewrite K2|by rewrite K3]. Qed.

Definition same_encoders (es es' : list (Enc * Z)) : Prop := Forall2 (fun p q => same_encoder (fst p) (fst q) /\ snd q = snd p) es es'.

Lemma same_encoders_refl es : same_encoders es es.
Proof. unfold same_encoders. induction es; constructor; [by split; [apply same_encoder_refl|]|done]. Qed.

Lemma same_encoders_trans l1 l2 l3 : same_encoders l1 l2 -> same_encoders l2 l3 -> same_encoders l1 l3.
Proof.
  unfold same_encoders. intros H. revert l3. induction H as [|p q l1 l2 [H1 H2] _ IH]; intros l3 K; inversion K as [|? r ? l3' [K1 K2] K3]; subst; constructor; auto.
  split; [by eapply same_encoder_trans|congruence].
Qed.

Context (good : Enc -> Val -> Prop) `{!KeyLaws good}.

Lemma update_same p es : same_encoders es (UpdateStatistics_all p es).
Proof. unfold same_encoders. induction es as [|[e off] es IH]; constructor; [|done]. split; [apply kl_update|done]. Qed.

Lemma clear_same es : same_encoders es (ClearStatistics es).
Proof. unfold same_encoders. induction es as [|[e off] es IH]; constructor; [|done]. split; [apply kl_clear|done]. Qed.
End Encoders.

(** ** Layout *)

(** The aggregated columns as they are laid out: the classes of the aggregators and their offsets. *)
Record layout_ok (size : Z) (cols : list (kind * Z)) : Prop := {
  lo_inside : forall i k o, cols !! i = Some (k, o) -> 0 <= o /\ 0 <= ksize k /\ o + ksize k <= size;
  lo_fits : forall i k o, cols !! i = Some (k, o) -> fits k [];
  lo_apart : forall i j k o k' o', (i < j)%nat -> cols !! i = Some (k, o) -> cols !! j = Some (k', o') -> o + ksize k <= o'
}.

Definition column_ok (c : Column) (p : kind * Z) : Prop := same_class (fst p) (akind (col_agg c)) /\ col_off c = snd p.

(** The cell of column [i] of a row holds what its inputs give. *)
Definition cell_ok (bs : list Z) (p : kind * Z) (l : list input) : Prop :=
  fits (fst p) l /\ slice bs (snd p) (ksize (fst p)) = cell_of (fst p) l.

Definition group_ok (size : Z) (cols : list (kind * Z)) (e : entry) (g : group) : Prop :=
  e_input e = g_key g /\ zlen (e_aggr e) = size /\ Forall2 (cell_ok (e_aggr e)) cols (g_cols g).

Definition put_inputs (g : group) (col : nat) (l : list input) : group := mkGroup (g_key g) (<[col := l]> (g_cols g)).

Lemma Forall2_other {A B : Type} (P Q : A -> B -> Prop) l k i x y :
  Forall2 P l k -> l !! i = Some x -> Q x y -> (forall j a b, j <> i -> l !! j = Some a -> k !! j = Some b -> P a b -> Q a b) ->
  Forall2 Q l (<[i := y]> k).
Proof.
  intros H Hx Hq Ho. apply Forall2_same_length_lookup_2.
  - rewrite length_insert. by apply Forall2_length in H.
  - intros j a b Ha [(<- & <- & _)|[Hne Hb]]%list_lookup_insert_Some; [congruence|].
    apply (Ho j); [done|done|done|]. by apply (Forall2_lookup_lr _ _ _ _ _ _ H Ha Hb).
Qed.

(** Writing the cell of a column leaves the other cells. *)
Lemma group_ok_write size cols e g col k o l cell :
  layout_ok size cols -> group_ok size cols e g -> cols !! col = Some (k, o) -> fits k l -> cell = cell_of k l ->
  group_ok size cols (put_bytes e o cell) (put_inputs g col l).
Proof.
  intros L (Hk & Hl & Hc) Ec F ->. pose proof (zlen_cell k l F) as Hz. destruct (lo_inside _ _ L _ _ _ Ec) as (B1 & B2 & B3).
  split_and!; cbn [put_bytes e_input e_aggr put_inputs g_key g_cols]; [done|rewrite zlen_overwrite; lia|].
  apply (Forall2_other _ _ _ _ _ (k, o) _ Hc Ec).
  - split; [done|]. cbn [fst snd]. rewrite <- Hz. by apply slice_overwrite_same.
  - intros j [k' o'] l' Hne Ej Hl' [F' Es]. cbn [fst snd] in *. split; [done|]. cbn [fst snd]. rewrite <- Es.
    destruct (lo_inside _ _ L _ _ _ Ej) as (C1 & C2 & C3). apply slice_overwrite_other; try lia.
    destruct (Nat.lt_trichotomy j col) as [Hlt|[->|Hgt]]; [|done|].
    + left. apply (lo_apart _ _ L _ _ _ _ _ _ Hlt Ej Ec).
    + right. rewrite Hz. apply (lo_apart _ _ L _ _ _ _ _ _ Hgt Ec Ej).
Qed.

(** ** The table *)

Section Rep.
Context {T Enc Val : Type} `{!MatchTable T} `{!KeyEncoder Enc Val}.
Context (rep : table_shape -> T -> list entry -> Prop) (at_ : table_shape -> T -> list entry -> bool -> nat -> Prop) `{!MatchLaws rep at_}.
Context (good : Enc -> Val -> Prop) `{!KeyLaws good}.
Context (sh : table_shape) (cols : list (kind * Z)) (es0 : list (Enc * Z)).

Record groups_rep (g : GroupTable T Enc) (G : list entry) (gs : list group) : Prop := {
  gr_rep : rep sh (vm_tab g) G;
  gr_layout : layout_ok (sh_aggr sh) cols;
  gr_groups : Forall2 (group_ok (sh_aggr sh) cols) G gs;
  gr_columns : Forall2 column_ok (columns g) cols;
  gr_encoders : same_encoders es0 (encoders g);
  gr_full : not_full g = true -> zlen G < sh_room sh
}.

(** What putting a value leaves as it was. *)
Record kept (g g' : GroupTable T Enc) : Prop := {
  kp_buffer : input_buffer g' = input_buffer g;
  kp_encoders : encoders g' = encoders g;
  kp_full : not_full g' = not_full g;
  kp_distinct : map col_distinct (columns g') = map col_distinct (columns g)
}.

Lemma kept_refl g : kept g g.
Proof. by split. Qed.

Lemma kept_trans g1 g2 g3 : kept g1 g2 -> kept g2 g3 -> kept g1 g3.
Proof. intros [] []. split; congruence. Qed.

Lemma insert_map {A B : Type} (f : A -> B) (l : list A) i x y : l !! i = Some x -> f y = f x -> map f (<[i := y]> l) = map f l.
Proof. intros Hx Hf. change (map f (<[i := y]> l)) with (f <$> <[i := y]> l). rewrite list_fmap_insert, Hf. apply list_insert_id. by rewrite list_lookup_fmap, Hx. Qed.

Lemma column_at g G gs col k o :
  groups_rep g G gs -> cols !! col = Some (k, o) ->
  exists c, columns g !! col = Some c /\ same_class k (akind (col_agg c)) /\ col_off c = o.
Proof.
  intros R E. destruct (Forall2_lookup_r _ _ _ _ _ (gr_columns _ _ _ R) E) as (c & Ec & [H1 H2]). by exists c.
Qed.

Lemma column_change cs col c c' k o :
  Forall2 column_ok cs cols -> cols !! col = Some (k, o) -> cs !! col = Some c -> column_ok c' (k, o) -> Forall2 column_ok (<[col := c']> cs) cols.
Proof. intros H E _ Hc. rewrite <- (list_insert_id cols col (k, o) E). by apply Forall2_insert. Qed.

Lemma cell_read g G gs i e gr col k o l :
  groups_rep g G gs -> G !! i = Some e -> gs !! i = Some gr -> cols !! col = Some (k, o) -> g_cols gr !! col = Some l ->
  fits k l /\ forall a, same_class k (akind a) -> vm_read_aggr (vm_tab g) (e_row e) o (BufferByteSize a) = Some (cell_of k l).
Proof.
  intros R Ei Eg Ec El. destruct (lo_inside _ _ (gr_layout _ _ _ R) _ _ _ Ec) as (B1 & B2 & B3).
  destruct (Forall2_lookup_lr _ _ _ _ _ _ (gr_groups _ _ _ R) Ei Eg) as (_ & _ & Hc).
  destruct (Forall2_lookup_lr _ _ _ _ _ _ Hc Ec El) as [F Es]. cbn [fst snd] in *. split; [done|]. intros a Ha.
  rewrite (agg_size a k Ha), (law_read sh (vm_tab g) G i e o (ksize k) (gr_rep _ _ _ R) Ei) by lia. by rewrite Es.
Qed.

Lemma on_cell_spec g G gs i e gr col k o l l' f :
  groups_rep g G gs -> G !! i = Some e -> gs !! i = Some gr -> cols !! col = Some (k, o) -> g_cols gr !! col = Some l -> fits k l' ->
  (forall a, same_class k (akind a) -> gives a (f a (cell_of k l)) (cell_of k l')) ->
  exists g', on_cell g col (e_row e) f = AOk g' /\ kept g g'
    /\ groups_rep g' (<[i := put_bytes e o (cell_of k l')]> G) (<[i := put_inputs gr col l']> gs).
Proof.
  intros R Ei Eg Ec El F' Hf. destruct (column_at g G gs col k o R Ec) as (c & Hc & Hk & Ho). unfold on_cell. rewrite Hc. cbn [olift abind].
  destruct (cell_read g G gs i e gr col k o l R Ei Eg Ec El) as [F Hread]. rewrite Ho, (Hread _ Hk). cbn [olift abind].
  destruct (Hf _ Hk) as (a' & -> & Ha'). cbn [abind fst snd]. destruct (lo_inside _ _ (gr_layout _ _ _ R) _ _ _ Ec) as (B1 & B2 & B3).
  pose proof (zlen_cell k l' F') as Hz.
  destruct (law_write sh (vm_tab g) G i e o (cell_of k l') (gr_rep _ _ _ R) Ei) as (t' & -> & R'); [lia|lia|]. cbn [olift abind].
  eexists. split; [reflexivity|]. split.
  - split; try done. cbn. by apply (insert_map _ _ _ c).
  - split; cbn [with_columns with_tab vm_tab columns encoders not_full]; [done|apply R| | |apply R|unfold zlen; rewrite length_insert; apply R].
    + apply Forall2_insert; [apply R|]. eapply group_ok_write; [apply R| |done..]. by apply (Forall2_lookup_lr _ _ _ _ _ _ (gr_groups _ _ _ R) Ei Eg).
    + eapply column_change; [apply R|done|done|]. split; [|done]. cbn. by eapply same_class_trans.
Qed.

(** ** Finding a group *)

Definition no_inputs {A : Type} (cs : list A) : list (list input) := map (fun _ => []) cs.

Lemma cells_before_write L done bs k o cell :
  layout_ok (sh_aggr sh) (done ++ (k, o) :: L) -> zlen bs = sh_aggr sh -> zlen cell = ksize k ->
  Forall2 (cell_ok bs) done (no_inputs done) -> Forall2 (cell_ok (overwrite bs o cell)) done (no_inputs done).
Proof.
  intros Lo Hb Hz H. assert (Ek : (done ++ (k, o) :: L) !! length done = Some (k, o)) by by rewrite lookup_app_r, Nat.sub_diag by lia.
  destruct (lo_inside _ _ Lo _ _ _ Ek) as (B1 & B2 & B3). apply Forall2_same_length_lookup_2; [by apply Forall2_length in H|].
  intros i [k' o'] l Ei El. destruct (Forall2_lookup_lr _ _ _ _ _ _ H Ei El) as [F Es]. split; [done|]. cbn [fst snd] in *. rewrite <- Es.
  assert (Ej : (done ++ (k, o) :: L) !! i = Some (k', o')) by (apply lookup_app_Some; by left).
  destruct (lo_inside _ _ Lo _ _ _ Ej) as (C1 & C2 & C3). apply slice_overwrite_other; try lia. left.
  apply (lo_apart _ _ Lo i (length done) k' o' k o); [by eapply lookup_lt_Some|done|done].
Qed.

Lemma reset_columns_spec todo : forall done t G0 e cs,
  layout_ok (sh_aggr sh) (done ++ todo) -> rep sh t (G0 ++ [e]) -> zlen (e_aggr e) = sh_aggr sh ->
  Forall2 (cell_ok (e_aggr e)) done (no_inputs done) -> Forall2 column_ok cs todo ->
  exists t' cs' bs, reset_columns t (e_row e) cs = AOk (t', cs') /\ rep sh t' (G0 ++ [mkEntry (e_row e) (e_input e) bs]) /\ zlen bs = sh_aggr sh
    /\ Forall2 (cell_ok bs) (done ++ todo) (no_inputs (done ++ todo)) /\ Forall2 column_ok cs' todo /\ map col_distinct cs' = map col_distinct cs.
Proof using MatchLaws0.
  induction todo as [|[k o] todo IH]; intros done t G0 e cs Lo R Hz Hd Hc; inversion Hc as [|c ? cs1 ? [Hk Ho] Hc']; subst; cbn [reset_columns].
  { exists t, [], (e_aggr e). rewrite app_nil_r. split_and!; try done. by destruct e. }
  cbn [fst snd] in *. destruct (Reset_cell (col_agg c)) as [Hcell Ha]. destruct (Reset (col_agg c)) as [a cell] eqn:Er. cbn [fst snd] in *.
  rewrite (same_class_cell _ _ _ Hk) in Hcell. subst cell.
  assert (Ek : (done ++ (k, o) :: todo) !! length done = Some (k, o)) by by rewrite lookup_app_r, Nat.sub_diag by lia.
  destruct (lo_inside _ _ Lo _ _ _ Ek) as (B1 & B2 & B3). pose proof (lo_fits _ _ Lo _ _ _ Ek) as F. pose proof (zlen_cell k [] F) as Hcl.
  assert (Ei : (G0 ++ [e]) !! length G0 = Some e) by by rewrite lookup_app_r, Nat.sub_diag by lia.
  destruct (law_write sh t _ _ e (col_off c) (cell_of k []) R Ei) as (t1 & -> & R1); [rewrite Ho; lia..|]. cbn [olift abind].
  rewrite insert_app_r_alt, Nat.sub_diag in R1 by lia. cbn [list_insert insert] in R1.
  set (e1 := put_bytes e (col_off c) (cell_of k [])) in *.
  destruct (IH (done ++ [(k, o)]) t1 G0 e1 cs1) as (t' & cs' & bs & E1 & R' & Hbs & Hcells & Hcs & Hds); [by rewrite <- app_assoc|done| | |done|].
  { cbn. rewrite zlen_overwrite; lia. }
  { unfold no_inputs. rewrite map_app. cbn [map]. apply Forall2_app.
    - cbn [e1 put_bytes e_aggr]. rewrite Ho. by apply (cells_before_write todo done (e_aggr e) k o).
    - constructor; [|done]. split; [done|]. cbn [e1 put_bytes e_aggr fst snd]. rewrite Ho, <- Hcl. by apply slice_overwrite_same. }
  change (e_row e1) with (e_row e) in *. rewrite E1. cbn [abind fst snd e1 put_bytes e_row e_input] in *. rewrite <- app_assoc in Hcells. exists t', (with_agg c a :: cs'), bs. split_and!; try done.
  - constructor; [|done]. split; [|done]. cbn. by eapply same_class_trans.
  - cbn. by rewrite Hds.
Qed.

(** The key is among the groups, or it is added as a new one, or there is no place for it. *)
Lemma find_hit g G gs e :
  groups_rep g G gs -> input_ok sh (input_buffer g) -> e ∈ G -> key sh (e_input e) = key sh (input_buffer g) ->
  FindCurrentRow g = AOk (true, e_row e, g).
Proof.
  intros R Hb He Hk. unfold FindCurrentRow. rewrite (law_hit sh _ G _ _ e (gr_rep _ _ _ R)) by done. cbn [olift abind orb].
  by destruct g.
Qed.

Lemma find_no_place g G gs :
  groups_rep g G gs -> input_ok sh (input_buffer g) -> (forall e, e ∈ G -> key sh (e_input e) <> key sh (input_buffer g)) -> not_full g = false ->
  FindCurrentRow g = AOk (false, NULL_VALUE_64, g).
Proof.
  intros R Hb Hno Hf. unfold FindCurrentRow. rewrite Hf, (law_miss sh _ G _ (gr_rep _ _ _ R)) by done. cbn [olift abind orb].
  rewrite Z.eqb_refl. by destruct g.
Qed.

Lemma find_new g G gs :
  groups_rep g G gs -> input_ok sh (input_buffer g) -> (forall e, e ∈ G -> key sh (e_input e) <> key sh (input_buffer g)) -> not_full g = true ->
  exists g' e, FindCurrentRow g = AOk (false, e_row e, g') /\ e_row e <> NULL_VALUE_64 /\ e_input e = input_buffer g
    /\ groups_rep g' (G ++ [e]) (gs ++ [mkGroup (input_buffer g) (no_inputs cols)])
    /\ input_buffer g' = input_buffer g /\ not_full g' = negb (sh_room sh <=? zlen G + 1)
    /\ map col_distinct (columns g') = map col_distinct (columns g).
Proof using KeyLaws0 MatchLaws0.
  intros R Hb Hno Hf. unfold FindCurrentRow. rewrite Hf. pose proof (gr_full _ _ _ R Hf) as Hroom.
  destruct (law_add sh _ G _ (gr_rep _ _ _ R) Hb Hno Hroom) as (t & r & aggr & -> & Hr & R1 & Ha). cbn [olift abind orb].
  destruct (Z.eqb_spec r NULL_VALUE_64); [done|]. set (e := mkEntry r (input_buffer g) aggr) in *.
  assert (Ei : (G ++ [e]) !! length G = Some e) by by rewrite lookup_app_r, Nat.sub_diag by lia.
  pose proof (law_group sh t _ _ e R1 Ei) as Eg. cbn [e_row e e_input] in Eg.
  set (es := match encoders g with [] => _ | _ => _ end).
  assert (Hes : exists es', es = AOk es' /\ same_encoders (encoders g) es').
  { unfold es. destruct (encoders g) as [|x l] eqn:Ee; [exists []; split; [done|apply same_encoders_refl]|].
    rewrite Eg. cbn [olift abind]. eexists. split; [reflexivity|]. rewrite <- Ee. eapply update_same. done. }
  destruct Hes as (es' & -> & Hes). cbn [abind].
  destruct (reset_columns_spec cols [] t G e (columns g)) as (t' & cs' & bs & E & R' & Hbs & Hcells & Hcs & Hds);
    [apply R|done|done|constructor|apply R|].
  cbn [e e_row e_input] in E, R'. rewrite E. cbn [abind fst snd]. eexists _, (mkEntry r (input_buffer g) bs). split; [reflexivity|].
  split_and!; [done|done| |done| |done].
  - split; cbn [vm_tab columns encoders not_full]; [done|apply R| |done| |].
    + apply Forall2_app; [apply R|]. constructor; [|done]. done.
    + eapply same_encoders_trans; [apply R|done].
    + rewrite (law_full sh _ _ R1), !zlen_snoc. intros [Hlt%negb_true_iff _]%andb_true_iff. lia.
  - cbn. rewrite (law_full sh _ _ R1), zlen_snoc. by rewrite andb_true_r.
Qed.

(** ** Putting values *)

Definition kfactor (k : kind) : bool := FactorNeeded (mkAgg false k).

Lemma same_class_factor k a : same_class k (akind a) -> FactorNeeded a = kfactor k.
Proof. destruct a as [st k']. by destruct k, k'. Qed.

Definition factor_ok (k : kind) (factor : Z) : Prop := factor <> NULL_VALUE_64 \/ kfactor k = false.

Lemma factor_known k a factor : same_class k (akind a) -> factor_ok k factor -> is_null_factor a factor = false.
Proof.
  intros H F. unfold is_null_factor. rewrite (same_class_factor _ _ H). destruct F as [F|F]; [|by rewrite F, andb_false_r].
  by rewrite (proj2 (Z.eqb_neq _ _) F).
Qed.

(** The input that a value is; nulls are none. *)
Definition source_input (s : source) (factor : Z) (as_string : bool) : option input :=
  if as_string then (fun t => IText t factor) <$> src_text s
  else if src_int s =? NULL_VALUE_64 then None else Some (INumber (src_int s) factor).

Definition add_input (l : list input) (i : option input) : list input := l ++ match i with Some i => [i] | None => [] end.

Lemma Put_source_cell parse s factor as_string k l a :
  same_class k (akind a) -> fits k (add_input l (source_input s factor as_string)) ->
  gives a (Put_source parse s factor as_string a (cell_of k l)) (cell_of k (add_input l (source_input s factor as_string))).
Proof.
  intros C F. unfold source_input in *.
  assert (Hput : forall i, fits k (l ++ [i]) -> gives a (Put parse a (cell_of k l) i) (cell_of k (l ++ [i]))).
  { intros i Fi. rewrite <- !(same_class_cell _ _ _ C). apply Put_cell. by apply (same_class_fits _ _ _ C). }
  assert (Hnone : gives a (AOk (a, cell_of k l)) (cell_of k l)) by (eexists; split; [reflexivity|apply same_class_refl]).
  unfold Put_source, IgnoreNulls. rewrite andb_true_r. unfold add_input in *. destruct as_string.
  - destruct (src_text s) as [t|]; cbn in *; [by apply (Hput (IText t factor))|by rewrite app_nil_r].
  - destruct (_ =? _); [by rewrite app_nil_r|by apply (Hput (INumber (src_int s) factor))].
Qed.

Lemma put_value_spec parse g G gs i e gr col k o l s factor as_string :
  groups_rep g G gs -> G !! i = Some e -> gs !! i = Some gr -> cols !! col = Some (k, o) -> g_cols gr !! col = Some l ->
  factor_ok k factor -> let l' := add_input l (source_input s factor as_string) in fits k l' ->
  exists g', put_value parse g col (e_row e) s factor as_string = AOk g' /\ kept g g'
    /\ groups_rep g' (<[i := put_bytes e o (cell_of k l')]> G) (<[i := put_inputs gr col l']> gs).
Proof.
  intros R Ei Eg Ec El Hf l' F. destruct (column_at g G gs col k o R Ec) as (c & Hc & Hk & Ho). unfold put_value. rewrite Hc. cbn [olift abind].
  rewrite (factor_known k _ _ Hk Hf). apply (on_cell_spec g G gs i e gr col k o l l' _ R Ei Eg Ec El F).
  intros a Ha. by apply Put_source_cell.
Qed.

Lemma put_factor_spec g G gs i e gr col k o l factor :
  groups_rep g G gs -> G !! i = Some e -> gs !! i = Some gr -> cols !! col = Some (k, o) -> g_cols gr !! col = Some l ->
  factor_ok k factor -> fits k (l ++ [IFactor factor]) ->
  exists g', PutAggregatedFactor g col (e_row e) factor = AOk g' /\ kept g g'
    /\ groups_rep g' (<[i := put_bytes e o (cell_of k (l ++ [IFactor factor]))]> G) (<[i := put_inputs gr col (l ++ [IFactor factor])]> gs).
Proof.
  intros R Ei Eg Ec El Hf F. destruct (column_at g G gs col k o R Ec) as (c & Hc & Hk & Ho). unfold PutAggregatedFactor. rewrite Hc. cbn [olift abind].
  rewrite (factor_known k _ _ Hk Hf). apply (on_cell_spec g G gs i e gr col k o l _ _ R Ei Eg Ec El F).
  intros a Ha. pose proof (PutFactor_cell a l factor) as P. rewrite !(same_class_cell _ _ _ Ha) in P. apply P. by apply (same_class_fits _ _ _ Ha).
Qed.

(** ** Reading the counters *)

Lemma value_spec g G gs i e gr col k o l :
  groups_rep g G gs -> G !! i = Some e -> gs !! i = Some gr -> cols !! col = Some (k, o) -> g_cols gr !! col = Some l ->
  exists v t, Groups_GetValue64 g col (e_row e) = AOk v /\ Groups_GetValueT g col (e_row e) = AOk t /\ answers k l v t.
Proof.
  intros R Ei Eg Ec El. destruct (column_at g G gs col k o R Ec) as (c & Hc & Hk & Ho). unfold Groups_GetValue64, Groups_GetValueT. rewrite Hc. cbn [olift abind].
  destruct (cell_read g G gs i e gr col k o l R Ei Eg Ec El) as [F Hread]. rewrite Ho, (Hread _ Hk). cbn [olift abind]. do 2 eexists. split_and!; [done..|].
  pose proof (cell_answers (mkAgg false k) l F) as A. cbn [akind] in A. destruct (col_agg c) as [st k']. cbn [akind] in Hk.
  by destruct (same_class_value k k' false st (cell_of k l) Hk) as [<- <-].
Qed.
End Rep.
