(* ===== verification/GroupBy.v ===== *)
(** * Grouping (core/GroupByWrapper.h, .cpp, core/AggregationAlgorithm.cpp)

    [AggregationAlgorithm::MultiDimensionalGroupByScan] reads the rows pack by pack and puts them into
    a grouping table.  If the table is full, the rows of further groups stay in a filter, and are read
    again in the next pass, after the groups were sent to the output.  [AggregateRough] looks at what
    is known of a whole pack first: all its rows may belong to one group, or none may change a counter.

    The input is a list of packs: for every row the values of the grouping columns and the [source]s of
    the aggregated ones, and what the virtual columns know of the pack.  HAVING, the sender, delayed
    columns, threads, the statistics of the run and the check whether the query was killed are left out;
    the filters and caches of the rows that were omitted by DISTINCT are one list. *)

From stdpp Require Import option sets.
From S2P Require Import Prelude BinTools ByteFile IntEncoders Doubles Aggregators FilterDefs MatchTable DistinctTable GroupTable.

Inductive input_mode := NO_VALUE | AS_INT64 | AS_TEXT.

Record row_data (Val : Type) := mkRow { rd_keys : list Val; rd_sources : list source }.

Arguments mkRow {Val}.
Arguments rd_keys {Val}.
Arguments rd_sources {Val}.

(** What a virtual column knows of a pack. *)
Record pack_column := mkPackColumn {
  pc_uniform : bool;               (* GetPackOntologicalStatus is UNIFORM *)
  pc_no_nulls : Z;                 (* GetNoNulls, or NULL_VALUE_64 *)
  pc_min : Z; pc_max : Z;          (* GetMinInt64, GetMaxInt64 *)
  pc_min_exact : Z; pc_max_exact : Z;
  pc_sum : Z;
  pc_distinct : list Z             (* GetListOfDistinctValues *)
}.

Record pack (Val : Type) := mkPack {
  pk_rows : list (row_data Val);
  pk_nulls : bool;                 (* NullsPossibleInPack *)
  pk_keys : list pack_column;
  pk_values : list pack_column
}.

Arguments mkPack {Val}.
Arguments pk_rows {Val}.
Arguments pk_nulls {Val}.
Arguments pk_keys {Val}.
Arguments pk_values {Val}.

(** An aggregated column: the input mode, and of the virtual column, if there is one, whether it is
    left to its lookup codes or texts under MIN or MAX, and what is known of all rows. *)
Record value_column := mkValueColumn {
  vl_mode : input_mode;
  vl_present : bool;               (* virt_col is not NULL *)
  vl_unordered : bool;             (* is_lookup or AS_TEXT, with GT_MIN or GT_MAX *)
  vl_nulls_only : bool;            (* RoughNullsOnly *)
  vl_min : Z; vl_max : Z           (* RoughMin, RoughMax *)
}.

(** Encoders also take a number and compare their statistics with a pack. *)
Class RoughEncoder (Enc : Type) := {
  re_put : Enc -> Z -> option (list Z);      (* PutValue64 *)
  re_unordered : Enc -> bool;                (* the column is of a text or a floating-point type *)
  re_impossible : Enc -> Z -> Z -> bool      (* ImpossibleValues *)
}.

Record Wrapper (T Enc : Type) := mkWrapper {
  gt : GroupTable T Enc;
  tuple_left : option Filter;
  no_more_groups : bool;
  no_groups : Z;
  keys_left : list bool;                     (* pack_not_omitted, of the grouping columns *)
  values_left : list bool;                   (* and of the aggregated ones *)
  omitted : list (nat * Z * option (list Z)) (* rows omitted by DISTINCT: column, row, cached vector *)
}.

Arguments mkWrapper {T Enc}.
Arguments gt {T Enc}.
Arguments tuple_left {T Enc}.
Arguments no_more_groups {T Enc}.
Arguments no_groups {T Enc}.
Arguments keys_left {T Enc}.
Arguments values_left {T Enc}.
Arguments omitted {T Enc}.

Section Algorithm.
Context {T Enc Val : Type} `{!MatchTable T} `{!KeyEncoder Enc Val} `{!RoughEncoder Enc}.

Abbreviation W := (Wrapper T Enc).
Abbreviation Groups := (GroupTable T Enc).

Definition with_gt (w : W) (g : Groups) : W := mkWrapper g (tuple_left w) (no_more_groups w) (no_groups w) (keys_left w) (values_left w) (omitted w).
Definition with_tuples (w : W) (f : option Filter) : W := mkWrapper (gt w) f (no_more_groups w) (no_groups w) (keys_left w) (values_left w) (omitted w).
Definition with_groups (w : W) (no_more : bool) (n : Z) : W := mkWrapper (gt w) (tuple_left w) no_more n (keys_left w) (values_left w) (omitted w).
Definition with_left (w : W) (ks vs : list bool) : W := mkWrapper (gt w) (tuple_left w) (no_more_groups w) (no_groups w) ks vs (omitted w).
Definition with_omitted (w : W) (l : list (nat * Z * option (list Z))) : W :=
  mkWrapper (gt w) (tuple_left w) (no_more_groups w) (no_groups w) (keys_left w) (values_left w) l.

Definition AddGroup (w : W) : W := with_groups w (no_more_groups w) (no_groups w + 1).
Definition ClearNoGroups (w : W) : W := with_groups w (no_more_groups w) 0.
Definition SetNoMoreGroups (w : W) : W := with_groups w true (no_groups w).

(** ** The rows still to be aggregated *)

Definition InitTupleLeft (w : W) (n : Z) : ares W :=
  match tuple_left w with
  | Some _ => AUndef
  | None => f <<- olift (Filter_new n false); AOk (with_tuples w (Some (Set_all f)))
  end.

Definition AnyTuplesLeft (w : W) : bool := match tuple_left w with Some f => negb (IsEmpty f) | None => false end.

Definition AnyTuplesLeft_between (w : W) (from to : Z) : ares bool :=
  match tuple_left w with Some f => b <<- olift (IsEmptyBetween f from to); AOk (negb b) | None => AOk true end.

Definition TuplesLeftBetween (w : W) (from to : Z) : ares Z :=
  match tuple_left w with Some f => olift (NoOnesBetween f from to) | None => AOk (to - from + 1) end.

Definition CommitResets (w : W) : W := with_tuples w (Commit <$> tuple_left w).
Definition TuplesResetAll (w : W) : W := with_tuples w (Reset_all <$> tuple_left w).

Definition TuplesResetBetween (w : W) (from to : Z) : ares W :=
  match tuple_left w with Some f => f <<- olift (ResetBetween_rows f from to); AOk (with_tuples w (Some f)) | None => AOk w end.

Definition TuplesReset (w : W) (pos : Z) : ares W :=
  match tuple_left w with
  | Some f => f <<- olift (ResetDelayed f (Z.shiftr pos 16) (Z.land pos 65535)); AOk (with_tuples w (Some f))
  | None => AOk w
  end.

Definition TuplesGet (w : W) (pos : Z) : ares bool :=
  match tuple_left w with Some f => olift (Get_row f pos) | None => AOk true end.

Definition TuplesNoOnes (w : W) : Z := match tuple_left w with Some f => NoOnes f | None => 0 end.

(** ** Columns of a pack *)

Definition ResetPackrow (w : W) : W := with_left w (map (fun _ => true) (keys_left w)) (map (fun _ => true) (values_left w)).
Definition OmitKey (w : W) (i : nat) : W := with_left w (<[i := false]> (keys_left w)) (values_left w).
Definition OmitValue (w : W) (i : nat) : W := with_left w (keys_left w) (<[i := false]> (values_left w)).
Definition KeyNotOmitted (w : W) (i : nat) : bool := default false (keys_left w !! i).
Definition ValueNotOmitted (w : W) (i : nat) : bool := default false (values_left w !! i).

(** ** Putting values *)

(** The answer is [false] if the value was omitted because the table of distinct values is full. *)
Definition Wrapper_PutAggregatedValue (parse : list Z -> option Z) (vls : list value_column) (g : Groups) (col : nat) (row : Z) (s : source) (factor : Z)
    : ares (bool * Groups) :=
  v <<- olift (vls !! col);
  match vl_mode v with
  | NO_VALUE => g <<- PutAggregatedFactor g col row factor; AOk (true, g)
  | AS_INT64 => PutAggregatedValue parse g col row s factor false
  | AS_TEXT => PutAggregatedValue parse g col row s factor true
  end.

Definition DistinctlyOmitted (w : W) (col : nat) (pos : Z) : W :=
  with_omitted w (omitted w ++ [(col, pos, AddCurrentValueToCache (gt w) col)]).

(** The columns [col], [col + 1], ... of a row. *)
Fixpoint put_values (parse : list Z -> option Z) (vls : list value_column) (w : W) (col : nat) (pos : Z) (srcs : list source) (factor cur : Z) : ares W :=
  match srcs with
  | [] => AOk w
  | s :: srcs =>
      w <<- (if ValueNotOmitted w col then
               r <<- Wrapper_PutAggregatedValue parse vls (gt w) col pos s factor;
               let w := with_gt w (snd r) in
               AOk (if fst r then w else DistinctlyOmitted w col cur)
             else AOk w);
      put_values parse vls w (S col) pos srcs factor cur
  end.

(** The grouping columns that are not the same for the pack. *)
Fixpoint put_keys (left : list bool) (g : Groups) (col : nat) (keys : list Val) : Groups :=
  match keys with
  | [] => g
  | v :: keys => put_keys left (if default false (left !! col) then PutGroupingValue g col v else g) (S col) keys
  end.

(** ** Whole packs *)

(** [row0] is the row at which the pack begins. *)
Definition PutUniformGroupingValue (g : Groups) (col : nat) (c : pack_column) (v0 : Val) : Groups :=
  match encoders g !! col with
  | Some (e, off) =>
      let put := if pc_min_exact c =? NULL_VALUE_64 then None else re_put e (pc_min_exact c) in
      with_buffer g (overwrite (input_buffer g) off (default (ke_encode e v0) put))
  | None => g
  end.

Definition AddPackIfUniform (g : Groups) (p : pack Val) (col : nat) : bool * Groups :=
  match pk_keys p !! col, pk_rows p with
  | Some c, r0 :: _ =>
      match rd_keys r0 !! col with
      | Some v0 => if pc_uniform c && negb (pk_nulls p) then (true, PutUniformGroupingValue g col c v0) else (false, g)
      | None => (false, g)
      end
  | _, _ => (false, g)
  end.

(** [for(i) if(AddPackIfUniform(i)) OmitColumnForPackrow(i); else uniform = false]. *)
Definition uniform_keys (w : W) (p : pack Val) (n : nat) : bool * W :=
  foldl (fun '(u, w) i => let '(b, g) := AddPackIfUniform (gt w) p i in
                          let w := with_gt w g in
                          if b : bool then (u, OmitKey w i) else (false, w)) (true, w) (seq 0 n).

(** The parameters of an aggregator, set on the column. *)
Definition on_aggregator (g : Groups) (col : nat) (f : Aggregator -> ares Aggregator) : ares Groups :=
  c <<- olift (columns g !! col);
  a <<- f (col_agg c);
  AOk (with_columns g (<[col := with_agg c a]> (columns g))).

(** The values of the pack that the group does not have yet; [None] if the table cannot tell. *)
Fixpoint new_values (codes : Z -> encoded) (g : Groups) (col : nat) (pos : Z) (vs : list Z) : ares (option (list Z) * Groups) :=
  match vs with
  | [] => AOk (Some [], g)
  | v :: vs =>
      r <<- FindDistinctValue g col pos v (codes v);
      let '(res, g) := r in
      match res with
      | GDT_FULL => AOk (None, g)
      | GDT_EXISTS => new_values codes g col pos vs
      | GDT_ADDED => r <<- new_values codes g col pos vs; AOk (cons v <$> fst r, snd r)
      end
  end.

Fixpoint add_values (codes : Z -> encoded) (g : Groups) (col : nat) (pos : Z) (vs : list Z) : ares Groups :=
  match vs with
  | [] => AOk g
  | v :: vs => r <<- AddDistinctValue g col pos v (codes v); add_values codes (snd r) col pos vs
  end.

Definition set_if (b : bool) (a : Aggregator) (v : Z) (f : Aggregator -> Z -> Aggregator) : Aggregator := if b then f a v else a.

(** The minimum and the maximum of the pack; [false] if they are needed and unknown. *)
Definition set_bounds (a : Aggregator) (v : value_column) (c : pack_column) : bool * Aggregator :=
  if PackAggregationNeedsMin a && vl_present v && (pc_min_exact c =? NULL_VALUE_64) then (false, a)
  else
    let a := set_if (PackAggregationNeedsMin a && vl_present v) a (pc_min_exact c) SetAggregatePackMin in
    if PackAggregationNeedsMax a && vl_present v && (pc_max_exact c =? NULL_VALUE_64) then (false, a)
    else (true, set_if (PackAggregationNeedsMax a && vl_present v) a (pc_max_exact c) SetAggregatePackMax).

Definition wrap_sum (vs : list Z) : Z := foldl (fun s v => swrap 64 (s + v)) 0 vs.

(** A column of a pack all of whose rows belong to the group at [pos]: [true] if nothing is left to do. *)
Definition AggregatePackInOneGroup (codes : Z -> encoded) (g : Groups) (col : nat) (v : value_column) (c : pack_column) (pack_size pos rows_in_pack factor : Z)
    : ares (bool * Groups) :=
  k <<- olift (columns g !! col);
  let a := col_agg k in
  if vl_present v && (pc_no_nulls c =? pack_size) && IgnoreNulls a then AOk (true, g)
  else if negb (PackAggregationDistinctIrrelevant a) && bool_decide (is_Some (col_distinct k)) && vl_present v then
    if (zlen (pc_distinct c) =? 0) || ((1 <? zlen (pc_distinct c)) && negb (rows_in_pack =? pack_size)) then AOk (false, g)
    else
      r <<- new_values codes g col pos (pc_distinct c);
      match r with
      | (None, g) => AOk (false, g)
      | (Some [], g) => AOk (true, g)
      | (Some vs, g) =>
          k <<- olift (columns g !! col);
          let a := set_if (PackAggregationNeedsSize a) (col_agg k) (zlen vs) SetAggregatePackNoObj in
          let a := set_if (PackAggregationNeedsNotNulls a) a (zlen vs) SetAggregatePackNotNulls in
          a <<- (if PackAggregationNeedsSum a then SetAggregatePackSum a (wrap_sum vs) 1 else AOk a);
          let '(known, a) := set_bounds a v c in
          let g := with_columns g (<[col := with_agg k a]> (columns g)) in
          if negb known then AOk (false, g)
          else
            r <<- Groups_AggregatePack g col pos;
            if fst r then g <<- add_values codes (snd r) col pos vs; AOk (true, g) else AOk r
      end
  else if FactorNeeded a && (factor =? NULL_VALUE_64) then AThrow
  else
    let a := set_if (PackAggregationNeedsSize a) a (SafeMultiplication rows_in_pack factor) SetAggregatePackNoObj in
    if PackAggregationNeedsNotNulls a && vl_present v && (pc_no_nulls c =? NULL_VALUE_64) then
      AOk (false, with_columns g (<[col := with_agg k a]> (columns g)))
    else
      let a := set_if (PackAggregationNeedsNotNulls a && vl_present v) a (SafeMultiplication (rows_in_pack - pc_no_nulls c) factor) SetAggregatePackNotNulls in
      if PackAggregationNeedsSum a && vl_present v && (pc_sum c =? NULL_VALUE_64) then
        AOk (false, with_columns g (<[col := with_agg k a]> (columns g)))
      else
        a <<- (if PackAggregationNeedsSum a && vl_present v then SetAggregatePackSum a (pc_sum c) factor else AOk a);
        let '(known, a) := set_bounds a v c in
        let g := with_columns g (<[col := with_agg k a]> (columns g)) in
        if known then Groups_AggregatePack g col pos else AOk (false, g).

Definition AttrMayBeUpdatedByPack (g : Groups) (col : nat) (c : pack_column) : bool :=
  match encoders g !! col with
  | Some (e, _) => if re_unordered e then true else negb (re_impossible e (pc_min c) (pc_max c))
  | None => true
  end.

(** [true] if no value between the bounds changes a counter; [only_nulls] tells of the rows in question. *)
Definition will_not_update (g : Groups) (col : nat) (v : value_column) (only_nulls : bool) (lo hi : Z) : ares (bool * Groups) :=
  if vl_unordered v || negb (vl_present v) then AOk (false, g)
  else if 1024 <? GetNoOfGroups g then AOk (false, g)
  else
    g <<- Groups_UpdateAttrStats g col;
    if only_nulls then AOk (true, g)
    else
      g <<- on_aggregator g col (fun a =>
              let a := set_if (PackAggregationNeedsMin a) a lo SetAggregatePackMin in
              AOk (set_if (PackAggregationNeedsMax a) a hi SetAggregatePackMax));
      c <<- olift (columns g !! col);
      AOk (PackCannotChangeAggregation (col_agg c), g).

Definition PackWillNotUpdateAggregation (g : Groups) (col : nat) (v : value_column) (c : pack_column) (pack_size : Z) : ares (bool * Groups) :=
  will_not_update g col v (pc_no_nulls c =? pack_size) (pc_min c) (pc_max c).

Definition DataWillNotUpdateAggregation (g : Groups) (col : nat) (v : value_column) : ares (bool * Groups) :=
  will_not_update g col v (vl_nulls_only v) (vl_min v) (vl_max v).

(** ** AggregateRough *)

Record rough := mkRough {
  rg_skip : bool;                  (* the value returned *)
  rg_done : bool;                  (* packrow_done *)
  rg_fixed : bool;                 (* aggregations_not_changeable *)
  rg_stop : bool;                  (* stop_all *)
  rg_pos : Z                       (* uniform_pos *)
}.

Section Rough.
Context (codes : Z -> encoded) (vls : list value_column) (p : pack Val) (rows_in_pack factor : Z).

Definition pack_size : Z := zlen (pk_rows p).

(** The aggregated columns of a pack that belongs to one group: [true] if all of them are done. *)
Fixpoint one_group (w : W) (col : nat) (cs : list pack_column) (pos : Z) : ares (bool * W) :=
  match cs with
  | [] => AOk (true, w)
  | c :: cs =>
      v <<- olift (vls !! col);
      r <<- AggregatePackInOneGroup codes (gt w) col v c pack_size pos rows_in_pack factor;
      let w := with_gt w (snd r) in
      let w := if fst r then OmitValue w col else w in
      rest <<- one_group w (S col) cs pos;
      AOk (fst r && fst rest, snd rest)
  end.

(** Is there a grouping column of the pack that has values of no group? *)
Fixpoint out_of_scope (w : W) (col : nat) (cs : list pack_column) : bool :=
  match cs with
  | [] => false
  | c :: cs => (KeyNotOmitted w col && negb (AttrMayBeUpdatedByPack (gt w) col c)) || out_of_scope w (S col) cs
  end.

(** The aggregated columns that the pack cannot change: the answers are [aggregations_not_changeable]
    and [all_done]. *)
Fixpoint unchanged_columns (w : W) (col : nat) (cs : list pack_column) (fixed all_done : bool) : ares (bool * bool * W) :=
  match cs with
  | [] => AOk (fixed, all_done, w)
  | c :: cs =>
      v <<- olift (vls !! col);
      r <<- (if ValueNotOmitted w col then
               r <<- PackWillNotUpdateAggregation (gt w) col v c pack_size;
               let w := with_gt w (snd r) in
               AOk (if fst r then (fixed, if IsFull (gt w) then OmitValue w col else w) else (false, w))
             else AOk (fixed, w));
      let '(fixed, w) := r in
      unchanged_columns w (S col) cs fixed (all_done && negb (ValueNotOmitted w col))
  end.

(** [stop_all]: no row at all can change a counter. *)
Fixpoint all_unchanged (w : W) (col : nat) (vs : list value_column) : ares (bool * W) :=
  match vs with
  | [] => AOk (true, w)
  | v :: vs =>
      r <<- DataWillNotUpdateAggregation (gt w) col v;
      rest <<- all_unchanged (with_gt w (snd r)) (S col) vs;
      AOk (fst r && fst rest, snd rest)
  end.

(** After the test whether the pack belongs to one group. *)
Definition rough_rest (w : W) (pos : Z) : ares (rough * W) :=
  let full := IsFull (gt w) in
  if full && out_of_scope w 0 (pk_keys p) then AOk (mkRough true false false false pos, w)
  else
    let all_done := full && negb (zlen vls =? 0) in
    r <<- unchanged_columns w 0 (pk_values p) true all_done;
    let '(fixed, all_done, w) := r in
    if all_done && IsFull (gt w) && no_more_groups w then
      r <<- all_unchanged w 0 vls;
      AOk (mkRough true true fixed (fst r) pos, snd r)
    else AOk (mkRough all_done false fixed false pos, w).

Definition AggregateRough (w : W) : ares (rough * W) :=
  let '(uniform, w) := uniform_keys w p (length (pk_keys p)) in
  if uniform then
    r <<- FindCurrentRow (gt w);
    let '(existed, pos, g) := r in
    let w := with_gt w g in
    if pos =? NULL_VALUE_64 then AOk (mkRough true false false false pos, w)
    else
      let w := if existed : bool then w else with_gt (AddGroup w) (InvalidateAggregationStatistics (gt w)) in
      r <<- one_group w 0 (pk_values p) pos;
      let '(done, w) := r in
      if done : bool then AOk (mkRough true true false false pos, w) else rough_rest w pos
  else rough_rest w NULL_VALUE_64.
End Rough.

(** ** AggregatePackrow *)

Section Packrow.
Context (parse : list Z -> option Z) (codes : Z -> encoded) (vls : list value_column) (factor : Z).
Context (no_obj upper_groups : Z).      (* t->NoObj(), UpperApproxOfGroups() *)

(** A row: [true] if the aggregation is finished, and whether the counters are still fixed. *)
Definition aggregate_row (w : W) (r : row_data Val) (cur uniform_pos : Z) (fixed : bool) : ares (bool * bool * W) :=
  b <<- TuplesGet w cur;
  if negb b then AOk (false, fixed, w)
  else
    f <<- (if negb (uniform_pos =? NULL_VALUE_64) then AOk (true, uniform_pos, gt w)
           else FindCurrentRow (put_keys (keys_left w) (gt w) 0 (rd_keys r)));
    let '(existed, pos, g) := f in
    let w := with_gt w g in
    if pos =? NULL_VALUE_64 then AOk (false, fixed, w)
    else
      w <<- TuplesReset w cur;
      let w := if existed : bool then w else AddGroup w in
      let last := negb existed && (no_obj + no_groups w =? upper_groups) in
      let w := if last then SetNoMoreGroups w else w in
      if last && (zlen vls =? 0) then AOk (true, fixed, TuplesResetAll w)
      else
        let fixed := fixed && existed in
        if fixed then AOk (false, fixed, w)
        else w <<- put_values parse vls w 0 pos (rd_sources r) factor cur; AOk (false, fixed, w).

Fixpoint aggregate_rows (w : W) (rows : list (row_data Val)) (cur uniform_pos : Z) (fixed : bool) : ares (bool * W) :=
  match rows with
  | [] => AOk (false, CommitResets w)
  | r :: rows =>
      x <<- aggregate_row w r cur uniform_pos fixed;
      let '(finished, fixed, w) := x in
      if finished : bool then AOk (true, w) else aggregate_rows w rows (cur + 1) uniform_pos fixed
  end.

(** [true] if the aggregation is finished (the result 1). *)
Definition AggregatePackrow (w : W) (p : pack Val) (cur : Z) : ares (bool * W) :=
  let last_row := cur + pack_size p - 1 in
  any <<- AnyTuplesLeft_between w cur last_row;
  if negb any then AOk (false, w)
  else
    let w := ResetPackrow w in
    rows_in_pack <<- TuplesLeftBetween w cur last_row;
    r <<- AggregateRough codes vls p rows_in_pack factor w;
    let '(rg, w) := r in
    let no_more := no_obj + no_groups w =? upper_groups in
    let w := if no_more then SetNoMoreGroups w else w in
    if no_more && ((zlen vls =? 0) || rg_stop rg) then AOk (true, TuplesResetAll w)
    else
      let done := rg_done rg || (no_more && rg_skip rg) in
      w <<- (if done then TuplesResetBetween w cur last_row else AOk w);
      if done || rg_skip rg then AOk (false, w)
      else aggregate_rows w (pk_rows p) cur (rg_pos rg) (rg_fixed rg).

(** [while(mit.IsValid())]; [memory_left] is MemoryBlocksLeft. *)
Fixpoint aggregate_packs (memory_left : T -> Z) (w : W) (ps : list (pack Val)) (cur : Z) : ares W :=
  match ps with
  | [] => AOk w
  | p :: ps =>
      r <<- AggregatePackrow w p cur;
      let '(finished, w) := r in
      if finished : bool then AOk w
      else
        let w := if negb (IsFull (gt w)) && (memory_left (vm_tab (gt w)) =? 0) then with_gt w (with_full (gt w) false) else w in
        aggregate_packs memory_left w ps (cur + pack_size p)
  end.
End Packrow.

(** ** The output *)

(** A row of the result: the keys and the values of the aggregators. *)
Record result := mkResult { rs_keys : list Val; rs_values : list (Z * option (list Z)) }.

Fixpoint read_keys (g : Groups) (row : Z) (cols : list nat) : ares (list Val) :=
  match cols with
  | [] => AOk []
  | i :: cols => v <<- GetGroupingValue g i row; vs <<- read_keys g row cols; AOk (v :: vs)
  end.

Fixpoint read_values (g : Groups) (row : Z) (cols : list nat) : ares (list (Z * option (list Z))) :=
  match cols with
  | [] => AOk []
  | i :: cols => v <<- Groups_GetValue64 g i row; t <<- Groups_GetValueT g i row; vs <<- read_values g row cols; AOk ((v, t) :: vs)
  end.

(** [AggregateFillOutput]: the first [offset] rows are omitted. *)
Definition AggregateFillOutput (g : Groups) (row offset : Z) (out : list result) : ares (Z * list result) :=
  if 0 <? offset then AOk (offset - 1, out)
  else
    ks <<- read_keys g row (seq 0 (length (encoders g)));
    vs <<- read_values g row (seq 0 (length (columns g)));
    AOk (offset, out ++ [mkResult ks vs]).

(** [while(RowValid())]: the groups, until the limit is reached. *)
Fixpoint fill_output (fuel : nat) (g : Groups) (limit offset : Z) (out : list result) : ares (Z * list result * Groups) :=
  match fuel with
  | O => if vm_valid (vm_tab g) then AUndef else AOk (offset, out, g)
  | S fuel =>
      if vm_valid (vm_tab g) then
        if limit <=? zlen out then AOk (offset, out, g)
        else
          row <<- olift (vm_current (vm_tab g));
          r <<- AggregateFillOutput g row offset out;
          fill_output fuel (with_tab g (vm_next (vm_tab g))) limit (fst r) (snd r)
      else AOk (offset, out, g)
  end.

(** ** The passes *)

Definition AddAllGroupingConstants (g : Groups) (consts : list (nat * Val)) : Groups :=
  foldl (fun g '(col, v) => PutGroupingValue g col v) g consts.

Section Scan.
Context (parse : list Z -> option Z) (codes : Z -> encoded) (vls : list value_column) (factor : Z).
Context (memory_left : T -> Z) (upper_groups limit : Z) (consts : list (nat * Val)) (ps : list (pack Val)).

(** One round of [do ... while(AnyTuplesLeft())]: [true] if another one follows. *)
Definition group_pass (w : W) (offset : Z) (out : list result) : ares (bool * (W * Z * list result)) :=
  let w := with_gt (ClearNoGroups w) (AddAllGroupingConstants (ClearDistinct (gt w)) consts) in
  w <<- aggregate_packs parse codes vls factor (zlen out) upper_groups memory_left w ps 0;
  let g := with_tab (gt w) (vm_rewind (vm_tab (gt w)) false) in
  r <<- fill_output (Z.to_nat (vm_rows (vm_tab g))) g limit offset out;
  let '(offset, out, g) := r in
  let w := with_gt w g in
  if limit <=? zlen out then AOk (false, (w, offset, out))
  else if AnyTuplesLeft w then AOk (true, (with_gt w (ClearUsed (gt w)), offset, out))
  else AOk (false, (w, offset, out)).

Fixpoint group_passes (fuel : nat) (w : W) (offset : Z) (out : list result) : ares (Z * list result) :=
  match fuel with
  | O => AUndef
  | S fuel =>
      r <<- group_pass w offset out;
      let '(again, (w, offset, out)) := r in
      if again : bool then group_passes fuel w offset out else AOk (offset, out)
  end.

(** [MultiDimensionalGroupByScan] on a new table; [one_pass] is IsOnePass of the matching table. *)
Definition MultiDimensionalGroupByScan (fuel : nat) (one_pass : T -> bool) (g : Groups) (offset : Z) : ares (Z * list result) :=
  let n := foldr (fun p s => pack_size p + s) 0 ps in
  if MAX_ROW_NUMBER <? n then AThrow
  else
    let w := mkWrapper g None false 0 (map (fun _ => true) (encoders g)) (map (fun _ => true) (columns g)) [] in
    let distinct := existsb (fun c => bool_decide (is_Some (col_distinct c))) (columns g) in
    w <<- (if negb distinct && one_pass (vm_tab g) then AOk w else InitTupleLeft w n);
    group_passes fuel w offset [].
End Scan.
End Algorithm.
