(* ===== verification/GroupFindings.v ===== *)
(** * A scan that gives a group twice (core/AggregationAlgorithm.cpp)

    A grouping table with room for two groups, rows in three packs of a key and a value, and the
    minimum of the values.  In the first pass the statistics say that no counter is changed by the
    third pack, so its rows are not looked up; they stay in the filter and make groups again in the
    second pass. *)

From stdpp Require Import option sets.
From S2P Require Import Prelude BinTools ByteFile IntEncoders Doubles Aggregators RowStorage FilterDefs MatchTable MatchHash DistinctTable GroupTable GroupBy.

Module Duplicates.
#[local] Instance byte_encoder : KeyEncoder unit Z := {|
  ke_size := fun _ => 1; ke_max_code := fun _ => 255; ke_encode := fun _ v => [v]; ke_decode := fun _ b => hd 0 b;
  ke_update := fun e _ => e; ke_clear := fun e => e |}.
#[local] Instance byte_rough : RoughEncoder unit := {|
  re_put := fun _ v => Some [v]; re_unordered := fun _ => false; re_impossible := fun _ _ _ => false |}.
#[local] Instance hash_table : MatchTable HashTable := Hash_MatchTable (fun _ => []).

Definition row (k v : Z) : row_data Z := mkRow [k] [mkSource false v None (mkEncoded 0 [])].
Definition pack_of (rows : list (row_data Z)) (lo hi : Z) : pack Z :=
  mkPack rows false [mkPackColumn false 0 1 9 1 9 NULL_VALUE_64 []] [mkPackColumn false 0 lo hi lo hi NULL_VALUE_64 []].

Definition packs : list (pack Z) :=
  [pack_of [row 1 5; row 2 6] 5 6; pack_of [row 1 3; row 3 9] 3 9; pack_of [row 1 7; row 2 8] 7 8].

(** SELECT k, MIN(v) ... GROUP BY k; the memory of the table has room for [limit] groups. *)
Definition scan (limit : Z) : ares (list (list Z * list Z)) :=
  match Groups_Initialize (fun _ tw iw mw => Hash_Init (fun _ => []) 1000000 10 tw iw mw) [tt] [(mkAgg false (Min_new W32), None)] with
  | None => AUndef
  | Some g =>
      r <<- MultiDimensionalGroupByScan (fun _ => None) (fun _ => mkEncoded 0 []) [mkValueColumn AS_INT64 true false false 0 100] 1
              (fun t => if vm_rows t <? limit then 1 else 0) 10 100 [] packs 5 (fun _ => false) g 0;
      AOk (map (fun x => (rs_keys x, map fst (rs_values x))) (snd r))
  end.

(** With room for all the groups every group comes once, with the least value; with room for two, the
    groups 1 and 2 come again. *)
Theorem AggregateRough_duplicates :
  scan 9 = AOk [([1], [3]); ([2], [6]); ([3], [9])] /\
  scan 2 = AOk [([1], [3]); ([2], [6]); ([3], [9]); ([1], [7]); ([2], [8])].
Proof. split; vm_compute; reflexivity. Qed.
End Duplicates.
